(* ===== verification/_CoqProject ===== *)
-Q . S2P
Prelude.v
Digits.v
Ring.v
CMem.v
Pmm.v
Telemetry.v
Dmesg.v
Alloc.v
AllocSpec.v
Proc.v
Timer.v
Caps.v
Sched.v
SchedSpec.v
Ipc.v
IpcQueue.v
IpcSpec.v
IpcCreate.v
IpcNs.v
Vfs.v
VfsSpec.v
BlockDev.v
Ata.v
Virtio.v
Fat32.v
Fat32Spec.v
Fat32Write.v
Fat32Limits.v
Btrfs.v
BtrfsSpec.v
Elf.v
Syscall.v
SyscallSpec.v
Float64.v
Vm.v
VmGc.v
VmStr.v
VmSafe.v
VmStep.v
VmEnv.v
VmLoad.v
Libc.v
LibcSpec.v
LibcFormat.v
Console.v
TextBuf.v
LineEdit.v
LineEditSpec.v
Stubs.v
Shell.v
ShellSpec.v
Nano.v
NanoSpec.v
Boot.v
Natives.v
NativesSpec.v
SageEnv.v
Stdio.v
Bridge.v
BridgeRun.v
BridgeTasks.v
IpcUser.v
Kmain.v
KmainSpec.v
FileStack.v
Lexer.v
LexerSpec.v
LexerLayout.v
