(* ===== verification/Prelude.v ===== *)
(** * SageOS kernel: a verification library

    A model in Gallina of the kernel under src/sageos_build/kernel, with the
    theorems that say what its parts do.  Paths below are relative to that
    directory, or to src/sageos_build where they start with sage_lang.

    ** The program

    SageOS is a kernel for one processor and one address space.  A bitmap gives
    out page frames and a free-list heap gives out blocks.  Threads are scheduled
    cooperatively in a fixed table.  A timer tick drives a watchdog.  Threads talk
    through IPC endpoints, guarded by capabilities.  Files are reached through a
    mount table over backends, FAT32 and Btrfs, on an ATA or VirtIO disk.  System
    calls combine these, and load and run ELF programs.  Every part writes to a
    trace buffer, and some to a text log.  A byte-code machine runs compiled programs of the Sage
    language, with native functions that reach the rest of the kernel; an
    interpreter of the language runs scripts, one thread at a time.  A shell with a
    line editor and a text editor reads commands from the console.  [kmain]
    initialises all this in order and becomes the idle thread.

    ** Files

    Foundations:
    - Prelude: outcomes, machine integers, arrays with checked access, tactics.
    - Digits, Ring, CMem: digit loops, circular buffers, byte memory.
    - Proc: routines that give up the processor.

    Memory and logs:
    - Pmm (core/mm.c): the frame allocator, [phys_init], [phys_alloc], [phys_free].
    - Telemetry (core/telemetry.c), Dmesg (core/dmesg.c): trace and text log.
    - Alloc (core/sagelang/sage_alloc.c): the heap on the bytes of its arena.
      AllocSpec relates it to a sequence of blocks.

    Threads:
    - Timer (core/sagelang/timer_bridge.c), for three architectures.
    - Caps (include/scheduler_ipc_ext.h, core/scheduler_ipc_ext.c): capability
      tables.
    - Sched (core/scheduler.c): creation, round robin, blocking, exit, the watchdog
      and the tick handler.  SchedSpec has its theorems.

    IPC (core/ipc.c):
    - Ipc: endpoints, rings, ports, the namespace, every IPC system call.
    - IpcQueue, IpcSpec, IpcCreate, IpcNs: theorems on the message queue, on what
      rights threads can hold, on creation and narrowing, on names.

    Files:
    - Vfs (fs/vfs.c): paths, mounts, operations.  VfsSpec has its theorems.
    - BlockDev (include/ata.h): the interface of a block device, a class with laws.
    - Ata (core/ata_pio.c): the driver, an instance of that class over a drive that
      follows the ATA protocol and shows neither data nor errors while it is busy.
      Virtio (core/virtio.c): another one, over a device that offers no feature that
      changes how requests are passed and serves reads before the driver gives up.
    - Fat32 (fs/fat32.c) over any block device.  Fat32Spec, Fat32Write and
      Fat32Limits have its theorems.
    - Btrfs (fs/btrfs.c, include/btrfs.h): chunk map, tree search, paths, reading.
      BtrfsSpec has its theorems.

    Programs:
    - Elf (fs/elf.c): validation, loading, the initial stack.
    - Syscall (core/syscall.c, [sys_brk], [sys_execve]): every system call and the
      dispatcher.  SyscallSpec has its theorems.

    The language machine (core/sagelang/metal_vm.c, include/metal_value.h):
    - Float64: what the machine uses of binary64 arithmetic.
    - Vm: values, pools, strings, scopes, the collector, the instructions, the
      loader of program files.  Over any type of kernel state, [v_world].
    - VmGc, VmStr, VmSafe, VmStep, VmEnv, VmLoad: theorems on the collector, the
      pool of strings, safety, scopes and loading.
    - Natives (shell/sage_shell_entry.c): the functions given to programs, and how
      the kernel starts a program.  NativesSpec has its theorems.

    Library, console and shell:
    - Libc (core/sagelang/sage_libc_shim.c): strings, memory, numbers, [vsnprintf].
      LibcSpec and LibcFormat have its theorems.
    - Console (core/virt_console.c, core/virt_keyboard.c), Stubs
      (core/kernel_stubs.c).
    - TextBuf, LineEdit (shell/shell.c): the line editor, history, completion.
      LineEditSpec has its theorems.
    - Shell (shell/shell.c, shell/extra_cmds.c): the commands, over an interface for
      files that Vfs implements.  ShellSpec has its theorems.
    - Nano (shell/extra_cmds.c): the text editor.  NanoSpec has its theorems.
    - Boot (core/bootlog.c, core/boot.c, fs/swap.c): boot log and stages, swap.

    The interpreter on the kernel, and the whole:
    - SageEnv (sage_lang/core/src/c/env.c): environments of scripts and their
      collection.
    - Stdio (core/sagelang/libsage_port.c): files as the interpreter sees them.
    - Bridge, BridgeRun, BridgeTasks (core/sagelang/sageos_bridge.c): the native
      functions and their registration, the lock, running scripts, tasks, input.
    - IpcUser (core/ipc_user.c): the wrappers programs call.
    - Kmain (core/virt_main.c): [kmain], as a composition of all components over one
      state.  KmainSpec has its theorem.
    - FileStack: the layers from the block device over FAT32 and the mount table to
      the streams of the interpreter and the commands of the shell, put together.

    ** How the code is represented

    Static variables are the fields of a record per component ([pmm], [heap],
    [kstate], [istate], [vstate], [sstate]), passed and returned.  [kstate] is the
    state of scheduler, timer and heap.  [istate] extends it with IPC, and [sstate]
    with the file system, the log and the console.  A C function is a definition of
    the same name; a loop is a fixpoint of its own.  Unsigned arithmetic is written
    with [u8], [u16], [u32], [u64], conversions to signed types with [s32], [s64].
    Arrays are lists read and written with [rd] and [wr], which fault outside the
    array.  Pointers to table entries are indices; pointers into the heap and into
    programs are addresses of a byte memory.  C strings are lists of characters
    without the final NUL.

    The result of a computation is an [outcome]: a value, a fault (an access that C
    does not define), or the end of the loop budget.  [completes m P] says that [m]
    ends with a value that satisfies [P]; most theorems have this form, so they
    exclude faults and endless loops.  Code that can switch threads is a [proc]: at
    a switch it hands over the state and continues with the state the other threads
    leave, whatever they did.

    Parameters stand for what is outside the sources: the registers of the timer,
    the ports and the drive, the firmware's file protocol, the generated byte code
    behind the file system bridge, the backends, addresses chosen by the linker,
    the assembly of the context switch, and the unspecified contents of local
    variables before they are set.  Laws about them are fields of classes
    ([BlockDeviceLaws], [AtaDrive], [VirtioBlk]) or hypotheses, each with an instance.

    ** What is shown

    - Frames: the bitmap is the set of frames in use along every sequence of
      operations; [phys_init] frees exactly the frames it should; allocation is
      first fit; allocating and freeing is the identity.
    - Heap: blocks that clients hold are aligned, in the arena and disjoint, and no
      operation of the allocator touches their contents.  [sage_malloc], [sage_free]
      and [sage_realloc] refine first fit with splitting and merging.
    - Logs: they hold the latest entries or characters in order.
    - Threads: exactly one thread runs in every reachable state; scheduling is
      round robin with bounded waiting; creation and exit are specified.
    - IPC: the ring of an endpoint is a bounded queue; narrowing adds no right; a
      registered name is found; no thread ever obtains the right to send.
    - Files: normalisation equals a reference definition; resolution finds the
      longest mount; the mount table is a list; recursive removal ends.  The ATA
      and VirtIO drivers are block devices.  FAT32 reads exactly the contents of a file, writes
      inside a file are read back and leave other files alone.
    - Programs: a well-formed executable is loaded as its headers say.  A table of
      descriptors is a map of open files.  A thread without the capability for a
      path is refused.
    - Machine: a run from a well-formed machine makes no access out of bounds, as
      long as the operands the interpreter does not check are in range and the
      native functions return.  All of these keep the machine well formed, so a
      program file runs safely from [sage_run_file] down.  A collection keeps what
      is reachable.  Loading is the inverse of writing a program file.  Scopes are an
      environment, the pool of strings an injective table.
    - Library: strings and [vsnprintf] are as C defines them; numbers are read back.
    - Shell: the line editor and nano refine a text with a cursor; keys are decoded
      to what was sent; completion finds the candidates; cp copies over an existing
      file of the volume.
    - Interpreter: environments are nested finite maps; streams are positions in the
      contents of a file of the volume; every native function is found by its name;
      at most one thread is inside the lock.  The lexer gives the tokens of every
      printed program.
    - The whole: from zeroed memory, with boot information and a disk that is absent
      or works, [kmain] reaches the idle loop in a state that satisfies the invariants of scheduler, heap, capabilities, mounts, frames, log
      and interpreter, from which the theorems of the components start.

    Other theorems describe where the code does not do what it means to: sizes that
    wrap, a bitmap overrun at boot, capability tables shared by two threads, an idle
    loop that cannot end, a long name that leaves its buffer, a write that damages
    the allocation table, segments stored outside the allowed addresses, two ways
    out of the confinement to capabilities, Btrfs nodes larger than the variables
    they are read to, and ports that do not boot without boot information.

    ** Bounds

    Loops over tables and lists of digits take their exact length as fuel.  The
    walk of the free list has room for every block of 32 bytes the arena can hold.
    Loops that depend on input take a fuel argument that the theorems bound: FAT32
    chains by the clusters of the file, recursive removal by 257, program headers
    by 65537, since their number has 16 bits, reads of a file by one for every 512
    bytes and one more, a line of input by one for every byte.  The collector has
    fuel for every value it can mark.  [run_limit] is the limit of the code itself.
    The search of Btrfs needs the height of the tree, the lookup of a name the number
    of scopes.  The nesting of printed values and of scripts is a parameter.  Waiting loops have
    an arbitrary bound; theorems about them hold for every bound.

    ** What is not modelled

    The parser, evaluator, collector, compilers and tools of the language under
    sage_lang: a program of its own, of which the environments and the reading of
    files are modelled, and the rest is a parameter of the bridge.  Native functions
    of the bridge that only convert a value and call a modelled service appear by
    name.  core/sagelang/ipc_sagelang_binding.c and core/syscall_ipc_patch.c are not
    reached from any other code.  The descriptor tables and vectors of the processor,
    the serial line, and drawing on the screen.
    Spin locks are not modelled: on one processor with cooperative scheduling every
    operation between two switches is one step.  The only interrupt handler modelled
    is the timer tick, called by polling.  Of the C library only what the kernel
    defines itself is modelled. *)

From stdpp Require Import base tactics list numbers option gmap.

Open Scope Z_scope.

(** ** Outcomes

    A C statement either completes with a value ([Ret]), performs an access the
    C abstract machine does not define ([Fault]: a read or write outside an
    array, a dereference of NULL), or is still running when the loop budget of
    the model is used up ([OutOfFuel]). *)

Inductive outcome (A : Type) : Type :=
| Ret (a : A)
| Fault
| OutOfFuel.

Arguments Ret {A} a.
Arguments Fault {A}.
Arguments OutOfFuel {A}.

#[export] Instance outcome_ret : MRet outcome := fun A a => Ret a.
#[export] Instance outcome_bind : MBind outcome := fun A B f m =>
  match m with
  | Ret a => f a
  | Fault => Fault
  | OutOfFuel => OutOfFuel
  end.

(** [completes m P]: the computation returns, and its result satisfies [P]. *)
Definition completes {A} (m : outcome A) (P : A -> Prop) : Prop :=
  exists a, m = Ret a /\ P a.

(** ** Machine integers: a w-bit value is a [Z], the wrap-around is explicit. *)

Definition u8 (x : Z) : Z := x mod 2 ^ 8.
Definition u16 (x : Z) : Z := x mod 2 ^ 16.
Definition u32 (x : Z) : Z := x mod 2 ^ 32.
Definition u64 (x : Z) : Z := x mod 2 ^ 64.
Definition s32 (x : Z) : Z := (x + 2 ^ 31) mod 2 ^ 32 - 2 ^ 31.
Definition s64 (x : Z) : Z := (x + 2 ^ 63) mod 2 ^ 64 - 2 ^ 63.

(** ** C arrays: lists indexed by [Z]. *)

Definition zlen {A} (l : list A) : Z := Z.of_nat (length l).

Definition zget {A} (l : list A) (i : Z) : option A :=
  if 0 <=? i then l !! Z.to_nat i else None.

Definition zset {A} (l : list A) (i : Z) (x : A) : list A :=
  if 0 <=? i then <[Z.to_nat i := x]> l else l.

(** Checked access: outside the array is [Fault]. *)
Definition rd {A} (l : list A) (i : Z) : outcome A :=
  match zget l i with Some x => Ret x | None => Fault end.

Definition wr {A} (l : list A) (i : Z) (x : A) : outcome (list A) :=
  if (0 <=? i) && (i <? zlen l) then Ret (zset l i x) else Fault.

Declare Scope sage_scope.
Delimit Scope sage_scope with sage.
Notation "l .[ i ]" := (zget l i) (at level 1, i at level 200, format "l .[ i ]") : sage_scope.
Notation "l .[ i <- x ]" := (zset l i x)
  (at level 1, i at level 200, x at level 200, format "l .[ i  <-  x ]") : sage_scope.
Open Scope sage_scope.

(** ** Tactics *)

(** Turn boolean comparisons of hypotheses and goal into propositions. *)
Ltac bool_to_prop :=
  repeat match goal with
  | H : (_ && _)%bool = true |- _ => apply andb_prop in H as [? ?]
  | H : (_ || _)%bool = false |- _ => apply orb_false_elim in H as [? ?]
  | H : negb _ = true |- _ => apply negb_true_iff in H
  | H : negb _ = false |- _ => apply negb_false_iff in H
  | H : (_ =? _) = true |- _ => apply Z.eqb_eq in H
  | H : (_ =? _) = false |- _ => apply Z.eqb_neq in H
  | H : (_ <? _) = true |- _ => apply Z.ltb_lt in H
  | H : (_ <? _) = false |- _ => apply Z.ltb_ge in H
  | H : (_ <=? _) = true |- _ => apply Z.leb_le in H
  | H : (_ <=? _) = false |- _ => apply Z.leb_gt in H
  end.

(** Split on the innermost conditional or match of goal or hypotheses. *)
Ltac case_if :=
  match goal with
  | |- context [if ?b then _ else _] =>
      lazymatch type of b with bool => destruct b eqn:? end
  | H : context [if ?b then _ else _] |- _ =>
      lazymatch type of b with bool => destruct b eqn:? end
  end.

Ltac split_ifs := repeat (case_if; bool_to_prop; try lia).

(** Invert equations between outcomes, options, pairs. *)
Ltac inv_eq := repeat (simplify_eq/=; bool_to_prop).

(** Substitute an equation of two constructors. *)
Ltac injs := repeat match goal with
  | H : Ret _ = Ret _ |- _ => injection H as H; subst
  | H : Fault = Ret _ |- _ => discriminate H
  | H : OutOfFuel = Ret _ |- _ => discriminate H
  | H : Some _ = Some _ |- _ => injection H as H; subst
  | H : None = Some _ |- _ => discriminate H
  | H : Some _ = None |- _ => discriminate H
  | H : (_, _) = (_, _) |- _ => injection H as H; subst
  end.

Create HintDb sage discriminated.
Create Rewrite HintDb sage.

(** ** Lemmas on outcomes *)

Lemma bind_Ret_inv {A B} (m : outcome A) (f : A -> outcome B) b :
  (m ≫= f) = Ret b -> exists a, m = Ret a /\ f a = Ret b.
Proof. destruct m; simpl; intros H; try discriminate; eauto. Qed.

Lemma Ret_inj {A} (a b : A) : Ret a = Ret b -> a = b.
Proof. by intros [= ->]. Qed.

Lemma completes_Ret {A} (a : A) (P : A -> Prop) : P a -> completes (Ret a) P.
Proof. exists a. auto. Qed.

Lemma completes_bind {A B} (m : outcome A) (f : A -> outcome B) (P : A -> Prop) Q :
  completes m P -> (forall a, P a -> completes (f a) Q) -> completes (m ≫= f) Q.
Proof. intros (a & -> & Ha) Hf. simpl. auto. Qed.

Lemma bind_fault {A B} (m : outcome A) (f : A -> outcome B) (P : A -> Prop) :
  completes m P -> (forall a, P a -> f a = Fault) -> (m ≫= f) = Fault.
Proof. intros (a & -> & Ha) Hf. simpl. auto. Qed.

Lemma completes_mono {A} (m : outcome A) (P Q : A -> Prop) :
  completes m P -> (forall a, P a -> Q a) -> completes m Q.
Proof. intros (a & -> & Ha) HPQ. exists a. auto. Qed.

(** ** Lemmas on machine integers *)

Lemma u8_small x : 0 <= x < 2 ^ 8 -> u8 x = x.
Proof. apply Z.mod_small. Qed.
Lemma u16_small x : 0 <= x < 2 ^ 16 -> u16 x = x.
Proof. apply Z.mod_small. Qed.
Lemma u32_small x : 0 <= x < 2 ^ 32 -> u32 x = x.
Proof. apply Z.mod_small. Qed.
Lemma u64_small x : 0 <= x < 2 ^ 64 -> u64 x = x.
Proof. apply Z.mod_small. Qed.

Lemma u8_bound x : 0 <= u8 x < 2 ^ 8.
Proof. apply Z.mod_pos_bound. lia. Qed.
Lemma u32_bound x : 0 <= u32 x < 2 ^ 32.
Proof. apply Z.mod_pos_bound. lia. Qed.
Lemma u64_bound x : 0 <= u64 x < 2 ^ 64.
Proof. apply Z.mod_pos_bound. lia. Qed.

Lemma s32_small x : - 2 ^ 31 <= x < 2 ^ 31 -> s32 x = x.
Proof. intros H. unfold s32. rewrite Z.mod_small; lia. Qed.

#[export] Hint Resolve u8_bound u32_bound u64_bound : sage.

(** ** Lemmas on arrays *)

Lemma zlen_nonneg {A} (l : list A) : 0 <= zlen l.
Proof. unfold zlen. lia. Qed.

Lemma zlen_zset {A} (l : list A) i x : zlen (l.[i <- x]) = zlen l.
Proof. unfold zlen, zset. destruct (0 <=? i); rewrite ?length_insert; done. Qed.

Lemma zlen_app {A} (l k : list A) : zlen (l ++ k) = zlen l + zlen k.
Proof. unfold zlen. rewrite length_app. lia. Qed.

Lemma zlen_cons {A} (x : A) l : zlen (x :: l) = zlen l + 1.
Proof. unfold zlen. cbn [length]. lia. Qed.

Lemma zlen_replicate {A} n (x : A) : zlen (replicate n x) = Z.of_nat n.
Proof. unfold zlen. by rewrite length_replicate. Qed.

Lemma zget_Some_bound {A} (l : list A) i x : l.[i] = Some x -> 0 <= i < zlen l.
Proof.
  unfold zget, zlen. case_if; bool_to_prop; [|done].
  intros H%lookup_lt_Some. lia.
Qed.

Lemma zget_in_range {A} (l : list A) i : 0 <= i < zlen l -> exists x, l.[i] = Some x.
Proof.
  unfold zget, zlen. intros Hi. destruct (Z.leb_spec 0 i); [|lia].
  apply lookup_lt_is_Some. lia.
Qed.

Lemma zget_out {A} (l : list A) i : i < 0 \/ zlen l <= i -> l.[i] = None.
Proof.
  intros H. destruct (l.[i]) eqn:E; [|done].
  apply zget_Some_bound in E. lia.
Qed.

Lemma zget_zset_eq {A} (l : list A) i x : 0 <= i < zlen l -> l.[i <- x].[i] = Some x.
Proof.
  unfold zget, zset, zlen. intros. destruct (Z.leb_spec 0 i); [|lia].
  apply list_lookup_insert_eq. lia.
Qed.

Lemma zget_zset_ne {A} (l : list A) i j x : i <> j -> l.[i <- x].[j] = l.[j].
Proof.
  unfold zget, zset. intros. destruct (Z.leb_spec 0 i), (Z.leb_spec 0 j); try done.
  apply list_lookup_insert_ne. lia.
Qed.

Lemma zget_zset {A} (l : list A) i j x :
  l.[i <- x].[j] = if (i =? j) && (0 <=? i) && (i <? zlen l) then Some x else l.[j].
Proof.
  destruct (Z.eqb_spec i j) as [->|Hne]; simpl; [|by apply zget_zset_ne].
  destruct (Z.leb_spec 0 j); simpl.
  - destruct (Z.ltb_spec j (zlen l)); [by apply zget_zset_eq|].
    rewrite !zget_out; rewrite ?zlen_zset; auto.
  - rewrite !zget_out; auto.
Qed.

Lemma zset_zset_eq {A} (l : list A) i x y : l.[i <- x].[i <- y] = l.[i <- y].
Proof. unfold zset. destruct (0 <=? i); [|done]. apply list_insert_insert_eq. Qed.

Lemma zset_id {A} (l : list A) i x : l.[i] = Some x -> l.[i <- x] = l.
Proof. unfold zget, zset. destruct (0 <=? i); [|done]. apply list_insert_id. Qed.

Lemma zget_replicate {A} n (x : A) i :
  0 <= i < Z.of_nat n -> (replicate n x).[i] = Some x.
Proof.
  unfold zget. intros. destruct (Z.leb_spec 0 i); [|lia].
  apply lookup_replicate. split; [done|lia].
Qed.

Lemma zget_replicate_inv {A} n (x y : A) i : (replicate n x).[i] = Some y -> y = x.
Proof.
  unfold zget. destruct (0 <=? i); [|done]. intros H. by apply lookup_replicate in H as [-> _].
Qed.

Lemma zget_nat {A} (l : list A) (i : nat) : l.[Z.of_nat i] = l !! i.
Proof. unfold zget. destruct (Z.leb_spec 0 (Z.of_nat i)); [|lia]. by rewrite Nat2Z.id. Qed.

Lemma zset_nat {A} (l : list A) (i : nat) x : l.[Z.of_nat i <- x] = <[i := x]> l.
Proof. unfold zset. destruct (Z.leb_spec 0 (Z.of_nat i)); [|lia]. by rewrite Nat2Z.id. Qed.

Lemma zget_lookup {A} (l : list A) i x : l.[i] = Some x <-> 0 <= i /\ l !! Z.to_nat i = Some x.
Proof. unfold zget. destruct (Z.leb_spec 0 i); [|split; [done|lia]]. split; [done|by intros [_ ?]]. Qed.

Lemma Forall_zget {A} (P : A -> Prop) (l : list A) i x : Forall P l -> l.[i] = Some x -> P x.
Proof. intros Hl Hx. apply zget_lookup in Hx as [_ Hx]. by eapply Forall_lookup_1. Qed.

Lemma forallb_Forall_false {A} (f : A -> bool) (l : list A) : forallb (fun x => negb (f x)) l = true -> Forall (fun x => f x = false) l.
Proof. induction l as [|x l IH]; [done|]. cbn. intros [H1 H2]%andb_true_iff. constructor; [by apply negb_true_iff|by apply IH]. Qed.

Lemma Forall_zset {A} (P : A -> Prop) (l : list A) i x : Forall P l -> P x -> Forall P (l.[i <- x]).
Proof. intros Hl Hx. unfold zset. destruct (0 <=? i); [by apply Forall_insert|done]. Qed.

Lemma zget_ext {A} (l k : list A) :
  zlen l = zlen k -> (forall i, 0 <= i < zlen l -> l.[i] = k.[i]) -> l = k.
Proof.
  intros Hlen H. apply list_eq. intros i.
  destruct (decide (Z.of_nat i < zlen l)).
  - specialize (H (Z.of_nat i)). unfold zget in H.
    destruct (Z.leb_spec 0 (Z.of_nat i)); [|lia].
    rewrite Nat2Z.id in H. apply H. lia.
  - unfold zlen in *. rewrite !(proj2 (lookup_ge_None _ _)); [done|lia|lia].
Qed.

Lemma zget_app_l {A} (l k : list A) i : i < zlen l -> (l ++ k).[i] = l.[i].
Proof.
  unfold zget, zlen. intros. destruct (Z.leb_spec 0 i); [|done].
  apply lookup_app_l. lia.
Qed.

Lemma zget_app_r {A} (l k : list A) i : zlen l <= i -> (l ++ k).[i] = k.[i - zlen l].
Proof.
  unfold zget, zlen. intros. destruct (Z.leb_spec 0 i), (Z.leb_spec 0 (i - Z.of_nat (length l))); try lia.
  rewrite lookup_app_r by lia. f_equal. lia.
Qed.

Lemma rd_Ret {A} (l : list A) i x : rd l i = Ret x <-> l.[i] = Some x.
Proof. unfold rd. destruct (l.[i]); split; congruence. Qed.

Lemma rd_in_range {A} (l : list A) i : 0 <= i < zlen l -> exists x, rd l i = Ret x /\ l.[i] = Some x.
Proof. intros H. destruct (zget_in_range l i H) as [x Hx]. exists x. by rewrite rd_Ret. Qed.

Lemma wr_in_range {A} (l : list A) i x : 0 <= i < zlen l -> wr l i x = Ret (l.[i <- x]).
Proof.
  unfold wr. intros.
  destruct (Z.leb_spec 0 i), (Z.ltb_spec i (zlen l)); simpl; done || lia.
Qed.

Lemma rd_some {A} (l : list A) i x : l.[i] = Some x -> rd l i = Ret x.
Proof. apply rd_Ret. Qed.

Lemma rd_cases {A} (l : list A) i : (exists x, l.[i] = Some x /\ rd l i = Ret x) \/ (l.[i] = None /\ rd l i = Fault).
Proof. unfold rd. destruct (l.[i]) as [x|]; [left; by exists x|by right]. Qed.

Lemma wr_some {A} (l : list A) i x y : l.[i] = Some x -> wr l i y = Ret (l.[i <- y]).
Proof. intros H. apply wr_in_range. by eapply zget_Some_bound. Qed.

Lemma wr_Ret {A} (l l' : list A) i x : wr l i x = Ret l' -> 0 <= i < zlen l /\ l' = l.[i <- x].
Proof.
  unfold wr. destruct (Z.leb_spec 0 i), (Z.ltb_spec i (zlen l)); cbn; try done. by intros <-%Ret_inj.
Qed.

Lemma wr_zlen {A} (l l' : list A) i x : wr l i x = Ret l' -> zlen l' = zlen l.
Proof. intros [_ ->]%wr_Ret. apply zlen_zset. Qed.

Lemma wr_out {A} (l : list A) i x : zlen l <= i -> wr l i x = Fault.
Proof. unfold wr. intros. case_if; bool_to_prop; [lia|done]. Qed.

Lemma rd_negative {A} (l : list A) i : i < 0 -> rd l i = Fault.
Proof. intros H. unfold rd. by rewrite zget_out by (by left). Qed.

Lemma rd_out {A} (l : list A) i : zlen l <= i -> rd l i = Fault.
Proof. unfold rd. intros. rewrite zget_out by auto. done. Qed.

#[export] Hint Rewrite @zlen_zset @zlen_app @zlen_replicate : sage.

(** ** Single bits of a word: the idiom [w & (1 << k)] *)

Lemma land_pow2_testbit x k : 0 <= k -> (Z.land x (2 ^ k) =? 0) = negb (Z.testbit x k).
Proof.
  intros Hk. destruct (Z.testbit x k) eqn:E; simpl.
  - apply Z.eqb_neq. intros H. apply (f_equal (fun w => Z.testbit w k)) in H.
    rewrite Z.land_spec, Z.pow2_bits_true, Z.bits_0, E in H by done. done.
  - apply Z.eqb_eq. apply Z.bits_inj_0. intros n. rewrite Z.land_spec.
    destruct (decide (n = k)) as [->|Hn]; [by rewrite E|].
    rewrite Z.pow2_bits_false by congruence. apply andb_false_r.
Qed.

Lemma testbit_lor_pow2 x k n :
  0 <= k -> Z.testbit (Z.lor x (2 ^ k)) n = (Z.testbit x n || (n =? k)).
Proof.
  intros Hk. rewrite Z.lor_spec. f_equal. destruct (Z.eqb_spec n k) as [->|Hn].
  - by apply Z.pow2_bits_true.
  - apply Z.pow2_bits_false. congruence.
Qed.

Lemma testbit_land_lnot_pow2 x k n :
  0 <= k -> 0 <= n ->
  Z.testbit (Z.land x (Z.lnot (2 ^ k))) n = (Z.testbit x n && negb (n =? k)).
Proof.
  intros Hk Hn. rewrite Z.land_spec, Z.lnot_spec by done. f_equal. f_equal.
  destruct (Z.eqb_spec n k) as [->|?].
  - by apply Z.pow2_bits_true.
  - apply Z.pow2_bits_false. congruence.
Qed.

Lemma u8_testbit x n : 0 <= n < 8 -> Z.testbit (u8 x) n = Z.testbit x n.
Proof. intros. unfold u8. by rewrite Z.mod_pow2_bits_low by lia. Qed.
