(* ===== verification/Digits.v ===== *)
(** * Digit loops

    The kernel prints integers with one idiom, in [put_uint] and
    [sage_vsnprintf] (core/sagelang/sage_libc_shim.c), [append_timestamp]
    (core/dmesg.c) and [metal_num_to_str] (core/sagelang/metal_vm.c): divide
    until zero, store the remainders least significant first, and emit them
    backwards. *)

From stdpp Require Import base tactics list numbers.
From S2P Require Import Prelude.

(** [while (v > 0) { tmp[tp++] = v % base; v /= base; }] on a [fuel]-bounded loop;
    the digits are those stored, least significant first. *)
Fixpoint digit_loop (fuel : nat) (base v : Z) : outcome (list Z) :=
  if 0 <? v then
    match fuel with
    | O => OutOfFuel
    | S n => ds ← digit_loop n base (v / base); Ret (v mod base :: ds)
    end
  else Ret [].

(** Value of a digit list, least significant first. *)
Fixpoint digits_value (base : Z) (ds : list Z) : Z :=
  match ds with
  | [] => 0
  | d :: r => d + base * digits_value base r
  end.

(** A 64-bit value has at most 64 digits in any base. *)
Definition digit_fuel : nat := 64.

Lemma digit_loop_ok fuel base v :
  2 <= base -> 0 <= v < 2 ^ Z.of_nat fuel ->
  completes (digit_loop fuel base v) (fun ds =>
    digits_value base ds = v /\ Forall (fun d => 0 <= d < base) ds /\
    (length ds <= fuel)%nat /\ (0 < v -> ds <> [])).
Proof.
  intros Hb. revert v. induction fuel as [|n IH]; intros v Hv; simpl;
    destruct (Z.ltb_spec 0 v).
  - simpl in Hv. lia.
  - apply completes_Ret. simpl. auto with lia.
  - rewrite Nat2Z.inj_succ, Z.pow_succ_r in Hv by lia.
    eapply completes_bind; [apply IH|].
    { split; [apply Z.div_pos; lia|]. apply Z.div_lt_upper_bound; nia. }
    intros ds (Hval & Hds & Hlen & _). apply completes_Ret. simpl. split_and!.
    + rewrite Hval. pose proof (Z.div_mod v base). lia.
    + constructor; [apply Z.mod_pos_bound; lia|done].
    + lia.
    + done.
  - apply completes_Ret. simpl. split_and!; [lia|constructor|lia|lia].
Qed.

Lemma digit_loop_64 base v :
  2 <= base -> 0 <= v < 2 ^ 64 ->
  completes (digit_loop digit_fuel base v) (fun ds =>
    digits_value base ds = v /\ Forall (fun d => 0 <= d < base) ds /\
    (length ds <= digit_fuel)%nat /\ (0 < v -> ds <> [])).
Proof. intros. by apply digit_loop_ok. Qed.

(** Fewer digits: a value below [base ^ k] uses at most [k] of them. *)
Lemma digit_loop_length fuel base v ds k :
  2 <= base -> digit_loop fuel base v = Ret ds -> v < base ^ Z.of_nat k -> (length ds <= k)%nat.
Proof.
  intros Hb. revert v ds k. induction fuel as [|n IH]; intros v ds k H Hv; simpl in H;
    destruct (Z.ltb_spec 0 v); try discriminate; try (injection H as <-; simpl; lia).
  apply bind_Ret_inv in H as (ds' & Hds & [= <-]). simpl.
  destruct k as [|k]; [simpl in Hv; lia|].
  rewrite Nat2Z.inj_succ, Z.pow_succ_r in Hv by lia.
  apply le_n_S. eapply IH; [done|]. apply Z.div_lt_upper_bound; lia.
Qed.
