(* ===== verification/Ring.v ===== *)
(** * Circular buffers

    The kernel keeps three circular buffers over plain C arrays: the telemetry
  trace (core/telemetry.c), the kernel log (core/dmesg.c) and the message
  queue of an IPC endpoint (core/ipc.c).  This file holds what they share:
  the window of [count] elements that begins at index [start] of an array of
  [n] elements, and how stores and index updates change that window. *)

From stdpp Require Import base tactics list numbers option.
From S2P Require Import Prelude.

Section window.
Context {A : Type} `{!Inhabited A}.
Implicit Types (buf : list A) (n start count : Z).

(** The elements [buf[start % n], ..., buf[(start + count - 1) % n]]. *)
Definition window (n : Z) (buf : list A) (start count : Z) : list A :=
  (fun i => buf !!! Z.to_nat ((start + i) mod n)) <$> seqZ 0 count.

(** The last [n] elements of a history. *)
Definition latest (n : Z) (l : list A) : list A := drop (length l - Z.to_nat n) l.

Lemma length_window n buf start count : length (window n buf start count) = Z.to_nat count.
Proof. unfold window. by rewrite length_fmap, length_seqZ. Qed.

Lemma window_0 n buf start : window n buf start 0 = [].
Proof. done. Qed.

Lemma window_snoc n buf start count :
  0 <= count ->
  window n buf start (count + 1) =
    window n buf start count ++ [buf !!! Z.to_nat ((start + count) mod n)].
Proof.
  intros. unfold window. rewrite seqZ_app, fmap_app by lia. f_equal.
Qed.

Lemma window_cons n buf start count :
  0 < count ->
  window n buf start count =
    (buf !!! Z.to_nat (start mod n)) :: window n buf (start + 1) (count - 1).
Proof.
  intros. unfold window. rewrite seqZ_cons by lia. cbn [fmap list_fmap].
  rewrite Z.add_0_r. apply f_equal.
  replace (Z.succ 0) with (1 + 0) by lia. replace (Z.pred count) with (count - 1) by lia.
  rewrite <- fmap_add_seqZ, <- list_fmap_compose. apply list_fmap_ext. intros i x _.
  unfold compose. by rewrite Z.add_assoc.
Qed.

Lemma window_mod n buf start count :
  n <> 0 -> window n buf (start mod n) count = window n buf start count.
Proof.
  intros. unfold window. apply list_fmap_ext. intros i x _.
  by rewrite Zplus_mod_idemp_l.
Qed.

Lemma mod_offset_inj n start i j :
  0 <= i < n -> 0 <= j < n -> (start + i) mod n = (start + j) mod n -> i = j.
Proof.
  intros Hi Hj H. assert ((i - j) mod n = 0) as Hm.
  { replace (i - j) with ((start + i) - (start + j)) by lia.
    rewrite Zminus_mod, H, Z.sub_diag. apply Zmod_0_l. }
  assert (n <> 0) as Hn0 by lia. apply Z.mod_divide in Hm as [k Hk]; [|done].
  destruct (Z.lt_trichotomy k 0) as [?|[->|?]]; [nia|lia|nia].
Qed.

(** A store at the offset [k] from [start], outside the window, leaves it. *)
Lemma window_store_out n buf start count k x :
  0 <= count <= k -> k < n ->
  window n (buf.[(start + k) mod n <- x]) start count = window n buf start count.
Proof.
  intros Hc Hk. unfold window. apply list_fmap_ext. intros i y Hy.
  apply lookup_seqZ in Hy as [-> Hy].
  pose proof (Z.mod_pos_bound (start + k) n ltac:(lia)).
  pose proof (Z.mod_pos_bound (start + (0 + Z.of_nat i)) n ltac:(lia)).
  unfold zset. destruct (Z.leb_spec 0 ((start + k) mod n)); [|lia].
  apply list_lookup_total_insert_ne.
  intros Heq%Z2Nat.inj; [|lia|lia].
  apply mod_offset_inj in Heq; lia.
Qed.

Lemma lookup_total_store n buf k x :
  zlen buf = n -> 0 <= k < n -> buf.[k <- x] !!! Z.to_nat k = x.
Proof.
  intros Hl Hk. unfold zset, zlen in *. destruct (Z.leb_spec 0 k); [|lia].
  apply list_lookup_total_insert_eq. lia.
Qed.

Lemma rd_lookup_total n buf k : zlen buf = n -> 0 <= k < n -> rd buf k = Ret (buf !!! Z.to_nat k).
Proof.
  intros Hl Hk. destruct (rd_in_range buf k ltac:(lia)) as (x & -> & Hx). f_equal. symmetry.
  apply list_lookup_total_correct. unfold zget in Hx. destruct (Z.leb_spec 0 k); [done|lia].
Qed.

(** Storing at the end of a window that is not full appends. *)
Lemma window_store_snoc n buf start count x :
  zlen buf = n -> 0 <= count < n ->
  window n (buf.[(start + count) mod n <- x]) start (count + 1) =
    window n buf start count ++ [x].
Proof.
  intros Hl Hc. rewrite window_snoc, window_store_out by lia. do 2 f_equal.
  apply (lookup_total_store n); [done|]. apply Z.mod_pos_bound. lia.
Qed.

(** Overwriting the oldest element of a full window and advancing its start. *)
Lemma window_overwrite n buf start x :
  zlen buf = n -> 0 < n ->
  window n (buf.[start mod n <- x]) (start + 1) n = drop 1 (window n buf start n) ++ [x].
Proof.
  intros Hl Hn. rewrite (window_cons n buf start n) by done. cbn [drop].
  transitivity (window n (buf.[start mod n <- x]) (start + 1) (n - 1 + 1)); [f_equal; lia|].
  rewrite window_snoc by lia. f_equal.
  - replace (start mod n) with ((start + 1 + (n - 1)) mod n).
    + apply window_store_out; lia.
    + replace (start + 1 + (n - 1)) with (start + 1 * n) by lia. by rewrite Z.mod_add by lia.
  - replace (start + 1 + (n - 1)) with (start + 1 * n) by lia. rewrite Z.mod_add by lia.
    f_equal. apply (lookup_total_store n); [done|]. by apply Z.mod_pos_bound.
Qed.

(** ** Overwriting rings: [buf[head] = x; head = (head + 1) % n; if (count < n) count++]. *)

Record ring_inv (n : Z) buf (head count : Z) : Prop := {
  ring_len : zlen buf = n;
  ring_head : 0 <= head < n;
  ring_count : 0 <= count <= n;
  ring_partial : count < n -> head = count
}.

(** What the buffer holds, oldest first: from index 0 until it is full, from
    [head] afterwards. *)
Definition ring_view (n : Z) buf (head count : Z) : list A :=
  window n buf (if count <? n then 0 else head) count.

Definition ring_next (n head : Z) : Z := (head + 1) mod n.
Definition ring_incr (n count : Z) : Z := if count <? n then count + 1 else count.

Lemma ring_inv_push n buf head count x :
  ring_inv n buf head count ->
  ring_inv n (buf.[head <- x]) (ring_next n head) (ring_incr n count).
Proof.
  intros [Hl Hh Hc Hp]. unfold ring_next, ring_incr. split.
  - by rewrite zlen_zset.
  - apply Z.mod_pos_bound. lia.
  - destruct (Z.ltb_spec count n); lia.
  - destruct (Z.ltb_spec count n); intros; [|lia]. rewrite Hp by done.
    apply Z.mod_small. lia.
Qed.

Lemma latest_snoc n (l : list A) x :
  0 < n -> latest n (latest n l ++ [x]) = latest n (l ++ [x]).
Proof.
  intros Hn. unfold latest. rewrite !length_app, length_drop. simpl.
  rewrite <- (drop_app_le l [x]) by lia. rewrite drop_drop. f_equal. lia.
Qed.

Lemma latest_le n (l : list A) : zlen l <= n -> latest n l = l.
Proof. unfold latest, zlen. intros. replace (_ - _)%nat with 0%nat by lia. done. Qed.

(** The view after a store is the latest [n] elements of the view before and
    the new one. *)
Lemma ring_view_push n buf head count x :
  ring_inv n buf head count ->
  ring_view n (buf.[head <- x]) (ring_next n head) (ring_incr n count) =
    latest n (ring_view n buf head count ++ [x]).
Proof.
  intros [Hl Hh Hc Hp]. unfold ring_view, ring_next, ring_incr.
  destruct (Z.ltb_spec count n) as [Hlt|Hge].
  - rewrite latest_le
      by (unfold zlen; rewrite length_app, length_window; simpl; lia).
    rewrite Hp by done.
    assert (buf.[count <- x] = buf.[(0 + count) mod n <- x]) as ->
      by (rewrite Z.add_0_l, Z.mod_small by lia; done).
    rewrite <- (window_store_snoc n buf 0 count x) by (done || lia).
    destruct (Z.ltb_spec (count + 1) n); [done|].
    assert (n = count + 1) as -> by lia. by rewrite Z.mod_same by lia.
  - assert (count = n) as -> by lia. destruct (Z.ltb_spec n n); [lia|].
    rewrite window_mod by lia.
    replace (buf.[head <- x]) with (buf.[head mod n <- x]) by (by rewrite Z.mod_small).
    rewrite window_overwrite by (done || lia). unfold latest.
    rewrite length_app, length_window. simpl.
    rewrite drop_app_le by (rewrite length_window; lia). do 2 f_equal. lia.
Qed.
End window.
