(* ===== verification/CMem.v ===== *)
(** * Byte memory

    Memory of the C machine as a function from addresses to bytes, with the
    little-endian loads and stores of 1 to 8 bytes that the allocator, the
    filesystem drivers and the ELF loader perform, and the block operations of
    the libc shim ([sage_memset], [sage_memcpy], [sage_memmove]). *)

From stdpp Require Import base tactics list numbers.
From S2P Require Import Prelude.

Definition mem : Type := Z -> Z.

(** Static storage starts as zeroes. *)
Definition mem_zero : mem := fun _ => 0.

Fixpoint load_le (n : nat) (m : mem) (a : Z) : Z :=
  match n with
  | O => 0
  | S k => m a + 256 * load_le k m (a + 1)
  end.

Definition in_block (a n x : Z) : bool := (a <=? x) && (x <? a + n).

Definition store_le (n : nat) (m : mem) (a v : Z) : mem := fun x =>
  if in_block a (Z.of_nat n) x then (v / 256 ^ (x - a)) mod 256 else m x.

Definition load32 : mem -> Z -> Z := load_le 4.
Definition load64 : mem -> Z -> Z := load_le 8.
Definition store32 : mem -> Z -> Z -> mem := store_le 4.
Definition store64 : mem -> Z -> Z -> mem := store_le 8.

Definition memset (m : mem) (a c n : Z) : mem := fun x => if in_block a n x then u8 c else m x.
Definition memcpy (m : mem) (dst src n : Z) : mem := fun x =>
  if in_block dst n x then m (src + (x - dst)) else m x.

(** The loops of the libc shim, byte by byte. *)
Fixpoint memset_loop (n : nat) (m : mem) (a c : Z) : mem :=
  match n with
  | O => m
  | S k => memset_loop k (store_le 1 m a (u8 c)) (a + 1) c
  end.

Fixpoint memcpy_loop (n : nat) (m : mem) (dst src : Z) : mem :=
  match n with
  | O => m
  | S k => memcpy_loop k (store_le 1 m dst (m src)) (dst + 1) (src + 1)
  end.

(** Backwards: [n-1] down to 0. *)
Fixpoint memcpy_back_loop (n : nat) (m : mem) (dst src : Z) : mem :=
  match n with
  | O => m
  | S k => memcpy_back_loop k (store_le 1 m (dst + Z.of_nat k) (m (src + Z.of_nat k))) dst src
  end.

(** Two byte ranges do not meet. *)
Definition disjoint_ranges (a n b k : Z) : Prop := a + n <= b \/ b + k <= a.

(** [m] and [m'] agree on [n] bytes from [a]. *)
Definition agree (m m' : mem) (a n : Z) : Prop := forall x, a <= x < a + n -> m x = m' x.

Definition mem_wf (m : mem) : Prop := forall x, 0 <= m x < 256.

(** ** Lemmas *)

Lemma in_block_true a n x : in_block a n x = true <-> a <= x < a + n.
Proof. unfold in_block. rewrite andb_true_iff, Z.leb_le, Z.ltb_lt. done. Qed.

Lemma in_block_false a n x : in_block a n x = false <-> x < a \/ a + n <= x.
Proof.
  unfold in_block. rewrite andb_false_iff, Z.leb_gt, Z.ltb_ge. done.
Qed.

Lemma in_block_in a n x : a <= x < a + n -> in_block a n x = true.
Proof. apply in_block_true. Qed.

Lemma in_block_out a n x : x < a \/ a + n <= x -> in_block a n x = false.
Proof. apply in_block_false. Qed.

Lemma load_agree n m m' a : agree m m' a (Z.of_nat n) -> load_le n m a = load_le n m' a.
Proof.
  revert a. induction n as [|n IH]; intros a H; [done|]. simpl.
  rewrite (H a) by lia. f_equal. f_equal. apply IH. intros x Hx. apply H. lia.
Qed.

Lemma load_bound n m a : mem_wf m -> 0 <= load_le n m a < 256 ^ Z.of_nat n.
Proof.
  intros Hm. revert a. induction n as [|n IH]; intros a; [simpl; lia|].
  cbn [load_le]. rewrite Nat2Z.inj_succ, Z.pow_succ_r by lia.
  specialize (IH (a + 1)). specialize (Hm a). lia.
Qed.

(** Loading the [n] low bytes of a stored value. *)
Lemma load_bytes n m a v :
  (forall i, 0 <= i < Z.of_nat n -> m (a + i) = (v / 256 ^ i) mod 256) ->
  load_le n m a = v mod 256 ^ Z.of_nat n.
Proof.
  revert a v. induction n as [|n IH]; intros a v H; [simpl; by rewrite Z.mod_1_r|].
  cbn [load_le]. rewrite (IH (a + 1) (v / 256)).
  - replace (m a) with (m (a + 0)) by (f_equal; lia). rewrite (H 0) by lia.
    rewrite Z.pow_0_r, Z.div_1_r, Nat2Z.inj_succ, Z.pow_succ_r by lia.
    rewrite Z.rem_mul_r by (try apply Z.pow_pos_nonneg; lia). done.
  - intros i Hi. replace (a + 1 + i) with (a + (i + 1)) by lia. rewrite H by lia.
    rewrite Z.div_div by (try apply Z.pow_pos_nonneg; lia).
    by rewrite Z.pow_add_r, Z.pow_1_r, (Z.mul_comm 256) by lia.
Qed.

Lemma load_store_same n m a v : load_le n (store_le n m a v) a = v mod 256 ^ Z.of_nat n.
Proof.
  apply load_bytes. intros i Hi. unfold store_le. rewrite in_block_in by lia.
  do 3 f_equal. lia.
Qed.

Lemma store_agree n m a v b k :
  disjoint_ranges a (Z.of_nat n) b k -> agree (store_le n m a v) m b k.
Proof.
  intros H x Hx. unfold store_le. rewrite in_block_out; [done|]. unfold disjoint_ranges in H. lia.
Qed.

Lemma load_store_ne n k m a v b :
  disjoint_ranges a (Z.of_nat n) b (Z.of_nat k) -> load_le k (store_le n m a v) b = load_le k m b.
Proof. intros H. by apply load_agree, store_agree. Qed.

Lemma memset_agree m a c n b k : disjoint_ranges a n b k -> agree (memset m a c n) m b k.
Proof.
  intros H x Hx. unfold memset. rewrite in_block_out; [done|]. unfold disjoint_ranges in H. lia.
Qed.

Lemma memcpy_agree m dst src n b k :
  disjoint_ranges dst n b k -> agree (memcpy m dst src n) m b k.
Proof.
  intros H x Hx. unfold memcpy. rewrite in_block_out; [done|]. unfold disjoint_ranges in H. lia.
Qed.

Lemma agree_trans m1 m2 m3 a n : agree m1 m2 a n -> agree m2 m3 a n -> agree m1 m3 a n.
Proof. intros H1 H2 x Hx. rewrite H1 by done. by apply H2. Qed.

Lemma agree_sub m m' a n b k : agree m m' a n -> a <= b -> b + k <= a + n -> agree m m' b k.
Proof. intros H ? ? x Hx. apply H. lia. Qed.

Lemma store_wf n m a v : mem_wf m -> mem_wf (store_le n m a v).
Proof.
  intros H x. unfold store_le. case_if; [|apply H]. apply Z.mod_pos_bound. lia.
Qed.

Lemma memset_wf m a c n : mem_wf m -> mem_wf (memset m a c n).
Proof. intros H x. unfold memset. case_if; [apply (u8_bound c)|apply H]. Qed.

Lemma memcpy_wf m d s n : mem_wf m -> mem_wf (memcpy m d s n).
Proof. intros H x. unfold memcpy. case_if; apply H. Qed.

Lemma mem_zero_wf : mem_wf mem_zero.
Proof. intros x. unfold mem_zero. lia. Qed.

(** 64- and 32-bit instances. *)
Lemma load64_store64 m a v : load64 (store64 m a v) a = u64 v.
Proof. unfold load64, store64. by rewrite load_store_same. Qed.

Lemma load32_store32 m a v : load32 (store32 m a v) a = u32 v.
Proof. unfold load32, store32. by rewrite load_store_same. Qed.

Lemma load64_bound m a : mem_wf m -> 0 <= load64 m a < 2 ^ 64.
Proof. intros H. by apply (load_bound 8). Qed.

(** The byte loops are the block operations. *)
Lemma store_byte m a v x : store_le 1 m a v x = if x =? a then v mod 256 else m x.
Proof.
  unfold store_le, in_block. change (Z.of_nat 1) with 1.
  destruct (Z.eqb_spec x a) as [->|Hne].
  - rewrite Z.leb_refl. destruct (Z.ltb_spec a (a + 1)); [|lia].
    simpl. by rewrite Z.sub_diag, Z.pow_0_r, Z.div_1_r.
  - destruct (Z.leb_spec a x), (Z.ltb_spec x (a + 1)); simpl; (done || lia).
Qed.

Lemma memset_loop_spec n m a c x : memset_loop n m a c x = memset m a c (Z.of_nat n) x.
Proof.
  revert m a. induction n as [|n IH]; intros m a; unfold memset in *.
  - simpl. rewrite in_block_out by lia. done.
  - simpl memset_loop. rewrite IH, store_byte. unfold u8. rewrite Zmod_mod.
    destruct (Z.eqb_spec x a) as [->|Hne].
    + rewrite in_block_out by lia. rewrite in_block_in by lia. done.
    + destruct (in_block (a + 1) (Z.of_nat n) x) eqn:E.
      * apply in_block_true in E. rewrite in_block_in by lia. done.
      * apply in_block_false in E. rewrite in_block_out by lia. done.
Qed.

(** Forward copying is a block copy when the destination does not start inside
    the source. *)
Lemma memcpy_loop_spec n m dst src x :
  mem_wf m -> dst <= src \/ src + Z.of_nat n <= dst ->
  memcpy_loop n m dst src x = memcpy m dst src (Z.of_nat n) x.
Proof.
  revert m dst src. induction n as [|n IH]; intros m dst src Hm Hd; unfold memcpy in *.
  - simpl. rewrite in_block_out by lia. done.
  - simpl memcpy_loop. rewrite IH by (apply store_wf || lia; done). rewrite !store_byte.
    rewrite (Z.mod_small (m src)) by apply Hm.
    destruct (in_block (dst + 1) (Z.of_nat n) x) eqn:E.
    + apply in_block_true in E. rewrite in_block_in by lia.
      destruct (Z.eqb_spec (src + 1 + (x - (dst + 1))) dst); [lia|]. f_equal. lia.
    + apply in_block_false in E. destruct (Z.eqb_spec x dst) as [->|Hne].
      * rewrite in_block_in by lia. f_equal. lia.
      * rewrite in_block_out by lia. done.
Qed.

(** Backward copying is one when the source does not start inside the
    destination. *)
Lemma memcpy_back_loop_spec n m dst src x :
  mem_wf m -> src <= dst \/ dst + Z.of_nat n <= src ->
  memcpy_back_loop n m dst src x = memcpy m dst src (Z.of_nat n) x.
Proof.
  revert m. induction n as [|n IH]; intros m Hm Hd; unfold memcpy in *.
  - simpl. rewrite in_block_out by lia. done.
  - simpl memcpy_back_loop. rewrite IH by (apply store_wf || lia; done). rewrite !store_byte.
    rewrite (Z.mod_small (m (src + Z.of_nat n))) by apply Hm.
    destruct (in_block dst (Z.of_nat n) x) eqn:E.
    + apply in_block_true in E. rewrite in_block_in by lia.
      destruct (Z.eqb_spec (src + (x - dst)) (dst + Z.of_nat n)); [lia|]. done.
    + apply in_block_false in E. destruct (Z.eqb_spec x (dst + Z.of_nat n)) as [->|Hne].
      * rewrite in_block_in by lia. f_equal. lia.
      * rewrite in_block_out by lia. done.
Qed.

#[global] Arguments load_le : simpl never.
#[global] Arguments store_le : simpl never.
#[global] Arguments load32 : simpl never.
#[global] Arguments load64 : simpl never.
#[global] Arguments store32 : simpl never.
#[global] Arguments store64 : simpl never.
