(* ===== verification/Pmm.v ===== *)
(** * Physical memory manager (kernel/core/mm.c)

    The bitmap frame allocator: [pmm_bitmap] holds one bit per 4 KiB frame of
    the first 128 MiB, a set bit meaning reserved or in use.  The bitmap is the
    C array itself (a list of 4096 bytes), so an access outside it is a
    [Fault]. *)

From stdpp Require Import base tactics list numbers option gmap.
From S2P Require Import Prelude.

Module Pmm.

(** ** Model *)

Definition PAGE_SIZE : Z := 4096.
Definition MAX_RAM : Z := 128 * 1024 * 1024.
Definition MAX_FRAMES : Z := MAX_RAM / PAGE_SIZE.
Definition BITMAP_SIZE : Z := MAX_FRAMES / 8.

(** The static variables of mm.c. *)
Record pmm := mk_pmm {
  pmm_bitmap : list Z;
  pmm_total_frames : Z;
  pmm_used_frames : Z
}.

(** The fields of [SageOSBootInfo] that [phys_init] reads; [memory_usable] only
    for its line in the log, which is in Kmain. *)
Record boot_info := mk_boot_info {
  memory_total : Z;
  memory_usable : Z;
  kernel_base : Z;
  kernel_size : Z
}.

Definition pmm_set_frame (p : pmm) (frame : Z) : outcome pmm :=
  b ← rd (pmm_bitmap p) (frame / 8);
  bm ← wr (pmm_bitmap p) (frame / 8) (u8 (Z.lor b (Z.shiftl 1 (frame mod 8))));
  Ret (mk_pmm bm (pmm_total_frames p) (pmm_used_frames p)).

Definition pmm_unset_frame (p : pmm) (frame : Z) : outcome pmm :=
  b ← rd (pmm_bitmap p) (frame / 8);
  bm ← wr (pmm_bitmap p) (frame / 8) (u8 (Z.land b (Z.lnot (Z.shiftl 1 (frame mod 8)))));
  Ret (mk_pmm bm (pmm_total_frames p) (pmm_used_frames p)).

(** The C result is the masked bit, used as a truth value. *)
Definition pmm_is_frame_set (p : pmm) (frame : Z) : outcome bool :=
  b ← rd (pmm_bitmap p) (frame / 8);
  Ret (negb (Z.land b (Z.shiftl 1 (frame mod 8)) =? 0)).

(** The loop of [pmm_count_used_frames] from frame [i]. *)
Fixpoint count_from (fuel : nat) (p : pmm) (i count : Z) : outcome Z :=
  if i <? pmm_total_frames p then
    match fuel with
    | O => OutOfFuel
    | S n =>
        set ← pmm_is_frame_set p i;
        count_from n p (u64 (i + 1)) (if set : bool then u64 (count + 1) else count)
    end
  else Ret count.

Definition pmm_count_used_frames (p : pmm) : outcome Z :=
  count_from (Z.to_nat (pmm_total_frames p)) p 0 0.

(** [for (addr = start; addr < end; addr += PAGE_SIZE) body] on 64-bit addresses. *)
Fixpoint for_pages (fuel : nat) (body : Z -> pmm -> outcome pmm) (addr end_ : Z) (p : pmm)
  : outcome pmm :=
  if addr <? end_ then
    match fuel with
    | O => OutOfFuel
    | S n => p' ← body addr p; for_pages n body (u64 (addr + PAGE_SIZE)) end_ p'
    end
  else Ret p.

Definition page_fuel (start end_ : Z) : nat := Z.to_nat ((end_ - start) / PAGE_SIZE + 1).

(** [pmm_used_frames] is not touched by [phys_init]: it keeps its old value. *)
Definition phys_init (info : boot_info) (p : pmm) : outcome pmm :=
  let bm := replicate (Z.to_nat BITMAP_SIZE) 255 in
  let total := memory_total info / PAGE_SIZE in
  let total := if total >? MAX_FRAMES then MAX_FRAMES else total in
  let p := mk_pmm bm total (pmm_used_frames p) in
  let usable_start := 1048576 in
  let usable_end := memory_total info in
  p ← for_pages (page_fuel usable_start usable_end)
        (fun addr p =>
           let frame := addr / PAGE_SIZE in
           if frame <? pmm_total_frames p then pmm_unset_frame p frame else Ret p)
        usable_start usable_end p;
  let kernel_start := kernel_base info in
  let kernel_end := u64 (kernel_base info + kernel_size info) in
  for_pages (page_fuel kernel_start kernel_end)
    (fun addr p => pmm_set_frame p (addr / PAGE_SIZE))
    kernel_start kernel_end p.

(** The boot information [kmain] makes up when the loader passed none: the
    kernel is linked at an address that depends on the architecture. *)
Inductive arch := x86_64 | aarch64 | riscv64.

Definition kmain_dummy_info (a : arch) : boot_info :=
  {| memory_total := 1024 * 1024 * 1024;
     memory_usable := 1024 * 1024 * 1024;
     kernel_base := match a with
                    | x86_64 => 0x100000
                    | aarch64 => 0x40000000
                    | riscv64 => 0x80000000
                    end;
     kernel_size := 0x1000000 |}.

(** The scan of [phys_alloc] from frame [i]; the C pointer is an address, 0 for NULL. *)
Fixpoint alloc_from (fuel : nat) (p : pmm) (i : Z) : outcome (Z * pmm) :=
  if i <? pmm_total_frames p then
    match fuel with
    | O => OutOfFuel
    | S n =>
        set ← pmm_is_frame_set p i;
        if negb set then
          p' ← pmm_set_frame p i;
          Ret (u64 (i * PAGE_SIZE),
               mk_pmm (pmm_bitmap p') (pmm_total_frames p') (u64 (pmm_used_frames p' + 1)))
        else alloc_from n p (u64 (i + 1))
    end
  else Ret (0, p).

Definition phys_alloc (p : pmm) : outcome (Z * pmm) :=
  alloc_from (Z.to_nat (pmm_total_frames p)) p 0.

Definition phys_free (addr : Z) (p : pmm) : outcome pmm :=
  let frame := addr / PAGE_SIZE in
  if frame <? pmm_total_frames p then
    p' ← pmm_unset_frame p frame;
    Ret (mk_pmm (pmm_bitmap p') (pmm_total_frames p') (u64 (pmm_used_frames p' - 1)))
  else Ret p.

(** ** Specification *)

(** The bit of frame [f]; frames outside the bitmap read as clear. *)
Definition frame_set (p : pmm) (f : Z) : bool :=
  match (pmm_bitmap p).[f / 8] with
  | Some b => Z.testbit b (f mod 8)
  | None => false
  end.

Record wf (p : pmm) : Prop := {
  wf_len : zlen (pmm_bitmap p) = BITMAP_SIZE;
  wf_bytes : forall i b, (pmm_bitmap p).[i] = Some b -> 0 <= b < 256;
  wf_total : 0 <= pmm_total_frames p <= MAX_FRAMES;
  wf_used : 0 <= pmm_used_frames p < 2 ^ 64
}.

(** [phys_alloc] in state [p] took frame [f], the lowest free one, reaching [p']. *)
Definition takes_frame (p : pmm) (f : Z) (p' : pmm) : Prop :=
  0 <= f < pmm_total_frames p /\
  frame_set p f = false /\ (forall g, 0 <= g < f -> frame_set p g = true) /\
  wf p' /\ pmm_total_frames p' = pmm_total_frames p /\
  pmm_used_frames p' = u64 (pmm_used_frames p + 1) /\
  forall g, frame_set p' g = frame_set p g || (g =? f).

Definition all_frames_set (p : pmm) : Prop :=
  forall g, 0 <= g < pmm_total_frames p -> frame_set p g = true.

(** The number of set bits among the first [n] frames. *)
Fixpoint set_below (p : pmm) (n : nat) : Z :=
  match n with
  | O => 0
  | S m => set_below p m + (if frame_set p (Z.of_nat m) then 1 else 0)
  end.

(** Abstract allocator: the frames handed out are a set [owned], the frames
    reserved at boot a set [rsv]; the bitmap is the union of the two. *)
Record rep (rsv : gset Z) (p : pmm) (owned : gset Z) : Prop := {
  rep_wf : wf p;
  rep_bits : forall f, 0 <= f < pmm_total_frames p ->
    frame_set p f = bool_decide (f ∈ rsv ∪ owned);
  rep_disj : owned ## rsv;
  rep_range : forall f, f ∈ owned -> 0 <= f < pmm_total_frames p;
  rep_used : pmm_used_frames p = Z.of_nat (size owned)
}.

(** The clients of the allocator: each call of [phys_alloc], and each call of
    [phys_free] on a frame handed out before and not released since. *)
Inductive pmm_step : pmm * gset Z -> pmm * gset Z -> Prop :=
| step_alloc p owned addr p' :
    phys_alloc p = Ret (addr, p') -> addr <> 0 ->
    pmm_step (p, owned) (p', {[addr / PAGE_SIZE]} ∪ owned)
| step_alloc_null p owned p' :
    phys_alloc p = Ret (0, p') -> pmm_step (p, owned) (p', owned)
| step_free p owned f p' :
    f ∈ owned -> phys_free (f * PAGE_SIZE) p = Ret p' ->
    pmm_step (p, owned) (p', owned ∖ {[f]}).

(** ** Lemmas *)

Lemma frame_split f g : f / 8 = g / 8 -> f mod 8 = g mod 8 -> f = g.
Proof. intros. rewrite (Z.div_mod f 8), (Z.div_mod g 8) by lia. congruence. Qed.

Lemma frame_index f : 0 <= f < MAX_FRAMES -> 0 <= f / 8 < BITMAP_SIZE.
Proof.
  intros. unfold BITMAP_SIZE. change MAX_FRAMES with 32768 in *. change (32768 / 8) with 4096.
  split; [apply Z.div_pos; lia|apply Z.div_lt_upper_bound; lia].
Qed.

Lemma shiftl_1 f : Z.shiftl 1 (f mod 8) = 2 ^ (f mod 8).
Proof. rewrite Z.shiftl_mul_pow2; [lia|]. apply Z.mod_pos_bound. lia. Qed.

Lemma byte_of_frame p f : wf p -> 0 <= f < MAX_FRAMES ->
  exists b, (pmm_bitmap p).[f / 8] = Some b /\ rd (pmm_bitmap p) (f / 8) = Ret b /\ 0 <= b < 256.
Proof.
  intros Hwf Hf. destruct (zget_in_range (pmm_bitmap p) (f / 8)) as [b Hb].
  { rewrite wf_len by done. by apply frame_index. }
  exists b. rewrite rd_Ret. eauto using wf_bytes.
Qed.

Lemma is_frame_set_ok p f : wf p -> 0 <= f < MAX_FRAMES ->
  pmm_is_frame_set p f = Ret (frame_set p f).
Proof.
  intros Hwf Hf. unfold pmm_is_frame_set, frame_set.
  destruct (byte_of_frame p f Hwf Hf) as (b & -> & -> & _). simpl.
  rewrite shiftl_1, land_pow2_testbit by (apply Z.mod_pos_bound; lia).
  by rewrite negb_involutive.
Qed.

(** A store into the byte of frame [f] changes the bits of that byte only. *)
Lemma frame_set_store p f b' g t u :
  wf p -> 0 <= f < MAX_FRAMES ->
  frame_set (mk_pmm ((pmm_bitmap p).[f / 8 <- b']) t u) g =
    if f / 8 =? g / 8 then Z.testbit b' (g mod 8) else frame_set p g.
Proof.
  intros Hwf Hf. unfold frame_set. simpl. rewrite zget_zset, wf_len by done.
  pose proof (frame_index f Hf).
  destruct (Z.eqb_spec (f / 8) (g / 8)); simpl; [|done].
  destruct (Z.leb_spec 0 (f / 8)), (Z.ltb_spec (f / 8) BITMAP_SIZE); simpl; done || lia.
Qed.

Lemma wf_store p f b' t u :
  wf p -> 0 <= b' < 256 -> 0 <= t <= MAX_FRAMES -> 0 <= u < 2 ^ 64 ->
  wf (mk_pmm ((pmm_bitmap p).[f / 8 <- b']) t u).
Proof.
  intros Hwf Hb Ht Hu. split; simpl; auto.
  - by rewrite zlen_zset, wf_len.
  - intros i b. rewrite zget_zset. case_if; [|by apply wf_bytes].
    intros [= <-]. done.
Qed.

Lemma set_frame_ok p f : wf p -> 0 <= f < MAX_FRAMES ->
  completes (pmm_set_frame p f) (fun p' =>
    wf p' /\ pmm_total_frames p' = pmm_total_frames p /\ pmm_used_frames p' = pmm_used_frames p /\
    forall g, frame_set p' g = frame_set p g || (g =? f)).
Proof.
  intros Hwf Hf. unfold pmm_set_frame.
  destruct (byte_of_frame p f Hwf Hf) as (b & Hb & -> & Hbb). simpl.
  rewrite wr_in_range by (rewrite wf_len by done; by apply frame_index). simpl.
  apply completes_Ret. split_and!; [|done|done|].
  - destruct Hwf. apply wf_store; [by split|apply u8_bound|done|done].
  - intros g. rewrite frame_set_store by done.
    destruct (Z.eqb_spec (f / 8) (g / 8)) as [E|E].
    + rewrite u8_testbit by (apply Z.mod_pos_bound; lia).
      rewrite shiftl_1, testbit_lor_pow2 by (apply Z.mod_pos_bound; lia).
      unfold frame_set. rewrite <- E, Hb. f_equal.
      destruct (Z.eqb_spec (g mod 8) (f mod 8)), (Z.eqb_spec g f); subst; auto.
      by destruct n; apply frame_split.
    + destruct (Z.eqb_spec g f); subst; [done|]. by rewrite orb_false_r.
Qed.

Lemma unset_frame_ok p f : wf p -> 0 <= f < MAX_FRAMES ->
  completes (pmm_unset_frame p f) (fun p' =>
    wf p' /\ pmm_total_frames p' = pmm_total_frames p /\ pmm_used_frames p' = pmm_used_frames p /\
    forall g, frame_set p' g = frame_set p g && negb (g =? f)).
Proof.
  intros Hwf Hf. unfold pmm_unset_frame.
  destruct (byte_of_frame p f Hwf Hf) as (b & Hb & -> & Hbb). simpl.
  rewrite wr_in_range by (rewrite wf_len by done; by apply frame_index). simpl.
  apply completes_Ret. split_and!; [|done|done|].
  - destruct Hwf. apply wf_store; [by split|apply u8_bound|done|done].
  - intros g. rewrite frame_set_store by done.
    destruct (Z.eqb_spec (f / 8) (g / 8)) as [E|E].
    + rewrite u8_testbit by (apply Z.mod_pos_bound; lia).
      rewrite shiftl_1, testbit_land_lnot_pow2 by (apply Z.mod_pos_bound; lia).
      unfold frame_set. rewrite <- E, Hb. f_equal. f_equal.
      destruct (Z.eqb_spec (g mod 8) (f mod 8)), (Z.eqb_spec g f); subst; auto.
      by destruct n; apply frame_split.
    + destruct (Z.eqb_spec g f); subst; [done|]. by rewrite andb_true_r.
Qed.

Lemma alloc_from_ok fuel p i :
  wf p -> 0 <= i <= pmm_total_frames p ->
  fuel = Z.to_nat (pmm_total_frames p - i) ->
  (forall g, 0 <= g < i -> frame_set p g = true) ->
  (exists f p', alloc_from fuel p i = Ret (f * PAGE_SIZE, p') /\ takes_frame p f p') \/
  (alloc_from fuel p i = Ret (0, p) /\ all_frames_set p).
Proof.
  intros Hwf. revert i. induction fuel as [|n IH]; intros i Hi Hfuel Hlow;
    pose proof (wf_total _ Hwf); change MAX_FRAMES with 32768 in *; simpl;
    destruct (Z.ltb_spec i (pmm_total_frames p)); try lia.
  - right. split; [done|]. intros ??. apply Hlow. lia.
  - rewrite is_frame_set_ok by (try done; change MAX_FRAMES with 32768; lia). simpl.
    destruct (frame_set p i) eqn:Ei; simpl.
    + rewrite u64_small by lia. destruct (IH (i + 1)) as [(f & p' & He & ?)|[He ?]]; try lia.
      { intros g Hg. destruct (decide (g = i)) as [->|]; [done|]. apply Hlow. lia. }
      * left. eauto.
      * right. auto.
    + left. destruct (set_frame_ok p i) as (p1 & -> & Hwf1 & Ht & Hu & Hb);
        [done|change MAX_FRAMES with 32768; lia|].
      simpl. eexists i, _. rewrite u64_small by (unfold PAGE_SIZE; lia).
      split; [done|]. unfold takes_frame. split_and!; try done; try lia; simpl; [|by rewrite Hu].
      destruct Hwf1. split; simpl; auto. apply u64_bound.
Qed.

Lemma phys_free_ok p f :
  wf p -> 0 <= f < pmm_total_frames p ->
  completes (phys_free (f * PAGE_SIZE) p) (fun p' =>
    wf p' /\ pmm_total_frames p' = pmm_total_frames p /\
    pmm_used_frames p' = u64 (pmm_used_frames p - 1) /\
    forall g, frame_set p' g = frame_set p g && negb (g =? f)).
Proof.
  intros Hwf Hf. unfold phys_free. rewrite Z.div_mul by done.
  destruct (Z.ltb_spec f (pmm_total_frames p)); [|lia].
  pose proof (wf_total _ Hwf).
  destruct (unset_frame_ok p f) as (p1 & -> & Hwf1 & Ht & Hu & Hb); [done|lia|].
  simpl. apply completes_Ret. simpl. rewrite Hu. split_and!; auto.
  destruct Hwf1. split; simpl; auto. apply u64_bound.
Qed.

(** Two well-formed bitmaps with the same bits are the same array. *)
Lemma bitmap_ext p q :
  wf p -> wf q -> (forall f, 0 <= f < MAX_FRAMES -> frame_set p f = frame_set q f) ->
  pmm_bitmap p = pmm_bitmap q.
Proof.
  intros Hp Hq H. apply zget_ext; [by rewrite !wf_len|].
  intros i Hi. rewrite wf_len in Hi by done.
  destruct (zget_in_range (pmm_bitmap p) i) as [b Hb]; [by rewrite wf_len|].
  destruct (zget_in_range (pmm_bitmap q) i) as [c Hc]; [by rewrite wf_len|].
  rewrite Hb, Hc. f_equal.
  pose proof (wf_bytes _ Hp _ _ Hb). pose proof (wf_bytes _ Hq _ _ Hc).
  rewrite <- (Z.mod_small b (2 ^ 8)), <- (Z.mod_small c (2 ^ 8)) by lia.
  apply Z.bits_inj'. intros n Hn. destruct (decide (n < 8)).
  - rewrite !Z.mod_pow2_bits_low by lia.
    specialize (H (i * 8 + n)). unfold frame_set in H.
    rewrite (Z.div_add_l i 8 n), (Z.div_small n 8), Z.add_0_r, Hb, Hc in H by lia.
    rewrite (Z.add_comm (i * 8)), Z.mod_add, Z.mod_small in H by lia.
    apply H. change BITMAP_SIZE with 4096 in Hi. change MAX_FRAMES with 32768. lia.
  - rewrite !Z.mod_pow2_bits_high by lia. done.
Qed.

Lemma surjective_pairing_pmm p :
  p = mk_pmm (pmm_bitmap p) (pmm_total_frames p) (pmm_used_frames p).
Proof. by destruct p. Qed.

(** A page loop over [start, end_) runs its body once per page, in order. *)
Lemma for_pages_ok (P : Z -> pmm -> Prop) body start end_ :
  0 <= start -> end_ <= 2 ^ 64 - PAGE_SIZE ->
  (forall j q, 0 <= j -> start + PAGE_SIZE * j < end_ -> P j q ->
     completes (body (start + PAGE_SIZE * j) q) (P (j + 1))) ->
  forall fuel k p, 0 <= k -> P k p -> (end_ - start) / PAGE_SIZE + 1 - k <= Z.of_nat fuel ->
  (k = 0 \/ start + PAGE_SIZE * (k - 1) < end_) ->
  completes (for_pages fuel body (start + PAGE_SIZE * k) end_ p) (fun q =>
    exists n, k <= n /\ end_ <= start + PAGE_SIZE * n /\
      (n = 0 \/ start + PAGE_SIZE * (n - 1) < end_) /\ P n q).
Proof.
  intros Hs He Hbody. change PAGE_SIZE with 4096 in *.
  induction fuel as [|m IH]; intros k p Hk HP Hfuel Hprev; simpl;
    destruct (Z.ltb_spec (start + 4096 * k) end_).
  - exfalso. assert (k <= (end_ - start) / 4096) by (apply Z.div_le_lower_bound; lia). lia.
  - apply completes_Ret. exists k. auto with lia.
  - eapply completes_bind; [by apply Hbody|]. intros q Hq.
    change PAGE_SIZE with 4096. rewrite u64_small by lia.
    replace (start + 4096 * k + 4096) with (start + 4096 * (k + 1)) by lia.
    assert (k + 1 = 0 \/ start + 4096 * (k + 1 - 1) < end_) as Hnext.
    { right. replace (k + 1 - 1) with k by lia. done. }
    eapply completes_mono; [apply IH; [lia|done|lia|done]|].
    intros r (n & ? & ? & ? & ?). exists n. auto with lia.
  - apply completes_Ret. exists k. auto with lia.
Qed.

Lemma wf_initial total used :
  0 <= total <= MAX_FRAMES -> 0 <= used < 2 ^ 64 ->
  wf (mk_pmm (replicate (Z.to_nat BITMAP_SIZE) 255) total used).
Proof.
  intros. split; cbn [pmm_bitmap pmm_total_frames pmm_used_frames];
    [by rewrite zlen_replicate| |done|done].
  - intros i b Hb. pose proof (zget_Some_bound _ _ _ Hb) as Hi.
    rewrite zlen_replicate in Hi. rewrite zget_replicate in Hb by done.
    injection Hb as <-. lia.
Qed.

Lemma frame_set_initial total used f :
  0 <= f < MAX_FRAMES -> frame_set (mk_pmm (replicate (Z.to_nat BITMAP_SIZE) 255) total used) f = true.
Proof.
  intros Hf. unfold frame_set. cbn [pmm_bitmap]. rewrite zget_replicate by (by apply frame_index).
  change 255 with (Z.ones 8). apply Z.ones_spec_low. apply Z.mod_pos_bound. lia.
Qed.

(** The frames [phys_init] leaves free, as a function of the boot information. *)
Definition init_total (info : boot_info) : Z := Z.min (memory_total info / PAGE_SIZE) MAX_FRAMES.
Definition init_reserved (info : boot_info) (f : Z) : bool :=
  (f <? 256) ||
  ((kernel_base info / PAGE_SIZE <=? f) &&
   (f <? kernel_base info / PAGE_SIZE + (kernel_size info + PAGE_SIZE - 1) / PAGE_SIZE)).

(** State after [k] pages of the first loop of [phys_init]. *)
Definition freed_pages (total used k : Z) (q : pmm) : Prop :=
  wf q /\ pmm_total_frames q = total /\ pmm_used_frames q = used /\
  forall g, 0 <= g < MAX_FRAMES ->
    frame_set q g = negb ((256 <=? g) && (g <? 256 + k) && (g <? total)).

Lemma freed_pages_0 total used :
  0 <= total <= MAX_FRAMES -> 0 <= used < 2 ^ 64 ->
  freed_pages total used 0 (mk_pmm (replicate (Z.to_nat BITMAP_SIZE) 255) total used).
Proof.
  intros. split_and!; try done; [by apply wf_initial|]. intros g Hg.
  rewrite frame_set_initial by done.
  destruct (Z.leb_spec 256 g), (Z.ltb_spec g (256 + 0)); simpl; done || lia.
Qed.

(** State after [k] pages of the second loop, begun in [q0]. *)
Definition kernel_pages (q0 : pmm) (kb k : Z) (q : pmm) : Prop :=
  wf q /\ pmm_total_frames q = pmm_total_frames q0 /\ pmm_used_frames q = pmm_used_frames q0 /\
  forall g, 0 <= g < MAX_FRAMES ->
    frame_set q g = frame_set q0 g || ((kb / PAGE_SIZE <=? g) && (g <? kb / PAGE_SIZE + k)).

Lemma page_of start j : 0 <= j -> (start + PAGE_SIZE * j) / PAGE_SIZE = start / PAGE_SIZE + j.
Proof. intros. rewrite Z.mul_comm, Z.div_add by done. done. Qed.

Lemma free_loop_ok total used end_ p :
  0 <= total <= MAX_FRAMES -> end_ <= 2 ^ 64 - PAGE_SIZE -> freed_pages total used 0 p ->
  completes (for_pages (page_fuel 1048576 end_)
      (fun addr p => let frame := addr / PAGE_SIZE in
         if frame <? pmm_total_frames p then pmm_unset_frame p frame else Ret p)
      1048576 end_ p)
    (fun q => exists n, 0 <= n /\ end_ <= 1048576 + PAGE_SIZE * n /\ freed_pages total used n q).
Proof.
  intros Ht He H0. unfold page_fuel.
  replace 1048576 with (1048576 + PAGE_SIZE * 0) at 2 by done.
  eapply completes_mono; [apply (for_pages_ok (freed_pages total used)); try done; try lia|].
  - intros j q Hj _ (Hwf & Hqt & Hqu & Hq). rewrite page_of by done. simpl.
    change (1048576 / PAGE_SIZE) with 256. rewrite Hqt.
    destruct (Z.ltb_spec (256 + j) total).
    + destruct (unset_frame_ok q (256 + j)) as (q' & -> & Hwf' & ? & ? & Hb); [done|lia|].
      apply completes_Ret. split_and!; [done|congruence|congruence|].
      intros g Hg. rewrite Hb, Hq by done.
      destruct (Z.eqb_spec g (256 + j)), (Z.leb_spec 256 g), (Z.ltb_spec g (256 + j)),
        (Z.ltb_spec g (256 + (j + 1))), (Z.ltb_spec g total); simpl; done || lia.
    + apply completes_Ret. split_and!; auto. intros g Hg. rewrite Hq by done.
      destruct (Z.leb_spec 256 g), (Z.ltb_spec g (256 + j)),
        (Z.ltb_spec g (256 + (j + 1))), (Z.ltb_spec g total); simpl; done || lia.
  - intros q (n & ? & ? & _ & ?). eauto.
Qed.

Lemma kernel_loop_ok kb kend p :
  wf p -> 0 <= kb -> kend <= MAX_RAM ->
  completes (for_pages (page_fuel kb kend) (fun addr p => pmm_set_frame p (addr / PAGE_SIZE)) kb kend p)
    (fun q => exists n, 0 <= n /\ kend <= kb + PAGE_SIZE * n /\
       (n = 0 \/ kb + PAGE_SIZE * (n - 1) < kend) /\ kernel_pages p kb n q).
Proof.
  intros Hwf Hkb Hke. unfold page_fuel. change MAX_RAM with 134217728 in *.
  replace kb with (kb + PAGE_SIZE * 0) at 2 by lia.
  apply (for_pages_ok (kernel_pages p kb)); try done; try lia.
  - unfold PAGE_SIZE. lia.
  - intros j q Hj Hlt (Hwq & Ht & Hu & Hb). rewrite page_of by done.
    assert (0 <= kb / PAGE_SIZE + j < MAX_FRAMES).
    { rewrite <- page_of by done. change MAX_FRAMES with (134217728 / 4096).
      change PAGE_SIZE with 4096 in *. split; [apply Z.div_pos; lia|].
      apply Z.div_lt_upper_bound; [lia|]. change (4096 * (134217728 / 4096)) with 134217728. lia. }
    destruct (set_frame_ok q (kb / PAGE_SIZE + j)) as (q' & -> & ? & ? & ? & Hb'); [done|done|].
    apply completes_Ret. split_and!; [done|congruence|congruence|].
    intros g Hg. rewrite Hb', Hb by done.
    destruct (frame_set p g), (Z.leb_spec (kb / PAGE_SIZE) g), (Z.ltb_spec g (kb / PAGE_SIZE + j)),
      (Z.ltb_spec g (kb / PAGE_SIZE + (j + 1))), (Z.eqb_spec g (kb / PAGE_SIZE + j)); simpl; done || lia.
  - split_and!; auto. intros g Hg.
    destruct (frame_set p g), (Z.leb_spec (kb / PAGE_SIZE) g), (Z.ltb_spec g (kb / PAGE_SIZE + 0));
      simpl; done || lia.
Qed.

(** The kernel loop faults on its first page when the kernel lies above the bitmap. *)
Lemma kernel_loop_fault kb kend p :
  wf p -> MAX_RAM <= kb -> kb < kend ->
  for_pages (page_fuel kb kend) (fun addr p => pmm_set_frame p (addr / PAGE_SIZE)) kb kend p = Fault.
Proof.
  intros Hwf Hkb Hlt. unfold page_fuel. change PAGE_SIZE with 4096.
  assert (0 <= (kend - kb) / 4096) by (apply Z.div_pos; lia).
  replace (Z.to_nat _) with (S (Z.to_nat ((kend - kb) / 4096))) by lia. simpl.
  destruct (Z.ltb_spec kb kend); [|lia].
  unfold pmm_set_frame. rewrite rd_out; [done|].
  rewrite wf_len by done. change BITMAP_SIZE with 4096. change PAGE_SIZE with 4096.
  change MAX_RAM with (8 * 4096 * 4096) in Hkb.
  apply Z.div_le_lower_bound; [lia|]. apply Z.div_le_lower_bound; lia.
Qed.

(** *** The abstraction to sets of frames *)

Lemma rep_alloc rsv p owned addr p' :
  0 ∈ rsv -> rep rsv p owned -> phys_alloc p = Ret (addr, p') -> addr <> 0 ->
  rep rsv p' ({[addr / PAGE_SIZE]} ∪ owned).
Proof.
  intros H0 [Hwf Hbits Hdisj Hran Hused] Ha Hne. pose proof (wf_total _ Hwf).
  destruct (alloc_from_ok (Z.to_nat (pmm_total_frames p)) p 0)
    as [(f & p1 & He & Hf & Hff & _ & Hwf1 & Ht & Hu & Hb)|[He _]]; try done; try lia;
    unfold phys_alloc in Ha; rewrite He in Ha; injection Ha as <- <-; [|done].
  rewrite Z.div_mul by done.
  assert (f ∉ rsv ∪ owned) as Hfresh.
  { rewrite Hbits in Hff by done. by apply bool_decide_eq_false in Hff. }
  assert (size owned <= Z.to_nat MAX_FRAMES)%nat as Hsize.
  { transitivity (size (list_to_set (seqZ 0 MAX_FRAMES) : gset Z)).
    - apply subseteq_size. intros g Hg%Hran. rewrite elem_of_list_to_set, elem_of_seqZ. lia.
    - rewrite size_list_to_set by apply NoDup_seqZ. by rewrite length_seqZ. }
  split; try done.
  - intros g Hg. rewrite Ht in Hg. rewrite Hb, Hbits by done.
    destruct (Z.eqb_spec g f); [|rewrite orb_false_r]; [rewrite orb_true_r|];
      [symmetry; apply bool_decide_eq_true|apply bool_decide_ext]; set_solver.
  - set_solver.
  - intros g. rewrite Ht, elem_of_union, elem_of_singleton. intros [->|]; auto.
  - rewrite Hu, Hused, size_union, size_singleton by set_solver.
    change MAX_FRAMES with 32768 in *. rewrite u64_small; lia.
Qed.

Lemma alloc_null_same rsv p owned p' :
  0 ∈ rsv -> rep rsv p owned -> phys_alloc p = Ret (0, p') -> p' = p.
Proof.
  intros H0 [Hwf Hbits Hdisj Hran Hused] Ha. pose proof (wf_total _ Hwf).
  destruct (alloc_from_ok (Z.to_nat (pmm_total_frames p)) p 0)
    as [(f & p1 & He & Hf & Hff & _)|[He _]]; try done; try lia;
    unfold phys_alloc in Ha; rewrite He in Ha; [|by injection Ha as <-].
  injection Ha as Hz <-. assert (f = 0) as -> by (unfold PAGE_SIZE in Hz; lia).
  rewrite Hbits in Hff by done. apply bool_decide_eq_false in Hff. set_solver.
Qed.

Lemma rep_free rsv p owned f p' :
  rep rsv p owned -> f ∈ owned -> phys_free (f * PAGE_SIZE) p = Ret p' ->
  rep rsv p' (owned ∖ {[f]}).
Proof.
  intros [Hwf Hbits Hdisj Hran Hused] Hf Hfree.
  destruct (phys_free_ok p f Hwf (Hran _ Hf)) as (p1 & He & Hwf1 & Ht & Hu & Hb).
  rewrite He in Hfree. injection Hfree as <-.
  assert (0 < size owned)%nat.
  { assert (size owned <> 0%nat); [|lia]. intros Hz%size_empty_inv. set_solver. }
  split; try done.
  - intros g Hg. rewrite Ht in Hg. rewrite Hb, Hbits by done.
    destruct (Z.eqb_spec g f) as [->|]; simpl.
    + rewrite andb_false_r. symmetry. apply bool_decide_eq_false. set_solver.
    + rewrite andb_true_r. apply bool_decide_ext. set_solver.
  - set_solver.
  - intros g. rewrite Ht. set_solver.
  - rewrite Hu, Hused, size_difference, size_singleton by set_solver.
    pose proof (wf_used _ Hwf). rewrite u64_small; lia.
Qed.

(** ** Theorems *)

(** [phys_alloc] is first fit: it either returns the address of the lowest
    free frame, having set exactly that bit and counted it, or finds every
    frame in use, returns NULL and changes nothing. *)
Theorem phys_alloc_first_fit p :
  wf p ->
  (exists f p', phys_alloc p = Ret (f * PAGE_SIZE, p') /\ takes_frame p f p') \/
  (phys_alloc p = Ret (0, p) /\ all_frames_set p).
Proof.
  intros Hwf. pose proof (wf_total _ Hwf).
  apply alloc_from_ok; [done|lia|f_equal; lia|lia].
Qed.

Lemma phys_alloc_first_fit_witness :
  let p := mk_pmm (zset (replicate 4096 255) 32 254) 512 7 in
  wf p /\
  ((exists f p', phys_alloc p = Ret (f * PAGE_SIZE, p') /\ takes_frame p f p') \/
   (phys_alloc p = Ret (0, p) /\ all_frames_set p)).
Proof.
  intros p. assert (wf p) as Hwf.
  { apply (wf_store (mk_pmm (replicate 4096 255) 512 7) 256 254); [|lia|vm_compute; done|lia].
    apply (wf_initial 512 7); [vm_compute; done|lia]. }
  split; [exact Hwf|]. exact (phys_alloc_first_fit p Hwf).
Defined.

(** Releasing the frame just allocated restores the allocator bit for bit. *)
Theorem alloc_free_roundtrip p addr p' :
  wf p -> phys_alloc p = Ret (addr, p') -> p' <> p -> phys_free addr p' = Ret p.
Proof.
  intros Hwf Ha Hne. pose proof (wf_total _ Hwf). pose proof (wf_used _ Hwf).
  destruct (alloc_from_ok (Z.to_nat (pmm_total_frames p)) p 0)
    as [(f & p1 & He & Hf & Hff & _ & Hwf1 & Ht & Hu & Hb)|[He _]]; try done; try lia;
    unfold phys_alloc in Ha; rewrite He in Ha; injection Ha as <- <-; [|done].
  destruct (phys_free_ok p1 f) as (p2 & -> & Hwf2 & Ht2 & Hu2 & Hb2); [done|lia|].
  f_equal. assert (pmm_bitmap p2 = pmm_bitmap p) as Hbm.
  { apply bitmap_ext; try done. intros g _. rewrite Hb2, Hb.
    destruct (Z.eqb_spec g f) as [->|]; simpl; [by rewrite andb_false_r|].
    by rewrite orb_false_r, andb_true_r. }
  destruct p as [bm t u], p2; simpl in *. f_equal; try congruence.
  rewrite Hu2, Hu. unfold u64. rewrite Zminus_mod_idemp_l.
  replace (u + 1 - 1) with u by lia. by apply Z.mod_small.
Qed.

Lemma alloc_free_roundtrip_witness :
  let p := mk_pmm (zset (replicate 4096 255) 32 254) 512 7 in
  let p' := mk_pmm (replicate 4096 255) 512 8 in
  phys_alloc p = Ret (1048576, p') /\ phys_free 1048576 p' = Ret p.
Proof.
  intros p p'. assert (wf p) as Hwf.
  { apply (wf_store (mk_pmm (replicate 4096 255) 512 7) 256 254); [|lia|vm_compute; done|lia].
    apply (wf_initial 512 7); [vm_compute; done|lia]. }
  assert (phys_alloc p = Ret (1048576, p')) as Ha by (vm_compute; reflexivity).
  split; [exact Ha|]. apply (alloc_free_roundtrip p 1048576 p' Hwf Ha). discriminate.
Defined.

(** After [phys_init] on a machine whose kernel lies in the first 128 MiB, a
    frame is free exactly when it is at or above 1 MiB, below the end of the
    tracked memory and outside the kernel image. *)
Theorem phys_init_spec info p :
  0 <= memory_total info <= 2 ^ 64 - PAGE_SIZE ->
  0 <= kernel_base info -> 0 <= kernel_size info ->
  kernel_base info + kernel_size info <= MAX_RAM ->
  0 <= pmm_used_frames p < 2 ^ 64 ->
  completes (phys_init info p) (fun p' =>
    wf p' /\ pmm_total_frames p' = init_total info /\ pmm_used_frames p' = pmm_used_frames p /\
    forall f, 0 <= f < init_total info -> frame_set p' f = init_reserved info f).
Proof.
  intros Hmt Hkb Hks Hke Hu. unfold phys_init.
  assert ((if memory_total info / PAGE_SIZE >? MAX_FRAMES then MAX_FRAMES
           else memory_total info / PAGE_SIZE) = init_total info) as ->.
  { unfold init_total. rewrite Z.gtb_ltb. case_if; bool_to_prop; lia. }
  assert (0 <= init_total info <= MAX_FRAMES).
  { unfold init_total. assert (0 <= memory_total info / PAGE_SIZE) by (apply Z.div_pos; done || lia).
    change MAX_FRAMES with 32768 in *. lia. }
  rewrite u64_small by (change MAX_RAM with 134217728 in *; lia).
  eapply completes_bind; [apply (free_loop_ok (init_total info) (pmm_used_frames p)); try done|].
  - lia.
  - by apply freed_pages_0.
  - intros q (n & Hn & Hend & Hwf & Ht & Hqu & Hq).
    eapply completes_mono; [by apply kernel_loop_ok|].
    intros r (m & Hm & Hmend & Hmlast & Hwr & Htr & Hur & Hr).
    split_and!; [done|congruence|congruence|]. intros f Hf.
    rewrite Hr, Hq by lia. unfold init_reserved. change PAGE_SIZE with 4096 in *.
    assert (m = (kernel_size info + 4096 - 1) / 4096) as <-.
    { apply (Z.div_unique_pos _ _ _ (kernel_size info + 4096 - 1 - 4096 * m)); lia. }
    assert (memory_total info / 4096 <= 256 + n).
    { apply Z.lt_succ_r, Z.div_lt_upper_bound; lia. }
    assert (f < 256 + n) by (unfold init_total in Hf; change PAGE_SIZE with 4096 in Hf; lia).
    f_equal. destruct (Z.leb_spec 256 f), (Z.ltb_spec f (256 + n)), (Z.ltb_spec f (init_total info)),
      (Z.ltb_spec f 256); simpl; done || lia.
Qed.

Lemma phys_init_spec_witness :
  let info := mk_boot_info 2097152 2097152 1048576 65536 in
  let p := mk_pmm [] 0 0 in
  completes (phys_init info p) (fun p' =>
    wf p' /\ pmm_total_frames p' = init_total info /\ pmm_used_frames p' = pmm_used_frames p /\
    forall f, 0 <= f < init_total info -> frame_set p' f = init_reserved info f).
Proof. intros info p. apply (phys_init_spec info p); simpl; vm_compute; intuition discriminate. Defined.

(** C6: the bitmap implements an allocator of frames: along every sequence of
    allocations and of releases of frames that are held, the bitmap is exactly
    the boot-time reservation plus the held frames, and [pmm_used_frames] is
    their number; in particular a frame is never handed out twice. *)
Theorem pmm_refines_frame_set rsv s s' :
  0 ∈ rsv -> rep rsv (fst s) (snd s) -> rtc pmm_step s s' -> rep rsv (fst s') (snd s').
Proof.
  intros H0 Hrep Hsteps. induction Hsteps as [s|s s1 s' Hstep _ IH]; [done|].
  apply IH. clear IH. destruct Hstep as [p owned addr p' Ha Hne|p owned p' Ha|p owned f p' Hf Hfree];
    simpl in *.
  - by apply (rep_alloc rsv p).
  - pose proof (alloc_null_same rsv p owned p' H0 Hrep Ha) as ->. done.
  - by apply (rep_free rsv p).
Qed.

Lemma pmm_refines_frame_set_witness :
  let p := mk_pmm (zset (replicate 4096 255) 0 253) 2 0 in
  let p' := mk_pmm (replicate 4096 255) 2 1 in
  rep {[0]} p' {[1]}.
Proof.
  intros p p'.
  assert (wf p) as Hwf.
  { apply (wf_store (mk_pmm (replicate 4096 255) 2 0) 0 253); [|lia|vm_compute; done|lia].
    apply (wf_initial 2 0); [vm_compute; done|lia]. }
  refine (pmm_refines_frame_set {[0]} (p, (∅ : gset Z)) (p', ({[1]} : gset Z)) _ _ _); cbn [fst snd].
  - set_solver.
  - split; simpl; [exact Hwf| |set_solver|set_solver|done].
    intros f Hf. assert (f = 0 \/ f = 1) as [->| ->] by lia; vm_compute; done.
  - apply rtc_once. replace {[1]} with ({[4096 / PAGE_SIZE]} ∪ ∅ : gset Z) by (vm_compute; done).
    apply step_alloc; [vm_compute; reflexivity|lia].
Defined.

(** When the kernel image lies at or above 128 MiB the reservation loop of
    [phys_init] stores outside [pmm_bitmap]: its frame index is not checked
    against the bitmap. *)
Theorem phys_init_kernel_above_bitmap info p :
  0 <= memory_total info <= 2 ^ 64 - PAGE_SIZE ->
  MAX_RAM <= kernel_base info -> 0 < kernel_size info ->
  kernel_base info + kernel_size info < 2 ^ 64 ->
  0 <= pmm_used_frames p < 2 ^ 64 ->
  phys_init info p = Fault.
Proof.
  intros Hmt Hkb Hks Hke Hu. unfold phys_init.
  set (total := if _ >? _ then _ else _).
  assert (0 <= total <= MAX_FRAMES).
  { subst total. assert (0 <= memory_total info / PAGE_SIZE) by (apply Z.div_pos; done || lia).
    rewrite Z.gtb_ltb. case_if; bool_to_prop; change MAX_FRAMES with 32768 in *; lia. }
  change MAX_RAM with 134217728 in *. rewrite u64_small by lia.
  eapply bind_fault; [apply (free_loop_ok total (pmm_used_frames p)); [done|lia|]|].
  - by apply freed_pages_0.
  - intros q (n & _ & _ & Hwf & _). apply kernel_loop_fault; [done|done|lia].
Qed.

(** The made-up boot information of the aarch64 and riscv64 ports is such a case. *)
Lemma phys_init_kernel_above_bitmap_witness :
  phys_init (kmain_dummy_info aarch64) (mk_pmm [] 0 0) = Fault /\
  phys_init (kmain_dummy_info riscv64) (mk_pmm [] 0 0) = Fault.
Proof.
  split; apply phys_init_kernel_above_bitmap; vm_compute; intuition discriminate.
Defined.

(** [phys_free] does not look at the bit: releasing a frame that is already free
    leaves the bitmap and still decrements the counter, modulo 2^64. *)
Lemma phys_free_of_free_frame p f :
  wf p -> 0 <= f < pmm_total_frames p -> frame_set p f = false ->
  phys_free (f * PAGE_SIZE) p =
    Ret (mk_pmm (pmm_bitmap p) (pmm_total_frames p) (u64 (pmm_used_frames p - 1))).
Proof.
  intros Hwf Hf Hb. destruct (phys_free_ok p f Hwf Hf) as (p' & -> & Hwf' & Ht & Hu & Hb').
  f_equal. rewrite (surjective_pairing_pmm p'), Ht, Hu. f_equal.
  apply bitmap_ext; try done. intros g _. rewrite Hb'.
  destruct (Z.eqb_spec g f) as [->|]; [by rewrite Hb|]. by rewrite andb_true_r.
Qed.

End Pmm.
