(* ===== verification/Telemetry.v ===== *)
(** * Telemetry (kernel/core/telemetry.c, include/telemetry.h)

    The system-wide trace: a circular array of 1024 entries.  Every call of
    [trace_log] is one critical section under [g_trace_lock]; the model takes
    it as one step.  The clock ([timer_ticks]) and the current task are read
    at the call, so they are arguments. *)

From stdpp Require Import base tactics list numbers option strings.
From S2P Require Import Prelude Ring.

Module Telemetry.

(** ** Model *)

Inductive trace_event :=
| TRACE_NONE | TRACE_SCHED_SWITCH | TRACE_SCHED_PRIORITY | TRACE_IPC_SEND | TRACE_IPC_RECV
| TRACE_VM_EXEC | TRACE_VM_CALL | TRACE_ALLOC_MALLOC | TRACE_ALLOC_FREE | TRACE_SYSCALL_ENTER
| TRACE_VFS_READ | TRACE_VFS_WRITE | TRACE_VFS_MOUNT | TRACE_TIMER_TICK | TRACE_BOOT_STAGE
| TRACE_ALLOC_STATS.

#[global] Instance trace_event_eq_dec : EqDecision trace_event.
Proof. solve_decision. Defined.

(** The enumerator values. *)
Definition event_code (e : trace_event) : Z :=
  match e with
  | TRACE_NONE => 0 | TRACE_SCHED_SWITCH => 1 | TRACE_SCHED_PRIORITY => 2
  | TRACE_IPC_SEND => 3 | TRACE_IPC_RECV => 4 | TRACE_VM_EXEC => 5 | TRACE_VM_CALL => 6
  | TRACE_ALLOC_MALLOC => 7 | TRACE_ALLOC_FREE => 8 | TRACE_SYSCALL_ENTER => 9
  | TRACE_VFS_READ => 10 | TRACE_VFS_WRITE => 11 | TRACE_VFS_MOUNT => 12
  | TRACE_TIMER_TICK => 13 | TRACE_BOOT_STAGE => 14 | TRACE_ALLOC_STATS => 15
  end.

Definition TRACE_MAX : Z := 16.
Definition TELEMETRY_BUFFER_SIZE : Z := 1024.

Record trace_entry := mk_entry {
  timestamp : Z;
  event : trace_event;
  cpu_id : Z;
  task_id : Z;
  arg1 : Z;
  arg2 : Z
}.

#[global] Instance trace_entry_inhabited : Inhabited trace_entry :=
  populate (mk_entry 0 TRACE_NONE 0 0 0 0).

Record telemetry := mk_telemetry {
  g_trace_buffer : list trace_entry;
  g_trace_head : Z;
  g_trace_count : Z
}.

(** Zero-initialised static storage. *)
Definition telemetry_static : telemetry :=
  mk_telemetry (replicate (Z.to_nat TELEMETRY_BUFFER_SIZE) (mk_entry 0 TRACE_NONE 0 0 0 0)) 0 0.

Definition telemetry_init (t : telemetry) : telemetry := mk_telemetry (g_trace_buffer t) 0 0.

(** [sched_cpu_id()] is the constant 0 of scheduler.c. *)
Definition sched_cpu_id : Z := 0.

(** The entry that [trace_log] writes; [cur] is [sched_current_thread()->id],
    [None] when there is no current thread. *)
Definition trace_record (now : Z) (cur : option Z) (ev : trace_event) (a1 a2 : Z) : trace_entry :=
  mk_entry now ev sched_cpu_id (match cur with Some id => id | None => 0 end) (u64 a1) (u64 a2).

Definition trace_log (now : Z) (cur : option Z) (ev : trace_event) (a1 a2 : Z)
    (t : telemetry) : telemetry :=
  let idx := g_trace_head t mod TELEMETRY_BUFFER_SIZE in
  mk_telemetry
    ((g_trace_buffer t).[idx <- trace_record now cur ev a1 a2])
    (u32 (g_trace_head t + 1) mod TELEMETRY_BUFFER_SIZE)
    (if g_trace_count t <? TELEMETRY_BUFFER_SIZE then u32 (g_trace_count t + 1) else g_trace_count t).

(** Console output of a dump, one item per console call. *)
Inductive console_item :=
| OutStr (s : string)
| OutU32 (v : Z)
| OutHex64 (v : Z).

Definition event_names : list string :=
  ["NONE"; "SCHED_SWITCH"; "SCHED_PRIO"; "IPC_SEND"; "IPC_RECV"; "VM_EXEC"; "VM_CALL";
   "ALLOC_MALLOC"; "ALLOC_FREE"; "SYSCALL_ENTER"; "VFS_READ"; "VFS_WRITE"; "VFS_MOUNT";
   "TIMER_TICK"; "BOOT_STAGE"; "ALLOC_STATS"].

(** The lines printed for one entry; [event_names] is indexed unchecked under
    the test against [TRACE_MAX]. *)
Definition dump_entry (e : trace_entry) : outcome (list console_item) :=
  name ← (if event_code (event e) <? TRACE_MAX then rd event_names (event_code (event e))
          else Ret "UNKNOWN");
  Ret [OutU32 (u32 (timestamp e)); OutStr " | "; OutStr name; OutStr " | ";
       OutU32 (cpu_id e); OutStr " | "; OutU32 (task_id e); OutStr " | ";
       OutHex64 (arg1 e); OutStr " | "; OutHex64 (arg2 e); OutStr "
"].

(** The loop of [trace_dump_filtered]: indices [i .. count-1] from [start]. *)
Fixpoint dump_loop (n : nat) (t : telemetry) (filter : trace_event) (start i : Z)
  : outcome (list console_item) :=
  match n with
  | O => Ret []
  | S m =>
      let idx := u32 (start + i) mod TELEMETRY_BUFFER_SIZE in
      e ← rd (g_trace_buffer t) idx;
      if bool_decide (filter <> TRACE_NONE) && bool_decide (event e <> filter)
      then dump_loop m t filter start (i + 1)
      else
        out ← dump_entry e;
        rest ← dump_loop m t filter start (i + 1);
        Ret (out ++ rest)
  end.

Definition dump_header : list console_item :=
  [OutStr "
--- SageOS System Trace Dump ---
"; OutStr "TIME | EVENT | CPU | TASK | ARG1 | ARG2
"].

Definition trace_dump_filtered (filter : trace_event) (t : telemetry) : outcome (list console_item) :=
  let start := if g_trace_count t <? TELEMETRY_BUFFER_SIZE then 0 else g_trace_head t in
  body ← dump_loop (Z.to_nat (g_trace_count t)) t filter start 0;
  Ret (dump_header ++ body).

Definition trace_dump (t : telemetry) : outcome (list console_item) := trace_dump_filtered TRACE_NONE t.

Definition trace_count (t : telemetry) : Z := s32 (g_trace_count t).

Definition trace_clear (t : telemetry) : telemetry := mk_telemetry (g_trace_buffer t) 0 0.

(** ** Specification *)

Definition wf (t : telemetry) : Prop :=
  ring_inv TELEMETRY_BUFFER_SIZE (g_trace_buffer t) (g_trace_head t) (g_trace_count t).

(** The recorded entries, oldest first. *)
Definition trace_view (t : telemetry) : list trace_entry :=
  ring_view TELEMETRY_BUFFER_SIZE (g_trace_buffer t) (g_trace_head t) (g_trace_count t).

(** One call of [trace_log] with its readings of the clock and current task. *)
Record log_call := mk_call { c_now : Z; c_cur : option Z; c_ev : trace_event; c_a1 : Z; c_a2 : Z }.

Definition run_log (t : telemetry) (c : log_call) : telemetry :=
  trace_log (c_now c) (c_cur c) (c_ev c) (c_a1 c) (c_a2 c) t.
Definition entry_of (c : log_call) : trace_entry :=
  trace_record (c_now c) (c_cur c) (c_ev c) (c_a1 c) (c_a2 c).

(** Reference dump: the view, filtered, each entry printed. *)
Definition passes (filter : trace_event) (e : trace_entry) : bool :=
  bool_decide (filter = TRACE_NONE) || bool_decide (event e = filter).
Definition print_entry (e : trace_entry) : list console_item :=
  match dump_entry e with Ret out => out | _ => [] end.
Definition spec_dump (filter : trace_event) (l : list trace_entry) : list console_item :=
  dump_header ++ concat (print_entry <$> base.filter (fun e => passes filter e = true) l).

(** ** Lemmas *)

Lemma trace_log_ring now cur ev a1 a2 t :
  wf t ->
  trace_log now cur ev a1 a2 t =
    mk_telemetry ((g_trace_buffer t).[g_trace_head t <- trace_record now cur ev a1 a2])
      (ring_next TELEMETRY_BUFFER_SIZE (g_trace_head t))
      (ring_incr TELEMETRY_BUFFER_SIZE (g_trace_count t)).
Proof.
  intros [_ Hh Hc _]. unfold trace_log, ring_next, ring_incr.
  change TELEMETRY_BUFFER_SIZE with 1024 in *.
  rewrite (Z.mod_small (g_trace_head t)), !u32_small by lia. done.
Qed.

Lemma wf_trace_log now cur ev a1 a2 t : wf t -> wf (trace_log now cur ev a1 a2 t).
Proof. intros H. rewrite trace_log_ring by done. by apply ring_inv_push. Qed.

Lemma trace_view_log c t :
  wf t -> trace_view (run_log t c) = latest TELEMETRY_BUFFER_SIZE (trace_view t ++ [entry_of c]).
Proof.
  intros H. unfold run_log. rewrite trace_log_ring by done. by apply ring_view_push.
Qed.

Lemma wf_cleared buf : zlen buf = TELEMETRY_BUFFER_SIZE -> wf (mk_telemetry buf 0 0).
Proof. intros. split; simpl; try done. Qed.

Lemma dump_entry_ok e : dump_entry e = Ret (print_entry e).
Proof. unfold print_entry. by destruct e as [? [] ? ? ? ?]. Qed.

Lemma skip_passes filter e :
  bool_decide (filter <> TRACE_NONE) && bool_decide (event e <> filter) = negb (passes filter e).
Proof.
  unfold passes. rewrite negb_orb, <- !bool_decide_not. done.
Qed.

Lemma dump_loop_ok n t filter start i :
  zlen (g_trace_buffer t) = TELEMETRY_BUFFER_SIZE ->
  0 <= start < TELEMETRY_BUFFER_SIZE -> 0 <= i -> i + Z.of_nat n <= TELEMETRY_BUFFER_SIZE ->
  dump_loop n t filter start i =
    Ret (concat (print_entry <$> base.filter (fun e => passes filter e = true)
      (window TELEMETRY_BUFFER_SIZE (g_trace_buffer t) (start + i) (Z.of_nat n)))).
Proof.
  intros Hlen Hs. revert i. induction n as [|n IH]; intros i Hi Hn; [done|].
  rewrite window_cons by lia. cbn [dump_loop]. change TELEMETRY_BUFFER_SIZE with 1024 in *.
  rewrite u32_small by lia.
  rewrite (rd_lookup_total 1024) by (done || apply Z.mod_pos_bound; lia).
  cbn [mbind outcome_bind]. rewrite skip_passes, dump_entry_ok, IH by lia. rewrite filter_cons.
  replace (start + (i + 1)) with (start + i + 1) by lia.
  replace (Z.of_nat (S n) - 1) with (Z.of_nat n) by lia.
  destruct (passes filter _); simpl; done.
Qed.

(** ** Theorems *)

(** The trace keeps the last 1024 events: after any sequence of [trace_log]
    calls on a cleared trace, the entries read oldest first are exactly the
    last 1024 calls, in order. *)
Theorem trace_keeps_latest t calls :
  zlen (g_trace_buffer t) = TELEMETRY_BUFFER_SIZE ->
  trace_view (foldl run_log (telemetry_init t) calls) =
    latest TELEMETRY_BUFFER_SIZE (entry_of <$> calls) /\
  wf (foldl run_log (telemetry_init t) calls).
Proof.
  intros Hlen. induction calls as [|c calls IH] using rev_ind.
  - split; [done|]. by apply wf_cleared.
  - destruct IH as [IHv IHwf]. rewrite foldl_app, fmap_app. simpl. split.
    + by rewrite trace_view_log, IHv, latest_snoc by done.
    + by apply wf_trace_log.
Qed.

Lemma trace_keeps_latest_witness :
  let calls := [mk_call 5 (Some 3) TRACE_IPC_SEND 7 0; mk_call 6 None TRACE_VFS_READ 0 512] in
  trace_view (foldl run_log (telemetry_init telemetry_static) calls) =
    latest TELEMETRY_BUFFER_SIZE (entry_of <$> calls) /\
  wf (foldl run_log (telemetry_init telemetry_static) calls).
Proof. intros calls. apply (trace_keeps_latest telemetry_static calls). vm_compute. reflexivity. Defined.

(** [trace_dump_filtered] prints exactly the recorded entries that match the
    filter, oldest first, and reads neither array out of range. *)
Theorem trace_dump_prints_view filter t :
  wf t -> trace_dump_filtered filter t = Ret (spec_dump filter (trace_view t)).
Proof.
  intros [Hl Hh Hc Hp]. unfold trace_dump_filtered, spec_dump, trace_view, ring_view.
  set (start := if _ <? _ then _ else _).
  assert (0 <= start < TELEMETRY_BUFFER_SIZE) by (subst start; case_if; done).
  rewrite dump_loop_ok by (done || lia). rewrite Z.add_0_r, Z2Nat.id by lia. done.
Qed.

Lemma trace_dump_prints_view_witness :
  let t := run_log telemetry_static (mk_call 5 (Some 3) TRACE_IPC_SEND 7 0) in
  trace_dump_filtered TRACE_IPC_SEND t = Ret (spec_dump TRACE_IPC_SEND (trace_view t)) /\
  trace_view t = [mk_entry 5 TRACE_IPC_SEND 0 3 7 0].
Proof.
  intros t. split; [|vm_compute; reflexivity].
  apply trace_dump_prints_view. apply wf_trace_log, wf_cleared. vm_compute. reflexivity.
Defined.

End Telemetry.
