(* ===== verification/Dmesg.v ===== *)
(** * Kernel log (kernel/core/dmesg.c)

    A circular text buffer of 128 KiB.  A message is split into lines; every
    line is stored with a time stamp in front and a newline behind.
    [dmesg_printf] is [dmesg_log] of the text made by [sage_vsnprintf]
    (LibcShim).  The clock is an argument: [clock k] is what the [k]-th call of
    [timer_elapsed_centiseconds] during the operation returns. *)

From stdpp Require Import base tactics list numbers option.
From S2P Require Import Prelude Ring Digits.

Module Dmesg.

(** ** Model *)

Definition DMESG_SIZE : Z := 128 * 1024.

Record dmesg := mk_dmesg {
  dmesg_buf : list Z;
  dmesg_head : Z;
  dmesg_total : Z;
  dmesg_at_bol : Z
}.

Definition dmesg_static : dmesg := mk_dmesg (replicate (Z.to_nat DMESG_SIZE) 0) 0 0 1.

Definition set_at_bol (b : Z) (d : dmesg) : dmesg :=
  mk_dmesg (dmesg_buf d) (dmesg_head d) (dmesg_total d) b.

Definition append_char (c : Z) (d : dmesg) : outcome dmesg :=
  buf ← wr (dmesg_buf d) (dmesg_head d) c;
  Ret (mk_dmesg buf (u32 (dmesg_head d + 1) mod DMESG_SIZE)
    (if dmesg_total d <? DMESG_SIZE then u32 (dmesg_total d + 1) else dmesg_total d)
    (dmesg_at_bol d)).

Fixpoint append_chars (cs : list Z) (d : dmesg) : outcome dmesg :=
  match cs with
  | [] => Ret d
  | c :: r => d' ← append_char c d; append_chars r d'
  end.

(** The characters of the seconds, in the order [while (i > 0) append_char(buf[--i])]
    emits them; [buf] has 20 elements. *)
Definition second_chars (sec : Z) : outcome (list Z) :=
  ds ← (if sec =? 0 then Ret [0] else digit_loop digit_fuel 10 sec);
  if zlen ds <=? 20 then Ret (rev ((fun v => 48 + v) <$> ds)) else Fault.

(** The text [append_timestamp] emits for a clock reading: open bracket,
    seconds, dot, two digits of centiseconds, four zeroes, close bracket, space. *)
Definition timestamp_chars (centiseconds : Z) : outcome (list Z) :=
  let sec := centiseconds / 100 in
  let csec := u32 (centiseconds mod 100) in
  s ← second_chars sec;
  Ret ([91] ++ s ++ [46; 48 + csec / 10; 48 + csec mod 10; 48; 48; 48; 48; 93; 32]).

Definition append_timestamp (centiseconds : Z) (d : dmesg) : outcome dmesg :=
  cs ← timestamp_chars centiseconds;
  append_chars cs d.

(** The loop over the message; [k] counts the clock readings so far. *)
Fixpoint log_loop (clock : nat -> Z) (k : nat) (msg : list Z) (d : dmesg) : outcome dmesg :=
  match msg with
  | [] => Ret d
  | c :: rest =>
      if dmesg_at_bol d =? 0 then
        d1 ← append_char c d;
        log_loop clock k rest (if c =? 10 then set_at_bol 1 d1 else d1)
      else
        d0 ← append_timestamp (u64 (clock k)) d;
        d1 ← append_char c (set_at_bol 0 d0);
        log_loop clock (S k) rest (if c =? 10 then set_at_bol 1 d1 else d1)
  end.

(** [if (!dmesg_at_bol) { append_char('\n'); dmesg_at_bol = 1; }] *)
Definition end_line (d : dmesg) : outcome dmesg :=
  if dmesg_at_bol d =? 0 then d1 ← append_char 10 d; Ret (set_at_bol 1 d1) else Ret d.

(** [msg] is the NUL-terminated argument, [None] for NULL. *)
Definition dmesg_log (clock : nat -> Z) (msg : option (list Z)) (d : dmesg) : outcome dmesg :=
  match msg with
  | None | Some [] => Ret d
  | Some s =>
      d0 ← end_line d;
      d1 ← log_loop clock 0 s d0;
      end_line d1
  end.

(** The characters sent to [console_putc]. *)
Fixpoint dump_loop (n : nat) (d : dmesg) (start i : Z) : outcome (list Z) :=
  match n with
  | O => Ret []
  | S m =>
      c ← rd (dmesg_buf d) (u32 (start + i) mod DMESG_SIZE);
      rest ← dump_loop m d start (i + 1);
      Ret (if c =? 0 then rest else c :: rest)
  end.

Definition dmesg_dump (d : dmesg) : outcome (list Z) :=
  if dmesg_total d =? 0 then Ret []
  else
    let '(start, count) :=
      if dmesg_total d <? DMESG_SIZE then (0, dmesg_head d) else (dmesg_head d, DMESG_SIZE) in
    dump_loop (Z.to_nat count) d start 0.

Definition dmesg_get_total (d : dmesg) : Z := dmesg_total d.
Definition dmesg_get_head (d : dmesg) : Z := dmesg_head d.
Definition dmesg_get_size : Z := DMESG_SIZE.
Definition dmesg_get_char (index : Z) (d : dmesg) : outcome Z :=
  if DMESG_SIZE <=? index then Ret 0 else rd (dmesg_buf d) index.

(** ** Specification *)

Definition wf (d : dmesg) : Prop :=
  ring_inv DMESG_SIZE (dmesg_buf d) (dmesg_head d) (dmesg_total d).

(** The text in the log, oldest character first. *)
Definition log_view (d : dmesg) : list Z :=
  ring_view DMESG_SIZE (dmesg_buf d) (dmesg_head d) (dmesg_total d).

(** Lines of a text: split at newlines; a text that ends in a newline has no
    further line behind it. *)
Fixpoint lines_from (cur : list Z) (s : list Z) : list (list Z) :=
  match s with
  | [] => match cur with [] => [] | _ => [cur] end
  | c :: r => if c =? 10 then cur :: lines_from [] r else lines_from (cur ++ [c]) r
  end.
Definition lines (s : list Z) : list (list Z) := lines_from [] s.

(** [ds] is a decimal numeral of [v]. *)
Definition is_decimal (v : Z) (ds : list Z) : Prop :=
  Forall (fun c => 48 <= c < 58) ds /\
  foldl (fun a c => 10 * a + (c - 48)) 0 ds = v /\ ds <> [].

(** A time stamp for a reading of [cs] hundredths of a second. *)
Definition is_stamp (cs : Z) (s : list Z) : Prop :=
  exists ds, is_decimal (cs / 100) ds /\
    s = [91] ++ ds ++ [46; 48 + (cs mod 100) / 10; 48 + (cs mod 100) mod 10; 48; 48; 48; 48; 93; 32].

Definition stamp (cs : Z) : list Z :=
  match timestamp_chars cs with Ret s => s | _ => [] end.

(** The text logged for lines whose stamps start at the [k]-th clock reading. *)
Fixpoint render (clock : nat -> Z) (k : nat) (ls : list (list Z)) : list Z :=
  match ls with
  | [] => []
  | l :: r => stamp (u64 (clock k)) ++ l ++ [10] ++ render clock (S k) r
  end.

(** ** Lemmas *)

(** [grows d d' s b]: [d'] is [d] with the text [s] appended and the flag [b]. *)
Definition grows (d d' : dmesg) (s : list Z) (b : Z) : Prop :=
  wf d' /\ dmesg_at_bol d' = b /\
  (forall h, log_view d = latest DMESG_SIZE h -> log_view d' = latest DMESG_SIZE (h ++ s)).

Lemma append_char_grows c d :
  wf d -> completes (append_char c d) (fun d' => grows d d' [c] (dmesg_at_bol d)).
Proof.
  intros [Hl Hh Hc Hp]. unfold append_char. rewrite wr_in_range by (rewrite Hl; done).
  change DMESG_SIZE with 131072 in *. rewrite !u32_small by lia. apply completes_Ret.
  assert (ring_inv 131072 (dmesg_buf d) (dmesg_head d) (dmesg_total d)) as Hinv by done. split_and!; [|done|].
  - by apply (ring_inv_push 131072).
  - intros h Hd. unfold log_view. cbn [dmesg_buf dmesg_head dmesg_total].
    etrans; [by apply (ring_view_push 131072)|].
    rewrite <- (latest_snoc DMESG_SIZE h) by done. rewrite <- Hd. done.
Qed.

Lemma grows_trans d d1 d2 s1 s2 b1 b2 :
  grows d d1 s1 b1 -> grows d1 d2 s2 b2 -> grows d d2 (s1 ++ s2) b2.
Proof.
  intros (? & ? & H1) (? & ? & H2). split_and!; [done|done|].
  intros h Hh. rewrite app_assoc. by apply H2, H1.
Qed.

Lemma grows_set d d' s b c : grows d d' s b -> grows d (set_at_bol c d') s c.
Proof. intros (? & ? & H). split_and!; [done|done|apply H]. Qed.

Lemma grows_from d d' s b c : grows (set_at_bol c d) d' s b -> grows d d' s b.
Proof. intros (? & ? & H). split_and!; [done|done|apply H]. Qed.

Lemma grows_refl d : wf d -> grows d d [] (dmesg_at_bol d).
Proof. intros. split_and!; [done|done|]. intros h. by rewrite app_nil_r. Qed.

Lemma append_chars_grows cs d :
  wf d -> completes (append_chars cs d) (fun d' => grows d d' cs (dmesg_at_bol d)).
Proof.
  revert d. induction cs as [|c cs IH]; intros d Hd; simpl.
  - by apply completes_Ret, grows_refl.
  - eapply completes_bind; [by apply append_char_grows|]. intros d1 H1.
    eapply completes_mono; [apply IH, H1|]. intros d2 H2.
    rewrite (proj1 (proj2 H1)) in H2. by apply (grows_trans _ _ _ [c] cs _ _ H1).
Qed.

Lemma foldl_rev_digits ds :
  foldl (fun a c => 10 * a + (c - 48)) 0 (rev ((fun v => 48 + v) <$> ds)) = digits_value 10 ds.
Proof.
  induction ds as [|d ds IH]; [done|]. simpl. rewrite foldl_app. cbn [foldl].
  setoid_rewrite IH. lia.
Qed.

Lemma second_chars_ok sec :
  0 <= sec < 10 ^ 20 -> sec < 2 ^ 64 -> completes (second_chars sec) (is_decimal sec).
Proof.
  intros Hs H64. unfold second_chars. destruct (Z.eqb_spec sec 0) as [->|Hne].
  { apply completes_Ret. split_and!; [|done|done]. repeat constructor; lia. }
  destruct (digit_loop_64 10 sec) as (ds & E & Hv & Hds & _ & Hnil); [lia|lia|].
  rewrite E. cbn [mbind outcome_bind].
  assert (length ds <= 20)%nat by (eapply digit_loop_length; [|exact E|exact (proj2 Hs)]; lia).
  destruct (Z.leb_spec (zlen ds) 20) as [_|Hl]; [|unfold zlen in Hl; lia].
  apply completes_Ret. split_and!.
  - apply Forall_rev, Forall_fmap. refine (Forall_impl _ _ Hds). intros v ?. unfold compose. lia.
  - by rewrite foldl_rev_digits.
  - specialize (Hnil ltac:(lia)). destruct ds as [|? ds]; [done|]. simpl.
    intros Hn%(f_equal length). rewrite length_app in Hn. simpl in Hn. lia.
Qed.

Lemma timestamp_chars_ok cs :
  0 <= cs < 2 ^ 64 -> completes (timestamp_chars cs) (is_stamp cs).
Proof.
  intros H. unfold timestamp_chars. eapply completes_bind; [apply second_chars_ok|].
  - split; [apply Z.div_pos; lia|]. apply Z.div_lt_upper_bound; lia.
  - apply Z.div_lt_upper_bound; lia.
  - intros ds Hds. apply completes_Ret. exists ds. split; [done|].
    rewrite u32_small; [done|]. pose proof (Z.mod_pos_bound cs 100). lia.
Qed.

Lemma stamp_ok cs : 0 <= cs < 2 ^ 64 -> timestamp_chars cs = Ret (stamp cs) /\ is_stamp cs (stamp cs).
Proof.
  intros H. destruct (timestamp_chars_ok cs H) as (s & E & Hs). unfold stamp. by rewrite E.
Qed.

Lemma append_timestamp_grows cs d :
  0 <= cs < 2 ^ 64 -> wf d ->
  completes (append_timestamp cs d) (fun d' => grows d d' (stamp cs) (dmesg_at_bol d)).
Proof.
  intros Hcs Hd. unfold append_timestamp. rewrite (proj1 (stamp_ok cs Hcs)).
  by apply append_chars_grows.
Qed.

Lemma end_line_grows d :
  wf d -> completes (end_line d) (fun d' =>
    (dmesg_at_bol d = 0 -> grows d d' [10] 1) /\ (dmesg_at_bol d <> 0 -> d' = d)).
Proof.
  intros Hd. unfold end_line. destruct (Z.eqb_spec (dmesg_at_bol d) 0).
  - destruct (append_char_grows 10 d Hd) as (d1 & -> & H1). apply completes_Ret.
    split; [|done]. intros _. by eapply grows_set.
  - by apply completes_Ret.
Qed.

Definition log_tail clock k msg d := log_loop clock k msg d ≫= end_line.

Definition log_goal clock k msg d : Prop :=
  (dmesg_at_bol d = 1 ->
    completes (log_tail clock k msg d) (fun d' => grows d d' (render clock k (lines msg)) 1)) /\
  (dmesg_at_bol d = 0 -> forall cur, cur <> [] ->
    completes (log_tail clock k msg d) (fun d' => exists s l r,
      grows d d' s 1 /\ lines_from cur msg = l :: r /\ cur ++ s = l ++ [10] ++ render clock k r)).

(** After one more character [c] of a line that starts with [cur]. *)
Lemma log_char clock k c rest d cur :
  wf d -> dmesg_at_bol d = 0 ->
  (forall k d, wf d -> log_goal clock k rest d) ->
  completes (d1 ← append_char c d;
             log_loop clock k rest (if c =? 10 then set_at_bol 1 d1 else d1) ≫= end_line)
    (fun d' => exists s l r,
      grows d d' s 1 /\ lines_from cur (c :: rest) = l :: r /\ cur ++ s = l ++ [10] ++ render clock k r).
Proof.
  intros Hd Hbol IH. destruct (append_char_grows c d Hd) as (d1 & -> & H1).
  cbn [mbind outcome_bind]. rewrite Hbol in H1. simpl. destruct (Z.eqb_spec c 10) as [->|Hc].
  - apply (grows_set _ _ _ _ 1) in H1.
    destruct (IH k (set_at_bol 1 d1) (proj1 H1)) as [IH1 _].
    eapply completes_mono; [by apply IH1|]. intros d2 H2.
    exists ([10] ++ render clock k (lines rest)), cur, (lines rest). split_and!; [|done|done].
    by eapply grows_trans.
  - destruct (IH k d1 (proj1 H1)) as [_ IH0].
    eapply completes_mono; [apply (IH0 (proj1 (proj2 H1)) (cur ++ [c])); by destruct cur|].
    intros d2 (s & l & r & H2 & Hl & Hs). exists ([c] ++ s), l, r. split_and!; [|done|].
    + by eapply grows_trans.
    + by rewrite app_assoc.
Qed.

Lemma log_loop_grows clock k msg d : wf d -> log_goal clock k msg d.
Proof.
  revert k d. induction msg as [|c rest IH]; intros k d Hd; split; intros Hbol.
  - unfold log_tail. simpl. unfold end_line. rewrite Hbol. apply completes_Ret.
    rewrite <- Hbol. by apply grows_refl.
  - intros cur Hcur. unfold log_tail. simpl.
    eapply completes_mono; [by apply end_line_grows|]. intros d' [H _].
    exists [10], cur, []. split_and!; [by apply H|by destruct cur|done].
  - unfold log_tail. simpl. rewrite Hbol. simpl.
    destruct (append_timestamp_grows (u64 (clock k)) d (u64_bound _) Hd) as (d0 & -> & H0).
    cbn [mbind outcome_bind]. apply (grows_set _ _ _ _ 0) in H0.
    destruct (log_char clock (S k) c rest (set_at_bol 0 d0) [] (proj1 H0) eq_refl IH)
      as (d' & E & s & l & r & Hs & Hl & Ht).
    destruct (append_char c (set_at_bol 0 d0)) as [d1| |] eqn:Ec; try discriminate.
    cbn [mbind outcome_bind] in E |- *. rewrite E. apply completes_Ret.
    unfold lines. rewrite Hl. change ([] ++ s) with s in Ht. cbn [render]. rewrite <- Ht. by eapply grows_trans.
  - intros cur Hcur. unfold log_tail. simpl. rewrite Hbol. simpl.
    destruct (log_char clock k c rest d cur Hd Hbol IH) as (d' & E & Hd').
    destruct (append_char c d) as [d1| |] eqn:Ec; try discriminate.
    cbn [mbind outcome_bind] in E |- *. rewrite E. by apply completes_Ret.
Qed.

Lemma dmesg_wf_static : wf dmesg_static.
Proof.
  unfold wf, dmesg_static. cbn [dmesg_buf dmesg_head dmesg_total].
  split; [rewrite zlen_replicate; apply Z2Nat.id|..]; done.
Qed.

Lemma dmesg_dump_loop_ok n d start i :
  zlen (dmesg_buf d) = DMESG_SIZE ->
  0 <= start < DMESG_SIZE -> 0 <= i -> i + Z.of_nat n <= DMESG_SIZE ->
  dump_loop n d start i =
    Ret (filter (fun c => c <> 0) (window DMESG_SIZE (dmesg_buf d) (start + i) (Z.of_nat n))).
Proof.
  intros Hlen Hs. revert i. induction n as [|n IH]; intros i Hi Hn; [done|].
  rewrite window_cons by lia. cbn [dump_loop]. change DMESG_SIZE with 131072 in *.
  rewrite u32_small by lia.
  rewrite (rd_lookup_total 131072) by (exact Hlen || (apply Z.mod_pos_bound; lia)).
  cbn [mbind outcome_bind]. rewrite IH, filter_cons by lia.
  replace (start + (i + 1)) with (start + i + 1) by lia.
  replace (Z.of_nat (S n) - 1) with (Z.of_nat n) by lia.
  destruct (Z.eqb_spec (dmesg_buf d !!! Z.to_nat ((start + i) mod 131072)) 0);
    cbn [mbind outcome_bind]; case_decide; done.
Qed.

(** ** Theorems *)

(** [dmesg_log] appends exactly the lines of the message, each with its own
    time stamp in front and a newline behind, to what the log holds; the log
    keeps the last 128 KiB of the text and is at the start of a line again.
    Every stamp is the decimal rendering of the clock reading for that line. *)
Theorem dmesg_log_appends_lines clock msg d h :
  wf d -> dmesg_at_bol d = 1 -> log_view d = latest DMESG_SIZE h ->
  completes (dmesg_log clock (Some msg) d) (fun d' =>
    wf d' /\ dmesg_at_bol d' = 1 /\
    log_view d' = latest DMESG_SIZE (h ++ render clock 0 (lines msg))) /\
  (forall k, is_stamp (u64 (clock k)) (stamp (u64 (clock k)))).
Proof.
  intros Hd Hbol Hh. split; [|intros; apply stamp_ok, u64_bound].
  unfold dmesg_log. destruct msg as [|c msg].
  - apply completes_Ret. simpl. by rewrite app_nil_r.
  - assert (end_line d = Ret d) as -> by (unfold end_line; by rewrite Hbol). simpl. rewrite Hbol. simpl.
    destruct (log_loop_grows clock 0 (c :: msg) d Hd) as [H _]. unfold log_tail in H. simpl in H.
    rewrite Hbol in H. simpl in H.
    eapply completes_mono; [by apply H|].
    intros d' (? & ? & Hg). split_and!; [done|done|by apply Hg].
Qed.

Lemma dmesg_log_appends_lines_witness :
  let clock := fun k => 123 + Z.of_nat k in
  completes (dmesg_log clock (Some [65; 10; 66]) dmesg_static) (fun d' =>
    wf d' /\ dmesg_at_bol d' = 1 /\
    log_view d' = latest DMESG_SIZE ([] ++ render clock 0 (lines [65; 10; 66]))) /\
  (forall k, is_stamp (u64 (clock k)) (stamp (u64 (clock k)))).
Proof.
  intros clock. apply (dmesg_log_appends_lines clock [65; 10; 66] dmesg_static []).
  - apply dmesg_wf_static.
  - reflexivity.
  - apply window_0.
Defined.

(** [dmesg_dump] prints the text the log holds, oldest character first,
    without its NUL characters. *)
Theorem dmesg_dump_prints_view d :
  wf d -> dmesg_dump d = Ret (filter (fun c => c <> 0) (log_view d)).
Proof.
  intros [Hl Hh Hc Hp]. unfold dmesg_dump, log_view, ring_view.
  assert (DMESG_SIZE = 131072) as HS by reflexivity.
  destruct (Z.eqb_spec (dmesg_total d) 0) as [E0|E0]; [by rewrite E0|].
  destruct (Z.ltb_spec (dmesg_total d) DMESG_SIZE) as [Hlt|Hge].
  - rewrite dmesg_dump_loop_ok by lia. rewrite Hp, Z2Nat.id by lia. reflexivity.
  - rewrite dmesg_dump_loop_ok by lia. rewrite Z.add_0_r, Z2Nat.id by lia.
    assert (dmesg_total d = DMESG_SIZE) as -> by lia. reflexivity.
Qed.

Lemma dmesg_dump_prints_view_witness :
  dmesg_dump dmesg_static = Ret (filter (fun c => c <> 0) (log_view dmesg_static)).
Proof. apply dmesg_dump_prints_view, dmesg_wf_static. Defined.

End Dmesg.
