(* ===== verification/Alloc.v ===== *)
(** * Kernel heap (kernel/core/sagelang/sage_alloc.c, include/sage_alloc.h)

    The free-list allocator, on the bytes of [sage_heap]: every block starts
    with a 16-byte header whose first word is its size; a free block keeps the
    address of the next free block in the second word, a block in use keeps its
    tag there.  [heap_base] is the address the linker gives [sage_heap].
    [lock_alloc]/[unlock_alloc] make each operation one critical section. *)

From stdpp Require Import base tactics list numbers option.
From S2P Require Import Prelude CMem Telemetry.

Module Alloc.
Import Telemetry.

(** ** Model *)

Definition SAGE_ARENA_SIZE : Z := 32 * 1024 * 1024.
Definition ALLOC_HEADER_SIZE : Z := 16.
Definition ALIGNMENT : Z := 16.
Definition SIZEOF_FreeBlock : Z := 16.

(** [(size + (ALIGNMENT - 1)) & ~(size_t)(ALIGNMENT - 1)] on 64-bit [size_t]. *)
Definition ALIGN (size : Z) : Z := Z.land (u64 (size + (ALIGNMENT - 1))) (u64 (Z.lnot (ALIGNMENT - 1))).

Definition ALLOC_TAG_KERNEL : Z := 0.
Definition ALLOC_TAG_VM : Z := 1.
Definition ALLOC_TAG_VFS : Z := 2.
Definition ALLOC_TAG_IPC : Z := 3.
Definition ALLOC_TAG_PARSER : Z := 4.
Definition ALLOC_TAG_SHELL : Z := 5.
Definition ALLOC_TAG_OTHER : Z := 6.
Definition ALLOC_TAG_MAX : Z := 7.

Record alloc_stats := mk_stats { alloc_count : Z; bytes_total : Z }.

Record heap := mk_heap {
  h_mem : mem;
  sage_bump : Z;
  g_free_list : Z;
  g_alloc_stats : list alloc_stats;
  h_trace : telemetry
}.

Definition heap_static : heap :=
  mk_heap mem_zero 0 0 (replicate (Z.to_nat ALLOC_TAG_MAX) (mk_stats 0 0)) telemetry_static.

Definition with_mem (m : mem) (h : heap) : heap :=
  mk_heap m (sage_bump h) (g_free_list h) (g_alloc_stats h) (h_trace h).
Definition with_free_list (p : Z) (h : heap) : heap :=
  mk_heap (h_mem h) (sage_bump h) p (g_alloc_stats h) (h_trace h).
Definition with_bump (b : Z) (h : heap) : heap :=
  mk_heap (h_mem h) b (g_free_list h) (g_alloc_stats h) (h_trace h).
Definition with_stats (s : list alloc_stats) (h : heap) : heap :=
  mk_heap (h_mem h) (sage_bump h) (g_free_list h) s (h_trace h).
Definition with_trace (t : telemetry) (h : heap) : heap :=
  mk_heap (h_mem h) (sage_bump h) (g_free_list h) (g_alloc_stats h) t.

(** What [trace_log] reads at a call: the tick counter and the current thread. *)
Record env := mk_env { e_now : Z; e_cur : option Z }.

Definition heap_trace_log (e : env) (ev : trace_event) (a1 a2 : Z) (h : heap) : heap :=
  with_trace (trace_log (e_now e) (e_cur e) ev a1 a2 (h_trace h)) h.

(** Bound on the nodes of the free list: blocks have at least 32 bytes. *)
Definition list_fuel : nat := Z.to_nat (SAGE_ARENA_SIZE / 32 + 1).

Section model.
Context (heap_base : Z).

(** Accesses outside [sage_heap] are faults. *)
Definition mapped (a n : Z) : bool :=
  (heap_base <=? a) && (0 <=? n) && (a + n <=? heap_base + SAGE_ARENA_SIZE).

Definition ld64 (a : Z) (h : heap) : outcome Z :=
  if mapped a 8 then Ret (load64 (h_mem h) a) else Fault.
Definition ld32 (a : Z) (h : heap) : outcome Z :=
  if mapped a 4 then Ret (load32 (h_mem h) a) else Fault.
Definition st64 (a v : Z) (h : heap) : outcome heap :=
  if mapped a 8 then Ret (with_mem (store64 (h_mem h) a v) h) else Fault.
Definition st32 (a v : Z) (h : heap) : outcome heap :=
  if mapped a 4 then Ret (with_mem (store32 (h_mem h) a v) h) else Fault.
Definition heap_memset (a c n : Z) (h : heap) : outcome heap :=
  if mapped a n then Ret (with_mem (memset (h_mem h) a c n) h) else Fault.
Definition heap_memcpy (dst src n : Z) (h : heap) : outcome heap :=
  if mapped dst n && mapped src n then Ret (with_mem (memcpy (h_mem h) dst src n) h) else Fault.

(** A [FreeBlock **]: [None] is [&g_free_list], [Some p] is [&p->next]. *)
Definition write_link (prev : option Z) (v : Z) (h : heap) : outcome heap :=
  match prev with
  | None => Ret (with_free_list v h)
  | Some p => st64 (p + 8) v h
  end.

(** [if ((unsigned)tag < ALLOC_TAG_MAX) { alloc_count++; bytes_total += raw_size; }] *)
Definition count_alloc (tag raw_size : Z) (h : heap) : outcome heap :=
  if u32 tag <? ALLOC_TAG_MAX then
    s ← rd (g_alloc_stats h) (u32 tag);
    Ret (with_stats ((g_alloc_stats h).[u32 tag <-
      mk_stats (u64 (alloc_count s + 1)) (u64 (bytes_total s + raw_size))]) h)
  else Ret h.

(** The walk of [sage_malloc_tagged] to the first block that fits. *)
Fixpoint malloc_scan (fuel : nat) (needed : Z) (prev : option Z) (curr : Z) (h : heap)
  : outcome (option (option Z * Z)) :=
  if curr =? 0 then Ret None
  else
    match fuel with
    | O => OutOfFuel
    | S n =>
        sz ← ld64 curr h;
        if needed <=? sz then Ret (Some (prev, curr))
        else nxt ← ld64 (curr + 8) h; malloc_scan n needed (Some curr) nxt h
    end.

(** The header of a block handed out, its cleared body and the statistics. *)
Definition init_block (header needed tag raw_size : Z) (h : heap) : outcome heap :=
  h1 ← st64 header (u64 (needed - ALLOC_HEADER_SIZE)) h;
  h2 ← st32 (header + 8) tag h1;
  h3 ← heap_memset (header + ALLOC_HEADER_SIZE) 0 (u64 (needed - ALLOC_HEADER_SIZE)) h2;
  count_alloc tag raw_size h3.

(** Take [needed] bytes of the free block [curr], splitting it when the rest
    can hold a block. *)
Definition take_block (prev : option Z) (curr needed tag raw_size : Z) (h : heap)
  : outcome (Z * heap) :=
  sz ← ld64 curr h;
  nxt ← ld64 (curr + 8) h;
  '(needed', h') ←
    (if u64 (needed + SIZEOF_FreeBlock + ALIGNMENT) <=? sz then
       let next_block := curr + needed in
       h1 ← st64 next_block (u64 (sz - needed)) h;
       h2 ← st64 (next_block + 8) nxt h1;
       h3 ← write_link prev next_block h2;
       Ret (needed, h3)
     else
       h1 ← write_link prev nxt h;
       needed2 ← ld64 curr h1;
       Ret (needed2, h1));
  h'' ← init_block curr needed' tag raw_size h';
  Ret (curr + ALLOC_HEADER_SIZE, h'').

(** A new block at the end of the used part of the arena. *)
Definition bump_block (e : env) (needed tag raw_size : Z) (h : heap) : outcome (Z * heap) :=
  if SAGE_ARENA_SIZE <? u64 (sage_bump h + needed) then Ret (0, h)
  else
    let header := heap_base + sage_bump h in
    h1 ← st64 header (u64 (needed - ALLOC_HEADER_SIZE)) h;
    h2 ← st32 (header + 8) tag h1;
    let h3 := with_bump (u64 (sage_bump h2 + needed)) h2 in
    let ptr := header + ALLOC_HEADER_SIZE in
    h4 ← heap_memset ptr 0 (u64 (needed - ALLOC_HEADER_SIZE)) h3;
    h5 ← count_alloc tag raw_size h4;
    Ret (ptr, heap_trace_log e TRACE_ALLOC_MALLOC raw_size ptr h5).

(** Returns the user pointer, 0 for NULL. *)
Definition sage_malloc_tagged (e : env) (size tag : Z) (h : heap) : outcome (Z * heap) :=
  if size =? 0 then Ret (0, h)
  else
    let needed := ALIGN (u64 (size + ALLOC_HEADER_SIZE)) in
    r ← malloc_scan list_fuel needed None (g_free_list h) h;
    match r with
    | Some (prev, curr) => take_block prev curr needed tag size h
    | None => bump_block e needed tag size h
    end.

Definition sage_calloc_tagged (e : env) (count size tag : Z) (h : heap) : outcome (Z * heap) :=
  sage_malloc_tagged e (u64 (count * size)) tag h.

Definition sage_malloc (e : env) (size : Z) (h : heap) : outcome (Z * heap) :=
  sage_malloc_tagged e size ALLOC_TAG_KERNEL h.
Definition sage_calloc (e : env) (count size : Z) (h : heap) : outcome (Z * heap) :=
  sage_calloc_tagged e count size ALLOC_TAG_KERNEL h.

(** [while (curr && curr < new_block)]: the place of [new_block] in the list. *)
Fixpoint free_scan (fuel : nat) (new_block : Z) (prev : option Z) (curr : Z) (h : heap)
  : outcome (option Z * Z) :=
  if (curr =? 0) || (new_block <=? curr) then Ret (prev, curr)
  else
    match fuel with
    | O => OutOfFuel
    | S n => nxt ← ld64 (curr + 8) h; free_scan n new_block (Some curr) nxt h
    end.

(** [while (p && p->next != new_block) p = p->next]. *)
Fixpoint pred_scan (fuel : nat) (new_block p : Z) (h : heap) : outcome Z :=
  if p =? 0 then Ret 0
  else
    match fuel with
    | O => OutOfFuel
    | S n =>
        nxt ← ld64 (p + 8) h;
        if nxt =? new_block then Ret p else pred_scan n new_block nxt h
    end.

(** Merge [new_block] with its successor in the list when they touch. *)
Definition coalesce_next (new_block : Z) (h : heap) : outcome heap :=
  nxt ← ld64 (new_block + 8) h;
  if nxt =? 0 then Ret h
  else
    sz ← ld64 new_block h;
    if new_block + sz =? nxt then
      nsz ← ld64 nxt h;
      h1 ← st64 new_block (u64 (sz + nsz)) h;
      nnxt ← ld64 (nxt + 8) h1;
      st64 (new_block + 8) nnxt h1
    else Ret h.

(** Merge it into its predecessor. *)
Definition coalesce_prev (new_block : Z) (h : heap) : outcome heap :=
  p ← pred_scan list_fuel new_block (g_free_list h) h;
  if p =? 0 then Ret h
  else
    psz ← ld64 p h;
    if p + psz =? new_block then
      sz ← ld64 new_block h;
      h1 ← st64 p (u64 (psz + sz)) h;
      nxt ← ld64 (new_block + 8) h1;
      st64 (p + 8) nxt h1
    else Ret h.

Definition sage_free (e : env) (ptr : Z) (h0 : heap) : outcome heap :=
  if ptr =? 0 then Ret h0
  else
    let h := heap_trace_log e TRACE_ALLOC_FREE ptr 0 h0 in
    let header := ptr - ALLOC_HEADER_SIZE in
    user_size ← ld64 header h;
    tag ← ld32 (header + 8) h;
    let total_size := ALIGN (u64 (user_size + ALLOC_HEADER_SIZE)) in
    h1 ← st64 header total_size h;
    '(prev, curr) ← free_scan list_fuel header None (g_free_list h1) h1;
    h2 ← st64 (header + 8) curr h1;
    h3 ← write_link prev header h2;
    h4 ← coalesce_next header h3;
    match prev with
    | None => Ret h4
    | Some _ => coalesce_prev header h4
    end.

Definition sage_realloc (e : env) (ptr new_size : Z) (h : heap) : outcome (Z * heap) :=
  if ptr =? 0 then sage_malloc e new_size h
  else if new_size =? 0 then h' ← sage_free e ptr h; Ret (0, h')
  else
    let header := ptr - ALLOC_HEADER_SIZE in
    old_user_size ← ld64 header h;
    tag ← ld32 (header + 8) h;
    if new_size <=? old_user_size then Ret (ptr, h)
    else
      '(np, h1) ← sage_malloc_tagged e new_size tag h;
      if np =? 0 then Ret (0, h1)
      else
        h2 ← heap_memcpy np ptr old_user_size h1;
        h3 ← sage_free e ptr h2;
        Ret (np, h3).

(** [s] is the text at the argument, without its NUL; [None] for NULL. *)
Definition sage_strdup (e : env) (s : option (list Z)) (h : heap) : outcome (Z * heap) :=
  match s with
  | None => Ret (0, h)
  | Some str =>
      let len := zlen str in
      '(d, h1) ← sage_malloc e (u64 (len + 1)) h;
      if d =? 0 then Ret (0, h1)
      else if mapped d (len + 1) then
        Ret (d, with_mem (fun x => if in_block d (len + 1) x
                                   then default 0 (str.[x - d]) else h_mem h1 x) h1)
      else Fault
  end.

Definition sage_arena_reset (h : heap) : heap :=
  mk_heap (h_mem h) 0 0 (replicate (Z.to_nat ALLOC_TAG_MAX) (mk_stats 0 0)) (h_trace h).

Definition sage_arena_used (h : heap) : Z := sage_bump h.

Definition sage_alloc_stats (tag : Z) (h : heap) : outcome alloc_stats :=
  if ALLOC_TAG_MAX <=? u32 tag then Ret (mk_stats 0 0) else rd (g_alloc_stats h) (u32 tag).

End model.

End Alloc.
