(* ===== verification/AllocSpec.v ===== *)
(** * Correctness of the kernel heap

    The specification of Alloc: the used part of the arena is a sequence of
    adjacent blocks, each in use or free, no two free blocks next to each
    other; the list in memory threads the free blocks in address order.
    Allocation and freeing are operations on that sequence. *)

From stdpp Require Import base tactics numbers option gmap relations sets list sorting.
From S2P Require Import Prelude CMem Telemetry Alloc.

Module AllocSpec.
Import Telemetry Alloc.

(** ** Specification *)

(** A block of [b_size] bytes, header included; [b_tag] is [None] when free. *)
Record block := mk_block { b_size : Z; b_tag : option Z }.

Definition block_ok (m : mem) (a : Z) (b : block) : Prop :=
  32 <= b_size b /\ (16 | b_size b) /\
  match b_tag b with
  | Some t => load64 m a = b_size b - 16 /\ load32 m (a + 8) = t
  | None => load64 m a = b_size b
  end.

Fixpoint blocks_end (a : Z) (bl : list block) : Z :=
  match bl with
  | [] => a
  | b :: r => blocks_end (a + b_size b) r
  end.

Fixpoint blocks_rep (m : mem) (a : Z) (bl : list block) : Prop :=
  match bl with
  | [] => True
  | b :: r => block_ok m a b /\ blocks_rep m (a + b_size b) r
  end.

(** Addresses of the free blocks. *)
Fixpoint free_addrs (a : Z) (bl : list block) : list Z :=
  match bl with
  | [] => []
  | b :: r =>
      match b_tag b with
      | None => a :: free_addrs (a + b_size b) r
      | Some _ => free_addrs (a + b_size b) r
      end
  end.

(** The list segment in memory from pointer [p] through the blocks [l] to [q]. *)
Fixpoint lseg (m : mem) (p : Z) (l : list Z) (q : Z) : Prop :=
  match l with
  | [] => p = q
  | a :: r => p = a /\ lseg m (load64 m (a + 8)) r q
  end.

Fixpoint no_adjacent_free (bl : list block) : Prop :=
  match bl with
  | b :: ((b' :: _) as r) => ~ (b_tag b = None /\ b_tag b' = None) /\ no_adjacent_free r
  | _ => True
  end.

(** [live_at a bl x n t]: a block in use at address [x], of [n] bytes, tag [t]. *)
Fixpoint live_at (a : Z) (bl : list block) (x n t : Z) : Prop :=
  match bl with
  | [] => False
  | b :: r => (x = a /\ n = b_size b /\ b_tag b = Some t) \/ live_at (a + b_size b) r x n t
  end.

Record arena_ok (heap_base : Z) : Prop := {
  base_pos : 0 < heap_base;
  base_aligned : (16 | heap_base);
  base_top : heap_base + SAGE_ARENA_SIZE < 2 ^ 64
}.

Record heap_rep (heap_base : Z) (h : heap) (bl : list block) : Prop := {
  inv_wf : mem_wf (h_mem h);
  inv_blocks : blocks_rep (h_mem h) heap_base bl;
  inv_end : blocks_end heap_base bl = heap_base + sage_bump h;
  inv_fit : sage_bump h <= SAGE_ARENA_SIZE;
  inv_list : lseg (h_mem h) (g_free_list h) (free_addrs heap_base bl) 0;
  inv_stats : zlen (g_alloc_stats h) = ALLOC_TAG_MAX
}.

Record heap_inv (heap_base : Z) (h : heap) (bl : list block) : Prop := {
  inv_rep :> heap_rep heap_base h bl;
  inv_coalesced : no_adjacent_free bl
}.

(** Bytes a request of [size] bytes occupies. *)
Definition needed_of (size : Z) : Z := 16 * ((size + 31) / 16).

(** The blocks handed out of the free block of size [s]. *)
Definition carve (s needed tag : Z) : list block :=
  if needed + 32 <=? s then [mk_block needed (Some tag); mk_block (s - needed) None]
  else [mk_block s (Some tag)].

(** Freeing: a free block takes up a free neighbour on either side. *)
Definition absorb_next (s : Z) (l2 : list block) : list block :=
  match l2 with
  | mk_block n None :: r => mk_block (s + n) None :: r
  | _ => mk_block s None :: l2
  end.

Definition absorb_prev (l1 : list block) (l2 : list block) : list block :=
  match last l1, l2 with
  | Some (mk_block p None), mk_block s None :: r => take (length l1 - 1) l1 ++ mk_block (p + s) None :: r
  | _, _ => l1 ++ l2
  end.

(** ** Sequences of blocks *)

Lemma block_ok_live m a n t :
  32 <= n -> (16 | n) -> load64 m a = n - 16 -> load32 m (a + 8) = t -> block_ok m a (mk_block n (Some t)).
Proof. by intros. Qed.

Lemma block_ok_free m a n : 32 <= n -> (16 | n) -> load64 m a = n -> block_ok m a (mk_block n None).
Proof. by intros. Qed.

Lemma blocks_end_app a l1 l2 : blocks_end a (l1 ++ l2) = blocks_end (blocks_end a l1) l2.
Proof. revert a. induction l1; intros; simpl; auto. Qed.

Lemma free_addrs_app a l1 l2 :
  free_addrs a (l1 ++ l2) = free_addrs a l1 ++ free_addrs (blocks_end a l1) l2.
Proof.
  revert a. induction l1 as [|[s [t|]] l1 IH]; intros a; simpl; [done|apply IH|].
  by rewrite IH.
Qed.

Lemma blocks_rep_app m a l1 l2 :
  blocks_rep m a (l1 ++ l2) <-> blocks_rep m a l1 /\ blocks_rep m (blocks_end a l1) l2.
Proof.
  revert a. induction l1 as [|b l1 IH]; intros a; simpl; [tauto|]. rewrite IH. tauto.
Qed.

Lemma lseg_app m p l1 l2 q :
  lseg m p (l1 ++ l2) q <-> exists r, lseg m p l1 r /\ lseg m r l2 q.
Proof.
  revert p. induction l1 as [|x l1 IH]; intros p; simpl.
  - split; [by eauto|]. intros (r & -> & H). done.
  - rewrite IH. split; [intros (? & r & ? & ?); eauto|intros (r & (? & ?) & ?); eauto].
Qed.

Lemma live_at_app a l1 l2 x n t :
  live_at a (l1 ++ l2) x n t <-> live_at a l1 x n t \/ live_at (blocks_end a l1) l2 x n t.
Proof. revert a. induction l1 as [|b l1 IH]; intros a; simpl; [tauto|]. rewrite IH. tauto. Qed.

Lemma blocks_end_ge m a bl :
  blocks_rep m a bl -> a + 32 * zlen bl <= blocks_end a bl.
Proof.
  unfold zlen. revert a. induction bl as [|b bl IH]; intros a; simpl; [lia|].
  intros [(? & _) Hr]. specialize (IH _ Hr). lia.
Qed.

Lemma blocks_rep_agree m m' a bl :
  blocks_rep m a bl -> agree m m' a (blocks_end a bl - a) -> blocks_rep m' a bl.
Proof.
  revert a. induction bl as [|b bl IH]; intros a; simpl; [done|].
  intros [(Hs & Hd & Hh) Hr] Ha. pose proof (blocks_end_ge _ _ _ Hr). pose proof (zlen_nonneg bl).
  split.
  - split_and!; [done|done|]. unfold load64, load32 in *.
    rewrite <- (load_agree 8 m m' a) by (eapply agree_sub; [done|lia|lia]).
    rewrite <- (load_agree 4 m m' (a + 8)) by (eapply agree_sub; [done|lia|lia]). done.
  - apply IH; [done|]. eapply agree_sub; [done|lia|lia].
Qed.

Lemma free_addrs_range m a bl x :
  blocks_rep m a bl -> x ∈ free_addrs a bl -> a <= x /\ x + 32 <= blocks_end a bl.
Proof.
  revert a. induction bl as [|b bl IH]; intros a; simpl; [by intros _ ?%not_elem_of_nil|].
  intros [(Hs & _) Hr] Hx. pose proof (blocks_end_ge _ _ _ Hr). pose proof (zlen_nonneg bl).
  destruct (b_tag b).
  - specialize (IH _ Hr Hx). lia.
  - apply elem_of_cons in Hx as [->|Hx]; [lia|]. specialize (IH _ Hr Hx). lia.
Qed.

Lemma lseg_agree m m' p l q :
  lseg m p l q -> (forall x, x ∈ l -> agree m m' (x + 8) 8) -> lseg m' p l q.
Proof.
  revert p. induction l as [|a l IH]; intros p; simpl; [done|].
  intros [-> H] Ha. split; [done|]. unfold load64 in *.
  rewrite <- (load_agree 8 m m') by (apply Ha; set_solver). apply IH; [done|set_solver].
Qed.

Lemma lseg_blocks_agree m m' p a bl q :
  blocks_rep m a bl -> lseg m p (free_addrs a bl) q ->
  agree m m' a (blocks_end a bl - a) -> lseg m' p (free_addrs a bl) q.
Proof.
  intros Hb Hl Ha. eapply lseg_agree; [done|]. intros x Hx.
  pose proof (free_addrs_range _ _ _ _ Hb Hx). eapply agree_sub; [done|lia|lia].
Qed.

Lemma live_at_range m a bl x n t :
  blocks_rep m a bl -> live_at a bl x n t -> a <= x /\ x + n <= blocks_end a bl /\ 32 <= n.
Proof.
  revert a. induction bl as [|b bl IH]; intros a; simpl; [done|].
  intros [(Hs & _) Hr] Hx. pose proof (blocks_end_ge _ _ _ Hr). pose proof (zlen_nonneg bl).
  destruct Hx as [(-> & -> & _)|Hx]; [lia|]. specialize (IH _ Hr Hx). lia.
Qed.

Lemma free_addrs_le a bl : zlen (free_addrs a bl) <= zlen bl.
Proof.
  unfold zlen. revert a. induction bl as [|b bl IH]; intros a; simpl; [lia|].
  specialize (IH (a + b_size b)). destruct (b_tag b); simpl; lia.
Qed.

Lemma no_adjacent_app l1 l2 :
  no_adjacent_free (l1 ++ l2) <->
    no_adjacent_free l1 /\ no_adjacent_free l2 /\
    (forall b b', last l1 = Some b -> head l2 = Some b' -> ~ (b_tag b = None /\ b_tag b' = None)).
Proof.
  induction l1 as [|b l1 IH]; simpl; [split; [intros; split_and!; done|tauto]|].
  destruct l1 as [|b1 l1].
  - simpl. destruct l2 as [|b2 l2]; simpl; [split; [intros; split_and!; done|tauto]|].
    split.
    + intros [H1 H2]. split_and!; [done|done|]. by intros ? ? [= <-] [= <-].
    + intros (_ & H2 & H3). split; [by apply H3|done].
  - rewrite <- app_comm_cons in IH |- *. split.
    + intros [H1 H2]. apply IH in H2 as (? & ? & H4). split_and!; [done|done|done|].
      intros b0 b' Hb. apply H4. by rewrite last_cons_cons in Hb.
    + intros ((H1 & H2) & H3 & H4). split; [done|]. apply IH. split_and!; [done|done|].
      intros b0 b' Hb. apply H4. by rewrite last_cons_cons.
Qed.

(** ** Sizes *)

Lemma ALIGN_spec x : ALIGN x = 16 * (u64 (x + 15) / 16).
Proof.
  unfold ALIGN, ALIGNMENT. change (16 - 1) with 15. set (y := u64 (x + 15)).
  pose proof (u64_bound (x + 15)) as Hy. fold y in Hy.
  transitivity (Z.ldiff y (Z.ones 4)).
  - apply Z.bits_inj'. intros n Hn. rewrite Z.land_spec, Z.ldiff_spec.
    destruct (Z.ltb_spec n 64).
    + f_equal. unfold u64. rewrite Z.mod_pow2_bits_low by lia. rewrite Z.lnot_spec by lia. done.
    + unfold y, u64 at 1 3. by rewrite Z.mod_pow2_bits_high by lia.
  - rewrite Z.ldiff_ones_r, Z.shiftl_mul_pow2, Z.shiftr_div_pow2 by lia. change (2 ^ 4) with 16. lia.
Qed.

Lemma needed_spec size :
  0 < size -> size + 31 < 2 ^ 64 -> ALIGN (u64 (size + ALLOC_HEADER_SIZE)) = needed_of size.
Proof.
  intros. rewrite ALIGN_spec. unfold ALLOC_HEADER_SIZE, needed_of.
  rewrite !u64_small by (rewrite ?u64_small by lia; lia). do 2 f_equal. lia.
Qed.

Lemma needed_bounds size :
  0 < size -> size + 16 <= needed_of size < size + 32 /\ 32 <= needed_of size /\ (16 | needed_of size).
Proof.
  intros. unfold needed_of. pose proof (Z.div_mod (size + 31) 16).
  pose proof (Z.mod_pos_bound (size + 31) 16). split_and!; [lia|lia|lia|]. apply Z.divide_factor_l.
Qed.

(** The size read back from a header restores the size of the block. *)
Lemma total_size_spec s :
  32 <= s -> s <= SAGE_ARENA_SIZE -> (16 | s) -> ALIGN (u64 (s - 16 + ALLOC_HEADER_SIZE)) = s.
Proof.
  unfold ALLOC_HEADER_SIZE, SAGE_ARENA_SIZE. intros ? ? [k ->].
  rewrite ALIGN_spec, !u64_small by (rewrite ?u64_small by lia; lia).
  replace (k * 16 - 16 + 16 + 15) with (15 + k * 16) by lia. rewrite Z.div_add by lia.
  change (15 / 16) with 0. lia.
Qed.

Lemma list_fuel_eq : Z.of_nat list_fuel = 1048577.
Proof. unfold list_fuel. by rewrite Z2Nat.id. Qed.

(** ** Free blocks and their links *)

Lemma free_addrs_sorted m a bl :
  blocks_rep m a bl -> StronglySorted (fun x y => x + 32 <= y) (free_addrs a bl).
Proof.
  revert a. induction bl as [|b bl IH]; intros a; simpl; [constructor|].
  intros [(Hs & _) Hr]. specialize (IH _ Hr). destruct (b_tag b); [done|].
  constructor; [done|]. apply Forall_forall. intros y Hy.
  pose proof (free_addrs_range _ _ _ _ Hr Hy). lia.
Qed.

Lemma free_live_disjoint m a bl x y n t :
  blocks_rep m a bl -> x ∈ free_addrs a bl -> live_at a bl y n t -> disjoint_ranges x 32 y n.
Proof.
  unfold disjoint_ranges. revert a. induction bl as [|b bl IH]; intros a; simpl; [done|].
  intros [(Hs & _) Hr] Hx Hy. destruct (b_tag b) as [t'|] eqn:Et.
  - destruct Hy as [(-> & -> & _)|Hy]; [|by eapply IH].
    pose proof (free_addrs_range _ _ _ _ Hr Hx). lia.
  - destruct Hy as [(_ & _ & [=])|Hy]. apply elem_of_cons in Hx as [->|Hx]; [|by eapply IH].
    pose proof (live_at_range _ _ _ _ _ _ Hr Hy). lia.
Qed.

(** Changing the link word of a free block keeps all headers. *)
Lemma blocks_rep_link m a bl x v :
  blocks_rep m a bl -> x ∈ free_addrs a bl -> blocks_rep (store64 m (x + 8) v) a bl.
Proof.
  revert a. induction bl as [|b bl IH]; intros a; simpl; [done|].
  intros [(Hs & Hd & Hh) Hr] Hx. unfold block_ok, store64, load64, load32 in *.
  destruct (b_tag b) as [t|] eqn:Et.
  - pose proof (free_addrs_range _ _ _ _ Hr Hx). split; [|by apply IH].
    split_and!; [done|done|..]; rewrite load_store_ne by (unfold disjoint_ranges; lia); apply Hh.
  - apply elem_of_cons in Hx as [->|Hx].
    + split.
      * split_and!; [done|done|]. rewrite load_store_ne by (unfold disjoint_ranges; lia). done.
      * eapply blocks_rep_agree; [done|]. intros y Hy. symmetry.
        eapply store_agree; [|exact Hy]. unfold disjoint_ranges. lia.
    + pose proof (free_addrs_range _ _ _ _ Hr Hx). split; [|by apply IH].
      split_and!; [done|done|]. rewrite load_store_ne by (unfold disjoint_ranges; lia). done.
Qed.

(** Changing the last link of a segment redirects its end. *)
Lemma lseg_store_last m p l x q v :
  StronglySorted (fun x y => x + 32 <= y) (l ++ [x]) -> 0 <= v < 2 ^ 64 ->
  lseg m p (l ++ [x]) q -> lseg (store64 m (x + 8) v) p (l ++ [x]) v.
Proof.
  intros Hs Hv (r & H1 & H2)%lseg_app. apply lseg_app. exists r. split.
  - eapply lseg_agree; [done|]. intros y Hy. intros z Hz. symmetry. eapply store_agree; [|exact Hz].
    assert (y + 32 <= x) by (apply (StronglySorted_app_1_elem_of (fun x y => x + 32 <= y) l [x] y x Hs Hy); set_solver).
    unfold disjoint_ranges. lia.
  - simpl in *. split; [apply H2|]. by rewrite load64_store64, u64_small.
Qed.

Section operations.
Context (heap_base : Z) (Hbase : arena_ok heap_base).

Lemma mapped_ok a n :
  heap_base <= a -> 0 <= n -> a + n <= heap_base + SAGE_ARENA_SIZE -> mapped heap_base a n = true.
Proof. intros. unfold mapped. rewrite !andb_true_iff, !Z.leb_le. lia. Qed.

Lemma ld64_ok a h :
  heap_base <= a -> a + 8 <= heap_base + SAGE_ARENA_SIZE -> ld64 heap_base a h = Ret (load64 (h_mem h) a).
Proof. intros. unfold ld64. by rewrite mapped_ok by lia. Qed.

Lemma ld32_ok a h :
  heap_base <= a -> a + 4 <= heap_base + SAGE_ARENA_SIZE -> ld32 heap_base a h = Ret (load32 (h_mem h) a).
Proof. intros. unfold ld32. by rewrite mapped_ok by lia. Qed.

Lemma st64_ok a v h :
  heap_base <= a -> a + 8 <= heap_base + SAGE_ARENA_SIZE ->
  st64 heap_base a v h = Ret (with_mem (store64 (h_mem h) a v) h).
Proof. intros. unfold st64. by rewrite mapped_ok by lia. Qed.

Lemma st32_ok a v h :
  heap_base <= a -> a + 4 <= heap_base + SAGE_ARENA_SIZE ->
  st32 heap_base a v h = Ret (with_mem (store32 (h_mem h) a v) h).
Proof. intros. unfold st32. by rewrite mapped_ok by lia. Qed.

Lemma heap_memset_ok a c n h :
  heap_base <= a -> 0 <= n -> a + n <= heap_base + SAGE_ARENA_SIZE ->
  heap_memset heap_base a c n h = Ret (with_mem (memset (h_mem h) a c n) h).
Proof. intros. unfold heap_memset. by rewrite mapped_ok by lia. Qed.

(** Writing through a [FreeBlock **] that ends the free blocks of [l1]. *)
Lemma write_link_ok h l1 prev v r :
  mem_wf (h_mem h) -> blocks_rep (h_mem h) heap_base l1 ->
  blocks_end heap_base l1 <= heap_base + SAGE_ARENA_SIZE ->
  lseg (h_mem h) (g_free_list h) (free_addrs heap_base l1) r ->
  prev = last (free_addrs heap_base l1) -> 0 <= v < 2 ^ 64 ->
  exists m' p', write_link heap_base prev v h = Ret (with_free_list p' (with_mem m' h)) /\
    mem_wf m' /\ blocks_rep m' heap_base l1 /\ lseg m' p' (free_addrs heap_base l1) v /\
    (forall x, x < heap_base \/ blocks_end heap_base l1 <= x -> h_mem h x = m' x) /\
    (forall x n t, live_at heap_base l1 x n t -> agree (h_mem h) m' x n).
Proof.
  intros Hwf Hb Hend Hl -> Hv. destruct (last (free_addrs heap_base l1)) as [x|] eqn:E.
  - apply last_Some in E as [l El]. unfold write_link.
    assert (Hx : x ∈ free_addrs heap_base l1) by (rewrite El; set_solver).
    pose proof (free_addrs_range _ _ _ _ Hb Hx).
    rewrite st64_ok by lia. eexists _, (g_free_list h). split; [done|]. split_and!.
    + by apply store_wf.
    + by apply blocks_rep_link.
    + rewrite El. pose proof (free_addrs_sorted _ _ _ Hb) as Hs. rewrite El in Hl, Hs.
      by eapply lseg_store_last.
    + intros y Hy. unfold store64, store_le. rewrite in_block_out by lia. done.
    + intros y n t Hy z Hz. pose proof (free_live_disjoint _ _ _ _ _ _ _ Hb Hx Hy) as Hd.
      symmetry. eapply store_agree; [|exact Hz]. unfold disjoint_ranges in *. lia.
  - apply last_None in E. exists (h_mem h), v. split; [by destruct h|]. rewrite E.
    split_and!; try done.
Qed.

(** ** The scans *)

Definition no_fit (needed : Z) (bl : list block) : Prop :=
  Forall (fun b => b_tag b = None -> b_size b < needed) bl.

Definition first_fit (needed : Z) (l1 l2 : list block) (prev : option Z) (curr : Z) : Prop :=
  exists la b lb, l2 = la ++ b :: lb /\ b_tag b = None /\ needed <= b_size b /\ no_fit needed la /\
    curr = blocks_end (blocks_end heap_base l1) la /\ prev = last (free_addrs heap_base (l1 ++ la)).

Lemma first_fit_cons needed l1 b l2 prev curr :
  (b_tag b = None -> b_size b < needed) ->
  first_fit needed (l1 ++ [b]) l2 prev curr -> first_fit needed l1 (b :: l2) prev curr.
Proof.
  intros Hb (la & b' & lb & -> & ? & ? & ? & Hc & Hp). exists (b :: la), b', lb.
  rewrite blocks_end_app in Hc. rewrite <- app_assoc in Hp. split_and!; try done.
  by constructor.
Qed.

Lemma malloc_scan_ok h needed l2 l1 fuel curr :
  blocks_rep (h_mem h) heap_base l1 -> blocks_rep (h_mem h) (blocks_end heap_base l1) l2 ->
  blocks_end (blocks_end heap_base l1) l2 <= heap_base + SAGE_ARENA_SIZE ->
  lseg (h_mem h) curr (free_addrs (blocks_end heap_base l1) l2) 0 ->
  (length l2 < fuel)%nat ->
  completes (malloc_scan heap_base fuel needed (last (free_addrs heap_base l1)) curr h) (fun r =>
    match r with
    | None => no_fit needed l2
    | Some (prev, c) => first_fit needed l1 l2 prev c
    end).
Proof.
  destruct Hbase as [Hpos _ _]. revert l1 fuel curr.
  induction l2 as [|b l2 IH]; intros l1 fuel curr Hb1 Hb2 Hend Hl Hf.
  - simpl in Hl. subst curr. destruct fuel; apply completes_Ret; by constructor.
  - destruct Hb2 as [Hok Hb2]. pose proof (blocks_end_ge _ _ _ Hb1). pose proof (zlen_nonneg l1).
    pose proof (blocks_end_ge _ _ _ Hb2). pose proof (zlen_nonneg l2).
    assert (Hrep : blocks_rep (h_mem h) heap_base (l1 ++ [b])) by (apply blocks_rep_app; simpl; tauto).
    specialize (IH (l1 ++ [b])). rewrite blocks_end_app, free_addrs_app in IH.
    cbn [blocks_end free_addrs length] in *. destruct Hok as (Hs & _ & Hh).
    destruct (b_tag b) as [t|] eqn:Et.
    + rewrite app_nil_r in IH. eapply completes_mono; [apply IH; done || lia|]. intros [[p c]|] H'.
      * apply first_fit_cons; [by rewrite Et|done].
      * by constructor; [rewrite Et|].
    + destruct Hl as [-> Hl]. destruct fuel as [|fuel]; [lia|]. cbn [malloc_scan].
      destruct (Z.eqb_spec (blocks_end heap_base l1) 0); [lia|].
      rewrite !ld64_ok by lia. cbn [mbind outcome_bind]. rewrite Hh.
      destruct (Z.leb_spec needed (b_size b)).
      * apply completes_Ret. exists [], b, l2. rewrite app_nil_r. split_and!; try done; try constructor.
      * rewrite last_snoc in IH. eapply completes_mono; [apply IH; done || lia|]. intros [[p c]|] H'.
        -- by apply first_fit_cons.
        -- by constructor.
Qed.

(** Every element of [l] is the address of a block below [nb]. *)
Definition nodes_below (nb : Z) (l : list Z) : Prop :=
  Forall (fun x => heap_base <= x /\ x + 16 <= heap_base + SAGE_ARENA_SIZE /\ x < nb) l.

Lemma free_scan_ok h nb l fuel prev p q :
  lseg (h_mem h) p l q -> nodes_below nb l -> q = 0 \/ nb <= q -> (length l < fuel)%nat ->
  free_scan heap_base fuel nb prev p h = Ret (match last l with Some x => Some x | None => prev end, q).
Proof.
  destruct Hbase as [Hpos _ _]. revert fuel prev p.
  induction l as [|x l IH]; intros fuel prev p Hl Hn Hq Hf.
  - simpl in Hl. subst p. destruct fuel; simpl;
      (destruct (Z.eqb_spec q 0), (Z.leb_spec nb q); simpl; (reflexivity || lia)).
  - destruct Hl as [-> Hl]. apply Forall_cons in Hn as [(? & ? & ?) Hn].
    destruct fuel as [|fuel]; [simpl in Hf; lia|]. cbn [free_scan].
    destruct (Z.eqb_spec x 0), (Z.leb_spec nb x); simpl; try lia.
    rewrite ld64_ok by lia. cbn [mbind outcome_bind].
    rewrite IH by (done || simpl in Hf; lia). rewrite last_cons. by destruct (last l).
Qed.

Lemma pred_scan_ok h nb l x fuel p :
  lseg (h_mem h) p (l ++ [x]) nb -> nodes_below nb (l ++ [x]) -> (length l < fuel)%nat ->
  pred_scan heap_base fuel nb p h = Ret x.
Proof.
  destruct Hbase as [Hpos _ _]. revert fuel p.
  induction l as [|y l IH]; intros fuel p Hl Hn Hf; destruct fuel as [|fuel]; try (simpl in Hf; lia).
  - simpl in Hl. destruct Hl as [-> Hl]. apply Forall_cons in Hn as [(? & ? & ?) _]. cbn [pred_scan].
    destruct (Z.eqb_spec x 0); [lia|]. rewrite ld64_ok by lia. cbn [mbind outcome_bind].
    rewrite Hl, Z.eqb_refl. done.
  - simpl in Hl. destruct Hl as [-> Hl]. apply Forall_cons in Hn as [(? & ? & ?) Hn]. cbn [pred_scan].
    destruct (Z.eqb_spec y 0); [lia|]. rewrite ld64_ok by lia. cbn [mbind outcome_bind].
    destruct (Z.eqb_spec (load64 (h_mem h) (y + 8)) nb) as [Heq|].
    + destruct l as [|z l]; simpl in Hl; destruct Hl as [Hz _];
        apply Forall_cons in Hn as [(? & ? & ?) _]; lia.
    + apply IH; [done|done|simpl in Hf; lia].
Qed.

(** ** Preparing a block *)

Lemma count_alloc_ok tag raw h :
  zlen (g_alloc_stats h) = ALLOC_TAG_MAX ->
  exists s, count_alloc tag raw h = Ret (with_stats s h) /\ zlen s = ALLOC_TAG_MAX.
Proof.
  intros Hs. unfold count_alloc. destruct (Z.ltb_spec (u32 tag) ALLOC_TAG_MAX).
  - pose proof (u32_bound tag).
    destruct (rd_in_range (g_alloc_stats h) (u32 tag)) as (x & -> & _); [lia|].
    eexists. split; [done|]. by rewrite zlen_zset.
  - exists (g_alloc_stats h). by destruct h.
Qed.

Lemma init_block_ok c needed tag raw h :
  mem_wf (h_mem h) -> zlen (g_alloc_stats h) = ALLOC_TAG_MAX ->
  heap_base <= c -> 32 <= needed -> c + needed <= heap_base + SAGE_ARENA_SIZE ->
  exists m' s, init_block heap_base c needed tag raw h = Ret (with_stats s (with_mem m' h)) /\
    zlen s = ALLOC_TAG_MAX /\ mem_wf m' /\
    load64 m' c = needed - 16 /\ load32 m' (c + 8) = u32 tag /\
    (forall x, c + 16 <= x < c + needed -> m' x = 0) /\
    (forall x, x < c \/ c + needed <= x -> h_mem h x = m' x).
Proof.
  destruct Hbase as [Hpos _ Htop]. intros Hwf Hst Hc Hn Hfit.
  unfold init_block, ALLOC_HEADER_SIZE.
  assert (SAGE_ARENA_SIZE = 33554432) as HA by done.
  rewrite (u64_small (needed - 16)) by lia.
  rewrite st64_ok by lia. cbn [mbind outcome_bind].
  rewrite st32_ok by lia. cbn [mbind outcome_bind h_mem with_mem].
  rewrite heap_memset_ok by lia. cbn [mbind outcome_bind h_mem with_mem].
  set (m' := memset _ _ _ _).
  match goal with |- context [count_alloc _ _ ?h3] => destruct (count_alloc_ok tag raw h3 Hst) as (s & -> & Hs) end.
  exists m', s. split; [by destruct h|].
  assert (H64 : load64 m' c = needed - 16).
  { unfold load64, m'. rewrite (load_agree 8 _ (store32 (store64 (h_mem h) c (needed - 16)) (c + 8) tag))
      by (apply memset_agree; unfold disjoint_ranges; lia).
    unfold store32. rewrite load_store_ne by (unfold disjoint_ranges; lia).
    etrans; [apply load64_store64|]. apply u64_small. lia. }
  assert (H32 : load32 m' (c + 8) = u32 tag).
  { unfold load32, m'. rewrite (load_agree 4 _ (store32 (store64 (h_mem h) c (needed - 16)) (c + 8) tag))
      by (apply memset_agree; unfold disjoint_ranges; lia). apply load32_store32. }
  split_and!; try done.
  - by apply memset_wf, store_wf, store_wf.
  - intros x Hx. unfold m', memset. by rewrite in_block_in by lia.
  - intros x Hx. unfold m', memset, store32, store64, store_le. rewrite !in_block_out by lia. done.
Qed.

(** ** Decomposing and rebuilding the invariant *)

Lemma inv_split h la b lb (c := blocks_end heap_base la) :
  heap_rep heap_base h (la ++ b :: lb) ->
  blocks_rep (h_mem h) heap_base la /\ block_ok (h_mem h) c b /\
  blocks_rep (h_mem h) (c + b_size b) lb /\ heap_base <= c /\ 32 <= b_size b /\
  c + b_size b <= blocks_end (c + b_size b) lb /\
  blocks_end (c + b_size b) lb = heap_base + sage_bump h /\
  heap_base + sage_bump h <= heap_base + SAGE_ARENA_SIZE.
Proof.
  intros [_ Hb He Hf _ _]. rewrite blocks_end_app in He. apply blocks_rep_app in Hb as (H1 & H2 & H3).
  fold c in H2, H3, He. cbn [blocks_end] in He.
  pose proof (blocks_end_ge _ _ _ H1). pose proof (blocks_end_ge _ _ _ H3).
  pose proof (zlen_nonneg la). pose proof (zlen_nonneg lb). destruct H2 as (? & ?).
  split_and!; try done; lia.
Qed.

Lemma inv_split_free h la b lb (c := blocks_end heap_base la) :
  heap_rep heap_base h (la ++ b :: lb) -> b_tag b = None ->
  lseg (h_mem h) (g_free_list h) (free_addrs heap_base la) c /\
  lseg (h_mem h) (load64 (h_mem h) (c + 8)) (free_addrs (c + b_size b) lb) 0 /\
  load64 (h_mem h) c = b_size b.
Proof.
  intros H Hfree. destruct (inv_split _ _ _ _ H) as (_ & (_ & _ & Hh) & _).
  destruct H as [_ _ _ _ Hl _]. rewrite free_addrs_app in Hl. cbn [free_addrs] in Hl.
  rewrite Hfree in Hl, Hh. apply lseg_app in Hl as (r & Hl1 & -> & Hl2). done.
Qed.

(** Replace the blocks [mid] by [mid'] of the same total size. *)
Lemma inv_replace h h' la mid mid' lb q (c := blocks_end heap_base la) :
  heap_rep heap_base h (la ++ mid ++ lb) ->
  mem_wf (h_mem h') -> blocks_rep (h_mem h') heap_base la -> blocks_rep (h_mem h') c mid' ->
  blocks_end c mid' = blocks_end c mid ->
  (forall x, blocks_end c mid <= x -> h_mem h x = h_mem h' x) ->
  sage_bump h' = sage_bump h -> zlen (g_alloc_stats h') = ALLOC_TAG_MAX ->
  lseg (h_mem h') (g_free_list h') (free_addrs heap_base la ++ free_addrs c mid') q ->
  lseg (h_mem h) q (free_addrs (blocks_end c mid) lb) 0 ->
  heap_rep heap_base h' (la ++ mid' ++ lb).
Proof.
  intros [_ Hb He Hf _ _] Hwf Hla Hmid Hsz Hag Hbump Hst Hl1 Hl2.
  apply blocks_rep_app in Hb as (_ & Hb). apply blocks_rep_app in Hb as (_ & Hb). fold c in Hb.
  rewrite !blocks_end_app in He. fold c in He. split; try done.
  - apply blocks_rep_app. split; [done|]. apply blocks_rep_app. split; [done|]. fold c. rewrite Hsz.
    eapply blocks_rep_agree; [done|]. intros x Hx. apply Hag. lia.
  - rewrite !blocks_end_app. fold c. rewrite Hsz, Hbump. done.
  - by rewrite Hbump.
  - rewrite !free_addrs_app, app_assoc. fold c. apply lseg_app. exists q. split; [done|]. rewrite Hsz.
    eapply lseg_blocks_agree; [done|done|]. intros x Hx. apply Hag. lia.
Qed.

Lemma live_before_free m la b lb x n t (c := blocks_end heap_base la) :
  blocks_rep m heap_base (la ++ b :: lb) -> b_tag b = None ->
  live_at heap_base (la ++ b :: lb) x n t ->
  live_at heap_base la x n t \/ (c + b_size b <= x /\ live_at (c + b_size b) lb x n t).
Proof.
  intros (_ & _ & Hlb)%blocks_rep_app Hb [H|[(-> & -> & Ht)|H]]%live_at_app; [auto|congruence|].
  right. split; [|done]. eapply live_at_range; done.
Qed.

Lemma no_adjacent_carve la b lb needed tag :
  b_tag b = None -> no_adjacent_free (la ++ b :: lb) ->
  no_adjacent_free (la ++ carve (b_size b) needed tag ++ lb).
Proof.
  intros Hb (H1 & H2 & H3)%no_adjacent_app. simpl in H2.
  unfold carve. destruct (needed + 32 <=? b_size b); apply no_adjacent_app.
  - split_and!; [done| |by intros ? ? ? [= <-] [? ?]]. simpl. split; [by intros [? ?]|].
    destruct lb as [|b' lb]; [done|]. split; [|apply H2]. simpl. rewrite Hb in H2. tauto.
  - split_and!; [done| |by intros ? ? ? [= <-] [? ?]]. simpl. destruct lb as [|b' lb]; [done|].
    split; [by intros [? ?]|apply H2].
Qed.

(** ** Allocation *)

Record alloc_effect (h h' : heap) (bl bl' : list block) (ptr needed tag : Z) : Prop := {
  eff_inv : heap_inv heap_base h' bl';
  eff_frame : forall x n t, live_at heap_base bl x n t -> agree (h_mem h) (h_mem h') x n;
  eff_block : exists n, needed <= n /\ live_at heap_base bl' (ptr - 16) n (u32 tag) /\
                        (forall x, ptr <= x < ptr - 16 + n -> h_mem h' x = 0)
}.

(** Memory that differs only inside the block [b] keeps everything before it. *)
Lemma prefix_kept h m' la b lb (c := blocks_end heap_base la) :
  heap_rep heap_base h (la ++ b :: lb) ->
  (forall x, x < c -> h_mem h x = m' x) ->
  blocks_rep m' heap_base la /\
  (forall p q, lseg (h_mem h) p (free_addrs heap_base la) q -> lseg m' p (free_addrs heap_base la) q).
Proof.
  intros H Hag. destruct (inv_split _ _ _ _ H) as (Hla & _). fold c in Hla.
  assert (agree (h_mem h) m' heap_base (c - heap_base)) by (intros x Hx; apply Hag; lia).
  split; [by eapply blocks_rep_agree|]. intros p q Hl. by eapply lseg_blocks_agree.
Qed.

(** The part of [take_block] that splits the block [b]. *)
Lemma split_links h la b lb needed (c := blocks_end heap_base la) (s := b_size b) :
  heap_inv heap_base h (la ++ b :: lb) -> b_tag b = None -> 32 <= needed -> needed + 32 <= s ->
  exists m' p',
    (h1 ← st64 heap_base (c + needed) (u64 (s - needed)) h;
     h2 ← st64 heap_base (c + needed + 8) (load64 (h_mem h) (c + 8)) h1;
     write_link heap_base (last (free_addrs heap_base la)) (c + needed) h2) =
      Ret (with_free_list p' (with_mem m' h)) /\
    mem_wf m' /\ blocks_rep m' heap_base la /\
    lseg m' p' (free_addrs heap_base la) (c + needed) /\
    load64 m' (c + needed) = s - needed /\
    load64 m' (c + needed + 8) = load64 (h_mem h) (c + 8) /\
    (forall x, c + s <= x -> h_mem h x = m' x) /\
    (forall x n t, live_at heap_base la x n t -> agree (h_mem h) m' x n).
Proof.
  intros Hinv Hfree Hn Hs. destruct Hbase as [Hpos _ Htop].
  destruct (inv_split _ _ _ _ Hinv) as (Hla & _ & _ & Hc & _ & Hend & Hbump & Hfit).
  destruct (inv_split_free _ _ _ _ Hinv Hfree) as (Hl1 & _ & _).
  fold c in Hl1, Hend, Hbump, Hc. fold s in Hend, Hbump.
  assert (SAGE_ARENA_SIZE = 33554432) as HA by done.
  rewrite st64_ok by lia. cbn [mbind outcome_bind]. rewrite st64_ok by lia.
  cbn [mbind outcome_bind h_mem with_mem]. set (m2 := store64 _ _ _).
  pose proof (inv_wf _ _ _ Hinv) as Hwf.
  assert (Hwf2 : mem_wf m2) by (by apply store_wf, store_wf).
  assert (Hm2 : forall x, x < c + needed \/ c + s <= x -> h_mem h x = m2 x).
  { intros x Hx. unfold m2, store64, store_le. rewrite !in_block_out by lia. done. }
  destruct (prefix_kept _ m2 _ _ _ Hinv) as [Hla2 Hl2]; [intros x Hx; apply Hm2; lia|].
  destruct (write_link_ok (with_mem m2 (with_mem (store64 (h_mem h) (c + needed) (u64 (s - needed))) h))
    la (last (free_addrs heap_base la)) (c + needed) c) as (m3 & p3 & -> & Hwf3 & Hb3 & Hl3 & Hout & Hlive);
    [done|done|lia|by apply Hl2|done|lia|].
  exists m3, p3. cbn [h_mem with_mem] in Hout, Hlive.
  assert (Hld : forall y, c <= y -> load64 m3 y = load64 m2 y).
  { intros y Hy. apply load_agree. intros x Hx. symmetry. apply Hout. fold c. lia. }
  split; [by destruct h|]. split_and!; try done.
  - rewrite Hld by lia. unfold m2, load64, store64. rewrite load_store_ne by (unfold disjoint_ranges; lia).
    etrans; [apply load64_store64|]. rewrite (u64_small (s - needed)) by lia. apply u64_small. lia.
  - rewrite Hld by lia. unfold m2. rewrite load64_store64. apply u64_small. by apply load64_bound.
  - intros x Hx. rewrite Hm2 by lia. apply Hout. fold c. lia.
  - intros x n t Hx. eapply agree_trans; [|by apply (Hlive x n t)]. intros y Hy.
    pose proof (live_at_range _ _ _ _ _ _ Hla Hx). apply Hm2. fold c in H. lia.
Qed.

Lemma take_block_split h la b lb needed tag raw (c := blocks_end heap_base la) :
  heap_inv heap_base h (la ++ b :: lb) -> b_tag b = None -> 32 <= needed -> (16 | needed) ->
  needed + 32 <= b_size b ->
  completes (take_block heap_base (last (free_addrs heap_base la)) c needed tag raw h) (fun r =>
    r.1 = c + 16 /\
    alloc_effect h r.2 (la ++ b :: lb)
      (la ++ [mk_block needed (Some (u32 tag)); mk_block (b_size b - needed) None] ++ lb) (c + 16) needed tag).
Proof.
  intros Hinv Hfree Hn Hd Hs. set (s := b_size b) in *.
  destruct (split_links _ _ _ _ needed Hinv Hfree Hn Hs)
    as (m3 & p3 & E & Hwf3 & Hla3 & Hl3 & Hsz & Hnx & Hout & Hlive). fold c s in E, Hl3, Hsz, Hnx, Hout.
  destruct (inv_split _ _ _ _ Hinv) as (Hla & (_ & Hds & _) & Hlb & Hc & _ & Hend & Hbump & Hfit).
  destruct (inv_split_free _ _ _ _ Hinv Hfree) as (_ & Hl2 & Hh). fold c s in Hh, Hl2, Hend, Hbump, Hc, Hds, Hlb.
  assert (SAGE_ARENA_SIZE = 33554432) as HA by done.
  unfold take_block, SIZEOF_FreeBlock, ALIGNMENT. rewrite !ld64_ok by lia. cbn [mbind outcome_bind].
  rewrite Hh. replace (needed + 16 + 16) with (needed + 32) by lia. rewrite u64_small by lia.
  destruct (Z.leb_spec (needed + 32) s); [|lia].
  destruct (st64 heap_base (c + needed) _ h) as [h1| |]; try discriminate. cbn [mbind outcome_bind] in E |- *.
  destruct (st64 heap_base (c + needed + 8) _ h1) as [h2| |]; try discriminate.
  cbn [mbind outcome_bind] in E |- *. rewrite E. cbn [mbind outcome_bind].
  destruct (init_block_ok c needed tag raw (with_free_list p3 (with_mem m3 h)))
    as (m4 & st & -> & Hst & Hwf4 & H64 & H32 & Hz & Hag);
    [done|apply (inv_stats _ _ _ Hinv)|done|done|lia|].
  apply completes_Ret. split; [done|]. cbn [h_mem with_free_list with_mem snd] in *.
  assert (Hld : forall y k, c + needed <= y -> load_le k m4 y = load_le k m3 y).
  { intros y k Hy. apply load_agree. intros x Hx. symmetry. apply Hag. lia. }
  split; [split|..].
  - eapply (inv_replace h _ la [b] _ lb (load64 (h_mem h) (c + 8)) Hinv); fold c s; cbn [blocks_end free_addrs b_size b_tag]; try done.
    + eapply (blocks_rep_agree m3); [done|]. intros x Hx. apply Hag. fold c in Hx. lia.
    + split; [by apply block_ok_live|]. split; [|done]. apply block_ok_free; [lia|by apply Z.divide_sub_r|].
      etrans; [|exact Hsz]. by apply Hld.
    + lia.
    + fold s. intros x Hx. rewrite Hout by lia. apply Hag. lia.
    + apply lseg_app. exists (c + needed). split.
      * eapply (lseg_blocks_agree m3); [done|done|]. intros x Hx. apply Hag. fold c in Hx. lia.
      * split; [done|]. etrans; [|exact Hnx]. apply Hld. lia.
  - pose proof (no_adjacent_carve la b lb needed (u32 tag) Hfree (inv_coalesced _ _ _ Hinv)) as Hadj.
    unfold carve in Hadj. fold s in Hadj. destruct (Z.leb_spec (needed + 32) s); [done|lia].
  - intros x n t Hx. destruct (live_before_free _ _ _ _ _ _ _ (inv_blocks _ _ _ Hinv) Hfree Hx) as [H'|[H' ?]].
    + pose proof (live_at_range _ _ _ _ _ _ Hla H'). eapply agree_trans; [by apply (Hlive x n t)|].
      intros y Hy. apply Hag. fold c in H0. lia.
    + intros y Hy. fold c s in H'. cbn. rewrite Hout by lia. apply Hag. lia.
  - exists needed. split; [lia|]. split.
    + apply live_at_app. right. left. simpl. split_and!; [lia|done|done].
    + intros x Hx. apply Hz. lia.
Qed.

Lemma take_block_whole h la b lb needed tag raw (c := blocks_end heap_base la) :
  heap_inv heap_base h (la ++ b :: lb) -> b_tag b = None -> 32 <= needed <= b_size b ->
  b_size b < needed + 32 ->
  completes (take_block heap_base (last (free_addrs heap_base la)) c needed tag raw h) (fun r =>
    r.1 = c + 16 /\
    alloc_effect h r.2 (la ++ b :: lb)
      (la ++ [mk_block (b_size b) (Some (u32 tag))] ++ lb) (c + 16) needed tag).
Proof.
  intros Hinv Hfree Hn Hs. set (s := b_size b) in *.
  destruct (inv_split _ _ _ _ Hinv) as (Hla & (_ & Hds & _) & Hlb & Hc & _ & Hend & Hbump & Hfit).
  destruct (inv_split_free _ _ _ _ Hinv Hfree) as (Hl1 & Hl2 & Hh).
  fold c s in Hh, Hl1, Hl2, Hend, Hbump, Hc, Hds, Hlb.
  assert (SAGE_ARENA_SIZE = 33554432) as HA by done.
  unfold take_block, SIZEOF_FreeBlock, ALIGNMENT. rewrite !ld64_ok by lia. cbn [mbind outcome_bind].
  rewrite Hh. replace (needed + 16 + 16) with (needed + 32) by lia. rewrite u64_small by lia.
  destruct (Z.leb_spec (needed + 32) s); [lia|]. set (q := load64 (h_mem h) (c + 8)) in *.
  destruct (write_link_ok h la (last (free_addrs heap_base la)) q c)
    as (m3 & p3 & -> & Hwf3 & Hla3 & Hl3 & Hout & Hlive);
    [apply Hinv|done|fold c; lia|done|done|apply load64_bound, Hinv|].
  cbn [mbind outcome_bind]. rewrite ld64_ok by lia. cbn [mbind outcome_bind h_mem with_free_list with_mem].
  assert (load64 m3 c = s) as ->.
  { rewrite <- Hh. symmetry. apply load_agree. intros x Hx. apply Hout. fold c. lia. }
  destruct (init_block_ok c s tag raw (with_free_list p3 (with_mem m3 h)))
    as (m4 & st & -> & Hst & Hwf4 & H64 & H32 & Hz & Hag);
    [done|apply (inv_stats _ _ _ Hinv)|done|lia|lia|].
  apply completes_Ret. split; [done|]. cbn [h_mem with_free_list with_mem snd] in *. split; [split|..].
  - eapply (inv_replace h _ la [b] _ lb q Hinv); fold c s; cbn [blocks_end free_addrs b_size b_tag]; try done.
    + eapply (blocks_rep_agree m3); [done|]. intros x Hx. apply Hag. fold c in Hx. lia.
    + split; [|done]. apply block_ok_live; [lia|done|done|done].
    + fold s. intros x Hx. rewrite Hout by (fold c; lia). apply Hag. lia.
    + rewrite app_nil_r. eapply (lseg_blocks_agree m3); [done|done|].
      intros x Hx. apply Hag. fold c in Hx. lia.
  - pose proof (no_adjacent_carve la b lb needed (u32 tag) Hfree (inv_coalesced _ _ _ Hinv)) as Hadj.
    unfold carve in Hadj. fold s in Hadj. destruct (Z.leb_spec (needed + 32) s); [lia|done].
  - intros x n t Hx. destruct (live_before_free _ _ _ _ _ _ _ (inv_blocks _ _ _ Hinv) Hfree Hx) as [H'|[H' ?]].
    + pose proof (live_at_range _ _ _ _ _ _ Hla H') as Hr. eapply agree_trans; [by apply (Hlive x n t)|].
      intros y Hy. apply Hag. fold c in Hr. lia.
    + intros y Hy. fold c s in H'. cbn. rewrite Hout by (fold c; lia). apply Hag. lia.
  - exists s. split; [lia|]. split.
    + apply live_at_app. right. left. simpl. split_and!; [lia|done|done].
    + intros x Hx. apply Hz. lia.
Qed.

Lemma inv_trace h bl t : heap_inv heap_base h bl -> heap_inv heap_base (with_trace t h) bl.
Proof. by intros [[? ? ? ? ? ?] ?]; split. Qed.

(** Advancing [sage_bump] between the stores is the same as before them. *)
Lemma bump_block_init e needed tag raw h (c := heap_base + sage_bump h) :
  u64 (sage_bump h + needed) <= SAGE_ARENA_SIZE ->
  bump_block heap_base e needed tag raw h =
    (h' ← init_block heap_base c needed tag raw (with_bump (u64 (sage_bump h + needed)) h);
     Ret (c + 16, heap_trace_log e TRACE_ALLOC_MALLOC raw (c + 16) h')).
Proof.
  intros Hfit. unfold bump_block, init_block, st64, st32, heap_memset, count_alloc. fold c.
  destruct (Z.ltb_spec SAGE_ARENA_SIZE (u64 (sage_bump h + needed))); [lia|].
  destruct (mapped heap_base c 8); [|done]. destruct h; cbn.
  destruct (mapped heap_base (c + 8) 4); [|done]. cbn.
  destruct (mapped heap_base (c + ALLOC_HEADER_SIZE) _); [|done]. cbn.
  destruct (u32 tag <? ALLOC_TAG_MAX); [|done]. by destruct (rd _ _).
Qed.

(** A new block at the end of the arena. *)
Lemma bump_block_ok e h bl needed tag raw :
  heap_inv heap_base h bl -> 32 <= needed -> (16 | needed) -> sage_bump h + needed < 2 ^ 64 ->
  completes (bump_block heap_base e needed tag raw h) (fun r =>
    (r = (0, h) /\ SAGE_ARENA_SIZE < sage_bump h + needed) \/
    (r.1 = heap_base + sage_bump h + 16 /\ sage_bump h + needed <= SAGE_ARENA_SIZE /\
     alloc_effect h r.2 bl (bl ++ [mk_block needed (Some (u32 tag))]) r.1 needed tag)).
Proof.
  intros Hinv Hn Hd Hov. destruct Hbase as [Hpos _ Htop].
  assert (SAGE_ARENA_SIZE = 33554432) as HA by done.
  pose proof (blocks_end_ge _ _ _ (inv_blocks _ _ _ Hinv)) as Hge. pose proof (zlen_nonneg bl).
  pose proof (inv_end _ _ _ Hinv) as He. pose proof (inv_fit _ _ _ Hinv). rewrite He in Hge.
  destruct (Z.ltb_spec SAGE_ARENA_SIZE (sage_bump h + needed)).
  { unfold bump_block. rewrite u64_small by lia.
    destruct (Z.ltb_spec SAGE_ARENA_SIZE (sage_bump h + needed)); [|lia]. apply completes_Ret. by left. }
  rewrite bump_block_init, u64_small by (rewrite ?u64_small by lia; lia).
  set (c := heap_base + sage_bump h) in *.
  destruct (init_block_ok c needed tag raw (with_bump (sage_bump h + needed) h))
    as (m4 & st & -> & Hst & Hwf4 & H64 & H32 & Hz & Hag); [apply Hinv|apply Hinv|lia|lia|lia|].
  apply completes_Ret. right. cbn [fst snd]. split; [done|]. split; [done|]. cbn in Hag.
  assert (Hpre : agree (h_mem h) m4 heap_base (c - heap_base)) by (intros x Hx; apply Hag; lia).
  rewrite <- He in Hpre. split.
  - apply inv_trace. split; [split|]; cbn; try done.
    + apply blocks_rep_app. split; [eapply blocks_rep_agree; [apply Hinv|done]|].
      rewrite He. split; [by apply block_ok_live|done].
    + rewrite blocks_end_app, He. cbn. lia.
    + rewrite free_addrs_app. cbn. rewrite app_nil_r.
      eapply lseg_blocks_agree; [apply Hinv|apply Hinv|done].
    + apply no_adjacent_app. split_and!; [apply Hinv|done|by intros ? ? _ [= <-] [_ [=]]].
  - intros x n t Hx. pose proof (live_at_range _ _ _ _ _ _ (inv_blocks _ _ _ Hinv) Hx).
    intros y Hy. apply Hag. lia.
  - exists needed. split; [lia|]. split.
    + apply live_at_app. right. left. rewrite He. cbn. split_and!; [lia|done|done].
    + intros x Hx. apply Hz. lia.
Qed.

(** How allocation changes the sequence of blocks. *)
Inductive malloc_blocks (h : heap) (bl : list block) (needed tag : Z) : list block -> Z -> Prop :=
| malloc_reuse la b lb :
    bl = la ++ b :: lb -> b_tag b = None -> needed <= b_size b -> no_fit needed la ->
    malloc_blocks h bl needed tag (la ++ carve (b_size b) needed (u32 tag) ++ lb)
      (blocks_end heap_base la + 16)
| malloc_bump :
    no_fit needed bl -> sage_bump h + needed <= SAGE_ARENA_SIZE ->
    malloc_blocks h bl needed tag (bl ++ [mk_block needed (Some (u32 tag))])
      (heap_base + sage_bump h + 16).

Lemma bl_length h bl : heap_rep heap_base h bl -> (length bl < list_fuel)%nat.
Proof.
  intros H. pose proof (blocks_end_ge _ _ _ (inv_blocks _ _ _ H)) as Hge. unfold zlen in Hge.
  rewrite (inv_end _ _ _ H) in Hge. pose proof (inv_fit _ _ _ H). pose proof list_fuel_eq.
  assert (SAGE_ARENA_SIZE = 33554432) as HA by done. lia.
Qed.

Lemma malloc_ok e h bl size tag (needed := needed_of size) :
  heap_inv heap_base h bl -> 0 < size -> size + 31 + SAGE_ARENA_SIZE < 2 ^ 64 ->
  completes (sage_malloc_tagged heap_base e size tag h) (fun r =>
    (r = (0, h) /\ no_fit needed bl /\ SAGE_ARENA_SIZE < sage_bump h + needed) \/
    (exists bl', malloc_blocks h bl needed tag bl' r.1 /\ alloc_effect h r.2 bl bl' r.1 needed tag)).
Proof.
  intros Hinv Hpos Hov. assert (SAGE_ARENA_SIZE = 33554432) as HA by done.
  unfold sage_malloc_tagged. destruct (Z.eqb_spec size 0); [lia|].
  rewrite needed_spec by lia. fold needed.
  destruct (needed_bounds size Hpos) as (Hn & Hn32 & Hd). fold needed in Hn, Hn32, Hd.
  pose proof (inv_fit _ _ _ Hinv). pose proof (inv_end _ _ _ Hinv) as He.
  pose proof (malloc_scan_ok h needed bl [] list_fuel (g_free_list h)) as Hscan.
  cbn [free_addrs last blocks_end] in Hscan.
  destruct Hscan as ([[prev c]|] & -> & Hr);
    [done|apply Hinv|lia|apply Hinv|apply (bl_length h bl Hinv)| |]; cbn [mbind outcome_bind].
  - destruct Hr as (la & b & lb & -> & Hb & Hfit & Hla & -> & ->). rewrite app_nil_l.
    cbn [blocks_end]. destruct (Z.leb_spec (needed + 32) (b_size b)) as [Hs|Hs].
    + eapply completes_mono; [by apply take_block_split|]. intros [p h'] [Hp Heff]. right.
      cbn [fst snd] in *. subst p. eexists. split; [|exact Heff].
      replace [mk_block needed _; _] with (carve (b_size b) needed (u32 tag)); [by econstructor|].
      unfold carve. by rewrite (proj2 (Z.leb_le _ _) Hs).
    + eapply completes_mono; [by apply take_block_whole|]. intros [p h'] [Hp Heff]. right.
      cbn [fst snd] in *. subst p. eexists. split; [|exact Heff].
      replace [mk_block (b_size b) _] with (carve (b_size b) needed (u32 tag)); [by econstructor|].
      unfold carve. by rewrite (proj2 (Z.leb_gt _ _) Hs).
  - eapply completes_mono; [apply (bump_block_ok e h bl needed); try done; lia|].
    intros [p h'] [[? ?]|(Hp & Hfit & Heff)]; [by left|]. right. eexists. split; [|exact Heff].
    cbn [fst] in *. subst p. by apply malloc_bump.
Qed.

(** ** Freeing *)

(** Bytes of the blocks in use among [bl] are the same in both memories. *)
Definition kept (m m' : mem) (a : Z) (bl : list block) : Prop :=
  forall x n t, live_at a bl x n t -> agree m m' x n.

Lemma kept_trans m1 m2 m3 a bl : kept m1 m2 a bl -> kept m2 m3 a bl -> kept m1 m3 a bl.
Proof. intros H1 H2 x n t H. eapply agree_trans; [by eapply H1|by eapply H2]. Qed.

Lemma kept_app m m' a l1 l2 :
  kept m m' a (l1 ++ l2) <-> kept m m' a l1 /\ kept m m' (blocks_end a l1) l2.
Proof.
  unfold kept. split.
  - intros H. split; intros x n t Hx; apply (H x n t), live_at_app; auto.
  - intros [H1 H2] x n t [Hx|Hx]%live_at_app; eauto.
Qed.

Lemma kept_agree m m' a bl m0 :
  blocks_rep m0 a bl -> (forall x, a <= x < blocks_end a bl -> m x = m' x) -> kept m m' a bl.
Proof.
  intros Hb H x n t Hx y Hy. pose proof (live_at_range _ _ _ _ _ _ Hb Hx). apply H. lia.
Qed.

(** The two stores that make one block of two adjacent free ones. *)
Lemma merge_ok h la p s lb (x := blocks_end heap_base la) (y := x + p) :
  heap_rep heap_base h (la ++ mk_block p None :: mk_block s None :: lb) ->
  completes (h1 ← st64 heap_base x (u64 (p + s)) h;
             n ← ld64 heap_base (y + 8) h1;
             st64 heap_base (x + 8) n h1)
    (fun h' => heap_rep heap_base h' (la ++ mk_block (p + s) None :: lb) /\
               g_free_list h' = g_free_list h /\ kept (h_mem h) (h_mem h') heap_base la /\
               kept (h_mem h) (h_mem h') (y + s) lb).
Proof.
  intros Hrep. destruct (inv_split _ _ _ _ Hrep) as (Hla & (Hp & Hdp & _) & Hb2 & Hx & _ & Hend & Hbump & Hfit).
  destruct (inv_split_free _ _ _ _ Hrep eq_refl) as (Hl1 & Hl2 & _).
  cbn [b_size b_tag free_addrs blocks_rep blocks_end] in *. fold x in Hl1, Hl2, Hb2, Hend, Hbump, Hx.
  fold y in Hl2, Hb2, Hend, Hbump.
  destruct Hb2 as [(Hs & Hds & _) Hlb]. cbn [b_size b_tag] in *. destruct Hl2 as [Hxy Hl2].
  assert (SAGE_ARENA_SIZE = 33554432) as HA by done.
  pose proof (blocks_end_ge _ _ _ Hlb). pose proof (zlen_nonneg lb). destruct Hbase as [Hpos _ Htop].
  rewrite u64_small by lia. rewrite st64_ok by lia. cbn [mbind outcome_bind].
  rewrite ld64_ok by lia. cbn [mbind outcome_bind]. rewrite st64_ok by lia.
  set (q := load64 (h_mem h) (y + 8)) in *. cbn [h_mem with_mem].
  replace (load64 (store64 (h_mem h) x (p + s)) (y + 8)) with q
    by (symmetry; apply load_store_ne; unfold disjoint_ranges; lia).
  set (m' := store64 _ _ _). apply completes_Ret.
  pose proof (inv_wf _ _ _ Hrep) as Hwf.
  assert (Hag : forall z, z < x \/ x + 16 <= z -> h_mem h z = m' z).
  { intros z Hz. unfold m', store64, store_le. rewrite !in_block_out by lia. done. }
  assert (Hm1 : load64 m' x = p + s).
  { unfold m', load64, store64. rewrite load_store_ne by (unfold disjoint_ranges; lia).
    etrans; [apply load64_store64|]. apply u64_small. lia. }
  assert (Hm2 : load64 m' (x + 8) = q)
    by (unfold m'; rewrite load64_store64; apply u64_small; by apply load64_bound).
  destruct (prefix_kept _ m' _ _ _ Hrep) as [Hla' Hl']; [fold x; intros z Hz; apply Hag; lia|].
  split_and!.
  - apply (inv_replace h _ la [mk_block p None; mk_block s None] [mk_block (p + s) None] lb q Hrep);
      fold x; cbn [h_mem with_mem blocks_end b_size free_addrs b_tag sage_bump g_alloc_stats g_free_list];
      fold y; try done.
    + by apply store_wf, store_wf.
    + split; [|done]. apply block_ok_free; [lia|by apply Z.divide_add_r|done].
    + lia.
    + intros z Hz. apply Hag. lia.
    + apply (inv_stats _ _ _ Hrep).
    + apply lseg_app. exists x. split; [by apply Hl'|]. split; [done|]. by rewrite Hm2.
  - done.
  - eapply kept_agree; [done|]. fold x. intros z Hz. apply Hag. lia.
  - eapply kept_agree; [done|]. intros z Hz. apply Hag. lia.
Qed.

Lemma free_addr_size m a bl x :
  blocks_rep m a bl -> x ∈ free_addrs a bl -> x + load64 m x <= blocks_end a bl.
Proof.
  revert a. induction bl as [|b bl IH]; intros a; [by intros _ ?%not_elem_of_nil|].
  cbn [free_addrs blocks_rep blocks_end]. intros [(Hs & _ & Hh) Hr] Hx. destruct (b_tag b); [by apply IH|].
  apply elem_of_cons in Hx as [->|Hx]; [|by apply IH].
  rewrite Hh. pose proof (blocks_end_ge _ _ _ Hr). pose proof (zlen_nonneg bl). lia.
Qed.

Lemma lseg_head m q a bl :
  blocks_rep m a bl -> lseg m q (free_addrs a bl) 0 -> q = 0 \/ (a <= q /\ q + 32 <= blocks_end a bl).
Proof.
  intros Hb Hl. destruct (free_addrs a bl) as [|x l] eqn:E; cbn in Hl; [by left|]. right.
  destruct Hl as [-> _]. apply (free_addrs_range _ _ _ x Hb). rewrite E. set_solver.
Qed.

(** The first link of a free list is not the start of [bl] unless [bl] starts
    with a free block. *)
Lemma lseg_head_ne m p a bl :
  blocks_rep m a bl -> 0 < a -> lseg m p (free_addrs a bl) 0 ->
  (forall n r, bl <> mk_block n None :: r) -> p = 0 \/ a + 32 <= p.
Proof.
  intros Hb Ha Hl Hne. destruct bl as [|[n [t|]] bl]; cbn in *; [by left| |by destruct (Hne n bl)].
  destruct Hb as [(Hs & _) Hb]. destruct (free_addrs _ bl) as [|x l] eqn:E; cbn in Hl; [by left|].
  right. destruct Hl as [-> _]. cbn in Hs.
  pose proof (free_addrs_range _ _ _ x Hb ltac:(rewrite E; set_solver)). lia.
Qed.

Definition free_step (h h' : heap) (la lb : list block) (c' : Z) (bl' : list block) : Prop :=
  heap_rep heap_base h' bl' /\ g_free_list h' = g_free_list h /\
  kept (h_mem h) (h_mem h') heap_base la /\ kept (h_mem h) (h_mem h') c' lb.

Lemma free_step_refl h la lb c' bl' : heap_rep heap_base h bl' -> free_step h h la lb c' bl'.
Proof. intros H. split_and!; try done. Qed.

Lemma coalesce_next_ok h la s lb (c := blocks_end heap_base la) :
  heap_rep heap_base h (la ++ mk_block s None :: lb) ->
  completes (coalesce_next heap_base c h) (fun h' =>
    free_step h h' la lb (c + s) (la ++ absorb_next s lb)).
Proof.
  intros Hrep. destruct Hbase as [Hpos _ Htop].
  destruct (inv_split _ _ _ _ Hrep) as (Hla & _ & Hlb & Hc & Hs & Hend & Hbump & Hfit).
  destruct (inv_split_free _ _ _ _ Hrep eq_refl) as (Hl1 & Hl2 & Hh). cbn [b_size] in *.
  fold c in Hl1, Hl2, Hh, Hlb, Hend, Hbump, Hc.
  unfold coalesce_next. rewrite (ld64_ok (c + 8)) by lia. cbn [mbind outcome_bind].
  assert ((exists n r, lb = mk_block n None :: r) \/ forall n r, lb <> mk_block n None :: r)
    as [(n & r & ->)|Hne] by (destruct lb as [|[? [?|]] ?]; (by eauto) || (by right)).
  - destruct Hl2 as [-> Hl2]. cbn in Hlb. destruct Hlb as [(Hn & _ & Hsz) Hlb]. cbn in Hn, Hsz.
    pose proof (blocks_end_ge _ _ _ Hlb). pose proof (zlen_nonneg r). cbn [blocks_end b_size] in Hbump.
    destruct (Z.eqb_spec (c + s) 0); [lia|]. rewrite !ld64_ok by lia. cbn [mbind outcome_bind].
    rewrite Hh, Z.eqb_refl. cbn [mbind outcome_bind]. rewrite Hsz.
    eapply completes_mono; [apply (merge_ok h la s n r Hrep)|]. intros h' (? & ? & ? & Hk).
    split_and!; try done. intros x k t [(_ & _ & [=])|Hx]. by eapply Hk.
  - assert (absorb_next s lb = mk_block s None :: lb) as ->.
    { destruct lb as [|[n [t|]] r]; try done. by destruct (Hne n r). }
    destruct (lseg_head_ne _ _ _ _ Hlb ltac:(lia) Hl2 Hne) as [->|Hq].
    + apply completes_Ret. by apply free_step_refl.
    + destruct (Z.eqb_spec (load64 (h_mem h) (c + 8)) 0); [lia|]. rewrite (ld64_ok c) by lia.
      cbn [mbind outcome_bind]. rewrite Hh.
      destruct (Z.eqb_spec (c + s) (load64 (h_mem h) (c + 8))); [lia|].
      apply completes_Ret. by apply free_step_refl.
Qed.

Lemma nodes_below_free h la b lb (c := blocks_end heap_base la) :
  heap_rep heap_base h (la ++ b :: lb) -> nodes_below c (free_addrs heap_base la).
Proof.
  intros Hrep. destruct (inv_split _ _ _ _ Hrep) as (Hla & _ & _ & Hc & Hs & Hend & Hbump & Hfit).
  apply Forall_forall. intros x Hx. pose proof (free_addrs_range _ _ _ _ Hla Hx) as Hr.
  fold c in Hr, Hc, Hend, Hbump. lia.
Qed.

Lemma free_addrs_short h la b lb :
  heap_rep heap_base h (la ++ b :: lb) -> (length (free_addrs heap_base la) < list_fuel)%nat.
Proof.
  intros Hrep. pose proof (bl_length _ _ Hrep) as Hl. rewrite length_app in Hl.
  pose proof (free_addrs_le heap_base la) as Hf. unfold zlen in Hf. lia.
Qed.

Lemma absorb_prev_snoc la p s lb :
  absorb_prev (la ++ [mk_block p None]) (mk_block s None :: lb) = la ++ mk_block (p + s) None :: lb.
Proof.
  unfold absorb_prev. rewrite last_snoc, length_app. cbn [length].
  rewrite take_app_le by lia. rewrite take_ge by lia. done.
Qed.

Lemma absorb_prev_live la b l : b_tag b <> None -> absorb_prev (la ++ [b]) l = (la ++ [b]) ++ l.
Proof. unfold absorb_prev. rewrite last_snoc. destruct b as [n [t|]]; done. Qed.

Lemma coalesce_prev_ok h la s lb (c := blocks_end heap_base la) :
  heap_rep heap_base h (la ++ mk_block s None :: lb) -> free_addrs heap_base la <> [] ->
  completes (coalesce_prev heap_base c h) (fun h' =>
    free_step h h' la lb (c + s) (absorb_prev la (mk_block s None :: lb))).
Proof.
  intros Hrep Hne. destruct (last (free_addrs heap_base la)) as [x|] eqn:Ex;
    [|by apply last_None in Ex].
  apply last_Some in Ex as [l El]. assert (Hx : x ∈ free_addrs heap_base la) by (rewrite El; set_solver).
  destruct (inv_split _ _ _ _ Hrep) as (Hla & _ & Hlb & Hc & Hs & Hend & Hbump & Hfit).
  destruct (inv_split_free _ _ _ _ Hrep eq_refl) as (Hl1 & Hl2 & Hh). cbn [b_size] in *.
  pose proof (nodes_below_free _ _ _ _ Hrep) as Hnb. pose proof (free_addrs_short _ _ _ _ Hrep) as Hlen.
  pose proof (free_addrs_range _ _ _ _ Hla Hx) as Hxr.
  rewrite El in Hl1, Hnb, Hlen. rewrite length_app in Hlen.
  fold c in Hl1, Hl2, Hh, Hlb, Hend, Hbump, Hc, Hnb, Hxr. destruct Hbase as [Hpos _ Htop].
  unfold coalesce_prev. rewrite (pred_scan_ok h c l x) by (done || lia). cbn [mbind outcome_bind].
  destruct (Z.eqb_spec x 0); [lia|]. rewrite (ld64_ok x) by lia. cbn [mbind outcome_bind].
  destruct la as [|bp la _] using rev_ind; [done|].
  assert (Hcp : c = blocks_end heap_base la + b_size bp) by (unfold c; by rewrite blocks_end_app).
  destruct bp as [p [t|]].
  - rewrite absorb_prev_live by done.
    assert (Hxs : x + load64 (h_mem h) x <= blocks_end heap_base la).
    { apply blocks_rep_app in Hla as [Hla _]. rewrite free_addrs_app in Hx. cbn in Hx.
      rewrite app_nil_r in Hx. by apply free_addr_size. }
    apply blocks_rep_app in Hla as [_ [(Hp & _) _]]. cbn in Hp.
    destruct (Z.eqb_spec (x + load64 (h_mem h) x) c); [cbn in Hcp; lia|].
    apply completes_Ret. by apply free_step_refl.
  - rewrite absorb_prev_snoc. rewrite free_addrs_app in El. cbn in El.
    apply app_inj_tail in El as [<- <-]. rewrite <- app_assoc in Hrep. cbn in Hrep.
    apply blocks_rep_app in Hla as [_ [(Hp & _ & Hsz) _]]. cbn in Hp, Hsz. rewrite Hsz.
    cbn in Hcp. rewrite <- Hcp, Z.eqb_refl, (ld64_ok c) by lia. cbn [mbind outcome_bind]. rewrite Hh.
    pose proof (merge_ok h la p s lb Hrep) as Hm. cbv zeta in Hm. rewrite <- Hcp in Hm.
    eapply completes_mono; [exact Hm|]. intros h' (? & ? & Hk & ?).
    split_and!; try done. apply kept_app. split; [done|]. intros y k t' [(_ & _ & [=])|[]].
Qed.

(** Linking the block at [c] into the free list, before any merging. *)
Lemma free_insert_ok h la b lb (c := blocks_end heap_base la) (s := b_size b) :
  heap_rep heap_base h (la ++ b :: lb) -> b_tag b <> None ->
  completes (h1 ← st64 heap_base c s h;
             '(prev, curr) ← free_scan heap_base list_fuel c None (g_free_list h1) h1;
             h2 ← st64 heap_base (c + 8) curr h1;
             h3 ← write_link heap_base prev c h2;
             Ret (prev, h3))
    (fun r => r.1 = last (free_addrs heap_base la) /\
      heap_rep heap_base r.2 (la ++ mk_block s None :: lb) /\
      kept (h_mem h) (h_mem r.2) heap_base la /\ kept (h_mem h) (h_mem r.2) (c + s) lb).
Proof.
  intros Hrep Hb. destruct Hbase as [Hpos _ Htop]. assert (SAGE_ARENA_SIZE = 33554432) as HA by done.
  destruct (inv_split _ _ _ _ Hrep) as (Hla & (_ & Hd & _) & Hlb & Hc & Hs & Hend & Hbump & Hfit).
  pose proof (nodes_below_free _ _ _ _ Hrep) as Hnb. pose proof (free_addrs_short _ _ _ _ Hrep) as Hlen.
  fold c s in Hc, Hlb, Hs, Hend, Hbump, Hnb, Hd.
  pose proof (inv_list _ _ _ Hrep) as Hl. rewrite free_addrs_app in Hl. cbn [free_addrs] in Hl.
  destruct (b_tag b) as [t|] eqn:Et; [|done]. fold c s in Hl. apply lseg_app in Hl as (q & Hl1 & Hl2).
  rewrite st64_ok by lia. cbn [mbind outcome_bind]. set (h1 := with_mem _ h).
  assert (Hm1 : forall x, x < c \/ c + s <= x -> h_mem h x = h_mem h1 x).
  { intros x Hx. unfold h1. cbn. unfold store64, store_le. rewrite in_block_out by lia. done. }
  destruct (prefix_kept _ (h_mem h1) _ _ _ Hrep) as [Hla1 Hl1']; [fold c; intros x Hx; apply Hm1; lia|].
  pose proof (lseg_head _ _ _ _ Hlb Hl2) as Hq.
  rewrite (free_scan_ok h1 c (free_addrs heap_base la) list_fuel None (g_free_list h1) q)
    by (done || lia || by apply Hl1'). cbn [mbind outcome_bind]. rewrite st64_ok by lia. cbn [mbind outcome_bind].
  set (h2 := with_mem _ h1).
  assert (Hm2 : forall x, x < c \/ c + s <= x -> h_mem h x = h_mem h2 x).
  { intros x Hx. unfold h2, h1. cbn. unfold store64, store_le. rewrite !in_block_out by lia. done. }
  destruct (prefix_kept _ (h_mem h2) _ _ _ Hrep) as [Hla2 Hl2']; [fold c; intros x Hx; apply Hm2; lia|].
  assert (Hwf2 : mem_wf (h_mem h2)) by (unfold h2, h1; cbn; apply store_wf, store_wf, Hrep).
  destruct (write_link_ok h2 la (match last (free_addrs heap_base la) with Some x => Some x | None => None end) c q)
    as (m3 & p3 & -> & Hwf3 & Hla3 & Hl3 & Hout & Hlive);
    [done|done|fold c; lia|by apply Hl2'|by destruct (last _)|lia|].
  cbn [mbind outcome_bind]. apply completes_Ret. cbn [fst snd]. split; [by destruct (last _)|].
  assert (Hld : forall k y, c <= y -> load_le k m3 y = load_le k (h_mem h2) y).
  { intros k y Hy. apply load_agree. intros x Hx. symmetry. apply Hout. fold c. lia. }
  assert (H64 : load64 m3 c = s).
  { unfold load64. rewrite Hld by lia. unfold h2. cbn. unfold store64. rewrite load_store_ne by (unfold disjoint_ranges; lia).
    etrans; [apply load64_store64|]. apply u64_small. lia. }
  assert (Hnx : load64 m3 (c + 8) = q).
  { unfold load64. rewrite Hld by lia. unfold h2. cbn. etrans; [apply load64_store64|]. apply u64_small. lia. }
  assert (Hsuf : forall x, c + s <= x -> h_mem h x = m3 x).
  { intros x Hx. rewrite Hm2 by lia. apply Hout. fold c. lia. }
  split_and!.
  - apply (inv_replace h _ la [b] [mk_block s None] lb q Hrep); fold c s;
      cbn [blocks_end b_size b_tag free_addrs]; fold s; try done.
    + exact (inv_stats _ _ _ Hrep).
    + apply lseg_app. exists c. split; [done|]. split; [done|]. cbn. done.
  - intros x n t' Hx. eapply agree_trans; [|by apply (Hlive x n t')]. intros y Hy.
    pose proof (live_at_range _ _ _ _ _ _ Hla Hx) as Hr. fold c in Hr. apply Hm2. lia.
  - eapply kept_agree; [done|]. intros x Hx. apply Hsuf. lia.
Qed.

Lemma free_addrs_last_nil la : last (free_addrs heap_base la) = None -> free_addrs heap_base la = [].
Proof. apply last_None. Qed.

Lemma absorb_prev_no_free la l :
  free_addrs heap_base la = [] -> absorb_prev la l = la ++ l.
Proof.
  destruct la as [|[n [t|]] la _] using rev_ind; intros H; [by destruct l as [|[? [?|]] ?]| |].
  - by apply absorb_prev_live.
  - rewrite free_addrs_app in H. cbn in H. by apply app_nil in H as [_ ?].
Qed.

Lemma absorb_next_head s lb : exists s' r, absorb_next s lb = mk_block s' None :: r.
Proof. destruct lb as [|[n [t|]] lb]; cbn; eauto. Qed.

(** Freeing leaves no two free neighbours. *)
Lemma no_adjacent_absorb la b lb s :
  b_tag b <> None -> no_adjacent_free (la ++ b :: lb) ->
  no_adjacent_free (absorb_prev la (absorb_next s lb)).
Proof.
  intros Hb (H1 & H2 & _)%no_adjacent_app.
  assert (Hnext : forall k, exists s' r, absorb_next k lb = mk_block s' None :: r /\
    no_adjacent_free (mk_block s' None :: r) /\ (forall s'', no_adjacent_free (mk_block s'' None :: r))).
  { intros k. assert (Hlb : no_adjacent_free lb) by (destruct lb; [done|apply H2]).
    destruct lb as [|[n [t|]] lb]; cbn in *.
    - exists k, []. done.
    - exists k, (mk_block n (Some t) :: lb). cbn.
      assert (~ (@None Z = None /\ Some t = @None Z)) by (by intros [? ?]). naive_solver.
    - exists (k + n), lb. split; [done|]. destruct lb as [|b' lb]; [done|]. cbn in Hlb. tauto. }
  destruct (Hnext s) as (s' & r & -> & Hr & Hr').
  destruct la as [|[n [t|]] la _] using rev_ind; [done| |].
  - rewrite absorb_prev_live by done. apply no_adjacent_app. split_and!; [done|done|].
    rewrite last_snoc. by intros ? ? [= <-] _ [? _].
  - rewrite absorb_prev_snoc. apply no_adjacent_app in H1 as (H1 & _ & H3).
    apply no_adjacent_app. split_and!; [done|apply Hr'|].
    intros b1 b2 Hl [= <-] [Hb1 _]. by apply (H3 b1 (mk_block n None) Hl).
Qed.

(** The blocks in use after freeing are the others. *)
Lemma live_at_absorb la s lb x n t (c := blocks_end heap_base la) :
  live_at heap_base (absorb_prev la (absorb_next s lb)) x n t <->
  live_at heap_base la x n t \/ live_at (c + s) lb x n t.
Proof.
  assert (Hnext : forall a k, live_at a (absorb_next k lb) x n t <-> live_at (a + k) lb x n t).
  { intros a k. destruct lb as [|[m [u|]] lb]; cbn; rewrite ?Z.add_assoc; naive_solver. }
  destruct (absorb_next_head s lb) as (s' & r & E).
  destruct la as [|[m [u|]] la _] using rev_ind.
  - unfold absorb_prev. cbn [last app]. rewrite Hnext. subst c. cbn. tauto.
  - rewrite absorb_prev_live by done. rewrite live_at_app, Hnext. done.
  - specialize (Hnext c s). rewrite E in Hnext |- *. rewrite absorb_prev_snoc, <- Hnext.
    rewrite !live_at_app. subst c. rewrite blocks_end_app. cbn. rewrite Z.add_assoc. naive_solver.
Qed.

Lemma free_ok e h la b lb (c := blocks_end heap_base la) (s := b_size b) :
  heap_inv heap_base h (la ++ b :: lb) -> b_tag b <> None ->
  completes (sage_free heap_base e (c + 16) h) (fun h' =>
    heap_inv heap_base h' (absorb_prev la (absorb_next s lb)) /\
    kept (h_mem h) (h_mem h') heap_base la /\ kept (h_mem h) (h_mem h') (c + s) lb).
Proof.
  intros Hinv Hb. destruct Hbase as [Hpos _ Htop]. assert (SAGE_ARENA_SIZE = 33554432) as HA by done.
  destruct (inv_split _ _ _ _ Hinv) as (_ & (_ & Hd & Hh) & _ & Hc & Hs & Hend & Hbump & Hfit).
  fold c s in Hc, Hs, Hend, Hbump, Hh, Hd. destruct (b_tag b) as [t|] eqn:Et; [|done]. destruct Hh as [Hh _].
  unfold sage_free. destruct (Z.eqb_spec (c + 16) 0); [lia|]. set (h0 := heap_trace_log _ _ _ _ _).
  assert (Hinv0 : heap_inv heap_base h0 (la ++ b :: lb)) by (by apply inv_trace).
  replace (c + 16 - ALLOC_HEADER_SIZE) with c by (unfold ALLOC_HEADER_SIZE; lia).
  rewrite (ld64_ok c), (ld32_ok (c + 8)) by lia. cbn [mbind outcome_bind].
  change (h_mem h0) with (h_mem h). rewrite Hh, total_size_spec by (done || lia).
  destruct (free_insert_ok h0 la b lb Hinv0) as ([prev h3] & E & Hprev & Hrep3 & Hk1 & Hk2); [by rewrite Et|].
  fold c s in E, Hrep3, Hk2. change (h_mem h0) with (h_mem h) in Hk1, Hk2. cbn [fst snd] in *.
  apply bind_Ret_inv in E as (h1 & -> & E). cbn [mbind outcome_bind].
  apply bind_Ret_inv in E as ([pr cu] & -> & E). cbn [mbind outcome_bind].
  apply bind_Ret_inv in E as (h2 & -> & E). cbn [mbind outcome_bind].
  apply bind_Ret_inv in E as (h3' & -> & [= -> ->]). cbn [mbind outcome_bind].
  destruct (coalesce_next_ok h3 la s lb Hrep3) as (h4 & E4 & Hrep4 & Hfl & Hk3 & Hk4).
  fold c in E4, Hk4. rewrite E4. cbn [mbind outcome_bind]. clear E4.
  assert (Hadj : no_adjacent_free (absorb_prev la (absorb_next s lb)))
    by (eapply (no_adjacent_absorb la b lb); [by rewrite Et|apply Hinv]).
  destruct prev as [x|].
  - destruct (absorb_next_head s lb) as (s' & r & Er).
    destruct (coalesce_prev_ok h4 la s' r) as (h5 & E5 & Hrep5 & _ & Hk5 & Hk6);
      [by rewrite <- Er|by intros Hn; rewrite Hn in Hprev|].
    fold c in E5, Hk6. rewrite E5. apply completes_Ret. rewrite <- Er in Hrep5.
    split; [by split|]. split; [by eapply kept_trans; [|eapply kept_trans]|].
    eapply kept_trans; [done|]. eapply kept_trans; [done|].
    intros y k u Hy. apply (Hk6 y k u).
    destruct lb as [|[m [u'|]] lb]; cbn in Er; injection Er as <- <-; cbn in Hy |- *; try done.
    destruct Hy as [(_ & _ & [=])|Hy]. by rewrite Z.add_assoc.
  - apply completes_Ret. symmetry in Hprev. apply free_addrs_last_nil in Hprev.
    rewrite absorb_prev_no_free in Hadj |- * by done.
    split; [by split|]. split; by eapply kept_trans.
Qed.

(** ** Blocks in use *)

Lemma live_at_split a bl x n t :
  live_at a bl x n t -> exists la lb, bl = la ++ mk_block n (Some t) :: lb /\ x = blocks_end a la.
Proof.
  revert a. induction bl as [|[s o] bl IH]; intros a; [done|]. cbn.
  intros [(-> & -> & ->)|H]; [by exists [], bl|].
  destruct (IH _ H) as (la & lb & -> & ->). by exists (mk_block s o :: la), lb.
Qed.

Lemma live_at_header m a bl x n t :
  blocks_rep m a bl -> live_at a bl x n t ->
  32 <= n /\ (16 | n) /\ load64 m x = n - 16 /\ load32 m (x + 8) = t.
Proof.
  intros Hb (la & lb & -> & ->)%live_at_split. apply blocks_rep_app in Hb as (_ & (? & ? & ?) & _).
  naive_solver.
Qed.

Lemma live_disjoint m a bl x n t y k u :
  blocks_rep m a bl -> live_at a bl x n t -> live_at a bl y k u -> x <> y -> disjoint_ranges x n y k.
Proof.
  unfold disjoint_ranges. revert a. induction bl as [|b bl IH]; intros a; [done|]. cbn.
  intros [(Hs & _) Hb] [(-> & -> & _)|Hx] [(-> & -> & _)|Hy] Hne; try done.
  - pose proof (live_at_range _ _ _ _ _ _ Hb Hy). lia.
  - pose proof (live_at_range _ _ _ _ _ _ Hb Hx). lia.
  - by eapply IH.
Qed.

Lemma live_aligned m a bl x n t :
  (16 | a) -> blocks_rep m a bl -> live_at a bl x n t -> (16 | x).
Proof.
  revert a. induction bl as [|b bl IH]; intros a Ha; [done|]. cbn.
  intros [(_ & Hd & _) Hb] [(-> & _)|Hx]; [done|]. eapply IH; [|done|done]. by apply Z.divide_add_r.
Qed.

(** Allocation keeps the blocks in use. *)
Lemma malloc_blocks_live h bl needed tag bl' p x n t :
  malloc_blocks h bl needed tag bl' p -> live_at heap_base bl x n t -> live_at heap_base bl' x n t.
Proof.
  intros [la b lb -> Hb _ _|_ _] Hx; [|apply live_at_app; by left].
  apply live_at_app in Hx as [Hx|[(_ & _ & ?)|Hx]]; apply live_at_app; [by left|congruence|].
  right. apply live_at_app. right. unfold carve.
  destruct (needed + 32 <=? b_size b); cbn; [by replace (_ + needed + _) with (blocks_end heap_base la + b_size b) by lia|done].
Qed.

(** The block handed out was not in use. *)
Lemma malloc_fresh h bl needed tag bl' p y k u :
  heap_rep heap_base h bl -> malloc_blocks h bl needed tag bl' p ->
  live_at heap_base bl y k u -> y <> p - 16.
Proof.
  intros Hrep Hm Hy Heq. pose proof (live_at_range _ _ _ _ _ _ (inv_blocks _ _ _ Hrep) Hy) as Hr.
  rewrite (inv_end _ _ _ Hrep) in Hr. destruct Hm as [la b lb -> Hb _ _|_ _]; [|lia].
  assert (Hx : blocks_end heap_base la ∈ free_addrs heap_base (la ++ b :: lb)).
  { rewrite free_addrs_app. cbn. rewrite Hb. set_solver. }
  pose proof (free_live_disjoint _ _ _ _ _ _ _ (inv_blocks _ _ _ Hrep) Hx Hy) as Hd.
  unfold disjoint_ranges in Hd. lia.
Qed.

(** Writes by the owner of a block leave the heap well formed. *)
Lemma inv_user_write h bl m' x n t :
  heap_inv heap_base h bl -> live_at heap_base bl x n t -> mem_wf m' ->
  (forall y, y < x + 16 \/ x + n <= y -> h_mem h y = m' y) ->
  heap_inv heap_base (with_mem m' h) bl.
Proof.
  intros [Hrep Hadj] (la & lb & -> & ->)%live_at_split Hwf Hag. split; [|done].
  destruct (inv_split _ _ _ _ Hrep) as (Hla & (Hs & Hd & Hh & Ht) & _). cbn in Hs, Hd, Hh, Ht.
  destruct (prefix_kept _ m' _ _ _ Hrep) as [Hla' Hl']; [intros y Hy; apply Hag; lia|].
  pose proof (inv_list _ _ _ Hrep) as Hl. rewrite free_addrs_app in Hl. cbn [free_addrs b_tag b_size] in Hl.
  apply lseg_app in Hl as (q & Hl1 & Hl2).
  apply (inv_replace h _ la [mk_block n (Some t)] [mk_block n (Some t)] lb q Hrep); cbn; try done.
  - split; [|done]. apply block_ok_live; [done|done|..]; etrans; try exact Hh; try exact Ht;
      apply load_agree; intros y Hy; symmetry; apply Hag; lia.
  - intros y Hy. apply Hag. lia.
  - apply (inv_stats _ _ _ Hrep).
  - rewrite app_nil_r. by apply Hl'.
Qed.

(** Freeing by address. *)
Lemma free_live_ok e h bl x n t :
  heap_inv heap_base h bl -> live_at heap_base bl x n t ->
  completes (sage_free heap_base e (x + 16) h) (fun h' => exists bl',
    heap_inv heap_base h' bl' /\
    (forall y k u, live_at heap_base bl' y k u <-> live_at heap_base bl y k u /\ y <> x) /\
    (forall y k u, live_at heap_base bl' y k u -> agree (h_mem h) (h_mem h') y k)).
Proof.
  intros Hinv Hx. pose proof (live_at_split _ _ _ _ _ Hx) as (la & lb & -> & ->).
  eapply completes_mono; [by apply (free_ok e h la (mk_block n (Some t)) lb)|].
  intros h' (Hinv' & Hk1 & Hk2). eexists. split; [exact Hinv'|]. cbn [b_size] in *.
  destruct (inv_split _ _ _ _ Hinv) as (Hla & _ & Hlb & _ & Hn & _). cbn [b_size] in *.
  split; intros y k u; rewrite live_at_absorb.
  - rewrite live_at_app. cbn. split.
    + intros [H|H]; [pose proof (live_at_range _ _ _ _ _ _ Hla H)|pose proof (live_at_range _ _ _ _ _ _ Hlb H)];
        (split; [tauto|lia]).
    + naive_solver.
  - intros [H|H]; eauto.
Qed.

(** ** Reallocation *)

(** What [sage_realloc] promises for the block [n] bytes long at [x]. *)
Definition realloc_post (h : heap) (bl : list block) (x n t new_size : Z) (r : Z * heap) : Prop :=
  (r = (0, h)) \/
  exists bl' n', heap_inv heap_base r.2 bl' /\ live_at heap_base bl' (r.1 - 16) n' t /\
    new_size + 16 <= n' /\
    (forall i, 0 <= i < n - 16 -> h_mem r.2 (r.1 + i) = h_mem h (x + 16 + i)) /\
    (forall y k u, live_at heap_base bl y k u -> y <> x ->
       live_at heap_base bl' y k u /\ agree (h_mem h) (h_mem r.2) y k).

(** Copying the old contents into the block just allocated. *)
Lemma copy_ok h h1 bl bl1 x n t np n1 :
  heap_inv heap_base h1 bl1 -> live_at heap_base bl1 x n t -> live_at heap_base bl1 (np - 16) n1 t ->
  n <= n1 -> np - 16 <> x -> agree (h_mem h) (h_mem h1) x n ->
  (forall y k u, live_at heap_base bl y k u -> live_at heap_base bl1 y k u) ->
  exists m2, heap_memcpy heap_base np (x + 16) (n - 16) h1 = Ret (with_mem m2 h1) /\
    heap_inv heap_base (with_mem m2 h1) bl1 /\
    (forall i, 0 <= i < n - 16 -> m2 (np + i) = h_mem h (x + 16 + i)) /\
    (forall y k u, live_at heap_base bl1 y k u -> y <> np - 16 -> agree (h_mem h1) m2 y k).
Proof.
  intros Hinv Hx Hnp Hn Hne Hag Hsub.
  pose proof (live_at_range _ _ _ _ _ _ (inv_blocks _ _ _ Hinv) Hx) as Rx.
  pose proof (live_at_range _ _ _ _ _ _ (inv_blocks _ _ _ Hinv) Hnp) as Rn.
  rewrite (inv_end _ _ _ Hinv) in Rx, Rn. pose proof (inv_fit _ _ _ Hinv).
  pose proof (live_disjoint _ _ _ _ _ _ _ _ _ (inv_blocks _ _ _ Hinv) Hnp Hx Hne) as Hd.
  unfold heap_memcpy. rewrite !mapped_ok by lia. cbn [andb]. eexists. split; [done|]. split_and!.
  - eapply inv_user_write; [done|done|apply memcpy_wf, Hinv|].
    intros y Hy. unfold memcpy. rewrite in_block_out by lia. done.
  - intros i Hi. unfold memcpy. rewrite in_block_in by lia. rewrite Hag by lia. f_equal. lia.
  - intros y k u Hy Hyn z Hz. symmetry. eapply memcpy_agree; [|exact Hz].
    pose proof (live_disjoint _ _ _ _ _ _ _ _ _ (inv_blocks _ _ _ Hinv) Hnp Hy ltac:(done)) as Hd'.
    unfold disjoint_ranges in *. lia.
Qed.

Lemma realloc_ok e h bl x n t new_size :
  heap_inv heap_base h bl -> live_at heap_base bl x n t ->
  0 < new_size -> new_size + 31 + SAGE_ARENA_SIZE < 2 ^ 64 ->
  completes (sage_realloc heap_base e (x + 16) new_size h) (realloc_post h bl x n t new_size).
Proof.
  intros Hinv Hx Hpos Hov. destruct Hbase as [Hb0 _ Htop].
  pose proof (live_at_range _ _ _ _ _ _ (inv_blocks _ _ _ Hinv) Hx) as Rx.
  rewrite (inv_end _ _ _ Hinv) in Rx. pose proof (inv_fit _ _ _ Hinv).
  destruct (live_at_header _ _ _ _ _ _ (inv_blocks _ _ _ Hinv) Hx) as (_ & _ & Hh & Ht).
  unfold sage_realloc. destruct (Z.eqb_spec (x + 16) 0); [lia|]. destruct (Z.eqb_spec new_size 0); [lia|].
  replace (x + 16 - ALLOC_HEADER_SIZE) with x by (unfold ALLOC_HEADER_SIZE; lia).
  rewrite (ld64_ok x), (ld32_ok (x + 8)) by lia. cbn [mbind outcome_bind]. rewrite Hh, Ht.
  destruct (Z.leb_spec new_size (n - 16)).
  { apply completes_Ret. right. exists bl, n. cbn. split_and!; try done; try lia.
    by replace (x + 16 - 16) with x by lia. }
  assert (u32 t = t) as Htag.
  { rewrite <- Ht. apply u32_small. apply (load_bound 4), Hinv. }
  destruct (needed_bounds new_size Hpos) as (Hnd & _ & _).
  destruct (malloc_ok e h bl new_size t Hinv Hpos Hov) as ([np h1] & -> & [(E & _)|(bl1 & Hmb & Heff)]).
  { injection E as -> ->. apply completes_Ret. by left. }
  cbn [mbind outcome_bind fst snd] in *. destruct Heff as [Hinv1 Hfr (nb & Hnb & Hl1 & _)]. rewrite Htag in Hl1.
  pose proof (live_at_range _ _ _ _ _ _ (inv_blocks _ _ _ Hinv1) Hl1) as Rn.
  destruct (Z.eqb_spec np 0) as [|_]; [lia|].
  assert (Hsub : forall y k u, live_at heap_base bl y k u -> live_at heap_base bl1 y k u)
    by (intros; by eapply malloc_blocks_live).
  assert (Hfresh : forall y k u, live_at heap_base bl y k u -> y <> np - 16)
    by (intros; eapply malloc_fresh; [apply Hinv|done|done]).
  destruct (copy_ok h h1 bl bl1 x n t np nb Hinv1 (Hsub _ _ _ Hx) Hl1 ltac:(lia)
    (not_eq_sym (Hfresh _ _ _ Hx)) (Hfr _ _ _ Hx) Hsub)
    as (m2 & -> & Hinv2 & Hcopy & Hk2). cbn [mbind outcome_bind].
  destruct (free_live_ok e _ _ _ _ _ Hinv2 (Hsub _ _ _ Hx)) as (h3 & -> & bl3 & Hinv3 & Hlive3 & Hk3).
  apply completes_Ret. right. exists bl3, nb. cbn [fst snd h_mem with_mem] in *.
  assert (Hl3 : live_at heap_base bl3 (np - 16) nb t)
    by (apply Hlive3; split; [done|apply not_eq_sym, (Hfresh _ _ _ Hx)]).
  split_and!; [done|done|lia| |].
  - intros i Hi. rewrite <- Hcopy by done. symmetry. apply (Hk3 _ _ _ Hl3). lia.
  - intros y k u Hy Hyx. assert (Hy3 : live_at heap_base bl3 y k u) by (apply Hlive3; eauto).
    split; [done|]. eapply agree_trans; [by eapply Hfr|]. eapply agree_trans; [|by eapply Hk3].
    apply (Hk2 y k u); eauto.
Qed.
End operations.

(** ** Clients of the heap

    A client state is the heap with the blocks the client holds: pointer and
    requested size. *)

Definition small (size : Z) : Prop := size + 31 + SAGE_ARENA_SIZE < 2 ^ 64.

Inductive heap_step (heap_base : Z) : heap * gmap Z Z -> heap * gmap Z Z -> Prop :=
| hs_malloc e size tag p h h' ps :
    0 <= size -> small size -> sage_malloc_tagged heap_base e size tag h = Ret (p, h') -> p <> 0 ->
    heap_step heap_base (h, ps) (h', <[p := size]> ps)
| hs_malloc_fail e size tag h h' ps :
    0 <= size -> small size -> sage_malloc_tagged heap_base e size tag h = Ret (0, h') ->
    heap_step heap_base (h, ps) (h', ps)
| hs_free e p size h h' ps :
    ps !! p = Some size -> sage_free heap_base e p h = Ret h' ->
    heap_step heap_base (h, ps) (h', delete p ps)
| hs_realloc e p size np size' h h' ps :
    ps !! p = Some size -> 0 < size' -> small size' ->
    sage_realloc heap_base e p size' h = Ret (np, h') -> np <> 0 ->
    heap_step heap_base (h, ps) (h', <[np := size']> (delete p ps))
| hs_realloc_fail e p size size' h h' ps :
    ps !! p = Some size -> 0 < size' -> small size' ->
    sage_realloc heap_base e p size' h = Ret (0, h') ->
    heap_step heap_base (h, ps) (h', ps)
| hs_write p size m' h ps :
    ps !! p = Some size -> mem_wf m' ->
    (forall y, y < p \/ p + size <= y -> h_mem h y = m' y) ->
    heap_step heap_base (h, ps) (with_mem m' h, ps)
| hs_reset h ps :
    heap_step heap_base (h, ps) (sage_arena_reset h, ∅).

(** Every block the client holds is a block in use of sufficient size. *)
Definition client_inv (heap_base : Z) (s : heap * gmap Z Z) : Prop :=
  exists bl, heap_inv heap_base s.1 bl /\
    forall p size, s.2 !! p = Some size ->
      0 <= size /\ exists n t, live_at heap_base bl (p - 16) n t /\ size + 16 <= n.

Lemma empty_inv heap_base m st tr :
  arena_ok heap_base -> mem_wf m -> zlen st = ALLOC_TAG_MAX ->
  heap_inv heap_base (mk_heap m 0 0 st tr) [].
Proof. intros. split; [|done]. split; cbn; try done. lia. Qed.

Lemma client_inv_static heap_base : arena_ok heap_base -> client_inv heap_base (heap_static, ∅).
Proof.
  intros. exists []. split; [by apply empty_inv; [|apply mem_zero_wf|]|].
  intros p size. cbn [snd]. by rewrite lookup_empty.
Qed.

Lemma client_inv_malloc heap_base e size tag p h h' ps :
  arena_ok heap_base -> client_inv heap_base (h, ps) -> 0 <= size -> small size ->
  sage_malloc_tagged heap_base e size tag h = Ret (p, h') ->
  client_inv heap_base (h', if p =? 0 then ps else <[p := size]> ps).
Proof.
  intros Hb (bl & Hinv & Hps) H0 Hsm E. cbn [fst snd] in *.
  destruct (Z.eqb_spec size 0) as [->|Hne].
  { unfold sage_malloc_tagged in E. cbn in E. injection E as <- <-. exists bl. done. }
  destruct (malloc_ok heap_base Hb e h bl size tag Hinv ltac:(lia) Hsm) as ([p' h1] & E' & Hr).
  rewrite E in E'. injection E' as <- <-. destruct Hr as [(E' & _)|(bl' & Hmb & [Hinv' _ (n & Hn & Hl & _)])].
  { injection E' as -> ->. exists bl. done. }
  cbn [fst snd] in *. exists bl'. split; [done|]. intros q sz Hq. cbn [snd] in Hq.
  assert (Hold : ps !! q = Some sz -> 0 <= sz /\ exists n t, live_at heap_base bl' (q - 16) n t /\ sz + 16 <= n).
  { intros (? & k & t & ? & ?)%Hps. split; [done|]. exists k, t. split; [by eapply malloc_blocks_live|done]. }
  destruct (p =? 0); [by apply Hold|]. destruct (decide (p = q)) as [->|Hne'].
  - rewrite lookup_insert_eq in Hq. injection Hq as <-. split; [done|]. exists n, (u32 tag).
    split; [done|]. pose proof (needed_bounds size ltac:(lia)). lia.
  - rewrite lookup_insert_ne in Hq by done. by apply Hold.
Qed.

Lemma client_inv_free heap_base e p size h h' ps :
  arena_ok heap_base -> client_inv heap_base (h, ps) -> ps !! p = Some size ->
  sage_free heap_base e p h = Ret h' -> client_inv heap_base (h', delete p ps).
Proof.
  intros Hb (bl & Hinv & Hps) Hp E. cbn [fst snd] in *. destruct (Hps _ _ Hp) as (_ & n & t & Hl & _).
  destruct (free_live_ok heap_base Hb e h bl _ _ _ Hinv Hl) as (h1 & E' & bl' & Hinv' & Hlive & _).
  replace (p - 16 + 16) with p in E' by lia. rewrite E in E'. injection E' as <-.
  exists bl'. split; [done|]. intros q sz Hq. cbn [snd] in Hq.
  apply lookup_delete_Some in Hq as [Hne Hq]. destruct (Hps _ _ Hq) as (? & k & u & ? & ?).
  split; [done|]. exists k, u. split; [|done]. apply Hlive. split; [done|lia].
Qed.

Lemma client_inv_realloc heap_base e p size np size' h h' ps :
  arena_ok heap_base -> client_inv heap_base (h, ps) -> ps !! p = Some size -> 0 < size' -> small size' ->
  sage_realloc heap_base e p size' h = Ret (np, h') ->
  client_inv heap_base (h', if np =? 0 then ps else <[np := size']> (delete p ps)).
Proof.
  intros Hb (bl & Hinv & Hps) Hp H0 Hsm E. cbn [fst snd] in *. destruct (Hps _ _ Hp) as (_ & n & t & Hl & _).
  destruct (realloc_ok heap_base Hb e h bl _ _ _ size' Hinv Hl H0 Hsm) as (r & E' & Hr).
  replace (p - 16 + 16) with p in E' by lia. rewrite E in E'. injection E' as <-.
  destruct Hr as [E'|(bl' & n' & Hinv' & Hl' & Hn' & _ & Hold)].
  { injection E' as -> ->. exists bl. done. }
  cbn [fst snd] in *.
  pose proof (live_at_range _ _ _ _ _ _ (inv_blocks _ _ _ Hinv') Hl'). pose proof (base_pos _ Hb).
  destruct (Z.eqb_spec np 0); [lia|]. exists bl'. split; [done|]. intros q sz Hq. cbn [snd] in Hq.
  destruct (decide (np = q)) as [->|Hne'].
  - rewrite lookup_insert_eq in Hq. injection Hq as <-. split; [lia|]. exists n', t. split; [done|lia].
  - rewrite lookup_insert_ne in Hq by done. apply lookup_delete_Some in Hq as [Hne Hq].
    destruct (Hps _ _ Hq) as (? & k & u & Hk & ?). split; [done|]. exists k, u. split; [|done].
    apply (Hold _ _ _ Hk). lia.
Qed.

Lemma client_inv_step heap_base s s' :
  arena_ok heap_base -> client_inv heap_base s -> heap_step heap_base s s' -> client_inv heap_base s'.
Proof.
  intros Hb Hinv Hs. destruct Hs as [e size tag p h h' ps ? ? E ?|e size tag h h' ps ? ? E|e p size h h' ps ? ?|
    e p size np size' h h' ps ? ? ? E ?|e p size size' h h' ps ? ? ? E|p size m' h ps Hp Hwf Hag|h ps].
  - apply (client_inv_malloc _ _ _ _ _ _ _ _ Hb Hinv) in E; try done. by destruct (Z.eqb_spec p 0).
  - by apply (client_inv_malloc _ _ _ _ _ _ _ _ Hb Hinv) in E.
  - by eapply client_inv_free.
  - eapply (client_inv_realloc _ _ _ _ _ _ _ _ _ Hb Hinv) in E; try done. by destruct (Z.eqb_spec np 0).
  - by eapply (client_inv_realloc _ _ _ _ _ _ _ _ _ Hb Hinv) in E.
  - destruct Hinv as (bl & Hinv & Hps). cbn [fst snd] in *. exists bl. split; [|done].
    destruct (Hps _ _ Hp) as (? & n & t & Hl & ?). eapply inv_user_write; [done..|].
    intros y Hy. apply Hag. lia.
  - destruct Hinv as (bl & Hinv & _). cbn [fst snd] in *. exists []. split; [|intros p sz; cbn [snd]; by rewrite lookup_empty].
    apply empty_inv; [done|apply Hinv|done].
Qed.

Lemma client_inv_reachable heap_base s :
  arena_ok heap_base -> rtc (heap_step heap_base) (heap_static, ∅) s -> client_inv heap_base s.
Proof.
  intros Hb. revert s. apply (rtc_ind_r (client_inv heap_base)); [by apply client_inv_static|].
  intros s1 s2 _ Hs H1. by eapply client_inv_step.
Qed.

(** ** Theorems *)

(** C1: in every state that clients reach through [sage_malloc_tagged],
    [sage_free], [sage_realloc], [sage_arena_reset] and writes inside the blocks
    they hold, the blocks held lie inside the arena at 16-byte boundaries and
    do not overlap, and every further allocation and every free of a held block
    completes without touching memory outside the arena.  This is for requests that
    are [small], less than [2 ^ 64 - 32 MiB - 31] bytes: beyond that the
    size with its header wraps round and a block can be smaller than asked for
    ([malloc_size_wraps]). *)
Theorem heap_safe heap_base h ps :
  arena_ok heap_base -> rtc (heap_step heap_base) (heap_static, ∅) (h, ps) ->
  (forall p size, ps !! p = Some size ->
     heap_base + 16 <= p /\ p + size <= heap_base + SAGE_ARENA_SIZE /\ (16 | p)) /\
  (forall p q size size', p <> q -> ps !! p = Some size -> ps !! q = Some size' ->
     disjoint_ranges p size q size') /\
  (forall e size tag, 0 <= size -> small size ->
     completes (sage_malloc_tagged heap_base e size tag h) (fun _ => True)) /\
  (forall e p size, ps !! p = Some size -> completes (sage_free heap_base e p h) (fun _ => True)).
Proof.
  intros Hb Hr. destruct (client_inv_reachable _ _ Hb Hr) as (bl & Hinv & Hps). cbn [fst snd] in *.
  pose proof (inv_blocks _ _ _ Hinv) as Hbl. pose proof (inv_fit _ _ _ Hinv). split_and!.
  - intros p size Hp. destruct (Hps _ _ Hp) as (_ & n & t & Hl & Hn).
    pose proof (live_at_range _ _ _ _ _ _ Hbl Hl) as Hg. rewrite (inv_end _ _ _ Hinv) in Hg.
    destruct (live_aligned _ _ _ _ _ _ (base_aligned _ Hb) Hbl Hl) as [k Hk].
    split_and!; [lia|lia|]. exists (k + 1). lia.
  - intros p q size size' Hne Hp Hq. destruct (Hps _ _ Hp) as (_ & n & t & Hl & Hn).
    destruct (Hps _ _ Hq) as (_ & n' & t' & Hl' & Hn').
    pose proof (live_disjoint _ _ _ _ _ _ _ _ _ Hbl Hl Hl' ltac:(lia)) as Hd.
    unfold disjoint_ranges in *. lia.
  - intros e size tag H0 Hsm. destruct (Z.eqb_spec size 0) as [->|Hne]; [by eexists|].
    eapply completes_mono; [by apply (malloc_ok heap_base Hb e h bl size tag Hinv); [lia|]|done].
  - intros e p size Hp. destruct (Hps _ _ Hp) as (_ & n & t & Hl & Hn).
    destruct (free_live_ok heap_base Hb e h bl _ _ _ Hinv Hl) as (h' & E & _).
    replace (p - 16 + 16) with p in E by lia. by exists h'.
Qed.

Lemma arena_65536 : arena_ok 65536.
Proof. split; [lia|by exists 4096|done]. Qed.

Lemma heap_safe_witness :
  exists h p, sage_malloc_tagged 65536 (mk_env 0 None) 100 3 heap_static = Ret (p, h) /\
    65536 + 16 <= p /\ p + 100 <= 65536 + SAGE_ARENA_SIZE /\ (16 | p).
Proof.
  assert (match sage_malloc_tagged 65536 (mk_env 0 None) 100 3 heap_static with
          | Ret (p, _) => p | _ => 0 end = 65552) as Hp by (vm_compute; reflexivity).
  destruct (sage_malloc_tagged 65536 (mk_env 0 None) 100 3 heap_static) as [[p h]| |] eqn:E;
    [|discriminate..].
  exists h, p. split; [reflexivity|].
  refine (proj1 (heap_safe 65536 h {[p := 100]} arena_65536 _) p 100 (lookup_singleton_eq _ _)).
  apply rtc_once. eapply (hs_malloc 65536 (mk_env 0 None) 100 3); [lia|reflexivity|exact E|lia].
Defined.

(** C5: [sage_malloc_tagged] on a well-formed heap, for a size of at least one and
    [small] (less than [2 ^ 64 - 32 MiB - 31], so that the size with its header does
    not wrap round), hands out the first free block
    that is large enough, splitting it when the rest can hold a block, or
    extends the used part of the arena, or returns NULL and changes nothing when
    neither is possible; the block is zeroed, was not in use, and no byte of any
    block in use changes; free neighbours never arise.  For the size 0 it returns
    NULL and changes nothing. *)
Theorem malloc_refines heap_base e h bl size tag :
  arena_ok heap_base -> heap_inv heap_base h bl -> 0 <= size -> small size ->
  completes (sage_malloc_tagged heap_base e size tag h) (fun r =>
    (r = (0, h) /\ (size = 0 \/ no_fit (needed_of size) bl /\ SAGE_ARENA_SIZE < sage_bump h + needed_of size)) \/
    (0 < size /\ exists bl', malloc_blocks heap_base h bl (needed_of size) tag bl' r.1 /\
       alloc_effect heap_base h r.2 bl bl' r.1 (needed_of size) tag /\
       forall n t, ~ live_at heap_base bl (r.1 - 16) n t)).
Proof.
  intros Hb Hinv H0 Hsm. destruct (Z.eqb_spec size 0) as [->|Hne]; [apply completes_Ret; auto|].
  eapply completes_mono; [by apply (malloc_ok heap_base Hb); [..|lia|]|].
  intros r [(? & ? & ?)|(bl' & Hm & Heff)]; [by left; auto|]. right. split; [lia|]. exists bl'. split_and!; [done|done|].
  intros n t Hl. by apply (malloc_fresh heap_base Hb h bl _ _ bl' _ _ _ _ Hinv Hm Hl).
Qed.

Lemma malloc_refines_witness :
  completes (sage_malloc_tagged 65536 (mk_env 0 None) 100 3 heap_static) (fun r =>
    (r = (0, heap_static) /\ (100 = 0 \/ no_fit (needed_of 100) [] /\ SAGE_ARENA_SIZE < sage_bump heap_static + needed_of 100)) \/
    (0 < 100 /\ exists bl', malloc_blocks 65536 heap_static [] (needed_of 100) 3 bl' r.1 /\
       alloc_effect 65536 heap_static r.2 [] bl' r.1 (needed_of 100) 3 /\
       forall n t, ~ live_at 65536 [] (r.1 - 16) n t)).
Proof.
  apply (malloc_refines 65536 (mk_env 0 None) heap_static [] 100 3 arena_65536);
    [apply empty_inv; [apply arena_65536|apply mem_zero_wf|reflexivity]|lia|done].
Defined.

(** C35: [sage_free] of a block in use removes exactly that block, merges it with
    the free blocks on both sides so that no two free blocks are adjacent, and
    changes no byte of any other block in use. *)
Theorem free_refines heap_base e h la n t lb :
  arena_ok heap_base -> heap_inv heap_base h (la ++ mk_block n (Some t) :: lb) ->
  completes (sage_free heap_base e (blocks_end heap_base la + 16) h) (fun h' =>
    heap_inv heap_base h' (absorb_prev la (absorb_next n lb)) /\
    (forall x k u, live_at heap_base (absorb_prev la (absorb_next n lb)) x k u <->
       live_at heap_base (la ++ mk_block n (Some t) :: lb) x k u /\ x <> blocks_end heap_base la) /\
    (forall x k u, live_at heap_base (absorb_prev la (absorb_next n lb)) x k u ->
       agree (h_mem h) (h_mem h') x k)).
Proof.
  intros Hb Hinv. eapply completes_mono; [by apply (free_ok heap_base Hb e h la _ lb Hinv)|].
  cbn [b_size]. intros h' (Hinv' & Hk1 & Hk2). split; [done|].
  destruct (inv_split _ _ _ _ _ Hinv) as (Hla & _ & Hlb & _ & Hn & _). cbn [b_size] in *.
  split; intros x k u; rewrite live_at_absorb.
  - rewrite live_at_app. cbn. split; [|naive_solver].
    intros [H|H]; [pose proof (live_at_range _ _ _ _ _ _ Hla H)|pose proof (live_at_range _ _ _ _ _ _ Hlb H)];
      (split; [tauto|lia]).
  - intros [H|H]; eauto.
Qed.

(** A heap with one block in use. *)
Lemma one_block_heap : exists h, heap_inv 65536 h [mk_block 128 (Some 3)] /\ sage_bump h = 128.
Proof.
  destruct (malloc_ok 65536 arena_65536 (mk_env 0 None) heap_static [] 100 3) as ([p h] & _ & Hr);
    [apply empty_inv; [apply arena_65536|apply mem_zero_wf|reflexivity]|lia|done|].
  destruct Hr as [(_ & _ & H)|(bl' & Hm & [Hinv _ _])]; [vm_compute in H; discriminate|].
  exists h. destruct Hm as [la b lb E|_ _]; [by destruct la|]. split; [done|].
  pose proof (inv_end _ _ _ Hinv) as He. cbn in He. change (needed_of 100) with 128 in He. lia.
Qed.

Lemma free_refines_witness : exists h,
  heap_inv 65536 h ([] ++ mk_block 128 (Some 3) :: []) /\
  completes (sage_free 65536 (mk_env 0 None) (blocks_end 65536 [] + 16) h) (fun h' =>
    heap_inv 65536 h' (absorb_prev [] (absorb_next 128 [])) /\
    (forall x k u, live_at 65536 (absorb_prev [] (absorb_next 128 [])) x k u <->
       live_at 65536 ([] ++ mk_block 128 (Some 3) :: []) x k u /\ x <> blocks_end 65536 []) /\
    (forall x k u, live_at 65536 (absorb_prev [] (absorb_next 128 [])) x k u ->
       agree (h_mem h) (h_mem h') x k)).
Proof.
  destruct one_block_heap as (h & Hh & _). exists h. split; [exact Hh|].
  apply (free_refines 65536 (mk_env 0 None) h [] 128 3 [] arena_65536 Hh).
Defined.

(** [sage_realloc] of a block in use returns a block of at least the new size
    whose first bytes are the old contents, with every other block in use
    untouched, or NULL with the heap unchanged and the old block still valid. *)
Theorem realloc_refines heap_base e h bl x n t new_size :
  arena_ok heap_base -> heap_inv heap_base h bl -> live_at heap_base bl x n t ->
  0 < new_size -> small new_size ->
  completes (sage_realloc heap_base e (x + 16) new_size h) (realloc_post heap_base h bl x n t new_size).
Proof. intros Hb. apply (realloc_ok heap_base Hb). Qed.

Lemma realloc_refines_witness : exists h,
  completes (sage_realloc 65536 (mk_env 0 None) (65536 + 16) 200 h)
    (realloc_post 65536 h [mk_block 128 (Some 3)] 65536 128 3 200).
Proof.
  destruct one_block_heap as (h & Hh & _). exists h.
  apply (realloc_refines 65536 (mk_env 0 None) h [mk_block 128 (Some 3)] 65536 128 3 200 arena_65536 Hh);
    [by left|lia|done].
Defined.

(** The size computation of [sage_malloc_tagged] wraps: a request of
    2^64 - 1 bytes on the empty heap succeeds and yields a block with no user
    bytes, and [sage_calloc] of 2^60 + 1 elements of 16 bytes is a request of
    16 bytes. *)
Theorem malloc_size_wraps heap_base e :
  arena_ok heap_base ->
  completes (sage_malloc heap_base e (2 ^ 64 - 1) heap_static) (fun r =>
    r.1 = heap_base + 16 /\ load64 (h_mem r.2) heap_base = 0 /\ sage_bump r.2 = 16) /\
  sage_calloc heap_base e (2 ^ 60 + 1) 16 heap_static = sage_malloc heap_base e 16 heap_static.
Proof.
  intros Hb. split; [|done]. assert (SAGE_ARENA_SIZE = 33554432) as HA by done.
  unfold sage_malloc, sage_malloc_tagged.
  change (2 ^ 64 - 1 =? 0) with false. change (ALIGN (u64 (2 ^ 64 - 1 + ALLOC_HEADER_SIZE))) with 16.
  assert (malloc_scan heap_base list_fuel 16 None (g_free_list heap_static) heap_static = Ret None) as ->
    by (by destruct list_fuel). cbn [mbind outcome_bind].
  rewrite bump_block_init by done. change (sage_bump heap_static) with 0. rewrite Z.add_0_r.
  change (u64 (0 + 16)) with 16. unfold init_block. change (u64 (16 - ALLOC_HEADER_SIZE)) with 0.
  rewrite st64_ok by lia. cbn [mbind outcome_bind]. rewrite st32_ok by lia. cbn [mbind outcome_bind].
  rewrite heap_memset_ok by (unfold ALLOC_HEADER_SIZE; lia). cbn [mbind outcome_bind].
  match goal with |- context [count_alloc ?t ?r ?h] =>
    destruct (count_alloc_ok t r h) as (s & -> & _); [reflexivity|] end.
  apply completes_Ret. cbn. split_and!; [done| |done].
  unfold load64. rewrite (load_agree 8 _ (store32 (store64 mem_zero heap_base 0) (heap_base + 8) 0))
    by (apply memset_agree; unfold disjoint_ranges, ALLOC_HEADER_SIZE; lia).
  unfold store32. rewrite load_store_ne by (unfold disjoint_ranges; lia). apply load64_store64.
Qed.

Lemma malloc_size_wraps_witness :
  completes (sage_malloc 65536 (mk_env 0 None) (2 ^ 64 - 1) heap_static) (fun r =>
    r.1 = 65536 + 16 /\ load64 (h_mem r.2) 65536 = 0 /\ sage_bump r.2 = 16) /\
  sage_calloc 65536 (mk_env 0 None) (2 ^ 60 + 1) 16 heap_static = sage_malloc 65536 (mk_env 0 None) 16 heap_static.
Proof. apply (malloc_size_wraps 65536 (mk_env 0 None) arena_65536). Defined.

End AllocSpec.
