(* ===== verification/Proc.v ===== *)
(** * Kernel code that gives up the processor

    A kernel routine runs on the stack of the thread that called it.  Between
    two context switches it runs alone (one processor, cooperative scheduling);
    at [thread_switch] other threads run and the routine continues with the
    state they leave.  [proc S A] is such a routine over the kernel state [S]:
    it ends with a value and a state, or gives up the processor and continues
    as a function of the state at its resumption. *)

From stdpp Require Import base tactics numbers.
From S2P Require Import Prelude.

Inductive proc (S A : Type) : Type :=
| PDone (a : A) (s : S)
| PSwitch (from to : Z) (s : S) (resume : S -> proc S A)
| PHalt (s : S)
| PFault
| PFuel.

Arguments PDone {S A} a s.
Arguments PSwitch {S A} from to s resume.
Arguments PHalt {S A} s.
Arguments PFault {S A}.
Arguments PFuel {S A}.

Fixpoint pbind {S A B} (m : proc S A) (f : A -> S -> proc S B) : proc S B :=
  match m with
  | PDone a s => f a s
  | PSwitch from to s k => PSwitch from to s (fun s' => pbind (k s') f)
  | PHalt s => PHalt s
  | PFault => PFault
  | PFuel => PFuel
  end.

(** Code that never switches. *)
Definition plift {S A} (m : outcome (A * S)) : proc S A :=
  match m with
  | Ret (a, s) => PDone a s
  | Fault => PFault
  | OutOfFuel => PFuel
  end.

(** [no_switch m a s]: the routine ends without giving up the processor. *)
Definition no_switch {S A} (m : proc S A) (P : A -> S -> Prop) : Prop :=
  exists a s, m = PDone a s /\ P a s.

(** Running a routine that gives up the processor [others] times at most; the
    other threads act as [env] says. *)
Fixpoint run {S A} (others : nat) (env : S -> S) (m : proc S A) : outcome (A * S) :=
  match m with
  | PDone a s => Ret (a, s)
  | PSwitch _ _ s k =>
      match others with
      | O => OutOfFuel
      | Datatypes.S n => run n env (k (env s))
      end
  | PHalt _ => OutOfFuel
  | PFault => Fault
  | PFuel => OutOfFuel
  end.

Lemma pbind_done {S A B} (a : A) (s : S) (f : A -> S -> proc S B) : pbind (PDone a s) f = f a s.
Proof. done. Qed.

Lemma no_switch_bind {S A B} (m : proc S A) (f : A -> S -> proc S B) P Q :
  no_switch m P -> (forall a s, P a s -> no_switch (f a s) Q) -> no_switch (pbind m f) Q.
Proof. intros (a & s & -> & H) Hf. by apply Hf. Qed.

(** [keeps I Q m]: if [I] holds whenever the routine gets the processor, then it
    holds whenever the routine gives it up, and at the end, with a result that
    satisfies [Q].  Other threads may do anything that keeps [I]. *)
Fixpoint keeps {S A} (I : S -> Prop) (Q : A -> Prop) (m : proc S A) : Prop :=
  match m with
  | PDone a s => Q a /\ I s
  | PSwitch _ _ s k => I s /\ forall s', I s' -> keeps I Q (k s')
  | PHalt _ | PFault | PFuel => True
  end.

Lemma keeps_bind {S A B} (I : S -> Prop) (Q : A -> Prop) (R : B -> Prop) (m : proc S A) f :
  keeps I Q m -> (forall a s, Q a -> I s -> keeps I R (f a s)) -> keeps I R (pbind m f).
Proof.
  intros Hm Hf. induction m as [a s|from to s k IH| | |]; cbn in *; try done.
  - destruct Hm. by apply Hf.
  - destruct Hm as [? Hk]. split; [done|]. intros s' Hs'. by apply IH, Hk.
Qed.

Lemma keeps_mono {S A} (I : S -> Prop) (Q R : A -> Prop) (m : proc S A) :
  keeps I Q m -> (forall a, Q a -> R a) -> keeps I R m.
Proof.
  intros Hm HQ. induction m as [a s|from to s k IH| | |]; cbn in *; try done.
  - destruct Hm. split; auto.
  - destruct Hm as [? Hk]. split; [done|]. intros s' Hs'. by apply IH, Hk.
Qed.

Lemma keeps_plift {S A} (I : S -> Prop) (Q : A -> Prop) (m : outcome (A * S)) :
  (forall a s, m = Ret (a, s) -> Q a /\ I s) -> keeps I Q (plift m).
Proof. intros H. destruct m as [[a s]| |]; cbn; [by apply H|done|done]. Qed.

(** A routine over a part [T] of the state, run inside the whole. *)
Fixpoint pzoom {S T A} (get : S -> T) (put : T -> S -> S) (m : proc T A) (s : S) : proc S A :=
  match m with
  | PDone a t => PDone a (put t s)
  | PSwitch from to t k => PSwitch from to (put t s) (fun s' => pzoom get put (k (get s')) s')
  | PHalt t => PHalt (put t s)
  | PFault => PFault
  | PFuel => PFuel
  end.
