(* ===== verification/Timer.v ===== *)
(** * Timer (kernel/core/sagelang/timer_bridge.c)

    The tick counter and the polled hardware timer of the three
    architectures.  What the hardware registers hold is input: [hw k] is what
    the [k]-th register access sees; [t_reads] counts the accesses.
    [ata_timer_tick] and [console_periodic_flip], called on every tick and on
    every fifth, are empty functions in this build (core/virtio.c,
    core/virt_console.c). *)

From stdpp Require Import base tactics numbers.
From S2P Require Import Prelude.

Module Timer.

(** ** Model *)

Inductive timer_arch := TIMER_ARCH_X86 | TIMER_ARCH_ARM64 | TIMER_ARCH_RV64.

(** Registers read: [cntfrq_el0]; [cntvct_el0], [rdtime] or [rdtsc];
    [cntv_ctl_el0]. *)
Record hw_regs := mk_hw { hw_freq : Z; hw_count : Z; hw_ctl : Z }.

Definition PIT_HZ : Z := 100.
Definition PIT_BASE_HZ : Z := 1193182.
Definition CNTV_ENABLE : Z := 1.
Definition CNTV_ISTATUS : Z := 4.

Record timer := mk_timer {
  g_timer_freq : Z;
  g_timer_interval : Z;
  g_ticks : Z;
  g_flip_counter : Z;
  g_next_tick_time : Z;
  g_boot_timer_count : Z;
  hw_cval : Z;              (* last value written to the compare register *)
  t_reads : nat
}.

Definition timer_static : timer := mk_timer 0 0 0 0 0 0 0 0.

Section timer.
Context (arch : timer_arch) (hw : nat -> hw_regs).

Definition reg_read (f : hw_regs -> Z) (t : timer) : Z * timer :=
  (u64 (f (hw (t_reads t))),
   mk_timer (g_timer_freq t) (g_timer_interval t) (g_ticks t) (g_flip_counter t)
     (g_next_tick_time t) (g_boot_timer_count t) (hw_cval t) (S (t_reads t))).

Definition arch_timer_freq (t : timer) : Z * timer :=
  match arch with
  | TIMER_ARCH_X86 => (1193182, t)
  | TIMER_ARCH_ARM64 => let '(v, t') := reg_read hw_freq t in (if v =? 0 then 62500000 else v, t')
  | TIMER_ARCH_RV64 => (10000000, t)
  end.

Definition arch_timer_count (t : timer) : Z * timer :=
  match arch with
  | TIMER_ARCH_X86 => (0, t)
  | _ => reg_read hw_count t
  end.

(** The counter used for time keeping: the time-stamp counter on x86. *)
Definition time_count (t : timer) : Z * timer := reg_read hw_count t.

Definition set_freq (v : Z) (t : timer) : timer :=
  mk_timer v (g_timer_interval t) (g_ticks t) (g_flip_counter t) (g_next_tick_time t)
    (g_boot_timer_count t) (hw_cval t) (t_reads t).
Definition set_interval (v : Z) (t : timer) : timer :=
  mk_timer (g_timer_freq t) v (g_ticks t) (g_flip_counter t) (g_next_tick_time t)
    (g_boot_timer_count t) (hw_cval t) (t_reads t).
Definition set_ticks (v : Z) (t : timer) : timer :=
  mk_timer (g_timer_freq t) (g_timer_interval t) v (g_flip_counter t) (g_next_tick_time t)
    (g_boot_timer_count t) (hw_cval t) (t_reads t).
Definition set_flip (v : Z) (t : timer) : timer :=
  mk_timer (g_timer_freq t) (g_timer_interval t) (g_ticks t) v (g_next_tick_time t)
    (g_boot_timer_count t) (hw_cval t) (t_reads t).
Definition set_next_tick (v : Z) (t : timer) : timer :=
  mk_timer (g_timer_freq t) (g_timer_interval t) (g_ticks t) (g_flip_counter t) v
    (g_boot_timer_count t) (hw_cval t) (t_reads t).
Definition set_boot (v : Z) (t : timer) : timer :=
  mk_timer (g_timer_freq t) (g_timer_interval t) (g_ticks t) (g_flip_counter t)
    (g_next_tick_time t) v (hw_cval t) (t_reads t).
Definition arch_timer_cval_write (v : Z) (t : timer) : timer :=
  mk_timer (g_timer_freq t) (g_timer_interval t) (g_ticks t) (g_flip_counter t)
    (g_next_tick_time t) (g_boot_timer_count t)
    (match arch with TIMER_ARCH_X86 => hw_cval t | _ => u64 v end) (t_reads t).

(** [if (g_boot_timer_count == 0) g_boot_timer_count = count;] *)
Definition init_boot_count (t : timer) : timer :=
  if g_boot_timer_count t =? 0 then let '(v, t') := time_count t in set_boot v t' else t.

Definition timer_init (t0 : timer) : timer :=
  let t := set_flip 0 (set_ticks 0 t0) in
  match arch with
  | TIMER_ARCH_X86 =>
      let t1 := init_boot_count t in
      let t2 := set_next_tick (u64 (g_boot_timer_count t1 + 20000000)) t1 in
      set_interval 0 (set_freq PIT_BASE_HZ t2)
  | TIMER_ARCH_ARM64 =>
      let '(f, t1) := arch_timer_freq t in
      let t2 := init_boot_count (set_freq (if f =? 0 then 62500000 else f) t1) in
      let t3 := set_interval (g_timer_freq t2 / PIT_HZ) t2 in
      arch_timer_cval_write (u64 (g_boot_timer_count t3 + g_timer_interval t3)) t3
  | TIMER_ARCH_RV64 =>
      let '(f, t1) := arch_timer_freq t in
      let t2 := init_boot_count (set_freq (if f =? 0 then 10000000 else f) t1) in
      let t3 := set_interval (g_timer_freq t2 / PIT_HZ) t2 in
      let t4 := set_next_tick (u64 (g_boot_timer_count t3 + g_timer_interval t3)) t3 in
      arch_timer_cval_write (g_next_tick_time t4) t4
  end.

(** The first part of [timer_irq]: count the tick and arm the next one. *)
Definition timer_irq_rearm (t0 : timer) : timer :=
  let t := set_ticks (u64 (g_ticks t0 + 1)) t0 in
  match arch with
  | TIMER_ARCH_ARM64 =>
      let '(c, t1) := arch_timer_count t in
      arch_timer_cval_write (u64 (c + g_timer_interval t1)) t1
  | TIMER_ARCH_RV64 =>
      let '(c, t1) := arch_timer_count t in
      let t2 := set_next_tick (u64 (c + g_timer_interval t1)) t1 in
      arch_timer_cval_write (g_next_tick_time t2) t2
  | TIMER_ARCH_X86 => t
  end.

(** [if (++g_flip_counter >= 5) { console_periodic_flip(); g_flip_counter = 0; }] *)
Definition timer_irq_flip (t : timer) : timer :=
  let c := u32 (g_flip_counter t + 1) in set_flip (if 5 <=? c then 0 else c) t.

(** The test of [timer_poll]: whether a tick is due, and the state after it. *)
Definition timer_due (t : timer) : bool * timer :=
  match arch with
  | TIMER_ARCH_ARM64 =>
      let '(v, t1) := reg_read hw_ctl t in (negb (Z.land v CNTV_ISTATUS =? 0), t1)
  | TIMER_ARCH_RV64 =>
      let '(c, t1) := arch_timer_count t in (g_next_tick_time t1 <=? c, t1)
  | TIMER_ARCH_X86 =>
      let '(c, t1) := time_count t in
      if g_next_tick_time t1 <=? c then (true, set_next_tick (u64 (c + 20000000)) t1) else (false, t1)
  end.

Definition timer_ticks (t : timer) : Z := g_ticks t.
Definition timer_seconds (t : timer) : Z := g_ticks t / PIT_HZ.

Definition timer_elapsed_centiseconds (t : timer) : outcome (Z * timer) :=
  let '(current, t1) := time_count t in
  if g_timer_freq t1 =? 0 then
    let '(f, t2) :=
      match arch with
      | TIMER_ARCH_X86 => (PIT_BASE_HZ, t1)
      | TIMER_ARCH_ARM64 => let '(f, t2) := arch_timer_freq t1 in (if f =? 0 then 62500000 else f, t2)
      | TIMER_ARCH_RV64 => let '(f, t2) := arch_timer_freq t1 in (if f =? 0 then 10000000 else f, t2)
      end in
    let t3 := set_freq f t2 in
    Ret (0, if g_boot_timer_count t3 =? 0 then set_boot current t3 else t3)
  else if current <? g_boot_timer_count t1 then Ret (0, t1)
  else Ret (u64 ((current - g_boot_timer_count t1) * 100) / g_timer_freq t1, t1).

End timer.

(** The pseudo load figures; the seed is a static variable of each function. *)
Definition timer_cpu_percent (seed : Z) : Z * Z :=
  let s := Z.land (u32 (seed * 1103515245 + 12345)) 2147483647 in (10 + s mod 20, s).
Definition timer_cpu_percent_at (cpu seed : Z) : Z * Z :=
  let s := Z.land (u32 (seed * 1103515245 + 12345 + cpu)) 2147483647 in (s mod 100, s).

(** ** Theorems *)

(** Frequency that [timer_init] records; the time-stamp counter of x86 is paired
    with the frequency of the interval timer. *)
Definition init_freq (arch : timer_arch) (hw : nat -> hw_regs) (t : timer) : Z :=
  match arch with
  | TIMER_ARCH_X86 => PIT_BASE_HZ
  | TIMER_ARCH_ARM64 => let f := u64 (hw_freq (hw (t_reads t))) in if f =? 0 then 62500000 else f
  | TIMER_ARCH_RV64 => 10000000
  end.

Lemma timer_init_freq arch hw t : g_timer_freq (timer_init arch hw t) = init_freq arch hw t.
Proof.
  unfold timer_init, init_boot_count, init_freq, arch_timer_freq, reg_read.
  destruct arch; cbn; repeat case_if; cbn; bool_to_prop; try done; lia.
Qed.

Lemma init_freq_pos arch hw t : 0 < init_freq arch hw t.
Proof.
  destruct arch; unfold init_freq, PIT_BASE_HZ; try lia.
  pose proof (u64_bound (hw_freq (hw (t_reads t)))). cbv zeta. case_if; bool_to_prop; lia.
Qed.

(** After [timer_init] a reading of the elapsed time is the progress of the
    hardware counter since boot, times 100, divided by the recorded frequency
    and rounded down, for every reading that has not wrapped; the frequency is
    never zero.  On x86 the counter is the time-stamp counter while the
    frequency is that of the interval timer (1193182 Hz). *)
Theorem elapsed_after_init arch hw t0 :
  let t := timer_init arch hw t0 in
  let count := u64 (hw_count (hw (t_reads t))) in
  g_boot_timer_count t <= count -> (count - g_boot_timer_count t) * 100 < 2 ^ 64 ->
  exists t', timer_elapsed_centiseconds arch hw t =
    Ret ((count - g_boot_timer_count t) * 100 / init_freq arch hw t0, t').
Proof.
  intros t count Hle Hov. pose proof (timer_init_freq arch hw t0) as Hf. fold t in Hf.
  pose proof (init_freq_pos arch hw t0).
  unfold timer_elapsed_centiseconds, time_count, reg_read. fold count. cbn [g_timer_freq g_boot_timer_count].
  destruct (Z.eqb_spec (g_timer_freq t) 0); [lia|].
  destruct (Z.ltb_spec count (g_boot_timer_count t)); [lia|].
  eexists. rewrite u64_small, Hf by lia. done.
Qed.

Lemma elapsed_after_init_witness :
  let hw := fun k => mk_hw 0 (5000 + 62500000 * Z.of_nat k) 0 in
  let t := timer_init TIMER_ARCH_RV64 hw timer_static in
  let count := u64 (hw_count (hw (t_reads t))) in
  exists t', timer_elapsed_centiseconds TIMER_ARCH_RV64 hw t =
    Ret ((count - g_boot_timer_count t) * 100 / init_freq TIMER_ARCH_RV64 hw timer_static, t').
Proof.
  intros hw. apply (elapsed_after_init TIMER_ARCH_RV64 hw timer_static); vm_compute; [discriminate|reflexivity].
Defined.

Lemma timer_cpu_percent_range seed : 10 <= (timer_cpu_percent seed).1 < 30.
Proof.
  set (s := Z.land (u32 (seed * 1103515245 + 12345)) 2147483647).
  change (10 <= 10 + s mod 20 < 30). pose proof (Z.mod_pos_bound s 20). lia.
Qed.

End Timer.
