(* ===== verification/Caps.v ===== *)
(** * Capabilities (kernel/include/ipc.h, include/scheduler_ipc_ext.h,
    core/scheduler_ipc_ext.c)

    The capability, the per-task capability table and the IPC extension of a
    thread.  The extensions live in a parallel array of 64 entries; the entry
    of a thread is found from its id modulo 64.  The locks of the tables make
    each operation on a table one step. *)

From stdpp Require Import base tactics numbers list.
From S2P Require Import Prelude.

Module Caps.

(** ** Model *)

Inductive ipc_obj_type :=
| IPC_OBJ_NONE | IPC_OBJ_ENDPOINT | IPC_OBJ_CHANNEL | IPC_OBJ_PORT | IPC_OBJ_SHARED_MEM
| IPC_OBJ_SIGNAL_SET | IPC_OBJ_MONITOR | IPC_OBJ_FILE | IPC_OBJ_DIR.

#[global] Instance ipc_obj_type_eq_dec : EqDecision ipc_obj_type.
Proof. solve_decision. Defined.

Inductive ipc_lifecycle_state :=
| IPC_STATE_CONSTRUCTED | IPC_STATE_ACTIVE | IPC_STATE_PAUSED | IPC_STATE_DRAINING | IPC_STATE_DEAD.

#[global] Instance ipc_lifecycle_state_eq_dec : EqDecision ipc_lifecycle_state.
Proof. solve_decision. Defined.

Definition IPC_CAP_MAX_PER_TASK : Z := 64.
Definition IPC_CAP_RIGHT_SEND : Z := 1.
Definition IPC_CAP_RIGHT_RECV : Z := 2.
Definition IPC_CAP_RIGHT_CALL : Z := 4.
Definition IPC_CAP_RIGHT_MAP : Z := 8.
Definition IPC_CAP_RIGHT_DUP : Z := 16.
Definition IPC_CAP_RIGHT_REVOKE : Z := 32.
Definition IPC_CAP_RIGHT_VFS_READ : Z := 64.
Definition IPC_CAP_RIGHT_VFS_WRITE : Z := 128.
Definition IPC_CAP_RIGHTS_ALL : Z := 255.
Definition IPC_CAPF_IMMUTABLE : Z := 2.

Definition SCHED_MAX_THREADS : Z := 64.

Record capability := mk_cap {
  rights : Z;
  object_type : ipc_obj_type;
  object_id : Z;
  ref_count : Z;
  owner_task : Z;
  flags : Z;
  path : list Z
}.

Definition with_rights (x : Z) (c : capability) : capability :=
  mk_cap x (object_type c) (object_id c) (ref_count c) (owner_task c) (flags c) (path c).
Definition with_object_type (x : ipc_obj_type) (c : capability) : capability :=
  mk_cap (rights c) x (object_id c) (ref_count c) (owner_task c) (flags c) (path c).
Definition with_ref_count (x : Z) (c : capability) : capability :=
  mk_cap (rights c) (object_type c) (object_id c) x (owner_task c) (flags c) (path c).
Definition with_owner_task (x : Z) (c : capability) : capability :=
  mk_cap (rights c) (object_type c) (object_id c) (ref_count c) x (flags c) (path c).

Record table := mk_table {
  caps : list capability;
  next_free : Z
}.

Definition with_caps (x : list capability) (t : table) : table :=
  mk_table x (next_free t).

Record extension := mk_ext {
  cap_table : table;
  ipc_wait_next : option Z;
  ipc_wait_prev : option Z;
  rpc_reply_cap : Z;
  rpc_timeout_tick : Z;
  signal_pending : Z;
  signal_mask : Z;
  ipc_msgs_sent : Z;
  ipc_msgs_recv : Z;
  ipc_bytes_tx : Z;
  ipc_bytes_rx : Z;
  ipc_rpc_count : Z;
  ipc_rpc_latency_sum : Z
}.

Definition with_cap_table (x : table) (e : extension) : extension :=
  mk_ext x (ipc_wait_next e) (ipc_wait_prev e) (rpc_reply_cap e) (rpc_timeout_tick e)
    (signal_pending e) (signal_mask e) (ipc_msgs_sent e) (ipc_msgs_recv e) (ipc_bytes_tx e)
    (ipc_bytes_rx e) (ipc_rpc_count e) (ipc_rpc_latency_sum e).
Definition with_waits (nx pv : option Z) (e : extension) : extension :=
  mk_ext (cap_table e) nx pv (rpc_reply_cap e) (rpc_timeout_tick e)
    (signal_pending e) (signal_mask e) (ipc_msgs_sent e) (ipc_msgs_recv e) (ipc_bytes_tx e)
    (ipc_bytes_rx e) (ipc_rpc_count e) (ipc_rpc_latency_sum e).

(** All-zero values, as [memset] leaves them. *)
Definition cap_zero : capability := mk_cap 0 IPC_OBJ_NONE 0 0 0 0 [].
Definition table_zero : table := mk_table (replicate (Z.to_nat IPC_CAP_MAX_PER_TASK) cap_zero) 0.
Definition ext_zero : extension := mk_ext table_zero None None 0 0 0 0 0 0 0 0 0 0.

Definition ipc_cap_has_right (c : capability) (right : Z) : bool := negb (Z.land (rights c) right =? 0).

Definition ipc_cap_is_valid (c : capability) : bool :=
  bool_decide (object_type c <> IPC_OBJ_NONE) && (0 <? ref_count c).

(** The first slot without an object from index [i], [n] slots to look at. *)
Fixpoint alloc_slot_from (n : nat) (i : Z) (tab : table) : outcome (option Z) :=
  match n with
  | O => Ret None
  | S m =>
      c ← rd (caps tab) i;
      if bool_decide (object_type c = IPC_OBJ_NONE) then Ret (Some i) else alloc_slot_from m (i + 1) tab
  end.

(** [Some handle] on success, [None] for ENOSPC; the slot is not marked. *)
Definition ipc_cap_alloc_slot (tab : table) : outcome (option Z) :=
  alloc_slot_from (Z.to_nat IPC_CAP_MAX_PER_TASK) 0 tab.

Definition ipc_cap_free_slot (tab : table) (handle : Z) : outcome table :=
  if IPC_CAP_MAX_PER_TASK <=? handle then Ret tab
  else cs ← wr (caps tab) handle cap_zero; Ret (with_caps cs tab).

(** Store a capability at a handle. *)
Definition set_cap (tab : table) (handle : Z) (c : capability) : outcome table :=
  cs ← wr (caps tab) handle c; Ret (with_caps cs tab).

(** The extension array [g_thread_ipc_ext]; [thread_ipc_ext(t)] and
    [task_ipc_cap_table(t)] for a thread with id [id]. *)
Definition ext_index (id : Z) : Z := id mod SCHED_MAX_THREADS.

Definition task_ipc_cap_table (id : Z) (exts : list extension) : outcome table :=
  e ← rd exts (ext_index id); Ret (cap_table e).

Definition set_cap_table (id : Z) (tab : table) (exts : list extension) : outcome (list extension) :=
  e ← rd exts (ext_index id); wr exts (ext_index id) (with_cap_table tab e).

(** The capability for the root directory that every thread starts with. *)
Definition root_dir_cap : capability :=
  mk_cap (Z.lor IPC_CAP_RIGHT_VFS_READ IPC_CAP_RIGHT_VFS_WRITE) IPC_OBJ_DIR 0 1 0 0 [47].

Definition sched_ipc_init_thread (id : Z) (exts : list extension) : outcome (list extension) :=
  wr exts (ext_index id)
    (mk_ext (mk_table ((caps table_zero).[0 <- root_dir_cap]) 1) None None
      (u32 (-1)) 0 0 (u64 (Z.lnot 0)) 0 0 0 0 0 0).

(** ** Lemmas *)

Definition table_ok (tab : table) : Prop := zlen (caps tab) = IPC_CAP_MAX_PER_TASK.

(** What a slot search promises. *)
Definition slot_spec (tab : table) (i : Z) (r : option Z) : Prop :=
  match r with
  | Some h => i <= h < IPC_CAP_MAX_PER_TASK /\
      (exists c, (caps tab).[h] = Some c /\ object_type c = IPC_OBJ_NONE) /\
      (forall j c, i <= j < h -> (caps tab).[j] = Some c -> object_type c <> IPC_OBJ_NONE)
  | None => forall j c, i <= j < IPC_CAP_MAX_PER_TASK -> (caps tab).[j] = Some c -> object_type c <> IPC_OBJ_NONE
  end.

Lemma alloc_slot_from_ok n i tab :
  table_ok tab -> 0 <= i -> i + Z.of_nat n = IPC_CAP_MAX_PER_TASK ->
  completes (alloc_slot_from n i tab) (slot_spec tab i).
Proof.
  unfold table_ok. intros Ht. revert i. induction n as [|n IH]; intros i Hi Hn.
  - apply completes_Ret. intros j c Hj. lia.
  - cbn [alloc_slot_from]. destruct (rd_in_range (caps tab) i) as (c & -> & Hc); [lia|].
    cbn [mbind outcome_bind]. destruct (bool_decide_reflect (object_type c = IPC_OBJ_NONE)) as [Hn0|Hn0].
    + apply completes_Ret. split_and!; [lia|lia|by exists c|]. intros j c' Hj. lia.
    + eapply completes_mono; [apply IH; lia|]. intros [h|] Hr; cbn in Hr |- *.
      * destruct Hr as (? & ? & Hr). split_and!; [lia|lia|done|]. intros j c' Hj Hc'.
        destruct (decide (i = j)) as [->|]; [congruence|]. apply (Hr j); [lia|done].
      * intros j c' Hj Hc'. destruct (decide (i = j)) as [->|]; [congruence|]. apply (Hr j); [lia|done].
Qed.

Lemma ipc_cap_alloc_slot_ok tab :
  table_ok tab -> completes (ipc_cap_alloc_slot tab) (slot_spec tab 0).
Proof. intros. by apply alloc_slot_from_ok. Qed.

Lemma set_cap_ok tab h c :
  table_ok tab -> 0 <= h < IPC_CAP_MAX_PER_TASK ->
  set_cap tab h c = Ret (with_caps ((caps tab).[h <- c]) tab) /\ table_ok (with_caps ((caps tab).[h <- c]) tab).
Proof.
  unfold table_ok. intros Ht Hh. unfold set_cap. rewrite wr_in_range by lia.
  split; [done|]. cbn. by rewrite zlen_zset.
Qed.

Lemma ext_index_range id : 0 <= ext_index id < SCHED_MAX_THREADS.
Proof. apply Z.mod_pos_bound. done. Qed.

Definition exts_ok (exts : list extension) : Prop :=
  zlen exts = SCHED_MAX_THREADS /\ forall i e, exts.[i] = Some e -> table_ok (cap_table e).

Lemma task_ipc_cap_table_ok id exts :
  exts_ok exts -> completes (task_ipc_cap_table id exts) table_ok.
Proof.
  intros [Hl Ht]. unfold task_ipc_cap_table. pose proof (ext_index_range id).
  destruct (rd_in_range exts (ext_index id)) as (e & -> & He); [lia|].
  apply completes_Ret. by eapply Ht.
Qed.

Lemma set_cap_table_ok id tab exts :
  exts_ok exts -> table_ok tab ->
  completes (set_cap_table id tab exts) (fun exts' =>
    exts_ok exts' /\ task_ipc_cap_table id exts' = Ret tab /\
    forall id', ext_index id' <> ext_index id ->
      task_ipc_cap_table id' exts' = task_ipc_cap_table id' exts).
Proof.
  intros [Hl Ht] Htab. unfold set_cap_table, task_ipc_cap_table. pose proof (ext_index_range id).
  destruct (rd_in_range exts (ext_index id)) as (e & -> & He); [lia|]. cbn [mbind outcome_bind].
  rewrite wr_in_range by lia. apply completes_Ret. split; [split|split].
  - by rewrite zlen_zset.
  - intros i e'. rewrite zget_zset. case_if; [by intros [= <-]|by apply Ht].
  - unfold rd. rewrite zget_zset_eq by lia. done.
  - intros id' Hne. unfold rd. by rewrite zget_zset_ne.
Qed.

Lemma sched_ipc_init_thread_ok id exts :
  exts_ok exts ->
  completes (sched_ipc_init_thread id exts) (fun exts' => exts_ok exts' /\
    exists tab, task_ipc_cap_table id exts' = Ret tab /\
      (caps tab).[0] = Some root_dir_cap /\
      forall h, 0 < h < IPC_CAP_MAX_PER_TASK -> (caps tab).[h] = Some cap_zero).
Proof.
  intros [Hl Ht]. unfold sched_ipc_init_thread. pose proof (ext_index_range id).
  rewrite wr_in_range by lia. apply completes_Ret. split; [split|].
  - by rewrite zlen_zset.
  - intros i e'. rewrite zget_zset. case_if; [by intros [= <-]|by apply Ht].
  - eexists. unfold task_ipc_cap_table, rd. rewrite zget_zset_eq by lia. split; [done|]. cbn [cap_table caps].
    split; [done|]. intros h Hh. rewrite zget_zset_ne by lia.
    unfold table_zero. cbn [caps]. apply zget_replicate. rewrite Z2Nat.id by done. lia.
Qed.

End Caps.
