(* ===== verification/Sched.v ===== *)
(** * Threads and scheduling (kernel/core/scheduler.c, include/scheduler.h)

    The task table, thread creation, the round-robin scheduler, blocking and
    the watchdog, together with the tick handler of timer_bridge.c, which calls
    into the scheduler and is called from its idle loop.  A thread pointer is an
    index into [g_tasks].  [thread_switch] is assembly outside this tree; a call
    of it is a [PSwitch] (Proc).  The state carries everything these routines
    touch: the thread table, the IPC extensions, the timer and the heap with
    the trace buffer. *)

From stdpp Require Import base tactics numbers list option.
From S2P Require Import Prelude Proc Telemetry CMem Alloc Timer Caps.

Module Sched.
Import Telemetry Alloc Timer Caps.

(** ** Model *)

Inductive thread_state :=
| THREAD_STATE_UNUSED | THREAD_STATE_READY | THREAD_STATE_RUNNING
| THREAD_STATE_SLEEPING | THREAD_STATE_BLOCKED | THREAD_STATE_TERMINATED.

#[global] Instance thread_state_eq_dec : EqDecision thread_state.
Proof. solve_decision. Defined.

Inductive thread_priority :=
| THREAD_PRIORITY_LOW | THREAD_PRIORITY_NORMAL | THREAD_PRIORITY_HIGH | THREAD_PRIORITY_CRITICAL.

Definition MAX_TASKS : Z := 128.
Definition MAX_FD : Z := 32.
Definition SCHED_STACK_SIZE : Z := 65536.
Definition WATCHDOG_TIMEOUT_TICKS : Z := 500.

Record fd_entry := mk_fd {
  fd_valid : Z;
  vfs_handle : Z;
  fd_path : list Z;
  fd_flags : Z;
  fd_offset : Z
}.

Record accounting := mk_acct {
  runtime_ticks : Z;
  vruntime : Z;
  last_started_tick : Z;
  slice_started_tick : Z;
  wake_tick : Z;
  cpu_affinity : Z;
  thread_cpu : Z;
  time_slice_ticks : Z;
  on_run_queue : Z;
  is_idle : Z
}.

Record thread := mk_thread {
  id : Z;
  state : thread_state;
  priority : thread_priority;
  acct : accounting;
  stack_base : Z;
  stack_top : Z;
  rsp : Z;
  next : option Z;
  prev : option Z;
  entry : Z;
  arg : Z;
  name : list Z;
  fd_table : list fd_entry;
  heap_end : Z;
  heap_start : Z;
  heap_limit : Z;
  parent : option Z;
  cwd : list Z;
  elf_base : Z;
  elf_size : Z;
  saved_elf_data : Z;
  exit_code : Z;
  permissions : Z;
  language_state : Z
}.

Definition with_state (x : thread_state) (t : thread) : thread :=
  mk_thread (id t) x (priority t) (acct t) (stack_base t) (stack_top t) (rsp t) (next t) (prev t)
    (entry t) (arg t) (name t) (fd_table t) (heap_end t) (heap_start t) (heap_limit t) (parent t)
    (cwd t) (elf_base t) (elf_size t) (saved_elf_data t) (exit_code t) (permissions t)
    (language_state t).
Definition with_next (x : option Z) (t : thread) : thread :=
  mk_thread (id t) (state t) (priority t) (acct t) (stack_base t) (stack_top t) (rsp t) x (prev t)
    (entry t) (arg t) (name t) (fd_table t) (heap_end t) (heap_start t) (heap_limit t) (parent t)
    (cwd t) (elf_base t) (elf_size t) (saved_elf_data t) (exit_code t) (permissions t)
    (language_state t).
Definition with_fd_table (x : list fd_entry) (t : thread) : thread :=
  mk_thread (id t) (state t) (priority t) (acct t) (stack_base t) (stack_top t) (rsp t) (next t)
    (prev t) (entry t) (arg t) (name t) x (heap_end t) (heap_start t) (heap_limit t) (parent t)
    (cwd t) (elf_base t) (elf_size t) (saved_elf_data t) (exit_code t) (permissions t)
    (language_state t).
Definition with_heap_end (x : Z) (t : thread) : thread :=
  mk_thread (id t) (state t) (priority t) (acct t) (stack_base t) (stack_top t) (rsp t) (next t)
    (prev t) (entry t) (arg t) (name t) (fd_table t) x (heap_start t) (heap_limit t) (parent t)
    (cwd t) (elf_base t) (elf_size t) (saved_elf_data t) (exit_code t) (permissions t)
    (language_state t).
Definition with_parent (x : option Z) (t : thread) : thread :=
  mk_thread (id t) (state t) (priority t) (acct t) (stack_base t) (stack_top t) (rsp t) (next t)
    (prev t) (entry t) (arg t) (name t) (fd_table t) (heap_end t) (heap_start t) (heap_limit t) x
    (cwd t) (elf_base t) (elf_size t) (saved_elf_data t) (exit_code t) (permissions t)
    (language_state t).
Definition with_cwd (x : list Z) (t : thread) : thread :=
  mk_thread (id t) (state t) (priority t) (acct t) (stack_base t) (stack_top t) (rsp t) (next t)
    (prev t) (entry t) (arg t) (name t) (fd_table t) (heap_end t) (heap_start t) (heap_limit t)
    (parent t) x (elf_base t) (elf_size t) (saved_elf_data t) (exit_code t) (permissions t)
    (language_state t).
Definition with_exit_code (x : Z) (t : thread) : thread :=
  mk_thread (id t) (state t) (priority t) (acct t) (stack_base t) (stack_top t) (rsp t) (next t)
    (prev t) (entry t) (arg t) (name t) (fd_table t) (heap_end t) (heap_start t) (heap_limit t)
    (parent t) (cwd t) (elf_base t) (elf_size t) (saved_elf_data t) x (permissions t)
    (language_state t).

Definition fd_zero : fd_entry := mk_fd 0 0 [] 0 0.
Definition acct_zero : accounting := mk_acct 0 0 0 0 0 0 0 0 0 0.
Definition thread_zero : thread :=
  mk_thread 0 THREAD_STATE_UNUSED THREAD_PRIORITY_LOW acct_zero 0 0 0 None None 0 0 []
    (replicate (Z.to_nat MAX_FD) fd_zero) 0 0 0 None [] 0 0 0 0 0 0.

Record kstate := mk_k {
  g_tasks : list thread;
  g_current_task : option Z;
  g_sched_inited : Z;
  g_watchdog_counter : Z;
  g_next_pid : Z;
  in_sched : Z;
  last_counter : Z;
  ticks_since_update : Z;
  g_thread_ipc_ext : list extension;
  k_timer : timer;
  k_heap : heap
}.

Definition with_g_tasks (x : list thread) (k : kstate) : kstate :=
  mk_k x (g_current_task k) (g_sched_inited k) (g_watchdog_counter k) (g_next_pid k) (in_sched k)
    (last_counter k) (ticks_since_update k) (g_thread_ipc_ext k) (k_timer k) (k_heap k).
Definition with_g_current_task (x : option Z) (k : kstate) : kstate :=
  mk_k (g_tasks k) x (g_sched_inited k) (g_watchdog_counter k) (g_next_pid k) (in_sched k)
    (last_counter k) (ticks_since_update k) (g_thread_ipc_ext k) (k_timer k) (k_heap k).
Definition with_g_sched_inited (x : Z) (k : kstate) : kstate :=
  mk_k (g_tasks k) (g_current_task k) x (g_watchdog_counter k) (g_next_pid k) (in_sched k)
    (last_counter k) (ticks_since_update k) (g_thread_ipc_ext k) (k_timer k) (k_heap k).
Definition with_g_watchdog_counter (x : Z) (k : kstate) : kstate :=
  mk_k (g_tasks k) (g_current_task k) (g_sched_inited k) x (g_next_pid k) (in_sched k)
    (last_counter k) (ticks_since_update k) (g_thread_ipc_ext k) (k_timer k) (k_heap k).
Definition with_g_next_pid (x : Z) (k : kstate) : kstate :=
  mk_k (g_tasks k) (g_current_task k) (g_sched_inited k) (g_watchdog_counter k) x (in_sched k)
    (last_counter k) (ticks_since_update k) (g_thread_ipc_ext k) (k_timer k) (k_heap k).
Definition with_in_sched (x : Z) (k : kstate) : kstate :=
  mk_k (g_tasks k) (g_current_task k) (g_sched_inited k) (g_watchdog_counter k) (g_next_pid k) x
    (last_counter k) (ticks_since_update k) (g_thread_ipc_ext k) (k_timer k) (k_heap k).
Definition with_g_thread_ipc_ext (x : list extension) (k : kstate) : kstate :=
  mk_k (g_tasks k) (g_current_task k) (g_sched_inited k) (g_watchdog_counter k) (g_next_pid k)
    (in_sched k) (last_counter k) (ticks_since_update k) x (k_timer k) (k_heap k).
Definition with_k_timer (x : timer) (k : kstate) : kstate :=
  mk_k (g_tasks k) (g_current_task k) (g_sched_inited k) (g_watchdog_counter k) (g_next_pid k)
    (in_sched k) (last_counter k) (ticks_since_update k) (g_thread_ipc_ext k) x (k_heap k).
Definition with_k_heap (x : heap) (k : kstate) : kstate :=
  mk_k (g_tasks k) (g_current_task k) (g_sched_inited k) (g_watchdog_counter k) (g_next_pid k)
    (in_sched k) (last_counter k) (ticks_since_update k) (g_thread_ipc_ext k) (k_timer k) x.

(** Watchdog bookkeeping of [sched_timer_tick]. *)
Definition with_watch (c n : Z) (k : kstate) : kstate :=
  mk_k (g_tasks k) (g_current_task k) (g_sched_inited k) (g_watchdog_counter k) (g_next_pid k)
    (in_sched k) c n (g_thread_ipc_ext k) (k_timer k) (k_heap k).

Definition kstate_static : kstate :=
  mk_k (replicate (Z.to_nat MAX_TASKS) thread_zero) None 0 0 1 0 0 0
    (replicate (Z.to_nat SCHED_MAX_THREADS) ext_zero) timer_static heap_static.

Definition set_thread_state (i : Z) (st : thread_state) (s : kstate) : outcome kstate :=
  t ← rd (g_tasks s) i; ts ← wr (g_tasks s) i (with_state st t); Ret (with_g_tasks ts s).

Definition sched_watchdog_update (s : kstate) : kstate :=
  with_g_watchdog_counter (u64 (g_watchdog_counter s + 1)) s.

Section sched.
Context (arch : timer_arch) (hw : nat -> hw_regs).
(** Addresses fixed by the linker: the heap, the boot stack, the code that a new
    thread starts in. *)
Context (heap_base stack_bottom sched_trampoline : Z).

(** "idle" *)
Definition idle_thread : thread :=
  mk_thread 0 THREAD_STATE_RUNNING THREAD_PRIORITY_LOW acct_zero stack_bottom (stack_bottom + 16384) 0
    None None 0 0 [105; 100; 108; 101] (replicate (Z.to_nat MAX_FD) fd_zero) 0 0 0 None [47] 0 0 0 0 0 0.

Definition sched_init (s : kstate) : outcome kstate :=
  exts ← sched_ipc_init_thread 0 (g_thread_ipc_ext s);
  Ret (with_g_sched_inited 1 (with_g_current_task (Some 0) (with_g_thread_ipc_ext exts
    (with_g_tasks ((replicate (Z.to_nat MAX_TASKS) thread_zero).[0 <- idle_thread]) s)))).

Definition sched_current_thread (s : kstate) : outcome (option Z * kstate) :=
  s' ← (if g_sched_inited s =? 0 then sched_init s else Ret s);
  Ret (g_current_task s', s').

(** The id of the thread at index [i], [None] for NULL. *)
Definition thread_id (i : option Z) (s : kstate) : outcome (option Z) :=
  match i with
  | None => Ret None
  | Some j => t ← rd (g_tasks s) j; Ret (Some (id t))
  end.

(** [trace_log] with its readings of the tick counter and the current thread. *)
Definition k_trace_log (ev : trace_event) (a1 a2 : Z) (s : kstate) : outcome kstate :=
  '(cur, s1) ← sched_current_thread s;
  cid ← thread_id cur s1;
  Ret (with_k_heap (heap_trace_log (mk_env (timer_ticks (k_timer s1)) cid) ev a1 a2 (k_heap s1)) s1).

Definition k_env (s : kstate) : outcome env :=
  cid ← thread_id (g_current_task s) s; Ret (mk_env (timer_ticks (k_timer s)) cid).

(** First index with state [st], [n] entries from [i]. *)
Fixpoint find_state (n : nat) (i : Z) (st : thread_state) (ts : list thread) : outcome (option Z) :=
  match n with
  | O => Ret None
  | S m =>
      t ← rd ts i;
      if bool_decide (state t = st) then Ret (Some i) else find_state m (i + 1) st ts
  end.

(** The words stored at the top of a new stack, as (index, value) from [sp], and
    the number of words reserved. *)
Definition initial_frame : Z * list (Z * Z) :=
  match arch with
  | TIMER_ARCH_ARM64 => (12, [(11, sched_trampoline)])
  | TIMER_ARCH_X86 => (8, [(6, sched_trampoline); (7, 0)])
  | TIMER_ARCH_RV64 => (14, [(13, sched_trampoline)])
  end.

Fixpoint store_frame (sp : Z) (ws : list (Z * Z)) (h : heap) : outcome heap :=
  match ws with
  | [] => Ret h
  | (i, v) :: r => h' ← st64 heap_base (sp + 8 * i) v h; store_frame sp r h'
  end.

(** Does [sage_malloc] of [size] bytes write an entry to the trace?  It does when it
    extends the used part of the arena. *)
Definition malloc_traces (size : Z) (h : heap) : outcome bool :=
  if size =? 0 then Ret false
  else
    let needed := ALIGN (u64 (size + ALLOC_HEADER_SIZE)) in
    r ← malloc_scan heap_base list_fuel needed None (g_free_list h) h;
    Ret (match r with Some _ => false | None => negb (SAGE_ARENA_SIZE <? u64 (sage_bump h + needed)) end).

(** [sage_malloc] with its effect on the threads: the entry of the trace asks for the
    current thread, which initialises the scheduler if that has not been done. *)
Definition k_malloc (size : Z) (s : kstate) : outcome (Z * kstate) :=
  tr ← malloc_traces size (k_heap s);
  '(_, s1) ← (if (tr : bool) then sched_current_thread s else Ret (None, s));
  e ← k_env s1;
  '(p, h) ← sage_malloc heap_base e size (k_heap s1);
  Ret (p, with_k_heap h s1).

(** The thread as [sched_create_thread] fills it in before it has a stack. *)
Definition new_thread (pid : Z) (nm : list Z) (ent a : Z) (prio : thread_priority) : thread :=
  mk_thread pid THREAD_STATE_READY prio acct_zero 0 0 0 None None ent a (take 31 nm)
    (replicate (Z.to_nat MAX_FD) fd_zero) 0 0 0 None [47] 0 0 0 0 0 0.

Definition with_stack (base top sp : Z) (t : thread) : thread :=
  mk_thread (id t) (state t) (priority t) (acct t) base top sp (next t) (prev t) (entry t) (arg t) (name t)
    (fd_table t) (heap_end t) (heap_start t) (heap_limit t) (parent t) (cwd t) (elf_base t) (elf_size t) (saved_elf_data t)
    (exit_code t) (permissions t) (language_state t).

(** Returns the index of the new thread, [None] for NULL. *)
Definition sched_create_thread (nm : list Z) (ent a : Z) (prio : thread_priority) (s : kstate)
  : outcome (option Z * kstate) :=
  slot ← find_state (Z.to_nat MAX_TASKS) 0 THREAD_STATE_UNUSED (g_tasks s);
  match slot with
  | None => Ret (None, s)
  | Some i =>
      let pid := g_next_pid s in
      ts ← wr (g_tasks s) i (new_thread pid nm ent a prio);
      exts ← sched_ipc_init_thread pid (g_thread_ipc_ext s);
      '(base, s1) ← k_malloc SCHED_STACK_SIZE (with_g_tasks ts (with_g_thread_ipc_ext exts (with_g_next_pid (u32 (pid + 1)) s)));
      let top := u64 (base + SCHED_STACK_SIZE) in
      let sp := top - 8 * initial_frame.1 in
      h ← store_frame sp initial_frame.2 (k_heap s1);
      t ← rd (g_tasks s1) i;
      ts1 ← wr (g_tasks s1) i (with_stack base top sp t);
      Ret (Some i, with_k_heap h (with_g_tasks ts1 s1))
  end.

Definition runnable (t : thread) : bool :=
  bool_decide (state t = THREAD_STATE_READY) || bool_decide (state t = THREAD_STATE_RUNNING).

(** [for (i = 1; i <= MAX_TASKS; i++)]: [n] iterations from [i]. *)
Fixpoint next_runnable (n : nat) (cur i : Z) (ts : list thread) : outcome (option Z) :=
  match n with
  | O => Ret None
  | S m =>
      let idx := (cur + i) mod MAX_TASKS in
      t ← rd ts idx;
      if runnable t then Ret (Some idx) else next_runnable m cur (i + 1) ts
  end.

Definition pick_next (s : kstate) : outcome (option Z) :=
  let cur := match g_current_task s with Some c => c | None => 0 end in
  next_runnable (Z.to_nat MAX_TASKS) cur 1 (g_tasks s).

(** The switch to [nxt], after the scan. *)
Definition sched_switch (nxt : Z) (s : kstate) : proc kstate unit :=
  match g_current_task s with
  | Some c =>
      if c =? nxt then PDone tt (with_in_sched 0 s)
      else
        match
          (tp ← rd (g_tasks s) c;
           tn ← rd (g_tasks s) nxt;
           s1 ← k_trace_log TRACE_SCHED_SWITCH (id tp) (id tn) s;
           s2 ← (if bool_decide (state tp = THREAD_STATE_RUNNING)
                 then set_thread_state c THREAD_STATE_READY s1 else Ret s1);
           s3 ← set_thread_state nxt THREAD_STATE_RUNNING s2;
           Ret (with_in_sched 0 (with_g_current_task (Some nxt) s3)))
        with
        | Ret s' => PSwitch c nxt s' (fun s'' => PDone tt s'')
        | Fault => PFault
        | OutOfFuel => PFuel
        end
  | None => PFault
  end.

(** [sched_schedule] with [pick] for its loop. *)
Definition schedule_with (pick : kstate -> proc kstate Z) (s : kstate) : proc kstate unit :=
  if g_sched_inited s =? 0 then PDone tt s
  else if negb (in_sched s =? 0) then PDone tt s
  else pbind (pick (with_in_sched 1 s)) sched_switch.

(** [sched_timer_tick], calling [yield] for [sched_yield]; [kernel_panic] halts. *)
Definition timer_tick_with (yield : kstate -> proc kstate unit) (s : kstate) : proc kstate unit :=
  if g_watchdog_counter s =? last_counter s then
    let n := u64 (ticks_since_update s + 1) in
    let s1 := with_watch (last_counter s) n s in
    if WATCHDOG_TIMEOUT_TICKS <? n then PHalt s1 else yield s1
  else yield (with_watch (g_watchdog_counter s) 0 s).

(** The trace entries of every hundredth tick. *)
Definition tick_trace (s : kstate) : outcome kstate :=
  if g_ticks (k_timer s) mod 100 =? 0 then
    s1 ← k_trace_log TRACE_TIMER_TICK (g_ticks (k_timer s)) 0 s;
    st ← sage_alloc_stats ALLOC_TAG_PARSER (k_heap s1);
    k_trace_log TRACE_ALLOC_STATS (alloc_count st) (bytes_total st) s1
  else Ret s.

Definition timer_irq_with (yield : kstate -> proc kstate unit) (s : kstate) : proc kstate unit :=
  let s1 := with_k_timer (timer_irq_rearm arch hw (k_timer s)) s in
  pbind (timer_tick_with yield s1) (fun _ s2 =>
    plift (s3 ← tick_trace s2; Ret (tt, with_k_timer (timer_irq_flip (k_timer s3)) s3))).

Definition timer_poll_with (yield : kstate -> proc kstate unit) (s : kstate) : proc kstate unit :=
  let '(due, t) := timer_due arch hw (k_timer s) in
  let s1 := with_k_timer t s in
  if due then timer_irq_with yield s1 else PDone tt s1.

(** The loop of [sched_schedule]: scan, and poll the timer while nothing can
    run.  A tick during the loop calls [sched_yield] again. *)
Fixpoint sched_pick (fuel : nat) (s : kstate) : proc kstate Z :=
  match pick_next s with
  | Ret (Some nxt) => PDone nxt s
  | Ret None =>
      match fuel with
      | O => PFuel
      | S n =>
          pbind (timer_poll_with (schedule_with (sched_pick n)) (sched_watchdog_update s))
            (fun _ s' => sched_pick n s')
      end
  | Fault => PFault
  | OutOfFuel => PFuel
  end.

Definition sched_schedule (fuel : nat) : kstate -> proc kstate unit := schedule_with (sched_pick fuel).
Definition sched_yield (fuel : nat) : kstate -> proc kstate unit := sched_schedule fuel.
Definition sched_timer_tick (fuel : nat) : kstate -> proc kstate unit := timer_tick_with (sched_yield fuel).
Definition timer_irq (fuel : nat) : kstate -> proc kstate unit := timer_irq_with (sched_yield fuel).
Definition timer_poll (fuel : nat) : kstate -> proc kstate unit := timer_poll_with (sched_yield fuel).
Definition timer_idle_poll (fuel : nat) : kstate -> proc kstate unit := timer_poll fuel.

(** [timer_delay_ms]: on x86 the loop counts ticks and polls the timer; elsewhere
    it watches the hardware counter.  [n] bounds the rounds. *)
Fixpoint delay_ticks (n fuel : nat) (target : Z) (s : kstate) : proc kstate unit :=
  if g_ticks (k_timer s) <? target then
    match n with
    | O => PFuel
    | S m =>
        pbind (timer_poll fuel s) (fun _ s1 =>
          pbind (sched_yield fuel s1) (fun _ s2 => delay_ticks m fuel target s2))
    end
  else PDone tt s.

Fixpoint delay_count (n fuel : nat) (target : Z) (s : kstate) : proc kstate unit :=
  let '(c, t) := arch_timer_count arch hw (k_timer s) in
  let s1 := with_k_timer t s in
  if c <? target then
    match n with
    | O => PFuel
    | S m => pbind (sched_yield fuel s1) (fun _ s2 => delay_count m fuel target s2)
    end
  else PDone tt s1.

Definition timer_delay_ms (n fuel : nat) (ms : Z) (s : kstate) : proc kstate unit :=
  match arch with
  | TIMER_ARCH_X86 => delay_ticks n fuel (u64 (g_ticks (k_timer s) + ms / (1000 / PIT_HZ) + 1)) s
  | _ =>
      let '(c, t) := arch_timer_count arch hw (k_timer s) in
      delay_count n fuel (u64 (c + u64 (g_timer_freq t / 1000 * ms))) (with_k_timer t s)
  end.

(** One round of [idle_task] and of the final loop of [kmain]. *)
Definition idle_round (fuel : nat) (s : kstate) : proc kstate unit :=
  pbind (timer_idle_poll fuel (sched_watchdog_update s)) (fun _ s1 => sched_schedule fuel s1).

Definition sched_block (fuel : nat) (s : kstate) : proc kstate unit :=
  match g_current_task s with
  | None => PDone tt s
  | Some c => pbind (plift (s' ← set_thread_state c THREAD_STATE_BLOCKED s; Ret (tt, s')))
                (fun _ s' => sched_schedule fuel s')
  end.

(** [None] is NULL. *)
Definition sched_unblock (i : option Z) (s : kstate) : outcome kstate :=
  match i with
  | None => Ret s
  | Some j =>
      t ← rd (g_tasks s) j;
      if bool_decide (state t = THREAD_STATE_BLOCKED) then set_thread_state j THREAD_STATE_READY s else Ret s
  end.

Definition wake_blocked (t : thread) : thread :=
  if bool_decide (state t = THREAD_STATE_BLOCKED) then with_state THREAD_STATE_READY t else t.

(** Does not return: after the switch away the thread is never resumed; if it
    were, it would loop. *)
Definition sched_exit (fuel : nat) (s : kstate) : proc kstate unit :=
  match g_current_task s with
  | None => PHalt s
  | Some c =>
      pbind (plift (s1 ← set_thread_state c THREAD_STATE_TERMINATED s;
                    Ret (tt, with_g_tasks (wake_blocked <$> g_tasks s1) s1)))
        (fun _ s2 => pbind (sched_schedule fuel s2) (fun _ s3 => PHalt s3))
  end.

Fixpoint find_id (n : nat) (i tid : Z) (ts : list thread) : outcome (option Z) :=
  match n with
  | O => Ret None
  | S m =>
      t ← rd ts i;
      if (id t =? tid) && bool_decide (state t <> THREAD_STATE_UNUSED) then Ret (Some i)
      else find_id m (i + 1) tid ts
  end.

Definition sched_get_thread_by_id (tid : Z) (s : kstate) : outcome (option Z) :=
  find_id (Z.to_nat MAX_TASKS) 0 tid (g_tasks s).

(** Name, state and processor of a table entry. *)
Definition sched_get_thread_info (index : Z) (s : kstate) : outcome (option (list Z * thread_state * Z)) :=
  if index <? MAX_TASKS then
    t ← rd (g_tasks s) index;
    if bool_decide (state t <> THREAD_STATE_UNUSED) then Ret (Some (take 31 (name t), state t, 0))
    else Ret None
  else Ret None.

End sched.
End Sched.
