(* ===== verification/SchedSpec.v ===== *)
(** * Correctness of the scheduler

    Round robin: which thread [sched_schedule] picks, that exactly one thread is
    running at the end of every operation, that a ready thread waits for fewer
    than 128 switches, and what happens when nothing can run. *)

From stdpp Require Import base tactics numbers option relations list.
From S2P Require Import Prelude Proc Telemetry CMem Alloc Timer Caps AllocSpec Sched.

Module SchedSpec.
Import Telemetry Alloc Timer Caps AllocSpec Sched.

(** ** Specification *)

Definition has_state (s : kstate) (i : Z) (st : thread_state) : Prop :=
  exists t, (g_tasks s).[i] = Some t /\ state t = st.

Definition can_run (ts : list thread) (i : Z) : Prop := exists t, ts.[i] = Some t /\ runnable t = true.

(** [j] is the first thread that can run after [cur], cyclically; [cur] itself
    comes last. *)
Definition is_next (ts : list thread) (cur j : Z) : Prop :=
  exists d, 1 <= d <= MAX_TASKS /\ j = (cur + d) mod MAX_TASKS /\ can_run ts j /\
    forall e, 1 <= e < d -> ~ can_run ts ((cur + e) mod MAX_TASKS).

Record sched_ok (s : kstate) (c : Z) : Prop := {
  ok_len : zlen (g_tasks s) = MAX_TASKS;
  ok_cur : g_current_task s = Some c;
  ok_range : 0 <= c < MAX_TASKS;
  ok_inited : g_sched_inited s = 1;
  ok_idle : in_sched s = 0;
  ok_exts : exts_ok (g_thread_ipc_ext s)
}.

(** Exactly the current thread is running. *)
Definition one_running (s : kstate) (c : Z) : Prop :=
  forall i t, (g_tasks s).[i] = Some t -> (state t = THREAD_STATE_RUNNING <-> i = c).

(** The state at a switch from [c] to [j]. *)
Definition switched (c j : Z) (s s' : kstate) : Prop :=
  exists tr, s' = with_k_heap (with_trace tr (k_heap s)) (with_in_sched 0 (with_g_current_task (Some j)
    (with_g_tasks (alter (with_state THREAD_STATE_RUNNING) (Z.to_nat j)
      (alter (fun t => if bool_decide (state t = THREAD_STATE_RUNNING) then with_state THREAD_STATE_READY t else t)
         (Z.to_nat c) (g_tasks s))) s))).

(** ** Lemmas *)

Lemma alter_zget {A} (f : A -> A) (l : list A) i j :
  0 <= i -> (alter f (Z.to_nat i) l).[j] = if i =? j then f <$> l.[j] else l.[j].
Proof.
  intros Hi. unfold zget. destruct (Z.leb_spec 0 j).
  - destruct (Z.eqb_spec i j) as [->|Hne]; [by rewrite list_lookup_alter_eq|].
    rewrite list_lookup_alter_ne by lia. done.
  - destruct (Z.eqb_spec i j); [lia|done].
Qed.

Lemma zlen_alter {A} (f : A -> A) (l : list A) i : zlen (alter f i l) = zlen l.
Proof. unfold zlen. by rewrite length_alter. Qed.

Lemma zset_alter {A} (f : A -> A) (l : list A) i x :
  l.[i] = Some x -> l.[i <- f x] = alter f (Z.to_nat i) l.
Proof.
  intros H. pose proof (zget_Some_bound _ _ _ H). apply zget_ext; [by rewrite zlen_zset, zlen_alter|].
  intros j _. rewrite alter_zget by lia. destruct (Z.eqb_spec i j) as [->|Hne].
  - rewrite zget_zset_eq by lia. by rewrite H.
  - by rewrite zget_zset_ne.
Qed.

Lemma set_thread_state_ok i st s t :
  (g_tasks s).[i] = Some t ->
  set_thread_state i st s = Ret (with_g_tasks (alter (with_state st) (Z.to_nat i) (g_tasks s)) s).
Proof.
  intros H. pose proof (zget_Some_bound _ _ _ H). unfold set_thread_state.
  rewrite (proj2 (rd_Ret _ _ _) H). cbn [mbind outcome_bind]. rewrite wr_in_range by lia.
  cbn [mbind outcome_bind]. by rewrite (zset_alter (with_state st)).
Qed.

Lemma next_runnable_ok n cur i ts :
  zlen ts = MAX_TASKS -> i + Z.of_nat n = MAX_TASKS + 1 ->
  completes (next_runnable n cur i ts) (fun r =>
    match r with
    | Some j => exists d, i <= d <= MAX_TASKS /\ j = (cur + d) mod MAX_TASKS /\ can_run ts j /\
        forall e, i <= e < d -> ~ can_run ts ((cur + e) mod MAX_TASKS)
    | None => forall e, i <= e <= MAX_TASKS -> ~ can_run ts ((cur + e) mod MAX_TASKS)
    end).
Proof.
  intros Hl. revert i. induction n as [|n IH]; intros i Hi; cbn [next_runnable].
  - apply completes_Ret. intros e He. lia.
  - destruct (rd_in_range ts ((cur + i) mod MAX_TASKS)) as (t & -> & Ht);
      [rewrite Hl; apply Z.mod_pos_bound; done|].
    cbn [mbind outcome_bind]. destruct (runnable t) eqn:Er.
    + apply completes_Ret. exists i. split_and!; [lia|lia|done|by exists t|]. intros e He. lia.
    + assert (Hno : ~ can_run ts ((cur + i) mod MAX_TASKS)) by (intros (t' & Ht' & ?); congruence).
      eapply completes_mono; [apply IH; lia|]. intros [j|] Hr.
      * destruct Hr as (d & Hd & -> & Hj & Hr). exists d. split_and!; [lia|lia|done|done|].
        intros e He. destruct (decide (e = i)) as [->|]; [done|]. apply Hr. lia.
      * intros e He. destruct (decide (e = i)) as [->|]; [done|]. apply Hr. lia.
Qed.

(** Offsets 1 to 128 reach every index. *)
Lemma offset_reaches cur i :
  0 <= cur < MAX_TASKS -> 0 <= i < MAX_TASKS ->
  exists e, 1 <= e <= MAX_TASKS /\ (cur + e) mod MAX_TASKS = i.
Proof.
  intros Hc Hi. exists ((i - cur - 1) mod MAX_TASKS + 1).
  pose proof (Z.mod_pos_bound (i - cur - 1) MAX_TASKS ltac:(done)). split; [lia|].
  replace (cur + ((i - cur - 1) mod MAX_TASKS + 1)) with ((cur + 1) + (i - cur - 1) mod MAX_TASKS) by lia.
  rewrite Zplus_mod_idemp_r. replace (cur + 1 + (i - cur - 1)) with i by lia. by apply Z.mod_small.
Qed.

Lemma pick_next_ok s c :
  sched_ok s c ->
  completes (pick_next s) (fun r =>
    match r with
    | Some j => is_next (g_tasks s) c j
    | None => forall i, ~ can_run (g_tasks s) i
    end).
Proof.
  intros [Hl Hc Hr _ _ _]. unfold pick_next. rewrite Hc.
  eapply completes_mono; [apply next_runnable_ok; done|]. intros [j|] Hj; [done|].
  intros i (t & Ht & Hrun). pose proof (zget_Some_bound _ _ _ Ht). rewrite Hl in H.
  destruct (offset_reaches c i Hr H) as (e & He & <-). apply (Hj e He). by exists t.
Qed.

Section schedule.
Context (arch : timer_arch) (hw : nat -> hw_regs) (heap_base stack_bottom sched_trampoline : Z).

Lemma k_trace_log_ok ev a1 a2 s c :
  zlen (g_tasks s) = MAX_TASKS -> g_current_task s = Some c -> 0 <= c < MAX_TASKS -> g_sched_inited s = 1 ->
  exists tr, k_trace_log stack_bottom ev a1 a2 s = Ret (with_k_heap (with_trace tr (k_heap s)) s).
Proof.
  intros Hl Hc Hr Hi. unfold k_trace_log, sched_current_thread. rewrite Hi. cbn [Z.eqb mbind outcome_bind].
  rewrite Hc. unfold thread_id. destruct (rd_in_range (g_tasks s) c) as (t & -> & _); [lia|].
  cbn [mbind outcome_bind]. by eexists.
Qed.

Lemma sched_switch_ok s c j :
  zlen (g_tasks s) = MAX_TASKS -> g_current_task s = Some c -> 0 <= c < MAX_TASKS -> g_sched_inited s = 1 ->
  0 <= j < MAX_TASKS -> c <> j ->
  exists s', sched_switch stack_bottom j s = PSwitch c j s' (fun s'' => PDone tt s'') /\ switched c j s s'.
Proof.
  intros Hl Hc Hr Hi Hj Hne. unfold sched_switch. rewrite Hc. destruct (Z.eqb_spec c j); [done|].
  destruct (rd_in_range (g_tasks s) c) as (tp & -> & Hp); [lia|].
  destruct (rd_in_range (g_tasks s) j) as (tn & -> & Hn); [lia|]. cbn [mbind outcome_bind].
  destruct (k_trace_log_ok TRACE_SCHED_SWITCH (id tp) (id tn) s c Hl Hc Hr Hi) as (tr & ->).
  cbn [mbind outcome_bind]. set (s1 := with_k_heap _ s).
  assert (Hs2 : (if bool_decide (state tp = THREAD_STATE_RUNNING) then set_thread_state c THREAD_STATE_READY s1 else Ret s1)
    = Ret (with_g_tasks (alter (fun t => if bool_decide (state t = THREAD_STATE_RUNNING)
        then with_state THREAD_STATE_READY t else t) (Z.to_nat c) (g_tasks s)) s1)).
  { rewrite <- (zset_alter _ _ _ _ Hp). destruct (bool_decide (state tp = THREAD_STATE_RUNNING)).
    - erewrite set_thread_state_ok by exact Hp. cbn. by rewrite <- (zset_alter (with_state THREAD_STATE_READY) _ _ _ Hp).
    - rewrite zset_id by done. by destruct s. }
  rewrite Hs2. cbn [mbind outcome_bind].
  erewrite set_thread_state_ok.
  2:{ cbn [g_tasks with_g_tasks]. rewrite alter_zget by lia. destruct (Z.eqb_spec c j); [done|]. exact Hn. }
  cbn [mbind outcome_bind]. eexists. split; [reflexivity|]. exists tr. by destruct s.
Qed.

Lemma sched_schedule_ok fuel s c :
  sched_ok s c -> (exists i, can_run (g_tasks s) i) ->
  exists j, is_next (g_tasks s) c j /\
    ((j = c /\ sched_schedule arch hw stack_bottom fuel s = PDone tt s) \/
     (j <> c /\ exists s', sched_schedule arch hw stack_bottom fuel s = PSwitch c j s' (fun s'' => PDone tt s'') /\
        switched c j s s')).
Proof.
  intros Hok (i & Hi). unfold sched_schedule, schedule_with. destruct (Hok) as [Hl Hc Hr Hin Hid _].
  rewrite Hin, Hid. cbn [Z.eqb negb].
  destruct (pick_next_ok s c Hok) as ([j|] & Hpick & Hj); [|by destruct (Hj i)].
  assert (pick_next (with_in_sched 1 s) = Ret (Some j)) as Hpick' by done.
  assert (sched_pick arch hw stack_bottom fuel (with_in_sched 1 s) = PDone j (with_in_sched 1 s)) as ->
    by (destruct fuel; cbn [sched_pick]; by rewrite Hpick').
  rewrite pbind_done. exists j. split; [done|]. destruct Hj as (d & Hd & Hjd & Hrun & _).
  assert (0 <= j < MAX_TASKS) by (rewrite Hjd; by apply Z.mod_pos_bound).
  destruct (decide (j = c)) as [->|Hne].
  - left. split; [done|]. unfold sched_switch. cbn [g_current_task with_in_sched]. rewrite Hc, Z.eqb_refl.
    destruct s; cbn in *. by subst.
  - right. split; [done|]. destruct (sched_switch_ok (with_in_sched 1 s) c j) as (s' & -> & tr & ->); try done.
    eexists. split; [done|]. exists tr. by destruct s.
Qed.

(** ** When nothing can run *)

(** The routine neither returns nor gives up the processor. *)
Definition never_returns {A} (m : proc kstate A) : Prop :=
  match m with
  | PDone _ _ | PSwitch _ _ _ _ => False
  | _ => True
  end.

(** [s'] has the threads and scheduler variables of [s]. *)
Definition same_threads (s s' : kstate) : Prop :=
  g_tasks s' = g_tasks s /\ g_current_task s' = g_current_task s /\
  g_sched_inited s' = g_sched_inited s /\ in_sched s' = in_sched s /\
  g_thread_ipc_ext s' = g_thread_ipc_ext s.

Lemma same_threads_trans s1 s2 s3 : same_threads s1 s2 -> same_threads s2 s3 -> same_threads s1 s3.
Proof. unfold same_threads. intuition congruence. Qed.

Lemma k_trace_log_same ev a1 a2 s s' :
  g_sched_inited s = 1 -> k_trace_log stack_bottom ev a1 a2 s = Ret s' -> same_threads s s'.
Proof.
  intros Hi. unfold k_trace_log, sched_current_thread. rewrite Hi. cbn [Z.eqb mbind outcome_bind].
  destruct (thread_id _ _); cbn [mbind outcome_bind]; intros [= <-]; done.
Qed.

Lemma tick_trace_same s s' : g_sched_inited s = 1 -> tick_trace stack_bottom s = Ret s' -> same_threads s s'.
Proof.
  intros Hi. unfold tick_trace. case_if; [|by intros [= <-]].
  intros (s1 & H1 & H)%bind_Ret_inv. apply bind_Ret_inv in H as (st & _ & H2).
  apply k_trace_log_same in H1 as Hs; [|done]. eapply same_threads_trans; [done|].
  eapply k_trace_log_same; [|done]. destruct Hs as (_ & _ & -> & _). done.
Qed.

(** A tick while the scheduler is busy only touches timer, trace and watchdog. *)
Lemma timer_poll_busy pick s :
  g_sched_inited s = 1 -> in_sched s = 1 ->
  match timer_poll_with arch hw stack_bottom (schedule_with stack_bottom pick) s with
  | PDone _ s' => same_threads s s'
  | PSwitch _ _ _ _ => False
  | _ => True
  end.
Proof.
  intros Hi Hb. unfold timer_poll_with. destruct (timer_due arch hw (k_timer s)) as [[|] t]; [|done].
  unfold timer_irq_with. set (s1 := with_k_timer _ (with_k_timer _ _)).
  assert (H1 : same_threads s s1) by done.
  assert (Hy : forall s2, same_threads s s2 -> schedule_with stack_bottom pick s2 = PDone tt s2).
  { intros s2 (_ & _ & Hi2 & Hb2 & _). unfold schedule_with. by rewrite Hi2, Hi, Hb2, Hb. }
  assert (Hrest : forall s2, same_threads s s2 ->
    match plift (s3 ← tick_trace stack_bottom s2; Ret (tt, with_k_timer (timer_irq_flip (k_timer s3)) s3)) with
    | PDone _ s' => same_threads s s' | PSwitch _ _ _ _ => False | _ => True end).
  { intros s2 H2. destruct (tick_trace stack_bottom s2) as [s3| |] eqn:E; cbn; try done.
    apply tick_trace_same in E; [|destruct H2 as (_ & _ & -> & _); done].
    by eapply same_threads_trans. }
  unfold timer_tick_with. case_if; [case_if; [done|]|]; rewrite Hy by done; rewrite pbind_done; by apply Hrest.
Qed.

Lemma sched_pick_stuck fuel s c :
  sched_ok (with_in_sched 0 s) c -> in_sched s = 1 -> (forall i, ~ can_run (g_tasks s) i) ->
  never_returns (sched_pick arch hw stack_bottom fuel s).
Proof.
  revert s. induction fuel as [|n IH]; intros s Hok Hb Hno.
  - cbn [sched_pick]. destruct (pick_next_ok _ c Hok) as ([j|] & Hp & Hj).
    + destruct Hj as (d & _ & _ & Hj & _). by destruct (Hno j).
    + change (pick_next (with_in_sched 0 s)) with (pick_next s) in Hp. by rewrite Hp.
  - cbn [sched_pick]. destruct (pick_next_ok _ c Hok) as ([j|] & Hp & Hj).
    { destruct Hj as (d & _ & _ & Hj & _). by destruct (Hno j). }
    change (pick_next (with_in_sched 0 s)) with (pick_next s) in Hp. rewrite Hp.
    pose proof (ok_inited _ _ Hok) as Hi.
    pose proof (timer_poll_busy (sched_pick arch hw stack_bottom n) (sched_watchdog_update s) Hi Hb) as Hpoll.
    destruct (timer_poll_with _ _ _ _ _) as [? s'| | | |]; try done. cbn [pbind].
    destruct Hpoll as (Ht & Hc & Hi' & Hb' & He). cbn in Ht, Hc, Hi', Hb', He.
    apply IH; [|by rewrite Hb'|by rewrite Ht]. destruct Hok as [? ? ? ? ? ?].
    split; cbn in *; try done; by rewrite ?Ht, ?Hc, ?Hi', ?He.
Qed.

Lemma sched_schedule_stuck fuel s c :
  sched_ok s c -> (forall i, ~ can_run (g_tasks s) i) ->
  never_returns (sched_schedule arch hw stack_bottom fuel s).
Proof.
  intros Hok Hno. unfold sched_schedule, schedule_with.
  rewrite (ok_inited _ _ Hok), (ok_idle _ _ Hok). cbn [Z.eqb negb].
  assert (H : never_returns (sched_pick arch hw stack_bottom fuel (with_in_sched 1 s))).
  { eapply (sched_pick_stuck _ _ c); [|done|done]. destruct Hok as [? ? ? ? ? ?]. by split. }
  by destruct (sched_pick _ _ _ _ _).
Qed.

(** ** The invariant along all operations *)

Definition only_current (s : kstate) (c : Z) : Prop :=
  forall i t, (g_tasks s).[i] = Some t -> state t = THREAD_STATE_RUNNING -> i = c.

Definition kernel_inv (s : kstate) : Prop := exists c, sched_ok s c /\ one_running s c.

Lemma switched_inv c j s s' :
  sched_ok s c -> only_current s c -> 0 <= j < MAX_TASKS -> c <> j -> switched c j s s' ->
  sched_ok s' j /\ one_running s' j.
Proof.
  intros [Hl Hc Hr Hi Hd He] Ho Hj Hne (tr & ->). split.
  - split; cbn; try done. by rewrite !zlen_alter.
  - intros i t. cbn. rewrite !alter_zget by lia.
    destruct (Z.eqb_spec j i) as [->|Hji]; [destruct (Z.eqb_spec c i); [done|]|].
    + intros (t0 & _ & ->)%fmap_Some. done.
    + destruct (Z.eqb_spec c i) as [->|Hci].
      * intros (t0 & Ht0 & ->)%fmap_Some. case_bool_decide; cbn; split; try done.
      * intros Ht. split; [|done]. intros Hrun. by apply (Ho i t Ht) in Hrun.
Qed.

(** States in which some thread runs after the routine ends or switches. *)
Inductive after {A} : proc kstate A -> kstate -> Prop :=
| after_done a s : after (PDone a s) s
| after_switch from to s k : after (PSwitch from to s k) s.

Lemma schedule_after fuel s s' c :
  sched_ok s c -> only_current s c -> (can_run (g_tasks s) c -> has_state s c THREAD_STATE_RUNNING) ->
  after (sched_schedule arch hw stack_bottom fuel s) s' -> kernel_inv s'.
Proof.
  intros Hok Ho Hrun Ha. destruct (pick_next_ok s c Hok) as ([j0|] & _ & Hj0).
  - destruct (sched_schedule_ok fuel s c Hok) as (j & Hj & [[-> E]|[Hne (s1 & E & Hsw)]]).
    { destruct Hj0 as (d & _ & _ & ? & _). by eexists. }
    + rewrite E in Ha. inversion Ha; subst. exists c. split; [done|].
      destruct Hj as (_ & _ & _ & Hcan & _). destruct (Hrun Hcan) as (tc & Htc & Hst).
      intros i t Ht. split; [by apply Ho|]. intros ->. congruence.
    + rewrite E in Ha. inversion Ha; subst. exists j. destruct Hj as (d & _ & -> & _).
      eapply switched_inv; try done. by apply Z.mod_pos_bound.
  - pose proof (sched_schedule_stuck fuel s c Hok Hj0) as Hst. by destruct Ha.
Qed.

(** One operation of the running thread.  [ks_tick_end] is the rest of a tick
    that was interrupted by a switch. *)
Inductive kernel_step : kstate -> kstate -> Prop :=
| ks_yield fuel s s' : after (sched_schedule arch hw stack_bottom fuel s) s' -> kernel_step s s'
| ks_block fuel s s' : after (sched_block arch hw stack_bottom fuel s) s' -> kernel_step s s'
| ks_exit fuel s s' : after (sched_exit arch hw stack_bottom fuel s) s' -> kernel_step s s'
| ks_tick fuel s s' : after (timer_poll arch hw stack_bottom fuel s) s' -> kernel_step s s'
| ks_tick_end s s' : tick_trace stack_bottom s = Ret s' -> kernel_step s s'
| ks_create nm ent a prio r s s' :
    sched_create_thread arch heap_base stack_bottom sched_trampoline nm ent a prio s = Ret (r, s') -> kernel_step s s'
| ks_unblock i s s' : sched_unblock i s = Ret s' -> kernel_step s s'.

Lemma same_threads_inv s s' : kernel_inv s -> same_threads s s' -> kernel_inv s'.
Proof.
  intros (c & [Hl Hc Hr Hi Hd He] & Ho) (Ht & Hc' & Hi' & Hd' & He'). exists c. split.
  - split; congruence.
  - intros i t. rewrite Ht. apply Ho.
Qed.

Lemma one_running_only s c : one_running s c -> only_current s c.
Proof. intros H i t Ht Hr. by apply (H i t Ht). Qed.

Lemma current_runs s c : sched_ok s c -> one_running s c -> has_state s c THREAD_STATE_RUNNING.
Proof.
  intros [Hl _ Hr _ _ _] Ho. destruct (zget_in_range (g_tasks s) c) as (t & Ht); [lia|].
  exists t. split; [done|]. by apply (Ho c t Ht).
Qed.

Lemma find_state_Some n i st ts j :
  find_state n i st ts = Ret (Some j) -> exists t, ts.[j] = Some t /\ state t = st.
Proof.
  revert i. induction n as [|n IH]; intros i; cbn [find_state]; [done|].
  intros (t & Ht%rd_Ret & H)%bind_Ret_inv. case_bool_decide; [|by apply IH in H].
  injection H as <-. by exists t.
Qed.

(** With the scheduler running, an allocation changes only the heap. *)
Lemma k_malloc_inv n s p s' : g_sched_inited s <> 0 -> k_malloc heap_base stack_bottom n s = Ret (p, s') ->
  exists e h, sage_malloc heap_base e n (k_heap s) = Ret (p, h) /\ s' = with_k_heap h s.
Proof.
  intros Hi E. unfold k_malloc in E. apply bind_Ret_inv in E as (tr & _ & E). apply bind_Ret_inv in E as ([c s1] & E1 & E).
  assert (s1 = s) as ->.
  { destruct tr; [|by injection E1]. unfold sched_current_thread in E1. rewrite (proj2 (Z.eqb_neq _ _) Hi) in E1. by injection E1. }
  apply bind_Ret_inv in E as (e & _ & E). apply bind_Ret_inv in E as ([q h] & Em & E). injection E as <- <-. by exists e, h.
Qed.

Lemma k_malloc_ok n s e p h : g_sched_inited s <> 0 -> k_env s = Ret e -> sage_malloc heap_base e n (k_heap s) = Ret (p, h) ->
  k_malloc heap_base stack_bottom n s = Ret (p, with_k_heap h s).
Proof.
  intros Hi Ee Em. unfold k_malloc.
  assert (exists tr, malloc_traces heap_base n (k_heap s) = Ret tr) as (tr & ->).
  { unfold malloc_traces. unfold sage_malloc, sage_malloc_tagged in Em. destruct (n =? 0); [by eexists|].
    apply bind_Ret_inv in Em as (r & -> & _). by eexists. }
  cbn [mbind outcome_bind]. assert ((if tr then sched_current_thread stack_bottom s else Ret (None, s)) = Ret (if tr then g_current_task s else None, s)) as ->.
  { destruct tr; [|done]. unfold sched_current_thread. by rewrite (proj2 (Z.eqb_neq _ _) Hi). }
  cbn [mbind outcome_bind]. rewrite Ee. cbn [mbind outcome_bind]. by rewrite Em.
Qed.

Definition stacked (base : Z) : thread -> thread :=
  with_stack base (u64 (base + SCHED_STACK_SIZE)) (u64 (base + SCHED_STACK_SIZE) - 8 * (initial_frame arch sched_trampoline).1).

(** What a successful creation leaves, with the scheduler running. *)
Lemma create_thread_inv nm ent a prio s i s' :
  g_sched_inited s <> 0 -> sched_create_thread arch heap_base stack_bottom sched_trampoline nm ent a prio s = Ret (Some i, s') ->
  exists t0 exts base h, (g_tasks s).[i] = Some t0 /\ state t0 = THREAD_STATE_UNUSED /\
    sched_ipc_init_thread (g_next_pid s) (g_thread_ipc_ext s) = Ret exts /\
    s' = with_k_heap h (with_g_tasks ((g_tasks s).[i <- stacked base (new_thread (g_next_pid s) nm ent a prio)])
      (with_g_thread_ipc_ext exts (with_g_next_pid (u32 (g_next_pid s + 1)) s))).
Proof.
  intros Hi E. unfold sched_create_thread in E. apply bind_Ret_inv in E as ([j|] & Hf & E); [|discriminate].
  apply find_state_Some in Hf as (t0 & Ht0 & Hst). pose proof (zget_Some_bound _ _ _ Ht0) as Hj.
  rewrite wr_in_range in E by lia. cbn [mbind outcome_bind] in E. apply bind_Ret_inv in E as (exts & Hx & E).
  apply bind_Ret_inv in E as ([base s1] & Em & E). apply k_malloc_inv in Em as (e & h1 & _ & ->); [|done].
  apply bind_Ret_inv in E as (h2 & _ & E). cbn [g_tasks with_k_heap with_g_tasks] in E.
  rewrite (rd_some _ _ (new_thread (g_next_pid s) nm ent a prio)) in E by (by apply zget_zset_eq). cbn [mbind outcome_bind] in E.
  rewrite wr_in_range in E by (rewrite zlen_zset; lia). cbn [mbind outcome_bind] in E. rewrite zset_zset_eq in E. injection E as <- <-.
  by exists t0, exts, base, h2.
Qed.

Lemma create_thread_none nm ent a prio s s' :
  sched_create_thread arch heap_base stack_bottom sched_trampoline nm ent a prio s = Ret (None, s') -> s' = s.
Proof.
  unfold sched_create_thread. intros E. apply bind_Ret_inv in E as ([j|] & _ & E); [|by injection E as <-].
  apply bind_Ret_inv in E as (ts & _ & E). apply bind_Ret_inv in E as (exts & _ & E). apply bind_Ret_inv in E as ([base s1] & _ & E).
  apply bind_Ret_inv in E as (h & _ & E). apply bind_Ret_inv in E as (t & _ & E). by apply bind_Ret_inv in E as (ts1 & _ & E).
Qed.

Lemma create_inv nm ent a prio r s s' :
  kernel_inv s -> sched_create_thread arch heap_base stack_bottom sched_trampoline nm ent a prio s = Ret (r, s') ->
  kernel_inv s'.
Proof.
  intros (c & Hok & Ho) E. destruct r as [i|]; [|apply create_thread_none in E as ->; by exists c].
  apply create_thread_inv in E as (t & exts & base & h & Ht & Hst & Hx & ->); [|by rewrite (ok_inited _ _ Hok)].
  destruct Hok as [Hl Hc Hr Hi Hd He]. exists c.
  destruct (sched_ipc_init_thread_ok (g_next_pid s) _ He) as (exts' & Hx' & Hexts & _).
  rewrite Hx in Hx'. injection Hx' as <-. split.
  - split; cbn; try done. by rewrite zlen_zset.
  - intros k u. cbn. rewrite zget_zset. destruct (Z.eqb_spec i k) as [->|Hne]; cbn.
    + case_if; [|by apply Ho]. intros [= <-]. cbn. split; [done|]. intros ->.
      apply (Ho c t) in Ht as Hr'. rewrite (proj2 Hr' eq_refl) in Hst. done.
    + by apply Ho.
Qed.

Lemma unblock_inv i s s' : kernel_inv s -> sched_unblock i s = Ret s' -> kernel_inv s'.
Proof.
  intros (c & Hok & Ho) E. unfold sched_unblock in E. destruct i as [i|]; [|injection E as <-; by exists c].
  apply bind_Ret_inv in E as (t & Ht%rd_Ret & E). case_bool_decide as Hb; [|injection E as <-; by exists c].
  rewrite (set_thread_state_ok _ _ _ _ Ht) in E. injection E as <-. exists c.
  destruct Hok as [Hl Hc Hr Hi Hd He]. pose proof (zget_Some_bound _ _ _ Ht). split.
  - split; cbn; try done. by rewrite zlen_alter.
  - intros k u. cbn. rewrite alter_zget by lia. destruct (Z.eqb_spec i k) as [->|Hne]; [|apply Ho].
    intros (t0 & Ht0 & ->)%fmap_Some. cbn. split; [done|]. intros ->.
    apply (Ho c t) in Ht as Hr'. rewrite (proj2 Hr' eq_refl) in Hb. done.
Qed.

Lemma set_current_ok s c st :
  sched_ok s c -> one_running s c -> st <> THREAD_STATE_RUNNING -> st <> THREAD_STATE_READY ->
  exists s1, set_thread_state c st s = Ret s1 /\ sched_ok s1 c /\ only_current s1 c /\
    ~ can_run (g_tasks s1) c /\ (forall i t, (g_tasks s1).[i] = Some t -> state t = THREAD_STATE_RUNNING -> False).
Proof.
  intros Hok Ho Hst Hst'. destruct (current_runs _ _ Hok Ho) as (t & Ht & _).
  rewrite (set_thread_state_ok _ _ _ _ Ht). eexists. split; [done|]. destruct Hok as [Hl Hc Hr Hi Hd He].
  assert (Hnr : forall i u, (alter (with_state st) (Z.to_nat c) (g_tasks s)).[i] = Some u ->
    state u = THREAD_STATE_RUNNING -> False).
  { intros i u. rewrite alter_zget by lia. destruct (Z.eqb_spec c i) as [->|Hne].
    - intros (t0 & _ & ->)%fmap_Some. done.
    - intros Hu Hru. by apply (Ho i u Hu) in Hru. }
  split_and!; cbn; try done.
  - split; cbn; try done. by rewrite zlen_alter.
  - intros i u Hu Hru. by destruct (Hnr i u Hu Hru).
  - intros (u & Hu & Hrun). rewrite alter_zget, Z.eqb_refl, Ht in Hu by lia. injection Hu as <-.
    unfold runnable in Hrun. cbn in Hrun. rewrite !bool_decide_eq_false_2 in Hrun by done. done.
Qed.

Lemma block_inv fuel s s' :
  kernel_inv s -> after (sched_block arch hw stack_bottom fuel s) s' -> kernel_inv s'.
Proof.
  intros (c & Hok & Ho). unfold sched_block. rewrite (ok_cur _ _ Hok).
  destruct (set_current_ok s c THREAD_STATE_BLOCKED Hok Ho) as (s1 & -> & Hok1 & Ho1 & Hn & _); try done.
  cbn. intros Ha. by eapply schedule_after; [exact Hok1|exact Ho1| |exact Ha].
Qed.

Lemma after_bind {A B} (m : proc kstate A) (f : A -> kstate -> proc kstate B) s' :
  after (pbind m f) s' ->
  (exists from to k, m = PSwitch from to s' k) \/ (exists a s1, m = PDone a s1 /\ after (f a s1) s').
Proof.
  destruct m as [a s|from to s k|s| |]; cbn; intros Ha; [right; eauto| |by inversion Ha..].
  inversion Ha; subst. left. eauto.
Qed.

Lemma zget_fmap {A B} (f : A -> B) (l : list A) i : (f <$> l).[i] = f <$> l.[i].
Proof. unfold zget. destruct (0 <=? i); [apply list_lookup_fmap|done]. Qed.

Lemma exit_inv fuel s s' :
  kernel_inv s -> after (sched_exit arch hw stack_bottom fuel s) s' -> kernel_inv s'.
Proof.
  intros (c & Hok & Ho). unfold sched_exit. rewrite (ok_cur _ _ Hok).
  destruct (set_current_ok s c THREAD_STATE_TERMINATED Hok Ho) as (s1 & E & Hok1 & _ & _ & Hn); try done.
  pose proof E as E'. destruct (current_runs _ _ Hok Ho) as (tc & Htc & _).
  rewrite (set_thread_state_ok _ _ _ _ Htc) in E'. injection E' as Hs1. rewrite E. cbn.
  set (s2 := with_g_tasks _ s1). intros Ha.
  assert (Hok2 : sched_ok s2 c).
  { destruct Hok1 as [? ? ? ? ? ?]. split; cbn; try done. unfold zlen in *. by rewrite length_fmap. }
  assert (Hn2 : forall i t, (g_tasks s2).[i] = Some t -> state t = THREAD_STATE_RUNNING -> False).
  { intros i t. cbn. rewrite zget_fmap. intros (t0 & Ht0 & ->)%fmap_Some. unfold wake_blocked.
    case_bool_decide; [done|]. apply Hn with (i := i). exact Ht0. }
  apply after_bind in Ha as [(from & to & k & E2)|(a & s3 & E2 & Ha)]; [|inversion Ha].
  eapply (schedule_after fuel s2); [done|intros i t H1 H2; by destruct (Hn2 i t H1 H2)| |rewrite E2; constructor].
  intros (u & Hu & Hrun). exfalso. cbn in Hu. rewrite zget_fmap, <- Hs1 in Hu. cbn in Hu.
  rewrite alter_zget, Z.eqb_refl, Htc in Hu by apply Hok. injection Hu as <-.
  unfold wake_blocked in Hrun. cbn in Hrun. done.
Qed.

(** A poll of the timer: nothing happens to the threads, or the current one yields. *)
Lemma tick_cases fuel s s' : after (timer_poll arch hw stack_bottom fuel s) s' ->
  same_threads s s' \/
  exists s2 s3, same_threads s s2 /\ after (sched_schedule arch hw stack_bottom fuel s2) s3 /\ (g_sched_inited s3 = 1 -> same_threads s3 s').
Proof.
  unfold timer_poll, timer_poll_with. destruct (timer_due arch hw (k_timer s)) as [[|] t].
  2:{ intros Ha. inversion Ha; subst. by left. }
  unfold timer_irq_with. set (s1 := with_k_timer _ (with_k_timer _ _)). unfold timer_tick_with. intros Ha.
  assert (exists s2, same_threads s s2 /\ after (pbind (sched_yield arch hw stack_bottom fuel s2) (fun _ s3 =>
    plift (s4 ← tick_trace stack_bottom s3; Ret (tt, with_k_timer (timer_irq_flip (k_timer s4)) s4)))) s')
    as (s2 & Hs2 & Ha2).
  { repeat case_if; [inversion Ha|..]; (eexists; split; [|exact Ha]; done). }
  right. apply after_bind in Ha2 as [(from & to & k & E)|(a & s3 & E & Ha3)]; exists s2.
  - exists s'. unfold sched_yield in E. rewrite E. split_and!; [done|constructor|]. by intros _.
  - exists s3. unfold sched_yield in E. rewrite E. split_and!; [done|constructor|]. intros Hi3.
    destruct (tick_trace stack_bottom s3) as [s4| |] eqn:Et; cbn in Ha3; inversion Ha3; subst.
    apply tick_trace_same in Et; [|done]. by eapply same_threads_trans.
Qed.

Lemma tick_inv fuel s s' :
  kernel_inv s -> after (timer_poll arch hw stack_bottom fuel s) s' -> kernel_inv s'.
Proof.
  intros Hinv Ha. apply tick_cases in Ha as [Hs|(s2 & s3 & H2 & Ha & H3)]; [by eapply same_threads_inv|].
  destruct (same_threads_inv _ _ Hinv H2) as (c & Hok & Ho).
  assert (kernel_inv s3) as Hinv3.
  { eapply schedule_after; [done|by apply one_running_only| |done]. intros _. by eapply current_runs. }
  eapply same_threads_inv; [done|]. apply H3. destruct Hinv3 as (c3 & Hok3 & _). apply Hok3.
Qed.

Lemma kernel_step_inv s s' : kernel_inv s -> kernel_step s s' -> kernel_inv s'.
Proof.
  intros Hinv Hs. destruct Hs as [fuel s s' Ha|fuel s s' Ha|fuel s s' Ha|fuel s s' Ha|s s' E|nm ent a prio r s s' E|i s s' E].
  - destruct Hinv as (c & Hok & Ho). eapply schedule_after; [done|by apply one_running_only| |done].
    intros _. by eapply current_runs.
  - by eapply block_inv.
  - by eapply exit_inv.
  - by eapply tick_inv.
  - eapply same_threads_inv; [done|]. eapply tick_trace_same; [|done].
    destruct Hinv as (c & Hok & _). apply Hok.
  - by eapply create_inv.
  - by eapply unblock_inv.
Qed.

End schedule.

(** ** Waiting time *)

(** Position of [x] in the round that starts after [c]: 1 to 128. *)
Definition dist (c x : Z) : Z := (x - c - 1) mod MAX_TASKS + 1.

Lemma dist_range c x : 1 <= dist c x <= MAX_TASKS.
Proof. unfold dist. pose proof (Z.mod_pos_bound (x - c - 1) MAX_TASKS ltac:(done)). lia. Qed.

Lemma dist_reaches c x : 0 <= x < MAX_TASKS -> (c + dist c x) mod MAX_TASKS = x.
Proof.
  intros Hx. unfold dist.
  replace (c + ((x - c - 1) mod MAX_TASKS + 1)) with ((c + 1) + (x - c - 1) mod MAX_TASKS) by lia.
  rewrite Zplus_mod_idemp_r. replace (c + 1 + (x - c - 1)) with x by lia. by apply Z.mod_small.
Qed.

Lemma dist_unique c e : 1 <= e <= MAX_TASKS -> dist c ((c + e) mod MAX_TASKS) = e.
Proof.
  intros He. unfold dist. replace ((c + e) mod MAX_TASKS - c - 1) with ((c + e) mod MAX_TASKS - (c + 1)) by lia.
  rewrite Zminus_mod_idemp_l. replace (c + e - (c + 1)) with (e - 1) by lia.
  rewrite Z.mod_small by lia. lia.
Qed.

(** Each decision for another thread brings [x] closer. *)
Lemma dist_decreases ts c j x :
  is_next ts c j -> can_run ts x -> 0 <= x < MAX_TASKS -> j <> x -> dist j x < dist c x.
Proof.
  intros (d & Hd & -> & _ & Hmin) Hx Hr Hne.
  pose proof (dist_range c x) as Hdx. pose proof (dist_reaches c x Hr) as Hreach.
  assert (d < dist c x).
  { destruct (Z.lt_trichotomy d (dist c x)) as [|[->|]]; [done|by rewrite Hreach in Hne|].
    exfalso. apply (Hmin (dist c x)); [lia|]. by rewrite Hreach. }
  assert (Hj : x = ((c + d) mod MAX_TASKS + (dist c x - d)) mod MAX_TASKS).
  { rewrite Zplus_mod_idemp_l. rewrite <- Hreach at 1. f_equal. lia. }
  rewrite Hj at 1. rewrite dist_unique by lia. lia.
Qed.

Lemma ready_can_run s x : has_state s x THREAD_STATE_READY -> can_run (g_tasks s) x /\ 0 <= x < zlen (g_tasks s).
Proof.
  intros (t & Ht & Hst). split; [|by eapply zget_Some_bound]. exists t. split; [done|].
  unfold runnable. by rewrite Hst.
Qed.

(** A scheduling decision for another thread than [x], which can run. *)
Lemma schedule_closer arch hw sb fuel s s1 c x :
  sched_ok s c -> can_run (g_tasks s) x -> 0 <= x < MAX_TASKS ->
  after (sched_schedule arch hw sb fuel s) s1 -> g_current_task s1 <> Some x ->
  exists j, g_current_task s1 = Some j /\ dist j x < dist c x.
Proof.
  intros Hok Hx Hr Ha Hne. destruct (sched_schedule_ok arch hw sb fuel s c Hok) as (j & Hj & [[-> E]|[Hnj (s' & E & Hsw)]]); [by exists x| |];
    rewrite E in Ha; inversion Ha; subst.
  - pose proof (ok_cur _ _ Hok) as Hc. exists c. split; [done|]. eapply dist_decreases; [done|done|done|]. intros ->. by apply Hne.
  - destruct Hsw as (tr & ->). exists j. split; [done|]. eapply dist_decreases; [done|done|done|]. intros ->. by apply Hne.
Qed.

Lemma ready_not_current s c x : sched_ok s c -> one_running s c -> has_state s x THREAD_STATE_READY -> g_current_task s <> Some x.
Proof.
  intros Hok Ho (t & Ht & Hst) Hc. rewrite (ok_cur _ _ Hok) in Hc. injection Hc as ->.
  apply (Ho x t) in Ht as [_ Hr]. rewrite Hr in Hst by done. discriminate.
Qed.

Lemma set_state_ready s c st s1 x :
  set_thread_state c st s = Ret s1 -> x <> c -> has_state s x THREAD_STATE_READY -> has_state s1 x THREAD_STATE_READY.
Proof.
  intros E Hne (t & Ht & Hst). exists t. split; [|done]. unfold set_thread_state in E.
  apply bind_Ret_inv in E as (tc & _ & E). apply bind_Ret_inv in E as (ts & (_ & ->)%wr_Ret & E). injection E as <-. cbn.
  by rewrite zget_zset_ne.
Qed.

(** One operation while [x] is and stays ready: the current thread stays, or the turn
    of [x] comes closer. *)
Lemma step_closer arch hw hb sb tramp s s' c x :
  sched_ok s c -> one_running s c -> has_state s x THREAD_STATE_READY -> kernel_step arch hw hb sb tramp s s' ->
  g_current_task s' <> Some x -> g_current_task s' = Some c \/ exists j, g_current_task s' = Some j /\ dist j x < dist c x.
Proof.
  intros Hok Ho Hx Hs Hne. pose proof (ready_not_current _ _ _ Hok Ho Hx) as Hnc. destruct (ready_can_run _ _ Hx) as [Hrun Hr].
  assert (x <> c) as Hxc by (intros ->; by rewrite (ok_cur _ _ Hok) in Hnc). rewrite (ok_len _ _ Hok) in Hr.
  assert (g_sched_inited s <> 0) as Hi by (by rewrite (ok_inited _ _ Hok)).
  destruct Hs as [fuel s s' Ha|fuel s s' Ha|fuel s s' Ha|fuel s s' Ha|s s' E|nm ent a prio r s s' E|i s s' E].
  - right. by eapply schedule_closer.
  - right. unfold sched_block in Ha. rewrite (ok_cur _ _ Hok) in Ha.
    destruct (set_current_ok s c THREAD_STATE_BLOCKED Hok Ho) as (s1 & E & Hok1 & _); try done. rewrite E in Ha. cbn in Ha.
    apply (set_state_ready _ _ _ _ x) in E; [|done|done]. apply ready_can_run in E as [Hrun1 _]. by eapply schedule_closer.
  - right. unfold sched_exit in Ha. rewrite (ok_cur _ _ Hok) in Ha.
    destruct (set_current_ok s c THREAD_STATE_TERMINATED Hok Ho) as (s1 & E & Hok1 & _); try done. rewrite E in Ha. cbn in Ha.
    apply (set_state_ready _ _ _ _ x) in E as (t & Ht & Hst); [|done|done].
    apply after_bind in Ha as [(from & to & k & E2)|(a & s3 & E2 & Ha)]; [|inversion Ha].
    eapply (schedule_closer arch hw sb fuel _ _ c x); [| |done|rewrite E2; constructor|done].
    + destruct Hok1. split; cbn; try done. unfold zlen in *. by rewrite length_fmap.
    + exists t. cbn. rewrite zget_fmap, Ht. unfold wake_blocked, runnable. cbn. by rewrite Hst.
  - apply tick_cases in Ha as [(_ & Hc & _)|(s2 & s3 & (Ht2 & Hc2 & Hi2 & Hd2 & He2) & Ha & H3)]; [left; by rewrite Hc, (ok_cur _ _ Hok)|].
    assert (sched_ok s2 c) as Hok2 by (destruct Hok; split; congruence). rewrite <- Ht2 in Hrun.
    right. assert (g_sched_inited s3 = 1) as Hi3.
    { destruct (sched_schedule_ok arch hw sb fuel s2 c Hok2) as (j & _ & [[-> E]|[_ (s5 & E & (tr & ->))]]); [by exists x| |];
        rewrite E in Ha; inversion Ha; subst; cbn; apply Hok2. }
    destruct (H3 Hi3) as (_ & Hc3 & _). rewrite Hc3 in *. by eapply schedule_closer.
  - left. apply tick_trace_same in E as (_ & -> & _); [by apply Hok|apply Hok].
  - left. destruct r as [i|]; [|apply create_thread_none in E as ->; by apply Hok].
    apply create_thread_inv in E as (t & exts & base & h & _ & _ & _ & ->); [by apply Hok|done].
  - left. unfold sched_unblock in E. destruct i as [i|]; [|injection E as <-; by apply Hok].
    apply bind_Ret_inv in E as (t & Ht%rd_Ret & E). case_bool_decide; [|injection E as <-; by apply Hok].
    rewrite (set_thread_state_ok _ _ _ _ Ht) in E. injection E as <-. by apply Hok.
Qed.

(** [waits x n s s']: operations of the running threads lead from [s] to [s'], [x] is
    ready after each of them, and the processor changes hands [n] times. *)
Inductive waits (arch : timer_arch) (hw : nat -> hw_regs) (hb sb tramp x : Z) : Z -> kstate -> kstate -> Prop :=
| waits_refl s : waits arch hw hb sb tramp x 0 s s
| waits_same n s s1 s2 :
    kernel_step arch hw hb sb tramp s s1 -> has_state s1 x THREAD_STATE_READY -> g_current_task s1 = g_current_task s ->
    waits arch hw hb sb tramp x n s1 s2 -> waits arch hw hb sb tramp x n s s2
| waits_switch n s s1 s2 :
    kernel_step arch hw hb sb tramp s s1 -> has_state s1 x THREAD_STATE_READY -> g_current_task s1 <> g_current_task s ->
    waits arch hw hb sb tramp x n s1 s2 -> waits arch hw hb sb tramp x (n + 1) s s2.

Lemma waits_bound arch hw hb sb tramp x n s s' :
  waits arch hw hb sb tramp x n s s' -> forall c, sched_ok s c -> one_running s c -> has_state s x THREAD_STATE_READY ->
  0 <= n /\ exists c', sched_ok s' c' /\ one_running s' c' /\ has_state s' x THREAD_STATE_READY /\ n + dist c' x <= dist c x.
Proof.
  induction 1 as [s|n s s1 s2 Hs Hx1 Hc _ IH|n s s1 s2 Hs Hx1 Hc _ IH]; intros c Hok Ho Hx.
  - split; [done|]. exists c. split_and!; (done || lia).
  - destruct (kernel_step_inv _ _ _ _ _ _ _ (ex_intro _ c (conj Hok Ho)) Hs) as (c1 & Hok1 & Ho1).
    assert (c1 = c) as -> by (rewrite (ok_cur _ _ Hok), (ok_cur _ _ Hok1) in Hc; by injection Hc). by apply IH.
  - destruct (kernel_step_inv _ _ _ _ _ _ _ (ex_intro _ c (conj Hok Ho)) Hs) as (c1 & Hok1 & Ho1).
    destruct (step_closer _ _ _ _ _ _ _ _ x Hok Ho Hx Hs) as [E|(j & E & Hd)]; [by eapply ready_not_current|by rewrite (ok_cur _ _ Hok) in Hc|].
    rewrite (ok_cur _ _ Hok1) in E. injection E as <-. destruct (IH c1 Hok1 Ho1 Hx1) as (? & c' & ? & ? & ? & ?).
    split; [lia|]. exists c'. split_and!; (done || lia).
Qed.

(** ** Theorems *)

(** [sched_schedule] picks the first thread that can run after the current one, whatever
    the priorities. *)
Lemma schedule_next arch hw sb fuel s c :
  sched_ok s c -> one_running s c ->
  exists j, is_next (g_tasks s) c j /\
    ((j = c /\ sched_schedule arch hw sb fuel s = PDone tt s) \/
     (j <> c /\ exists s', sched_schedule arch hw sb fuel s = PSwitch c j s' (fun s'' => PDone tt s'') /\
        sched_ok s' j /\ one_running s' j /\
        forall i, i <> c -> i <> j -> (g_tasks s').[i] = (g_tasks s).[i])).
Proof.
  intros Hok Ho. destruct (sched_schedule_ok arch hw sb fuel s c Hok) as (j & Hj & [[-> E]|[Hne (s' & E & Hsw)]]).
  - destruct (current_runs _ _ Hok Ho) as (t & Ht & Hst). exists c, t. split; [done|].
    unfold runnable. by rewrite Hst, orb_true_r.
  - exists c. split; [done|]. by left.
  - exists j. split; [done|]. right. split; [done|]. exists s'. split; [done|].
    pose proof Hj as (d & _ & Hjd & _). assert (0 <= j < MAX_TASKS) by (rewrite Hjd; by apply Z.mod_pos_bound).
    destruct (switched_inv c j s s' Hok (one_running_only _ _ Ho)) as [Hok1 Ho1]; try done.
    split_and!; try done. intros i Hic Hij. destruct Hsw as (tr & ->). cbn. pose proof (ok_range _ _ Hok).
    rewrite !alter_zget by lia. destruct (Z.eqb_spec j i); [done|]. by destruct (Z.eqb_spec c i).
Qed.

(** The threads that can run have the same priority. *)
Definition equal_priorities (ts : list thread) : Prop :=
  forall i j t u, ts.[i] = Some t -> ts.[j] = Some u -> runnable t = true -> runnable u = true -> priority t = priority u.

(** C36: among threads of the same priority [sched_schedule] is round robin: it picks
    the first thread that can run after the current
    one, in table order and cyclically, the current one last; it returns with
    nothing changed if that is the current thread, and otherwise switches to it
    with it alone running and every third thread untouched.  (With different
    priorities it picks the same thread, see [schedule_next].) *)
Theorem schedule_round_robin arch hw sb fuel s c :
  sched_ok s c -> one_running s c -> equal_priorities (g_tasks s) ->
  exists j, is_next (g_tasks s) c j /\
    ((j = c /\ sched_schedule arch hw sb fuel s = PDone tt s) \/
     (j <> c /\ exists s', sched_schedule arch hw sb fuel s = PSwitch c j s' (fun s'' => PDone tt s'') /\
        sched_ok s' j /\ one_running s' j /\
        forall i, i <> c -> i <> j -> (g_tasks s').[i] = (g_tasks s).[i])).
Proof. intros Hok Ho _. by apply schedule_next. Qed.

(** A small instance: thread 0 running, thread 1 ready. *)
Definition ready_thread : thread :=
  mk_thread 1 THREAD_STATE_READY THREAD_PRIORITY_LOW acct_zero 0 0 0 None None 0 0 []
    (replicate (Z.to_nat MAX_FD) fd_zero) 0 0 0 None [47] 0 0 0 0 0 0.
Definition two_threads : kstate :=
  with_g_sched_inited 1 (with_g_current_task (Some 0)
    (with_g_tasks ((g_tasks kstate_static).[0 <- idle_thread 0].[1 <- ready_thread]) kstate_static)).

Lemma exts_static : exts_ok (g_thread_ipc_ext kstate_static).
Proof.
  split; [done|]. intros i e. unfold kstate_static. cbn [g_thread_ipc_ext]. intros H.
  pose proof (zget_Some_bound _ _ _ H) as Hi. rewrite zlen_replicate in Hi.
  rewrite zget_replicate in H by done. by injection H as <-.
Qed.

Lemma two_threads_ok : sched_ok two_threads 0 /\ one_running two_threads 0.
Proof.
  split; [split; try done; apply exts_static|].
  intros i t. unfold two_threads. cbn [g_tasks with_g_sched_inited with_g_current_task with_g_tasks].
  rewrite !zget_zset. repeat case_if; bool_to_prop; try lia; [intros [= <-]; cbn; naive_solver..|].
  intros H. pose proof (zget_Some_bound _ _ _ H) as Hi. unfold kstate_static in H, Hi. cbn [g_tasks] in H, Hi.
  rewrite zlen_replicate in Hi. rewrite zget_replicate in H by done. injection H as <-. cbn. split; [done|].
  intros ->. repeat match goal with H : (_ && _)%bool = false |- _ => vm_compute in H; try discriminate H; clear H end.
Qed.

Lemma two_threads_low i t : (g_tasks two_threads).[i] = Some t -> priority t = THREAD_PRIORITY_LOW.
Proof.
  unfold two_threads. cbn [g_tasks with_g_sched_inited with_g_current_task with_g_tasks]. rewrite !zget_zset.
  repeat case_if; [by intros [= <-]..|]. by intros ->%zget_replicate_inv.
Qed.

Lemma schedule_round_robin_witness :
  let hw := fun _ => mk_hw 0 0 0 in
  exists j, is_next (g_tasks two_threads) 0 j /\
    ((j = 0 /\ sched_schedule TIMER_ARCH_RV64 hw 0 0 two_threads = PDone tt two_threads) \/
     (j <> 0 /\ exists s', sched_schedule TIMER_ARCH_RV64 hw 0 0 two_threads = PSwitch 0 j s' (fun s'' => PDone tt s'') /\
        sched_ok s' j /\ one_running s' j /\
        forall i, i <> 0 -> i <> j -> (g_tasks s').[i] = (g_tasks two_threads).[i])).
Proof.
  intros hw. apply (schedule_round_robin TIMER_ARCH_RV64 hw 0 0 two_threads 0); [apply two_threads_ok..|].
  intros i j t u Hi Hj _ _. by rewrite (two_threads_low i t Hi), (two_threads_low j u Hj).
Defined.

(** C7: exactly one thread is in state RUNNING, and it is the current one, in
    every state reached from [sched_init] by yielding, blocking, exiting, timer
    ticks, thread creation and unblocking. *)
Theorem one_running_reachable arch hw hb sb tramp s0 s s' :
  exts_ok (g_thread_ipc_ext s0) -> in_sched s0 = 0 ->
  sched_init sb s0 = Ret s -> rtc (kernel_step arch hw hb sb tramp) s s' ->
  exists c, g_current_task s' = Some c /\
    forall i t, (g_tasks s').[i] = Some t -> (state t = THREAD_STATE_RUNNING <-> i = c).
Proof.
  intros He Hd Hi Hr. assert (H0 : kernel_inv s).
  { unfold sched_init in Hi. destruct (sched_ipc_init_thread_ok 0 _ He) as (exts & E & Hexts & _).
    rewrite E in Hi. apply Ret_inj in Hi. subst s. exists 0. split; [by split|].
    intros i t. cbn [g_tasks with_g_sched_inited with_g_current_task with_g_thread_ipc_ext with_g_tasks].
    rewrite zget_zset. destruct (Z.eqb_spec 0 i) as [<-|Hne]; [by intros [= <-]|].
    cbn [andb]. intros H. pose proof (zget_Some_bound _ _ _ H) as Hb. rewrite zlen_replicate in Hb.
    rewrite zget_replicate in H by done. injection H as <-. cbn. split; [done|]. intros ->. done. }
  assert (kernel_inv s') as (c & Hok & Ho).
  { revert s' Hr. apply (rtc_ind_r kernel_inv); [done|]. intros s1 s2 _ Hs IH. by eapply kernel_step_inv. }
  exists c. split; [apply Hok|done].
Qed.

Lemma one_running_reachable_witness :
  exists s s', sched_init 0 kstate_static = Ret s /\
    sched_create_thread TIMER_ARCH_RV64 65536 0 4096 [97] 0 0 THREAD_PRIORITY_NORMAL s = Ret (Some 1, s') /\
    exists c, g_current_task s' = Some c /\
      forall i t, (g_tasks s').[i] = Some t -> (state t = THREAD_STATE_RUNNING <-> i = c).
Proof.
  assert (match sched_init 0 kstate_static with
          | Ret s => match sched_create_thread TIMER_ARCH_RV64 65536 0 4096 [97] 0 0 THREAD_PRIORITY_NORMAL s with
                     | Ret (Some i, _) => i | _ => 0 end
          | _ => 0 end = 1) as E by (vm_compute; reflexivity).
  destruct (sched_init 0 kstate_static) as [s| |] eqn:Ei; try discriminate. exists s.
  destruct (sched_create_thread TIMER_ARCH_RV64 65536 0 4096 [97] 0 0 THREAD_PRIORITY_NORMAL s)
    as [[[i|] s']| |] eqn:Ec; try discriminate. exists s'. rewrite E in *.
  split; [reflexivity|]. split; [reflexivity|].
  apply (one_running_reachable TIMER_ARCH_RV64 (fun _ => mk_hw 0 0 0) 65536 0 4096 kstate_static s s' exts_static eq_refl Ei).
  apply rtc_once. exact (ks_create TIMER_ARCH_RV64 (fun _ => mk_hw 0 0 0) 65536 0 4096 _ _ _ _ _ _ _ Ec).
Defined.

(** C38: a thread that is ready, and stays so while the running threads yield, block,
    exit, create and unblock threads and are interrupted by the timer, gets the
    processor before 128 switches have gone to others; and at any time a yield of the
    current thread completes and switches away from it: nothing starves. *)
Theorem bounded_waiting arch hw hb sb tramp x n s s' fuel :
  kernel_inv s -> has_state s x THREAD_STATE_READY -> waits arch hw hb sb tramp x n s s' ->
  n < MAX_TASKS /\
  exists c j s'', c <> j /\ sched_schedule arch hw sb fuel s' = PSwitch c j s'' (fun s3 => PDone tt s3).
Proof.
  intros (c & Hok & Ho) Hx Hw.
  destruct (waits_bound _ _ _ _ _ _ _ _ _ Hw c Hok Ho Hx) as (Hn & c' & Hok' & Ho' & Hx' & Hd).
  pose proof (dist_range c x). pose proof (dist_range c' x). split; [lia|]. pose proof (ready_not_current _ _ _ Hok' Ho' Hx') as Hnc.
  destruct (ready_can_run _ _ Hx') as [Hrun Hr]. rewrite (ok_len _ _ Hok') in Hr.
  destruct (sched_schedule_ok arch hw sb fuel s' c' Hok') as (j & Hj & [[-> _]|[Hne (s1 & -> & _)]]); [by exists x| |by exists c', j, s1].
  exfalso. pose proof (ok_cur _ _ Hok') as Hc. assert (c' <> x) as Hne by congruence. pose proof (dist_decreases _ _ _ _ Hj Hrun Hr Hne). lia.
Qed.

(** Thread 0 running, threads 1 and 2 ready: 0 yields to 1 while 2 waits. *)
Definition three_threads : kstate := with_g_tasks ((g_tasks two_threads).[2 <- ready_thread]) two_threads.

Lemma three_threads_ok : sched_ok three_threads 0 /\ one_running three_threads 0.
Proof.
  destruct two_threads_ok as [[Hl Hc Hr Hi Hd He] Ho]. split; [split; try done|].
  intros i t. unfold three_threads. cbn [g_tasks with_g_tasks]. rewrite zget_zset. case_match eqn:E; [|apply Ho].
  intros [= <-]. bool_to_prop. cbn. split; [done|lia].
Qed.

Lemma bounded_waiting_witness :
  exists s1, waits TIMER_ARCH_RV64 (fun _ => mk_hw 0 0 0) 65536 0 4096 2 1 three_threads s1 /\ g_current_task s1 = Some 1 /\
  1 < MAX_TASKS /\
  exists c j s'', c <> j /\ sched_schedule TIMER_ARCH_RV64 (fun _ => mk_hw 0 0 0) 0 0 s1 = PSwitch c j s'' (fun s3 => PDone tt s3).
Proof.
  set (hw := fun _ : nat => mk_hw 0 0 0).
  destruct (sched_schedule TIMER_ARCH_RV64 hw 0 0 three_threads) as [a s1|from to s1 k|s1| |] eqn:E.
  2: { assert (g_current_task s1 = Some 1 /\ state <$> (g_tasks s1).[2] = Some THREAD_STATE_READY) as [Hc Hx].
       { pose proof (f_equal (fun m => match m with PSwitch _ _ s _ => (g_current_task s, state <$> (g_tasks s).[2]) | _ => (None, None) end) E) as E'.
         cbv beta iota in E'. injection E' as <- <-. split; vm_compute; reflexivity. }
       assert (waits TIMER_ARCH_RV64 hw 65536 0 4096 2 1 three_threads s1) as Hw.
       { apply (waits_switch _ _ _ _ _ _ 0 _ s1); [apply (ks_yield _ _ _ _ _ 0); rewrite E; constructor| |by rewrite Hc|constructor].
         apply fmap_Some in Hx as (t & Ht & Hst). by exists t. }
       exists s1. split; [exact Hw|]. split; [exact Hc|].
       apply (bounded_waiting TIMER_ARCH_RV64 hw 65536 0 4096 2 1 three_threads s1 0); [exists 0; apply three_threads_ok| |exact Hw].
       exists ready_thread. split; reflexivity. }
  all: exfalso; apply (f_equal (fun m => match m with PSwitch _ _ _ _ => true | _ => false end)) in E; vm_compute in E; discriminate E.
Defined.

(** When the current thread blocks and no other thread can run,
    [sched_schedule] never returns and never switches: timer ticks during its
    idle loop make no thread ready. *)
Theorem idle_loop_never_returns arch hw sb fuel s c :
  sched_ok s c -> (forall i, ~ can_run (g_tasks s) i) ->
  never_returns (sched_schedule arch hw sb fuel s).
Proof. apply sched_schedule_stuck. Qed.

Definition all_blocked : kstate :=
  with_g_sched_inited 1 (with_g_current_task (Some 0)
    (with_g_tasks ((g_tasks kstate_static).[0 <- with_state THREAD_STATE_BLOCKED (idle_thread 0)]) kstate_static)).

Lemma idle_loop_never_returns_witness :
  never_returns (sched_schedule TIMER_ARCH_RV64 (fun k => mk_hw 0 (Z.of_nat k) 0) 0 5 all_blocked).
Proof.
  apply (idle_loop_never_returns TIMER_ARCH_RV64 (fun k => mk_hw 0 (Z.of_nat k) 0) 0 5 all_blocked 0).
  - split; try reflexivity; try apply exts_static. vm_compute. split; [discriminate|reflexivity].
  - intros i (t & Ht & Hr). unfold all_blocked in Ht.
    cbn [g_tasks with_g_sched_inited with_g_current_task with_g_tasks] in Ht.
    rewrite zget_zset in Ht. destruct ((0 =? i) && (0 <=? 0) && (0 <? zlen (g_tasks kstate_static)))%bool.
    + injection Ht as <-. discriminate.
    + pose proof (zget_Some_bound _ _ _ Ht) as Hb. unfold kstate_static in Ht, Hb. cbn [g_tasks] in Ht, Hb.
      rewrite zlen_replicate in Hb. rewrite zget_replicate in Ht by exact Hb. injection Ht as <-. discriminate.
Defined.

(** ** Thread creation *)

Lemma find_state_ok n i st ts :
  0 <= i -> i + Z.of_nat n = zlen ts ->
  completes (find_state n i st ts) (fun r =>
    match r with
    | Some j => i <= j < zlen ts /\ exists t, ts.[j] = Some t /\ state t = st
    | None => forall j t, i <= j -> ts.[j] = Some t -> state t <> st
    end).
Proof.
  revert i. induction n as [|n IH]; intros i Hi Hn; cbn [find_state].
  - apply completes_Ret. intros j t Hj Ht%zget_Some_bound. lia.
  - destruct (rd_in_range ts i) as (t & -> & Ht); [lia|]. cbn [mbind outcome_bind]. case_bool_decide.
    + apply completes_Ret. split; [lia|]. by exists t.
    + eapply completes_mono; [apply IH; lia|]. intros [j|] Hr; cbn in Hr |- *.
      * destruct Hr as (? & ?). split; [lia|done].
      * intros j u Hj Hu. destruct (decide (i = j)) as [->|]; [congruence|]. apply (Hr j); [lia|done].
Qed.

Lemma store_frame_ok hb sp ws h bl x n t :
  arena_ok hb -> heap_inv hb h bl -> live_at hb bl x n t ->
  Forall (fun w => x + 16 <= sp + 8 * w.1 /\ sp + 8 * w.1 + 8 <= x + n) ws ->
  completes (store_frame hb sp ws h) (fun h' => heap_inv hb h' bl).
Proof.
  intros Hb Hinv Hx Hws. pose proof (live_at_range _ _ _ _ _ _ (inv_blocks _ _ _ Hinv) Hx) as Hr.
  pose proof (inv_end _ _ _ Hinv) as He. pose proof (inv_fit _ _ _ Hinv) as Hf. rewrite He in Hr.
  clear He. revert h Hinv Hf Hr. induction Hws as [|[i v] ws [H1 H2] _ IH]; intros h Hinv Hf Hr; cbn [store_frame].
  - by apply completes_Ret.
  - cbn [fst] in *. rewrite st64_ok by lia. cbn [mbind outcome_bind].
    apply IH; [|done|done]. eapply inv_user_write; [done|done|apply store_wf, Hinv|].
    intros y Hy. unfold store64, store_le. rewrite in_block_out by lia. done.
Qed.

Lemma initial_frame_fits arch tramp base :
  let sp := base + SCHED_STACK_SIZE - 8 * (initial_frame arch tramp).1 in
  base <= sp < base + SCHED_STACK_SIZE /\
  Forall (fun w => base <= sp + 8 * w.1 /\ sp + 8 * w.1 + 8 <= base + SCHED_STACK_SIZE) (initial_frame arch tramp).2.
Proof.
  unfold initial_frame, SCHED_STACK_SIZE. destruct arch; cbn [fst snd];
    (split; [lia|]); repeat constructor; cbn [fst]; lia.
Qed.

(** What a created thread looks like. *)
Definition created (hb : Z) (pid : Z) (t : thread) (h' : heap) : Prop :=
  id t = pid /\ state t = THREAD_STATE_READY /\ cwd t = [47] /\
  exists bl' n, heap_inv hb h' bl' /\ live_at hb bl' (stack_base t - 16) n ALLOC_TAG_KERNEL /\
    SCHED_STACK_SIZE + 16 <= n /\ stack_top t = stack_base t + SCHED_STACK_SIZE /\
    stack_base t <= rsp t < stack_top t.

Lemma k_env_ok s c : sched_ok s c -> exists e, k_env s = Ret e.
Proof.
  intros [Hl Hc Hr _ _ _]. unfold k_env, thread_id. rewrite Hc.
  destruct (rd_in_range (g_tasks s) c) as (t & -> & _); [lia|]. by eexists.
Qed.

Lemma stack_malloc hb e h bl :
  arena_ok hb -> heap_inv hb h bl ->
  completes (sage_malloc hb e SCHED_STACK_SIZE h) (fun r =>
    (r = (0, h) /\ no_fit (needed_of SCHED_STACK_SIZE) bl /\
       SAGE_ARENA_SIZE < sage_bump h + needed_of SCHED_STACK_SIZE) \/
    exists bl' n, heap_inv hb r.2 bl' /\ live_at hb bl' (r.1 - 16) n ALLOC_TAG_KERNEL /\
      SCHED_STACK_SIZE + 16 <= n /\ hb + 16 <= r.1 /\ r.1 - 16 + n <= hb + SAGE_ARENA_SIZE).
Proof.
  intros Hb Hinv. eapply completes_mono; [by apply (malloc_ok hb Hb e h bl)|].
  intros [p h'] [?|(bl' & _ & [Hinv' _ (n & Hn & Hl & _)])]; [by left|]. right. exists bl', n. cbn [fst snd] in *.
  pose proof (live_at_range _ _ _ _ _ _ (inv_blocks _ _ _ Hinv') Hl) as Hr.
  rewrite (inv_end _ _ _ Hinv') in Hr. pose proof (inv_fit _ _ _ Hinv').
  pose proof (needed_bounds SCHED_STACK_SIZE ltac:(done)). split_and!; try done; lia.
Qed.

(** With NULL for the stack the frame lies below the heap. *)
Lemma store_frame_low arch hb tramp h :
  SCHED_STACK_SIZE <= hb ->
  store_frame hb (u64 (0 + SCHED_STACK_SIZE) - 8 * (initial_frame arch tramp).1)
    (initial_frame arch tramp).2 h = Fault.
Proof.
  unfold SCHED_STACK_SIZE. intros Hlow. change (u64 (0 + 65536)) with 65536.
  destruct arch; cbn [initial_frame fst snd store_frame]; unfold st64, mapped;
    match goal with |- context [hb <=? ?x] => destruct (Z.leb_spec hb x); [lia|done] end.
Qed.

(** [sched_create_thread] fills the first unused table entry with a ready
    thread that has the next process id, the working directory "/" and a stack
    of its own inside the heap with its initial frame at the top; the other
    threads and their states stay as they are.  It returns NULL exactly when the
    table is full.  When the heap is exhausted the result of [sage_malloc] is
    not tested and the initial frame is written below the heap, at addresses
    under 64 KiB; nothing else makes the operation fail. *)
Theorem create_thread_spec arch hb sb tramp nm ent a prio s c bl :
  arena_ok hb -> SCHED_STACK_SIZE <= hb -> sched_ok s c -> heap_inv hb (k_heap s) bl ->
  match sched_create_thread arch hb sb tramp nm ent a prio s with
  | Ret (None, s') => s' = s /\ forall i, ~ has_state s i THREAD_STATE_UNUSED
  | Ret (Some i, s') => has_state s i THREAD_STATE_UNUSED /\
      (exists t, (g_tasks s').[i] = Some t /\ created hb (g_next_pid s) t (k_heap s')) /\
      (forall j, j <> i -> (g_tasks s').[j] = (g_tasks s).[j]) /\
      g_next_pid s' = u32 (g_next_pid s + 1)
  | Fault => no_fit (needed_of SCHED_STACK_SIZE) bl /\
      SAGE_ARENA_SIZE < sage_bump (k_heap s) + needed_of SCHED_STACK_SIZE
  | OutOfFuel => False
  end.
Proof.
  intros Hb Hlow Hok Hh. pose proof Hok as [Hl _ _ _ _ Hx]. unfold sched_create_thread.
  destruct (find_state_ok (Z.to_nat MAX_TASKS) 0 THREAD_STATE_UNUSED (g_tasks s)) as ([i|] & -> & Hf);
    [done|by rewrite Hl| |]; cbn [mbind outcome_bind].
  2:{ split; [done|]. intros i (t & Ht & Hst). apply (Hf i t); [|done|done]. apply zget_Some_bound in Ht. lia. }
  destruct Hf as [Hi Hu]. rewrite wr_in_range by lia. cbn [mbind outcome_bind].
  destruct (sched_ipc_init_thread_ok (g_next_pid s) _ Hx) as (exts & -> & Hx' & _). cbn [mbind outcome_bind].
  set (s1 := with_g_tasks _ _). assert (sched_ok s1 c) as Hok1 by (destruct Hok; split; cbn; rewrite ?zlen_zset; done).
  destruct (k_env_ok s1 c Hok1) as (e & He).
  destruct (stack_malloc hb e (k_heap s) bl Hb Hh) as ([base h1] & Em & Hm).
  rewrite (k_malloc_ok hb sb SCHED_STACK_SIZE s1 e base h1) by (done || by rewrite (ok_inited _ _ Hok1)). cbn [mbind outcome_bind fst snd] in *.
  change (k_heap (with_k_heap h1 s1)) with h1. change (g_tasks (with_k_heap h1 s1)) with ((g_tasks s).[i <- new_thread (g_next_pid s) nm ent a prio]).
  destruct Hm as [([= -> ->] & Hm)|(bl' & n & Hinv1 & Hlive & Hn & Hlo & Hhi)].
  { rewrite store_frame_low by done. done. }
  pose proof (base_top _ Hb). rewrite u64_small by (unfold SCHED_STACK_SIZE in *; lia).
  destruct (initial_frame_fits arch tramp base) as [Hsp Hws].
  destruct (store_frame_ok hb (base + SCHED_STACK_SIZE - 8 * (initial_frame arch tramp).1)
    (initial_frame arch tramp).2 h1 bl' (base - 16) n ALLOC_TAG_KERNEL Hb Hinv1 Hlive) as (h2 & -> & Hinv2).
  { eapply Forall_impl; [exact Hws|]. intros w [? ?]. lia. }
  cbn [mbind outcome_bind]. rewrite (rd_some _ _ (new_thread (g_next_pid s) nm ent a prio)) by (apply zget_zset_eq; lia). cbn [mbind outcome_bind].
  rewrite wr_in_range by (rewrite zlen_zset; lia). cbn [mbind outcome_bind]. rewrite zset_zset_eq. split_and!; [done| | |done].
  - eexists. split; [by apply zget_zset_eq|]. split_and!; try done. by exists bl', n.
  - intros j Hj. cbn. by rewrite zget_zset_ne.
Qed.

Lemma create_thread_spec_witness :
  match sched_create_thread TIMER_ARCH_RV64 65536 0 4096 [97] 0 0 THREAD_PRIORITY_NORMAL two_threads with
  | Ret (None, s') => s' = two_threads /\ forall i, ~ has_state two_threads i THREAD_STATE_UNUSED
  | Ret (Some i, s') => has_state two_threads i THREAD_STATE_UNUSED /\
      (exists t, (g_tasks s').[i] = Some t /\ created 65536 (g_next_pid two_threads) t (k_heap s')) /\
      (forall j, j <> i -> (g_tasks s').[j] = (g_tasks two_threads).[j]) /\
      g_next_pid s' = u32 (g_next_pid two_threads + 1)
  | Fault => no_fit (needed_of SCHED_STACK_SIZE) [] /\
      SAGE_ARENA_SIZE < sage_bump (k_heap two_threads) + needed_of SCHED_STACK_SIZE
  | OutOfFuel => False
  end.
Proof.
  apply (create_thread_spec TIMER_ARCH_RV64 65536 0 4096 [97] 0 0 THREAD_PRIORITY_NORMAL two_threads 0 []).
  - apply arena_65536.
  - vm_compute. discriminate.
  - apply two_threads_ok.
  - apply empty_inv; [apply arena_65536|apply mem_zero_wf|reflexivity].
Defined.

(** The capability tables number 64 while there are 128 task entries: creating
    a thread replaces the capability table of every thread whose id is equal to
    the new one modulo 64 by the initial one. *)
Theorem create_thread_resets_shared_table arch hb sb tramp nm ent a prio s s' i tid :
  g_sched_inited s <> 0 -> exts_ok (g_thread_ipc_ext s) ->
  sched_create_thread arch hb sb tramp nm ent a prio s = Ret (Some i, s') ->
  tid mod SCHED_MAX_THREADS = g_next_pid s mod SCHED_MAX_THREADS ->
  exists tab, task_ipc_cap_table tid (g_thread_ipc_ext s') = Ret tab /\
    (caps tab).[0] = Some root_dir_cap /\
    forall h, 0 < h < IPC_CAP_MAX_PER_TASK -> (caps tab).[h] = Some cap_zero.
Proof.
  intros Hi Hx E Hid. apply create_thread_inv in E as (t & exts & base & h & _ & _ & E & ->); [|done].
  destruct (sched_ipc_init_thread_ok (g_next_pid s) _ Hx) as (exts' & E' & _ & tab & Htab & Hrest).
  rewrite E in E'. injection E' as <-. cbn [g_thread_ipc_ext with_k_heap with_g_tasks with_g_thread_ipc_ext].
  exists tab. split; [|done]. rewrite <- Htab. unfold task_ipc_cap_table, ext_index. by rewrite Hid.
Qed.

Lemma create_thread_resets_shared_table_witness :
  let s := with_g_next_pid 65 two_threads in
  exists s' tab,
    sched_create_thread TIMER_ARCH_RV64 65536 0 4096 [97] 0 0 THREAD_PRIORITY_NORMAL s = Ret (Some 2, s') /\
    task_ipc_cap_table 1 (g_thread_ipc_ext s') = Ret tab /\ (caps tab).[0] = Some root_dir_cap.
Proof.
  intros s.
  assert (match sched_create_thread TIMER_ARCH_RV64 65536 0 4096 [97] 0 0 THREAD_PRIORITY_NORMAL s with
          | Ret (Some i, _) => i | _ => 0 end = 2) as E by (vm_compute; reflexivity).
  destruct (sched_create_thread TIMER_ARCH_RV64 65536 0 4096 [97] 0 0 THREAD_PRIORITY_NORMAL s)
    as [[[i|] s']| |] eqn:Ec; try discriminate. rewrite E in *. exists s'.
  destruct (create_thread_resets_shared_table TIMER_ARCH_RV64 65536 0 4096 [97] 0 0 THREAD_PRIORITY_NORMAL s s' 2 1)
    as (tab & Ht & H0 & _); [done|apply exts_static|exact Ec|reflexivity|].
  exists tab. split; [reflexivity|]. split; assumption.
Defined.

(** Before [sched_init] the allocation of the stack initialises the table of threads
    and erases the new entry: the thread is lost, and the idle thread gets its stack. *)
Lemma create_before_init :
  match sched_create_thread TIMER_ARCH_RV64 65536 0 4096 [97] 7 0 THREAD_PRIORITY_NORMAL kstate_static with
  | Ret (r, s) => r = Some 0 /\ g_current_task s = Some 0 /\
      (fun t => (name t, entry t, stack_base t)) <$> (g_tasks s).[0] = Some ([105; 100; 108; 101], 0, 65552)
  | _ => False
  end.
Proof. vm_compute. done. Qed.

Lemma wake_runnable t :
  state t = THREAD_STATE_READY \/ state t = THREAD_STATE_BLOCKED -> runnable (wake_blocked t) = true.
Proof.
  unfold wake_blocked. intros [H|H]; rewrite H.
  - rewrite bool_decide_eq_false_2 by done. unfold runnable. by rewrite H.
  - rewrite bool_decide_eq_true_2 by done. done.
Qed.

(** [sched_exit] makes every blocked thread ready, whatever it waits for, and
    then hands the processor over; the thread that exits never runs again. *)
Theorem exit_wakes_all_blocked arch hw sb fuel s c :
  sched_ok s c -> one_running s c ->
  match sched_exit arch hw sb fuel s with
  | PSwitch _ to s' _ => g_current_task s' = Some to /\ has_state s' c THREAD_STATE_TERMINATED /\
      (forall i, i <> c -> i <> to -> has_state s i THREAD_STATE_BLOCKED -> has_state s' i THREAD_STATE_READY) /\
      (forall i t, (g_tasks s').[i] = Some t -> state t <> THREAD_STATE_BLOCKED)
  | PDone _ _ => False
  | _ => forall i t, i <> c -> (g_tasks s).[i] = Some t ->
      state t <> THREAD_STATE_READY /\ state t <> THREAD_STATE_BLOCKED
  end.
Proof.
  intros Hok Ho. unfold sched_exit. rewrite (ok_cur _ _ Hok).
  destruct (current_runs _ _ Hok Ho) as (tc & Htc & _). rewrite (set_thread_state_ok _ _ _ _ Htc).
  cbn [mbind outcome_bind plift pbind]. set (s2 := with_g_tasks _ _).
  pose proof (ok_range _ _ Hok) as Hr.
  assert (Hok2 : sched_ok s2 c).
  { destruct Hok as [Hl ? ? ? ? ?]. split; try done. cbn. unfold zlen in *. by rewrite length_fmap, length_alter. }
  assert (Hs2 : forall i, (g_tasks s2).[i] = (fun t => wake_blocked (if c =? i then with_state THREAD_STATE_TERMINATED t else t)) <$> (g_tasks s).[i]).
  { intros i. cbn. rewrite zget_fmap, alter_zget by lia. destruct (c =? i); [by rewrite <- option_fmap_compose|done]. }
  destruct (pick_next_ok s2 c Hok2) as ([j0|] & _ & Hj0).
  - destruct (sched_schedule_ok arch hw sb fuel s2 c Hok2) as (j & Hj & [[-> E]|[Hne (s' & E & tr & Hsw)]]).
    { destruct Hj0 as (d & _ & _ & ? & _). by eexists. }
    + exfalso. destruct Hj as (_ & _ & _ & (t & Ht & Hrun) & _). rewrite Hs2, Htc, Z.eqb_refl in Ht. injection Ht as <-. done.
    + rewrite E. cbn [pbind]. subst s'. pose proof Hj as (d & _ & Hjd & _).
      assert (0 <= j < MAX_TASKS) by (rewrite Hjd; by apply Z.mod_pos_bound).
      assert (Hget : forall i, (alter (with_state THREAD_STATE_RUNNING) (Z.to_nat j) (alter (fun t =>
        if bool_decide (state t = THREAD_STATE_RUNNING) then with_state THREAD_STATE_READY t else t) (Z.to_nat c) (g_tasks s2))).[i] =
        (fun t => let t1 := wake_blocked (if c =? i then with_state THREAD_STATE_TERMINATED t else t) in
                  if j =? i then with_state THREAD_STATE_RUNNING t1 else t1) <$> (g_tasks s).[i]).
      { intros i. rewrite !alter_zget, Hs2 by lia. destruct (Z.eqb_spec j i), (Z.eqb_spec c i); try lia;
          destruct ((g_tasks s).[i]); done. }
      split_and!; [done|..]; unfold has_state; cbn [g_tasks with_k_heap with_in_sched with_g_current_task with_g_tasks].
      * eexists. rewrite Hget, Htc, Z.eqb_refl. split; [done|]. by destruct (Z.eqb_spec j c).
      * intros i Hic Hij (t & Ht & Hst). eexists. rewrite Hget, Ht. split; [done|].
        destruct (Z.eqb_spec j i), (Z.eqb_spec c i); try done. cbn. unfold wake_blocked. by rewrite Hst.
      * intros i t. rewrite Hget. intros (t0 & _ & ->)%fmap_Some. unfold wake_blocked.
        destruct (j =? i), (c =? i); cbn; try done; by case_bool_decide.
  - pose proof (sched_schedule_stuck arch hw sb fuel s2 c Hok2 Hj0) as Hst.
    assert (Hno : forall i t, i <> c -> (g_tasks s).[i] = Some t ->
      state t <> THREAD_STATE_READY /\ state t <> THREAD_STATE_BLOCKED).
    { intros i t Hic Ht. split; intros Hs; apply (Hj0 i); eexists; rewrite Hs2, Ht; (split; [done|]);
        (destruct (Z.eqb_spec c i); [done|]); apply wake_runnable; by auto. }
    by destruct (sched_schedule _ _ _ _ _).
Qed.

Lemma exit_wakes_all_blocked_witness :
  match sched_exit TIMER_ARCH_RV64 (fun _ => mk_hw 0 0 0) 0 0 two_threads with
  | PSwitch _ to s' _ => g_current_task s' = Some to /\ has_state s' 0 THREAD_STATE_TERMINATED /\
      (forall i, i <> 0 -> i <> to -> has_state two_threads i THREAD_STATE_BLOCKED -> has_state s' i THREAD_STATE_READY) /\
      (forall i t, (g_tasks s').[i] = Some t -> state t <> THREAD_STATE_BLOCKED)
  | PDone _ _ => False
  | _ => forall i t, i <> 0 -> (g_tasks two_threads).[i] = Some t ->
      state t <> THREAD_STATE_READY /\ state t <> THREAD_STATE_BLOCKED
  end.
Proof.
  apply (exit_wakes_all_blocked TIMER_ARCH_RV64 (fun _ => mk_hw 0 0 0) 0 0 two_threads 0); apply two_threads_ok.
Defined.

End SchedSpec.
