(* ===== verification/Ipc.v ===== *)
(** * Inter-process communication (kernel/core/ipc.c, include/ipc.h)

    Endpoints with their message rings, ports, shared-memory descriptors, the
    service namespace, and the system calls on them, over the thread state of
    Sched.  Message rings are heap blocks of 16 messages; [rings] holds their
    contents by address, typed, beside the bytes of the heap.  Locks make the
    sections they guard one step; a call that blocks is a [proc] that gives up
    the processor. *)

From stdpp Require Import base tactics numbers list option gmap.
From S2P Require Import Prelude Proc Telemetry CMem Alloc Timer Caps Sched.

Module Ipc.
Import Telemetry Alloc Timer Caps Sched.

(** ** Model *)

Definition IPC_MAX_ENDPOINTS : Z := 128.
Definition IPC_MAX_PORTS : Z := 32.
Definition IPC_MAX_SHM : Z := 32.
Definition IPC_MAX_NS_ENTRIES : Z := 256.
Definition IPC_NS_MAX_NAME_LEN : Z := 64.
Definition IPC_MSG_MAX_BYTES : Z := 4096.
Definition IPC_MSG_MAX_CAPS : Z := 8.
Definition IPC_MSG_MAGIC : Z := 1229996833. (* 0x49504321 *)
Definition IPC_MSGF_NOBLOCK : Z := 1.
Definition IPC_MSGF_CAP_TRANSFER : Z := 4.
Definition SIZEOF_ipc_msg : Z := 4156.
Definition RING_SIZE : Z := 16.

Record msg_header := mk_hdr {
  magic : Z;
  msg_type : Z;
  sender_task : Z;
  sender_cap : Z;
  msg_flags : Z;
  payload_len : Z;
  cap_count : Z
}.

Definition with_sender_task (x : Z) (m : msg_header) : msg_header :=
  mk_hdr (magic m) (msg_type m) x (sender_cap m) (msg_flags m) (payload_len m) (cap_count m).
Definition with_sender_cap (x : Z) (m : msg_header) : msg_header :=
  mk_hdr (magic m) (msg_type m) (sender_task m) x (msg_flags m) (payload_len m) (cap_count m).
Record ipc_msg := mk_msg {
  hdr : msg_header;
  payload : list Z;
  msg_caps : list Z
}.

Definition with_hdr (x : msg_header) (i : ipc_msg) : ipc_msg :=
  mk_msg x (payload i) (msg_caps i).

Record endpoint := mk_ep {
  ep_id : Z;
  ep_type : ipc_obj_type;
  ep_state : ipc_lifecycle_state;
  msg_ring : Z;
  ring_size : Z;
  head : Z;
  tail : Z;
  msg_count : Z;
  peer_cap : Z;
  bound_task : Z;
  wait_head : option Z;
  wait_tail : option Z;
  msgs_sent : Z;
  msgs_recv : Z;
  bytes_moved : Z;
  drops : Z
}.

Definition with_ep_state (x : ipc_lifecycle_state) (e : endpoint) : endpoint :=
  mk_ep (ep_id e) (ep_type e) x (msg_ring e) (ring_size e) (head e) (tail e) (msg_count e)
    (peer_cap e) (bound_task e) (wait_head e) (wait_tail e) (msgs_sent e) (msgs_recv e)
    (bytes_moved e) (drops e).
Definition with_msg_ring (x : Z) (e : endpoint) : endpoint :=
  mk_ep (ep_id e) (ep_type e) (ep_state e) x (ring_size e) (head e) (tail e) (msg_count e)
    (peer_cap e) (bound_task e) (wait_head e) (wait_tail e) (msgs_sent e) (msgs_recv e)
    (bytes_moved e) (drops e).
Definition with_drops (x : Z) (e : endpoint) : endpoint :=
  mk_ep (ep_id e) (ep_type e) (ep_state e) (msg_ring e) (ring_size e) (head e) (tail e)
    (msg_count e) (peer_cap e) (bound_task e) (wait_head e) (wait_tail e) (msgs_sent e)
    (msgs_recv e) (bytes_moved e) x.

Record shared_mem := mk_shm {
  shm_id : Z;
  shm_type : ipc_obj_type;
  shm_state : ipc_lifecycle_state;
  kernel_vaddr : Z;
  user_vaddr : Z;
  shm_size : Z;
  shm_owner : Z;
  map_count : Z;
  shm_prot : Z;
  shm_flags : Z
}.

Definition with_shm_state (x : ipc_lifecycle_state) (s : shared_mem) : shared_mem :=
  mk_shm (shm_id s) (shm_type s) x (kernel_vaddr s) (user_vaddr s) (shm_size s) (shm_owner s)
    (map_count s) (shm_prot s) (shm_flags s).

Record port := mk_port {
  port_id : Z;
  port_type : ipc_obj_type;
  port_state : ipc_lifecycle_state;
  port_owner : Z;
  backlog : Z;
  pending_count : Z;
  overlay_head : option Z;
  overlay_tail : option Z
}.

Definition with_port_state (x : ipc_lifecycle_state) (p : port) : port :=
  mk_port (port_id p) (port_type p) x (port_owner p) (backlog p) (pending_count p)
    (overlay_head p) (overlay_tail p).

Record ns_entry := mk_ns {
  ns_name : list Z;
  ns_cap : Z;
  ns_owner : Z;
  child : option Z;
  sibling : option Z
}.

Definition with_child (x : option Z) (n : ns_entry) : ns_entry :=
  mk_ns (ns_name n) (ns_cap n) (ns_owner n) x (sibling n).

Record istate := mk_i {
  i_k : kstate;
  g_endpoints : list endpoint;
  g_shm : list shared_mem;
  g_ports : list port;
  g_ns_entries : list ns_entry;
  ns_root : option Z;
  ns_count : Z;
  rings : gmap Z (list ipc_msg)
}.

Definition with_i_k (x : kstate) (i : istate) : istate :=
  mk_i x (g_endpoints i) (g_shm i) (g_ports i) (g_ns_entries i) (ns_root i) (ns_count i) (rings i).
Definition with_g_endpoints (x : list endpoint) (i : istate) : istate :=
  mk_i (i_k i) x (g_shm i) (g_ports i) (g_ns_entries i) (ns_root i) (ns_count i) (rings i).
Definition with_g_shm (x : list shared_mem) (i : istate) : istate :=
  mk_i (i_k i) (g_endpoints i) x (g_ports i) (g_ns_entries i) (ns_root i) (ns_count i) (rings i).
Definition with_g_ports (x : list port) (i : istate) : istate :=
  mk_i (i_k i) (g_endpoints i) (g_shm i) x (g_ns_entries i) (ns_root i) (ns_count i) (rings i).
Definition with_g_ns_entries (x : list ns_entry) (i : istate) : istate :=
  mk_i (i_k i) (g_endpoints i) (g_shm i) (g_ports i) x (ns_root i) (ns_count i) (rings i).
Definition with_ns_root (x : option Z) (i : istate) : istate :=
  mk_i (i_k i) (g_endpoints i) (g_shm i) (g_ports i) (g_ns_entries i) x (ns_count i) (rings i).
Definition with_ns_count (x : Z) (i : istate) : istate :=
  mk_i (i_k i) (g_endpoints i) (g_shm i) (g_ports i) (g_ns_entries i) (ns_root i) x (rings i).
Definition with_rings (x : gmap Z (list ipc_msg)) (i : istate) : istate :=
  mk_i (i_k i) (g_endpoints i) (g_shm i) (g_ports i) (g_ns_entries i) (ns_root i) (ns_count i) x.

(** The wait queue of a port is reached through a cast to [ipc_endpoint_t]: the
    two words at the place of [wait_head] and [wait_tail] of an endpoint lie in
    the first pending entry; they are [overlay_head] and [overlay_tail].  The
    pending entries are not accessed otherwise. *)

Definition hdr_zero : msg_header := mk_hdr 0 0 0 0 0 0 0.
Definition msg_zero : ipc_msg :=
  mk_msg hdr_zero (replicate (Z.to_nat IPC_MSG_MAX_BYTES) 0) (replicate (Z.to_nat IPC_MSG_MAX_CAPS) 0).
Definition ep_zero (i : Z) (st : ipc_lifecycle_state) (ty : ipc_obj_type) : endpoint :=
  mk_ep i ty st 0 0 0 0 0 0 0 None None 0 0 0 0.
Definition shm_zero (i : Z) (st : ipc_lifecycle_state) (ty : ipc_obj_type) : shared_mem :=
  mk_shm i ty st 0 0 0 0 0 0 0.
Definition port_zero (i : Z) (st : ipc_lifecycle_state) (ty : ipc_obj_type) : port :=
  mk_port i ty st 0 0 0 None None.
Definition ns_zero : ns_entry := mk_ns [] 0 0 None None.

#[global] Instance ipc_msg_inhabited : Inhabited ipc_msg := populate msg_zero.

(** [ipc_subsystem_init]: everything zeroed, all objects dead. *)
Definition ipc_subsystem_init (s : istate) : istate :=
  mk_i (with_g_thread_ipc_ext (replicate (Z.to_nat SCHED_MAX_THREADS) ext_zero) (i_k s))
    ((fun i => ep_zero i IPC_STATE_DEAD IPC_OBJ_NONE) <$> seqZ 0 IPC_MAX_ENDPOINTS)
    ((fun i => shm_zero i IPC_STATE_DEAD IPC_OBJ_NONE) <$> seqZ 0 IPC_MAX_SHM)
    ((fun i => port_zero i IPC_STATE_DEAD IPC_OBJ_NONE) <$> seqZ 0 IPC_MAX_PORTS)
    (replicate (Z.to_nat IPC_MAX_NS_ENTRIES) ns_zero) None 0 (rings s).

(** Running scheduler code inside the larger state. *)
Definition on_k {A} (m : outcome (A * kstate)) (s : istate) : outcome (A * istate) :=
  '(a, k) ← m; Ret (a, with_i_k k s).

Fixpoint proc_on_k {A} (m : proc kstate A) (s : istate) : proc istate A :=
  match m with
  | PDone a k => PDone a (with_i_k k s)
  | PSwitch from to k c => PSwitch from to (with_i_k k s) (fun s' => proc_on_k (c (i_k s')) s')
  | PHalt k => PHalt (with_i_k k s)
  | PFault => PFault
  | PFuel => PFuel
  end.

(** [ipc_lifecycle_transition]: compare-and-swap of the state. *)
Definition transition_from (new_state : ipc_lifecycle_state) : option ipc_lifecycle_state :=
  match new_state with
  | IPC_STATE_ACTIVE => Some IPC_STATE_CONSTRUCTED
  | IPC_STATE_PAUSED => Some IPC_STATE_ACTIVE
  | IPC_STATE_DRAINING => Some IPC_STATE_ACTIVE
  | IPC_STATE_DEAD => Some IPC_STATE_PAUSED
  | IPC_STATE_CONSTRUCTED => None
  end.

Definition cas_state (expected new_state : ipc_lifecycle_state) (e : endpoint) : bool * endpoint :=
  if bool_decide (ep_state e = expected) then (true, with_ep_state new_state e) else (false, e).

Definition ipc_lifecycle_transition (e : endpoint) (new_state : ipc_lifecycle_state) : bool * endpoint :=
  match transition_from new_state with
  | Some expected => cas_state expected new_state e
  | None => (false, e)
  end.

Section ipc.
Context (arch : timer_arch) (hw : nat -> hw_regs) (heap_base stack_bottom : Z).

(** [current_task()] and its capability table. *)
Definition current_task (s : istate) : outcome (option Z * istate) :=
  on_k (sched_current_thread stack_bottom (i_k s)) s.

Definition task_id (i : Z) (s : istate) : outcome Z :=
  t ← rd (g_tasks (i_k s)) i; Ret (id t).

Definition get_cap_table (i : Z) (s : istate) : outcome table :=
  tid ← task_id i s; task_ipc_cap_table tid (g_thread_ipc_ext (i_k s)).

Definition put_cap_table (i : Z) (tab : table) (s : istate) : outcome istate :=
  tid ← task_id i s;
  exts ← set_cap_table tid tab (g_thread_ipc_ext (i_k s));
  Ret (with_i_k (with_g_thread_ipc_ext exts (i_k s)) s).

Definition ipc_cap_resolve (t handle : Z) (s : istate) : outcome (option capability) :=
  tab ← get_cap_table t s;
  if IPC_CAP_MAX_PER_TASK <=? handle then Ret None
  else c ← rd (caps tab) handle; Ret (if ipc_cap_is_valid c then Some c else None).

Definition reusable (st : ipc_lifecycle_state) : bool :=
  bool_decide (st = IPC_STATE_DEAD) || bool_decide (st = IPC_STATE_CONSTRUCTED).

(** First index from [i] of [n] objects whose state allows reuse. *)
Fixpoint find_reusable {A} (st : A -> ipc_lifecycle_state) (n : nat) (i : Z) (l : list A) : outcome (option Z) :=
  match n with
  | O => Ret None
  | S m => x ← rd l i; if reusable (st x) then Ret (Some i) else find_reusable st m (i + 1) l
  end.

Definition ipc_alloc_endpoint (s : istate) : outcome (option Z * istate) :=
  r ← find_reusable ep_state (Z.to_nat IPC_MAX_ENDPOINTS) 0 (g_endpoints s);
  match r with
  | Some i => eps ← wr (g_endpoints s) i (ep_zero i IPC_STATE_CONSTRUCTED IPC_OBJ_ENDPOINT);
              Ret (Some i, with_g_endpoints eps s)
  | None => Ret (None, s)
  end.

Definition ipc_alloc_port (s : istate) : outcome (option Z * istate) :=
  r ← find_reusable port_state (Z.to_nat IPC_MAX_PORTS) 0 (g_ports s);
  match r with
  | Some i => ps ← wr (g_ports s) i (port_zero i IPC_STATE_CONSTRUCTED IPC_OBJ_PORT);
              Ret (Some i, with_g_ports ps s)
  | None => Ret (None, s)
  end.

Definition ipc_alloc_shm (s : istate) : outcome (option Z * istate) :=
  r ← find_reusable shm_state (Z.to_nat IPC_MAX_SHM) 0 (g_shm s);
  match r with
  | Some i => ps ← wr (g_shm s) i (shm_zero i IPC_STATE_CONSTRUCTED IPC_OBJ_SHARED_MEM);
              Ret (Some i, with_g_shm ps s)
  | None => Ret (None, s)
  end.

Definition update_ep (i : Z) (f : endpoint -> endpoint) (s : istate) : outcome istate :=
  e ← rd (g_endpoints s) i; eps ← wr (g_endpoints s) i (f e); Ret (with_g_endpoints eps s).

(** The element [slot] of the ring at [addr]. *)
Definition ring_read (addr slot : Z) (s : istate) : outcome ipc_msg :=
  match rings s !! addr with Some r => rd r slot | None => Fault end.
Definition ring_write (addr slot : Z) (m : ipc_msg) (s : istate) : outcome istate :=
  match rings s !! addr with
  | Some r => r' ← wr r slot m; Ret (with_rings (<[addr := r']> (rings s)) s)
  | None => Fault
  end.

(** Remainder by a ring size; by zero is undefined. *)
Definition ring_mod (x n : Z) : outcome Z := if n =? 0 then Fault else Ret (x mod n).

(** Take the first waiting thread off the queue and make it ready. *)
Definition wake_waiter (i : Z) (s : istate) : outcome istate :=
  e ← rd (g_endpoints s) i;
  match wait_head e with
  | None => Ret s
  | Some w =>
      t ← rd (g_tasks (i_k s)) w;
      s1 ← update_ep i (fun e =>
        mk_ep (ep_id e) (ep_type e) (ep_state e) (msg_ring e) (ring_size e) (head e) (tail e) (msg_count e)
          (peer_cap e) (bound_task e) (next t) (match next t with None => None | Some _ => wait_tail e end)
          (msgs_sent e) (msgs_recv e) (bytes_moved e) (drops e)) s;
      k ← sched_unblock (Some w) (i_k s1);
      Ret (with_i_k k s1)
  end.

Definition ipc_msg_enqueue (i : Z) (m : ipc_msg) (s : istate) : outcome (Z * istate) :=
  e ← rd (g_endpoints s) i;
  if negb (bool_decide (ep_state e = IPC_STATE_ACTIVE)) && negb (bool_decide (ep_state e = IPC_STATE_DRAINING))
  then Ret (-1, s)
  else if ring_size e <=? msg_count e then
    s1 ← update_ep i (with_drops (u64 (drops e + 1))) s; Ret (-1, s1)
  else
    slot ← ring_mod (head e) (ring_size e);
    s1 ← ring_write (msg_ring e) slot m s;
    s2 ← update_ep i (fun e =>
      mk_ep (ep_id e) (ep_type e) (ep_state e) (msg_ring e) (ring_size e)
        (u32 (head e + 1) mod ring_size e) (tail e) (u32 (msg_count e + 1)) (peer_cap e) (bound_task e)
        (wait_head e) (wait_tail e) (u64 (msgs_sent e + 1)) (msgs_recv e)
        (u64 (bytes_moved e + payload_len (hdr m))) (drops e)) s1;
    s3 ← wake_waiter i s2;
    Ret (0, s3).

Definition ipc_msg_dequeue (i : Z) (s : istate) : outcome (Z * option ipc_msg * istate) :=
  e ← rd (g_endpoints s) i;
  if msg_count e =? 0 then
    if bool_decide (ep_state e = IPC_STATE_DRAINING) || bool_decide (ep_state e = IPC_STATE_DEAD)
    then Ret (-1, None, s) else Ret (-2, None, s)
  else
    slot ← ring_mod (tail e) (ring_size e);
    m ← ring_read (msg_ring e) slot s;
    s1 ← update_ep i (fun e =>
      mk_ep (ep_id e) (ep_type e) (ep_state e) (msg_ring e) (ring_size e) (head e)
        (u32 (tail e + 1) mod ring_size e) (u32 (msg_count e - 1)) (peer_cap e) (bound_task e)
        (wait_head e) (wait_tail e) (msgs_sent e) (u64 (msgs_recv e + 1)) (bytes_moved e) (drops e)) s;
    Ret (0, Some m, s1).

Definition with_wait (qh qt : option Z) (e : endpoint) : endpoint :=
  mk_ep (ep_id e) (ep_type e) (ep_state e) (msg_ring e) (ring_size e) (head e) (tail e) (msg_count e)
    (peer_cap e) (bound_task e) qh qt (msgs_sent e) (msgs_recv e) (bytes_moved e) (drops e).

(** [ipc_wait_enqueue] on a queue given by its two ends; returns the new ends. *)
Definition wait_enqueue (qh qt : option Z) (t : Z) (s : istate) : outcome (option Z * option Z * istate) :=
  tt ← rd (g_tasks (i_k s)) t;
  ts ← wr (g_tasks (i_k s)) t (with_next None tt);
  '(qh', ts') ←
    (match qh with
     | None => Ret (Some t, ts)
     | Some _ =>
         match qt with
         | None => Fault
         | Some w => tw ← rd ts w; ts' ← wr ts w (with_next (Some t) tw); Ret (qh, ts')
         end
     end);
  t2 ← rd ts' t;
  ts'' ← wr ts' t (with_state THREAD_STATE_BLOCKED t2);
  Ret (qh', Some t, with_i_k (with_g_tasks ts'' (i_k s)) s).

Definition ep_wait_enqueue (i t : Z) (s : istate) : outcome istate :=
  e ← rd (g_endpoints s) i;
  '(qh, qt, s1) ← wait_enqueue (wait_head e) (wait_tail e) t s;
  update_ep i (with_wait qh qt) s1.

(** ** Names *)

(** [strtok] with the delimiter '.' (46): the next token and what follows it;
    the rest is [None] when the text is used up. *)
Fixpoint skip_dots (s : list Z) : list Z :=
  match s with
  | c :: r => if c =? 46 then skip_dots r else s
  | [] => []
  end.

Fixpoint take_token (s : list Z) : list Z * option (list Z) :=
  match s with
  | [] => ([], None)
  | c :: r => if c =? 46 then ([], Some r) else let '(tk, rest) := take_token r in (c :: tk, rest)
  end.

Definition strtok (s : option (list Z)) : option (list Z * option (list Z)) :=
  match s with
  | None => None
  | Some str =>
      match skip_dots str with
      | [] => None
      | start => Some (take_token start)
      end
  end.

(** The children of an entry, looked through for a name; [fuel] bounds the
    sibling list. *)
Fixpoint find_child (fuel : nat) (c : option Z) (tok : list Z) (es : list ns_entry) : outcome (option Z) :=
  match c with
  | None => Ret None
  | Some i =>
      match fuel with
      | O => OutOfFuel
      | S n =>
          e ← rd es i;
          if bool_decide (ns_name e = tok) then Ret (Some i) else find_child n (sibling e) tok es
      end
  end.

(** Enough for the sibling lists and for the tokens of a name. *)
Definition ns_fuel : nat := Z.to_nat (IPC_MAX_NS_ENTRIES + 1).

(** [strncpy(buf, name, 64); buf[63] = 0]. *)
Definition ns_buf (nm : list Z) : list Z := take 63 nm.

Fixpoint ns_find_loop (fuel : nat) (cur : option Z) (rest : option (list Z)) (es : list ns_entry)
  : outcome (option Z) :=
  match strtok rest, cur with
  | Some (tok, rest'), Some c =>
      match fuel with
      | O => OutOfFuel
      | S n =>
          e ← rd es c;
          r ← find_child ns_fuel (child e) tok es;
          match r with
          | Some i => ns_find_loop n (Some i) rest' es
          | None => Ret None
          end
      end
  | _, _ => Ret cur
  end.

Definition ipc_ns_find (nm : list Z) (s : istate) : outcome (option Z) :=
  ns_find_loop ns_fuel (ns_root s) (Some (ns_buf nm)) (g_ns_entries s).

(** One token of [ipc_ns_insert]: the entry below [cur], created if missing;
    [None] when the table is full. *)
Definition ns_step (cur : Z) (tok : list Z) (s : istate) : outcome (option Z * istate) :=
  e ← rd (g_ns_entries s) cur;
  r ← find_child ns_fuel (child e) tok (g_ns_entries s);
  match r with
  | Some i => Ret (Some i, s)
  | None =>
      if IPC_MAX_NS_ENTRIES <=? ns_count s then Ret (None, s)
      else
        let n := ns_count s in
        es1 ← wr (g_ns_entries s) n (mk_ns (take 63 tok) 0 0 None None);
        ec ← rd es1 cur;
        en ← rd es1 n;
        es2 ← wr es1 n (mk_ns (ns_name en) (ns_cap en) (ns_owner en) (child en) (child ec));
        ec2 ← rd es2 cur;
        es3 ← wr es2 cur (with_child (Some n) ec2);
        Ret (Some n, with_g_ns_entries es3 (with_ns_count (u32 (n + 1)) s))
  end.

Fixpoint ns_insert_loop (fuel : nat) (cur : Z) (rest : option (list Z)) (s : istate)
  : outcome (option Z * istate) :=
  match strtok rest with
  | None => Ret (Some cur, s)
  | Some (tok, rest') =>
      match fuel with
      | O => OutOfFuel
      | S n =>
          '(r, s1) ← ns_step cur tok s;
          match r with
          | Some c => ns_insert_loop n c rest' s1
          | None => Ret (None, s1)
          end
      end
  end.

Definition ipc_ns_insert (nm : list Z) (cap_handle owner : Z) (s : istate) : outcome (Z * istate) :=
  s0 ← (match ns_root s with
        | Some _ => Ret s
        | None => es ← wr (g_ns_entries s) 0 ns_zero; Ret (with_ns_root (Some 0) (with_g_ns_entries es s))
        end);
  root ← (match ns_root s0 with Some r => Ret r | None => Fault end);
  '(r, s1) ← ns_insert_loop ns_fuel root (Some (ns_buf nm)) s0;
  match r with
  | None => Ret (-1, s1)
  | Some cur =>
      e ← rd (g_ns_entries s1) cur;
      es ← wr (g_ns_entries s1) cur (mk_ns (ns_name e) cap_handle owner (child e) (sibling e));
      Ret (0, with_g_ns_entries es s1)
  end.

(** ** System calls

    Each returns the C result; handles written through pointers are part of the
    result. *)

Definition set_ep_state (i : Z) (st : ipc_lifecycle_state) (s : istate) : outcome istate :=
  update_ep i (with_ep_state st) s.

(** [sage_malloc_tagged] for a ring of 16 messages; the block is zeroed. *)
Definition ring_alloc (s : istate) : outcome (Z * istate) :=
  e ← k_env (i_k s);
  '(p, h) ← sage_malloc_tagged heap_base e (u64 (SIZEOF_ipc_msg * 16)) ALLOC_TAG_IPC (k_heap (i_k s));
  let s1 := with_i_k (with_k_heap h (i_k s)) s in
  Ret (p, if p =? 0 then s1 else with_rings (<[p := replicate (Z.to_nat RING_SIZE) msg_zero]> (rings s1)) s1).

Definition ring_free (p : Z) (s : istate) : outcome istate :=
  e ← k_env (i_k s);
  h ← sage_free heap_base e p (k_heap (i_k s));
  Ret (with_rings (delete p (rings s)) (with_i_k (with_k_heap h (i_k s)) s)).

Definition with_ring_size (x : Z) (e : endpoint) : endpoint :=
  mk_ep (ep_id e) (ep_type e) (ep_state e) (msg_ring e) x (head e) (tail e) (msg_count e) (peer_cap e)
    (bound_task e) (wait_head e) (wait_tail e) (msgs_sent e) (msgs_recv e) (bytes_moved e) (drops e).

(** The other end and the owner; the endpoint becomes active. *)
Definition link_ep (i peer tid : Z) (s : istate) : outcome istate :=
  update_ep i (fun e =>
    mk_ep (ep_id e) (ep_type e) IPC_STATE_ACTIVE (msg_ring e) (ring_size e) (head e) (tail e) (msg_count e)
      peer tid (wait_head e) (wait_tail e) (msgs_sent e) (msgs_recv e) (bytes_moved e) (drops e)) s.

Definition endpoint_cap (r object tid : Z) : capability := mk_cap r IPC_OBJ_ENDPOINT object 1 tid 0 [].

(** Capabilities for the two ends; [alloc_slot] is called twice before either
    slot is filled. *)
Definition install_endpoint_caps (t es er tid : Z) (s : istate) : outcome (option (Z * Z) * istate) :=
  tab ← get_cap_table t s;
  hs ← ipc_cap_alloc_slot tab;
  hr ← (match hs with Some _ => ipc_cap_alloc_slot tab | None => Ret None end);
  match hs, hr with
  | Some h1, Some h2 =>
      tab1 ← set_cap tab h1
        (endpoint_cap (Z.lor (Z.lor IPC_CAP_RIGHT_SEND IPC_CAP_RIGHT_CALL) IPC_CAP_RIGHT_DUP) es tid);
      tab2 ← set_cap tab1 h2 (endpoint_cap (Z.lor IPC_CAP_RIGHT_RECV IPC_CAP_RIGHT_DUP) er tid);
      s1 ← put_cap_table t tab2 s;
      Ret (Some (h1, h2), s1)
  | _, _ =>
      s1 ← set_ep_state es IPC_STATE_DEAD s;
      s2 ← set_ep_state er IPC_STATE_DEAD s1;
      Ret (None, s2)
  end.

(** Two endpoints from the pool. *)
Definition alloc_pair (s : istate) : outcome (option (Z * Z) * istate) :=
  '(r1, s1) ← ipc_alloc_endpoint s;
  match r1 with
  | None => Ret (None, s1)
  | Some es =>
      '(r2, s2) ← ipc_alloc_endpoint s1;
      match r2 with
      | None => s3 ← set_ep_state es IPC_STATE_DEAD s2; Ret (None, s3)
      | Some er => Ret (Some (es, er), s2)
      end
  end.

(** Their rings; [false] without memory, with both endpoints dead. *)
Definition alloc_rings (es er : Z) (s : istate) : outcome (bool * istate) :=
  s1 ← update_ep es (with_ring_size RING_SIZE) s;
  s2 ← update_ep er (with_ring_size RING_SIZE) s1;
  '(p1, s3) ← ring_alloc s2;
  s4 ← update_ep es (with_msg_ring p1) s3;
  '(p2, s5) ← ring_alloc s4;
  s6 ← update_ep er (with_msg_ring p2) s5;
  e1 ← rd (g_endpoints s6) es;
  e2 ← rd (g_endpoints s6) er;
  if (msg_ring e1 =? 0) || (msg_ring e2 =? 0) then
    s7 ← (if msg_ring e1 =? 0 then Ret s6 else ring_free (msg_ring e1) s6);
    s8 ← (if msg_ring e2 =? 0 then Ret s7 else ring_free (msg_ring e2) s7);
    s9 ← set_ep_state es IPC_STATE_DEAD s8;
    s10 ← set_ep_state er IPC_STATE_DEAD s9;
    Ret (false, s10)
  else Ret (true, s6).

Definition sys_ipc_endpoint_create (s : istate) : outcome (Z * option (Z * Z) * istate) :=
  '(cur, s0) ← current_task s;
  match cur with
  | None => Ret (-1, None, s0)
  | Some t =>
      '(eps, s1) ← alloc_pair s0;
      match eps with
      | None => Ret (-1, None, s1)
      | Some (es, er) =>
          '(ok, s2) ← alloc_rings es er s1;
          if negb ok then Ret (-1, None, s2)
          else
            tid ← task_id t s2;
            e1 ← rd (g_endpoints s2) es;
            e2 ← rd (g_endpoints s2) er;
            s3 ← link_ep es (ep_id e2) tid s2;
            s4 ← link_ep er (ep_id e1) tid s3;
            '(hs, s5) ← install_endpoint_caps t (ep_id e1) (ep_id e2) tid s4;
            Ret (match hs with Some _ => 0 | None => -1 end, hs, s5)
      end
  end.

Definition k_trace (ev : trace_event) (a1 a2 : Z) (s : istate) : outcome istate :=
  k ← k_trace_log stack_bottom ev a1 a2 (i_k s); Ret (with_i_k k s).

(** The embedded capabilities of a message: every handle must resolve; with
    [CAP_TRANSFER] the slots are cleared.  [false] when one does not resolve. *)
Fixpoint transfer_caps (n : nat) (i t : Z) (m : ipc_msg) (flags : Z) (s : istate) : outcome (bool * istate) :=
  match n with
  | O => Ret (true, s)
  | S k =>
      src_cap ← rd (msg_caps m) i;
      src ← ipc_cap_resolve t src_cap s;
      match src with
      | None => Ret (false, s)
      | Some _ =>
          s1 ← (if Z.land flags IPC_MSGF_CAP_TRANSFER =? 0 then Ret s
                else tab ← get_cap_table t s; tab' ← ipc_cap_free_slot tab src_cap; put_cap_table t tab' s);
          transfer_caps k (i + 1) t m flags s1
      end
  end.

Definition sys_ipc_send (cap_handle : Z) (user_msg : ipc_msg) (flags : Z) (s : istate) : outcome (Z * istate) :=
  '(cur, s0) ← current_task s;
  match cur with
  | None => Ret (-1, s0)
  | Some t =>
      s1 ← k_trace TRACE_IPC_SEND cap_handle flags s0;
      c ← ipc_cap_resolve t cap_handle s1;
      match c with
      | None => Ret (-1, s1)
      | Some cap =>
          if negb (ipc_cap_has_right cap IPC_CAP_RIGHT_SEND) then Ret (-1, s1)
          else if negb (bool_decide (object_type cap = IPC_OBJ_ENDPOINT)) then Ret (-1, s1)
          else
            ep ← rd (g_endpoints s1) (object_id cap);
            if negb (bool_decide (ep_state ep = IPC_STATE_ACTIVE)) &&
               negb (bool_decide (ep_state ep = IPC_STATE_DRAINING)) then Ret (-1, s1)
            else if negb (magic (hdr user_msg) =? IPC_MSG_MAGIC) then Ret (-1, s1)
            else if IPC_MSG_MAX_BYTES <? payload_len (hdr user_msg) then Ret (-1, s1)
            else if IPC_MSG_MAX_CAPS <? cap_count (hdr user_msg) then Ret (-1, s1)
            else
              tid ← task_id t s1;
              let m := with_hdr (with_sender_cap cap_handle (with_sender_task tid (hdr user_msg))) user_msg in
              '(ok, s2) ← transfer_caps (Z.to_nat (cap_count (hdr m))) 0 t m flags s1;
              if negb ok then Ret (-1, s2)
              else
                '(ret, s3) ← ipc_msg_enqueue (object_id cap) m s2;
                if (ret <? 0) && negb (Z.land flags IPC_MSGF_NOBLOCK =? 0) then Ret (-1, s3) else Ret (ret, s3)
      end
  end.

(** [sched_block(); sched_schedule();] in the larger state. *)
Definition block_and_yield (fuel : nat) (s : istate) : proc istate unit :=
  pbind (proc_on_k (sched_block arch hw stack_bottom fuel (i_k s)) s) (fun _ s1 =>
    proc_on_k (sched_schedule arch hw stack_bottom fuel (i_k s1)) s1).

(** The result of [sys_ipc_recv]: code and, for 0, the message. *)
Definition recv_result (r : Z * option ipc_msg * istate) : proc istate (Z * option ipc_msg) :=
  let '(ret, m, s) := r in PDone (ret, if ret <? 0 then None else m) s.

Definition sys_ipc_recv (fuel : nat) (cap_handle flags : Z) (s : istate) : proc istate (Z * option ipc_msg) :=
  match
    ('(cur, s0) ← current_task s;
     match cur with
     | None => Ret (None, s0)
     | Some t =>
         c ← ipc_cap_resolve t cap_handle s0;
         Ret (match c with
              | None => None
              | Some cap =>
                  if negb (ipc_cap_has_right cap IPC_CAP_RIGHT_RECV) then None
                  else if negb (bool_decide (object_type cap = IPC_OBJ_ENDPOINT)) then None
                  else Some (t, object_id cap)
              end, s0)
     end)
  with
  | Ret (None, s0) => PDone (-1, None) s0
  | Ret (Some (t, ep), s0) =>
      match ipc_msg_dequeue ep s0 with
      | Ret (ret, m, s1) =>
          if ret =? -2 then
            if negb (Z.land flags IPC_MSGF_NOBLOCK =? 0) then PDone (-1, None) s1
            else
              pbind (plift (s2 ← ep_wait_enqueue ep t s1; Ret (tt, s2))) (fun _ s2 =>
                pbind (block_and_yield fuel s2) (fun _ s3 =>
                  match ipc_msg_dequeue ep s3 with
                  | Ret r => recv_result r
                  | Fault => PFault
                  | OutOfFuel => PFuel
                  end))
          else recv_result (ret, m, s1)
      | Fault => PFault
      | OutOfFuel => PFuel
      end
  | Fault => PFault
  | OutOfFuel => PFuel
  end.

(** The receive capability for endpoint [eid] in a table, from slot [i]. *)
Fixpoint find_recv_cap (n : nat) (i eid : Z) (tab : table) : outcome (option Z) :=
  match n with
  | O => Ret None
  | S m =>
      c ← rd (caps tab) i;
      if (object_id c =? eid) && bool_decide (object_type c = IPC_OBJ_ENDPOINT) &&
         negb (Z.land (rights c) IPC_CAP_RIGHT_RECV =? 0)
      then Ret (Some i) else find_recv_cap m (i + 1) eid tab
  end.

Definition sys_ipc_call (fuel : nat) (cap_handle : Z) (req : ipc_msg) (s : istate)
  : proc istate (Z * option ipc_msg) :=
  match
    ('(cur, s0) ← current_task s;
     match cur with
     | None => Ret (None, -1, s0)
     | Some t =>
         c ← ipc_cap_resolve t cap_handle s0;
         match c with
         | None => Ret (None, -1, s0)
         | Some cap =>
             if negb (ipc_cap_has_right cap IPC_CAP_RIGHT_CALL) then Ret (None, -1, s0)
             else if negb (bool_decide (object_type cap = IPC_OBJ_ENDPOINT)) then Ret (None, -1, s0)
             else
               ep ← rd (g_endpoints s0) (object_id cap);
               if IPC_MAX_ENDPOINTS <=? peer_cap ep then Ret (None, -1, s0)
               else
                 '(ret, s1) ← sys_ipc_send cap_handle req 0 s0;
                 if ret <? 0 then Ret (None, ret, s1)
                 else
                   tab ← get_cap_table t s1;
                   reply ← rd (g_endpoints s1) (peer_cap ep);
                   rc ← find_recv_cap (Z.to_nat IPC_CAP_MAX_PER_TASK) 0 (ep_id reply) tab;
                   Ret (rc, -1, s1)
         end
     end)
  with
  | Ret (Some rc, _, s1) => sys_ipc_recv fuel rc 0 s1
  | Ret (None, ret, s1) => PDone (ret, None) s1
  | Fault => PFault
  | OutOfFuel => PFuel
  end.

Definition sys_ipc_port_create (bl : Z) (s : istate) : outcome (Z * option Z * istate) :=
  '(cur, s0) ← current_task s;
  match cur with
  | None => Ret (-1, None, s0)
  | Some t =>
      '(r, s1) ← ipc_alloc_port s0;
      match r with
      | None => Ret (-1, None, s1)
      | Some i =>
          tid ← task_id t s1;
          p ← rd (g_ports s1) i;
          ps ← wr (g_ports s1) i (mk_port (port_id p) (port_type p) IPC_STATE_ACTIVE tid
            (if 16 <? bl then 16 else bl) (pending_count p) (overlay_head p) (overlay_tail p));
          let s2 := with_g_ports ps s1 in
          tab ← get_cap_table t s2;
          h ← ipc_cap_alloc_slot tab;
          match h with
          | None =>
              p2 ← rd (g_ports s2) i; ps2 ← wr (g_ports s2) i (with_port_state IPC_STATE_DEAD p2);
              Ret (-1, None, with_g_ports ps2 s2)
          | Some hd =>
              tab1 ← set_cap tab hd (mk_cap
                (Z.lor (Z.lor IPC_CAP_RIGHT_SEND IPC_CAP_RIGHT_RECV) IPC_CAP_RIGHT_DUP) IPC_OBJ_PORT i 1 tid 0 []);
              s3 ← put_cap_table t tab1 s2;
              Ret (0, Some hd, s3)
          end
      end
  end.

Definition port_wait_enqueue (i t : Z) (s : istate) : outcome istate :=
  p ← rd (g_ports s) i;
  '(qh, qt, s1) ← wait_enqueue (overlay_head p) (overlay_tail p) t s;
  p1 ← rd (g_ports s1) i;
  ps ← wr (g_ports s1) i (mk_port (port_id p1) (port_type p1) (port_state p1) (port_owner p1) (backlog p1)
         (pending_count p1) qh qt);
  Ret (with_g_ports ps s1).

(** [while (port->pending_count == 0)] of [sys_ipc_port_accept]; true when a
    connection is pending. *)
Fixpoint accept_wait (n fuel : nat) (i t : Z) (s : istate) : proc istate bool :=
  match rd (g_ports s) i with
  | Ret p =>
      if negb (pending_count p =? 0) then PDone true s
      else if negb (bool_decide (port_state p = IPC_STATE_ACTIVE)) then PDone false s
      else
        match n with
        | O => PFuel
        | S m =>
            pbind (plift (s1 ← port_wait_enqueue i t s; Ret (tt, s1))) (fun _ s1 =>
              pbind (block_and_yield fuel s1) (fun _ s2 => accept_wait m fuel i t s2))
        end
  | Fault => PFault
  | OutOfFuel => PFuel
  end.

Definition sys_ipc_port_accept (n fuel : nat) (port_cap : Z) (s : istate) : proc istate (Z * option Z) :=
  match
    ('(cur, s0) ← current_task s;
     match cur with
     | None => Ret (None, s0)
     | Some t =>
         c ← ipc_cap_resolve t port_cap s0;
         match c with
         | None => Ret (None, s0)
         | Some cap =>
             if negb (bool_decide (object_type cap = IPC_OBJ_PORT)) then Ret (None, s0)
             else
               p ← rd (g_ports s0) (object_id cap);
               if negb (bool_decide (port_state p = IPC_STATE_ACTIVE)) then Ret (None, s0)
               else Ret (Some (t, object_id cap), s0)
         end
     end)
  with
  | Ret (None, s0) => PDone (-1, None) s0
  | Ret (Some (t, i), s0) =>
      pbind (accept_wait n fuel i t s0) (fun ok s1 =>
        if ok then
          match sys_ipc_endpoint_create s1 with
          | Ret (ret, hs, s2) =>
              if ret <? 0 then PDone (-1, None) s2 else PDone (0, fst <$> hs) s2
          | Fault => PFault
          | OutOfFuel => PFuel
          end
        else PDone (-1, None) s1)
  | Fault => PFault
  | OutOfFuel => PFuel
  end.

Definition sys_ipc_ns_register (nm : list Z) (cap_handle : Z) (s : istate) : outcome (Z * istate) :=
  '(cur, s0) ← current_task s;
  match cur with
  | None => Ret (-1, s0)
  | Some t =>
      c ← ipc_cap_resolve t cap_handle s0;
      match c with
      | None => Ret (-1, s0)
      | Some _ => tid ← task_id t s0; ipc_ns_insert nm cap_handle tid s0
      end
  end.

Definition sys_ipc_ns_lookup (nm : list Z) (s : istate) : outcome (Z * option Z * istate) :=
  '(cur, s0) ← current_task s;
  match cur with
  | None => Ret (-1, None, s0)
  | Some t =>
      en ← ipc_ns_find nm s0;
      match en with
      | None => Ret (-1, None, s0)
      | Some i =>
          e ← rd (g_ns_entries s0) i;
          tab ← get_cap_table t s0;
          h ← ipc_cap_alloc_slot tab;
          match h with
          | None => Ret (-1, None, s0)
          | Some hd =>
              o ← sched_get_thread_by_id (ns_owner e) (i_k s0);
              match o with
              | None => Fault
              | Some ot =>
                  otab ← get_cap_table ot s0;
                  src ← rd (caps otab) (ns_cap e);
                  tid ← task_id t s0;
                  tab1 ← set_cap tab hd (with_owner_task tid (with_ref_count (u32 (ref_count src + 1))
                    (with_rights (Z.land (rights src)
                      (u32 (Z.lnot (Z.lor IPC_CAP_RIGHT_REVOKE IPC_CAP_RIGHT_DUP)))) src)));
                  s1 ← put_cap_table t tab1 s0;
                  Ret (0, Some hd, s1)
              end
          end
      end
  end.

Definition sys_ipc_object_destroy (cap_handle : Z) (s : istate) : outcome (Z * istate) :=
  '(cur, s0) ← current_task s;
  match cur with
  | None => Ret (-1, s0)
  | Some t =>
      c ← ipc_cap_resolve t cap_handle s0;
      match c with
      | None => Ret (-1, s0)
      | Some cap =>
          if negb (ipc_cap_has_right cap IPC_CAP_RIGHT_REVOKE) then Ret (-1, s0)
          else
            s1 ←
              (match object_type cap with
               | IPC_OBJ_ENDPOINT | IPC_OBJ_CHANNEL =>
                   s1 ← set_ep_state (object_id cap) IPC_STATE_DEAD s0;
                   ep ← rd (g_endpoints s1) (object_id cap);
                   if msg_ring ep =? 0 then Ret s1
                   else s2 ← ring_free (msg_ring ep) s1; update_ep (object_id cap) (with_msg_ring 0) s2
               | IPC_OBJ_PORT =>
                   p ← rd (g_ports s0) (object_id cap);
                   ps ← wr (g_ports s0) (object_id cap) (with_port_state IPC_STATE_DEAD p);
                   Ret (with_g_ports ps s0)
               | IPC_OBJ_SHARED_MEM =>
                   p ← rd (g_shm s0) (object_id cap);
                   ps ← wr (g_shm s0) (object_id cap) (with_shm_state IPC_STATE_DEAD p);
                   Ret (with_g_shm ps s0)
               | _ => Ret s0
               end);
            tab ← get_cap_table t s1;
            tab' ← ipc_cap_free_slot tab cap_handle;
            s2 ← put_cap_table t tab' s1;
            Ret (0, s2)
      end
  end.

(** 0 for success, -1 for failure. *)
Definition ret_code (ok : bool) : Z := if ok then 0 else -1.

Definition is_endpoint_like (ty : ipc_obj_type) : bool :=
  bool_decide (ty = IPC_OBJ_ENDPOINT) || bool_decide (ty = IPC_OBJ_CHANNEL).

(** Apply a state change that may fail to the endpoint of a capability. *)
Definition change_ep (i : Z) (f : endpoint -> bool * endpoint) (s : istate) : outcome (bool * istate) :=
  e ← rd (g_endpoints s) i;
  let '(ok, e') := f e in
  eps ← wr (g_endpoints s) i e'; Ret (ok, with_g_endpoints eps s).

Definition sys_ipc_object_pause (cap_handle : Z) (s : istate) : outcome (Z * istate) :=
  '(cur, s0) ← current_task s;
  match cur with
  | None => Ret (-1, s0)
  | Some t =>
      c ← ipc_cap_resolve t cap_handle s0;
      match c with
      | None => Ret (-1, s0)
      | Some cap =>
          if negb (ipc_cap_has_right cap IPC_CAP_RIGHT_REVOKE) then Ret (-1, s0)
          else if is_endpoint_like (object_type cap) then
            '(ok, s1) ← change_ep (object_id cap) (fun e => ipc_lifecycle_transition e IPC_STATE_PAUSED) s0;
            Ret (ret_code ok, s1)
          else Ret (-1, s0)
      end
  end.

Definition sys_ipc_object_resume (cap_handle : Z) (s : istate) : outcome (Z * istate) :=
  '(cur, s0) ← current_task s;
  match cur with
  | None => Ret (-1, s0)
  | Some t =>
      c ← ipc_cap_resolve t cap_handle s0;
      match c with
      | None => Ret (-1, s0)
      | Some cap =>
          if is_endpoint_like (object_type cap) then
            '(ok, s1) ← change_ep (object_id cap) (cas_state IPC_STATE_PAUSED IPC_STATE_ACTIVE) s0;
            Ret (ret_code ok, s1)
          else Ret (-1, s0)
      end
  end.

(** The loop that waits for the queue of a draining endpoint to empty. *)
Fixpoint drain_wait (n fuel : nat) (i : Z) (s : istate) : proc istate unit :=
  match rd (g_endpoints s) i with
  | Ret e =>
      if msg_count e =? 0 then PDone tt s
      else
        match n with
        | O => PFuel
        | S m => pbind (proc_on_k (sched_yield arch hw stack_bottom fuel (i_k s)) s)
                   (fun _ s1 => drain_wait m fuel i s1)
        end
  | Fault => PFault
  | OutOfFuel => PFuel
  end.

Definition sys_ipc_object_drain (n fuel : nat) (cap_handle : Z) (s : istate) : proc istate Z :=
  match
    ('(cur, s0) ← current_task s;
     match cur with
     | None => Ret (None, s0)
     | Some t =>
         c ← ipc_cap_resolve t cap_handle s0;
         match c with
         | None => Ret (None, s0)
         | Some cap =>
             if negb (ipc_cap_has_right cap IPC_CAP_RIGHT_REVOKE) then Ret (None, s0)
             else if is_endpoint_like (object_type cap) then
               '(ok, s1) ← change_ep (object_id cap) (fun e => ipc_lifecycle_transition e IPC_STATE_DRAINING) s0;
               Ret (if (ok : bool) then Some (object_id cap) else None, s1)
             else Ret (None, s0)
         end
     end)
  with
  | Ret (None, s1) => PDone (-1) s1
  | Ret (Some i, s1) =>
      pbind (drain_wait n fuel i s1) (fun _ s2 =>
        plift ('(_, s3) ← change_ep i (cas_state IPC_STATE_DRAINING IPC_STATE_DEAD) s2; Ret (0, s3)))
  | Fault => PFault
  | OutOfFuel => PFuel
  end.

Definition sys_ipc_cap_narrow (handle new_rights : Z) (s : istate) : outcome (Z * istate) :=
  '(cur, s0) ← current_task s;
  match cur with
  | None => Ret (-1, s0)
  | Some t =>
      tab ← get_cap_table t s0;
      if IPC_CAP_MAX_PER_TASK <=? handle then Ret (-1, s0)
      else
        c ← rd (caps tab) handle;
        if negb (ipc_cap_is_valid c) then Ret (-1, s0)
        else if negb (Z.land (flags c) IPC_CAPF_IMMUTABLE =? 0) then Ret (-1, s0)
        else
          tab' ← set_cap tab handle (with_rights (Z.land (rights c) (Z.land new_rights IPC_CAP_RIGHTS_ALL)) c);
          s1 ← put_cap_table t tab' s0;
          Ret (0, s1)
  end.

Definition sys_ipc_cap_revoke (handle : Z) (s : istate) : outcome (Z * istate) :=
  sys_ipc_object_destroy handle s.

Definition sys_ipc_cap_dup (handle : Z) (s : istate) : outcome (Z * option Z * istate) :=
  '(cur, s0) ← current_task s;
  match cur with
  | None => Ret (-1, None, s0)
  | Some t =>
      c ← ipc_cap_resolve t handle s0;
      match c with
      | None => Ret (-1, None, s0)
      | Some src =>
          if negb (ipc_cap_has_right src IPC_CAP_RIGHT_DUP) then Ret (-1, None, s0)
          else
            tab ← get_cap_table t s0;
            h ← ipc_cap_alloc_slot tab;
            match h with
            | None => Ret (-1, None, s0)
            | Some hd =>
                tab' ← set_cap tab hd (with_ref_count (u32 (ref_count src + 1)) src);
                s1 ← put_cap_table t tab' s0;
                Ret (0, Some hd, s1)
            end
      end
  end.

(** ** Thread exit and inheritance *)

(** One slot of [sched_ipc_cleanup_thread] for thread [t]; destroying works on
    the table of the current task. *)
Definition cleanup_slot (t i : Z) (s : istate) : outcome istate :=
  tab ← get_cap_table t s;
  c ← rd (caps tab) i;
  if negb (ipc_cap_is_valid c) then Ret s
  else
    let c1 := with_ref_count (u32 (ref_count c - 1)) c in
    tab1 ← set_cap tab i c1;
    s1 ← put_cap_table t tab1 s;
    s2 ← (if (ref_count c1 =? 0) && negb (Z.land (rights c1) IPC_CAP_RIGHT_REVOKE =? 0)
          then '(_, s2) ← sys_ipc_object_destroy i s1; Ret s2 else Ret s1);
    tab2 ← get_cap_table t s2;
    c2 ← rd (caps tab2) i;
    tab3 ← set_cap tab2 i (with_object_type IPC_OBJ_NONE c2);
    put_cap_table t tab3 s2.

Fixpoint cleanup_loop (n : nat) (t i : Z) (s : istate) : outcome istate :=
  match n with
  | O => Ret s
  | S m => s1 ← cleanup_slot t i s; cleanup_loop m t (i + 1) s1
  end.

Definition sched_ipc_cleanup_thread (t : Z) (s : istate) : outcome istate :=
  s1 ← cleanup_loop (Z.to_nat IPC_CAP_MAX_PER_TASK) t 0 s;
  tid ← task_id t s1;
  exts ← wr (g_thread_ipc_ext (i_k s1)) (ext_index tid) ext_zero;
  Ret (with_i_k (with_g_thread_ipc_ext exts (i_k s1)) s1).

(** Unlike [ipc_wait_enqueue] this leaves [next] and the state of the thread. *)
Definition sched_ipc_on_block (t i : Z) (s : istate) : outcome istate :=
  tid ← task_id t s;
  x ← rd (g_thread_ipc_ext (i_k s)) (ext_index tid);
  exts ← wr (g_thread_ipc_ext (i_k s)) (ext_index tid) (with_waits None None x);
  let s1 := with_i_k (with_g_thread_ipc_ext exts (i_k s)) s in
  e ← rd (g_endpoints s1) i;
  match wait_head e with
  | None => update_ep i (with_wait (Some t) (Some t)) s1
  | Some _ =>
      match wait_tail e with
      | None => Fault
      | Some w =>
          tw ← rd (g_tasks (i_k s1)) w;
          ts ← wr (g_tasks (i_k s1)) w (with_next (Some t) tw);
          update_ep i (with_wait (wait_head e) (Some t)) (with_i_k (with_g_tasks ts (i_k s1)) s1)
      end
  end.

(** The copy of the parent's table in [n_os_spawn_task] (sageos_bridge.c). *)
Definition inherit_caps (child_t parent_t : Z) (s : istate) : outcome istate :=
  ptab ← get_cap_table parent_t s; put_cap_table child_t ptab s.

(** ** Dispatch *)

(** What a call writes through its pointer arguments. *)
Inductive ipc_out :=
| OutNone
| OutHandle (h : option Z)
| OutPair (hs : option (Z * Z))
| OutMsg (m : option ipc_msg).

Definition ret_only (m : outcome (Z * istate)) : proc istate (Z * ipc_out) :=
  plift ('(r, s) ← m; Ret (r, OutNone, s)).
Definition ret_handle (m : outcome (Z * option Z * istate)) : proc istate (Z * ipc_out) :=
  plift ('(r, h, s) ← m; Ret (r, OutHandle h, s)).
Definition ret_msg (m : proc istate (Z * option ipc_msg)) : proc istate (Z * ipc_out) :=
  pbind m (fun '(r, x) s => PDone (r, OutMsg x) s).

(** [msg_at] and [str_at] read a message and a string of the caller's memory. *)
Definition ipc_syscall_dispatch (n fuel : nat) (msg_at : Z -> ipc_msg) (str_at : Z -> list Z)
  (num a1 a2 a3 : Z) (s : istate) : proc istate (Z * ipc_out) :=
  if num =? 201 then ret_only (sys_ipc_cap_narrow (u32 a1) (u32 a2) s)
  else if num =? 202 then ret_only (sys_ipc_cap_revoke (u32 a1) s)
  else if num =? 203 then ret_handle (sys_ipc_cap_dup (u32 a1) s)
  else if num =? 210 then plift ('(r, hs, s1) ← sys_ipc_endpoint_create s; Ret (r, OutPair hs, s1))
  else if num =? 220 then ret_only (sys_ipc_send (u32 a1) (msg_at a2) (u32 a3) s)
  else if num =? 221 then ret_msg (sys_ipc_recv fuel (u32 a1) (u32 a3) s)
  else if num =? 222 then ret_msg (sys_ipc_call fuel (u32 a1) (msg_at a2) s)
  else if num =? 212 then ret_handle (sys_ipc_port_create (u32 a1) s)
  else if num =? 224 then
    pbind (sys_ipc_port_accept n fuel (u32 a1) s) (fun '(r, h) s1 => PDone (r, OutHandle h) s1)
  else if num =? 230 then ret_only (sys_ipc_ns_register (str_at a1) (u32 a2) s)
  else if num =? 231 then ret_handle (sys_ipc_ns_lookup (str_at a1) s)
  else if num =? 214 then ret_only (sys_ipc_object_destroy (u32 a1) s)
  else if num =? 240 then ret_only (sys_ipc_object_pause (u32 a1) s)
  else if num =? 241 then ret_only (sys_ipc_object_resume (u32 a1) s)
  else if num =? 242 then pbind (sys_ipc_object_drain n fuel (u32 a1) s) (fun r s1 => PDone (r, OutNone) s1)
  else PDone (-1, OutNone) s.

End ipc.
End Ipc.
