(* ===== verification/IpcQueue.v ===== *)
(** * The message queue of an endpoint

    [ipc_msg_enqueue] and [ipc_msg_dequeue] of kernel/core/ipc.c implement a
    bounded first-in first-out queue of 16 messages with a queue of waiting
    receivers.  [bqueue] is that abstract object; [ep_rep] relates it to the
    ring, indices and links of the code. *)

From stdpp Require Import base tactics numbers option gmap list.
From S2P Require Import Prelude Ring Proc Telemetry CMem Alloc Timer Caps AllocSpec Sched SchedSpec Ipc.

Module IpcQueue.
Import Telemetry Alloc Timer Caps Sched SchedSpec Ipc.

(** ** Specification *)

Record bqueue := mk_bq {
  bq_state : ipc_lifecycle_state;
  bq_msgs : list ipc_msg;
  bq_waiting : list Z
}.

Inductive queue_op := QSend (m : ipc_msg) | QRecv.

Definition accepts (st : ipc_lifecycle_state) : bool :=
  bool_decide (st = IPC_STATE_ACTIVE) || bool_decide (st = IPC_STATE_DRAINING).

Definition finished (st : ipc_lifecycle_state) : bool :=
  bool_decide (st = IPC_STATE_DRAINING) || bool_decide (st = IPC_STATE_DEAD).

(** Result code, message delivered, new queue. *)
Definition bq_step (op : queue_op) (b : bqueue) : Z * option ipc_msg * bqueue :=
  match op with
  | QSend m =>
      if accepts (bq_state b) && bool_decide (length (bq_msgs b) < 16)%nat
      then (0, None, mk_bq (bq_state b) (bq_msgs b ++ [m]) (drop 1 (bq_waiting b)))
      else (-1, None, b)
  | QRecv =>
      match bq_msgs b with
      | m :: r => (0, Some m, mk_bq (bq_state b) r (bq_waiting b))
      | [] => (if finished (bq_state b) then -1 else -2, None, b)
      end
  end.

Fixpoint bq_run (ops : list queue_op) (b : bqueue) : list (Z * option ipc_msg) * bqueue :=
  match ops with
  | [] => ([], b)
  | op :: r =>
      let '(ret, m, b1) := bq_step op b in
      let '(rs, b2) := bq_run r b1 in ((ret, m) :: rs, b2)
  end.

(** The same operations in the code. *)
Definition op_step (i : Z) (op : queue_op) (s : istate) : outcome (Z * option ipc_msg * istate) :=
  match op with
  | QSend m => '(ret, s1) ← ipc_msg_enqueue i m s; Ret (ret, None, s1)
  | QRecv => ipc_msg_dequeue i s
  end.

Fixpoint op_run (i : Z) (ops : list queue_op) (s : istate) : outcome (list (Z * option ipc_msg) * istate) :=
  match ops with
  | [] => Ret ([], s)
  | op :: r =>
      '(ret, m, s1) ← op_step i op s;
      '(rs, s2) ← op_run i r s1;
      Ret ((ret, m) :: rs, s2)
  end.

(** The threads linked from [h] through [next]. *)
Fixpoint chain (ts : list thread) (h : option Z) (ws : list Z) : Prop :=
  match ws with
  | [] => h = None
  | w :: r => h = Some w /\ exists t, ts.[w] = Some t /\ chain ts (next t) r
  end.

Record ring_rep (e : endpoint) (r : list ipc_msg) : Prop := {
  rr_size : ring_size e = RING_SIZE;
  rr_len : zlen r = RING_SIZE;
  rr_tail : 0 <= tail e < RING_SIZE;
  rr_count : 0 <= msg_count e <= RING_SIZE;
  rr_head : head e = (tail e + msg_count e) mod RING_SIZE
}.

Definition ep_rep (i : Z) (s : istate) (b : bqueue) : Prop :=
  exists e r, (g_endpoints s).[i] = Some e /\ rings s !! msg_ring e = Some r /\ ring_rep e r /\
    bq_state b = ep_state e /\ bq_msgs b = window RING_SIZE r (tail e) (msg_count e) /\
    chain (g_tasks (i_k s)) (wait_head e) (bq_waiting b).

(** Everything an operation on endpoint [i] leaves alone: other endpoints and
    rings, and of the threads all but the state of a waiting one. *)
Definition ep_frame (i : Z) (s s' : istate) : Prop :=
  (forall j, j <> i -> (g_endpoints s').[j] = (g_endpoints s).[j]) /\
  (forall e a, (g_endpoints s).[i] = Some e -> a <> msg_ring e -> rings s' !! a = rings s !! a) /\
  (forall j t, (g_tasks (i_k s)).[j] = Some t -> exists st, (g_tasks (i_k s')).[j] = Some (with_state st t) /\
     (st = state t \/ state t = THREAD_STATE_BLOCKED /\ st = THREAD_STATE_READY)) /\
  g_ports s' = g_ports s /\ g_shm s' = g_shm s /\ g_ns_entries s' = g_ns_entries s /\
  g_thread_ipc_ext (i_k s') = g_thread_ipc_ext (i_k s) /\
  (forall e, (g_endpoints s).[i] = Some e -> exists e', (g_endpoints s').[i] = Some e' /\ msg_ring e' = msg_ring e).

(** ** Lemmas *)

Lemma chain_alter ts h ws w st :
  chain ts h ws -> 0 <= w -> chain (alter (with_state st) (Z.to_nat w) ts) h ws.
Proof.
  intros Hc Hw. revert h Hc. induction ws as [|v r IH]; intros h; [done|].
  intros (-> & t & Ht & Hr). split; [done|]. rewrite alter_zget by done.
  destruct (w =? v); [exists (with_state st t)|exists t]; rewrite Ht; (split; [done|]).
  - by apply IH in Hr.
  - by apply IH.
Qed.

Lemma update_ep_ok i f s e :
  (g_endpoints s).[i] = Some e ->
  update_ep i f s = Ret (with_g_endpoints ((g_endpoints s).[i <- f e]) s).
Proof.
  intros H. unfold update_ep. rewrite (rd_some _ _ _ H). cbn [mbind outcome_bind].
  by rewrite (wr_some _ _ _ _ H).
Qed.

Lemma with_state_id t : with_state (state t) t = t.
Proof. by destruct t. Qed.

Lemma sched_unblock_ok w k t :
  (g_tasks k).[w] = Some t ->
  exists st, sched_unblock (Some w) k = Ret (with_g_tasks (alter (with_state st) (Z.to_nat w) (g_tasks k)) k) /\
    (st = state t \/ state t = THREAD_STATE_BLOCKED /\ st = THREAD_STATE_READY).
Proof.
  intros H. unfold sched_unblock. rewrite (rd_some _ _ _ H). cbn [mbind outcome_bind].
  case_bool_decide as Hb.
  - exists THREAD_STATE_READY. split; [by apply set_thread_state_ok with t|]. by right.
  - exists (state t). split; [|by left]. f_equal. rewrite <- (zset_alter (with_state (state t)) _ _ _ H).
    rewrite with_state_id, zset_id by done. by destruct k.
Qed.

(** What waking a receiver does: the first waiter leaves the queue. *)
Lemma wake_waiter_ok i s e ws :
  (g_endpoints s).[i] = Some e -> chain (g_tasks (i_k s)) (wait_head e) ws ->
  exists s' qh qt, wake_waiter i s = Ret s' /\ ep_frame i s s' /\
    (g_endpoints s').[i] = Some (with_wait qh qt e) /\ rings s' = rings s /\
    chain (g_tasks (i_k s')) qh (drop 1 ws).
Proof.
  intros He Hc. unfold wake_waiter. rewrite (rd_some _ _ _ He). cbn [mbind outcome_bind].
  assert (Hlt := zget_Some_bound _ _ _ He).
  destruct ws as [|w r]; cbn [chain] in Hc.
  - rewrite Hc. exists s, None, (wait_tail e). split_and!; [done| |rewrite He; by destruct e; cbn in *; subst|done|done].
    split_and!; try done; [|by intros e' He'; exists e'].
    intros j t Ht. exists (state t). rewrite with_state_id. eauto.
  - destruct Hc as (-> & t & Ht & Hr). rewrite (rd_some _ _ _ Ht). cbn [mbind outcome_bind].
    erewrite update_ep_ok by done. cbn [mbind outcome_bind].
    destruct (sched_unblock_ok w (i_k s) t Ht) as (st & Hu & Hst).
    cbn [i_k with_g_endpoints]. rewrite Hu. cbn [mbind outcome_bind].
    eexists _, (next t), (match next t with None => None | Some _ => wait_tail e end).
    pose proof (zget_Some_bound _ _ _ Ht).
    split_and!; [reflexivity| |cbn; by rewrite zget_zset_eq|done|apply chain_alter; [done|lia]].
    split_and!; cbn; try done.
    + intros j Hj. by rewrite zget_zset_ne.
    + intros j t' Ht'. rewrite alter_zget by lia. destruct (Z.eqb_spec w j) as [->|].
      * exists st. rewrite Ht'. rewrite Ht in Ht'. by simplify_eq.
      * exists (state t'). rewrite with_state_id. eauto.
    + intros e' He'. eexists. rewrite zget_zset_eq by done. split; [done|]. by simplify_eq.
Qed.

Lemma ep_frame_refl i s : ep_frame i s s.
Proof.
  split_and!; try done; [|by eauto]. intros j t Ht. exists (state t). rewrite with_state_id. eauto.
Qed.

Lemma ep_frame_trans i s1 s2 s3 : ep_frame i s1 s2 -> ep_frame i s2 s3 -> ep_frame i s1 s3.
Proof.
  intros (A1 & B1 & C1 & D1 & E1 & F1 & G1 & H1) (A2 & B2 & C2 & D2 & E2 & F2 & G2 & H2).
  split_and!; try congruence.
  - intros j Hj. by rewrite A2, A1.
  - intros e a He Ha. destruct (H1 e He) as (e' & He' & Hr). rewrite (B2 e' a), (B1 e a); congruence.
  - intros j t Ht. destruct (C1 j t Ht) as (st & Hs & Hst). destruct (C2 _ _ Hs) as (st' & Hs' & Hst').
    exists st'. split; [done|]. cbn in Hst'. destruct Hst as [->|[? ->]], Hst' as [->|[? ->]]; auto; congruence.
  - intros e He. destruct (H1 e He) as (e' & He' & Hr). destruct (H2 e' He') as (e'' & ? & ?).
    exists e''. split; congruence.
Qed.

(** A step that changes endpoint [i] (but not its ring) and the ring. *)
Lemma ep_frame_local i s e e' r rs :
  (g_endpoints s).[i] = Some e -> msg_ring e' = msg_ring e ->
  rs = rings s \/ rs = <[msg_ring e := r]> (rings s) ->
  ep_frame i s (with_g_endpoints ((g_endpoints s).[i <- e']) (with_rings rs s)).
Proof.
  intros He Hm Hrs. pose proof (zget_Some_bound _ _ _ He). split_and!; cbn; try done.
  - intros j Hj. by rewrite zget_zset_ne.
  - intros e0 a He0 Ha. rewrite He in He0. simplify_eq. destruct Hrs as [->| ->]; [done|].
    by rewrite lookup_insert_ne.
  - intros j t Ht. exists (state t). rewrite with_state_id. eauto.
  - intros e0 He0. rewrite He in He0. simplify_eq. exists e'. by rewrite zget_zset_eq.
Qed.

Lemma length_bq_msgs e r : ring_rep e r -> Z.of_nat (length (window RING_SIZE r (tail e) (msg_count e))) = msg_count e.
Proof. intros [? ? ? ? ?]. rewrite length_window. lia. Qed.

Lemma accepts_neg st :
  negb (bool_decide (st = IPC_STATE_ACTIVE)) && negb (bool_decide (st = IPC_STATE_DRAINING)) = negb (accepts st).
Proof. unfold accepts. by rewrite negb_orb. Qed.


(** One operation refines the abstract one. *)
Definition step_refines (i : Z) (op : queue_op) (s : istate) (b : bqueue) : Prop :=
  exists ret m b' s', bq_step op b = (ret, m, b') /\ op_step i op s = Ret (ret, m, s') /\
    ep_rep i s' b' /\ ep_frame i s s'.

Lemma enqueue_refines i m s b : ep_rep i s b -> step_refines i (QSend m) s b.
Proof.
  intros (e & r & He & Hrg & Hrr & Hst & Hq & Hch). unfold step_refines, op_step, ipc_msg_enqueue, bq_step.
  rewrite (rd_some _ _ _ He). cbn [mbind outcome_bind]. rewrite accepts_neg, Hst.
  destruct (accepts (ep_state e)) eqn:Ea; cbn [negb andb].
  2:{ eexists _, _, _, s. split_and!; [done|done|by exists e, r|apply ep_frame_refl]. }
  pose proof (length_bq_msgs e r Hrr) as Hlen. destruct (Hrr) as [Hsz Hl Ht Hcnt Hh].
  rewrite Hsz, Hq. pose proof (zget_Some_bound _ _ _ He).
  destruct (Z.leb_spec RING_SIZE (msg_count e)).
  { erewrite update_ep_ok by done. cbn [mbind outcome_bind].
    rewrite bool_decide_eq_false_2 by (unfold RING_SIZE in *; lia).
    eexists _, _, _, _. split_and!; [done|done| |].
    - eexists _, r. cbn. rewrite zget_zset_eq by done. split_and!; done.
    - pose proof (ep_frame_local i s e (with_drops (u64 (drops e + 1)) e) r (rings s) He eq_refl (or_introl eq_refl)) as Hf.
      by destruct s. }
  rewrite bool_decide_eq_true_2 by (unfold RING_SIZE in *; lia).
  unfold ring_mod. cbn [Z.eqb RING_SIZE mbind outcome_bind]. unfold ring_write. rewrite Hrg.
  change 16 with RING_SIZE. rewrite Hh, Z.mod_mod by done.
  rewrite wr_in_range by (rewrite Hl; by apply Z.mod_pos_bound). cbn [mbind outcome_bind].
  set (s1 := with_rings _ s). erewrite (update_ep_ok _ _ s1) by done. cbn [mbind outcome_bind].
  set (e2 := mk_ep _ _ _ _ _ _ _ _ _ _ _ _ _ _ _ _). set (s2 := with_g_endpoints _ s1).
  destruct (wake_waiter_ok i s2 e2 (bq_waiting b)) as (s3 & qh & qt & -> & Hf & He3 & Hr3 & Hc3);
    [cbn; by apply zget_zset_eq|done|]. cbn [mbind outcome_bind].
  eexists _, _, _, s3. split_and!; [done|done| |].
  - eexists _, _. split_and!; [exact He3|rewrite Hr3; apply lookup_insert_eq| |done| |done].
    + assert (u32 (msg_count e + 1) = msg_count e + 1) as Hc1 by (apply u32_small; unfold RING_SIZE in *; lia).
      split; cbn; rewrite ?zlen_zset, ?Hc1; try done; [lia|]. rewrite Hsz, Hh, u32_small.
      2:{ pose proof (Z.mod_pos_bound (tail e + msg_count e) RING_SIZE ltac:(done)). unfold RING_SIZE in *. lia. }
      by rewrite Zplus_mod_idemp_l, Z.add_assoc.
    + cbn. rewrite u32_small by (unfold RING_SIZE in *; lia). by rewrite window_store_snoc by (done || lia).
  - eapply ep_frame_trans; [|exact Hf]. subst s2 s1. cbn [g_endpoints with_rings].
    by eapply ep_frame_local; [done|done|right].
Qed.

Lemma dequeue_refines i s b : ep_rep i s b -> step_refines i QRecv s b.
Proof.
  intros (e & r & He & Hrg & Hrr & Hst & Hq & Hch). unfold step_refines, op_step, ipc_msg_dequeue, bq_step.
  rewrite (rd_some _ _ _ He). cbn [mbind outcome_bind]. destruct (Hrr) as [Hsz Hl Ht Hcnt Hh].
  pose proof (zget_Some_bound _ _ _ He). rewrite Hq, Hst.
  destruct (Z.eqb_spec (msg_count e) 0) as [Hz|Hz].
  { rewrite Hz, window_0. unfold finished.
    destruct (bool_decide (ep_state e = IPC_STATE_DRAINING) || bool_decide (ep_state e = IPC_STATE_DEAD));
      eexists _, _, _, s; (split_and!; [done|done|by exists e, r|apply ep_frame_refl]). }
  rewrite window_cons by lia. unfold ring_mod. rewrite Hsz. cbn [Z.eqb RING_SIZE mbind outcome_bind].
  change 16 with RING_SIZE. rewrite Z.mod_small by done. unfold ring_read. rewrite Hrg.
  rewrite (rd_lookup_total RING_SIZE) by done. cbn [mbind outcome_bind].
  erewrite update_ep_ok by done. cbn [mbind outcome_bind].
  eexists _, _, _, _. split_and!; [done|done| |].
  - eexists _, r. cbn. rewrite zget_zset_eq by done. split_and!; try done.
    + assert (u32 (msg_count e - 1) = msg_count e - 1) as Hc1 by (apply u32_small; unfold RING_SIZE in *; lia).
      split; cbn; rewrite ?Hc1, ?Hsz; try done.
      * by apply Z.mod_pos_bound.
      * lia.
      * rewrite Hh, u32_small by (unfold RING_SIZE in *; lia). rewrite Zplus_mod_idemp_l. f_equal. lia.
    + cbn. rewrite Hsz, !u32_small by (unfold RING_SIZE in *; lia).
      by rewrite window_mod.
  - match goal with |- ep_frame _ _ (with_g_endpoints (_.[_ <- ?e']) _) =>
      pose proof (ep_frame_local i s e e' r (rings s) He eq_refl (or_introl eq_refl)) as Hf end.
    by destruct s.
Qed.

(** ** Theorems *)

(** Every sequence of operations, in every state of the endpoint. *)
Lemma op_run_refines i ops s b :
  ep_rep i s b ->
  exists s', op_run i ops s = Ret ((bq_run ops b).1, s') /\ ep_rep i s' (bq_run ops b).2 /\ ep_frame i s s'.
Proof.
  revert s b. induction ops as [|op r IH]; intros s b Hrep; [exists s; by split_and!; [..|apply ep_frame_refl]|].
  assert (step_refines i op s b) as (ret & m & b1 & s1 & Hb & Hs & Hrep1 & Hf1)
    by (destruct op; [by apply enqueue_refines|by apply dequeue_refines]).
  cbn [bq_run op_run]. rewrite Hb, Hs. cbn [mbind outcome_bind].
  destruct (IH s1 b1 Hrep1) as (s2 & -> & Hrep2 & Hf2). destruct (bq_run r b1) as [rs b2].
  exists s2. split_and!; [done|done|]. by eapply ep_frame_trans.
Qed.

(** A draining endpoint takes new messages. *)
Lemma draining_accepts i m s b :
  ep_rep i s b -> bq_state b = IPC_STATE_DRAINING -> (length (bq_msgs b) < 16)%nat ->
  exists s', ipc_msg_enqueue i m s = Ret (0, s') /\ ep_rep i s' (mk_bq IPC_STATE_DRAINING (bq_msgs b ++ [m]) (drop 1 (bq_waiting b))).
Proof.
  intros Hrep Hd Hl. destruct (enqueue_refines i m s b Hrep) as (ret & o & b' & s' & Hb & Hs & Hrep' & _).
  unfold bq_step, accepts in Hb. rewrite Hd, (bool_decide_eq_true_2 _ Hl) in Hb. cbn in Hb. injection Hb as <- <- <-.
  cbn [op_step] in Hs. apply bind_Ret_inv in Hs as ([r s1] & Hs & E). injection E as -> ->. by exists s'.
Qed.

(** The operations that the life cycle of an endpoint permits: all on an active one,
    receiving on a draining one. *)
Definition permitted (st : ipc_lifecycle_state) (ops : list queue_op) : Prop :=
  st = IPC_STATE_ACTIVE \/ st = IPC_STATE_DRAINING /\ Forall (fun op => op = QRecv) ops.

(** A bounded queue, active or draining; the states do not change. *)
Definition fifo_step (op : queue_op) (b : bqueue) : Z * option ipc_msg * bqueue :=
  match op, bq_msgs b with
  | QSend m, q => if decide (length q < 16)%nat then (0, None, mk_bq (bq_state b) (q ++ [m]) (drop 1 (bq_waiting b))) else (-1, None, b)
  | QRecv, m :: q => (0, Some m, mk_bq (bq_state b) q (bq_waiting b))
  | QRecv, [] => (match bq_state b with IPC_STATE_DRAINING => -1 | _ => -2 end, None, b)
  end.

Fixpoint fifo_run (ops : list queue_op) (b : bqueue) : list (Z * option ipc_msg) * bqueue :=
  match ops with
  | [] => ([], b)
  | op :: r =>
      let '(ret, m, b1) := fifo_step op b in
      let '(rs, b2) := fifo_run r b1 in ((ret, m) :: rs, b2)
  end.

Lemma fifo_run_bq ops b : permitted (bq_state b) ops -> bq_run ops b = fifo_run ops b.
Proof.
  revert b. induction ops as [|op ops IH]; intros b Hp; [done|]. cbn [bq_run fifo_run].
  assert (bq_step op b = fifo_step op b) as ->.
  { destruct b as [st q w]. unfold bq_step, fifo_step, accepts, finished. cbn [bq_state bq_msgs bq_waiting] in *.
    destruct Hp as [->|[-> Ho]].
    - destruct op; [|by destruct q]. case_decide; [rewrite (bool_decide_eq_true_2 (length q < _)%nat)|rewrite (bool_decide_eq_false_2 (length q < _)%nat)]; done.
    - apply Forall_cons in Ho as [-> _]. by destruct q. }
  assert (forall x, fifo_step op b = x -> permitted (bq_state x.2) ops) as Hn.
  { intros x <-. destruct b as [st q w]. cbn [bq_state] in *.
    assert (bq_state (fifo_step op (mk_bq st q w)).2 = st) as -> by (unfold fifo_step; cbn; destruct op; [by case_decide|by destruct q]).
    destruct Hp as [?|[? Ho]]; [by left|right]. by apply Forall_cons in Ho as [_ ?]. }
  destruct (fifo_step op b) as [[ret m] b1] eqn:E. by rewrite (IH b1 (Hn _ eq_refl)).
Qed.

(** C14: The message ring of an active endpoint is a bounded first-in first-out queue.
    For every sequence of sends and receives the result codes and the messages
    delivered are those of a queue of at most 16 messages that delivers in
    order, refuses a message when it is full and reports would-block when it is
    empty; from a draining endpoint the queued messages are received in order, then
    end of stream.  Each accepted message takes the first waiting thread
    off the wait queue.  No other endpoint, ring or object changes, and a thread
    changes at most from blocked to ready.  Sends to a draining endpoint, which the
    life cycle forbids, are not covered: the code accepts them
    ([draining_accepts]). *)
Theorem endpoint_refines_queue i ops s b :
  ep_rep i s b -> permitted (bq_state b) ops ->
  exists s', op_run i ops s = Ret ((fifo_run ops b).1, s') /\ ep_rep i s' (fifo_run ops b).2 /\ ep_frame i s s'.
Proof. intros Hrep Hp. rewrite <- fifo_run_bq by done. by apply op_run_refines. Qed.

(** An active endpoint 0 with an empty ring at address 4096. *)
Definition one_endpoint : istate :=
  mk_i kstate_static
    [mk_ep 0 IPC_OBJ_ENDPOINT IPC_STATE_ACTIVE 4096 RING_SIZE 0 0 0 1 0 None None 0 0 0 0]
    [] [] [] None 0 {[4096 := replicate (Z.to_nat RING_SIZE) msg_zero]}.

Lemma endpoint_refines_queue_witness :
  let b := mk_bq IPC_STATE_ACTIVE [] [] in
  let ops := [QRecv; QSend msg_zero; QRecv] in
  ep_rep 0 one_endpoint b /\
  (exists s', op_run 0 ops one_endpoint = Ret ([(-2, None); (0, None); (0, Some msg_zero)], s') /\
    ep_rep 0 s' b /\ ep_frame 0 one_endpoint s').
Proof.
  intros b ops. assert (ep_rep 0 one_endpoint b) as H.
  { eexists _, _. split_and!; [reflexivity|apply lookup_insert_eq| |done|done|done].
    split; cbn; (done || (unfold RING_SIZE; lia)). }
  split; [exact H|]. exact (endpoint_refines_queue 0 ops one_endpoint b H (or_introl eq_refl)).
Defined.

End IpcQueue.
