(* ===== verification/IpcSpec.v ===== *)
(** * Capabilities of the IPC system calls

    What the system calls of kernel/core/ipc.c do with capabilities, in every
    interleaving of calls: which rights a thread can come to hold, what
    [sys_ipc_cap_narrow] and [sys_ipc_endpoint_create] do, and which calls can
    never succeed. *)

From stdpp Require Import base tactics numbers option relations gmap list.
From S2P Require Import Prelude Ring Proc Telemetry CMem Alloc Timer Caps AllocSpec Sched SchedSpec Ipc IpcQueue.

Module IpcSpec.
Import Telemetry Alloc Timer Caps AllocSpec Sched SchedSpec Ipc IpcQueue.

(** ** Scheduler code keeps a property of the capability tables *)

Section kernel.
Context (X : list extension -> Prop).

Record kinv (k : kstate) : Prop := {
  kinv_len : zlen (g_tasks k) = MAX_TASKS;
  kinv_cur : exists c, g_current_task k = Some c /\ 0 <= c < MAX_TASKS;
  kinv_inited : g_sched_inited k = 1;
  kinv_exts : X (g_thread_ipc_ext k)
}.

(** Changes that do not concern the invariant. *)
Lemma kinv_same k k' :
  kinv k -> zlen (g_tasks k') = zlen (g_tasks k) -> g_current_task k' = g_current_task k ->
  g_sched_inited k' = g_sched_inited k -> g_thread_ipc_ext k' = g_thread_ipc_ext k -> kinv k'.
Proof. intros [? ? ? ?] E1 E2 E3 E4. split; by rewrite ?E1, ?E2, ?E3, ?E4. Qed.

Lemma set_thread_state_kinv i st k k' : kinv k -> set_thread_state i st k = Ret k' -> kinv k'.
Proof.
  intros Hk H. apply bind_Ret_inv in H as (t & _ & H). apply bind_Ret_inv in H as (ts & Hw & <-%Ret_inj).
  apply (kinv_same k); try done. by apply wr_zlen in Hw.
Qed.

Section sched.
Context (arch : timer_arch) (hw : nat -> hw_regs) (stack_bottom : Z).

Lemma k_trace_log_kinv ev a1 a2 k k' : kinv k -> k_trace_log stack_bottom ev a1 a2 k = Ret k' -> kinv k'.
Proof.
  intros Hk H. destruct (Hk) as [Hl (c & Hc & Hr) Hi _].
  destruct (k_trace_log_ok stack_bottom ev a1 a2 k c Hl Hc Hr Hi) as (tr & Htr). rewrite Htr in H.
  apply Ret_inj in H as <-. by apply (kinv_same k).
Qed.

Lemma sched_switch_keeps j k : kinv k -> 0 <= j < MAX_TASKS -> keeps kinv (fun _ => True) (sched_switch stack_bottom j k).
Proof.
  intros Hk Hj. destruct (Hk) as [Hl (c & Hc & Hr) Hi Hx]. destruct (decide (c = j)) as [<-|Hne].
  - unfold sched_switch. rewrite Hc, Z.eqb_refl. split; [done|]. by apply (kinv_same k).
  - destruct (sched_switch_ok stack_bottom k c j Hl Hc Hr Hi Hj Hne) as (s' & -> & tr & ->).
    split; [|done]. split; cbn; rewrite ?zlen_alter; eauto.
Qed.

Lemma timer_tick_keeps yield k :
  (forall k, kinv k -> keeps kinv (fun _ => True) (yield k)) -> kinv k ->
  keeps kinv (fun _ => True) (timer_tick_with yield k).
Proof.
  intros Hy Hk. unfold timer_tick_with.
  repeat case_match; try done; apply Hy; by apply (kinv_same k).
Qed.

Lemma tick_trace_kinv k k' : kinv k -> tick_trace stack_bottom k = Ret k' -> kinv k'.
Proof.
  intros Hk. unfold tick_trace. case_match; [|intros H'; by apply Ret_inj in H' as <-].
  intros H'. apply bind_Ret_inv in H' as (k1 & H1 & H'). apply bind_Ret_inv in H' as (st & _ & H2).
  eapply k_trace_log_kinv, H2. by eapply k_trace_log_kinv.
Qed.

Lemma timer_irq_keeps yield k :
  (forall k, kinv k -> keeps kinv (fun _ => True) (yield k)) -> kinv k ->
  keeps kinv (fun _ => True) (timer_irq_with arch hw stack_bottom yield k).
Proof.
  intros Hy Hk. unfold timer_irq_with. eapply keeps_bind.
  - apply timer_tick_keeps; [done|]. by apply (kinv_same k).
  - intros _ k1 _ Hk1. apply keeps_plift. intros a s H. split; [done|].
    apply bind_Ret_inv in H as (k2 & H2 & H). apply Ret_inj in H. simplify_eq.
    apply tick_trace_kinv in H2; [|done]. by apply (kinv_same k2).
Qed.

Lemma timer_poll_keeps yield k :
  (forall k, kinv k -> keeps kinv (fun _ => True) (yield k)) -> kinv k ->
  keeps kinv (fun _ => True) (timer_poll_with arch hw stack_bottom yield k).
Proof.
  intros Hy Hk. unfold timer_poll_with. destruct (timer_due _ _ _) as [due t].
  assert (kinv (with_k_timer t k)) by by apply (kinv_same k).
  destruct due; [by apply timer_irq_keeps|by split].
Qed.

Lemma schedule_with_keeps pick k :
  (forall k, kinv k -> keeps kinv (fun j => 0 <= j < MAX_TASKS) (pick k)) -> kinv k ->
  keeps kinv (fun _ => True) (schedule_with stack_bottom pick k).
Proof.
  intros Hp Hk. unfold schedule_with. case_match; [done|]. case_match; [done|].
  eapply keeps_bind; [apply Hp; by apply (kinv_same k)|]. intros j k1 Hj Hk1. by apply sched_switch_keeps.
Qed.

Lemma sched_pick_keeps fuel k :
  kinv k -> keeps kinv (fun j => 0 <= j < MAX_TASKS) (sched_pick arch hw stack_bottom fuel k).
Proof.
  revert k. induction fuel as [|n IH]; intros k Hk; destruct (Hk) as [Hl (c & Hc & Hr) _ _]; cbn [sched_pick];
    unfold pick_next; rewrite Hc;
    destruct (next_runnable_ok (Z.to_nat MAX_TASKS) c 1 (g_tasks k) Hl eq_refl) as (r & -> & Hres);
    destruct r as [j|]; try done.
  1,2: destruct Hres as (d & _ & -> & _); split; [by apply Z.mod_pos_bound|done].
  eapply keeps_bind; [|intros _ k1 _ Hk1; by apply IH].
  apply timer_poll_keeps; [|by apply (kinv_same k)]. intros k1 Hk1. by apply schedule_with_keeps.
Qed.

Lemma sched_schedule_keeps fuel k : kinv k -> keeps kinv (fun _ => True) (sched_schedule arch hw stack_bottom fuel k).
Proof. intros Hk. apply schedule_with_keeps; [|done]. intros. by apply sched_pick_keeps. Qed.

Lemma sched_block_keeps fuel k : kinv k -> keeps kinv (fun _ => True) (sched_block arch hw stack_bottom fuel k).
Proof.
  intros Hk. unfold sched_block. case_match; [|done].
  eapply (keeps_bind _ (fun _ => True)); [|intros _ k1 _ Hk1; by apply sched_schedule_keeps].
  apply keeps_plift. intros [] k1 H1. split; [done|].
  apply bind_Ret_inv in H1 as (k2 & H2 & H1). apply Ret_inj in H1. simplify_eq. by eapply set_thread_state_kinv.
Qed.

Lemma sched_exit_keeps fuel k : kinv k -> keeps kinv (fun _ => True) (sched_exit arch hw stack_bottom fuel k).
Proof.
  intros Hk. unfold sched_exit. case_match; [|done].
  eapply (keeps_bind _ (fun _ => True)).
  - apply keeps_plift. intros [] k1 H1. split; [done|].
    apply bind_Ret_inv in H1 as (k2 & H2 & H1). apply Ret_inj in H1. simplify_eq.
    apply (kinv_same k2); try done; [by eapply set_thread_state_kinv|]. cbn. unfold zlen. by rewrite length_fmap.
  - intros _ k1 _ Hk1. eapply keeps_bind; [by apply sched_schedule_keeps|done].
Qed.
End sched.
End kernel.

(** ** Which rights exist *)

(** No right to revoke, and no right to send to or call an endpoint. *)
Definition cap_confined (c : capability) : Prop :=
  ipc_cap_has_right c IPC_CAP_RIGHT_REVOKE = false /\
  (object_type c = IPC_OBJ_ENDPOINT ->
   ipc_cap_has_right c IPC_CAP_RIGHT_SEND = false /\ ipc_cap_has_right c IPC_CAP_RIGHT_CALL = false).

Definition table_conf (tab : table) : Prop :=
  table_ok tab /\ forall h c, (caps tab).[h] = Some c -> cap_confined c.

Definition exts_conf (exts : list extension) : Prop :=
  zlen exts = SCHED_MAX_THREADS /\ forall j e, exts.[j] = Some e -> table_conf (cap_table e).

Record iinv (s : istate) : Prop := {
  iinv_k : kinv exts_conf (i_k s);
  iinv_ports : forall j p, (g_ports s).[j] = Some p -> pending_count p = 0
}.

(** Fewer rights, or no object: still confined. *)
Lemma has_right_land c m r x :
  ipc_cap_has_right c x = false -> r = Z.land (rights c) m -> ipc_cap_has_right (with_rights r c) x = false.
Proof.
  unfold ipc_cap_has_right. cbn. intros H%negb_false_iff%Z.eqb_eq ->. apply negb_false_iff, Z.eqb_eq.
  by rewrite <- Z.land_assoc, (Z.land_comm m), Z.land_assoc, H, Z.land_0_l.
Qed.

Lemma cap_confined_land c m : cap_confined c -> cap_confined (with_rights (Z.land (rights c) m) c).
Proof.
  intros [H1 H2]. split; [by eapply has_right_land|]. intros (H3 & H4)%H2. split; by eapply has_right_land.
Qed.

Lemma cap_confined_ref c n : cap_confined c -> cap_confined (with_ref_count n c).
Proof. done. Qed.
Lemma cap_confined_owner c n : cap_confined c -> cap_confined (with_owner_task n c).
Proof. done. Qed.
Lemma cap_confined_none c : cap_confined c -> cap_confined (with_object_type IPC_OBJ_NONE c).
Proof. by intros [? _]. Qed.

Lemma table_conf_get tab h c : table_conf tab -> rd (caps tab) h = Ret c -> cap_confined c.
Proof. intros [_ H] Hr%rd_Ret. by eapply H. Qed.

Lemma set_cap_conf tab h c tab' : table_conf tab -> cap_confined c -> set_cap tab h c = Ret tab' -> table_conf tab'.
Proof.
  intros [Hl Hc] Hcc H. apply bind_Ret_inv in H as (cs & (Hh & ->)%wr_Ret & <-%Ret_inj). split.
  - unfold table_ok. cbn. by rewrite zlen_zset.
  - intros j c'. cbn. destruct (decide (h = j)) as [->|].
    + rewrite zget_zset_eq by done. intros [= <-]. done.
    + rewrite zget_zset_ne by done. apply Hc.
Qed.

Lemma free_slot_conf tab h tab' : table_conf tab -> ipc_cap_free_slot tab h = Ret tab' -> table_conf tab'.
Proof.
  intros Ht. unfold ipc_cap_free_slot. case_match; [by intros <-%Ret_inj|]. by apply set_cap_conf.
Qed.

Lemma current_task_iinv stack_bottom s :
  iinv s -> exists c, current_task stack_bottom s = Ret (Some c, s) /\ 0 <= c < MAX_TASKS.
Proof.
  intros [[_ (c & Hc & Hr) Hi _] _]. exists c. split; [|done].
  unfold current_task, on_k, sched_current_thread. rewrite Hi. cbn. rewrite Hc. by destruct s.
Qed.

Lemma get_cap_table_iinv t s tab : iinv s -> get_cap_table t s = Ret tab -> table_conf tab.
Proof.
  intros [[_ _ _ [_ Hx]] _] H. apply bind_Ret_inv in H as (tid & _ & H).
  apply bind_Ret_inv in H as (e & He%rd_Ret & <-%Ret_inj). by eapply Hx.
Qed.

Lemma get_cap_table_total t s :
  iinv s -> 0 <= t < MAX_TASKS -> exists tab, get_cap_table t s = Ret tab /\ table_conf tab.
Proof.
  intros Hs Ht. destruct (Hs) as [[Hl _ _ [Hx _]] _]. unfold get_cap_table, task_id.
  destruct (rd_in_range (g_tasks (i_k s)) t) as (th & Hth & _); [lia|]. rewrite Hth. cbn [mbind outcome_bind].
  unfold task_ipc_cap_table.
  destruct (rd_in_range (g_thread_ipc_ext (i_k s)) (ext_index (id th))) as (e & He & _);
    [rewrite Hx; by apply Z.mod_pos_bound|]. rewrite He. eexists. split; [done|].
  apply (get_cap_table_iinv t s); [done|]. unfold get_cap_table, task_id. rewrite Hth. cbn.
  unfold task_ipc_cap_table. by rewrite He.
Qed.

Lemma put_cap_table_iinv t tab s s' : iinv s -> table_conf tab -> put_cap_table t tab s = Ret s' -> iinv s'.
Proof.
  intros [[Hl Hc Hi [Hxl Hx]] Hp] Htab H. apply bind_Ret_inv in H as (tid & _ & H).
  apply bind_Ret_inv in H as (exts & H & <-%Ret_inj). apply bind_Ret_inv in H as (e & He & (Hb & ->)%wr_Ret).
  split; [split; [done|done|done|]|done]. split; [cbn; by rewrite zlen_zset|].
  intros j e'. cbn. destruct (decide (ext_index tid = j)) as [<-|].
  - rewrite zget_zset_eq by done. by intros [= <-].
  - rewrite zget_zset_ne by done. apply Hx.
Qed.

Lemma resolve_iinv t h s c : iinv s -> ipc_cap_resolve t h s = Ret (Some c) -> cap_confined c.
Proof.
  intros Hs H. apply bind_Ret_inv in H as (tab & Ht & H). case_match; [done|].
  apply bind_Ret_inv in H as (c' & Hc & H%Ret_inj). case_match; [|done]. simplify_eq.
  eapply table_conf_get, Hc. by eapply get_cap_table_iinv.
Qed.

Lemma resolve_total t h s :
  iinv s -> 0 <= t < MAX_TASKS -> 0 <= h -> exists r, ipc_cap_resolve t h s = Ret r /\ (forall c, r = Some c -> cap_confined c).
Proof.
  intros Hs Ht Hh. destruct (get_cap_table_total t s Hs Ht) as (tab & Htab & [Hl _]).
  assert (exists r, ipc_cap_resolve t h s = Ret r) as (r & Hr).
  { unfold ipc_cap_resolve. rewrite Htab. cbn [mbind outcome_bind]. destruct (Z.leb_spec IPC_CAP_MAX_PER_TASK h); [by eexists|].
    destruct (rd_in_range (caps tab) h) as (c & -> & _); [by rewrite Hl|]. by eexists. }
  exists r. split; [done|]. intros c ->. by eapply resolve_iinv.
Qed.

(** ** The system calls keep the invariant *)

(** Opens one bind, pair, conditional or case of [H : m = Ret x]. *)
Ltac inv_ret H :=
  match type of H with
  | mbind _ _ = Ret _ => let E := fresh "E" in apply bind_Ret_inv in H as (? & E & H); inv_ret E
  | (match ?p with pair _ _ => _ end) = Ret _ => destruct p
  | (if ?b then _ else _) = Ret _ => destruct b eqn:?
  | (match ?o with Some _ => _ | None => _ end) = Ret _ => destruct o eqn:?
  | Ret _ = Ret _ => apply Ret_inj in H
  | Fault = Ret _ => discriminate H
  | OutOfFuel = Ret _ => discriminate H
  | _ => idtac
  end.
Ltac inv_rets H :=
  repeat (progress (inv_ret H; simplify_eq));
  repeat match goal with E : _ = Ret _ |- _ => progress (inv_ret E; simplify_eq) end.

Create HintDb iinv.

(** Derives the invariant for the states in the hypotheses, in order. *)
Ltac learn_iinv s :=
  match goal with
  | _ : iinv s |- _ => fail 1
  | _ => assert (iinv s) by (eauto 2 with iinv)
  end.
Ltac fwd :=
  repeat match goal with
  | _ : _ = Ret (_, _, ?s) |- _ => learn_iinv s
  | _ : _ = Ret (_, ?s) |- _ => learn_iinv s
  | _ : _ = Ret ?s |- _ => learn_iinv s
  end.

Lemma iinv_same s s' :
  iinv s -> kinv exts_conf (i_k s') -> (forall j p, (g_ports s').[j] = Some p -> pending_count p = 0) -> iinv s'.
Proof. by split. Qed.

(** Changes outside the kernel state and the ports. *)
Lemma iinv_other s s' : iinv s -> i_k s' = i_k s -> g_ports s' = g_ports s -> iinv s'.
Proof. intros [? ?] E1 E2. split; by rewrite ?E1, ?E2. Qed.

(** A new heap. *)
Lemma iinv_heap s h : iinv s -> iinv (with_i_k (with_k_heap h (i_k s)) s).
Proof. intros [? ?]. split; [by apply (kinv_same _ (i_k s))|done]. Qed.

(** Threads of the same number. *)
Lemma iinv_tasks s ts : iinv s -> zlen ts = zlen (g_tasks (i_k s)) -> iinv (with_i_k (with_g_tasks ts (i_k s)) s).
Proof. intros [? ?] ?. split; [by apply (kinv_same _ (i_k s))|done]. Qed.

Lemma update_ep_iinv i f s s' : iinv s -> update_ep i f s = Ret s' -> iinv s'.
Proof. intros Hs H. unfold update_ep in H. inv_rets H. by apply (iinv_other s). Qed.

Lemma set_ep_state_iinv i st s s' : iinv s -> set_ep_state i st s = Ret s' -> iinv s'.
Proof. apply update_ep_iinv. Qed.

Lemma link_ep_iinv i p t s s' : iinv s -> link_ep i p t s = Ret s' -> iinv s'.
Proof. apply update_ep_iinv. Qed.

Lemma change_ep_iinv i f s ok s' : iinv s -> change_ep i f s = Ret (ok, s') -> iinv s'.
Proof. intros Hs H. unfold change_ep in H. inv_rets H. by apply (iinv_other s). Qed.

Lemma alloc_endpoint_iinv s r s' : iinv s -> ipc_alloc_endpoint s = Ret (r, s') -> iinv s'.
Proof. intros Hs H. unfold ipc_alloc_endpoint in H. inv_rets H; [by apply (iinv_other s)|done]. Qed.

Lemma alloc_port_iinv s r s' : iinv s -> ipc_alloc_port s = Ret (r, s') -> iinv s'.
Proof.
  intros Hs H. unfold ipc_alloc_port in H. inv_rets H; [|done]. apply wr_Ret in E0 as (Hb & ->).
  apply (iinv_same s); [done|apply Hs|]. cbn. intros j p. destruct (decide (z = j)) as [<-|].
  - rewrite zget_zset_eq by done. by intros [= <-].
  - rewrite zget_zset_ne by done. apply Hs.
Qed.

Lemma set_port_iinv i p s : iinv s -> pending_count p = 0 ->
  forall ps, wr (g_ports s) i p = Ret ps -> iinv (with_g_ports ps s).
Proof.
  intros Hs Hp ps (Hb & ->)%wr_Ret. apply (iinv_same s); [done|apply Hs|]. cbn. intros j p'.
  destruct (decide (i = j)) as [<-|].
  - rewrite zget_zset_eq by done. by intros [= <-].
  - rewrite zget_zset_ne by done. apply Hs.
Qed.

Lemma rd_port_iinv i p s : iinv s -> rd (g_ports s) i = Ret p -> pending_count p = 0.
Proof. intros Hs H%rd_Ret. by eapply Hs. Qed.

Section calls.
Context (arch : timer_arch) (hw : nat -> hw_regs) (heap_base stack_bottom : Z).

Lemma ring_alloc_iinv s p s' : iinv s -> ring_alloc heap_base s = Ret (p, s') -> iinv s'.
Proof.
  intros Hs H. unfold ring_alloc in H. inv_rets H. case_match; [|apply (iinv_other (with_i_k (with_k_heap h (i_k s)) s)); try done];
    by apply iinv_heap.
Qed.

Lemma ring_free_iinv p s s' : iinv s -> ring_free heap_base p s = Ret s' -> iinv s'.
Proof.
  intros Hs H. unfold ring_free in H. inv_rets H.
  apply (iinv_other (with_i_k (with_k_heap x0 (i_k s)) s)); [by apply iinv_heap|done|done].
Qed.

Lemma sched_unblock_kinv X w k k' : kinv X k -> sched_unblock w k = Ret k' -> kinv X k'.
Proof.
  intros Hk H. unfold sched_unblock in H. inv_rets H; try done. by eapply set_thread_state_kinv.
Qed.

Lemma wake_waiter_iinv i s s' : iinv s -> wake_waiter i s = Ret s' -> iinv s'.
Proof.
  intros Hs H. unfold wake_waiter in H. inv_rets H; [|done].
  assert (iinv x1) as Hx by by eapply update_ep_iinv. apply (iinv_same x1); [done| |apply Hx].
  eapply sched_unblock_kinv; [apply Hx|done].
Qed.

Lemma ring_write_iinv a i m s s' : iinv s -> ring_write a i m s = Ret s' -> iinv s'.
Proof. intros Hs H. unfold ring_write in H. inv_rets H. by apply (iinv_other s). Qed.

#[local] Hint Resolve update_ep_iinv set_ep_state_iinv link_ep_iinv change_ep_iinv alloc_endpoint_iinv
  alloc_port_iinv ring_alloc_iinv ring_free_iinv wake_waiter_iinv ring_write_iinv : iinv.

Lemma enqueue_iinv i m s r s' : iinv s -> ipc_msg_enqueue i m s = Ret (r, s') -> iinv s'.
Proof. intros Hs H. unfold ipc_msg_enqueue in H. inv_rets H; fwd; done. Qed.

Lemma dequeue_iinv i s r m s' : iinv s -> ipc_msg_dequeue i s = Ret (r, m, s') -> iinv s'.
Proof. intros Hs H. unfold ipc_msg_dequeue in H. inv_rets H; fwd; done. Qed.

Lemma wait_enqueue_iinv qh qt t s qh' qt' s' : iinv s -> wait_enqueue qh qt t s = Ret (qh', qt', s') -> iinv s'.
Proof.
  intros Hs H. unfold wait_enqueue in H. inv_rets H; (apply iinv_tasks; [done|]);
    repeat match goal with E : wr _ _ _ = Ret _ |- _ => apply wr_zlen in E end; congruence.
Qed.

Lemma ep_wait_enqueue_iinv i t s s' : iinv s -> ep_wait_enqueue i t s = Ret s' -> iinv s'.
Proof. intros Hs H. unfold ep_wait_enqueue in H. inv_rets H. eapply update_ep_iinv, H. by eapply wait_enqueue_iinv. Qed.

Lemma port_wait_enqueue_iinv i t s s' : iinv s -> port_wait_enqueue i t s = Ret s' -> iinv s'.
Proof.
  intros Hs H. unfold port_wait_enqueue in H. inv_rets H.
  assert (iinv i0) as Hi by by eapply wait_enqueue_iinv.
  eapply set_port_iinv, E2; [done|]. by apply (rd_port_iinv i x0 i0).
Qed.
End calls.

Section calls.
Context (arch : timer_arch) (hw : nat -> hw_regs) (heap_base stack_bottom : Z).

#[local] Hint Resolve update_ep_iinv set_ep_state_iinv link_ep_iinv change_ep_iinv alloc_endpoint_iinv
  alloc_port_iinv ring_alloc_iinv ring_free_iinv wake_waiter_iinv ring_write_iinv enqueue_iinv dequeue_iinv
  put_cap_table_iinv get_cap_table_iinv resolve_iinv set_cap_conf free_slot_conf table_conf_get
  cap_confined_land cap_confined_ref cap_confined_owner cap_confined_none rd_port_iinv set_port_iinv : iinv.

Ltac start Hs :=
  let c := fresh "cur" in let Hc := fresh "Hcur" in
  destruct (current_task_iinv stack_bottom _ Hs) as (c & Hc & ?).

Lemma set_cap_twice tab h c c' tab1 tab2 :
  set_cap tab h c = Ret tab1 -> set_cap tab1 h c' = Ret tab2 -> set_cap tab h c' = Ret tab2.
Proof.
  unfold set_cap. intros H1 H2. inv_rets H1. inv_rets H2.
  repeat match goal with E : wr _ _ _ = Ret _ |- _ => apply wr_Ret in E as (? & ->) end.
  cbn. rewrite wr_in_range by done. cbn. by rewrite zset_zset_eq.
Qed.

(** Two slots found in the same table are the same slot. *)
Lemma install_endpoint_caps_ok t es er tid s hs s' :
  iinv s -> install_endpoint_caps t es er tid s = Ret (hs, s') ->
  iinv s' /\ match hs with Some (h1, h2) => h1 = h2 | None => True end.
Proof.
  intros Hs H. unfold install_endpoint_caps in H. inv_rets H; fwd; try done.
  match goal with H1 : ?a = Ret (Some ?x), H2 : ?a = Ret (Some ?y) |- _ => assert (x = y) as <- by congruence end.
  split; [|done]. eapply put_cap_table_iinv; [done| |done].
  eapply set_cap_conf; [by eapply get_cap_table_iinv| |by eapply set_cap_twice]. done.
Qed.

Lemma alloc_pair_iinv s r s' : iinv s -> alloc_pair s = Ret (r, s') -> iinv s'.
Proof. intros Hs H. unfold alloc_pair in H. inv_rets H; fwd; done. Qed.

Lemma alloc_rings_iinv es er s r s' : iinv s -> alloc_rings heap_base es er s = Ret (r, s') -> iinv s'.
Proof. intros Hs H. unfold alloc_rings in H. inv_rets H; fwd; done. Qed.

#[local] Hint Resolve alloc_pair_iinv alloc_rings_iinv : iinv.

Lemma endpoint_create_iinv s r hs s' : iinv s -> sys_ipc_endpoint_create heap_base stack_bottom s = Ret (r, hs, s') ->
  iinv s' /\ match hs with Some (h1, h2) => h1 = h2 | None => r = -1 end.
Proof.
  intros Hs H. start Hs. unfold sys_ipc_endpoint_create in H. rewrite Hcur in H. cbn [mbind outcome_bind] in H.
  inv_rets H; fwd; try done.
  match goal with E : install_endpoint_caps _ _ _ _ _ = _ |- _ => apply install_endpoint_caps_ok in E as [? ?]; [|done] end.
  split; [done|]. by destruct hs as [[? ?]|].
Qed.

(** The state after [current_task] and a lookup of a capability. *)
Ltac call H Hs := start Hs; match goal with Hcur : current_task _ _ = _ |- _ =>
  rewrite Hcur in H; cbn [mbind outcome_bind] in H end.

Lemma k_trace_iinv ev a1 a2 s s' : iinv s -> k_trace stack_bottom ev a1 a2 s = Ret s' -> iinv s'.
Proof.
  intros Hs H. apply bind_Ret_inv in H as (k & Hk & <-%Ret_inj). destruct (Hs) as [Hi Hp].
  split; [by eapply k_trace_log_kinv|done].
Qed.

Lemma port_create_iinv bl s r h s' : iinv s -> sys_ipc_port_create stack_bottom bl s = Ret (r, h, s') -> iinv s'.
Proof.
  intros Hs H. unfold sys_ipc_port_create in H. call H Hs.
  apply bind_Ret_inv in H as ([[i|] s1] & Ea & H); [|apply Ret_inj in H; simplify_eq; by eapply alloc_port_iinv].
  assert (iinv s1) as H1 by by eapply alloc_port_iinv.
  apply bind_Ret_inv in H as (tid & _ & H). apply bind_Ret_inv in H as (p & Hp & H).
  apply bind_Ret_inv in H as (ps & Hps & H). cbn zeta in H.
  assert (iinv (with_g_ports ps s1)) as H2 by (eapply set_port_iinv; [done| |done]; by apply (rd_port_iinv i p s1)).
  apply bind_Ret_inv in H as (tab & Htab & H). apply bind_Ret_inv in H as ([hd|] & _ & H).
  - apply bind_Ret_inv in H as (tab1 & Ht1 & H). apply bind_Ret_inv in H as (s3 & H3 & H).
    apply Ret_inj in H. simplify_eq. eapply put_cap_table_iinv; [done| |done].
    eapply (set_cap_conf tab); [by eapply get_cap_table_iinv| |done]. by split.
  - apply bind_Ret_inv in H as (p2 & Hp2 & H). apply bind_Ret_inv in H as (ps2 & Hps2 & H).
    apply Ret_inj in H. simplify_eq. eapply set_port_iinv; [done| |done]. by apply (rd_port_iinv i p2 (with_g_ports ps s1)).
Qed.

Lemma ns_step_iinv c tok s r s' : iinv s -> ns_step c tok s = Ret (r, s') -> iinv s'.
Proof. intros Hs H. unfold ns_step in H. inv_rets H; try done. by eapply iinv_other. Qed.

Lemma ns_insert_loop_iinv n c rest s r s' : iinv s -> ns_insert_loop n c rest s = Ret (r, s') -> iinv s'.
Proof.
  revert c rest s. induction n as [|n IH]; intros c rest s Hs H; cbn [ns_insert_loop] in H;
    destruct (strtok rest) as [[tok rest']|]; try discriminate H; [by apply Ret_inj in H; simplify_eq| |by apply Ret_inj in H; simplify_eq].
  apply bind_Ret_inv in H as ([[c'|] s1] & H1 & H); apply ns_step_iinv in H1; try done; [by eapply IH|].
  apply Ret_inj in H. by simplify_eq.
Qed.

Lemma ns_insert_iinv nm h o s r s' : iinv s -> ipc_ns_insert nm h o s = Ret (r, s') -> iinv s'.
Proof.
  intros Hs H. unfold ipc_ns_insert in H. apply bind_Ret_inv in H as (s0 & H0 & H).
  assert (iinv s0) as Hs0 by (destruct (ns_root s); [by apply Ret_inj in H0 as <-|]; inv_rets H0; by eapply iinv_other).
  apply bind_Ret_inv in H as (root & _ & H). apply bind_Ret_inv in H as ([[cur|] s1] & H1 & H);
    apply ns_insert_loop_iinv in H1; try done.
  - apply bind_Ret_inv in H as (e & _ & H). apply bind_Ret_inv in H as (es & _ & H). apply Ret_inj in H.
    simplify_eq. by apply (iinv_other s1).
  - apply Ret_inj in H. by simplify_eq.
Qed.

Lemma ns_register_iinv nm h s r s' : iinv s -> sys_ipc_ns_register stack_bottom nm h s = Ret (r, s') -> iinv s'.
Proof.
  intros Hs H. unfold sys_ipc_ns_register in H. call H Hs.
  apply bind_Ret_inv in H as ([c|] & _ & H); [|by apply Ret_inj in H; simplify_eq].
  apply bind_Ret_inv in H as (tid & _ & H). by eapply ns_insert_iinv.
Qed.

Lemma ns_lookup_iinv nm s r h s' : iinv s -> sys_ipc_ns_lookup stack_bottom nm s = Ret (r, h, s') -> iinv s'.
Proof.
  intros Hs H. unfold sys_ipc_ns_lookup in H. call H Hs.
  apply bind_Ret_inv in H as ([i|] & _ & H); [|by apply Ret_inj in H; simplify_eq].
  apply bind_Ret_inv in H as (e & _ & H). apply bind_Ret_inv in H as (tab & Htab & H).
  apply bind_Ret_inv in H as ([hd|] & _ & H); [|by apply Ret_inj in H; simplify_eq].
  apply bind_Ret_inv in H as ([ot|] & _ & H); [|done]. apply bind_Ret_inv in H as (otab & Hot & H).
  apply bind_Ret_inv in H as (src & Hsrc & H). apply bind_Ret_inv in H as (tid & _ & H).
  apply bind_Ret_inv in H as (tab1 & Ht1 & H). apply bind_Ret_inv in H as (s1 & Hput & H). apply Ret_inj in H. simplify_eq.
  eapply put_cap_table_iinv; [done| |done]. eapply (set_cap_conf tab); [by eapply get_cap_table_iinv| |done].
  apply cap_confined_owner, cap_confined_ref, cap_confined_land. eapply table_conf_get, Hsrc. by eapply get_cap_table_iinv.
Qed.

Lemma cap_narrow_iinv h nr s r s' : iinv s -> sys_ipc_cap_narrow stack_bottom h nr s = Ret (r, s') -> iinv s'.
Proof.
  intros Hs H. unfold sys_ipc_cap_narrow in H. call H Hs.
  apply bind_Ret_inv in H as (tab & Htab & H). case_match; [by apply Ret_inj in H; simplify_eq|].
  apply bind_Ret_inv in H as (c & Hc & H). do 2 (case_match; [by apply Ret_inj in H; simplify_eq|]).
  apply bind_Ret_inv in H as (tab1 & Ht1 & H). apply bind_Ret_inv in H as (s1 & Hput & H). apply Ret_inj in H. simplify_eq.
  eapply put_cap_table_iinv; [done| |done]. eapply (set_cap_conf tab); [by eapply get_cap_table_iinv| |done].
  apply cap_confined_land. eapply table_conf_get, Hc. by eapply get_cap_table_iinv.
Qed.

Lemma cap_dup_iinv h s r h' s' : iinv s -> sys_ipc_cap_dup stack_bottom h s = Ret (r, h', s') -> iinv s'.
Proof.
  intros Hs H. unfold sys_ipc_cap_dup in H. call H Hs.
  apply bind_Ret_inv in H as ([c|] & Hc & H); [|by apply Ret_inj in H; simplify_eq].
  case_match; [by apply Ret_inj in H; simplify_eq|]. apply bind_Ret_inv in H as (tab & Htab & H).
  apply bind_Ret_inv in H as ([hd|] & _ & H); [|by apply Ret_inj in H; simplify_eq].
  apply bind_Ret_inv in H as (tab1 & Ht1 & H). apply bind_Ret_inv in H as (s1 & Hput & H). apply Ret_inj in H. simplify_eq.
  eapply put_cap_table_iinv; [done| |done]. eapply (set_cap_conf tab); [by eapply get_cap_table_iinv| |done].
  apply cap_confined_ref. by eapply resolve_iinv.
Qed.

Lemma resume_iinv h s r s' : iinv s -> sys_ipc_object_resume stack_bottom h s = Ret (r, s') -> iinv s'.
Proof.
  intros Hs H. unfold sys_ipc_object_resume in H. call H Hs.
  apply bind_Ret_inv in H as ([c|] & _ & H); [|by apply Ret_inj in H; simplify_eq].
  case_match; [|by apply Ret_inj in H; simplify_eq]. apply bind_Ret_inv in H as ([ok s1] & Hch & H).
  apply Ret_inj in H. simplify_eq. by eapply change_ep_iinv.
Qed.

(** Calls that need a right nobody holds fail at the check. *)
Lemma send_fails h m fl s :
  iinv s -> 0 <= h -> exists s', sys_ipc_send stack_bottom h m fl s = Ret (-1, s') /\ iinv s'.
Proof.
  intros Hs Hh. unfold sys_ipc_send. start Hs. rewrite Hcur. cbn [mbind outcome_bind].
  destruct (Hs) as [[Hl (c & Hc & Hr) Hi Hx] Hp].
  destruct (k_trace_log_ok stack_bottom TRACE_IPC_SEND h fl (i_k s) c Hl Hc Hr Hi) as (tr & Htr).
  unfold k_trace. rewrite Htr. cbn [mbind outcome_bind]. set (s1 := with_i_k _ s).
  assert (iinv s1) as Hs1 by by apply iinv_heap.
  destruct (resolve_total cur h s1 Hs1 H Hh) as (r & -> & Hres). cbn [mbind outcome_bind].
  exists s1. split; [|done]. destruct r as [cap|]; [|done]. destruct (Hres cap eq_refl) as [_ He].
  destruct (ipc_cap_has_right cap IPC_CAP_RIGHT_SEND) eqn:E; [|done]. cbn [negb].
  case_bool_decide as Ht; [|done]. destruct (He Ht). congruence.
Qed.

Lemma call_fails fuel h m s :
  iinv s -> 0 <= h -> sys_ipc_call arch hw stack_bottom fuel h m s = PDone (-1, None) s.
Proof.
  intros Hs Hh. unfold sys_ipc_call. start Hs. rewrite Hcur. cbn [mbind outcome_bind].
  destruct (resolve_total cur h s Hs H Hh) as (r & -> & Hres). cbn [mbind outcome_bind].
  destruct r as [cap|]; [|done]. destruct (Hres cap eq_refl) as [_ He].
  destruct (ipc_cap_has_right cap IPC_CAP_RIGHT_CALL) eqn:E; [|done]. cbn [negb].
  case_bool_decide as Ht; [|done]. destruct (He Ht). congruence.
Qed.

Lemma destroy_fails h s : iinv s -> 0 <= h -> sys_ipc_object_destroy heap_base stack_bottom h s = Ret (-1, s).
Proof.
  intros Hs Hh. unfold sys_ipc_object_destroy. start Hs. rewrite Hcur. cbn [mbind outcome_bind].
  destruct (resolve_total cur h s Hs H Hh) as (r & -> & Hres). cbn [mbind outcome_bind].
  destruct r as [cap|]; [|done]. by destruct (Hres cap eq_refl) as [-> _].
Qed.

Lemma pause_fails h s : iinv s -> 0 <= h -> sys_ipc_object_pause stack_bottom h s = Ret (-1, s).
Proof.
  intros Hs Hh. unfold sys_ipc_object_pause. start Hs. rewrite Hcur. cbn [mbind outcome_bind].
  destruct (resolve_total cur h s Hs H Hh) as (r & -> & Hres). cbn [mbind outcome_bind].
  destruct r as [cap|]; [|done]. by destruct (Hres cap eq_refl) as [-> _].
Qed.

Lemma drain_fails n fuel h s : iinv s -> 0 <= h -> sys_ipc_object_drain arch hw stack_bottom n fuel h s = PDone (-1) s.
Proof.
  intros Hs Hh. unfold sys_ipc_object_drain. start Hs. rewrite Hcur. cbn [mbind outcome_bind].
  destruct (resolve_total cur h s Hs H Hh) as (r & -> & Hres). cbn [mbind outcome_bind].
  destruct r as [cap|]; [|done]. by destruct (Hres cap eq_refl) as [-> _].
Qed.

(** Scheduler code inside the larger state. *)
Lemma proc_on_k_keeps {A} (Q : A -> Prop) m s :
  keeps (kinv exts_conf) Q m -> (forall j p, (g_ports s).[j] = Some p -> pending_count p = 0) ->
  keeps iinv Q (proc_on_k m s).
Proof.
  revert s. induction m as [a k|from to k c IH|k| |]; intros s Hm Hp; cbn in *; try done.
  - destruct Hm. by split.
  - destruct Hm as [Hk Hc]. split; [by split|]. intros s' [Hk' Hp']. by apply IH; [apply Hc|].
Qed.

Lemma block_and_yield_keeps fuel s : iinv s -> keeps iinv (fun _ => True) (block_and_yield arch hw stack_bottom fuel s).
Proof.
  intros [Hk Hp]. unfold block_and_yield. eapply keeps_bind.
  - apply proc_on_k_keeps; [by apply sched_block_keeps|done].
  - intros _ s1 _ [Hk1 Hp1]. apply proc_on_k_keeps; [by apply sched_schedule_keeps|done].
Qed.

Lemma recv_keeps fuel h fl s : iinv s -> keeps iinv (fun _ => True) (sys_ipc_recv arch hw stack_bottom fuel h fl s).
Proof.
  intros Hs. unfold sys_ipc_recv. start Hs. rewrite Hcur. cbn [mbind outcome_bind].
  match goal with |- keeps _ _ (match ?m with _ => _ end) => destruct m as [[[[t ep]|] s0]| |] eqn:E end; try done;
    (assert (s0 = s) as -> by (inv_rets E; done)); [|by split].
  destruct (ipc_msg_dequeue ep s) as [[[ret m] s1]| |] eqn:Ed; [|done|done].
  assert (iinv s1) as Hs1 by by eapply dequeue_iinv. case_match; [|by split]. case_match; [by split|].
  eapply (keeps_bind _ (fun _ => True)).
  - apply keeps_plift. intros [] s2 H2. apply bind_Ret_inv in H2 as (s3 & H3 & H2). apply Ret_inj in H2.
    simplify_eq. split; [done|]. by eapply ep_wait_enqueue_iinv.
  - intros _ s2 _ Hs2. eapply keeps_bind; [by apply block_and_yield_keeps|]. intros _ s3 _ Hs3.
    destruct (ipc_msg_dequeue ep s3) as [[[ret2 m2] s4]| |] eqn:Ed2; [|done|done].
    split; [done|]. by eapply dequeue_iinv.
Qed.

(** A port never has a pending connection. *)
Lemma accept_wait_keeps n fuel i t s :
  iinv s -> keeps iinv (fun ok => ok = false) (accept_wait arch hw stack_bottom n fuel i t s).
Proof.
  revert s. induction n as [|n IH]; intros s Hs; cbn [accept_wait];
    destruct (rd (g_ports s) i) as [p| |] eqn:Ep; try done; rewrite (rd_port_iinv i p s Hs Ep); cbn [Z.eqb negb];
    case_match; try done.
  eapply (keeps_bind _ (fun _ => True)).
  - apply keeps_plift. intros [] s2 H2. apply bind_Ret_inv in H2 as (s3 & H3 & H2). apply Ret_inj in H2.
    simplify_eq. split; [done|]. by eapply port_wait_enqueue_iinv.
  - intros _ s2 _ Hs2. eapply keeps_bind; [by apply block_and_yield_keeps|]. intros _ s3 _ Hs3. by apply IH.
Qed.

Lemma accept_keeps n fuel h s :
  iinv s -> keeps iinv (fun r => r = (-1, None)) (sys_ipc_port_accept arch hw heap_base stack_bottom n fuel h s).
Proof.
  intros Hs. unfold sys_ipc_port_accept. start Hs. rewrite Hcur. cbn [mbind outcome_bind].
  match goal with |- keeps _ _ (match ?m with _ => _ end) => destruct m as [[[[t i]|] s0]| |] eqn:E end; try done.
  - assert (s0 = s) as -> by (inv_rets E; done).
    eapply keeps_bind; [by apply accept_wait_keeps|]. intros ok s1 -> Hs1. by split.
  - assert (s0 = s) as -> by (inv_rets E; done). by split.
Qed.
End calls.

(** ** All interleavings *)

Section system.
Context (arch : timer_arch) (hw : nat -> hw_regs) (heap_base stack_bottom sched_trampoline : Z).

(** Start-up: [sched_init], later [ipc_subsystem_init]. *)
Definition ipc_boot : outcome istate :=
  k ← sched_init stack_bottom kstate_static;
  Ret (ipc_subsystem_init (mk_i k [] [] [] [] None 0 ∅)).

(** Ways into the kernel that concern threads and capabilities. *)
Inductive entry : (istate -> proc istate unit) -> Prop :=
| E_syscall n fuel msg_at str_at num a1 a2 a3 :
    entry (fun s => pbind (ipc_syscall_dispatch arch hw heap_base stack_bottom n fuel msg_at str_at num a1 a2 a3 s)
      (fun _ s' => PDone tt s'))
| E_schedule fuel : entry (fun s => proc_on_k (sched_schedule arch hw stack_bottom fuel (i_k s)) s)
| E_block fuel : entry (fun s => proc_on_k (sched_block arch hw stack_bottom fuel (i_k s)) s)
| E_exit fuel : entry (fun s => proc_on_k (sched_exit arch hw stack_bottom fuel (i_k s)) s)
| E_tick fuel : entry (fun s => proc_on_k (timer_poll arch hw stack_bottom fuel (i_k s)) s)
| E_create nm ent a prio :
    entry (fun s => plift ('(_, s') ← on_k (sched_create_thread arch heap_base stack_bottom sched_trampoline nm ent a prio (i_k s)) s;
      Ret (tt, s')))
| E_inherit c p : entry (fun s => plift (s' ← inherit_caps c p s; Ret (tt, s')))
| E_cleanup t : entry (fun s => plift (s' ← sched_ipc_cleanup_thread heap_base stack_bottom t s; Ret (tt, s'))).

(** The state when a routine ends or gives up the processor, and what is left
    of it. *)
Definition settles (m : proc istate unit) (s : istate) (rest : list (istate -> proc istate unit)) : Prop :=
  match m with
  | PDone _ s' => s' = s /\ rest = []
  | PSwitch _ _ s' k => s' = s /\ rest = [k]
  | _ => False
  end.

(** The state and the routines that wait to continue; any of them may. *)
Inductive sys_step : istate * list (istate -> proc istate unit) -> istate * list (istate -> proc istate unit) -> Prop :=
| sys_enter f s pool s' rest : entry f -> settles (f s) s' rest -> sys_step (s, pool) (s', rest ++ pool)
| sys_resume k s pool1 pool2 s' rest :
    settles (k s) s' rest -> sys_step (s, pool1 ++ k :: pool2) (s', rest ++ pool1 ++ pool2).

Lemma table_zero_conf : table_conf table_zero.
Proof. split; [done|]. intros h c Hc%zget_replicate_inv. by subst. Qed.

Lemma init_thread_conf tid exts exts' : exts_conf exts -> sched_ipc_init_thread tid exts = Ret exts' -> exts_conf exts'.
Proof.
  intros [Hl Hx] [Hb ->]%wr_Ret. split; [by rewrite zlen_zset|]. intros j e. rewrite zget_zset.
  case_match; [|apply Hx]. intros [= <-].
  change (table_conf (with_caps ((caps table_zero).[0 <- root_dir_cap]) table_zero)).
  apply (set_cap_conf table_zero 0 root_dir_cap); [apply table_zero_conf|done|done].
Qed.

Lemma create_thread_kinv nm ent a prio k r k' :
  kinv exts_conf k -> sched_create_thread arch heap_base stack_bottom sched_trampoline nm ent a prio k = Ret (r, k') -> kinv exts_conf k'.
Proof.
  intros Hk H. destruct r as [i|]; [|by apply create_thread_none in H as ->].
  apply create_thread_inv in H as (t & exts & base & h & Ht & _ & Hx & ->); [|by rewrite (kinv_inited _ _ Hk)].
  destruct Hk as [Hl Hc Hi Hex]. split; cbn in *; [by rewrite zlen_zset|done|done|]. by eapply init_thread_conf.
Qed.

Lemma cleanup_slot_iinv t i s s' : iinv s -> cleanup_slot heap_base stack_bottom t i s = Ret s' -> iinv s'.
Proof.
  intros Hs H. unfold cleanup_slot in H. apply bind_Ret_inv in H as (tab & Htab & H).
  assert (table_conf tab) as Ht by by eapply get_cap_table_iinv.
  apply bind_Ret_inv in H as (c & Hc & H). assert (cap_confined c) as Hcc by by eapply table_conf_get.
  case_match; [by apply Ret_inj in H as <-|]. cbn zeta in H.
  apply bind_Ret_inv in H as (tab1 & Ht1 & H). apply bind_Ret_inv in H as (s1 & Hs1 & H).
  assert (iinv s1) as Hi1 by (eapply put_cap_table_iinv; [done|eapply (set_cap_conf tab); [done..|by apply cap_confined_ref|done]|done]).
  destruct Hcc as [Hrev ?]. unfold ipc_cap_has_right in Hrev. cbn [rights with_ref_count] in H. rewrite Hrev, andb_false_r in H.
  cbn [mbind outcome_bind] in H. apply bind_Ret_inv in H as (tab2 & Htab2 & H).
  assert (table_conf tab2) as Ht2 by by eapply get_cap_table_iinv.
  apply bind_Ret_inv in H as (c2 & Hc2 & H). apply bind_Ret_inv in H as (tab3 & Ht3 & H).
  eapply put_cap_table_iinv; [done| |done]. eapply (set_cap_conf tab2); [done| |done].
  apply cap_confined_none. by eapply table_conf_get.
Qed.

Lemma cleanup_loop_iinv n t i s s' : iinv s -> cleanup_loop heap_base stack_bottom n t i s = Ret s' -> iinv s'.
Proof.
  revert i s. induction n as [|n IH]; intros i s Hs H; cbn in H; [by apply Ret_inj in H as <-|].
  apply bind_Ret_inv in H as (s1 & H1 & H). eapply IH, H. by eapply cleanup_slot_iinv.
Qed.

Lemma cleanup_thread_iinv t s s' : iinv s -> sched_ipc_cleanup_thread heap_base stack_bottom t s = Ret s' -> iinv s'.
Proof.
  intros Hs H. unfold sched_ipc_cleanup_thread in H. apply bind_Ret_inv in H as (s1 & H1 & H).
  apply cleanup_loop_iinv in H1 as [[Hl Hc Hi [Hxl Hx]] Hp]; [|done].
  apply bind_Ret_inv in H as (tid & _ & H). apply bind_Ret_inv in H as (exts & (Hb & ->)%wr_Ret & <-%Ret_inj).
  split; [split; [done|done|done|]|done]. split; [cbn; by rewrite zlen_zset|].
  intros j e. cbn. rewrite zget_zset. case_match; [|apply Hx]. intros [= <-]. apply table_zero_conf.
Qed.

(** Calls that need a right to revoke, to send to an endpoint or to call it, and
    the acceptance of a connection. *)
Definition denied (num : Z) : bool := bool_decide (num ∈ [202; 214; 220; 222; 224; 240; 242]).

Lemma ret_only_keeps (Q : Z -> Prop) m :
  (forall r s, m = Ret (r, s) -> Q r /\ iinv s) -> keeps iinv (fun r => Q r.1) (ret_only m).
Proof.
  intros H. apply keeps_plift. intros a s H1. apply bind_Ret_inv in H1 as ([r s1] & H2 & H1). apply Ret_inj in H1.
  simplify_eq. by apply H.
Qed.

Lemma ret_handle_keeps m :
  (forall r h s, m = Ret (r, h, s) -> iinv s) -> keeps iinv (fun _ => True) (ret_handle m).
Proof.
  intros H. apply keeps_plift. intros a s H1. apply bind_Ret_inv in H1 as ([[r h] s1] & H2 & H1). apply Ret_inj in H1.
  simplify_eq. split; [done|]. by eapply H.
Qed.

Lemma dispatch_keeps n fuel msg_at str_at num a1 a2 a3 s :
  iinv s ->
  keeps iinv (fun r => denied num = true -> r.1 = -1)
    (ipc_syscall_dispatch arch hw heap_base stack_bottom n fuel msg_at str_at num a1 a2 a3 s).
Proof.
  intros Hs. pose proof (u32_bound a1). unfold ipc_syscall_dispatch.
  assert (forall m, keeps iinv (fun _ => True) m -> denied num = false ->
    keeps iinv (fun r : Z * ipc_out => denied num = true -> r.1 = -1) m) as Hok.
  { intros m Hm Hd. eapply keeps_mono; [exact Hm|]. intros. congruence. }
  assert (forall m, keeps iinv (fun r : Z * ipc_out => r.1 = -1) m ->
    keeps iinv (fun r : Z * ipc_out => denied num = true -> r.1 = -1) m) as Hno.
  { intros m Hm. eapply keeps_mono; [exact Hm|]. auto. }
  repeat match goal with |- keeps _ _ (if ?b then _ else _) => destruct b eqn:?; [bool_to_prop; subst num|] end.
  - apply Hok; [|done]. apply (ret_only_keeps (fun _ => True)). intros r s' Hr. split; [done|]. by eapply cap_narrow_iinv.
  - apply Hno. apply (ret_only_keeps (fun r => r = -1)). unfold sys_ipc_cap_revoke. rewrite destroy_fails by (done || lia).
    intros r s' Hr%Ret_inj. by simplify_eq.
  - apply Hok; [|done]. apply ret_handle_keeps. intros r h s' Hr. by eapply cap_dup_iinv.
  - apply Hok; [|done]. apply keeps_plift. intros a s' Hr. apply bind_Ret_inv in Hr as ([[r hs] s1] & H1 & Hr).
    apply Ret_inj in Hr. simplify_eq. split; [done|]. by eapply endpoint_create_iinv.
  - apply Hno. apply (ret_only_keeps (fun r => r = -1)). intros r s' Hr.
    destruct (send_fails stack_bottom (u32 a1) (msg_at a2) (u32 a3) s) as (s1 & Hsnd & ?); [done|lia|].
    rewrite Hsnd in Hr. apply Ret_inj in Hr. by simplify_eq.
  - apply Hok; [|done]. eapply keeps_bind; [by apply recv_keeps|]. by intros [r m] s' _ Hs'.
  - apply Hno. unfold ret_msg. rewrite call_fails by (done || lia). by split.
  - apply Hok; [|done]. apply ret_handle_keeps. intros r h s' Hr. by eapply port_create_iinv.
  - apply Hno. eapply keeps_bind; [by apply accept_keeps|]. by intros [r h] s' [= -> ->] Hs'.
  - apply Hok; [|done]. apply (ret_only_keeps (fun _ => True)). intros r s' Hr. split; [done|]. by eapply ns_register_iinv.
  - apply Hok; [|done]. apply ret_handle_keeps. intros r h s' Hr. by eapply ns_lookup_iinv.
  - apply Hno. apply (ret_only_keeps (fun r => r = -1)). rewrite destroy_fails by (done || lia).
    intros r s' Hr%Ret_inj. by simplify_eq.
  - apply Hno. apply (ret_only_keeps (fun r => r = -1)). rewrite pause_fails by (done || lia).
    intros r s' Hr%Ret_inj. by simplify_eq.
  - apply Hok; [|done]. apply (ret_only_keeps (fun _ => True)). intros r s' Hr. split; [done|]. by eapply resume_iinv.
  - apply Hno. rewrite drain_fails by (done || lia). by split.
  - by split.
Qed.

Lemma entry_keeps f s : entry f -> iinv s -> keeps iinv (fun _ => True) (f s).
Proof.
  intros Hf Hs. destruct (Hs) as [Hk Hp]. destruct Hf.
  - eapply keeps_bind; [by apply dispatch_keeps|]. by intros.
  - apply proc_on_k_keeps; [by apply sched_schedule_keeps|done].
  - apply proc_on_k_keeps; [by apply sched_block_keeps|done].
  - apply proc_on_k_keeps; [by apply sched_exit_keeps|done].
  - apply proc_on_k_keeps; [|done]. apply timer_poll_keeps; [|done]. intros. by apply sched_schedule_keeps.
  - apply keeps_plift. intros [] s' H. split; [done|]. apply bind_Ret_inv in H as ([r s1] & H1 & H). apply Ret_inj in H.
    simplify_eq. apply bind_Ret_inv in H1 as ([r' k] & H1 & H). apply Ret_inj in H. simplify_eq.
    split; [by eapply create_thread_kinv|done].
  - apply keeps_plift. intros [] s' H. split; [done|]. apply bind_Ret_inv in H as (s1 & H1 & H). apply Ret_inj in H.
    simplify_eq. apply bind_Ret_inv in H1 as (ptab & Ht & H1). eapply put_cap_table_iinv; [done| |done].
    by eapply get_cap_table_iinv.
  - apply keeps_plift. intros [] s' H. split; [done|]. apply bind_Ret_inv in H as (s1 & H1 & H). apply Ret_inj in H.
    simplify_eq. by eapply cleanup_thread_iinv.
Qed.

Lemma ipc_boot_iinv s : ipc_boot = Ret s -> iinv s.
Proof.
  intros H. apply bind_Ret_inv in H as (k & Hk & <-%Ret_inj). apply bind_Ret_inv in Hk as (exts & _ & <-%Ret_inj).
  split; [split; cbn; [done|by exists 0|done|]|].
  - split; [done|]. intros j e He%zget_replicate_inv. subst. apply table_zero_conf.
  - cbn [g_ports ipc_subsystem_init]. unfold zget. intros j p. case_match; [|done]. intros Hp.
    apply list_lookup_fmap_Some in Hp as (x & -> & _). done.
Qed.

(** The invariant, with the routines that wait to continue. *)
Definition sys_inv (c : istate * list (istate -> proc istate unit)) : Prop :=
  iinv c.1 /\ Forall (fun k => forall s, iinv s -> keeps iinv (fun _ => True) (k s)) c.2.

Lemma settles_inv m s rest :
  keeps iinv (fun _ => True) m -> settles m s rest ->
  iinv s /\ Forall (fun k => forall s, iinv s -> keeps iinv (fun _ => True) (k s)) rest.
Proof.
  destruct m; cbn; try done.
  - intros [_ ?] [-> ->]. by split.
  - intros [? Hk] [-> ->]. split; [done|]. by constructor.
Qed.

Lemma sys_step_inv c c' : sys_inv c -> sys_step c c' -> sys_inv c'.
Proof.
  intros [Hi Hpool] Hstep. destruct Hstep as [f s pool s' rest Hf Hset|k s pool1 pool2 s' rest Hset]; cbn in *.
  - apply settles_inv in Hset as [? ?]; [|by apply entry_keeps]. split; [done|]. by apply Forall_app.
  - apply Forall_app in Hpool as [H1 H2]. apply Forall_cons in H2 as [Hk H2].
    apply settles_inv in Hset as [? ?]; [|by apply Hk]. split; [done|]. cbn. by rewrite !Forall_app.
Qed.

Lemma reachable_iinv s0 s pool : ipc_boot = Ret s0 -> rtc sys_step (s0, []) (s, pool) -> sys_inv (s, pool).
Proof.
  intros Hb Hr. apply (rtc_ind_r sys_inv (s0, [])) in Hr; [done|split; [by apply ipc_boot_iinv|constructor]|].
  intros c c' _ Hstep Hc. by eapply sys_step_inv.
Qed.

(** ** Theorems *)

(** In every state that threads reach from boot by any interleaving of IPC
    system calls (including calls that block and continue later), scheduling,
    thread creation, inheritance of capabilities and thread exit, no thread holds
    a capability with the right to revoke, or an endpoint capability with the
    right to send or to call.  Hence [sys_ipc_send], [sys_ipc_call],
    [sys_ipc_object_destroy], [sys_ipc_cap_revoke], [sys_ipc_object_pause] and
    [sys_ipc_object_drain] return -1 for every handle and message, and
    [sys_ipc_port_accept] never succeeds. *)
Theorem no_thread_can_send s0 s pool :
  ipc_boot = Ret s0 -> rtc sys_step (s0, []) (s, pool) ->
  (forall t tab h c, get_cap_table t s = Ret tab -> (caps tab).[h] = Some c -> cap_confined c) /\
  (forall h m fl, 0 <= h -> exists s', sys_ipc_send stack_bottom h m fl s = Ret (-1, s')) /\
  (forall fuel h m, 0 <= h -> sys_ipc_call arch hw stack_bottom fuel h m s = PDone (-1, None) s) /\
  (forall h, 0 <= h -> sys_ipc_object_destroy heap_base stack_bottom h s = Ret (-1, s) /\
     sys_ipc_cap_revoke heap_base stack_bottom h s = Ret (-1, s) /\
     sys_ipc_object_pause stack_bottom h s = Ret (-1, s)) /\
  (forall n fuel h, 0 <= h -> sys_ipc_object_drain arch hw stack_bottom n fuel h s = PDone (-1) s) /\
  (forall n fuel h, keeps iinv (fun r => r = (-1, None)) (sys_ipc_port_accept arch hw heap_base stack_bottom n fuel h s)).
Proof.
  intros Hb Hr. destruct (reachable_iinv _ _ _ Hb Hr) as [Hs _]. cbn in Hs. split_and!.
  - intros t tab h c Ht Hc. destruct (get_cap_table_iinv t s tab Hs Ht) as [_ H]. by eapply H.
  - intros h m fl Hh. destruct (send_fails stack_bottom h m fl s Hs Hh) as (s' & ? & _). by exists s'.
  - intros. by apply call_fails.
  - intros h Hh. split_and!; [by apply destroy_fails..|by apply pause_fails].
  - intros. by apply drain_fails.
  - intros. by apply accept_keeps.
Qed.

End system.

(** The state after start-up. *)
Definition booted : istate := match ipc_boot 4096 with Ret s => s | _ => mk_i kstate_static [] [] [] [] None 0 ∅ end.

Lemma booted_ok : ipc_boot 4096 = Ret booted.
Proof.
  unfold booted, ipc_boot, sched_init, sched_ipc_init_thread.
  rewrite wr_in_range by (split; [done|apply ext_index_range]). done.
Qed.

(** After the creation of a port. *)
Lemma no_thread_can_send_witness :
  let hw := fun _ => mk_hw 0 0 0 in
  ipc_boot 4096 = Ret booted /\
  exists s, rtc (sys_step TIMER_ARCH_ARM64 hw 65536 4096 0) (booted, []) (s, []) /\
    exists s', sys_ipc_send 4096 0 msg_zero 0 s = Ret (-1, s').
Proof.
  intros hw. split; [exact booted_ok|].
  set (m := ipc_syscall_dispatch TIMER_ARCH_ARM64 hw 65536 4096 0 0 (fun _ => msg_zero) (fun _ => []) 212 4 0 0 booted).
  assert (match m with PDone (r, _) _ => r | _ => -5 end = 0) as Hm by (vm_compute; reflexivity).
  destruct m as [[r o] s| | | |] eqn:E; try discriminate Hm. exists s.
  assert (rtc (sys_step TIMER_ARCH_ARM64 hw 65536 4096 0) (booted, []) (s, [])) as Hr.
  { apply rtc_once. refine (sys_enter _ _ _ _ _ _ booted [] s [] (E_syscall _ _ _ _ _ 0 0 (fun _ => msg_zero) (fun _ => []) 212 4 0 0) _).
    fold m. rewrite E. done. }
  split; [exact Hr|].
  destruct (no_thread_can_send TIMER_ARCH_ARM64 hw 65536 4096 0 booted s [] booted_ok Hr) as (_ & Hsend & _).
  apply Hsend. done.
Defined.

End IpcSpec.
