(* ===== verification/IpcCreate.v ===== *)
(** * Endpoint creation and narrowing of rights

    [sys_ipc_endpoint_create] of kernel/core/ipc.c takes two endpoints from the
    pool and two slots of the caller's table.  Neither is marked when it is
    found, so both searches find the same one: the two ends are one endpoint, and
    the second capability replaces the first.  [sys_ipc_cap_narrow] can only
    remove rights. *)

From stdpp Require Import base tactics numbers option relations gmap list.
From S2P Require Import Prelude Ring Proc Telemetry CMem Alloc Timer Caps AllocSpec Sched SchedSpec Ipc IpcQueue IpcSpec.

Module IpcCreate.
Import Telemetry Alloc Timer Caps AllocSpec Sched SchedSpec Ipc IpcQueue IpcSpec.

(** ** Lemmas *)

(** [i] is the first object that can be reused. *)
Definition first_reusable (l : list endpoint) (i : Z) : Prop :=
  (exists e, l.[i] = Some e /\ reusable (ep_state e) = true) /\
  forall j e, 0 <= j < i -> l.[j] = Some e -> reusable (ep_state e) = false.

Lemma find_reusable_ok n i l :
  0 <= i -> i + Z.of_nat n = zlen l ->
  completes (find_reusable ep_state n i l) (fun r =>
    match r with
    | Some j => i <= j /\ (exists e, l.[j] = Some e /\ reusable (ep_state e) = true) /\
        forall k e, i <= k < j -> l.[k] = Some e -> reusable (ep_state e) = false
    | None => forall k e, i <= k -> l.[k] = Some e -> reusable (ep_state e) = false
    end).
Proof.
  revert i. induction n as [|n IH]; intros i Hi Hn; cbn [find_reusable].
  - apply completes_Ret. intros k e Hk Hke. apply zget_Some_bound in Hke. lia.
  - destruct (rd_in_range l i) as (x & -> & Hx); [lia|]. cbn [mbind outcome_bind].
    destruct (reusable (ep_state x)) eqn:Er.
    + apply completes_Ret. split_and!; [lia|by exists x|]. intros k e Hk. lia.
    + eapply completes_mono; [apply IH; lia|]. intros [j|] Hr.
      * destruct Hr as (? & ? & Hr). split_and!; [lia|done|]. intros k e Hk Hke.
        destruct (decide (k = i)) as [->|]; [congruence|]. apply (Hr k); [lia|done].
      * intros k e Hk Hke. destruct (decide (k = i)) as [->|]; [congruence|]. apply (Hr k); [lia|done].
Qed.

Lemma first_reusable_unique l i j : 0 <= i -> 0 <= j -> first_reusable l i -> first_reusable l j -> i = j.
Proof.
  intros Hi0 Hj0 ((e & He & Hr) & Hi) ((e' & He' & Hr') & Hj).
  destruct (Z.lt_trichotomy i j) as [?|[?|?]]; [|done|].
  - rewrite (Hj i e) in Hr; [done|lia|done].
  - rewrite (Hi j e') in Hr'; [done|lia|done].
Qed.

Lemma find_reusable_first l i :
  zlen l = IPC_MAX_ENDPOINTS -> first_reusable l i -> 0 <= i ->
  find_reusable ep_state (Z.to_nat IPC_MAX_ENDPOINTS) 0 l = Ret (Some i).
Proof.
  intros Hl Hf Hi. destruct (find_reusable_ok (Z.to_nat IPC_MAX_ENDPOINTS) 0 l) as (r & -> & Hr); [done|by rewrite Hl|].
  destruct r as [j|].
  - destruct Hr as (? & He & Hr). do 2 f_equal. by apply (first_reusable_unique l).
  - destruct Hf as ((e & He & Hre) & _). rewrite (Hr i e) in Hre; done.
Qed.

(** The two searches of the pool find the same endpoint. *)
Lemma alloc_pair_ok s :
  zlen (g_endpoints s) = IPC_MAX_ENDPOINTS ->
  (exists i, 0 <= i < IPC_MAX_ENDPOINTS /\ first_reusable (g_endpoints s) i /\
     alloc_pair s = Ret (Some (i, i),
       with_g_endpoints ((g_endpoints s).[i <- ep_zero i IPC_STATE_CONSTRUCTED IPC_OBJ_ENDPOINT]) s)) \/
  ((forall j e, (g_endpoints s).[j] = Some e -> reusable (ep_state e) = false) /\ alloc_pair s = Ret (None, s)).
Proof.
  intros Hl. unfold alloc_pair, ipc_alloc_endpoint.
  destruct (find_reusable_ok (Z.to_nat IPC_MAX_ENDPOINTS) 0 (g_endpoints s)) as (r & -> & Hr); [done|by rewrite Hl|].
  cbn [mbind outcome_bind]. destruct r as [i|].
  2:{ right. split; [|done]. intros j e Hj. apply (Hr j); [|done]. apply zget_Some_bound in Hj. lia. }
  left. destruct Hr as (Hi & (e & He & Hre) & Hlow). pose proof (zget_Some_bound _ _ _ He).
  exists i. split_and!; [lia|lia|split; [by exists e|done]|].
  rewrite wr_in_range by done. cbn [mbind outcome_bind g_endpoints with_g_endpoints].
  rewrite (find_reusable_first _ i).
  - cbn [mbind outcome_bind]. rewrite wr_in_range by (by rewrite zlen_zset). cbn. by rewrite zset_zset_eq.
  - by rewrite zlen_zset.
  - split; [eexists; by rewrite zget_zset_eq|]. intros j e' Hj. rewrite zget_zset_ne by lia. by apply Hlow.
  - lia.
Qed.

Section create.
Context (heap_base stack_bottom : Z) (Hbase : arena_ok heap_base).

(** A ring of zeroed messages, or no memory; only the heap changes. *)
Lemma ring_alloc_ok s bl :
  kinv (fun _ => True) (i_k s) -> heap_inv heap_base (k_heap (i_k s)) bl ->
  exists p h rs, ring_alloc heap_base s = Ret (p, with_rings rs (with_i_k (with_k_heap h (i_k s)) s)) /\
    (exists bl', heap_inv heap_base h bl') /\
    (p <> 0 -> rs !! p = Some (replicate (Z.to_nat RING_SIZE) msg_zero)).
Proof.
  intros [Hl (c & Hc & Hr) _ _] Hh. unfold ring_alloc, k_env, thread_id. rewrite Hc.
  destruct (rd_in_range (g_tasks (i_k s)) c) as (t & -> & _); [lia|]. cbn [mbind outcome_bind].
  set (e := mk_env _ _). set (sz := u64 _).
  destruct (malloc_ok heap_base Hbase e (k_heap (i_k s)) bl sz ALLOC_TAG_IPC) as ([p h] & -> & Hres);
    [done|done|done|]. cbn [mbind outcome_bind].
  destruct (Z.eqb_spec p 0) as [->|Hp].
  - exists 0, h, (rings s). split_and!; [by destruct s| |done].
    destruct Hres as [([= ->] & _)|(bl' & Hm & Heff)]; [by exists bl|]. exists bl'. apply Heff.
  - exists p, h, (<[p := replicate (Z.to_nat RING_SIZE) msg_zero]> (rings s)).
    split_and!; [done| |intros _; apply lookup_insert_eq].
    destruct Hres as [([= ? ->] & _)|(bl' & Hm & Heff)]; [done|]. exists bl'. apply Heff.
Qed.

(** A state that differs from [s] in the endpoints, rings and heap only. *)
Definition with_pool (eps : list endpoint) (rs : gmap Z (list ipc_msg)) (h : heap) (s : istate) : istate :=
  with_g_endpoints eps (with_rings rs (with_i_k (with_k_heap h (i_k s)) s)).

Lemma update_pool i f eps rs h s e :
  eps.[i] = Some e -> update_ep i f (with_pool eps rs h s) = Ret (with_pool (eps.[i <- f e]) rs h s).
Proof. intros He. by rewrite (update_ep_ok i f (with_pool eps rs h s) e He). Qed.

Lemma ring_alloc_pool eps rs h s bl :
  kinv (fun _ => True) (i_k s) -> heap_inv heap_base h bl ->
  exists p h' rs' bl', ring_alloc heap_base (with_pool eps rs h s) = Ret (p, with_pool eps rs' h' s) /\
    heap_inv heap_base h' bl' /\ (p <> 0 -> rs' !! p = Some (replicate (Z.to_nat RING_SIZE) msg_zero)).
Proof.
  intros Hk Hh. destruct (ring_alloc_ok (with_pool eps rs h s) bl) as (p & h' & rs' & Hra & (bl' & Hh') & Hp).
  - by apply (kinv_same _ (i_k s)).
  - done.
  - exists p, h', rs', bl'. by split_and!.
Qed.

(** The rings of an endpoint that is both ends: the second replaces the first. *)
Lemma alloc_rings_ok i e0 eps rs h s bl :
  kinv (fun _ => True) (i_k s) -> heap_inv heap_base h bl -> eps.[i] = Some e0 ->
  exists p h' rs',
    (p <> 0 /\ rs' !! p = Some (replicate (Z.to_nat RING_SIZE) msg_zero) /\
     alloc_rings heap_base i i (with_pool eps rs h s) =
       Ret (true, with_pool (eps.[i <- with_msg_ring p (with_ring_size RING_SIZE e0)]) rs' h' s) \/
     p = 0 /\ alloc_rings heap_base i i (with_pool eps rs h s) =
       Ret (false, with_pool (eps.[i <- with_ep_state IPC_STATE_DEAD (with_msg_ring 0 (with_ring_size RING_SIZE e0))]) rs' h' s)).
Proof.
  intros Hk Hh He. assert (Hi := zget_Some_bound _ _ _ He).
  assert (forall e, eps.[i <- e].[i] = Some e) as Hget by (intros; by apply zget_zset_eq).
  unfold alloc_rings. rewrite (update_pool i _ eps rs h s e0 He). cbn [mbind outcome_bind].
  erewrite update_pool by apply Hget. cbn [mbind outcome_bind]. rewrite zset_zset_eq.
  destruct (ring_alloc_pool (eps.[i <- with_ring_size RING_SIZE (with_ring_size RING_SIZE e0)]) rs h s bl Hk Hh)
    as (p1 & h1 & rs1 & bl1 & -> & Hh1 & _). cbn [mbind outcome_bind].
  erewrite update_pool by apply Hget. cbn [mbind outcome_bind]. rewrite zset_zset_eq.
  match goal with |- context [ring_alloc _ (with_pool ?a ?b ?c ?d)] =>
    destruct (ring_alloc_pool a b c d bl1 Hk Hh1) as (p2 & h2 & rs2 & bl2 & -> & Hh2 & Hp2) end.
  cbn [mbind outcome_bind]. erewrite update_pool by apply Hget. cbn [mbind outcome_bind]. rewrite zset_zset_eq.
  cbn [g_endpoints with_pool with_g_endpoints]. erewrite rd_some by apply Hget. cbn [mbind outcome_bind msg_ring with_msg_ring].
  exists p2, h2, rs2. destruct (Z.eqb_spec p2 0) as [->|Hne]; cbn [orb].
  - right. split; [done|]. cbn [mbind outcome_bind]. unfold set_ep_state.
    erewrite update_pool by apply Hget. cbn [mbind outcome_bind]. rewrite zset_zset_eq.
    erewrite update_pool by apply Hget. cbn [mbind outcome_bind]. by rewrite zset_zset_eq.
  - left. split_and!; [done|by apply Hp2|done].
Qed.

(** The capability of the receiving end, in the first free slot. *)
Definition recv_cap (i tid : Z) : capability := endpoint_cap (Z.lor IPC_CAP_RIGHT_RECV IPC_CAP_RIGHT_DUP) i tid.

Lemma get_put_table t s th tab tab' :
  kinv exts_ok (i_k s) -> (g_tasks (i_k s)).[t] = Some th -> get_cap_table t s = Ret tab -> table_ok tab' ->
  exists s', put_cap_table t tab' s = Ret s' /\ get_cap_table t s' = Ret tab' /\
    exists exts, s' = with_i_k (with_g_thread_ipc_ext exts (i_k s)) s.
Proof.
  intros [_ _ _ Hx] Ht _ Htab. unfold put_cap_table, get_cap_table, task_id. rewrite (rd_some _ _ _ Ht).
  cbn [mbind outcome_bind]. destruct (set_cap_table_ok (id th) tab' (g_thread_ipc_ext (i_k s)) Hx Htab) as (exts & -> & _ & Hg & _).
  cbn [mbind outcome_bind]. eexists. split; [done|]. split; [|by eexists]. cbn. rewrite (rd_some _ _ _ Ht). cbn.
  exact Hg.
Qed.

(** Both slot searches find the same slot; the receive capability stays. *)
Lemma install_caps_ok t s th i :
  kinv exts_ok (i_k s) -> (g_tasks (i_k s)).[t] = Some th -> 0 <= i < zlen (g_endpoints s) ->
  exists tab, get_cap_table t s = Ret tab /\
    ((exists h exts tab', install_endpoint_caps t i i (id th) s =
        Ret (Some (h, h), with_i_k (with_g_thread_ipc_ext exts (i_k s)) s) /\
        slot_spec tab 0 (Some h) /\
        get_cap_table t (with_i_k (with_g_thread_ipc_ext exts (i_k s)) s) = Ret tab' /\
        caps tab' = (caps tab).[h <- recv_cap i (id th)]) \/
     (slot_spec tab 0 None /\ exists eps, install_endpoint_caps t i i (id th) s = Ret (None, with_g_endpoints eps s) /\
        forall j, j <> i -> eps.[j] = (g_endpoints s).[j])).
Proof.
  intros Hk Ht Hi. destruct (Hk) as [_ _ _ Hx].
  destruct (task_ipc_cap_table_ok (id th) _ Hx) as (tab & Htab & Hok).
  assert (get_cap_table t s = Ret tab) as Hget.
  { unfold get_cap_table, task_id. rewrite (rd_some _ _ _ Ht). exact Htab. }
  exists tab. split; [done|]. unfold install_endpoint_caps. rewrite Hget. cbn [mbind outcome_bind].
  destruct (ipc_cap_alloc_slot_ok tab Hok) as (r & Hr & Hs). rewrite Hr. cbn [mbind outcome_bind].
  destruct r as [h|].
  - cbn [mbind outcome_bind]. left. assert (0 <= h < IPC_CAP_MAX_PER_TASK) as Hh by apply Hs.
    match goal with |- context [set_cap tab h ?c] => destruct (set_cap_ok tab h c Hok Hh) as [-> Hok1] end.
    cbn [mbind outcome_bind]. fold (recv_cap i (id th)).
    match goal with |- context [set_cap ?tb h ?c] => destruct (set_cap_ok tb h c Hok1 Hh) as [-> Hok2] end.
    cbn [mbind outcome_bind]. cbn [caps with_caps] in Hok2 |- *. rewrite zset_zset_eq in Hok2 |- *.
    destruct (get_put_table t s th tab _ Hk Ht Hget Hok2) as (s' & -> & Hg & exts & ->).
    eexists h, exts, _. split_and!; [done|done|exact Hg|done].
  - right. split; [done|]. cbn [mbind outcome_bind]. destruct (zget_in_range _ _ Hi) as (e & He).
    unfold set_ep_state. rewrite (update_ep_ok _ _ _ _ He). cbn [mbind outcome_bind].
    erewrite update_ep_ok by (cbn; by apply zget_zset_eq). cbn [mbind outcome_bind].
    eexists. split; [done|]. intros j Hj. cbn. by rewrite !zget_zset_ne.
Qed.

Lemma link_pool i peer tid eps rs h s e :
  eps.[i] = Some e ->
  exists e', link_ep i peer tid (with_pool eps rs h s) = Ret (with_pool (eps.[i <- e']) rs h s) /\
    e' = mk_ep (ep_id e) (ep_type e) IPC_STATE_ACTIVE (msg_ring e) (ring_size e) (head e) (tail e) (msg_count e)
           peer tid (wait_head e) (wait_tail e) (msgs_sent e) (msgs_recv e) (bytes_moved e) (drops e).
Proof. intros He. eexists. split; [|done]. unfold link_ep. by rewrite (update_pool _ _ _ _ _ _ _ He). Qed.

(** The new endpoint. *)
Definition fresh_ep (i ring tid : Z) : endpoint :=
  mk_ep i IPC_OBJ_ENDPOINT IPC_STATE_ACTIVE ring RING_SIZE 0 0 0 i tid None None 0 0 0 0.

Lemma fresh_ep_rep i ring tid eps rs h s :
  eps.[i] = Some (fresh_ep i ring tid) -> rs !! ring = Some (replicate (Z.to_nat RING_SIZE) msg_zero) ->
  forall exts, ep_rep i (with_i_k (with_g_thread_ipc_ext exts (i_k (with_pool eps rs h s))) (with_pool eps rs h s))
    (mk_bq IPC_STATE_ACTIVE [] []).
Proof.
  intros He Hr exts. exists (fresh_ep i ring tid), (replicate (Z.to_nat RING_SIZE) msg_zero). split_and!; try done.
Qed.

(** What a successful creation leaves. *)
Definition created (s : istate) (t h1 h2 : Z) (s' : istate) : Prop :=
  h2 = h1 /\ exists i th tab tab', 0 <= i < IPC_MAX_ENDPOINTS /\ (g_tasks (i_k s)).[t] = Some th /\
    first_reusable (g_endpoints s) i /\
    get_cap_table t s = Ret tab /\ slot_spec tab 0 (Some h1) /\
    get_cap_table t s' = Ret tab' /\ caps tab' = (caps tab).[h1 <- recv_cap i (id th)] /\
    ep_rep i s' (mk_bq IPC_STATE_ACTIVE [] []) /\
    (exists ring, (g_endpoints s').[i] = Some (fresh_ep i ring (id th))) /\
    (forall j, j <> i -> (g_endpoints s').[j] = (g_endpoints s).[j]).

(** A failed creation changes no capability and no endpoint in use. *)
Definition not_created (s s' : istate) : Prop :=
  g_thread_ipc_ext (i_k s') = g_thread_ipc_ext (i_k s) /\
  forall j e, (g_endpoints s).[j] = Some e -> reusable (ep_state e) = false -> (g_endpoints s').[j] = Some e.

Lemma not_created_at i s s' :
  first_reusable (g_endpoints s) i -> g_thread_ipc_ext (i_k s') = g_thread_ipc_ext (i_k s) ->
  (forall j, j <> i -> (g_endpoints s').[j] = (g_endpoints s).[j]) -> not_created s s'.
Proof.
  intros ((e & He & Hr) & _) Hx Ho. split; [done|]. intros j e' He' Hr'. rewrite Ho; [done|]. intros ->. congruence.
Qed.

Lemma endpoint_create_ok s bl t :
  kinv exts_ok (i_k s) -> g_current_task (i_k s) = Some t -> zlen (g_endpoints s) = IPC_MAX_ENDPOINTS ->
  heap_inv heap_base (k_heap (i_k s)) bl ->
  completes (sys_ipc_endpoint_create heap_base stack_bottom s) (fun '(r, hs, s') =>
    match hs with
    | Some (h1, h2) => r = 0 /\ created s t h1 h2 s'
    | None => r = -1 /\ not_created s s'
    end).
Proof.
  intros Hk Hcur Hl Hh. destruct (Hk) as [Hlen (c & Hc & Hr) Hi Hx]. assert (c = t) as -> by congruence.
  assert (kinv (fun _ => True) (i_k s)) as Hk0 by by split; [|exists t| |].
  unfold sys_ipc_endpoint_create, current_task, on_k, sched_current_thread. rewrite Hi. cbn [Z.eqb mbind outcome_bind].
  rewrite Hcur. replace (with_i_k (i_k s) s) with s by by destruct s.
  destruct (zget_in_range (g_tasks (i_k s)) t) as (th & Hth); [lia|].
  destruct (alloc_pair_ok s Hl) as [(i & Hib & Hf & ->)|[Hno ->]]; cbn [mbind outcome_bind].
  2:{ apply completes_Ret. split; [done|]. by split. }
  set (eps := (g_endpoints s).[i <- _]). assert (forall e, eps.[i <- e].[i] = Some e) as Hget.
  { intros e. apply zget_zset_eq. unfold eps. rewrite zlen_zset. lia. }
  replace (with_g_endpoints eps s) with (with_pool eps (rings s) (k_heap (i_k s)) s) by by destruct s as [[] ].
  destruct (alloc_rings_ok i (ep_zero i IPC_STATE_CONSTRUCTED IPC_OBJ_ENDPOINT) eps (rings s) (k_heap (i_k s)) s bl)
    as (p & h' & rs' & [(Hp & Hrs & ->)|(-> & ->)]); [done|done|apply zget_zset_eq; lia|..]; cbn [mbind outcome_bind negb].
  2:{ apply completes_Ret. split; [done|]. apply (not_created_at i); [done|done|]. intros j Hj. cbn.
      unfold eps. by rewrite !zget_zset_ne. }
  unfold task_id at 1. cbn [i_k with_pool with_g_endpoints with_rings with_i_k g_tasks with_k_heap g_endpoints].
  rewrite (rd_some _ _ _ Hth). cbn [mbind outcome_bind]. rewrite (rd_some _ _ _ (Hget _)). cbn [mbind outcome_bind].
  edestruct (link_pool i) as (e1 & -> & ->); [apply Hget|]. cbn [mbind outcome_bind]. rewrite zset_zset_eq.
  edestruct (link_pool i) as (e2 & -> & ->); [apply Hget|]. cbn [mbind outcome_bind]. rewrite zset_zset_eq.
  cbn [ep_id with_msg_ring with_ring_size ep_zero ep_type msg_ring ring_size head tail msg_count wait_head wait_tail
       msgs_sent msgs_recv bytes_moved drops]. fold (fresh_ep i p (id th)).
  set (s4 := with_pool _ rs' h' s).
  assert (zlen (g_endpoints s4) = IPC_MAX_ENDPOINTS) as Hl4 by (cbn; unfold eps; by rewrite !zlen_zset).
  destruct (install_caps_ok t s4 th i) as (tab & Htab & [(h & exts & tab' & -> & Hs & Hg & Hcaps)|(_ & eps' & -> & Ho)]);
    [by apply (kinv_same _ (i_k s))|done|by rewrite Hl4|..]; cbn [mbind outcome_bind]; apply completes_Ret.
  - split; [done|]. split; [done|]. exists i, th, tab, tab'. split_and!; try done; try lia.
    + apply (fresh_ep_rep i p (id th)); [apply Hget|done].
    + exists p. apply Hget.
    + intros j Hj. cbn. unfold eps. by rewrite !zget_zset_ne.
  - split; [done|]. apply (not_created_at i); [done|done|]. intros j Hj. cbn. rewrite Ho by done. cbn. unfold eps.
    by rewrite !zget_zset_ne.
Qed.
End create.

(** ** Theorems *)

(** [sys_ipc_endpoint_create] completes.  On success both handles are the same
    slot, the first free one of the caller's table, and it holds only the right
    to receive and to duplicate; both ends are the same endpoint, the first dead
    or constructed one, active, its own peer, with an empty queue of 16; no other
    endpoint changes.  On failure no capability and no endpoint in use changes. *)
Theorem endpoint_create_spec heap_base stack_bottom s bl t :
  arena_ok heap_base -> kinv exts_ok (i_k s) -> g_current_task (i_k s) = Some t ->
  zlen (g_endpoints s) = IPC_MAX_ENDPOINTS -> heap_inv heap_base (k_heap (i_k s)) bl ->
  completes (sys_ipc_endpoint_create heap_base stack_bottom s) (fun '(r, hs, s') =>
    match hs with
    | Some (h1, h2) => r = 0 /\ created s t h1 h2 s'
    | None => r = -1 /\ not_created s s'
    end).
Proof. intros Hb. by apply endpoint_create_ok. Qed.

Lemma booted_kinv : kinv exts_ok (i_k booted).
Proof.
  destruct (ipc_boot_iinv 4096 booted booted_ok) as [[? ? ? [Hl Hx]] _]. split; [done..|].
  split; [done|]. intros j e He. by apply (Hx j e).
Qed.

Lemma booted_heap : heap_inv 65536 (k_heap (i_k booted)) [].
Proof. apply empty_inv; [apply arena_65536|apply mem_zero_wf|done]. Qed.

Lemma endpoint_create_spec_witness :
  completes (sys_ipc_endpoint_create 65536 4096 booted) (fun '(r, hs, s') =>
    match hs with
    | Some (h1, h2) => r = 0 /\ created booted 0 h1 h2 s'
    | None => r = -1 /\ not_created booted s'
    end).
Proof.
  apply (endpoint_create_spec 65536 4096 booted [] 0); [apply arena_65536|apply booted_kinv|done|done|apply booted_heap].
Defined.

(** [sys_ipc_cap_narrow] on a handle below 64 completes.  It returns -1 and
    changes nothing when the slot holds no valid capability or an immutable one;
    otherwise the rights become those the capability had, the caller asked for
    and the mask allows, so that no right is ever added, and no other slot of the
    table changes. *)
Theorem cap_narrow_spec stack_bottom s t th h nr :
  kinv exts_ok (i_k s) -> g_current_task (i_k s) = Some t -> (g_tasks (i_k s)).[t] = Some th ->
  0 <= h < IPC_CAP_MAX_PER_TASK ->
  exists tab c, get_cap_table t s = Ret tab /\ (caps tab).[h] = Some c /\
    completes (sys_ipc_cap_narrow stack_bottom h nr s) (fun '(r, s') =>
      if ipc_cap_is_valid c && (Z.land (flags c) IPC_CAPF_IMMUTABLE =? 0) then
        r = 0 /\ exists tab' c', get_cap_table t s' = Ret tab' /\ caps tab' = (caps tab).[h <- c'] /\
          c' = with_rights (Z.land (rights c) (Z.land nr IPC_CAP_RIGHTS_ALL)) c /\
          forall right, ipc_cap_has_right c right = false -> ipc_cap_has_right c' right = false
      else r = -1 /\ s' = s).
Proof.
  intros Hk Hcur Hth Hh. destruct (Hk) as [Hlen _ Hi Hx].
  destruct (task_ipc_cap_table_ok (id th) _ Hx) as (tab & Htab & Hok).
  assert (get_cap_table t s = Ret tab) as Hget.
  { unfold get_cap_table, task_id. rewrite (rd_some _ _ _ Hth). exact Htab. }
  destruct (zget_in_range (caps tab) h) as (c & Hc); [by rewrite Hok|]. exists tab, c. split_and!; [done|done|].
  unfold sys_ipc_cap_narrow, current_task, on_k, sched_current_thread. rewrite Hi. cbn [Z.eqb mbind outcome_bind].
  rewrite Hcur. replace (with_i_k (i_k s) s) with s by by destruct s. rewrite Hget. cbn [mbind outcome_bind].
  destruct (Z.leb_spec IPC_CAP_MAX_PER_TASK h); [lia|]. rewrite (rd_some _ _ _ Hc). cbn [mbind outcome_bind].
  destruct (ipc_cap_is_valid c); cbn [negb andb]; [|by apply completes_Ret].
  destruct (Z.land (flags c) IPC_CAPF_IMMUTABLE =? 0); cbn [negb]; [|by apply completes_Ret].
  match goal with |- context [set_cap tab h ?x] => destruct (set_cap_ok tab h x Hok Hh) as [-> Hok1] end.
  cbn [mbind outcome_bind]. destruct (get_put_table t s th tab _ Hk Hth Hget Hok1) as (s' & -> & Hg & _).
  apply completes_Ret. split; [done|]. eexists _, _. split_and!; [exact Hg|done|done|].
  intros right Hno. by eapply has_right_land.
Qed.

(** Only the scheduler is started: thread 0 holds the capability for the root. *)
Definition sched_ready : istate :=
  mk_i (match sched_init 4096 kstate_static with Ret k => k | _ => kstate_static end) [] [] [] [] None 0 ∅.

Lemma sched_ready_kinv : kinv exts_ok (i_k sched_ready).
Proof.
  unfold sched_ready, sched_init. destruct (sched_ipc_init_thread_ok 0 _ exts_static) as (exts & -> & Hx & _).
  split; cbn; [done|by exists 0|done|done].
Qed.

Lemma cap_narrow_spec_witness :
  exists tab c, get_cap_table 0 sched_ready = Ret tab /\ (caps tab).[0] = Some c /\
    completes (sys_ipc_cap_narrow 4096 0 IPC_CAP_RIGHT_VFS_READ sched_ready) (fun '(r, s') =>
      if ipc_cap_is_valid c && (Z.land (flags c) IPC_CAPF_IMMUTABLE =? 0) then
        r = 0 /\ exists tab' c', get_cap_table 0 s' = Ret tab' /\ caps tab' = (caps tab).[0 <- c'] /\
          c' = with_rights (Z.land (rights c) (Z.land IPC_CAP_RIGHT_VFS_READ IPC_CAP_RIGHTS_ALL)) c /\
          forall right, ipc_cap_has_right c right = false -> ipc_cap_has_right c' right = false
      else r = -1 /\ s' = sched_ready).
Proof. apply (cap_narrow_spec 4096 sched_ready 0 (idle_thread 4096) 0 _ sched_ready_kinv); done. Defined.

End IpcCreate.
