(* ===== verification/IpcNs.v ===== *)
(** * The service namespace

    [ipc_ns_insert] and [ipc_ns_find] of kernel/core/ipc.c keep a tree of names in
    the array [g_ns_entries], with child and sibling links.  This file shows that
    both terminate within the array, that a registered name is found again with
    the handle and owner registered last, and that a registration does not move
    the names registered before it. *)

From stdpp Require Import base tactics numbers option gmap list.
From S2P Require Import Prelude Ring Proc Telemetry CMem Alloc Timer Caps AllocSpec Sched SchedSpec Ipc IpcQueue IpcSpec.

Module IpcNs.
Import Telemetry Alloc Timer Caps Sched Ipc IpcSpec.

(** ** Invariant *)

(** Entries below [n] are in use; links point to entries in use, sibling links to
    older ones. *)
Record links_ok (es : list ns_entry) (n : Z) : Prop := {
  lk_len : zlen es = IPC_MAX_NS_ENTRIES;
  lk_count : 0 <= n <= IPC_MAX_NS_ENTRIES;
  lk_child : forall i e c, es.[i] = Some e -> child e = Some c -> 0 <= c < n;
  lk_sibling : forall i e c, es.[i] = Some e -> sibling e = Some c -> 0 <= c < i;
  lk_fresh : forall i e, es.[i] = Some e -> n <= i -> child e = None
}.

Record ns_ok (s : istate) : Prop := {
  ns_links : links_ok (g_ns_entries s) (ns_count s);
  ns_root_ok : ns_root s = Some 0 \/ ns_root s = None /\ ns_count s = 0
}.

(** The child of [cur] named [tok]. *)
Definition look (es : list ns_entry) (cur : Z) (tok : list Z) : outcome (option Z) :=
  e ← rd es cur; find_child ns_fuel (child e) tok es.

(** ** Searching the children of an entry *)

Lemma find_child_ok es n k c tok :
  links_ok es n -> 0 <= c < Z.of_nat k -> c < n ->
  completes (find_child k (Some c) tok es) (fun r => forall i, r = Some i -> 0 <= i < n).
Proof.
  intros Hlk. revert c. induction k as [|k IH]; intros c Hc Hn; [lia|]. cbn [find_child].
  pose proof (lk_len _ _ Hlk). pose proof (lk_count _ _ Hlk).
  destruct (rd_in_range es c) as (e & -> & He); [lia|]. cbn [mbind outcome_bind].
  case_bool_decide; [apply completes_Ret; intros i [= <-]; lia|].
  destruct (sibling e) as [c'|] eqn:Es.
  - pose proof (lk_sibling _ _ Hlk _ _ _ He Es). apply IH; lia.
  - destruct k; apply completes_Ret; by intros.
Qed.

(** More fuel does not change the result. *)
Lemma find_child_fuel es n k1 k2 c tok :
  links_ok es n -> 0 <= c < Z.of_nat k1 -> c < Z.of_nat k2 ->
  find_child k1 (Some c) tok es = find_child k2 (Some c) tok es.
Proof.
  intros Hlk. revert k2 c. induction k1 as [|k1 IH]; intros k2 c H1 H2; [lia|]. destruct k2 as [|k2]; [lia|].
  cbn [find_child]. destruct (rd es c) as [e| |] eqn:He; cbn [mbind outcome_bind]; [|done|done].
  case_bool_decide; [done|]. destruct (sibling e) as [c'|] eqn:Es; [|by destruct k1, k2].
  apply rd_Ret in He. pose proof (lk_sibling _ _ Hlk _ _ _ He Es). apply IH; lia.
Qed.

(** Entries that agree on names and siblings below [n] give the same search. *)
Lemma find_child_agree es es' n m k c tok :
  links_ok es m -> c < n ->
  (forall j e, 0 <= j < n -> es.[j] = Some e -> exists e', es'.[j] = Some e' /\ ns_name e' = ns_name e /\ sibling e' = sibling e) ->
  (forall j, 0 <= j < n -> es.[j] = None -> es'.[j] = None) -> 0 <= c ->
  find_child k (Some c) tok es' = find_child k (Some c) tok es.
Proof.
  intros Hlk Hc Hag Hno H0. revert c Hc H0. induction k as [|k IH]; intros c Hc H0; [done|]. cbn [find_child].
  unfold rd. destruct (es.[c]) as [e|] eqn:He.
  - destruct (Hag c e) as (e' & -> & Hn & Hs); [lia|done|]. cbn [mbind outcome_bind]. rewrite Hn, Hs. case_bool_decide; [done|].
    destruct (sibling e) as [c'|] eqn:Es; [|by destruct k].
    pose proof (lk_sibling _ _ Hlk _ _ _ He Es). apply IH; lia.
  - rewrite (Hno c); [done|lia|done].
Qed.

Lemma look_ok es n cur tok :
  links_ok es n -> 0 <= cur < IPC_MAX_NS_ENTRIES ->
  completes (look es cur tok) (fun r => forall i, r = Some i -> 0 <= i < n).
Proof.
  intros Hlk Hc. unfold look. pose proof (lk_len _ _ Hlk). destruct (rd_in_range es cur) as (e & -> & He); [lia|].
  cbn [mbind outcome_bind]. destruct (child e) as [c|] eqn:Ec; [|apply completes_Ret; by intros].
  pose proof (lk_child _ _ Hlk _ _ _ He Ec). pose proof (lk_count _ _ Hlk).
  apply find_child_ok; [done| |lia]. unfold ns_fuel, IPC_MAX_NS_ENTRIES in *. lia.
Qed.

(** ** Adding an entry *)

(** The entries after [ns_step] created entry [n] below [cur]. *)
Definition added (es : list ns_entry) (n cur : Z) (tok : list Z) (es' : list ns_entry) : Prop :=
  exists old, old = (match (es.[n <- mk_ns (take 63 tok) 0 0 None None]).[cur] with Some e => child e | None => None end) /\
  es'.[n] = Some (mk_ns (take 63 tok) 0 0 (if cur =? n then Some n else None) old) /\
  (cur <> n -> exists e, es.[cur] = Some e /\ es'.[cur] = Some (with_child (Some n) e)) /\
  (forall j, j <> n -> j <> cur -> es'.[j] = es.[j]) /\ zlen es' = zlen es.

Lemma ns_step_ok cur tok s :
  ns_ok s -> 0 <= cur < IPC_MAX_NS_ENTRIES ->
  completes (ns_step cur tok s) (fun '(r, s') =>
    ns_root s' = ns_root s /\
    match r with
    | Some i =>
        (look (g_ns_entries s) cur tok = Ret (Some i) /\ s' = s) \/
        (look (g_ns_entries s) cur tok = Ret None /\ i = ns_count s /\ ns_count s < IPC_MAX_NS_ENTRIES /\
         ns_count s' = ns_count s + 1 /\ added (g_ns_entries s) i cur tok (g_ns_entries s'))
    | None => ns_count s = IPC_MAX_NS_ENTRIES /\ s' = s
    end).
Proof.
  intros [Hlk _] Hc. pose proof (lk_len _ _ Hlk) as Hlen. pose proof (lk_count _ _ Hlk) as Hcnt.
  destruct (look_ok _ _ cur tok Hlk Hc) as (r & Hr & _). unfold ns_step. unfold look in Hr.
  destruct (rd_in_range (g_ns_entries s) cur) as (e & He & Hget); [lia|]. rewrite He in Hr |- *.
  cbn [mbind outcome_bind] in Hr |- *. rewrite Hr. cbn [mbind outcome_bind].
  assert (look (g_ns_entries s) cur tok = Ret r) as Hlook by (unfold look; by rewrite He).
  destruct r as [i|]; [apply completes_Ret; split; [done|by left]|].
  destruct (Z.leb_spec IPC_MAX_NS_ENTRIES (ns_count s)); [apply completes_Ret; split_and!; [done|lia|done]|].
  set (n := ns_count s) in *. cbv zeta. set (new := mk_ns (take 63 tok) 0 0 None None).
  rewrite wr_in_range by lia. cbn [mbind outcome_bind].
  destruct (rd_in_range ((g_ns_entries s).[n <- new]) cur) as (ec & -> & Hec); [rewrite zlen_zset; lia|]. cbn [mbind outcome_bind].
  erewrite rd_some by (apply zget_zset_eq; lia). cbn [mbind outcome_bind].
  rewrite wr_in_range by (rewrite zlen_zset; lia). cbn [mbind outcome_bind]. rewrite zset_zset_eq.
  cbn [ns_name ns_cap ns_owner child new].
  match goal with |- context [(g_ns_entries s).[n <- ?x]] => set (new' := x) end.
  destruct (rd_in_range ((g_ns_entries s).[n <- new']) cur) as (ec2 & -> & Hec2); [rewrite zlen_zset; lia|]. cbn [mbind outcome_bind].
  rewrite wr_in_range by (rewrite zlen_zset; lia). apply completes_Ret. split; [done|]. right.
  split_and!; [done|done|lia|cbn; apply u32_small; unfold IPC_MAX_NS_ENTRIES in *; lia|].
  exists (child ec). split_and!; cbn [g_ns_entries with_g_ns_entries with_ns_count].
  - fold new. by rewrite Hec.
  - rewrite zget_zset. destruct (Z.eqb_spec cur n) as [->|Hne]; cbn [andb].
    + rewrite zget_zset_eq in Hec2 by lia. rewrite zlen_zset. simplify_eq.
      rewrite (proj2 (Z.leb_le 0 n)), (proj2 (Z.ltb_lt n _)) by lia. done.
    + by rewrite zget_zset_eq by lia.
  - intros Hne. exists e. split; [done|]. rewrite zget_zset_eq by (rewrite zlen_zset; lia).
    rewrite zget_zset_ne in Hec2 by done. congruence.
  - intros j Hj1 Hj2. by rewrite !zget_zset_ne.
  - by rewrite !zlen_zset.
Qed.

Section added.
Context (es es' : list ns_entry) (n cur : Z) (tok : list Z).
Context (Hlk : links_ok es n) (Hn : n < IPC_MAX_NS_ENTRIES) (Hcur : 0 <= cur <= n) (Hadd : added es n cur tok es').

Lemma added_child : exists e, es'.[cur] = Some e /\ child e = Some n.
Proof using All.
  destruct Hadd as (old & _ & Hnew & Hc & _). destruct (Z.eqb_spec cur n) as [->|Hne].
  - by eexists.
  - destruct (Hc Hne) as (e & _ & ->). by eexists.
Qed.

(** The older entries keep name and sibling. *)
Lemma added_old j e :
  0 <= j < n -> es.[j] = Some e -> exists e', es'.[j] = Some e' /\ ns_name e' = ns_name e /\ sibling e' = sibling e.
Proof using All.
  intros Hj He. destruct Hadd as (old & _ & _ & Hc & Ho & _). destruct (decide (j = cur)) as [->|].
  - destruct (Hc ltac:(lia)) as (e0 & He0 & ->). rewrite He in He0. simplify_eq. by eexists.
  - rewrite Ho by lia. by eexists.
Qed.

Lemma added_find k c t : 0 <= c < n -> find_child k (Some c) t es' = find_child k (Some c) t es.
Proof using All.
  intros Hc. apply (find_child_agree es es' n n); [done|lia|apply added_old| |lia].
  intros j Hj He. pose proof (lk_len _ _ Hlk) as Hl. destruct (zget_in_range es j) as (? & ?); [lia|]. congruence.
Qed.

(** The child list that the new entry was put in front of. *)
Lemma added_sibling e : es'.[n] = Some e -> ns_name e = take 63 tok /\
  (forall c, sibling e = Some c -> 0 <= c < n) /\ (cur <> n -> exists e0, es.[cur] = Some e0 /\ sibling e = child e0).
Proof using All.
  destruct Hadd as (old & Hold & Hnew & Hc & _). rewrite Hnew. intros [= <-]. cbn [ns_name sibling]. split_and!; [done| |].
  - intros c Hs. subst old. rewrite zget_zset in Hs. destruct (Z.eqb_spec n cur) as [->|Hne]; cbn [andb] in Hs.
    + pose proof (lk_len _ _ Hlk). rewrite (proj2 (Z.leb_le 0 cur)), (proj2 (Z.ltb_lt cur _)) in Hs by lia. done.
    + destruct (es.[cur]) as [e|] eqn:He; [|done]. by eapply (lk_child _ _ Hlk).
  - intros Hne. destruct (Hc Hne) as (e & He & _). exists e. split; [done|]. subst old. by rewrite zget_zset_ne, He.
Qed.

Lemma added_links : links_ok es' (n + 1).
Proof using All.
  destruct (Hadd) as (old & _ & Hnew & Hc & Ho & Hlen). pose proof (lk_len _ _ Hlk). pose proof (lk_count _ _ Hlk).
  split; [congruence|lia|..].
  - intros i e c Hi Hch. destruct (decide (i = cur)) as [->|Hi1].
    { destruct added_child as (e' & He' & Hch'). rewrite Hi in He'. simplify_eq. lia. }
    destruct (decide (i = n)) as [->|Hi2].
    { rewrite Hnew in Hi. simplify_eq. cbn in Hch. destruct (Z.eqb_spec cur n); [lia|done]. }
    rewrite Ho in Hi by done. pose proof (lk_child _ _ Hlk _ _ _ Hi Hch). lia.
  - intros i e c Hi Hs. destruct (decide (i = n)) as [->|Hi2]; [by apply (added_sibling e Hi)|].
    destruct (decide (i = cur)) as [->|Hi1].
    + destruct (Hc ltac:(done)) as (e0 & He0 & He'). rewrite Hi in He'. simplify_eq. by eapply (lk_sibling _ _ Hlk).
    + rewrite Ho in Hi by done. by eapply (lk_sibling _ _ Hlk).
  - intros i e Hi Hge. rewrite Ho in Hi by lia. apply (lk_fresh _ _ Hlk i); [done|lia].
Qed.

Lemma added_look_new : (length tok <= 63)%nat -> look es' cur tok = Ret (Some n).
Proof using All.
  intros Ht. destruct added_child as (e & He & Hch). unfold look. rewrite (rd_some _ _ _ He). cbn [mbind outcome_bind].
  rewrite Hch. pose proof (lk_len _ _ Hlk). destruct (Hadd) as (_ & _ & _ & _ & _ & Hlen).
  destruct (zget_in_range es' n) as (en & Hen); [pose proof (lk_count _ _ Hlk); lia|].
  destruct (added_sibling en Hen) as (Hname & _).
  change ns_fuel with (S (Z.to_nat IPC_MAX_NS_ENTRIES)). cbn [find_child]. rewrite (rd_some _ _ _ Hen). cbn [mbind outcome_bind].
  rewrite Hname, take_ge by done. by rewrite bool_decide_eq_true_2.
Qed.

(** What was found before is still found. *)
Lemma added_look_old c t j :
  (length tok <= 63)%nat -> look es cur tok = Ret None -> look es c t = Ret (Some j) -> look es' c t = Ret (Some j).
Proof using All.
  intros Htok Hno Hj. unfold look in Hj. apply bind_Ret_inv in Hj as (e & He%rd_Ret & Hj).
  destruct (child e) as [c0|] eqn:Ec; [|by destruct ns_fuel].
  pose proof (lk_child _ _ Hlk _ _ _ He Ec) as Hc0. pose proof (lk_count _ _ Hlk) as Hcnt.
  assert (c < n) as Hcn.
  { destruct (Z.lt_ge_cases c n) as [|Hge]; [done|]. by rewrite (lk_fresh _ _ Hlk _ _ He Hge) in Ec. }
  destruct (decide (c = cur)) as [->|Hne].
  - destruct added_child as (e' & He' & Hch). unfold look. rewrite (rd_some _ _ _ He'). cbn [mbind outcome_bind]. rewrite Hch.
    pose proof (lk_len _ _ Hlk). destruct (Hadd) as (_ & _ & _ & _ & _ & Hlen).
    destruct (zget_in_range es' n) as (en & Hen); [lia|].
    destruct (added_sibling en Hen) as (Hname & _ & Hsib).
    destruct (Hsib ltac:(lia)) as (e0 & He0 & Hs). rewrite He in He0. simplify_eq. rewrite Ec in Hs.
    assert (t <> tok) as Hnt.
    { intros ->. unfold look in Hno. rewrite (rd_some _ _ _ He) in Hno. cbn [mbind outcome_bind] in Hno. rewrite Ec in Hno.
      congruence. }
    change ns_fuel with (S (Z.to_nat IPC_MAX_NS_ENTRIES)). cbn [find_child]. rewrite (rd_some _ _ _ Hen). cbn [mbind outcome_bind].
    rewrite Hname, take_ge, bool_decide_eq_false_2 by (done || congruence). rewrite Hs, added_find by lia.
    rewrite <- Hj. apply (find_child_fuel es n); [done| |]; unfold ns_fuel, IPC_MAX_NS_ENTRIES in *; lia.
  - destruct (Hadd) as (_ & _ & _ & _ & Ho & _). unfold look. rewrite (rd_some es' c e) by (rewrite Ho by lia; done).
    cbn [mbind outcome_bind]. by rewrite Ec, added_find by lia.
Qed.
End added.

(** ** Names *)

Lemma skip_dots_le s : (length (skip_dots s) <= length s)%nat.
Proof. induction s as [|c r IH]; cbn; [done|]. case_match; cbn; lia. Qed.

Lemma take_token_len s tok rest :
  take_token s = (tok, rest) -> (length tok <= length s)%nat /\ forall r, rest = Some r -> (length r < length s)%nat.
Proof.
  revert tok rest. induction s as [|c r IH]; intros tok rest; cbn; [intros [= <- <-]; by split|].
  case_match; [intros [= <- <-]; split; [cbn; lia|intros ? [= <-]; lia]|].
  destruct (take_token r) as [tk rest1] eqn:E. intros [= <- <-]. destruct (IH _ _ eq_refl) as [? Hr].
  split; [cbn; lia|]. intros r' ->. specialize (Hr r' eq_refl). lia.
Qed.

(** What is left to scan. *)
Definition left_over (rest : option (list Z)) : nat := match rest with Some s => S (length s) | None => 0 end.

Lemma strtok_len rest tok rest' :
  strtok rest = Some (tok, rest') -> (S (length tok) <= left_over rest)%nat /\ (left_over rest' < left_over rest)%nat.
Proof.
  unfold strtok. destruct rest as [s|]; [|done]. pose proof (skip_dots_le s) as Hs.
  destruct (skip_dots s) as [|c r] eqn:E; [done|]. intros H.
  assert (take_token (c :: r) = (tok, rest')) as [H1 H2]%take_token_len by congruence.
  cbn [left_over]. split; [lia|]. destruct rest' as [r'|]; cbn; [specialize (H2 r' eq_refl)|]; lia.
Qed.

(** An entry that a search can start from. *)
Definition at_entry (cur : Z) (s : istate) : Prop := cur = 0 \/ 0 <= cur < ns_count s.

(** [s'] knows every path of [s], and entries in use keep handle and owner. *)
Definition extends (s s' : istate) : Prop :=
  ns_count s <= ns_count s' /\
  (forall c t j, look (g_ns_entries s) c t = Ret (Some j) -> look (g_ns_entries s') c t = Ret (Some j)) /\
  (forall j e, 0 <= j < ns_count s -> (g_ns_entries s).[j] = Some e ->
     exists e', (g_ns_entries s').[j] = Some e' /\ ns_cap e' = ns_cap e /\ ns_owner e' = ns_owner e).

Lemma extends_refl s : extends s s.
Proof. split_and!; [done|done|]. intros j e _ He. by exists e. Qed.

Lemma extends_trans s1 s2 s3 : extends s1 s2 -> extends s2 s3 -> extends s1 s3.
Proof.
  intros (A1 & B1 & C1) (A2 & B2 & C2). split; [lia|split; [intros c t j Hl; by apply B2, B1|]]. intros j e Hj He.
  destruct (C1 j e Hj He) as (e1 & He1 & ? & ?). destruct (C2 j e1 ltac:(lia) He1) as (e2 & He2 & ? & ?).
  exists e2. split_and!; congruence.
Qed.

Lemma ns_step_extends cur tok s :
  ns_ok s -> ns_root s = Some 0 -> at_entry cur s -> (length tok <= 63)%nat ->
  completes (ns_step cur tok s) (fun '(r, s') => ns_ok s' /\ ns_root s' = ns_root s /\ extends s s' /\
    match r with
    | Some i => at_entry i s' /\ look (g_ns_entries s') cur tok = Ret (Some i)
    | None => ns_count s' = IPC_MAX_NS_ENTRIES
    end).
Proof.
  intros Hs Hroot Hat Ht. destruct (Hs) as [Hlk _]. pose proof (lk_count _ _ Hlk) as Hcnt.
  assert (0 <= cur <= ns_count s) as Hcur by (destruct Hat; lia).
  destruct (ns_step_ok cur tok s Hs) as ([r s'] & Hstep & Hr & Hres);
    [unfold IPC_MAX_NS_ENTRIES in *; destruct Hat; lia|].
  exists (r, s'). split; [done|]. destruct r as [i|].
  - destruct Hres as [[Hl ->]|(Hl & -> & Hlt & Hcnt' & Hadd)].
    + split_and!; [done|done|apply extends_refl| |done]. right.
      destruct (look_ok _ _ cur tok Hlk ltac:(unfold IPC_MAX_NS_ENTRIES in *; destruct Hat; lia)) as (r0 & Hr0 & Hb). apply Hb. congruence.
    + split_and!.
      * split; [rewrite Hcnt'; by eapply added_links|]. left. congruence.
      * done.
      * split_and!; [lia|intros c t j; by eapply added_look_old|]. intros j e Hj He.
        destruct Hadd as (old & _ & _ & Hc & Ho & _). destruct (decide (j = cur)) as [->|].
        -- destruct (Hc ltac:(lia)) as (e0 & He0 & ->). rewrite He in He0. simplify_eq. by eexists.
        -- rewrite Ho by lia. by eexists.
      * right. lia.
      * by eapply added_look_new.
  - destruct Hres as [? ->]. split_and!; [done|done|apply extends_refl|done].
Qed.

Lemma ns_find_loop_step k cur rest tok rest' es i :
  strtok rest = Some (tok, rest') -> look es cur tok = Ret (Some i) ->
  ns_find_loop (S k) (Some cur) rest es = ns_find_loop k (Some i) rest' es.
Proof.
  intros Hs Hl. cbn [ns_find_loop]. rewrite Hs. unfold look in Hl. apply bind_Ret_inv in Hl as (e & -> & Hl).
  cbn [mbind outcome_bind]. by rewrite Hl.
Qed.

Lemma ns_insert_loop_ok k cur rest s :
  ns_ok s -> ns_root s = Some 0 -> at_entry cur s -> (left_over rest <= 64)%nat -> (left_over rest < k)%nat ->
  completes (ns_insert_loop k cur rest s) (fun '(r, s') => ns_ok s' /\ ns_root s' = Some 0 /\ extends s s' /\
    match r with
    | Some i => at_entry i s' /\ ns_find_loop k (Some cur) rest (g_ns_entries s') = Ret (Some i)
    | None => ns_count s' = IPC_MAX_NS_ENTRIES
    end).
Proof.
  revert cur rest s. induction k as [|k IH]; intros cur rest s Hs Hroot Hat H64 Hk; [lia|]. cbn [ns_insert_loop].
  destruct (strtok rest) as [[tok rest']|] eqn:Et.
  2:{ apply completes_Ret. split_and!; [done|done|apply extends_refl|done|]. cbn [ns_find_loop]. by rewrite Et. }
  apply strtok_len in Et as Hlen. destruct Hlen as [Ht Hr].
  destruct (ns_step_extends cur tok s Hs Hroot Hat ltac:(lia)) as ([r s1] & -> & Hs1 & Hroot1 & Hext1 & Hres).
  cbn [mbind outcome_bind]. destruct r as [i|].
  2:{ apply completes_Ret. split_and!; [done|congruence|done|done]. }
  destruct Hres as [Hati Hlook].
  eapply completes_mono; [apply (IH i rest' s1); [done|congruence|done|lia|lia]|].
  intros [r s'] (Hs' & Hroot' & Hext & Hres). split_and!; [done|done|by eapply extends_trans|].
  destruct r as [j|]; [|done]. destruct Hres as [Hj Hf]. split; [done|].
  rewrite (ns_find_loop_step k cur rest tok rest' _ i Et); [done|]. by apply Hext.
Qed.

(** Paths found in a smaller namespace. *)
Lemma ns_find_loop_extends k cur rest es es' r :
  (forall c t j, look es c t = Ret (Some j) -> look es' c t = Ret (Some j)) ->
  ns_find_loop k (Some cur) rest es = Ret (Some r) -> ns_find_loop k (Some cur) rest es' = Ret (Some r).
Proof.
  intros Hext. revert cur rest. induction k as [|k IH]; intros cur rest; cbn [ns_find_loop];
    destruct (strtok rest) as [[tok rest']|] eqn:Et; intros H; [discriminate H|exact H| |exact H].
  apply bind_Ret_inv in H as (e & He & H). apply bind_Ret_inv in H as ([i|] & Hi & H); [|discriminate H].
  assert (look es' cur tok = Ret (Some i)) as Hl by (apply Hext; unfold look; rewrite He; exact Hi).
  unfold look in Hl. apply bind_Ret_inv in Hl as (e' & -> & Hl). cbn [mbind outcome_bind]. rewrite Hl.
  cbn [mbind outcome_bind]. by apply IH.
Qed.

(** The handle and owner of entry [i] do not matter for the search. *)
Lemma look_set_cap es i e h o c t :
  es.[i] = Some e -> look (es.[i <- mk_ns (ns_name e) h o (child e) (sibling e)]) c t = look es c t.
Proof.
  intros He. set (es' := es.[i <- _]). pose proof (zget_Some_bound _ _ _ He).
  assert (forall j x, es.[j] = Some x -> exists x', es'.[j] = Some x' /\ ns_name x' = ns_name x /\ child x' = child x /\ sibling x' = sibling x) as Hag.
  { intros j x Hx. unfold es'. destruct (decide (i = j)) as [->|].
    - rewrite zget_zset_eq by done. simplify_eq. by eexists.
    - rewrite zget_zset_ne by done. by eexists. }
  assert (forall j, es.[j] = None -> es'.[j] = None) as Hno.
  { intros j Hj. unfold es'. rewrite zget_zset_ne; [done|]. intros ->. congruence. }
  assert (forall k st, find_child k st t es' = find_child k st t es) as Hf.
  { intros k. induction k as [|k IH]; intros st; cbn [find_child]; [done|]. destruct st as [j|]; [|done].
    unfold rd. destruct (es.[j]) as [x|] eqn:Hx; [|by rewrite Hno].
    destruct (Hag j x Hx) as (x' & -> & Hn & _ & Hs). cbn [mbind outcome_bind]. rewrite Hn. case_bool_decide; [done|].
    by rewrite Hs, IH. }
  unfold look. pose proof (rd_cases es c) as [(x & Hx & ->)|[Hx ->]].
  - destruct (Hag c x Hx) as (x' & Hx' & _ & Hc & _). rewrite (rd_some _ _ _ Hx'). cbn [mbind outcome_bind]. rewrite Hc. apply Hf.
  - assert (rd es' c = Fault) as -> by (unfold rd; by rewrite (Hno c Hx)). cbn [mbind outcome_bind]. reflexivity.
Qed.

(** ** Theorems *)

Lemma ns_root_created s :
  ns_ok s ->
  exists s0, (match ns_root s with
              | Some _ => Ret s
              | None => es ← wr (g_ns_entries s) 0 ns_zero; Ret (with_ns_root (Some 0) (with_g_ns_entries es s))
              end) = Ret s0 /\ ns_ok s0 /\ ns_root s0 = Some 0 /\ extends s s0.
Proof.
  intros [Hlk Hr]. destruct Hr as [Hr|[Hr Hc]]; rewrite Hr; [exists s; by split_and!; [|split; [|left]| |apply extends_refl]|].
  pose proof (lk_len _ _ Hlk) as Hl. rewrite wr_in_range by (rewrite Hl; done). eexists. split; [done|].
  assert (forall i e, (g_ns_entries s).[i] = Some e -> child e = None) as Hnc.
  { intros i e He. apply (lk_fresh _ _ Hlk i e He). apply zget_Some_bound in He. lia. }
  assert (forall i e, ((g_ns_entries s).[0 <- ns_zero]).[i] = Some e -> child e = None) as Hnc'.
  { intros i e. rewrite zget_zset. case_match; [by intros [= <-]|apply Hnc]. }
  split; [|split; [reflexivity|]].
  - split; [|left; reflexivity]. change (links_ok ((g_ns_entries s).[0 <- ns_zero]) (ns_count s)). rewrite Hc.
    split; [by rewrite zlen_zset|unfold IPC_MAX_NS_ENTRIES; lia|..].
    + intros i e c He Hch. by rewrite (Hnc' i e He) in Hch.
    + intros i e c. rewrite zget_zset. case_match; [by intros [= <-]|apply (lk_sibling _ _ Hlk)].
    + intros i e He _. by eapply Hnc'.
  - split; [apply Z.le_refl|split; [|intros j e Hj; lia]]. intros c t j Hl0. unfold look in Hl0.
    apply bind_Ret_inv in Hl0 as (e & He%rd_Ret & Hl0). rewrite (Hnc c e He) in Hl0. discriminate Hl0.
Qed.

Lemma set_cap_ns_ok s i e h o :
  ns_ok s -> (g_ns_entries s).[i] = Some e ->
  ns_ok (with_g_ns_entries ((g_ns_entries s).[i <- mk_ns (ns_name e) h o (child e) (sibling e)]) s).
Proof.
  intros [Hlk Hr] He. split; [|done]. cbn. pose proof (zget_Some_bound _ _ _ He).
  assert (forall j x, (g_ns_entries s).[i <- mk_ns (ns_name e) h o (child e) (sibling e)].[j] = Some x ->
    exists y, (g_ns_entries s).[j] = Some y /\ child x = child y /\ sibling x = sibling y) as Hag.
  { intros j x. destruct (decide (i = j)) as [->|].
    - rewrite zget_zset_eq by done. intros [= <-]. by exists e.
    - rewrite zget_zset_ne by done. by exists x. }
  split; [by rewrite zlen_zset; apply Hlk|apply Hlk|..].
  - intros j x c (y & Hy & -> & _)%Hag. by apply (lk_child _ _ Hlk j).
  - intros j x c (y & Hy & _ & ->)%Hag. by apply (lk_sibling _ _ Hlk j).
  - intros j x (y & Hy & -> & _)%Hag. by apply (lk_fresh _ _ Hlk j).
Qed.

(** Registering a name completes; it fails only when the 256 entries are used
    up.  After a successful registration the name is found again, with the handle
    and owner just registered, and every name that was found before is still
    found at the same entry, whose handle and owner are unchanged unless it is the
    entry just registered. *)
Theorem ns_register_find nm h o s :
  ns_ok s ->
  completes (ipc_ns_insert nm h o s) (fun '(r, s') => ns_ok s' /\
    (forall nm' j, ns_root s = Some 0 -> ipc_ns_find nm' s = Ret (Some j) -> ipc_ns_find nm' s' = Ret (Some j)) /\
    ((r = -1 /\ ns_count s' = IPC_MAX_NS_ENTRIES /\ extends s s') \/
     (r = 0 /\ exists i e, ipc_ns_find nm s' = Ret (Some i) /\ (g_ns_entries s').[i] = Some e /\
        ns_cap e = h /\ ns_owner e = o /\
        forall j x, 0 <= j < ns_count s -> j <> i -> (g_ns_entries s).[j] = Some x ->
          exists x', (g_ns_entries s').[j] = Some x' /\ ns_cap x' = ns_cap x /\ ns_owner x' = ns_owner x))).
Proof.
  intros Hs. unfold ipc_ns_insert. destruct (ns_root_created s Hs) as (s0 & -> & Hs0 & Hr0 & Hext0).
  cbn [mbind outcome_bind]. rewrite Hr0. cbn [mbind outcome_bind].
  destruct (ns_insert_loop_ok ns_fuel 0 (Some (ns_buf nm)) s0) as ([r s1] & -> & Hs1 & Hr1 & Hext1 & Hres); [done|done|by left| | |].
  { cbn [left_over]. unfold ns_buf. rewrite length_take. lia. }
  { cbn [left_over]. unfold ns_buf, ns_fuel, IPC_MAX_NS_ENTRIES. rewrite length_take. lia. }
  cbn [mbind outcome_bind]. assert (Hext := extends_trans _ _ _ Hext0 Hext1).
  assert (forall es', (forall c t, look es' c t = look (g_ns_entries s1) c t) -> forall nm' j, ns_root s = Some 0 ->
    ipc_ns_find nm' s = Ret (Some j) -> ns_find_loop ns_fuel (Some 0) (Some (ns_buf nm')) es' = Ret (Some j)) as Hold.
  { intros es' Hes nm' j Hrt. unfold ipc_ns_find. rewrite Hrt. apply ns_find_loop_extends. intros c t i Hl.
    rewrite Hes. by apply Hext. }
  destruct r as [i|].
  2:{ apply completes_Ret. split; [done|]. split; [|by left]. intros nm' j. unfold ipc_ns_find at 2. rewrite Hr1. by apply Hold. }
  destruct Hres as [Hat Hf]. pose proof (lk_len _ _ (ns_links _ Hs1)) as Hl. pose proof (lk_count _ _ (ns_links _ Hs1)).
  destruct (zget_in_range (g_ns_entries s1) i) as (e & He); [rewrite Hl; unfold IPC_MAX_NS_ENTRIES in *; destruct Hat; lia|].
  rewrite (rd_some _ _ _ He). cbn [mbind outcome_bind]. rewrite (wr_some _ _ _ _ He). apply completes_Ret.
  set (es' := (g_ns_entries s1).[i <- _]).
  assert (forall c t, look es' c t = look (g_ns_entries s1) c t) as Hes by (intros; by apply look_set_cap).
  pose proof (zget_Some_bound _ _ _ He) as Hib.
  split; [|split; [|right; split; [done|]]].
  - by apply set_cap_ns_ok.
  - intros nm' j. unfold ipc_ns_find at 2. cbn [ns_root g_ns_entries with_g_ns_entries]. rewrite Hr1. by apply Hold.
  - eexists i, _. split_and!; [|apply zget_zset_eq; done|done|done|].
    + unfold ipc_ns_find. cbn [ns_root g_ns_entries with_g_ns_entries]. rewrite Hr1.
      eapply ns_find_loop_extends, Hf. intros c t j Hl0. by rewrite Hes.
    + intros j x Hj Hji Hx. cbn. unfold es'. rewrite zget_zset_ne by done. by apply Hext.
Qed.

Lemma booted_ns : ns_ok booted.
Proof.
  split; [|right; by split]. split; [done|done|..].
  - intros i e c He%zget_replicate_inv. by subst.
  - intros i e c He%zget_replicate_inv. by subst.
  - intros i e He%zget_replicate_inv. by subst.
Qed.

(** "net", handle 1, owner 0. *)
Lemma ns_register_find_witness :
  completes (ipc_ns_insert [110; 101; 116] 1 0 booted) (fun '(r, s') => ns_ok s' /\
    (forall nm' j, ns_root booted = Some 0 -> ipc_ns_find nm' booted = Ret (Some j) -> ipc_ns_find nm' s' = Ret (Some j)) /\
    ((r = -1 /\ ns_count s' = IPC_MAX_NS_ENTRIES /\ extends booted s') \/
     (r = 0 /\ exists i e, ipc_ns_find [110; 101; 116] s' = Ret (Some i) /\ (g_ns_entries s').[i] = Some e /\
        ns_cap e = 1 /\ ns_owner e = 0 /\
        forall j x, 0 <= j < ns_count booted -> j <> i -> (g_ns_entries booted).[j] = Some x ->
          exists x', (g_ns_entries s').[j] = Some x' /\ ns_cap x' = ns_cap x /\ ns_owner x' = ns_owner x))).
Proof. exact (ns_register_find [110; 101; 116] 1 0 booted booted_ns). Defined.

(** The first name registered takes the entry of the root itself, which becomes
    its own child: "a.a" and "a" are the same entry, as are "b" and "a.b". *)
Lemma first_name_is_root :
  match ipc_ns_insert [97] 1 0 booted with
  | Ret (r1, s1) =>
      match ipc_ns_insert [98] 2 0 s1 with
      | Ret (r2, s2) => (r1, r2, ipc_ns_find [97; 46; 97] s2, ipc_ns_find [97] s2, ipc_ns_find [97; 46; 98] s2, ipc_ns_find [98] s2)
      | _ => (-1, -1, Fault, Fault, Fault, Fault)
      end
  | _ => (-1, -1, Fault, Fault, Fault, Fault)
  end = (0, 0, Ret (Some 0), Ret (Some 0), Ret (Some 1), Ret (Some 1)).
Proof. vm_compute. reflexivity. Qed.

End IpcNs.
