(* ===== verification/Vfs.v ===== *)
(** * Virtual file system (kernel/fs/vfs.c, include/vfs.h)

    Path normalisation, the mount table with longest-prefix resolution, and the
    operations that forward to a backend.  A backend is a record of optional
    functions over a state [W], as the C structure of function pointers is;
    fs/fat32.c is one.  The bridge to the byte-code program in
    vfs_bridge_bytecode.h, a generated file, is the parameter [bridge]: what its
    calls return, decoded from the values of the virtual machine, and what they
    do to [W].  A call runs byte code and need not return.  C strings are lists of
    characters without the final NUL. *)

From stdpp Require Import base tactics numbers option strings list.
From S2P Require Import Prelude Proc Telemetry CMem Alloc Timer Caps Sched.

Module Vfs.
Import Telemetry Alloc Timer Sched.

(** ** Model *)

Definition VFS_OK : Z := 0.
Definition VFS_ENOENT : Z := -2.
Definition VFS_EIO : Z := -5.
Definition VFS_EACCES : Z := -13.
Definition VFS_EEXIST : Z := -17.
Definition VFS_ENOTDIR : Z := -20.
Definition VFS_EISDIR : Z := -21.
Definition VFS_ENOSPC : Z := -28.
Definition VFS_EROFS : Z := -30.
Definition VFS_EINVAL : Z := -22.

Definition VFS_MAX_MOUNTS : Z := 8.
Definition VFS_MAX_PATH : Z := 256.
Definition VFS_NAME_MAX : Z := 64.
Definition VFS_DIRENT_MAX : Z := 64.
Definition VFS_MAX_PARTS : Z := 32.

(** '/' and '.' *)
Definition SLASH : Z := 47.
Definition DOT : Z := 46.

(** [VfsNodeType] as its integer value. *)
Definition VFS_FILE : Z := 0.
Definition VFS_DIRECTORY : Z := 1.
Definition VFS_SYMLINK : Z := 2.

Record vfs_stat_t := mk_stat { st_name : list Z; st_type : Z; st_size : Z; st_mode : Z }.
Record dir_entry := mk_dirent { de_name : list Z; de_type : Z; de_size : Z }.

(** *** Paths *)

Fixpoint skip_slashes (p : list Z) : list Z :=
  match p with
  | c :: r => if c =? SLASH then skip_slashes r else p
  | [] => []
  end.

(** A component and what follows it. *)
Fixpoint take_component (p : list Z) : list Z * list Z :=
  match p with
  | c :: r => if c =? SLASH then ([], p) else let '(s, q) := take_component r in (c :: s, q)
  | [] => ([], [])
  end.

(** The effect of one component on [parts]; the array holds 32. *)
Definition add_part (parts : list (list Z)) (s : list Z) : list (list Z) :=
  if bool_decide (s = [DOT]) then parts
  else if bool_decide (s = [DOT; DOT]) then removelast parts
  else if zlen parts <? VFS_MAX_PARTS then parts ++ [s] else parts.

Fixpoint split_loop (fuel : nat) (p : list Z) (parts : list (list Z)) : outcome (list (list Z)) :=
  match p with
  | [] => Ret parts
  | _ =>
      match fuel with
      | O => OutOfFuel
      | S n =>
          match skip_slashes p with
          | [] => Ret parts
          | q => let '(s, rest) := take_component q in split_loop n rest (add_part parts s)
          end
      end
  end.

(** [if (pos < output_size - 1) output[pos++] = c] *)
Definition put_char (output_size : Z) (out : list Z) (c : Z) : list Z :=
  if zlen out <? output_size - 1 then out ++ [c] else out.

Definition put_part (output_size : Z) (out part : list Z) : list Z :=
  foldl (put_char output_size) (put_char output_size out SLASH) part.

(** The result and the string in [output]; [None] when nothing is stored.  With
    components the terminating NUL is stored at index [pos], which is 0 for a
    buffer of no bytes. *)
Definition vfs_normalize_path (input : list Z) (output_size : Z) : outcome (Z * option (list Z)) :=
  parts ← split_loop (S (length input)) input [];
  match parts with
  | [] => Ret (1, if 2 <=? output_size then Some [SLASH] else None)
  | _ =>
      if output_size <=? 0 then Fault
      else let out := foldl (put_part output_size) [] parts in Ret (zlen out, Some out)
  end.

(** [char norm[VFS_MAX_PATH]; vfs_normalize_path(path, norm, VFS_MAX_PATH);] *)
Definition normalize (path : list Z) : outcome (list Z) :=
  '(_, out) ← vfs_normalize_path path VFS_MAX_PATH;
  match out with Some s => Ret s | None => Fault end.

(** Error names. *)
Definition vfs_strerror (err : Z) : string :=
  if err =? VFS_OK then "OK"
  else if err =? VFS_ENOENT then "No such file or directory"
  else if err =? VFS_EIO then "I/O error"
  else if err =? VFS_EACCES then "Permission denied"
  else if err =? VFS_EEXIST then "File exists"
  else if err =? VFS_ENOTDIR then "Not a directory"
  else if err =? VFS_EISDIR then "Is a directory"
  else if err =? VFS_ENOSPC then "No space left on device"
  else if err =? VFS_EROFS then "Read-only file system"
  else if err =? VFS_EINVAL then "Invalid argument"
  else "Unknown error".

(** The table of embedded files is generated; it is an argument, a list of paths
    and contents.  Returns the contents and what [out_size] gets. *)
Fixpoint vfs_get_embedded_data (files : list (list Z * list Z)) (path : list Z) : option (list Z) * Z :=
  match files with
  | [] => (None, 0)
  | (p, d) :: r => if bool_decide (p = path) then (Some d, zlen d) else vfs_get_embedded_data r path
  end.

(** *** Backends *)

Section backend.
Context (W : Type).

(** Every function gets the path below the mount point.  [be_stat] and
    [be_readdir] also get what the caller's buffer holds; [be_read] returns the
    bytes it stores at the start of the buffer. *)
Record backend := mk_backend {
  be_name : list Z;
  be_stat : option (list Z -> vfs_stat_t -> W -> outcome (Z * vfs_stat_t * W));
  be_readdir : option (list Z -> list dir_entry -> W -> outcome (Z * list dir_entry * W));
  be_read : option (list Z -> Z -> Z -> W -> outcome (Z * list Z * W));
  be_write : option (list Z -> Z -> list Z -> W -> outcome (Z * W));
  be_mkdir : option (list Z -> W -> outcome (Z * W));
  be_create : option (list Z -> W -> outcome (Z * W));
  be_unlink : option (list Z -> W -> outcome (Z * W))
}.

Record mount := mk_mount {
  m_path : list Z;
  path_len : Z;
  m_backend : backend;
  active : bool
}.

(** A dictionary with optional name, type and size; [None] for another value. *)
Definition reply_stat : Type := option (option (list Z) * option Z * option Z).

Record bridge := mk_bridge {
  br_loads : bool;
  br_mount : list Z -> W -> outcome W;
  br_stat : list Z -> W -> outcome (reply_stat * W);
  br_readdir : list Z -> W -> outcome (option (list reply_stat) * W);
  br_read : list Z -> Z -> Z -> W -> outcome (option (list Z * Z) * W);
  br_write : list Z -> Z -> list Z -> W -> outcome (option Z * W);
  br_mkdir : list Z -> W -> outcome (option Z * W);
  br_create : list Z -> W -> outcome (option Z * W);
  br_unlink : list Z -> W -> outcome (option Z * W)
}.

Record vstate := mk_vfs {
  g_mounts : list mount;
  g_mount_count : Z;
  g_vfs_vm_inited : bool;
  g_in_vfs_vm : bool;
  v_k : kstate;
  world : W
}.
End backend.

Arguments mk_backend {W}. Arguments be_name {W}. Arguments be_stat {W}. Arguments be_readdir {W}.
Arguments be_read {W}. Arguments be_write {W}. Arguments be_mkdir {W}. Arguments be_create {W}.
Arguments be_unlink {W}. Arguments mk_mount {W}. Arguments m_path {W}. Arguments path_len {W}.
Arguments m_backend {W}. Arguments active {W}. Arguments mk_bridge {W}. Arguments br_loads {W}.
Arguments br_mount {W}. Arguments br_stat {W}. Arguments br_readdir {W}. Arguments br_read {W}.
Arguments br_write {W}. Arguments br_mkdir {W}. Arguments br_create {W}. Arguments br_unlink {W}.
Arguments mk_vfs {W}. Arguments g_mounts {W}. Arguments g_mount_count {W}. Arguments g_vfs_vm_inited {W}.
Arguments g_in_vfs_vm {W}. Arguments v_k {W}. Arguments world {W}.

Section vfs.
Context {W : Type} (br : bridge W) (stack_bottom : Z).
Implicit Types (s : vstate W) (m : mount W).

Definition with_g_mounts (x : list (mount W)) (n : Z) s : vstate W :=
  mk_vfs x n (g_vfs_vm_inited s) (g_in_vfs_vm s) (v_k s) (world s).
Definition with_world (x : W) s : vstate W :=
  mk_vfs (g_mounts s) (g_mount_count s) (g_vfs_vm_inited s) (g_in_vfs_vm s) (v_k s) x.
Definition with_v_k (x : kstate) s : vstate W :=
  mk_vfs (g_mounts s) (g_mount_count s) (g_vfs_vm_inited s) (g_in_vfs_vm s) x (world s).
Definition with_inited (x : bool) s : vstate W :=
  mk_vfs (g_mounts s) (g_mount_count s) x (g_in_vfs_vm s) (v_k s) (world s).

Definition set_active (x : bool) m : mount W := mk_mount (m_path m) (path_len m) (m_backend m) x.

(** [vfs_init] with [vfs_bridge_init]. *)
Definition vfs_init s : vstate W :=
  let s1 := with_g_mounts (set_active false <$> g_mounts s) 0 s in
  if g_vfs_vm_inited s1 then s1 else with_inited (br_loads br) s1.

Definition v_trace (ev : trace_event) (a1 a2 : Z) s : outcome (vstate W) :=
  k ← k_trace_log stack_bottom ev a1 a2 (v_k s); Ret (with_v_k k s).

(** A mount point given by its address and string, a backend by its address. *)
Definition vfs_mount (path_addr : Z) (mount_path : list Z) (be_addr : Z) (be : backend W) s
  : outcome (Z * vstate W) :=
  if VFS_MAX_MOUNTS <=? g_mount_count s then Ret (VFS_ENOSPC, s)
  else if (path_addr =? 0) || (be_addr =? 0) then Ret (VFS_EINVAL, s)
  else
    ms ← wr (g_mounts s) (g_mount_count s) (mk_mount mount_path (zlen mount_path) be true);
    let s1 := with_g_mounts ms (g_mount_count s + 1) s in
    s2 ← v_trace TRACE_VFS_MOUNT path_addr be_addr s1;
    s3 ← (if g_vfs_vm_inited s2 then w ← br_mount br mount_path (world s2); Ret (with_world w s2) else Ret s2);
    Ret (VFS_OK, s3).

Definition vfs_get_mount_count s : Z := g_mount_count s.

(** The path, cut to 255 characters, and the backend name, cut to 31. *)
Definition vfs_get_mount_info (index : Z) s : outcome (Z * option (list Z * list Z)) :=
  if (index <? 0) || (g_mount_count s <=? index) then Ret (VFS_ENOENT, None)
  else
    m ← rd (g_mounts s) index;
    if negb (active m) then Ret (VFS_ENOENT, None)
    else Ret (VFS_OK, Some (take 255 (m_path m), take 31 (be_name (m_backend m)))).

(** [vfs_strncmp(a, b, n) == 0] for strings without NUL. *)
Definition same_prefix (n : Z) (a b : list Z) : bool := bool_decide (take (Z.to_nat n) a = take (Z.to_nat n) b).

Fixpoint umount_from (n : nat) (i : Z) (path : list Z) s : outcome (Z * vstate W) :=
  match n with
  | O => Ret (VFS_ENOENT, s)
  | S k =>
      m ← rd (g_mounts s) i;
      if active m && (zlen path =? path_len m) && same_prefix (path_len m) path (m_path m) then
        ms ← wr (g_mounts s) i (set_active false m);
        Ret (VFS_OK, with_g_mounts ms (g_mount_count s) s)
      else umount_from k (i + 1) path s
  end.

Definition vfs_umount (mount_path : list Z) s : outcome (Z * vstate W) :=
  umount_from (Z.to_nat (g_mount_count s)) 0 mount_path s.

(** *** Mount resolution *)

Definition is_root_mount m : bool := (path_len m =? 1) && bool_decide (m_path m !! 0%nat = Some SLASH).

Definition prefix_match (norm : list Z) m : bool :=
  (path_len m <=? zlen norm) && same_prefix (path_len m) norm (m_path m) &&
  ((zlen norm =? path_len m) || bool_decide (norm !! Z.to_nat (path_len m) = Some SLASH)).

(** The loop over the mounts from index [i]; [best] and its length so far. *)
Fixpoint resolve_from (n : nat) (i : Z) (norm : list Z) (best : option (mount W)) (best_len : Z) (ms : list (mount W))
  : outcome (option (mount W)) :=
  match n with
  | O => Ret best
  | S k =>
      m ← rd ms i;
      if active m && (is_root_mount m || prefix_match norm m) && (best_len <? path_len m)
      then resolve_from k (i + 1) norm (Some m) (path_len m) ms
      else resolve_from k (i + 1) norm best best_len ms
  end.

Definition rel_path (norm : list Z) m : list Z :=
  if is_root_mount m then norm
  else if zlen norm =? path_len m then [SLASH]
  else drop (Z.to_nat (path_len m)) norm.

Definition resolve_mount (norm : list Z) s : outcome (option (mount W * list Z)) :=
  r ← resolve_from (Z.to_nat (g_mount_count s)) 0 norm None (-1) (g_mounts s);
  Ret (match r with Some m => Some (m, rel_path norm m) | None => None end).

(** *** Operations

    Each asks the backend first; when that fails, the bridge, if it is loaded and
    not running already; when that fails too, the backend again. *)

Definition bridge_ready s : bool := g_vfs_vm_inited s && negb (g_in_vfs_vm s).

(** The function of the resolved backend, applied to the relative path. *)
Definition bound {A} (op : backend W -> option (list Z -> A)) (r : option (mount W * list Z)) : option A :=
  match r with
  | Some (m, rel) => match op (m_backend m) with Some f => Some (f rel) | None => None end
  | None => None
  end.

(** The shape that [vfs_mkdir], [vfs_create] and [vfs_unlink] share. *)
Definition simple_op (op : backend W -> option (list Z -> W -> outcome (Z * W))) (bop : list Z -> W -> outcome (option Z * W))
  (path : list Z) s : outcome (Z * vstate W) :=
  norm ← normalize path;
  r ← resolve_mount norm s;
  '(ok, s1) ← (match bound op r with
               | Some f => '(res, w) ← f (world s); Ret (res =? VFS_OK, with_world w s)
               | None => Ret (false, s)
               end);
  if (ok : bool) then Ret (VFS_OK, s1)
  else
    '(ok2, s2) ←
      (if bridge_ready s1 then
         '(rep, w) ← bop path (world s1);
         Ret (match rep with Some v => v =? VFS_OK | None => false end, with_world w s1)
       else Ret (false, s1));
    if (ok2 : bool) then Ret (VFS_OK, s2)
    else
      match bound op r with
      | Some f => '(res, w) ← f (world s2); Ret (res, with_world w s2)
      | None => Ret (VFS_ENOENT, s2)
      end.

Definition vfs_mkdir (path : list Z) s : outcome (Z * vstate W) := simple_op be_mkdir (br_mkdir br) path s.
Definition vfs_create (path : list Z) s : outcome (Z * vstate W) := simple_op be_create (br_create br) path s.
Definition vfs_unlink (path : list Z) s : outcome (Z * vstate W) := simple_op be_unlink (br_unlink br) path s.

(** The fields of a dictionary stored into a stat buffer; true when the type is
    a number. *)
Definition store_stat (rep : reply_stat) (out : vfs_stat_t) : bool * vfs_stat_t :=
  match rep with
  | None => (false, out)
  | Some (nm, ty, sz) =>
      let out1 := match nm with Some n => mk_stat (take 63 n) (st_type out) (st_size out) (st_mode out) | None => out end in
      match ty with
      | None => (false, out1)
      | Some t => (true, mk_stat (st_name out1) t (match sz with Some z => z | None => st_size out1 end) (st_mode out1))
      end
  end.

Definition vfs_stat (path : list Z) (out : vfs_stat_t) s : outcome (Z * vfs_stat_t * vstate W) :=
  norm ← normalize path;
  r ← resolve_mount norm s;
  '(ok, out1, s1) ← (match bound be_stat r with
                     | Some f => '(res, o, w) ← f out (world s); Ret (res =? VFS_OK, o, with_world w s)
                     | None => Ret (false, out, s)
                     end);
  if (ok : bool) then Ret (VFS_OK, out1, s1)
  else
    '(ok2, out2, s2) ←
      (if bridge_ready s1 then
         '(rep, w) ← br_stat br path (world s1);
         let '(b, o) := store_stat rep out1 in Ret (b, o, with_world w s1)
       else Ret (false, out1, s1));
    if (ok2 : bool) then Ret (VFS_OK, out2, s2)
    else
      match bound be_stat r with
      | Some f => '(res, o, w) ← f out2 (world s2); Ret (res, o, with_world w s2)
      | None => Ret (VFS_ENOENT, out2, s2)
      end.

(** The buffer for directory entries has [max_entries] elements. *)
Definition store_entry (rep : reply_stat) (e : dir_entry) : dir_entry :=
  match rep with
  | None => e
  | Some (nm, ty, sz) =>
      mk_dirent (match nm with Some n => take 63 n | None => de_name e end)
        (match ty with Some t => t | None => de_type e end) (match sz with Some z => z | None => de_size e end)
  end.

Fixpoint store_entries (reps : list reply_stat) (es : list dir_entry) : list dir_entry :=
  match reps, es with
  | r :: rs, e :: es' => store_entry r e :: store_entries rs es'
  | _, _ => es
  end.

(** [if (count < max_entries) { strcpy(...); type = VFS_DIRECTORY; size = 0; count++; }] *)
Definition put_dir (nm : list Z) (st : Z * list dir_entry) : Z * list dir_entry :=
  let '(count, es) := st in
  if count <? zlen es then (count + 1, es.[count <- mk_dirent nm VFS_DIRECTORY 0]) else st.

(** "dev", "tmp", "etc", "bin" *)
Definition root_dirs : list (list Z) := [[100; 101; 118]; [116; 109; 112]; [101; 116; 99]; [98; 105; 110]].

(** The first component of a mount path; [None] when there is none to show. *)
Definition top_component (path : list Z) : option (list Z) :=
  let p := match path with c :: r => if c =? SLASH then r else path | [] => [] end in
  match (take_component p).1 with [] => None | t => Some t end.

(** The mount points, from index [i]; a name has room for 63 characters. *)
Fixpoint put_mounts (n : nat) (i : Z) (ms : list (mount W)) (st : Z * list dir_entry) : outcome (Z * list dir_entry) :=
  match n with
  | O => Ret st
  | S k =>
      let '(count, es) := st in
      if zlen es <=? count then Ret st
      else
        m ← rd ms i;
        if negb (active m) then put_mounts k (i + 1) ms st
        else
          match top_component (m_path m) with
          | None => put_mounts k (i + 1) ms st
          | Some t =>
              if existsb (fun e => bool_decide (de_name e = t)) (take (Z.to_nat count) es) then put_mounts k (i + 1) ms st
              else if VFS_NAME_MAX <=? zlen t then Fault
              else put_mounts k (i + 1) ms (count + 1, es.[count <- mk_dirent t VFS_DIRECTORY 0])
          end
  end.

(** Returns the number of entries (or an error) and the buffer. *)
Definition vfs_readdir (path : list Z) (entries : list dir_entry) s : outcome (Z * list dir_entry * vstate W) :=
  norm ← normalize path;
  r ← resolve_mount norm s;
  '(res1, es1, s1) ← (match bound be_readdir r with
                      | Some f => '(res, es, w) ← f entries (world s); Ret (res, es, with_world w s)
                      | None => Ret (-1, entries, s)
                      end);
  if 0 <=? res1 then Ret (res1, es1, s1)
  else
    '(res2, es2, s2) ←
      (if bridge_ready s1 then
         '(rep, w) ← br_readdir br path (world s1);
         Ret (match rep with
              | Some l => (Z.min (zlen l) (zlen es1), store_entries l es1, with_world w s1)
              | None => (-1, es1, with_world w s1)
              end)
       else Ret (-1, es1, s1));
    if 0 <=? res2 then Ret (res2, es2, s2)
    else if bool_decide (norm = [SLASH]) then
      '(count, es3) ← put_mounts (Z.to_nat (g_mount_count s2)) 0 (g_mounts s2) (foldl (fun st d => put_dir d st) (0, es2) root_dirs);
      Ret (count, es3, s2)
    else
      match bound be_readdir r with
      | Some f => '(res, es, w) ← f es2 (world s2); Ret (res, es, with_world w s2)
      | None => Ret (VFS_ENOENT, es2, s2)
      end.

(** Returns the result and the bytes stored at the start of the buffer. *)
Definition vfs_read (path : list Z) (offset size : Z) s0 : outcome (Z * list Z * vstate W) :=
  s ← v_trace TRACE_VFS_READ offset size s0;
  norm ← normalize path;
  r ← resolve_mount norm s;
  '(res1, d1, s1) ← (match bound be_read r with
                     | Some f => '(res, d, w) ← f offset size (world s); Ret (res, d, with_world w s)
                     | None => Ret (-1, [], s)
                     end);
  if 0 <=? res1 then Ret (res1, d1, s1)
  else
    '(res2, d2, s2) ←
      (if bridge_ready s1 then
         '(rep, w) ← br_read br path offset size (world s1);
         match rep with
         | Some (data, len) =>
             let n := if s32 size <? len then s32 size else len in
             if (0 <=? n) && (n <=? zlen data) then Ret (n, take (Z.to_nat n) data, with_world w s1) else Fault
         | None => Ret (-1, d1, with_world w s1)
         end
       else Ret (-1, d1, s1));
    if 0 <=? res2 then Ret (res2, d2, s2)
    else
      match bound be_read r with
      | Some f => '(res, d, w) ← f offset size (world s2); Ret (res, d, with_world w s2)
      | None => Ret (VFS_ENOENT, d2, s2)
      end.

Definition vfs_write (path : list Z) (offset : Z) (data : list Z) s0 : outcome (Z * vstate W) :=
  s ← v_trace TRACE_VFS_WRITE offset (zlen data) s0;
  norm ← normalize path;
  r ← resolve_mount norm s;
  '(res1, s1) ← (match bound be_write r with
                 | Some f => '(res, w) ← f offset data (world s); Ret (res, with_world w s)
                 | None => Ret (-1, s)
                 end);
  if 0 <=? res1 then Ret (res1, s1)
  else
    '(res2, s2) ←
      (if bridge_ready s1 then
         '(rep, w) ← br_write br path offset data (world s1);
         Ret (match rep with Some v => v | None => -1 end, with_world w s1)
       else Ret (-1, s1));
    if 0 <=? res2 then Ret (res2, s2)
    else
      match bound be_write r with
      | Some f => '(res, w) ← f offset data (world s2); Ret (res, with_world w s2)
      | None => Ret (VFS_ENOENT, s2)
      end.

(** [path + "/" + name]; [None] when it does not fit in 255 characters. *)
Definition child_path (path nm : list Z) : option (list Z) :=
  if VFS_MAX_PATH <=? zlen path + 1 + zlen nm then None
  else Some (if bool_decide (last path = Some SLASH) then path ++ nm else path ++ SLASH :: nm).

(** What the local variables hold before they are filled. *)
Context (st0 : vfs_stat_t) (es0 : list dir_entry).

(** The loop over the entries; the first failure ends it. *)
Fixpoint rm_children (rm : list Z -> vstate W -> outcome (Z * vstate W)) (path : list Z) (es : list dir_entry) s
  : outcome (Z * vstate W) :=
  match es with
  | [] => Ret (VFS_OK, s)
  | e :: r =>
      if bool_decide (de_name e = [DOT]) || bool_decide (de_name e = [DOT; DOT]) then rm_children rm path r s
      else
        match child_path path (de_name e) with
        | None => rm_children rm path r s
        | Some c =>
            '(res, s1) ← rm c s;
            if negb (res =? VFS_OK) then Ret (res, s1) else rm_children rm path r s1
        end
  end.

Fixpoint vfs_rm_rf (fuel : nat) (path : list Z) s : outcome (Z * vstate W) :=
  match fuel with
  | O => OutOfFuel
  | S n =>
      '(res, st, s1) ← vfs_stat path st0 s;
      if negb (res =? VFS_OK) then Ret (res, s1)
      else if st_type st =? VFS_DIRECTORY then
        '(count, es, s2) ← vfs_readdir path es0 s1;
        if count <? 0 then Ret (count, s2)
        else if zlen es <? count then Fault
        else
          '(r, s3) ← rm_children (vfs_rm_rf n) path (take (Z.to_nat count) es) s2;
          if negb (r =? VFS_OK) then Ret (r, s3) else vfs_unlink path s3
      else vfs_unlink path s1
  end.

(** What [vfs_ls] prints, one item per console call. *)
Inductive ls_item := LsText (t : string) | LsName (n : list Z) | LsU32 (v : Z).

Definition ls_entry (e : dir_entry) : list ls_item :=
  LsText "
" :: LsName (de_name e) ::
  (if de_type e =? VFS_DIRECTORY then [LsText "/"] else [LsText "  "; LsU32 (u32 (de_size e)); LsText " B"]).

Definition vfs_ls (path : list Z) s : outcome (list ls_item * vstate W) :=
  '(count, es, s1) ← vfs_readdir path es0 s;
  if count <? 0 then
    Ret ([LsText "
ls: "; LsName path; LsText ": "; LsText (vfs_strerror count)], s1)
  else if count =? 0 then Ret ([LsText "
(empty)"], s1)
  else if zlen es <? count then Fault
  else Ret (concat (ls_entry <$> take (Z.to_nat count) es), s1).
End vfs.
End Vfs.
