(* ===== verification/VfsSpec.v ===== *)
(** * Correctness of the virtual file system

    Path normalisation against a reference definition, longest-prefix mount
    resolution, the mount table, and termination of recursive removal. *)

From stdpp Require Import base tactics numbers option strings sets list.
From S2P Require Import Prelude Proc Telemetry CMem Alloc Timer Caps AllocSpec Sched SchedSpec Vfs.

Module VfsSpec.
Import Telemetry Alloc Timer Sched SchedSpec Vfs.

(** ** Normalisation *)

(** Reference: the components between slashes, "." and ".." resolved, joined. *)
Fixpoint components (p : list Z) : list (list Z) :=
  match p with
  | [] => []
  | c :: r =>
      if c =? SLASH then components r
      else match r with
           | [] => [[c]]
           | d :: _ => if d =? SLASH then [c] :: components r
                       else match components r with s :: l => (c :: s) :: l | [] => [[c]] end
           end
  end.

Definition step_dots (st : list (list Z)) (s : list Z) : list (list Z) :=
  if bool_decide (s = [DOT]) then st
  else if bool_decide (s = [DOT; DOT]) then removelast st
  else st ++ [s].

Definition resolve_dots (l : list (list Z)) : list (list Z) := foldl step_dots [] l.

Definition join (l : list (list Z)) : list Z :=
  match l with
  | [] => [SLASH]
  | _ => concat ((fun s => SLASH :: s) <$> l)
  end.

(** A component of a normal path. *)
Definition plain (s : list Z) : Prop := s <> [] /\ s <> [DOT] /\ s <> [DOT; DOT] /\ SLASH ∉ s.

Lemma take_component_split p s q :
  take_component p = (s, q) -> p = s ++ q /\ SLASH ∉ s /\ (q = [] \/ exists r, q = SLASH :: r).
Proof.
  revert s q. induction p as [|c r IH]; intros s q; cbn; [intros [= <- <-]; split_and!; [done|set_solver|by left]|].
  destruct (Z.eqb_spec c SLASH) as [->|Hc].
  - intros [= <- <-]. split_and!; [done|set_solver|right; by exists r].
  - destruct (take_component r) as [s' q'] eqn:E. intros [= <- <-]. destruct (IH _ _ eq_refl) as (-> & Hs & Hq).
    split_and!; [done|set_solver|done].
Qed.

Lemma components_skip p : components (skip_slashes p) = components p.
Proof. induction p as [|c r IH]; cbn; [done|]. destruct (Z.eqb_spec c SLASH) as [->|]; [by rewrite IH|]. cbn. by destruct (Z.eqb_spec c SLASH). Qed.

Lemma skip_slashes_cases p : skip_slashes p = [] \/ exists c r, skip_slashes p = c :: r /\ c <> SLASH /\ (length (c :: r) <= length p)%nat.
Proof.
  induction p as [|c r IH]; cbn; [by left|]. destruct (Z.eqb_spec c SLASH) as [->|Hc].
  - destruct IH as [?|(d & q & ? & ? & ?)]; [by left|]. right. exists d, q. split_and!; [done|done|cbn in *; lia].
  - right. exists c, r. by split_and!.
Qed.

(** One component at a time. *)
Lemma components_cons c s q :
  c <> SLASH -> SLASH ∉ s -> (q = [] \/ exists r, q = SLASH :: r) ->
  components (c :: s ++ q) = (c :: s) :: components q.
Proof.
  revert c. induction s as [|d s IH]; intros c Hc Hs Hq.
  - cbn [app]. cbn. destruct (Z.eqb_spec c SLASH); [done|]. destruct Hq as [->|(r & ->)]; [done|]. by rewrite Z.eqb_refl.
  - cbn [app]. cbn. destruct (Z.eqb_spec c SLASH); [done|]. destruct (Z.eqb_spec d SLASH); [set_solver|].
    specialize (IH d ltac:(done) ltac:(set_solver) Hq). cbn in IH. destruct (Z.eqb_spec d SLASH); [done|]. by rewrite IH.
Qed.

Definition room (parts : list (list Z)) (l : list (list Z)) : Prop := zlen parts + zlen l <= VFS_MAX_PARTS.

Lemma zlen_removelast {A} (l : list A) : zlen (removelast l) <= zlen l.
Proof. unfold zlen. rewrite removelast_firstn_len, length_take. lia. Qed.

Lemma add_part_step parts s : zlen parts < VFS_MAX_PARTS -> add_part parts s = step_dots parts s.
Proof.
  intros H. unfold add_part, step_dots. do 2 (case_bool_decide; [done|]). by rewrite (proj2 (Z.ltb_lt _ _) H).
Qed.

Lemma zlen_step_dots parts s : zlen (step_dots parts s) <= zlen parts + 1.
Proof.
  unfold step_dots. repeat case_bool_decide; [lia| |rewrite zlen_app; unfold zlen; cbn; lia].
  pose proof (zlen_removelast parts). lia.
Qed.

(** The scan computes the resolved components while at most 32 are kept. *)
Lemma split_loop_ok n p parts :
  (length p < n)%nat -> room parts (components p) ->
  split_loop n p parts = Ret (foldl step_dots parts (components p)).
Proof.
  revert p parts. induction n as [|n IH]; intros p parts Hn Hroom; [lia|]. cbn [split_loop].
  destruct p as [|c0 r0]; [done|]. rewrite <- components_skip in Hroom |- *.
  destruct (skip_slashes_cases (c0 :: r0)) as [->|(c & r & Hsk & Hc & Hlen)]; [done|]. rewrite Hsk in Hroom |- *.
  destruct (take_component (c :: r)) as [s q] eqn:E. pose proof (take_component_split _ _ _ E) as (Hcr & Hs & Hq).
  destruct s as [|c' s]; [cbn in Hcr; destruct Hq as [->|(? & ->)]; simplify_eq|].
  cbn in Hcr. simplify_eq. assert (c' <> SLASH) as Hc' by done. assert (SLASH ∉ s) by set_solver.
  rewrite components_cons in Hroom |- * by done. unfold room in Hroom. cbn [foldl] in *.
  assert (zlen ((c' :: s) :: components q) = 1 + zlen (components q)) as Hz by (unfold zlen; cbn; lia).
  rewrite Hz in Hroom. pose proof (zlen_nonneg (components q)).
  rewrite add_part_step by lia. pose proof (zlen_step_dots parts (c' :: s)). apply IH.
  - cbn [length] in Hlen, Hn. rewrite length_app in Hlen. lia.
  - unfold room. lia.
Qed.

(** *** Rebuilding *)

Lemma put_char_room n out c : zlen out < n - 1 -> put_char n out c = out ++ [c].
Proof. intros H. unfold put_char. by rewrite (proj2 (Z.ltb_lt _ _) H). Qed.

Lemma put_chars_room n out s : zlen out + zlen s <= n - 1 -> foldl (put_char n) out s = out ++ s.
Proof.
  revert out. induction s as [|c s IH]; intros out H; cbn; [by rewrite app_nil_r|].
  assert (zlen (c :: s) = 1 + zlen s) as Hz by (unfold zlen; cbn; lia). pose proof (zlen_nonneg s).
  rewrite put_char_room by lia. rewrite IH; [by rewrite <- app_assoc|]. rewrite zlen_app. unfold zlen at 2. cbn. lia.
Qed.

Lemma put_parts_room n out l :
  zlen out + zlen (concat ((fun s => SLASH :: s) <$> l)) <= n - 1 ->
  foldl (put_part n) out l = out ++ concat ((fun s => SLASH :: s) <$> l).
Proof.
  revert out. induction l as [|s l IH]; intros out H; cbn; [by rewrite app_nil_r|].
  cbn in H. assert (zlen (SLASH :: s ++ concat ((fun s => SLASH :: s) <$> l)) =
    1 + zlen s + zlen (concat ((fun s => SLASH :: s) <$> l))) as Hz by (unfold zlen; cbn; rewrite length_app; lia).
  rewrite Hz in H. pose proof (zlen_nonneg (concat ((fun s => SLASH :: s) <$> l))). pose proof (zlen_nonneg s).
  assert (put_part n out s = out ++ SLASH :: s) as ->.
  { unfold put_part. rewrite put_char_room, put_chars_room; [by rewrite <- app_assoc|rewrite zlen_app; unfold zlen at 2; cbn; lia|lia]. }
  rewrite IH; [by rewrite <- app_assoc|]. rewrite zlen_app. unfold zlen at 2. cbn. unfold zlen in *. lia.
Qed.

(** Output characters never exceed the buffer. *)
Lemma zlen_put_char n out c : zlen (put_char n out c) <= Z.max (zlen out) (n - 1).
Proof. unfold put_char. destruct (Z.ltb_spec (zlen out) (n - 1)); [rewrite zlen_app; unfold zlen at 2; cbn; lia|lia]. Qed.

Lemma zlen_put_chars n out s : zlen (foldl (put_char n) out s) <= Z.max (zlen out) (n - 1).
Proof. revert out. induction s as [|c s IH]; intros out; cbn; [lia|]. pose proof (IH (put_char n out c)). pose proof (zlen_put_char n out c). lia. Qed.

Lemma zlen_put_parts n out l : zlen (foldl (put_part n) out l) <= Z.max (zlen out) (n - 1).
Proof.
  revert out. induction l as [|s l IH]; intros out; cbn; [lia|]. pose proof (IH (put_part n out s)).
  unfold put_part in *. pose proof (zlen_put_chars n (put_char n out SLASH) s). pose proof (zlen_put_char n out SLASH). lia.
Qed.

(** The first character stays. *)
Lemma put_chars_head n x out s : exists r, foldl (put_char n) (x :: out) s = x :: r.
Proof.
  revert out. induction s as [|c s IH]; intros out; cbn; [by eexists|].
  unfold put_char at 2. case_match; apply IH.
Qed.

Lemma put_part_head n x out s : exists r, put_part n (x :: out) s = x :: r.
Proof. unfold put_part, put_char at 2. case_match; apply put_chars_head. Qed.

Lemma put_parts_head n x out l : exists r, foldl (put_part n) (x :: out) l = x :: r.
Proof.
  revert out. induction l as [|s l IH]; intros out; cbn; [by eexists|].
  destruct (put_part_head n x out s) as (r & ->). apply IH.
Qed.

(** *** Components of a joined path *)

Lemma components_join l : Forall plain l -> components (join l) = l.
Proof.
  intros Hl. unfold join. destruct l as [|s0 l0]; [done|]. revert Hl. generalize (s0 :: l0) as l. clear s0 l0.
  induction l as [|s l IH]; intros Hl; [done|]. apply Forall_cons in Hl as [(Hne & _ & _ & Hs) Hl]. cbn [fmap list_fmap concat].
  cbn [components app]. rewrite Z.eqb_refl. destruct s as [|c s]; [done|]. cbn [app].
  rewrite components_cons; [by rewrite IH|set_solver|set_solver|].
  destruct l as [|s' l]; [by left|right]. by eexists.
Qed.

Lemma components_slash_free p : Forall (fun s => s <> [] /\ SLASH ∉ s) (components p).
Proof.
  induction p as [|c r IH]; cbn; [done|]. destruct (Z.eqb_spec c SLASH) as [->|Hc]; [done|].
  destruct r as [|d r']; [constructor; [split; set_solver|done]|].
  destruct (Z.eqb_spec d SLASH) as [->|Hd]; [constructor; [split; set_solver|done]|].
  destruct (components (d :: r')) as [|s l]; [constructor; [split; set_solver|done]|].
  apply Forall_cons in IH as [[? ?] ?]. constructor; [split; set_solver|done].
Qed.

Lemma step_dots_plain st s : Forall plain st -> s <> [] /\ SLASH ∉ s -> Forall plain (step_dots st s).
Proof.
  intros Hst [? ?]. unfold step_dots. case_bool_decide; [done|]. case_bool_decide.
  - rewrite removelast_firstn_len. by apply Forall_take.
  - apply Forall_app. split; [done|]. by constructor.
Qed.

Lemma resolve_plain l : Forall (fun s => s <> [] /\ SLASH ∉ s) l -> Forall plain (resolve_dots l).
Proof.
  unfold resolve_dots. assert (Forall plain []) as H0 by constructor. revert H0. generalize (@nil (list Z)) as st.
  induction l as [|s l IH]; intros st Hst Hl; cbn; [done|]. apply Forall_cons in Hl as [Hs Hl].
  apply IH; [|done]. by apply step_dots_plain.
Qed.

(** Plain components resolve to themselves. *)
Lemma resolve_plain_id l : Forall plain l -> resolve_dots l = l.
Proof.
  unfold resolve_dots. intros Hl. assert (forall st, foldl step_dots st l = st ++ l) as H; [|by rewrite H].
  induction l as [|s l IH]; intros st; cbn; [by rewrite app_nil_r|]. apply Forall_cons in Hl as [(? & ? & ? & ?) Hl].
  unfold step_dots at 2. rewrite !bool_decide_eq_false_2 by done. rewrite IH by done. by rewrite <- app_assoc.
Qed.

(** The joined path is not longer than the input and a slash. *)
Definition joined (l : list (list Z)) : Z := zlen (concat ((fun s => SLASH :: s) <$> l)).

Lemma joined_app l k : joined (l ++ k) = joined l + joined k.
Proof. unfold joined. by rewrite fmap_app, concat_app, zlen_app. Qed.

Lemma joined_cons s l : joined (s :: l) = 1 + zlen s + joined l.
Proof. unfold joined, zlen. cbn. rewrite length_app. lia. Qed.

Lemma joined_components p : joined (components p) <= zlen p + 1 /\ (forall r, p = SLASH :: r -> joined (components p) <= zlen p).
Proof.
  induction p as [|c r IH]; [split; [done|]; by intros|]. assert (zlen (c :: r) = 1 + zlen r) as Hz by (unfold zlen; cbn; lia).
  cbn [components]. destruct (Z.eqb_spec c SLASH) as [->|Hc]; [split; intros; lia|].
  split; [|intros ? [= ]; done]. destruct r as [|d r']; [unfold joined, zlen; cbn; lia|].
  destruct (Z.eqb_spec d SLASH) as [->|Hd].
  - rewrite joined_cons. destruct IH as [_ IH]. specialize (IH r' eq_refl). unfold zlen in *. cbn in *. lia.
  - destruct (components (d :: r')) as [|s l] eqn:E; [unfold joined, zlen in *; cbn in *; lia|].
    rewrite joined_cons in IH |- *. unfold zlen in *. cbn in *. lia.
Qed.

Lemma joined_resolve st l : joined (foldl step_dots st l) <= joined st + joined l.
Proof.
  revert st. induction l as [|s l IH]; intros st; cbn [foldl]; [unfold joined; cbn; unfold zlen; cbn; lia|].
  pose proof (IH (step_dots st s)). rewrite joined_cons. pose proof (zlen_nonneg s).
  assert (joined (step_dots st s) <= joined st + 1 + zlen s); [|lia].
  unfold step_dots. repeat case_bool_decide; [lia| |rewrite joined_app, joined_cons; unfold joined at 2; cbn; unfold zlen; cbn; lia].
  destruct (decide (st = [])) as [->|Hne]; [cbn; lia|].
  rewrite (app_removelast_last [] Hne) at 2. rewrite joined_app.
  assert (0 <= joined [List.last st []]) by apply zlen_nonneg. lia.
Qed.

Lemma split_loop_total n p parts :
  (length p < n)%nat -> Forall plain parts -> exists l, split_loop n p parts = Ret l /\ Forall plain l.
Proof.
  revert p parts. induction n as [|n IH]; intros p parts Hn Hp; [lia|]. cbn [split_loop].
  destruct p as [|c0 r0]; [by eexists|].
  destruct (skip_slashes_cases (c0 :: r0)) as [->|(c & r & -> & Hc & Hlen)]; [by eexists|].
  destruct (take_component (c :: r)) as [s q] eqn:E. pose proof (take_component_split _ _ _ E) as (Hcr & Hs & Hq).
  assert (s <> []) as Hne by (intros ->; cbn in Hcr; destruct Hq as [->|(? & ->)]; simplify_eq).
  apply IH.
  - rewrite Hcr, length_app in Hlen. destruct s; [done|]. cbn in Hlen, Hn. lia.
  - unfold add_part. case_bool_decide; [done|]. case_bool_decide.
    + rewrite removelast_firstn_len. by apply Forall_take.
    + case_match; [|done]. apply Forall_app. split; [done|]. by constructor.
Qed.

Lemma zlen_foldl_step st l : zlen (foldl step_dots st l) <= zlen st + zlen l.
Proof.
  revert st. induction l as [|s l IH]; intros st; cbn; [unfold zlen; cbn; lia|].
  pose proof (IH (step_dots st s)). pose proof (zlen_step_dots st s). unfold zlen in *. cbn. lia.
Qed.

Lemma zlen_join l : l <> [] -> zlen (join l) = joined l.
Proof. by destruct l. Qed.

Lemma normalize_exact p n :
  2 <= n -> zlen (components p) <= VFS_MAX_PARTS -> joined (resolve_dots (components p)) <= n - 1 ->
  vfs_normalize_path p n = Ret (zlen (join (resolve_dots (components p))), Some (join (resolve_dots (components p)))).
Proof.
  intros Hn Hc Hj. unfold vfs_normalize_path. rewrite split_loop_ok by (done || lia). cbn [mbind outcome_bind].
  fold (resolve_dots (components p)). destruct (resolve_dots (components p)) as [|s l] eqn:E.
  - by rewrite (proj2 (Z.leb_le 2 n)) by lia.
  - destruct (Z.leb_spec n 0); [lia|]. rewrite put_parts_room by (unfold joined in Hj; unfold zlen at 1; cbn [length]; lia). done.
Qed.

Lemma normalize_total p n :
  2 <= n -> exists o, vfs_normalize_path p n = Ret (zlen o, Some o) /\ 1 <= zlen o <= n - 1 /\ o !! 0%nat = Some SLASH.
Proof.
  intros Hn. unfold vfs_normalize_path. destruct (split_loop_total (S (length p)) p []) as (l & -> & Hl); [lia|constructor|].
  cbn [mbind outcome_bind]. destruct l as [|s l].
  - rewrite (proj2 (Z.leb_le 2 n)) by lia. exists [SLASH]. split_and!; [done|done|unfold zlen; cbn; lia|done].
  - destruct (Z.leb_spec n 0); [lia|]. eexists. split; [done|]. pose proof (zlen_put_parts n [] (s :: l)) as Hmax.
    assert (exists r, foldl (put_part n) [] (s :: l) = SLASH :: r) as (r & Hr).
    { cbn [foldl]. unfold put_part at 2. rewrite put_char_room by (unfold zlen; cbn; lia).
      cbn [app]. destruct (put_chars_head n SLASH [] s) as (r & ->). apply put_parts_head. }
    rewrite Hr in *. split; [|done]. unfold zlen in *. cbn in *. lia.
Qed.

Lemma normalize_exists p : exists norm, normalize p = Ret norm.
Proof. unfold normalize. destruct (normalize_total p VFS_MAX_PATH) as (o & -> & _); [done|]. by exists o. Qed.

(** ** Theorems *)

(** C8: [vfs_normalize_path] with a buffer of at least two bytes completes, stores a
    string that begins with a slash and fits, and returns its length.  If the path
    has at most 32 components and fits with a slash and the NUL, the string is the
    reference normal form: the components between slashes with "." dropped and
    ".." removing its predecessor, each preceded by one slash; no component of it
    is empty, "." or ".."; and normalising it again changes nothing. *)
Theorem normalize_path_spec p n :
  2 <= n ->
  completes (vfs_normalize_path p n) (fun '(r, out) =>
    exists o, out = Some o /\ r = zlen o /\ 1 <= r <= n - 1 /\ o !! 0%nat = Some SLASH /\
      (zlen (components p) <= VFS_MAX_PARTS -> zlen p <= n - 2 ->
       o = join (resolve_dots (components p)) /\ Forall plain (components o) /\
       vfs_normalize_path o n = Ret (r, out))).
Proof.
  intros Hn. pose proof (resolve_plain _ (components_slash_free p)) as Hplain.
  assert (zlen (components p) <= VFS_MAX_PARTS -> zlen p <= n - 2 ->
    vfs_normalize_path p n = Ret (zlen (join (resolve_dots (components p))), Some (join (resolve_dots (components p)))) /\
    vfs_normalize_path (join (resolve_dots (components p))) n = vfs_normalize_path p n) as Hex.
  { intros Hc Hp. pose proof (proj1 (joined_components p)). pose proof (joined_resolve [] (components p)) as Hjr.
    assert (joined (resolve_dots (components p)) <= n - 1) by (unfold resolve_dots; change (joined []) with 0 in Hjr; lia).
    pose proof (zlen_foldl_step [] (components p)) as Hz. change (zlen (@nil (list Z))) with 0 in Hz.
    assert (zlen (resolve_dots (components p)) <= VFS_MAX_PARTS) by (unfold resolve_dots; lia).
    split; [by apply normalize_exact|]. rewrite (normalize_exact p n) by done.
    rewrite normalize_exact; by rewrite ?components_join, ?resolve_plain_id by done. }
  destruct (normalize_total p n Hn) as (o & Ho & Hlen & Hhd).
  rewrite Ho. apply completes_Ret. exists o. split_and!; [done|done|lia|lia|done|].
  intros Hc Hp. destruct (Hex Hc Hp) as [H1 H2]. rewrite Ho in H1. simplify_eq. split_and!; [done| |by rewrite H2, Ho].
  by rewrite components_join.
Qed.

(** "/a//./b/../c" *)
Lemma normalize_path_spec_witness :
  2 <= VFS_MAX_PATH /\
  vfs_normalize_path [47; 97; 47; 47; 46; 47; 98; 47; 46; 46; 47; 99] VFS_MAX_PATH = Ret (4, Some [47; 97; 47; 99]) /\
  completes (vfs_normalize_path [47; 97; 47; 47; 46; 47; 98; 47; 46; 46; 47; 99] VFS_MAX_PATH) (fun '(r, out) =>
    exists o, out = Some o /\ r = zlen o /\ 1 <= r <= VFS_MAX_PATH - 1 /\ o !! 0%nat = Some SLASH /\
      (zlen (components [47; 97; 47; 47; 46; 47; 98; 47; 46; 46; 47; 99]) <= VFS_MAX_PARTS ->
       zlen [47; 97; 47; 47; 46; 47; 98; 47; 46; 46; 47; 99] <= VFS_MAX_PATH - 2 ->
       o = join (resolve_dots (components [47; 97; 47; 47; 46; 47; 98; 47; 46; 46; 47; 99])) /\ Forall plain (components o) /\
       vfs_normalize_path o VFS_MAX_PATH = Ret (r, out))).
Proof.
  split; [done|]. split; [vm_compute; reflexivity|].
  apply (normalize_path_spec [47; 97; 47; 47; 46; 47; 98; 47; 46; 46; 47; 99] VFS_MAX_PATH). done.
Defined.

(** ** Mounts *)

Section mounts.
Context {W : Type} (br : bridge W) (stack_bottom : Z).
Implicit Types (s : vstate W) (m : mount W).

Record mounts_ok s : Prop := {
  mo_len : zlen (g_mounts s) = VFS_MAX_MOUNTS;
  mo_count : 0 <= g_mount_count s <= VFS_MAX_MOUNTS;
  mo_paths : forall i m, 0 <= i < g_mount_count s -> (g_mounts s).[i] = Some m -> path_len m = zlen (m_path m)
}.

(** The mount point covers a path: it is the root, the path, or a parent. *)
Definition covers m (norm : list Z) : Prop :=
  m_path m = [SLASH] \/ norm = m_path m \/ exists r, norm = m_path m ++ SLASH :: r.

Lemma is_root_mount_spec m : path_len m = zlen (m_path m) -> (is_root_mount m = true <-> m_path m = [SLASH]).
Proof.
  intros H. unfold is_root_mount. rewrite andb_true_iff, bool_decide_eq_true, Z.eqb_eq, H. unfold zlen. split.
  - intros [Hl Hh]. destruct (m_path m) as [|c [|]]; cbn in *; try lia. by simplify_eq.
  - intros ->. done.
Qed.

Lemma prefix_match_spec m norm :
  path_len m = zlen (m_path m) ->
  (prefix_match norm m = true <-> norm = m_path m \/ exists r, norm = m_path m ++ SLASH :: r).
Proof.
  intros H. unfold prefix_match, same_prefix. rewrite !andb_true_iff, orb_true_iff, !bool_decide_eq_true, Z.leb_le, Z.eqb_eq, H.
  unfold zlen. rewrite Nat2Z.id, (take_ge (m_path m)) by done. split.
  - intros [[Hl Ht] Hor]. rewrite <- (take_drop (length (m_path m)) norm), Ht. destruct Hor as [Heq|Hs].
    + left. rewrite drop_ge by lia. by rewrite app_nil_r.
    + right. destruct (drop (length (m_path m)) norm) as [|c r] eqn:E.
      * apply lookup_lt_Some in Hs. pose proof (length_drop norm (length (m_path m))) as Hd. rewrite E in Hd. cbn in Hd. lia.
      * exists r. f_equal. rewrite <- (Nat.add_0_r (length (m_path m))), <- lookup_drop, E in Hs. cbn in Hs. by injection Hs as ->.
  - intros [->|(r & ->)].
    + split; [split; [lia|by rewrite take_ge]|by left].
    + rewrite length_app. cbn. split; [split; [lia|by rewrite take_app_length]|]. right.
      by rewrite lookup_app_r, Nat.sub_diag by done.
Qed.

Definition usable m (norm : list Z) : bool := active m && (is_root_mount m || prefix_match norm m).

Lemma usable_spec m norm : path_len m = zlen (m_path m) -> (usable m norm = true <-> active m = true /\ covers m norm).
Proof.
  intros H. unfold usable, covers. rewrite andb_true_iff, orb_true_iff, (is_root_mount_spec m H), (prefix_match_spec m norm H).
  done.
Qed.

(** The best of the mounts looked at so far. *)
Definition best_of (ms : list (mount W)) (norm : list Z) (i : Z) (best : option (mount W)) (best_len : Z) : Prop :=
  match best with
  | None => best_len = -1 /\ forall j m, 0 <= j < i -> ms.[j] = Some m -> usable m norm = false
  | Some m => best_len = path_len m /\ exists k, 0 <= k < i /\ ms.[k] = Some m /\ usable m norm = true /\
      forall j m', 0 <= j < i -> ms.[j] = Some m' -> usable m' norm = true ->
        path_len m' <= path_len m /\ (j < k -> path_len m' < path_len m)
  end.

Lemma resolve_from_ok n i norm best best_len ms :
  0 <= i -> i + Z.of_nat n <= zlen ms -> (forall j m, 0 <= j < i + Z.of_nat n -> ms.[j] = Some m -> 0 <= path_len m) ->
  best_of ms norm i best best_len ->
  completes (resolve_from n i norm best best_len ms) (fun r => exists l, best_of ms norm (i + Z.of_nat n) r l).
Proof.
  revert i best best_len. induction n as [|n IH]; intros i best best_len Hi Hn Hpos Hb; cbn [resolve_from].
  - apply completes_Ret. exists best_len. by rewrite Z.add_0_r.
  - destruct (rd_in_range ms i) as (m & -> & Hm); [lia|]. cbn [mbind outcome_bind].
    change (active m && (is_root_mount m || prefix_match norm m)) with (usable m norm).
    replace (i + Z.of_nat (S n)) with (i + 1 + Z.of_nat n) in Hpos |- * by lia.
    assert (0 <= path_len m) as Hpm by (apply (Hpos i); [lia|done]).
    destruct (usable m norm && (best_len <? path_len m)) eqn:E; apply IH; try lia; try done.
    + apply andb_true_iff in E as [Hu Hlt%Z.ltb_lt]. split; [done|]. exists i. split_and!; [lia|lia|done|done|].
      intros j m' Hj Hm' Hu'. destruct (decide (j = i)) as [->|Hne]; [rewrite Hm in Hm'; simplify_eq; lia|].
      destruct best as [b|]; cbn in Hb.
      * destruct Hb as (-> & k & _ & _ & _ & Hmax). destruct (Hmax j m' ltac:(lia) Hm' Hu'). lia.
      * destruct Hb as (_ & Hno). rewrite (Hno j m') in Hu'; [done|lia|done].
    + destruct best as [b|]; cbn in Hb |- *.
      * destruct Hb as (-> & k & Hk & Hbk & Hub & Hmax). split; [done|]. exists k. split_and!; [lia|lia|done|done|].
        intros j m' Hj Hm' Hu'. destruct (decide (j = i)) as [->|Hne]; [|by apply (Hmax j); [lia|..]].
        rewrite Hm in Hm'. simplify_eq. rewrite Hu' in E. cbn in E. apply Z.ltb_ge in E. split; lia.
      * destruct Hb as (-> & Hno). split; [done|]. intros j m' Hj Hm'.
        destruct (decide (j = i)) as [->|Hne]; [|apply (Hno j); [lia|done]].
        rewrite Hm in Hm'. simplify_eq. apply andb_false_iff in E as [E|E%Z.ltb_ge]; [done|lia].
Qed.

(** What [rel_path] is for a mount that covers the path. *)
Lemma rel_path_spec m norm :
  path_len m = zlen (m_path m) -> covers m norm ->
  (m_path m = [SLASH] -> rel_path norm m = norm) /\
  (m_path m <> [SLASH] -> (norm = m_path m /\ rel_path norm m = [SLASH]) \/
     (norm = m_path m ++ rel_path norm m /\ exists r, rel_path norm m = SLASH :: r)).
Proof.
  intros H Hc. unfold rel_path. pose proof (is_root_mount_spec m H) as Hr. split; intros Hp.
  - by rewrite (proj2 Hr Hp).
  - destruct (is_root_mount m); [by destruct Hp; apply Hr|]. rewrite H. unfold zlen. rewrite Nat2Z.id.
    destruct Hc as [?|[->|(r & ->)]]; [done|left; by rewrite Z.eqb_refl|right].
    rewrite length_app. cbn [length]. destruct (Z.eqb_spec (Z.of_nat (length (m_path m) + S (length r))) (Z.of_nat (length (m_path m)))); [lia|].
    rewrite drop_app_length. split; [done|by exists r].
Qed.

(** C31: [resolve_mount] returns the active mount with the longest path among those
    that cover the given path (the root mount covers every path, another mount its
    own path and those below it), the earliest one in the table if several are
    equally long, and no mount exactly when none covers it.  The relative path is
    the whole path for the root mount, "/" for the mount point itself, and
    otherwise what follows the mount path, beginning with a slash. *)
Theorem resolve_mount_longest s norm :
  mounts_ok s ->
  completes (resolve_mount norm s) (fun r =>
    match r with
    | Some (m, rel) =>
        (exists k, 0 <= k < g_mount_count s /\ (g_mounts s).[k] = Some m /\ active m = true /\ covers m norm /\
           forall j m', 0 <= j < g_mount_count s -> (g_mounts s).[j] = Some m' -> active m' = true -> covers m' norm ->
             zlen (m_path m') <= zlen (m_path m) /\ (j < k -> zlen (m_path m') < zlen (m_path m))) /\
        (m_path m = [SLASH] -> rel = norm) /\
        (m_path m <> [SLASH] -> (norm = m_path m /\ rel = [SLASH]) \/ (norm = m_path m ++ rel /\ exists r', rel = SLASH :: r'))
    | None => forall j m, 0 <= j < g_mount_count s -> (g_mounts s).[j] = Some m -> active m = true -> ~ covers m norm
    end).
Proof.
  intros [Hl Hc Hp]. unfold resolve_mount.
  destruct (resolve_from_ok (Z.to_nat (g_mount_count s)) 0 norm None (-1) (g_mounts s)) as (r & -> & l & Hb); [lia|lia| | |].
  { intros j m Hj Hm. rewrite (Hp j m) by (done || lia). apply zlen_nonneg. }
  { split; [done|]. intros. lia. }
  cbn [mbind outcome_bind]. apply completes_Ret. rewrite Z.add_0_l, Z2Nat.id in Hb by lia. destruct r as [m|]; cbn in Hb.
  - destruct Hb as (_ & k & Hk & Hm & Hu & Hmax). pose proof (Hp k m Hk Hm) as Hpl.
    apply (usable_spec m norm Hpl) in Hu as [Ha Hcov]. split; [|by apply rel_path_spec].
    exists k. split_and!; [lia|lia|done|done|done|]. intros j m' Hj Hm' Ha' Hcov'. pose proof (Hp j m' Hj Hm') as Hpl'.
    rewrite <- Hpl, <- Hpl'. apply (Hmax j m'); [done|done|]. by apply usable_spec.
  - destruct Hb as (_ & Hno). intros j m Hj Hm Ha Hcov. pose proof (Hno j m Hj Hm) as Hu.
    by rewrite (proj2 (usable_spec m norm (Hp j m Hj Hm))) in Hu.
Qed.

(** *** The mount table *)

(** The slots handed out so far. *)
Definition table s : list (mount W) := take (Z.to_nat (g_mount_count s)) (g_mounts s).

Inductive mount_op := OMount (path_addr : Z) (path : list Z) (be_addr : Z) (be : backend W) | OUmount (path : list Z).

Definition run_op (o : mount_op) s : outcome (Z * vstate W) :=
  match o with
  | OMount pa p ba be => vfs_mount br stack_bottom pa p ba be s
  | OUmount p => vfs_umount p s
  end.

Fixpoint run_ops (l : list mount_op) s : outcome (list Z * vstate W) :=
  match l with
  | [] => Ret ([], s)
  | o :: r => '(x, s1) ← run_op o s; '(xs, s2) ← run_ops r s1; Ret (x :: xs, s2)
  end.

(** The same on a plain list: mounting appends, unmounting marks the first
    active mount with that path. *)
Fixpoint deactivate (p : list Z) (t : list (mount W)) : Z * list (mount W) :=
  match t with
  | [] => (VFS_ENOENT, [])
  | m :: r =>
      if active m && bool_decide (m_path m = p) then (VFS_OK, set_active false m :: r)
      else let '(x, r') := deactivate p r in (x, m :: r')
  end.

Definition abs_op (o : mount_op) (t : list (mount W)) : Z * list (mount W) :=
  match o with
  | OMount pa p ba be =>
      if VFS_MAX_MOUNTS <=? zlen t then (VFS_ENOSPC, t)
      else if (pa =? 0) || (ba =? 0) then (VFS_EINVAL, t)
      else (VFS_OK, t ++ [mk_mount p (zlen p) be true])
  | OUmount p => deactivate p t
  end.

Fixpoint abs_ops (l : list mount_op) (t : list (mount W)) : list Z * list (mount W) :=
  match l with
  | [] => ([], t)
  | o :: r => let '(x, t1) := abs_op o t in let '(xs, t2) := abs_ops r t1 in (x :: xs, t2)
  end.

(** The mounts that succeeded. *)
Fixpoint mounted (l : list mount_op) (xs : list Z) : Z :=
  match l, xs with
  | OMount _ _ _ _ :: r, x :: xs' => (if x =? VFS_OK then 1 else 0) + mounted r xs'
  | OUmount _ :: r, _ :: xs' => mounted r xs'
  | _, _ => 0
  end.

Lemma zlen_table s : mounts_ok s -> zlen (table s) = g_mount_count s.
Proof. intros [H1 H2 _]. unfold table, zlen in *. rewrite length_take. lia. Qed.

Lemma same_path m p : path_len m = zlen (m_path m) ->
  (zlen p =? path_len m) && same_prefix (path_len m) p (m_path m) = bool_decide (m_path m = p).
Proof.
  intros H. rewrite H. apply Bool.eq_iff_eq_true. rewrite andb_true_iff, Z.eqb_eq, bool_decide_eq_true.
  unfold same_prefix. rewrite bool_decide_eq_true. unfold zlen. rewrite Nat2Z.id. split.
  - intros [Hl%Nat2Z.inj He]. rewrite !take_ge in He by lia. done.
  - intros <-. done.
Qed.

Lemma umount_from_ok n (i : nat) p s :
  (i + n <= length (g_mounts s))%nat ->
  Forall (fun m => path_len m = zlen (m_path m)) (take n (drop i (g_mounts s))) ->
  exists x t, deactivate p (take n (drop i (g_mounts s))) = (x, t) /\ length t = n /\
    umount_from n (Z.of_nat i) p s =
    Ret (x, with_g_mounts (take i (g_mounts s) ++ t ++ drop (i + n) (g_mounts s)) (g_mount_count s) s).
Proof.
  revert i. induction n as [|n IH]; intros i Hn Hp.
  - exists VFS_ENOENT, []. split_and!; [done|done|]. cbn. rewrite Nat.add_0_r, take_drop. by destruct s.
  - destruct (lookup_lt_is_Some_2 (g_mounts s) i) as [m Hm]; [lia|]. cbn [umount_from].
    rewrite (drop_S (g_mounts s) m i Hm) in Hp |- *. cbn [take deactivate] in Hp |- *. apply Forall_cons in Hp as [Hpm Hp].
    rewrite (rd_some (g_mounts s) (Z.of_nat i) m) by (rewrite zget_nat; exact Hm). cbn [mbind outcome_bind].
    rewrite <- andb_assoc, (same_path m p Hpm). destruct (active m && bool_decide (m_path m = p)).
    + eexists _, _. split; [done|]. split; [cbn; rewrite length_take, length_drop; lia|].
      rewrite wr_in_range by (unfold zlen; lia). cbn [mbind outcome_bind]. do 3 f_equal.
      rewrite zset_nat, insert_take_drop by lia. cbn [app]. do 2 f_equal. rewrite <- (take_drop n (drop (S i) (g_mounts s))) at 1.
      f_equal. rewrite drop_drop. f_equal. lia.
    + destruct (IH (S i)) as (x & t & Hd & Hl & Hu); [lia|done|]. rewrite Hd. exists x, (m :: t). split; [done|]. split; [cbn; lia|].
      replace (Z.of_nat i + 1) with (Z.of_nat (S i)) by lia. rewrite Hu. do 3 f_equal.
      rewrite (take_S_r _ _ m) by done. rewrite <- app_assoc. cbn [app]. do 4 f_equal. lia.
Qed.

Lemma deactivate_paths p t : (fun m => (m_path m, path_len m)) <$> (deactivate p t).2 = (fun m => (m_path m, path_len m)) <$> t.
Proof.
  induction t as [|m r IH]; cbn; [done|]. destruct (active m && _); [by destruct m|].
  destruct (deactivate p r) as [x r']. cbn in *. by rewrite IH.
Qed.

(** [mounts_ok] in terms of the table. *)
Lemma mounts_ok_intro s :
  zlen (g_mounts s) = VFS_MAX_MOUNTS -> 0 <= g_mount_count s <= VFS_MAX_MOUNTS ->
  Forall (fun m => path_len m = zlen (m_path m)) (table s) -> mounts_ok s.
Proof.
  intros Hl Hc Ht. split; [done|done|]. intros i m Hi Hm. rewrite Forall_lookup in Ht. apply (Ht (Z.to_nat i)).
  unfold table. rewrite lookup_take_lt by lia. by apply zget_lookup in Hm as [_ ?].
Qed.

Lemma mounts_ok_table s : mounts_ok s -> Forall (fun m => path_len m = zlen (m_path m)) (table s).
Proof.
  intros [Hl Hc Hp]. apply Forall_lookup. intros i m Hm. unfold table in Hm. apply lookup_take_Some in Hm as [Hm Hi].
  apply (Hp (Z.of_nat i)); [lia|]. by rewrite zget_nat.
Qed.

Lemma v_trace_frame ev a b s s' : v_trace stack_bottom ev a b s = Ret s' -> exists k, s' = with_v_k k s.
Proof. unfold v_trace. intros (k & _ & [= <-])%bind_Ret_inv. by exists k. Qed.

Lemma mount_op_ok pa p ba be s x s' :
  mounts_ok s -> vfs_mount br stack_bottom pa p ba be s = Ret (x, s') ->
  mounts_ok s' /\ abs_op (OMount pa p ba be) (table s) = (x, table s').
Proof.
  intros Hok H. pose proof (mounts_ok_table s Hok) as Ht. pose proof (zlen_table s Hok) as Hz. cbn [abs_op]. rewrite Hz.
  destruct Hok as [Hl Hc Hp]. unfold vfs_mount in H. destruct (Z.leb_spec VFS_MAX_MOUNTS (g_mount_count s)) as [|Hlt]; [by simplify_eq|].
  destruct ((pa =? 0) || (ba =? 0)); [by simplify_eq|]. rewrite wr_in_range in H by lia. cbn [mbind outcome_bind] in H.
  apply bind_Ret_inv in H as (s2 & (k & ->)%v_trace_frame & H). apply bind_Ret_inv in H as (s3 & H3 & H). injection H as <- <-.
  set (m := mk_mount p (zlen p) be true) in *.
  assert (g_mounts s3 = (g_mounts s).[g_mount_count s <- m] /\ g_mount_count s3 = g_mount_count s + 1) as (Hm & Hn).
  { destruct (g_vfs_vm_inited _); [apply bind_Ret_inv in H3 as (w & _ & H3)|]; by injection H3 as <-. }
  assert (table s3 = table s ++ [m]) as Htab.
  { unfold table. rewrite Hm, Hn. unfold zset. destruct (Z.leb_spec 0 (g_mount_count s)); [|lia].
    replace (Z.to_nat (g_mount_count s + 1)) with (S (Z.to_nat (g_mount_count s))) by lia.
    rewrite (take_S_r _ _ m) by (apply list_lookup_insert_eq; unfold zlen in *; lia). f_equal. by rewrite take_insert_ge. }
  split; [|by rewrite Htab]. apply mounts_ok_intro; [by rewrite Hm, zlen_zset|lia|].
  rewrite Htab. apply Forall_app. split; [done|]. by repeat constructor.
Qed.

Lemma umount_op_ok p s x s' :
  mounts_ok s -> vfs_umount p s = Ret (x, s') -> mounts_ok s' /\ abs_op (OUmount p) (table s) = (x, table s').
Proof.
  intros Hok H. pose proof (mounts_ok_table s Hok) as Ht. destruct Hok as [Hl Hc Hp]. unfold vfs_umount in H. cbn [abs_op].
  destruct (umount_from_ok (Z.to_nat (g_mount_count s)) 0 p s) as (x' & t & Hd & Hlt & Hu); [unfold zlen in *; lia|done|].
  change (Z.of_nat 0) with 0 in Hu. rewrite drop_0 in Hd. change (deactivate p (table s) = (x', t)) in Hd. rewrite Hu in H. apply Ret_inj in H. injection H as -> Hs'. cbn [take drop app] in *.
  assert (table s' = t) as Htab.
  { rewrite <- Hs'. unfold table. cbn. rewrite <- Hlt. apply take_app_length. }
  split.
  - apply mounts_ok_intro; [|by rewrite <- Hs'|].
    + rewrite <- Hs'. cbn. unfold zlen in *. rewrite length_app, length_drop. lia.
    + rewrite Htab. pose proof (deactivate_paths p (table s)) as Hpaths. rewrite Hd in Hpaths. cbn in Hpaths.
      assert (Forall (fun pl : list Z * Z => pl.2 = zlen pl.1) ((fun m => (m_path m, path_len m)) <$> t)) as Hf
        by (rewrite Hpaths; by apply Forall_fmap).
      by apply Forall_fmap in Hf.
  - by rewrite Htab.
Qed.

Lemma run_ops_ok ops s rs s' :
  mounts_ok s -> run_ops ops s = Ret (rs, s') -> mounts_ok s' /\ abs_ops ops (table s) = (rs, table s').
Proof.
  revert s rs. induction ops as [|o ops IH]; intros s rs Hok H; cbn [run_ops abs_ops] in *; [by simplify_eq|].
  apply bind_Ret_inv in H as ([x s1] & Ho & H). apply bind_Ret_inv in H as ([xs s2] & Hr & H). simplify_eq.
  assert (mounts_ok s1 /\ abs_op o (table s) = (x, table s1)) as [Hok1 ->]
    by (destruct o; [by eapply mount_op_ok|by eapply umount_op_ok]).
  by destruct (IH s1 xs Hok1 Hr) as [Hok2 ->].
Qed.

Lemma deactivate_zlen p t : zlen (deactivate p t).2 = zlen t.
Proof. unfold zlen. rewrite <- (length_fmap (fun m => (m_path m, path_len m))), deactivate_paths. by rewrite length_fmap. Qed.

Lemma abs_ops_zlen ops t : zlen (abs_ops ops t).2 = zlen t + mounted ops (abs_ops ops t).1.
Proof.
  revert t. induction ops as [|o ops IH]; intros t; cbn [abs_ops mounted]; [cbn; lia|].
  destruct (abs_op o t) as [x t1] eqn:E. destruct (abs_ops ops t1) as [xs t2] eqn:E2. specialize (IH t1). rewrite E2 in IH.
  destruct o as [pa p ba be|p]; cbn [abs_op fst snd mounted] in *.
  - destruct (VFS_MAX_MOUNTS <=? zlen t); [by simplify_eq|]. destruct ((pa =? 0) || (ba =? 0)); [by simplify_eq|].
    injection E as <- <-. rewrite zlen_app in IH. cbn in *. unfold zlen in *. cbn in *. lia.
  - pose proof (deactivate_zlen p t) as Hz. rewrite E in Hz. cbn in *. lia.
Qed.

(** C37: The mount table refines a plain list of mounts.  For every sequence of
    [vfs_mount] and [vfs_umount] calls on a well-formed table, the results and the
    slots in use are those of the list on which mounting appends and unmounting
    marks the first active mount with that path as inactive; the table stays well
    formed.  The number of slots in use is the number of mounts that succeeded,
    however many were unmounted again, and once it is [VFS_MAX_MOUNTS] every
    further mount is refused with [VFS_ENOSPC]. *)
Theorem mount_table_refines ops s rs s' :
  mounts_ok s -> run_ops ops s = Ret (rs, s') ->
  mounts_ok s' /\ abs_ops ops (table s) = (rs, table s') /\ g_mount_count s' = g_mount_count s + mounted ops rs /\
  (g_mount_count s' = VFS_MAX_MOUNTS -> forall pa p ba be, run_op (OMount pa p ba be) s' = Ret (VFS_ENOSPC, s')).
Proof.
  intros Hok H. destruct (run_ops_ok ops s rs s' Hok H) as [Hok' Habs]. split_and!; [done|done| |].
  - rewrite <- (zlen_table s' Hok'), <- (zlen_table s Hok). pose proof (abs_ops_zlen ops (table s)) as Hz. by rewrite Habs in Hz.
  - intros Hfull pa p ba be. cbn [run_op]. unfold vfs_mount. by rewrite Hfull.
Qed.

(** *** Recursive removal *)

Definition named (e : dir_entry) : Prop := de_name e <> [].

(** A backend whose functions return, and list only entries with a name. *)
Record backend_ok (be : backend W) : Prop := {
  bo_stat : forall f rel o w, be_stat be = Some f -> completes (f rel o w) (fun _ => True);
  bo_readdir : forall f rel es w, be_readdir be = Some f ->
    completes (f rel es w) (fun '(res, es', _) => zlen es' = zlen es /\ res <= zlen es /\ Forall named (take (Z.to_nat res) es'));
  bo_unlink : forall f rel w, be_unlink be = Some f -> completes (f rel w) (fun _ => True)
}.

(** A bridge whose calls return, and list only entries with a name. *)
Record bridge_ok : Prop := {
  bk_stat : forall p w, completes (br_stat br p w) (fun _ => True);
  bk_unlink : forall p w, completes (br_unlink br p w) (fun _ => True);
  bk_readdir : forall p w, completes (br_readdir br p w) (fun '(rep, _) => forall l, rep = Some l ->
    Forall (fun r => exists nm ty sz, r = Some (Some nm, ty, sz) /\ nm <> []) l)
}.

Record vfs_ok s : Prop := {
  vo_mounts : mounts_ok s;
  vo_backends : forall i m, 0 <= i < g_mount_count s -> (g_mounts s).[i] = Some m -> backend_ok (m_backend m);
  vo_tops : forall i m t, 0 <= i < g_mount_count s -> (g_mounts s).[i] = Some m ->
    top_component (m_path m) = Some t -> zlen t < VFS_NAME_MAX
}.

(** The operations change only the world. *)
Definition moves s s' : Prop := exists w, s' = with_world w s.

Lemma moves_refl s : moves s s.
Proof. exists (world s). by destruct s. Qed.

Lemma moves_trans s1 s2 s3 : moves s1 s2 -> moves s2 s3 -> moves s1 s3.
Proof. intros [w ->] [w' ->]. by exists w'. Qed.

Lemma moves_world w s : moves s (with_world w s).
Proof. by exists w. Qed.

Lemma moves_ok s s' : moves s s' -> vfs_ok s -> vfs_ok s'.
Proof. intros [w ->] [[H1 H2 H3] H4 H5]. split; [by split|done|done]. Qed.

Lemma resolve_from_mem n i norm best best_len ms r :
  resolve_from n i norm best best_len ms = Ret r ->
  0 <= i -> r = best \/ exists k m, i <= k < i + Z.of_nat n /\ ms.[k] = Some m /\ r = Some m.
Proof.
  revert i best best_len. induction n as [|n IH]; intros i best best_len H Hi; cbn [resolve_from] in H; [left; by simplify_eq|].
  apply bind_Ret_inv in H as (m & Hm & H). apply rd_Ret in Hm.
  destruct (active m && _ && _); apply IH in H as [->|(k & m' & ? & ? & ->)]; try lia.
  - right. exists i, m. split_and!; [lia|lia|done|done].
  - right. exists k, m'. split_and!; [lia|lia|done|done].
  - by left.
  - right. exists k, m'. split_and!; [lia|lia|done|done].
Qed.

Lemma resolve_ok p s :
  vfs_ok s -> exists norm r, normalize p = Ret norm /\ resolve_mount norm s = Ret r /\
    forall m rel, r = Some (m, rel) -> backend_ok (m_backend m).
Proof.
  intros [[Hl Hc Hp] Hb _]. destruct (normalize_exists p) as [norm Hn]. exists norm. unfold resolve_mount.
  destruct (resolve_from_ok (Z.to_nat (g_mount_count s)) 0 norm None (-1) (g_mounts s)) as (r & Hr & _); [lia|lia| | |].
  { intros j m Hj Hm. rewrite (Hp j m) by (done || lia). apply zlen_nonneg. }
  { split; [done|]. intros. lia. }
  rewrite Hr. cbn [mbind outcome_bind]. eexists. split_and!; [done|done|]. intros m rel Hm.
  apply resolve_from_mem in Hr as [->|(k & m' & Hk & Hm' & ->)]; [done| |lia]. simplify_eq. apply (Hb k); [lia|done].
Qed.

Lemma bound_ok {A} (op : backend W -> option (list Z -> A)) r (P : A -> Prop) :
  (forall m rel, r = Some (m, rel) -> backend_ok (m_backend m)) ->
  (forall be f rel, backend_ok be -> op be = Some f -> P (f rel)) ->
  bound op r = None \/ exists a, bound op r = Some a /\ P a.
Proof.
  intros Hr Hop. destruct r as [[m rel]|]; [|by left]. cbn. specialize (Hr m rel eq_refl).
  destruct (op (m_backend m)) as [f|] eqn:E; [|by left]. right. eauto.
Qed.

Lemma stat_ok p o s : bridge_ok -> vfs_ok s -> completes (vfs_stat br p o s) (fun '(_, _, s') => moves s s').
Proof.
  intros Hbr Hok. destruct (resolve_ok p s Hok) as (norm & r & Hn & Hr & Hb). unfold vfs_stat. rewrite Hn. cbn [mbind outcome_bind].
  rewrite Hr. cbn [mbind outcome_bind].
  assert (forall g o w, bound be_stat r = Some g -> completes (g o w) (fun _ => True)) as Hf.
  { intros g o' w. destruct (bound_ok be_stat r (fun a => forall o w, completes (a o w) (fun _ => True)) Hb) as [->|(f & -> & Hf)];
      [intros be f rel [Hs _ _] Hf o1 w1; by apply Hs|done|]. by intros [= <-]. }
  eapply (completes_bind _ _ (fun '(_, _, s1) => moves s s1)).
  { destruct (bound be_stat r) as [g|]; [|apply completes_Ret, moves_refl].
    eapply completes_bind; [by apply Hf|]. intros [[x o1] w] _. apply completes_Ret, moves_world. }
  intros [[ok o1] s1] Hm1. destruct ok; [by apply completes_Ret|]. eapply (completes_bind _ _ (fun '(_, _, s2) => moves s s2)).
  { destruct (bridge_ready s1); [|by apply completes_Ret]. eapply completes_bind; [by apply bk_stat|]. intros [rep w] _.
    destruct (store_stat rep o1). apply completes_Ret. eapply moves_trans; [done|apply moves_world]. }
  intros [[ok2 o2] s2] Hm2. destruct ok2; [by apply completes_Ret|]. destruct (bound be_stat r) as [g|]; [|by apply completes_Ret].
  eapply completes_bind; [by apply Hf|]. intros [[x o3] w] _. apply completes_Ret. eapply moves_trans; [done|apply moves_world].
Qed.

Lemma unlink_ok p s : bridge_ok -> vfs_ok s -> completes (vfs_unlink br p s) (fun '(_, s') => moves s s').
Proof.
  intros Hbr Hok. destruct (resolve_ok p s Hok) as (norm & r & Hn & Hr & Hb). unfold vfs_unlink, simple_op. rewrite Hn. cbn [mbind outcome_bind].
  rewrite Hr. cbn [mbind outcome_bind].
  assert (forall g w, bound be_unlink r = Some g -> completes (g w) (fun _ => True)) as Hf.
  { intros g w. destruct (bound_ok be_unlink r (fun a => forall w, completes (a w) (fun _ => True)) Hb) as [->|(f & -> & Hf)];
      [intros be f rel [_ _ Hu] Hf w1; by apply Hu|done|]. by intros [= <-]. }
  eapply (completes_bind _ _ (fun '(_, s1) => moves s s1)).
  { destruct (bound be_unlink r) as [g|]; [|apply completes_Ret, moves_refl].
    eapply completes_bind; [by apply Hf|]. intros [x w] _. apply completes_Ret, moves_world. }
  intros [ok s1] Hm1. destruct ok; [by apply completes_Ret|]. eapply (completes_bind _ _ (fun '(_, s2) => moves s s2)).
  { destruct (bridge_ready s1); [|by apply completes_Ret]. eapply completes_bind; [by apply bk_unlink|]. intros [rep w] _.
    apply completes_Ret. eapply moves_trans; [done|apply moves_world]. }
  intros [ok2 s2] Hm2. destruct ok2; [by apply completes_Ret|]. destruct (bound be_unlink r) as [g|]; [|by apply completes_Ret].
  eapply completes_bind; [by apply Hf|]. intros [x w] _. apply completes_Ret. eapply moves_trans; [done|apply moves_world].
Qed.

(** The listing [vfs_readdir] falls back on at the root. *)
Definition listed (cap : Z) (st : Z * list dir_entry) : Prop :=
  zlen st.2 = cap /\ 0 <= st.1 <= cap /\ Forall named (take (Z.to_nat st.1) st.2).

Lemma listed_add cap count es t ty sz :
  listed cap (count, es) -> count < cap -> t <> [] -> listed cap (count + 1, es.[count <- mk_dirent t ty sz]).
Proof.
  intros (Hl & Hc & Hf) Hlt Ht. cbn in *. split_and!; cbn; [by rewrite zlen_zset|lia|lia|].
  replace (Z.to_nat (count + 1)) with (S (Z.to_nat count)) by lia. unfold zset. destruct (Z.leb_spec 0 count); [|lia].
  erewrite take_S_r by (apply list_lookup_insert_eq; unfold zlen in *; lia). rewrite take_insert_ge by lia.
  apply Forall_app. split; [done|]. by repeat constructor.
Qed.

Lemma put_dirs_listed cap ds st :
  Forall (fun d : list Z => d <> []) ds -> listed cap st -> listed cap (foldl (fun st d => put_dir d st) st ds).
Proof.
  intros Hds. revert st. induction Hds as [|d ds Hd _ IH]; intros st Hst; cbn; [done|]. apply IH. destruct st as [count es].
  unfold put_dir. destruct (Z.ltb_spec count (zlen es)); [|done]. apply listed_add; [done| |done]. destruct Hst as (<- & _). done.
Qed.

Lemma put_mounts_listed cap n i ms st :
  0 <= i -> i + Z.of_nat n <= zlen ms ->
  (forall j m t, i <= j < i + Z.of_nat n -> ms.[j] = Some m -> top_component (m_path m) = Some t -> zlen t < VFS_NAME_MAX) ->
  listed cap st -> completes (put_mounts n i ms st) (listed cap).
Proof.
  revert i st. induction n as [|n IH]; intros i [count es] Hi Hn Ht Hst; cbn [put_mounts]; [by apply completes_Ret|].
  destruct (Z.leb_spec (zlen es) count) as [|Hlt]; [by apply completes_Ret|].
  destruct (rd_in_range ms i) as (m & -> & Hm); [lia|]. cbn [mbind outcome_bind].
  assert (forall st', listed cap st' -> completes (put_mounts n (i + 1) ms st') (listed cap)) as Hrec.
  { intros st' Hst'. apply IH; [lia|lia| |done]. intros j m' t Hj. apply Ht. lia. }
  destruct (negb (active m)); [by apply Hrec|]. destruct (top_component (m_path m)) as [t|] eqn:E; [|by apply Hrec].
  destruct (existsb _ _); [by apply Hrec|]. specialize (Ht i m t ltac:(lia) Hm E).
  destruct (Z.leb_spec VFS_NAME_MAX (zlen t)); [lia|]. apply Hrec, listed_add; [done|by destruct Hst as (<- & _)|].
  intros ->. unfold top_component in E. by destruct (take_component _).1.
Qed.

Lemma store_entries_length reps es : length (store_entries reps es) = length es.
Proof. revert es. induction reps as [|r rs IH]; intros [|e es]; cbn; [done..|]. by rewrite IH. Qed.

Lemma store_entries_named reps es :
  Forall (fun r => exists nm ty sz, r = Some (Some nm, ty, sz) /\ nm <> []) reps ->
  Forall named (take (length reps) (store_entries reps es)).
Proof.
  intros H. revert es. induction H as [|r rs (nm & ty & sz & -> & Hnm) _ IH]; intros es; cbn; [by rewrite take_0|].
  destruct es as [|e es]; cbn; [done|]. constructor; [|done]. unfold named. cbn. by destruct nm.
Qed.

Definition lists (cap : Z) s (x : Z * list dir_entry * vstate W) : Prop :=
  let '(c, es, s') := x in moves s s' /\ zlen es = cap /\ c <= cap /\ Forall named (take (Z.to_nat c) es).

(** The listing at the root, and the second attempt elsewhere. *)
Lemma readdir_last (f : option (list dir_entry -> W -> outcome (Z * list dir_entry * W))) norm es2 s s2 :
  vfs_ok s -> moves s s2 ->
  (forall g es w, f = Some g -> completes (g es w) (fun '(res, es', _) => zlen es' = zlen es /\ res <= zlen es /\ Forall named (take (Z.to_nat res) es'))) ->
  completes
    (if bool_decide (norm = [SLASH]) then
       '(count, es3) ← put_mounts (Z.to_nat (g_mount_count s2)) 0 (g_mounts s2) (foldl (fun st d => put_dir d st) (0, es2) root_dirs);
       Ret (count, es3, s2)
     else
       match f with
       | Some f => '(res, es, w) ← f es2 (world s2); Ret (res, es, with_world w s2)
       | None => Ret (VFS_ENOENT, es2, s2)
       end) (lists (zlen es2) s).
Proof.
  intros Hok Hm Hf. destruct (moves_ok s s2 Hm Hok) as [[Hl Hc Hp] _ Ht]. case_bool_decide.
  - destruct (put_mounts_listed (zlen es2) (Z.to_nat (g_mount_count s2)) 0 (g_mounts s2)
      (foldl (fun st d => put_dir d st) (0, es2) root_dirs)) as ([c es3] & -> & H1 & H2 & H3); [lia|lia| | |].
    + intros j m t Hj. apply (Ht j). lia.
    + apply put_dirs_listed; [by repeat constructor|]. split_and!; cbn; [done|lia|unfold zlen; lia|constructor].
    + apply completes_Ret. cbn in *. split_and!; [done|done|lia|done].
  - destruct f as [g|].
    + destruct (Hf g es2 (world s2) eq_refl) as ([[res es] w] & -> & H1 & H2 & H3). apply completes_Ret.
      split_and!; [|done|done|done]. eapply moves_trans; [done|apply moves_world].
    + apply completes_Ret. split_and!; [done|done|unfold zlen, VFS_ENOENT; lia|constructor].
Qed.

Lemma readdir_ok p es s : bridge_ok -> vfs_ok s -> completes (vfs_readdir br p es s) (lists (zlen es) s).
Proof.
  intros Hbr Hok. destruct (resolve_ok p s Hok) as (norm & r & Hn & Hr & Hb). unfold vfs_readdir. rewrite Hn. cbn [mbind outcome_bind].
  rewrite Hr. cbn [mbind outcome_bind].
  assert (forall g es w, bound be_readdir r = Some g ->
    completes (g es w) (fun '(res, es', _) => zlen es' = zlen es /\ res <= zlen es /\ Forall named (take (Z.to_nat res) es'))) as Hf.
  { intros g es' w. destruct r as [[m rel]|]; [|done]. cbn. destruct (be_readdir (m_backend m)) as [f|] eqn:E; [|done].
    intros [= <-]. destruct (Hb m rel eq_refl) as [_ Hrd _]. by apply Hrd. }
  assert (exists res1 es1 s1, match bound be_readdir r with
      | Some f => '(res, es, w) ← f es (world s); Ret (res, es, with_world w s)
      | None => Ret (-1, es, s) end = Ret (res1, es1, s1) /\ lists (zlen es) s (res1, es1, s1)) as (res1 & es1 & s1 & -> & H1).
  { destruct (bound be_readdir r) as [f|]; [|eexists _, _, _; split; [done|]].
    - destruct (Hf f es (world s) eq_refl) as ([[x es'] w] & -> & ?). eexists _, _, _. split; [done|]. split; [apply moves_world|done].
    - split_and!; [apply moves_refl|done|unfold zlen; lia|constructor]. }
  cbn [mbind outcome_bind]. destruct (0 <=? res1); [by apply completes_Ret|]. destruct H1 as (Hm1 & <- & _).
  destruct (bridge_ready s1); [|by apply readdir_last].
  destruct (bk_readdir Hbr p (world s1)) as ([[l|] w] & -> & E); cbn [mbind outcome_bind].
  - destruct (Z.leb_spec 0 (Z.min (zlen l) (zlen es1))) as [_|]; [|unfold zlen in *; lia]. apply completes_Ret.
    split_and!; [eapply moves_trans; [done|apply moves_world]|unfold zlen; by rewrite store_entries_length|lia|].
    pose proof (store_entries_named l es1 (E l eq_refl)) as Hs.
    replace (Z.to_nat (Z.min (zlen l) (zlen es1))) with (length l `min` length es1)%nat by (unfold zlen; lia).
    rewrite Nat.min_comm, <- take_take. by apply Forall_take.
  - change (0 <=? -1) with false. cbn [negb]. apply readdir_last; [done| |done]. eapply moves_trans; [done|apply moves_world].
Qed.

(** A child's path is longer, and no longer than a path may be. *)
Lemma child_path_zlen p nm c : child_path p nm = Some c -> nm <> [] -> zlen p < zlen c < VFS_MAX_PATH.
Proof.
  unfold child_path. destruct (Z.leb_spec VFS_MAX_PATH (zlen p + 1 + zlen nm)); [done|]. intros [= <-] Hne.
  destruct nm as [|x nm]; [done|]. case_bool_decide; rewrite zlen_app; unfold zlen in *; cbn in *; lia.
Qed.

Lemma rm_children_ok (rm : list Z -> vstate W -> outcome (Z * vstate W)) p es s :
  (forall c s', zlen p < zlen c < VFS_MAX_PATH -> moves s s' -> completes (rm c s') (fun '(_, s'') => moves s' s'')) ->
  Forall named es -> completes (rm_children rm p es s) (fun '(_, s') => moves s s').
Proof.
  intros Hrm Hes. assert (moves s s) as Hm by apply moves_refl. revert Hm. generalize s at 2 3 as s1.
  induction Hes as [|e es He _ IH]; intros s1 Hm; cbn [rm_children]; [by apply completes_Ret|].
  destruct (bool_decide _ || bool_decide _); [by apply IH|].
  destruct (child_path p (de_name e)) as [c|] eqn:E; [|by apply IH].
  destruct (Hrm c s1 (child_path_zlen _ _ _ E He) Hm) as ([x s2] & -> & Hm2). cbn [mbind outcome_bind].
  assert (moves s s2) by (by eapply moves_trans). destruct (negb (x =? VFS_OK)); [by apply completes_Ret|by apply IH].
Qed.

(** Fuel for every path: each level of the recursion lengthens it. *)
Definition rm_fuel : nat := 257.

Lemma rm_rf_ok st0 es0 n p s :
  bridge_ok -> vfs_ok s -> (1 <= n)%nat /\ 257 - zlen p <= Z.of_nat n ->
  completes (vfs_rm_rf br st0 es0 n p s) (fun '(_, s') => moves s s').
Proof.
  intros Hbr. revert p s. induction n as [|n IH]; intros p s Hok [Hn Hp]; [lia|cbn [vfs_rm_rf]].
  destruct (stat_ok p st0 s Hbr Hok) as ([[x st] s1] & -> & Hm1). cbn [mbind outcome_bind].
  destruct (negb (x =? VFS_OK)); [by apply completes_Ret|]. pose proof (moves_ok _ _ Hm1 Hok) as Hok1.
  destruct (st_type st =? VFS_DIRECTORY).
  - destruct (readdir_ok p es0 s1 Hbr Hok1) as ([[c es] s2] & -> & Hm2 & Hl & Hc & Hnm). cbn [mbind outcome_bind].
    pose proof (moves_trans _ _ _ Hm1 Hm2) as Hm12. destruct (c <? 0); [by apply completes_Ret|].
    destruct (Z.ltb_spec (zlen es) c); [lia|]. pose proof (moves_ok _ _ Hm2 Hok1) as Hok2.
    destruct (rm_children_ok (vfs_rm_rf br st0 es0 n) p (take (Z.to_nat c) es) s2) as ([y s3] & -> & Hm3); [|done|].
    { intros c' s' Hlen Hm'. apply IH; [by eapply moves_ok|]. change VFS_MAX_PATH with 256 in Hlen. lia. }
    cbn [mbind outcome_bind]. pose proof (moves_trans _ _ _ Hm12 Hm3) as Hm13.
    destruct (negb (y =? VFS_OK)); [by apply completes_Ret|].
    destruct (unlink_ok p s3 Hbr) as ([z s4] & -> & Hm4); [by eapply moves_ok|]. exists (z, s4). split; [done|by eapply moves_trans].
  - destruct (unlink_ok p s1 Hbr Hok1) as ([z s4] & -> & Hm4). exists (z, s4). split; [done|by eapply moves_trans].
Qed.

(** C40: [vfs_rm_rf] returns for every path, however deep or cyclic the tree that
    the backends present: if the functions of the backends and the calls of the bridge
    return, if they
    list only entries with a nonempty name, and if the first component of every mount
    point is shorter than 64 characters, then a
    recursion depth of 257 is enough, no listing overruns its buffer, and only the
    file systems' own state changes. *)
Theorem rm_rf_terminates st0 es0 p s :
  bridge_ok -> vfs_ok s -> completes (vfs_rm_rf br st0 es0 rm_fuel p s) (fun '(_, s') => moves s s').
Proof. intros Hbr Hok. apply rm_rf_ok; [done|done|]. unfold rm_fuel, zlen. lia. Qed.
End mounts.

(** *** Examples: a tree whose directory lists itself *)

(** Every path below "/loop" is a directory with one entry "d". *)
Definition loop_backend : backend Z := mk_backend [108]
  (Some (fun rel o w => Ret (VFS_OK, mk_stat [100] VFS_DIRECTORY 0 0, w)))
  (Some (fun rel es w => match es with
                         | [] => Ret (0, [], w)
                         | _ :: r => Ret (1, mk_dirent [100] VFS_DIRECTORY 0 :: r, w)
                         end))
  None None None None (Some (fun rel w => Ret (VFS_OK, w + 1))).

Definition no_bridge : bridge Z := mk_bridge false (fun _ w => Ret w) (fun _ w => Ret (None, w)) (fun _ w => Ret (None, w))
  (fun _ _ _ w => Ret (None, w)) (fun _ _ _ w => Ret (None, w)) (fun _ w => Ret (None, w)) (fun _ w => Ret (None, w)) (fun _ w => Ret (None, w)).

Definition empty_backend : backend Z := mk_backend [] None None None None None None None.

(** "/" and "/loop" mounted. *)
Definition two_mounts : vstate Z := mk_vfs
  (mk_mount [47] 1 empty_backend true :: mk_mount [47; 108; 111; 111; 112] 5 loop_backend true :: replicate 6 (mk_mount [] 0 empty_backend false))
  2 false false kstate_static 0.

Lemma two_mounts_ok : mounts_ok two_mounts.
Proof. apply mounts_ok_intro; [done|done|]. by repeat constructor. Qed.

Lemma loop_backend_ok : backend_ok loop_backend.
Proof.
  split; cbn; intros f rel; [intros o w|intros es w|intros w]; intros [= <-]; [by eexists|..|by eexists].
  destruct es as [|e r]; eexists; (split; [done|]); split_and!; [done|done|constructor|done|unfold zlen; cbn; lia|].
  by repeat constructor.
Qed.

Lemma two_mounts_vfs_ok : vfs_ok two_mounts.
Proof.
  split; [exact two_mounts_ok|..]; intros i m; [|intros t]; intros Hi Hm; cbn in Hi;
    assert (i = 0 \/ i = 1) as [->| ->] by lia; cbv in Hm; simplify_eq; [by split|exact loop_backend_ok|done|].
  cbn. intros [= <-]. done.
Qed.

(** "/loop/d" *)
Lemma resolve_mount_longest_witness :
  mounts_ok two_mounts /\
  completes (resolve_mount [47; 108; 111; 111; 112; 47; 100] two_mounts) (fun r =>
    match r with
    | Some (m, rel) =>
        (exists k, 0 <= k < g_mount_count two_mounts /\ (g_mounts two_mounts).[k] = Some m /\ active m = true /\
           covers m [47; 108; 111; 111; 112; 47; 100] /\
           forall j m', 0 <= j < g_mount_count two_mounts -> (g_mounts two_mounts).[j] = Some m' -> active m' = true ->
             covers m' [47; 108; 111; 111; 112; 47; 100] ->
             zlen (m_path m') <= zlen (m_path m) /\ (j < k -> zlen (m_path m') < zlen (m_path m))) /\
        (m_path m = [SLASH] -> rel = [47; 108; 111; 111; 112; 47; 100]) /\
        (m_path m <> [SLASH] -> ([47; 108; 111; 111; 112; 47; 100] = m_path m /\ rel = [SLASH]) \/
           ([47; 108; 111; 111; 112; 47; 100] = m_path m ++ rel /\ exists r', rel = SLASH :: r'))
    | None => forall j m, 0 <= j < g_mount_count two_mounts -> (g_mounts two_mounts).[j] = Some m -> active m = true ->
        ~ covers m [47; 108; 111; 111; 112; 47; 100]
    end).
Proof. split; [exact two_mounts_ok|]. apply (resolve_mount_longest two_mounts [47; 108; 111; 111; 112; 47; 100]). exact two_mounts_ok. Defined.

(** Six mounts fill the table; unmounting does not make room for another. *)
Definition fill_ops : list (mount_op (W := Z)) :=
  replicate 6 (OMount 4096 [47; 120] 8192 loop_backend) ++ [OUmount [47; 120]; OMount 4096 [47; 121] 8192 loop_backend].
Definition filled : vstate Z := match run_ops no_bridge 4096 fill_ops two_mounts with Ret (_, s) => s | _ => two_mounts end.

Lemma mount_table_refines_witness :
  mounts_ok two_mounts /\ run_ops no_bridge 4096 fill_ops two_mounts = Ret ([0; 0; 0; 0; 0; 0; 0; VFS_ENOSPC], filled) /\
  mounts_ok filled /\ abs_ops fill_ops (table two_mounts) = ([0; 0; 0; 0; 0; 0; 0; VFS_ENOSPC], table filled) /\
  g_mount_count filled = g_mount_count two_mounts + mounted fill_ops [0; 0; 0; 0; 0; 0; 0; VFS_ENOSPC] /\
  (g_mount_count filled = VFS_MAX_MOUNTS -> forall pa p ba be, run_op no_bridge 4096 (OMount pa p ba be) filled = Ret (VFS_ENOSPC, filled)).
Proof.
  assert (run_ops no_bridge 4096 fill_ops two_mounts = Ret ([0; 0; 0; 0; 0; 0; 0; VFS_ENOSPC], filled)) as H by (vm_compute; reflexivity).
  split; [exact two_mounts_ok|]. split; [exact H|].
  apply (mount_table_refines no_bridge 4096 fill_ops two_mounts [0; 0; 0; 0; 0; 0; 0; VFS_ENOSPC] filled); [exact two_mounts_ok|exact H].
Defined.

(** "/loop": 125 levels are removed before the path would be too long. *)
Definition blank_entries : list dir_entry := replicate 64 (mk_dirent [] 0 0).

Lemma rm_rf_terminates_witness :
  bridge_ok no_bridge /\ vfs_ok two_mounts /\
  match vfs_rm_rf no_bridge (mk_stat [] 0 0 0) blank_entries rm_fuel [47; 108; 111; 111; 112] two_mounts with
  | Ret (r, s') => r = VFS_OK /\ world s' = 126
  | _ => False
  end /\
  completes (vfs_rm_rf no_bridge (mk_stat [] 0 0 0) blank_entries rm_fuel [47; 108; 111; 111; 112] two_mounts)
    (fun '(_, s') => moves two_mounts s').
Proof.
  assert (bridge_ok no_bridge) as Hb by (split; intros; [by eexists..|eexists; split; [reflexivity|done]]).
  split; [exact Hb|]. split; [exact two_mounts_vfs_ok|]. split; [vm_compute; split; reflexivity|].
  apply (rm_rf_terminates no_bridge (mk_stat [] 0 0 0) blank_entries [47; 108; 111; 111; 112] two_mounts);
    [exact Hb|exact two_mounts_vfs_ok].
Defined.
End VfsSpec.
