(* ===== verification/BlockDev.v ===== *)
(** * Block devices (kernel/include/ata.h)

    Sector buffers as lists of 512 bytes with their little-endian fields, and the
    interface between the file systems and the disk drivers: the operations of
    ata.h as a class, and what a file system relies on as a second class.
    core/ata_pio.c implements it (Ata.v); a disk held in memory is an instance
    used for examples. *)

From stdpp Require Import base tactics list numbers option.
From S2P Require Import Prelude CMem.

Definition SECTOR : Z := 512.

(** ** Fields of a buffer *)

Definition byte_at (b : list Z) (i : Z) : Z := match b.[i] with Some x => x | None => 0 end.

(** An [n]-byte little-endian field at offset [i]. *)
Definition get_le (n : nat) (b : list Z) (i : Z) : Z := load_le n (byte_at b) i.

Fixpoint put_le (n : nat) (b : list Z) (i v : Z) : list Z :=
  match n with
  | O => b
  | S k => put_le k (b.[i <- v mod 256]) (i + 1) (v / 256)
  end.

(** [n] bytes from offset [i]. *)
Definition slice (b : list Z) (i n : Z) : list Z := take (Z.to_nat n) (drop (Z.to_nat i) b).

(** [b] with the bytes [x] stored at offset [i]. *)
Fixpoint put_bytes (b : list Z) (i : Z) (x : list Z) : list Z :=
  match x with
  | [] => b
  | c :: r => put_bytes (b.[i <- c]) (i + 1) r
  end.

Definition bytes_ok (b : list Z) : Prop := Forall (fun x => 0 <= x < 256) b.
Definition sector_ok (b : list Z) : Prop := zlen b = SECTOR /\ bytes_ok b.

(** ** The interface *)

(** [ata_read_sector] gets the caller's buffer and returns it as it is afterwards;
    both transfer functions report success as nonzero. *)
Class BlockDevice (D : Type) := {
  ata_is_available : D -> bool;
  ata_read_sector : Z -> list Z -> D -> bool * list Z * D;
  ata_write_sector : Z -> list Z -> D -> bool * D
}.

(** What a file system relies on: a device that is ready stores [bd_limit]
    sectors; reading returns a sector and changes none, writing replaces one.
    Reading a sector the device does not have fails or not, but changes nothing. *)
Class BlockDeviceLaws (D : Type) `{BlockDevice D} := {
  bd_limit : Z;
  bd_ready : D -> Prop;
  disk : D -> Z -> list Z;
  bd_limit_u32 : bd_limit <= 2 ^ 32;
  disk_sector : forall d x, bd_ready d -> 0 <= x < bd_limit -> sector_ok (disk d x);
  bd_read : forall d lba buf, bd_ready d -> 0 <= lba < bd_limit -> zlen buf = SECTOR ->
    exists d', ata_read_sector lba buf d = (true, disk d lba, d') /\ bd_ready d' /\ forall x, disk d' x = disk d x;
  bd_read_any : forall d lba buf ok buf' d', bd_ready d -> ata_read_sector lba buf d = (ok, buf', d') ->
    bd_ready d' /\ forall x, disk d' x = disk d x;
  bd_write : forall d lba buf, bd_ready d -> 0 <= lba < bd_limit -> sector_ok buf ->
    exists d', ata_write_sector lba buf d = (true, d') /\ bd_ready d' /\
      forall x, disk d' x = if x =? lba then buf else disk d x
}.

(** ** Lemmas on buffers *)

Lemma zlen_put_le n b i v : zlen (put_le n b i v) = zlen b.
Proof. revert b i v. induction n as [|n IH]; intros b i v; cbn; [done|]. by rewrite IH, zlen_zset. Qed.

Lemma zlen_put_bytes b i x : zlen (put_bytes b i x) = zlen b.
Proof. revert b i. induction x as [|c r IH]; intros b i; cbn; [done|]. by rewrite IH, zlen_zset. Qed.

Lemma byte_at_set b i j x : 0 <= i < zlen b -> byte_at (b.[i <- x]) j = if i =? j then x else byte_at b j.
Proof.
  intros Hi. unfold byte_at. destruct (Z.eqb_spec i j) as [<-|Hne]; [by rewrite zget_zset_eq|by rewrite zget_zset_ne].
Qed.

Lemma byte_at_bound b i : bytes_ok b -> 0 <= byte_at b i < 256.
Proof.
  intros H. unfold byte_at. destruct (b.[i]) as [x|] eqn:E; [|lia]. apply zget_lookup in E as [_ E].
  unfold bytes_ok in H. rewrite Forall_lookup in H. by eapply H.
Qed.

Lemma bytes_ok_set b i x : bytes_ok b -> 0 <= x < 256 -> bytes_ok (b.[i <- x]).
Proof. intros Hb Hx. unfold zset. destruct (0 <=? i); [|done]. by apply Forall_insert. Qed.

Lemma bytes_ok_put_le n b i v : bytes_ok b -> bytes_ok (put_le n b i v).
Proof. revert b i v. induction n as [|n IH]; intros b i v Hb; cbn; [done|]. apply IH, bytes_ok_set; [done|]. by apply Z.mod_pos_bound. Qed.

Lemma bytes_ok_put_bytes b i x : bytes_ok b -> bytes_ok x -> bytes_ok (put_bytes b i x).
Proof.
  intros Hb Hx. revert b i Hb. induction Hx as [|c r Hc _ IH]; intros b i Hb; cbn; [done|]. by apply IH, bytes_ok_set.
Qed.

Lemma get_le_bound n b i : bytes_ok b -> 0 <= get_le n b i < 256 ^ Z.of_nat n.
Proof. intros H. apply load_bound. intros x. by apply byte_at_bound. Qed.

(** Stored bytes, one by one. *)
Lemma byte_at_put_le n b i v j :
  0 <= i -> i + Z.of_nat n <= zlen b ->
  byte_at (put_le n b i v) j = if in_block i (Z.of_nat n) j then (v / 256 ^ (j - i)) mod 256 else byte_at b j.
Proof.
  revert b i v. induction n as [|n IH]; intros b i v Hi Hn; cbn [put_le]; [by rewrite in_block_out by lia|].
  rewrite IH by (rewrite ?zlen_zset; lia). destruct (Z.eq_dec j i) as [->|Hne].
  - rewrite in_block_out, in_block_in by lia. rewrite byte_at_set by lia. rewrite Z.eqb_refl, Z.sub_diag. by rewrite Z.div_1_r.
  - destruct (in_block i (Z.of_nat (S n)) j) eqn:E.
    + apply in_block_true in E. rewrite in_block_in by lia. rewrite Z.div_div by (try apply Z.pow_pos_nonneg; lia).
      rewrite <- Z.pow_succ_r by lia. do 3 f_equal. lia.
    + apply in_block_false in E. rewrite in_block_out by lia. rewrite byte_at_set by lia. by destruct (Z.eqb_spec i j); [lia|].
Qed.

Lemma get_put_same n b i v : 0 <= i -> i + Z.of_nat n <= zlen b -> get_le n (put_le n b i v) i = v mod 256 ^ Z.of_nat n.
Proof.
  intros Hi Hn. apply load_bytes. intros j Hj. rewrite byte_at_put_le by done. rewrite in_block_in by lia. do 3 f_equal. lia.
Qed.

Lemma get_put_ne n k b i j v :
  0 <= i -> i + Z.of_nat n <= zlen b -> disjoint_ranges i (Z.of_nat n) j (Z.of_nat k) -> get_le k (put_le n b i v) j = get_le k b j.
Proof.
  intros Hi Hn Hd. apply load_agree. intros x Hx. rewrite byte_at_put_le by done. rewrite in_block_out; [done|].
  unfold disjoint_ranges in Hd. lia.
Qed.

Lemma zget_byte b i : 0 <= i < zlen b -> b.[i] = Some (byte_at b i).
Proof. intros H. unfold byte_at. by destruct (zget_in_range b i H) as [x ->]. Qed.

(** ** A disk in memory *)

(** Sectors from 0; accesses beyond the last fail. *)
Record ramdisk := mk_ramdisk { rd_sectors : list (list Z) }.

#[export] Instance ramdisk_device : BlockDevice ramdisk := {
  ata_is_available := fun _ => true;
  ata_read_sector := fun lba buf d =>
    match (rd_sectors d).[lba] with Some s => (true, s, d) | None => (false, buf, d) end;
  ata_write_sector := fun lba buf d =>
    if (0 <=? lba) && (lba <? zlen (rd_sectors d)) then (true, mk_ramdisk ((rd_sectors d).[lba <- buf])) else (false, d)
}.

(** The laws for disks of [n] sectors. *)
#[refine] Definition ramdisk_laws (n : Z) (Hn : n <= 2 ^ 32) : BlockDeviceLaws ramdisk := {|
  bd_limit := n;
  bd_ready := fun d => zlen (rd_sectors d) = n /\ Forall sector_ok (rd_sectors d);
  disk := fun d x => match (rd_sectors d).[x] with Some s => s | None => [] end
|}.
Proof.
  - exact Hn.
  - intros d x [Hl Hs] Hx. destruct (zget_in_range (rd_sectors d) x) as [s Hs']; [lia|]. rewrite Hs'.
    apply zget_lookup in Hs' as [_ Hs']. rewrite Forall_lookup in Hs. by eapply Hs.
  - intros d lba buf [Hl Hs] Hx _. cbn. destruct (zget_in_range (rd_sectors d) lba) as [s ->]; [lia|]. by exists d.
  - intros d lba buf ok buf' d' Hd. cbn. destruct ((rd_sectors d).[lba]); by intros [= <- <- <-].
  - intros d lba buf [Hl Hs] Hx Hb. cbn.
    destruct (Z.leb_spec 0 lba), (Z.ltb_spec lba (zlen (rd_sectors d))); try lia. cbn.
    eexists. split; [done|]. split; [split; cbn; [by rewrite zlen_zset|]|].
    + unfold zset. destruct (0 <=? lba); [|done]. by apply Forall_insert.
    + intros x. cbn. destruct (Z.eqb_spec x lba) as [->|Hne]; [by rewrite zget_zset_eq|by rewrite zget_zset_ne].
Defined.
