(* ===== verification/Ata.v ===== *)
(** * ATA PIO disk driver (kernel/core/ata_pio.c)

    The driver of the primary master over the port instructions of io.h, which
    the class [PortIO] stands for.  The class [AtaDrive] states what the driver
    relies on of the drive, as the ATA specification documents it: a register
    file, a status register that is busy for a while, and the phases of a data
    transfer.  For such a drive the driver is a block device in the sense of
    BlockDev.v, provided that it shows neither DRQ nor an error while it is busy,
    which the specification does not promise ([busy_clear]).  Log messages are left
    out. *)

From stdpp Require Import base tactics numbers option sets list.
From S2P Require Import Prelude CMem BlockDev.

Module Ata.

(** ** Model *)

Definition ATA_PRIMARY_DATA : Z := 0x1F0.
Definition ATA_PRIMARY_SECCOUNT : Z := 0x1F2.
Definition ATA_PRIMARY_LBA_LOW : Z := 0x1F3.
Definition ATA_PRIMARY_LBA_MID : Z := 0x1F4.
Definition ATA_PRIMARY_LBA_HIGH : Z := 0x1F5.
Definition ATA_PRIMARY_DRIVE : Z := 0x1F6.
Definition ATA_PRIMARY_STATUS : Z := 0x1F7.
Definition ATA_PRIMARY_COMMAND : Z := 0x1F7.
Definition ATA_PRIMARY_ALT_STATUS : Z := 0x3F6.
Definition ATA_STATUS_ERR : Z := 0x01.
Definition ATA_STATUS_DRQ : Z := 0x08.
Definition ATA_STATUS_DF : Z := 0x20.
Definition ATA_STATUS_BSY : Z := 0x80.

(** The port instructions, on a hardware state [H]. *)
Class PortIO (H : Type) := {
  inb : Z -> H -> Z * H;
  outb : Z -> Z -> H -> H;
  inw : Z -> H -> Z * H;
  outw : Z -> Z -> H -> H
}.

Section driver.
Context {H : Type} `{PortIO H}.

Record ata := mk_ata { ata_present : bool; hw : H }.

Definition ata_io_delay (h : H) : H :=
  (inb ATA_PRIMARY_ALT_STATUS (inb ATA_PRIMARY_ALT_STATUS (inb ATA_PRIMARY_ALT_STATUS (inb ATA_PRIMARY_ALT_STATUS h).2).2).2).2.

Definition POLLS : Z := 1000000.

Fixpoint wait_not_busy (n : nat) (h : H) : bool * H :=
  match n with
  | O => (false, h)
  | S k =>
      let '(status, h1) := inb ATA_PRIMARY_STATUS h in
      if Z.land status ATA_STATUS_BSY =? 0 then (true, h1) else wait_not_busy k h1
  end.

Definition ata_wait_not_busy : H -> bool * H := wait_not_busy (Z.to_nat POLLS).

Fixpoint wait_drq (n : nat) (h : H) : bool * H :=
  match n with
  | O => (false, h)
  | S k =>
      let '(status, h1) := inb ATA_PRIMARY_STATUS h in
      if negb (Z.land status ATA_STATUS_DRQ =? 0) then (true, h1)
      else if negb (Z.land status (Z.lor ATA_STATUS_ERR ATA_STATUS_DF) =? 0) then (false, h1)
      else wait_drq k h1
  end.

Definition ata_wait_drq : H -> bool * H := wait_drq (Z.to_nat POLLS).

Fixpoint read_words (n : nat) (h : H) : list Z * H :=
  match n with
  | O => ([], h)
  | S k =>
      let '(w, h1) := inw ATA_PRIMARY_DATA h in
      let '(ws, h2) := read_words k h1 in (w :: ws, h2)
  end.

Fixpoint write_words (ws : list Z) (h : H) : H :=
  match ws with
  | [] => h
  | w :: r => write_words r (outw ATA_PRIMARY_DATA w h)
  end.

Definition ata_init (s : ata) : ata :=
  let h1 := ata_io_delay (outb ATA_PRIMARY_DRIVE 0xA0 (hw s)) in
  let '(status, h2) := inb ATA_PRIMARY_STATUS h1 in
  if status =? 0xFF then mk_ata false h2
  else
    let h3 := outb ATA_PRIMARY_SECCOUNT 0 h2 in
    let h4 := outb ATA_PRIMARY_LBA_LOW 0 h3 in
    let h5 := outb ATA_PRIMARY_LBA_MID 0 h4 in
    let h6 := outb ATA_PRIMARY_LBA_HIGH 0 h5 in
    let h7 := ata_io_delay (outb ATA_PRIMARY_COMMAND 0xEC h6) in
    let '(status1, h8) := inb ATA_PRIMARY_STATUS h7 in
    if status1 =? 0 then mk_ata false h8
    else
      let '(ok, h9) := ata_wait_not_busy h8 in
      if negb ok then mk_ata false h9
      else
        let '(status2, h10) := inb ATA_PRIMARY_STATUS h9 in
        if negb (Z.land status2 (Z.lor ATA_STATUS_ERR ATA_STATUS_DF) =? 0) then mk_ata false h10
        else mk_ata true (if negb (Z.land status2 ATA_STATUS_DRQ =? 0) then (read_words 256 h10).2 else h10).

(** The register writes that select sector [lba] and start a command. *)
Definition start_command (lba cmd : Z) (h : H) : H :=
  let h1 := outb ATA_PRIMARY_DRIVE (Z.lor 0xE0 (Z.land (Z.shiftr lba 24) 0x0F)) h in
  let h2 := outb ATA_PRIMARY_SECCOUNT 1 h1 in
  let h3 := outb ATA_PRIMARY_LBA_LOW (u8 lba) h2 in
  let h4 := outb ATA_PRIMARY_LBA_MID (u8 (Z.shiftr lba 8)) h3 in
  let h5 := outb ATA_PRIMARY_LBA_HIGH (u8 (Z.shiftr lba 16)) h4 in
  outb ATA_PRIMARY_COMMAND cmd h5.

(** The 16-bit words of a buffer, and back. *)
Fixpoint words (b : list Z) : list Z :=
  match b with
  | x :: y :: r => x + 256 * y :: words r
  | _ => []
  end.

Fixpoint unwords (ws : list Z) : list Z :=
  match ws with
  | [] => []
  | w :: r => w mod 256 :: w / 256 :: unwords r
  end.

(** The buffer holds 512 bytes. *)
Definition read_sector (lba : Z) (buffer : list Z) (s : ata) : bool * list Z * ata :=
  if negb (ata_present s) then (false, buffer, s)
  else
    let '(ok, h1) := ata_wait_not_busy (hw s) in
    if negb ok then (false, buffer, mk_ata true h1)
    else
      let h2 := start_command lba 0x20 h1 in
      let '(ok2, h3) := ata_wait_drq h2 in
      if negb ok2 then (false, buffer, mk_ata true h3)
      else let '(ws, h4) := read_words 256 h3 in (true, unwords ws, mk_ata true h4).

Definition write_sector (lba : Z) (buffer : list Z) (s : ata) : bool * ata :=
  if negb (ata_present s) then (false, s)
  else
    let '(ok, h1) := ata_wait_not_busy (hw s) in
    if negb ok then (false, mk_ata true h1)
    else
      let h2 := start_command lba 0x30 h1 in
      let '(ok2, h3) := ata_wait_drq h2 in
      if negb ok2 then (false, mk_ata true h3)
      else
        let h4 := write_words (words buffer) h3 in
        let h5 := outb ATA_PRIMARY_COMMAND 0xE7 h4 in
        (true, mk_ata true (ata_wait_not_busy h5).2).

#[export] Instance ata_device : BlockDevice ata := {
  ata_is_available := ata_present;
  ata_read_sector := read_sector;
  ata_write_sector := write_sector
}.

(** ** The drive *)

Inductive ata_phase := Idle | Sending (ws : list Z) | Receiving (lba : Z) (ws : list Z).

(** The registers, the stored sectors as words, and the phase. *)
Record drive := mk_drive {
  media : Z -> list Z;
  r_drive : Z;
  r_count : Z;
  r_low : Z;
  r_mid : Z;
  r_high : Z;
  phase : ata_phase
}.

Definition with_phase (p : ata_phase) (v : drive) : drive :=
  mk_drive (media v) (r_drive v) (r_count v) (r_low v) (r_mid v) (r_high v) p.

(** Bits 0-3 of the drive register are bits 24-27 of the address. *)
Definition lba28 (v : drive) : Z := r_low v + 2 ^ 8 * r_mid v + 2 ^ 16 * r_high v + 2 ^ 24 * (r_drive v mod 16).

Definition set_reg (port x : Z) (v : drive) : drive :=
  if port =? ATA_PRIMARY_SECCOUNT then mk_drive (media v) (r_drive v) x (r_low v) (r_mid v) (r_high v) (phase v)
  else if port =? ATA_PRIMARY_LBA_LOW then mk_drive (media v) (r_drive v) (r_count v) x (r_mid v) (r_high v) (phase v)
  else if port =? ATA_PRIMARY_LBA_MID then mk_drive (media v) (r_drive v) (r_count v) (r_low v) x (r_high v) (phase v)
  else if port =? ATA_PRIMARY_LBA_HIGH then mk_drive (media v) (r_drive v) (r_count v) (r_low v) (r_mid v) x (phase v)
  else mk_drive (media v) x (r_count v) (r_low v) (r_mid v) (r_high v) (phase v).

Definition reg_ports : list Z :=
  [ATA_PRIMARY_SECCOUNT; ATA_PRIMARY_LBA_LOW; ATA_PRIMARY_LBA_MID; ATA_PRIMARY_LBA_HIGH; ATA_PRIMARY_DRIVE].

(** After one more word of a sector has been received. *)
Definition receive (lba : Z) (ws : list Z) (v : drive) : drive :=
  if (length ws =? 256)%nat
  then mk_drive (fun x => if x =? lba then ws else media v x) (r_drive v) (r_count v) (r_low v) (r_mid v) (r_high v) Idle
  else with_phase (Receiving lba ws) v.

(** What the driver relies on.  A drive is busy for [busy] more polls of the status
    register, fewer than the driver waits for, and then ready; while it is busy the
    specification fixes only the BSY bit; an idle drive takes
    register writes; the read command offers the 256 words of the addressed sector
    if the drive has it; the write command takes 256 words and stores them; the
    flush command changes nothing that is visible. *)
Class AtaDrive := {
  view : H -> drive;
  busy : H -> nat;
  capacity : Z;
  capacity_range : 0 <= capacity <= 2 ^ 28;
  status_busy : forall h n, busy h = S n -> exists st h', inb ATA_PRIMARY_STATUS h = (st, h') /\ view h' = view h /\ busy h' = n /\
    Z.land st ATA_STATUS_BSY <> 0;
  status_ready : forall h, busy h = 0%nat -> exists st h', inb ATA_PRIMARY_STATUS h = (st, h') /\ view h' = view h /\ busy h' = 0%nat /\
    Z.land st ATA_STATUS_BSY = 0 /\ (Z.land st ATA_STATUS_DRQ = 0 <-> phase (view h) = Idle);
  out_reg : forall h port x, busy h = 0%nat -> phase (view h) = Idle -> port ∈ reg_ports ->
    view (outb port x h) = set_reg port x (view h) /\ busy (outb port x h) = 0%nat;
  start_read : forall h, busy h = 0%nat -> phase (view h) = Idle -> r_count (view h) = 1 ->
    let h' := outb ATA_PRIMARY_COMMAND 0x20 h in (Z.of_nat (busy h') < POLLS) /\
    view h' = if lba28 (view h) <? capacity then with_phase (Sending (media (view h) (lba28 (view h)))) (view h) else view h;
  send_word : forall h w ws, busy h = 0%nat -> phase (view h) = Sending (w :: ws) ->
    exists h', inw ATA_PRIMARY_DATA h = (w, h') /\ view h' = with_phase (match ws with [] => Idle | _ => Sending ws end) (view h) /\ busy h' = 0%nat;
  start_write : forall h, busy h = 0%nat -> phase (view h) = Idle -> r_count (view h) = 1 ->
    let h' := outb ATA_PRIMARY_COMMAND 0x30 h in (Z.of_nat (busy h') < POLLS) /\
    view h' = if lba28 (view h) <? capacity then with_phase (Receiving (lba28 (view h)) []) (view h) else view h;
  receive_word : forall h lba ws w, busy h = 0%nat -> phase (view h) = Receiving lba ws ->
    let h' := outw ATA_PRIMARY_DATA w h in view h' = receive lba (ws ++ [w]) (view h) /\ (phase (view h') <> Idle -> busy h' = 0%nat);
  flush : forall h, phase (view h) = Idle ->
    let h' := outb ATA_PRIMARY_COMMAND 0xE7 h in view h' = view h /\ (Z.of_nat (busy h') < POLLS)
}.

Context `{AD : AtaDrive}.

(** [ata_wait_drq] never tests BSY, so the driver needs more than the protocol
    promises: that the other bits it tests read as zero while the drive is busy. *)
Definition busy_clear : Prop :=
  forall h n, busy h = S n -> let st := (inb ATA_PRIMARY_STATUS h).1 in
    Z.land st ATA_STATUS_DRQ = 0 /\ Z.land st (Z.lor ATA_STATUS_ERR ATA_STATUS_DF) = 0.

(** ** Lemmas *)

Lemma words_unwords ws : words (unwords ws) = ws.
Proof. induction ws as [|w r IH]; cbn [unwords words]; [done|]. rewrite IH. f_equal. pose proof (Z.div_mod w 256 ltac:(lia)). lia. Qed.

Lemma unwords_words n b : length b = (2 * n)%nat -> bytes_ok b -> unwords (words b) = b /\ length (words b) = n.
Proof.
  revert b. induction n as [|n IH]; intros b Hl Hb; [by destruct b|].
  destruct b as [|x [|y r]]; cbn in Hl; [lia|lia|]. apply Forall_cons in Hb as [Hx Hb]. apply Forall_cons in Hb as [Hy Hb].
  destruct (IH r ltac:(lia) Hb) as [H1 H2]. cbn [words unwords length]. rewrite H1, H2. split; [|done].
  rewrite (Z.mul_comm 256 y), Z.mod_add, Z.div_add by lia. rewrite (Z.mod_small x), (Z.div_small x) by lia. done.
Qed.

Lemma words_range b : bytes_ok b -> Forall (fun w => 0 <= w < 2 ^ 16) (words b).
Proof.
  enough (forall n b, (length b <= n)%nat -> bytes_ok b -> Forall (fun w => 0 <= w < 2 ^ 16) (words b)) as Hall by (intros Hb; by apply (Hall (length b))).
  clear b. induction n as [|n IH]; intros b Hl Hb; [destruct b; [constructor|cbn in Hl; lia]|]. destruct b as [|x [|y r]]; cbn [words]; [constructor..|].
  apply Forall_cons in Hb as [Hx Hb]. apply Forall_cons in Hb as [Hy Hb]. constructor; [lia|]. apply IH; [cbn in Hl; lia|done].
Qed.

Lemma unwords_ok ws : Forall (fun w => 0 <= w < 2 ^ 16) ws -> bytes_ok (unwords ws) /\ zlen (unwords ws) = 2 * zlen ws.
Proof.
  induction 1 as [|w r Hw _ [IH1 IH2]]; [by split; [constructor|]|]. cbn [unwords]. split.
  - constructor; [apply Z.mod_pos_bound; lia|]. constructor; [|done]. split; [apply Z.div_pos; lia|apply Z.div_lt_upper_bound; lia].
  - unfold zlen in *. cbn [length]. lia.
Qed.

Lemma wait_not_busy_ok n h : (busy h < n)%nat -> exists h', wait_not_busy n h = (true, h') /\ view h' = view h /\ busy h' = 0%nat.
Proof.
  revert h. induction n as [|n IH]; intros h Hb; [lia|]. cbn [wait_not_busy]. destruct (busy h) as [|k] eqn:E.
  - destruct (status_ready h E) as (st & h' & -> & Hv & Hb' & -> & _). by exists h'.
  - destruct (status_busy h k E) as (st & h' & -> & Hv & Hb' & Hne). apply Z.eqb_neq in Hne. rewrite Hne.
    destruct (IH h' ltac:(lia)) as (h'' & -> & Hv' & Hb''). exists h''. by rewrite Hv'.
Qed.

(** One poll of a busy drive by [ata_wait_drq]. *)
Lemma wait_drq_busy n h k :
  busy_clear -> busy h = S k -> exists h', wait_drq (S n) h = wait_drq n h' /\ view h' = view h /\ busy h' = k.
Proof.
  intros Hc E. destruct (Hc h k E) as [Hd He]. destruct (status_busy h k E) as (st & h' & Hin & Hv & Hb & _).
  rewrite Hin in Hd, He. cbn [fst] in Hd, He. cbn [wait_drq]. rewrite Hin, Hd, He. by exists h'.
Qed.

Lemma wait_drq_data n h :
  busy_clear -> (busy h < n)%nat -> phase (view h) <> Idle -> exists h', wait_drq n h = (true, h') /\ view h' = view h /\ busy h' = 0%nat.
Proof.
  intros Hclear. revert h. induction n as [|n IH]; intros h Hb Hp; [lia|]. destruct (busy h) as [|k] eqn:E.
  - cbn [wait_drq]. destruct (status_ready h E) as (st & h' & -> & Hv & Hb' & _ & Hd). destruct (Z.eqb_spec (Z.land st ATA_STATUS_DRQ) 0) as [Hz|Hz]; [by apply Hd in Hz|].
    by exists h'.
  - destruct (wait_drq_busy n h k Hclear E) as (h' & -> & Hv & Hb').
    destruct (IH h' ltac:(lia)) as (h'' & -> & Hv' & Hb''); [by rewrite Hv|]. exists h''. by rewrite Hv'.
Qed.

Lemma wait_drq_idle n h :
  busy_clear -> phase (view h) = Idle -> exists h', wait_drq n h = (false, h') /\ view h' = view h /\ (busy h' <= busy h)%nat.
Proof.
  intros Hclear. revert h. induction n as [|n IH]; intros h Hp; [by exists h|]. destruct (busy h) as [|k] eqn:E.
  - cbn [wait_drq]. destruct (status_ready h E) as (st & h' & -> & Hv & Hb' & _ & Hd). rewrite (proj2 Hd Hp). cbn [Z.eqb negb].
    destruct (negb _); [exists h'; by rewrite Hb'|]. destruct (IH h') as (h'' & -> & Hv' & Hb''); [by rewrite Hv|]. exists h''. rewrite Hv'. split_and!; [done|done|lia].
  - destruct (wait_drq_busy n h k Hclear E) as (h' & -> & Hv & Hb').
    destruct (IH h') as (h'' & -> & Hv' & Hb''); [by rewrite Hv|]. exists h''. rewrite Hv'. split_and!; [done|done|lia].
Qed.

Lemma read_words_ok ws h :
  busy h = 0%nat -> phase (view h) = Sending ws -> ws <> [] ->
  exists h', read_words (length ws) h = (ws, h') /\ view h' = with_phase Idle (view h) /\ busy h' = 0%nat.
Proof.
  revert h. induction ws as [|w r IH]; intros h Hb Hp Hne; [done|]. cbn [length read_words].
  destruct (send_word h w r Hb Hp) as (h1 & -> & Hv & Hb1). destruct r as [|w' r]; [exists h1; by rewrite Hv|].
  destruct (IH h1) as (h' & -> & Hv' & Hb'); [done|by rewrite Hv|done|]. exists h'. rewrite Hv', Hv. done.
Qed.

Lemma write_words_ok lba got ws h :
  busy h = 0%nat -> phase (view h) = Receiving lba got -> (length got + length ws = 256)%nat -> ws <> [] ->
  view (write_words ws h) = receive lba (got ++ ws) (view h).
Proof.
  revert got h. induction ws as [|w r IH]; intros got h Hb Hp Hl Hne; [done|]. cbn [write_words]. cbn in Hl.
  destruct (receive_word h lba got w Hb Hp) as [Hv Hb1]. destruct r as [|w' r]; [exact Hv|].
  assert (receive lba (got ++ [w]) (view h) = with_phase (Receiving lba (got ++ [w])) (view h)) as Hrec.
  { unfold receive. rewrite length_app. cbn in *. destruct (Nat.eqb_spec (length got + 1) 256); [lia|done]. }
  rewrite Hrec in Hv. rewrite (IH (got ++ [w])); [|apply Hb1; by rewrite Hv|by rewrite Hv|rewrite length_app; cbn in *; lia|done].
  rewrite Hv, <- app_assoc. cbn [app]. unfold receive. destruct (_ =? 256)%nat; done.
Qed.

(** The address the registers get: the low 28 bits. *)
Lemma lba_bits lba :
  u8 lba + 2 ^ 8 * u8 (Z.shiftr lba 8) + 2 ^ 16 * u8 (Z.shiftr lba 16) + 2 ^ 24 * (Z.lor 0xE0 (Z.land (Z.shiftr lba 24) 0x0F) mod 16) = lba mod 2 ^ 28.
Proof.
  assert (Z.lor 0xE0 (Z.land (Z.shiftr lba 24) 0x0F) mod 16 = Z.shiftr lba 24 mod 16) as ->.
  { change 16 with (2 ^ 4). rewrite <- !Z.land_ones by lia. rewrite Z.land_lor_distr_l. change (Z.land 0xE0 (Z.ones 4)) with 0. rewrite Z.lor_0_l, <- Z.land_assoc. done. }
  unfold u8. rewrite !Z.shiftr_div_pow2 by lia.
  pose proof (Z.rem_mul_r lba (2 ^ 8) (2 ^ 20) ltac:(lia) ltac:(lia)) as E1. change (2 ^ 8 * 2 ^ 20) with (2 ^ 28) in E1.
  pose proof (Z.rem_mul_r (lba / 2 ^ 8) (2 ^ 8) (2 ^ 12) ltac:(lia) ltac:(lia)) as E2. change (2 ^ 8 * 2 ^ 12) with (2 ^ 20) in E2.
  pose proof (Z.rem_mul_r (lba / 2 ^ 16) (2 ^ 8) (2 ^ 4) ltac:(lia) ltac:(lia)) as E3. change (2 ^ 8 * 2 ^ 4) with (2 ^ 12) in E3.
  rewrite Z.div_div in E2, E3 by lia. change (2 ^ 8 * 2 ^ 8) with (2 ^ 16) in E2. change (2 ^ 16 * 2 ^ 8) with (2 ^ 24) in E3.
  change (2 ^ 4) with 16 in E3. rewrite E1, E2, E3. ring.
Qed.

(** The registers after the writes before the command. *)
Lemma start_command_regs lba cmd h :
  busy h = 0%nat -> phase (view h) = Idle ->
  exists h', start_command lba cmd h = outb ATA_PRIMARY_COMMAND cmd h' /\ busy h' = 0%nat /\ phase (view h') = Idle /\ r_count (view h') = 1 /\
    lba28 (view h') = lba mod 2 ^ 28 /\ forall x, media (view h') x = media (view h) x.
Proof.
  intros Hb Hp. unfold start_command. eexists. split; [done|].
  destruct (out_reg h ATA_PRIMARY_DRIVE (Z.lor 0xE0 (Z.land (Z.shiftr lba 24) 0x0F)) Hb Hp) as [V1 B1]; [set_solver|].
  set (h1 := outb ATA_PRIMARY_DRIVE _ h) in *.
  destruct (out_reg h1 ATA_PRIMARY_SECCOUNT 1 B1) as [V2 B2]; [by rewrite V1|set_solver|]. set (h2 := outb ATA_PRIMARY_SECCOUNT 1 h1) in *.
  destruct (out_reg h2 ATA_PRIMARY_LBA_LOW (u8 lba) B2) as [V3 B3]; [by rewrite V2, V1|set_solver|]. set (h3 := outb ATA_PRIMARY_LBA_LOW _ h2) in *.
  destruct (out_reg h3 ATA_PRIMARY_LBA_MID (u8 (Z.shiftr lba 8)) B3) as [V4 B4]; [by rewrite V3, V2, V1|set_solver|]. set (h4 := outb ATA_PRIMARY_LBA_MID _ h3) in *.
  destruct (out_reg h4 ATA_PRIMARY_LBA_HIGH (u8 (Z.shiftr lba 16)) B4) as [V5 B5]; [by rewrite V4, V3, V2, V1|set_solver|].
  rewrite V5, V4, V3, V2, V1. split_and!; [done|done|done| |done]. by rewrite <- lba_bits.
Qed.

(** A sector's worth of words. *)
Definition words_ok (ws : list Z) : Prop := length ws = 256%nat /\ Forall (fun w => 0 <= w < 2 ^ 16) ws.

(** Between two operations. *)
Definition ata_ready (s : ata) : Prop :=
  ata_present s = true /\ phase (view (hw s)) = Idle /\ Z.of_nat (busy (hw s)) < POLLS /\
  forall x, 0 <= x < capacity -> words_ok (media (view (hw s)) x).

Definition sector (s : ata) (x : Z) : list Z := unwords (media (view (hw s)) x).

Lemma polls n : Z.of_nat n < POLLS -> (n < Z.to_nat POLLS)%nat.
Proof. unfold POLLS. lia. Qed.

Lemma read_sector_ok lba buf s :
  busy_clear -> ata_ready s ->
  exists s', read_sector lba buf s = (lba mod 2 ^ 28 <? capacity, if lba mod 2 ^ 28 <? capacity then sector s (lba mod 2 ^ 28) else buf, s') /\
    ata_ready s' /\ forall x, sector s' x = sector s x.
Proof.
  intros Hclear (Hp & Hi & Hb & Hmw). unfold read_sector. rewrite Hp. cbn [negb]. unfold ata_wait_not_busy.
  destruct (wait_not_busy_ok (Z.to_nat POLLS) (hw s) (polls _ Hb)) as (h1 & -> & Hv1 & Hb1). cbn [negb].
  destruct (start_command_regs lba 0x20 h1 Hb1) as (h2 & -> & Hb2 & Hi2 & Hc2 & Ha2 & Hm2); [by rewrite Hv1|].
  destruct (start_read h2 Hb2 Hi2 Hc2) as [Hb3 Hv3]. rewrite Ha2 in Hv3. unfold ata_wait_drq.
  set (h3 := outb ATA_PRIMARY_COMMAND 0x20 h2) in *. pose proof (Z.mod_pos_bound lba (2 ^ 28) ltac:(lia)) as Hr.
  destruct (Z.ltb_spec (lba mod 2 ^ 28) capacity) as [Hlt|Hge].
  - destruct (wait_drq_data (Z.to_nat POLLS) h3 Hclear (polls _ Hb3)) as (h4 & -> & Hv4 & Hb4); [by rewrite Hv3|]. cbn [negb].
    destruct (Hmw (lba mod 2 ^ 28)) as [Hlen _]; [lia|]. rewrite <- Hv1, <- Hm2 in Hlen.
    destruct (read_words_ok (media (view h2) (lba mod 2 ^ 28)) h4 Hb4) as (h5 & Hrw & Hv5 & Hb5); [by rewrite Hv4, Hv3|by intros E; rewrite E in Hlen|].
    rewrite Hlen in Hrw. rewrite Hrw. eexists. split; [unfold sector; by rewrite Hm2, Hv1|].
    unfold sector, ata_ready. cbn. rewrite Hv5, Hv4, Hv3, Hb5. cbn. split; [split_and!; [done|done|done|intros x; rewrite Hm2, Hv1; apply Hmw]|]. intros x. by rewrite Hm2, Hv1.
  - destruct (wait_drq_idle (Z.to_nat POLLS) h3 Hclear) as (h4 & -> & Hv4 & Hb4); [by rewrite Hv3|]. cbn [negb].
    eexists. split; [done|]. unfold sector, ata_ready. cbn. rewrite Hv4, Hv3. split; [split_and!; [done|done|lia|intros x; rewrite Hm2, Hv1; apply Hmw]|]. intros x. by rewrite Hm2, Hv1.
Qed.

Lemma write_sector_ok lba buf s :
  busy_clear -> ata_ready s -> sector_ok buf ->
  exists s', write_sector lba buf s = (lba mod 2 ^ 28 <? capacity, s') /\ ata_ready s' /\
    forall x, sector s' x = if (lba mod 2 ^ 28 <? capacity) && (x =? lba mod 2 ^ 28) then buf else sector s x.
Proof.
  intros Hclear (Hp & Hi & Hb & Hmw) [Hlen Hbytes]. destruct (unwords_words 256 buf) as [Huw Hwl]; [unfold zlen, SECTOR in Hlen; lia|done|].
  unfold write_sector. rewrite Hp. cbn [negb]. unfold ata_wait_not_busy at 1.
  destruct (wait_not_busy_ok (Z.to_nat POLLS) (hw s) (polls _ Hb)) as (h1 & -> & Hv1 & Hb1). cbn [negb].
  destruct (start_command_regs lba 0x30 h1 Hb1) as (h2 & -> & Hb2 & Hi2 & Hc2 & Ha2 & Hm2); [by rewrite Hv1|].
  destruct (start_write h2 Hb2 Hi2 Hc2) as [Hb3 Hv3]. rewrite Ha2 in Hv3. unfold ata_wait_drq.
  set (h3 := outb ATA_PRIMARY_COMMAND 0x30 h2) in *. destruct (Z.ltb_spec (lba mod 2 ^ 28) capacity) as [Hlt|Hge].
  - destruct (wait_drq_data (Z.to_nat POLLS) h3 Hclear (polls _ Hb3)) as (h4 & -> & Hv4 & Hb4); [by rewrite Hv3|]. cbn [negb].
    pose proof (write_words_ok (lba mod 2 ^ 28) [] (words buf) h4 Hb4) as Hw. rewrite Hv4, Hv3 in Hw.
    specialize (Hw eq_refl). cbn [app length] in Hw. rewrite Hwl in Hw. specialize (Hw eq_refl). assert (words buf <> []) as Hne by (intros E; by rewrite E in Hwl). specialize (Hw Hne).
    unfold receive in Hw. rewrite Hwl in Hw. cbn [Nat.eqb] in Hw. set (h5 := write_words (words buf) h4) in *.
    destruct (flush h5) as [Hv6 Hb6]; [by rewrite Hw|]. set (h6 := outb ATA_PRIMARY_COMMAND 0xE7 h5) in *.
    destruct (wait_not_busy_ok (Z.to_nat POLLS) h6 (polls _ Hb6)) as (h7 & Hwait & Hv7 & Hb7). unfold ata_wait_not_busy. rewrite Hwait.
    eexists. split; [done|]. unfold sector, ata_ready. cbn. rewrite Hv7, Hv6, Hw, Hb7. cbn.
    split; [split_and!; [done|done|done|intros x Hx; destruct (x =? lba mod 2 ^ 28); [by split; [|apply words_range]|rewrite Hm2, Hv1; by apply Hmw]]|].
    intros x. destruct (x =? lba mod 2 ^ 28); [done|]. by rewrite Hm2, Hv1.
  - destruct (wait_drq_idle (Z.to_nat POLLS) h3 Hclear) as (h4 & -> & Hv4 & Hb4); [by rewrite Hv3|]. cbn [negb].
    eexists. split; [done|]. unfold sector, ata_ready. cbn. rewrite Hv4, Hv3. split; [split_and!; [done|done|lia|intros x; rewrite Hm2, Hv1; apply Hmw]|]. intros x. by rewrite Hm2, Hv1.
Qed.


(** The laws of a block device hold for the driver. *)
#[refine] Definition ata_laws (Hclear : busy_clear) : BlockDeviceLaws ata := {|
  bd_limit := capacity;
  bd_ready := ata_ready;
  disk := sector
|}.
Proof.
  - pose proof capacity_range. lia.
  - intros s x (_ & _ & _ & Hm) Hx. destruct (Hm x Hx) as [Hl Hw]. destruct (unwords_ok _ Hw) as [Hb Hz]. split; [|done].
    unfold sector. rewrite Hz. unfold zlen. by rewrite Hl.
  - intros s lba buf Hr Hx _. pose proof capacity_range. destruct (read_sector_ok lba buf s Hclear Hr) as (s' & Hrd & Hr' & Hs').
    rewrite Z.mod_small in Hrd by lia. destruct (Z.ltb_spec lba capacity); [|lia]. by exists s'.
  - intros s lba buf ok buf' s' Hr Hrd. destruct (read_sector_ok lba buf s Hclear Hr) as (s'' & Hrd' & Hr' & Hs'). cbn in Hrd. rewrite Hrd' in Hrd. by simplify_eq.
  - intros s lba buf Hr Hx Hb. pose proof capacity_range. destruct (write_sector_ok lba buf s Hclear Hr Hb) as (s' & Hwr & Hr' & Hs').
    rewrite Z.mod_small in Hwr, Hs' by lia. destruct (Z.ltb_spec lba capacity); [|lia]. by exists s'.
Defined.
End driver.

(** ** Example: a drive with four sectors, busy for two polls after a command *)

Record sim := mk_sim { sim_drive : drive; sim_busy : nat }.

Definition sim_command (cmd : Z) (h : sim) : sim :=
  let v := sim_drive h in
  if cmd =? 0x20 then mk_sim (if lba28 v <? 4 then with_phase (Sending (media v (lba28 v))) v else v) 2
  else if cmd =? 0x30 then mk_sim (if lba28 v <? 4 then with_phase (Receiving (lba28 v) []) v else v) 2
  else mk_sim v 2.

(** A busy drive shows the status [st] and has no data. *)
Definition sim_ports (st : Z) : PortIO sim := {|
  inb := fun _ h => match sim_busy h with
                    | S n => (st, mk_sim (sim_drive h) n)
                    | O => (match phase (sim_drive h) with Idle => 0x40 | _ => 0x48 end, h)
                    end;
  outb := fun port x h => if port =? ATA_PRIMARY_COMMAND then sim_command x h else mk_sim (set_reg port x (sim_drive h)) (sim_busy h);
  inw := fun _ h => match sim_busy h, phase (sim_drive h) with
                    | O, Sending (w :: ws) => (w, mk_sim (with_phase (match ws with [] => Idle | _ => Sending ws end) (sim_drive h)) O)
                    | _, _ => (0, h)
                    end;
  outw := fun _ w h => match phase (sim_drive h) with
                       | Receiving lba ws => mk_sim (receive lba (ws ++ [w]) (sim_drive h)) (sim_busy h)
                       | _ => h
                       end
|}.

Definition sim_ata (st : Z) (Hst : Z.land st ATA_STATUS_BSY <> 0) : @AtaDrive sim (sim_ports st).
Proof.
  refine {| view := sim_drive; busy := sim_busy; capacity := 4 |}.
  - lia.
  - intros h n E. cbn. rewrite E. by eexists _, _.
  - intros h E. cbn. rewrite E. eexists _, h. split; [done|]. by destruct (phase (sim_drive h)).
  - intros h port x Hb Hp Hport. assert (port =? ATA_PRIMARY_COMMAND = false) as Hne.
    { apply Z.eqb_neq. intros ->. unfold reg_ports in Hport. set_solver. }
    cbn. by rewrite Hne.
  - intros h Hb Hp Hc. cbn. split; [done|]. by destruct (lba28 (sim_drive h) <? 4).
  - intros h w ws Hb Hp. cbn. rewrite Hb, Hp. by eexists.
  - intros h Hb Hp Hc. cbn. split; [done|]. by destruct (lba28 (sim_drive h) <? 4).
  - intros h lba ws w Hb Hp. cbn. by rewrite Hp.
  - intros h Hp. cbn. done.
Defined.

Definition sim_disk : ata (H := sim) := mk_ata true (mk_sim (mk_drive (fun x => replicate 256 x) 0xA0 0 0 0 0 Idle) 1).

(** A drive that shows BSY and DRQ together while it is busy follows the protocol,
    but the driver takes its data before they are there: the read succeeds with
    zeros for a sector that holds twos. *)
Lemma busy_drq_misread :
  let P := sim_ports (Z.lor ATA_STATUS_BSY ATA_STATUS_DRQ) in
  inhabited (@AtaDrive sim P) /\ (@read_sector sim P 2 [] sim_disk).1 = (true, replicate 512 0) /\
  unwords (media (sim_drive (hw sim_disk)) 2) <> replicate 512 0.
Proof. split; [constructor; by apply sim_ata|]. split; [vm_compute; reflexivity|vm_compute; discriminate]. Qed.

(** The drive of the witness is ready between commands and busy with DRDY set. *)
#[export] Instance ex_ports : PortIO sim := sim_ports 0xC0.
#[export] Instance ex_ata : AtaDrive := sim_ata 0xC0 ltac:(discriminate).

End Ata.
