(* ===== verification/Virtio.v ===== *)
(** * VirtIO block driver (kernel/core/virtio.c)

    The driver of ARM and RISC-V machines, with the interface of include/ata.h:
    probing of the MMIO transports, legacy and modern initialisation, and requests
    through a queue in memory that the device reads and writes.  The class [Machine]
    stands for the memory, the registers and the passing of time; the class
    [VirtioBlk] states what the driver relies on of the device, as the VirtIO
    specification documents it, and that it serves every request some time.  For
    such a device, if it offers no feature that changes how requests are passed and
    serves reads before the driver gives up, the driver is a block device in the
    sense of BlockDev.v, so what is shown of FAT32 holds there too.  Console and
    log messages are left out; memory barriers do nothing here, as every access is
    in program order. *)

From stdpp Require Import base tactics numbers option list sets.
From S2P Require Import Prelude CMem BlockDev.

Module Virtio.

(** ** Model *)

Definition REG_MAGIC : Z := 0x000.
Definition REG_VERSION : Z := 0x04.
Definition REG_DEVICE_ID : Z := 0x008.
Definition REG_DEVICE_FEAT : Z := 0x010.
Definition REG_GUEST_FEAT : Z := 0x020.
Definition REG_QUEUE_SEL : Z := 0x030.
Definition REG_QUEUE_NUM_MAX : Z := 0x034.
Definition REG_QUEUE_NUM : Z := 0x038.
Definition REG_QUEUE_READY : Z := 0x044.
Definition REG_QUEUE_NOTIFY : Z := 0x050.
Definition REG_STATUS : Z := 0x070.
Definition REG_DESC_LOW : Z := 0x080.
Definition REG_DESC_HIGH : Z := 0x084.
Definition REG_AVAIL_LOW : Z := 0x090.
Definition REG_AVAIL_HIGH : Z := 0x094.
Definition REG_USED_LOW : Z := 0x0a0.
Definition REG_USED_HIGH : Z := 0x0a4.
Definition VIRTIO_MAGIC : Z := 0x74726976.
Definition DEVICE_TYPE_BLOCK : Z := 2.
Definition VRING_DESC_F_NEXT : Z := 1.
Definition VRING_DESC_F_WRITE : Z := 2.
Definition VIRTIO_BLK_T_IN : Z := 0.
Definition VIRTIO_BLK_T_OUT : Z := 1.

(** Memory, registers by address, and one turn of a waiting loop.  The registers the
    driver reads have no side effects. *)
Class Machine (H : Type) := {
  ram : H -> mem;
  set_ram : mem -> H -> H;
  mmio_rd : Z -> H -> Z;
  mmio_wr : Z -> Z -> H -> H;
  cpu_pause : H -> H
}.

Section driver.
Context {H : Type} `{Machine H}.
(** ARM or RISC-V; the addresses of the static objects. *)
Context (aarch64 : bool) (vq_space req blk_status : Z).

Definition VIRTIO_MMIO_BASE : Z := if aarch64 then 0x0a000000 else 0x10001000.
Definition VIRTIO_MMIO_STEP : Z := if aarch64 then 0x200 else 0x1000.
Definition probe_count : nat := if aarch64 then 32 else 8.

Record virtio := mk_virtio {
  mmio_base : Z;
  virtio_present : bool;
  desc : Z;
  avail : Z;
  used : Z;
  last_used_idx : Z;
  hw : H
}.

Definition with_hw (h : H) (s : virtio) : virtio :=
  mk_virtio (mmio_base s) (virtio_present s) (desc s) (avail s) (used s) (last_used_idx s) h.
Definition set_present (b : bool) (s : virtio) : virtio :=
  mk_virtio (mmio_base s) b (desc s) (avail s) (used s) (last_used_idx s) (hw s).
Definition set_rings (s : virtio) : virtio :=
  mk_virtio (mmio_base s) (virtio_present s) vq_space (vq_space + 16 * 16) (vq_space + 4096) (last_used_idx s) (hw s).

Definition mmio_read (reg : Z) (s : virtio) : Z := mmio_rd (mmio_base s + reg) (hw s).
Definition mmio_write (reg val : Z) (s : virtio) : virtio := with_hw (mmio_wr (mmio_base s + reg) val (hw s)) s.

(** *** Initialisation *)

Fixpoint probe (n : nat) (i : Z) (s : virtio) : virtio :=
  match n with
  | O => s
  | S k =>
      let base := VIRTIO_MMIO_BASE + i * VIRTIO_MMIO_STEP in
      let found := (mmio_rd (base + REG_MAGIC) (hw s) =? VIRTIO_MAGIC) &&
                   (mmio_rd (base + REG_DEVICE_ID) (hw s) =? DEVICE_TYPE_BLOCK) && negb (virtio_present s) in
      probe k (i + 1) (if found then mk_virtio base true (desc s) (avail s) (used s) (last_used_idx s) (hw s) else s)
  end.

Definition init_legacy (s : virtio) : virtio :=
  let s1 := mmio_write REG_GUEST_FEAT (mmio_read REG_DEVICE_FEAT s) s in
  let s2 := mmio_write 0x28 4096 s1 in
  let s3 := mmio_write REG_QUEUE_SEL 0 s2 in
  if mmio_read REG_QUEUE_NUM_MAX s3 <? 16 then set_present false s3
  else
    let s4 := set_rings s3 in
    let s5 := mmio_write REG_QUEUE_NUM 16 s4 in
    let s6 := mmio_write 0x3c 4096 s5 in
    let s7 := mmio_write 0x40 (u32 (Z.shiftr vq_space 12)) s6 in
    mmio_write REG_STATUS 7 s7.

Definition init_modern (s : virtio) : virtio :=
  let s1 := mmio_write 0x14 0 s in
  let host_lo := mmio_read REG_DEVICE_FEAT s1 in
  let s2 := mmio_write REG_GUEST_FEAT host_lo (mmio_write 0x24 0 s1) in
  let s3 := mmio_write 0x14 1 s2 in
  let host_hi := mmio_read REG_DEVICE_FEAT s3 in
  let s4 := mmio_write REG_GUEST_FEAT host_hi (mmio_write 0x24 1 s3) in
  let s5 := mmio_write REG_STATUS 0x0B s4 in
  if Z.land (mmio_read REG_STATUS s5) 0x08 =? 0 then set_present false s5
  else
    let s6 := mmio_write REG_QUEUE_SEL 0 s5 in
    if mmio_read REG_QUEUE_NUM_MAX s6 <? 16 then set_present false s6
    else
      let s7 := mmio_write REG_QUEUE_NUM 16 (set_rings s6) in
      let s8 := mmio_write REG_DESC_HIGH (u32 (Z.shiftr (desc s7) 32)) (mmio_write REG_DESC_LOW (u32 (desc s7)) s7) in
      let s9 := mmio_write REG_AVAIL_HIGH (u32 (Z.shiftr (avail s8) 32)) (mmio_write REG_AVAIL_LOW (u32 (avail s8)) s8) in
      let s10 := mmio_write REG_USED_HIGH (u32 (Z.shiftr (used s9) 32)) (mmio_write REG_USED_LOW (u32 (used s9)) s9) in
      let s11 := mmio_write REG_QUEUE_READY 1 s10 in
      mmio_write REG_STATUS 0x0F s11.

Definition ata_init (s : virtio) : virtio :=
  let s1 := probe probe_count 0 s in
  if negb (virtio_present s1) then s1
  else
    let s2 := mmio_write REG_STATUS 0 s1 in
    let s3 := mmio_write REG_STATUS 1 s2 in
    let s4 := mmio_write REG_STATUS 3 s3 in
    if mmio_read REG_VERSION s4 =? 1 then init_legacy s4 else init_modern s4.

(** *** Requests *)

(** [desc[i]] *)
Definition set_desc (i addr len flags next : Z) (s : virtio) (m : mem) : mem :=
  let d := desc s + 16 * i in
  store_le 2 (store_le 2 (store_le 4 (store_le 8 m d addr) (d + 8) len) (d + 12) flags) (d + 14) next.

(** Everything up to the notification; [flags] are those of the data descriptor. *)
Definition fill (type lba buffer flags : Z) (s : virtio) (m : mem) : mem :=
  let m1 := store_le 4 m req type in
  let m2 := store_le 8 m1 (req + 8) lba in
  let m3 := store_le 1 m2 blk_status 0xFF in
  let m4 := set_desc 0 req 16 VRING_DESC_F_NEXT 1 s m3 in
  let m5 := set_desc 1 buffer 512 flags 2 s m4 in
  let m6 := set_desc 2 blk_status 1 VRING_DESC_F_WRITE 0 s m5 in
  let idx := load_le 2 m6 (avail s + 2) in
  let m7 := store_le 2 m6 (avail s + 4 + 2 * (idx mod 16)) 0 in
  store_le 2 m7 (avail s + 2) (u16 (load_le 2 m7 (avail s + 2) + 1)).

Definition submit (type lba buffer flags : Z) (s : virtio) : virtio :=
  mmio_write REG_QUEUE_NOTIFY 0 (with_hw (set_ram (fill type lba buffer flags s (ram (hw s))) (hw s)) s).

Definition used_idx (s : virtio) : Z := load_le 2 (ram (hw s)) (used s + 2).

(** [while (used->idx == last_used_idx)], at most [n] turns. *)
Fixpoint wait_used (n : nat) (s : virtio) : bool * virtio :=
  if negb (used_idx s =? last_used_idx s) then (true, s)
  else match n with O => (false, s) | S k => wait_used k (with_hw (cpu_pause (hw s)) s) end.

(** What follows the loop. *)
Definition finish (s : virtio) : bool * virtio :=
  let s1 := mk_virtio (mmio_base s) (virtio_present s) (desc s) (avail s) (used s) (used_idx s) (hw s) in
  (load_le 1 (ram (hw s1)) blk_status =? 0, s1).

(** The turn after [timeout] reaches 10000000 is the last: its test is not made. *)
Definition TIMEOUT : Z := 10000000.
Fixpoint wait_timeout (n : nat) (s : virtio) : bool * virtio :=
  match n with
  | O => (false, s)
  | S k => if negb (used_idx s =? last_used_idx s) then (true, s) else wait_timeout k (with_hw (cpu_pause (hw s)) s)
  end.

Definition read_sector (lba buffer : Z) (s : virtio) : bool * virtio :=
  if negb (virtio_present s) then (false, s)
  else
    let s1 := submit VIRTIO_BLK_T_IN lba buffer (Z.lor VRING_DESC_F_NEXT VRING_DESC_F_WRITE) s in
    let '(ok, s2) := wait_timeout (Z.to_nat (TIMEOUT + 1)) s1 in
    if ok then finish s2 else (false, s2).

(** The loop of a write has no limit of its own; [fuel] bounds its turns. *)
Definition write_sector (fuel : nat) (lba buffer : Z) (s : virtio) : outcome (bool * virtio) :=
  if negb (virtio_present s) then Ret (false, s)
  else
    let s1 := submit VIRTIO_BLK_T_OUT lba buffer VRING_DESC_F_NEXT s in
    let '(ok, s2) := wait_used fuel s1 in
    if ok then Ret (finish s2) else OutOfFuel.

Definition read_sector_async (lba buffer : Z) (s : virtio) : bool * virtio := read_sector lba buffer s.
Definition write_sector_async (fuel : nat) (lba buffer : Z) (s : virtio) : outcome (bool * virtio) := write_sector fuel lba buffer s.
Definition ata_wait_completion (s : virtio) : Z := 1.
Definition ata_timer_tick (s : virtio) : virtio := s.

(** ** The device *)

(** What it stores, the configuration of its queue, how many requests it has taken,
    the selected pages of the offered and of the accepted features, and the features
    the driver has accepted. *)
Record dev := mk_dev {
  media : Z -> list Z;
  dv_status : Z;
  dv_num : Z;
  dv_desc : Z;
  dv_avail : Z;
  dv_used : Z;
  dv_ready : bool;
  dv_seen : Z;
  dv_dsel : Z;
  dv_gsel : Z;
  dv_feat : Z
}.

Definition dv_live (v : dev) : bool := Z.testbit (dv_status v) 2 && dv_ready v.

(** The bytes [a] to [a + n - 1]. *)
Definition mem_bytes (m : mem) (a : Z) (n : nat) : list Z := m <$> seqZ a (Z.of_nat n).

Record request := mk_request { r_type : Z; r_sector : Z; r_data : Z; r_status : Z }.

Record descriptor := mk_descriptor { d_addr : Z; d_len : Z; d_flags : Z; d_next : Z }.
Definition descriptor_at (m : mem) (table i : Z) : descriptor :=
  let d := table + 16 * i in mk_descriptor (load_le 8 m d) (load_le 4 m (d + 8)) (load_le 2 m (d + 12)) (load_le 2 m (d + 14)).

(** The one new request in the queue: a chain of a header, 512 bytes of data that
    the device may write if it is to read the disk, and a status byte. *)
Definition decode (m : mem) (v : dev) : option request :=
  if negb (load_le 2 m (dv_avail v + 2) =? u16 (dv_seen v + 1)) then None
  else
    let d0 := descriptor_at m (dv_desc v) (load_le 2 m (dv_avail v + 4 + 2 * (dv_seen v mod dv_num v))) in
    let d1 := descriptor_at m (dv_desc v) (d_next d0) in
    let d2 := descriptor_at m (dv_desc v) (d_next d1) in
    let type := load_le 4 m (d_addr d0) in
    if (d_len d0 =? 16) && (d_flags d0 =? 1) && (d_len d1 =? 512) && (d_len d2 =? 1) && (d_flags d2 =? 2) &&
       ((type =? 0) && (d_flags d1 =? 3) || (type =? 1) && (d_flags d1 =? 1))
    then Some (mk_request type (load_le 8 m (d_addr d0 + 8)) (d_addr d1) (d_addr d2))
    else None.

(** What the device writes for a request lies apart. *)
Definition apart (v : dev) (r : request) : Prop :=
  let u := 4 + 8 * dv_num v in
  disjoint_ranges (r_data r) 512 (r_status r) 1 /\ disjoint_ranges (r_data r) 512 (dv_used v) u /\ disjoint_ranges (r_status r) 1 (dv_used v) u.

(** Serving request [r]: data and status are written, the request is counted as used,
    and no other memory changes. *)
Record served (capacity : Z) (r : request) (m : mem) (v : dev) (m' : mem) (v' : dev) : Prop := {
  sv_wf : mem_wf m';
  sv_dev : v' = mk_dev (if (r_sector r <? capacity) && (r_type r =? 1)
                        then (fun x => if x =? r_sector r then mem_bytes m (r_data r) 512 else media v x) else media v)
                  (dv_status v) (dv_num v) (dv_desc v) (dv_avail v) (dv_used v) (dv_ready v) (u16 (dv_seen v + 1)) (dv_dsel v) (dv_gsel v) (dv_feat v);
  sv_data : r_sector r < capacity -> r_type r = 0 -> mem_bytes m' (r_data r) 512 = media v (r_sector r);
  sv_status : m' (r_status r) = if r_sector r <? capacity then 0 else 1;
  sv_used : load_le 2 m' (dv_used v + 2) = u16 (load_le 2 m (dv_used v + 2) + 1);
  sv_rest : forall x, (r_type r = 0 -> in_block (r_data r) 512 x = false) -> x <> r_status r ->
    in_block (dv_used v) (4 + 8 * dv_num v) x = false -> m' x = m x
}.

(** Register writes of a configuration, legacy (0x40 sets the whole queue) or modern. *)
Definition low_half (old v : Z) : Z := old / 2 ^ 32 * 2 ^ 32 + v.
Definition high_half (old v : Z) : Z := old mod 2 ^ 32 + v * 2 ^ 32.
Definition dev_write (reg x : Z) (v : dev) : dev :=
  if reg =? REG_STATUS then
    if x =? 0 then mk_dev (media v) 0 0 0 0 0 false 0 0 0 0
    else mk_dev (media v) x (dv_num v) (dv_desc v) (dv_avail v) (dv_used v) (dv_ready v) (dv_seen v) (dv_dsel v) (dv_gsel v) (dv_feat v)
  else if reg =? REG_QUEUE_NUM then mk_dev (media v) (dv_status v) x (dv_desc v) (dv_avail v) (dv_used v) (dv_ready v) (dv_seen v) (dv_dsel v) (dv_gsel v) (dv_feat v)
  else if reg =? 0x40 then
    let a := x * 4096 in
    let b := a + 16 * dv_num v in
    mk_dev (media v) (dv_status v) (dv_num v) a b ((b + 6 + 2 * dv_num v + 4095) / 4096 * 4096) true (dv_seen v) (dv_dsel v) (dv_gsel v) (dv_feat v)
  else if reg =? REG_DESC_LOW then mk_dev (media v) (dv_status v) (dv_num v) (low_half (dv_desc v) x) (dv_avail v) (dv_used v) (dv_ready v) (dv_seen v) (dv_dsel v) (dv_gsel v) (dv_feat v)
  else if reg =? REG_DESC_HIGH then mk_dev (media v) (dv_status v) (dv_num v) (high_half (dv_desc v) x) (dv_avail v) (dv_used v) (dv_ready v) (dv_seen v) (dv_dsel v) (dv_gsel v) (dv_feat v)
  else if reg =? REG_AVAIL_LOW then mk_dev (media v) (dv_status v) (dv_num v) (dv_desc v) (low_half (dv_avail v) x) (dv_used v) (dv_ready v) (dv_seen v) (dv_dsel v) (dv_gsel v) (dv_feat v)
  else if reg =? REG_AVAIL_HIGH then mk_dev (media v) (dv_status v) (dv_num v) (dv_desc v) (high_half (dv_avail v) x) (dv_used v) (dv_ready v) (dv_seen v) (dv_dsel v) (dv_gsel v) (dv_feat v)
  else if reg =? REG_USED_LOW then mk_dev (media v) (dv_status v) (dv_num v) (dv_desc v) (dv_avail v) (low_half (dv_used v) x) (dv_ready v) (dv_seen v) (dv_dsel v) (dv_gsel v) (dv_feat v)
  else if reg =? REG_USED_HIGH then mk_dev (media v) (dv_status v) (dv_num v) (dv_desc v) (dv_avail v) (high_half (dv_used v) x) (dv_ready v) (dv_seen v) (dv_dsel v) (dv_gsel v) (dv_feat v)
  else if reg =? REG_QUEUE_READY then mk_dev (media v) (dv_status v) (dv_num v) (dv_desc v) (dv_avail v) (dv_used v) (x =? 1) (dv_seen v) (dv_dsel v) (dv_gsel v) (dv_feat v)
  else if reg =? 0x14 then mk_dev (media v) (dv_status v) (dv_num v) (dv_desc v) (dv_avail v) (dv_used v) (dv_ready v) (dv_seen v) x (dv_gsel v) (dv_feat v)
  else if reg =? 0x24 then mk_dev (media v) (dv_status v) (dv_num v) (dv_desc v) (dv_avail v) (dv_used v) (dv_ready v) (dv_seen v) (dv_dsel v) x (dv_feat v)
  else if reg =? REG_GUEST_FEAT then
    mk_dev (media v) (dv_status v) (dv_num v) (dv_desc v) (dv_avail v) (dv_used v) (dv_ready v) (dv_seen v) (dv_dsel v) (dv_gsel v)
      (if dv_gsel v =? 0 then low_half (dv_feat v) x else high_half (dv_feat v) x)
  else v.

(** Features that change how requests are passed, which the driver does not know:
    addresses are translated (33), the queue is packed (34), notifications carry
    data (38). *)
Definition plain (features : Z) : Prop :=
  Z.testbit features 33 = false /\ Z.testbit features 34 = false /\ Z.testbit features 38 = false.

(** What the driver relies on: the block device at transport [slot] identifies
    itself, takes the configuration, offers a queue of at least 16 entries, agrees to
    the features it offers, and serves a request after it is notified, if no feature
    was accepted that changes how requests are passed.  The number of turns of the
    waiting loop this takes is not bounded.  Until then the device does not count the
    request as used. *)
Class VirtioBlk := {
  slot : Z;
  slot_range : 0 <= slot < Z.of_nat probe_count;
  base := VIRTIO_MMIO_BASE + slot * VIRTIO_MMIO_STEP;
  capacity : Z;
  capacity_range : 0 <= capacity <= 2 ^ 32;
  offered : Z;
  offered_range : 0 <= offered < 2 ^ 64;
  view : H -> dev;
  idle : H -> Prop;
  other_slots : forall h i, 0 <= i < slot -> mmio_rd (VIRTIO_MMIO_BASE + i * VIRTIO_MMIO_STEP + REG_MAGIC) h <> VIRTIO_MAGIC \/
    mmio_rd (VIRTIO_MMIO_BASE + i * VIRTIO_MMIO_STEP + REG_DEVICE_ID) h <> DEVICE_TYPE_BLOCK;
  is_block : forall h, mmio_rd (base + REG_MAGIC) h = VIRTIO_MAGIC /\ mmio_rd (base + REG_DEVICE_ID) h = DEVICE_TYPE_BLOCK;
  queue_max : forall h, 16 <= mmio_rd (base + REG_QUEUE_NUM_MAX) h;
  features_offered : forall h, mmio_rd (base + REG_DEVICE_FEAT) h = if dv_dsel (view h) =? 0 then offered mod 2 ^ 32 else offered / 2 ^ 32;
  features_kept : forall h, Z.testbit (dv_status (view h)) 3 = true -> dv_feat (view h) = offered -> Z.land (mmio_rd (base + REG_STATUS) h) 0x08 <> 0;
  configure : forall h reg x, idle h -> reg <> REG_QUEUE_NOTIFY ->
    let h' := mmio_wr (base + reg) x h in view h' = dev_write reg x (view h) /\ ram h' = ram h /\ idle h';
  store_ram : forall h m, idle h -> ram (set_ram m h) = m /\ view (set_ram m h) = view h /\ idle (set_ram m h);
  serve : forall h r, idle h -> dv_live (view h) = true -> plain (dv_feat (view h)) -> 0 < dv_num (view h) -> decode (ram h) (view h) = Some r -> apart (view h) r -> mem_wf (ram h) ->
    (forall x, 0 <= x < capacity -> sector_ok (media (view h) x)) ->
    let h1 := mmio_wr (base + REG_QUEUE_NOTIFY) 0 h in
    exists n, (forall k, (k < n)%nat -> load_le 2 (ram (Nat.iter k cpu_pause h1)) (dv_used (view h) + 2) = load_le 2 (ram h) (dv_used (view h) + 2)) /\
      let h2 := Nat.iter n cpu_pause h1 in idle h2 /\ served capacity r (ram h) (view h) (ram h2) (view h2)
}.

(** *** Buffers *)

(** A caller's buffer of 512 bytes at [buffer]. *)
Definition put_mem (m : mem) (a : Z) (l : list Z) : mem := fun x => if in_block a 512 x then u8 (byte_at l (x - a)) else m x.

Lemma load1 m a : load_le 1 m a = m a. Proof. exact (Z.add_0_r (m a)). Qed.

Lemma mem_bytes_ok m a : mem_wf m -> sector_ok (mem_bytes m a 512).
Proof.
  intros Hm. split; [unfold zlen, mem_bytes; by rewrite length_fmap, length_seqZ|].
  apply Forall_fmap, Forall_true. intros x. apply Hm.
Qed.

Lemma mem_bytes_agree m m' a n : agree m m' a (Z.of_nat n) -> mem_bytes m a n = mem_bytes m' a n.
Proof. intros Ha. apply list_fmap_ext. intros i x Hi. apply lookup_seqZ in Hi as [-> Hi]. apply Ha. lia. Qed.

Lemma put_mem_wf m buffer l : mem_wf m -> mem_wf (put_mem m buffer l).
Proof. intros Hm x. unfold put_mem. destruct (in_block _ _ _); [apply u8_bound|apply Hm]. Qed.

Lemma put_mem_load m buffer l a n : disjoint_ranges buffer 512 a (Z.of_nat n) -> load_le n (put_mem m buffer l) a = load_le n m a.
Proof. intros Hd. apply load_agree. intros x Hx. unfold put_mem. rewrite in_block_out; [done|unfold disjoint_ranges in *; lia]. Qed.

Lemma put_mem_bytes m buffer l : sector_ok l -> mem_bytes (put_mem m buffer l) buffer 512 = l.
Proof.
  intros [Hl Hb]. apply list_eq. intros i. unfold mem_bytes. rewrite list_lookup_fmap. destruct (decide (i < 512)%nat) as [Hi|Hi].
  - rewrite lookup_seqZ_lt by lia. cbn. unfold put_mem. rewrite in_block_in by lia. replace (buffer + Z.of_nat i - buffer) with (Z.of_nat i) by lia.
    unfold byte_at, zget. rewrite (proj2 (Z.leb_le _ _)), Nat2Z.id by lia. destruct (l !! i) as [x|] eqn:E.
    + f_equal. apply u8_small. by apply (Forall_lookup_1 _ _ _ _ Hb E).
    + apply lookup_ge_None in E. unfold zlen, SECTOR in Hl. lia.
  - rewrite lookup_seqZ_ge by lia. symmetry. apply lookup_ge_None. unfold zlen, SECTOR in Hl. lia.
Qed.

Context `{VB : VirtioBlk}.

(** ** Requests *)

(** Where the linker and the caller put the objects. *)
Record layout (buffer : Z) : Prop := {
  lo_vq : vq_space mod 4096 = 0 /\ 0 <= vq_space < 2 ^ 44;
  lo_req : 0 <= req < 2 ^ 64 /\ disjoint_ranges req 16 vq_space 8192;
  lo_status : 0 <= blk_status < 2 ^ 64 /\ disjoint_ranges blk_status 1 vq_space 8192 /\ disjoint_ranges blk_status 1 req 16;
  lo_buffer : 0 <= buffer < 2 ^ 64 /\ disjoint_ranges buffer 512 vq_space 8192 /\ disjoint_ranges buffer 512 req 16 /\
    disjoint_ranges buffer 512 blk_status 1
}.

(** Between two requests. *)
Record ready (s : virtio) : Prop := {
  rd_present : virtio_present s = true;
  rd_base : mmio_base s = base;
  rd_rings : desc s = vq_space /\ avail s = vq_space + 256 /\ used s = vq_space + 4096;
  rd_idle : idle (hw s);
  rd_live : dv_live (view (hw s)) = true;
  rd_plain : plain (dv_feat (view (hw s)));
  rd_queue : dv_num (view (hw s)) = 16 /\ dv_desc (view (hw s)) = vq_space /\ dv_avail (view (hw s)) = vq_space + 256 /\
    dv_used (view (hw s)) = vq_space + 4096;
  rd_wf : mem_wf (ram (hw s));
  rd_seen : load_le 2 (ram (hw s)) (vq_space + 258) = dv_seen (view (hw s));
  rd_last : load_le 2 (ram (hw s)) (vq_space + 4098) = last_used_idx s;
  rd_media : forall x, 0 <= x < capacity -> sector_ok (media (view (hw s)) x)
}.

Ltac apart_lia := unfold disjoint_ranges in *; lia.
(** Loads after stores elsewhere or in the same place. *)
Ltac loads := repeat first [rewrite load_store_same | rewrite load_store_ne by apart_lia].

Lemma idx_slot a : 0 <= a mod 16 < 16. Proof. apply Z.mod_pos_bound. lia. Qed.

Lemma fill_wf type lba buffer flags s m : mem_wf m -> mem_wf (fill type lba buffer flags s m).
Proof. intros Hm. unfold fill, set_desc. by repeat apply store_wf. Qed.

(** Outside the request objects and the driver's part of the queue nothing changes. *)
Lemma fill_agree type lba buffer flags s m a n :
  desc s = vq_space -> avail s = vq_space + 256 ->
  disjoint_ranges req 16 a n -> disjoint_ranges blk_status 1 a n -> disjoint_ranges vq_space 300 a n -> 0 < n ->
  agree (fill type lba buffer flags s m) m a n.
Proof.
  intros Hd Ha H1 H2 H3 Hn. unfold fill, set_desc. rewrite Hd, Ha.
  repeat (eapply agree_trans; [apply store_agree; cbn; first [apart_lia | match goal with |- disjoint_ranges (_ + 2 * (?x mod 16)) _ _ _ => pose proof (idx_slot x); apart_lia end]|]).
  by intros x.
Qed.

Lemma set_desc_agree i addr len flags next s m a n :
  disjoint_ranges (desc s + 16 * i) 16 a n -> 0 < n -> agree (set_desc i addr len flags next s m) m a n.
Proof. intros Hd Hn. unfold set_desc. repeat (eapply agree_trans; [apply store_agree; cbn; apart_lia|]). by intros x. Qed.

Lemma descriptor_agree m m' t i : agree m m' (t + 16 * i) 16 -> descriptor_at m t i = descriptor_at m' t i.
Proof.
  intros Ha. unfold descriptor_at.
  rewrite (load_agree 8 m m'), (load_agree 4 m m'), !(load_agree 2 m m'); [done|..]; apply (agree_sub _ _ _ _ _ _ Ha); cbn; lia.
Qed.

Lemma descriptor_set i addr len flags next s m :
  0 <= addr < 2 ^ 64 -> 0 <= len < 2 ^ 32 -> 0 <= flags < 2 ^ 16 -> 0 <= next < 2 ^ 16 ->
  descriptor_at (set_desc i addr len flags next s m) (desc s) i = mk_descriptor addr len flags next.
Proof. intros H1 H2 H3 H4. unfold descriptor_at, set_desc. loads. by rewrite !Z.mod_small. Qed.

Lemma descriptor_set_ne i j addr len flags next s m :
  i <> j -> descriptor_at (set_desc i addr len flags next s m) (desc s) j = descriptor_at m (desc s) j.
Proof. intros Hne. apply descriptor_agree, set_desc_agree; apart_lia. Qed.

(** The stores of a request, with the ring entry computed. *)
Lemma fill_eq type lba buffer flags s : layout buffer -> ready s ->
  let a := dv_seen (view (hw s)) in
  exists m6, fill type lba buffer flags s (ram (hw s)) = store_le 2 (store_le 2 m6 (vq_space + 260 + 2 * (a mod 16)) 0) (vq_space + 258) (u16 (a + 1)) /\
    m6 = set_desc 2 blk_status 1 VRING_DESC_F_WRITE 0 s (set_desc 1 buffer 512 flags 2 s (set_desc 0 req 16 VRING_DESC_F_NEXT 1 s
           (store_le 1 (store_le 8 (store_le 4 (ram (hw s)) req type) (req + 8) lba) blk_status 0xFF))).
Proof.
  intros [[_ Hv] [_ Hq] (_ & Ht & _) _] R. pose proof (rd_rings _ R) as (Ed & Ea & _). cbv zeta. eexists. split; [|done].
  set (m6 := set_desc 2 _ _ _ _ _ _). unfold fill. fold m6. rewrite Ea. replace (vq_space + 256 + 2) with (vq_space + 258) by lia.
  assert (load_le 2 m6 (vq_space + 258) = dv_seen (view (hw s))) as E.
  { rewrite <- (rd_seen _ R). unfold m6, set_desc. rewrite Ed. loads. done. }
  pose proof (idx_slot (dv_seen (view (hw s)))). rewrite E. rewrite load_store_ne by apart_lia. rewrite E. by replace (vq_space + 256 + 4) with (vq_space + 260) by lia.
Qed.

Lemma dv_seen_range s : ready s -> 0 <= dv_seen (view (hw s)) < 2 ^ 16.
Proof. intros R. rewrite <- (rd_seen _ R). apply (load_bound 2), R. Qed.

(** The device finds the request that was stored. *)
Lemma fill_decode type lba buffer flags s v :
  layout buffer -> ready s -> 0 <= lba < 2 ^ 32 -> (type = 0 /\ flags = 3 \/ type = 1 /\ flags = 1) -> v = view (hw s) ->
  decode (fill type lba buffer flags s (ram (hw s))) v = Some (mk_request type lba buffer blk_status).
Proof.
  intros L R Hlba Hty ->. pose proof (fill_eq type lba buffer flags s L R) as (m6 & -> & E6).
  destruct L as [[_ Hv] [Hr Hq] (Hs & Ht & Htq) (Hb & _)]. pose proof (rd_queue _ R) as (En & Ed & Ea & _). pose proof (rd_rings _ R) as (Eds & _).
  pose proof (dv_seen_range s R). pose proof (idx_slot (dv_seen (view (hw s)))).
  unfold decode. rewrite Ed, Ea, En. replace (vq_space + 256 + 2) with (vq_space + 258) by lia. replace (vq_space + 256 + 4) with (vq_space + 260) by lia.
  rewrite <- Eds in Hv, Hq, Ht |- *. set (m := store_le 2 _ (desc s + 258) _).
  assert (agree m m6 (desc s) 48) as A by (eapply agree_trans; apply store_agree; apart_lia).
  assert (descriptor_at m (desc s) 0 = mk_descriptor req 16 1 1) as D0.
  { rewrite (descriptor_agree m m6) by (eapply agree_sub; [exact A|lia|lia]). rewrite E6.
    rewrite !descriptor_set_ne by lia. by apply descriptor_set. }
  assert (descriptor_at m (desc s) 1 = mk_descriptor buffer 512 flags 2) as D1.
  { rewrite (descriptor_agree m m6) by (eapply agree_sub; [exact A|lia|lia]). rewrite E6.
    rewrite descriptor_set_ne by lia. apply descriptor_set; lia. }
  assert (descriptor_at m (desc s) 2 = mk_descriptor blk_status 1 2 0) as D2.
  { rewrite (descriptor_agree m m6) by (eapply agree_sub; [exact A|lia|lia]). rewrite E6. by apply descriptor_set. }
  assert (load_le 2 m (desc s + 258) = u16 (dv_seen (view (hw s)) + 1)) as Ei.
  { unfold m. rewrite load_store_same. unfold u16. by rewrite Z.mod_mod. }
  assert (load_le 2 m (desc s + 260 + 2 * (dv_seen (view (hw s)) mod 16)) = 0) as Eh by (unfold m; by loads).
  rewrite Ei, Z.eqb_refl, Eh, D0. cbn [negb d_next d_addr d_len d_flags]. rewrite D1. cbn [d_next d_addr d_len d_flags]. rewrite D2. cbn [d_next d_addr d_len d_flags].
  assert (load_le 4 m req = type) as Et.
  { unfold m. rewrite E6. unfold set_desc. loads. by rewrite Z.mod_small by (cbn; lia). }
  assert (load_le 8 m (req + 8) = lba) as El.
  { unfold m. rewrite E6. unfold set_desc. loads. by rewrite Z.mod_small by (cbn; lia). }
  rewrite Et, El. by destruct Hty as [[-> ->]|[-> ->]].
Qed.

Lemma with_hw_eq h s :
  mmio_base (with_hw h s) = mmio_base s /\ virtio_present (with_hw h s) = virtio_present s /\ desc (with_hw h s) = desc s /\
  avail (with_hw h s) = avail s /\ used (with_hw h s) = used s /\ last_used_idx (with_hw h s) = last_used_idx s /\ hw (with_hw h s) = h.
Proof. done. Qed.

(** Waiting for the first turn [k] after which the index has moved. *)
Definition moves_at (k : nat) (s : virtio) : Prop :=
  (forall j, (j < k)%nat -> used_idx (with_hw (Nat.iter j cpu_pause (hw s)) s) = last_used_idx s) /\
  used_idx (with_hw (Nat.iter k cpu_pause (hw s)) s) <> last_used_idx s.

Lemma moves_later k s : moves_at (S k) s -> used_idx s = last_used_idx s /\ moves_at k (with_hw (cpu_pause (hw s)) s).
Proof.
  intros [Hj Hk]. split; [apply (Hj 0%nat); lia|]. split.
  - intros j Hlt. pose proof (Hj (S j) ltac:(lia)) as E. rewrite Nat.iter_succ_r in E. exact E.
  - rewrite Nat.iter_succ_r in Hk. exact Hk.
Qed.

Lemma wait_timeout_ok n : forall k s, (k < n)%nat -> moves_at k s -> wait_timeout n s = (true, with_hw (Nat.iter k cpu_pause (hw s)) s).
Proof.
  induction n as [|n IH]; intros k s Hk Hm; [lia|]. cbn [wait_timeout]. destruct k as [|k].
  - destruct Hm as [_ Hm]. cbn in Hm. change (used_idx (with_hw (hw s) s)) with (used_idx s) in Hm.
    rewrite (proj2 (Z.eqb_neq _ _) Hm). cbn. by destruct s.
  - apply moves_later in Hm as [-> Hm]. rewrite Z.eqb_refl. cbn [negb]. rewrite (IH k _ ltac:(lia) Hm). by rewrite Nat.iter_succ_r.
Qed.

Lemma wait_used_ok n : forall k s, (k <= n)%nat -> moves_at k s -> wait_used n s = (true, with_hw (Nat.iter k cpu_pause (hw s)) s).
Proof.
  induction n as [|n IH]; intros k s Hk Hm; cbn [wait_used]; (destruct k as [|k]; [|try lia]).
  1,2: destruct Hm as [_ Hm]; cbn in Hm; change (used_idx (with_hw (hw s) s)) with (used_idx s) in Hm;
    rewrite (proj2 (Z.eqb_neq _ _) Hm); cbn; by destruct s.
  apply moves_later in Hm as [-> Hm]. rewrite Z.eqb_refl. cbn [negb]. rewrite (IH k _ ltac:(lia) Hm). by rewrite Nat.iter_succ_r.
Qed.

Lemma wait_timeout_late n : forall k s, (n <= k)%nat -> moves_at k s -> wait_timeout n s = (false, with_hw (Nat.iter n cpu_pause (hw s)) s).
Proof.
  induction n as [|n IH]; intros k s Hk Hm; cbn [wait_timeout]; [by destruct s|]. destruct k as [|k]; [lia|].
  apply moves_later in Hm as [-> Hm]. rewrite Z.eqb_refl. cbn [negb]. rewrite (IH k _ ltac:(lia) Hm). by rewrite Nat.iter_succ_r.
Qed.

Lemma wait_used_late n : forall k s, (n < k)%nat -> moves_at k s -> exists s', wait_used n s = (false, s').
Proof.
  induction n as [|n IH]; intros k s Hk Hm; cbn [wait_used]; (destruct k as [|k]; [lia|]); apply moves_later in Hm as [-> Hm];
    rewrite Z.eqb_refl; cbn [negb]; [by eexists|]. apply (IH k); [lia|done].
Qed.

Lemma u16_next x : 0 <= x < 2 ^ 16 -> u16 (x + 1) <> x.
Proof.
  intros Hx. unfold u16. destruct (Z.eq_dec x (2 ^ 16 - 1)) as [->|Hne]; [done|]. rewrite Z.mod_small by lia. lia.
Qed.

Lemma used_before type lba buffer flags s : layout buffer -> ready s ->
  load_le 2 (fill type lba buffer flags s (ram (hw s))) (vq_space + 4098) = last_used_idx s.
Proof.
  intros [_ [_ Hq] (_ & Ht & _) _] R. rewrite <- (rd_last _ R). pose proof (rd_rings _ R) as (Ed & Ea & _).
  apply load_agree, fill_agree; try done; apart_lia.
Qed.

Lemma last_range s : ready s -> 0 <= last_used_idx s < 2 ^ 16.
Proof. intros R. rewrite <- (rd_last _ R). apply (load_bound 2), R. Qed.

(** A request is served while the driver waits. *)
Lemma transact type lba buffer flags s :
  layout buffer -> ready s -> 0 <= lba < 2 ^ 32 -> (type = 0 /\ flags = 3 \/ type = 1 /\ flags = 1) ->
  let s1 := submit type lba buffer flags s in
  exists k h2, moves_at k s1 /\ with_hw (Nat.iter k cpu_pause (hw s1)) s1 = with_hw h2 s /\ idle h2 /\
    served capacity (mk_request type lba buffer blk_status) (fill type lba buffer flags s (ram (hw s))) (view (hw s)) (ram h2) (view h2).
Proof.
  intros L R Hl Hty. cbv zeta. set (m := fill type lba buffer flags s (ram (hw s))).
  destruct (store_ram (hw s) m (rd_idle _ R)) as (Em & Ev & Hi). pose proof (rd_queue _ R) as (En & _ & _ & Eu). pose proof (rd_rings _ R) as (_ & _ & Eus).
  destruct (serve (set_ram m (hw s)) (mk_request type lba buffer blk_status)) as (k & Hw & Hi2 & Hs).
  - done.
  - rewrite Ev. apply R.
  - rewrite Ev. apply R.
  - rewrite Ev, En. lia.
  - rewrite Em, Ev. by apply fill_decode.
  - rewrite Ev. unfold apart. rewrite En, Eu. cbn [r_data r_status]. destruct L. split_and!; apart_lia.
  - rewrite Em. apply fill_wf, R.
  - rewrite Ev. apply R.
  - rewrite Em, Ev in *. rewrite Eu in Hw. replace (vq_space + 4096 + 2) with (vq_space + 4098) in Hw by lia.
    unfold m in Hw. rewrite used_before in Hw by done. fold m in Hw.
    assert (hw (submit type lba buffer flags s) = mmio_wr (base + REG_QUEUE_NOTIFY) 0 (set_ram m (hw s))) as Eh by (cbn; by rewrite (rd_base _ R)).
    assert (forall h, with_hw h (submit type lba buffer flags s) = with_hw h s) as Ew by done.
    exists k, (Nat.iter k cpu_pause (mmio_wr (base + REG_QUEUE_NOTIFY) 0 (set_ram m (hw s)))). unfold moves_at. rewrite Eh, Ew.
    split; [|done]. change (last_used_idx (submit type lba buffer flags s)) with (last_used_idx s).
    unfold used_idx. cbn [used hw with_hw]. change (used (submit type lba buffer flags s)) with (used s). rewrite Eus. split; [intros j Hj|];
      replace (vq_space + 4096 + 2) with (vq_space + 4098) by lia; [by apply Hw|].
    pose proof (sv_used _ _ _ _ _ _ Hs) as E. rewrite Eu in E. replace (vq_space + 4096 + 2) with (vq_space + 4098) in E by lia.
    rewrite E. unfold m. rewrite used_before by done. by apply u16_next, last_range.
Qed.

Definition disk_of (s : virtio) : Z -> list Z := media (view (hw s)).

(** The memory that belongs to nobody else. *)
Definition driver_memory (x : Z) : bool := in_block vq_space 8192 x || in_block req 16 x || in_block blk_status 1 x.

(** After a request. *)
Lemma finish_ready type lba buffer flags s h2 :
  layout buffer -> ready s -> 0 <= lba -> idle h2 ->
  served capacity (mk_request type lba buffer blk_status) (fill type lba buffer flags s (ram (hw s))) (view (hw s)) (ram h2) (view h2) ->
  exists s', finish (with_hw h2 s) = (lba <? capacity, s') /\ hw s' = h2 /\ ready s' /\
    (forall x, disk_of s' x = if (lba <? capacity) && (type =? 1) && (x =? lba) then mem_bytes (ram (hw s)) buffer 512 else disk_of s x) /\
    (forall x, driver_memory x = false -> (type = 0 -> in_block buffer 512 x = false) -> ram h2 x = ram (hw s) x).
Proof.
  intros L R Hl Hi [Swf Sdev _ Sst _ Srest]. cbn [r_sector r_type r_data r_status] in *. pose proof (rd_queue _ R) as (En & Ed & Ea & Eu). pose proof (rd_rings _ R) as (Eds & Eas & Eus).
  rewrite Eu, En in Srest. pose proof (fill_eq type lba buffer flags s L R) as (m6 & Ef & _). destruct L as [_ [_ Hq] (_ & Ht & Htq) (_ & Hb & Hbq & Hbt)].
  assert (agree (fill type lba buffer flags s (ram (hw s))) (ram (hw s)) buffer 512) as Hbuf by (apply fill_agree; try done; apart_lia).
  eexists. split; [unfold finish; cbv zeta; rewrite load1; cbn [hw with_hw]; rewrite Sst; by destruct (lba <? capacity)|]. split; [done|]. split; [split|split].
  - apply R.
  - apply R.
  - apply R.
  - exact Hi.
  - cbn [hw with_hw]. rewrite Sdev. apply R.
  - cbn [hw with_hw]. rewrite Sdev. apply R.
  - cbn [hw with_hw]. rewrite Sdev. apply R.
  - exact Swf.
  - cbn [hw with_hw]. rewrite Sdev. cbn [dv_seen]. rewrite (load_agree 2 _ (fill type lba buffer flags s (ram (hw s)))).
    + rewrite Ef, load_store_same. unfold u16. by rewrite Z.mod_mod.
    + intros x Hx. apply Srest; [intros _; apply in_block_out; apart_lia|apart_lia|apply in_block_out; apart_lia].
  - cbn [last_used_idx hw used with_hw]. unfold used_idx. cbn [hw used with_hw]. rewrite Eus. f_equal. lia.
  - intros x Hx. cbn [hw with_hw]. rewrite Sdev. cbn [media]. destruct (_ && _); [|by apply R]. destruct (x =? lba); [|by apply R].
    apply mem_bytes_ok, fill_wf, R.
  - intros x. unfold disk_of. cbn [hw with_hw]. rewrite Sdev. cbn [media]. destruct (_ && _); [|done]. destruct (x =? lba); [|done]. by apply mem_bytes_agree.
  - intros x Hx Hy. unfold driver_memory in Hx. rewrite !orb_false_iff in Hx. destruct Hx as [[Hx1 Hx2] Hx3]. rewrite in_block_false in Hx1, Hx2, Hx3.
    rewrite Srest; [|done|lia|apply in_block_out; lia]. apply (fill_agree _ _ _ _ _ _ x 1); try done; apart_lia.
Qed.

(** The turns the device takes to serve a read or a write. *)
Definition read_turns (n : nat) (lba buffer : Z) (s : virtio) : Prop :=
  moves_at n (submit VIRTIO_BLK_T_IN lba buffer (Z.lor VRING_DESC_F_NEXT VRING_DESC_F_WRITE) s).
Definition write_turns (n : nat) (lba buffer : Z) (s : virtio) : Prop :=
  moves_at n (submit VIRTIO_BLK_T_OUT lba buffer VRING_DESC_F_NEXT s).

(** A read in time. *)
Definition read_done (lba buffer : Z) (s : virtio) : Prop :=
  exists s', read_sector lba buffer s = (lba <? capacity, s') /\ ready s' /\ (forall x, disk_of s' x = disk_of s x) /\
    (lba < capacity -> mem_bytes (ram (hw s')) buffer 512 = disk_of s lba) /\
    (forall x, driver_memory x = false -> in_block buffer 512 x = false -> ram (hw s') x = ram (hw s) x).

Definition write_done (fuel : nat) (lba buffer : Z) (s : virtio) : Prop :=
  exists s', write_sector fuel lba buffer s = Ret (lba <? capacity, s') /\ ready s' /\
    (forall x, disk_of s' x = if (lba <? capacity) && (x =? lba) then mem_bytes (ram (hw s)) buffer 512 else disk_of s x) /\
    (forall x, driver_memory x = false -> ram (hw s') x = ram (hw s) x).

Lemma virtio_read_late n lba buffer s : ready s -> read_turns n lba buffer s -> TIMEOUT < Z.of_nat n ->
  exists s', read_sector lba buffer s = (false, s') /\ last_used_idx s' = last_used_idx s.
Proof.
  intros R Hm Hn. unfold read_sector. rewrite (rd_present _ R). cbn [negb].
  rewrite (wait_timeout_late (Z.to_nat (TIMEOUT + 1)) n _ ltac:(lia) Hm). by eexists.
Qed.

Lemma virtio_write_late n fuel lba buffer s : ready s -> write_turns n lba buffer s -> (fuel < n)%nat -> write_sector fuel lba buffer s = OutOfFuel.
Proof.
  intros R Hm Hn. unfold write_sector. rewrite (rd_present _ R). cbn [negb]. by destruct (wait_used_late fuel n _ Hn Hm) as (s' & ->).
Qed.

Lemma virtio_read_ok lba buffer s : layout buffer -> ready s -> 0 <= lba < 2 ^ 32 ->
  exists n, read_turns n lba buffer s /\ (Z.of_nat n <= TIMEOUT -> read_done lba buffer s).
Proof.
  intros L R Hl. destruct (transact 0 lba buffer 3 s L R Hl) as (k & h2 & Hm & Ew & Hi & Hs); [by left|]. exists k. split; [done|]. intros Hk.
  unfold read_done, read_sector, VIRTIO_BLK_T_IN. rewrite (rd_present _ R). cbn [negb]. change (Z.lor VRING_DESC_F_NEXT VRING_DESC_F_WRITE) with 3.
  rewrite (wait_timeout_ok (Z.to_nat (TIMEOUT + 1)) k _ ltac:(lia) Hm), Ew.
  destruct (finish_ready _ lba _ _ _ _ L R (proj1 Hl) Hi Hs) as (s' & -> & Eh & R' & Hd & Hr). exists s'. split_and!; try done.
  - intros x. rewrite Hd. by rewrite andb_false_r.
  - intros Hlt. rewrite Eh. exact (sv_data _ _ _ _ _ _ Hs Hlt eq_refl).
  - intros x Hx Hy. rewrite Eh. by apply Hr.
Qed.

Lemma virtio_write_ok lba buffer s : layout buffer -> ready s -> 0 <= lba < 2 ^ 32 ->
  exists n, write_turns n lba buffer s /\ forall fuel, (n <= fuel)%nat -> write_done fuel lba buffer s.
Proof.
  intros L R Hl. destruct (transact 1 lba buffer 1 s L R Hl) as (k & h2 & Hm & Ew & Hi & Hs); [by right|]. exists k. split; [done|]. intros fuel Hf.
  unfold write_done, write_sector, VIRTIO_BLK_T_OUT, VRING_DESC_F_NEXT. rewrite (rd_present _ R). cbn [negb]. rewrite (wait_used_ok fuel k _ ltac:(lia) Hm), Ew.
  destruct (finish_ready _ lba _ _ _ _ L R (proj1 Hl) Hi Hs) as (s' & -> & Eh & R' & Hd & Hr). exists s'. split_and!; try done.
  - intros x. rewrite Hd. by rewrite andb_true_r.
  - intros x Hx. rewrite Eh. by apply Hr.
Qed.

(** ** Initialisation *)

Lemma probe_present n : forall i s, virtio_present s = true -> probe n i s = s.
Proof. induction n as [|n IH]; intros i s Hp; cbn [probe]; [done|]. rewrite Hp. cbn [negb]. rewrite andb_false_r. by apply IH. Qed.

Lemma probe_found n : forall i s, virtio_present s = false -> 0 <= i <= slot -> slot < i + Z.of_nat n ->
  probe n i s = mk_virtio base true (desc s) (avail s) (used s) (last_used_idx s) (hw s).
Proof.
  induction n as [|n IH]; intros i s Hp Hi Hn; [lia|]. cbn [probe]. rewrite Hp. cbn [negb]. rewrite andb_true_r.
  destruct (Z.eq_dec i slot) as [->|Hne].
  - destruct (is_block (hw s)) as [E1 E2]. fold base. rewrite E1, E2, !Z.eqb_refl. by apply probe_present.
  - assert (0 <= i < slot) as Hlt by lia. destruct (other_slots (hw s) i Hlt) as [E|E]; rewrite (proj2 (Z.eqb_neq _ _) E), ?andb_false_r; cbn [andb]; apply IH; (done || lia).
Qed.

(** A state whose transport is the device, configured as [v]. *)
Definition configured (v : dev) (m : mem) (s : virtio) : Prop :=
  mmio_base s = base /\ idle (hw s) /\ view (hw s) = v /\ ram (hw s) = m.

Lemma configured_write v m s reg x : configured v m s -> reg <> REG_QUEUE_NOTIFY -> configured (dev_write reg x v) m (mmio_write reg x s).
Proof.
  intros (Eb & Hi & <- & <-) Hr. unfold configured, mmio_write. cbn [mmio_base hw with_hw]. rewrite Eb.
  by destruct (configure (hw s) reg x Hi Hr) as (-> & -> & ?).
Qed.

Lemma halves a : 0 <= a < 2 ^ 64 -> high_half (low_half 0 (u32 a)) (u32 (Z.shiftr a 32)) = a.
Proof.
  intros Ha. unfold high_half, low_half, u32. rewrite Z.shiftr_div_pow2 by lia. change (0 / 2 ^ 32 * 2 ^ 32) with 0. rewrite Z.add_0_l.
  rewrite Z.mod_mod by lia. rewrite (Z.mod_small (a / 2 ^ 32)) by (split; [apply Z.div_pos; lia|apply Z.div_lt_upper_bound; lia]).
  pose proof (Z.div_mod a (2 ^ 32)). lia.
Qed.

(** At boot: static storage is zero. *)
Record booted (s : virtio) : Prop := {
  bt_absent : virtio_present s = false;
  bt_last : last_used_idx s = 0;
  bt_idle : idle (hw s);
  bt_wf : mem_wf (ram (hw s));
  bt_zero : load_le 2 (ram (hw s)) (vq_space + 258) = 0 /\ load_le 2 (ram (hw s)) (vq_space + 4098) = 0;
  bt_media : forall x, 0 <= x < capacity -> sector_ok (disk_of s x)
}.

Lemma configured_rings v m s : configured v m s -> configured v m (set_rings s).
Proof. done. Qed.

Lemma queue_large s : mmio_base s = base -> (mmio_read REG_QUEUE_NUM_MAX s <? 16) = false.
Proof. intros E. unfold mmio_read. rewrite E. apply Z.ltb_ge, queue_max. Qed.

(** Computes register writes. *)
Ltac registers := cbv [dev_write REG_STATUS REG_QUEUE_NUM REG_QUEUE_SEL REG_GUEST_FEAT REG_DESC_LOW REG_DESC_HIGH REG_AVAIL_LOW REG_AVAIL_HIGH REG_USED_LOW
  REG_USED_HIGH REG_QUEUE_READY Z.eqb Pos.eqb media dv_status dv_num dv_desc dv_avail dv_used dv_ready dv_seen dv_dsel dv_gsel dv_feat].

(** Through the register writes of an initialisation. *)
Ltac configure_all Hc := repeat first [exact Hc | apply configured_rings | apply configured_write; [|done]].

(** The driver's side after initialisation. *)
Definition rings_set (s s' : virtio) : Prop :=
  virtio_present s' = true /\ desc s' = vq_space /\ avail s' = vq_space + 256 /\ used s' = vq_space + 4096 /\ last_used_idx s' = last_used_idx s.

(** The device after the reset, and with its queue in place and features [f]. *)
Definition reset_dev (md : Z -> list Z) : dev := mk_dev md 3 0 0 0 0 false 0 0 0 0.
Definition live_dev (md : Z -> list Z) (st page f : Z) : dev := mk_dev md st 16 vq_space (vq_space + 256) (vq_space + 4096) true 0 page page f.

Lemma feat_read v m s : configured v m s -> mmio_read REG_DEVICE_FEAT s = if dv_dsel v =? 0 then offered mod 2 ^ 32 else offered / 2 ^ 32.
Proof. intros (E & _ & <- & _). unfold mmio_read. rewrite E. apply features_offered. Qed.

Lemma init_legacy_ready md m s :
  configured (reset_dev md) m s -> virtio_present s = true -> 0 <= vq_space < 2 ^ 44 -> vq_space mod 4096 = 0 ->
  rings_set s (init_legacy s) /\ configured (live_dev md 7 0 (offered mod 2 ^ 32)) m (init_legacy s).
Proof.
  intros Hc Hp Hv Ha. unfold init_legacy. cbv zeta. rewrite queue_large by (by destruct Hc). split; [by split_and!|].
  rewrite (feat_read _ _ _ Hc). cbn [dv_dsel reset_dev Z.eqb].
  eassert (live_dev md 7 0 (offered mod 2 ^ 32) = _) as ->; [|configure_all Hc].
  assert (vq_space = u32 (Z.shiftr vq_space 12) * 4096) as E.
  { rewrite Z.shiftr_div_pow2 by lia. pose proof (Z.div_mod vq_space 4096). rewrite u32_small by (split; [apply Z.div_pos; lia|apply Z.div_lt_upper_bound; lia]). change (2 ^ 12) with 4096. lia. }
  unfold reset_dev, live_dev, low_half. registers. rewrite <- E. f_equal.
  replace (vq_space + 16 * 16 + 6 + 2 * 16 + 4095) with (vq_space / 4096 * 4096 + (4096 + 293)) by (pose proof (Z.div_mod vq_space 4096); lia).
  rewrite Z.div_add_l by lia. pose proof (Z.div_mod vq_space 4096). change ((4096 + 293) / 4096) with 1. lia.
Qed.

Lemma features_ok s m v : configured v m s -> Z.testbit (dv_status v) 3 = true -> dv_feat v = offered -> (Z.land (mmio_read REG_STATUS s) 0x08 =? 0) = false.
Proof. intros (E & _ & <- & _) Ht Hf. unfold mmio_read. rewrite E. by apply Z.eqb_neq, features_kept. Qed.

Lemma both_pages : high_half (low_half 0 (offered mod 2 ^ 32)) (offered / 2 ^ 32) = offered.
Proof.
  pose proof offered_range. rewrite <- (halves offered) at 3 by done. unfold u32. rewrite Z.shiftr_div_pow2 by lia.
  by rewrite (Z.mod_small (offered / 2 ^ 32)) by (split; [apply Z.div_pos; lia|apply Z.div_lt_upper_bound; lia]).
Qed.

(** The device after both pages of features are accepted. *)
Definition agreed_dev (md : Z -> list Z) : dev := mk_dev md 0x0B 0 0 0 0 false 0 1 1 offered.

Lemma agree_features md m s :
  configured (reset_dev md) m s ->
  let s1 := mmio_write 0x14 0 s in
  let s2 := mmio_write REG_GUEST_FEAT (mmio_read REG_DEVICE_FEAT s1) (mmio_write 0x24 0 s1) in
  let s3 := mmio_write 0x14 1 s2 in
  let s4 := mmio_write REG_GUEST_FEAT (mmio_read REG_DEVICE_FEAT s3) (mmio_write 0x24 1 s3) in
  configured (agreed_dev md) m (mmio_write REG_STATUS 0x0B s4).
Proof.
  intros Hc. cbv zeta. erewrite feat_read; [|configure_all Hc]. erewrite feat_read; [|configure_all Hc].
  eassert (agreed_dev md = _) as ->; [|configure_all Hc].
  unfold agreed_dev, reset_dev. registers. by rewrite both_pages.
Qed.

Lemma init_modern_ready md m s :
  configured (reset_dev md) m s -> virtio_present s = true -> 0 <= vq_space < 2 ^ 44 ->
  rings_set s (init_modern s) /\ configured (live_dev md 0x0F 1 offered) m (init_modern s).
Proof.
  intros Hc Hp Hv. pose proof (agree_features md m s Hc) as Ha. unfold init_modern. cbv zeta in *.
  set (s5 := mmio_write REG_STATUS 0x0B _) in *.
  erewrite features_ok; [|exact Ha|done|done]. rewrite queue_large by (by destruct Ha). split; [by split_and!|].
  eassert (live_dev md 0x0F 1 offered = _) as ->; [|configure_all Ha].
  unfold live_dev, agreed_dev. registers. change (desc _) with vq_space. change (avail _) with (vq_space + 16 * 16). change (used _) with (vq_space + 4096).
  by rewrite !halves by lia.
Qed.

Lemma plain_low f : plain (f mod 2 ^ 32).
Proof. split_and!; by rewrite Z.mod_pow2_bits_high by lia. Qed.

Lemma init_ready buffer s : layout buffer -> booted s -> plain offered ->
  ready (ata_init s) /\ (forall x, disk_of (ata_init s) x = disk_of s x) /\ ram (hw (ata_init s)) = ram (hw s).
Proof.
  intros [[Ha Hv] _ _ _] [B1 B2 B3 B4 [B5 B6] B7] Hpl. pose proof slot_range. unfold ata_init. rewrite (probe_found probe_count 0 s B1) by lia.
  cbn [virtio_present negb]. cbv zeta. set (s0 := mk_virtio base true _ _ _ _ _). set (s4 := mmio_write REG_STATUS 3 _).
  assert (configured (reset_dev (disk_of s)) (ram (hw s)) s4) as Hc.
  { assert (configured (view (hw s)) (ram (hw s)) s0) as H0c by done.
    eassert (reset_dev (disk_of s) = _) as ->; [|unfold s4; configure_all H0c]. done. }
  assert (forall s' st p f, rings_set s4 s' -> configured (live_dev (disk_of s) st p f) (ram (hw s)) s' -> Z.testbit st 2 = true -> plain f ->
    ready s' /\ (forall x, disk_of s' x = disk_of s x) /\ ram (hw s') = ram (hw s)) as Hfin.
  { intros s' st p f (R1 & R2 & R3 & R4 & R5) (C1 & C2 & C3 & C4) Hst Hf. split; [|by split; [intros x; unfold disk_of; rewrite C3|]].
    split; rewrite ?C3, ?C4; try done. - unfold dv_live, live_dev. cbn [dv_status dv_ready]. by rewrite Hst. - by rewrite B6, R5. }
  destruct (mmio_read REG_VERSION s4 =? 1).
  - destruct (init_legacy_ready _ _ s4 Hc eq_refl Hv Ha) as [R1 R2]. apply (Hfin _ 7 0 _ R1 R2); [done|apply plain_low].
  - destruct (init_modern_ready _ _ s4 Hc eq_refl Hv) as [R1 R2]. by apply (Hfin _ 15 1 _ R1 R2).
Qed.


(** ** The interface of the file systems *)

Section block.
(** The device is never slower than [delay], which is less than the driver waits. *)
Context (buffer : Z) (fuel delay : nat) (L : layout buffer) (F : (delay <= fuel)%nat) (T : Z.of_nat delay <= TIMEOUT).
Context (prompt : forall lba s n, ready s -> read_turns n lba buffer s \/ write_turns n lba buffer s -> (n <= delay)%nat).

Lemma prompt_read lba s : ready s -> 0 <= lba < 2 ^ 32 -> read_done lba buffer s.
Proof.
  intros R Hl. destruct (virtio_read_ok lba buffer s L R Hl) as (n & Hn & Hok). apply Hok. pose proof (prompt lba s n R (or_introl Hn)). lia.
Qed.

Lemma prompt_write lba s : ready s -> 0 <= lba < 2 ^ 32 -> write_done fuel lba buffer s.
Proof.
  intros R Hl. destruct (virtio_write_ok lba buffer s L R Hl) as (n & Hn & Hok). apply Hok. pose proof (prompt lba s n R (or_intror Hn)). lia.
Qed.

Definition with_buffer (l : list Z) (s : virtio) : virtio := with_hw (set_ram (put_mem (ram (hw s)) buffer l) (hw s)) s.

Lemma with_buffer_ready l s : ready s -> ready (with_buffer l s) /\ disk_of (with_buffer l s) = disk_of s /\ ram (hw (with_buffer l s)) = put_mem (ram (hw s)) buffer l.
Proof.
  intros R. destruct (store_ram (hw s) (put_mem (ram (hw s)) buffer l) (rd_idle _ R)) as (E1 & E2 & E3). pose proof (lo_buffer _ L) as (_ & Hb & _).
  split; [|split; [unfold disk_of; cbn; by rewrite E2|exact E1]].
  destruct R. split; unfold with_buffer; cbn [hw with_hw]; rewrite ?E1, ?E2; try done.
  - by apply put_mem_wf.
  - rewrite put_mem_load by (cbn; apart_lia). done.
  - rewrite put_mem_load by (cbn; apart_lia). done.
Qed.

(** A write that is never served does not return; the laws exclude it. *)
#[export] Instance virtio_device : BlockDevice virtio := {
  ata_is_available := virtio_present;
  ata_read_sector := fun lba buf s =>
    let '(ok, s1) := read_sector (u32 lba) buffer (with_buffer buf s) in (ok, mem_bytes (ram (hw s1)) buffer 512, s1);
  ata_write_sector := fun lba buf s => match write_sector fuel (u32 lba) buffer (with_buffer buf s) with Ret r => r | _ => (false, s) end
}.

#[refine] Definition virtio_laws : BlockDeviceLaws virtio := {|
  bd_limit := capacity;
  bd_ready := ready;
  disk := disk_of
|}.
Proof.
  - pose proof capacity_range. lia.
  - intros s x R Hx. by apply (rd_media _ R).
  - intros s lba buf R Hx _. pose proof capacity_range. destruct (with_buffer_ready buf s R) as (R1 & Ed & _). cbn. rewrite u32_small by lia.
    destruct (prompt_read lba _ R1) as (s' & -> & R' & Hd & Hb & _); [lia|]. rewrite Ed in *.
    rewrite (proj2 (Z.ltb_lt _ _)), Hb by lia. by exists s'.
  - intros s lba buf ok buf' s' R. destruct (with_buffer_ready buf s R) as (R1 & Ed & _). cbn.
    destruct (prompt_read (u32 lba) _ R1 (u32_bound lba)) as (s'' & -> & R' & Hd & _). rewrite Ed in Hd. by intros [= <- <- <-].
  - intros s lba buf R Hx Hb. pose proof capacity_range. destruct (with_buffer_ready buf s R) as (R1 & Ed & Em). cbn. rewrite u32_small by lia.
    destruct (prompt_write lba _ R1) as (s' & -> & R' & Hd & _); [lia|]. rewrite Ed, Em in Hd.
    exists s'. rewrite (proj2 (Z.ltb_lt _ _)) in * by lia. split; [done|]. split; [done|]. intros x. rewrite Hd. cbn [andb]. by rewrite put_mem_bytes.
Defined.
End block.
End driver.

(** ** Example: a device with four sectors that serves a request after two turns *)

Record vsim := mk_vsim { vs_ram : mem; vs_dev : dev; vs_due : nat }.

Definition vs_base : Z := 0x10001000.
(** Version 1 (32) and the event index of notifications (29). *)
Definition vs_offered : Z := 2 ^ 32 + 2 ^ 29.

Definition vs_serve (m : mem) (v : dev) : mem * dev :=
  match decode m v with
  | None => (m, v)
  | Some r =>
      let ok := r_sector r <? 4 in
      let m1 := if ok && (r_type r =? 0) then put_mem m (r_data r) (media v (r_sector r)) else m in
      let m2 := store_le 1 m1 (r_status r) (if ok then 0 else 1) in
      (store_le 2 m2 (dv_used v + 2) (u16 (load_le 2 m (dv_used v + 2) + 1)),
       mk_dev (if ok && (r_type r =? 1) then (fun x => if x =? r_sector r then mem_bytes m (r_data r) 512 else media v x) else media v)
         (dv_status v) (dv_num v) (dv_desc v) (dv_avail v) (dv_used v) (dv_ready v) (u16 (dv_seen v + 1)) (dv_dsel v) (dv_gsel v) (dv_feat v))
  end.

#[export] Instance vsim_machine : Machine vsim := {
  ram := vs_ram;
  set_ram := fun m h => mk_vsim m (vs_dev h) (vs_due h);
  mmio_rd := fun a h =>
    if a =? vs_base then VIRTIO_MAGIC else if a =? vs_base + REG_DEVICE_ID then DEVICE_TYPE_BLOCK
    else if a =? vs_base + REG_VERSION then 2 else if a =? vs_base + REG_QUEUE_NUM_MAX then 64
    else if a =? vs_base + REG_DEVICE_FEAT then (if dv_dsel (vs_dev h) =? 0 then vs_offered mod 2 ^ 32 else vs_offered / 2 ^ 32)
    else if a =? vs_base + REG_STATUS then dv_status (vs_dev h) else 0;
  mmio_wr := fun a x h =>
    if a =? vs_base + REG_QUEUE_NOTIFY then mk_vsim (vs_ram h) (vs_dev h) 2 else mk_vsim (vs_ram h) (dev_write (a - vs_base) x (vs_dev h)) (vs_due h);
  cpu_pause := fun h =>
    match vs_due h with
    | O => h
    | S O => let '(m, v) := vs_serve (vs_ram h) (vs_dev h) in mk_vsim m v 0
    | S k => mk_vsim (vs_ram h) (vs_dev h) k
    end
}.

Lemma vs_served r m v : decode m v = Some r -> apart v r -> mem_wf m -> (forall x, 0 <= x < 4 -> sector_ok (media v x)) ->
  0 < dv_num v -> 0 <= r_sector r -> served 4 r m v (vs_serve m v).1 (vs_serve m v).2.
Proof.
  intros Hd (A1 & A2 & A3) Hw Hm Hn Hs. unfold vs_serve. rewrite Hd. cbn [fst snd].
  set (m1 := if _ : bool then put_mem m (r_data r) (media v (r_sector r)) else m). set (m2 := store_le 1 m1 _ _).
  assert (mem_wf m1) as W1 by (unfold m1; destruct (_ && _); [by apply put_mem_wf|done]).
  split.
  - by do 2 apply store_wf.
  - done.
  - intros Hlt Ht. rewrite (mem_bytes_agree _ m1).
    + unfold m1. rewrite (proj2 (Z.ltb_lt _ _) Hlt), Ht. cbn. apply put_mem_bytes, Hm. lia.
    + eapply agree_trans; apply store_agree; unfold disjoint_ranges in *; lia.
  - rewrite <- (load1 _ (r_status r)). rewrite load_store_ne by (unfold disjoint_ranges in *; lia). unfold m2. rewrite load_store_same. by destruct (_ <? 4).
  - rewrite load_store_same. unfold u16. by rewrite Z.mod_mod.
  - intros x Hx Hy Hu. apply in_block_false in Hu. rewrite (store_agree 2 m2 _ _ x 1) by (unfold disjoint_ranges; lia).
    unfold m2. rewrite (store_agree 1 m1 _ _ x 1) by (unfold disjoint_ranges; lia). unfold m1. destruct (_ && _) eqn:E; [|done].
    apply andb_true_iff in E as [_ E]. apply Z.eqb_eq in E. unfold put_mem. by rewrite Hx.
Qed.

Lemma decode_sector m v r : mem_wf m -> decode m v = Some r -> 0 <= r_sector r.
Proof. intros Hm. unfold decode. repeat case_match; intros [= <-]. by apply (load_bound 8). Qed.

#[export] #[refine] Instance vsim_blk : VirtioBlk (H := vsim) false := {|
  slot := 0;
  capacity := 4;
  offered := vs_offered;
  view := vs_dev;
  idle := fun h => vs_due h = O
|}.
Proof.
  - done.
  - done.
  - done.
  - intros h i Hi. lia.
  - by intros h.
  - by intros h.
  - by intros h.
  - intros h Ht _. change (Z.land (dv_status (vs_dev h)) 8 <> 0). change (Z.testbit (dv_status (vs_dev h)) 3 = true) in Ht. intros E. apply (f_equal (fun z => Z.testbit z 3)) in E. rewrite Z.land_spec, Ht in E. done.
  - intros h reg x Hi Hr. cbn. rewrite (proj2 (Z.eqb_neq _ _)) by (unfold vs_base; lia).
    by replace (268439552 + 0 * 4096 + reg - vs_base) with reg by (unfold vs_base; lia).
  - by intros h m Hi.
  - intros h r Hi Hl _ Hn Hd Ha Hw Hm. exists 2%nat. change (mmio_wr _ _ h) with (mk_vsim (vs_ram h) (vs_dev h) 2).
    split; [intros [|[|k]] Hk; [done|done|lia]|]. cbn [Nat.iter nat_rect]. cbn [cpu_pause vsim_machine vs_due vs_ram vs_dev].
    pose proof (vs_served r _ _ Hd Ha Hw Hm Hn (decode_sector _ _ _ Hw Hd)) as Hs. cbn [ram vsim_machine] in Hs. by destruct (vs_serve _ _).
Defined.

Definition sim_boot : virtio :=
  mk_virtio 0 false 0 0 0 0 (mk_vsim mem_zero (mk_dev (fun x => replicate 512 x) 0 0 0 0 0 false 0 0 0 0) 0).

Lemma sim_layout : layout 0x80000000 0x80003000 0x80003010 0x80004000.
Proof. split; split_and!; unfold disjoint_ranges; (done || lia). Qed.

Lemma sim_booted : booted false 0x80000000 sim_boot.
Proof.
  split; [done|done|done|exact mem_zero_wf|done|].
  intros x Hx. split; [reflexivity|]. apply Forall_replicate. change (0 <= x < 4) in Hx. lia.
Qed.

End Virtio.
