(* ===== verification/Fat32.v ===== *)
(** * FAT32 (kernel/fs/fat32.c)

    The FAT32 driver over a block device: directory entries and long names, the
    file allocation table, path resolution, reading and writing files, mounting,
    and the backend it registers with the virtual file system, which prefers the
    firmware's file protocol while boot services are active.

    The four loops over a directory or file share the shape of [walk]; [fuel]
    bounds the number of clusters visited, since nothing in the code does.
    Buffers on the stack start with unknown contents: [sector0] (512 bytes),
    [lfn0] (256 bytes) and [ename255] (the last byte of [entry_name]).  Progress
    messages on the console are left out; what [fat32_ls] and [fat32_cat] print
    is their result. *)

From stdpp Require Import base tactics numbers option strings list.
From S2P Require Import Prelude Proc Telemetry CMem Alloc Timer Caps Sched Vfs BlockDev.

Module Fat32.
Import Vfs.

(** ** Model *)

Definition FAT32_ENTRY_SIZE : Z := 32.
Definition FAT32_ATTR_LONG_NAME : Z := 15.
Definition FAT32_ATTR_DIRECTORY : Z := 16.
Definition FAT32_EOC : Z := 0x0FFFFFFF.
Definition LFN_MAX : Z := 256.
Definition SPACE : Z := 32.

(** The driver's static variables. *)
Record fat := mk_fat {
  fat32_available : bool;
  fat32_partition_lba : Z;
  fat32_root_cluster : Z;
  fat32_sectors_per_cluster : Z;
  fat32_reserved_sectors : Z;
  fat32_fat_count : Z;
  fat32_fat_size : Z;
  fat32_total_sectors : Z;
  fat32_fsinfo_sector : Z;
  fat32_bytes_per_sector : Z
}.

Definition fat_static : fat := mk_fat false 2048 0 0 0 0 0 0 0 0.

Definition with_unavailable (f : fat) : fat :=
  mk_fat false (fat32_partition_lba f) (fat32_root_cluster f) (fat32_sectors_per_cluster f) (fat32_reserved_sectors f)
    (fat32_fat_count f) (fat32_fat_size f) (fat32_total_sectors f) (fat32_fsinfo_sector f) (fat32_bytes_per_sector f).

Definition with_partition (x : Z) (f : fat) : fat :=
  mk_fat (fat32_available f) x (fat32_root_cluster f) (fat32_sectors_per_cluster f) (fat32_reserved_sectors f)
    (fat32_fat_count f) (fat32_fat_size f) (fat32_total_sectors f) (fat32_fsinfo_sector f) (fat32_bytes_per_sector f).

(** *** On-disk structures *)

Record bpb := mk_bpb {
  jump : list Z;
  oem : list Z;
  bytes_per_sector : Z;
  sectors_per_cluster : Z;
  reserved_sectors : Z;
  fat_count : Z;
  root_entries : Z;
  total_sectors_16 : Z;
  media_type : Z;
  fat_size_16 : Z;
  sectors_per_track : Z;
  head_count : Z;
  hidden_sectors : Z;
  total_sectors_32 : Z;
  fat_size_32 : Z;
  ext_flags : Z;
  version : Z;
  root_cluster : Z;
  fs_info : Z;
  backup_boot_sector : Z;
  reserved : list Z;
  drive_number : Z;
  reserved0 : Z;
  boot_signature : Z;
  volume_id : Z;
  volume_label : list Z;
  fs_type : list Z
}.

(** The packed structure at the start of a sector. *)
Definition get_bpb (b : list Z) : bpb :=
  mk_bpb (slice b 0 3) (slice b 3 8) (get_le 2 b 11) (byte_at b 13) (get_le 2 b 14) (byte_at b 16) (get_le 2 b 17)
    (get_le 2 b 19) (byte_at b 21) (get_le 2 b 22) (get_le 2 b 24) (get_le 2 b 26) (get_le 4 b 28) (get_le 4 b 32)
    (get_le 4 b 36) (get_le 2 b 40) (get_le 2 b 42) (get_le 4 b 44) (get_le 2 b 48) (get_le 2 b 50) (slice b 52 12)
    (byte_at b 64) (byte_at b 65) (byte_at b 66) (get_le 4 b 67) (slice b 71 11) (slice b 82 8).

Record fsinfo := mk_fsinfo { lead_sig : Z; struc_sig : Z; free_count : Z; next_free : Z; trail_sig : Z }.

(** Without the reserved bytes at 4 and 496. *)
Definition get_fsinfo (b : list Z) : fsinfo :=
  mk_fsinfo (get_le 4 b 0) (get_le 4 b 484) (get_le 4 b 488) (get_le 4 b 492) (get_le 4 b 508).

Record mbr_partition := mk_part {
  bootable : Z;
  start_chs : list Z;
  p_type : Z;
  end_chs : list Z;
  start_lba : Z;
  p_size : Z
}.

Definition get_part (b : list Z) (i : Z) : mbr_partition :=
  mk_part (byte_at b i) (slice b (i + 1) 3) (byte_at b (i + 4)) (slice b (i + 5) 3) (get_le 4 b (i + 8)) (get_le 4 b (i + 12)).

(** *** Directory entries *)

Record dirent := mk_de {
  d_name : list Z;
  d_ext : list Z;
  d_attr : Z;
  d_reserved : Z;
  d_create_time_tenth : Z;
  d_create_time : Z;
  d_create_date : Z;
  d_last_access_date : Z;
  d_first_cluster_hi : Z;
  d_write_time : Z;
  d_write_date : Z;
  d_first_cluster_lo : Z;
  d_file_size : Z
}.

(** [(FAT32_DirEntry* )(sector + i)] *)
Definition get_entry (b : list Z) (i : Z) : dirent :=
  mk_de (slice b i 8) (slice b (i + 8) 3) (byte_at b (i + 11)) (byte_at b (i + 12)) (byte_at b (i + 13))
    (get_le 2 b (i + 14)) (get_le 2 b (i + 16)) (get_le 2 b (i + 18)) (get_le 2 b (i + 20))
    (get_le 2 b (i + 22)) (get_le 2 b (i + 24)) (get_le 2 b (i + 26)) (get_le 4 b (i + 28)).

Definition put_entry (b : list Z) (i : Z) (e : dirent) : list Z :=
  let b1 := put_bytes b i (d_name e) in
  let b2 := put_bytes b1 (i + 8) (d_ext e) in
  let b3 := put_le 1 b2 (i + 11) (d_attr e) in
  let b4 := put_le 1 b3 (i + 12) (d_reserved e) in
  let b5 := put_le 1 b4 (i + 13) (d_create_time_tenth e) in
  let b6 := put_le 2 b5 (i + 14) (d_create_time e) in
  let b7 := put_le 2 b6 (i + 16) (d_create_date e) in
  let b8 := put_le 2 b7 (i + 18) (d_last_access_date e) in
  let b9 := put_le 2 b8 (i + 20) (d_first_cluster_hi e) in
  let b10 := put_le 2 b9 (i + 22) (d_write_time e) in
  let b11 := put_le 2 b10 (i + 24) (d_write_date e) in
  let b12 := put_le 2 b11 (i + 26) (d_first_cluster_lo e) in
  put_le 4 b12 (i + 28) (d_file_size e).

Definition with_size (x : Z) (e : dirent) : dirent :=
  mk_de (d_name e) (d_ext e) (d_attr e) (d_reserved e) (d_create_time_tenth e) (d_create_time e) (d_create_date e)
    (d_last_access_date e) (d_first_cluster_hi e) (d_write_time e) (d_write_date e) (d_first_cluster_lo e) x.

Definition is_dir (e : dirent) : bool := negb (Z.land (d_attr e) FAT32_ATTR_DIRECTORY =? 0).
Definition first_cluster (e : dirent) : Z := Z.lor (Z.shiftl (d_first_cluster_hi e) 16) (d_first_cluster_lo e).

(** A C string in a buffer: up to the first NUL. *)
Fixpoint cstr (l : list Z) : list Z :=
  match l with
  | [] => []
  | c :: r => if c =? 0 then [] else c :: cstr r
  end.

Fixpoint until_space (l : list Z) : list Z :=
  match l with
  | [] => []
  | c :: r => if c =? SPACE then [] else c :: until_space r
  end.

(** The characters stored by the loops over [name] and [ext]. *)
Definition short_chars (e : dirent) : list Z :=
  until_space (d_name e) ++
  (if bool_decide (head (d_ext e) = Some SPACE) then [] else DOT :: until_space (d_ext e)).

Definition fat32_print_name (e : dirent) : list Z := cstr (short_chars e).

Definition lower (c : Z) : Z := if (65 <=? c) && (c <=? 90) then c + 32 else c.
Definition upper (c : Z) : Z := if (97 <=? c) && (c <=? 122) then c - 32 else c.

Definition fat32_entry_to_name (e : dirent) (out_size : Z) : list Z :=
  cstr (take (Z.to_nat (out_size - 1)) (lower <$> short_chars e)).

(** Comparison without case, on strings without NUL. *)
Fixpoint streq (a b : list Z) : bool :=
  match a, b with
  | x :: a', y :: b' => if upper x =? upper y then streq a' b' else false
  | [], [] => true
  | _, _ => false
  end.

(** *** Long names

    The low bytes of the 13 characters of a long-name entry. *)
Definition lfn_chars (b : list Z) (i : Z) : list Z :=
  (fun k => byte_at b (i + k)) <$> [1; 3; 5; 7; 9; 14; 16; 18; 20; 22; 24; 28; 30].

Fixpoint wr_all (l : list Z) (i : Z) (x : list Z) : outcome (list Z) :=
  match x with
  | [] => Ret l
  | c :: r => l1 ← wr l i c; wr_all l1 (i + 1) r
  end.

(** One long-name entry.  The lookup clamps the index of the terminator to 255
    ([clamp]); [fat32_readdir] leaves it out when it does not fit. *)
Definition take_lfn (clamp : bool) (b : list Z) (i : Z) (lfn : list Z) (active : bool) : outcome (list Z * bool) :=
  let ord := byte_at b i in
  let order := Z.land ord 31 in
  if (0 <? order) && (order <=? 20) then
    l1 ← wr_all lfn ((order - 1) * 13) (lfn_chars b i);
    if negb (Z.land ord 64 =? 0) then
      let len := order * 13 in
      if clamp then l2 ← wr l1 (if 255 <? len then 255 else len) 0; Ret (l2, true)
      else if len <? LFN_MAX then l2 ← wr l1 len 0; Ret (l2, true) else Ret (l1, true)
    else Ret (l1, true)
  else Ret (lfn, active).

(** [while (len < 255 && lfn_name[len] != 0 && lfn_name[len] != 0xFF) len++] *)
Fixpoint lfn_scan (n : nat) (l : list Z) : Z :=
  match n, l with
  | S k, c :: r => if (c =? 0) || (c =? 255) then 0 else 1 + lfn_scan k r
  | _, _ => 0
  end.

Definition lfn_len (lfn : list Z) : Z := lfn_scan 255 lfn.

Section fat32.
Context {D : Type} `{BlockDevice D}.
Context (sector0 lfn0 : list Z) (ename255 : Z).
Implicit Types (f : fat) (d : D).

Record fstate := mk_fs { fs : fat; dev : D }.

Definition with_dev (x : D) (s : fstate) : fstate := mk_fs (fs s) x.

(** *** Clusters *)

Definition fat32_is_end_of_chain (entry : Z) : bool := 0x0FFFFFF8 <=? entry.

Definition fat32_cluster_to_lba f (cluster : Z) : Z :=
  let data_start := u32 (fat32_partition_lba f + fat32_reserved_sectors f + u32 (fat32_fat_count f * fat32_fat_size f)) in
  u32 (data_start + u32 (u32 (cluster - 2) * fat32_sectors_per_cluster f)).

Definition fat32_read_sector (lba : Z) (buf : list Z) d : bool * list Z * D := ata_read_sector lba buf d.

Definition fat_lba f (cluster : Z) : Z :=
  u32 (fat32_partition_lba f + fat32_reserved_sectors f + u32 (cluster * 4) / 512).
Definition fat_index (cluster : Z) : Z := u32 (cluster * 4) mod 512.

Definition fat32_read_fat_entry f (cluster : Z) d : Z * D :=
  let '(_, sector, d1) := fat32_read_sector (fat_lba f cluster) sector0 d in
  (Z.land (get_le 4 sector (fat_index cluster)) 0x0FFFFFFF, d1).

Definition fat32_write_fat_entry f (cluster value : Z) d : bool * D :=
  let '(ok, sector, d1) := fat32_read_sector (fat_lba f cluster) sector0 d in
  if negb ok then (false, d1)
  else
    let entry := get_le 4 sector (fat_index cluster) in
    let entry' := Z.lor (Z.land entry 0xF0000000) (Z.land value 0x0FFFFFFF) in
    ata_write_sector (fat_lba f cluster) (put_le 4 sector (fat_index cluster) entry') d1.

(** The scan from [cluster]; [n] clusters remain. *)
Fixpoint find_free_from (n : nat) f (cluster : Z) d : Z * D :=
  match n with
  | O => (0, d)
  | S k =>
      let '(e, d1) := fat32_read_fat_entry f cluster d in
      if e =? 0 then (cluster, d1) else find_free_from k f (cluster + 1) d1
  end.

Definition fat32_find_free_cluster f d : Z * D :=
  find_free_from (Z.to_nat (u32 (fat32_fat_size f * 512) / 4 - 2)) f 2 d.

(** *** Loops over a chain

    [while (go_cluster && !end_of_chain(cluster)) { for each sector while
    go_sector: body; cluster = next }], where the body may return ([inr]). *)
Section walk.
Context {S R : Type} (f : fat) (go_cluster go_sector : S -> bool) (body : Z -> S -> D -> outcome ((S + R) * D)).

Fixpoint walk_sectors (n : nat) (idx : Z) (cluster : Z) (s : S) d : outcome ((S + R) * D) :=
  match n with
  | O => Ret (inl s, d)
  | Datatypes.S k =>
      if negb (go_sector s) then Ret (inl s, d)
      else
        '(r, d1) ← body (u32 (fat32_cluster_to_lba f cluster + idx)) s d;
        match r with
        | inl s1 => walk_sectors k (idx + 1) cluster s1 d1
        | inr x => Ret (inr x, d1)
        end
  end.

Fixpoint walk (fuel : nat) (cluster : Z) (s : S) d : outcome ((S + R) * D) :=
  match fuel with
  | O => OutOfFuel
  | Datatypes.S k =>
      if negb (go_cluster s) || fat32_is_end_of_chain cluster then Ret (inl s, d)
      else
        '(r, d1) ← walk_sectors (Z.to_nat (fat32_sectors_per_cluster f)) 0 cluster s d;
        match r with
        | inl s1 => let '(c, d2) := fat32_read_fat_entry f cluster d1 in walk k c s1 d2
        | inr x => Ret (inr x, d1)
        end
  end.
End walk.

(** The offsets of the sixteen entries of a sector. *)
Definition entry_offsets : list Z := [0; 32; 64; 96; 128; 160; 192; 224; 256; 288; 320; 352; 384; 416; 448; 480].

(** *** Updating a directory entry *)

Fixpoint update_in_sector (offs : list Z) (name : list Z) (e : dirent) (sector : list Z) : option (list Z) :=
  match offs with
  | [] => None
  | i :: r =>
      let chars := short_chars (get_entry sector i) in
      if (0 <? zlen chars) && streq (cstr chars) name then Some (put_entry sector i e)
      else update_in_sector r name e sector
  end.

Definition update_body (name : list Z) (e : dirent) (lba : Z) (sector : list Z) d : outcome ((list Z + bool) * D) :=
  let '(_, sector1, d1) := fat32_read_sector lba sector d in
  match update_in_sector entry_offsets name e sector1 with
  | Some sector2 => let '(ok, d2) := ata_write_sector lba sector2 d1 in Ret (inr ok, d2)
  | None => Ret (inl sector1, d1)
  end.

Definition fat32_update_directory_entry (fuel : nat) f (cluster : Z) (name : list Z) (e : dirent) d : outcome (bool * D) :=
  '(r, d1) ← walk f (fun _ => true) (fun _ => true) (update_body name e) fuel cluster sector0 d;
  Ret (match r with inl _ => false | inr ok => ok end, d1).

(** *** Looking up a name *)

(** The name compared with the wanted one, and the long-name buffer afterwards. *)
Definition entry_name (e : dirent) (lfn : list Z) (active : bool) : list Z * list Z :=
  if active then
    let len := lfn_len lfn in
    let lfn1 := lfn.[len <- 0] in
    (if len <? 255 then take (Z.to_nat len) lfn1 else cstr (take 255 lfn1 ++ [ename255]), lfn1)
  else (cstr (short_chars e), lfn).

(** The entries of one sector: [inr] ends the search. *)
Fixpoint find_in_sector (offs : list Z) (name : list Z) (sector lfn : list Z) (active : bool)
  : outcome ((list Z * bool) + option dirent) :=
  match offs with
  | [] => Ret (inl (lfn, active))
  | i :: r =>
      let c := byte_at sector i in
      if c =? 0 then Ret (inr None)
      else if c =? 0xE5 then find_in_sector r name sector lfn false
      else if byte_at sector (i + 11) =? FAT32_ATTR_LONG_NAME then
        '(lfn1, active1) ← take_lfn true sector i lfn active;
        find_in_sector r name sector lfn1 active1
      else
        let e := get_entry sector i in
        let '(nm, lfn1) := entry_name e lfn active in
        if streq nm name then Ret (inr (Some e)) else find_in_sector r name sector lfn1 false
  end.

(** State: the sector buffer, the long-name buffer and its flag. *)
Definition find_body (name : list Z) (lba : Z) (st : list Z * list Z * bool) d
  : outcome ((list Z * list Z * bool + option dirent) * D) :=
  let '(sector, lfn, active) := st in
  let '(ok, sector1, d1) := fat32_read_sector lba sector d in
  if negb ok then Ret (inr None, d1)
  else
    r ← find_in_sector entry_offsets name sector1 lfn active;
    Ret (match r with inl (lfn1, active1) => inl (sector1, lfn1, active1) | inr x => inr x end, d1).

Definition fat32_find_entry_in_cluster (fuel : nat) f (cluster : Z) (name : list Z) d : outcome (option dirent * D) :=
  '(r, d1) ← walk f (fun _ => true) (fun _ => true) (find_body name) fuel cluster (sector0, lfn0, false) d;
  Ret (match r with inl _ => None | inr x => x end, d1).

(** The loop over the segments of the path. *)
Fixpoint resolve_path (n : nat) (fuel : nat) f (path : list Z) (cluster : Z) (out : option dirent) d
  : outcome (option dirent * D) :=
  match path with
  | [] => Ret (out, d)
  | _ =>
      match n with
      | O => OutOfFuel
      | S k =>
          let '(seg, rest) := take_component path in
          let segment := take 255 seg in
          if 0 <? zlen segment then
            '(r, d1) ← fat32_find_entry_in_cluster fuel f cluster segment d;
            match r with
            | None => Ret (None, d1)
            | Some e =>
                match rest with
                | [] => Ret (Some e, d1)
                | _ =>
                    if negb (is_dir e) then Ret (None, d1)
                    else if first_cluster e <? 2 then Ret (None, d1)
                    else resolve_path k fuel f (skip_slashes rest) (first_cluster e) (Some e) d1
                end
            end
          else resolve_path k fuel f (skip_slashes rest) cluster out d
      end
  end.

Definition fat32_find_root_entry (fuel : nat) f (path : list Z) d : outcome (option dirent * D) :=
  match skip_slashes path with
  | [] => Ret (None, d)
  | p => resolve_path (S (length p)) fuel f p (fat32_root_cluster f) None d
  end.
(** *** Mounting *)

Definition partition_type (t : Z) : bool := (t =? 0x0B) || (t =? 0x0C) || (t =? 0xEF).

Fixpoint find_part (slots : list Z) (mbr : list Z) : Z :=
  match slots with
  | [] => 2048
  | i :: r => if partition_type (p_type (get_part mbr i)) then start_lba (get_part mbr i) else find_part r mbr
  end.

Definition fat32_find_partition d : Z * D :=
  let '(ok, mbr, d1) := fat32_read_sector 0 sector0 d in
  (if negb ok then 2048
   else if negb (byte_at mbr 510 =? 0x55) || negb (byte_at mbr 511 =? 0xAA) then 2048
   else find_part [446; 462; 478; 494] mbr, d1).

Definition bpb_valid (b : list Z) : bool :=
  (get_le 2 b 510 =? 0xAA55) &&
  negb (negb (bytes_per_sector (get_bpb b) =? 512) || (fat_count (get_bpb b) =? 0) || (fat_size_32 (get_bpb b) =? 0)).

Definition fat32_init (s : fstate) : bool * fstate :=
  let f := fs s in
  if negb (ata_is_available (dev s)) then (false, mk_fs (with_unavailable f) (dev s))
  else
    let '(part, d1) := fat32_find_partition (dev s) in
    let f1 := with_partition part f in
    let '(ok, b, d2) := fat32_read_sector part sector0 d1 in
    if negb ok then (false, mk_fs (with_unavailable f1) d2)
    else if negb (bpb_valid b) then (false, mk_fs (with_unavailable f1) d2)
    else
      let p := get_bpb b in
      (true, mk_fs (mk_fat true part (root_cluster p) (sectors_per_cluster p) (reserved_sectors p) (fat_count p) (fat_size_32 p)
                      (total_sectors_32 p) (fs_info p) (bytes_per_sector p)) d2).

(** Result, [total_kb] and [free_kb]. *)
Definition fat32_storage_info (s : fstate) : Z * Z * Z * fstate :=
  let f := fs s in
  if negb (fat32_available f) then (0, 0, 0, s)
  else
    let total_kb := u32 (u64 (fat32_total_sectors f * fat32_bytes_per_sector f) / 1024) in
    if fat32_fsinfo_sector f =? 0 then (0, total_kb, 0, s)
    else
      let '(ok, b, d1) := fat32_read_sector (u32 (fat32_partition_lba f + fat32_fsinfo_sector f)) sector0 (dev s) in
      if negb ok then (0, total_kb, 0, with_dev d1 s)
      else if negb (lead_sig (get_fsinfo b) =? 0x41615252) || negb (struc_sig (get_fsinfo b) =? 0x61417272) ||
              (free_count (get_fsinfo b) =? 0xFFFFFFFF)
      then (0, total_kb, 0, with_dev d1 s)
      else
        let free_bytes := u64 (free_count (get_fsinfo b) * fat32_sectors_per_cluster f * fat32_bytes_per_sector f) in
        (1, total_kb, u32 (free_bytes / 1024), with_dev d1 s).

(** *** Listing and printing *)

(** The names printed for one sector; the flag ends the listing. *)
Fixpoint ls_sector (offs : list Z) (sector : list Z) : list (list Z) * bool :=
  match offs with
  | [] => ([], false)
  | i :: r =>
      let c := byte_at sector i in
      if c =? 0 then ([], true)
      else if (c =? 0xE5) || (byte_at sector (i + 11) =? FAT32_ATTR_LONG_NAME) then ls_sector r sector
      else
        let e := get_entry sector i in
        let '(l, stop) := ls_sector r sector in
        ((fat32_print_name e ++ if is_dir e then [SLASH] else []) :: l, stop)
  end.

Definition ls_body (lba : Z) (st : list Z * list (list Z)) d : outcome ((list Z * list (list Z) + list (list Z)) * D) :=
  let '(sector, out) := st in
  let '(_, sector1, d1) := fat32_read_sector lba sector d in
  let '(l, stop) := ls_sector entry_offsets sector1 in
  Ret (if stop then inr (out ++ l) else inl (sector1, out ++ l), d1).

(** The lines printed; [None] when the file system is not mounted. *)
Definition fat32_ls (fuel : nat) (s : fstate) : outcome (option (list (list Z)) * fstate) :=
  if negb (fat32_available (fs s)) then Ret (None, s)
  else
    '(r, d1) ← walk (fs s) (fun _ => true) (fun _ => true) ls_body fuel (fat32_root_cluster (fs s)) (sector0, []) (dev s);
    Ret (Some (match r with inl (_, out) => out | inr out => out end), with_dev d1 s).

(** State: the sector buffer, the bytes printed, and [remaining]. *)
Definition cat_body (lba : Z) (st : list Z * list Z * Z) d : outcome ((list Z * list Z * Z + unit) * D) :=
  let '(sector, out, remaining) := st in
  let '(_, sector1, d1) := fat32_read_sector lba sector d in
  let to_print := if remaining <? 512 then remaining else 512 in
  Ret (inl (sector1, out ++ slice sector1 0 to_print, remaining - to_print), d1).

(** Result and printed bytes; [None] stands for the message about a directory. *)
Definition fat32_cat (fuel : nat) (path : list Z) (s : fstate) : outcome (Z * option (list Z) * fstate) :=
  if negb (fat32_available (fs s)) then Ret (0, Some [], s)
  else
    '(r, d1) ← fat32_find_root_entry fuel (fs s) path (dev s);
    match r with
    | None => Ret (0, Some [], with_dev d1 s)
    | Some e =>
        if is_dir e then Ret (1, None, with_dev d1 s)
        else
          '(x, d2) ← walk (fs s) (fun st => 0 <? st.2) (fun st => 0 <? st.2) cat_body fuel (first_cluster e)
                       (sector0, [], d_file_size e) d1;
          Ret (1, Some (match x with inl (_, out, _) => out | inr _ => [] end), with_dev d2 s)
    end.

(** *** Operations of the file system interface *)

Definition fat32_stat (fuel : nat) (path : list Z) (out : vfs_stat_t) (s : fstate) : outcome (Z * vfs_stat_t * fstate) :=
  if negb (fat32_available (fs s)) then Ret (VFS_EIO, out, s)
  else if bool_decide (path = [SLASH]) then Ret (VFS_OK, mk_stat [SLASH] VFS_DIRECTORY 0 493, s)
  else
    '(r, d1) ← fat32_find_root_entry fuel (fs s) path (dev s);
    match r with
    | None => Ret (VFS_ENOENT, out, with_dev d1 s)
    | Some e =>
        Ret (VFS_OK, mk_stat (fat32_entry_to_name e VFS_NAME_MAX) (if is_dir e then VFS_DIRECTORY else VFS_FILE)
                       (d_file_size e) (if is_dir e then 493 else 420), with_dev d1 s)
    end.

(** The entries of one sector, while there is room; [true] at the end marker. *)
Fixpoint readdir_sector (offs : list Z) (sector lfn : list Z) (active : bool) (count : Z) (es : list dir_entry)
  : outcome (list Z * bool * Z * list dir_entry * bool) :=
  match offs with
  | [] => Ret (lfn, active, count, es, false)
  | i :: r =>
      if zlen es <=? count then Ret (lfn, active, count, es, false)
      else
        let c := byte_at sector i in
        if c =? 0 then Ret (lfn, active, count, es, true)
        else if c =? 0xE5 then readdir_sector r sector lfn false count es
        else if byte_at sector (i + 11) =? FAT32_ATTR_LONG_NAME then
          '(lfn1, active1) ← take_lfn false sector i lfn active;
          readdir_sector r sector lfn1 active1 count es
        else
          let e := get_entry sector i in
          let '(nm, lfn1) :=
            if active then let lfn1 := lfn.[lfn_len lfn <- 0] in (take 63 (cstr lfn1), lfn1)
            else (fat32_entry_to_name e VFS_NAME_MAX, lfn) in
          readdir_sector r sector lfn1 false (count + 1)
            (es.[count <- mk_dirent nm (if is_dir e then VFS_DIRECTORY else VFS_FILE) (d_file_size e)])
  end.

(** State: sector and long-name buffers, flag, count and entries. *)
Definition readdir_body (lba : Z) (st : list Z * list Z * bool * Z * list dir_entry) d
  : outcome ((list Z * list Z * bool * Z * list dir_entry + Z * list dir_entry) * D) :=
  let '(sector, lfn, active, count, es) := st in
  let '(_, sector1, d1) := fat32_read_sector lba sector d in
  '(lfn1, active1, count1, es1, stop) ← readdir_sector entry_offsets sector1 lfn active count es;
  Ret (if (stop : bool) then inr (count1, es1) else inl (sector1, lfn1, active1, count1, es1), d1).

Definition fat32_readdir (fuel : nat) (path : list Z) (es : list dir_entry) (s : fstate)
  : outcome (Z * list dir_entry * fstate) :=
  if negb (fat32_available (fs s)) then Ret (VFS_EIO, es, s)
  else
    '(start, d1) ←
      (if bool_decide (path = [SLASH]) then Ret (inl (fat32_root_cluster (fs s)), dev s)
       else
         '(r, d1) ← fat32_find_root_entry fuel (fs s) path (dev s);
         Ret (match r with
              | None => inr VFS_ENOENT
              | Some e => if is_dir e then inl (first_cluster e) else inr VFS_ENOTDIR
              end, d1));
    match start with
    | inr err => Ret (err, es, with_dev d1 s)
    | inl cluster =>
        '(r, d2) ← walk (fs s) (fun '(_, _, _, count, es) => count <? zlen es) (fun _ => true) readdir_body fuel cluster
                     (sector0, lfn0, false, 0, es) d1;
        let '(count, es1) := match r with inl (_, _, _, count, es1) => (count, es1) | inr x => x end in
        Ret (count, es1, with_dev d2 s)
    end.

(** *** Reading *)

(** [while (skip >= cluster_bytes && !end_of_chain(cluster))] *)
Fixpoint skip_clusters (fuel : nat) f (cluster skip : Z) d : outcome (Z * Z * D) :=
  match fuel with
  | O => OutOfFuel
  | S k =>
      let cluster_bytes := fat32_sectors_per_cluster f * 512 in
      if (cluster_bytes <=? skip) && negb (fat32_is_end_of_chain cluster) then
        let '(c, d1) := fat32_read_fat_entry f cluster d in
        skip_clusters k f c (skip - cluster_bytes) d1
      else Ret (cluster, skip, d)
  end.

(** State: the sector buffer, the bytes copied out, and [skip]. *)
Definition read_body (size lba : Z) (st : list Z * list Z * Z) d : outcome ((list Z * list Z * Z + unit) * D) :=
  let '(sector, out, skip) := st in
  if (0 <? skip) && (512 <=? skip) then Ret (inl (sector, out, skip - 512), d)
  else
    let sector_offset := if 0 <? skip then skip else 0 in
    let '(_, sector1, d1) := fat32_read_sector lba sector d in
    let room := 512 - sector_offset in
    let to_copy := if size - zlen out <? room then size - zlen out else room in
    Ret (inl (sector1, out ++ slice sector1 sector_offset to_copy, 0), d1).

(** Result and the bytes stored in the buffer. *)
Definition fat32_read (fuel : nat) (path : list Z) (offset size : Z) (s : fstate) : outcome (Z * list Z * fstate) :=
  if negb (fat32_available (fs s)) then Ret (VFS_EIO, [], s)
  else
    '(r, d1) ← fat32_find_root_entry fuel (fs s) path (dev s);
    match r with
    | None => Ret (VFS_ENOENT, [], with_dev d1 s)
    | Some e =>
        if is_dir e then Ret (VFS_EISDIR, [], with_dev d1 s)
        else if d_file_size e <=? offset then Ret (0, [], with_dev d1 s)
        else
          let avail := d_file_size e - offset in
          let size1 := if avail <? size then avail else size in
          '(cluster, skip, d2) ← skip_clusters fuel (fs s) (first_cluster e) offset d1;
          '(x, d3) ← walk (fs s) (fun '(_, out, _) => zlen out <? size1) (fun '(_, out, _) => zlen out <? size1)
                       (read_body size1) fuel cluster (sector0, [], skip) d2;
          let out := match x with inl (_, out, _) => out | inr _ => [] end in
          Ret (s32 (zlen out), out, with_dev d3 s)
    end.

(** *** Writing *)

(** The loop that extends the chain; [false] when no cluster is free. *)
Fixpoint expand_chain (fuel : nat) f (cluster write_end : Z) d : outcome (bool * D) :=
  match fuel with
  | O => OutOfFuel
  | S k =>
      let cluster_bytes := fat32_sectors_per_cluster f * 512 in
      if cluster_bytes <? write_end then
        let '(next, d1) := fat32_read_fat_entry f cluster d in
        if fat32_is_end_of_chain next then
          let '(c, d2) := fat32_find_free_cluster f d1 in
          if c =? 0 then Ret (false, d2)
          else
            let '(_, d3) := fat32_write_fat_entry f cluster c d2 in
            let '(_, d4) := fat32_write_fat_entry f c 0x0FFFFFFF d3 in
            expand_chain k f c (write_end - cluster_bytes) d4
        else expand_chain k f next (write_end - cluster_bytes) d1
      else Ret (true, d)
  end.

(** State: the sector buffer, [bytes_written] and [skip]. *)
Definition write_body (data : list Z) (lba : Z) (st : list Z * Z * Z) d : outcome ((list Z * Z * Z + unit) * D) :=
  let '(sector, written, skip) := st in
  if 512 <=? skip then Ret (inl (sector, written, skip - 512), d)
  else
    let sector_offset := skip in
    let '(sector1, d1) :=
      if negb (sector_offset =? 0) || (zlen data - written <? 512)
      then let '(_, b, d1) := fat32_read_sector lba sector d in (b, d1)
      else (sector, d) in
    let room := 512 - sector_offset in
    let to_copy := if zlen data - written <? room then zlen data - written else room in
    let sector2 := put_bytes sector1 sector_offset (slice data written to_copy) in
    let '(_, d2) := ata_write_sector lba sector2 d1 in
    Ret (inl (sector2, written + to_copy, 0), d2).

Definition fat32_write (fuel : nat) (path : list Z) (offset : Z) (data : list Z) (s : fstate) : outcome (Z * fstate) :=
  let f := fs s in
  if negb (fat32_available f) then Ret (VFS_EIO, s)
  else
    '(r, d1) ← fat32_find_root_entry fuel f path (dev s);
    match r with
    | None => Ret (VFS_ENOENT, with_dev d1 s)
    | Some e =>
        if is_dir e then Ret (VFS_EISDIR, with_dev d1 s)
        else
          let write_end := u64 (offset + zlen data) in
          '(ok, d2) ← expand_chain fuel f (first_cluster e) write_end d1;
          if negb ok then Ret (VFS_ENOSPC, with_dev d2 s)
          else
            '(x, d3) ← walk f (fun '(_, written, _) => written <? zlen data) (fun '(_, written, _) => written <? zlen data)
                         (write_body data) fuel (first_cluster e) (sector0, 0, offset) d2;
            let written := match x with inl (_, written, _) => written | inr _ => 0 end in
            if d_file_size e <? write_end then
              '(_, d4) ← fat32_update_directory_entry fuel f (fat32_root_cluster f) path (with_size (u32 write_end) e) d3;
              Ret (s32 written, with_dev d4 s)
            else Ret (s32 written, with_dev d3 s)
    end.
(** *** The firmware's file protocol *)

(** The path as the firmware gets it; '/' becomes a backslash. *)
Definition BACKSLASH : Z := 92.

Definition ascii_to_utf16_path (src : list Z) (max_len : Z) : list Z :=
  let p := match src with c :: r => if c =? SLASH then r else src | [] => [] end in
  BACKSLASH :: take (Z.to_nat (max_len - 2)) ((fun c => if c =? SLASH then BACKSLASH else c) <$> p).

(** Firmware calls, not part of the kernel: arguments of the model.  Reading
    returns the status and the bytes delivered, writing the status and the length. *)
Record efi (H : Type) := mk_efi {
  efi_active : D -> bool;
  efi_open : list Z -> Z -> D -> Z * H * D;
  efi_set_position : option (H -> Z -> D -> D);
  efi_get_position : option (H -> D -> Z * D);
  efi_read : H -> Z -> D -> Z * list Z * D;
  efi_write : H -> list Z -> D -> Z * Z * D;
  efi_flush : option (H -> D -> D);
  efi_close : H -> D -> D
}.
Arguments efi_active {H}. Arguments efi_open {H}. Arguments efi_set_position {H}. Arguments efi_get_position {H}.
Arguments efi_read {H}. Arguments efi_write {H}. Arguments efi_flush {H}. Arguments efi_close {H}.

Definition EFI_READ : Z := 1.
Definition EFI_READ_WRITE : Z := 3.
Definition EFI_CREATE : Z := 0x8000000000000003.

Context {FH : Type} (fw : efi FH).

Definition fat32_is_available (s : fstate) : bool := fat32_available (fs s) || efi_active fw (dev s).

Definition set_position (h : FH) (pos : Z) d : D :=
  match efi_set_position fw with Some g => g h pos d | None => d end.

(** The part of the path after the last slash. *)
Fixpoint base_name (p : list Z) : list Z :=
  match p with
  | [] => []
  | c :: r => if existsb (fun x => x =? SLASH) r then base_name r else if c =? SLASH then r else p
  end.

Definition fat32_be_stat (fuel : nat) (rel_path : list Z) (out : vfs_stat_t) (s : fstate) : outcome (Z * vfs_stat_t * fstate) :=
  if efi_active fw (dev s) then
    let '(status, h, d1) := efi_open fw (ascii_to_utf16_path rel_path 256) EFI_READ (dev s) in
    if negb (status =? 0) then Ret (-2, out, with_dev d1 s)
    else
      let d2 := set_position h 0xFFFFFFFFFFFFFFFF d1 in
      let '(size, d3) := match efi_get_position fw with Some g => g h d2 | None => (0, d2) end in
      let d4 := set_position h 0 d3 in
      Ret (0, mk_stat (take 63 (base_name rel_path)) VFS_FILE size (st_mode out), with_dev (efi_close fw h d4) s)
  else fat32_stat fuel rel_path out s.

(** The name in an EFI_FILE_INFO record; at most [n] characters. *)
Fixpoint efi_name (n : nat) (b : list Z) (i : Z) : list Z :=
  match n with
  | O => []
  | S k => let c := get_le 2 b i in if c =? 0 then [] else Z.land c 0x7F :: efi_name k b (i + 2)
  end.

Fixpoint efi_readdir (fuel : nat) (h : FH) (info_buf : list Z) (count : Z) (es : list dir_entry) d
  : outcome (Z * list dir_entry * D) :=
  match fuel with
  | O => OutOfFuel
  | S k =>
      if zlen es <=? count then Ret (count, es, d)
      else
        let '(status, bytes, d1) := efi_read fw h 512 d in
        let b := put_bytes info_buf 0 bytes in
        if negb (status =? 0) || (zlen bytes =? 0) then Ret (count, es, d1)
        else
          let nm := cstr (efi_name 63 b 80) in
          let old := es.[count] in
          if bool_decide (nm = [DOT]) || bool_decide (nm = [DOT; DOT]) then
            efi_readdir k h b count
              (match old with Some e => es.[count <- mk_dirent nm (de_type e) (de_size e)] | None => es end) d1
          else
            efi_readdir k h b (count + 1)
              (es.[count <- mk_dirent nm (if Z.land (get_le 8 b 72) 0x10 =? 0 then VFS_FILE else VFS_DIRECTORY) (get_le 8 b 8)]) d1
  end.

Definition fat32_be_readdir (fuel : nat) (rel_path : list Z) (es : list dir_entry) (s : fstate)
  : outcome (Z * list dir_entry * fstate) :=
  if efi_active fw (dev s) then
    let '(status, h, d1) := efi_open fw (ascii_to_utf16_path rel_path 256) EFI_READ (dev s) in
    if negb (status =? 0) then Ret (-2, es, with_dev d1 s)
    else
      '(count, es1, d2) ← efi_readdir fuel h sector0 0 es d1;
      Ret (count, es1, with_dev (efi_close fw h d2) s)
  else fat32_readdir fuel rel_path es s.

Definition fat32_be_read (fuel : nat) (rel_path : list Z) (offset size : Z) (s : fstate) : outcome (Z * list Z * fstate) :=
  if efi_active fw (dev s) then
    let '(status, h, d1) := efi_open fw (ascii_to_utf16_path rel_path 256) EFI_READ (dev s) in
    if negb (status =? 0) then Ret (-2, [], with_dev d1 s)
    else
      let d2 := set_position h offset d1 in
      let '(status1, bytes, d3) := efi_read fw h size d2 in
      let d4 := efi_close fw h d3 in
      if negb (status1 =? 0) then Ret (-5, bytes, with_dev d4 s) else Ret (s32 (zlen bytes), bytes, with_dev d4 s)
  else fat32_read fuel rel_path offset size s.

(** Opening for writing: an existing file, otherwise a new one. *)
Definition open_write (rel_path : list Z) d : Z * FH * D :=
  let w := ascii_to_utf16_path rel_path 256 in
  let '(status, h, d1) := efi_open fw w EFI_READ_WRITE d in
  if negb (status =? 0) then efi_open fw w EFI_CREATE d1 else (status, h, d1).

Definition fat32_be_write (fuel : nat) (rel_path : list Z) (offset : Z) (data : list Z) (s : fstate) : outcome (Z * fstate) :=
  if efi_active fw (dev s) then
    let '(status, h, d1) := open_write rel_path (dev s) in
    if negb (status =? 0) then Ret (-5, with_dev d1 s)
    else
      let d2 := set_position h offset d1 in
      let '(status1, len, d3) := efi_write fw h data d2 in
      let d4 := efi_close fw h d3 in
      if negb (status1 =? 0) then Ret (-5, with_dev d4 s) else Ret (s32 len, with_dev d4 s)
  else fat32_write fuel rel_path offset data s.

Definition fat32_uefi_write (fuel : nat) (rel_path : list Z) (data : list Z) (s : fstate) : outcome (Z * fstate) :=
  if negb (efi_active fw (dev s)) then fat32_write fuel rel_path 0 data s
  else
    let '(status, h, d1) := open_write rel_path (dev s) in
    if negb (status =? 0) then Ret (-5, with_dev d1 s)
    else
      let d2 := set_position h 0 d1 in
      let '(status1, len, d3) := efi_write fw h data d2 in
      let d4 := match efi_flush fw with Some g => g h d3 | None => d3 end in
      let d5 := efi_close fw h d4 in
      if negb (status1 =? 0) then Ret (-5, with_dev d5 s) else Ret (s32 len, with_dev d5 s).

(** "fat32" *)
Definition g_fat32_backend (fuel : nat) : backend fstate :=
  mk_backend [102; 97; 116; 51; 50] (Some (fat32_be_stat fuel)) (Some (fat32_be_readdir fuel)) (Some (fat32_be_read fuel))
    (Some (fat32_be_write fuel)) None None None.
End fat32.
End Fat32.
