(* ===== verification/Fat32Spec.v ===== *)
(** * Correctness of the FAT32 driver

    Against the interface of a block device: what the driver reads and writes in
    terms of the chains of clusters on the disk. *)

From stdpp Require Import base tactics numbers option strings sets list.
From S2P Require Import Prelude Proc Telemetry CMem Alloc Timer Caps Sched Vfs BlockDev Fat32.

Module Fat32Spec.
Import Vfs Fat32.

Section spec.
Context {D : Type} `{HD : BlockDevice D, HL : !BlockDeviceLaws D}.
Context (sector0 lfn0 : list Z) (ename255 : Z) (Hsector0 : zlen sector0 = SECTOR).
Implicit Types (f : fat) (d : D).

(** ** The disk as the driver sees it *)

(** The device did not change what is stored. *)
Definition same d d' : Prop := bd_ready d' /\ forall x, disk d' x = disk d x.

Definition next f d (c : Z) : Z := Z.land (get_le 4 (disk d (fat_lba f c)) (fat_index c)) 0x0FFFFFFF.

(** The sectors of a cluster and their contents. *)
Definition sectors_of f (c : Z) : list Z :=
  (fun i => u32 (fat32_cluster_to_lba f c + i)) <$> seqZ 0 (fat32_sectors_per_cluster f).

(** The sector of the table with the entry of [c], and the sectors of its data,
    are on the device. *)
Definition usable f (c : Z) : Prop :=
  0 <= fat_lba f c < bd_limit /\ Forall (fun x => 0 <= x < bd_limit) (sectors_of f c).

(** The clusters from [c] to the end of the chain. *)
Inductive chain f d : Z -> list Z -> Prop :=
| chain_end c : fat32_is_end_of_chain c = true -> chain f d c []
| chain_step c cs : fat32_is_end_of_chain c = false -> usable f c -> chain f d (next f d c) cs -> chain f d c (c :: cs).

Definition chain_sectors f (cs : list Z) : list Z := concat (sectors_of f <$> cs).
Definition chain_data f d (cs : list Z) : list Z := concat (disk d <$> chain_sectors f cs).

Lemma same_refl d : bd_ready d -> same d d.
Proof. by split. Qed.

Lemma same_trans d1 d2 d3 : same d1 d2 -> same d2 d3 -> same d1 d3.
Proof. intros [_ H1] [Hr H2]. split; [done|]. intros x. by rewrite H2, H1. Qed.

Lemma same_ready d d' : same d d' -> bd_ready d'.
Proof. by intros []. Qed.

Lemma same_disk d d' x : same d d' -> disk d' x = disk d x.
Proof. by intros []. Qed.

Lemma same_next f d d' c : same d d' -> next f d' c = next f d c.
Proof. intros [_ H]. unfold next. by rewrite H. Qed.

Lemma same_chain f d d' c cs : same d d' -> chain f d c cs -> chain f d' c cs.
Proof.
  intros Hs. induction 1 as [c|c cs He Hu _ IH]; [by constructor|]. constructor; [done|done|]. by rewrite (same_next f d).
Qed.

Lemma same_data f d d' cs : same d d' -> chain_data f d' cs = chain_data f d cs.
Proof. intros [_ H]. unfold chain_data. f_equal. apply list_fmap_ext. auto. Qed.

Lemma fat_index_range c : 0 <= fat_index c /\ fat_index c + 4 <= SECTOR.
Proof.
  unfold fat_index, u32, SECTOR. assert ((c * 4) mod 2 ^ 32 mod 4 = 0) as H4.
  { rewrite <- Znumtheory.Zmod_div_mod; [|lia|lia|exists (2 ^ 30); lia]. apply Z.mod_mul. lia. }
  pose proof (Z.div_mod ((c * 4) mod 2 ^ 32) 512 ltac:(lia)). pose proof (Z.mod_pos_bound ((c * 4) mod 2 ^ 32) 512 ltac:(lia)).
  pose proof (Z.div_mod ((c * 4) mod 2 ^ 32) 4 ltac:(lia)). lia.
Qed.

Lemma read_fat_entry_ok f c d :
  bd_ready d -> 0 <= fat_lba f c < bd_limit ->
  exists d', fat32_read_fat_entry sector0 f c d = (next f d c, d') /\ same d d'.
Proof.
  intros Hd Hc. unfold fat32_read_fat_entry, fat32_read_sector.
  destruct (bd_read d (fat_lba f c) sector0 Hd Hc Hsector0) as (d' & -> & Hr & Hs). by exists d'.
Qed.

Lemma read_fat_entry_same f c d x d' : bd_ready d -> fat32_read_fat_entry sector0 f c d = (x, d') -> same d d'.
Proof.
  intros Hd. unfold fat32_read_fat_entry, fat32_read_sector.
  destruct (ata_read_sector (fat_lba f c) sector0 d) as [[ok b] d1] eqn:E. intros [= _ <-]. by apply bd_read_any in E.
Qed.

(** ** Read-only loops

    A body that applies [step] to the contents of the sector and leaves the disk
    alone turns [walk] into a fold over the contents of the chain. *)
Section walks.
Context {S R : Type} (f : fat) (go : S -> bool) (body : Z -> S -> D -> outcome ((S + R) * D)) (step : list Z -> S -> outcome (S + R)).
Context (I : S -> Prop).
Hypothesis body_step : forall lba s d, bd_ready d -> 0 <= lba < bd_limit -> I s ->
  exists d', body lba s d = (r ← step (disk d lba) s; Ret (r, d')) /\ same d d'.
Hypothesis step_inv : forall b s s', I s -> zlen b = SECTOR -> step b s = Ret (inl s') -> I s'.

Fixpoint fold_sectors (bs : list (list Z)) (s : S) : outcome (S + R) :=
  match bs with
  | [] => Ret (inl s)
  | b :: r =>
      if negb (go s) then Ret (inl s)
      else x ← step b s; match x with inl s' => fold_sectors r s' | inr y => Ret (inr y) end
  end.
Lemma fold_stop bs s : go s = false -> fold_sectors bs s = Ret (inl s).
Proof. intros Hg. destruct bs; cbn; [done|]. by rewrite Hg. Qed.

Lemma fold_app bs1 bs2 s :
  fold_sectors (bs1 ++ bs2) s = (x ← fold_sectors bs1 s; match x with inl s' => fold_sectors bs2 s' | inr y => Ret (inr y) end).
Proof.
  revert s. induction bs1 as [|b r IH]; intros s; cbn; [done|]. destruct (go s) eqn:Hg; cbn; [|by rewrite fold_stop].
  destruct (step b s) as [[s'|y]| |]; cbn; try done.
Qed.

Lemma walk_sectors_fold n idx c s d :
  bd_ready d -> I s -> Forall (fun x => 0 <= x < bd_limit) ((fun i => u32 (fat32_cluster_to_lba f c + i)) <$> seqZ idx (Z.of_nat n)) ->
  let bs := disk d <$> ((fun i => u32 (fat32_cluster_to_lba f c + i)) <$> seqZ idx (Z.of_nat n)) in
  exists d', walk_sectors f go body n idx c s d = (r ← fold_sectors bs s; Ret (r, d')) /\ same d d' /\
    forall s', fold_sectors bs s = Ret (inl s') -> I s'.
Proof.
  revert idx s d. induction n as [|n IH]; intros idx s d Hd Hs Hr.
  - exists d. split_and!; [done|by apply same_refl|]. by intros s' [= <-].
  - rewrite seqZ_cons in Hr |- * by lia. replace (Z.pred (Z.of_nat (Datatypes.S n))) with (Z.of_nat n) in * by lia.
    cbn [fmap list_fmap] in Hr |- *. apply Forall_cons in Hr as [Hx Hr]. cbn [walk_sectors fold_sectors].
    destruct (go s) eqn:Hg; cbn [negb]; [|exists d; split_and!; [done|by apply same_refl|by intros s' [= <-]]].
    destruct (body_step (u32 (fat32_cluster_to_lba f c + idx)) s d Hd Hx Hs) as (d1 & -> & Hs1).
    destruct (step (disk d (u32 (fat32_cluster_to_lba f c + idx))) s) as [[s1|y]| |] eqn:Est; cbn [mbind outcome_bind].
    + assert (I s1) as Hi1 by (eapply step_inv; [done| |done]; by apply disk_sector).
      destruct (IH (Z.succ idx) s1 d1 (same_ready _ _ Hs1) Hi1 Hr) as (d' & Hw & Hs' & Hi').
      replace (idx + 1) with (Z.succ idx) by lia. exists d'. rewrite Hw.
      assert ((disk d1 <$> ((fun i => u32 (fat32_cluster_to_lba f c + i)) <$> seqZ (Z.succ idx) (Z.of_nat n)))
        = (disk d <$> ((fun i => u32 (fat32_cluster_to_lba f c + i)) <$> seqZ (Z.succ idx) (Z.of_nat n)))) as <-
        by (apply list_fmap_ext; intros; by apply same_disk).
      split_and!; [done|by eapply same_trans|done].
    + exists d1. split_and!; [done|done|]. by intros s' [=].
    + exists d1. split_and!; [done|done|]. by intros s' [=].
    + exists d1. split_and!; [done|done|]. by intros s' [=].
Qed.

Lemma walk_fold d c cs fuel s d1 :
  chain f d c cs -> same d d1 -> I s -> (length cs < fuel)%nat ->
  exists d', walk sector0 f go go body fuel c s d1 = (r ← fold_sectors (disk d <$> chain_sectors f cs) s; Ret (r, d')) /\ same d d'.
Proof.
  intros Hc. revert fuel s d1. induction Hc as [c He|c cs He [Hf Hu] _ IH]; intros fuel s d1 Hs Hi Hn; (destruct fuel as [|fuel]; [cbn in Hn; lia|]).
  - exists d1. cbn. rewrite He. by rewrite orb_true_r.
  - cbn [walk]. rewrite He, orb_false_r. change (chain_sectors f (c :: cs)) with (sectors_of f c ++ chain_sectors f cs).
    destruct (go s) eqn:Hg; cbn [negb]; [|exists d1; by rewrite fold_stop].
    rewrite fmap_app, fold_app.
    destruct (walk_sectors_fold (Z.to_nat (fat32_sectors_per_cluster f)) 0 c s d1 (same_ready _ _ Hs) Hi) as (d2 & Hw & Hs2 & Hi2).
    { destruct (Z.le_gt_cases 0 (fat32_sectors_per_cluster f)); [by rewrite Z2Nat.id|].
      rewrite Z2Nat.nonpos by lia. constructor. }
    assert (disk d1 <$> ((fun i => u32 (fat32_cluster_to_lba f c + i)) <$> seqZ 0 (Z.of_nat (Z.to_nat (fat32_sectors_per_cluster f))))
      = disk d <$> sectors_of f c) as Hbs.
    { unfold sectors_of. destruct (Z.le_gt_cases 0 (fat32_sectors_per_cluster f)).
      - rewrite Z2Nat.id by lia. apply list_fmap_ext. intros. by apply same_disk.
      - rewrite Z2Nat.nonpos by lia. by rewrite !seqZ_nil by lia. }
    rewrite Hbs in *. rewrite Hw. clear Hw Hbs. pose proof (same_trans _ _ _ Hs Hs2) as Hs12.
    destruct (fold_sectors (disk d <$> sectors_of f c) s) as [[s'|y]| |]; cbn [mbind outcome_bind]; [|by exists d2..].
    destruct (read_fat_entry_ok f c d2 (same_ready _ _ Hs2)) as (d3 & -> & Hs3); [done|].
    rewrite (same_next f d d2) by done. apply IH; [by eapply same_trans|by apply Hi2|cbn in Hn; lia].
Qed.
End walks.
(** Loops whose body only reads leave the disk as it is. *)
Lemma walk_sectors_same {S R} f (go : S -> bool) (body : Z -> S -> D -> outcome ((S + R) * D)) n idx c s d r d' :
  (forall lba s d r d', bd_ready d -> body lba s d = Ret (r, d') -> same d d') ->
  bd_ready d -> walk_sectors f go body n idx c s d = Ret (r, d') -> same d d'.
Proof.
  intros Hb. revert idx s d. induction n as [|n IH]; intros idx s d Hd Hw; cbn in Hw; [simplify_eq; by apply same_refl|].
  destruct (go s); cbn in Hw; [|simplify_eq; by apply same_refl].
  apply bind_Ret_inv in Hw as ([[s1|y] d1] & H1 & Hw); apply Hb in H1; try done; [|by simplify_eq].
  eapply same_trans; [done|]. eapply IH; [|done]. by eapply same_ready.
Qed.

Lemma walk_same {S R} f (goc gos : S -> bool) (body : Z -> S -> D -> outcome ((S + R) * D)) fuel c s d r d' :
  (forall lba s d r d', bd_ready d -> body lba s d = Ret (r, d') -> same d d') ->
  bd_ready d -> walk sector0 f goc gos body fuel c s d = Ret (r, d') -> same d d'.
Proof.
  intros Hb. revert c s d. induction fuel as [|fuel IH]; intros c s d Hd Hw; cbn in Hw; [done|].
  destruct (negb (goc s) || fat32_is_end_of_chain c); [simplify_eq; by apply same_refl|].
  apply bind_Ret_inv in Hw as ([[s1|y] d1] & H1 & Hw); (eapply walk_sectors_same in H1 as Hs1; [|done|done]); [|by simplify_eq].
  destruct (fat32_read_fat_entry sector0 f c d1) as [c' d2] eqn:E. apply read_fat_entry_same in E; [|by eapply same_ready].
  eapply same_trans; [done|]. eapply same_trans; [done|]. eapply IH; [|done]. by eapply same_ready.
Qed.

Lemma find_body_same name lba st d r d' : bd_ready d -> find_body ename255 name lba st d = Ret (r, d') -> same d d'.
Proof.
  intros Hd. unfold find_body, fat32_read_sector. destruct st as [[sector lfn] active].
  destruct (ata_read_sector lba sector d) as [[ok b] d1] eqn:E. apply bd_read_any in E; [|done].
  destruct ok; cbn [negb]; [|by intros [= _ <-]]. intros Hw. apply bind_Ret_inv in Hw as (x & _ & Hw). by simplify_eq.
Qed.

Lemma find_entry_same fuel f c name d r d' :
  bd_ready d -> fat32_find_entry_in_cluster sector0 lfn0 ename255 fuel f c name d = Ret (r, d') -> same d d'.
Proof.
  intros Hd Hw. unfold fat32_find_entry_in_cluster in Hw. apply bind_Ret_inv in Hw as ([x d1] & H1 & Hw). simplify_eq.
  eapply walk_same; [|done|done]. apply find_body_same.
Qed.

Lemma find_root_same fuel f path d r d' :
  bd_ready d -> fat32_find_root_entry sector0 lfn0 ename255 fuel f path d = Ret (r, d') -> same d d'.
Proof.
  intros Hd Hw. unfold fat32_find_root_entry in Hw. destruct (skip_slashes path) as [|c0 p0]; [simplify_eq; by apply same_refl|].
  revert Hw. generalize (c0 :: p0) as p, (fat32_root_cluster f) as c, (@None dirent) as out.
  intros p. generalize (Datatypes.S (length p)) as n. intros n. revert p d Hd. induction n as [|n IH]; intros p d Hd c out Hw.
  - destruct p; cbn in Hw; [|done]. simplify_eq. by apply same_refl.
  - destruct p as [|x p]; cbn [resolve_path] in Hw; [simplify_eq; by apply same_refl|].
    destruct (take_component (x :: p)) as [seg rest]. destruct (0 <? zlen (take 255 seg)); [|by eapply IH].
    apply bind_Ret_inv in Hw as ([[e|] d1] & H1 & Hw); apply find_entry_same in H1; try done; [|by simplify_eq].
    destruct rest as [|y rest]; [by simplify_eq|]. destruct (is_dir e); cbn [negb] in Hw; [|by simplify_eq].
    destruct (first_cluster e <? 2); [by simplify_eq|]. eapply same_trans; [done|]. eapply IH; [|done]. by eapply same_ready.
Qed.

(** ** Reading a file *)

Lemma disk_512 d lba : bd_ready d -> 0 <= lba < bd_limit -> zlen (disk d lba) = SECTOR.
Proof. intros Hd Hl. by destruct (disk_sector d lba Hd Hl). Qed.

(** What [read_body] does with the contents of the sector. *)
Definition read_step (size : Z) (b : list Z) (st : list Z * list Z * Z) : outcome (list Z * list Z * Z + unit) :=
  let '(sector, out, skip) := st in
  if (0 <? skip) && (512 <=? skip) then Ret (inl (sector, out, skip - 512))
  else
    let sector_offset := if 0 <? skip then skip else 0 in
    let room := 512 - sector_offset in
    let to_copy := if size - zlen out <? room then size - zlen out else room in
    Ret (inl (b, out ++ slice b sector_offset to_copy, 0)).

Lemma read_body_step size lba st d :
  bd_ready d -> 0 <= lba < bd_limit -> zlen st.1.1 = SECTOR ->
  exists d', read_body size lba st d = (r ← read_step size (disk d lba) st; Ret (r, d')) /\ same d d'.
Proof.
  intros Hd Hl Hst. destruct st as [[sector out] skip]. cbn in Hst. unfold read_body, read_step, fat32_read_sector.
  destruct ((0 <? skip) && (512 <=? skip)); [exists d; split; [done|by apply same_refl]|].
  destruct (bd_read d lba sector Hd Hl Hst) as (d' & -> & Hs). by exists d'.
Qed.

Lemma read_step_inv size b st st' : zlen st.1.1 = SECTOR -> zlen b = SECTOR -> read_step size b st = Ret (inl st') -> zlen st'.1.1 = SECTOR.
Proof. destruct st as [[sector out] skip]. cbn. intros Hs Hb. destruct ((0 <? skip) && (512 <=? skip)); by intros [= <-]. Qed.

Lemma read_step_skip size b sector out skip : 512 <= skip -> read_step size b (sector, out, skip) = Ret (inl (sector, out, skip - 512)).
Proof. intros H. unfold read_step. destruct (Z.ltb_spec 0 skip), (Z.leb_spec 512 skip); try lia. done. Qed.

Lemma read_step_copy size b sector out skip :
  0 <= skip < 512 ->
  read_step size b (sector, out, skip) = Ret (inl (b, out ++ slice b skip (Z.min (size - zlen out) (512 - skip)), 0)).
Proof.
  intros H. unfold read_step. destruct (Z.leb_spec 512 skip); [lia|]. rewrite andb_false_r.
  replace (if 0 <? skip then skip else 0) with skip by (destruct (Z.ltb_spec 0 skip); lia).
  replace (Z.min (size - zlen out) (512 - skip)) with (if size - zlen out <? 512 - skip then size - zlen out else 512 - skip)
    by (destruct (Z.ltb_spec (size - zlen out) (512 - skip)); lia). done.
Qed.

(** The loop copies the bytes after [skip], up to [size]. *)
Lemma read_fold size bs sector out skip :
  Forall (fun b => zlen b = SECTOR) bs -> 0 <= skip -> zlen out <= size ->
  exists st, fold_sectors (fun '(_, out, _) => zlen out <? size) (read_step size) bs (sector, out, skip) = Ret (inl st) /\
    st.1.2 = out ++ take (Z.to_nat (size - zlen out)) (drop (Z.to_nat skip) (concat bs)).
Proof.
  intros Hbs. revert sector out skip. induction Hbs as [|b bs Hb Hbs IH]; intros sector out skip Hsk Hout.
  - exists (sector, out, skip). split; [done|]. cbn. by rewrite drop_nil, take_nil, app_nil_r.
  - cbn [fold_sectors]. destruct (Z.ltb_spec (zlen out) size) as [Hlt|Hge]; cbn [negb].
    2: { exists (sector, out, skip). split; [done|]. cbn. replace (size - zlen out) with 0 by lia. by rewrite app_nil_r. }
    cbn [concat]. unfold SECTOR, zlen in Hb. destruct (Z.le_gt_cases 512 skip) as [H512|H512].
    + rewrite read_step_skip by done. cbn [mbind outcome_bind].
      destruct (IH sector out (skip - 512)) as (st & Hf & Hst); [lia|done|]. exists st. split; [done|]. rewrite Hst.
      rewrite drop_app_ge by lia. do 3 f_equal. lia.
    + rewrite read_step_copy by lia. cbn [mbind outcome_bind]. set (n := Z.min (size - zlen out) (512 - skip)).
      assert (zlen (slice b skip n) = n) as Hz by (unfold slice, zlen; rewrite length_take, length_drop; lia).
      destruct (IH b (out ++ slice b skip n) 0) as (st & Hf & Hst); [lia|rewrite zlen_app; lia|]. exists st. split; [done|].
      rewrite Hst, <- app_assoc. f_equal. rewrite zlen_app, Hz. rewrite drop_app_le by lia. unfold slice.
      destruct (Z.le_gt_cases (size - zlen out) (512 - skip)).
      * replace (size - (zlen out + n)) with 0 by lia. change (Z.to_nat 0) with 0%nat. rewrite take_0, app_nil_r.
        rewrite take_app_le by (rewrite length_drop; lia). f_equal. lia.
      * rewrite (take_ge (drop _ b)) by (rewrite length_drop; lia). rewrite take_app_ge by (rewrite length_drop; lia).
        f_equal. rewrite length_drop. change (drop (Z.to_nat 0) (concat bs)) with (concat bs). f_equal. lia.
Qed.
Lemma chain_usable f d c cs : chain f d c cs -> Forall (usable f) cs.
Proof. by induction 1; constructor. Qed.

Lemma sectors_512 f d c : bd_ready d -> usable f c -> Forall (fun b => zlen b = SECTOR) (disk d <$> sectors_of f c).
Proof. intros Hd [_ Hu]. apply Forall_fmap. eapply Forall_impl; [done|]. intros x Hx. by apply disk_512. Qed.

Lemma chain_512 f d cs : bd_ready d -> Forall (usable f) cs -> Forall (fun b => zlen b = SECTOR) (disk d <$> chain_sectors f cs).
Proof.
  intros Hd. induction 1 as [|c cs Hc _ IH]; [constructor|]. change (chain_sectors f (c :: cs)) with (sectors_of f c ++ chain_sectors f cs).
  rewrite fmap_app. apply Forall_app. split; [by apply sectors_512|done].
Qed.

Lemma concat_512 (bs : list (list Z)) : Forall (fun b => zlen b = SECTOR) bs -> zlen (concat bs) = SECTOR * zlen bs.
Proof. induction 1 as [|b bs Hb _ IH]; cbn; [done|]. rewrite zlen_app, IH, Hb. unfold zlen. cbn. lia. Qed.

Lemma cluster_data_len f d c :
  bd_ready d -> usable f c -> 0 <= fat32_sectors_per_cluster f ->
  zlen (concat (disk d <$> sectors_of f c)) = fat32_sectors_per_cluster f * 512.
Proof.
  intros Hd Hu Hs. rewrite concat_512 by (by apply sectors_512). unfold sectors_of, zlen, SECTOR.
  rewrite !length_fmap, length_seqZ. lia.
Qed.

Lemma chain_data_cons f d c cs : chain_data f d (c :: cs) = concat (disk d <$> sectors_of f c) ++ chain_data f d cs.
Proof.
  unfold chain_data. change (chain_sectors f (c :: cs)) with (sectors_of f c ++ chain_sectors f cs). by rewrite fmap_app, concat_app.
Qed.

Lemma skip_clusters_ok f d c cs fuel skip d1 :
  chain f d c cs -> bd_ready d -> same d d1 -> 0 <= skip -> 1 <= fat32_sectors_per_cluster f -> (length cs < fuel)%nat ->
  exists c' cs' skip' d', skip_clusters sector0 fuel f c skip d1 = Ret (c', skip', d') /\ same d d' /\ chain f d c' cs' /\
    (length cs' <= length cs)%nat /\ 0 <= skip' /\
    drop (Z.to_nat skip) (chain_data f d cs) = drop (Z.to_nat skip') (chain_data f d cs').
Proof.
  intros Hc Hd. revert fuel skip d1.
  induction Hc as [c He|c cs He Hu Hc IH]; intros fuel skip d1 Hs Hsk Hspc Hn; (destruct fuel as [|fuel]; [cbn in Hn; lia|]); cbn [skip_clusters].
  - rewrite He, andb_false_r. exists c, [], skip, d1. split_and!; [done|done| |done|done|done]. by constructor.
  - rewrite He, andb_true_r. destruct (Z.leb_spec (fat32_sectors_per_cluster f * 512) skip) as [Hle|Hgt].
    + destruct (read_fat_entry_ok f c d1 (same_ready _ _ Hs)) as (d2 & -> & Hs2); [apply Hu|].
      rewrite (same_next f d d1) by done.
      destruct (IH fuel (skip - fat32_sectors_per_cluster f * 512) d2) as (c' & cs' & skip' & d' & H1 & H2 & H3 & H4 & H5 & H6);
        [by eapply same_trans|lia|done|cbn in Hn; lia|].
      exists c', cs', skip', d'. split_and!; [done|done|done|cbn; lia|done|]. rewrite <- H6, chain_data_cons.
      pose proof (cluster_data_len f d c Hd Hu ltac:(lia)) as Hlen. unfold zlen in Hlen. rewrite drop_app_ge by lia. f_equal. lia.
    + exists c, (c :: cs), skip, d1. split_and!; [done|done| |done|done|done]. by constructor.
Qed.

(** The bytes of the file whose directory entry is [e]: its chain has at least
    [d_file_size e] bytes and is shorter than [fuel]. *)
Definition stored f d (fuel : nat) (e : dirent) (content : list Z) : Prop :=
  exists cs, chain f d (first_cluster e) cs /\ (length cs < fuel)%nat /\ d_file_size e <= zlen (chain_data f d cs) /\
    content = take (Z.to_nat (d_file_size e)) (chain_data f d cs).

Lemma fat32_read_ok fuel path offset size s e d1 content :
  bd_ready (dev s) -> fat32_available (fs s) = true -> 1 <= fat32_sectors_per_cluster (fs s) ->
  fat32_find_root_entry sector0 lfn0 ename255 fuel (fs s) path (dev s) = Ret (Some e, d1) -> is_dir e = false ->
  stored (fs s) (dev s) fuel e content -> 0 <= offset -> 0 <= size ->
  completes (fat32_read sector0 lfn0 ename255 fuel path offset size s) (fun '(r, bytes, s') =>
    bytes = take (Z.to_nat size) (drop (Z.to_nat offset) content) /\ r = s32 (zlen bytes) /\ fs s' = fs s /\ same (dev s) (dev s')).
Proof.
  intros Hd Ha Hspc Hf Hdir (cs & Hc & Hn & Hlen & ->) Hoff Hsz. unfold fat32_read. rewrite Ha, Hf. cbn [negb mbind outcome_bind]. rewrite Hdir.
  pose proof (find_root_same _ _ _ _ _ _ Hd Hf) as Hs1.
  destruct (Z.leb_spec (d_file_size e) offset) as [Hge|Hlt].
  { apply completes_Ret. split_and!; [|done|done|done]. rewrite drop_ge; [by rewrite take_nil|]. rewrite length_take. lia. }
  set (size1 := if d_file_size e - offset <? size then d_file_size e - offset else size).
  assert (size1 = Z.min (d_file_size e - offset) size) as Hsize by (unfold size1; destruct (Z.ltb_spec (d_file_size e - offset) size); lia).
  destruct (skip_clusters_ok (fs s) (dev s) (first_cluster e) cs fuel offset d1) as (c' & cs' & skip' & d2 & -> & Hs2 & Hc' & Hl' & Hsk' & Hdrop); try done.
  cbn [mbind outcome_bind].
  destruct (walk_fold (fs s) (fun '(_, out, _) => zlen out <? size1) (read_body size1) (read_step size1) (fun st => zlen st.1.1 = SECTOR)
    (read_body_step size1) (fun b st st' => read_step_inv size1 b st st') (dev s) c' cs' fuel (sector0, [], skip') d2) as (d3 & -> & Hs3); try done; [lia|].
  destruct (read_fold size1 (disk (dev s) <$> chain_sectors (fs s) cs') sector0 [] skip') as ([[sec out] sk] & -> & Hout);
    [by eapply chain_512, chain_usable|done|change (zlen (@nil Z)) with 0; lia|].
  cbn [mbind outcome_bind] in *. apply completes_Ret. cbn in Hout. split_and!; [|done|done|done]. rewrite Hout.
  change (zlen (@nil Z)) with 0. rewrite Z.sub_0_r. fold (chain_data (fs s) (dev s) cs'). rewrite <- Hdrop.
  rewrite skipn_firstn_comm, take_take. f_equal. lia.
Qed.
(** ** Looking up a path *)

(** What [find_body] does with the contents of the sector. *)
Definition find_step (name : list Z) (b : list Z) (st : list Z * list Z * bool) : outcome (list Z * list Z * bool + option dirent) :=
  let '(sector, lfn, active) := st in
  r ← find_in_sector ename255 entry_offsets name b lfn active;
  Ret (match r with inl (lfn1, active1) => inl (b, lfn1, active1) | inr x => inr x end).

Lemma find_body_step name lba st d :
  bd_ready d -> 0 <= lba < bd_limit -> zlen st.1.1 = SECTOR ->
  exists d', find_body ename255 name lba st d = (r ← find_step name (disk d lba) st; Ret (r, d')) /\ same d d'.
Proof.
  intros Hd Hl Hst. destruct st as [[sector lfn] active]. cbn in Hst. unfold find_body, find_step, fat32_read_sector.
  destruct (bd_read d lba sector Hd Hl Hst) as (d' & -> & Hs). exists d'. split; [|done]. cbn [negb].
  by destruct (find_in_sector ename255 entry_offsets name (disk d lba) lfn active).
Qed.

Lemma find_step_inv name b st st' : zlen st.1.1 = SECTOR -> zlen b = SECTOR -> find_step name b st = Ret (inl st') -> zlen st'.1.1 = SECTOR.
Proof.
  destruct st as [[sector lfn] active]. intros _ Hb. unfold find_step.
  destruct (find_in_sector ename255 entry_offsets name b lfn active) as [[[l a]|x]| |]; intros H; simplify_eq/=; done.
Qed.

(** The entry with a name in the directory stored in the clusters [cs]. *)
Definition in_dir f d (cs : list Z) (name : list Z) (e : dirent) : Prop :=
  fold_sectors (fun _ => true) (find_step name) (disk d <$> chain_sectors f cs) (sector0, lfn0, false) = Ret (inr (Some e)).

(** [reaches path c e T]: the path, from the directory at cluster [c], leads to
    the entry [e] through directories stored in the clusters [T]. *)
Inductive reaches f d (fuel : nat) : list Z -> Z -> dirent -> list Z -> Prop :=
| reaches_last path seg c cs e :
    take_component path = (seg, []) -> seg <> [] -> chain f d c cs -> (length cs < fuel)%nat ->
    in_dir f d cs (take 255 seg) e -> reaches f d fuel path c e cs
| reaches_down path seg rest c cs e' e T :
    take_component path = (seg, rest) -> seg <> [] -> rest <> [] -> chain f d c cs -> (length cs < fuel)%nat ->
    in_dir f d cs (take 255 seg) e' -> is_dir e' = true -> 2 <= first_cluster e' ->
    reaches f d fuel (skip_slashes rest) (first_cluster e') e T -> reaches f d fuel path c e (cs ++ T).

Lemma find_entry_ok fuel f d c cs name e d1 :
  chain f d c cs -> same d d1 -> (length cs < fuel)%nat -> in_dir f d cs name e ->
  exists d', fat32_find_entry_in_cluster sector0 lfn0 ename255 fuel f c name d1 = Ret (Some e, d') /\ same d d'.
Proof.
  intros Hc Hs Hn He. unfold fat32_find_entry_in_cluster.
  destruct (walk_fold f (fun _ => true) (find_body ename255 name) (find_step name) (fun st => zlen st.1.1 = SECTOR)
    (find_body_step name) (fun b st st' => find_step_inv name b st st') d c cs fuel (sector0, lfn0, false) d1) as (d' & -> & Hs'); try done.
  unfold in_dir in He. rewrite He. cbn [mbind outcome_bind]. by exists d'.
Qed.

Lemma take_component_len p s q : take_component p = (s, q) -> s <> [] -> (length (skip_slashes q) < length p)%nat.
Proof.
  intros H Hs. assert (length p = length s + length q)%nat as Hl.
  { revert s q H Hs. induction p as [|c r IH]; intros s q; cbn; [by intros [= <- <-]|].
    destruct (c =? SLASH); [by intros [= <- <-]|]. destruct (take_component r) as [s' q'] eqn:E. intros [= <- <-] _.
    destruct s' as [|x s']; [|cbn; rewrite (IH (x :: s') q') by done; done]. cbn. f_equal.
    destruct r as [|y r]; cbn in E; [by simplify_eq|]. destruct (y =? SLASH); [by simplify_eq|]. destruct (take_component r). simplify_eq. }
  assert (forall q, (length (skip_slashes q) <= length q)%nat) as Hsk.
  { clear; induction q as [|c r IH]; cbn; [lia|]. destruct (c =? SLASH); cbn; lia. }
  specialize (Hsk q). destruct s; [done|]. cbn in Hl. lia.
Qed.

Lemma resolve_path_ok n fuel f d path c e T out d1 :
  reaches f d fuel path c e T -> same d d1 -> (length path < n)%nat ->
  exists d', resolve_path sector0 lfn0 ename255 n fuel f path c out d1 = Ret (Some e, d') /\ same d d'.
Proof.
  intros Hr. revert n out d1.
  induction Hr as [path seg c cs e Ht Hne Hc Hn He|path seg rest c cs e' e T Ht Hne Hrest Hc Hn He Hdir Hcl _ IH]; intros n out d1 Hs Hlen;
    (destruct n as [|n]; [lia|]); (destruct path as [|x path]; [cbn in Ht; by simplify_eq|]); cbn [resolve_path]; rewrite Ht;
    (replace (0 <? zlen (take 255 seg)) with true
      by (symmetry; apply Z.ltb_lt; destruct seg; [done|]; unfold zlen; cbn; lia));
    destruct (find_entry_ok fuel f d c cs (take 255 seg) _ d1 Hc Hs Hn He) as (d2 & -> & Hs2); cbn [mbind outcome_bind].
  - by exists d2.
  - destruct rest as [|y rest]; [done|]. rewrite Hdir. cbn [negb]. destruct (Z.ltb_spec (first_cluster e') 2); [lia|].
    apply IH; [done|]. pose proof (take_component_len _ _ _ Ht Hne). lia.
Qed.

Lemma find_root_ok fuel f d path e T d1 :
  reaches f d fuel (skip_slashes path) (fat32_root_cluster f) e T -> same d d1 ->
  exists d', fat32_find_root_entry sector0 lfn0 ename255 fuel f path d1 = Ret (Some e, d') /\ same d d'.
Proof.
  intros Hr Hs. unfold fat32_find_root_entry. destruct (skip_slashes path) as [|x p] eqn:E.
  - inversion Hr; subst; cbn in *; simplify_eq.
  - eapply resolve_path_ok; [done|done|lia].
Qed.
(** The name is not in the directory stored in the clusters [cs]. *)
Definition not_in_dir f d (cs : list Z) (name : list Z) : Prop :=
  exists r, fold_sectors (fun _ => true) (find_step name) (disk d <$> chain_sectors f cs) (sector0, lfn0, false) = Ret r /\
    match r with inl _ => True | inr x => x = None end.

(** The path leads, perhaps through directories, to a name that is not there. *)
Inductive misses f d (fuel : nat) : list Z -> Z -> Prop :=
| misses_here path seg rest c cs :
    take_component path = (seg, rest) -> seg <> [] -> chain f d c cs -> (length cs < fuel)%nat ->
    not_in_dir f d cs (take 255 seg) -> misses f d fuel path c
| misses_down path seg rest c cs e' :
    take_component path = (seg, rest) -> seg <> [] -> rest <> [] -> chain f d c cs -> (length cs < fuel)%nat ->
    in_dir f d cs (take 255 seg) e' -> is_dir e' = true -> 2 <= first_cluster e' ->
    misses f d fuel (skip_slashes rest) (first_cluster e') -> misses f d fuel path c.

Lemma find_entry_none fuel f d c cs name d1 :
  chain f d c cs -> same d d1 -> (length cs < fuel)%nat -> not_in_dir f d cs name ->
  exists d', fat32_find_entry_in_cluster sector0 lfn0 ename255 fuel f c name d1 = Ret (None, d') /\ same d d'.
Proof.
  intros Hc Hs Hn (r & Hf & Hr). unfold fat32_find_entry_in_cluster.
  destruct (walk_fold f (fun _ => true) (find_body ename255 name) (find_step name) (fun st => zlen st.1.1 = SECTOR)
    (find_body_step name) (fun b st st' => find_step_inv name b st st') d c cs fuel (sector0, lfn0, false) d1) as (d' & -> & Hs'); try done.
  rewrite Hf. cbn [mbind outcome_bind]. exists d'. split; [|done]. by destruct r as [|x]; [|subst x].
Qed.

Lemma resolve_path_none n fuel f d path c out d1 :
  misses f d fuel path c -> same d d1 -> (length path < n)%nat ->
  exists d', resolve_path sector0 lfn0 ename255 n fuel f path c out d1 = Ret (None, d') /\ same d d'.
Proof.
  intros Hr. revert n out d1.
  induction Hr as [path seg rest c cs Ht Hne Hc Hn He|path seg rest c cs e' Ht Hne Hrest Hc Hn He Hdir Hcl _ IH]; intros n out d1 Hs Hlen;
    (destruct n as [|n]; [lia|]); (destruct path as [|x path]; [cbn in Ht; by simplify_eq|]); cbn [resolve_path]; rewrite Ht;
    (replace (0 <? zlen (take 255 seg)) with true
      by (symmetry; apply Z.ltb_lt; destruct seg; [done|]; unfold zlen; cbn; lia)).
  - destruct (find_entry_none fuel f d c cs (take 255 seg) d1 Hc Hs Hn He) as (d2 & -> & Hs2). cbn [mbind outcome_bind]. by exists d2.
  - destruct (find_entry_ok fuel f d c cs (take 255 seg) _ d1 Hc Hs Hn He) as (d2 & -> & Hs2). cbn [mbind outcome_bind].
    destruct rest as [|y rest]; [done|]. rewrite Hdir. cbn [negb]. destruct (Z.ltb_spec (first_cluster e') 2); [lia|].
    apply IH; [done|]. pose proof (take_component_len _ _ _ Ht Hne). lia.
Qed.

Lemma find_root_none fuel f d path d1 :
  misses f d fuel (skip_slashes path) (fat32_root_cluster f) -> same d d1 ->
  exists d', fat32_find_root_entry sector0 lfn0 ename255 fuel f path d1 = Ret (None, d') /\ same d d'.
Proof.
  intros Hr Hs. unfold fat32_find_root_entry. destruct (skip_slashes path) as [|x p] eqn:E; [by exists d1|].
  eapply resolve_path_none; [done|done|lia].
Qed.

(** C9: Reading a file.  Over a working disk, if a path leads through directories
    to the entry [e] of a file and the chain of clusters of [e] holds [content],
    then [fat32_read] completes with exactly the bytes of [content] from [offset]
    on, at most [size] of them and none past the end of the file, returns their
    number, and changes nothing on the disk. *)
Theorem fat32_read_spec fuel path offset size s e T content :
  bd_ready (dev s) -> fat32_available (fs s) = true -> 1 <= fat32_sectors_per_cluster (fs s) ->
  reaches (fs s) (dev s) fuel (skip_slashes path) (fat32_root_cluster (fs s)) e T -> is_dir e = false ->
  stored (fs s) (dev s) fuel e content -> 0 <= offset -> 0 <= size ->
  completes (fat32_read sector0 lfn0 ename255 fuel path offset size s) (fun '(r, bytes, s') =>
    bytes = take (Z.to_nat size) (drop (Z.to_nat offset) content) /\ r = s32 (zlen bytes) /\ fs s' = fs s /\ same (dev s) (dev s')).
Proof.
  intros Hd Ha Hspc Hr Hdir Hst Hoff Hsz.
  destruct (find_root_ok fuel (fs s) (dev s) path e T (dev s) Hr (same_refl _ Hd)) as (d1 & Hf & _). by eapply fat32_read_ok.
Qed.
End spec.

(** ** Example: a volume with two files

    Sector 2 is the table, sector 3 (cluster 2) the root directory; A.TXT has
    clusters 3 and 4, B.TXT cluster 5. *)

Definition blank : list Z := replicate 512 0.
Definition ex_file (c cluster size : Z) : dirent :=
  mk_de [c; 32; 32; 32; 32; 32; 32; 32] [84; 88; 84] 32 0 0 0 0 0 0 0 0 cluster size.
Definition ex_a : dirent := ex_file 65 3 600.
Definition ex_b : dirent := ex_file 66 5 10.
Definition ex_table : list Z :=
  put_le 4 (put_le 4 (put_le 4 (put_le 4 blank 8 FAT32_EOC) 12 4) 16 FAT32_EOC) 20 FAT32_EOC.
Definition ex_disk : ramdisk := mk_ramdisk
  [blank; blank; ex_table; put_entry (put_entry blank 0 ex_a) 32 ex_b; replicate 512 1; replicate 512 2; replicate 512 3; blank].
Definition ex_fat : fat := mk_fat true 1 2 1 1 1 1 8 0 512.
Definition ex_state : fstate (D := ramdisk) := mk_fs ex_fat ex_disk.
Definition ex_lfn : list Z := replicate 256 0.

Lemma ex_limit : 8 <= 2 ^ 32. Proof. done. Qed.
Definition ex_laws : BlockDeviceLaws ramdisk := ramdisk_laws 8 ex_limit.

Lemma sector_ok_dec b : (zlen b =? SECTOR) && forallb (fun x => (0 <=? x) && (x <? 256)) b = true -> sector_ok b.
Proof.
  intros [Hl Hb]%andb_true_iff. split; [by apply Z.eqb_eq|]. apply Forall_forall. intros x Hx.
  rewrite forallb_forall in Hb. apply list_elem_of_In in Hx. specialize (Hb x Hx). bool_to_prop. lia.
Qed.

Lemma ex_ready : bd_ready (BlockDeviceLaws := ex_laws) ex_disk.
Proof. split; [done|]. repeat (constructor; [apply sector_ok_dec; vm_compute; reflexivity|]). constructor. Qed.

Definition ex_reaches := reaches (HL := ex_laws) blank ex_lfn 0 ex_fat ex_disk 10.

Lemma ex_usable c : 2 <= c <= 5 -> usable (HL := ex_laws) ex_fat c.
Proof.
  intros Hc. assert (c = 2 \/ c = 3 \/ c = 4 \/ c = 5) as Hcs by lia.
  destruct Hcs as [->|[->|[->| ->]]]; (split; [vm_compute; split; congruence|]); (constructor; [vm_compute; split; congruence|constructor]).
Qed.

Lemma ex_chain_root : chain (HL := ex_laws) ex_fat ex_disk 2 [2].
Proof. constructor; [done|by apply ex_usable|]. constructor. vm_compute. reflexivity. Qed.

Lemma ex_chain_a : chain (HL := ex_laws) ex_fat ex_disk 3 [3; 4].
Proof. constructor; [done|by apply ex_usable|]. constructor; [done|by apply ex_usable|]. constructor. vm_compute. reflexivity. Qed.

(** "A.TXT" from the root directory. *)
Lemma ex_reaches_a : ex_reaches [65; 46; 84; 88; 84] 2 ex_a [2].
Proof.
  eapply (reaches_last (HL := ex_laws) blank ex_lfn 0 ex_fat ex_disk 10 [65; 46; 84; 88; 84] [65; 46; 84; 88; 84]);
    [done|done|exact ex_chain_root|cbn; lia|vm_compute; reflexivity].
Qed.

Lemma fat32_read_spec_witness :
  bd_ready (BlockDeviceLaws := ex_laws) ex_disk /\ ex_reaches [65; 46; 84; 88; 84] 2 ex_a [2] /\
  stored (HL := ex_laws) ex_fat ex_disk 10 ex_a (replicate 512 1 ++ replicate 88 2) /\
  completes (fat32_read blank ex_lfn 0 10 [47; 65; 46; 84; 88; 84] 510 4 ex_state) (fun '(r, bytes, s') =>
    bytes = take (Z.to_nat 4) (drop (Z.to_nat 510) (replicate 512 1 ++ replicate 88 2)) /\ r = s32 (zlen bytes) /\
    fs s' = ex_fat /\ same (HL := ex_laws) ex_disk (dev s')).
Proof.
  assert (stored (HL := ex_laws) ex_fat ex_disk 10 ex_a (replicate 512 1 ++ replicate 88 2)) as Hst.
  { exists [3; 4]. split; [exact ex_chain_a|]. split; [cbn; lia|]. split; [vm_compute; congruence|vm_compute; reflexivity]. }
  split; [exact ex_ready|]. split; [exact ex_reaches_a|]. split; [exact Hst|].
  apply (fat32_read_spec (HL := ex_laws) blank ex_lfn 0 eq_refl 10 [47; 65; 46; 84; 88; 84] 510 4 ex_state ex_a [2] (replicate 512 1 ++ replicate 88 2));
    [exact ex_ready|reflexivity|cbn; lia|exact ex_reaches_a|reflexivity|exact Hst|lia|lia].
Defined.
End Fat32Spec.
