(* ===== verification/Fat32Write.v ===== *)
(** * Writing files on FAT32

    Writing inside a file replaces exactly those bytes, and reading them back
    returns what was written; other files keep their contents. *)

From stdpp Require Import base tactics numbers option strings sets list.
From S2P Require Import Prelude Proc Telemetry CMem Alloc Timer Caps Sched Vfs BlockDev Fat32 Fat32Spec.

Module Fat32Write.
Import Vfs Fat32 Fat32Spec.

(** [l] with the bytes from [i] on replaced by [x]. *)
Definition overwrite (l : list Z) (i : Z) (x : list Z) : list Z :=
  take (Z.to_nat i) l ++ x ++ drop (Z.to_nat (i + zlen x)) l.

Lemma overwrite_nil l i : 0 <= i -> overwrite l i [] = l.
Proof. intros Hi. unfold overwrite. cbn. rewrite Z.add_0_r. apply take_drop. Qed.

Lemma zlen_overwrite l i x : 0 <= i -> i + zlen x <= zlen l -> zlen (overwrite l i x) = zlen l.
Proof. intros Hi Hx. unfold overwrite, zlen in *. rewrite !length_app, length_take, length_drop. lia. Qed.

Lemma put_bytes_overwrite b i x : 0 <= i -> i + zlen x <= zlen b -> put_bytes b i x = overwrite b i x.
Proof.
  revert b i. induction x as [|c r IH]; intros b i Hi Hx; cbn [put_bytes]; [by rewrite overwrite_nil|].
  assert (zlen (c :: r) = 1 + zlen r) as Hz by (unfold zlen; cbn; lia).
  rewrite IH by (rewrite ?zlen_zset; lia). unfold overwrite, zset. destruct (Z.leb_spec 0 i); [|lia].
  replace (Z.to_nat (i + 1)) with (S (Z.to_nat i)) by lia. unfold zlen in *.
  erewrite take_S_r by (apply list_lookup_insert_eq; lia). rewrite take_insert_ge by lia. rewrite <- app_assoc. cbn [app]. do 3 f_equal.
  rewrite drop_insert_lt by lia. f_equal. cbn [length]. lia.
Qed.

(** Overwriting the two halves of a list. *)
Lemma overwrite_app_l l k i x : 0 <= i -> i + zlen x <= zlen l -> overwrite (l ++ k) i x = overwrite l i x ++ k.
Proof.
  intros Hi Hx. unfold overwrite, zlen in *. rewrite take_app_le, drop_app_le by lia. by rewrite <- !app_assoc.
Qed.

Lemma overwrite_app_r l k i x : zlen l <= i -> overwrite (l ++ k) i x = l ++ overwrite k (i - zlen l) x.
Proof.
  intros Hi. unfold overwrite, zlen in *. rewrite take_app_ge, drop_app_ge by lia. rewrite <- app_assoc. do 2 f_equal; [f_equal; lia|].
  do 2 f_equal. lia.
Qed.

Lemma overwrite_app_split l k i x n :
  0 <= i -> i + n = zlen l -> 0 <= n <= zlen x ->
  overwrite (l ++ k) i x = overwrite l i (take (Z.to_nat n) x) ++ overwrite k 0 (drop (Z.to_nat n) x).
Proof.
  intros Hi Hn Hx. unfold overwrite, zlen in *. rewrite take_app_le, drop_app_ge by lia. cbn [take]. change (Z.to_nat 0) with 0%nat. rewrite take_0. cbn [app].
  rewrite length_take, length_drop. rewrite (drop_ge l) by lia. rewrite app_nil_r, <- app_assoc. f_equal.
  rewrite app_assoc, take_drop. do 2 f_equal. lia.
Qed.
Lemma take_overwrite l i x n :
  0 <= i <= zlen l -> i + zlen x <= n -> take (Z.to_nat n) (overwrite l i x) = overwrite (take (Z.to_nat n) l) i x.
Proof.
  intros Hi Hx. unfold overwrite, zlen in *. rewrite take_app_ge by (rewrite length_take; lia). rewrite take_take, Nat.min_l by lia. f_equal.
  rewrite length_take, Nat.min_l by lia. rewrite take_app_ge by lia. f_equal. rewrite skipn_firstn_comm. f_equal. lia.
Qed.

(** ** The loop over the sectors of a file

    What it does to the contents [m] of the disk.  State: the sector buffer, the
    number of bytes written and the bytes still to skip. *)

Definition upd (m : Z -> list Z) (x : Z) (b : list Z) : Z -> list Z := fun y => if y =? x then b else m y.

Definition write_step (data : list Z) (x : Z) (st : list Z * Z * Z) (m : Z -> list Z) : (list Z * Z * Z) * (Z -> list Z) :=
  let '(sector, written, skip) := st in
  if 512 <=? skip then ((sector, written, skip - 512), m)
  else
    let n := Z.min (zlen data - written) (512 - skip) in
    let b := overwrite (m x) skip (slice data written n) in
    ((b, written + n, 0), upd m x b).

Fixpoint write_pure (data : list Z) (L : list Z) (st : list Z * Z * Z) (m : Z -> list Z) : (list Z * Z * Z) * (Z -> list Z) :=
  match L with
  | [] => (st, m)
  | x :: r => if st.1.2 <? zlen data then let '(st1, m1) := write_step data x st m in write_pure data r st1 m1 else (st, m)
  end.

(** The state between two sectors. *)
Definition good_state (st : list Z * Z * Z) : Prop := zlen st.1.1 = SECTOR /\ 0 <= st.1.2 /\ 0 <= st.2.

Lemma slice_len (b : list Z) i n : 0 <= i -> 0 <= n -> i + n <= zlen b -> zlen (slice b i n) = n.
Proof. intros. unfold slice, zlen in *. rewrite length_take, length_drop. lia. Qed.

Lemma overwrite_full b b' x : zlen x = zlen b -> zlen b' = zlen b -> overwrite b 0 x = overwrite b' 0 x.
Proof.
  intros Hx Hb. unfold overwrite, zlen in *. change (Z.to_nat 0) with 0%nat. rewrite !take_0, !(drop_ge (_ : list Z)) by lia. done.
Qed.

Lemma write_pure_app data L1 L2 st m :
  write_pure data (L1 ++ L2) st m = let '(st1, m1) := write_pure data L1 st m in write_pure data L2 st1 m1.
Proof.
  revert st m. induction L1 as [|x r IH]; intros st m; cbn [app write_pure]; [done|].
  destruct (st.1.2 <? zlen data) eqn:E; [by destruct (write_step data x st m) as [st1 m1]|].
  destruct L2; cbn [write_pure]; [done|]. by rewrite E.
Qed.

Lemma write_pure_stop data L st m : zlen data <= st.1.2 -> write_pure data L st m = (st, m).
Proof. intros H. destruct L; cbn [write_pure]; [done|]. by destruct (Z.ltb_spec st.1.2 (zlen data)); [lia|]. Qed.

Lemma write_step_good data x st m :
  good_state st -> st.1.2 < zlen data -> zlen (m x) = SECTOR ->
  good_state (write_step data x st m).1 /\ (forall y, y <> x -> (write_step data x st m).2 y = m y) /\
  zlen ((write_step data x st m).2 x) = SECTOR.
Proof.
  destruct st as [[sector written] skip]. intros (Hs & Hw & Hsk) Hlt Hm. cbn in Hs, Hw, Hsk, Hlt. unfold write_step.
  destruct (Z.leb_spec 512 skip); cbn [fst snd]; [split_and!; [by split_and!; cbn; [|lia..]|done|done]|].
  set (n := Z.min (zlen data - written) (512 - skip)).
  assert (zlen (overwrite (m x) skip (slice data written n)) = SECTOR) as Hb
    by (rewrite zlen_overwrite; [done|lia|rewrite slice_len; unfold SECTOR in *; lia]).
  split_and!; [split_and!; cbn; [done|lia|lia]|intros y Hy; unfold upd; by destruct (Z.eqb_spec y x)|unfold upd; by rewrite Z.eqb_refl].
Qed.

(** Sectors outside the list keep their contents. *)
Lemma write_pure_frame data L st m :
  (forall x, x ∈ L -> zlen (m x) = SECTOR) -> good_state st ->
  good_state (write_pure data L st m).1 /\ (forall y, y ∉ L -> (write_pure data L st m).2 y = m y) /\
  (forall x, x ∈ L -> zlen ((write_pure data L st m).2 x) = SECTOR).
Proof.
  revert st m. induction L as [|x r IH]; intros st m Hm Hst; cbn [write_pure]; [done|].
  destruct (Z.ltb_spec st.1.2 (zlen data)) as [Hlt|]; [|done].
  destruct (write_step_good data x st m Hst Hlt) as (Hg & Hne & Hx); [apply Hm; by left|].
  destruct (write_step data x st m) as [st1 m1]. cbn [fst snd] in *.
  destruct (IH st1 m1) as (Hg2 & Hf2 & Hl2); [|done|].
  { intros y Hy. destruct (Z.eq_dec y x) as [->|Hyx]; [done|]. rewrite Hne by done. apply Hm. by right. }
  split_and!; [done| |].
  - intros y Hy. rewrite Hf2 by set_solver. apply Hne. set_solver.
  - intros y Hy. destruct (decide (y ∈ r)) as [Hyr|Hyr]; [by apply Hl2|]. rewrite Hf2 by done.
    destruct (Z.eq_dec y x) as [->|]; [done|]. set_solver.
Qed.

Lemma fmap_upd m (m' : Z -> list Z) (L : list Z) : (forall y, y ∈ L -> m' y = m y) -> m' <$> L = m <$> L.
Proof. intros H. apply list_fmap_ext. intros i y Hy. apply H. by eapply list_elem_of_lookup_2. Qed.

(** Over enough sectors everything is written, at the bytes from [skip] on. *)
Lemma write_pure_ok data L sector written skip m :
  NoDup L -> (forall x, x ∈ L -> zlen (m x) = SECTOR) -> good_state (sector, written, skip) ->
  written <= zlen data -> skip + (zlen data - written) <= 512 * zlen L ->
  (write_pure data L (sector, written, skip) m).1.1.2 = zlen data /\
  concat ((write_pure data L (sector, written, skip) m).2 <$> L) = overwrite (concat (m <$> L)) skip (drop (Z.to_nat written) data).
Proof.
  intros Hnd. revert sector written skip m. induction Hnd as [|x r Hxr Hnd IH]; intros sector written skip m Hm Hst Hw Hroom.
  all: pose proof Hst as (Hsec & Hw0 & Hsk); cbn in Hsec, Hw0, Hsk.
  { change (zlen (@nil Z)) with 0 in Hroom. split; [cbn; lia|]. cbn. unfold zlen in *. rewrite (drop_ge data) by lia. by rewrite overwrite_nil. }
  cbn [write_pure fst snd]. replace (zlen (x :: r)) with (1 + zlen r) in Hroom by (unfold zlen; cbn; lia).
  destruct (Z.ltb_spec written (zlen data)) as [Hlt|Hge].
  2: { split; [cbn; lia|]. unfold zlen in *. rewrite (drop_ge data) by lia. by rewrite overwrite_nil. }
  pose proof (Hm x ltac:(by left)) as Hbx. unfold SECTOR in Hbx.
  destruct (write_step_good data x (sector, written, skip) m Hst Hlt Hbx) as (Hg1 & Hne & Hx1).
  assert (forall y, y ∈ r -> zlen ((write_step data x (sector, written, skip) m).2 y) = SECTOR) as Hm1.
  { intros y Hy. rewrite Hne by (by intros ->). apply Hm. by right. }
  unfold write_step in *. destruct (Z.leb_spec 512 skip) as [H512|H512]; cbn [fst snd] in *.
  - destruct (IH sector written (skip - 512) m Hm1 Hg1 Hw ltac:(lia)) as [H1 H2]. split; [done|].
    destruct (write_pure_frame data r (sector, written, skip - 512) m Hm1 Hg1) as (_ & Hf & _).
    cbn [fmap list_fmap concat]. rewrite (Hf x Hxr), H2. rewrite overwrite_app_r by lia. by rewrite Hbx.
  - set (n := Z.min (zlen data - written) (512 - skip)) in *. set (b := overwrite (m x) skip (slice data written n)) in *.
    destruct (IH b (written + n) 0 (upd m x b) Hm1 Hg1 ltac:(lia) ltac:(lia)) as [H1 H2]. split; [done|].
    destruct (write_pure_frame data r (b, written + n, 0) (upd m x b) Hm1 Hg1) as (_ & Hf & _).
    cbn [fmap list_fmap concat]. rewrite (Hf x Hxr), H2. unfold upd at 1. rewrite Z.eqb_refl.
    rewrite (fmap_upd m) by (intros y Hy; apply Hne; by intros ->). unfold b.
    destruct (Z.le_gt_cases (zlen data - written) (512 - skip)) as [Hfit|Hmore].
    + replace (written + n) with (zlen data) by lia. rewrite (drop_ge data) by (unfold zlen; lia). rewrite overwrite_nil by lia.
      assert (slice data written n = drop (Z.to_nat written) data) as -> by (unfold slice, zlen in *; apply take_ge; rewrite length_drop; lia).
      rewrite overwrite_app_l; [done|lia|]. unfold zlen in *. rewrite length_drop. lia.
    + rewrite (overwrite_app_split (m x) _ skip (drop (Z.to_nat written) data) n); unfold zlen in *; [|lia|lia|rewrite length_drop; lia].
      f_equal. f_equal. rewrite drop_drop. f_equal. lia.
Qed.

Section spec.
Context {D : Type} `{HD : BlockDevice D, HL : !BlockDeviceLaws D}.
Context (sector0 lfn0 : list Z) (ename255 : Z) (Hsector0 : zlen sector0 = SECTOR).
Implicit Types (f : fat) (d : D).

(** [write_body] on a device with contents [m]. *)
Lemma write_body_ok data x st d m :
  bd_ready d -> 0 <= x < bd_limit -> good_state st -> bytes_ok data -> st.1.2 < zlen data -> (forall y, disk d y = m y) ->
  exists d', write_body data x st d = Ret (inl (write_step data x st m).1, d') /\ bd_ready d' /\
    forall y, disk d' y = (write_step data x st m).2 y.
Proof.
  destruct st as [[sector written] skip]. intros Hd Hx (Hsec & Hw & Hsk) Hdata Hlt Hm. cbn in Hsec, Hw, Hsk, Hlt. unfold write_body, write_step.
  destruct (Z.leb_spec 512 skip) as [|H512]; [by exists d|]. cbn [fst snd].
  set (n := Z.min (zlen data - written) (512 - skip)).
  replace (if zlen data - written <? 512 - skip then zlen data - written else 512 - skip) with n
    by (unfold n; destruct (Z.ltb_spec (zlen data - written) (512 - skip)); lia).
  assert (zlen (slice data written n) = n) as Hsl by (apply slice_len; lia).
  assert (bytes_ok (slice data written n)) as Hsb by (by apply Forall_take, Forall_drop).
  pose proof (disk_sector d x Hd Hx) as [Hlen Hbytes]. rewrite Hm in Hlen, Hbytes.
  assert (sector_ok (overwrite (m x) skip (slice data written n))) as Hok.
  { split; [rewrite zlen_overwrite; unfold SECTOR in *; [done|lia|lia]|]. rewrite <- put_bytes_overwrite by (unfold SECTOR in *; lia).
    by apply bytes_ok_put_bytes. }
  destruct (negb (skip =? 0) || (zlen data - written <? 512)) eqn:E.
  - unfold fat32_read_sector. destruct (bd_read d x sector Hd Hx Hsec) as (d1 & -> & Hr1 & Hs1). rewrite Hm.
    rewrite put_bytes_overwrite by (unfold SECTOR in *; lia).
    destruct (bd_write d1 x _ Hr1 Hx Hok) as (d2 & -> & Hr2 & Hs2). exists d2. split_and!; [done|done|].
    intros y. rewrite Hs2. unfold upd. destruct (y =? x); [done|]. by rewrite Hs1.
  - apply orb_false_iff in E as [E1 E2]. bool_to_prop. subst skip. unfold SECTOR in *. rewrite put_bytes_overwrite by lia.
    rewrite (overwrite_full sector (m x)) by lia. destruct (bd_write d x _ Hd Hx Hok) as (d2 & -> & Hr2 & Hs2).
    exists d2. split_and!; [done|done|]. intros y. rewrite Hs2. unfold upd. by destruct (y =? x).
Qed.

Lemma walk_sectors_write data f n idx c st d m :
  bd_ready d -> Forall (fun x => 0 <= x < bd_limit) ((fun i => u32 (fat32_cluster_to_lba f c + i)) <$> seqZ idx (Z.of_nat n)) ->
  good_state st -> bytes_ok data -> (forall y, disk d y = m y) ->
  let w := write_pure data ((fun i => u32 (fat32_cluster_to_lba f c + i)) <$> seqZ idx (Z.of_nat n)) st m in
  exists d', walk_sectors f (fun '(_, written, _) => written <? zlen data) (write_body data) n idx c st d = Ret (inl w.1, d') /\
    bd_ready d' /\ forall y, disk d' y = w.2 y.
Proof.
  revert idx st d m. induction n as [|n IH]; intros idx st d m Hd Hr Hst Hdata Hm; [by exists d|].
  rewrite seqZ_cons in Hr |- * by lia. replace (Z.pred (Z.of_nat (S n))) with (Z.of_nat n) in * by lia.
  cbn [fmap list_fmap walk_sectors write_pure] in Hr |- *. apply Forall_cons in Hr as [Hx Hr].
  destruct (Z.ltb_spec st.1.2 (zlen data)) as [Hlt|Hge].
  - destruct (write_body_ok data _ st d m Hd Hx Hst Hdata Hlt Hm) as (d1 & Hb & Hr1 & Hm1).
    destruct (write_step_good data (u32 (fat32_cluster_to_lba f c + idx)) st m Hst Hlt) as (Hg1 & _).
    { rewrite <- Hm. by apply disk_512. }
    replace (negb _) with false by (destruct st as [[? ?] ?]; cbn in *; by destruct (Z.ltb_spec z (zlen data)); [|lia]).
    rewrite Hb. cbn [mbind outcome_bind]. destruct (write_step data _ st m) as [st1 m1]. cbn [fst snd] in *.
    replace (idx + 1) with (Z.succ idx) by lia. by apply IH.
  - replace (negb _) with true by (destruct st as [[? ?] ?]; cbn in *; by destruct (Z.ltb_spec z (zlen data)); [lia|]). by exists d.
Qed.

(** ** The layout of a volume *)

Definition data_start f : Z := fat32_partition_lba f + fat32_reserved_sectors f + fat32_fat_count f * fat32_fat_size f.

Record vol_ok f : Prop := {
  vol_spc : 1 <= fat32_sectors_per_cluster f;
  vol_part : 0 <= fat32_partition_lba f;
  vol_res : 0 <= fat32_reserved_sectors f;
  vol_count : 1 <= fat32_fat_count f;
  vol_size : 0 <= fat32_fat_size f;
  vol_limit : data_start f < bd_limit
}.

(** A cluster with an entry in the table and its sectors on the device. *)
Definition in_area f (c : Z) : Prop :=
  2 <= c < 2 ^ 28 /\ c * 4 / 512 < fat32_fat_size f /\ data_start f + (c - 1) * fat32_sectors_per_cluster f <= bd_limit.

Lemma area_fat_lba f c : vol_ok f -> in_area f c ->
  fat_lba f c = fat32_partition_lba f + fat32_reserved_sectors f + c * 4 / 512 /\ 0 <= fat_lba f c < data_start f.
Proof.
  intros [H1 H2 H3 H4 H5 H6] (Hc & Hf & _). pose proof bd_limit_u32. unfold fat_lba.
  assert (0 <= c * 4 / 512) by (apply Z.div_pos; lia). unfold data_start in *.
  assert (fat32_fat_size f <= fat32_fat_count f * fat32_fat_size f) by nia.
  rewrite (u32_small (c * 4)) by lia. rewrite u32_small by lia. lia.
Qed.

Lemma area_sectors f c : vol_ok f -> in_area f c ->
  sectors_of f c = seqZ (data_start f + (c - 2) * fat32_sectors_per_cluster f) (fat32_sectors_per_cluster f).
Proof.
  intros [H1 H2 H3 H4 H5 H6] (Hc & Hf & Hd). pose proof bd_limit_u32. unfold sectors_of.
  assert (0 <= (c - 2) * fat32_sectors_per_cluster f) by nia.
  assert (fat32_cluster_to_lba f c = data_start f + (c - 2) * fat32_sectors_per_cluster f) as ->.
  { unfold fat32_cluster_to_lba, data_start in *. assert (0 <= fat32_fat_count f * fat32_fat_size f) by nia.
    rewrite (u32_small (fat32_fat_count f * fat32_fat_size f)) by lia. rewrite (u32_small (c - 2)) by lia.
    rewrite (u32_small ((c - 2) * _)) by lia. rewrite (u32_small (_ + _ + _)) by lia. apply u32_small. nia. }
  apply list_eq. intros i. rewrite !list_lookup_fmap. destruct (decide (Z.of_nat i < fat32_sectors_per_cluster f)) as [Hi|Hi].
  - rewrite !lookup_seqZ_lt by lia. cbn. f_equal. rewrite u32_small; [lia|]. unfold data_start in *. nia.
  - by rewrite !lookup_seqZ_ge by lia.
Qed.

Lemma area_usable f c : vol_ok f -> in_area f c -> usable f c.
Proof.
  intros Hv Ha. pose proof (area_fat_lba f c Hv Ha) as [_ Hfat]. split; [destruct Hv; lia|]. rewrite (area_sectors f c Hv Ha).
  apply Forall_forall. intros x Hx%elem_of_seqZ. destruct Hv, Ha as (Hc & _ & Hd). unfold data_start in *.
  assert (0 <= (c - 2) * fat32_sectors_per_cluster f) by nia. assert (0 <= fat32_fat_count f * fat32_fat_size f) by nia. lia.
Qed.

Lemma area_sector f c x : vol_ok f -> in_area f c -> x ∈ sectors_of f c ->
  data_start f + (c - 2) * fat32_sectors_per_cluster f <= x < data_start f + (c - 1) * fat32_sectors_per_cluster f.
Proof. intros Hv Ha. rewrite (area_sectors f c Hv Ha). rewrite elem_of_seqZ. lia. Qed.

Lemma elem_chain_sectors f cs x : x ∈ chain_sectors f cs <-> exists c, c ∈ cs /\ x ∈ sectors_of f c.
Proof.
  unfold chain_sectors. rewrite list_elem_of_In, in_concat. setoid_rewrite <- list_elem_of_In. split.
  - intros (l & Hl & Hx). apply list_elem_of_fmap in Hl as (c & -> & Hc). eauto.
  - intros (c & Hc & Hx). exists (sectors_of f c). split; [|done]. apply list_elem_of_fmap. eauto.
Qed.

(** Clusters share no sectors, and none with the table. *)
Lemma area_disjoint f c c' x : vol_ok f -> in_area f c -> in_area f c' -> x ∈ sectors_of f c -> x ∈ sectors_of f c' -> c = c'.
Proof.
  intros Hv Ha Ha' Hx Hx'. apply area_sector in Hx; [|done|done]. apply area_sector in Hx'; [|done|done].
  destruct (Z.lt_trichotomy c c') as [|[|]]; [|done|]; destruct Hv; nia.
Qed.

Lemma fat_not_data f c cs : vol_ok f -> in_area f c -> Forall (in_area f) cs -> fat_lba f c ∉ chain_sectors f cs.
Proof.
  intros Hv Ha Hcs Hx. apply elem_chain_sectors in Hx as (c' & Hc' & Hx). rewrite Forall_forall in Hcs. specialize (Hcs c' Hc').
  apply area_sector in Hx; [|done|done]. pose proof (area_fat_lba f c Hv Ha). destruct Hcs, Hv. nia.
Qed.

Lemma chain_sectors_disjoint f cs T : vol_ok f -> Forall (in_area f) cs -> Forall (in_area f) T -> cs ## T -> chain_sectors f cs ## chain_sectors f T.
Proof.
  intros Hv Hcs HT Hd x Hx Hy. apply elem_chain_sectors in Hx as (c & Hc & Hx). apply elem_chain_sectors in Hy as (t & Ht & Hy).
  rewrite Forall_forall in Hcs, HT. assert (c = t) as -> by (eapply area_disjoint; eauto). by apply (Hd t).
Qed.

Lemma chain_sectors_nodup f cs : vol_ok f -> Forall (in_area f) cs -> NoDup cs -> NoDup (chain_sectors f cs).
Proof.
  intros Hv Hcs Hnd. revert Hcs. induction Hnd as [|c cs Hc Hnd IH]; intros Hcs; [constructor|]. apply Forall_cons in Hcs as [Ha Hcs].
  change (chain_sectors f (c :: cs)) with (sectors_of f c ++ chain_sectors f cs). apply NoDup_app. split_and!.
  - rewrite (area_sectors f c Hv Ha). apply NoDup_seqZ.
  - intros x Hx Hy. apply elem_chain_sectors in Hy as (c' & Hc' & Hy). rewrite Forall_forall in Hcs.
    assert (c = c') as -> by (eapply area_disjoint; eauto). done.
  - by apply IH.
Qed.

Lemma chain_sectors_range f cs : Forall (usable f) cs -> Forall (fun x => 0 <= x < bd_limit) (chain_sectors f cs).
Proof. induction 1 as [|c cs [_ Hc] _ IH]; [constructor|]. by apply Forall_app. Qed.

Lemma walk_write data f d c cs fuel st d1 m :
  chain f d c cs -> vol_ok f -> Forall (in_area f) cs -> (length cs < fuel)%nat -> bd_ready d1 -> good_state st -> bytes_ok data ->
  (forall y, disk d1 y = m y) -> (forall c', c' ∈ cs -> m (fat_lba f c') = disk d (fat_lba f c')) ->
  let w := write_pure data (chain_sectors f cs) st m in
  exists d', walk sector0 f (fun '(_, written, _) => written <? zlen data) (fun '(_, written, _) => written <? zlen data) (write_body data) fuel c st d1
    = Ret (inl w.1, d') /\ bd_ready d' /\ forall y, disk d' y = w.2 y.
Proof.
  intros Hc Hv Harea Hn Hd Hst Hdata Hm Hfat. revert fuel st d1 m Harea Hn Hd Hst Hm Hfat.
  induction Hc as [c He|c cs He Hu Hc IH]; intros fuel st d1 m Harea Hn Hd Hst Hm Hfat; (destruct fuel as [|fuel]; [cbn in Hn; lia|]); cbn [walk]; rewrite He.
  { rewrite orb_true_r. by exists d1. }
  rewrite orb_false_r. apply Forall_cons in Harea as [Ha Harea].
  destruct (Z.ltb_spec st.1.2 (zlen data)) as [Hlt|Hge].
  2: { replace (negb _) with true by (destruct st as [[? w] ?]; cbn in *; by destruct (Z.ltb_spec w (zlen data)); [lia|]).
       exists d1. rewrite write_pure_stop by done. done. }
  replace (negb _) with false by (destruct st as [[? w] ?]; cbn in *; by destruct (Z.ltb_spec w (zlen data)); [|lia]).
  change (chain_sectors f (c :: cs)) with (sectors_of f c ++ chain_sectors f cs). rewrite write_pure_app. destruct Hu as [Hfl Hr].
  destruct (walk_sectors_write data f (Z.to_nat (fat32_sectors_per_cluster f)) 0 c st d1 m Hd) as (d2 & Hw & Hr2 & Hm2); try done.
  { rewrite Z2Nat.id by (destruct Hv; lia). done. }
  rewrite Z2Nat.id in Hw, Hm2 by (destruct Hv; lia). fold (sectors_of f c) in Hw, Hm2.
  destruct (write_pure_frame data (sectors_of f c) st m) as (Hg2 & Hout & _); [|done|].
  { intros x Hx. rewrite <- Hm. apply disk_512; [done|]. rewrite Forall_forall in Hr. by apply Hr. }
  destruct (write_pure data (sectors_of f c) st m) as [st1 m1]. cbn [fst snd] in *. rewrite Hw. cbn [mbind outcome_bind].
  assert (forall c', c' ∈ c :: cs -> m1 (fat_lba f c') = disk d (fat_lba f c')) as Hfat1.
  { intros c' Hc'. rewrite Hout; [by apply Hfat|]. intros Hx.
    assert (in_area f c') as Ha' by (assert (Forall (in_area f) (c :: cs)) as HF by (by constructor); rewrite Forall_forall in HF; by apply HF).
    apply (fat_not_data f c' [c] Hv Ha'); [by constructor|]. unfold chain_sectors. cbn. by rewrite app_nil_r. }
  destruct (read_fat_entry_ok sector0 Hsector0 f c d2 Hr2 Hfl) as (d3 & -> & Hs3).
  assert (next f d2 c = next f d c) as -> by (unfold next; rewrite Hm2, Hfat1; [done|by left]).
  apply IH; [done|cbn in Hn; lia|by eapply same_ready|done|intros y; by rewrite (same_disk _ _ _ Hs3)|intros c' Hc'; apply Hfat1; by right].
Qed.

(** Without need for more clusters, the chain is only read. *)
Lemma expand_ok f d c cs fuel write_end d1 :
  chain f d c cs -> same d d1 -> (length cs < fuel)%nat -> write_end <= fat32_sectors_per_cluster f * 512 * zlen cs ->
  0 <= fat32_sectors_per_cluster f -> exists d', expand_chain sector0 fuel f c write_end d1 = Ret (true, d') /\ same d d'.
Proof.
  intros Hc. revert fuel write_end d1.
  induction Hc as [c He|c cs He [Hf Hr] Hc IH]; intros fuel write_end d1 Hs Hn Hw Hspc; (destruct fuel as [|fuel]; [cbn in Hn; lia|]); cbn [expand_chain].
  - change (zlen (@nil Z)) with 0 in Hw. destruct (Z.ltb_spec (fat32_sectors_per_cluster f * 512) write_end); [lia|]. by exists d1.
  - replace (zlen (c :: cs)) with (1 + zlen cs) in Hw by (unfold zlen; cbn; lia).
    destruct (Z.ltb_spec (fat32_sectors_per_cluster f * 512) write_end) as [Hlt|]; [|by exists d1].
    destruct (read_fat_entry_ok sector0 Hsector0 f c d1 (same_ready _ _ Hs) Hf) as (d2 & -> & Hs2). rewrite (same_next f d d1) by done.
    destruct (fat32_is_end_of_chain (next f d c)) eqn:E.
    + inversion Hc; subst; [change (zlen (@nil Z)) with 0 in Hw; nia|congruence].
    + apply IH; [by eapply same_trans|cbn in Hn; lia|lia|done].
Qed.

Lemma zlen_chain_sectors f cs : 0 <= fat32_sectors_per_cluster f -> zlen (chain_sectors f cs) = fat32_sectors_per_cluster f * zlen cs.
Proof.
  intros Hs. induction cs as [|c cs IH]; [unfold zlen; cbn; lia|].
  change (chain_sectors f (c :: cs)) with (sectors_of f c ++ chain_sectors f cs). rewrite zlen_app, IH.
  unfold sectors_of, zlen. rewrite length_fmap, length_seqZ. cbn [length]. lia.
Qed.

Lemma zlen_chain_data f d cs : bd_ready d -> Forall (usable f) cs -> zlen (chain_data f d cs) = 512 * zlen (chain_sectors f cs).
Proof. intros Hd Hu. unfold chain_data. rewrite concat_512 by (by apply chain_512). unfold zlen. by rewrite length_fmap. Qed.

(** The file whose entry is [e]: its clusters and its contents. *)
Record file_at f d (fuel : nat) (e : dirent) (cs : list Z) (content : list Z) : Prop := {
  fa_file : is_dir e = false;
  fa_chain : chain f d (first_cluster e) cs;
  fa_fuel : (length cs < fuel)%nat;
  fa_area : Forall (in_area f) cs;
  fa_nodup : NoDup cs;
  fa_size : d_file_size e < 2 ^ 32 /\ d_file_size e <= zlen (chain_data f d cs);
  fa_content : content = take (Z.to_nat (d_file_size e)) (chain_data f d cs)
}.

Lemma fat32_write_ok fuel path offset data s e d1 cs content :
  bd_ready (dev s) -> fat32_available (fs s) = true -> vol_ok (fs s) ->
  fat32_find_root_entry sector0 lfn0 ename255 fuel (fs s) path (dev s) = Ret (Some e, d1) ->
  file_at (fs s) (dev s) fuel e cs content -> 0 <= offset -> offset + zlen data <= d_file_size e -> bytes_ok data ->
  completes (fat32_write sector0 lfn0 ename255 fuel path offset data s) (fun '(r, s') =>
    r = s32 (zlen data) /\ fs s' = fs s /\ bd_ready (dev s') /\
    (forall y, y ∉ chain_sectors (fs s) cs -> disk (dev s') y = disk (dev s) y) /\
    chain_data (fs s) (dev s') cs = overwrite (chain_data (fs s) (dev s) cs) offset data).
Proof.
  intros Hd Ha Hv Hf [Hdir Hc Hn Harea Hnd [Hsz Hlen] _] Hoff Hend Hdata. unfold fat32_write. rewrite Ha, Hf. cbn [negb mbind outcome_bind]. rewrite Hdir.
  pose proof (find_root_same _ _ _ _ _ _ _ _ _ Hd Hf) as Hs1. pose proof (chain_usable _ _ _ _ Hc) as Hu.
  pose proof (zlen_chain_data (fs s) (dev s) cs Hd Hu) as Hzd. pose proof (zlen_chain_sectors (fs s) cs ltac:(destruct Hv; lia)) as Hzs.
  assert (u64 (offset + zlen data) = offset + zlen data) as -> by (apply u64_small; pose proof (zlen_nonneg data); lia).
  destruct (expand_ok (fs s) (dev s) (first_cluster e) cs fuel (offset + zlen data) d1) as (d2 & -> & Hs2); try done; [lia|destruct Hv; lia|].
  cbn [negb mbind outcome_bind].
  assert (good_state (sector0, 0, offset)) as Hg by (split_and!; cbn; [done|lia|lia]).
  destruct (walk_write data (fs s) (dev s) (first_cluster e) cs fuel (sector0, 0, offset) d2 (disk (dev s))) as (d3 & Hw & Hr3 & Hd3); try done;
    [by eapply same_ready|intros y; by apply same_disk|].
  assert (forall x, x ∈ chain_sectors (fs s) cs -> zlen (disk (dev s) x) = SECTOR) as H512.
  { intros x Hx. apply disk_512; [done|]. pose proof (chain_sectors_range (fs s) cs Hu) as Hr. rewrite Forall_forall in Hr. by apply Hr. }
  destruct (write_pure_ok data (chain_sectors (fs s) cs) sector0 0 offset (disk (dev s))) as [Hwr Hcat]; try done;
    [by apply chain_sectors_nodup|apply zlen_nonneg|lia|].
  destruct (write_pure_frame data (chain_sectors (fs s) cs) (sector0, 0, offset) (disk (dev s)) H512 Hg) as (_ & Hout & _).
  destruct (write_pure data (chain_sectors (fs s) cs) (sector0, 0, offset) (disk (dev s))) as [[[sec w] sk] m']. cbn [fst snd] in *.
  rewrite Hw. cbn [mbind outcome_bind]. destruct (Z.ltb_spec (d_file_size e) (offset + zlen data)); [lia|].
  apply completes_Ret. subst w. split_and!; [done|done|done| |].
  - intros y Hy. cbn. rewrite Hd3. by apply Hout.
  - unfold chain_data. cbn. change (drop (Z.to_nat 0) data) with data in Hcat. rewrite <- Hcat. f_equal. apply list_fmap_ext. intros. apply Hd3.
Qed.

(** ** Frames *)

(** [d'] agrees with [d] on the clusters [cs]: their table entries and data. *)
Definition agrees f (cs : list Z) d d' : Prop :=
  (forall c, c ∈ cs -> disk d' (fat_lba f c) = disk d (fat_lba f c)) /\ forall y, y ∈ chain_sectors f cs -> disk d' y = disk d y.

Lemma chain_frame f d d' c cs : (forall x, x ∈ cs -> disk d' (fat_lba f x) = disk d (fat_lba f x)) -> chain f d c cs -> chain f d' c cs.
Proof.
  intros Hf Hc. induction Hc as [c He|c cs He Hu _ IH]; [by constructor|]. constructor; [done|done|].
  assert (next f d' c = next f d c) as -> by (unfold next; rewrite Hf; [done|by left]). apply IH. intros x Hx. apply Hf. by right.
Qed.

Lemma in_dir_frame f d d' cs name e :
  (forall y, y ∈ chain_sectors f cs -> disk d' y = disk d y) -> in_dir sector0 lfn0 ename255 f d cs name e -> in_dir sector0 lfn0 ename255 f d' cs name e.
Proof. intros H. unfold in_dir. by rewrite (fmap_upd (disk d) (disk d')). Qed.

Lemma agrees_app f cs T d d' : agrees f (cs ++ T) d d' -> agrees f cs d d' /\ agrees f T d d'.
Proof.
  intros [H1 H2]. split; (split; [intros c Hc; apply H1; set_solver|]); intros y Hy; apply H2; apply elem_chain_sectors;
    apply elem_chain_sectors in Hy as (c & Hc & Hy); exists c; (split; [set_solver|done]).
Qed.

Lemma reaches_frame f d d' fuel path c e T :
  reaches sector0 lfn0 ename255 f d fuel path c e T -> agrees f T d d' -> reaches sector0 lfn0 ename255 f d' fuel path c e T.
Proof.
  induction 1 as [path seg c cs e Ht Hne Hc Hn He|path seg rest c cs e' e T Ht Hne Hrest Hc Hn He Hdir Hcl _ IH]; intros Hag.
  - destruct Hag as [Hf Hd]. econstructor; [done|done| |done|]; [by eapply chain_frame|by eapply in_dir_frame].
  - apply agrees_app in Hag as [[Hf Hd] HT]. econstructor; [done|done|done| |done| |done|done|by apply IH]; [by eapply chain_frame|by eapply in_dir_frame].
Qed.

Lemma file_at_frame f d d' fuel e cs content : agrees f cs d d' -> file_at f d fuel e cs content -> file_at f d' fuel e cs content.
Proof.
  intros [Hf Hd] [Hdir Hc Hn Ha Hnd [Hs Hl] Hct].
  assert (chain_data f d' cs = chain_data f d cs) as Heq by (unfold chain_data; by rewrite (fmap_upd (disk d) (disk d'))).
  split; [done|by eapply chain_frame|done|done|done|by rewrite Heq|by rewrite Heq].
Qed.

Lemma file_at_stored f d fuel e cs content : file_at f d fuel e cs content -> stored f d fuel e content.
Proof. intros [_ Hc Hn _ _ [_ Hl] Hct]. by exists cs. Qed.

(** Sectors outside [cs] unchanged: other clusters are as before. *)
Lemma agrees_other f d d' cs T :
  vol_ok f -> Forall (in_area f) cs -> Forall (in_area f) T -> cs ## T ->
  (forall y, y ∉ chain_sectors f cs -> disk d' y = disk d y) -> agrees f T d d'.
Proof.
  intros Hv Hcs HT Hd Hout. split.
  - intros c Hc. apply Hout. rewrite Forall_forall in HT. by apply fat_not_data; [|apply HT|].
  - intros y Hy. apply Hout. intros Hx. by apply (chain_sectors_disjoint f cs T Hv Hcs HT Hd y).
Qed.

(** Reading through [reaches] and [file_at]. *)
Lemma read_file fuel path off n s e T cs content :
  bd_ready (dev s) -> fat32_available (fs s) = true -> vol_ok (fs s) ->
  reaches sector0 lfn0 ename255 (fs s) (dev s) fuel (skip_slashes path) (fat32_root_cluster (fs s)) e T ->
  file_at (fs s) (dev s) fuel e cs content -> 0 <= off -> 0 <= n ->
  completes (fat32_read sector0 lfn0 ename255 fuel path off n s) (fun '(r, bytes, _) =>
    bytes = take (Z.to_nat n) (drop (Z.to_nat off) content) /\ r = s32 (zlen bytes)).
Proof.
  intros Hd Ha Hv Hr Hfa Hoff Hn.
  destruct (find_root_ok sector0 lfn0 ename255 Hsector0 fuel (fs s) (dev s) path e T (dev s) Hr (same_refl _ Hd)) as (d1 & Hf & _).
  eapply completes_mono; [eapply (fat32_read_ok sector0 lfn0 ename255 Hsector0); try done|].
  - by destruct Hv.
  - by destruct Hfa.
  - by eapply file_at_stored.
  - intros [[r bytes] s']. naive_solver.
Qed.

(** C10: Writing inside a file.  If a path leads to a file with contents [content],
    writing [data] at an offset such that it ends inside the file completes and
    returns the number of bytes.  Afterwards, reading the file anywhere returns
    [content] with those bytes replaced, and reading any other file, whose
    clusters and directories are not among the file's clusters, returns what it
    returned before. *)
Theorem fat32_write_read fuel path offset data s e T cs content :
  bd_ready (dev s) -> fat32_available (fs s) = true -> vol_ok (fs s) ->
  reaches sector0 lfn0 ename255 (fs s) (dev s) fuel (skip_slashes path) (fat32_root_cluster (fs s)) e T -> Forall (in_area (fs s)) T ->
  file_at (fs s) (dev s) fuel e cs content -> cs ## T ->
  0 <= offset -> offset + zlen data <= d_file_size e -> bytes_ok data ->
  completes (fat32_write sector0 lfn0 ename255 fuel path offset data s) (fun '(r, s1) =>
    r = s32 (zlen data) /\
    (forall off n, 0 <= off -> 0 <= n -> completes (fat32_read sector0 lfn0 ename255 fuel path off n s1) (fun '(r2, bytes, _) =>
       bytes = take (Z.to_nat n) (drop (Z.to_nat off) (overwrite content offset data)) /\ r2 = s32 (zlen bytes))) /\
    (forall path' e' T' cs' content' off n,
       reaches sector0 lfn0 ename255 (fs s) (dev s) fuel (skip_slashes path') (fat32_root_cluster (fs s)) e' T' -> Forall (in_area (fs s)) T' ->
       file_at (fs s) (dev s) fuel e' cs' content' -> cs ## T' -> cs ## cs' -> 0 <= off -> 0 <= n ->
       completes (fat32_read sector0 lfn0 ename255 fuel path' off n s1) (fun '(r2, bytes, _) =>
         bytes = take (Z.to_nat n) (drop (Z.to_nat off) content') /\ r2 = s32 (zlen bytes)))).
Proof.
  intros Hd Ha Hv Hr HT Hfa Hdis Hoff Hend Hdata. pose proof Hfa as [Hdir Hc Hn Harea Hnd [Hs Hl] Hct].
  destruct (find_root_ok sector0 lfn0 ename255 Hsector0 fuel (fs s) (dev s) path e T (dev s) Hr (same_refl _ Hd)) as (d1 & Hf & _).
  destruct (fat32_write_ok fuel path offset data s e d1 cs content) as ([r s1] & -> & -> & Hfs & Hr1 & Hout & Hnew); try done.
  apply completes_Ret. split; [done|]. split.
  - intros off n Ho Hn'. eapply (read_file fuel path off n s1 e T cs); [done|by rewrite Hfs|by rewrite Hfs| | |done|done]; rewrite Hfs.
    + eapply reaches_frame; [done|]. by apply (agrees_other _ _ _ cs).
    + assert (zlen (chain_data (fs s) (dev s1) cs) = zlen (chain_data (fs s) (dev s) cs)) as Hz
        by (pose proof (chain_usable _ _ _ _ Hc); by rewrite !zlen_chain_data).
      split; [done| |done|done|done|by rewrite Hz|].
      * eapply chain_frame; [|done]. intros c Hcc. apply Hout. rewrite Forall_forall in Harea. apply fat_not_data; [done|by apply Harea|]. by apply Forall_forall.
      * rewrite Hnew, Hct. pose proof (zlen_nonneg data). symmetry. apply take_overwrite; lia.
  - intros path' e' T' cs' content' off n Hr' HT' Hfa' HdT HdC Ho Hn'.
    eapply (read_file fuel path' off n s1 e' T' cs'); [done|by rewrite Hfs|by rewrite Hfs| | |done|done]; rewrite Hfs.
    + eapply reaches_frame; [done|]. by apply (agrees_other _ _ _ cs).
    + eapply file_at_frame; [|done]. apply (agrees_other _ _ _ cs); try done. by destruct Hfa'.
Qed.
End spec.

(** ** Example: three bytes across the clusters of A.TXT *)

Lemma ex_vol : vol_ok (HL := ex_laws) ex_fat.
Proof. by split. Qed.

Lemma ex_area cs : Forall (fun c => 2 <= c <= 5) cs -> Forall (in_area (HL := ex_laws) ex_fat) cs.
Proof.
  intros H. eapply Forall_impl; [done|]. intros c Hc. cbn beta in Hc. split; [lia|]. split; [change (c * 4 / 512 < 1)|change (3 + (c - 1) * 1 <= 8); lia]. apply Z.div_lt_upper_bound; lia.
Qed.

Lemma ex_file_a : file_at (HL := ex_laws) ex_fat ex_disk 10 ex_a [3; 4] (replicate 512 1 ++ replicate 88 2).
Proof.
  split; [done|exact ex_chain_a|cbn; lia| | |split; [done|vm_compute; congruence]|vm_compute; reflexivity].
  - apply ex_area. repeat constructor; lia.
  - by apply (bool_decide_unpack (NoDup [3; 4])).
Qed.

Lemma fat32_write_read_witness :
  ex_reaches [65; 46; 84; 88; 84] 2 ex_a [2] /\ file_at (HL := ex_laws) ex_fat ex_disk 10 ex_a [3; 4] (replicate 512 1 ++ replicate 88 2) /\
  completes (fat32_write blank ex_lfn 0 10 [47; 65; 46; 84; 88; 84] 511 [7; 8; 9] ex_state) (fun '(r, s1) =>
    r = s32 3 /\
    (forall off n, 0 <= off -> 0 <= n -> completes (fat32_read blank ex_lfn 0 10 [47; 65; 46; 84; 88; 84] off n s1) (fun '(r2, bytes, _) =>
       bytes = take (Z.to_nat n) (drop (Z.to_nat off) (overwrite (replicate 512 1 ++ replicate 88 2) 511 [7; 8; 9])) /\ r2 = s32 (zlen bytes))) /\
    (forall path' e' T' cs' content' off n,
       reaches (HL := ex_laws) blank ex_lfn 0 ex_fat ex_disk 10 (skip_slashes path') 2 e' T' -> Forall (in_area (HL := ex_laws) ex_fat) T' ->
       file_at (HL := ex_laws) ex_fat ex_disk 10 e' cs' content' -> [3; 4] ## T' -> [3; 4] ## cs' -> 0 <= off -> 0 <= n ->
       completes (fat32_read blank ex_lfn 0 10 path' off n s1) (fun '(r2, bytes, _) =>
         bytes = take (Z.to_nat n) (drop (Z.to_nat off) content') /\ r2 = s32 (zlen bytes)))).
Proof.
  split; [exact ex_reaches_a|]. split; [exact ex_file_a|].
  apply (fat32_write_read (HL := ex_laws) blank ex_lfn 0 eq_refl 10 [47; 65; 46; 84; 88; 84] 511 [7; 8; 9] ex_state ex_a [2] [3; 4]);
    [exact ex_ready|reflexivity|exact ex_vol|exact ex_reaches_a|apply ex_area; repeat constructor; lia|exact ex_file_a|set_solver by lia|lia|vm_compute; congruence|].
  repeat constructor; lia.
Defined.
End Fat32Write.
