(* ===== verification/Fat32Limits.v ===== *)
(** * Where the FAT32 driver goes wrong

    Long names of twenty parts leave the name buffer, and writing to an empty file
    overwrites a sector in front of the data area without recording the size. *)

From stdpp Require Import base tactics numbers option strings sets list.
From S2P Require Import Prelude Proc Telemetry CMem Alloc Timer Caps Sched Vfs BlockDev Fat32 Fat32Spec Fat32Write.

Module Fat32Limits.
Import Vfs Fat32 Fat32Spec Fat32Write.

(** ** Long names *)

Lemma wr_all_ok l i x : 0 <= i -> i + zlen x <= zlen l -> wr_all l i x = Ret (put_bytes l i x).
Proof.
  revert l i. induction x as [|c r IH]; intros l i Hi Hx; cbn [wr_all put_bytes]; [done|].
  replace (zlen (c :: r)) with (1 + zlen r) in Hx by (unfold zlen; cbn; lia). pose proof (zlen_nonneg r).
  rewrite wr_in_range by lia. cbn [mbind outcome_bind]. apply IH; [lia|]. rewrite zlen_zset. lia.
Qed.

Lemma wr_all_fault l i x : 0 <= i <= zlen l -> zlen l < i + zlen x -> wr_all l i x = Fault.
Proof.
  revert l i. induction x as [|c r IH]; intros l i Hi Hx; cbn [wr_all]; [unfold zlen in *; cbn in Hx; lia|].
  replace (zlen (c :: r)) with (1 + zlen r) in Hx by (unfold zlen; cbn; lia).
  destruct (Z.eq_dec i (zlen l)) as [->|Hne].
  - unfold wr. rewrite Z.ltb_irrefl, andb_false_r. done.
  - rewrite wr_in_range by lia. cbn [mbind outcome_bind]. apply IH; rewrite zlen_zset; lia.
Qed.

Lemma land31 x : 0 <= Z.land x 31 < 32.
Proof. change 31 with (Z.ones 5). rewrite Z.land_ones by lia. apply Z.mod_pos_bound. lia. Qed.

Lemma zlen_lfn_chars b i : zlen (lfn_chars b i) = 13.
Proof. done. Qed.

(** Storing a long-name entry in the 256-byte name buffer completes and keeps
    its length for every sequence number except 20: that one stores four bytes
    after the end of the buffer, both in the lookup and in the listing. *)
Theorem lfn_entry_bounds clamp b i lfn active :
  zlen lfn = LFN_MAX ->
  (Z.land (byte_at b i) 31 = 20 -> take_lfn clamp b i lfn active = Fault) /\
  (Z.land (byte_at b i) 31 <> 20 -> completes (take_lfn clamp b i lfn active) (fun '(l, _) => zlen l = LFN_MAX)).
Proof.
  intros Hl. unfold take_lfn. pose proof (land31 (byte_at b i)) as Hr. set (order := Z.land (byte_at b i) 31) in *. unfold LFN_MAX in *. split.
  - intros ->. cbn [Z.ltb Z.leb Z.compare Pos.compare Pos.compare_cont andb]. rewrite wr_all_fault; [done|lia|rewrite zlen_lfn_chars; lia].
  - intros Hne. destruct (Z.ltb_spec 0 order) as [H0|]; [|by apply completes_Ret].
    destruct (Z.leb_spec order 20); [|by apply completes_Ret]. cbn [andb].
    rewrite wr_all_ok by (rewrite ?zlen_lfn_chars; lia). cbn [mbind outcome_bind].
    destruct (Z.land (byte_at b i) 64 =? 0); cbn [negb]; [apply completes_Ret; by rewrite zlen_put_bytes|].
    assert (forall j, 0 <= j < 256 -> completes (l2 ← wr (put_bytes lfn ((order - 1) * 13) (lfn_chars b i)) j 0; Ret (l2, true)) (fun '(l, _) => zlen l = 256)) as Hw.
    { intros j Hj. rewrite wr_in_range by (rewrite zlen_put_bytes; lia). cbn [mbind outcome_bind]. apply completes_Ret. by rewrite zlen_zset, zlen_put_bytes. }
    destruct clamp; [apply Hw; destruct (255 <? order * 13); lia|].
    destruct (Z.ltb_spec (order * 13) 256); [apply Hw; lia|]. apply completes_Ret. by rewrite zlen_put_bytes.
Qed.

(** An entry with sequence number 20 and the mark of the last part. *)
Lemma lfn_entry_bounds_witness :
  zlen ex_lfn = LFN_MAX /\ take_lfn true (put_le 1 blank 0 84) 0 ex_lfn false = Fault /\
  (Z.land (byte_at (put_le 1 blank 0 84) 0) 31 = 20 -> take_lfn true (put_le 1 blank 0 84) 0 ex_lfn false = Fault) /\
  (Z.land (byte_at (put_le 1 blank 0 84) 0) 31 <> 20 -> completes (take_lfn true (put_le 1 blank 0 84) 0 ex_lfn false) (fun '(l, _) => zlen l = LFN_MAX)).
Proof. split; [reflexivity|]. split; [vm_compute; reflexivity|]. apply (lfn_entry_bounds true (put_le 1 blank 0 84) 0 ex_lfn false). reflexivity. Defined.

(** ** Writing to an empty file *)

Section spec.
Context {D : Type} `{HD : BlockDevice D, HL : !BlockDeviceLaws D}.
Context (sector0 lfn0 : list Z) (ename255 : Z) (Hsector0 : zlen sector0 = SECTOR).
Implicit Types (f : fat) (d : D).

(** No short name in a sector begins with a slash. *)
Definition plain_names (b : list Z) : Prop :=
  forall i, i ∈ entry_offsets -> head (cstr (short_chars (get_entry b i))) <> Some SLASH.

Lemma streq_slash a p : head a <> Some SLASH -> streq a (SLASH :: p) = false.
Proof.
  destruct a as [|x a]; cbn [streq head]; [done|]. intros H. assert (x <> SLASH) by congruence.
  assert (upper SLASH = SLASH) as -> by done. destruct (Z.eqb_spec (upper x) SLASH) as [E|]; [|done].
  exfalso. unfold upper, SLASH in *. destruct (Z.leb_spec 97 x), (Z.leb_spec x 122); cbn in E; lia.
Qed.

Lemma update_in_sector_none offs p e b :
  (forall i, i ∈ offs -> head (cstr (short_chars (get_entry b i))) <> Some SLASH) -> update_in_sector offs (SLASH :: p) e b = None.
Proof.
  intros H. induction offs as [|i r IH]; cbn [update_in_sector]; [done|]. rewrite streq_slash by (apply H; by left).
  rewrite andb_false_r. apply IH. intros j Hj. apply H. by right.
Qed.

Lemma update_body_none p e lba sector d :
  bd_ready d -> 0 <= lba < bd_limit -> zlen sector = SECTOR -> plain_names (disk d lba) ->
  exists d1, update_body (SLASH :: p) e lba sector d = Ret (inl (disk d lba), d1) /\ same d d1.
Proof.
  intros Hd Hx Hs Hp. unfold update_body, fat32_read_sector. destruct (bd_read d lba sector Hd Hx Hs) as (d1 & -> & Hs1).
  rewrite update_in_sector_none by done. by exists d1.
Qed.

(** A name with a leading slash, which is how paths below a mount point begin, is
    never found by [fat32_update_directory_entry]. *)
Lemma update_sectors_none f p e n idx c sector d :
  let L := (fun i => u32 (fat32_cluster_to_lba f c + i)) <$> seqZ idx (Z.of_nat n) in
  Forall (fun x => 0 <= x < bd_limit /\ plain_names (disk d x)) L -> bd_ready d -> zlen sector = SECTOR ->
  exists sector' d', walk_sectors f (fun _ => true) (update_body (SLASH :: p) e) n idx c sector d = Ret (inl sector', d') /\
    zlen sector' = SECTOR /\ same d d'.
Proof.
  revert idx sector d. induction n as [|n IH]; intros idx sector d L HL' Hd Hs; [exists sector, d; split_and!; [done|done|by apply same_refl]|].
  unfold L in HL'. rewrite seqZ_cons in HL' by lia. cbn [fmap list_fmap] in HL'. apply Forall_cons in HL' as [[Hx Hp] HL'].
  cbn [walk_sectors negb]. destruct (update_body_none p e _ sector d Hd Hx Hs Hp) as (d1 & -> & Hs1). cbn [mbind outcome_bind]. replace (Z.pred (Z.of_nat (S n))) with (Z.of_nat n) in HL' by lia.
  replace (idx + 1) with (Z.succ idx) by lia.
  destruct (IH (Z.succ idx) (disk d (u32 (fat32_cluster_to_lba f c + idx))) d1) as (sec' & d' & Hw & Hsec & Hs'); [|by eapply same_ready|by apply disk_512|].
  - eapply Forall_impl; [done|]. intros x [Hx' Hp']. split; [done|]. by rewrite (same_disk _ _ _ Hs1).
  - exists sec', d'. split_and!; [done|done|by eapply same_trans].
Qed.

Lemma update_never_matches fuel f d c cs p e sector d1 :
  chain f d c cs -> same d d1 -> (length cs < fuel)%nat -> Forall (fun x => plain_names (disk d x)) (chain_sectors f cs) ->
  zlen sector = SECTOR ->
  exists x d', walk sector0 f (fun _ => true) (fun _ => true) (update_body (SLASH :: p) e) fuel c sector d1 = Ret (inl x, d') /\ same d d'.
Proof.
  intros Hc. revert fuel sector d1. induction Hc as [c He|c cs He [Hf Hr] _ IH]; intros fuel sector d1 Hs Hn Hp Hsec;
    (destruct fuel as [|fuel]; [cbn in Hn; lia|]); cbn [walk negb orb]; rewrite He; [by exists sector, d1|].
  change (chain_sectors f (c :: cs)) with (sectors_of f c ++ chain_sectors f cs) in Hp. apply Forall_app in Hp as [Hp1 Hp2].
  assert (Forall (fun x => 0 <= x < bd_limit /\ plain_names (disk d1 x)) (sectors_of f c)) as HL'.
  { apply Forall_forall. intros x Hx. rewrite Forall_forall in Hr, Hp1. rewrite (same_disk _ _ _ Hs). auto. }
  destruct (update_sectors_none f p e (Z.to_nat (fat32_sectors_per_cluster f)) 0 c sector d1) as (sec' & d2 & -> & Hsec' & Hs2); [|by eapply same_ready|done|].
  { destruct (Z.le_gt_cases 0 (fat32_sectors_per_cluster f)); [by rewrite Z2Nat.id|]. rewrite Z2Nat.nonpos by lia. constructor. }
  cbn [mbind outcome_bind]. destruct (read_fat_entry_ok sector0 Hsector0 f c d2 (same_ready _ _ Hs2) Hf) as (d3 & -> & Hs3).
  rewrite (same_next f d d2) by (by eapply same_trans).
  apply IH; [eapply same_trans; [by eapply same_trans|done]|cbn in Hn; lia|done|done].
Qed.

(** Cluster 0, the first cluster of an empty file, is two clusters before the data. *)
Lemma cluster0_sectors f :
  vol_ok f -> 2 * fat32_sectors_per_cluster f <= data_start f ->
  sectors_of f 0 = seqZ (data_start f - 2 * fat32_sectors_per_cluster f) (fat32_sectors_per_cluster f).
Proof.
  intros [H1 H2 H3 H4 H5 H6] H7. pose proof bd_limit_u32. unfold sectors_of.
  assert (fat32_cluster_to_lba f 0 = data_start f - 2 * fat32_sectors_per_cluster f) as ->.
  { unfold fat32_cluster_to_lba. fold (data_start f). unfold data_start in *. assert (0 <= fat32_fat_count f * fat32_fat_size f) by nia.
    rewrite (u32_small (fat32_fat_count f * fat32_fat_size f)) by lia. rewrite (u32_small (_ + _ + _)) by lia.
    change (u32 (0 - 2)) with (2 ^ 32 - 2). unfold u32. rewrite Z.add_mod_idemp_r by lia.
    replace (fat32_partition_lba f + fat32_reserved_sectors f + fat32_fat_count f * fat32_fat_size f + (2 ^ 32 - 2) * fat32_sectors_per_cluster f)
      with (fat32_partition_lba f + fat32_reserved_sectors f + fat32_fat_count f * fat32_fat_size f - 2 * fat32_sectors_per_cluster f
            + fat32_sectors_per_cluster f * 2 ^ 32) by ring.
    rewrite Z.mod_add by lia. apply Z.mod_small. lia. }
  apply list_eq. intros i. rewrite !list_lookup_fmap. destruct (decide (Z.of_nat i < fat32_sectors_per_cluster f)) as [Hi|Hi].
  - rewrite !lookup_seqZ_lt by lia. cbn. f_equal. rewrite u32_small; lia.
  - by rewrite !lookup_seqZ_ge by lia.
Qed.

(** One sector of cluster 0 is written. *)
Lemma write_cluster0 fuel f data d :
  bd_ready d -> vol_ok f -> 2 * fat32_sectors_per_cluster f <= data_start f -> 1 <= zlen data <= 512 -> bytes_ok data -> (2 <= fuel)%nat ->
  let x0 := data_start f - 2 * fat32_sectors_per_cluster f in
  exists st d', walk sector0 f (fun '(_, written, _) => written <? zlen data) (fun '(_, written, _) => written <? zlen data) (write_body data) fuel 0
      (sector0, 0, 0) d = Ret (inl st, d') /\ st.1.2 = zlen data /\ bd_ready d' /\ forall y, disk d' y = upd (disk d) x0 (overwrite (disk d x0) 0 data) y.
Proof.
  intros Hd Hv Hds Hlen Hdata Hfuel x0. destruct fuel as [|[|fuel]]; [lia|lia|]. pose proof Hv as [Hspc Hpart Hres Hcount Hsz Hlim]. pose proof bd_limit_u32.
  assert (good_state (sector0, 0, 0)) as Hg by (split_and!; cbn; [done|lia|lia]).
  assert (exists rest, sectors_of f 0 = x0 :: rest) as (rest & HL0).
  { rewrite cluster0_sectors by done. rewrite seqZ_cons by lia. by eexists. }
  assert (write_pure data (sectors_of f 0) (sector0, 0, 0) (disk d) =
    ((overwrite (disk d x0) 0 data, zlen data, 0), upd (disk d) x0 (overwrite (disk d x0) 0 data))) as Hw.
  { rewrite HL0. cbn [write_pure fst snd]. destruct (Z.ltb_spec 0 (zlen data)); [|lia]. cbn [write_step Z.leb Z.compare].
    rewrite Z.sub_0_r, Z.min_l by lia. assert (slice data 0 (zlen data) = data) as -> by (unfold slice, zlen; rewrite drop_0; apply take_ge; lia).
    apply write_pure_stop. cbn. lia. }
  remember (S fuel) as n eqn:Hn. cbn [walk]. destruct (Z.ltb_spec 0 (zlen data)); [|lia]. cbn [negb orb fat32_is_end_of_chain Z.leb Z.compare].
  destruct (walk_sectors_write data f (Z.to_nat (fat32_sectors_per_cluster f)) 0 0 (sector0, 0, 0) d (disk d) Hd) as (d2 & -> & Hr2 & Hd2); try done.
  { rewrite Z2Nat.id by lia. fold (sectors_of f 0). rewrite cluster0_sectors by done. apply Forall_forall. intros x Hx%elem_of_seqZ. lia. }
  rewrite Z2Nat.id in * by lia. fold (sectors_of f 0) in *. rewrite Hw in *. cbn [mbind outcome_bind fst snd] in *.
  destruct (read_fat_entry_ok sector0 Hsector0 f 0 d2 Hr2) as (d3 & -> & Hs3).
  { unfold fat_lba. change (u32 (0 * 4) / 512) with 0. unfold data_start in Hlim. assert (0 <= fat32_fat_count f * fat32_fat_size f) by nia. rewrite u32_small; lia. }
  subst n. cbn [walk]. rewrite Z.ltb_irrefl. cbn [negb orb]. eexists _, d3. split; [done|]. split_and!; [done|by eapply same_ready|].
  intros y. by rewrite (same_disk _ _ _ Hs3).
Qed.

(** Writing to an empty file.  On a volume with two copies of the table, if a
    path of the form "/..." leads to an empty file (first cluster 0, size 0) and no
    name in the root directory begins with a slash, writing up to 512 bytes at
    offset 0 reports success, but the only change on the disk is that the bytes
    overwrite the beginning of a sector of the second copy of the table; the
    file's directory entry still says that it is empty. *)
Theorem write_empty_file_corrupts fuel p data s e T root :
  let f := fs s in
  bd_ready (dev s) -> fat32_available f = true -> vol_ok f -> 2 <= fat32_fat_count f -> 2 * fat32_sectors_per_cluster f <= fat32_fat_size f ->
  reaches sector0 lfn0 ename255 f (dev s) fuel (skip_slashes (SLASH :: p)) (fat32_root_cluster f) e T ->
  is_dir e = false -> first_cluster e = 0 -> d_file_size e = 0 -> 1 <= zlen data <= 512 -> bytes_ok data ->
  chain f (dev s) (fat32_root_cluster f) root -> Forall (in_area f) root -> (length root < fuel)%nat -> (2 <= fuel)%nat ->
  Forall (fun x => plain_names (disk (dev s) x)) (chain_sectors f root) ->
  completes (fat32_write sector0 lfn0 ename255 fuel (SLASH :: p) 0 data s) (fun '(r, s') =>
    r = s32 (zlen data) /\ fs s' = f /\
    forall y, disk (dev s') y = if y =? data_start f - 2 * fat32_sectors_per_cluster f then overwrite (disk (dev s) y) 0 data else disk (dev s) y).
Proof.
  intros f Hd Ha Hv Hcount Hsize Hr Hdir Hc0 Hs0 Hlen Hdata Hroot Harea Hn Hn2 Hplain. pose proof Hv as [Hspc Hpart Hres _ _ Hlim].
  destruct (find_root_ok sector0 lfn0 ename255 Hsector0 fuel f (dev s) (SLASH :: p) e T (dev s) Hr (same_refl _ Hd)) as (d1 & Hf & Hs1).
  assert (fat32_partition_lba f + fat32_reserved_sectors f + fat32_fat_size f <= data_start f - 2 * fat32_sectors_per_cluster f) as Hx0 by (unfold data_start; nia).
  unfold fat32_write. fold f. rewrite Ha, Hf. cbn [negb mbind outcome_bind]. rewrite Hdir, Hc0, Hs0, Z.add_0_l.
  assert (u64 (zlen data) = zlen data) as -> by (apply u64_small; lia).
  assert (expand_chain sector0 fuel f 0 (zlen data) d1 = Ret (true, d1)) as ->.
  { destruct fuel; [lia|]. cbn [expand_chain]. by destruct (Z.ltb_spec (fat32_sectors_per_cluster f * 512) (zlen data)); [lia|]. }
  cbn [negb mbind outcome_bind].
  destruct (write_cluster0 fuel f data d1) as ([[sec w] sk] & d3 & -> & Hw & Hr3 & Hd3); try done; [by eapply same_ready|lia|].
  cbn in Hw. subst w. cbn [mbind outcome_bind]. destruct (Z.ltb_spec 0 (zlen data)); [|lia].
  set (x0 := data_start f - 2 * fat32_sectors_per_cluster f) in *.
  assert (forall y, disk d3 y = if y =? x0 then overwrite (disk (dev s) y) 0 data else disk (dev s) y) as Hd3'.
  { intros y. rewrite Hd3. unfold upd. rewrite !(same_disk _ _ _ Hs1). destruct (Z.eqb_spec y x0) as [->|]; done. }
  assert (forall y, y <> x0 -> disk d3 y = disk (dev s) y) as Hne by (intros y Hy; rewrite Hd3'; by destruct (Z.eqb_spec y x0)).
  unfold fat32_update_directory_entry.
  destruct (update_never_matches fuel f d3 (fat32_root_cluster f) root p (with_size (u32 (zlen data)) e) sector0 d3) as (x & d4 & -> & Hs4); try done.
  - eapply chain_frame; [|done]. intros c Hc. apply Hne. rewrite Forall_forall in Harea. pose proof (area_fat_lba f c Hv (Harea c Hc)) as [-> _].
    destruct (Harea c Hc) as (_ & Hc2 & _). lia.
  - apply Forall_forall. intros y Hin. rewrite Forall_forall in Hplain. rewrite Hne; [by apply Hplain|]. apply elem_chain_sectors in Hin as (c & Hc & Hin). rewrite Forall_forall in Harea.
    apply area_sector in Hin; [|done|by apply Harea]. destruct (Harea c Hc) as (Hc2 & _). nia.
  - cbn [mbind outcome_bind]. apply completes_Ret. split_and!; [done|done|]. intros y. cbn. rewrite (same_disk _ _ _ Hs4). apply Hd3'.
Qed.
End spec.

(** ** Example: sectors 2-3 and 4-5 are the tables, sector 6 the root directory
    with an empty file C.TXT *)

Definition ex2_c : dirent := ex_file 67 0 0.
Definition ex2_disk : ramdisk := mk_ramdisk
  [blank; blank; put_le 4 blank 8 FAT32_EOC; blank; put_le 4 blank 8 FAT32_EOC; blank; put_entry blank 0 ex2_c; blank].
Definition ex2_fat : fat := mk_fat true 1 2 1 1 2 2 8 0 512.
Definition ex2_state : fstate (D := ramdisk) := mk_fs ex2_fat ex2_disk.

Lemma ex2_ready : bd_ready (BlockDeviceLaws := ex_laws) ex2_disk.
Proof. split; [done|]. repeat (constructor; [apply sector_ok_dec; vm_compute; reflexivity|]). constructor. Qed.

Lemma ex2_root : chain (HL := ex_laws) ex2_fat ex2_disk 2 [2].
Proof.
  constructor; [done| |constructor; vm_compute; reflexivity].
  split; [vm_compute; split; congruence|]. constructor; [vm_compute; split; congruence|constructor].
Qed.

Lemma ex2_reaches : reaches (HL := ex_laws) blank ex_lfn 0 ex2_fat ex2_disk 10 [67; 46; 84; 88; 84] 2 ex2_c [2].
Proof.
  eapply (reaches_last (HL := ex_laws) blank ex_lfn 0 ex2_fat ex2_disk 10 [67; 46; 84; 88; 84] [67; 46; 84; 88; 84]);
    [done|done|exact ex2_root|cbn; lia|vm_compute; reflexivity].
Qed.

Lemma ex2_plain : Forall (fun x => plain_names (disk (BlockDeviceLaws := ex_laws) ex2_disk x)) (chain_sectors ex2_fat [2]).
Proof.
  constructor; [|constructor]. intros i Hi. revert i Hi. apply Forall_forall. repeat (constructor; [vm_compute; congruence|]). constructor.
Qed.

(** "/C.TXT" gets three bytes: sector 4, in the second table, is overwritten. *)
Lemma write_empty_file_corrupts_witness :
  reaches (HL := ex_laws) blank ex_lfn 0 ex2_fat ex2_disk 10 [67; 46; 84; 88; 84] 2 ex2_c [2] /\
  completes (fat32_write blank ex_lfn 0 10 [47; 67; 46; 84; 88; 84] 0 [7; 8; 9] ex2_state) (fun '(r, s') =>
    r = s32 3 /\ fs s' = ex2_fat /\
    forall y, disk (BlockDeviceLaws := ex_laws) (dev s') y =
      if y =? 4 then overwrite (disk (BlockDeviceLaws := ex_laws) ex2_disk y) 0 [7; 8; 9] else disk (BlockDeviceLaws := ex_laws) ex2_disk y).
Proof.
  split; [exact ex2_reaches|].
  apply (write_empty_file_corrupts (HL := ex_laws) blank ex_lfn 0 eq_refl 10 [67; 46; 84; 88; 84] [7; 8; 9] ex2_state ex2_c [2] [2]);
    [exact ex2_ready|reflexivity|by split|cbn; lia|cbn; lia|exact ex2_reaches|reflexivity|reflexivity|reflexivity|unfold zlen; cbn; lia
    |repeat constructor; lia|exact ex2_root| |cbn; lia|lia|exact ex2_plain].
  constructor; [|constructor]. split; [lia|]. split; [reflexivity|vm_compute; congruence].
Defined.
End Fat32Limits.
