(* ===== verification/Btrfs.v ===== *)
(** * Btrfs reader (kernel/fs/btrfs.c)

    The superblock, translation of logical addresses through the system chunk
    array, search in the trees, resolution of paths and the operations registered
    with the virtual file system, over a block device (BlockDev.v).  Structures are
    read out of byte buffers at the offsets that include/btrfs.h declares.

    Nodes are read into static variables of type [btrfs_node].  [room] is the number
    of bytes that belong to such a variable: [sizeof_btrfs_node], 81, by its
    declaration, whose arrays have length zero.  Theorems are stated for any [room],
    and for this one. *)

From stdpp Require Import base tactics list numbers option.
From S2P Require Import Prelude CMem BlockDev Vfs.

Module Btrfs.
Import Vfs.
Local Open Scope Z_scope.

(** ** Model *)

Definition BTRFS_SUPER_INFO_OFFSET : Z := 0x10000.
Definition BTRFS_MAGIC : Z := 0x4D5F53665248425F.
Definition BTRFS_NODE_SIZE : Z := 16384.
Definition BTRFS_INODE_ITEM_KEY : Z := 1.
Definition BTRFS_DIR_INDEX_KEY : Z := 96.
Definition BTRFS_EXTENT_DATA_KEY : Z := 108.
Definition BTRFS_ROOT_ITEM_KEY : Z := 132.
Definition BTRFS_CHUNK_ITEM_KEY : Z := 228.
Definition BTRFS_FS_TREE_OBJECTID : Z := 5.
Definition BTRFS_FIRST_FREE_OBJECTID : Z := 256.
Definition BTRFS_PARTITION_START_LBA : Z := 2048 + 64 * 1024 * 1024 / 512.

Definition sizeof_btrfs_super_block : Z := 3371.
Definition sizeof_btrfs_header : Z := 81.
Definition sizeof_btrfs_node : Z := 81.
Definition sizeof_btrfs_key : Z := 17.
Definition sizeof_btrfs_item : Z := 25.
Definition sizeof_btrfs_key_ptr : Z := 33.
Definition sizeof_btrfs_chunk : Z := 44.
Definition sizeof_btrfs_stripe : Z := 32.
Definition sizeof_btrfs_dir_item : Z := 30.

(** An [n]-byte field at offset [i], inside the buffer. *)
Definition field (n : nat) (b : list Z) (i : Z) : outcome Z :=
  if (0 <=? i) && (i + Z.of_nat n <=? zlen b) then Ret (get_le n b i) else Fault.

(** [n] bytes. *)
Definition bytes (b : list Z) (i n : Z) : outcome (list Z) :=
  if (0 <=? i) && (0 <=? n) && (i + n <=? zlen b) then Ret (slice b i n) else Fault.

Record key := mk_key { objectid : Z; k_type : Z; k_offset : Z }.

Definition key_at (b : list Z) (i : Z) : outcome key :=
  o ← field 8 b i; t ← field 1 b (i + 8); f ← field 8 b (i + 9); Ret (mk_key o t f).

Definition btrfs_compare_keys (a b : key) : Z :=
  if objectid a <? objectid b then -1 else if objectid b <? objectid a then 1
  else if k_type a <? k_type b then -1 else if k_type b <? k_type a then 1
  else if k_offset a <? k_offset b then -1 else if k_offset b <? k_offset a then 1
  else 0.

(** The node variables: of [btrfs_get_fs_root], [btrfs_resolve_path], [btrfs_ls],
    [btrfs_be_stat], [btrfs_be_readdir] and [btrfs_be_read]. *)
Definition V_ROOT : Z := 0.
Definition V_PATH : Z := 1.
Definition V_LS : Z := 2.
Definition V_STAT : Z := 3.
Definition V_DIR : Z := 4.
Definition V_READ : Z := 5.

Section btrfs.
Context {D : Type} `{BlockDevice D}.
(** Turns of a loop that depends on the disk. *)
Context (fuel : nat).

Record btrfs := mk_btrfs { btrfs_available : Z; g_super : list Z; nodes : list (list Z); dev : D }.

Definition with_dev (d : D) (s : btrfs) : btrfs := mk_btrfs (btrfs_available s) (g_super s) (nodes s) d.
Definition node (v : Z) (s : btrfs) : list Z := default [] ((nodes s).[v]).
Definition set_node (v : Z) (b : list Z) (s : btrfs) : btrfs := mk_btrfs (btrfs_available s) (g_super s) ((nodes s).[v <- b]) (dev s).

(** Static storage; node variables of [room] bytes. *)
Definition btrfs_static (room : nat) (d : D) : btrfs :=
  mk_btrfs 0 (replicate (Z.to_nat sizeof_btrfs_super_block) 0) (replicate 6 (replicate room 0)) d.

(** [btrfs_read_sector(lba, buffer + i)] *)
Definition btrfs_read_sector (lba : Z) (buffer : list Z) (i : Z) (d : D) : outcome (bool * list Z * D) :=
  b ← bytes buffer i 512;
  let '(ok, b', d') := ata_read_sector lba b d in
  Ret (ok, put_bytes buffer i b', d').

(** [n] sectors from [lba], from sector [i] of the buffer on. *)
Fixpoint read_sectors (n : nat) (i lba : Z) (buffer : list Z) (d : D) : outcome (bool * list Z * D) :=
  match n with
  | O => Ret (true, buffer, d)
  | S k =>
      '(ok, b, d') ← btrfs_read_sector (u32 (lba + i)) buffer (i * 512) d;
      if (ok : bool) then read_sectors k (i + 1) lba b d' else Ret (false, b, d')
  end.

Definition SYS_CHUNK_ARRAY : Z := 811.

Fixpoint find_chunk (n : nat) (ptr end_ logical : Z) (sb : list Z) : outcome Z :=
  if end_ <=? ptr then Ret logical
  else match n with
  | O => OutOfFuel
  | S k =>
      let a := SYS_CHUNK_ARRAY + ptr in
      t ← field 1 sb (a + 8);
      if t =? BTRFS_CHUNK_ITEM_KEY then
        off ← field 8 sb (a + 9);
        len ← field 8 sb (a + sizeof_btrfs_key);
        if (off <=? logical) && (logical <? u64 (off + len)) then
          so ← field 8 sb (a + sizeof_btrfs_key + sizeof_btrfs_chunk + 8);
          Ret (u64 (so + (logical - off)))
        else
          stripes ← field 2 sb (a + sizeof_btrfs_key + 40);
          find_chunk k (ptr + sizeof_btrfs_key + sizeof_btrfs_chunk + stripes * sizeof_btrfs_stripe) end_ logical sb
      else find_chunk k (ptr + 1) end_ logical sb
  end.

(** At least one byte is passed in every turn. *)
Definition btrfs_logical_to_physical (logical : Z) (s : btrfs) : outcome Z :=
  size ← field 4 (g_super s) 160;
  find_chunk (Z.to_nat size) 0 size logical (g_super s).

Definition btrfs_read_node (logical_addr : Z) (v : Z) (s : btrfs) : outcome (bool * btrfs) :=
  physical ← btrfs_logical_to_physical logical_addr s;
  let lba := u32 (BTRFS_PARTITION_START_LBA + u32 (physical / 512)) in
  ns ← field 4 (g_super s) 148;
  let nodesize := if ns =? 0 then BTRFS_NODE_SIZE else ns in
  '(ok, b, d) ← read_sectors (Z.to_nat (nodesize / 512)) 0 lba (node v s) (dev s);
  Ret (ok, with_dev d (set_node v b s)).

(** *** Nodes *)

Definition level (b : list Z) : outcome Z := field 2 b 64.
Definition nritems (b : list Z) : outcome Z := field 4 b 76.
Definition item_key (b : list Z) (i : Z) : outcome key := key_at b (sizeof_btrfs_header + sizeof_btrfs_item * i).
Definition item_offset (b : list Z) (i : Z) : outcome Z := field 4 b (sizeof_btrfs_header + sizeof_btrfs_item * i + 17).
Definition item_size (b : list Z) (i : Z) : outcome Z := field 4 b (sizeof_btrfs_header + sizeof_btrfs_item * i + 21).
Definition ptr_key (b : list Z) (i : Z) : outcome key := key_at b (sizeof_btrfs_header + sizeof_btrfs_key_ptr * i).
Definition blockptr (b : list Z) (i : Z) : outcome Z := field 8 b (sizeof_btrfs_header + sizeof_btrfs_key_ptr * i + 17).

(** Where the data of item [i] starts. *)
Definition item_data (b : list Z) (i : Z) : outcome Z := o ← item_offset b i; Ret (101 + o).

(** [while (slot < n - 1)] *)
Fixpoint find_slot (k : nat) (slot n : Z) (sk : key) (b : list Z) : outcome Z :=
  if n - 1 <=? slot then Ret slot
  else match k with
  | O => OutOfFuel
  | S k' =>
      pk ← ptr_key b (slot + 1);
      if btrfs_compare_keys sk pk <? 0 then Ret slot else find_slot k' (slot + 1) n sk b
  end.

(** The loop that all lookups share: down to the leaf for [sk]. *)
Fixpoint find_leaf (k : nat) (sk : key) (v logical : Z) (s : btrfs) : outcome (bool * btrfs) :=
  match k with
  | O => OutOfFuel
  | S k' =>
      '(ok, s1) ← btrfs_read_node logical v s;
      if negb ok then Ret (false, s1)
      else
        let b := node v s1 in
        n0 ← nritems b;
        let n := s32 n0 in
        l ← level b;
        if 0 <? l then
          slot ← find_slot (Z.to_nat n) 0 n sk b;
          next ← blockptr b slot;
          find_leaf k' sk v next s1
        else Ret (true, s1)
  end.

(** [for (i = 0; i < n; i++)] of [btrfs_tree_search] *)
Fixpoint find_item (k : nat) (i n : Z) (sk : key) (b : list Z) : outcome (option Z) :=
  match k with
  | O => Ret None
  | S k' =>
      ik ← item_key b i;
      let cmp := btrfs_compare_keys sk ik in
      if cmp =? 0 then Ret (Some i) else if cmp <? 0 then Ret None else find_item k' (i + 1) n sk b
  end.

Definition btrfs_tree_search (root_logical : Z) (sk : key) (v : Z) (s : btrfs) : outcome (option Z * btrfs) :=
  '(ok, s1) ← find_leaf fuel sk v root_logical s;
  if negb ok then Ret (None, s1)
  else
    n ← nritems (node v s1);
    r ← find_item (Z.to_nat (s32 n)) 0 (s32 n) sk (node v s1);
    Ret (r, s1).

(** *** The superblock *)

(** Six sectors fit in the buffer, which is not initialised beyond them; [junk] is
    the buffer before.  The result also says what is printed and logged. *)
Definition btrfs_init (junk : list Z) (s : btrfs) : outcome (bool * btrfs) :=
  let unavailable d := mk_btrfs 0 (g_super s) (nodes s) d in
  if negb (ata_is_available (dev s)) then Ret (false, unavailable (dev s))
  else
    let super_lba := BTRFS_PARTITION_START_LBA + BTRFS_SUPER_INFO_OFFSET / 512 in
    '(ok, b, d) ← read_sectors (Z.to_nat (sizeof_btrfs_super_block / 512)) 0 super_lba junk (dev s);
    if negb ok then Ret (false, unavailable d)
    else
      magic ← field 8 b 64;
      if magic =? BTRFS_MAGIC then Ret (true, mk_btrfs 1 b (nodes s) d) else Ret (false, unavailable d).

Definition btrfs_is_available (s : btrfs) : Z := btrfs_available s.

Definition btrfs_get_fs_root (s : btrfs) : outcome (Z * btrfs) :=
  root ← field 8 (g_super s) 80;
  '(r, s1) ← btrfs_tree_search root (mk_key BTRFS_FS_TREE_OBJECTID BTRFS_ROOT_ITEM_KEY 0) V_ROOT s;
  match r with
  | Some idx =>
      data ← item_data (node V_ROOT s1) idx;
      root' ← field 8 (node V_ROOT s1) (data + 16);
      Ret (root', s1)
  | None => Ret (0, s1)
  end.

(** *** Paths *)

(** The object that the entry [nm] of directory [dir] names, in the leaf [b]. *)
Fixpoint scan_dir (k : nat) (i dir : Z) (nm b : list Z) : outcome (option Z) :=
  match k with
  | O => Ret None
  | S k' =>
      ik ← item_key b i;
      if (objectid ik =? dir) && (k_type ik =? BTRFS_DIR_INDEX_KEY) then
        di ← item_data b i;
        len ← field 2 b (di + 27);
        if len =? zlen nm then
          x ← bytes b (di + sizeof_btrfs_dir_item) (zlen nm);
          if bool_decide (x = nm) then o ← field 8 b di; Ret (Some o) else scan_dir k' (i + 1) dir nm b
        else scan_dir k' (i + 1) dir nm b
      else if dir <? objectid ik then Ret None
      else scan_dir k' (i + 1) dir nm b
  end.

(** The components of a path, from its first character on. *)
Fixpoint resolve_parts (parts : list (list Z)) (dir fs_root : Z) (s : btrfs) : outcome (Z * btrfs) :=
  match parts with
  | [] => Ret (dir, s)
  | nm :: r =>
      '(ok, s1) ← find_leaf fuel (mk_key dir BTRFS_DIR_INDEX_KEY 0) V_PATH fs_root s;
      if negb ok then Ret (0, s1)
      else
        n ← nritems (node V_PATH s1);
        found ← scan_dir (Z.to_nat n) 0 dir nm (node V_PATH s1);
        match found with
        | None => Ret (0, s1)
        | Some o => resolve_parts r o fs_root s1
        end
  end.

(** Splits a path at slashes, dropping empty components. *)
Fixpoint split_path (cur : list Z) (p : list Z) : list (list Z) :=
  match p with
  | [] => match cur with [] => [] | _ => [cur] end
  | c :: r => if c =? 47 then match cur with [] => split_path [] r | _ => cur :: split_path [] r end else split_path (cur ++ [c]) r
  end.

Definition btrfs_resolve_path (path : list Z) (s : btrfs) : outcome (Z * btrfs) :=
  match path with
  | 47 :: [] => Ret (BTRFS_FIRST_FREE_OBJECTID, s)
  | 47 :: _ =>
      '(fs_root, s1) ← btrfs_get_fs_root s;
      if fs_root =? 0 then Ret (0, s1) else resolve_parts (split_path [] path) BTRFS_FIRST_FREE_OBJECTID fs_root s1
  | _ => Ret (0, s)
  end.

(** *** Operations *)

(** Object ids and types of the items of the root tree, as [btrfs_ls] prints them. *)
Fixpoint ls_items (k : nat) (i : Z) (b : list Z) : outcome (list (Z * Z)) :=
  match k with
  | O => Ret []
  | S k' => ik ← item_key b i; r ← ls_items k' (i + 1) b; Ret ((objectid ik, k_type ik) :: r)
  end.

Definition btrfs_ls (s : btrfs) : outcome (list (Z * Z) * btrfs) :=
  if btrfs_available s =? 0 then Ret ([], s)
  else
    root ← field 8 (g_super s) 80;
    '(ok, s1) ← btrfs_read_node root V_LS s;
    if negb ok then Ret ([], s1)
    else n ← nritems (node V_LS s1); r ← ls_items (Z.to_nat n) 0 (node V_LS s1); Ret (r, s1).

(** The part of a path after its last slash. *)
Fixpoint last_part (last : list Z) (p : list Z) : list Z :=
  match p with
  | [] => last
  | c :: r => if c =? 47 then last_part r r else last_part last r
  end.

(** The name is not terminated when it has 64 characters or more. *)
Definition btrfs_be_stat (rel_path : list Z) (out : vfs_stat_t) (s : btrfs) : outcome (Z * vfs_stat_t * btrfs) :=
  if btrfs_available s =? 0 then Ret (VFS_EIO, out, s)
  else
    '(oid, s1) ← btrfs_resolve_path rel_path s;
    if oid =? 0 then Ret (VFS_ENOENT, out, s1)
    else
      '(fs_root, s2) ← btrfs_get_fs_root s1;
      if fs_root =? 0 then Ret (VFS_EIO, out, s2)
      else
        '(r, s3) ← btrfs_tree_search fs_root (mk_key oid BTRFS_INODE_ITEM_KEY 0) V_STAT s2;
        match r with
        | None => Ret (VFS_ENOENT, out, s3)
        | Some idx =>
            ii ← item_data (node V_STAT s3) idx;
            let nm := last_part rel_path rel_path in
            mode ← field 4 (node V_STAT s3) (ii + 52);
            size ← field 8 (node V_STAT s3) (ii + 16);
            Ret (VFS_OK, mk_stat (take (Z.to_nat VFS_NAME_MAX) (match nm with [] => [47] | _ => nm end))
                           (if Z.land mode 0xF000 =? 0x4000 then VFS_DIRECTORY else VFS_FILE) size (Z.land mode 0x1FF), s3)
        end.

(** Entries of directory [dir]; at most [zlen entries - count] more. *)
Fixpoint list_dir (k : nat) (i count dir : Z) (b : list Z) (entries : list dir_entry) : outcome (Z * list dir_entry) :=
  match k with
  | O => Ret (count, entries)
  | S k' =>
      if zlen entries <=? count then Ret (count, entries)
      else
        ik ← item_key b i;
        if (objectid ik =? dir) && (k_type ik =? BTRFS_DIR_INDEX_KEY) then
          di ← item_data b i;
          len ← field 2 b (di + 27);
          let len' := if VFS_NAME_MAX - 1 <? len then VFS_NAME_MAX - 1 else len in
          nm ← bytes b (di + sizeof_btrfs_dir_item) len';
          t ← field 1 b (di + 29);
          es ← wr entries count (mk_dirent nm (if t =? 2 then VFS_DIRECTORY else VFS_FILE) 0);
          list_dir k' (i + 1) (count + 1) dir b es
        else if dir <? objectid ik then Ret (count, entries)
        else list_dir k' (i + 1) count dir b entries
  end.

Definition btrfs_be_readdir (rel_path : list Z) (entries : list dir_entry) (s : btrfs) : outcome (Z * list dir_entry * btrfs) :=
  if btrfs_available s =? 0 then Ret (VFS_EIO, entries, s)
  else
    '(oid, s1) ← btrfs_resolve_path rel_path s;
    if oid =? 0 then Ret (VFS_ENOENT, entries, s1)
    else
      '(fs_root, s2) ← btrfs_get_fs_root s1;
      if fs_root =? 0 then Ret (VFS_EIO, entries, s2)
      else
        '(ok, s3) ← find_leaf fuel (mk_key oid BTRFS_DIR_INDEX_KEY 0) V_DIR fs_root s2;
        if negb ok then Ret (VFS_EIO, entries, s3)
        else
          n ← nritems (node V_DIR s3);
          '(count, es) ← list_dir (Z.to_nat n) 0 0 oid (node V_DIR s3) entries;
          Ret (count, es, s3).

(** From item [i] down: the extent of the file that starts at [off] or before. *)
Fixpoint find_extent (k : nat) (i oid off : Z) (b : list Z) : outcome (option Z) :=
  match k with
  | O => Ret None
  | S k' =>
      ik ← item_key b i;
      if (objectid ik =? oid) && (k_type ik =? BTRFS_EXTENT_DATA_KEY) then
        if k_offset ik <=? off then Ret (Some i) else find_extent k' (i - 1) oid off b
      else if objectid ik <? oid then Ret None
      else find_extent k' (i - 1) oid off b
  end.

(** The end of the loop, an error, or bytes to add. *)
Inductive piece := Stop | Failed | More (x : list Z) | Last (x : list Z).

(** What one extent contributes; [left] bytes are still wanted.  [temp] is the
    uninitialised buffer of 16384 bytes. *)
Definition read_extent (idx cur left : Z) (temp : list Z) (s : btrfs) : outcome (piece * btrfs) :=
  let b := node V_READ s in
  ik ← item_key b idx;
  ed ← item_data b idx;
  let extent_offset := u64 (cur - k_offset ik) in
  type ← field 1 b (ed + 20);
  if type =? 0 then
    sz ← item_size b idx;
    let inline_size := u32 (sz - 21) in
    if inline_size <=? extent_offset then Ret (Stop, s)
    else
      let to_copy := Z.min (inline_size - extent_offset) left in
      x ← bytes b (ed + 21 + extent_offset) to_copy;
      Ret (Last x, s)
  else if type =? 1 then
    bytenr ← field 8 b (ed + 21);
    num ← field 8 b (ed + 21 + 24);
    let avail := Z.min (u64 (num - extent_offset)) left in
    if bytenr =? 0 then Ret (More (replicate (Z.to_nat avail) 0), s)
    else
      foff ← field 8 b (ed + 21 + 16);
      phys ← btrfs_logical_to_physical (u64 (bytenr + foff + extent_offset)) s;
      let lba := u32 (BTRFS_PARTITION_START_LBA + u32 (phys / 512)) in
      let sectors := Z.min (u64 (avail + 511) / 512) 32 in
      '(ok, t, d) ← read_sectors (Z.to_nat sectors) 0 lba temp (dev s);
      if negb ok then Ret (Failed, with_dev d s)
      else x ← bytes t 0 avail; Ret (More x, with_dev d s)
  else Ret (Stop, s).

Fixpoint read_loop (k : nat) (oid fs_root offset size : Z) (temp out : list Z) (s : btrfs) : outcome (Z * list Z * btrfs) :=
  if size <=? zlen out then Ret (s32 (zlen out), out, s)
  else match k with
  | O => OutOfFuel
  | S k' =>
      let cur := u64 (offset + zlen out) in
      '(ok, s1) ← find_leaf fuel (mk_key oid BTRFS_EXTENT_DATA_KEY cur) V_READ fs_root s;
      if negb ok then Ret (VFS_EIO, out, s1)
      else
        n ← nritems (node V_READ s1);
        r ← find_extent (Z.to_nat (s32 n)) (s32 n - 1) oid cur (node V_READ s1);
        match r with
        | None => Ret (s32 (zlen out), out, s1)
        | Some idx =>
            '(p, s2) ← read_extent idx cur (size - zlen out) temp s1;
            match p with
            | Stop => Ret (s32 (zlen out), out, s2)
            | Failed => Ret (VFS_EIO, out, s2)
            | Last x => Ret (s32 (zlen (out ++ x)), out ++ x, s2)
            | More x => read_loop k' oid fs_root offset size temp (out ++ x) s2
            end
        end
  end.

Definition btrfs_be_read (temp : list Z) (rel_path : list Z) (offset size : Z) (s : btrfs) : outcome (Z * list Z * btrfs) :=
  if btrfs_available s =? 0 then Ret (VFS_EIO, [], s)
  else
    '(oid, s1) ← btrfs_resolve_path rel_path s;
    if oid =? 0 then Ret (VFS_ENOENT, [], s1)
    else
      '(fs_root, s2) ← btrfs_get_fs_root s1;
      if fs_root =? 0 then Ret (VFS_EIO, [], s2) else read_loop fuel oid fs_root offset size temp [] s2.

(** Changes are refused; a message goes to the log. *)
Definition btrfs_be_write (rel_path : list Z) (offset : Z) (data : list Z) (s : btrfs) : outcome (Z * btrfs) := Ret (VFS_EROFS, s).
Definition btrfs_be_mkdir (rel_path : list Z) (s : btrfs) : outcome (Z * btrfs) := Ret (VFS_EROFS, s).
Definition btrfs_be_create (rel_path : list Z) (s : btrfs) : outcome (Z * btrfs) := Ret (VFS_EROFS, s).
Definition btrfs_be_unlink (rel_path : list Z) (s : btrfs) : outcome (Z * btrfs) := Ret (VFS_EROFS, s).

(** "btrfs" *)
Definition g_btrfs_backend (temp : list Z) : backend btrfs :=
  mk_backend [98; 116; 114; 102; 115] (Some btrfs_be_stat) (Some btrfs_be_readdir) (Some (btrfs_be_read temp))
    (Some btrfs_be_write) (Some btrfs_be_mkdir) (Some btrfs_be_create) (Some btrfs_be_unlink).
End btrfs.
End Btrfs.
