(* ===== verification/BtrfsSpec.v ===== *)
(** * Btrfs: search, and where nodes are put

    With the room their declaration gives the node variables, every operation on a
    mounted file system writes past them.  If they had room for a node, a search
    would find exactly the items of a well-formed tree.  Reading at the end of a
    file does not end. *)

From stdpp Require Import base tactics list numbers option.
From S2P Require Import Prelude CMem BlockDev Vfs Btrfs.

Module BtrfsSpec.
Import Vfs Btrfs.
Local Open Scope Z_scope.

(** ** The order of keys *)

Definition key_lt (a b : key) : Prop := btrfs_compare_keys a b < 0.
Definition key_le (a b : key) : Prop := btrfs_compare_keys a b <= 0.

Ltac compare_all :=
  unfold key_lt, key_le, btrfs_compare_keys in *;
  repeat match goal with
  | |- context [?x <? ?y] => destruct (Z.ltb_spec x y)
  | _ : context [?x <? ?y] |- _ => destruct (Z.ltb_spec x y)
  end.

Lemma compare_eq a b : btrfs_compare_keys a b = 0 <-> a = b.
Proof. split; [|intros ->; compare_all; lia]. destruct a, b. compare_all; cbn in *; intros E; try lia. f_equal; lia. Qed.

Lemma key_lt_irrefl a : ~ key_lt a a.
Proof. intros Hlt. compare_all; lia. Qed.

Lemma key_le_cases a b : key_le a b <-> key_lt a b \/ a = b.
Proof. rewrite <- compare_eq. unfold key_le, key_lt. lia. Qed.

Lemma key_le_lt_trans a b c : key_le a b -> key_lt b c -> key_lt a c.
Proof. compare_all; lia. Qed.

Lemma key_lt_le_trans a b c : key_lt a b -> key_le b c -> key_lt a c.
Proof. compare_all; lia. Qed.

Lemma key_not_lt a b : ~ key_lt a b <-> key_le b a.
Proof. compare_all; lia. Qed.

(** ** Reading nodes *)

Lemma put_bytes_mid x : forall pre mid post, length mid = length x -> put_bytes (pre ++ mid ++ post) (zlen pre) x = pre ++ x ++ post.
Proof.
  induction x as [|c x IH]; intros pre mid post Hl; destruct mid as [|d mid]; try done. cbn [put_bytes app].
  assert ((pre ++ d :: mid ++ post).[zlen pre <- c] = (pre ++ [c]) ++ mid ++ post) as ->.
  { rewrite <- app_assoc. cbn [app]. unfold zset, zlen. rewrite (proj2 (Z.leb_le _ _)) by lia. rewrite Nat2Z.id.
    rewrite insert_app_r_alt by lia. by rewrite Nat.sub_diag. }
  replace (zlen pre + 1) with (zlen (pre ++ [c])) by (rewrite zlen_app; done). rewrite IH by (cbn in Hl; lia). by rewrite <- app_assoc.
Qed.

Lemma bytes_mid (pre mid post : list Z) n : zlen mid = n -> bytes (pre ++ mid ++ post) (zlen pre) n = Ret mid.
Proof.
  intros <-. unfold bytes. rewrite !zlen_app. pose proof (zlen_nonneg pre). pose proof (zlen_nonneg mid). pose proof (zlen_nonneg post).
  rewrite !(proj2 (Z.leb_le _ _)) by lia. cbn [andb]. unfold slice, zlen. rewrite !Nat2Z.id, drop_app_length, take_app_length. done.
Qed.

Section device.
Context {D : Type} `{BL : BlockDeviceLaws D}.
Implicit Types s : btrfs (D := D).

(** The contents of [n] sectors. *)
Definition sectors (d : D) (lba : Z) (n : nat) : list Z := concat (disk d <$> seqZ lba (Z.of_nat n)).

Lemma sectors_S d lba n : sectors d lba (S n) = disk d lba ++ sectors d (lba + 1) n.
Proof. unfold sectors. rewrite seqZ_cons by lia. cbn. do 3 f_equal. unfold Z.succ. f_equal. lia. Qed.

Lemma sectors_same d d' : (forall x, disk d' x = disk d x) -> forall n lba, sectors d' lba n = sectors d lba n.
Proof. intros E n lba. unfold sectors. f_equal. apply list_fmap_ext. intros i x _. apply E. Qed.

Lemma zlen_sectors d : bd_ready d -> forall n lba, 0 <= lba -> lba + Z.of_nat n <= bd_limit -> zlen (sectors d lba n) = 512 * Z.of_nat n.
Proof.
  intros Hd n. induction n as [|n IH]; intros lba Hl Hn; [done|]. rewrite sectors_S, zlen_app, IH by lia.
  destruct (disk_sector d lba Hd ltac:(lia)) as [-> _]. unfold SECTOR. lia.
Qed.

Lemma read_sectors_ok n : forall i lba pre mid post d, bd_ready d -> 0 <= i -> 0 <= lba -> lba + i + Z.of_nat n <= bd_limit ->
  zlen pre = i * 512 -> zlen mid = 512 * Z.of_nat n ->
  exists d', read_sectors n i lba (pre ++ mid ++ post) d = Ret (true, pre ++ sectors d (lba + i) n ++ post, d') /\ bd_ready d' /\
    forall x, disk d' x = disk d x.
Proof.
  induction n as [|n IH]; intros i lba pre mid post d Hd Hi Hl Hb Hp Hm.
  - destruct mid; [|unfold zlen in Hm; cbn in Hm; lia]. by exists d.
  - cbn [read_sectors]. rewrite <- (take_drop 512 mid), <- !app_assoc. set (m1 := take 512 mid). set (m2 := drop 512 mid).
    assert (zlen m1 = 512) as Hm1 by (unfold m1, zlen in *; rewrite length_take; lia).
    assert (zlen m2 = 512 * Z.of_nat n) as Hm2 by (unfold m2, zlen in *; rewrite length_drop; lia).
    unfold btrfs_read_sector. rewrite <- Hp, (bytes_mid pre m1 (m2 ++ post)) by done. cbn [mbind outcome_bind].
    pose proof bd_limit_u32. rewrite u32_small by lia.
    destruct (bd_read d (lba + i) m1 Hd ltac:(lia) Hm1) as (d1 & -> & Hd1 & E1). cbn [mbind outcome_bind].
    destruct (disk_sector d (lba + i) Hd ltac:(lia)) as [Hs _]. rewrite put_bytes_mid by (unfold zlen, SECTOR in *; lia).
    destruct (IH (i + 1) lba (pre ++ disk d (lba + i)) m2 post d1) as (d2 & E2 & Hd2 & E3); [done|lia|lia|lia|rewrite zlen_app, Hs; unfold SECTOR; lia|done|].
    rewrite <- app_assoc in E2. rewrite E2. exists d2. split; [|split; [done|intros x; by rewrite E3]].
    rewrite sectors_S, (sectors_same d d1 E1), <- !app_assoc. by replace (lba + (i + 1)) with (lba + i + 1) by lia.
Qed.

(** Sectors of a node. *)
Definition node_sectors s : Z := (let ns := get_le 4 (g_super s) 148 in if ns =? 0 then BTRFS_NODE_SIZE else ns) / 512.

(** A mounted file system whose node variables hold a node each. *)
Record mounted s : Prop := {
  mo_ready : bd_ready (dev s);
  mo_super : zlen (g_super s) = sizeof_btrfs_super_block;
  mo_size : 0 < node_sectors s;
  mo_vars : zlen (nodes s) = 6;
  mo_nodes : forall v, 0 <= v < 6 -> zlen (node v s) = 512 * node_sectors s
}.

(** The bytes of the node at a logical address, if the disk has it. *)
Definition image s (a : Z) : option (list Z) :=
  match btrfs_logical_to_physical a s with
  | Ret p =>
      let lba := u32 (BTRFS_PARTITION_START_LBA + u32 (p / 512)) in
      if lba + node_sectors s <=? bd_limit then Some (sectors (dev s) lba (Z.to_nat (node_sectors s))) else None
  | _ => None
  end.

(** Reading changes only the variable [v] and the state of the device. *)
Record after_read (v : Z) s s' : Prop := {
  ar_mounted : mounted s';
  ar_super : g_super s' = g_super s /\ btrfs_available s' = btrfs_available s;
  ar_image : forall a, image s' a = image s a;
  ar_others : forall w, w <> v -> node w s' = node w s
}.

Lemma field_in n b i : 0 <= i -> i + Z.of_nat n <= zlen b -> field n b i = Ret (get_le n b i).
Proof. intros H1 H2. unfold field. by rewrite !(proj2 (Z.leb_le _ _)) by lia. Qed.

Lemma read_node_ok a v s b : mounted s -> 0 <= v < 6 -> image s a = Some b ->
  exists s', btrfs_read_node a v s = Ret (true, s') /\ node v s' = b /\ after_read v s s'.
Proof.
  intros [M1 M2 M3 M4 M5] Hv Hi. unfold image in Hi. unfold btrfs_read_node.
  destruct (btrfs_logical_to_physical a s) as [p| |] eqn:Ep; [|done|done]. cbn [mbind outcome_bind].
  set (lba := u32 (BTRFS_PARTITION_START_LBA + u32 (p / 512))) in *. destruct (Z.leb_spec (lba + node_sectors s) bd_limit); [|done]. injection Hi as <-.
  rewrite field_in by (unfold sizeof_btrfs_super_block in M2; cbn; lia). cbn [mbind outcome_bind]. fold (node_sectors s).
  pose proof (u32_bound (BTRFS_PARTITION_START_LBA + u32 (p / 512))) as Hb. fold lba in Hb.
  destruct (read_sectors_ok (Z.to_nat (node_sectors s)) 0 lba [] (node v s) [] (dev s)) as (d & E & Hd & Es); [done|lia|lia|lia|done|rewrite M5 by lia; lia|].
  rewrite !app_nil_r in E. cbn [app] in E. rewrite Z.add_0_r in E. rewrite E. cbn [mbind outcome_bind].
  assert (node v (with_dev d (set_node v (sectors (dev s) lba (Z.to_nat (node_sectors s))) s)) = sectors (dev s) lba (Z.to_nat (node_sectors s))) as En
    by (unfold node; cbn; by rewrite zget_zset_eq by lia).
  eexists. split; [done|]. split; [exact En|]. split.
  - split; [done|done|done|by cbn; rewrite zlen_zset|]. intros w Hw. destruct (Z.eq_dec w v) as [->|Hne].
    + rewrite En, zlen_sectors by (done || lia). change (node_sectors (with_dev _ _)) with (node_sectors s). lia.
    + unfold node. cbn. rewrite zget_zset_ne by lia. by apply M5.
  - done.
  - intros c. unfold image. change (btrfs_logical_to_physical c _) with (btrfs_logical_to_physical c s). change (node_sectors (with_dev _ _)) with (node_sectors s).
    destruct (btrfs_logical_to_physical c s); [|done|done]. case_match; [|done]. f_equal. by apply sectors_same.
  - intros w Hw. unfold node. cbn. by rewrite zget_zset_ne by lia.
Qed.

Lemma after_read_trans v s1 s2 s3 : after_read v s1 s2 -> after_read v s2 s3 -> after_read v s1 s3.
Proof.
  intros [A1 [A2 A3] A4 A5] [B1 [B2 B3] B4 B5]. split; [done|by rewrite B2, B3|intros a; by rewrite B4|intros w Hw; by rewrite B5, A5].
Qed.

(** ** Trees *)

(** The leaf at [a] has the bytes [b] and the keys [ks]. *)
Record leaf (img : Z -> option (list Z)) (a : Z) (b : list Z) (ks : list key) : Prop := {
  lf_image : img a = Some b;
  lf_level : level b = Ret 0;
  lf_count : nritems b = Ret (zlen ks) /\ zlen ks < 2 ^ 31;
  lf_keys : forall i k, ks.[i] = Some k -> item_key b i = Ret k;
  lf_sorted : forall i j x y, i < j -> ks.[i] = Some x -> ks.[j] = Some y -> key_lt x y
}.

(** An entry is a key, the address of its leaf and its place there. *)
Abbreviation entry := (key * (Z * Z))%type.

(** [tree img h a es]: the tree of height [h] at [a] has the entries [es].  The key
    of a child after the first separates the entries before it from the others. *)
Inductive tree (img : Z -> option (list Z)) : nat -> Z -> list entry -> Prop :=
| tree_leaf a b ks : leaf img a b ks -> tree img 0 a (imap (fun i k => (k, (a, Z.of_nat i))) ks)
| tree_node h a b l kids parts :
    img a = Some b -> level b = Ret l -> 0 < l -> nritems b = Ret (zlen kids) -> 0 < zlen kids < 2 ^ 31 -> zlen parts = zlen kids ->
    (forall i k c, kids.[i] = Some (k, c) -> ptr_key b i = Ret k /\ blockptr b i = Ret c) ->
    (forall i k c p, kids.[i] = Some (k, c) -> parts.[i] = Some p -> tree img h c p) ->
    (forall i j k c p, 1 <= i -> kids.[i] = Some (k, c) -> parts.[j] = Some p ->
      Forall (fun e : entry => if j <? i then key_lt e.1 k else key_le k e.1) p) ->
    tree img (S h) a (concat parts).

Lemma tree_ext img img' h a es : (forall c, img' c = img c) -> tree img h a es -> tree img' h a es.
Proof.
  intros E. induction 1 as [a b ks [L1 L2 L3 L4 L5]|h a b l kids parts Hi Hl Hl0 Hr Hk Hp Hptr Hsub IH Hsep].
  - apply (tree_leaf _ a b ks). split; [by rewrite E|done..].
  - apply (tree_node _ h a b l kids parts); [by rewrite E|done..].
Qed.

(** The child to follow: no other part has the key. *)
Lemma find_slot_spec kids b sk n : zlen kids = n ->
  (forall i k c, kids.[i] = Some (k, c) -> ptr_key b i = Ret k /\ blockptr b i = Ret c) ->
  forall m slot : nat, Z.of_nat slot + Z.of_nat m = n -> (0 < m)%nat ->
  (slot = 0%nat \/ exists k c, kids.[Z.of_nat slot] = Some (k, c) /\ key_le k sk) ->
  exists j, find_slot m (Z.of_nat slot) n sk b = Ret j /\ 0 <= j < n /\
    (j = 0 \/ exists k c, kids.[j] = Some (k, c) /\ key_le k sk) /\
    (j + 1 < n -> exists k c, kids.[j + 1] = Some (k, c) /\ key_lt sk k).
Proof.
  intros Hn Hk. induction m as [|m IH]; intros slot Hs Hm Hp; [lia|]. cbn [find_slot].
  destruct (Z.leb_spec (n - 1) (Z.of_nat slot)) as [Hle|Hgt].
  { exists (Z.of_nat slot). split; [done|]. split; [lia|]. split; [|lia]. destruct Hp as [->|Hp]; [by left|by right]. }
  destruct (zget_in_range kids (Z.of_nat slot + 1)) as [[k c] Ek]; [lia|]. destruct (Hk _ _ _ Ek) as [-> _]. cbn [mbind outcome_bind].
  destruct (Z.ltb_spec (btrfs_compare_keys sk k) 0) as [Hlt|Hge].
  - exists (Z.of_nat slot). split; [done|]. split; [lia|]. split; [destruct Hp as [->|Hp]; [by left|by right]|]. intros _. by exists k, c.
  - replace (Z.of_nat slot + 1) with (Z.of_nat (S slot)) in * by lia. apply IH; [lia|lia|]. right. exists k, c. split; [done|].
    apply key_not_lt. unfold key_lt. lia.
Qed.

(** The leaf that a lookup of [sk] in entries [es] ends in. *)
Record leaf_for (img : Z -> option (list Z)) (sk : key) (es : list entry) (a : Z) (b : list Z) (ks : list key) : Prop := {
  lr_leaf : leaf img a b ks;
  lr_in : forall i k, ks.[i] = Some k -> (k, (a, i)) ∈ es;
  lr_all : forall e, e ∈ es -> e.1 = sk -> sk ∈ ks
}.

Lemma find_leaf_ok sk v h : forall s a es n, mounted s -> 0 <= v < 6 -> tree (image s) h a es -> (h < n)%nat ->
  exists s' c ks, find_leaf n sk v a s = Ret (true, s') /\ after_read v s s' /\ leaf_for (image s) sk es c (node v s') ks.
Proof.
  induction h as [|h IH]; intros s a es n M Hv T Hn; destruct n as [|n]; try lia; cbn [find_leaf]; inversion T as [a' b ks Lf|h' a' b l kids parts Hi Hl Hl0 Hr Hk Hp Hptr Hsub Hsep]; subst.
  - destruct (read_node_ok a v s b M Hv (lf_image _ _ _ _ Lf)) as (s1 & -> & En & A). cbn [mbind outcome_bind negb]. rewrite En.
    destruct (lf_count _ _ _ _ Lf) as [-> _]. cbn [mbind outcome_bind]. rewrite (lf_level _ _ _ _ Lf). cbn [mbind outcome_bind].
    exists s1, a, ks. split; [done|]. split; [done|]. rewrite En. split; [done| |].
    + intros i k Hi. apply elem_of_lookup_imap. apply zget_lookup in Hi as [Hi E]. exists (Z.to_nat i), k. split; [|done]. by rewrite Z2Nat.id.
    + intros e He <-. apply elem_of_lookup_imap in He as (i & k & -> & E). by eapply list_elem_of_lookup_2.
  - destruct (read_node_ok a v s b M Hv Hi) as (s1 & -> & En & A). cbn [mbind outcome_bind negb]. rewrite En, Hr. cbn [mbind outcome_bind].
    rewrite Hl. cbn [mbind outcome_bind]. rewrite (proj2 (Z.ltb_lt _ _) Hl0), s32_small by lia.
    destruct (find_slot_spec kids b sk (zlen kids) eq_refl Hptr (Z.to_nat (zlen kids)) 0) as (j & Es & Hj & Hbelow & Habove); [lia|lia|by left|].
    change (Z.of_nat 0) with 0 in Es. rewrite Es. cbn [mbind outcome_bind]. destruct (zget_in_range kids j Hj) as [[k c] Ek]. destruct (Hptr _ _ _ Ek) as [_ ->]. cbn [mbind outcome_bind].
    destruct (zget_in_range parts j) as [p Ep]; [lia|]. pose proof (Hsub _ _ _ _ Ek Ep) as Tc.
    destruct (IH s1 c p n) as (s' & c' & ks & -> & A' & [L1 L2 L3]); [apply A|done| |lia|].
    { by apply (tree_ext (image s)); [apply (ar_image _ _ _ A)|]. }
    exists s', c', ks. split; [done|]. split; [by eapply after_read_trans|]. split.
    + destruct L1 as [Lf1 Lf2 Lf3 Lf4 Lf5]. split; try done. by rewrite <- (ar_image _ _ _ A).
    + intros i x Hx. apply list_elem_of_In, in_concat. exists p. split; [|by apply list_elem_of_In, L2]. apply list_elem_of_In.
      apply zget_lookup in Ep as [_ Ep]. by eapply list_elem_of_lookup_2.
    + intros e He Ee. apply (L3 e); [|done]. apply list_elem_of_In, in_concat in He as (q & Hq & He). apply list_elem_of_In, list_elem_of_lookup in Hq as [m Eq].
      assert (parts.[Z.of_nat m] = Some q) as Eqz by (apply zget_lookup; split; [lia|by rewrite Nat2Z.id]). pose proof (zget_Some_bound _ _ _ Eqz) as Hm.
      destruct (Z.lt_trichotomy (Z.of_nat m) j) as [Hlt|[E|Hgt]].
      * destruct Hbelow as [->|(k' & c0 & Ek' & Hle)]; [lia|]. pose proof (Hsep j (Z.of_nat m) _ _ _ ltac:(lia) Ek' Eqz) as Hf.
        rewrite Forall_forall in Hf. specialize (Hf e He). rewrite (proj2 (Z.ltb_lt _ _) Hlt), Ee in Hf.
        by apply (key_lt_le_trans _ _ _ Hf), key_lt_irrefl in Hle.
      * rewrite E in Eqz. rewrite Ep in Eqz. injection Eqz as ->. by apply list_elem_of_In.
      * destruct Habove as (k' & c0 & Ek' & Hlt); [lia|]. pose proof (Hsep (j + 1) (Z.of_nat m) _ _ _ ltac:(lia) Ek' Eqz) as Hf.
        rewrite Forall_forall in Hf. specialize (Hf e He). rewrite (proj2 (Z.ltb_ge _ _)), Ee in Hf by lia.
        by apply (key_lt_le_trans _ _ _ Hlt), key_lt_irrefl in Hf.
Qed.

(** In a sorted leaf the scan finds the key if it is there. *)
Lemma find_item_spec img a b ks sk : leaf img a b ks -> forall m i, 0 <= i -> i + Z.of_nat m = zlen ks ->
  (forall j k, j < i -> ks.[j] = Some k -> k <> sk) ->
  exists r, find_item m i (zlen ks) sk b = Ret r /\ match r with Some j => ks.[j] = Some sk | None => sk ∉ ks end.
Proof.
  intros [_ _ _ L4 L5]. induction m as [|m IH]; intros i Hi Hm Hb; cbn [find_item].
  - exists None. split; [done|]. intros Hin. apply list_elem_of_lookup in Hin as [j Ej]. assert (ks.[Z.of_nat j] = Some sk) as Ez by (apply zget_lookup; split; [lia|by rewrite Nat2Z.id]).
    pose proof (zget_Some_bound _ _ _ Ez). by apply (Hb (Z.of_nat j) sk ltac:(lia) Ez).
  - destruct (zget_in_range ks i) as [k Ek]; [lia|]. rewrite (L4 i k Ek). cbn [mbind outcome_bind].
    destruct (Z.eqb_spec (btrfs_compare_keys sk k) 0) as [E|Hne]; [apply compare_eq in E as ->; by exists (Some i)|].
    destruct (Z.ltb_spec (btrfs_compare_keys sk k) 0) as [Hlt|Hge].
    + exists None. split; [done|]. intros Hin. apply list_elem_of_lookup in Hin as [j Ej]. assert (ks.[Z.of_nat j] = Some sk) as Ez by (apply zget_lookup; split; [lia|by rewrite Nat2Z.id]).
      destruct (Z.lt_trichotomy (Z.of_nat j) i) as [Hji|[E|Hji]]; [by apply (Hb _ _ Hji Ez)|rewrite E, Ek in Ez; injection Ez as ->; by apply Hne, compare_eq|].
      pose proof (L5 _ _ _ _ Hji Ek Ez) as Hks. apply (key_lt_irrefl sk), (key_lt_le_trans _ k); [exact Hlt|]. apply key_le_cases. by left.
    + apply IH; [lia|lia|]. intros j x Hj Hx. destruct (Z.eq_dec j i) as [->|Hji]; [|by apply (Hb j x); [lia|]]. rewrite Ek in Hx. injection Hx as <-. intros ->. by apply Hne, compare_eq.
Qed.

(** Searching a tree is lookup in the sequence of its entries.  On a mounted
    file system whose node variables hold a node, [btrfs_tree_search] in a
    well-formed tree (leaves sorted, children separated by their keys) returns, after
    no more reads than the tree is high; it finds a key exactly if the tree has it,
    and then returns its place in the leaf it has read.  Nothing else changes.  (With
    the node variables as they are declared there is no such file system.) *)
Lemma btrfs_search_spec fuel sk v h a es s :
  mounted s -> 0 <= v < 6 -> tree (image s) h a es -> (h < fuel)%nat ->
  completes (btrfs_tree_search fuel a sk v s) (fun '(r, s') =>
    after_read v s s' /\
    match r with
    | Some idx => exists c, (sk, (c, idx)) ∈ es /\ image s c = Some (node v s')
    | None => forall e, e ∈ es -> e.1 <> sk
    end).
Proof.
  intros M Hv T Hf. destruct (find_leaf_ok sk v h s a es fuel M Hv T Hf) as (s' & c & ks & E & A & [L1 L2 L3]).
  unfold btrfs_tree_search. rewrite E. cbn [mbind outcome_bind negb]. destruct (lf_count _ _ _ _ L1) as [-> Hc]. cbn [mbind outcome_bind].
  pose proof (zlen_nonneg ks). rewrite s32_small by lia.
  destruct (find_item_spec _ _ _ _ sk L1 (Z.to_nat (zlen ks)) 0) as (r & -> & Hr); [lia|lia|intros j k Hj Ek; pose proof (zget_Some_bound _ _ _ Ek); lia|].
  cbn [mbind outcome_bind]. apply completes_Ret. split; [done|]. destruct r as [j|].
  - exists c. split; [by apply L2|apply L1].
  - intros e He Ee. by apply Hr, (L3 e).
Qed.

(** ** The declared node variables *)

Lemma field_cases n b i : field n b i = Ret (get_le n b i) \/ field n b i = Fault.
Proof. unfold field. case_match; [by left|by right]. Qed.

(** Translation of an address ends. *)
Lemma find_chunk_ends sb logical end_ : bytes_ok sb -> forall n ptr, end_ - ptr <= Z.of_nat n -> find_chunk n ptr end_ logical sb <> OutOfFuel.
Proof.
  intros Hb. induction n as [|n IH]; intros ptr Hn; cbn [find_chunk]; (destruct (Z.leb_spec end_ ptr); [done|]); [lia|].
  destruct (field_cases 1 sb (SYS_CHUNK_ARRAY + ptr + 8)) as [-> | ->]; [|done]. cbn [mbind outcome_bind]. case_match; [|apply IH; lia].
  destruct (field_cases 8 sb (SYS_CHUNK_ARRAY + ptr + 9)) as [-> | ->]; [|done]. cbn [mbind outcome_bind].
  destruct (field_cases 8 sb (SYS_CHUNK_ARRAY + ptr + sizeof_btrfs_key)) as [-> | ->]; [|done]. cbn [mbind outcome_bind]. case_match.
  - destruct (field_cases 8 sb (SYS_CHUNK_ARRAY + ptr + sizeof_btrfs_key + sizeof_btrfs_chunk + 8)) as [-> | ->]; done.
  - destruct (field_cases 2 sb (SYS_CHUNK_ARRAY + ptr + sizeof_btrfs_key + 40)) as [-> | ->]; [|done]. cbn [mbind outcome_bind]. apply IH.
    pose proof (get_le_bound 2 sb (SYS_CHUNK_ARRAY + ptr + sizeof_btrfs_key + 40) Hb). unfold sizeof_btrfs_key, sizeof_btrfs_chunk, sizeof_btrfs_stripe in *. lia.
Qed.

(** A superblock as [btrfs_init] copies it, for nodes of a sector or more. *)
Definition super_ok s : Prop := zlen (g_super s) = sizeof_btrfs_super_block /\ bytes_ok (g_super s) /\ 0 < node_sectors s.

Lemma small_node_overrun a v s : super_ok s -> zlen (node v s) < 512 -> btrfs_read_node a v s = Fault.
Proof.
  intros (Hz & Hb & Hn) Hs. unfold btrfs_read_node, btrfs_logical_to_physical. unfold sizeof_btrfs_super_block in Hz.
  rewrite (field_in 4 (g_super s) 160) by (cbn; lia). cbn [mbind outcome_bind]. pose proof (get_le_bound 4 (g_super s) 160 Hb).
  pose proof (find_chunk_ends (g_super s) a (get_le 4 (g_super s) 160) Hb (Z.to_nat (get_le 4 (g_super s) 160)) 0 ltac:(lia)) as Hc.
  destruct (find_chunk _ _ _ _ _) as [p| |]; [|reflexivity|by destruct Hc]. cbn [mbind outcome_bind]. rewrite (field_in 4 (g_super s) 148) by (cbn; lia). cbn [mbind outcome_bind]. fold (node_sectors s).
  destruct (Z.to_nat (node_sectors s)) as [|n] eqn:E; [lia|]. cbn [read_sectors]. unfold btrfs_read_sector, bytes.
  change (0 * 512) with 0. rewrite (proj2 (Z.leb_gt (0 + 512) (zlen (node v s)))), andb_false_r by lia. done.
Qed.

Lemma small_root_overrun fuel s : super_ok s -> zlen (node V_ROOT s) < 512 -> fuel <> 0%nat -> btrfs_get_fs_root fuel s = Fault.
Proof.
  intros Hs Hn Hf. unfold btrfs_get_fs_root. destruct Hs as (Hz & Hb & Hk). pose proof Hz as Hz'. unfold sizeof_btrfs_super_block in Hz'. rewrite field_in by (cbn; lia). cbn [mbind outcome_bind].
  unfold btrfs_tree_search. destruct fuel as [|n]; [done|]. cbn [find_leaf]. by rewrite small_node_overrun.
Qed.


(** ** The end of a file *)

(** In leaf [b], extent [idx] is the last one of [oid] that starts at [cur] or before,
    it is a regular extent, and it ends at [cur]. *)
Record extent_ends (b : list Z) (oid cur idx : Z) s : Prop := {
  ee_level : level b = Ret 0;
  ee_found : exists n, nritems b = Ret n /\ find_extent (Z.to_nat (s32 n)) (s32 n - 1) oid cur b = Ret (Some idx);
  ee_data : exists k ed num bytenr foff p, item_key b idx = Ret k /\ item_data b idx = Ret ed /\ field 1 b (ed + 20) = Ret 1 /\
    field 8 b (ed + 21) = Ret bytenr /\ field 8 b (ed + 21 + 24) = Ret num /\ u64 (num - u64 (cur - k_offset k)) = 0 /\
    field 8 b (ed + 21 + 16) = Ret foff /\ btrfs_logical_to_physical (u64 (bytenr + foff + u64 (cur - k_offset k))) s = Ret p
}.

Lemma read_extent_nothing b oid cur idx left temp s : extent_ends b oid cur idx s -> node V_READ s = b -> 0 < left ->
  read_extent idx cur left temp s = Ret (More [], s).
Proof.
  intros [_ _ (k & ed & num & bytenr & foff & p & E1 & E2 & E3 & E4 & E5 & E6 & E7 & E8)] En Hl. unfold read_extent. rewrite En, E1. cbn [mbind outcome_bind].
  rewrite E2. cbn [mbind outcome_bind]. rewrite E3. cbn [mbind outcome_bind Z.eqb Pos.eqb]. rewrite E4. cbn [mbind outcome_bind]. rewrite E5. cbn [mbind outcome_bind].
  rewrite E6, Z.min_l by lia. case_match; [done|]. rewrite E7. cbn [mbind outcome_bind]. rewrite E8. cbn [mbind outcome_bind].
  change (Z.to_nat (Z.min (u64 (0 + 511) / 512) 32)) with 0%nat. cbn [read_sectors mbind outcome_bind negb]. unfold bytes.
  rewrite !(proj2 (Z.leb_le _ _)) by (pose proof (zlen_nonneg temp); lia). by destruct s.
Qed.

(** Reading on from the end of a regular extent never ends: the extent is found again
    and has nothing left.  (Stated for a tree of one leaf.) *)
Lemma read_at_end_hangs fuel oid fs_root offset size temp out b idx : zlen out < size -> forall k s, mounted s -> image s fs_root = Some b ->
  extent_ends b oid (u64 (offset + zlen out)) idx s -> read_loop (S fuel) k oid fs_root offset size temp out s = OutOfFuel.
Proof.
  intros Ho k. induction k as [|k IH]; intros s M Hi E; cbn [read_loop]; rewrite (proj2 (Z.leb_gt _ _) Ho); [done|]. cbn [find_leaf].
  destruct (read_node_ok fs_root V_READ s b M) as (s1 & -> & En & A); [unfold V_READ; lia|done|]. cbn [mbind outcome_bind negb]. rewrite En.
  destruct (ee_found _ _ _ _ _ E) as (n & Hn & Hf). rewrite Hn. cbn [mbind outcome_bind]. rewrite (ee_level _ _ _ _ _ E). cbn [mbind outcome_bind negb Z.ltb Z.compare].
  rewrite En, Hn. cbn [mbind outcome_bind]. rewrite Hf. cbn [mbind outcome_bind].
  assert (extent_ends b oid (u64 (offset + zlen out)) idx s1) as E'.
  { destruct E as [Q1 Q2 (q1 & q2 & q3 & q4 & q5 & q6 & Q)]. split; [done|done|]. exists q1, q2, q3, q4, q5, q6. destruct Q as (? & ? & ? & ? & ? & ? & ? & Q). split_and!; try done.
    unfold btrfs_logical_to_physical in *. by destruct (ar_super _ _ _ A) as [-> _]. }
  rewrite (read_extent_nothing b oid (u64 (offset + zlen out)) idx (size - zlen out) temp s1 E' En) by lia. cbn [mbind outcome_bind]. rewrite app_nil_r.
  apply IH; [apply A|by rewrite (ar_image _ _ _ A)|done].
Qed.
End device.

(** ** Examples *)

(** A disk given by a function. *)
Record fundisk := mk_fundisk { fd_sector : Z -> list Z }.

#[export] Instance fun_device : BlockDevice fundisk := {
  ata_is_available := fun _ => true;
  ata_read_sector := fun lba buf d => (true, fd_sector d lba, d);
  ata_write_sector := fun lba buf d => (true, mk_fundisk (fun x => if x =? lba then buf else fd_sector d x))
}.

#[export] #[refine] Instance fun_laws : BlockDeviceLaws fundisk := {|
  bd_limit := 2 ^ 32;
  bd_ready := fun d => forall x, sector_ok (fd_sector d x);
  disk := fd_sector
|}.
Proof.
  - done.
  - intros d x Hd _. apply Hd.
  - intros d lba buf Hd _ _. by exists d.
  - intros d lba buf ok buf' d' Hd [= <- <- <-]. done.
  - intros d lba buf Hd _ Hb. eexists. split; [done|]. split; [|done]. intros x. cbn. case_match; [done|apply Hd].
Defined.

(** A leaf with one item, of key (5, 132, 0), at logical address 0. *)
Definition ex_leaf : list Z := replicate 76 0 ++ [1; 0; 0; 0; 0] ++ [5; 0; 0; 0; 0; 0; 0; 0; 132] ++ replicate 422 0.
Definition ex_key : key := mk_key 5 132 0.
(** A superblock for nodes of 512 bytes; logical addresses are physical. *)
Definition ex_super : list Z := replicate 148 0 ++ [0; 2; 0; 0] ++ replicate 3219 0.
Definition ex_disk : fundisk := mk_fundisk (fun x => if x =? BTRFS_PARTITION_START_LBA then ex_leaf else replicate 512 0).
Definition ex_btrfs (room : nat) : btrfs := mk_btrfs 1 ex_super (replicate 6 (replicate room 0)) ex_disk.

Lemma ex_node room v : 0 <= v < 6 -> node v (ex_btrfs room) = replicate room 0.
Proof. intros Hv. unfold node. cbn [nodes ex_btrfs]. by rewrite (zget_replicate 6) by lia. Qed.

Lemma ex_mounted : mounted (ex_btrfs 512).
Proof.
  split; [|done|done|done|].
  - intros x. change (sector_ok (if x =? BTRFS_PARTITION_START_LBA then ex_leaf else replicate 512 0)).
    destruct (x =? _); (split; [done|]); unfold ex_leaf, bytes_ok; rewrite ?Forall_app; split_and?; (by repeat constructor) || (apply Forall_replicate; lia).
  - intros v Hv. rewrite ex_node by done. by rewrite zlen_replicate.
Qed.

Lemma ex_image : image (ex_btrfs 512) 0 = Some ex_leaf.
Proof. vm_compute. reflexivity. Qed.

Lemma ex_tree : tree (image (ex_btrfs 512)) 0 0 [(ex_key, (0, 0))].
Proof.
  apply (tree_leaf _ 0 ex_leaf [ex_key]). split; [exact ex_image|done|done| |].
  - intros i k Hi. pose proof (zget_Some_bound _ _ _ Hi) as Hb. assert (i = 0) as -> by (change (zlen [ex_key]) with 1 in Hb; lia). by injection Hi as <-.
  - intros i j x y Hij Hi Hj. apply zget_Some_bound in Hi, Hj. change (zlen [ex_key]) with 1 in *. lia.
Qed.

Lemma btrfs_search_spec_witness :
  mounted (ex_btrfs 512) /\
  completes (btrfs_tree_search 1 0 ex_key V_ROOT (ex_btrfs 512)) (fun '(r, s') => is_Some r /\ image (ex_btrfs 512) 0 = Some (node V_ROOT s')).
Proof.
  split; [exact ex_mounted|].
  eapply completes_mono; [apply (btrfs_search_spec 1 ex_key V_ROOT 0 0 _ (ex_btrfs 512) ex_mounted ltac:(unfold V_ROOT; lia) ex_tree); lia|].
  intros [r s'] [_ Hr]. destruct r as [idx|].
  - destruct Hr as (c & Hin & Hc). apply list_elem_of_singleton in Hin. injection Hin as -> ->. by split.
  - by destruct (Hr (ex_key, (0, 0)) ltac:(by left)).
Defined.

End BtrfsSpec.
