(* ===== verification/Elf.v ===== *)
(** * ELF loader (kernel/fs/elf.c, include/elf.h)

    Validation of an ELF64 file, copying its segments to the addresses they ask
    for, and building the initial stack of the program.  The file is in a buffer
    of the kernel's one address space ([mem]), the same memory the segments and
    the arguments are in, and is read as the code reads it, each time anew: a
    segment that overlaps the buffer changes what is read next.  Reading past the
    buffer is a fault.  [sys_execve] is in Syscall.v. *)

From stdpp Require Import base tactics numbers option list.
From S2P Require Import Prelude Telemetry CMem Alloc Timer.

Module Elf.
Import Telemetry Alloc Timer.

(** ** Model *)

Definition PT_LOAD : Z := 1.
Definition ET_EXEC : Z := 2.
Definition ELF_VADDR_MIN : Z := 0x100000.
Definition ELF_VADDR_MAX : Z := 0xFF000000.
Definition EHDR_SIZE : Z := 64.
Definition PHDR_SIZE : Z := 56.
Definition STACK_SIZE : Z := 65536.

Definition e_machine_of (arch : timer_arch) : Z :=
  match arch with TIMER_ARCH_X86 => 62 | TIMER_ARCH_ARM64 => 183 | TIMER_ARCH_RV64 => 243 end.

Record ehdr := mk_ehdr {
  e_ident : list Z;
  e_type : Z;
  e_machine : Z;
  e_version : Z;
  e_entry : Z;
  e_phoff : Z;
  e_shoff : Z;
  e_flags : Z;
  e_ehsize : Z;
  e_phentsize : Z;
  e_phnum : Z;
  e_shentsize : Z;
  e_shnum : Z;
  e_shstrndx : Z
}.

Record phdr := mk_phdr {
  p_type : Z;
  p_flags : Z;
  p_offset : Z;
  p_vaddr : Z;
  p_paddr : Z;
  p_filesz : Z;
  p_memsz : Z;
  p_align : Z
}.

(** *** The file: [size] bytes at [data] *)

Section file.
Context (data size : Z).

Definition in_file (i n : Z) : bool := (0 <=? i) && (i + n <=? size).

Definition get_ehdr (m : mem) : outcome ehdr :=
  if in_file 0 EHDR_SIZE then
    let f n i := load_le n m (data + i) in
    Ret (mk_ehdr (map (fun i => m (data + Z.of_nat i)) (seq 0 16)) (f 2%nat 16) (f 2%nat 18) (f 4%nat 20) (f 8%nat 24) (f 8%nat 32)
           (f 8%nat 40) (f 4%nat 48) (f 2%nat 52) (f 2%nat 54) (f 2%nat 56) (f 2%nat 58) (f 2%nat 60) (f 2%nat 62))
  else Fault.

(** [phdr[i]], where [phdr = data + phoff]. *)
Definition get_phdr (phoff i : Z) (m : mem) : outcome phdr :=
  let a := phoff + PHDR_SIZE * i in
  if in_file a PHDR_SIZE then
    let f n o := load_le n m (data + a + o) in
    Ret (mk_phdr (f 4%nat 0) (f 4%nat 4) (f 8%nat 8) (f 8%nat 16) (f 8%nat 24) (f 8%nat 32) (f 8%nat 40) (f 8%nat 48))
  else Fault.

(** The four magic bytes, the class, the byte order. *)
Definition ident_ok (eh : ehdr) : bool := bool_decide (take 6 (e_ident eh) = [0x7F; 69; 76; 70; 2; 1]).

Definition elf_validate (arch : timer_arch) (m : mem) : outcome bool :=
  if (data =? 0) || (size <? EHDR_SIZE) then Ret false
  else
    eh ← get_ehdr m;
    Ret (ident_ok eh && (e_type eh =? ET_EXEC) && (e_machine eh =? e_machine_of arch) &&
         negb (e_phoff eh =? 0) && negb (e_phnum eh =? 0)).

(** [a[0] = v] for a byte pointer. *)
Definition put (a v : Z) (m : mem) : outcome mem := if a <? 2 ^ 64 then Ret (store_le 1 m a v) else Fault.

(** [for (; j < phdr[i].p_filesz; j++) dest[j] = src[j]]; the source is in the
    file, so [size + 1] rounds are enough. *)
Fixpoint copy_loop (fuel : nat) (phoff i dest off j : Z) (m : mem) : outcome mem :=
  match fuel with
  | O => OutOfFuel
  | S k =>
      ph ← get_phdr phoff i m;
      if j <? p_filesz ph then
        if in_file (off + j) 1 then
          m1 ← put (dest + j) (m (data + off + j)) m;
          copy_loop k phoff i dest off (j + 1) m1
        else Fault
      else Ret m
  end.

(** [for (; j < phdr[i].p_memsz; j++) dest[j] = 0]; storing zeroes does not make
    the bound larger. *)
Fixpoint zero_loop (fuel : nat) (phoff i dest j : Z) (m : mem) : outcome mem :=
  match fuel with
  | O => OutOfFuel
  | S k =>
      ph ← get_phdr phoff i m;
      if j <? p_memsz ph then m1 ← put (dest + j) 0 m; zero_loop k phoff i dest (j + 1) m1 else Ret m
  end.

Definition load_segment (phoff i : Z) (m : mem) : outcome mem :=
  ph ← get_phdr phoff i m;
  let dest := p_vaddr ph in
  m1 ← copy_loop (S (Z.to_nat size)) phoff i dest (p_offset ph) 0 m;
  ph1 ← get_phdr phoff i m1;
  zero_loop (S (Z.to_nat (p_memsz ph1))) phoff i dest (p_filesz ph1) m1.

Definition segment_rejected (ph : phdr) : bool :=
  (p_vaddr ph <? ELF_VADDR_MIN) || (ELF_VADDR_MAX <? u64 (p_vaddr ph + p_memsz ph)).

(** The loop over the program headers from [i]; [false] for the error return. *)
Fixpoint load_segments (fuel : nat) (phoff i : Z) (m : mem) : outcome (bool * mem) :=
  match fuel with
  | O => OutOfFuel
  | S k =>
      eh ← get_ehdr m;
      if i <? e_phnum eh then
        ph ← get_phdr phoff i m;
        if negb (p_type ph =? PT_LOAD) then load_segments k phoff (i + 1) m
        else if segment_rejected ph then Ret (false, m)
        else m1 ← load_segment phoff i m; load_segments k phoff (i + 1) m1
      else Ret (true, m)
  end.

(** [e_phnum] has 16 bits. *)
Definition phnum_fuel : nat := Z.to_nat (2 ^ 16 + 1).

(** The lowest and highest address of the segments, as [sys_execve] records them. *)
Fixpoint elf_span (fuel : nat) (phnum phoff i : Z) (m : mem) (lo hi : Z) : outcome (Z * Z) :=
  match fuel with
  | O => OutOfFuel
  | S k =>
      if i <? phnum then
        ph ← get_phdr phoff i m;
        if p_type ph =? PT_LOAD then
          let top := u64 (p_vaddr ph + p_memsz ph) in
          elf_span k phnum phoff (i + 1) m (if p_vaddr ph <? lo then p_vaddr ph else lo) (if hi <? top then top else hi)
        else elf_span k phnum phoff (i + 1) m lo hi
      else Ret (lo, hi)
  end.
End file.

(** *** The initial stack *)

Section stack.
Context (heap_base : Z).
(** Bound on the number of arguments and on the length of each. *)
Context (fuel : nat).

(** [while (v[n]) n++] over an array of pointers; 0 for a NULL array. *)
Fixpoint count_ptrs (f : nat) (v n : Z) (m : mem) : outcome Z :=
  match f with
  | O => OutOfFuel
  | S k => if load64 m (v + 8 * n) =? 0 then Ret n else count_ptrs k v (n + 1) m
  end.

Definition count_args (v : Z) (m : mem) : outcome Z := if v =? 0 then Ret 0 else count_ptrs fuel v 0 m.

Fixpoint strlen_at (f : nat) (s n : Z) (m : mem) : outcome Z :=
  match f with
  | O => OutOfFuel
  | S k => if m (s + n) =? 0 then Ret n else strlen_at k s (n + 1) m
  end.

(** The strings [v[n-1]], ..., [v[0]] below [sp]; [ptrs[i]] gets the address of
    the copy of [v[i]]. *)
Fixpoint push_strings (n : nat) (v ptrs sp : Z) (h : heap) : outcome (Z * heap) :=
  match n with
  | O => Ret (sp, h)
  | S k =>
      let i := Z.of_nat k in
      let s := load64 (h_mem h) (v + 8 * i) in
      l ← strlen_at fuel s 0 (h_mem h);
      let len := l + 1 in
      let sp1 := sp - len in
      if mapped heap_base sp1 len then
        h1 ← st64 heap_base (ptrs + 8 * i) sp1 (with_mem (memcpy_loop (Z.to_nat len) (h_mem h) sp1 s) h);
        push_strings k v ptrs sp1 h1
      else Fault
  end.

(** [((uint64_t* )sp)[i] = ptrs[i]] for [n] pointers from index [i]. *)
Fixpoint copy_ptrs (n : nat) (i ptrs sp : Z) (h : heap) : outcome heap :=
  match n with
  | O => Ret h
  | S k =>
      v ← ld64 heap_base (ptrs + 8 * i) h;
      h1 ← st64 heap_base (sp + 8 * i) v h;
      copy_ptrs k (i + 1) ptrs sp h1
  end.

(** Pointers, strings and [argc] below [top]; the stack pointer of the program. *)
Definition build_stack (e : env) (argc envc argv envp argv_ptrs envp_ptrs top : Z) (h3 : heap) : outcome (Z * heap) :=
  '(sp1, h4) ← push_strings (Z.to_nat envc) envp envp_ptrs top h3;
  h5 ← st64 heap_base (envp_ptrs + 8 * envc) 0 h4;
  '(sp2, h6) ← push_strings (Z.to_nat argc) argv argv_ptrs sp1 h5;
  h7 ← st64 heap_base (argv_ptrs + 8 * argc) 0 h6;
  let sp3 := Z.land sp2 (-16) in
  let total_ptr_size := 8 + (argc + 1) * 8 + (envc + 1) * 8 in
  let sp4 := if negb (total_ptr_size mod 16 =? 0) then sp3 - 8 else sp3 in
  let sp5 := sp4 - (envc + 1) * 8 in
  h8 ← copy_ptrs (Z.to_nat (envc + 1)) 0 envp_ptrs sp5 h7;
  let sp6 := sp5 - (argc + 1) * 8 in
  h9 ← copy_ptrs (Z.to_nat (argc + 1)) 0 argv_ptrs sp6 h8;
  let sp7 := sp6 - 8 in
  h10 ← st64 heap_base sp7 argc h9;
  h11 ← sage_free heap_base e envp_ptrs h10;
  h12 ← sage_free heap_base e argv_ptrs h11;
  Ret (sp7, h12).

(** The entry point and the stack pointer the loader jumps with; [None] for the
    error return. *)
Definition elf_exec (arch : timer_arch) (e : env) (data size argv envp : Z) (h : heap) : outcome (option (Z * Z) * heap) :=
  ok ← elf_validate data size arch (h_mem h);
  if negb ok then Ret (None, h)
  else
    eh ← get_ehdr data size (h_mem h);
    '(ok1, m1) ← load_segments data size phnum_fuel (e_phoff eh) 0 (h_mem h);
    let h0 := with_mem m1 h in
    if negb ok1 then Ret (None, h0)
    else
      argc ← count_args argv m1;
      envc ← count_args envp m1;
      '(argv_ptrs, h1) ← sage_malloc heap_base e ((argc + 1) * 8) h0;
      '(envp_ptrs, h2) ← sage_malloc heap_base e ((envc + 1) * 8) h1;
      '(stack_mem, h3) ← sage_malloc heap_base e STACK_SIZE h2;
      if stack_mem =? 0 then Ret (None, h3)
      else
        '(sp, h4) ← build_stack e argc envc argv envp argv_ptrs envp_ptrs (stack_mem + STACK_SIZE) h3;
        eh1 ← get_ehdr data size (h_mem h4);
        Ret (Some (e_entry eh1, sp), h4).
End stack.

(** ** Correctness of loading *)

Section spec.
Context (data size : Z).

(** A segment inside the file and inside the allowed addresses, away from the buffer. *)
Definition seg_ok (ph : phdr) : Prop :=
  ELF_VADDR_MIN <= p_vaddr ph /\ 0 <= p_filesz ph <= p_memsz ph /\ p_vaddr ph + p_memsz ph <= ELF_VADDR_MAX /\
  0 <= p_offset ph /\ p_offset ph + p_filesz ph <= size /\ disjoint_ranges (p_vaddr ph) (p_memsz ph) data size.

Definition in_segment (ph : phdr) (x : Z) : Prop := p_vaddr ph <= x < p_vaddr ph + p_memsz ph.

Definition seg_disjoint (p q : phdr) : Prop := disjoint_ranges (p_vaddr p) (p_memsz p) (p_vaddr q) (p_memsz q).

Definition loads (phs : list phdr) : list phdr := filter (fun ph => p_type ph = PT_LOAD) phs.

(** The image of a segment: bytes of the file, then zeroes. *)
Definition seg_byte (m : mem) (ph : phdr) (j : Z) : Z := if j <? p_filesz ph then m (data + p_offset ph + j) else 0.

Lemma get_ehdr_agree m m' : agree m m' data size -> get_ehdr data size m = get_ehdr data size m'.
Proof.
  intros H. unfold get_ehdr. destruct (in_file size 0 EHDR_SIZE) eqn:E; [|done].
  apply andb_true_iff in E as [_ E]. apply Z.leb_le in E. unfold EHDR_SIZE in E. f_equal.
  assert (forall n i, 0 <= i -> i + Z.of_nat n <= 64 -> load_le n m (data + i) = load_le n m' (data + i)) as Hl
    by (intros; apply load_agree; apply (agree_sub _ _ _ _ _ _ H); lia).
  rewrite !Hl by lia. f_equal. apply map_ext_in. intros i Hi. apply in_seq in Hi. apply H. lia.
Qed.

Lemma get_phdr_agree phoff i m m' : agree m m' data size -> get_phdr data size phoff i m = get_phdr data size phoff i m'.
Proof.
  intros H. unfold get_phdr. destruct (in_file _ _ _) eqn:E; [|done].
  apply andb_true_iff in E as [E0 E]. apply Z.leb_le in E0, E. unfold PHDR_SIZE in *.
  assert (forall n o, 0 <= o -> o + Z.of_nat n <= 56 ->
    load_le n m (data + (phoff + 56 * i) + o) = load_le n m' (data + (phoff + 56 * i) + o)) as Hl
    by (intros; apply load_agree; apply (agree_sub _ _ _ _ _ _ H); lia).
  by rewrite !Hl by lia.
Qed.

Lemma get_ehdr_phnum eh m : mem_wf m -> get_ehdr data size m = Ret eh -> 0 <= e_phnum eh < 2 ^ 16.
Proof.
  intros Hwf H. unfold get_ehdr in H. case_match; [|done]. apply Ret_inj in H. subst eh. by apply (load_bound 2).
Qed.

Lemma put_ok a v m : a < 2 ^ 64 -> put a v m = Ret (store_le 1 m a v).
Proof. intros H. unfold put. by destruct (Z.ltb_spec a (2 ^ 64)); [|lia]. Qed.

(** Storing a byte of a range away from the buffer. *)
Lemma put_agree a v m b n : disjoint_ranges b n data size -> b <= a < b + n -> agree (store_le 1 m a v) m data size.
Proof. intros H Ha. apply store_agree. unfold disjoint_ranges in *. lia. Qed.

(** Both loops store the bytes [f] into [dest + j .. dest + n). *)
Definition stored (m m' : mem) (dest j n : Z) (f : Z -> Z) : Prop := forall x,
  m' x = if in_block (dest + j) (n - j) x then f (x - dest) else m x.

Lemma stored_step m m' dest j n f :
  j < n -> 0 <= f j < 256 -> stored (store_le 1 m (dest + j) (f j)) m' dest (j + 1) n f -> stored m m' dest j n f.
Proof.
  intros Hj Hf H x. rewrite (H x), store_byte. destruct (Z.eqb_spec x (dest + j)) as [->|Hne].
  - rewrite in_block_out, in_block_in, Z.mod_small by lia. f_equal. lia.
  - destruct (in_block (dest + j) (n - j) x) eqn:E.
    + apply in_block_true in E. by rewrite in_block_in by lia.
    + apply in_block_false in E. by rewrite in_block_out by lia.
Qed.

Lemma stored_nil m dest j n f : n <= j -> stored m m dest j n f.
Proof. intros H x. by rewrite in_block_out by lia. Qed.

Lemma copy_loop_spec phoff i ph m0 : mem_wf m0 -> get_phdr data size phoff i m0 = Ret ph -> p_vaddr ph + p_filesz ph <= 2 ^ 64 ->
  0 <= p_offset ph -> p_offset ph + p_filesz ph <= size -> disjoint_ranges (p_vaddr ph) (p_filesz ph) data size ->
  forall fuel j m, 0 <= j <= p_filesz ph -> p_filesz ph - j < Z.of_nat fuel -> agree m m0 data size ->
  completes (copy_loop data size fuel phoff i (p_vaddr ph) (p_offset ph) j m) (fun m' =>
    stored m m' (p_vaddr ph) j (p_filesz ph) (fun j => m0 (data + p_offset ph + j))).
Proof.
  intros Hwf Hph Htop Hoff Hin Hdis. induction fuel as [|k IH]; intros j m Hj Hf Hag; [lia|]. cbn [copy_loop].
  rewrite (get_phdr_agree _ _ _ _ Hag), Hph. cbn [mbind outcome_bind].
  destruct (Z.ltb_spec j (p_filesz ph)); [|by apply completes_Ret, stored_nil].
  unfold in_file. destruct (Z.leb_spec 0 (p_offset ph + j)), (Z.leb_spec (p_offset ph + j + 1) size); try lia. cbn [andb].
  rewrite put_ok by lia. cbn [mbind outcome_bind]. rewrite (Hag (data + p_offset ph + j)) by lia.
  eapply completes_mono; [apply IH; [lia..|]|].
  - eapply agree_trans; [|exact Hag]. eapply put_agree; [exact Hdis|lia].
  - intros m' H'. apply stored_step; [lia|apply Hwf|exact H'].
Qed.

Lemma zero_loop_spec phoff i ph m0 : get_phdr data size phoff i m0 = Ret ph -> p_vaddr ph + p_memsz ph <= 2 ^ 64 ->
  disjoint_ranges (p_vaddr ph) (p_memsz ph) data size ->
  forall fuel j m, 0 <= j <= p_memsz ph -> p_memsz ph - j < Z.of_nat fuel -> agree m m0 data size ->
  completes (zero_loop data size fuel phoff i (p_vaddr ph) j m) (fun m' => stored m m' (p_vaddr ph) j (p_memsz ph) (fun _ => 0)).
Proof.
  intros Hph Htop Hdis. induction fuel as [|k IH]; intros j m Hj Hf Hag; [lia|]. cbn [zero_loop].
  rewrite (get_phdr_agree _ _ _ _ Hag), Hph. cbn [mbind outcome_bind].
  destruct (Z.ltb_spec j (p_memsz ph)); [|by apply completes_Ret, stored_nil].
  rewrite put_ok by lia. cbn [mbind outcome_bind].
  eapply completes_mono; [apply IH; [lia..|]|].
  - eapply agree_trans; [|exact Hag]. eapply put_agree; [exact Hdis|lia].
  - intros m' H'. apply (stored_step _ _ _ _ _ (fun _ => 0)); [lia|lia|exact H'].
Qed.

Lemma stored_agree m m' dest j n f : disjoint_ranges dest n data size -> stored m m' dest j n f -> 0 <= j -> agree m' m data size.
Proof. intros Hd H Hj x Hx. rewrite (H x), in_block_out; [done|]. unfold disjoint_ranges in *. lia. Qed.

Lemma load_segment_ok phoff i ph m :
  mem_wf m -> get_phdr data size phoff i m = Ret ph -> seg_ok ph ->
  completes (load_segment data size phoff i m) (fun m' => mem_wf m' /\ agree m' m data size /\
    (forall j, 0 <= j < p_memsz ph -> m' (p_vaddr ph + j) = seg_byte m ph j) /\ forall x, ~ in_segment ph x -> m' x = m x).
Proof.
  intros Hwf Hph (Hmin & Hsz & Hmax & Hoff & Hin & Hdis). unfold ELF_VADDR_MIN, ELF_VADDR_MAX in *.
  assert (disjoint_ranges (p_vaddr ph) (p_filesz ph) data size) as Hdis' by (unfold disjoint_ranges in *; lia).
  unfold load_segment. rewrite Hph. cbn [mbind outcome_bind].
  destruct (copy_loop_spec phoff i ph m Hwf Hph ltac:(lia) Hoff Hin Hdis' (S (Z.to_nat size)) 0 m ltac:(lia) ltac:(lia) ltac:(done)) as (m1 & -> & H1).
  cbn [mbind outcome_bind]. pose proof (stored_agree _ _ _ _ _ _ Hdis' H1 ltac:(lia)) as Hag1.
  rewrite (get_phdr_agree _ _ _ _ Hag1), Hph. cbn [mbind outcome_bind].
  destruct (zero_loop_spec phoff i ph m Hph ltac:(lia) Hdis (S (Z.to_nat (p_memsz ph))) (p_filesz ph) m1 ltac:(lia) ltac:(lia) Hag1)
    as (m2 & -> & H2). apply completes_Ret. split; [|split; [|split]].
  - intros x. rewrite (H2 x), (H1 x). repeat case_match; (lia || apply Hwf).
  - eapply agree_trans; [|exact Hag1]. eapply stored_agree; [exact Hdis|exact H2|lia].
  - intros j Hj. rewrite (H2 _), (H1 _). unfold seg_byte. destruct (Z.ltb_spec j (p_filesz ph)).
    + rewrite in_block_out, in_block_in by lia. f_equal. lia.
    + by rewrite in_block_in by lia.
  - intros x Hx. unfold in_segment in Hx. by rewrite (H2 x), (H1 x), !in_block_out by lia.
Qed.

Lemma segment_accepted ph : seg_ok ph -> segment_rejected ph = false.
Proof.
  intros (Hmin & Hsz & Hmax & _). unfold segment_rejected, ELF_VADDR_MIN, ELF_VADDR_MAX in *. rewrite u64_small by lia.
  apply orb_false_iff. split; [by apply Z.ltb_ge|by apply Z.ltb_ge].
Qed.

(** What loading the segments [phs] does to [m]. *)
Definition loaded (phs : list phdr) (m m' : mem) : Prop :=
  (forall ph j, ph ∈ loads phs -> 0 <= j < p_memsz ph -> m' (p_vaddr ph + j) = seg_byte m ph j) /\
  (forall x, (forall ph, ph ∈ loads phs -> ~ in_segment ph x) -> m' x = m x).

(** The loader on the headers from [i], with the file as in [m0]. *)
Lemma load_segments_ok eh m0 phs : get_ehdr data size m0 = Ret eh -> Forall seg_ok (loads phs) -> ForallOrdPairs seg_disjoint (loads phs) ->
  forall i m fuel, i + zlen phs = e_phnum eh -> (length phs < fuel)%nat -> mem_wf m -> agree m m0 data size ->
  (forall k ph, phs !! k = Some ph -> get_phdr data size (e_phoff eh) (i + Z.of_nat k) m0 = Ret ph) ->
  completes (load_segments data size fuel (e_phoff eh) i m) (fun '(ok, m') => ok = true /\ loaded phs m m').
Proof.
  intros Heh. induction phs as [|ph phs IH]; intros Hok Hdis i m [|fuel] Hn Hf Hwf Hag Hget; cbn [length] in Hf; try lia; cbn [load_segments].
  all: rewrite (get_ehdr_agree _ _ Hag), Heh; cbn [mbind outcome_bind].
  { change (zlen []) with 0 in Hn. destruct (Z.ltb_spec i (e_phnum eh)); [lia|]. apply completes_Ret.
    split; [done|]. split; [intros ph j H'; by apply elem_of_nil in H'|done]. }
  unfold zlen in *. cbn [length] in Hn. destruct (Z.ltb_spec i (e_phnum eh)); [|lia].
  pose proof (Hget 0%nat ph eq_refl) as Hph0. rewrite Z.add_0_r in Hph0.
  rewrite <- (get_phdr_agree _ _ _ _ Hag) in Hph0. rewrite Hph0. cbn [mbind outcome_bind].
  assert (forall k ph', phs !! k = Some ph' -> get_phdr data size (e_phoff eh) (i + 1 + Z.of_nat k) m0 = Ret ph') as Hget1.
  { intros k ph' Hk. specialize (Hget (S k) ph' Hk). by replace (i + 1 + Z.of_nat k) with (i + Z.of_nat (S k)) by lia. }
  unfold loaded, loads in *. rewrite filter_cons in Hok, Hdis |- *. destruct (Z.eqb_spec (p_type ph) PT_LOAD) as [Ht|Ht]; cbn [negb].
  - destruct (decide (p_type ph = PT_LOAD)); [|done]. apply Forall_cons in Hok as [Hph Hok]. inversion Hdis as [|? ? Hd1 Hd2]; subst.
    rewrite segment_accepted by done. destruct (load_segment_ok _ _ ph m Hwf Hph0 Hph) as (m1 & -> & Hwf1 & Hag1 & Hin & Hout). cbn [mbind outcome_bind].
    assert (agree m1 m0 data size) as Hag' by (by eapply agree_trans).
    destruct (IH Hok Hd2 (i + 1) m1 fuel ltac:(lia) ltac:(lia) Hwf1 Hag' Hget1) as ([ok m'] & -> & -> & Hseg & Hrest).
    apply completes_Ret. split; [done|]. split.
    + intros q j Hq Hj. apply elem_of_cons in Hq as [->|Hq].
      * rewrite Hrest; [by apply Hin|]. intros q Hq Hx. rewrite Forall_forall in Hd1. specialize (Hd1 q Hq).
        unfold seg_disjoint, disjoint_ranges, in_segment in *. lia.
      * rewrite Hseg by done. rewrite Forall_forall in Hok. destruct (Hok q Hq) as (? & ? & ? & ? & ? & ?). unfold seg_byte.
        destruct (Z.ltb_spec j (p_filesz q)); [|done]. apply Hag1. lia.
    + intros x Hx. rewrite Hrest by (intros q Hq; apply Hx; by right). apply Hout. apply Hx. by left.
  - destruct (decide (p_type ph = PT_LOAD)); [done|]. apply IH; try done; lia.
Qed.
End spec.

(** *** An example file *)

(** Fields [(width, offset, value)] of a file in memory at [EX_DATA]. *)
Definition EX_DATA : Z := 0x10000.
Definition ex_mem (fields : list (nat * Z * Z)) : mem := foldr (fun '(n, o, v) m => store_le n m (EX_DATA + o) v) mem_zero fields.

Lemma ex_mem_wf fields : mem_wf (ex_mem fields).
Proof. induction fields as [|[[n o] v] r IH]; [apply mem_zero_wf|]. by apply store_wf. Qed.

Definition phdr_fields (a : Z) (ph : phdr) : list (nat * Z * Z) :=
  [(4%nat, a, p_type ph); (4%nat, a + 4, p_flags ph); (8%nat, a + 8, p_offset ph); (8%nat, a + 16, p_vaddr ph);
   (8%nat, a + 24, p_paddr ph); (8%nat, a + 32, p_filesz ph); (8%nat, a + 40, p_memsz ph); (8%nat, a + 48, p_align ph)].

(** A text segment, a note, and data with four bytes of bss; 8 bytes of contents at 232. *)
Definition ex_phdrs : list phdr :=
  [mk_phdr PT_LOAD 5 232 0x400000 0x400000 5 5 4096; mk_phdr 4 4 232 0 0 4 4 4; mk_phdr PT_LOAD 6 237 0x401000 0x401000 3 7 4096].

Definition ex_image (phs : list phdr) : mem :=
  ex_mem ([(8%nat, 0, 0x10102464C457F); (2%nat, 16, ET_EXEC); (2%nat, 18, 62); (8%nat, 24, 0x400000); (8%nat, 32, 64);
           (2%nat, 54, 56); (2%nat, 56, zlen phs); (8%nat, 232, 0x0807060504030201)] ++
          concat (imap (fun k => phdr_fields (64 + 56 * Z.of_nat k)) phs)).

Definition ex_ehdr : ehdr := mk_ehdr [127; 69; 76; 70; 2; 1; 1; 0; 0; 0; 0; 0; 0; 0; 0; 0] ET_EXEC 62 0 0x400000 64 0 0 0 56 3 0 0 0.

(** C23: Loading a file whose program headers lie in it and whose loadable segments
    lie in the file and in the allowed addresses, are no longer in the file than
    in memory, do not overlap each other and do not overlap the buffer that holds
    the file: it succeeds, every segment's memory holds its bytes of the file
    followed by zeroes, and all other memory is unchanged. *)
Theorem elf_load_spec data size eh phs m :
  mem_wf m -> get_ehdr data size m = Ret eh -> zlen phs = e_phnum eh ->
  (forall i ph, phs.[i] = Some ph -> get_phdr data size (e_phoff eh) i m = Ret ph) ->
  Forall (seg_ok data size) (loads phs) -> ForallOrdPairs seg_disjoint (loads phs) ->
  completes (load_segments data size phnum_fuel (e_phoff eh) 0 m) (fun '(ok, m') =>
    ok = true /\
    (forall ph j, ph ∈ loads phs -> 0 <= j < p_memsz ph -> m' (p_vaddr ph + j) = seg_byte data m ph j) /\
    (forall x, (forall ph, ph ∈ loads phs -> ~ in_segment ph x) -> m' x = m x)).
Proof.
  intros Hwf Heh Hn Hget Hok Hdis. apply (load_segments_ok data size eh m phs); try done.
  - pose proof (get_ehdr_phnum _ _ _ _ Hwf Heh). unfold phnum_fuel, zlen in *. lia.
  - intros k ph Hk. rewrite Z.add_0_l. apply Hget. by rewrite zget_nat.
Qed.

Lemma elf_load_spec_witness :
  completes (load_segments EX_DATA 240 phnum_fuel 64 0 (ex_image ex_phdrs)) (fun '(ok, m') =>
    ok = true /\
    (forall ph j, ph ∈ loads ex_phdrs -> 0 <= j < p_memsz ph -> m' (p_vaddr ph + j) = seg_byte EX_DATA (ex_image ex_phdrs) ph j) /\
    (forall x, (forall ph, ph ∈ loads ex_phdrs -> ~ in_segment ph x) -> m' x = ex_image ex_phdrs x)).
Proof.
  apply (elf_load_spec EX_DATA 240 ex_ehdr ex_phdrs).
  - apply ex_mem_wf.
  - vm_compute. reflexivity.
  - reflexivity.
  - intros i ph Hi. assert (i = 0 \/ i = 1 \/ i = 2) as [ -> | [ -> | -> ] ] by (apply zget_Some_bound in Hi; unfold zlen in Hi; cbn in Hi; lia).
    all: vm_compute in Hi; injection Hi as <-; vm_compute; reflexivity.
  - repeat constructor; cbn; unfold ELF_VADDR_MIN, ELF_VADDR_MAX, EX_DATA, disjoint_ranges; lia.
  - repeat constructor; cbn; unfold disjoint_ranges; cbn; lia.
Defined.

(** The address check does not confine a segment: one that asks for the first
    address after the allowed range with a memory size of zero is accepted, and
    its bytes in the file are stored there. *)
Theorem elf_check_escape data size phoff i ph m :
  mem_wf m -> get_phdr data size phoff i m = Ret ph ->
  p_vaddr ph = ELF_VADDR_MAX -> p_memsz ph = 0 -> 0 < p_filesz ph <= 2 ^ 32 -> 0 <= p_offset ph -> p_offset ph + p_filesz ph <= size ->
  disjoint_ranges ELF_VADDR_MAX (p_filesz ph) data size ->
  segment_rejected ph = false /\
  completes (load_segment data size phoff i m) (fun m' => forall j, 0 <= j < p_filesz ph ->
    m' (ELF_VADDR_MAX + j) = m (data + p_offset ph + j)).
Proof.
  intros Hwf Hph Hv Hm Hf Hoff Hin Hd. unfold segment_rejected, load_segment. rewrite Hph. cbn [mbind outcome_bind].
  split; [by rewrite Hv, Hm|]. rewrite <- Hv in Hd |- *.
  destruct (copy_loop_spec data size phoff i ph m Hwf Hph ltac:(unfold ELF_VADDR_MAX in *; lia) Hoff Hin Hd (S (Z.to_nat size)) 0 m
    ltac:(lia) ltac:(lia) ltac:(done)) as (m1 & -> & H1). cbn [mbind outcome_bind].
  rewrite (get_phdr_agree _ _ _ _ _ _ (stored_agree _ _ _ _ _ _ _ _ Hd H1 ltac:(lia))), Hph. cbn [mbind outcome_bind].
  rewrite Hm. cbn [zero_loop]. rewrite (get_phdr_agree _ _ _ _ _ _ (stored_agree _ _ _ _ _ _ _ _ Hd H1 ltac:(lia))), Hph. cbn [mbind outcome_bind].
  rewrite Hm. destruct (Z.ltb_spec (p_filesz ph) 0); [lia|]. apply completes_Ret. intros j Hj. rewrite (H1 _), in_block_in by lia. f_equal. lia.
Qed.

Lemma elf_check_escape_witness :
  segment_rejected (mk_phdr PT_LOAD 5 232 ELF_VADDR_MAX 0 8 0 4096) = false /\
  completes (load_segment EX_DATA 240 64 0 (ex_image [mk_phdr PT_LOAD 5 232 ELF_VADDR_MAX 0 8 0 4096])) (fun m' => forall j, 0 <= j < 8 ->
    m' (ELF_VADDR_MAX + j) = ex_image [mk_phdr PT_LOAD 5 232 ELF_VADDR_MAX 0 8 0 4096] (EX_DATA + 232 + j)).
Proof.
  apply (elf_check_escape EX_DATA 240 64 0 (mk_phdr PT_LOAD 5 232 ELF_VADDR_MAX 0 8 0 4096)).
  - apply ex_mem_wf.
  - vm_compute. reflexivity.
  - reflexivity.
  - reflexivity.
  - cbn. lia.
  - cbn. lia.
  - cbn. lia.
  - unfold disjoint_ranges, ELF_VADDR_MAX, EX_DATA. cbn. lia.
Defined.
End Elf.
