(* ===== verification/Syscall.v ===== *)
(** * System calls (kernel/core/syscall.c, sys_brk of core/mm.c, sys_execve of
    fs/elf.c, power_reboot and power_shutdown of core/virt_main.c)

    File descriptors, processes and the dispatcher, over the scheduler, the heap,
    the virtual file system, IPC, the kernel log and the ELF loader.  Arguments
    are the integers of the registers; pointers lead into the one address space
    of the kernel ([h_mem]).  Error constants are negative and most calls return
    their negation, as the code does.  A call that may give up the processor is a
    [proc].  [thread_clone_and_switch] is assembly outside this tree: it calls
    [copy_kernel_stack] with the stack pointer of the parent, a parameter here,
    and continues as the child. *)

From stdpp Require Import base tactics numbers option strings list.
From S2P Require Import Prelude Proc Telemetry CMem Dmesg Alloc Timer Caps Sched Ipc Vfs BlockDev Elf.

Module Syscall.
Import Telemetry Dmesg Alloc Timer Caps Sched Ipc Vfs Elf.

(** ** Model *)

Definition PERM_SYS_REBOOT : Z := 1.
Definition PERM_VFS_CAP_ONLY : Z := 32.

Definition O_WRONLY : Z := 1.
Definition O_RDWR : Z := 2.
Definition O_CREAT : Z := 64.
Definition O_EXCL : Z := 128.
Definition O_TRUNC : Z := 512.
Definition O_APPEND : Z := 1024.

Definition S_IFREG : Z := 32768.
Definition S_IFDIR : Z := 16384.

(** What is sent to the console. *)
Inductive console_out := ConChar (c : Z) | ConStr (s : string) | ConU32 (v : Z).

(** [flags & mask] as a condition. *)
Definition has_flag (flags mask : Z) : bool := negb (Z.land flags mask =? 0).

(** *** Changes of a thread *)

Definition with_heap_bounds (base limit end_ : Z) (t : thread) : thread :=
  mk_thread (id t) (state t) (priority t) (acct t) (stack_base t) (stack_top t) (rsp t) (next t)
    (prev t) (entry t) (arg t) (name t) (fd_table t) end_ base limit (parent t)
    (cwd t) (elf_base t) (elf_size t) (saved_elf_data t) (exit_code t) (permissions t)
    (language_state t).
Definition with_elf (base size saved : Z) (t : thread) : thread :=
  mk_thread (id t) (state t) (priority t) (acct t) (stack_base t) (stack_top t) (rsp t) (next t)
    (prev t) (entry t) (arg t) (name t) (fd_table t) (heap_end t) (heap_start t) (heap_limit t) (parent t)
    (cwd t) base size saved (exit_code t) (permissions t) (language_state t).
Definition with_rsp (x : Z) (t : thread) : thread :=
  mk_thread (id t) (state t) (priority t) (acct t) (stack_base t) (stack_top t) x (next t)
    (prev t) (entry t) (arg t) (name t) (fd_table t) (heap_end t) (heap_start t) (heap_limit t) (parent t)
    (cwd t) (elf_base t) (elf_size t) (saved_elf_data t) (exit_code t) (permissions t)
    (language_state t).

Definition with_valid (x : Z) (f : fd_entry) : fd_entry := mk_fd x (vfs_handle f) (fd_path f) (fd_flags f) (fd_offset f).
Definition with_offset (x : Z) (f : fd_entry) : fd_entry := mk_fd (fd_valid f) (vfs_handle f) (fd_path f) (fd_flags f) x.

(** *** Memory of the caller *)

(** The string at [a], at most [n] characters of it: [safe_strnlen] is its length. *)
Fixpoint c_str (n : nat) (m : mem) (a : Z) : list Z :=
  match n with
  | O => []
  | S k => if m a =? 0 then [] else m a :: c_str k m (a + 1)
  end.

Definition safe_strnlen (a maxlen : Z) (m : mem) : Z := if a =? 0 then 0 else zlen (c_str (Z.to_nat maxlen) m a).

Definition read_bytes (m : mem) (a n : Z) : list Z := (fun i => m (a + i)) <$> seqZ 0 n.
Definition store_bytes (m : mem) (a : Z) (l : list Z) : mem := fun x => if in_block a (zlen l) x then byte_at l (x - a) else m x.

(** *** Capabilities for paths *)

Definition cap_admits (c : capability) (p : list Z) (required_right : Z) : bool :=
  ipc_cap_is_valid c && (bool_decide (object_type c = IPC_OBJ_DIR) || bool_decide (object_type c = IPC_OBJ_FILE)) &&
  negb (Z.land (rights c) required_right =? 0) && bool_decide (take (length (path c)) p = path c) &&
  (if bool_decide (object_type c = IPC_OBJ_DIR) then
     match p !! length (path c) with None => true | Some x => x =? SLASH end || bool_decide (path c = [SLASH])
   else bool_decide (p = path c)).

Fixpoint has_cap_from (n : nat) (i : Z) (p : list Z) (required_right : Z) (tab : table) : outcome bool :=
  match n with
  | O => Ret false
  | S k => c ← rd (caps tab) i; if cap_admits c p required_right then Ret true else has_cap_from k (i + 1) p required_right tab
  end.

Definition task_has_vfs_cap (t : option Z) (p : list Z) (required_right : Z) (s : kstate) : outcome bool :=
  match t with
  | None => Ret false
  | Some i =>
      th ← rd (g_tasks s) i;
      if negb (has_flag (permissions th) PERM_VFS_CAP_ONLY) then Ret true
      else
        tab ← task_ipc_cap_table (id th) (g_thread_ipc_ext s);
        has_cap_from (Z.to_nat IPC_CAP_MAX_PER_TASK) 0 p required_right tab
  end.

Section syscall.
Context {W : Type} (br : bridge W).
Context (arch : timer_arch) (hw : nat -> hw_regs).
Context (heap_base stack_bottom sched_trampoline : Z).
(** What the local variables hold before they are filled. *)
Context (st0 : vfs_stat_t) (es0 : list dir_entry).

Record sstate := mk_s {
  s_i : istate;
  s_v : vstate W;
  s_log : dmesg;
  s_console : list console_out
}.
Implicit Types s : sstate.

(** The kernel state is in the IPC state; the file system gets it for each call. *)
Definition s_k s : kstate := i_k (s_i s).
Definition with_s_i (x : istate) s : sstate := mk_s x (s_v s) (s_log s) (s_console s).
Definition with_s_k (x : kstate) s : sstate := with_s_i (with_i_k x (s_i s)) s.
Definition with_s_v (x : vstate W) s : sstate := mk_s (s_i s) x (s_log s) (s_console s).
Definition with_s_log (x : dmesg) s : sstate := mk_s (s_i s) (s_v s) x (s_console s).
Definition console (l : list console_out) s : sstate := mk_s (s_i s) (s_v s) (s_log s) (s_console s ++ l).

Definition umem s : mem := h_mem (k_heap (s_k s)).
Definition with_heap (h : heap) s : sstate := with_s_k (with_k_heap h (s_k s)) s.
Definition with_umem (m : mem) s : sstate := with_heap (with_mem m (k_heap (s_k s))) s.

Definition run_vfs {A} (op : vstate W -> outcome (A * vstate W)) s : outcome (A * sstate) :=
  '(a, v) ← op (with_v_k (s_k s) (s_v s)); Ret (a, with_s_k (v_k v) (with_s_v v s)).

Definition current s : outcome (option Z * sstate) :=
  '(t, k) ← sched_current_thread stack_bottom (s_k s); Ret (t, with_s_k k s).

Definition get_thread (t : Z) s : outcome thread := rd (g_tasks (s_k s)) t.
Definition set_thread (t : Z) (th : thread) s : outcome sstate :=
  ts ← wr (g_tasks (s_k s)) t th; Ret (with_s_k (with_g_tasks ts (s_k s)) s).
Definition upd_thread (t : Z) (f : thread -> thread) s : outcome sstate :=
  th ← get_thread t s; set_thread t (f th) s.

(** [!t || fd < 0 || fd >= MAX_FD || !t->fd_table[fd].valid]: the thread and its
    entry when none holds. *)
Definition get_fd (t : option Z) (fd : Z) s : outcome (option (Z * fd_entry)) :=
  match t with
  | None => Ret None
  | Some i =>
      if (fd <? 0) || (MAX_FD <=? fd) then Ret None
      else
        th ← get_thread i s;
        f ← rd (fd_table th) fd;
        Ret (if fd_valid f =? 0 then None else Some (i, f))
  end.

Definition set_fd (t fd : Z) (f : fd_entry) s : outcome sstate :=
  th ← get_thread t s;
  fds ← wr (fd_table th) fd f;
  set_thread t (with_fd_table fds th) s.

(** [dmesg_log] of a message of one line, which reads the clock once. *)
Definition log (msg : list Z) s : outcome sstate :=
  '(cs, t) ← timer_elapsed_centiseconds arch hw (k_timer (s_k s));
  d ← dmesg_log (fun _ => cs) (Some msg) (s_log s);
  Ret (with_s_log d (with_s_k (with_k_timer t (s_k s)) s)).

Definition ascii_codes (x : string) : list Z := (fun a => Z.of_N (Ascii.N_of_ascii a)) <$> String.list_ascii_of_string x.

(** [if (!task_has_vfs_cap(...)) { dmesg_log(...); return -VFS_EACCES; }] before [k]. *)
Definition guarded (t : option Z) (p : list Z) (right : Z) (msg : string) (k : sstate -> outcome (Z * sstate)) s : outcome (Z * sstate) :=
  ok ← task_has_vfs_cap t p right (s_k s);
  if (ok : bool) then k s else s1 ← log (ascii_codes msg) s; Ret (- VFS_EACCES, s1).

(** [!path || safe_strnlen(path, 1024) >= VFS_MAX_PATH], else the path. *)
Definition path_arg (a : Z) s : option (list Z) :=
  if (a =? 0) || (VFS_MAX_PATH <=? safe_strnlen a 1024 (umem s)) then None else Some (c_str 1024 (umem s) a).

(** *** Files *)

Definition sys_write (fd buf count : Z) s0 : outcome (Z * sstate) :=
  '(t, s) ← current s0;
  if buf =? 0 then Ret (- VFS_EINVAL, s)
  else if (fd =? 1) || (fd =? 2) then Ret (s64 count, console (ConChar <$> read_bytes (umem s) buf count) s)
  else
    e ← get_fd t fd s;
    match e with
    | None => Ret (- VFS_EINVAL, s)
    | Some (i, f) =>
        guarded t (fd_path f) IPC_CAP_RIGHT_VFS_WRITE "SECURITY: Denied VFS write access (no capability)" (fun s =>
          '(ret, s1) ← run_vfs (vfs_write br stack_bottom (fd_path f) (u64 (fd_offset f)) (read_bytes (umem s) buf count)) s;
          if 0 <=? ret then s2 ← set_fd i fd (with_offset (s64 (fd_offset f + ret)) f) s1; Ret (ret, s2)
          else Ret (ret, s1)) s
    end.

Definition sys_read (fd buf count : Z) s0 : outcome (Z * sstate) :=
  '(t, s) ← current s0;
  if buf =? 0 then Ret (- VFS_EINVAL, s)
  else
    e ← get_fd t fd s;
    match e with
    | None => Ret (- VFS_EINVAL, s)
    | Some (i, f) =>
        if fd =? 0 then Ret (0, s)
        else
          guarded t (fd_path f) IPC_CAP_RIGHT_VFS_READ "SECURITY: Denied VFS read access (no capability)" (fun s =>
            '(ret, d, s1) ← run_vfs (vfs_read br stack_bottom (fd_path f) (u64 (fd_offset f)) count) s;
            let s2 := with_umem (store_bytes (umem s1) buf d) s1 in
            if 0 <=? ret then s3 ← set_fd i fd (with_offset (s64 (fd_offset f + ret)) f) s2; Ret (ret, s3)
            else Ret (ret, s2)) s
    end.

(** The first free descriptor from [i], [n] to look at. *)
Fixpoint free_fd (n : nat) (i : Z) (fds : list fd_entry) : outcome (option Z) :=
  match n with
  | O => Ret None
  | S k => f ← rd fds i; if fd_valid f =? 0 then Ret (Some i) else free_fd k (i + 1) fds
  end.

(** The lookup and creation of [sys_open]: an error, or the stat buffer. *)
Definition open_file (p : list Z) (flags : Z) s : outcome ((Z + vfs_stat_t) * sstate) :=
  '(r, st, s1) ← run_vfs (vfs_stat br p st0) s;
  if r <? 0 then
    if has_flag flags O_CREAT then
      '(ret, s2) ← run_vfs (vfs_create br p) s1;
      Ret (if ret <? 0 then inl ret else inr st, s2)
    else Ret (inl (- VFS_ENOENT), s1)
  else if has_flag flags O_CREAT && has_flag flags O_EXCL then Ret (inl (- VFS_EEXIST), s1)
  else if has_flag flags O_TRUNC && (st_type st =? VFS_FILE) then
    '(_, s2) ← run_vfs (vfs_create br p) s1; Ret (inr st, s2)
  else Ret (inr st, s1).

Definition required_right (flags : Z) : Z :=
  if has_flag flags (Z.lor O_WRONLY (Z.lor O_RDWR (Z.lor O_CREAT O_TRUNC))) then IPC_CAP_RIGHT_VFS_WRITE else IPC_CAP_RIGHT_VFS_READ.

Definition sys_open (path flags mode : Z) s0 : outcome (Z * sstate) :=
  '(t, s) ← current s0;
  match path_arg path s, t with
  | None, _ | _, None => Ret (- VFS_EINVAL, s)
  | Some p, Some i =>
      guarded t p (required_right flags) "SECURITY: Denied VFS open access (no capability)" (fun s =>
        '(r, s1) ← open_file p flags s;
        match r with
        | inl e => Ret (e, s1)
        | inr st =>
            th ← get_thread i s1;
            slot ← free_fd (Z.to_nat (MAX_FD - 3)) 3 (fd_table th);
            match slot with
            | None => Ret (- VFS_ENOSPC, s1)
            | Some fd =>
                f ← rd (fd_table th) fd;
                s2 ← set_fd i fd (mk_fd 1 (vfs_handle f) p flags (if has_flag flags O_APPEND then s64 (st_size st) else 0)) s1;
                Ret (fd, s2)
            end
        end) s
  end.

Definition sys_close (fd : Z) s0 : outcome (Z * sstate) :=
  '(t, s) ← current s0;
  e ← get_fd t fd s;
  match e with
  | None => Ret (- VFS_EINVAL, s)
  | Some (i, f) => s1 ← set_fd i fd (with_valid 0 f) s; Ret (0, s1)
  end.

Definition sys_lseek (fd offset whence : Z) s0 : outcome (Z * sstate) :=
  '(t, s) ← current s0;
  e ← get_fd t fd s;
  match e with
  | None => Ret (- VFS_EINVAL, s)
  | Some (i, f) =>
      let seek o s1 := s2 ← set_fd i fd (with_offset o f) s1; Ret (o, s2) in
      if whence =? 0 then seek offset s
      else if whence =? 1 then seek (s64 (fd_offset f + offset)) s
      else if whence =? 2 then
        '(r, st, s1) ← run_vfs (vfs_stat br (fd_path f) st0) s;
        if r =? 0 then seek (s64 (st_size st + offset)) s1 else Ret (- VFS_EIO, s1)
      else Ret (- VFS_EINVAL, s)
  end.

(** [struct stat] of the C library: its size, and offset and width of the two
    fields that are set. *)
Record stat_layout := mk_layout { sl_sizeof : Z; sl_size_at : Z; sl_size_width : nat; sl_mode_at : Z; sl_mode_width : nat }.

Definition sys_fstat (lay : stat_layout) (fd st : Z) s0 : outcome (Z * sstate) :=
  '(t, s) ← current s0;
  if st =? 0 then Ret (- VFS_EINVAL, s)
  else
    e ← get_fd t fd s;
    match e with
    | None => Ret (- VFS_EINVAL, s)
    | Some (_, f) =>
        '(r, vst, s1) ← run_vfs (vfs_stat br (fd_path f) st0) s;
        if r <? 0 then Ret (- VFS_EIO, s1)
        else
          let m1 := memset (umem s1) st 0 (sl_sizeof lay) in
          let m2 := store_le (sl_size_width lay) m1 (st + sl_size_at lay) (st_size vst) in
          let mode := if st_type vst =? VFS_DIRECTORY then Z.lor S_IFDIR 493 else Z.lor S_IFREG 420 in
          Ret (0, with_umem (store_le (sl_mode_width lay) m2 (st + sl_mode_at lay) mode) s1)
    end.

(** [sys_unlink] and [sys_mkdir]. *)
Definition path_op (op : list Z -> vstate W -> outcome (Z * vstate W)) (msg : string) (path : Z) s0 : outcome (Z * sstate) :=
  '(t, s) ← current s0;
  match path_arg path s with
  | None => Ret (- VFS_EINVAL, s)
  | Some p => guarded t p IPC_CAP_RIGHT_VFS_WRITE msg (run_vfs (op p)) s
  end.

Definition sys_unlink (path : Z) s : outcome (Z * sstate) :=
  path_op (vfs_unlink br) "SECURITY: Denied VFS unlink access (no capability)" path s.
Definition sys_mkdir (path mode : Z) s : outcome (Z * sstate) :=
  path_op (vfs_mkdir br) "SECURITY: Denied VFS mkdir access (no capability)" path s.

(** The record of an entry: 19 bytes of header, the name and its NUL, padded to 8. *)
Definition reclen (nm : list Z) : Z := Z.land (8 + 8 + 2 + 1 + zlen nm + 1 + 7) (-8).

Definition store_dirent (out i total_size : Z) (e : dir_entry) (m : mem) : mem :=
  let d := out + total_size in
  let m1 := store_le 8 m d (i + 1) in
  let m2 := store_le 8 m1 (d + 8) (total_size + reclen (de_name e)) in
  let m3 := store_le 2 m2 (d + 16) (reclen (de_name e)) in
  let m4 := store_le 1 m3 (d + 18) (if de_type e =? VFS_DIRECTORY then 4 else 8) in
  store_bytes m4 (d + 19) (de_name e ++ [0]).

(** The loop over the [n] entries from [i]; ends when one does not fit. *)
Fixpoint store_dirents (n : nat) (i out count total_size : Z) (es : list dir_entry) (m : mem) : outcome (Z * mem) :=
  match n with
  | O => Ret (total_size, m)
  | S k =>
      e ← rd es i;
      if count <? total_size + reclen (de_name e) then Ret (total_size, m)
      else store_dirents k (i + 1) out count (total_size + reclen (de_name e)) es (store_dirent out i total_size e m)
  end.

Definition sys_getdents64 (fd dirp count : Z) s0 : outcome (Z * sstate) :=
  '(t, s) ← current s0;
  if dirp =? 0 then Ret (- VFS_EINVAL, s)
  else
    e ← get_fd t fd s;
    match e with
    | None => Ret (- VFS_EINVAL, s)
    | Some (_, f) =>
        guarded t (fd_path f) IPC_CAP_RIGHT_VFS_READ "SECURITY: Denied VFS getdents64 access (no capability)" (fun s =>
          '(n, es, s1) ← run_vfs (vfs_readdir br (fd_path f) es0) s;
          if n <? 0 then Ret (n, s1)
          else
            '(total, m) ← store_dirents (Z.to_nat n) 0 dirp count 0 es (umem s1);
            Ret (total, with_umem m s1)) s
    end.

Definition sys_getcwd (buf size : Z) s0 : outcome (Z * sstate) :=
  '(t, s) ← current s0;
  if buf =? 0 then Ret (- VFS_EINVAL, s)
  else
    match t with
    | None => Ret (- VFS_EINVAL, s)
    | Some i =>
        th ← get_thread i s;
        if size <=? zlen (cwd th) then Ret (- VFS_ENOSPC, s)
        else Ret (buf, with_umem (store_bytes (umem s) buf (cwd th ++ [0])) s)
    end.

Definition sys_chdir (path : Z) s0 : outcome (Z * sstate) :=
  '(t, s) ← current s0;
  match path_arg path s, t with
  | None, _ | _, None => Ret (- VFS_EINVAL, s)
  | Some p, Some i =>
      guarded t p IPC_CAP_RIGHT_VFS_READ "SECURITY: Denied VFS chdir access (no capability)" (fun s =>
        '(r, st, s1) ← run_vfs (vfs_stat br p st0) s;
        if r <? 0 then Ret (- VFS_ENOENT, s1)
        else if negb (st_type st =? VFS_DIRECTORY) then Ret (- VFS_ENOTDIR, s1)
        else s2 ← upd_thread i (with_cwd (take 255 p)) s1; Ret (0, s2)) s
  end.

Definition sys_dup2 (oldfd newfd : Z) s0 : outcome (Z * sstate) :=
  '(t, s) ← current s0;
  e ← get_fd t oldfd s;
  match e with
  | None => Ret (- VFS_EINVAL, s)
  | Some (i, f) =>
      if (newfd <? 0) || (MAX_FD <=? newfd) then Ret (- VFS_EINVAL, s)
      else s1 ← set_fd i newfd f s; Ret (newfd, s1)
  end.

(** *** Time and memory *)

Definition sys_gettimeofday (tv : Z) s : outcome (Z * sstate) :=
  if tv =? 0 then Ret (- VFS_EINVAL, s)
  else
    let m1 := store64 (umem s) tv (timer_seconds (k_timer (s_k s))) in
    Ret (0, with_umem (store64 m1 (tv + 8) (timer_ticks (k_timer (s_k s)) mod 100 * 10000)) s).

(** Kernel routines that may switch. *)
Definition on_sched {A} (m : kstate -> proc kstate A) s : proc sstate A := pzoom s_k with_s_k (m (s_k s)) s.

Definition sys_nanosleep (n fuel : nat) (req : Z) s : proc sstate Z :=
  if req =? 0 then PDone (- VFS_EINVAL) s
  else
    let tv_sec := s64 (load64 (umem s) req) in
    let tv_nsec := s64 (load64 (umem s) (req + 8)) in
    let ms := u32 (tv_sec * 1000 + Z.quot tv_nsec 1000000) in
    pbind (on_sched (timer_delay_ms arch hw stack_bottom n fuel ms) s) (fun _ s1 => PDone 0 s1).

Definition sys_times (buf : Z) s : outcome (Z * sstate) :=
  if buf =? 0 then Ret (- VFS_EINVAL, s)
  else
    let ticks := timer_ticks (k_timer (s_k s)) in
    Ret (s64 ticks, with_umem (store64 (memset (umem s) buf 0 32) buf ticks) s).

Definition sys_brk (addr : Z) s0 : outcome (Z * sstate) :=
  '(t, s) ← current s0;
  match t with
  | None => Ret (-1, s)
  | Some i =>
      th ← get_thread i s;
      if addr =? 0 then Ret (s64 (heap_end th), s)
      else if (addr <? heap_start th) || (heap_limit th <? addr) then Ret (VFS_EINVAL, s)
      else s1 ← set_thread i (with_heap_end addr th) s; Ret (s64 addr, s1)
  end.

(** *** Processes *)

Definition copy_kernel_stack (par child parent_sp is_parent_offset : Z) s : outcome (Z * sstate) :=
  p ← get_thread par s;
  c ← get_thread child s;
  let m1 := memcpy (umem s) (stack_base c) (stack_base p) (u64 (stack_top p - stack_base p)) in
  let child_sp := u64 (stack_base c + u64 (parent_sp - stack_base p)) in
  s1 ← set_thread child (with_rsp child_sp c) (with_umem m1 s);
  s2 ← upd_thread par (with_rsp parent_sp) s1;
  Ret (child_sp, with_umem (store32 (umem s2) (u64 (stack_base c + is_parent_offset)) 0) s2).

(** The child of [parent]: descriptors and heap bounds copied, the parent
    blocked, the child current and running. *)
Definition vfork_setup (s0 : sstate) : outcome (option (Z * Z) * sstate) :=
  '(t, s) ← current s0;
  match t with
  | None => Fault
  | Some par =>
      p ← get_thread par s;
      '(c, k1) ← sched_create_thread arch heap_base stack_bottom sched_trampoline (ascii_codes "vfork_child") 0 0 (priority p) (s_k s);
      let s1 := with_s_k k1 s in
      match c with
      | None => Ret (None, s1)
      | Some child =>
          s2 ← upd_thread child (fun th =>
            with_heap_bounds (heap_start p) (heap_limit p) (heap_end p) (with_fd_table (fd_table p) (with_parent (Some par) th))) s1;
          s3 ← upd_thread par (with_state THREAD_STATE_BLOCKED) s2;
          s4 ← upd_thread child (with_state THREAD_STATE_RUNNING) (with_s_k (with_g_current_task (Some child) (s_k s3)) s3);
          Ret (Some (par, child), s4)
      end
  end.

(** The parent's run of [sys_vfork]: the processor goes to the child; when the
    parent is resumed it returns the child's id.  [parent_sp] and the address of
    [is_parent] are on the parent's stack. *)
Definition sys_vfork (parent_sp is_parent_addr : Z) s0 : proc sstate Z :=
  match vfork_setup s0 with
  | Ret (None, s1) => PDone (- VFS_ENOSPC) s1
  | Ret (Some (par, child), s1) =>
      match (p ← get_thread par s1; copy_kernel_stack par child parent_sp (u64 (is_parent_addr - stack_base p)) s1) with
      | Ret (_, s2) =>
          PSwitch par child s2 (fun s3 =>
            plift (c ← get_thread child s3;
                   Ret (id c, console [ConStr "[sys_vfork] Returning to parent. child id="; ConU32 (id c); ConStr "
"] s3)))
      | Fault => PFault
      | OutOfFuel => PFuel
      end
  | Fault => PFault
  | OutOfFuel => PFuel
  end.

(** The child's return from [sys_vfork], on its copy of the stack. *)
Definition vfork_child_return s : Z * sstate := (0, console [ConStr "[sys_vfork] Returning to child.
"] s).

(** One round of [sys_waitpid]: a result, or the state in which the parent waits. *)
Definition wait_round (pid status : Z) (par : option Z) s : outcome (option Z * sstate) :=
  c ← sched_get_thread_by_id (u32 pid) (s_k s);
  match c with
  | None => Ret (Some (- VFS_EINVAL), s)
  | Some child =>
      th ← get_thread child s;
      if bool_decide (state th = THREAD_STATE_TERMINATED) then
        let s1 := if status =? 0 then s else with_umem (store32 (umem s) status (exit_code th)) s in
        i2 ← sched_ipc_cleanup_thread heap_base stack_bottom child (s_i s1);
        s3 ← upd_thread child (with_state THREAD_STATE_UNUSED) (with_s_i i2 s1);
        Ret (Some pid, s3)
      else
        match par with
        | None => Fault
        | Some p => s1 ← upd_thread p (with_state THREAD_STATE_BLOCKED) s; Ret (None, s1)
        end
  end.

Fixpoint wait_loop (n fuel : nat) (pid status : Z) (par : option Z) s : proc sstate Z :=
  match wait_round pid status par s with
  | Ret (Some r, s1) => PDone r s1
  | Ret (None, s1) =>
      match n with
      | O => PFuel
      | S k => pbind (on_sched (sched_schedule arch hw stack_bottom fuel) s1) (fun _ s2 => wait_loop k fuel pid status par s2)
      end
  | Fault => PFault
  | OutOfFuel => PFuel
  end.

Definition sys_waitpid (n fuel : nat) (pid status : Z) s0 : proc sstate Z :=
  pbind (plift (current s0)) (fun par s => wait_loop n fuel pid status par s).

(** What [sys_exit] does before [sched_exit]. *)
Definition exit_restore (code : Z) s0 : outcome (unit * sstate) :=
  '(t, s) ← current s0;
  match t with
  | None => Fault
  | Some i =>
      th ← get_thread i s;
      s1 ← set_thread i (with_exit_code code th) s;
      match parent th with
      | None => Ret (tt, s1)
      | Some p =>
          pt ← get_thread p s1;
          if saved_elf_data pt =? 0 then Ret (tt, s1)
          else
            let s2 := with_umem (memcpy (umem s1) (elf_base pt) (saved_elf_data pt) (elf_size pt)) s1 in
            e ← k_env (s_k s2);
            h ← sage_free heap_base e (saved_elf_data pt) (k_heap (s_k s2));
            s3 ← upd_thread p (fun th => with_elf (elf_base th) (elf_size th) 0 th) (with_heap h s2);
            Ret (tt, s3)
      end
  end.

Definition sys_exit (fuel : nat) (code : Z) s : proc sstate unit :=
  pbind (plift (exit_restore code s)) (fun _ s1 => on_sched (sched_exit arch hw stack_bottom fuel) s1).

(** [power_reboot] and [power_shutdown] halt. *)
Definition power (denied : string) (msg : string) s0 : proc sstate Z :=
  pbind (plift (
    '(t, s) ← current s0;
    ok ← match t with None => Ret false | Some i => th ← get_thread i s; Ret (has_flag (permissions th) PERM_SYS_REBOOT) end;
    if (ok : bool) then Ret (true, s) else s1 ← log (ascii_codes denied) s; Ret (false, s1)))
    (fun ok s1 => if (ok : bool) then PHalt (console [ConStr msg] s1) else PDone (- VFS_EACCES) s1).

Definition sys_reboot s : proc sstate Z :=
  power "SECURITY: Denied reboot request from task (no PERM_SYS_REBOOT)" "Rebooting...
" s.
Definition sys_shutdown s : proc sstate Z :=
  power "SECURITY: Denied shutdown request from task (no PERM_SYS_REBOOT)" "Shutting down...
" s.

(** *** sys_execve *)

(** The string at [a], which ends within [f] characters. *)
Fixpoint get_str (f : nat) (m : mem) (a : Z) : outcome (list Z) :=
  match f with
  | O => OutOfFuel
  | S k => if m a =? 0 then Ret [] else r ← get_str k m (a + 1); Ret (m a :: r)
  end.

(** The parent's image is saved before the first [execve] of a [vfork] child. *)
Definition save_parent (t : option Z) s : outcome sstate :=
  match t with
  | None => Ret s
  | Some i =>
      th ← get_thread i s;
      match parent th with
      | None => Ret s
      | Some p =>
          pt ← get_thread p s;
          if (0 <? elf_size pt) && (saved_elf_data pt =? 0) then
            e ← k_env (s_k s);
            '(a, h) ← sage_malloc heap_base e (elf_size pt) (k_heap (s_k s));
            let s1 := with_heap h s in
            s2 ← upd_thread p (with_elf (elf_base pt) (elf_size pt) a) s1;
            Ret (if a =? 0 then s2 else with_umem (memcpy (umem s2) a (elf_base pt) (elf_size pt)) s2)
          else Ret s
      end
  end.

(** The record of the new image: the span of its segments and an empty heap above it. *)
Definition record_span (t : option Z) (buffer size : Z) s : outcome sstate :=
  match t with
  | None => Ret s
  | Some i =>
      eh ← get_ehdr buffer size (umem s);
      '(lo, hi) ← elf_span buffer size phnum_fuel (e_phnum eh) (e_phoff eh) 0 (umem s) (2 ^ 64 - 1) 0;
      let base := Z.land (u64 (hi + 4095)) (2 ^ 64 - 4096) in
      upd_thread i (fun th => with_heap_bounds base (u64 (base + 64 * 1024 * 1024)) base
        (with_elf lo (u64 (hi - lo)) (saved_elf_data th) th)) s
  end.

(** A return value, or the program that runs next on the thread. *)
Inductive exec_result := ExecRet (r : Z) | ExecJump (ent sp : Z).

Definition sys_execve (fuel : nat) (path argv envp : Z) s : outcome (exec_result * sstate) :=
  p ← get_str fuel (umem s) path;
  '(r, st, s1) ← run_vfs (vfs_stat br p st0) s;
  if r <? 0 then Ret (ExecRet (- VFS_ENOENT), s1)
  else
    e ← k_env (s_k s1);
    '(buffer, h) ← sage_malloc heap_base e (st_size st) (k_heap (s_k s1));
    let s2 := with_heap h s1 in
    if buffer =? 0 then Ret (ExecRet (- VFS_ENOSPC), s2)
    else
      '(n, d, s3) ← run_vfs (vfs_read br stack_bottom p 0 (st_size st)) s2;
      s4 ← (if mapped heap_base buffer (zlen d) then Ret (with_umem (store_bytes (umem s3) buffer d) s3) else Fault);
      let free s := e1 ← k_env (s_k s); h1 ← sage_free heap_base e1 buffer (k_heap (s_k s)); Ret (with_heap h1 s) in
      if negb (n =? s32 (st_size st)) then s5 ← free s4; Ret (ExecRet (- VFS_EIO), s5)
      else
        '(t, s5) ← current s4;
        s6 ← save_parent t s5;
        s7 ← record_span t buffer (st_size st) s6;
        e2 ← k_env (s_k s7);
        '(x, h2) ← elf_exec heap_base fuel arch e2 buffer (st_size st) argv envp (k_heap (s_k s7));
        let s8 := with_heap h2 s7 in
        match x with
        | Some (ent, sp) => Ret (ExecJump ent sp, s8)
        | None => s9 ← free s8; Ret (ExecRet (-1), s9)
        end.

(** ** The dispatcher *)

(** The value returned, with what an IPC call writes through its pointers, or the
    program that starts. *)
Inductive sysret := SysRet (r : Z) (out : ipc_out) | SysJump (ent sp : Z).

Definition returns (m : outcome (Z * sstate)) : proc sstate sysret := plift ('(r, s) ← m; Ret (SysRet r OutNone, s)).
Definition preturns (m : proc sstate Z) : proc sstate sysret := pbind m (fun r s => PDone (SysRet r OutNone) s).

(** The numbers passed on to [ipc_syscall_dispatch]. *)
Definition is_ipc (num : Z) : bool :=
  bool_decide (num ∈ [200; 201; 202; 203; 210; 211; 212; 213; 214; 220; 221; 222; 223; 224; 225; 226; 227; 228;
                      230; 231; 232; 240; 241; 242; 243; 244]).

(** Where a call of [sys_vfork] is on the stack, and how IPC messages are laid
    out in memory. *)
Context (lay : stat_layout) (parent_sp is_parent_addr : Z) (msg_at : mem -> Z -> ipc_msg) (str_at : mem -> Z -> list Z).

Definition syscall_dispatch (n fuel : nat) (num a1 a2 a3 : Z) s0 : proc sstate sysret :=
  pbind (plift ('(t, s1) ← current s0;
                k ← k_trace_log stack_bottom TRACE_SYSCALL_ENTER (u64 num) (u64 a1) (s_k s1);
                Ret (t, with_s_k k s1)))
  (fun t s =>
    let fd := s32 a1 in
    let p1 := u64 a1 in let p2 := u64 a2 in let p3 := u64 a3 in
    if num =? 0 then returns (sys_read fd p2 p3 s)
    else if num =? 1 then returns (sys_write fd p2 p3 s)
    else if num =? 2 then returns (sys_open p1 (s32 a2) (s32 a3) s)
    else if num =? 3 then returns (sys_close fd s)
    else if num =? 5 then returns (sys_fstat lay fd p2 s)
    else if num =? 8 then returns (sys_lseek fd (s64 a2) (s32 a3) s)
    else if num =? 12 then returns (sys_brk p1 s)
    else if num =? 58 then preturns (sys_vfork parent_sp is_parent_addr s)
    else if num =? 59 then
      plift ('(x, s1) ← sys_execve fuel p1 p2 p3 s;
             Ret (match x with ExecRet r => SysRet r OutNone | ExecJump ent sp => SysJump ent sp end, s1))
    else if num =? 61 then preturns (sys_waitpid n fuel (s32 a1) p2 s)
    else if num =? 87 then returns (sys_unlink p1 s)
    else if num =? 217 then returns (sys_getdents64 fd p2 p3 s)
    else if num =? 79 then returns (sys_getcwd p1 p2 s)
    else if num =? 80 then returns (sys_chdir p1 s)
    else if num =? 33 then returns (sys_dup2 fd (s32 a2) s)
    else if num =? 83 then returns (sys_mkdir p1 (s32 a2) s)
    else if num =? 96 then returns (sys_gettimeofday p1 s)
    else if num =? 35 then preturns (sys_nanosleep n fuel p1 s)
    else if num =? 101 then returns (sys_times p1 s)
    else if num =? 169 then preturns (sys_reboot s)
    else if num =? 170 then preturns (sys_shutdown s)
    else if num =? 60 then preturns (pbind (sys_exit fuel (s32 a1) s) (fun _ s1 => PDone 0 s1))
    else if num =? 39 then
      returns (match t with None => Ret (1, s) | Some i => th ← get_thread i s; Ret (id th, s) end)
    else if num =? 62 then returns (Ret (- VFS_EINVAL, s))
    else if num =? 100 then returns (Ret (if (0 <=? a1) && (a1 <=? 2) then 1 else 0, s))
    else if is_ipc num then
      pbind (pzoom s_i with_s_i (ipc_syscall_dispatch arch hw heap_base stack_bottom n fuel (msg_at (umem s)) (str_at (umem s)) num a1 a2 a3 (s_i s)) s)
        (fun '(r, o) s1 => PDone (SysRet r o) s1)
    else returns (Ret (- VFS_EINVAL, s))).
End syscall.
End Syscall.
