(* ===== verification/SyscallSpec.v ===== *)
(** * Correctness of the system calls

    The descriptor table of a thread as a map, kept by [sys_open], [sys_close],
    [sys_dup2] and [sys_lseek]; what a thread confined to path capabilities is
    refused; and two ways it gets around the confinement. *)

From stdpp Require Import base tactics numbers option strings list.
From S2P Require Import Prelude Proc Telemetry CMem Dmesg Alloc Timer Caps Sched SchedSpec Ipc Vfs VfsSpec BlockDev Elf Syscall.

Module SyscallSpec.
Import Telemetry Dmesg Alloc Timer Caps Sched Ipc Vfs Elf Syscall.

(** ** The file system leaves the kernel state alone *)

Section vfs.
Context {W : Type} (br : bridge W).
Implicit Types s : vstate W.

(** Every result of a computation satisfies [P]. *)
Definition all {A} (m : outcome A) (P : A -> Prop) : Prop := forall a, m = Ret a -> P a.

Lemma all_bind {A B} (m : outcome A) (f : A -> outcome B) (Q : A -> Prop) P :
  all m Q -> (forall a, Q a -> all (f a) P) -> all (m ≫= f) P.
Proof. intros Hm Hf b Hb. apply bind_Ret_inv in Hb as (a & Ha & Hb). eapply Hf; eauto. Qed.

Lemma all_Ret {A} (a : A) (P : A -> Prop) : P a -> all (Ret a) P.
Proof. by intros H b [= <-]. Qed.

Lemma all_any {A} (m : outcome A) : all m (fun _ => True).
Proof. done. Qed.

Lemma simple_op_k op bop p s : all (simple_op op bop p s) (fun '(_, s') => v_k s' = v_k s).
Proof.
  unfold simple_op. eapply all_bind; [apply all_any|]. intros norm _. eapply all_bind; [apply all_any|]. intros r _.
  eapply (all_bind _ _ (fun '(_, s1) => v_k s1 = v_k s)).
  { destruct (bound op r); [|by apply all_Ret]. eapply all_bind; [apply all_any|]. intros [res w] _. by apply all_Ret. }
  intros [ok s1] H1. destruct ok; [by apply all_Ret|].
  eapply (all_bind _ _ (fun '(_, s2) => v_k s2 = v_k s)).
  { destruct (bridge_ready s1); [|by apply all_Ret]. eapply all_bind; [apply all_any|]. intros [rep w] _. by apply all_Ret. }
  intros [ok2 s2] H2.
  destruct ok2; [by apply all_Ret|]. destruct (bound op r); [|by apply all_Ret].
  eapply all_bind; [apply all_any|]. intros [res w] _. by apply all_Ret.
Qed.

Lemma vfs_stat_k p out s : all (vfs_stat br p out s) (fun '(_, _, s') => v_k s' = v_k s).
Proof.
  unfold vfs_stat. eapply all_bind; [apply all_any|]. intros norm _. eapply all_bind; [apply all_any|]. intros r _.
  eapply (all_bind _ _ (fun '(_, _, s1) => v_k s1 = v_k s)).
  { destruct (bound be_stat r); [|by apply all_Ret]. eapply all_bind; [apply all_any|]. intros [[? ?] ?] _. by apply all_Ret. }
  intros [[ok o1] s1] H1. destruct ok; [by apply all_Ret|].
  eapply (all_bind _ _ (fun '(_, _, s2) => v_k s2 = v_k s)).
  { destruct (bridge_ready s1); [|by apply all_Ret]. eapply all_bind; [apply all_any|]. intros [rep w] _. destruct (store_stat _ _). by apply all_Ret. }
  intros [[ok2 o2] s2] H2.
  destruct ok2; [by apply all_Ret|]. destruct (bound be_stat r); [|by apply all_Ret].
  eapply all_bind; [apply all_any|]. intros [[? ?] ?] _. by apply all_Ret.
Qed.
End vfs.

(** ** Descriptors *)

(** An open file: path, flags and offset. *)
Definition fdesc : Type := list Z * Z * Z.

Definition fd_view (fds : list fd_entry) (fd : Z) : option fdesc :=
  match fds.[fd] with
  | Some f => if fd_valid f =? 0 then None else Some (fd_path f, fd_flags f, fd_offset f)
  | None => None
  end.

(** [v] with [fd] bound to [d]. *)
Definition set (v : Z -> option fdesc) (fd : Z) (d : option fdesc) : Z -> option fdesc := fun x => if x =? fd then d else v x.

Inductive fd_op :=
| FdOpen (path flags mode : Z)
| FdClose (fd : Z)
| FdDup2 (oldfd newfd : Z)
| FdSeek (fd offset whence : Z).

Section descriptors.
Context {W : Type} (br : bridge W) (arch : timer_arch) (hw : nat -> hw_regs) (stack_bottom : Z) (st0 : vfs_stat_t).
Implicit Types s : sstate (W := W).

Definition run_fd (op : fd_op) s : outcome (Z * sstate) :=
  match op with
  | FdOpen path flags mode => sys_open br arch hw stack_bottom st0 path flags mode s
  | FdClose fd => sys_close stack_bottom fd s
  | FdDup2 oldfd newfd => sys_dup2 stack_bottom oldfd newfd s
  | FdSeek fd offset whence => sys_lseek br stack_bottom st0 fd offset whence s
  end.

(** What an operation returns in state [s] and makes of the map [v]. *)
Definition fd_step s (op : fd_op) (v : Z -> option fdesc) (r : Z) (v' : Z -> option fdesc) : Prop :=
  match op with
  | FdClose fd => match v fd with Some _ => r = 0 /\ v' = set v fd None | None => r = 22 /\ v' = v end
  | FdDup2 old new =>
      match v old with
      | Some d => if (new <? 0) || (MAX_FD <=? new) then r = 22 /\ v' = v else r = new /\ v' = set v new (Some d)
      | None => r = 22 /\ v' = v
      end
  | FdSeek fd offset whence =>
      match v fd with
      | Some (q, fl, o) =>
          let moved n := r = n /\ v' = set v fd (Some (q, fl, n)) in
          if whence =? 0 then moved offset
          else if whence =? 1 then moved (s64 (o + offset))
          else if whence =? 2 then
            exists rc st s1, run_vfs (vfs_stat br q st0) s = Ret (rc, st, s1) /\
              if rc =? 0 then moved (s64 (st_size st + offset)) else r = 5 /\ v' = v
          else r = 22 /\ v' = v
      | None => r = 22 /\ v' = v
      end
  | FdOpen path flags _ =>
      match path_arg path s with
      | None => r = 22 /\ v' = v
      | Some q =>
          exists res s1, open_file br st0 q flags s = Ret (res, s1) /\
            match res with
            | inl e => r = e /\ v' = v
            | inr st =>
                (r = 28 /\ v' = v /\ forall x, 3 <= x < MAX_FD -> v x <> None) \/
                (3 <= r < MAX_FD /\ v r = None /\ (forall x, 3 <= x < r -> v x <> None) /\
                 v' = set v r (Some (q, flags, if has_flag flags O_APPEND then s64 (st_size st) else 0)))
            end
      end
  end.

(** Thread [i] runs, unconfined, with the table [fds], which is the map [v]; the
    rest of it is as in [th] and the other threads are as in [ts]. *)
Definition fd_rel (i : Z) (th : thread) (ts : list thread) s (v : Z -> option fdesc) : Prop :=
  g_sched_inited (s_k s) <> 0 /\ g_current_task (s_k s) = Some i /\ 0 <= i < zlen ts /\
  has_flag (permissions th) PERM_VFS_CAP_ONLY = false /\
  exists fds, zlen fds = MAX_FD /\ g_tasks (s_k s) = ts.[i <- with_fd_table fds th] /\ forall x, fd_view fds x = v x.

Lemma current_ok s i : g_sched_inited (s_k s) <> 0 -> g_current_task (s_k s) = Some i -> current stack_bottom s = Ret (Some i, s).
Proof.
  intros Hi Hc. unfold current, sched_current_thread. destruct (Z.eqb_spec (g_sched_inited (s_k s)) 0); [done|]. cbn [mbind outcome_bind].
  rewrite Hc. destruct s as [[] ? ? ?]. done.
Qed.

Lemma get_thread_ok s i th ts : g_tasks (s_k s) = ts.[i <- th] -> 0 <= i < zlen ts -> get_thread i s = Ret th.
Proof. intros H Hi. unfold get_thread, rd. by rewrite H, zget_zset_eq. Qed.

Lemma fd_view_range fds x d : fd_view fds x = Some d -> 0 <= x < zlen fds.
Proof. unfold fd_view. destruct (fds.[x]) eqn:E; [|done]. intros _. by eapply zget_Some_bound. Qed.

Lemma fd_view_set fds fd f x : 0 <= fd < zlen fds ->
  fd_view (fds.[fd <- f]) x = set (fd_view fds) fd (if fd_valid f =? 0 then None else Some (fd_path f, fd_flags f, fd_offset f)) x.
Proof.
  intros H. unfold fd_view, set. destruct (Z.eqb_spec x fd) as [->|Hne]; [by rewrite zget_zset_eq|]. by rewrite zget_zset_ne.
Qed.

(** The guard on a descriptor finds its entry exactly when the map has it. *)
Lemma get_fd_ok i th ts s v fd : fd_rel i th ts s v ->
  exists e, get_fd (Some i) fd s = Ret e /\
    match e with
    | None => v fd = None
    | Some (j, f) => j = i /\ 0 <= fd < MAX_FD /\ fd_valid f <> 0 /\ v fd = Some (fd_path f, fd_flags f, fd_offset f)
    end.
Proof.
  intros (_ & _ & Hi & _ & fds & Hlen & Hts & Hv). unfold get_fd. destruct ((fd <? 0) || (MAX_FD <=? fd)) eqn:E.
  - exists None. split; [done|]. rewrite <- Hv. unfold fd_view. rewrite zget_out; [done|].
    apply orb_true_iff in E as [E|E]; [apply Z.ltb_lt in E|apply Z.leb_le in E]; lia.
  - bool_to_prop. rewrite (get_thread_ok _ _ _ _ Hts Hi). cbn [mbind outcome_bind fd_table with_fd_table].
    destruct (zget_in_range fds fd) as (f & Hf); [lia|]. unfold rd. rewrite Hf. cbn [mbind outcome_bind].
    specialize (Hv fd). unfold fd_view in Hv. rewrite Hf in Hv. eexists. split; [done|].
    destruct (Z.eqb_spec (fd_valid f) 0); [done|]. split_and!; [done|lia|lia|done|done].
Qed.

(** Storing a valid or invalid entry. *)
Lemma set_fd_ok i th ts s v fd f : fd_rel i th ts s v -> 0 <= fd < MAX_FD ->
  completes (set_fd i fd f s) (fun s' =>
    fd_rel i th ts s' (set v fd (if fd_valid f =? 0 then None else Some (fd_path f, fd_flags f, fd_offset f)))).
Proof.
  intros (Hin & Hc & Hi & Hp & fds & Hlen & Hts & Hv) Hfd. unfold set_fd. rewrite (get_thread_ok _ _ _ _ Hts Hi).
  cbn [mbind outcome_bind fd_table with_fd_table]. rewrite wr_in_range by lia. cbn [mbind outcome_bind].
  unfold set_thread. rewrite Hts, wr_in_range by (rewrite zlen_zset; lia). cbn [mbind outcome_bind]. apply completes_Ret.
  unfold fd_rel. split_and!; [done|done|lia|lia|done|]. exists (fds.[fd <- f]). split_and!; [by rewrite zlen_zset| |].
  - cbn. by rewrite zset_zset_eq.
  - intros x. rewrite fd_view_set by lia. unfold set. destruct (x =? fd); [done|]. apply Hv.
Qed.

Lemma fd_rel_k i th ts s s' v : s_k s' = s_k s -> fd_rel i th ts s v -> fd_rel i th ts s' v.
Proof. unfold fd_rel. by intros ->. Qed.

Lemma run_stat_k p s : all (run_vfs (vfs_stat br p st0) s) (fun '(_, _, s') => s_k s' = s_k s).
Proof.
  unfold run_vfs. eapply all_bind; [apply vfs_stat_k|]. intros [[r st] v] Hv. by apply all_Ret.
Qed.

Lemma run_create_k p s : all (run_vfs (vfs_create br p) s) (fun '(_, s') => s_k s' = s_k s).
Proof. unfold run_vfs. eapply all_bind; [apply simple_op_k|]. intros [r v] Hv. by apply all_Ret. Qed.

Lemma open_file_k p flags s : all (open_file br st0 p flags s) (fun '(_, s') => s_k s' = s_k s).
Proof.
  unfold open_file. eapply all_bind; [apply run_stat_k|]. intros [[r st] s1] H1.
  assert (forall x : Z -> Z + vfs_stat_t, all ('(ret, s2) ← run_vfs (vfs_create br p) s1; Ret (x ret, s2)) (fun '(_, s') => s_k s' = s_k s)) as Hc.
  { intros x. eapply all_bind; [apply run_create_k|]. intros [ret s2] H2. apply all_Ret. by rewrite H2. }
  destruct (r <? 0); [destruct (has_flag flags O_CREAT); [by apply (Hc (fun ret => if ret <? 0 then inl ret else inr st))|by apply all_Ret]|].
  destruct (_ && _); [by apply all_Ret|]. destruct (_ && _); [|by apply all_Ret]. by apply (Hc (fun _ => inr st)).
Qed.

Lemma free_fd_ok fds n i : zlen fds = MAX_FD -> 0 <= i -> i + Z.of_nat n = MAX_FD ->
  completes (free_fd n i fds) (fun r =>
    match r with
    | None => forall x, i <= x < MAX_FD -> fd_view fds x <> None
    | Some fd => i <= fd < MAX_FD /\ fd_view fds fd = None /\ forall x, i <= x < fd -> fd_view fds x <> None
    end).
Proof.
  intros Hlen. revert i. induction n as [|n IH]; intros i Hi Hn; cbn [free_fd]; [apply completes_Ret; intros; lia|].
  destruct (rd_in_range fds i) as (f & -> & Hf); [lia|]. cbn [mbind outcome_bind].
  destruct (Z.eqb_spec (fd_valid f) 0) as [E|E].
  - apply completes_Ret. split; [lia|]. split; [|intros; lia]. unfold fd_view. rewrite Hf. by rewrite (proj2 (Z.eqb_eq _ _) E).
  - assert (fd_view fds i <> None) as Hv by (unfold fd_view; rewrite Hf; by rewrite (proj2 (Z.eqb_neq _ _) E)).
    assert (forall b, (forall x, i + 1 <= x < b -> fd_view fds x <> None) -> forall x, i <= x < b -> fd_view fds x <> None) as Hall.
    { intros b Hb x Hx. destruct (Z.eq_dec x i) as [->|]; [done|]. apply Hb. lia. }
    eapply completes_mono; [apply IH; lia|]. intros [fd|] H; [|by apply Hall].
    destruct H as (? & ? & ?). split; [lia|]. split; [done|]. by apply Hall.
Qed.

(** Opening, when the file system returns. *)
Lemma open_refines i th ts s v path flags mode :
  (forall p fl, exists x, open_file br st0 p fl s = Ret x) -> fd_rel i th ts s v ->
  completes (run_fd (FdOpen path flags mode) s) (fun '(r, s') => exists v', fd_step s (FdOpen path flags mode) v r v' /\ fd_rel i th ts s' v').
Proof.
  intros Hfs HR. pose proof HR as (Hin & Hc & Hi & Hp & fds & Hlen & Hts & Hv). cbn [run_fd fd_step]. unfold sys_open.
  rewrite (current_ok s i) by done. cbn [mbind outcome_bind]. destruct (path_arg path s) as [p|]; [|apply completes_Ret; by exists v].
  assert (task_has_vfs_cap (Some i) p (required_right flags) (s_k s) = Ret true) as Hcap.
  { unfold task_has_vfs_cap. pose proof (get_thread_ok s i _ ts Hts Hi) as Hg. unfold get_thread in Hg. rewrite Hg.
    cbn [mbind outcome_bind with_fd_table permissions]. by rewrite Hp. }
  unfold guarded. rewrite Hcap. cbn [mbind outcome_bind]. clear Hcap.
  destruct (Hfs p flags) as ([res s1] & Hopen). rewrite Hopen. cbn [mbind outcome_bind].
  pose proof (open_file_k p flags s _ Hopen) as Hk. apply (fd_rel_k _ _ _ s s1) in HR as HR1; [|done].
  destruct res as [e|st]; [apply completes_Ret; exists v; split; [by exists (inl e), s1|done]|].
  rewrite (get_thread_ok s1 i (with_fd_table fds th) ts) by (by rewrite ?Hk). cbn [mbind outcome_bind fd_table with_fd_table].
  destruct (free_fd_ok fds (Z.to_nat (MAX_FD - 3)) 3 Hlen) as ([fd|] & -> & Hslot); [lia|done| |]; cbn [mbind outcome_bind].
  - destruct Hslot as (Hr & Hfree & Hlow). destruct (rd_in_range fds fd) as (f & -> & Hf); [lia|]. cbn [mbind outcome_bind].
    eapply completes_bind; [eapply set_fd_ok; [done|lia]|]. intros s2 H2. apply completes_Ret. eexists. split; [|exact H2].
    exists (inr st), s1. split; [done|]. right. cbn [fd_valid fd_path fd_flags fd_offset]. rewrite <- Hv.
    split_and!; [lia|lia|done|intros x Hx; rewrite <- Hv; by apply Hlow|done].
  - apply completes_Ret. exists v. split; [|done]. exists (inr st), s1. split; [done|]. left. split_and!; [done|done|].
    intros x Hx. rewrite <- Hv. by apply Hslot.
Qed.

Lemma seek_refines i th ts s v fd offset whence :
  (forall p, exists x, run_vfs (vfs_stat br p st0) s = Ret x) -> fd_rel i th ts s v ->
  completes (run_fd (FdSeek fd offset whence) s) (fun '(r, s') => exists v', fd_step s (FdSeek fd offset whence) v r v' /\ fd_rel i th ts s' v').
Proof.
  intros Hfs HR. pose proof HR as (Hin & Hc & _). cbn [run_fd fd_step]. unfold sys_lseek.
  rewrite (current_ok s i) by done. cbn [mbind outcome_bind].
  destruct (get_fd_ok i th ts s v fd HR) as ([[j f]|] & -> & He); cbn [mbind outcome_bind];
    [|rewrite He; apply completes_Ret; by exists v]. destruct He as (-> & Hfd & Hval & Hvf). rewrite Hvf.
  assert (forall n s1, s_k s1 = s_k s ->
    completes (s2 ← set_fd i fd (with_offset n f) s1; Ret (n, s2)) (fun '(r, s') =>
      exists v', (r = n /\ v' = set v fd (Some (fd_path f, fd_flags f, n))) /\ fd_rel i th ts s' v')) as Hset.
  { intros n s1 Hk. eapply completes_bind; [eapply set_fd_ok; [by eapply fd_rel_k|lia]|]. intros s2 H2. apply completes_Ret.
    eexists. split; [done|]. cbn [with_offset fd_valid fd_path fd_flags fd_offset] in H2. by rewrite (proj2 (Z.eqb_neq _ _) Hval) in H2. }
  destruct (whence =? 0); [by apply Hset|]. destruct (whence =? 1); [by apply Hset|].
  destruct (whence =? 2); [|apply completes_Ret; by exists v].
  destruct (Hfs (fd_path f)) as ([[rc st] s1] & Hst). pose proof (run_stat_k _ _ _ Hst) as Hk. rewrite Hst. cbn [mbind outcome_bind].
  destruct (rc =? 0) eqn:E.
  - eapply completes_mono; [by apply Hset|]. intros [r s'] (v' & Hv' & HR'). exists v'. split; [|done].
    exists rc, st, s1. by rewrite E.
  - apply completes_Ret. exists v. split; [|by apply (fd_rel_k _ _ _ s s1)]. exists rc, st, s1. by rewrite E.
Qed.

(** The operations with the values they return, errors included: a call that is
    refused returns a positive number, 22 for a bad argument, 28 when the table is
    full, 5 when the file is not found by seeking. *)
Lemma fd_ops_exact i th ts s v op :
  (forall p, exists x, run_vfs (vfs_stat br p st0) s = Ret x) ->
  (forall p fl, exists x, open_file br st0 p fl s = Ret x) ->
  fd_rel i th ts s v ->
  completes (run_fd op s) (fun '(r, s') => exists v', fd_step s op v r v' /\ fd_rel i th ts s' v').
Proof.
  intros Hstat Hopen HR. pose proof HR as (Hin & Hc & _). destruct op as [path flags mode|fd|old new|fd offset whence].
  - by apply open_refines.
  - cbn [run_fd fd_step]. unfold sys_close. rewrite (current_ok s i) by done. cbn [mbind outcome_bind].
    destruct (get_fd_ok i th ts s v fd HR) as ([[j f]|] & -> & He); cbn [mbind outcome_bind];
      [|rewrite He; apply completes_Ret; by exists v]. destruct He as (-> & Hfd & Hval & Hvf). rewrite Hvf.
    eapply completes_bind; [by eapply set_fd_ok|]. intros s2 H2. apply completes_Ret. eexists. by split; [|exact H2].
  - cbn [run_fd fd_step]. unfold sys_dup2. rewrite (current_ok s i) by done. cbn [mbind outcome_bind].
    destruct (get_fd_ok i th ts s v old HR) as ([[j f]|] & -> & He); cbn [mbind outcome_bind];
      [|rewrite He; apply completes_Ret; by exists v]. destruct He as (-> & Hfd & Hval & Hvf). rewrite Hvf.
    destruct (_ || _) eqn:E; [apply completes_Ret; by exists v|]. bool_to_prop.
    eapply completes_bind; [eapply set_fd_ok; [done|lia]|]. intros s2 H2. apply completes_Ret. eexists. split; [|exact H2].
    by rewrite (proj2 (Z.eqb_neq _ _) Hval).
  - by apply seek_refines.
Qed.

(** What an operation that succeeds returns and makes of the map [v]; one that does
    not leaves the map as it is. *)
Definition fd_effect s (op : fd_op) (v : Z -> option fdesc) (r : Z) (v' : Z -> option fdesc) : Prop :=
  match op with
  | FdClose fd => match v fd with Some _ => r = 0 /\ v' = set v fd None | None => v' = v end
  | FdDup2 old new =>
      match v old with
      | Some d => if (0 <=? new) && (new <? MAX_FD) then r = new /\ v' = set v new (Some d) else v' = v
      | None => v' = v
      end
  | FdSeek fd offset whence =>
      match v fd with
      | Some (q, fl, o) =>
          let moved n := r = n /\ v' = set v fd (Some (q, fl, n)) in
          if whence =? 0 then moved offset
          else if whence =? 1 then moved (s64 (o + offset))
          else if whence =? 2 then
            exists rc st s1, run_vfs (vfs_stat br q st0) s = Ret (rc, st, s1) /\
              if rc =? 0 then moved (s64 (st_size st + offset)) else v' = v
          else v' = v
      | None => v' = v
      end
  | FdOpen path flags _ =>
      match path_arg path s with
      | None => v' = v
      | Some q =>
          exists res s1, open_file br st0 q flags s = Ret (res, s1) /\
            match res with
            | inl _ => v' = v
            | inr st =>
                ((forall x, 3 <= x < MAX_FD -> v x <> None) /\ v' = v) \/
                (3 <= r < MAX_FD /\ v r = None /\ (forall x, 3 <= x < r -> v x <> None) /\
                 v' = set v r (Some (q, flags, if has_flag flags O_APPEND then s64 (st_size st) else 0)))
            end
      end
  end.

Lemma fd_step_effect s op v r v' : fd_step s op v r v' -> fd_effect s op v r v'.
Proof.
  destruct op as [path flags mode|fd|old new|fd offset whence]; cbn [fd_step fd_effect].
  - destruct (path_arg path s); [|by intros [_ ?]]. intros (res & s1 & ? & H). exists res, s1. split; [done|].
    destruct res; [by destruct H|]. destruct H as [(_ & ? & ?)|?]; [by left|by right].
  - destruct (v fd); [done|by intros [_ ?]].
  - destruct (v old); [|by intros [_ ?]]. 
    destruct (Z.ltb_spec new 0), (Z.leb_spec MAX_FD new), (Z.leb_spec 0 new), (Z.ltb_spec new MAX_FD); try lia; cbn; tauto.
  - destruct (v fd) as [[[q fl] o]|]; [|by intros [_ ?]]. destruct (whence =? 0); [done|]. destruct (whence =? 1); [done|].
    destruct (whence =? 2); [|by intros [_ ?]]. intros (rc & st & s1 & ? & H). exists rc, st, s1. split; [done|]. by destruct (rc =? 0); [|destruct H].
Qed.

(** C13: The descriptor table of a thread is a finite map from 0..31 to open files
    (path, flags, offset).  For a running thread that is not confined to capabilities,
    over a file system whose operations return, [sys_open], [sys_close], [sys_dup2]
    and [sys_lseek] complete and
    act on the map as specified: open binds the lowest free number from 3 on and returns
    it, unless the path is no string, the lookup fails or no number is free; close
    unbinds; dup2
    rebinds its target, even when that is open; seek moves the offset to a
    position relative to the start, the offset or the size.  A call that cannot do
    this leaves the map as it is.  No other field of the thread and no other thread
    changes.  The claim is about the table and the results of successful calls, not
    about the error codes ([fd_ops_exact] has them). *)
Theorem fd_table_refines i th ts s v op :
  (forall p, exists x, run_vfs (vfs_stat br p st0) s = Ret x) ->
  (forall p fl, exists x, open_file br st0 p fl s = Ret x) ->
  fd_rel i th ts s v ->
  completes (run_fd op s) (fun '(r, s') => exists v', fd_effect s op v r v' /\ fd_rel i th ts s' v').
Proof.
  intros Hstat Hopen HR. eapply completes_mono; [by apply fd_ops_exact|].
  intros [r s'] (v' & Hs & HR'). exists v'. split; [by apply fd_step_effect|done].
Qed.
End descriptors.

(** ** Confinement to path capabilities *)

Lemma dmesg_log_grows clock msg d :
  wf d -> dmesg_at_bol d = 1 -> msg <> [] ->
  completes (dmesg_log clock (Some msg) d) (fun d' => grows d d' (render clock 0 (lines msg)) 1).
Proof.
  intros Hd Hb Hm. unfold dmesg_log. destruct msg as [|c msg]; [done|].
  assert (end_line d = Ret d) as -> by (unfold end_line; by rewrite Hb).
  destruct (log_loop_grows clock 0 (c :: msg) d Hd) as [H _]. by apply H.
Qed.

Lemma elapsed_total arch hw t : exists cs t', timer_elapsed_centiseconds arch hw t = Ret (cs, t').
Proof.
  unfold timer_elapsed_centiseconds. destruct (time_count hw t) as [c t1]. destruct (_ =? 0); [|destruct (_ <? _); eauto].
  destruct (match arch with TIMER_ARCH_X86 => _ | _ => _ end) as [f t2]. eauto.
Qed.

Lemma has_cap_from_false p right tab n i : zlen (caps tab) = i + Z.of_nat n -> 0 <= i ->
  Forall (fun c => cap_admits c p right = false) (caps tab) -> has_cap_from n i p right tab = Ret false.
Proof.
  intros Hn Hi Hall. revert i Hn Hi. induction n as [|n IH]; intros i Hn Hi; [done|]. cbn [has_cap_from].
  destruct (rd_in_range (caps tab) i) as (c & -> & Hc); [lia|]. cbn [mbind outcome_bind].
  rewrite (Forall_zget _ _ _ _ Hall Hc). apply IH; lia.
Qed.

Lemma has_cap_from_true p right tab n i j c : zlen (caps tab) = i + Z.of_nat n -> 0 <= i <= j ->
  (caps tab).[j] = Some c -> cap_admits c p right = true -> has_cap_from n i p right tab = Ret true.
Proof.
  intros Hn Hi Hj Hc. pose proof (zget_Some_bound _ _ _ Hj) as Hb. revert i Hn Hi.
  induction n as [|n IH]; intros i Hn Hi; [lia|]. cbn [has_cap_from].
  destruct (rd_in_range (caps tab) i) as (c' & -> & Hc'); [lia|]. cbn [mbind outcome_bind].
  destruct (cap_admits c' p right) eqn:E; [done|]. apply IH; [lia|]. destruct (Z.eq_dec i j) as [->|]; [congruence|lia].
Qed.

(** Thread [i] runs, confined, with the capability table [tab]. *)
Definition confined (k : kstate) (i : Z) (tab : table) : Prop :=
  g_sched_inited k <> 0 /\ g_current_task k = Some i /\ table_ok tab /\
  exists th, (g_tasks k).[i] = Some th /\ has_flag (permissions th) PERM_VFS_CAP_ONLY = true /\
    task_ipc_cap_table (id th) (g_thread_ipc_ext k) = Ret tab.

Lemma confined_has_cap k i tab p right : confined k i tab ->
  task_has_vfs_cap (Some i) p right k = has_cap_from (Z.to_nat IPC_CAP_MAX_PER_TASK) 0 p right tab.
Proof.
  intros (_ & _ & _ & th & Hth & Hf & Ht). unfold task_has_vfs_cap. rewrite (rd_some _ _ _ Hth). cbn [mbind outcome_bind].
  rewrite Hf. cbn [negb]. by rewrite Ht.
Qed.

Section refusal.
Context {W : Type} (br : bridge W) (arch : timer_arch) (hw : nat -> hw_regs) (stack_bottom : Z) (st0 : vfs_stat_t).
Implicit Types s : sstate (W := W).

(** Nothing is done but logging one line, for which the timer is read: the state is
    as before except for the log and the state of the timer. *)
Definition refused (msg : string) s : Z * sstate -> Prop := fun '(_, s') =>
  exists cs t d, timer_elapsed_centiseconds arch hw (k_timer (s_k s)) = Ret (cs, t) /\
    grows (s_log s) d (render (fun _ => cs) 0 (lines (ascii_codes msg))) 1 /\
    s' = mk_s (with_i_k (with_k_timer t (s_k s)) (s_i s)) (s_v s) d (s_console s).

Lemma guarded_refused i tab s p right msg k :
  confined (s_k s) i tab -> Forall (fun c => cap_admits c p right = false) (caps tab) ->
  wf (s_log s) -> dmesg_at_bol (s_log s) = 1 -> ascii_codes msg <> [] ->
  completes (guarded arch hw (Some i) p right msg k s) (fun r => r.1 = 13 /\ refused msg s r).
Proof.
  intros Hc Hall Hwf Hbol Hm. unfold guarded. rewrite (confined_has_cap _ _ _ _ _ Hc).
  destruct Hc as (_ & _ & Hok & _). rewrite has_cap_from_false; [|by rewrite Hok|done|done].
  cbn [mbind outcome_bind]. unfold log, refused. destruct (elapsed_total arch hw (k_timer (s_k s))) as (cs & t & ->). cbn [mbind outcome_bind].
  destruct (dmesg_log_grows (fun _ => cs) _ _ Hwf Hbol Hm) as (d & -> & Hd). cbn [mbind outcome_bind]. apply completes_Ret.
  split; [done|]. by exists cs, t, d.
Qed.

(** C30: A thread confined to path capabilities, none of which admits the path for
    the right a call needs, is refused [sys_open], [sys_unlink], [sys_mkdir] and
    [sys_chdir].  The file system is not asked, and the whole state of the kernel, of
    the IPC objects, the file systems and the console is as before, except that
    exactly one line about the refusal is appended to the kernel log and the timer
    has been read for its time stamp. *)
Theorem confined_refused i tab s path p :
  confined (s_k s) i tab -> path_arg path s = Some p -> wf (s_log s) -> dmesg_at_bol (s_log s) = 1 ->
  let lacks right := Forall (fun c => cap_admits c p right = false) (caps tab) in
  (forall flags mode, lacks (required_right flags) ->
    completes (sys_open br arch hw stack_bottom st0 path flags mode s) (refused "SECURITY: Denied VFS open access (no capability)" s)) /\
  (lacks IPC_CAP_RIGHT_VFS_WRITE ->
    completes (sys_unlink br arch hw stack_bottom path s) (refused "SECURITY: Denied VFS unlink access (no capability)" s)) /\
  (forall mode, lacks IPC_CAP_RIGHT_VFS_WRITE ->
    completes (sys_mkdir br arch hw stack_bottom path mode s) (refused "SECURITY: Denied VFS mkdir access (no capability)" s)) /\
  (lacks IPC_CAP_RIGHT_VFS_READ ->
    completes (sys_chdir br arch hw stack_bottom st0 path s) (refused "SECURITY: Denied VFS chdir access (no capability)" s)).
Proof.
  intros Hc Hp Hwf Hbol lacks. pose proof Hc as (Hin & Hcur & _). unfold sys_open, sys_unlink, sys_mkdir, path_op, sys_chdir.
  rewrite (current_ok stack_bottom s i) by done. cbn [mbind outcome_bind]. rewrite Hp.
  split_and!; intros; (eapply completes_mono; [by eapply guarded_refused|by intros r [_ ?]]).
Qed.
End refusal.

(** *** Getting around it *)

(** More rounds than characters make no difference. *)
Lemma split_loop_fuel n k p parts : (length p < n)%nat -> (length p < k)%nat -> split_loop n p parts = split_loop k p parts.
Proof.
  revert k p parts. induction n as [|n IH]; intros [|k] p parts Hn Hk; try lia. cbn [split_loop]. destruct p as [|c0 r0]; [done|].
  destruct (VfsSpec.skip_slashes_cases (c0 :: r0)) as [->|(c & r & -> & Hc & Hlen)]; [done|].
  destruct (take_component (c :: r)) as [x q] eqn:E. pose proof (VfsSpec.take_component_split _ _ _ E) as (Hcr & Hs & Hq).
  assert (x <> []) as Hne by (intros ->; cbn in Hcr; destruct Hq as [->|(? & ->)]; simplify_eq).
  assert (length q < length (c :: r))%nat by (rewrite Hcr, length_app; destruct x; [done|cbn; lia]).
  apply IH; cbn [length] in *; lia.
Qed.

Lemma take_component_app nm q : SLASH ∉ nm -> q = [] \/ (exists r, q = SLASH :: r) -> take_component (nm ++ q) = (nm, q).
Proof.
  intros H Hq. induction nm as [|c r IH]; [by destruct Hq as [->|[? ->]]|]. cbn. destruct (Z.eqb_spec c SLASH) as [->|]; [by destruct H; left|].
  rewrite IH; [done|]. intros Hr. apply H. by right.
Qed.

(** The scan over one component. *)
Lemma split_loop_step n nm q parts : nm <> [] -> SLASH ∉ nm -> q = [] \/ (exists r, q = SLASH :: r) ->
  split_loop (S n) (SLASH :: nm ++ q) parts = split_loop n q (add_part parts nm).
Proof.
  intros Hne Hs Hq. cbn [split_loop skip_slashes]. rewrite Z.eqb_refl. destruct nm as [|c r]; [done|].
  cbn [app skip_slashes]. destruct (Z.eqb_spec c SLASH) as [->|]; [by destruct Hs; left|].
  pose proof (take_component_app (c :: r) q Hs Hq) as E. cbn [app] in E. by rewrite E.
Qed.

(** The path of the parent of [/nm], followed by [q]. *)
Definition up (nm q : list Z) : list Z := SLASH :: nm ++ SLASH :: DOT :: DOT :: q.

Lemma normalize_up nm q : VfsSpec.plain nm -> q = [] \/ (exists r, q = SLASH :: r) -> normalize (up nm q) = normalize q.
Proof.
  intros (Hne & Hd & Hdd & Hs) Hq. unfold normalize, vfs_normalize_path.
  assert (split_loop (S (length (up nm q))) (up nm q) [] = split_loop (S (length q)) q []) as ->; [|done].
  unfold up. rewrite split_loop_step by (by eauto). cbn [length].
  rewrite (split_loop_fuel _ (S (4 + length q)) (SLASH :: DOT :: DOT :: q)) by (cbn [length]; rewrite ?length_app; cbn [length]; lia).
  rewrite (split_loop_step _ [DOT; DOT] q); [|done|by intros [[=]|[[=]|[]%elem_of_nil]%elem_of_cons]%elem_of_cons|done].
  unfold add_part at 2. rewrite !bool_decide_false by done. apply split_loop_fuel; lia.
Qed.

(** Without the bridge an operation depends on the normal form of its path only. *)
Section same_path.
Context {W : Type} (br : bridge W) (stack_bottom : Z).
Context (v : vstate W) (p q : list Z).
Hypothesis no_bridge : bridge_ready v = false.
Hypothesis same_norm : normalize p = normalize q.

Lemma bridge_ready_world (v' : vstate W) w : bridge_ready v' = false -> bridge_ready (with_world w v') = false.
Proof. done. Qed.

Ltac step_norm :=
  rewrite same_norm; destruct (normalize q) as [norm| |]; cbn [mbind outcome_bind]; [|done|done];
  match goal with |- context [resolve_mount norm ?v] => destruct (resolve_mount norm v) as [r| |]; cbn [mbind outcome_bind]; [|done|done] end.

Lemma simple_op_norm op bop : simple_op op bop p v = simple_op op bop q v.
Proof.
  unfold simple_op. step_norm. destruct (bound op r) as [f|]; cbn [mbind outcome_bind]; [|by rewrite no_bridge].
  destruct (f (world v)) as [[res w]| |]; cbn [mbind outcome_bind]; [|done|done]. destruct (res =? VFS_OK); [done|].
  by rewrite (bridge_ready_world v w no_bridge).
Qed.

Lemma v_trace_ready ev a b v1 : v_trace stack_bottom ev a b v = Ret v1 -> bridge_ready v1 = false.
Proof. unfold v_trace. intros H. apply bind_Ret_inv in H as (k & _ & H). apply Ret_inj in H. by subst v1. Qed.

Lemma vfs_read_norm offset size : vfs_read br stack_bottom p offset size v = vfs_read br stack_bottom q offset size v.
Proof.
  unfold vfs_read. destruct (v_trace _ _ _ _ v) as [v1| |] eqn:E; cbn [mbind outcome_bind]; [|done|done]. apply v_trace_ready in E.
  step_norm. destruct (bound be_read r) as [f|]; cbn [mbind outcome_bind]; [|by rewrite E].
  destruct (f offset size (world v1)) as [[[res d] w]| |]; cbn [mbind outcome_bind]; [|done|done]. destruct (0 <=? res); [done|].
  by rewrite (bridge_ready_world v1 w E).
Qed.

Lemma vfs_write_norm offset data : vfs_write br stack_bottom p offset data v = vfs_write br stack_bottom q offset data v.
Proof.
  unfold vfs_write. destruct (v_trace _ _ _ _ v) as [v1| |] eqn:E; cbn [mbind outcome_bind]; [|done|done]. apply v_trace_ready in E.
  step_norm. destruct (bound be_write r) as [f|]; cbn [mbind outcome_bind]; [|by rewrite E].
  destruct (f offset data (world v1)) as [[res w]| |]; cbn [mbind outcome_bind]; [|done|done]. destruct (0 <=? res); [done|].
  by rewrite (bridge_ready_world v1 w E).
Qed.
End same_path.

(** A capability for a directory gives access to the whole file system: the
    check compares the path as written and the operations normalise it.  With a
    capability for [/nm] a confined thread passes the check for [/nm/..q], for
    every absolute path [q], and on a system without the bridge program reading,
    writing and removing that path is reading, writing and removing [q]. *)
Theorem dotdot_escapes k i tab j c nm right q :
  confined k i tab -> (caps tab).[j] = Some c -> ipc_cap_is_valid c = true -> object_type c = IPC_OBJ_DIR ->
  has_flag (rights c) right = true -> path c = SLASH :: nm -> VfsSpec.plain nm -> q = [] \/ (exists r, q = SLASH :: r) ->
  task_has_vfs_cap (Some i) (up nm q) right k = Ret true /\
  forall W (br : bridge W) sb (v : vstate W), bridge_ready v = false ->
    (forall offset size, vfs_read br sb (up nm q) offset size v = vfs_read br sb q offset size v) /\
    (forall offset data, vfs_write br sb (up nm q) offset data v = vfs_write br sb q offset data v) /\
    vfs_unlink br (up nm q) v = vfs_unlink br q v.
Proof.
  intros Hc Hj Hval Hdir Hr Hp Hnm Hq. split.
  - rewrite (confined_has_cap _ _ _ _ _ Hc). destruct Hc as (_ & _ & Hok & _). pose proof (zget_Some_bound _ _ _ Hj).
    apply (has_cap_from_true _ _ _ _ _ j c); [by rewrite Hok|lia|done|]. unfold cap_admits. rewrite Hval, Hdir, Hp.
    rewrite !bool_decide_true by done. unfold has_flag in Hr. rewrite Hr. cbn [andb orb]. unfold up. cbn [length].
    rewrite bool_decide_true by (cbn [take]; by rewrite take_app_length).
    change ((SLASH :: ?l) !! S ?n) with (l !! n). rewrite list_lookup_middle by done. by rewrite Z.eqb_refl.
  - intros W br sb v Hb. pose proof (normalize_up nm q Hnm Hq) as Hn. split_and!; intros.
    + by apply vfs_read_norm.
    + by apply vfs_write_norm.
    + by apply simple_op_norm.
Qed.

(** The permissions of a thread. *)
Definition perm {W} (s : sstate (W := W)) (x : Z) : option Z := permissions <$> (g_tasks (s_k s)).[x].

Section permissions.
Context {W : Type}.
Implicit Types s : sstate (W := W).

Lemma set_thread_perm t th th0 s s' x :
  get_thread t s = Ret th0 -> permissions th = permissions th0 -> set_thread t th s = Ret s' -> perm s' x = perm s x.
Proof.
  unfold get_thread, set_thread. intros H0 Hp H. apply rd_Ret in H0. pose proof (zget_Some_bound _ _ _ H0).
  rewrite wr_in_range in H by done. apply Ret_inj in H. subst s'. unfold perm. cbn. rewrite zget_zset.
  destruct (Z.eqb_spec t x) as [->|]; [|done]. rewrite H0. case_if; cbn; [by rewrite Hp|done].
Qed.

Lemma upd_thread_perm t f s s' x : upd_thread t f s = Ret s' -> (forall th, permissions (f th) = permissions th) -> perm s' x = perm s x.
Proof.
  unfold upd_thread. intros H Hf. apply bind_Ret_inv in H as (th & Hth & H). by apply (set_thread_perm t (f th) th s).
Qed.

(** A new thread has none. *)
Lemma create_thread_perm arch hb sb tramp nm ent a prio k c k' : g_sched_inited k <> 0 ->
  sched_create_thread arch hb sb tramp nm ent a prio k = Ret (Some c, k') -> permissions <$> (g_tasks k').[c] = Some 0.
Proof.
  intros Hi H. apply SchedSpec.create_thread_inv in H as (t & exts & base & h & Ht & _ & _ & ->); [|done]. cbn.
  rewrite zget_zset_eq by (by eapply zget_Some_bound). done.
Qed.

Lemma current_thread_inited sb s t s1 : current sb s = Ret (t, s1) -> g_sched_inited (s_k s1) <> 0.
Proof.
  unfold current, sched_current_thread. intros H. apply bind_Ret_inv in H as ([c k] & H & E). apply Ret_inj in E. simplify_eq. cbn.
  apply bind_Ret_inv in H as (k' & H & E). apply Ret_inj in E. simplify_eq. destruct (Z.eqb_spec (g_sched_inited (s_k s)) 0).
  - unfold sched_init in H. apply bind_Ret_inv in H as (x & _ & H). apply Ret_inj in H. by subst.
  - by injection H as <-.
Qed.

Lemma vfork_setup_perm arch hb sb tramp s par c s' :
  vfork_setup arch hb sb tramp s = Ret (Some (par, c), s') -> perm s' c = Some 0.
Proof.
  unfold vfork_setup. intros H. apply bind_Ret_inv in H as ([[t|] s1] & Hcur & H); [|done]. apply current_thread_inited in Hcur.
  apply bind_Ret_inv in H as (th & _ & H). apply bind_Ret_inv in H as ([[ch|] k1] & Hcr & H); [|done].
  apply bind_Ret_inv in H as (s2 & H2 & H). apply bind_Ret_inv in H as (s3 & H3 & H). apply bind_Ret_inv in H as (s4 & H4 & H).
  apply Ret_inj in H. simplify_eq. rewrite (upd_thread_perm _ _ _ _ c H4 (fun _ => eq_refl)).
  rewrite <- (create_thread_perm _ _ _ _ _ _ _ _ _ _ _ Hcur Hcr). transitivity (perm s3 c); [done|].
  rewrite (upd_thread_perm _ _ _ _ c H3 (fun _ => eq_refl)), (upd_thread_perm _ _ _ _ c H2 (fun _ => eq_refl)). done.
Qed.

Lemma copy_stack_perm par c sp off s r s' x : copy_kernel_stack par c sp off s = Ret (r, s') -> perm s' x = perm s x.
Proof.
  unfold copy_kernel_stack. intros H. apply bind_Ret_inv in H as (p & _ & H). apply bind_Ret_inv in H as (t & Ht & H).
  apply bind_Ret_inv in H as (s1 & H1 & H). apply bind_Ret_inv in H as (s2 & H2 & H). apply Ret_inj in H. simplify_eq.
  transitivity (perm s2 x); [done|]. rewrite (upd_thread_perm _ _ _ _ x H2 (fun _ => eq_refl)).
  by eapply (set_thread_perm c _ t (with_umem _ s) s1 x) in H1.
Qed.
End permissions.

(** [vfork] ends the confinement: whatever the permissions of the caller, the
    child passes every capability check. *)
Theorem vfork_unconfines {W} arch heap_base stack_bottom tramp parent_sp addr (s : sstate (W := W)) par child s' k p right :
  sys_vfork arch heap_base stack_bottom tramp parent_sp addr s = PSwitch par child s' k ->
  task_has_vfs_cap (Some child) p right (s_k s') = Ret true.
Proof.
  unfold sys_vfork. destruct (vfork_setup _ _ _ _ s) as [[[[pa ch]|] s1]| |] eqn:Hset; try done. apply vfork_setup_perm in Hset.
  destruct (_ ≫= _) as [[sp s2]| |] eqn:Hcopy; try done. intros [= <- <- <- _]. apply bind_Ret_inv in Hcopy as (pt & _ & Hcopy).
  rewrite <- (copy_stack_perm _ _ _ _ _ _ _ ch Hcopy) in Hset. unfold perm in Hset. unfold task_has_vfs_cap.
  destruct ((g_tasks (s_k s2)).[ch]) as [th|] eqn:Hth; [|done]. cbn in Hset. injection Hset as Hperm.
  rewrite (rd_some _ _ _ Hth). cbn [mbind outcome_bind]. by rewrite Hperm.
Qed.

(** ** An example system

    Thread 0 runs; a volume on which every path is a file of five bytes is mounted
    at the root; the strings of [strs] are in memory. *)

Definition ex_backend : backend unit :=
  mk_backend [] (Some (fun p _ w => Ret (VFS_OK, mk_stat p VFS_FILE 5 0, w))) None None None None
    (Some (fun _ w => Ret (VFS_OK, w))) (Some (fun _ w => Ret (VFS_OK, w))).

Definition ex_bridge : bridge unit :=
  mk_bridge false (fun _ w => Ret w) (fun _ w => Ret (None, w)) (fun _ w => Ret (None, w)) (fun _ _ _ w => Ret (None, w))
    (fun _ _ _ w => Ret (None, w)) (fun _ w => Ret (None, w)) (fun _ w => Ret (None, w)) (fun _ w => Ret (None, w)).

Definition ex_strings (strs : list (Z * list Z)) : mem := foldr (fun '(a, l) m => store_bytes m a l) mem_zero strs.

Definition ex_vfs : vstate unit :=
  mk_vfs ((replicate (Z.to_nat VFS_MAX_MOUNTS) (mk_mount [] 0 ex_backend false)).[0 <- mk_mount [SLASH] 1 ex_backend true])
    1 false false kstate_static tt.

Definition ex_kernel (perms : Z) (exts : list extension) (strs : list (Z * list Z)) : kstate :=
  with_k_heap (with_mem (ex_strings strs) heap_static) (with_g_thread_ipc_ext exts
    (with_g_tasks ((g_tasks SchedSpec.two_threads).[0 <-
       mk_thread 0 THREAD_STATE_RUNNING THREAD_PRIORITY_LOW acct_zero 4096 20480 0 None None 0 0 []
         (replicate (Z.to_nat MAX_FD) fd_zero) 0 0 0 None [47] 0 0 0 0 perms 0]) SchedSpec.two_threads)).

Definition ex_state (perms : Z) (exts : list extension) (strs : list (Z * list Z)) : sstate (W := unit) :=
  mk_s (mk_i (ex_kernel perms exts strs) [] [] [] [] None 0 ∅) ex_vfs dmesg_static [].

(** A capability to read below "/a", in slot 0. *)
Definition ex_cap : capability := mk_cap IPC_CAP_RIGHT_VFS_READ IPC_OBJ_DIR 0 1 0 0 [47; 97].
Definition ex_table : table := mk_table ((caps table_zero).[0 <- ex_cap]) 1.
Definition ex_exts : list extension :=
  (g_thread_ipc_ext kstate_static).[0 <- with_cap_table ex_table ext_zero].

(** Opening "/b" for appending gives descriptor 3. *)
Lemma fd_table_refines_witness :
  let s := ex_state 0 (g_thread_ipc_ext kstate_static) [(100, [47; 98])] in
  let th := mk_thread 0 THREAD_STATE_RUNNING THREAD_PRIORITY_LOW acct_zero 4096 20480 0 None None 0 0 []
         (replicate (Z.to_nat MAX_FD) fd_zero) 0 0 0 None [47] 0 0 0 0 0 0 in
  completes (run_fd ex_bridge TIMER_ARCH_RV64 (fun _ => mk_hw 0 0 0) 0 (mk_stat [] 0 0 0) (FdOpen 100 O_APPEND 0) s) (fun '(r, s') =>
    exists v', fd_effect ex_bridge (mk_stat [] 0 0 0) s (FdOpen 100 O_APPEND 0) (fun _ => None) r v' /\
      fd_rel 0 th (g_tasks SchedSpec.two_threads) s' v').
Proof.
  intros s th. apply (fd_table_refines ex_bridge TIMER_ARCH_RV64 (fun _ => mk_hw 0 0 0) 0 (mk_stat [] 0 0 0) 0 th (g_tasks SchedSpec.two_threads) s
    (fun _ => None) (FdOpen 100 O_APPEND 0)).
  - intros p. unfold run_vfs, vfs_stat. destruct (VfsSpec.normalize_exists p) as (norm & ->). eexists. reflexivity.
  - intros p fl. unfold open_file, run_vfs, vfs_stat, vfs_create, simple_op. destruct (VfsSpec.normalize_exists p) as (norm & ->).
    destruct (has_flag fl O_CREAT), (has_flag fl O_EXCL), (has_flag fl O_TRUNC); eexists; reflexivity.
  - split_and!; [done|reflexivity|vm_compute; done|vm_compute; done|reflexivity|].
    exists (replicate (Z.to_nat MAX_FD) fd_zero). split_and!; [reflexivity|reflexivity|]. intros x. unfold fd_view.
    destruct ((replicate _ fd_zero).[x]) eqn:E; [|done]. by apply zget_replicate_inv in E as ->.
Defined.

Lemma ex_confined : confined (ex_kernel PERM_VFS_CAP_ONLY ex_exts [(100, [47; 98])]) 0 ex_table.
Proof. split_and!; [done|reflexivity|reflexivity|]. eexists. split_and!; reflexivity. Qed.

(** "/b" with the capability for "/a". *)
Lemma confined_refused_witness :
  let s := ex_state PERM_VFS_CAP_ONLY ex_exts [(100, [47; 98])] in
  let refusal := refused TIMER_ARCH_RV64 (fun _ => mk_hw 0 0 0) in
  completes (sys_open ex_bridge TIMER_ARCH_RV64 (fun _ => mk_hw 0 0 0) 0 (mk_stat [] 0 0 0) 100 0 0 s)
    (refusal "SECURITY: Denied VFS open access (no capability)"%string s) /\
  completes (sys_unlink ex_bridge TIMER_ARCH_RV64 (fun _ => mk_hw 0 0 0) 0 100 s)
    (refusal "SECURITY: Denied VFS unlink access (no capability)"%string s).
Proof.
  intros s r0. destruct (confined_refused ex_bridge TIMER_ARCH_RV64 (fun _ => mk_hw 0 0 0) 0 (mk_stat [] 0 0 0) 0 ex_table s 100 [47; 98])
    as (Hopen & Hunlink & _).
  - apply ex_confined.
  - vm_compute. reflexivity.
  - apply dmesg_wf_static.
  - reflexivity.
  - split; [apply Hopen|apply Hunlink]; apply forallb_Forall_false; vm_compute; reflexivity.
Defined.

(** With the capability for "/a": "/a/../etc". *)
Lemma dotdot_escapes_witness :
  up [97] [47; 101; 116; 99] = [47; 97; 47; 46; 46; 47; 101; 116; 99] /\
  task_has_vfs_cap (Some 0) (up [97] [47; 101; 116; 99]) IPC_CAP_RIGHT_VFS_READ (ex_kernel PERM_VFS_CAP_ONLY ex_exts [(100, [47; 98])]) = Ret true /\
  vfs_read ex_bridge 0 (up [97] [47; 101; 116; 99]) 0 5 ex_vfs = vfs_read ex_bridge 0 [47; 101; 116; 99] 0 5 ex_vfs.
Proof.
  split; [reflexivity|].
  destruct (dotdot_escapes (ex_kernel PERM_VFS_CAP_ONLY ex_exts [(100, [47; 98])]) 0 ex_table 0 ex_cap [97] IPC_CAP_RIGHT_VFS_READ [47; 101; 116; 99])
    as (Hcap & Hop).
  - apply ex_confined.
  - reflexivity.
  - reflexivity.
  - reflexivity.
  - reflexivity.
  - reflexivity.
  - split_and!; [done|done|done|]. by intros [[=]|[]%elem_of_nil]%elem_of_cons.
  - right. by eexists.
  - split; [exact Hcap|]. by apply Hop.
Defined.

(** The child of the confined thread 0. *)
Lemma vfork_unconfines_witness :
  exists s' k, sys_vfork TIMER_ARCH_RV64 65536 0 0 8192 8200 (ex_state PERM_VFS_CAP_ONLY ex_exts []) = PSwitch 0 2 s' k /\
    task_has_vfs_cap (Some 2) [47; 98] IPC_CAP_RIGHT_VFS_WRITE (s_k s') = Ret true.
Proof.
  destruct (sys_vfork TIMER_ARCH_RV64 65536 0 0 8192 8200 (ex_state PERM_VFS_CAP_ONLY ex_exts [])) as [a s|from to s' k|s| |] eqn:E.
  2: { assert (from = 0 /\ to = 2) as [-> ->].
       { apply (f_equal (fun m => match m with PSwitch f t _ _ => (f, t) | _ => (0, 0) end)) in E. vm_compute in E. by simplify_eq. }
       exists s', k. split; [reflexivity|]. exact (vfork_unconfines _ _ _ _ _ _ _ _ _ _ _ [47; 98] IPC_CAP_RIGHT_VFS_WRITE E). }
  all: exfalso; apply (f_equal (fun m => match m with PSwitch _ _ _ _ => true | _ => false end)) in E; vm_compute in E; discriminate E.
Defined.
End SyscallSpec.
