(* ===== verification/Float64.v ===== *)
(** * Double-precision numbers

    Numbers of the virtual machine (kernel/core/sagelang/metal_vm.c) are 64-bit
    words read as IEEE 754 doubles through a union.  The arithmetic is that of
    [SpecFloat], rounding to nearest even.  What C and the processor leave open is
    a parameter: the bits of a result that is not a number, and conversions to
    integers out of range. *)

From Stdlib Require Import SpecFloat.
From stdpp Require Import base tactics numbers.
From S2P Require Import Prelude.

Module Float64.

Definition prec : Z := 53.
Definition emax : Z := 1024.

(** The value of a 64-bit word. *)
Definition decode (b : Z) : spec_float :=
  let s := Z.testbit b 63 in
  let e := (b / 2 ^ 52) mod 2048 in
  let m := b mod 2 ^ 52 in
  if e =? 2047 then (if m =? 0 then S754_infinity s else S754_nan)
  else if e =? 0 then
    match m with Zpos p => S754_finite s p (-1074) | _ => S754_zero s end
  else match m + 2 ^ 52 with Zpos p => S754_finite s p (e - 1075) | _ => S754_nan end.

Definition sign_bit (s : bool) : Z := if s then 2 ^ 63 else 0.

(** The word of a value; [nan] for the one that is not a number. *)
Definition encode (nan : Z) (x : spec_float) : Z :=
  match x with
  | S754_zero s => sign_bit s
  | S754_infinity s => sign_bit s + 2047 * 2 ^ 52
  | S754_nan => nan
  | S754_finite s m e =>
      if Zpos m <? 2 ^ 52 then sign_bit s + Zpos m else sign_bit s + (e + 1075) * 2 ^ 52 + (Zpos m - 2 ^ 52)
  end.

Section float.
(** Bits of a result that is not a number, from the operands. *)
Context (nan_of : Z -> Z -> Z).
(** What a conversion of a word out of range, or not a number, yields. *)
Context (int_of long_of : Z -> Z).

Definition arith (f : spec_float -> spec_float -> spec_float) (a b : Z) : Z := encode (nan_of a b) (f (decode a) (decode b)).
Definition d_add : Z -> Z -> Z := arith (SFadd prec emax).
Definition d_sub : Z -> Z -> Z := arith (SFsub prec emax).
Definition d_mul : Z -> Z -> Z := arith (SFmul prec emax).
Definition d_div : Z -> Z -> Z := arith (SFdiv prec emax).

(** The sign bit is flipped, also of what is not a number. *)
Definition d_neg (a : Z) : Z := Z.lxor a (2 ^ 63).

Definition d_ltb (a b : Z) : bool := SFltb (decode a) (decode b).
Definition d_leb (a b : Z) : bool := SFleb (decode a) (decode b).
Definition d_eqb (a b : Z) : bool := SFeqb (decode a) (decode b).

(** Truncation; [None] when there is no integer. *)
Definition trunc (x : spec_float) : option Z :=
  match x with
  | S754_zero _ => Some 0
  | S754_finite s m e =>
      let n := if 0 <=? e then Zpos m * 2 ^ e else Zpos m / 2 ^ (- e) in Some (if s then - n else n)
  | _ => None
  end.

Definition to_width (w : Z) (out : Z -> Z) (b : Z) : Z :=
  match trunc (decode b) with
  | Some n => if (- 2 ^ (w - 1) <=? n) && (n <? 2 ^ (w - 1)) then n else out b
  | None => out b
  end.

(** [(int)d] and [(long long)d]. *)
Definition d_int : Z -> Z := to_width 32 int_of.
Definition d_long : Z -> Z := to_width 64 long_of.

(** [(double)n]. *)
Definition d_of_int (n : Z) : Z := encode 0 (binary_normalize prec emax n 0 false).
End float.

(** 1.5 + 2.25 = 3.75, -7.9 truncates to -7, 10 / 4 = 2.5. *)
Example add_ex : d_add (fun _ _ => 0) 0x3FF8000000000000 0x4002000000000000 = 0x400E000000000000.
Proof. reflexivity. Qed.
Example trunc_ex : trunc (decode 0xC01F99999999999A) = Some (-7).
Proof. reflexivity. Qed.
Example div_ex : d_div (fun _ _ => 0) (d_of_int 10) (d_of_int 4) = 0x4004000000000000.
Proof. reflexivity. Qed.
End Float64.
