(* ===== verification/Vm.v ===== *)
(** * Byte-code virtual machine (kernel/core/sagelang/metal_vm.c,
    include/metal_vm.h, include/vm_core_shared.h)

    The interpreter of compiled Sage programs: a stack machine with fixed pools for
    scopes, call frames, arrays, dictionaries, functions and strings, a mark phase
    that finds unused arrays and dictionaries, and the loader of program files.
    Native functions and [sage_import_module], which are called through the host
    kernel, are parameters.  A value is a tag and a 64-bit word; the word is read
    as a double, an integer or a pointer whatever the tag, as the union of the C
    structure is.  [junk] is the upper half of a word of which the code sets only
    the lower.  What is sent to the kernel trace is recorded in [v_trace]. *)

From stdpp Require Import base tactics numbers option strings list.
From S2P Require Import Prelude Digits CMem Float64.

Module Vm.
Import Float64.

(** ** Model *)

Definition METAL_STACK_SIZE : Z := 2048.
Definition METAL_STRING_POOL : Z := 2097152.
Definition METAL_HEAP_SIZE : Z := 8388608.
Definition METAL_CONST_POOL : Z := 4096.
Definition METAL_ENV_DEPTH : Z := 32.
Definition METAL_VARS_PER_SCOPE : Z := 512.
Definition METAL_NATIVE_MAX : Z := 256.
Definition METAL_ARRAY_MAX_ELEMS : Z := 256.
Definition METAL_DICT_MAX_ENTRIES : Z := 64.
Definition METAL_CALL_STACK : Z := 128.
Definition POOL_MAX : Z := 1024.
(** [sizeof(MetalValue)]; the heap holds constants of functions only. *)
Definition SIZEOF_VALUE : Z := 16.

Inductive mtype := MV_NIL | MV_NUM | MV_BOOL | MV_STR | MV_ARR | MV_DICT | MV_FN | MV_PTR.

#[global] Instance mtype_eq_dec : EqDecision mtype.
Proof. solve_decision. Defined.

Definition type_code (t : mtype) : Z :=
  match t with MV_NIL => 0 | MV_NUM => 1 | MV_BOOL => 2 | MV_STR => 3 | MV_ARR => 4 | MV_DICT => 5 | MV_FN => 6 | MV_PTR => 7 end.

Record mvalue := mk_mv { mv_type : mtype; mv_bits : Z }.

(** The member of type [int] of the union. *)
Definition as_int (v : mvalue) : Z := s32 (mv_bits v).

Record marray := mk_arr { elems : list mvalue; a_count : Z; a_in_use : Z }.
Record mdict := mk_dict { key_str_idx : list Z; d_values : list mvalue; d_count : Z; d_in_use : Z }.

(** A pointer into program text. *)
Record code := mk_code { c_data : list Z; c_off : Z }.

(** A pointer to constants: the main pool, or values of the heap from an index. *)
Inductive pool_ptr := PoolMain | PoolHeap (base : Z).

Record mfun := mk_fun {
  f_code : code; f_code_length : Z; f_constants : pool_ptr; f_const_count : Z;
  param_count : Z; param_name_hashes : list Z
}.

Record scope := mk_scope { name_hash : list Z; name_const_idx : list Z; s_values : list mvalue; s_count : Z }.

Record frame := mk_frame { fr_code : code; fr_code_length : Z; fr_ip : Z; sp_base : Z; fr_constants : pool_ptr; fr_const_count : Z }.

(** The text, the position in it and the constants in use. *)
Record regs := mk_regs { r_code : code; code_length : Z; ip : Z; constants : pool_ptr; const_count : Z }.

Inductive con_item := CStr (s : string) | CText (l : list Z) | CU32 (v : Z) | CHex64 (v : Z).

Section world.
(** The rest of the system, which only native functions see. *)
Context {W : Type}.

Record vm := mk_vm {
  stack : list mvalue;
  sp : Z;
  call_stack : list frame;
  frame_count : Z;
  cur : regs;
  main_constants : list mvalue;
  main_const_count : Z;
  scopes : list scope;
  scope_depth : Z;
  arrays : list marray;
  array_count : Z;
  dicts : list mdict;
  dict_count : Z;
  functions : list mfun;
  fn_count : Z;
  strings : mem;
  string_used : Z;
  vheap : Z -> mvalue;
  heap_used : Z;
  halted : Z;
  error : Z;
  error_msg : string;
  write_char : bool;
  natives : list (Z * Z);
  native_count : Z;
  v_out : list Z;
  v_console : list con_item;
  v_trace : list (Z * Z);
  v_world : W
}.

Definition with_stack (x : list mvalue) (m : vm) : vm :=
  mk_vm x (sp m) (call_stack m) (frame_count m) (cur m) (main_constants m) (main_const_count m) (scopes m)
    (scope_depth m) (arrays m) (array_count m) (dicts m) (dict_count m) (functions m) (fn_count m) (strings m)
    (string_used m) (vheap m) (heap_used m) (halted m) (error m) (error_msg m) (write_char m) (natives m)
    (native_count m) (v_out m) (v_console m) (v_trace m) (v_world m).

Definition with_sp (x : Z) (m : vm) : vm :=
  mk_vm (stack m) x (call_stack m) (frame_count m) (cur m) (main_constants m) (main_const_count m) (scopes m)
    (scope_depth m) (arrays m) (array_count m) (dicts m) (dict_count m) (functions m) (fn_count m) (strings m)
    (string_used m) (vheap m) (heap_used m) (halted m) (error m) (error_msg m) (write_char m) (natives m)
    (native_count m) (v_out m) (v_console m) (v_trace m) (v_world m).

Definition with_frames (x : list frame) (n : Z) (m : vm) : vm :=
  mk_vm (stack m) (sp m) x n (cur m) (main_constants m) (main_const_count m) (scopes m) (scope_depth m) (arrays m)
    (array_count m) (dicts m) (dict_count m) (functions m) (fn_count m) (strings m) (string_used m) (vheap m)
    (heap_used m) (halted m) (error m) (error_msg m) (write_char m) (natives m) (native_count m) (v_out m)
    (v_console m) (v_trace m) (v_world m).

Definition with_cur (x : regs) (m : vm) : vm :=
  mk_vm (stack m) (sp m) (call_stack m) (frame_count m) x (main_constants m) (main_const_count m) (scopes m)
    (scope_depth m) (arrays m) (array_count m) (dicts m) (dict_count m) (functions m) (fn_count m) (strings m)
    (string_used m) (vheap m) (heap_used m) (halted m) (error m) (error_msg m) (write_char m) (natives m)
    (native_count m) (v_out m) (v_console m) (v_trace m) (v_world m).

Definition with_main (x : list mvalue) (n : Z) (m : vm) : vm :=
  mk_vm (stack m) (sp m) (call_stack m) (frame_count m) (cur m) x n (scopes m) (scope_depth m) (arrays m)
    (array_count m) (dicts m) (dict_count m) (functions m) (fn_count m) (strings m) (string_used m) (vheap m)
    (heap_used m) (halted m) (error m) (error_msg m) (write_char m) (natives m) (native_count m) (v_out m)
    (v_console m) (v_trace m) (v_world m).

Definition with_scopes (x : list scope) (m : vm) : vm :=
  mk_vm (stack m) (sp m) (call_stack m) (frame_count m) (cur m) (main_constants m) (main_const_count m) x
    (scope_depth m) (arrays m) (array_count m) (dicts m) (dict_count m) (functions m) (fn_count m) (strings m)
    (string_used m) (vheap m) (heap_used m) (halted m) (error m) (error_msg m) (write_char m) (natives m)
    (native_count m) (v_out m) (v_console m) (v_trace m) (v_world m).

Definition with_depth (x : Z) (m : vm) : vm :=
  mk_vm (stack m) (sp m) (call_stack m) (frame_count m) (cur m) (main_constants m) (main_const_count m) (scopes m) x
    (arrays m) (array_count m) (dicts m) (dict_count m) (functions m) (fn_count m) (strings m) (string_used m)
    (vheap m) (heap_used m) (halted m) (error m) (error_msg m) (write_char m) (natives m) (native_count m) (v_out m)
    (v_console m) (v_trace m) (v_world m).

Definition with_arrays (x : list marray) (n : Z) (m : vm) : vm :=
  mk_vm (stack m) (sp m) (call_stack m) (frame_count m) (cur m) (main_constants m) (main_const_count m) (scopes m)
    (scope_depth m) x n (dicts m) (dict_count m) (functions m) (fn_count m) (strings m) (string_used m) (vheap m)
    (heap_used m) (halted m) (error m) (error_msg m) (write_char m) (natives m) (native_count m) (v_out m)
    (v_console m) (v_trace m) (v_world m).

Definition with_dicts (x : list mdict) (n : Z) (m : vm) : vm :=
  mk_vm (stack m) (sp m) (call_stack m) (frame_count m) (cur m) (main_constants m) (main_const_count m) (scopes m)
    (scope_depth m) (arrays m) (array_count m) x n (functions m) (fn_count m) (strings m) (string_used m) (vheap m)
    (heap_used m) (halted m) (error m) (error_msg m) (write_char m) (natives m) (native_count m) (v_out m)
    (v_console m) (v_trace m) (v_world m).

Definition with_functions (x : list mfun) (n : Z) (m : vm) : vm :=
  mk_vm (stack m) (sp m) (call_stack m) (frame_count m) (cur m) (main_constants m) (main_const_count m) (scopes m)
    (scope_depth m) (arrays m) (array_count m) (dicts m) (dict_count m) x n (strings m) (string_used m) (vheap m)
    (heap_used m) (halted m) (error m) (error_msg m) (write_char m) (natives m) (native_count m) (v_out m)
    (v_console m) (v_trace m) (v_world m).

Definition with_strings (x : mem) (n : Z) (m : vm) : vm :=
  mk_vm (stack m) (sp m) (call_stack m) (frame_count m) (cur m) (main_constants m) (main_const_count m) (scopes m)
    (scope_depth m) (arrays m) (array_count m) (dicts m) (dict_count m) (functions m) (fn_count m) x n (vheap m)
    (heap_used m) (halted m) (error m) (error_msg m) (write_char m) (natives m) (native_count m) (v_out m)
    (v_console m) (v_trace m) (v_world m).

Definition with_vheap (x : Z -> mvalue) (n : Z) (m : vm) : vm :=
  mk_vm (stack m) (sp m) (call_stack m) (frame_count m) (cur m) (main_constants m) (main_const_count m) (scopes m)
    (scope_depth m) (arrays m) (array_count m) (dicts m) (dict_count m) (functions m) (fn_count m) (strings m)
    (string_used m) x n (halted m) (error m) (error_msg m) (write_char m) (natives m) (native_count m) (v_out m)
    (v_console m) (v_trace m) (v_world m).

Definition with_halted (x : Z) (m : vm) : vm :=
  mk_vm (stack m) (sp m) (call_stack m) (frame_count m) (cur m) (main_constants m) (main_const_count m) (scopes m)
    (scope_depth m) (arrays m) (array_count m) (dicts m) (dict_count m) (functions m) (fn_count m) (strings m)
    (string_used m) (vheap m) (heap_used m) x (error m) (error_msg m) (write_char m) (natives m) (native_count m)
    (v_out m) (v_console m) (v_trace m) (v_world m).

Definition with_error (x : Z) (s : string) (m : vm) : vm :=
  mk_vm (stack m) (sp m) (call_stack m) (frame_count m) (cur m) (main_constants m) (main_const_count m) (scopes m)
    (scope_depth m) (arrays m) (array_count m) (dicts m) (dict_count m) (functions m) (fn_count m) (strings m)
    (string_used m) (vheap m) (heap_used m) (halted m) x s (write_char m) (natives m) (native_count m) (v_out m)
    (v_console m) (v_trace m) (v_world m).

Definition with_natives (x : list (Z * Z)) (n : Z) (m : vm) : vm :=
  mk_vm (stack m) (sp m) (call_stack m) (frame_count m) (cur m) (main_constants m) (main_const_count m) (scopes m)
    (scope_depth m) (arrays m) (array_count m) (dicts m) (dict_count m) (functions m) (fn_count m) (strings m)
    (string_used m) (vheap m) (heap_used m) (halted m) (error m) (error_msg m) (write_char m) x n (v_out m)
    (v_console m) (v_trace m) (v_world m).

Definition with_out (x : list Z) (m : vm) : vm :=
  mk_vm (stack m) (sp m) (call_stack m) (frame_count m) (cur m) (main_constants m) (main_const_count m) (scopes m)
    (scope_depth m) (arrays m) (array_count m) (dicts m) (dict_count m) (functions m) (fn_count m) (strings m)
    (string_used m) (vheap m) (heap_used m) (halted m) (error m) (error_msg m) (write_char m) (natives m)
    (native_count m) x (v_console m) (v_trace m) (v_world m).

Definition with_console (x : list con_item) (m : vm) : vm :=
  mk_vm (stack m) (sp m) (call_stack m) (frame_count m) (cur m) (main_constants m) (main_const_count m) (scopes m)
    (scope_depth m) (arrays m) (array_count m) (dicts m) (dict_count m) (functions m) (fn_count m) (strings m)
    (string_used m) (vheap m) (heap_used m) (halted m) (error m) (error_msg m) (write_char m) (natives m)
    (native_count m) (v_out m) x (v_trace m) (v_world m).

Definition with_vtrace (x : list (Z * Z)) (m : vm) : vm :=
  mk_vm (stack m) (sp m) (call_stack m) (frame_count m) (cur m) (main_constants m) (main_const_count m) (scopes m)
    (scope_depth m) (arrays m) (array_count m) (dicts m) (dict_count m) (functions m) (fn_count m) (strings m)
    (string_used m) (vheap m) (heap_used m) (halted m) (error m) (error_msg m) (write_char m) (natives m)
    (native_count m) (v_out m) (v_console m) x (v_world m).

Definition with_world (x : W) (m : vm) : vm :=
  mk_vm (stack m) (sp m) (call_stack m) (frame_count m) (cur m) (main_constants m) (main_const_count m) (scopes m)
    (scope_depth m) (arrays m) (array_count m) (dicts m) (dict_count m) (functions m) (fn_count m) (strings m)
    (string_used m) (vheap m) (heap_used m) (halted m) (error m) (error_msg m) (write_char m) (natives m)
    (native_count m) (v_out m) (v_console m) (v_trace m) x.

(** [vm->write_char] is set. *)
Definition with_writer (m : vm) : vm :=
  mk_vm (stack m) (sp m) (call_stack m) (frame_count m) (cur m) (main_constants m) (main_const_count m) (scopes m)
    (scope_depth m) (arrays m) (array_count m) (dicts m) (dict_count m) (functions m) (fn_count m) (strings m)
    (string_used m) (vheap m) (heap_used m) (halted m) (error m) (error_msg m) true (natives m)
    (native_count m) (v_out m) (v_console m) (v_trace m) (v_world m).

Definition mv_nil : mvalue := mk_mv MV_NIL 0.
Definition mv_num (val : Z) : mvalue := mk_mv MV_NUM val.
Definition mv_ptr (p : Z) : mvalue := mk_mv MV_PTR p.

Definition code_nil : code := mk_code [] 0.
Definition arr_zero : marray := mk_arr (replicate (Z.to_nat METAL_ARRAY_MAX_ELEMS) mv_nil) 0 0.
Definition dict_zero : mdict :=
  mk_dict (replicate (Z.to_nat METAL_DICT_MAX_ENTRIES) 0) (replicate (Z.to_nat METAL_DICT_MAX_ENTRIES) mv_nil) 0 0.
Definition fun_zero : mfun := mk_fun code_nil 0 PoolMain 0 0 (replicate 8 0).
Definition scope_zero : scope :=
  mk_scope (replicate (Z.to_nat METAL_VARS_PER_SCOPE) 0) (replicate (Z.to_nat METAL_VARS_PER_SCOPE) 0)
    (replicate (Z.to_nat METAL_VARS_PER_SCOPE) mv_nil) 0.
Definition frame_zero : frame := mk_frame code_nil 0 0 0 PoolMain 0.

(** All zeroes, except for the pointer to the constants. *)
Definition metal_vm_init (w : W) : vm :=
  mk_vm (replicate (Z.to_nat METAL_STACK_SIZE) mv_nil) 0 (replicate (Z.to_nat METAL_CALL_STACK) frame_zero) 0
    (mk_regs code_nil 0 0 PoolMain 0) (replicate (Z.to_nat METAL_CONST_POOL) mv_nil) 0
    (replicate (Z.to_nat METAL_ENV_DEPTH) scope_zero) 0 (replicate (Z.to_nat POOL_MAX) arr_zero) 0
    (replicate (Z.to_nat POOL_MAX) dict_zero) 0 (replicate (Z.to_nat POOL_MAX) fun_zero) 0 mem_zero 0 (fun _ => mv_nil) 0
    0 0 EmptyString false (replicate (Z.to_nat METAL_NATIVE_MAX) (0, 0)) 0 [] [] [] w.

Definition metal_vm_load (c : code) (length : Z) (m : vm) : vm :=
  with_cur (mk_regs c length 0 (constants (cur m)) (const_count (cur m))) m.

Definition ipof (m : vm) : Z := ip (cur m).
Definition with_ip (x : Z) (m : vm) : vm :=
  with_cur (mk_regs (r_code (cur m)) (code_length (cur m)) x (constants (cur m)) (const_count (cur m))) m.

Definition say (l : list con_item) (m : vm) : vm := with_console (v_console m ++ l) m.
Definition fail (msg : string) (m : vm) : vm := with_error 1 msg m.

Definition metal_fnv1a (s : list Z) : Z := foldl (fun h c => u32 (Z.lxor h (u8 c) * 16777619)) 2166136261 s.

(** *** Reading the program *)

Definition code_at (i : Z) (m : vm) : outcome Z := rd (c_data (r_code (cur m))) (c_off (r_code (cur m)) + i).

Definition read_u8 (m : vm) : outcome (Z * vm) :=
  if code_length (cur m) <=? ipof m then Ret (0, fail "Metal VM: code read out of bounds" m)
  else b ← code_at (ipof m) m; Ret (b, with_ip (s32 (ipof m + 1)) m).

(** [read_u16] and [read_u16_be]. *)
Definition read_u16 (m : vm) : outcome (Z * vm) :=
  if code_length (cur m) <=? s32 (ipof m + 1) then Ret (0, fail "Metal VM: code read out of bounds" m)
  else
    hi ← code_at (ipof m) m;
    lo ← code_at (ipof m + 1) m;
    Ret (Z.lor (Z.shiftl hi 8) lo, with_ip (s32 (ipof m + 2)) m).

(** *** Stack *)

(** The result is not used by the machine. *)
Definition metal_vm_push (v : mvalue) (m : vm) : outcome vm :=
  if METAL_STACK_SIZE <=? sp m then Ret (fail "Metal VM: stack overflow" m)
  else st ← wr (stack m) (sp m) v; Ret (with_sp (sp m + 1) (with_stack st m)).

Definition metal_vm_pop (m : vm) : outcome (mvalue * vm) :=
  if sp m <=? 0 then Ret (mv_nil, m)
  else v ← rd (stack m) (sp m - 1); Ret (v, with_sp (sp m - 1) m).

Definition metal_vm_peek (distance : Z) (m : vm) : outcome mvalue :=
  let idx := sp m - 1 - distance in
  if (idx <? 0) || (sp m <=? idx) then Ret mv_nil else rd (stack m) idx.

(** *** Strings *)

(** The characters from [a] to the next NUL, which is among the next [n]. *)
Fixpoint chars_at (n : nat) (m : mem) (a : Z) : outcome (list Z) :=
  match n with
  | O => OutOfFuel
  | S k => if m a =? 0 then Ret [] else r ← chars_at k m (a + 1); Ret (m a :: r)
  end.

Definition metal_string_get (idx : Z) (m : vm) : outcome (list Z) :=
  if (idx <? 0) || (string_used m <=? idx) then Ret []
  else chars_at (Z.to_nat (string_used m - idx)) (strings m) idx.

(** The scan for [s] from [search]. *)
Fixpoint intern_search (fuel : nat) (search : Z) (s : list Z) (m : vm) : outcome (option Z) :=
  if search <? string_used m then
    match fuel with
    | O => OutOfFuel
    | S k =>
        existing ← chars_at (Z.to_nat (string_used m - search)) (strings m) search;
        if bool_decide (existing = s) then Ret (Some search) else intern_search k (search + zlen existing + 1) s m
    end
  else Ret None.

(** [s] has [len] bytes; the result is an index, or -1. *)
Definition metal_string_intern (s : list Z) (m : vm) : outcome (Z * vm) :=
  r ← intern_search (Z.to_nat (string_used m)) 0 s m;
  match r with
  | Some i => Ret (i, m)
  | None =>
      if METAL_STRING_POOL <? string_used m + zlen s + 1 then
        Ret (-1, say [CStr "Metal VM: STRING POOL OVERFLOW
"] m)
      else
        let idx := string_used m in
        let st := fun x => if in_block idx (zlen s) x then default 0 (s.[x - idx]) else strings m x in
        Ret (idx, with_strings (store_le 1 st (idx + zlen s) 0) (idx + zlen s + 1) m)
  end.

Section vm.
(** The upper half of a partly set word. *)
Context (junk : Z).
(** What the floating-point hardware decides. *)
Context (nan_of : Z -> Z -> Z) (int_of long_of : Z -> Z).
(** Native functions by address, and the loader of modules. *)
Context (native : Z -> list mvalue -> vm -> outcome (mvalue * vm)) (sage_import_module : list Z -> vm -> outcome vm).
(** Whether [vm->ip -= read_u16(vm)] reads [ip] before the call; depth of printing. *)
Context (ip_first : bool) (print_depth : nat).

Definition of_int (t : mtype) (n : Z) : mvalue := mk_mv t (u32 n + 2 ^ 32 * u32 junk).
Definition mv_bool (b : bool) : mvalue := of_int MV_BOOL (if b then 1 else 0).

Definition mv_str (s : list Z) (m : vm) : outcome (mvalue * vm) :=
  '(i, m1) ← metal_string_intern s m; Ret (of_int MV_STR i, m1).
Definition metal_vm_string_new (s : list Z) (m : vm) : outcome (mvalue * vm) := mv_str s m.

(** The first test compares lengths that fit in an [int]. *)
Definition metal_string_concat (idx_a idx_b : Z) (m : vm) : outcome (Z * vm) :=
  a ← metal_string_get idx_a m;
  b ← metal_string_get idx_b m;
  if (1073741823 <? zlen a) || (1073741823 <? zlen b) then Ret (-1, m)
  else if 4096 <? zlen a + zlen b then Ret (-1, m)
  else metal_string_intern (a ++ b) m.

(** The characters of a number; -2^63 negates to itself and has no digits. *)
Definition num_chars (n : Z) : outcome (list Z) :=
  let a := if n <? 0 then s64 (- n) else n in
  ds ← (if a =? 0 then Ret [0] else digit_loop digit_fuel 10 a);
  Ret ((if n <? 0 then [45] else []) ++ rev ((fun d => 48 + d) <$> ds)).

Definition metal_num_to_str (n : Z) (m : vm) : outcome (Z * vm) := s ← num_chars n; metal_string_intern s m.

(** *** Constants and program files *)

Definition metal_vm_add_constant (v : mvalue) (m : vm) : outcome (Z * vm) :=
  if METAL_CONST_POOL <=? main_const_count m then Ret (-1, m)
  else
    cs ← wr (main_constants m) (main_const_count m) v;
    let n := main_const_count m + 1 in
    Ret (n - 1, with_cur (mk_regs (r_code (cur m)) (code_length (cur m)) (ipof m) PoolMain n) (with_main cs n m)).

Definition const_at (i : Z) (m : vm) : outcome mvalue :=
  match constants (cur m) with
  | PoolMain => rd (main_constants m) i
  | PoolHeap base => if (0 <=? base + i) && ((base + i) * SIZEOF_VALUE <? METAL_HEAP_SIZE) then Ret (vheap m (base + i)) else Fault
  end.

Definition put_const (p : pool_ptr) (i : Z) (v : mvalue) (m : vm) : outcome vm :=
  match p with
  | PoolMain => cs ← wr (main_constants m) i v; Ret (with_main cs (main_const_count m) m)
  | PoolHeap base =>
      if (0 <=? base + i) && ((base + i) * SIZEOF_VALUE <? METAL_HEAP_SIZE)
      then Ret (with_vheap (fun x => if x =? base + i then v else vheap m x) (heap_used m) m) else Fault
  end.

Definition read_u16_le (data : list Z) (pos : Z) : outcome Z :=
  a ← rd data pos; b ← rd data (pos + 1); Ret (Z.lor a (Z.shiftl b 8)).
Definition read_u32_le (data : list Z) (pos : Z) : outcome Z :=
  a ← rd data pos; b ← rd data (pos + 1); c ← rd data (pos + 2); d ← rd data (pos + 3);
  Ret (s32 (Z.lor a (Z.lor (Z.shiftl b 8) (Z.lor (Z.shiftl c 16) (Z.shiftl d 24))))).

Fixpoint rd_bytes (n : nat) (data : list Z) (pos : Z) : outcome (list Z) :=
  match n with
  | O => Ret []
  | S k => b ← rd data pos; r ← rd_bytes k data (pos + 1); Ret (b :: r)
  end.

(** The sum of two [int]s; overflow is not defined. *)
Definition add_int (a b : Z) : outcome Z := if (- 2 ^ 31 <=? a + b) && (a + b <? 2 ^ 31) then Ret (a + b) else Fault.

(** One constant at [pos], [None] when the file ends in it, and the position reached. *)
Definition load_const (data : list Z) (pos : Z) (m : vm) : outcome (option mvalue * Z * vm) :=
  if zlen data <=? pos then Ret (None, pos, m)
  else
    type ← rd data pos;
    let p := pos + 1 in
    if type =? 1 then
      if zlen data <? p + 8 then Ret (None, p, m)
      else bs ← rd_bytes 8 data p; Ret (Some (mv_num (load_le 8 (fun i => default 0 (bs.[i])) 0)), p + 8, m)
    else if type =? 2 then
      if zlen data <? p + 2 then Ret (None, p, m)
      else
        slen ← read_u16_le data p;
        if zlen data <? p + 2 + slen then Ret (None, p + 2, m)
        else
          bs ← rd_bytes (Z.to_nat slen) data (p + 2);
          '(v, m1) ← mv_str bs m;
          let m2 := if as_int v <? 0 then say [CStr "Metal VM: FAILED TO INTERN STRING
"] m1 else m1 in
          Ret (Some v, p + 2 + slen, m2)
    else Ret (Some mv_nil, p, m).

(** [n] constants from index [i]; the position after the last one read. *)
Fixpoint load_consts (n : nat) (i : Z) (data : list Z) (pos : Z) (pool : pool_ptr) (max : Z) (m : vm) : outcome (Z * vm) :=
  match n with
  | O => Ret (pos, m)
  | S k =>
      '(r, pos1, m1) ← load_const data pos m;
      match r with
      | None => Ret (pos1, m1)
      | Some v =>
          m2 ← (if i <? max then put_const pool i v m1 else Ret m1);
          load_consts k (i + 1) data pos1 pool max m2
      end
  end.

(** The number of constants, and the position after them. *)
Definition load_const_pool (data : list Z) (pos : Z) (pool : pool_ptr) (max : Z) (m : vm) : outcome (Z * Z * vm) :=
  if zlen data <? pos + 2 then Ret (0, pos, m)
  else
    count ← read_u16_le data pos;
    '(pos1, m1) ← load_consts (Z.to_nat count) 0 data (pos + 2) pool max m;
    Ret (if count <? max then count else max, pos1, m1).

(** Parameter hashes from index [p]; the position after them, [None] when the file ends. *)
Fixpoint load_hashes (n : nat) (p : Z) (data : list Z) (pos : Z) (hs : list Z) : outcome (option Z * list Z) :=
  match n with
  | O => Ret (Some pos, hs)
  | S k =>
      if zlen data <? pos + 4 then Ret (None, hs)
      else h ← read_u32_le data pos; hs1 ← wr hs p (u32 h); load_hashes k (p + 1) data (pos + 4) hs1
  end.

Definition set_fun (i : Z) (f : mfun -> mfun) (m : vm) : outcome vm :=
  x ← rd (functions m) i; fs ← wr (functions m) i (f x); Ret (with_functions fs (fn_count m) m).

(** The constants and the code of function [i], from [pos]. *)
Definition load_body (i : Z) (data : list Z) (pos : Z) (m : vm) : outcome (option Z * vm) :=
  if zlen data <? pos + 2 then Ret (None, m)
  else
    peek ← read_u16_le data pos;
    if METAL_HEAP_SIZE <? heap_used m + peek * SIZEOF_VALUE
    then Ret (None, say [CStr "load_binary: heap overflow at fn constants
"] m)
    else
      let pool := PoolHeap (heap_used m / SIZEOF_VALUE) in
      '(n, pos1, m1) ← load_const_pool data pos pool peek m;
      m2 ← set_fun i (fun f => mk_fun (f_code f) (f_code_length f) pool n (param_count f) (param_name_hashes f)) m1;
      let m3 := with_vheap (vheap m2) (heap_used m2 + n * SIZEOF_VALUE) m2 in
      if zlen data <? pos1 + 4 then Ret (None, m3)
      else
        flen ← read_u32_le data pos1;
        last ← add_int (pos1 + 4) flen;
        if zlen data <? last then Ret (None, m3)
        else
          m4 ← set_fun i (fun f => mk_fun (mk_code data (pos1 + 4)) flen (f_constants f) (f_const_count f)
                                    (param_count f) (param_name_hashes f)) m3;
          Ret (Some last, m4).

(** One function of the file; [None] for the error returns. *)
Definition load_function (i : Z) (data : list Z) (pos : Z) (m : vm) : outcome (option Z * vm) :=
  if zlen data <? pos + 2 then Ret (None, m)
  else
    pc ← read_u16_le data pos;
    if 8 <? pc then Ret (None, say [CStr "load_binary: too many params
"] m)
    else
      x ← rd (functions m) i;
      '(r, hs) ← load_hashes (Z.to_nat pc) 0 data (pos + 2) (param_name_hashes x);
      m1 ← set_fun i (fun f => mk_fun (f_code f) (f_code_length f) (f_constants f) (f_const_count f) pc hs) m;
      match r with None => Ret (None, m1) | Some pos1 => load_body i data pos1 m1 end.

Fixpoint load_functions (n : nat) (i : Z) (data : list Z) (pos : Z) (m : vm) : outcome (bool * vm) :=
  match n with
  | O => Ret (true, m)
  | S k =>
      '(r, m1) ← load_function i data pos m;
      match r with None => Ret (false, m1) | Some pos1 => load_functions k (i + 1) data pos1 m1 end
  end.

(** [data] is the whole file. *)
Definition metal_vm_load_binary (data : list Z) (m : vm) : outcome (bool * vm) :=
  if zlen data <? 9 then Ret (false, say [CStr "load_binary: length too short
"] m)
  else if negb (bool_decide (take 4 data = [83; 71; 86; 77])) then Ret (false, say [CStr "load_binary: magic mismatch
"] m)
  else if negb (bool_decide (data.[4] = Some 2)) then Ret (false, say [CStr "load_binary: SGVM version mismatch (expected 2)
"] m)
  else
    '(n, pos, m1) ← load_const_pool data 5 PoolMain METAL_CONST_POOL m;
    let m2 := with_cur (mk_regs (r_code (cur m1)) (code_length (cur m1)) (ipof m1) PoolMain n) (with_main (main_constants m1) n m1) in
    if zlen data <? pos + 4 then Ret (false, m2)
    else
      main_len ← read_u32_le data pos;
      pos1 ← add_int (pos + 4) main_len;
      if zlen data <? pos1 then Ret (false, m2)
      else
        let m3 := with_cur (mk_regs (mk_code data (pos + 4)) main_len 0 PoolMain n) m2 in
        if zlen data <? pos1 + 2 then Ret (true, m3)
        else
          fnc ← read_u16_le data pos1;
          if POOL_MAX <? fnc then Ret (false, say [CStr "load_binary: too many functions
"] m3)
          else load_functions (Z.to_nat fnc) 0 data (pos1 + 2) (with_functions (functions m3) fnc m3).

(** *** Native functions and scopes *)

Fixpoint find_native_from (n : nat) (i hash : Z) (m : vm) : outcome (option Z) :=
  match n with
  | O => Ret None
  | S k => '(h, fn) ← rd (natives m) i; if h =? hash then Ret (Some fn) else find_native_from k (i + 1) hash m
  end.

Definition metal_vm_find_native (hash : Z) (m : vm) : outcome (option Z) := find_native_from (Z.to_nat (native_count m)) 0 hash m.

(** The index of the first name with this hash, among [n] from [i]. *)
Fixpoint hash_index (n : nat) (i hash : Z) (names : list Z) : outcome (option Z) :=
  match n with
  | O => Ret None
  | S k => h ← rd names i; if h =? s32 hash then Ret (Some i) else hash_index k (i + 1) hash names
  end.

Definition find_in_scope (hash : Z) (s : scope) : outcome (option Z) := hash_index (Z.to_nat (s_count s)) 0 hash (name_hash s).

(** From scope [d], [n] - 1 scopes below it: the scope and index of the name. *)
Fixpoint scope_find (n : nat) (d hash : Z) (m : vm) : outcome (option (Z * Z)) :=
  match n with
  | O => Ret None
  | S k =>
      s ← rd (scopes m) d;
      i ← find_in_scope hash s;
      match i with Some j => Ret (Some (d, j)) | None => scope_find k (d - 1) hash m end
  end.

Definition scope_lookup (hash : Z) (m : vm) : outcome (option mvalue) :=
  r ← scope_find (Z.to_nat (scope_depth m + 1)) (scope_depth m) hash m;
  match r with
  | None => Ret None
  | Some (d, i) => s ← rd (scopes m) d; v ← rd (s_values s) i; Ret (Some v)
  end.

Definition set_var (d i : Z) (v : mvalue) (m : vm) : outcome vm :=
  s ← rd (scopes m) d;
  vs ← wr (s_values s) i v;
  ss ← wr (scopes m) d (mk_scope (name_hash s) (name_const_idx s) vs (s_count s));
  Ret (with_scopes ss m).

Definition scope_define (hash name_idx : Z) (v : mvalue) (m : vm) : outcome vm :=
  s ← rd (scopes m) (scope_depth m);
  r ← find_in_scope hash s;
  match r with
  | Some i => set_var (scope_depth m) i v m
  | None =>
      if METAL_VARS_PER_SCOPE <=? s_count s then Ret (say [CStr "Metal VM: scope full
"] m)
      else
        hs ← wr (name_hash s) (s_count s) (s32 hash);
        ns ← wr (name_const_idx s) (s_count s) name_idx;
        vs ← wr (s_values s) (s_count s) v;
        ss ← wr (scopes m) (scope_depth m) (mk_scope hs ns vs (s_count s + 1));
        Ret (with_scopes ss m)
  end.

Definition scope_assign (hash : Z) (v : mvalue) (m : vm) : outcome vm :=
  r ← scope_find (Z.to_nat (scope_depth m + 1)) (scope_depth m) hash m;
  match r with
  | Some (d, i) => set_var d i v m
  | None => scope_define hash (-1) v m
  end.

Definition metal_vm_register_native (nm : list Z) (fn : Z) (m : vm) : outcome (bool * vm) :=
  if METAL_NATIVE_MAX <=? native_count m then
    Ret (false, say [CStr "Metal VM: native table full: "; CText nm; CStr "
"] m)
  else
    ns ← wr (natives m) (native_count m) (metal_fnv1a nm, fn);
    let m1 := with_natives ns (native_count m + 1) m in
    '(v, m2) ← mv_str nm m1;
    m3 ← scope_define (metal_fnv1a nm) (-1) v m2;
    Ret (true, m3).

Definition metal_vm_lookup (nm : list Z) (m : vm) : outcome mvalue :=
  r ← scope_lookup (metal_fnv1a nm) m; Ret (default mv_nil r).

(** *** Marking *)

Definition mark_arr (a : marray) : marray := mk_arr (elems a) (a_count a) 1.
Definition mark_dict (d : mdict) : mdict := mk_dict (key_str_idx d) (d_values d) (d_count d) 1.

(** [f] on the values [vs.[i]], ..., [n] of them. *)
Fixpoint mark_all (f : mvalue -> vm -> outcome vm) (n : nat) (i : Z) (vs : list mvalue) (m : vm) : outcome vm :=
  match n with
  | O => Ret m
  | S k => v ← rd vs i; m1 ← f v m; mark_all f k (i + 1) vs m1
  end.

(** [gc_mark_value] with [gc_mark_array] and [gc_mark_dict]; [fuel] bounds the
    depth of the recursion. *)
Fixpoint gc_mark_value (fuel : nat) (v : mvalue) (m : vm) : outcome vm :=
  match fuel with
  | O => OutOfFuel
  | S k =>
      match mv_type v with
      | MV_ARR =>
          if (as_int v <? 0) || (POOL_MAX <=? as_int v) then Ret m
          else
            a ← rd (arrays m) (as_int v);
            if negb (a_in_use a =? 0) then Ret m
            else
              xs ← wr (arrays m) (as_int v) (mark_arr a);
              mark_all (gc_mark_value k) (Z.to_nat (a_count a)) 0 (elems a) (with_arrays xs (array_count m) m)
      | MV_DICT =>
          if (as_int v <? 0) || (POOL_MAX <=? as_int v) then Ret m
          else
            d ← rd (dicts m) (as_int v);
            if negb (d_in_use d =? 0) then Ret m
            else
              xs ← wr (dicts m) (as_int v) (mark_dict d);
              mark_all (gc_mark_value k) (Z.to_nat (d_count d)) 0 (d_values d) (with_dicts xs (dict_count m) m)
      | _ => Ret m
      end
  end.

(** No chain of unmarked objects is longer than both pools. *)
Definition gc_fuel : nat := Z.to_nat (2 * POOL_MAX + 2).

Definition clear_arr (a : marray) : marray := mk_arr (elems a) (a_count a) 0.
Definition clear_dict (d : mdict) : mdict := mk_dict (key_str_idx d) (d_values d) (d_count d) 0.

(** The values of the scopes [d], ..., [n] of them. *)
Fixpoint mark_scopes (n : nat) (d : Z) (m : vm) : outcome vm :=
  match n with
  | O => Ret m
  | S k =>
      m1 ← (if (0 <=? d) && (d <? METAL_ENV_DEPTH) then
              s ← rd (scopes m) d; mark_all (gc_mark_value gc_fuel) (Z.to_nat (s_count s)) 0 (s_values s) m
            else Ret m);
      mark_scopes k (d + 1) m1
  end.

Definition metal_vm_gc (m : vm) : outcome vm :=
  let n := Z.to_nat (array_count m) in
  let k := Z.to_nat (dict_count m) in
  let m1 := with_dicts ((clear_dict <$> take k (dicts m)) ++ drop k (dicts m)) (dict_count m)
              (with_arrays ((clear_arr <$> take n (arrays m)) ++ drop n (arrays m)) (array_count m) m) in
  m2 ← mark_all (gc_mark_value gc_fuel) (Z.to_nat (sp m1)) 0 (stack m1) m1;
  mark_scopes (Z.to_nat (scope_depth m2 + 1)) 0 m2.

(** *** Arrays and dictionaries *)

(** The first unused entry from [i], [n] to look at. *)
Fixpoint unused_from {A} (in_use : A -> Z) (n : nat) (i : Z) (xs : list A) : outcome (option Z) :=
  match n with
  | O => Ret None
  | S k => x ← rd xs i; if in_use x =? 0 then Ret (Some i) else unused_from in_use k (i + 1) xs
  end.

Definition take_arr (i : Z) (m : vm) : outcome (Z * vm) :=
  a ← rd (arrays m) i; xs ← wr (arrays m) i (mk_arr (elems a) 0 1); Ret (i, with_arrays xs (array_count m) m).

Definition metal_array_new (m : vm) : outcome (Z * vm) :=
  r ← unused_from a_in_use (Z.to_nat (array_count m)) 0 (arrays m);
  match r with
  | Some i => take_arr i m
  | None =>
      if POOL_MAX <=? array_count m then
        m1 ← metal_vm_gc m;
        r1 ← unused_from a_in_use (Z.to_nat (array_count m1)) 0 (arrays m1);
        match r1 with Some i => take_arr i m1 | None => Ret (-1, m1) end
      else take_arr (array_count m) (with_arrays (arrays m) (array_count m + 1) m)
  end.

Definition metal_array_push (i : Z) (v : mvalue) (m : vm) : outcome vm :=
  if (i <? 0) || (POOL_MAX <=? i) then Ret m
  else
    a ← rd (arrays m) i;
    if METAL_ARRAY_MAX_ELEMS <=? a_count a then Ret m
    else
      es ← wr (elems a) (a_count a) v;
      xs ← wr (arrays m) i (mk_arr es (a_count a + 1) (a_in_use a));
      Ret (with_arrays xs (array_count m) m).

Definition metal_array_get (i index : Z) (m : vm) : outcome mvalue :=
  if (i <? 0) || (POOL_MAX <=? i) then Ret mv_nil
  else
    a ← rd (arrays m) i;
    if (index <? 0) || (a_count a <=? index) then Ret mv_nil else rd (elems a) index.

Definition metal_array_len (i : Z) (m : vm) : outcome Z :=
  if (i <? 0) || (POOL_MAX <=? i) then Ret 0 else a ← rd (arrays m) i; Ret (a_count a).

Definition take_dict (i : Z) (m : vm) : outcome (Z * vm) :=
  d ← rd (dicts m) i; xs ← wr (dicts m) i (mk_dict (key_str_idx d) (d_values d) 0 1); Ret (i, with_dicts xs (dict_count m) m).

Definition metal_dict_new (m : vm) : outcome (Z * vm) :=
  r ← unused_from d_in_use (Z.to_nat (dict_count m)) 0 (dicts m);
  match r with
  | Some i => take_dict i m
  | None =>
      if POOL_MAX <=? dict_count m then
        m1 ← metal_vm_gc m;
        r1 ← unused_from d_in_use (Z.to_nat (dict_count m1)) 0 (dicts m1);
        match r1 with Some i => take_dict i m1 | None => Ret (-1, m1) end
      else take_dict (dict_count m) (with_dicts (dicts m) (dict_count m + 1) m)
  end.

(** The index of a key among [n] from [i]. *)
Fixpoint key_index (n : nat) (i key : Z) (ks : list Z) : outcome (option Z) :=
  match n with
  | O => Ret None
  | S k => x ← rd ks i; if x =? key then Ret (Some i) else key_index k (i + 1) key ks
  end.

Definition metal_dict_set (di key : Z) (v : mvalue) (m : vm) : outcome vm :=
  if (di <? 0) || (POOL_MAX <=? di) then Ret m
  else
    d ← rd (dicts m) di;
    r ← key_index (Z.to_nat (d_count d)) 0 key (key_str_idx d);
    match r with
    | Some i =>
        vs ← wr (d_values d) i v;
        xs ← wr (dicts m) di (mk_dict (key_str_idx d) vs (d_count d) (d_in_use d)); Ret (with_dicts xs (dict_count m) m)
    | None =>
        if d_count d <? METAL_DICT_MAX_ENTRIES then
          ks ← wr (key_str_idx d) (d_count d) key;
          vs ← wr (d_values d) (d_count d) v;
          xs ← wr (dicts m) di (mk_dict ks vs (d_count d + 1) (d_in_use d)); Ret (with_dicts xs (dict_count m) m)
        else Ret m
    end.

Definition metal_dict_get (di key : Z) (m : vm) : outcome mvalue :=
  if (di <? 0) || (POOL_MAX <=? di) then Ret mv_nil
  else
    d ← rd (dicts m) di;
    r ← key_index (Z.to_nat (d_count d)) 0 key (key_str_idx d);
    match r with Some i => rd (d_values d) i | None => Ret mv_nil end.

Definition metal_dict_has (di key : Z) (m : vm) : outcome bool :=
  if (di <? 0) || (POOL_MAX <=? di) then Ret false
  else
    d ← rd (dicts m) di;
    r ← key_index (Z.to_nat (d_count d)) 0 key (key_str_idx d);
    Ret (match r with Some _ => true | None => false end).

(** *** Printing and truth *)

Definition put_chars (l : list Z) (m : vm) : vm := if write_char m then with_out (v_out m ++ l) m else m.

Definition metal_print_int (n : Z) (m : vm) : outcome vm := l ← num_chars n; Ret (put_chars l m).

Definition ten : Z := d_of_int 10.
Definition limit : Z := 1000000000000000.

Fixpoint frac_digits (n : nat) (frac : Z) : list Z :=
  match n with
  | O => []
  | S k =>
      let f := d_mul nan_of frac ten in
      let digit := d_int int_of f in
      u8 (48 + digit) :: frac_digits k (d_sub nan_of f (d_of_int digit))
  end.

Definition metal_print_double (d : Z) (m : vm) : outcome vm :=
  let n := d_long long_of d in
  if d_eqb d (d_of_int n) && d_leb (d_of_int (- limit)) d && d_leb d (d_of_int limit) then metal_print_int n m
  else
    let neg := d_ltb d 0 in
    let m1 := if neg then put_chars [45] m else m in
    let d1 := if neg then d_neg d else d in
    let integer := d_long long_of d1 in
    m2 ← metal_print_int integer m1;
    Ret (put_chars (46 :: frac_digits 6 (d_sub nan_of d1 (d_of_int integer))) m2).

Definition codes (x : string) : list Z := (fun a => Z.of_N (Ascii.N_of_ascii a)) <$> String.list_ascii_of_string x.

(** The elements of array [i] from [j], [n] of them. *)
Fixpoint print_elems (pr : mvalue -> vm -> outcome vm) (n : nat) (i j : Z) (m : vm) : outcome vm :=
  match n with
  | O => Ret m
  | S k =>
      let m1 := if 0 <? j then put_chars (codes ", ") m else m in
      v ← metal_array_get i j m1;
      m2 ← pr v m1;
      print_elems pr k i (j + 1) m2
  end.

Fixpoint print_value (depth : nat) (v : mvalue) (m : vm) : outcome vm :=
  match depth with
  | O => OutOfFuel
  | S k =>
      match mv_type v with
      | MV_NUM => metal_print_double (mv_bits v) m
      | MV_BOOL => Ret (put_chars (codes (if as_int v =? 0 then "false" else "true")) m)
      | MV_STR => l ← metal_string_get (as_int v) m; Ret (put_chars l m)
      | MV_ARR =>
          len ← metal_array_len (as_int v) m;
          m1 ← print_elems (print_value k) (Z.to_nat len) (as_int v) 0 (put_chars (codes "[") m);
          Ret (put_chars (codes "]") m1)
      | MV_DICT => Ret (put_chars (codes "{...}") m)
      | MV_PTR => Ret (put_chars (codes "<ptr>") m)
      | MV_FN => Ret (put_chars (codes "<proc>") m)
      | MV_NIL => Ret (put_chars (codes "nil") m)
      end
  end.

Definition metal_print_value (v : mvalue) (m : vm) : outcome vm := print_value print_depth v m.

Definition metal_truthy (v : mvalue) : bool :=
  match mv_type v with
  | MV_NIL => false
  | MV_BOOL => negb (as_int v =? 0)
  | MV_NUM => negb (d_eqb (mv_bits v) 0)
  | _ => true
  end.

Definition values_equal (a b : mvalue) : bool :=
  bool_decide (mv_type a = mv_type b) &&
  match mv_type a with
  | MV_NIL => true
  | MV_NUM | MV_PTR => mv_bits a =? mv_bits b
  | MV_BOOL => Bool.eqb (as_int a =? 0) (as_int b =? 0)
  | _ => as_int a =? as_int b
  end.

(** *** Instructions *)

(** [true] to go on, [false] for [return 0]. *)
Definition go (m : outcome vm) : outcome (bool * vm) := m1 ← m; Ret (true, m1).
Definition stop (msg : string) (m : vm) : outcome (bool * vm) := Ret (false, fail msg m).

(** Pop one operand, or two of which the upper is the second. *)
Definition unary (f : mvalue -> vm -> outcome (bool * vm)) (m : vm) : outcome (bool * vm) := '(a, m1) ← metal_vm_pop m; f a m1.
Definition binary (f : mvalue -> mvalue -> vm -> outcome (bool * vm)) (m : vm) : outcome (bool * vm) :=
  '(b, m1) ← metal_vm_pop m; '(a, m2) ← metal_vm_pop m1; f a b m2.

Definition push_num (n : Z) (m : vm) : outcome (bool * vm) := go (metal_vm_push (mv_num n) m).
Definition push_bool (b : bool) (m : vm) : outcome (bool * vm) := go (metal_vm_push (mv_bool b) m).
Definition numeric (f : Z -> Z -> Z) : vm -> outcome (bool * vm) := binary (fun a b => push_num (f (mv_bits a) (mv_bits b))).
Definition compare (f : Z -> Z -> bool) : vm -> outcome (bool * vm) := binary (fun a b => push_bool (f (mv_bits a) (mv_bits b))).

(** A 16-bit operand, then [f] unless the program ended in it. *)
Definition operand (f : Z -> vm -> outcome (bool * vm)) (m : vm) : outcome (bool * vm) :=
  '(i, m1) ← read_u16 m; if negb (error m1 =? 0) then Ret (false, m1) else f i m1.

(** The name that constant [i] holds. *)
Definition const_name (i : Z) (m : vm) : outcome (list Z) := c ← const_at i m; metal_string_get (as_int c) m.

Definition op_constant : vm -> outcome (bool * vm) := operand (fun i m =>
  if (0 <=? i) && (i <? const_count (cur m)) then c ← const_at i m; go (metal_vm_push c m)
  else stop "OP_CONSTANT index error" m).

Definition op_dup (m : vm) : outcome (bool * vm) :=
  if sp m <? 1 then stop "OP_DUP: stack underflow" m else v ← rd (stack m) (sp m - 1); go (metal_vm_push v m).

Definition op_define_global : vm -> outcome (bool * vm) := operand (fun i m =>
  '(v, m1) ← metal_vm_pop m; nm ← const_name i m1; go (scope_define (metal_fnv1a nm) i v m1)).
Definition op_get_global : vm -> outcome (bool * vm) := operand (fun i m =>
  nm ← const_name i m; r ← scope_lookup (metal_fnv1a nm) m; go (metal_vm_push (default mv_nil r) m)).
Definition op_set_global : vm -> outcome (bool * vm) := operand (fun i m =>
  '(v, m1) ← metal_vm_pop m; nm ← const_name i m1; go (scope_assign (metal_fnv1a nm) v m1)).

(** The error is tested after both operands. *)
Definition op_define_fn (m : vm) : outcome (bool * vm) :=
  '(i, m1) ← read_u16 m;
  '(f, m2) ← read_u16 m1;
  if negb (error m2 =? 0) then Ret (false, m2)
  else nm ← const_name i m2; go (scope_define (metal_fnv1a nm) i (of_int MV_FN f) m2).

Definition op_add : vm -> outcome (bool * vm) := binary (fun a b m =>
  if bool_decide (mv_type a = MV_STR) && bool_decide (mv_type b = MV_STR) then
    '(i, m1) ← metal_string_concat (as_int a) (as_int b) m; go (metal_vm_push (of_int MV_STR i) m1)
  else push_num (d_add nan_of (mv_bits a) (mv_bits b)) m).

Definition op_div : vm -> outcome (bool * vm) := binary (fun a b m =>
  if d_eqb (mv_bits b) 0 then stop "div zero" m else push_num (d_div nan_of (mv_bits a) (mv_bits b)) m).

(** The remainder of the truncated operands; division by zero and overflow are
    not defined. *)
Definition op_mod : vm -> outcome (bool * vm) := binary (fun a b m =>
  if d_eqb (mv_bits b) 0 then stop "mod zero" m
  else
    let x := d_long long_of (mv_bits a) in
    let y := d_long long_of (mv_bits b) in
    if (y =? 0) || ((x =? - 2 ^ 63) && (y =? -1)) then Fault else push_num (d_of_int (Z.rem x y)) m).

(** Shifts by less than zero or more than 63 are not defined. *)
Definition op_shift (f : Z -> Z -> Z) : vm -> outcome (bool * vm) := binary (fun a b m =>
  let n := d_int int_of (mv_bits b) in
  if (0 <=? n) && (n <? 64) then push_num (f (mv_bits a) n) m else Fault).

Definition op_jump (m : vm) : outcome (bool * vm) := '(off, m1) ← read_u16 m; Ret (true, with_ip off m1).
Definition op_jump_if_false (m : vm) : outcome (bool * vm) :=
  '(off, m1) ← read_u16 m;
  '(v, m2) ← metal_vm_pop m1;
  Ret (true, if metal_truthy v then m2 else with_ip off m2).
Definition op_loop_back (m : vm) : outcome (bool * vm) :=
  '(off, m1) ← read_u16 m; Ret (true, with_ip ((if ip_first then ipof m else ipof m1) - off) m1).

Definition op_import : vm -> outcome (bool * vm) := operand (fun i m => nm ← const_name i m; go (sage_import_module nm m)).

Definition enter_scope (m : vm) : outcome vm :=
  if scope_depth m <? METAL_ENV_DEPTH - 1 then
    s ← rd (scopes m) (scope_depth m + 1);
    ss ← wr (scopes m) (scope_depth m + 1) (mk_scope (name_hash s) (name_const_idx s) (s_values s) 0);
    Ret (with_depth (scope_depth m + 1) (with_scopes ss m))
  else Ret m.
Definition leave_scope (m : vm) : vm := if 0 <? scope_depth m then with_depth (scope_depth m - 1) m else m.

Definition op_print : vm -> outcome (bool * vm) := unary (fun v m => m1 ← metal_print_value v m; Ret (true, put_chars [10] m1)).

(** Elements [j], ..., [n] of them, of array [src] appended to [dst]. *)
Fixpoint copy_elems (n : nat) (src j dst : Z) (m : vm) : outcome vm :=
  match n with
  | O => Ret m
  | S k => v ← metal_array_get src j m; m1 ← metal_array_push dst v m; copy_elems k src (j + 1) dst m1
  end.

Definition op_slice (m0 : vm) : outcome (bool * vm) :=
  '(e, m1) ← metal_vm_pop m0;
  '(st, m2) ← metal_vm_pop m1;
  '(obj, m) ← metal_vm_pop m2;
  let s0 := d_int int_of (mv_bits st) in
  let s := if s0 <? 0 then 0 else s0 in
  let e0 := d_int int_of (mv_bits e) in
  match mv_type obj with
  | MV_ARR =>
      '(arr, m3) ← metal_array_new m;
      if arr <? 0 then stop "array pool full" m3
      else
        len ← metal_array_len (as_int obj) m3;
        let e1 := if len <? e0 then len else e0 in
        m4 ← copy_elems (Z.to_nat (e1 - s)) (as_int obj) s arr m3;
        go (metal_vm_push (of_int MV_ARR arr) m4)
  | MV_STR =>
      str ← metal_string_get (as_int obj) m;
      let e1 := if zlen str <? e0 then zlen str else e0 in
      let e2 := if e1 <? s then s else e1 in
      '(v, m3) ← mv_str (take (Z.to_nat (e2 - s)) (drop (Z.to_nat s) str)) m;
      go (metal_vm_push v m3)
  | _ => go (metal_vm_push mv_nil m)
  end.

Definition op_get_property : vm -> outcome (bool * vm) := operand (fun i => unary (fun obj m =>
  match mv_type obj with
  | MV_DICT => v ← metal_dict_get (as_int obj) i m; go (metal_vm_push v m)
  | _ => go (metal_vm_push mv_nil m)
  end)).
Definition op_set_property : vm -> outcome (bool * vm) := operand (fun i => binary (fun obj v m =>
  m1 ← (match mv_type obj with MV_DICT => metal_dict_set (as_int obj) i v m | _ => Ret m end);
  go (metal_vm_push v m1))).

(** *** Methods *)

Definition isspace (c : Z) : bool := (c =? 32) || (c =? 9) || (c =? 10) || (c =? 13).

Fixpoint skip_space (s : list Z) : list Z :=
  match s with c :: r => if isspace c then skip_space r else s | [] => [] end.
Fixpoint take_token (s : list Z) : list Z * list Z :=
  match s with
  | c :: r => if isspace c then ([], s) else let '(t, q) := take_token r in (c :: t, q)
  | [] => ([], [])
  end.

(** The words of [s] appended to array [arr], each cut to 63 characters; [n]
    bounds their number. *)
Fixpoint split_words (n : nat) (s : list Z) (arr : Z) (m : vm) : outcome vm :=
  match n with
  | O => OutOfFuel
  | S k =>
      match skip_space s with
      | [] => Ret m
      | q =>
          let '(t, r) := take_token q in
          '(v, m1) ← metal_vm_string_new (take 63 t) m;
          m2 ← metal_array_push arr v m1;
          split_words k r arr m2
      end
  end.

(** The bytes [strip] interns: of a string of spaces, its NUL. *)
Definition strip_bytes (s : list Z) : list Z :=
  match skip_space s with [] => [0] | q => rev (skip_space (rev q)) end.

(** The value replaces the receiver and the arguments. *)
Definition return_value (argc : Z) (v : mvalue) (m : vm) : outcome (bool * vm) := go (metal_vm_push v (with_sp (sp m - (argc + 1)) m)).

Definition is_name (x : string) (nm : list Z) : bool := bool_decide (nm = codes x).

Definition array_method (argc : Z) (nm : list Z) (i : Z) (m : vm) : outcome (bool * vm) :=
  if is_name "push" nm then
    v ← rd (stack m) (sp m - 1); m1 ← metal_array_push i v m; return_value argc mv_nil m1
  else if is_name "len" nm then len ← metal_array_len i m; return_value argc (mv_num (d_of_int len)) m
  else stop "method not found" m.

Definition string_test (argc : Z) (nm s : list Z) (m : vm) : outcome (bool * vm) :=
  let m1 := say [CStr "[VM] string."; CText nm; CStr "
"] m in
  sub ← rd (stack m1) (sp m1 - 1);
  prefix ← (match mv_type sub with MV_STR => metal_string_get (as_int sub) m1 | _ => Ret [] end);
  let res :=
    if is_name "startswith" nm then bool_decide (take (length prefix) s = prefix)
    else (zlen prefix <=? zlen s) && bool_decide (drop (length s - length prefix) s = prefix) in
  return_value argc (mv_bool res) m1.

Definition string_method (argc : Z) (nm : list Z) (i : Z) (m : vm) : outcome (bool * vm) :=
  s ← metal_string_get i m;
  '(arr, m1) ← (if is_name "split" nm then metal_array_new (say [CStr "[VM] string.split
"] m) else Ret (-1, m));
  if 0 <=? arr then m2 ← split_words (S (length s)) s arr m1; return_value argc (of_int MV_ARR arr) m2
  else if is_name "strip" nm then '(v, m2) ← mv_str (strip_bytes s) m1; return_value argc v m2
  else if is_name "startswith" nm || is_name "endswith" nm then string_test argc nm s m1
  else stop "method not found" m1.

(** The operand that names the method is used as an index of the string pool. *)
Definition op_call_method (m0 : vm) : outcome (bool * vm) :=
  '(argc, m1) ← read_u8 m0;
  '(name_idx, m) ← read_u16 m1;
  nm ← metal_string_get name_idx m;
  receiver ← rd (stack m) (sp m - argc - 1);
  match mv_type receiver with
  | MV_ARR => array_method argc nm (as_int receiver) m
  | MV_STR => string_method argc nm (as_int receiver) m
  | _ => stop "method not found" m
  end.

(** *** Calls *)

Fixpoint stack_slice (n : nat) (i : Z) (m : vm) : outcome (list mvalue) :=
  match n with
  | O => Ret []
  | S k => v ← rd (stack m) i; r ← stack_slice k (i + 1) m; Ret (v :: r)
  end.

(** Parameters [p], ..., [n] of them, bound in the current scope. *)
Fixpoint bind_params (n : nat) (p argc : Z) (f : mfun) (m : vm) : outcome vm :=
  match n with
  | O => Ret m
  | S k =>
      v ← (if p <? argc then rd (stack m) (sp m - argc + p) else Ret mv_nil);
      h ← rd (param_name_hashes f) p;
      m1 ← scope_define h (-1) v m;
      bind_params k (p + 1) argc f m1
  end.

(** A new frame for function [f] with [argc] arguments on the stack. *)
Definition enter_function (f : mfun) (argc : Z) (m : vm) : outcome vm :=
  let base := sp m - argc - 1 in
  let r := cur m in
  fs ← wr (call_stack m) (frame_count m) (mk_frame (r_code r) (code_length r) (ip r) base (constants r) (const_count r));
  let m1 := with_cur (mk_regs (f_code f) (f_code_length f) 0 (f_constants f) (f_const_count f))
              (with_frames fs (frame_count m + 1) m) in
  m2 ← enter_scope m1;
  m3 ← bind_params (Z.to_nat (param_count f)) 0 argc f m2;
  Ret (with_sp base m3).

Definition call_failed (callee : mvalue) (m : vm) : outcome (bool * vm) :=
  m1 ← (match mv_type callee with
        | MV_STR =>
            nm ← metal_string_get (as_int callee) m;
            Ret (say [CStr "
OP_CALL failed: native function '"; CText nm; CStr "' not found.
"] m)
        | t => Ret (say [CStr "
OP_CALL: unsupported target type "; CU32 (type_code t); CStr " at IP: "; CHex64 (u64 (ipof m - 1))] m)
        end);
  stop "unsupported call target" m1.

Definition op_call (m0 : vm) : outcome (bool * vm) :=
  '(argc, m) ← read_u8 m0;
  callee ← rd (stack m) (sp m - argc - 1);
  match mv_type callee with
  | MV_STR =>
      nm ← metal_string_get (as_int callee) m;
      r ← metal_vm_find_native (metal_fnv1a nm) m;
      match r with
      | Some fn =>
          args ← stack_slice (Z.to_nat (Z.min argc 16)) (sp m - argc) m;
          '(v, m1) ← native fn args (with_sp (sp m - (argc + 1)) m);
          go (metal_vm_push v m1)
      | None => call_failed callee m
      end
  | MV_FN =>
      if (0 <=? as_int callee) && (as_int callee <? fn_count m) then
        if METAL_CALL_STACK <=? frame_count m then stop "stack overflow" m
        else f ← rd (functions m) (as_int callee); go (enter_function f argc m)
      else call_failed callee m
  | _ => call_failed callee m
  end.

Definition op_return (m0 : vm) : outcome (bool * vm) :=
  '(res, m) ← metal_vm_pop m0;
  if 0 <? frame_count m then
    let m1 := leave_scope m in
    f ← rd (call_stack m1) (frame_count m1 - 1);
    let m2 := with_cur (mk_regs (fr_code f) (fr_code_length f) (fr_ip f) (fr_constants f) (fr_const_count f))
                (with_frames (call_stack m1) (frame_count m1 - 1) m1) in
    go (metal_vm_push res (with_sp (sp_base f) m2))
  else Ret (false, with_halted 1 m).

(** *** Collections *)

Fixpoint fill_array (n : nat) (i arr : Z) (m : vm) : outcome vm :=
  match n with
  | O => Ret m
  | S k => v ← rd (stack m) i; m1 ← metal_array_push arr v m; fill_array k (i + 1) arr m1
  end.

Definition op_array (m0 : vm) : outcome (bool * vm) :=
  '(count, m1) ← read_u16 m0;
  '(arr, m) ← metal_array_new m1;
  if arr <? 0 then stop "array pool full" m
  else
    m2 ← fill_array (Z.to_nat count) (sp m - count) arr m;
    go (metal_vm_push (of_int MV_ARR arr) (with_sp (sp m2 - count) m2)).

Fixpoint fill_dict (n : nat) (d : Z) (m : vm) : outcome vm :=
  match n with
  | O => Ret m
  | S k =>
      '(v, m1) ← metal_vm_pop m;
      '(key, m2) ← metal_vm_pop m1;
      m3 ← (match mv_type key with MV_STR => metal_dict_set d (as_int key) v m2 | _ => Ret m2 end);
      fill_dict k d m3
  end.

Definition op_dict (m0 : vm) : outcome (bool * vm) :=
  '(count, m1) ← read_u16 m0;
  '(d, m) ← metal_dict_new m1;
  if d <? 0 then stop "dict pool full" m
  else m2 ← fill_dict (Z.to_nat count) d m; go (metal_vm_push (of_int MV_DICT d) m2).

Definition op_array_len : vm -> outcome (bool * vm) := unary (fun a m =>
  len ← (match mv_type a with MV_ARR => metal_array_len (as_int a) m | _ => Ret 0 end); push_num (d_of_int len) m).

Definition op_get_index : vm -> outcome (bool * vm) := binary (fun obj idx m =>
  v ← (match mv_type obj, mv_type idx with
       | MV_ARR, _ => metal_array_get (as_int obj) (d_int int_of (mv_bits idx)) m
       | MV_DICT, MV_STR => metal_dict_get (as_int obj) (as_int idx) m
       | _, _ => Ret mv_nil
       end);
  go (metal_vm_push v m)).

Definition set_elem (i j : Z) (v : mvalue) (m : vm) : outcome vm :=
  if (0 <=? i) && (i <? POOL_MAX) then
    a ← rd (arrays m) i;
    if (0 <=? j) && (j <? a_count a) then
      es ← wr (elems a) j v; xs ← wr (arrays m) i (mk_arr es (a_count a) (a_in_use a)); Ret (with_arrays xs (array_count m) m)
    else Ret m
  else Ret m.

Definition op_set_index (m0 : vm) : outcome (bool * vm) :=
  '(v, m1) ← metal_vm_pop m0;
  '(idx, m2) ← metal_vm_pop m1;
  '(obj, m) ← metal_vm_pop m2;
  m3 ← (match mv_type obj, mv_type idx with
        | MV_ARR, _ => set_elem (as_int obj) (d_int int_of (mv_bits idx)) v m
        | MV_DICT, MV_STR => metal_dict_set (as_int obj) (as_int idx) v m
        | _, _ => Ret m
        end);
  go (metal_vm_push v m3).

(** *** The dispatch loop *)

Definition skip_operands (n : nat) (m : vm) : outcome (bool * vm) :=
  go (Nat.iter n (fun r => m ← r; '(_, m1) ← read_u16 m; Ret m1) (Ret m)).

Definition digit_char (d : Z) : string := String (Ascii.ascii_of_N (Z.to_N (48 + d))) EmptyString.

Definition op_unknown (op : Z) (m : vm) : outcome (bool * vm) :=
  let msg := String.append "unknown opcode: "
               (String.append (digit_char (op / 100 mod 10)) (String.append (digit_char (op / 10 mod 10)) (digit_char (op mod 10)))) in
  stop msg (say [CStr "
[VM ERROR] Unknown Opcode: "; CU32 op; CStr " at IP: "; CHex64 (u64 (ipof m - 1)); CStr "
"] m).

Definition exec (op : Z) (m : vm) : outcome (bool * vm) :=
  match op with
  | 0 => op_constant m
  | 1 => go (metal_vm_push mv_nil m)
  | 2 => push_bool true m
  | 3 => push_bool false m
  | 4 => unary (fun _ m => Ret (true, m)) m
  | 5 => op_get_global m
  | 6 => op_define_global m
  | 7 => op_set_global m
  | 8 => op_define_fn m
  | 9 => op_get_property m
  | 10 => op_set_property m
  | 11 => op_get_index m
  | 12 => op_set_index m
  | 13 => op_slice m
  | 14 => op_add m
  | 15 => numeric (d_sub nan_of) m
  | 16 => numeric (d_mul nan_of) m
  | 17 => op_div m
  | 18 => op_mod m
  | 19 => unary (fun a => push_num (d_neg (mv_bits a))) m
  | 20 => binary (fun a b => push_bool (values_equal a b)) m
  | 21 => binary (fun a b => push_bool (negb (values_equal a b))) m
  | 22 => compare (fun a b => d_ltb b a) m
  | 23 => compare (fun a b => d_leb b a) m
  | 24 => compare d_ltb m
  | 25 => compare d_leb m
  | 26 => numeric Z.land m
  | 27 => numeric Z.lor m
  | 28 => numeric Z.lxor m
  | 29 => unary (fun a => push_num (u64 (Z.lnot (mv_bits a)))) m
  | 30 => op_shift (fun a n => u64 (Z.shiftl a n)) m
  | 31 => op_shift Z.shiftr m
  | 32 => unary (fun a => push_bool (negb (metal_truthy a))) m
  | 33 => unary (fun a => push_bool (metal_truthy a)) m
  | 34 => op_jump m
  | 35 => op_jump_if_false m
  | 36 => op_call m
  | 37 => op_call_method m
  | 38 | 39 => op_array m
  | 40 => op_dict m
  | 41 => op_print m
  | 42 => '(_, m1) ← read_u16 m; stop "AST execution not supported" m1
  | 43 => op_return m
  | 44 => go (enter_scope m)
  | 45 => Ret (true, leave_scope m)
  | 46 => op_dup m
  | 47 => op_array_len m
  | 48 | 49 => op_jump m
  | 50 => op_loop_back m
  | 51 => op_import m
  | 52 => skip_operands 3 m
  | 53 => skip_operands 1 m
  | 54 => unary (fun _ m => Ret (true, m)) m
  | 55 => skip_operands 2 m
  | 56 => Ret (true, m)
  | 57 => unary (fun _ => stop "exception raised") m
  | 255 => Ret (false, with_halted 1 m)
  | _ => op_unknown op m
  end.

Definition metal_vm_step (m : vm) : outcome (bool * vm) :=
  if negb (halted m =? 0) || negb (error m =? 0) || (code_length (cur m) <=? ipof m) then Ret (false, m)
  else
    '(op, m1) ← read_u8 m;
    let m2 := with_vtrace (v_trace m1 ++ [(op, u64 (ipof m1))]) m1 in
    if negb (error m2 =? 0) then Ret (false, m2) else exec op m2.

(** [n] steps at most. *)
Fixpoint run_steps (n : nat) (m : vm) : outcome vm :=
  match n with
  | O => Ret m
  | S k => '(c, m1) ← metal_vm_step m; if (c : bool) then run_steps k m1 else Ret m1
  end.

(** The timer is polled every thousand steps, which does not touch the machine. *)
Definition run_limit : Z := 5000000.
Definition metal_vm_run (m : vm) : outcome (Z * vm) :=
  m1 ← run_steps (Z.to_nat run_limit) m; Ret (if error m1 =? 0 then 0 else -1, m1).

(** [while (vm->frame_count > start_frame && !vm->error && !vm->halted) metal_vm_step(vm)] *)
Fixpoint call_loop (n : nat) (start : Z) (m : vm) : outcome vm :=
  if (start <? frame_count m) && (error m =? 0) && (halted m =? 0) then
    match n with
    | O => OutOfFuel
    | S k => '(_, m1) ← metal_vm_step m; call_loop k start m1
    end
  else Ret m.

Fixpoint push_args (args : list mvalue) (m : vm) : outcome vm :=
  match args with [] => Ret m | v :: r => m1 ← metal_vm_push v m; push_args r m1 end.

Definition metal_vm_call (n : nat) (fn_name : list Z) (args : list mvalue) (m : vm) : outcome (mvalue * vm) :=
  callee ← metal_vm_lookup fn_name m;
  if negb (bool_decide (mv_type callee = MV_FN)) then Ret (mv_nil, m)
  else
    let start := frame_count m in
    let was := halted m in
    m1 ← push_args (callee :: args) (with_halted 0 m);
    f ← rd (functions m1) (as_int callee);
    if METAL_CALL_STACK <=? frame_count m1 then Ret (mv_nil, with_halted was (fail "stack overflow" m1))
    else
      m2 ← enter_function f (zlen args) m1;
      m3 ← call_loop n start m2;
      let m4 := with_halted was m3 in
      if negb (error m4 =? 0) then Ret (mv_nil, m4) else metal_vm_pop m4.

Definition metal_value_type_name (t : mtype) : string :=
  match t with
  | MV_NIL => "Nil" | MV_NUM => "Number" | MV_BOOL => "Bool" | MV_STR => "String"
  | MV_ARR => "Array" | MV_DICT => "Dict" | MV_FN => "Function" | MV_PTR => "Ptr"
  end.
End vm.
End world.
Arguments vm : clear implicits.
Arguments mk_vm {W}.
End Vm.
