(* ===== verification/VmGc.v ===== *)
(** * Marking of arrays and dictionaries

    [metal_vm_gc] (kernel/core/sagelang/metal_vm.c) marks exactly the objects that
    the value stack and the scopes lead to, within the depth the model allows. *)

From stdpp Require Import base tactics numbers option strings list.
From S2P Require Import Prelude Digits CMem Float64 Vm.

Module VmGc.
Import Vm.

Section world.
Context {W : Type}.
Abbreviation vm := (Vm.vm W).
Implicit Types m : vm.

(** ** Well-formed pools *)

Definition arr_ok (a : marray) : Prop := zlen (elems a) = METAL_ARRAY_MAX_ELEMS /\ 0 <= a_count a <= METAL_ARRAY_MAX_ELEMS.
Definition dict_ok (d : mdict) : Prop :=
  zlen (key_str_idx d) = METAL_DICT_MAX_ENTRIES /\ zlen (d_values d) = METAL_DICT_MAX_ENTRIES /\ 0 <= d_count d <= METAL_DICT_MAX_ENTRIES.

Definition arrays_ok (m : vm) : Prop := zlen (arrays m) = POOL_MAX /\ 0 <= array_count m <= POOL_MAX /\ Forall arr_ok (arrays m).
Definition dicts_ok (m : vm) : Prop := zlen (dicts m) = POOL_MAX /\ 0 <= dict_count m <= POOL_MAX /\ Forall dict_ok (dicts m).

Definition scope_ok (s : scope) : Prop :=
  zlen (name_hash s) = METAL_VARS_PER_SCOPE /\ zlen (name_const_idx s) = METAL_VARS_PER_SCOPE /\
  zlen (s_values s) = METAL_VARS_PER_SCOPE /\ 0 <= s_count s <= METAL_VARS_PER_SCOPE.
Definition scopes_ok (m : vm) : Prop := zlen (scopes m) = METAL_ENV_DEPTH /\ 0 <= scope_depth m < METAL_ENV_DEPTH /\ Forall scope_ok (scopes m).
Definition stack_ok (m : vm) : Prop := zlen (stack m) = METAL_STACK_SIZE /\ 0 <= sp m <= METAL_STACK_SIZE.

(** ** Objects *)

Inductive obj := OArr (i : Z) | ODict (i : Z).

(** The object a value refers to. *)
Definition target (v : mvalue) : option obj :=
  if (as_int v <? 0) || (POOL_MAX <=? as_int v) then None
  else match mv_type v with MV_ARR => Some (OArr (as_int v)) | MV_DICT => Some (ODict (as_int v)) | _ => None end.

Definition marked (m : vm) (o : obj) : Prop :=
  match o with
  | OArr i => exists a, (arrays m).[i] = Some a /\ a_in_use a <> 0
  | ODict i => exists d, (dicts m).[i] = Some d /\ d_in_use d <> 0
  end.

(** The values an object holds. *)
Definition children (m : vm) (o : obj) : list mvalue :=
  match o with
  | OArr i => match (arrays m).[i] with Some a => take (Z.to_nat (a_count a)) (elems a) | None => [] end
  | ODict i => match (dicts m).[i] with Some d => take (Z.to_nat (d_count d)) (d_values d) | None => [] end
  end.

Inductive reach (m : vm) (v : mvalue) : obj -> Prop :=
| reach_here o : target v = Some o -> reach m v o
| reach_child o c o' : reach m v o -> c ∈ children m o -> target c = Some o' -> reach m v o'.

(** ** Marking only sets marks *)

Definition arr_le (a a' : marray) : Prop := elems a' = elems a /\ a_count a' = a_count a /\ (a_in_use a <> 0 -> a_in_use a' <> 0).
Definition dict_le (d d' : mdict) : Prop :=
  key_str_idx d' = key_str_idx d /\ d_values d' = d_values d /\ d_count d' = d_count d /\ (d_in_use d <> 0 -> d_in_use d' <> 0).

Definition grown (m m' : vm) : Prop := exists xs ds,
  m' = with_dicts ds (dict_count m) (with_arrays xs (array_count m) m) /\
  Forall2 arr_le (arrays m) xs /\ Forall2 dict_le (dicts m) ds.

#[global] Instance arr_le_preorder : PreOrder arr_le.
Proof. split; [by intros a; split_and!|]. intros a b c (E1 & E2 & H) (E3 & E4 & H'). unfold arr_le. rewrite E3, E4. split_and!; auto. Qed.

#[global] Instance dict_le_preorder : PreOrder dict_le.
Proof. split; [by intros a; split_and!|]. intros a b c (E1 & E2 & E3 & H) (E4 & E5 & E6 & H'). unfold dict_le. rewrite E4, E5, E6. split_and!; auto. Qed.

#[global] Instance grown_preorder : PreOrder grown.
Proof.
  split.
  - intros m. exists (arrays m), (dicts m). split; [by destruct m|]. by split.
  - intros m1 m2 m3 (xs & ds & -> & Hx & Hd) (xs' & ds' & -> & Hx' & Hd'). exists xs', ds'. split; [done|].
    cbn in Hx', Hd'. split; etrans; eassumption.
Qed.

Lemma Forall2_zget {A B} (P : A -> B -> Prop) l k i x : Forall2 P l k -> l.[i] = Some x -> exists y, k.[i] = Some y /\ P x y.
Proof.
  intros H Hx. apply zget_lookup in Hx as [Hi Hx]. destruct (Forall2_lookup_l _ _ _ _ _ H Hx) as (y & Hy & HP).
  exists y. split; [by apply zget_lookup|done].
Qed.

Lemma Forall2_zget_r {A B} (P : A -> B -> Prop) l k i y : Forall2 P l k -> k.[i] = Some y -> exists x, l.[i] = Some x /\ P x y.
Proof.
  intros H Hx. apply zget_lookup in Hx as [Hi Hx]. destruct (Forall2_lookup_r _ _ _ _ _ H Hx) as (x & Hy & HP).
  exists x. split; [by apply zget_lookup|done].
Qed.

Lemma grown_marked m m' o : grown m m' -> marked m o -> marked m' o.
Proof.
  intros (xs & ds & -> & Hx & Hd). destruct o as [i|i]; cbn; intros (a & Ha & Hu).
  - destruct (Forall2_zget _ _ _ _ _ Hx Ha) as (a' & Ha' & _ & _ & H). eauto.
  - destruct (Forall2_zget _ _ _ _ _ Hd Ha) as (a' & Ha' & _ & _ & _ & H). eauto.
Qed.

Lemma grown_children m m' o : grown m m' -> children m' o = children m o.
Proof.
  intros (xs & ds & -> & Hx & Hd). destruct o as [i|i]; cbn.
  - destruct ((arrays m).[i]) as [a|] eqn:Ha.
    + destruct (Forall2_zget _ _ _ _ _ Hx Ha) as (a' & -> & -> & -> & _). done.
    + destruct (xs.[i]) as [a'|] eqn:E; [|done]. destruct (Forall2_zget_r _ _ _ _ _ Hx E) as (? & ? & _). congruence.
  - destruct ((dicts m).[i]) as [a|] eqn:Ha.
    + destruct (Forall2_zget _ _ _ _ _ Hd Ha) as (a' & -> & _ & -> & -> & _). done.
    + destruct (ds.[i]) as [a'|] eqn:E; [|done]. destruct (Forall2_zget_r _ _ _ _ _ Hd E) as (? & ? & _). congruence.
Qed.

Lemma grown_ok m m' : grown m m' -> arrays_ok m -> dicts_ok m -> arrays_ok m' /\ dicts_ok m'.
Proof.
  intros (xs & ds & -> & Hx & Hd) (Hl & Hc & Ha) (Hl' & Hc' & Ha'). unfold arrays_ok, dicts_ok, zlen in *. cbn.
  rewrite <- (Forall2_length _ _ _ Hx), <- (Forall2_length _ _ _ Hd). split_and!; try done; try lia.
  - eapply Forall2_Forall_r; [exact Hx|]. eapply Forall_impl; [exact Ha|]. intros a Hok b (E1 & E2 & _). unfold arr_ok. by rewrite E1, E2.
  - eapply Forall2_Forall_r; [exact Hd|]. eapply Forall_impl; [exact Ha'|]. intros a Hok b (E1 & E2 & E3 & _). unfold dict_ok. by rewrite E1, E2, E3.
Qed.

(** Unmarked objects, which bound the depth. *)
Definition unmarked (m : vm) : nat :=
  length (filter (fun a => a_in_use a = 0) (arrays m)) + length (filter (fun d => d_in_use d = 0) (dicts m)).

Lemma filter_le {A} (P : A -> A -> Prop) (u : A -> Z) l k :
  (forall a b, P a b -> u a <> 0 -> u b <> 0) -> Forall2 P l k ->
  (length (filter (fun a => (u a = 0)%Z) k) <= length (filter (fun a => (u a = 0)%Z) l))%nat.
Proof.
  intros HP. induction 1 as [|a b l k Hab _ IH]; [done|]. rewrite !filter_cons. specialize (HP _ _ Hab).
  repeat case_decide; cbn; lia.
Qed.

Lemma grown_unmarked m m' : grown m m' -> (unmarked m' <= unmarked m)%nat.
Proof.
  intros (xs & ds & -> & Hx & Hd). unfold unmarked. cbn.
  pose proof (filter_le arr_le a_in_use _ _ ltac:(by intros a b (_ & _ & ?)) Hx).
  pose proof (filter_le dict_le d_in_use _ _ ltac:(by intros a b (_ & _ & _ & ?)) Hd). lia.
Qed.

Lemma Forall2_zset {A} (R : A -> A -> Prop) `{!PreOrder R} (l : list A) i x y : l.[i] = Some x -> R x y -> Forall2 R l (l.[i <- y]).
Proof.
  intros Hx HR. pose proof (zget_Some_bound _ _ _ Hx). apply Forall2_same_length_lookup_2.
  - unfold zlen in *. pose proof (zlen_zset l i y) as E. unfold zlen in E. lia.
  - intros j a b Ha Hb. rewrite <- zget_nat in Ha, Hb. destruct (decide (i = Z.of_nat j)) as [->|].
    + rewrite zget_zset_eq in Hb by lia. simplify_eq. done.
    + rewrite zget_zset_ne in Hb by done. by simplify_eq.
Qed.

Lemma filter_zset {A} (u : A -> Z) (l : list A) i x y : l.[i] = Some x -> u x = 0 -> u y <> 0 ->
  length (filter (fun a => u a = 0) l) = S (length (filter (fun a => u a = 0) (l.[i <- y]))).
Proof.
  intros Hx H0 H1. pose proof (zget_Some_bound _ _ _ Hx). unfold zset. rewrite (proj2 (Z.leb_le 0 i)) by lia.
  apply zget_lookup in Hx as [_ Hx]. revert Hx. generalize (Z.to_nat i) as j. clear H. induction l as [|a l IH]; intros [|j] Hx; try done; cbn in Hx.
  - simplify_eq. cbn [insert list_insert]. rewrite !filter_cons. by rewrite decide_True, decide_False.
  - cbn [insert list_insert]. rewrite !filter_cons. case_decide; cbn; by rewrite (IH _ Hx).
Qed.

(** ** What marking does *)

Definition pools_ok (m : vm) : Prop := arrays_ok m /\ dicts_ok m.

(** Marking from the values [vs] took [m] to [m']: what they refer to is marked, and
    every new mark is on an object they lead to, whose own children are marked too. *)
Record marks (vs : list mvalue) (m m' : vm) : Prop := {
  marks_grown : grown m m';
  marks_targets : forall v o, v ∈ vs -> target v = Some o -> marked m' o;
  marks_new : forall o, marked m' o -> marked m o \/
    ((exists v, v ∈ vs /\ reach m v o) /\ forall c o', c ∈ children m o -> target c = Some o' -> marked m' o') }.

Lemma grown_reach m m' v o : grown m m' -> reach m' v o <-> reach m v o.
Proof.
  intros G. split; induction 1 as [o H|o c o' _ IH Hc Ho]; try by apply reach_here.
  - rewrite (grown_children _ _ _ G) in Hc. by eapply reach_child.
  - rewrite <- (grown_children _ _ _ G) in Hc. by eapply reach_child.
Qed.

Lemma marks_nil m : marks [] m m.
Proof. split; [done| |by left]. intros v o H. by apply not_elem_of_nil in H. Qed.

Lemma marks_app vs ws m m1 m2 : marks vs m m1 -> marks ws m1 m2 -> marks (vs ++ ws) m m2.
Proof.
  intros [G1 T1 N1] [G2 T2 N2]. split.
  - by transitivity m1.
  - intros v o [H|H]%elem_of_app Ho; [|eauto]. eapply grown_marked; eauto.
  - intros o Ho. destruct (N2 o Ho) as [H1|[(v & Hv & Hr) Hc]].
    + destruct (N1 o H1) as [H|[(v & Hv & Hr) Hc]]; [by left|]. right. split.
      * exists v. split; [apply elem_of_app; by left|done].
      * intros c o' H1' H2'. eapply grown_marked; eauto.
    + right. split.
      * exists v. split; [apply elem_of_app; by right|]. by apply (grown_reach m m1).
      * intros c o' H. apply (Hc c o'). by rewrite (grown_children _ _ _ G1).
Qed.

(** Marking an unmarked object and then its children marks from the object. *)
Lemma marks_object v o m m1 m2 :
  target v = Some o -> grown m m1 -> marked m1 o -> (forall o', marked m1 o' -> o' = o \/ marked m o') ->
  marks (children m o) m1 m2 -> marks [v] m m2.
Proof.
  intros Ht G1 Hm Hn [G2 T2 N2]. split.
  - by transitivity m1.
  - intros w o' ->%list_elem_of_singleton Ho. simplify_eq. by eapply grown_marked.
  - intros o' Ho. destruct (N2 o' Ho) as [H|[(c & Hc & Hr) Hch]].
    + destruct (Hn o' H) as [->|]; [|by left]. right. split; [|eauto].
      exists v. split; [by apply list_elem_of_singleton|by apply reach_here].
    + right. split.
      * exists v. split; [by apply list_elem_of_singleton|].
        apply (grown_reach m m1) in Hr; [|done]. clear - Hr Hc Ht.
        induction Hr as [o' H|o1 c' o' _ IH Hc' Ho']; eapply reach_child; eauto. by apply reach_here.
      * intros c' o1 H. apply Hch. by rewrite (grown_children _ _ _ G1).
Qed.

(** [mark_all] marks from the values it goes through when its step does. *)
Lemma mark_all_marks (f : mvalue -> vm -> outcome vm) (b : nat) vs :
  (forall v m, pools_ok m -> (unmarked m < b)%nat -> completes (f v m) (marks [v] m)) ->
  forall n i m, pools_ok m -> (unmarked m < b)%nat -> 0 <= i -> i + Z.of_nat n <= zlen vs ->
  completes (mark_all f n i vs m) (marks (take n (drop (Z.to_nat i) vs)) m).
Proof.
  intros Hf. induction n as [|n IH]; intros i m Hok Hb Hi Hn.
  - rewrite take_0. apply completes_Ret, marks_nil.
  - cbn [mark_all]. destruct (rd_in_range vs i ltac:(lia)) as (v & -> & Hv). cbn [mbind outcome_bind].
    eapply completes_bind; [by apply Hf|]. intros m1 M1. pose proof (marks_grown _ _ _ M1) as G.
    eapply completes_mono; [apply (IH (i + 1) m1)|]; try lia.
    + by destruct Hok; apply (grown_ok m).
    + pose proof (grown_unmarked _ _ G). lia.
    + intros m2 M2. apply zget_lookup in Hv as [_ Hv]. rewrite (drop_S _ _ _ Hv). cbn [take].
      replace (S (Z.to_nat i)) with (Z.to_nat (i + 1)) by lia. exact (marks_app [v] _ _ _ _ M1 M2).
Qed.

Lemma marks_done v m : (forall o, target v = Some o -> marked m o) -> marks [v] m m.
Proof. intros H. split; [done| |by left]. intros w o ->%list_elem_of_singleton. apply H. Qed.

Lemma set_arr_marks v m m2 a :
  target v = Some (OArr (as_int v)) -> (arrays m).[as_int v] = Some a -> a_in_use a = 0 ->
  let m1 := with_arrays ((arrays m).[as_int v <- mark_arr a]) (array_count m) m in
  grown m m1 /\ unmarked m = S (unmarked m1) /\ (marks (take (Z.to_nat (a_count a)) (elems a)) m1 m2 -> marks [v] m m2).
Proof.
  intros Ht Ha Hu m1. pose proof (zget_Some_bound _ _ _ Ha).
  assert (grown m m1) as G.
  { exists (arrays m1), (dicts m). split; [by destruct m|]. split; [|done]. by apply (Forall2_zset _ _ _ a). }
  split; [done|]. split.
  - unfold unmarked, m1. cbn. rewrite (filter_zset a_in_use (arrays m) (as_int v) a (mark_arr a)); done || lia.
  - intros M. apply (marks_object v (OArr (as_int v)) m m1); try done.
    + exists (mark_arr a). split; [by apply zget_zset_eq|done].
    + intros [j|j] (b & Hb & Hj); [|right; by exists b]. cbn in Hb.
      destruct (decide (as_int v = j)) as [->|Hne]; [by left|]. rewrite zget_zset_ne in Hb by done. right. by exists b.
    + cbn. by rewrite Ha.
Qed.

Lemma set_dict_marks v m m2 a :
  target v = Some (ODict (as_int v)) -> (dicts m).[as_int v] = Some a -> d_in_use a = 0 ->
  let m1 := with_dicts ((dicts m).[as_int v <- mark_dict a]) (dict_count m) m in
  grown m m1 /\ unmarked m = S (unmarked m1) /\ (marks (take (Z.to_nat (d_count a)) (d_values a)) m1 m2 -> marks [v] m m2).
Proof.
  intros Ht Ha Hu m1. pose proof (zget_Some_bound _ _ _ Ha).
  assert (grown m m1) as G.
  { exists (arrays m), (dicts m1). split; [by destruct m|]. split; [done|]. by apply (Forall2_zset _ _ _ a). }
  split; [done|]. split.
  - unfold unmarked, m1. cbn. rewrite (filter_zset d_in_use (dicts m) (as_int v) a (mark_dict a)); done || lia.
  - intros M. apply (marks_object v (ODict (as_int v)) m m1); try done.
    + exists (mark_dict a). split; [by apply zget_zset_eq|done].
    + intros [j|j] (b & Hb & Hj); [right; by exists b|]. cbn in Hb.
      destruct (decide (as_int v = j)) as [->|Hne]; [by left|]. rewrite zget_zset_ne in Hb by done. right. by exists b.
    + cbn. by rewrite Ha.
Qed.

Lemma gc_mark_value_marks k : forall v m, pools_ok m -> (unmarked m < k)%nat -> completes (gc_mark_value k v m) (marks [v] m).
Proof.
  induction k as [|k IH]; intros v m Hok Hk; [lia|]. cbn [gc_mark_value].
  destruct (mv_type v) eqn:Et; try (apply completes_Ret, marks_done; unfold target; rewrite Et; by case_match).
  all: destruct ((as_int v <? 0) || (POOL_MAX <=? as_int v)) eqn:Eb; [apply completes_Ret, marks_done; unfold target; by rewrite Eb|].
  all: pose proof Eb as [B1%Z.ltb_ge B2%Z.leb_gt]%orb_false_iff; pose proof Hok as [(Hl & Hc & Ha) (Hl' & Hc' & Ha')].
  - assert (target v = Some (OArr (as_int v))) as Ht by (unfold target; by rewrite Eb, Et).
    destruct (rd_in_range (arrays m) (as_int v) ltac:(lia)) as (a & -> & Hv). cbn [mbind outcome_bind].
    destruct (a_in_use a =? 0) eqn:Eu; cbn [negb].
    2: { apply completes_Ret, marks_done. intros o E. simplify_eq. exists a. split; [done|lia]. }
    rewrite wr_in_range by lia. cbn [mbind outcome_bind].
    destruct (set_arr_marks v m m a Ht Hv ltac:(lia)) as (G & Hun & _). pose proof (Forall_zget _ _ _ _ Ha Hv) as [Hlen Hn].
    eapply completes_mono; [eapply (mark_all_marks _ k (elems a)); [exact IH|..]; try lia; by apply (grown_ok m)|].
    intros m2 M. by apply (set_arr_marks v m m2 a Ht Hv ltac:(lia)).
  - assert (target v = Some (ODict (as_int v))) as Ht by (unfold target; by rewrite Eb, Et).
    destruct (rd_in_range (dicts m) (as_int v) ltac:(lia)) as (a & -> & Hv). cbn [mbind outcome_bind].
    destruct (d_in_use a =? 0) eqn:Eu; cbn [negb].
    2: { apply completes_Ret, marks_done. intros o E. simplify_eq. exists a. split; [done|lia]. }
    rewrite wr_in_range by lia. cbn [mbind outcome_bind].
    destruct (set_dict_marks v m m a Ht Hv ltac:(lia)) as (G & Hun & _). pose proof (Forall_zget _ _ _ _ Ha' Hv) as (_ & Hlen & Hn).
    eapply completes_mono; [eapply (mark_all_marks _ k (d_values a)); [exact IH|..]; try lia; by apply (grown_ok m)|].
    intros m2 M. by apply (set_dict_marks v m m2 a Ht Hv ltac:(lia)).
Qed.

(** ** The collector *)

(** The values the collector starts from. *)
Definition scope_values (s : scope) : list mvalue := take (Z.to_nat (s_count s)) (s_values s).
Definition roots (m : vm) : list mvalue :=
  take (Z.to_nat (sp m)) (stack m) ++ concat (scope_values <$> take (Z.to_nat (scope_depth m + 1)) (scopes m)).

(** The machine with the marks below the counts cleared. *)
Definition cleared (m : vm) : vm :=
  let n := Z.to_nat (array_count m) in
  let k := Z.to_nat (dict_count m) in
  with_dicts ((clear_dict <$> take k (dicts m)) ++ drop k (dicts m)) (dict_count m)
    (with_arrays ((clear_arr <$> take n (arrays m)) ++ drop n (arrays m)) (array_count m) m).

Lemma Forall2_clear {A} (R : A -> A -> Prop) `{!PreOrder R} (f : A -> A) n l :
  (forall x, R (f x) x) -> Forall2 R ((f <$> take n l) ++ drop n l) l.
Proof.
  intros H. rewrite <- (take_drop n l) at 3. apply Forall2_app; [|done].
  induction (take n l); constructor; auto.
Qed.

Lemma cleared_grown m : grown (cleared m) m.
Proof.
  exists (arrays m), (dicts m). split; [by destruct m|]. split; apply Forall2_clear; try apply _; intros x; by split_and!.
Qed.

Lemma cleared_ok m : pools_ok m -> pools_ok (cleared m).
Proof.
  intros [(Hl & Hc & Ha) (Hl' & Hc' & Ha')]. pose proof (cleared_grown m) as (xs & ds & E & Hx & Hd).
  assert (arrays m = xs) as <- by (by rewrite E). assert (dicts m = ds) as <- by (by rewrite E).
  pose proof (Forall2_length _ _ _ Hx). pose proof (Forall2_length _ _ _ Hd). unfold pools_ok, arrays_ok, dicts_ok, zlen in *.
  split_and!; try (cbn in *; lia).
  - eapply Forall2_Forall_l; [exact Hx|]. eapply Forall_impl; [exact Ha|]. intros a Hok b (E1 & E2 & _). unfold arr_ok. by rewrite <- E1, <- E2.
  - eapply Forall2_Forall_l; [exact Hd|]. eapply Forall_impl; [exact Ha'|]. intros a Hok b (E1 & E2 & E3 & _). unfold dict_ok. by rewrite <- E1, <- E2, <- E3.
Qed.

Lemma unmarked_fuel m : pools_ok m -> (unmarked m < gc_fuel)%nat.
Proof.
  intros [(Hl & _ & _) (Hl' & _ & _)]. unfold unmarked, gc_fuel, zlen in *.
  pose proof (length_filter (fun a => a_in_use a = 0) (arrays m)). pose proof (length_filter (fun d => d_in_use d = 0) (dicts m)).
  unfold POOL_MAX in *. lia.
Qed.

Lemma mark_list_marks vs n m : pools_ok m -> Z.of_nat n <= zlen vs ->
  completes (mark_all (gc_mark_value gc_fuel) n 0 vs m) (marks (take n vs) m).
Proof.
  intros Hok Hn. apply (mark_all_marks _ gc_fuel vs (fun v m' H1 H2 => gc_mark_value_marks gc_fuel v m' H1 H2) n 0); [done|by apply unmarked_fuel|lia..].
Qed.

Lemma mark_scopes_marks n : forall d m, pools_ok m -> scopes_ok m -> 0 <= d -> d + Z.of_nat n <= METAL_ENV_DEPTH ->
  completes (mark_scopes n d m) (marks (concat (scope_values <$> take n (drop (Z.to_nat d) (scopes m)))) m).
Proof.
  induction n as [|n IH]; intros d m Hok Hs Hd Hn; [rewrite take_0; apply completes_Ret, marks_nil|]. cbn [mark_scopes].
  pose proof Hs as (Hl & Hdep & Hf). rewrite (proj2 (Z.leb_le 0 d)), (proj2 (Z.ltb_lt d _)) by lia. cbn [andb].
  destruct (rd_in_range (scopes m) d ltac:(lia)) as (s & -> & Hg). cbn [mbind outcome_bind].
  pose proof (Forall_zget _ _ _ _ Hf Hg) as (_ & _ & Hlv & Hcv).
  eapply completes_bind; [apply mark_list_marks; [done|lia]|]. intros m1 M1. pose proof (marks_grown _ _ _ M1) as G.
  assert (scopes m1 = scopes m /\ scope_depth m1 = scope_depth m) as [Es Ed] by (destruct G as (xs & ds & -> & _); done).
  eapply completes_mono; [apply IH; [by destruct Hok; apply (grown_ok m)| |lia..]|].
  - unfold scopes_ok. by rewrite Es, Ed.
  - intros m2 M2. apply zget_lookup in Hg as [_ Hg]. rewrite (drop_S _ _ _ Hg). cbn [take fmap list_fmap concat].
    rewrite Es in M2. replace (S (Z.to_nat d)) with (Z.to_nat (d + 1)) by lia. exact (marks_app _ _ _ _ _ M1 M2).
Qed.

(** From the cleared machine, the collector marks from the roots. *)
Lemma gc_marks m : pools_ok m -> scopes_ok m -> stack_ok m -> completes (metal_vm_gc m) (marks (roots m) (cleared m)).
Proof.
  intros Hok Hs (Hl & Hsp). unfold metal_vm_gc. fold (cleared m). pose proof (cleared_ok m Hok) as Hok1.
  eapply completes_bind; [apply mark_list_marks; [done|cbn; lia]|]. intros m1 M1. pose proof (marks_grown _ _ _ M1) as G.
  assert (scopes m1 = scopes m /\ scope_depth m1 = scope_depth m) as [Es Ed] by (destruct G as (xs & ds & -> & _); done).
  pose proof Hs as (_ & Hd & _). eapply completes_mono; [apply mark_scopes_marks; [by destruct Hok1; apply (grown_ok (cleared m))| |lia..]|].
  - unfold scopes_ok. by rewrite Es, Ed.
  - intros m2 M2. rewrite Es, Ed in M2. exact (marks_app _ _ _ _ _ M1 M2).
Qed.

(** Objects past the counts have never been taken. *)
Definition fresh_unmarked (m : vm) : Prop :=
  (forall i a, array_count m <= i -> (arrays m).[i] = Some a -> a_in_use a = 0) /\
  (forall i d, dict_count m <= i -> (dicts m).[i] = Some d -> d_in_use d = 0).

Lemma zget_clear {A} (u : A -> Z) (f : A -> A) n l i x :
  (forall y, u (f y) = 0) -> (forall j y, n <= j -> l.[j] = Some y -> u y = 0) -> 0 <= n <= zlen l ->
  ((f <$> take (Z.to_nat n) l) ++ drop (Z.to_nat n) l).[i] = Some x -> u x = 0.
Proof.
  intros Hf Hl Hn Hx. apply zget_lookup in Hx as [Hi Hx].
  apply lookup_app_Some in Hx as [Hx|[Hge Hx]].
  - apply list_lookup_fmap_Some in Hx as (y & -> & _). apply Hf.
  - rewrite length_fmap, length_take in *. unfold zlen in Hn. rewrite lookup_drop in Hx.
    apply (Hl i x); [lia|]. apply zget_lookup. split; [done|]. rewrite <- Hx. f_equal. lia.
Qed.

Lemma cleared_unmarked m o : pools_ok m -> fresh_unmarked m -> ~ marked (cleared m) o.
Proof.
  intros [(Hl & Hc & _) (Hl' & Hc' & _)] [Ha Hd]. destruct o as [i|i]; intros (x & Hx & Hu); apply Hu.
  - eapply (zget_clear a_in_use clear_arr); [done|exact Ha| |exact Hx]. lia.
  - eapply (zget_clear d_in_use clear_dict); [done|exact Hd| |exact Hx]. lia.
Qed.

(** C18: the collector of the byte-code machine ([metal_vm_gc]) returns, and an
    array or dictionary is in use after it exactly when the value stack or a
    variable of the scopes leads to it through elements of arrays and values of
    dictionaries; contents and everything else in the machine are untouched. *)
Theorem gc_marks_reachable m :
  pools_ok m -> scopes_ok m -> stack_ok m -> fresh_unmarked m ->
  completes (metal_vm_gc m) (fun m' =>
    (forall o, marked m' o <-> exists v, v ∈ roots m /\ reach m v o) /\ (forall o, children m' o = children m o) /\
    exists xs ds, m' = with_dicts ds (dict_count m) (with_arrays xs (array_count m) m)).
Proof.
  intros Hok Hs Hst Hfr. eapply completes_mono; [by apply gc_marks|]. intros m' [G T N].
  pose proof (cleared_grown m) as G0. split_and!.
  - intros o. split.
    + intros [H|[(v & Hv & Hr) _]]%N; [by apply cleared_unmarked in H|]. exists v. split; [done|]. by apply (grown_reach (cleared m)).
    + intros (v & Hv & Hr). induction Hr as [o H|o c o' _ IH Hc Ho]; [eauto|].
      destruct (N o IH) as [H|[_ H]]; [by apply cleared_unmarked in H|]. apply (H c o'); [|done]. by rewrite <- (grown_children _ _ _ G0).
  - intros o. by rewrite (grown_children _ _ o G), (grown_children _ _ o G0).
  - destruct G as (xs & ds & -> & _). by exists xs, ds.
Qed.

(** ** The initial machine *)

Lemma arr_zero_ok : arr_ok arr_zero.
Proof. split; [exact (zlen_replicate _ _)|done]. Qed.
Lemma dict_zero_ok : dict_ok dict_zero.
Proof. split_and!; exact (zlen_replicate _ _) || done. Qed.
Lemma scope_zero_ok : scope_ok scope_zero.
Proof. split_and!; exact (zlen_replicate _ _) || done. Qed.

Lemma init_pools_ok (w : W) : pools_ok (metal_vm_init w).
Proof.
  split; split_and!; try exact (zlen_replicate _ _); try done; apply Forall_replicate; [apply arr_zero_ok|apply dict_zero_ok].
Qed.
Lemma init_scopes_ok (w : W) : scopes_ok (metal_vm_init w).
Proof. split_and!; [exact (zlen_replicate _ _)|done..|]. apply Forall_replicate, scope_zero_ok. Qed.
Lemma init_stack_ok (w : W) : stack_ok (metal_vm_init w).
Proof. split; [exact (zlen_replicate _ _)|done]. Qed.

End world.

(** Array 0 is on the stack and holds array 1; nothing refers to array 2. *)
Definition ex_arr (v : option mvalue) : marray :=
  match v with Some x => mk_arr ((elems arr_zero).[0 <- x]) 1 1 | None => mk_arr (elems arr_zero) 0 1 end.
Definition ex_gc : vm unit :=
  with_sp 1 (with_stack ((stack (metal_vm_init tt)).[0 <- mk_mv MV_ARR 0])
    (with_arrays ((arrays (metal_vm_init tt)).[0 <- ex_arr (Some (mk_mv MV_ARR 1))].[1 <- ex_arr None].[2 <- ex_arr None]) 3 (metal_vm_init tt))).

Lemma ex_gc_ok : pools_ok ex_gc /\ scopes_ok ex_gc /\ stack_ok ex_gc /\ fresh_unmarked ex_gc.
Proof.
  pose proof (init_pools_ok tt) as [(Hl & _ & Ha) Hd]. pose proof arr_zero_ok as [He _].
  split_and!; [split; [split_and!|exact Hd]|exact (init_scopes_ok tt)|split|split].
  - cbn [ex_gc with_sp with_stack with_arrays arrays]. by rewrite !zlen_zset.
  - done.
  - done.
  - repeat apply Forall_zset; try exact Ha; split; done.
  - cbn [ex_gc with_sp with_stack with_arrays stack]. rewrite zlen_zset. exact (zlen_replicate _ _).
  - done.
  - intros i a Hi Hx. cbn [ex_gc with_sp with_stack with_arrays array_count arrays] in *.
    rewrite !zget_zset_ne in Hx by lia. by apply zget_replicate_inv in Hx as ->.
  - intros i d Hi Hx. by apply zget_replicate_inv in Hx as ->.
Qed.

Lemma gc_marks_reachable_witness :
  pools_ok ex_gc /\ completes (metal_vm_gc ex_gc) (fun m' => marked m' (OArr 1) /\ ~ marked m' (OArr 2)).
Proof.
  split; [apply ex_gc_ok|]. destruct ex_gc_ok as (H1 & H2 & H3 & H4).
  eapply completes_mono; [exact (gc_marks_reachable ex_gc H1 H2 H3 H4)|]. intros m' (Hm & _).
  assert (roots ex_gc = [mk_mv MV_ARR 0]) as Er by (vm_compute; reflexivity).
  assert (children ex_gc (OArr 0) = [mk_mv MV_ARR 1]) as E0 by (vm_compute; reflexivity).
  assert (children ex_gc (OArr 1) = []) as E1 by (vm_compute; reflexivity).
  split.
  - apply Hm. exists (mk_mv MV_ARR 0). split; [rewrite Er; by apply list_elem_of_singleton|].
    apply (reach_child _ _ (OArr 0) (mk_mv MV_ARR 1)); [by apply reach_here|rewrite E0; by apply list_elem_of_singleton|done].
  - intros (v & Hv & Hr)%Hm. rewrite Er in Hv. apply list_elem_of_singleton in Hv as ->.
    assert (forall o, reach ex_gc (mk_mv MV_ARR 0) o -> o = OArr 0 \/ o = OArr 1) as Hall.
    { induction 1 as [o H|o c o' _ IH Hc Ho]; [left; vm_compute in H; by simplify_eq|].
      destruct IH as [-> | ->]; [rewrite E0 in Hc|rewrite E1 in Hc; by apply not_elem_of_nil in Hc].
      apply list_elem_of_singleton in Hc as ->. right. vm_compute in Ho. by simplify_eq. }
    by destruct (Hall _ Hr).
Defined.
End VmGc.
