(* ===== verification/VmStr.v ===== *)
(** * The string pool of the byte-code machine

    [metal_string_intern] and [metal_string_get] of kernel/core/sagelang/metal_vm.c
    implement a table of distinct strings: each has one index, at which it is
    found again. *)

From stdpp Require Import base tactics numbers option strings list.
From S2P Require Import Prelude Digits CMem Float64 Vm.

Module VmStr.
Import Vm.

Section world.
Context {W : Type}.
Abbreviation vm := (Vm.vm W).
Implicit Types m : vm.

(** The strings of [l] one after the other from [a], each followed by a NUL. *)
Fixpoint laid (st : mem) (a : Z) (l : list (list Z)) : Prop :=
  match l with
  | [] => True
  | s :: r => (forall i x, s.[i] = Some x -> st (a + i) = x) /\ st (a + zlen s) = 0 /\ laid st (a + zlen s + 1) r
  end.

Fixpoint size (l : list (list Z)) : Z := match l with [] => 0 | s :: r => zlen s + 1 + size r end.

(** Where [s] is, when the strings are laid from [a]. *)
Fixpoint index_of (s : list Z) (a : Z) (l : list (list Z)) : option Z :=
  match l with
  | [] => None
  | t :: r => if decide (t = s) then Some a else index_of s (a + zlen t + 1) r
  end.

Definition nul_free (s : list Z) : Prop := Forall (fun c => c <> 0) s.

Record pool (m : vm) (l : list (list Z)) : Prop := {
  pool_laid : laid (strings m) 0 l;
  pool_size : string_used m = size l;
  pool_limit : size l <= METAL_STRING_POOL;
  pool_chars : Forall nul_free l }.

Lemma size_nonneg l : Z.of_nat (length l) <= size l.
Proof. induction l as [|s l IH]; cbn; [lia|]. pose proof (zlen_nonneg s). lia. Qed.

Lemma size_app l k : size (l ++ k) = size l + size k.
Proof. induction l; cbn; lia. Qed.

Lemma chars_at_string st s : forall a n, nul_free s -> (forall i x, s.[i] = Some x -> st (a + i) = x) -> st (a + zlen s) = 0 ->
  zlen s < Z.of_nat n -> chars_at n st a = Ret s.
Proof.
  induction s as [|c s IH]; intros a [|n] Hf Hs H0 Hn; cbn [chars_at].
  - pose proof (zlen_nonneg (A := Z) []). lia.
  - replace (a + zlen []) with a in H0 by (unfold zlen; cbn; lia). by rewrite H0.
  - pose proof (zlen_nonneg (c :: s)). lia.
  - apply Forall_cons in Hf as [Hc Hf]. rewrite zlen_cons in *.
    assert (st a = c) as E by (rewrite <- (Hs 0 c eq_refl); f_equal; lia).
    rewrite E, (proj2 (Z.eqb_neq c 0) Hc). rewrite (IH (a + 1) n); [done|done| |rewrite <- H0; f_equal; lia|lia].
    intros i x Hx. pose proof (zget_Some_bound _ _ _ Hx). rewrite <- (Hs (i + 1) x); [f_equal; lia|].
    apply zget_lookup. apply zget_lookup in Hx as [_ Hx]. split; [lia|]. by replace (Z.to_nat (i + 1)) with (S (Z.to_nat i)) by lia.
Qed.

Lemma index_of_bound s l : forall a j, index_of s a l = Some j -> a <= j /\ j + zlen s + 1 <= a + size l.
Proof.
  induction l as [|t l IH]; intros a j H; cbn in H; [done|]. cbn [size]. pose proof (zlen_nonneg t). pose proof (size_nonneg l).
  case_decide; [simplify_eq; lia|]. apply IH in H. lia.
Qed.

(** The string at an index is there, with its NUL. *)
Lemma laid_index st s l : forall a j, laid st a l -> index_of s a l = Some j ->
  (forall i x, s.[i] = Some x -> st (j + i) = x) /\ st (j + zlen s) = 0.
Proof.
  induction l as [|t l IH]; intros a j Hl H; cbn in H; [done|]. destruct Hl as (H1 & H2 & H3).
  case_decide; [by simplify_eq|]. eauto.
Qed.

Lemma index_of_In s l : forall a j, index_of s a l = Some j -> s ∈ l.
Proof. induction l as [|t l IH]; intros a j H; cbn in H; [done|]. case_decide; apply elem_of_cons; [by left|eauto]. Qed.

Lemma get_index m l s j : pool m l -> index_of s 0 l = Some j -> metal_string_get j m = Ret s.
Proof.
  intros [Hl Hs _ Hf] Hj. destruct (laid_index _ _ _ _ _ Hl Hj) as [H1 H2]. destruct (index_of_bound _ _ _ _ Hj).
  pose proof (zlen_nonneg s). unfold metal_string_get.
  rewrite (proj2 (Z.ltb_ge j 0)), (proj2 (Z.leb_gt (string_used m) j)) by lia. cbn [orb].
  apply chars_at_string; [|done|done|lia]. apply index_of_In in Hj. by eapply Forall_forall in Hf.
Qed.

Lemma search_index m s l : forall a n, laid (strings m) a l -> Forall nul_free l -> string_used m = a + size l -> (length l <= n)%nat ->
  intern_search n a s m = Ret (index_of s a l).
Proof.
  induction l as [|t l IH]; intros a n Hl Hf Hu Hn; cbn in Hu.
  - destruct n; cbn [intern_search]; by rewrite (proj2 (Z.ltb_ge a _)) by lia.
  - destruct n as [|n]; [cbn in Hn; lia|]. cbn in Hn. destruct Hl as (H1 & H2 & H3). apply Forall_cons in Hf as [Ht Hf].
    pose proof (zlen_nonneg t). pose proof (size_nonneg l). cbn [intern_search index_of].
    rewrite (proj2 (Z.ltb_lt a _)) by lia. rewrite (chars_at_string _ t) by (done || lia). cbn [mbind outcome_bind].
    case_decide; [by rewrite bool_decide_true|]. rewrite bool_decide_false by done. apply IH; try done; lia.
Qed.

Lemma index_of_None s l : forall a, index_of s a l = None -> s ∉ l.
Proof.
  induction l as [|t l IH]; intros a H; cbn in H; [by apply not_elem_of_nil|].
  case_decide; [done|]. apply not_elem_of_cons. eauto.
Qed.

(** Adding a string at the end. *)
Lemma laid_app st l k : forall a, laid st a (l ++ k) <-> laid st a l /\ laid st (a + size l) k.
Proof.
  induction l as [|t l IH]; intros a; cbn.
  - rewrite Z.add_0_r. tauto.
  - rewrite IH. replace (a + zlen t + 1 + size l) with (a + (zlen t + 1 + size l)) by lia. tauto.
Qed.

Lemma laid_ext st st' l : forall a, (forall i, a <= i < a + size l -> st' i = st i) -> laid st a l -> laid st' a l.
Proof.
  induction l as [|t l IH]; intros a He Hl; [done|]. destruct Hl as (H1 & H2 & H3). cbn in He.
  pose proof (zlen_nonneg t). pose proof (size_nonneg l). split_and!.
  - intros i x Hx. pose proof (zget_Some_bound _ _ _ Hx). rewrite He by lia. auto.
  - by rewrite He by lia.
  - apply IH; [|done]. intros i Hi. apply He. lia.
Qed.

Lemma index_of_app_l s l k : forall a j, index_of s a l = Some j -> index_of s a (l ++ k) = Some j.
Proof. induction l as [|t l IH]; intros a j H; cbn in *; [done|]. case_decide; auto. Qed.

Lemma index_of_app_r s l : forall a, index_of s a l = None -> index_of s a (l ++ [s]) = Some (a + size l).
Proof.
  induction l as [|t l IH]; intros a H; cbn in *; [rewrite decide_True by done; f_equal; lia|].
  case_decide; [done|]. rewrite IH by done. f_equal. lia.
Qed.

(** The memory after a string has been added at [u]. *)
Definition added (st : mem) (u : Z) (s : list Z) : mem :=
  store_le 1 (fun x => if in_block u (zlen s) x then default 0 (s.[x - u]) else st x) (u + zlen s) 0.

Lemma added_laid st u s l : u = size l -> laid st 0 l -> laid (added st u s) 0 (l ++ [s]).
Proof.
  intros -> Hl. pose proof (zlen_nonneg s). apply laid_app. split; [|split_and!; [| |done]].
  - eapply laid_ext; [|exact Hl]. intros i Hi. unfold added, in_block. rewrite store_byte, (proj2 (Z.eqb_neq _ _)) by lia.
    by rewrite (proj2 (Z.leb_gt (size l) i)) by lia.
  - intros i x Hx. pose proof (zget_Some_bound _ _ _ Hx). unfold added, in_block. rewrite store_byte, (proj2 (Z.eqb_neq _ _)) by lia.
    rewrite (proj2 (Z.leb_le _ _)), (proj2 (Z.ltb_lt _ _)) by lia. cbn [andb]. replace (0 + size l + i - size l) with i by lia. by rewrite Hx.
  - unfold added. rewrite Z.add_0_l. by rewrite store_byte, Z.eqb_refl.
Qed.

(** Interning a string that fits. *)
Lemma intern_fits m l s : pool m l -> nul_free s -> size l + zlen s + 1 <= METAL_STRING_POOL ->
  exists i st n l', metal_string_intern s m = Ret (i, with_strings st n m) /\ pool (with_strings st n m) l' /\ l `prefix_of` l' /\
    index_of s 0 l' = Some i /\ size l' <= size l + zlen s + 1.
Proof.
  intros Hp Hs Hfit. pose proof Hp as [Hl Hu Hm Hf]. unfold metal_string_intern. pose proof (size_nonneg l). pose proof (zlen_nonneg s).
  rewrite (search_index m s l) by (done || lia). cbn [mbind outcome_bind]. destruct (index_of s 0 l) as [i|] eqn:Ei.
  - exists i, (strings m), (string_used m), l. replace (with_strings _ _ m) with m by (by destruct m). split_and!; done || lia.
  - rewrite Hu, (proj2 (Z.ltb_ge _ _)) by lia. fold (added (strings m) (size l) s). eexists _, _, _, (l ++ [s]). split_and!; [done| | | |].
    + split; [by apply added_laid|..|apply Forall_app; by rewrite Forall_singleton]; rewrite size_app; cbn; lia.
    + by apply prefix_app_r.
    + by apply (index_of_app_r s l 0).
    + rewrite size_app. cbn. lia.
Qed.

(** C28: the string pool of the byte-code machine keeps a table of distinct
    strings. Interning a string already there returns its index and changes
    nothing; a new one is added when it fits with its NUL, and -1 is returned
    otherwise. After it [metal_string_get] reads the string back at the index
    returned, and every earlier string is still found, and interned, at its own. *)
Theorem intern_refines m l s :
  pool m l -> nul_free s ->
  completes (metal_string_intern s m) (fun '(i, m') =>
    (index_of s 0 l = None /\ METAL_STRING_POOL < size l + zlen s + 1 /\ i = -1 /\ pool m' l) \/
    exists l', pool m' l' /\ index_of s 0 l' = Some i /\ metal_string_get i m' = Ret s /\
      (s ∈ l -> m' = m) /\ l' = (if decide (s ∈ l) then l else l ++ [s]) /\
      forall t j, index_of t 0 l = Some j -> index_of t 0 l' = Some j /\ metal_string_get j m' = Ret t).
Proof.
  intros Hp Hs. pose proof Hp as [Hl Hu Hm Hf]. unfold metal_string_intern. pose proof (size_nonneg l). pose proof (zlen_nonneg s).
  rewrite (search_index m s l) by (done || lia). cbn [mbind outcome_bind].
  destruct (index_of s 0 l) as [i|] eqn:Ei.
  - apply completes_Ret. right. pose proof (index_of_In _ _ _ _ Ei). exists l. rewrite decide_True by done. split_and!; eauto using get_index.
  - rewrite Hu. assert (s ∉ l) as Hin by (by apply index_of_None in Ei). destruct (Z.ltb_spec METAL_STRING_POOL (size l + zlen s + 1)).
    + apply completes_Ret. left. by split_and!.
    + fold (added (strings m) (size l) s). apply completes_Ret. right. exists (l ++ [s]). rewrite decide_False by done.
      match goal with |- pool ?m' _ /\ _ => assert (pool m' (l ++ [s])) as Hp' end.
      { split; [by apply added_laid|..|apply Forall_app; by rewrite Forall_singleton]; rewrite size_app; cbn; lia. }
      pose proof (index_of_app_r s l 0 Ei) as Hi. split_and!; eauto using get_index, index_of_app_l; done.
Qed.

End world.

(** The pool with one string. *)
Definition ex_strings : vm unit := with_strings (added mem_zero 0 [97; 98]) 3 (metal_vm_init tt).

Lemma ex_strings_pool : pool ex_strings [[97; 98]].
Proof. split; [by apply (added_laid _ _ _ [])|done|done|]. repeat constructor; done. Qed.

Lemma intern_refines_witness :
  pool ex_strings [[97; 98]] /\
  completes (metal_string_intern [99] ex_strings) (fun '(i, m') => metal_string_get i m' = Ret [99] /\ metal_string_get 0 m' = Ret [97; 98]).
Proof.
  split; [exact ex_strings_pool|].
  eapply completes_mono; [apply (intern_refines _ _ [99] ex_strings_pool); by repeat constructor|].
  intros [i m'] [(_ & H & _)|(l' & _ & _ & Hg & _ & _ & Ho)]; [by vm_compute in H|]. split; [done|]. by apply (Ho [97; 98] 0).
Defined.
End VmStr.
