(* ===== verification/VmSafe.v ===== *)
(** * Safety of the byte-code machine

    A well-formed machine stays well formed and makes no access out of bounds on
    any instruction, when the operands that kernel/core/sagelang/metal_vm.c does not
    check are in range; [guarded] says which these are. *)

From stdpp Require Import base tactics numbers option strings list.
From S2P Require Import Prelude Digits CMem Float64 Vm VmGc.

Module VmSafe.
Import Vm VmGc.

Section world.
Context {W : Type}.
Abbreviation vm := (Vm.vm W).
Implicit Types m : vm.

(** ** Well-formed machines *)

Definition CODE_MAX : Z := 2 ^ 31 - 1.
Definition is_byte (b : Z) : Prop := 0 <= b < 256.

(** A program text of [len] bytes inside its buffer; [len] may be negative. *)
Definition code_ok (c : code) (len : Z) : Prop :=
  Forall is_byte (c_data c) /\ 0 <= c_off c /\ c_off c + len <= zlen (c_data c) /\ len < CODE_MAX.

Definition pool_ok (p : pool_ptr) (n : Z) : Prop :=
  match p with
  | PoolMain => n <= METAL_CONST_POOL
  | PoolHeap b => 0 <= b /\ (b + n) * SIZEOF_VALUE <= METAL_HEAP_SIZE
  end.

Definition regs_ok (r : regs) : Prop :=
  code_ok (r_code r) (code_length r) /\ 0 <= ip r < CODE_MAX /\ pool_ok (constants r) (const_count r).
Definition frame_regs (f : frame) : regs := mk_regs (fr_code f) (fr_code_length f) (fr_ip f) (fr_constants f) (fr_const_count f).
Definition frame_ok (f : frame) : Prop := regs_ok (frame_regs f) /\ 0 <= sp_base f <= METAL_STACK_SIZE.
Definition fun_ok (f : mfun) : Prop :=
  code_ok (f_code f) (f_code_length f) /\ pool_ok (f_constants f) (f_const_count f) /\
  0 <= param_count f <= 8 /\ zlen (param_name_hashes f) = 8.

Definition frames_ok (m : vm) : Prop := zlen (call_stack m) = METAL_CALL_STACK /\ 0 <= frame_count m <= METAL_CALL_STACK /\ Forall frame_ok (call_stack m).
Definition funs_ok (m : vm) : Prop := zlen (functions m) = POOL_MAX /\ 0 <= fn_count m <= POOL_MAX /\ Forall fun_ok (functions m).
Definition strings_ok (m : vm) : Prop :=
  0 <= string_used m <= METAL_STRING_POOL /\ (0 < string_used m -> strings m (string_used m - 1) = 0).
Definition natives_ok (m : vm) : Prop := zlen (natives m) = METAL_NATIVE_MAX /\ 0 <= native_count m <= METAL_NATIVE_MAX.

Record vm_ok (m : vm) : Prop := {
  ok_stack : stack_ok m;
  ok_frames : frames_ok m;
  ok_cur : regs_ok (cur m);
  ok_main : zlen (main_constants m) = METAL_CONST_POOL;
  ok_scopes : scopes_ok m;
  ok_pools : pools_ok m;
  ok_funs : funs_ok m;
  ok_strings : strings_ok m;
  ok_natives : natives_ok m }.

(** ** Changing one part *)

End world.

Create HintDb vmok discriminated.

Ltac vm_part := match goal with H : vm_ok _ |- _ => destruct H; constructor; done || (repeat split; done || lia) end.

(** Arithmetic on the results of calls. *)
Ltac vlia := repeat match goal with H : (fun _ => _) _ |- _ => progress cbn beta iota in H end; lia.

(** The guard on an index that every access starts with. *)
Ltac in_pool := match goal with |- completes (if ?b then _ else _) _ =>
  let E := fresh "E" in destruct b eqn:E; [by apply completes_Ret|apply orb_false_iff in E as [?%Z.ltb_ge ?%Z.leb_gt]] end.

Section world.
Context {W : Type}.
Abbreviation vm := (Vm.vm W).
Implicit Types m : vm.

Lemma ok_with_error e s m : vm_ok m -> vm_ok (with_error e s m). Proof. intros H. vm_part. Qed.
Lemma ok_with_halted x m : vm_ok m -> vm_ok (with_halted x m). Proof. intros H. vm_part. Qed.
Lemma ok_with_console x m : vm_ok m -> vm_ok (with_console x m). Proof. intros H. vm_part. Qed.
Lemma ok_with_out x m : vm_ok m -> vm_ok (with_out x m). Proof. intros H. vm_part. Qed.
Lemma ok_with_vtrace x m : vm_ok m -> vm_ok (with_vtrace x m). Proof. intros H. vm_part. Qed.
Lemma ok_say l m : vm_ok m -> vm_ok (say l m). Proof. apply ok_with_console. Qed.
Lemma ok_fail s m : vm_ok m -> vm_ok (fail s m). Proof. apply ok_with_error. Qed.
Lemma ok_put_chars l m : vm_ok m -> vm_ok (put_chars l m).
Proof. unfold put_chars. destruct (write_char m); [apply ok_with_out|done]. Qed.

Lemma ok_with_cur r m : vm_ok m -> regs_ok r -> vm_ok (with_cur r m).
Proof. intros H Hr. vm_part. Qed.
Lemma ok_with_ip x m : vm_ok m -> 0 <= x < CODE_MAX -> vm_ok (with_ip x m).
Proof. intros H Hx. apply ok_with_cur; [done|]. destruct (ok_cur _ H) as (Hc & _ & Hp). done. Qed.
Lemma ok_with_sp x m : vm_ok m -> 0 <= x <= METAL_STACK_SIZE -> vm_ok (with_sp x m).
Proof. intros H Hx. pose proof (ok_stack _ H) as [Hl _]. vm_part. Qed.
Lemma ok_with_stack i v m : vm_ok m -> vm_ok (with_stack ((stack m).[i <- v]) m).
Proof. intros H. pose proof (ok_stack _ H) as [Hl Hs]. assert (stack_ok (with_stack ((stack m).[i <- v]) m)) by (split; [cbn; by rewrite zlen_zset|done]). vm_part. Qed.
Lemma ok_with_arr i a m : vm_ok m -> arr_ok a -> vm_ok (with_arrays ((arrays m).[i <- a]) (array_count m) m).
Proof.
  intros H Ha. pose proof (ok_pools _ H) as [(Hl & Hc & Hf) Hd].
  assert (pools_ok (with_arrays ((arrays m).[i <- a]) (array_count m) m)).
  { split; [|done]. split_and!; [cbn; by rewrite zlen_zset|cbn; lia..|]. by apply Forall_zset. }
  vm_part.
Qed.
Lemma ok_with_dict i a m : vm_ok m -> dict_ok a -> vm_ok (with_dicts ((dicts m).[i <- a]) (dict_count m) m).
Proof.
  intros H Ha. pose proof (ok_pools _ H) as [Hp (Hl & Hc & Hf)].
  assert (pools_ok (with_dicts ((dicts m).[i <- a]) (dict_count m) m)).
  { split; [done|]. split_and!; [cbn; by rewrite zlen_zset|cbn; lia..|]. by apply Forall_zset. }
  vm_part.
Qed.
Lemma ok_with_scope i s m : vm_ok m -> scope_ok s -> vm_ok (with_scopes ((scopes m).[i <- s]) m).
Proof.
  intros H Hs. pose proof (ok_scopes _ H) as (Hl & Hc & Hf).
  assert (scopes_ok (with_scopes ((scopes m).[i <- s]) m)) by (split_and!; [cbn; by rewrite zlen_zset|cbn; lia..|]; by apply Forall_zset).
  vm_part.
Qed.
Lemma ok_with_depth x m : vm_ok m -> 0 <= x < METAL_ENV_DEPTH -> vm_ok (with_depth x m).
Proof. intros H Hx. pose proof (ok_scopes _ H) as (Hl & _ & Hf). vm_part. Qed.
Lemma ok_with_frames i f n m : vm_ok m -> frame_ok f -> 0 <= n <= METAL_CALL_STACK -> vm_ok (with_frames ((call_stack m).[i <- f]) n m).
Proof.
  intros H Hf Hn. pose proof (ok_frames _ H) as (Hl & Hc & Hfs).
  assert (frames_ok (with_frames ((call_stack m).[i <- f]) n m)) by (split_and!; [cbn; by rewrite zlen_zset|cbn; lia..|]; by apply Forall_zset).
  vm_part.
Qed.
Lemma ok_with_frame_count n m : vm_ok m -> 0 <= n <= METAL_CALL_STACK -> vm_ok (with_frames (call_stack m) n m).
Proof. intros H Hn. pose proof (ok_frames _ H) as (Hl & _ & Hfs). vm_part. Qed.

End world.

#[export] Hint Resolve ok_with_error ok_with_halted ok_with_console ok_with_out ok_with_vtrace ok_say ok_fail ok_put_chars ok_with_cur
  ok_with_ip ok_with_sp ok_with_stack ok_with_arr ok_with_dict ok_with_scope ok_with_depth ok_with_frames ok_with_frame_count : vmok.

Section world.
Context {W : Type}.
Abbreviation vm := (Vm.vm W).
Implicit Types m : vm.

(** ** Reading the program *)

(** The bytes the next reads return; 0 when the program ends before. *)
Definition next8 (m : vm) : Z :=
  if code_length (cur m) <=? ipof m then 0 else default 0 ((c_data (r_code (cur m))).[c_off (r_code (cur m)) + ipof m]).
Definition next16 (m : vm) : Z :=
  if code_length (cur m) <=? s32 (ipof m + 1) then 0
  else
    let at_ i := default 0 ((c_data (r_code (cur m))).[c_off (r_code (cur m)) + i]) in
    Z.lor (Z.shiftl (at_ (ipof m)) 8) (at_ (ipof m + 1)).

(** Only the position and the error changed. *)
Definition moved (m m' : vm) : Prop := exists x e s, m' = with_error e s (with_ip x m) /\ 0 <= x < CODE_MAX.

Lemma moved_ok m m' : moved m m' -> vm_ok m -> vm_ok m'.
Proof. intros (x & e & s & -> & Hx) H. auto with vmok. Qed.

Lemma code_byte r i : regs_ok r -> 0 <= i < code_length r ->
  exists b, rd (c_data (r_code r)) (c_off (r_code r) + i) = Ret b /\ (c_data (r_code r)).[c_off (r_code r) + i] = Some b /\ is_byte b.
Proof.
  intros ((Hb & Ho & Hl & _) & _) Hi. destruct (rd_in_range (c_data (r_code r)) (c_off (r_code r) + i) ltac:(lia)) as (b & -> & Hg).
  exists b. split_and!; [done|done|]. by eapply Forall_zget.
Qed.

Lemma fail_moved s m : vm_ok m -> moved m (fail s m).
Proof. intros H. exists (ipof m), 1, s. destruct (ok_cur _ H) as (_ & Hi & _). split; [by destruct m as [? ? ? ? []]|done]. Qed.

Lemma with_ip_moved x m : 0 <= x < CODE_MAX -> moved m (with_ip x m).
Proof. intros H. exists x, (error m), (error_msg m). split; [by destruct m|done]. Qed.

Lemma read_u8_ok m : vm_ok m -> exists m', read_u8 m = Ret (next8 m, m') /\ moved m m' /\ is_byte (next8 m).
Proof.
  intros H. pose proof (ok_cur _ H) as Hr. pose proof Hr as ((_ & _ & _ & Hl) & Hi & _). unfold read_u8, next8, ipof, code_at in *.
  destruct (Z.leb_spec (code_length (cur m)) (ip (cur m))); [eexists; split_and!; [done|by apply fail_moved|done..]|].
  destruct (code_byte _ (ip (cur m)) Hr ltac:(lia)) as (b & -> & -> & Hb). eexists. split_and!; [done| |by destruct Hb..].
  rewrite s32_small by (unfold CODE_MAX in *; lia). apply with_ip_moved. lia.
Qed.

Lemma lor_bytes a b : is_byte a -> is_byte b -> Z.lor (Z.shiftl a 8) b = a * 256 + b.
Proof.
  intros Ha Hb. rewrite Z.shiftl_mul_pow2 by lia. change (2 ^ 8) with 256. rewrite <- Z.add_lor_land.
  enough (Z.land (a * 256) b = 0) by lia. apply Z.bits_inj'. intros n Hn. rewrite Z.land_spec, Z.bits_0. change 256 with (2 ^ 8).
  destruct (Z.lt_ge_cases n 8).
  - by rewrite Z.mul_pow2_bits_low by lia.
  - replace b with (b mod 2 ^ 8) by (apply Z.mod_small; exact Hb). by rewrite Z.mod_pow2_bits_high, andb_false_r by lia.
Qed.

Lemma read_u16_ok m : vm_ok m -> exists m', read_u16 m = Ret (next16 m, m') /\ moved m m' /\ 0 <= next16 m < 65536.
Proof.
  intros H. pose proof (ok_cur _ H) as Hr. pose proof Hr as ((_ & _ & _ & Hl) & Hi & _). unfold read_u16, next16, ipof, code_at in *.
  rewrite s32_small by (unfold CODE_MAX in *; lia).
  destruct (Z.leb_spec (code_length (cur m)) (ip (cur m) + 1)); [eexists; split_and!; [done|by apply fail_moved|done..]|].
  destruct (code_byte _ (ip (cur m)) Hr ltac:(lia)) as (a & -> & -> & Ha).
  destruct (code_byte _ (ip (cur m) + 1) Hr ltac:(lia)) as (b & -> & -> & Hb). eexists. cbn [default id mbind outcome_bind].
  rewrite lor_bytes by done. unfold is_byte in *. split_and!; [done| |lia..].
  rewrite s32_small by (unfold CODE_MAX in *; lia). apply with_ip_moved. lia.
Qed.

(** ** Results *)

(** The machine is well formed and its stack pointer where it was. *)
Definition keeps (m m' : vm) : Prop := vm_ok m' /\ sp m' = sp m.

Lemma keeps_refl m : vm_ok m -> keeps m m. Proof. done. Qed.
Lemma keeps_trans m1 m2 m3 : keeps m1 m2 -> keeps m2 m3 -> keeps m1 m3.
Proof. intros [_ E1] [H2 E2]. split; [done|congruence]. Qed.
Lemma moved_keeps m m' : vm_ok m -> moved m m' -> keeps m m'.
Proof. intros H Hm. split; [by apply (moved_ok m)|]. by destruct Hm as (? & ? & ? & -> & _). Qed.

Definition good {A} (r : A * vm) : Prop := vm_ok r.2.

Lemma go_good (e : outcome vm) : completes e vm_ok -> completes (go e) good.
Proof. intros H. eapply completes_bind; [exact H|]. intros m Hm. by apply completes_Ret. Qed.
Lemma stop_good s m : vm_ok m -> completes (stop s m) good.
Proof. intros H. apply completes_Ret. by apply ok_fail. Qed.

(** ** Stack *)

Lemma push_ok v m : vm_ok m -> completes (metal_vm_push v m) vm_ok.
Proof.
  intros H. pose proof (ok_stack _ H) as [Hl Hs]. unfold metal_vm_push. destruct (Z.leb_spec METAL_STACK_SIZE (sp m)); [apply completes_Ret; by apply ok_fail|].
  rewrite wr_in_range by lia. apply completes_Ret. apply ok_with_sp; [by apply ok_with_stack|lia].
Qed.

(** The value [k] below the top, as pops see it. *)
Definition top (k : Z) (m : vm) : mvalue := if k <? sp m then default mv_nil ((stack m).[sp m - 1 - k]) else mv_nil.

Lemma pop_ok m : vm_ok m -> exists n, metal_vm_pop m = Ret (top 0 m, with_sp n m) /\ n = Z.max 0 (sp m - 1) /\ vm_ok (with_sp n m).
Proof.
  intros H. pose proof (ok_stack _ H) as [Hl Hs]. unfold metal_vm_pop, top. exists (Z.max 0 (sp m - 1)).
  split_and!; [|done|apply ok_with_sp; [done|lia]].
  destruct (Z.leb_spec (sp m) 0).
  - rewrite (proj2 (Z.ltb_ge 0 _)) by lia. replace (Z.max 0 (sp m - 1)) with (sp m) by lia. by destruct m.
  - rewrite (proj2 (Z.ltb_lt 0 _)) by lia. destruct (rd_in_range (stack m) (sp m - 1) ltac:(lia)) as (v & -> & Hv).
    replace (sp m - 1 - 0) with (sp m - 1) by lia. rewrite Hv. cbn. by replace (Z.max 0 (sp m - 1)) with (sp m - 1) by lia.
Qed.

Lemma unary_ok f m : vm_ok m -> (forall n, n = Z.max 0 (sp m - 1) -> vm_ok (with_sp n m) -> completes (f (top 0 m) (with_sp n m)) good) ->
  completes (unary f m) good.
Proof. intros H Hf. unfold unary. destruct (pop_ok m H) as (n & -> & Hn & Hok). cbn [mbind outcome_bind]. by apply Hf. Qed.

Lemma binary_ok f m : vm_ok m -> (forall n, vm_ok (with_sp n m) -> completes (f (top 1 m) (top 0 m) (with_sp n m)) good) ->
  completes (binary f m) good.
Proof.
  intros H Hf. unfold binary. destruct (pop_ok m H) as (n & -> & Hn & Hok). cbn [mbind outcome_bind].
  destruct (pop_ok _ Hok) as (k & -> & Hk & Hok'). cbn [mbind outcome_bind].
  replace (top 0 (with_sp n m)) with (top 1 m); [by apply (Hf k)|].
  pose proof (ok_stack _ H) as [_ Hs]. unfold top. cbn [sp stack with_sp]. rewrite Hn.
  destruct (Z.ltb_spec 1 (sp m)), (Z.ltb_spec 0 (Z.max 0 (sp m - 1))); try lia; [|done].
  by replace (Z.max 0 (sp m - 1) - 1 - 0) with (sp m - 1 - 1) by lia.
Qed.

Lemma push_num_ok n m : vm_ok m -> completes (push_num n m) good.
Proof. intros H. by apply go_good, push_ok. Qed.
Lemma push_bool_ok junk b m : vm_ok m -> completes (push_bool junk b m) good.
Proof. intros H. by apply go_good, push_ok. Qed.
Lemma numeric_ok f m : vm_ok m -> completes (numeric f m) good.
Proof. intros H. apply binary_ok; [done|]. intros n Hn. by apply push_num_ok. Qed.
Lemma compare_ok junk f m : vm_ok m -> completes (compare junk f m) good.
Proof. intros H. apply binary_ok; [done|]. intros n Hn. by apply push_bool_ok. Qed.

Lemma operand_ok f m : vm_ok m -> (forall m', moved m m' -> vm_ok m' -> 0 <= next16 m < 65536 -> completes (f (next16 m) m') good) ->
  completes (operand f m) good.
Proof.
  intros H Hf. unfold operand. destruct (read_u16_ok m H) as (m' & -> & Hm & Hn). cbn [mbind outcome_bind].
  pose proof (moved_ok _ _ Hm H). case_match; [by apply completes_Ret|]. by apply Hf.
Qed.

(** ** Strings *)

Lemma chars_at_ok st : forall n a, (exists k, 0 <= k < Z.of_nat n /\ st (a + k) = 0) -> completes (chars_at n st a) (fun s => zlen s < Z.of_nat n).
Proof.
  induction n as [|n IH]; intros a (k & Hk & Hz); [vlia|]. cbn [chars_at]. destruct (Z.eqb_spec (st a) 0); [apply completes_Ret; unfold zlen; cbn; vlia|].
  eapply completes_bind; [apply (IH (a + 1)); exists (k - 1); split|].
  - destruct (decide (k = 0)) as [->|]; [|vlia]. rewrite Z.add_0_r in Hz. done.
  - rewrite <- Hz. f_equal. vlia.
  - intros s Hs. apply completes_Ret. rewrite zlen_cons. vlia.
Qed.

Lemma pool_chars m a : strings_ok m -> 0 <= a < string_used m ->
  completes (chars_at (Z.to_nat (string_used m - a)) (strings m) a) (fun s => zlen s < string_used m - a).
Proof.
  intros [Hu Hz] Ha. eapply completes_mono; [apply chars_at_ok|intros s Hs; vlia].
  exists (string_used m - 1 - a). split; [vlia|]. replace (a + _) with (string_used m - 1) by vlia. apply Hz. vlia.
Qed.

Lemma string_get_ok i m : vm_ok m -> completes (metal_string_get i m) (fun _ => True).
Proof.
  intros H. unfold metal_string_get. destruct (_ || _) eqn:E; [by apply completes_Ret|]. apply orb_false_iff in E as [E1 E2].
  eapply completes_mono; [apply pool_chars; [apply H|vlia]|done].
Qed.

Lemma search_ok s m : strings_ok m -> forall n a, 0 <= a -> string_used m - a <= Z.of_nat n -> completes (intern_search n a s m) (fun _ => True).
Proof.
  intros Hs. induction n as [|n IH]; intros a Ha Hn; cbn [intern_search]; destruct (Z.ltb_spec a (string_used m)); try (by apply completes_Ret); [vlia|].
  eapply completes_bind; [by apply pool_chars|]. intros t Ht. pose proof (zlen_nonneg t).
  destruct (bool_decide _); [by apply completes_Ret|]. apply IH; vlia.
Qed.

Lemma intern_ok s m : vm_ok m -> completes (metal_string_intern s m) (fun r => keeps m r.2).
Proof.
  intros H. unfold metal_string_intern. pose proof (ok_strings _ H) as [Hu Hz]. pose proof (zlen_nonneg s).
  eapply completes_bind; [apply (search_ok s m); [done|vlia..]|]. intros [i|] _; [by apply completes_Ret|].
  destruct (Z.ltb_spec METAL_STRING_POOL (string_used m + zlen s + 1)); apply completes_Ret; (split; [|done]); [by apply ok_say|].
  match goal with |- vm_ok (_, ?m').2 => assert (strings_ok m') end.
  { split; [cbn; vlia|]. intros _. cbn. rewrite store_byte, (proj2 (Z.eqb_eq _ _)); [done|vlia]. }
  vm_part.
Qed.

Lemma mv_str_ok junk s m : vm_ok m -> completes (mv_str junk s m) (fun r => keeps m r.2).
Proof. intros H. unfold mv_str. eapply completes_bind; [by apply intern_ok|]. intros [i m1] Hk. by apply completes_Ret. Qed.

Lemma concat_ok a b m : vm_ok m -> completes (metal_string_concat a b m) (fun r => keeps m r.2).
Proof.
  intros H. unfold metal_string_concat. eapply completes_bind; [by apply string_get_ok|]. intros s _.
  eapply completes_bind; [by apply string_get_ok|]. intros t _. repeat (case_match; [by apply completes_Ret|]). by apply intern_ok.
Qed.

(** ** Constants *)

Lemma const_at_ok i m : vm_ok m -> 0 <= i < const_count (cur m) -> completes (const_at i m) (fun _ => True).
Proof.
  intros H Hi. pose proof (ok_cur _ H) as (_ & _ & Hp). unfold const_at. destruct (constants (cur m)) as [|b]; cbn in Hp.
  - destruct (rd_in_range (main_constants m) i) as (v & -> & _); [rewrite (ok_main _ H); vlia|by apply completes_Ret].
  - unfold SIZEOF_VALUE in *. rewrite (proj2 (Z.leb_le _ _)), (proj2 (Z.ltb_lt _ _)) by vlia. by apply completes_Ret.
Qed.

Lemma const_name_ok i m : vm_ok m -> 0 <= i < const_count (cur m) -> completes (const_name i m) (fun _ => True).
Proof. intros H Hi. unfold const_name. eapply completes_bind; [by apply const_at_ok|]. intros c _. by apply string_get_ok. Qed.

(** ** Searches in tables *)

Lemma hash_index_ok h names : forall n i, 0 <= i -> i + Z.of_nat n <= zlen names ->
  completes (hash_index n i h names) (fun r => match r with Some j => i <= j < i + Z.of_nat n | None => True end).
Proof.
  induction n as [|n IH]; intros i Hi Hn; cbn [hash_index]; [by apply completes_Ret|].
  destruct (rd_in_range names i ltac:(vlia)) as (x & -> & _). cbn [mbind outcome_bind]. case_match; [apply completes_Ret; vlia|].
  eapply completes_mono; [apply IH; vlia|]. intros [j|] Hj; [vlia|done].
Qed.

Lemma key_index_ok k ks : forall n i, 0 <= i -> i + Z.of_nat n <= zlen ks ->
  completes (key_index n i k ks) (fun r => match r with Some j => i <= j < i + Z.of_nat n | None => True end).
Proof.
  induction n as [|n IH]; intros i Hi Hn; cbn [key_index]; [by apply completes_Ret|].
  destruct (rd_in_range ks i ltac:(vlia)) as (x & -> & _). cbn [mbind outcome_bind]. case_match; [apply completes_Ret; vlia|].
  eapply completes_mono; [apply IH; vlia|]. intros [j|] Hj; [vlia|done].
Qed.

Lemma unused_from_ok {A} (u : A -> Z) xs : forall n i, 0 <= i -> i + Z.of_nat n <= zlen xs ->
  completes (unused_from u n i xs) (fun r => match r with Some j => i <= j < i + Z.of_nat n | None => True end).
Proof.
  induction n as [|n IH]; intros i Hi Hn; cbn [unused_from]; [by apply completes_Ret|].
  destruct (rd_in_range xs i ltac:(vlia)) as (x & -> & _). cbn [mbind outcome_bind]. case_match; [apply completes_Ret; vlia|].
  eapply completes_mono; [apply IH; vlia|]. intros [j|] Hj; [vlia|done].
Qed.

Lemma find_native_ok h m : vm_ok m -> completes (metal_vm_find_native h m) (fun _ => True).
Proof.
  intros H. pose proof (ok_natives _ H) as [Hl Hn]. unfold metal_vm_find_native.
  cut (forall n i, 0 <= i -> i + Z.of_nat n <= zlen (natives m) -> completes (find_native_from n i h m) (fun _ => True)); [intros E; apply E; vlia|].
  induction n as [|n IH]; intros i Hi Hb; cbn [find_native_from]; [by apply completes_Ret|].
  destruct (rd_in_range (natives m) i ltac:(vlia)) as ([x f] & -> & _). cbn [mbind outcome_bind]. case_match; [by apply completes_Ret|]. apply IH; vlia.
Qed.

(** ** Scopes *)

Lemma scope_at m d : vm_ok m -> 0 <= d < METAL_ENV_DEPTH -> exists s, rd (scopes m) d = Ret s /\ (scopes m).[d] = Some s /\ scope_ok s.
Proof.
  intros H Hd. pose proof (ok_scopes _ H) as (Hl & _ & Hf). destruct (rd_in_range (scopes m) d ltac:(vlia)) as (s & -> & Hg).
  exists s. split_and!; [done|done|]. by eapply Forall_zget.
Qed.

Lemma find_in_scope_ok h s : scope_ok s -> completes (find_in_scope h s) (fun r => match r with Some j => 0 <= j < s_count s | None => True end).
Proof.
  intros (H1 & _ & _ & H4). unfold find_in_scope. eapply completes_mono; [apply hash_index_ok; vlia|]. intros [j|] Hj; [vlia|done].
Qed.

Lemma scope_find_ok h m : vm_ok m -> forall n d, d < METAL_ENV_DEPTH -> Z.of_nat n <= d + 1 ->
  completes (scope_find n d h m) (fun r => match r with Some (e, j) => exists s, (scopes m).[e] = Some s /\ 0 <= e <= d /\ 0 <= j < s_count s | None => True end).
Proof.
  intros H. induction n as [|n IH]; intros d Hd Hn; cbn [scope_find]; [by apply completes_Ret|].
  destruct (scope_at m d H ltac:(vlia)) as (s & -> & Hg & Hs). cbn [mbind outcome_bind]. eapply completes_bind; [by apply find_in_scope_ok|].
  intros [j|] Hj; [apply completes_Ret; exists s; split_and!; done || vlia|]. eapply completes_mono; [apply IH; vlia|].
  intros [[e j]|]; [|done]. intros (s' & ? & ? & ?). exists s'. split_and!; done || vlia.
Qed.

Lemma scope_lookup_ok h m : vm_ok m -> completes (scope_lookup h m) (fun _ => True).
Proof.
  intros H. pose proof (ok_scopes _ H) as (_ & Hd & Hf). unfold scope_lookup.
  eapply completes_bind; [apply (scope_find_ok h m H); vlia|]. intros [[d i]|]; [|by intros; apply completes_Ret].
  intros (s & Hg & Hd' & Hi). rewrite (rd_some _ _ _ Hg). cbn [mbind outcome_bind]. pose proof (Forall_zget _ _ _ _ Hf Hg) as (_ & _ & H3 & H4).
  destruct (rd_in_range (s_values s) i ltac:(vlia)) as (v & -> & _). by apply completes_Ret.
Qed.

Lemma set_var_ok d i v m s : vm_ok m -> (scopes m).[d] = Some s -> 0 <= i < s_count s -> completes (set_var d i v m) (keeps m).
Proof.
  intros H Hg Hi. pose proof (ok_scopes _ H) as (_ & _ & Hf). pose proof (Forall_zget _ _ _ _ Hf Hg) as (H1 & H2 & H3 & H4).
  unfold set_var. rewrite (rd_some _ _ _ Hg). cbn [mbind outcome_bind]. rewrite wr_in_range by vlia. cbn [mbind outcome_bind].
  rewrite (wr_some _ _ _ _ Hg). cbn [mbind outcome_bind]. apply completes_Ret. split; [|done]. apply ok_with_scope; [done|].
  split_and!; cbn; rewrite ?zlen_zset; vlia.
Qed.

Lemma scope_define_ok h n v m : vm_ok m -> completes (scope_define h n v m) (keeps m).
Proof.
  intros H. pose proof (ok_scopes _ H) as (_ & Hd & _). unfold scope_define.
  destruct (scope_at m (scope_depth m) H Hd) as (s & -> & Hg & Hs). cbn [mbind outcome_bind].
  eapply completes_bind; [by apply find_in_scope_ok|]. intros [i|] Hi; [by eapply set_var_ok|].
  destruct (Z.leb_spec METAL_VARS_PER_SCOPE (s_count s)); [apply completes_Ret; split; [by apply ok_say|done]|].
  destruct Hs as (H1 & H2 & H3 & H4). rewrite !wr_in_range by vlia. cbn [mbind outcome_bind]. rewrite (wr_some _ _ _ _ Hg). cbn [mbind outcome_bind].
  apply completes_Ret. split; [|done]. apply ok_with_scope; [done|]. split_and!; cbn; rewrite ?zlen_zset; vlia.
Qed.

Lemma scope_assign_ok h v m : vm_ok m -> completes (scope_assign h v m) (keeps m).
Proof.
  intros H. pose proof (ok_scopes _ H) as (_ & Hd & _). unfold scope_assign.
  eapply completes_bind; [apply (scope_find_ok h m H); vlia|]. intros [[d i]|]; [|intros _; by apply scope_define_ok].
  intros (s & Hg & _ & Hi). by eapply set_var_ok.
Qed.

Lemma enter_scope_ok m : vm_ok m -> completes (enter_scope m) (keeps m).
Proof.
  intros H. pose proof (ok_scopes _ H) as (Hl & Hd & _). unfold enter_scope.
  destruct (Z.ltb_spec (scope_depth m) (METAL_ENV_DEPTH - 1)); [|by apply completes_Ret].
  destruct (scope_at m (scope_depth m + 1) H ltac:(vlia)) as (s & -> & Hg & (H1 & H2 & H3 & H4)). cbn [mbind outcome_bind].
  rewrite (wr_some _ _ _ _ Hg). apply completes_Ret. split; [|done]. apply ok_with_depth; [|vlia]. apply ok_with_scope; [done|]. by split_and!.
Qed.

Lemma leave_scope_ok m : vm_ok m -> vm_ok (leave_scope m).
Proof. intros H. pose proof (ok_scopes _ H) as (_ & Hd & _). unfold leave_scope. case_if; bool_to_prop; [apply ok_with_depth; [done|vlia]|done]. Qed.

(** ** Arrays and dictionaries *)

Lemma gc_ok m : vm_ok m -> completes (metal_vm_gc m) (keeps m).
Proof.
  intros H. eapply completes_mono; [apply gc_marks; apply H|]. intros m' M. pose proof (marks_grown _ _ _ M) as G.
  pose proof (cleared_ok m (ok_pools _ H)) as [Ha Hd]. pose proof (grown_ok _ _ G Ha Hd). destruct G as (xs & ds & -> & _). split; [|done].
  assert (pools_ok (with_dicts ds (dict_count m) (with_arrays xs (array_count m) m))) by done. vm_part.
Qed.

Lemma arr_at m i : vm_ok m -> 0 <= i < POOL_MAX -> exists a, rd (arrays m) i = Ret a /\ (arrays m).[i] = Some a /\ arr_ok a.
Proof.
  intros H Hi. pose proof (ok_pools _ H) as [(Hl & _ & Hf) _]. destruct (rd_in_range (arrays m) i ltac:(lia)) as (a & -> & Hg).
  exists a. split_and!; [done|done|]. by eapply Forall_zget.
Qed.

Lemma dict_at m i : vm_ok m -> 0 <= i < POOL_MAX -> exists a, rd (dicts m) i = Ret a /\ (dicts m).[i] = Some a /\ dict_ok a.
Proof.
  intros H Hi. pose proof (ok_pools _ H) as [_ (Hl & _ & Hf)]. destruct (rd_in_range (dicts m) i ltac:(lia)) as (a & -> & Hg).
  exists a. split_and!; [done|done|]. by eapply Forall_zget.
Qed.

Lemma ok_array_count n m : vm_ok m -> 0 <= n <= POOL_MAX -> vm_ok (with_arrays (arrays m) n m).
Proof.
  intros H Hn. pose proof (ok_pools _ H) as [(Hl & _ & Hf) Hd]. assert (pools_ok (with_arrays (arrays m) n m)) by done. vm_part.
Qed.
Lemma ok_dict_count n m : vm_ok m -> 0 <= n <= POOL_MAX -> vm_ok (with_dicts (dicts m) n m).
Proof.
  intros H Hn. pose proof (ok_pools _ H) as [Ha (Hl & _ & Hf)]. assert (pools_ok (with_dicts (dicts m) n m)) by done. vm_part.
Qed.

Definition new_ok (m : vm) (r : Z * vm) : Prop := keeps m r.2 /\ r.1 < POOL_MAX.

Lemma take_arr_ok i m : vm_ok m -> 0 <= i < POOL_MAX -> completes (take_arr i m) (new_ok m).
Proof.
  intros H Hi. unfold take_arr. destruct (arr_at m i H Hi) as (a & -> & Hg & (Hl & _)). cbn [mbind outcome_bind].
  rewrite (wr_some _ _ _ _ Hg). apply completes_Ret. split; [split; [|done]|cbn; lia]. by apply ok_with_arr.
Qed.
Lemma take_dict_ok i m : vm_ok m -> 0 <= i < POOL_MAX -> completes (take_dict i m) (new_ok m).
Proof.
  intros H Hi. unfold take_dict. destruct (dict_at m i H Hi) as (a & -> & Hg & (Hl & Hl' & _)). cbn [mbind outcome_bind].
  rewrite (wr_some _ _ _ _ Hg). apply completes_Ret. split; [split; [|done]|cbn; lia]. by apply ok_with_dict.
Qed.

Lemma array_new_ok m : vm_ok m -> completes (metal_array_new m) (new_ok m).
Proof.
  intros H. pose proof (ok_pools _ H) as [(Hl & Hc & _) _]. unfold metal_array_new.
  eapply completes_bind; [apply unused_from_ok; vlia|]. intros [i|] Hi; [apply take_arr_ok; [done|vlia]|].
  destruct (Z.leb_spec POOL_MAX (array_count m)); cycle 1.
  { eapply completes_mono; [apply take_arr_ok; [apply ok_array_count; [done|lia]|lia]|]. by intros r [[? ?] ?]. }
  eapply completes_bind; [by apply gc_ok|]. intros m1 [H1 E1]. pose proof (ok_pools _ H1) as [(Hl1 & Hc1 & _) _].
  eapply completes_bind; [apply unused_from_ok; vlia|]. intros [j|] Hj; [|by apply completes_Ret].
  eapply completes_mono; [apply take_arr_ok; [done|vlia]|]. intros r [[H2 E2] Hr]. split; [split; [done|congruence]|done].
Qed.
Lemma dict_new_ok m : vm_ok m -> completes (metal_dict_new m) (new_ok m).
Proof.
  intros H. pose proof (ok_pools _ H) as [_ (Hl & Hc & _)]. unfold metal_dict_new.
  eapply completes_bind; [apply unused_from_ok; vlia|]. intros [i|] Hi; [apply take_dict_ok; [done|vlia]|].
  destruct (Z.leb_spec POOL_MAX (dict_count m)); cycle 1.
  { eapply completes_mono; [apply take_dict_ok; [apply ok_dict_count; [done|lia]|lia]|]. by intros r [[? ?] ?]. }
  eapply completes_bind; [by apply gc_ok|]. intros m1 [H1 E1]. pose proof (ok_pools _ H1) as [_ (Hl1 & Hc1 & _)].
  eapply completes_bind; [apply unused_from_ok; vlia|]. intros [j|] Hj; [|by apply completes_Ret].
  eapply completes_mono; [apply take_dict_ok; [done|vlia]|]. intros r [[H2 E2] Hr]. split; [split; [done|congruence]|done].
Qed.

Lemma array_push_ok i v m : vm_ok m -> completes (metal_array_push i v m) (keeps m).
Proof.
  intros H. unfold metal_array_push. in_pool. destruct (arr_at m i H ltac:(lia)) as (a & -> & Hg & (Hl & Hc)). cbn [mbind outcome_bind].
  destruct (Z.leb_spec METAL_ARRAY_MAX_ELEMS (a_count a)); [by apply completes_Ret|]. rewrite wr_in_range by lia. cbn [mbind outcome_bind].
  rewrite (wr_some _ _ _ _ Hg). apply completes_Ret. split; [|done]. apply ok_with_arr; [done|]. split; cbn; [by rewrite zlen_zset|lia].
Qed.

Lemma array_get_ok i j m : vm_ok m -> completes (metal_array_get i j m) (fun _ => True).
Proof.
  intros H. unfold metal_array_get. in_pool. destruct (arr_at m i H ltac:(lia)) as (a & -> & Hg & (Hl & Hc)). cbn [mbind outcome_bind].
  in_pool. destruct (rd_in_range (elems a) j ltac:(lia)) as (v & -> & _). by apply completes_Ret.
Qed.

Lemma array_len_ok i m : vm_ok m -> completes (metal_array_len i m) (fun _ => True).
Proof. intros H. unfold metal_array_len. in_pool. destruct (arr_at m i H ltac:(lia)) as (a & -> & _). by apply completes_Ret. Qed.

Lemma dict_set_ok i k v m : vm_ok m -> completes (metal_dict_set i k v m) (keeps m).
Proof.
  intros H. unfold metal_dict_set. in_pool. destruct (dict_at m i H ltac:(lia)) as (d & -> & Hg & (Hk & Hv & Hc)). cbn [mbind outcome_bind].
  eapply completes_bind; [apply key_index_ok; vlia|]. intros [j|] Hj.
  - rewrite wr_in_range by vlia. cbn [mbind outcome_bind]. rewrite (wr_some _ _ _ _ Hg). apply completes_Ret. split; [|done].
    apply ok_with_dict; [done|]. split_and!; cbn; rewrite ?zlen_zset; lia.
  - destruct (Z.ltb_spec (d_count d) METAL_DICT_MAX_ENTRIES); [|by apply completes_Ret]. rewrite !wr_in_range by lia. cbn [mbind outcome_bind].
    rewrite (wr_some _ _ _ _ Hg). apply completes_Ret. split; [|done]. apply ok_with_dict; [done|]. split_and!; cbn; rewrite ?zlen_zset; lia.
Qed.

Lemma dict_get_ok i k m : vm_ok m -> completes (metal_dict_get i k m) (fun _ => True).
Proof.
  intros H. unfold metal_dict_get. in_pool. destruct (dict_at m i H ltac:(lia)) as (d & -> & Hg & (Hk & Hv & Hc)). cbn [mbind outcome_bind].
  eapply completes_bind; [apply key_index_ok; vlia|]. intros [j|] Hj; [|by apply completes_Ret].
  destruct (rd_in_range (d_values d) j ltac:(vlia)) as (v & -> & _). by apply completes_Ret.
Qed.

Lemma set_elem_ok i j v m : vm_ok m -> completes (set_elem i j v m) (keeps m).
Proof.
  intros H. unfold set_elem. destruct (_ && _) eqn:E; [|by apply completes_Ret]. apply andb_true_iff in E as [E1 E2].
  destruct (arr_at m i H ltac:(lia)) as (a & -> & Hg & (Hl & Hc)). cbn [mbind outcome_bind].
  destruct (_ && _) eqn:E; [|by apply completes_Ret]. apply andb_true_iff in E as [E3 E4].
  rewrite wr_in_range by lia. cbn [mbind outcome_bind]. rewrite (wr_some _ _ _ _ Hg). apply completes_Ret. split; [|done].
  apply ok_with_arr; [done|]. split; cbn; [by rewrite zlen_zset|lia].
Qed.

(** ** Loops over elements *)

Lemma copy_elems_ok src dst : forall n j m, vm_ok m -> completes (copy_elems n src j dst m) (keeps m).
Proof.
  induction n as [|n IH]; intros j m H; cbn [copy_elems]; [by apply completes_Ret|].
  eapply completes_bind; [by apply array_get_ok|]. intros v _. eapply completes_bind; [by apply array_push_ok|]. intros m1 K1.
  eapply completes_mono; [apply IH, K1|]. intros m2 K2. by eapply keeps_trans.
Qed.

Lemma fill_array_ok arr : forall n i m, vm_ok m -> 0 <= i -> i + Z.of_nat n <= METAL_STACK_SIZE -> completes (fill_array n i arr m) (keeps m).
Proof.
  induction n as [|n IH]; intros i m H Hi Hn; cbn [fill_array]; [by apply completes_Ret|]. pose proof (ok_stack _ H) as [Hl _].
  destruct (rd_in_range (stack m) i ltac:(lia)) as (v & -> & _). cbn [mbind outcome_bind].
  eapply completes_bind; [by apply array_push_ok|]. intros m1 K1. eapply completes_mono; [apply IH; [apply K1|lia..]|]. intros m2 K2. by eapply keeps_trans.
Qed.

Lemma fill_dict_ok d : forall n m, vm_ok m -> completes (fill_dict n d m) vm_ok.
Proof.
  induction n as [|n IH]; intros m H; cbn [fill_dict]; [by apply completes_Ret|].
  destruct (pop_ok m H) as (k & -> & _ & H1). cbn [mbind outcome_bind]. destruct (pop_ok _ H1) as (k' & -> & _ & H2). cbn [mbind outcome_bind].
  eapply completes_bind; [|intros m3 H3; apply IH; exact H3].
  destruct (mv_type _); try by apply completes_Ret. eapply completes_mono; [by apply dict_set_ok|]. by intros m3 [? _].
Qed.

Lemma stack_slice_ok m : vm_ok m -> forall n i, 0 <= i -> i + Z.of_nat n <= METAL_STACK_SIZE -> completes (stack_slice n i m) (fun _ => True).
Proof.
  intros H. pose proof (ok_stack _ H) as [Hl _]. induction n as [|n IH]; intros i Hi Hn; cbn [stack_slice]; [by apply completes_Ret|].
  destruct (rd_in_range (stack m) i ltac:(lia)) as (v & -> & _). cbn [mbind outcome_bind].
  eapply completes_bind; [apply IH; lia|]. intros r _. by apply completes_Ret.
Qed.

(** ** The initial machine *)

Lemma init_ok (w : W) : vm_ok (metal_vm_init w).
Proof.
  assert (forall n, n <= METAL_CONST_POOL -> n < CODE_MAX -> n <= 0 -> regs_ok (mk_regs code_nil n 0 PoolMain 0)) as Hr.
  { intros n _ Hn H0. split_and!; try done. }
  split; [exact (init_stack_ok w)| |by apply Hr|exact (zlen_replicate _ _)|exact (init_scopes_ok w)|exact (init_pools_ok w)| |by split; [split|]|split; [exact (zlen_replicate _ _)|done]].
  - split_and!; [exact (zlen_replicate _ _)|done|done|]. apply Forall_replicate. split; [by apply Hr|done].
  - split_and!; [exact (zlen_replicate _ _)|done|done|]. apply Forall_replicate. by split_and!.
Qed.
End world.
End VmSafe.
