(* ===== verification/VmStep.v ===== *)
(** * One instruction of the byte-code machine

    [metal_vm_step] (kernel/core/sagelang/metal_vm.c) is safe on well-formed
    machines when the operands it does not check are in range. *)

From stdpp Require Import base tactics numbers option strings list.
From S2P Require Import Prelude Digits CMem Float64 Vm VmGc VmSafe.

Module VmStep.
Import Float64 Vm VmGc VmSafe.

Section world.
Context {W : Type}.
Abbreviation vm := (Vm.vm W).
Implicit Types m : vm.

Section step.
Context (junk : Z) (nan_of : Z -> Z -> Z) (int_of long_of : Z -> Z).
Context (native : Z -> list mvalue -> vm -> outcome (mvalue * vm)) (sage_import_module : list Z -> vm -> outcome vm).
Context (ip_first : bool) (print_depth : nat).

(** The conversion gives a 64-bit integer. *)
Definition long_range : Prop := forall b, - 2 ^ 63 <= long_of b < 2 ^ 63.
(** Native functions that return leave a well-formed machine; the loader of modules
    returns and leaves one. *)
Definition natives_safe : Prop := forall fn args m r, vm_ok m -> native fn args m = Ret r -> good r.
Definition imports_safe : Prop := forall nm m, vm_ok m -> completes (sage_import_module nm m) vm_ok.

(** ** Printing *)

Lemma d_long_range b : long_range -> - 2 ^ 63 <= d_long long_of b < 2 ^ 63.
Proof.
  intros Hl. unfold d_long, to_width. destruct (trunc _) as [n|]; [|apply Hl]. case_if; [|apply Hl]. bool_to_prop. lia.
Qed.

Lemma num_chars_ok n : - 2 ^ 63 <= n < 2 ^ 63 -> completes (num_chars n) (fun _ => True).
Proof.
  intros Hn. unfold num_chars. set (a := if n <? 0 then s64 (- n) else n).
  assert (completes (if a =? 0 then Ret [0] else digit_loop digit_fuel 10 a) (fun _ => True)) as (ds & -> & _).
  { case_if; [by apply completes_Ret|]. destruct (Z.lt_ge_cases a 0) as [Ha|Ha].
    - unfold digit_fuel. cbn [digit_loop]. rewrite (proj2 (Z.ltb_ge 0 a)) by lia. by apply completes_Ret.
    - eapply completes_mono; [apply digit_loop_64; [lia|]|done]. split; [done|]. unfold a, s64. case_if; [|lia].
      pose proof (Z.mod_pos_bound (- n + 2 ^ 63) (2 ^ 64)). lia. }
  by apply completes_Ret.
Qed.

(** Arrays nest at most [k] deep in [v]. *)
Fixpoint printable (k : nat) (v : mvalue) (m : vm) : bool :=
  match k with
  | O => false
  | S k' =>
      match mv_type v with
      | MV_ARR => if (as_int v <? 0) || (POOL_MAX <=? as_int v) then true else forallb (fun c => printable k' c m) (children m (OArr (as_int v)))
      | _ => true
      end
  end.

(** Only output was added. *)
Definition printed (m m' : vm) : Prop := exists l, m' = with_out l m.

Lemma put_chars_printed l m : printed m (put_chars l m).
Proof. unfold put_chars. case_if; [by eexists|]. exists (v_out m). by destruct m. Qed.
Lemma printed_trans m1 m2 m3 : printed m1 m2 -> printed m2 m3 -> printed m1 m3.
Proof. intros [l ->] [k ->]. by exists k. Qed.
Lemma printable_ext m m' : arrays m' = arrays m -> forall k v, printable k v m' = printable k v m.
Proof.
  intros E. induction k as [|k IH]; intros v; [done|]. cbn [printable]. destruct (mv_type v); try done. case_if; [done|].
  assert (children m' (OArr (as_int v)) = children m (OArr (as_int v))) as -> by (cbn; by rewrite E).
  induction (children m (OArr (as_int v))) as [|c r IHr]; [done|]. cbn [forallb]. by rewrite IH, IHr.
Qed.
Lemma printed_ok m m' : printed m m' -> vm_ok m -> vm_ok m'.
Proof. intros [l ->]. apply ok_with_out. Qed.

Lemma print_int_ok n m : - 2 ^ 63 <= n < 2 ^ 63 -> completes (metal_print_int n m) (printed m).
Proof.
  intros Hn. unfold metal_print_int. eapply completes_bind; [by apply num_chars_ok|]. intros l _. apply completes_Ret, put_chars_printed.
Qed.

Lemma print_double_ok d m : long_range -> completes (metal_print_double nan_of int_of long_of d m) (printed m).
Proof.
  intros Hl. unfold metal_print_double. case_if; [by apply print_int_ok, d_long_range|].
  eapply completes_bind; [by apply print_int_ok, d_long_range|]. intros m2 H2. apply completes_Ret.
  eapply printed_trans; [|apply put_chars_printed]. eapply printed_trans; [|exact H2]. case_if; [apply put_chars_printed|].
  exists (v_out m). by destruct m.
Qed.

Lemma array_get_elem i j a m x : 0 <= i < POOL_MAX -> (arrays m).[i] = Some a -> j < a_count a -> (elems a).[j] = Some x -> metal_array_get i j m = Ret x.
Proof.
  intros Hi Ha Hj Hx. pose proof (zget_Some_bound _ _ _ Hx). unfold metal_array_get.
  rewrite (proj2 (Z.ltb_ge i 0)), (proj2 (Z.leb_gt POOL_MAX i)), (rd_some _ _ _ Ha) by lia. cbn [mbind outcome_bind orb].
  rewrite (proj2 (Z.ltb_ge j 0)), (proj2 (Z.leb_gt _ j)) by lia. by apply rd_some.
Qed.

Lemma print_elems_ok pr i a m0 : 0 <= i < POOL_MAX -> (arrays m0).[i] = Some a -> arr_ok a ->
  (forall v m, printed m0 m -> v ∈ children m0 (OArr i) -> completes (pr v m) (printed m)) ->
  forall n j m, printed m0 m -> 0 <= j -> j + Z.of_nat n <= a_count a -> completes (print_elems pr n i j m) (printed m).
Proof.
  intros Hi Ha [Hl Hc] Hpr. induction n as [|n IH]; intros j m Hm Hj Hn; cbn [print_elems].
  { apply completes_Ret. exists (v_out m). by destruct m. }
  set (m1 := if 0 <? j then _ else _). assert (printed m m1) as P1.
  { unfold m1. case_if; [apply put_chars_printed|]. exists (v_out m). by destruct m. }
  pose proof (printed_trans _ _ _ Hm P1) as P01. destruct (zget_in_range (elems a) j ltac:(lia)) as (x & Hx).
  rewrite (array_get_elem i j a m1 x); [|done|by destruct P01 as [l ->]|lia|done]. cbn [mbind outcome_bind].
  eapply completes_bind; [apply Hpr; [done|]|].
  - cbn. rewrite Ha. apply zget_lookup in Hx as [_ Hx]. apply list_elem_of_lookup. exists (Z.to_nat j). rewrite lookup_take_lt by lia. done.
  - intros m2 P2. eapply completes_mono; [apply IH; [by eapply printed_trans|lia..]|]. intros m3 P3.
    eapply printed_trans; [exact P1|]. by eapply printed_trans.
Qed.

Lemma print_value_ok : long_range -> forall k v m, vm_ok m -> printable k v m = true ->
  completes (print_value nan_of int_of long_of k v m) (printed m).
Proof.
  intros Hl. induction k as [|k IH]; intros v m H Hp; [done|]. cbn [print_value printable] in *.
  destruct (mv_type v); try by apply completes_Ret, put_chars_printed.
  - by apply print_double_ok.
  - eapply completes_bind; [by apply string_get_ok|]. intros l _. apply completes_Ret, put_chars_printed.
  - unfold metal_array_len. set (m0 := put_chars (codes "[") m). pose proof (put_chars_printed (codes "[") m) as P0. fold m0 in P0.
    destruct ((as_int v <? 0) || (POOL_MAX <=? as_int v)) eqn:Eb.
    { cbn. apply completes_Ret. eapply printed_trans; [exact P0|apply put_chars_printed]. }
    apply orb_false_iff in Eb as [B1%Z.ltb_ge B2%Z.leb_gt]. destruct (arr_at m (as_int v) H ltac:(lia)) as (a & -> & Ha & Hok). cbn [mbind outcome_bind].
    assert ((arrays m0).[as_int v] = Some a) as Ha0 by (by destruct P0 as [l ->]).
    assert (children m0 (OArr (as_int v)) = children m (OArr (as_int v))) as Ec by (by destruct P0 as [l ->]).
    eapply completes_bind; [eapply (print_elems_ok _ (as_int v) a m0 ltac:(lia) Ha0 Hok)|].
    + intros c m' P Hc. rewrite Ec in Hc. pose proof (printed_trans _ _ _ P0 P) as P'. apply IH; [by apply (printed_ok m)|].
      rewrite (printable_ext m m') by (by destruct P' as [l ->]). apply forallb_forall with (x := c) in Hp; [done|]. by apply list_elem_of_In.
    + exists (v_out m0). by destruct m0.
    + lia.
    + destruct Hok as [_ Hc]. lia.
    + intros m1 P1. apply completes_Ret. eapply printed_trans; [exact P0|]. eapply printed_trans; [exact P1|apply put_chars_printed].
Qed.
(** ** What is not checked *)

(** Where a backward jump starts from. *)
Definition jump_base (m : vm) : Z :=
  if ip_first || (code_length (cur m) <=? s32 (ipof m + 1)) then ipof m else ipof m + 2.

Definition mod_defined (a b : mvalue) : bool :=
  let x := d_long long_of (mv_bits a) in
  let y := d_long long_of (mv_bits b) in
  d_eqb (mv_bits b) 0 || (negb (y =? 0) && negb ((x =? - 2 ^ 63) && (y =? -1))).

(** The native function that a call reaches, its arguments and its machine. *)
Definition native_called (m0 : vm) : outcome (option (Z * list mvalue * vm)) :=
  '(argc, m) ← read_u8 m0;
  callee ← rd (stack m) (sp m - argc - 1);
  if bool_decide (mv_type callee = MV_STR) then
    nm ← metal_string_get (as_int callee) m;
    r ← metal_vm_find_native (metal_fnv1a nm) m;
    match r with
    | Some fn => args ← stack_slice (Z.to_nat (Z.min argc 16)) (sp m - argc) m; Ret (Some (fn, args, with_sp (sp m - (argc + 1)) m))
    | None => Ret None
    end
  else Ret None.

Definition returns {A} (e : outcome A) : bool := match e with Ret _ => true | _ => false end.

Definition native_returns (m : vm) : bool :=
  match native_called m with Ret (Some (fn, args, m')) => returns (native fn args m') | _ => true end.

(** The operands of instruction [op] that the machine uses unchecked are in range:
    the constant that holds a name, the divisor and the shift count, the numbers of
    arguments and of elements, the nesting of a printed value, the backward offset;
    and a native function that is called returns. *)
Definition guarded (op : Z) (m : vm) : bool :=
  match op with
  | 5 | 6 | 7 | 8 | 51 => next16 m <? const_count (cur m)
  | 18 => mod_defined (top 1 m) (top 0 m)
  | 30 | 31 => (0 <=? d_int int_of (mv_bits (top 0 m))) && (d_int int_of (mv_bits (top 0 m)) <? 64)
  | 36 => (next8 m <? sp m) && native_returns m
  | 37 => next8 m <? sp m
  | 38 | 39 => next16 m <=? sp m
  | 41 => printable print_depth (top 0 m) m
  | 50 => next16 m <=? jump_base m
  | _ => true
  end.

(** ** Instructions *)

Local Tactic Notation "vbind" uconstr(H) := eapply completes_bind; [apply H; first [done | lia | cbn; lia]|].

Lemma op_constant_ok m : vm_ok m -> completes (op_constant m) good.
Proof.
  intros H. apply operand_ok; [done|]. intros m' _ H' Hn. destruct (_ && _) eqn:E; [|by apply stop_good].
  apply andb_true_iff in E as [E1 E2]. vbind const_at_ok. intros c _. by apply go_good, push_ok.
Qed.

Lemma op_dup_ok m : vm_ok m -> completes (op_dup m) good.
Proof.
  intros H. pose proof (ok_stack _ H) as [Hl Hs]. unfold op_dup. destruct (Z.ltb_spec (sp m) 1); [by apply stop_good|].
  destruct (rd_in_range (stack m) (sp m - 1) ltac:(lia)) as (v & -> & _). by apply go_good, push_ok.
Qed.

Lemma moved_cur m m' : moved m m' -> const_count (cur m') = const_count (cur m).
Proof. by intros (? & ? & ? & -> & _). Qed.

Lemma op_get_global_ok m : vm_ok m -> next16 m < const_count (cur m) -> completes (op_get_global m) good.
Proof.
  intros H G. apply operand_ok; [done|]. intros m' Hm H' Hn. rewrite <- (moved_cur _ _ Hm) in G.
  vbind const_name_ok. intros nm _. vbind scope_lookup_ok. intros r _. by apply go_good, push_ok.
Qed.

Lemma keeps_vm_ok (e : outcome vm) m : completes e (keeps m) -> completes e vm_ok.
Proof. intros H. eapply completes_mono; [exact H|]. by intros m' [? _]. Qed.

Lemma op_define_global_ok m : vm_ok m -> next16 m < const_count (cur m) -> completes (op_define_global m) good.
Proof.
  intros H G. apply operand_ok; [done|]. intros m' Hm H' Hn. rewrite <- (moved_cur _ _ Hm) in G.
  destruct (pop_ok m' H') as (k & -> & _ & H1). cbn [mbind outcome_bind].
  vbind const_name_ok. intros nm _. by eapply go_good, keeps_vm_ok, scope_define_ok.
Qed.

Lemma op_set_global_ok m : vm_ok m -> next16 m < const_count (cur m) -> completes (op_set_global m) good.
Proof.
  intros H G. apply operand_ok; [done|]. intros m' Hm H' Hn. rewrite <- (moved_cur _ _ Hm) in G.
  destruct (pop_ok m' H') as (k & -> & _ & H1). cbn [mbind outcome_bind].
  vbind const_name_ok. intros nm _. by eapply go_good, keeps_vm_ok, scope_assign_ok.
Qed.

Lemma op_define_fn_ok m : vm_ok m -> next16 m < const_count (cur m) -> completes (op_define_fn junk m) good.
Proof.
  intros H G. unfold op_define_fn. destruct (read_u16_ok m H) as (m1 & -> & Hm & Hn). cbn [mbind outcome_bind]. pose proof (moved_ok _ _ Hm H) as H1.
  destruct (read_u16_ok m1 H1) as (m2 & -> & Hm2 & Hn2). cbn [mbind outcome_bind]. pose proof (moved_ok _ _ Hm2 H1) as H2.
  case_if; [by apply completes_Ret|]. rewrite <- (moved_cur _ _ Hm), <- (moved_cur _ _ Hm2) in G.
  vbind const_name_ok. intros nm _. by eapply go_good, keeps_vm_ok, scope_define_ok.
Qed.

Lemma op_import_ok m : imports_safe -> vm_ok m -> next16 m < const_count (cur m) -> completes (op_import sage_import_module m) good.
Proof.
  intros Hi H G. apply operand_ok; [done|]. intros m' Hm H' Hn. rewrite <- (moved_cur _ _ Hm) in G.
  vbind const_name_ok. intros nm _. by apply go_good, Hi.
Qed.

Lemma op_add_ok m : vm_ok m -> completes (op_add junk nan_of m) good.
Proof.
  intros H. apply binary_ok; [done|]. intros n Hn. case_if; [|by apply push_num_ok]. vbind concat_ok. intros [i m1] [H1 _]. by apply go_good, push_ok.
Qed.

Lemma op_div_ok m : vm_ok m -> completes (op_div nan_of m) good.
Proof. intros H. apply binary_ok; [done|]. intros n Hn. case_if; [by apply stop_good|by apply push_num_ok]. Qed.

Lemma op_mod_ok m : vm_ok m -> mod_defined (top 1 m) (top 0 m) = true -> completes (op_mod long_of m) good.
Proof.
  intros H G. apply binary_ok; [done|]. intros n Hn. unfold mod_defined in G. destruct (d_eqb _ 0); [by apply stop_good|]. cbn [orb] in G.
  apply andb_true_iff in G as [G1%negb_true_iff G2%negb_true_iff]. cbv zeta. rewrite G1, G2. by apply push_num_ok.
Qed.

Lemma op_shift_ok f m : vm_ok m -> (0 <=? d_int int_of (mv_bits (top 0 m))) && (d_int int_of (mv_bits (top 0 m)) <? 64) = true ->
  completes (op_shift int_of f m) good.
Proof. intros H G. apply binary_ok; [done|]. intros n Hn. cbv zeta. rewrite G. by apply push_num_ok. Qed.

Lemma jump_range : 65536 <= CODE_MAX. Proof. unfold CODE_MAX. lia. Qed.

Lemma op_jump_ok m : vm_ok m -> completes (op_jump m) good.
Proof.
  intros H. unfold op_jump. destruct (read_u16_ok m H) as (m1 & -> & Hm & Hn). apply completes_Ret. pose proof (moved_ok _ _ Hm H).
  pose proof jump_range. apply ok_with_ip; [done|lia].
Qed.

Lemma op_jump_if_false_ok m : vm_ok m -> completes (op_jump_if_false m) good.
Proof.
  intros H. unfold op_jump_if_false. destruct (read_u16_ok m H) as (m1 & -> & Hm & Hn). cbn [mbind outcome_bind]. pose proof (moved_ok _ _ Hm H) as H1.
  destruct (pop_ok m1 H1) as (k & -> & _ & H2). apply completes_Ret. pose proof jump_range. unfold good. cbn [snd]. case_if; [done|]. apply ok_with_ip; [done|lia].
Qed.

Lemma read_u16_pos m x m' : vm_ok m -> read_u16 m = Ret (x, m') -> jump_base m = if ip_first then ipof m else ipof m'.
Proof.
  intros H E. unfold read_u16, jump_base in *. pose proof (ok_cur _ H) as ((_ & _ & _ & Hl) & Hi & _). destruct ip_first; [done|]. cbn [orb].
  destruct (code_length (cur m) <=? s32 (ipof m + 1)) eqn:El; [by simplify_eq|].
  apply bind_Ret_inv in E as (a & _ & E). apply bind_Ret_inv in E as (b & _ & E). simplify_eq. cbn. apply Z.leb_gt in El. unfold ipof in *.
  rewrite s32_small in El by (unfold CODE_MAX in *; lia). by rewrite s32_small by (unfold CODE_MAX in *; lia).
Qed.

Lemma op_loop_back_ok m : vm_ok m -> next16 m <= jump_base m -> completes (op_loop_back ip_first m) good.
Proof.
  intros H G. unfold op_loop_back. destruct (read_u16_ok m H) as (m1 & E & Hm & Hn). rewrite E. apply completes_Ret. pose proof (moved_ok _ _ Hm H) as H1.
  apply ok_with_ip; [done|]. pose proof (ok_cur _ H1) as (_ & Hi1 & _). pose proof (ok_cur _ H) as (_ & Hi & _).
  rewrite (read_u16_pos _ _ _ H E) in G. unfold ipof in *. case_if; lia.
Qed.

Lemma op_print_ok m : long_range -> vm_ok m -> printable print_depth (top 0 m) m = true -> completes (op_print nan_of int_of long_of print_depth m) good.
Proof.
  intros Hl H G. apply unary_ok; [done|]. intros n _ Hn. unfold metal_print_value.
  eapply completes_bind; [apply print_value_ok; [done|done|]|].
  - by rewrite (printable_ext m).
  - intros m1 P. apply completes_Ret. apply ok_put_chars. by apply (printed_ok (with_sp n m)).
Qed.

Lemma push_good v m : vm_ok m -> completes (go (metal_vm_push v m)) good.
Proof. intros H. by apply go_good, push_ok. Qed.

Lemma op_slice_ok m : vm_ok m -> completes (op_slice junk int_of m) good.
Proof.
  intros H. unfold op_slice. destruct (pop_ok m H) as (k1 & -> & _ & H1). cbn [mbind outcome_bind]. destruct (pop_ok _ H1) as (k2 & -> & _ & H2).
  cbn [mbind outcome_bind]. destruct (pop_ok _ H2) as (k3 & -> & _ & H3). cbn [mbind outcome_bind].
  destruct (mv_type (top 0 (with_sp k2 (with_sp k1 m)))); try by apply push_good.
  - vbind string_get_ok. intros str _. vbind mv_str_ok. intros [v m4] [H4 _]. by apply push_good.
  - vbind array_new_ok. intros [arr m4] [[H4 _] _]. case_if; [by apply stop_good|]. vbind array_len_ok. intros len _.
    vbind copy_elems_ok. intros m5 [H5 _]. by apply push_good.
Qed.

Lemma op_get_property_ok m : vm_ok m -> completes (op_get_property m) good.
Proof.
  intros H. apply operand_ok; [done|]. intros m' _ H' _. apply unary_ok; [done|]. intros n _ Hn.
  destruct (mv_type (top 0 m')); try by apply push_good. vbind dict_get_ok. intros v _. by apply push_good.
Qed.

Lemma op_set_property_ok m : vm_ok m -> completes (op_set_property m) good.
Proof.
  intros H. apply operand_ok; [done|]. intros m' _ H' _. apply binary_ok; [done|]. intros n Hn.
  eapply completes_bind; [|intros m1 H1; apply push_good; exact H1].
  destruct (mv_type (top 1 m')); try by apply completes_Ret. by eapply keeps_vm_ok, dict_set_ok.
Qed.

(** *** Methods *)

Lemma skip_space_length s : (length (skip_space s) <= length s)%nat.
Proof. induction s as [|c s IH]; cbn; [done|]. case_if; cbn; lia. Qed.

Lemma take_token_length s : (length (take_token s).2 <= length s)%nat.
Proof. induction s as [|c s IH]; cbn; [done|]. case_if; [done|]. destruct (take_token s) as [t q]. cbn in *. lia. Qed.

Lemma skip_space_head s c r : skip_space s = c :: r -> isspace c = false.
Proof. induction s as [|d s IH]; cbn; [done|]. case_if; [done|]. by intros [= -> ->]. Qed.

Lemma split_words_ok arr : forall n s m, vm_ok m -> (length s < n)%nat -> completes (split_words junk n s arr m) (keeps m).
Proof.
  induction n as [|n IH]; intros s m H Hn; [lia|]. cbn [split_words]. destruct (skip_space s) as [|c q] eqn:Es; [by apply completes_Ret|].
  pose proof (skip_space_length s) as L1. rewrite Es in L1. pose proof (skip_space_head _ _ _ Es) as Hc.
  pose proof (take_token_length q) as L2. cbn [take_token]. rewrite Hc. destruct (take_token q) as [t r]. cbn in L1, L2.
  unfold metal_vm_string_new. vbind mv_str_ok. intros [v m1] K1. vbind (array_push_ok arr v m1 (proj1 K1)). intros m2 K2.
  eapply completes_mono; [apply IH; [apply K2|lia]|]. intros m3 K3. eapply keeps_trans; [exact K1|]. by eapply keeps_trans.
Qed.

Lemma return_value_ok argc v m : vm_ok m -> 0 <= argc < sp m -> completes (return_value argc v m) good.
Proof. intros H Ha. pose proof (ok_stack _ H) as [_ Hs]. apply push_good, ok_with_sp; [done|lia]. Qed.

Lemma return_kept argc v m m1 : keeps m m1 -> 0 <= argc < sp m -> completes (return_value argc v m1) good.
Proof. intros [H E] Ha. apply return_value_ok; [done|lia]. Qed.

Lemma array_method_ok argc nm i m : vm_ok m -> 0 <= argc < sp m -> completes (array_method argc nm i m) good.
Proof.
  intros H Ha. pose proof (ok_stack _ H) as [Hl Hs]. unfold array_method. case_if.
  - destruct (rd_in_range (stack m) (sp m - 1) ltac:(lia)) as (v & -> & _). cbn [mbind outcome_bind]. vbind array_push_ok. intros m1 K1. by eapply return_kept.
  - case_if; [|by apply stop_good]. vbind array_len_ok. intros len _. by apply return_value_ok.
Qed.

Lemma string_test_ok argc nm s m : vm_ok m -> 0 <= argc < sp m -> completes (string_test junk argc nm s m) good.
Proof.
  intros H Ha. pose proof (ok_stack _ H) as [Hl Hs]. unfold string_test. set (m1 := say _ m). assert (vm_ok m1) as H1 by (by apply ok_say).
  destruct (rd_in_range (stack m1) (sp m1 - 1)) as (v & -> & _); [cbn; lia|]. cbn [mbind outcome_bind].
  eapply completes_bind; [|intros p _; by apply (return_value_ok argc _ m1 H1)].
  instantiate (1 := fun _ => True). destruct (mv_type v); try by apply completes_Ret. by apply string_get_ok.
Qed.

Lemma string_method_ok argc nm i m : vm_ok m -> 0 <= argc < sp m -> completes (string_method junk argc nm i m) good.
Proof.
  intros H Ha. unfold string_method. vbind string_get_ok. intros s _. eapply completes_bind with (P := fun r => keeps m r.2).
  { case_if; [|by apply completes_Ret]. eapply completes_mono; [by apply array_new_ok, ok_say|]. by intros r [[? ?] _]. }
  intros [arr m1] [H1 E1]. cbn [snd] in *. case_if.
  - vbind (split_words_ok arr (S (length s)) s m1 H1). intros m2 [H2 E2]. apply return_value_ok; [done|lia].
  - case_if.
    + vbind mv_str_ok. intros [v m2] [H2 E2]. cbn [snd] in *. apply return_value_ok; [done|lia].
    + case_if; [|by apply stop_good]. apply string_test_ok; [done|lia].
Qed.

Lemma op_call_method_ok m : vm_ok m -> next8 m < sp m -> completes (op_call_method junk m) good.
Proof.
  intros H G. unfold op_call_method. destruct (read_u8_ok m H) as (m1 & -> & Hm & Hb). cbn [mbind outcome_bind]. destruct (moved_keeps _ _ H Hm) as [H1 E1].
  destruct (read_u16_ok m1 H1) as (m2 & -> & Hm2 & _). cbn [mbind outcome_bind]. destruct (moved_keeps _ _ H1 Hm2) as [H2 E2].
  vbind string_get_ok. intros nm _. pose proof (ok_stack _ H2) as [Hl Hs]. unfold is_byte in Hb.
  destruct (rd_in_range (stack m2) (sp m2 - next8 m - 1) ltac:(lia)) as (v & -> & _). cbn [mbind outcome_bind].
  destruct (mv_type v); try by apply stop_good.
  - apply string_method_ok; [done|lia].
  - apply array_method_ok; [done|lia].
Qed.

(** *** Calls *)

Lemma bind_params_ok f argc : fun_ok f -> forall n p m, vm_ok m -> 0 <= p -> p + Z.of_nat n <= param_count f -> 0 <= argc <= sp m ->
  completes (bind_params n p argc f m) (keeps m).
Proof.
  intros (_ & _ & Hc & Hl). induction n as [|n IH]; intros p m H Hp Hn Ha; cbn [bind_params]; [by apply completes_Ret|].
  pose proof (ok_stack _ H) as [Hls Hs]. eapply completes_bind with (P := fun _ => True).
  { destruct (Z.ltb_spec p argc); [|by apply completes_Ret].
    destruct (rd_in_range (stack m) (sp m - argc + p) ltac:(lia)) as (v & -> & _). by apply completes_Ret. }
  intros v _. destruct (rd_in_range (param_name_hashes f) p ltac:(lia)) as (h & -> & _). cbn [mbind outcome_bind].
  vbind scope_define_ok. intros m1 [H1 E1]. eapply completes_mono; [apply IH; [done|lia..]|]. intros m2 [H2 E2]. split; [done|congruence].
Qed.

Lemma enter_function_ok f argc m : vm_ok m -> fun_ok f -> frame_count m < METAL_CALL_STACK -> 0 <= argc < sp m ->
  completes (enter_function f argc m) vm_ok.
Proof.
  intros H Hf Hc Ha. pose proof Hf as (Hcode & Hpool & _). pose proof (ok_stack _ H) as [_ Hs]. pose proof (ok_frames _ H) as (Hl & Hn & _).
  pose proof (ok_cur _ H) as Hr. unfold enter_function. cbv zeta. rewrite wr_in_range by lia. cbn [mbind outcome_bind].
  set (fr := mk_frame _ _ _ _ _ _). assert (frame_ok fr) as Hfr by (split; [by destruct (cur m)|cbn; lia]).
  set (m1 := with_cur _ _). assert (vm_ok m1) as H1.
  { apply ok_with_cur; [apply ok_with_frames; [done|done|lia]|]. by split_and!. }
  vbind (enter_scope_ok m1 H1). intros m2 [H2 E2]. eapply completes_bind.
  { apply (bind_params_ok f argc Hf (Z.to_nat (param_count f)) 0 m2 H2); [done|destruct Hf as (_ & _ & ? & _); lia|]. rewrite E2. cbn. lia. }
  intros m3 [H3 E3]. apply completes_Ret. apply ok_with_sp; [done|lia].
Qed.

Lemma call_failed_ok v m : vm_ok m -> completes (call_failed v m) good.
Proof.
  intros H. unfold call_failed. eapply completes_bind with (P := vm_ok); [|intros m1 H1; by apply stop_good].
  destruct (mv_type v); try by apply completes_Ret, ok_say. vbind string_get_ok. intros nm _. by apply completes_Ret, ok_say.
Qed.

Lemma native_ok fn args m : natives_safe -> vm_ok m -> returns (native fn args m) = true -> completes (native fn args m) good.
Proof. intros Hn H R. destruct (native fn args m) as [r| |] eqn:E; [|done..]. exists r. split; [done|]. by eapply Hn. Qed.

Lemma op_call_ok m : natives_safe -> vm_ok m -> (next8 m <? sp m) && native_returns m = true -> completes (op_call native m) good.
Proof.
  intros Hnat H [G%Z.ltb_lt R]%andb_true_iff. unfold native_returns, native_called in R. unfold op_call.
  destruct (read_u8_ok m H) as (m1 & E & Hm & Hb). rewrite E in R |- *. cbn [mbind outcome_bind] in R |- *. destruct (moved_keeps _ _ H Hm) as [H1 E1].
  pose proof (ok_stack _ H1) as [Hl Hs]. unfold is_byte in Hb.
  destruct (rd_in_range (stack m1) (sp m1 - next8 m - 1) ltac:(lia)) as (v & Ev & _). rewrite Ev in R |- *. cbn [mbind outcome_bind] in R |- *.
  destruct (mv_type v) eqn:Et; try by apply call_failed_ok.
  - rewrite bool_decide_true in R by done.
    destruct (string_get_ok (as_int v) m1 H1) as (nm & En & _). rewrite En in R |- *. cbn [mbind outcome_bind] in R |- *.
    destruct (find_native_ok (metal_fnv1a nm) m1 H1) as (o & Eo & _). rewrite Eo in R |- *. cbn [mbind outcome_bind] in R |- *.
    destruct o as [fn|]; [|by apply call_failed_ok].
    destruct (stack_slice_ok m1 H1 (Z.to_nat (Z.min (next8 m) 16)) (sp m1 - next8 m) ltac:(lia) ltac:(lia)) as (args & Ea & _).
    rewrite Ea in R |- *. cbn [mbind outcome_bind] in R |- *.
    eapply completes_bind; [apply native_ok; [done|apply ok_with_sp; [done|lia]|done]|]. intros [r m2] H2. by apply push_good.
  - destruct ((0 <=? as_int v) && (as_int v <? fn_count m1)) eqn:Ef; [|by apply call_failed_ok]. apply andb_true_iff in Ef as [E2 E3].
    destruct (Z.leb_spec METAL_CALL_STACK (frame_count m1)); [by apply stop_good|]. pose proof (ok_funs _ H1) as (Hlf & Hnf & Hff).
    destruct (rd_in_range (functions m1) (as_int v) ltac:(lia)) as (f & -> & Hf). cbn [mbind outcome_bind].
    apply go_good, enter_function_ok; [done|by eapply Forall_zget|done|lia].
Qed.

Lemma op_return_ok m : vm_ok m -> completes (op_return m) good.
Proof.
  intros H. unfold op_return. destruct (pop_ok m H) as (k & -> & _ & H1). cbn [mbind outcome_bind]. set (m1 := with_sp k m) in *.
  destruct (Z.ltb_spec 0 (frame_count m1)); [|apply completes_Ret; by apply ok_with_halted].
  pose proof (leave_scope_ok m1 H1) as H2. assert (frame_count (leave_scope m1) = frame_count m1) as Ef by (unfold leave_scope; by case_if).
  set (m2 := leave_scope m1) in *. pose proof (ok_frames _ H2) as (Hl & Hn & Hf).
  destruct (rd_in_range (call_stack m2) (frame_count m2 - 1) ltac:(lia)) as (fr & -> & Hg). cbn [mbind outcome_bind].
  pose proof (Forall_zget _ _ _ _ Hf Hg) as [Hr Hb]. apply push_good, ok_with_sp; [|done].
  apply ok_with_cur; [apply ok_with_frame_count; [done|lia]|done].
Qed.

(** *** Collections *)

Lemma op_array_ok m : vm_ok m -> next16 m <= sp m -> completes (op_array junk m) good.
Proof.
  intros H G. unfold op_array. destruct (read_u16_ok m H) as (m1 & -> & Hm & Hn). cbn [mbind outcome_bind]. destruct (moved_keeps _ _ H Hm) as [H1 E1].
  vbind array_new_ok. intros [arr m2] [[H2 E2] _]. cbn [snd] in *. case_if; [by apply stop_good|]. pose proof (ok_stack _ H2) as [_ Hs].
  eapply completes_bind; [apply fill_array_ok; [done|lia..]|]. intros m3 [H3 E3]. apply push_good, ok_with_sp; [done|lia].
Qed.

Lemma op_dict_ok m : vm_ok m -> completes (op_dict junk m) good.
Proof.
  intros H. unfold op_dict. destruct (read_u16_ok m H) as (m1 & -> & Hm & Hn). cbn [mbind outcome_bind]. destruct (moved_keeps _ _ H Hm) as [H1 E1].
  vbind dict_new_ok. intros [d m2] [[H2 E2] _]. cbn [snd] in *. case_if; [by apply stop_good|].
  vbind fill_dict_ok. intros m3 H3. by apply push_good.
Qed.

Lemma op_array_len_ok m : vm_ok m -> completes (op_array_len m) good.
Proof.
  intros H. apply unary_ok; [done|]. intros n _ Hn. eapply completes_bind with (P := fun _ => True); [|intros len _; by apply push_num_ok].
  destruct (mv_type _); try by apply completes_Ret. by apply array_len_ok.
Qed.

Lemma op_get_index_ok m : vm_ok m -> completes (op_get_index int_of m) good.
Proof.
  intros H. apply binary_ok; [done|]. intros n Hn. eapply completes_bind with (P := fun _ => True); [|intros v _; by apply push_good].
  destruct (mv_type (top 1 m)); try (by apply completes_Ret); [by apply array_get_ok|].
  destruct (mv_type (top 0 m)); try by apply completes_Ret. by apply dict_get_ok.
Qed.

Lemma op_set_index_ok m : vm_ok m -> completes (op_set_index int_of m) good.
Proof.
  intros H. unfold op_set_index. destruct (pop_ok m H) as (k1 & -> & _ & H1). cbn [mbind outcome_bind]. destruct (pop_ok _ H1) as (k2 & -> & _ & H2).
  cbn [mbind outcome_bind]. destruct (pop_ok _ H2) as (k3 & -> & _ & H3). cbn [mbind outcome_bind].
  eapply completes_bind with (P := vm_ok); [|intros m4 H4; by apply push_good].
  destruct (mv_type (top 0 (with_sp k2 (with_sp k1 m)))); try (by apply completes_Ret); [by eapply keeps_vm_ok, set_elem_ok|].
  destruct (mv_type (top 0 (with_sp k1 m))); try (by apply completes_Ret). by eapply keeps_vm_ok, dict_set_ok.
Qed.

Lemma skip_operands_ok n m : vm_ok m -> completes (skip_operands n m) good.
Proof.
  intros H. apply go_good. induction n as [|n IH]; cbn; [by apply completes_Ret|].
  eapply completes_bind; [exact IH|]. intros m1 H1. destruct (read_u16_ok m1 H1) as (m2 & -> & Hm & _). apply completes_Ret. by apply (moved_ok m1).
Qed.

Lemma op_unknown_ok op m : vm_ok m -> completes (op_unknown op m) good.
Proof. intros H. by apply stop_good, ok_say. Qed.

Lemma discard_ok m : vm_ok m -> completes (unary (fun _ m => Ret (true, m)) m) good.
Proof. intros H. apply unary_ok; [done|]. intros n _ Hn. by apply completes_Ret. Qed.

(** ** Dispatch *)

Abbreviation exec := (exec junk nan_of int_of long_of native sage_import_module ip_first print_depth).
Abbreviation metal_vm_step := (metal_vm_step junk nan_of int_of long_of native sage_import_module ip_first print_depth).
Abbreviation run_steps := (run_steps junk nan_of int_of long_of native sage_import_module ip_first print_depth).
Abbreviation metal_vm_run := (metal_vm_run junk nan_of int_of long_of native sage_import_module ip_first print_depth).

(** The lemma of the instruction at hand. *)
Ltac instruction := first
  [ by apply op_unknown_ok | by apply op_constant_ok | by apply push_good | by apply push_bool_ok | by apply discard_ok
  | apply op_get_global_ok; [done|lia] | apply op_define_global_ok; [done|lia] | apply op_set_global_ok; [done|lia] | apply op_define_fn_ok; [done|lia]
  | by apply op_get_property_ok | by apply op_set_property_ok | by apply op_get_index_ok | by apply op_set_index_ok | by apply op_slice_ok
  | by apply op_add_ok | by apply numeric_ok | by apply op_div_ok | by apply op_mod_ok | by apply compare_ok | by apply op_shift_ok
  | by apply op_jump_ok | by apply op_jump_if_false_ok | by apply op_call_ok | apply op_call_method_ok; [done|lia]
  | apply op_array_ok; [done|lia] | by apply op_dict_ok | by apply op_print_ok | by apply op_return_ok | by eapply go_good, keeps_vm_ok, enter_scope_ok
  | by apply completes_Ret, leave_scope_ok | by apply op_dup_ok | by apply op_array_len_ok | apply op_loop_back_ok; [done|lia]
  | apply op_import_ok; [done|done|lia] | by apply skip_operands_ok | by apply completes_Ret | by apply completes_Ret, ok_with_halted
  | apply unary_ok; [done|]; intros; first [by apply push_num_ok | by apply push_bool_ok | by apply stop_good]
  | apply binary_ok; [done|]; intros; by apply push_bool_ok ].

Lemma exec_ok op m : long_range -> natives_safe -> imports_safe -> vm_ok m -> guarded op m = true -> completes (exec op m) good.
Proof.
  intros Hl Hn Hi H G. unfold Vm.exec. unfold guarded in G. repeat case_match; try instruction.
  destruct (read_u16_ok m H) as (m1 & -> & Hm & _). apply stop_good. by apply (moved_ok m).
Qed.

(** The opcode is read and recorded before it is executed. *)
Definition fetched (m : vm) : vm := with_vtrace (v_trace m ++ [(next8 m, u64 (ipof m + 1))]) (with_ip (ipof m + 1) m).

(** The operands of the instruction at the program counter. *)
Definition step_guarded (m : vm) : bool := guarded (next8 m) (fetched m).

Lemma fetched_ok m : vm_ok m -> ipof m < code_length (cur m) -> vm_ok (fetched m).
Proof.
  intros H Hip. pose proof (ok_cur _ H) as ((_ & _ & _ & Hlen) & Hip' & _). unfold ipof in *.
  apply ok_with_vtrace, ok_with_ip; [done|unfold ipof; lia].
Qed.

Lemma step_fetch m : vm_ok m -> halted m = 0 -> error m = 0 -> ipof m < code_length (cur m) ->
  metal_vm_step m = exec (next8 m) (fetched m).
Proof.
  intros H Hh He Hi. pose proof (ok_cur _ H) as Hr. pose proof Hr as ((_ & _ & _ & Hl) & Hip & _).
  unfold Vm.metal_vm_step, read_u8, fetched, next8, code_at, ipof in *.
  rewrite Hh, He, (proj2 (Z.leb_gt _ _)) by lia. cbn [Z.eqb negb orb]. destruct (code_byte _ (ip (cur m)) Hr ltac:(lia)) as (b & -> & -> & _).
  cbn [mbind outcome_bind default id]. rewrite s32_small by (unfold CODE_MAX in *; lia).
  cbn [error with_vtrace with_ip with_cur]. by rewrite He.
Qed.

(** One guarded step. *)
Lemma step_ok m :
  long_range -> natives_safe -> imports_safe -> vm_ok m -> step_guarded m = true -> completes (metal_vm_step m) good.
Proof.
  intros Hl Hn Hi H G. destruct (decide (halted m = 0 /\ error m = 0 /\ ipof m < code_length (cur m))) as [(Hh & He & Hip)|Hno].
  - rewrite (step_fetch m H Hh He Hip). apply exec_ok; try done. by apply fetched_ok.
  - unfold Vm.metal_vm_step. rewrite (proj2 (orb_true_iff _ _)); [by apply completes_Ret|].
    destruct (Z.eqb_spec (halted m) 0), (Z.eqb_spec (error m) 0), (Z.leb_spec (code_length (cur m)) (ipof m)); cbn; try tauto; lia.
Qed.

(** The states a run goes through. *)
Inductive reached : vm -> vm -> Prop :=
| reached_here m : reached m m
| reached_step m m1 m' : metal_vm_step m = Ret (true, m1) -> reached m1 m' -> reached m m'.

Lemma run_steps_ok n : long_range -> natives_safe -> imports_safe -> forall m, vm_ok m ->
  (forall m', reached m m' -> step_guarded m' = true) -> completes (run_steps n m) vm_ok.
Proof.
  intros Hl Hn Hi. induction n as [|n IH]; intros m H G; cbn [Vm.run_steps]; [by apply completes_Ret|].
  destruct (step_ok m Hl Hn Hi H (G m (reached_here m))) as ([c m1] & E & H1). rewrite E. cbn [mbind outcome_bind].
  destruct c; [|by apply completes_Ret]. apply IH; [exact H1|]. intros m' R. apply G. by eapply reached_step.
Qed.

(** A whole run. *)
Lemma run_ok m :
  long_range -> natives_safe -> imports_safe -> vm_ok m -> (forall m', reached m m' -> step_guarded m' = true) ->
  completes (metal_vm_run m) (fun '(r, m') => vm_ok m' /\ (r = 0 <-> error m' = 0)).
Proof.
  intros Hl Hn Hi H G. unfold Vm.metal_vm_run. eapply completes_bind; [by apply run_steps_ok|]. intros m1 H1.
  apply completes_Ret. split; [done|]. destruct (Z.eqb_spec (error m1) 0); lia.
Qed.

(** C2: the byte-code machine is type safe. From a well-formed machine (stack, call
    frames, scopes, pools, constants and strings within their arrays, program texts
    inside their buffers) [metal_vm_run] returns without any access out of bounds,
    leaves a well-formed machine and reports 0 exactly when no error was recorded,
    as long as, in the states the run goes through, the operands that the interpreter
    does not check are in range and the native functions called return; these and
    the loader of modules are assumed to keep machines well formed. *)
Theorem vm_run_safe m :
  long_range -> natives_safe -> imports_safe -> vm_ok m -> (forall m', reached m m' -> step_guarded m' = true) ->
  completes (metal_vm_run m) (fun '(r, m') => vm_ok m' /\ (r = 0 <-> error m' = 0)).
Proof. apply run_ok. Qed.

(** ** What the missing checks lead to *)

Lemma op_call_underflow m : vm_ok m -> sp m <= next8 m -> op_call native m = Fault.
Proof.
  intros H G. unfold op_call. destruct (read_u8_ok m H) as (m1 & -> & Hm & Hb). cbn [mbind outcome_bind]. destruct (moved_keeps _ _ H Hm) as [H1 E1].
  by rewrite rd_negative by lia.
Qed.

Lemma op_call_method_underflow m : vm_ok m -> sp m <= next8 m -> op_call_method junk m = Fault.
Proof.
  intros H G. unfold op_call_method. destruct (read_u8_ok m H) as (m1 & -> & Hm & Hb). cbn [mbind outcome_bind]. destruct (moved_keeps _ _ H Hm) as [H1 E1].
  destruct (read_u16_ok m1 H1) as (m2 & -> & Hm2 & _). cbn [mbind outcome_bind]. destruct (moved_keeps _ _ H1 Hm2) as [H2 E2].
  eapply bind_fault; [by apply string_get_ok|]. intros nm _. by rewrite rd_negative by lia.
Qed.

(** The guards on calls are needed. A call or a method call whose operand says
    that there are at least as many arguments as there are values on the stack reads
    the value stack below its start. *)
Theorem call_underflow_faults m :
  vm_ok m -> halted m = 0 -> error m = 0 -> ipof m < code_length (cur m) -> next8 m = 36 \/ next8 m = 37 ->
  sp m <= next8 (fetched m) -> metal_vm_step m = Fault.
Proof.
  intros H Hh He Hip Hop G. rewrite (step_fetch m H Hh He Hip). pose proof (fetched_ok m H Hip) as H1.
  destruct Hop as [-> | ->]; [by apply op_call_underflow|by apply op_call_method_underflow].
Qed.

(** A bounded run that tests the operands. *)
Fixpoint check_run (n : nat) (m : vm) : bool :=
  step_guarded m &&
  match metal_vm_step m with
  | Ret (true, m1) => match n with O => false | S k => check_run k m1 end
  | _ => true
  end.

Lemma check_run_reached n : forall m m', check_run n m = true -> reached m m' -> step_guarded m' = true.
Proof.
  induction n as [|n IH]; intros m m' C R; cbn [check_run] in C; apply andb_true_iff in C as [C1 C2]; inversion R as [|? m1 ? E R']; subst; try done.
  - by rewrite E in C2.
  - rewrite E in C2. eauto.
Qed.
End step.
End world.

(** ** An example: 1.5 + 1.5, printed *)

Definition ex_code : list Z := [0; 0; 0; 0; 0; 0; 14; 41; 255].
Definition ex_vm : vm unit :=
  with_cur (mk_regs (mk_code ex_code 0) 9 0 PoolMain 1)
    (with_main ((main_constants (metal_vm_init tt)).[0 <- mv_num 0x3FF8000000000000]) 1 (metal_vm_init tt)).

Lemma ex_vm_ok : vm_ok ex_vm.
Proof.
  pose proof (init_ok tt) as H. apply ok_with_cur; [|split_and!; [split_and!; [by repeat constructor|done..]|done|done|done]].
  assert (zlen ((main_constants (metal_vm_init tt)).[0 <- mv_num 0x3FF8000000000000]) = METAL_CONST_POOL) by (rewrite zlen_zset; exact (zlen_replicate _ _)).
  vm_part.
Qed.

(** A call with one argument on an empty stack. *)
Definition ex_call : vm unit := with_cur (mk_regs (mk_code [36; 1] 0) 2 0 PoolMain 0) (metal_vm_init tt).

Lemma call_underflow_faults_witness :
  vm_ok ex_call /\ metal_vm_step 0 (fun _ _ => 0) (fun _ => 0) (fun _ => 0) (fun _ _ m => Ret (mv_nil, m)) (fun _ m => Ret m) true 4 ex_call = Fault.
Proof.
  assert (vm_ok ex_call) as H by (apply ok_with_cur; [exact (init_ok tt)|split_and!; [split_and!; [by repeat constructor|done..]|done|done|done]]).
  split; [exact H|]. apply (call_underflow_faults _ _ _ _ _ _ _ _ ex_call H); [done|done|done|by left|by vm_compute].
Defined.

Definition ex_native (fn : Z) (args : list mvalue) (m : vm unit) : outcome (mvalue * vm unit) := Ret (mv_nil, m).
Definition ex_import (nm : list Z) (m : vm unit) : outcome (vm unit) := Ret m.
Abbreviation ex_run := (metal_vm_run 0 (fun _ _ => 0) (fun _ => 0) (fun _ => - 2 ^ 63) ex_native ex_import true 4).

Lemma vm_run_safe_witness : vm_ok ex_vm /\ completes (ex_run ex_vm) (fun '(r, m') => vm_ok m' /\ (r = 0 <-> error m' = 0)).
Proof.
  split; [exact ex_vm_ok|].
  apply (vm_run_safe 0 (fun _ _ => 0) (fun _ => 0) (fun _ => - 2 ^ 63) ex_native ex_import true 4 ex_vm).
  - by intros b.
  - intros fn args m r H [= <-]. exact H.
  - intros nm m H. by apply completes_Ret.
  - exact ex_vm_ok.
  - intros m'. apply (check_run_reached _ _ _ _ _ _ _ _ 8). vm_compute. reflexivity.
Defined.
End VmStep.
