(* ===== verification/VmEnv.v ===== *)
(** * Variables of the byte-code machine

    The scopes of kernel/core/sagelang/metal_vm.c implement a stack of finite maps
    from hashes of names to values. *)

From stdpp Require Import base tactics numbers option strings list gmap fin_maps.
From S2P Require Import Prelude Digits CMem Float64 Vm VmGc VmSafe.

Module VmEnv.
Import Vm VmGc VmSafe.

Section world.
Context {W : Type}.
Abbreviation vm := (Vm.vm W).
Implicit Types m : vm.

(** ** The map of one scope *)

Definition names (s : scope) : list Z := take (Z.to_nat (s_count s)) (name_hash s).
Definition vals (s : scope) : list mvalue := take (Z.to_nat (s_count s)) (s_values s).
Definition view (s : scope) : gmap Z mvalue := list_to_map (zip (names s) (vals s)).

(** A scope with its hashes distinct. *)
Definition scope_inv (s : scope) : Prop := scope_ok s /\ NoDup (names s).

Lemma names_zget s j : scope_ok s -> 0 <= j < s_count s -> (name_hash s).[j] = (names s).[j] /\ (s_values s).[j] = (vals s).[j].
Proof.
  intros (H1 & _ & H3 & H4) Hj. unfold names, vals, zget. destruct (0 <=? j) eqn:E; [|lia]. by rewrite !lookup_take_lt by lia.
Qed.

Lemma names_length s : scope_ok s -> length (names s) = Z.to_nat (s_count s) /\ length (vals s) = Z.to_nat (s_count s).
Proof. intros (H1 & _ & H3 & H4). unfold names, vals, zlen in *. rewrite !length_take. lia. Qed.

Lemma fst_zip_names s : scope_ok s -> (zip (names s) (vals s)).*1 = names s.
Proof. intros H. destruct (names_length s H) as [E1 E2]. apply fst_zip. lia. Qed.

Lemma view_lookup s k v : scope_inv s ->
  view s !! k = Some v <-> exists j, 0 <= j < s_count s /\ (name_hash s).[j] = Some k /\ (s_values s).[j] = Some v.
Proof.
  intros [Hok Hnd]. destruct (names_length s Hok) as [E1 E2]. unfold view. rewrite <- elem_of_list_to_map by (by rewrite fst_zip_names).
  rewrite list_elem_of_lookup. split.
  - intros (j & Hj). apply lookup_zip_with_Some in Hj as (x & y & [= <- <-] & Hx & Hy). pose proof (lookup_lt_Some _ _ _ Hx).
    exists (Z.of_nat j). destruct (names_zget s (Z.of_nat j) Hok ltac:(lia)) as [-> ->]. rewrite !zget_nat. split_and!; done || lia.
  - intros (j & Hj & Hx & Hy). exists (Z.to_nat j). destruct (names_zget s j Hok Hj) as [En Ev]. rewrite En in Hx. rewrite Ev in Hy.
    apply zget_lookup in Hx as [_ Hx], Hy as [_ Hy]. apply lookup_zip_with_Some. eauto.
Qed.

Lemma names_inj s i j k : scope_inv s -> 0 <= i < s_count s -> 0 <= j < s_count s -> (name_hash s).[i] = Some k -> (name_hash s).[j] = Some k -> i = j.
Proof.
  intros [Hok Hnd] Hi Hj Ei Ej. destruct (names_zget s i Hok Hi) as [Fi _]. destruct (names_zget s j Hok Hj) as [Fj _].
  rewrite Fi in Ei. rewrite Fj in Ej. apply zget_lookup in Ei as [_ Ei], Ej as [_ Ej].
  pose proof (NoDup_lookup _ _ _ _ Hnd Ei Ej). lia.
Qed.

Lemma view_size s : scope_inv s -> Z.of_nat (size (view s)) = s_count s.
Proof.
  intros [Hok Hnd]. destruct (names_length s Hok) as [E1 E2]. pose proof Hok as (_ & _ & _ & Hc). unfold view.
  rewrite map_size_list_to_map by (by rewrite fst_zip_names). rewrite length_zip. lia.
Qed.

(** ** Searching *)

Lemma hash_index_found h ns : forall n i, 0 <= i -> i + Z.of_nat n <= zlen ns ->
  completes (hash_index n i h ns) (fun r => match r with
    | Some j => i <= j < i + Z.of_nat n /\ ns.[j] = Some (s32 h)
    | None => forall j, i <= j < i + Z.of_nat n -> ns.[j] <> Some (s32 h) end).
Proof.
  induction n as [|n IH]; intros i Hi Hn; cbn [hash_index]; [apply completes_Ret; lia|].
  destruct (rd_in_range ns i ltac:(lia)) as (x & -> & Hx). cbn [mbind outcome_bind]. destruct (Z.eqb_spec x (s32 h)) as [->|Hne].
  - apply completes_Ret. split; [lia|done].
  - eapply completes_mono; [apply IH; lia|]. intros [j|] Hj; cbn beta iota in Hj; [split; [lia|apply Hj]|].
    intros j Hb. destruct (decide (j = i)) as [->|]; [congruence|]. apply Hj. lia.
Qed.

Lemma find_view h s : scope_inv s ->
  completes (find_in_scope h s) (fun r => match r with
    | Some j => 0 <= j < s_count s /\ (name_hash s).[j] = Some (s32 h) /\ exists v, (s_values s).[j] = Some v /\ view s !! s32 h = Some v
    | None => view s !! s32 h = None end).
Proof.
  intros Hs. pose proof Hs as [(H1 & _ & H3 & H4) _]. unfold find_in_scope. eapply completes_mono; [apply hash_index_found; lia|].
  intros [j|] Hj; cbn beta iota in Hj.
  - destruct Hj as [Hj E]. destruct (zget_in_range (s_values s) j ltac:(lia)) as (v & Hv). split_and!; [lia|lia|done|].
    exists v. split; [done|]. apply view_lookup; [done|]. exists j. split_and!; done || lia.
  - apply eq_None_not_Some. intros (v & Hv). apply view_lookup in Hv as (j & Hb & E & _); [|done]. apply (Hj j); [lia|done].
Qed.

(** ** Changing one scope *)

Definition put_val (i : Z) (v : mvalue) (s : scope) : scope := mk_scope (name_hash s) (name_const_idx s) ((s_values s).[i <- v]) (s_count s).
Definition add_val (h n : Z) (v : mvalue) (s : scope) : scope :=
  mk_scope ((name_hash s).[s_count s <- s32 h]) ((name_const_idx s).[s_count s <- n]) ((s_values s).[s_count s <- v]) (s_count s + 1).

Lemma put_val_view i v s k : scope_inv s -> 0 <= i < s_count s -> (name_hash s).[i] = Some k ->
  scope_inv (put_val i v s) /\ view (put_val i v s) = <[k := v]> (view s).
Proof.
  intros Hs Hi Hk. pose proof Hs as [(H1 & H2 & H3 & H4) Hnd].
  assert (scope_inv (put_val i v s)) as Hs' by (split; [split_and!; cbn; rewrite ?zlen_zset; lia|done]). split; [done|].
  apply map_eq. intros k'. apply option_eq. intros w. rewrite view_lookup by done. cbn [put_val name_hash s_values s_count].
  rewrite lookup_insert_Some. rewrite view_lookup by done. split.
  - intros (j & Hj & En & Ev). destruct (decide (i = j)) as [->|Hne].
    + rewrite zget_zset_eq in Ev by lia. left. split; congruence.
    + rewrite zget_zset_ne in Ev by done. right. split; [|eauto]. intros <-. apply Hne. eapply names_inj; eauto.
  - intros [[<- <-]|[Hne (j & Hj & En & Ev)]].
    + exists i. split_and!; [lia|lia|done|]. apply zget_zset_eq. lia.
    + exists j. split_and!; [lia|lia|done|]. rewrite zget_zset_ne; [done|]. intros ->. congruence.
Qed.

Lemma add_val_view h n v s : scope_inv s -> s_count s < METAL_VARS_PER_SCOPE -> view s !! s32 h = None ->
  scope_inv (add_val h n v s) /\ view (add_val h n v s) = <[s32 h := v]> (view s).
Proof.
  intros Hs Hc Hnone. pose proof Hs as [Hok Hnd]. pose proof Hok as (H1 & H2 & H3 & H4).
  assert (scope_ok (add_val h n v s)) as Hok' by (split_and!; cbn; rewrite ?zlen_zset; lia).
  assert (names (add_val h n v s) = names s ++ [s32 h]) as En.
  { unfold names, add_val. cbn [s_count name_hash]. replace (Z.to_nat (s_count s + 1)) with (S (Z.to_nat (s_count s))) by lia.
    assert (((name_hash s).[s_count s <- s32 h]) !! Z.to_nat (s_count s) = Some (s32 h)) as E by (apply zget_lookup, zget_zset_eq; lia).
    rewrite (take_S_r _ _ _ E). f_equal. unfold zset. case_if; [|lia]. by rewrite take_insert_ge. }
  assert (scope_inv (add_val h n v s)) as Hs'.
  { split; [done|]. rewrite En. apply NoDup_app. split_and!; [done| |apply NoDup_singleton].
    intros x Hx ->%list_elem_of_singleton. apply list_elem_of_lookup in Hx as (j & Hj). destruct (names_length s Hok) as [L1 _].
    pose proof (lookup_lt_Some _ _ _ Hj). destruct (zget_in_range (s_values s) (Z.of_nat j) ltac:(lia)) as (w & Hw).
    assert (view s !! s32 h = Some w) as E; [|congruence]. apply view_lookup; [done|]. exists (Z.of_nat j). split_and!; [lia|lia| |done].
    destruct (names_zget s (Z.of_nat j) Hok ltac:(lia)) as [-> _]. by rewrite zget_nat. }
  split; [done|]. apply map_eq. intros k'. apply option_eq. intros w. rewrite view_lookup by done. cbn [add_val name_hash s_values s_count].
  rewrite lookup_insert_Some. rewrite view_lookup by done. split.
  - intros (j & Hj & Ej & Ev). destruct (decide (s_count s = j)) as [<-|Hne].
    + rewrite zget_zset_eq in Ej by lia. rewrite zget_zset_eq in Ev by lia. left. split; congruence.
    + rewrite zget_zset_ne in Ej by done. rewrite zget_zset_ne in Ev by done. assert (view s !! k' = Some w) as Ew.
      { apply view_lookup; [done|]. exists j. split_and!; done || lia. }
      right. split; [congruence|]. exists j. split_and!; done || lia.
  - intros [[<- <-]|[Hne (j & Hj & Ej & Ev)]].
    + exists (s_count s). split_and!; [lia|lia|apply zget_zset_eq; lia|apply zget_zset_eq; lia].
    + exists j. rewrite !zget_zset_ne by lia. split_and!; done || lia.
Qed.

(** ** Stacks of maps *)

Definition env := list (gmap Z mvalue).

Fixpoint env_lookup (h : Z) (e : env) : option mvalue :=
  match e with
  | [] => None
  | t :: r => match t !! h with Some v => Some v | None => env_lookup h r end
  end.

(** In the innermost scope, if it has the name or room for one more. *)
Definition env_define (h : Z) (v : mvalue) (e : env) : env :=
  match e with
  | [] => []
  | t :: r => if bool_decide (is_Some (t !! h)) || (Z.of_nat (size t) <? METAL_VARS_PER_SCOPE) then <[h := v]> t :: r else e
  end.

(** In the innermost scope that has the name. *)
Fixpoint env_update (h : Z) (v : mvalue) (e : env) : option env :=
  match e with
  | [] => None
  | t :: r => match t !! h with Some _ => Some (<[h := v]> t :: r) | None => cons t <$> env_update h v r end
  end.

Definition env_assign (h : Z) (v : mvalue) (e : env) : env := default (env_define h v e) (env_update h v e).
Definition env_enter (e : env) : env := if Z.of_nat (length e) <? METAL_ENV_DEPTH then ∅ :: e else e.
Definition env_leave (e : env) : env := if 1 <? Z.of_nat (length e) then tail e else e.

(** ** The scopes of the machine *)

Definition env_upto (n : nat) (m : vm) : env := view <$> reverse (take n (scopes m)).
Definition env_of (m : vm) : env := env_upto (Z.to_nat (scope_depth m + 1)) m.

Definition scopes_inv (m : vm) : Prop := zlen (scopes m) = METAL_ENV_DEPTH /\ 0 <= scope_depth m < METAL_ENV_DEPTH /\ Forall scope_inv (scopes m).

Lemma env_upto_S n m s : (scopes m).[Z.of_nat n] = Some s -> env_upto (S n) m = view s :: env_upto n m.
Proof. intros H. rewrite zget_nat in H. unfold env_upto. by rewrite (take_S_r _ _ _ H), reverse_app. Qed.

Lemma env_upto_zset n m d s : Z.of_nat n <= d -> env_upto n (with_scopes ((scopes m).[d <- s]) m) = env_upto n m.
Proof. intros H. unfold env_upto. cbn [scopes with_scopes]. unfold zset. case_if; [|done]. by rewrite take_insert_ge by lia. Qed.

Lemma scopes_inv_zset m d s : scopes_inv m -> scope_inv s -> scopes_inv (with_scopes ((scopes m).[d <- s]) m).
Proof. intros (H1 & H2 & H3) Hs. split_and!; [cbn; by rewrite zlen_zset|cbn; lia..|]. by apply Forall_zset. Qed.

Lemma inv_scope_at m d : scopes_inv m -> 0 <= d < METAL_ENV_DEPTH -> exists s, rd (scopes m) d = Ret s /\ (scopes m).[d] = Some s /\ scope_inv s.
Proof.
  intros (Hl & _ & Hf) Hd. destruct (rd_in_range (scopes m) d ltac:(lia)) as (s & -> & Hg). exists s. split_and!; [done|done|]. by eapply Forall_zget.
Qed.

(** The scope and index found, and what a change there does to the maps. *)
Definition found (h : Z) (m : vm) (n : nat) (d j : Z) : Prop := exists s v,
  (scopes m).[d] = Some s /\ 0 <= d < Z.of_nat n /\ 0 <= j < s_count s /\ (name_hash s).[j] = Some (s32 h) /\ (s_values s).[j] = Some v /\
  env_lookup (s32 h) (env_upto n m) = Some v /\
  forall w s', view s' = <[s32 h := w]> (view s) ->
    env_update (s32 h) w (env_upto n m) = Some (env_upto n (with_scopes ((scopes m).[d <- s']) m)).

Lemma found_here h m n s j v : (scopes m).[Z.of_nat n] = Some s -> 0 <= j < s_count s -> (name_hash s).[j] = Some (s32 h) ->
  (s_values s).[j] = Some v -> view s !! s32 h = Some v -> found h m (S n) (Z.of_nat n) j.
Proof.
  intros Hg Hj Hh Hv Hl. exists s, v. rewrite (env_upto_S _ _ _ Hg). cbn [env_lookup env_update]. rewrite Hl.
  split_and!; try done; try lia. intros w s' E. rewrite <- E. f_equal. pose proof (zget_Some_bound _ _ _ Hg).
  rewrite (env_upto_S n _ s'), env_upto_zset; [done|lia|]. cbn. apply zget_zset_eq. lia.
Qed.

Lemma found_outer h m n d j s : found h m n d j -> (scopes m).[Z.of_nat n] = Some s -> view s !! s32 h = None -> found h m (S n) d j.
Proof.
  intros (s1 & v & Hg & Hd & Hj & Hh & Hv & Hl & Hu) Hs Hn. exists s1, v. rewrite (env_upto_S _ _ _ Hs). cbn [env_lookup env_update]. rewrite Hn.
  split_and!; try done; try lia. intros w s' E. rewrite (Hu w s' E). cbn [fmap option_fmap option_map]. f_equal. symmetry.
  apply env_upto_S. cbn [scopes with_scopes]. rewrite zget_zset_ne by lia. done.
Qed.

Lemma scope_find_env h m : scopes_inv m -> forall n, Z.of_nat n <= METAL_ENV_DEPTH ->
  completes (scope_find n (Z.of_nat n - 1) h m) (fun r => match r with
    | Some (d, j) => found h m n d j
    | None => env_lookup (s32 h) (env_upto n m) = None /\ forall w, env_update (s32 h) w (env_upto n m) = None end).
Proof.
  intros H. induction n as [|n IH]; intros Hn; cbn [scope_find]; [by apply completes_Ret|].
  replace (Z.of_nat (S n) - 1) with (Z.of_nat n) by lia. destruct (inv_scope_at m (Z.of_nat n) H ltac:(lia)) as (s & -> & Hg & Hs). cbn [mbind outcome_bind].
  eapply completes_bind; [by apply find_view|]. intros [j|]; cbn beta iota.
  - intros (Hj & Hh & v & Hv & Hl). apply completes_Ret. by eapply found_here.
  - intros Hno. eapply completes_mono; [apply IH; lia|]. intros [[d j]|]; cbn beta iota; [intros Hf; by eapply found_outer|].
    rewrite (env_upto_S _ _ _ Hg). cbn [env_lookup env_update]. rewrite Hno. intros [H1 H2]. split; [done|]. intros w. by rewrite H2.
Qed.

Lemma scope_find_depth h m : scopes_inv m ->
  completes (scope_find (Z.to_nat (scope_depth m + 1)) (scope_depth m) h m) (fun r => match r with
    | Some (d, j) => found h m (Z.to_nat (scope_depth m + 1)) d j
    | None => env_lookup (s32 h) (env_of m) = None /\ forall w, env_update (s32 h) w (env_of m) = None end).
Proof.
  intros H. pose proof H as (_ & Hd & _). pose proof (scope_find_env h m H (Z.to_nat (scope_depth m + 1)) ltac:(lia)) as E.
  by replace (Z.of_nat (Z.to_nat (scope_depth m + 1)) - 1) with (scope_depth m) in E by lia.
Qed.

Lemma env_of_top m s : scopes_inv m -> (scopes m).[scope_depth m] = Some s -> env_of m = view s :: env_upto (Z.to_nat (scope_depth m)) m.
Proof.
  intros (_ & Hd & _) Hs. unfold env_of. replace (Z.to_nat (scope_depth m + 1)) with (S (Z.to_nat (scope_depth m))) by lia.
  apply env_upto_S. by rewrite Z2Nat.id by lia.
Qed.

Lemma set_var_env h d j v m : scopes_inv m -> found h m (Z.to_nat (scope_depth m + 1)) d j ->
  completes (set_var d j v m) (fun m' => scopes_inv m' /\ env_update (s32 h) v (env_of m) = Some (env_of m')).
Proof.
  intros H (s & w & Hg & Hd & Hj & Hh & Hv & _ & Hu). pose proof H as (_ & _ & Hf). pose proof (Forall_zget _ _ _ _ Hf Hg) as Hs.
  destruct (put_val_view j v s _ Hs Hj Hh) as [Hs' E]. pose proof Hs as [(H1 & H2 & H3 & H4) _].
  unfold set_var. rewrite (rd_some _ _ _ Hg). cbn [mbind outcome_bind]. rewrite wr_in_range by lia. cbn [mbind outcome_bind].
  rewrite (wr_some _ _ _ _ Hg). apply completes_Ret. split; [by apply scopes_inv_zset|]. exact (Hu v _ E).
Qed.

Lemma scope_define_env h n v m : scopes_inv m ->
  completes (scope_define h n v m) (fun m' => scopes_inv m' /\ env_of m' = env_define (s32 h) v (env_of m)).
Proof.
  intros H. pose proof H as (Hl & Hd & _). unfold scope_define. destruct (inv_scope_at m (scope_depth m) H Hd) as (s & -> & Hg & Hs). cbn [mbind outcome_bind].
  eapply completes_bind; [by apply find_view|]. rewrite (env_of_top m s H Hg). cbn [env_define]. intros [j|]; cbn beta iota.
  - intros (Hj & Hh & w & Hv & Hlk). rewrite Hlk, bool_decide_true by done. cbn [orb].
    assert (found h m (Z.to_nat (scope_depth m + 1)) (scope_depth m) j) as Hf.
    { replace (Z.to_nat (scope_depth m + 1)) with (S (Z.to_nat (scope_depth m))) by lia. rewrite <- (Z2Nat.id (scope_depth m)) at 2 by lia.
      eapply found_here; try done. by rewrite Z2Nat.id by lia. }
    eapply completes_mono; [by apply (set_var_env h)|]. intros m' [H' E]. split; [done|].
    rewrite (env_of_top m s H Hg) in E. cbn [env_update] in E. rewrite Hlk in E. by simplify_eq.
  - intros Hno. rewrite Hno, bool_decide_false by (by intros [? ?]). cbn [orb]. rewrite view_size by done.
    destruct (Z.leb_spec METAL_VARS_PER_SCOPE (s_count s)).
    + rewrite (proj2 (Z.ltb_ge _ _)) by lia. apply completes_Ret. split; [done|]. exact (env_of_top m s H Hg).
    + rewrite (proj2 (Z.ltb_lt _ _)) by lia. pose proof Hs as [(H1 & H2 & H3 & H4) _]. rewrite !wr_in_range by lia. cbn [mbind outcome_bind].
      rewrite (wr_some _ _ _ _ Hg). apply completes_Ret. destruct (add_val_view h n v s Hs ltac:(lia) Hno) as [Hs' <-].
      pose proof (scopes_inv_zset m (scope_depth m) _ H Hs') as H'. split; [exact H'|].
      change (mk_scope _ _ _ _) with (add_val h n v s).
      rewrite (env_of_top _ (add_val h n v s) H'); [|cbn; apply zget_zset_eq; lia]. f_equal. cbn [scope_depth with_scopes]. apply env_upto_zset. lia.
Qed.

Lemma scope_assign_env h v m : scopes_inv m ->
  completes (scope_assign h v m) (fun m' => scopes_inv m' /\ env_of m' = env_assign (s32 h) v (env_of m)).
Proof.
  intros H. unfold scope_assign, env_assign. eapply completes_bind; [by apply scope_find_depth|]. intros [[d j]|]; cbn beta iota.
  - intros Hf. eapply completes_mono; [by apply (set_var_env h)|]. intros m' [H' ->]. done.
  - intros [_ Hu]. rewrite Hu. by apply scope_define_env.
Qed.

Lemma scope_lookup_env h m : scopes_inv m -> scope_lookup h m = Ret (env_lookup (s32 h) (env_of m)).
Proof.
  intros H. unfold scope_lookup. destruct (scope_find_depth h m H) as ([[d j]|] & -> & Hr); cbn [mbind outcome_bind].
  - destruct Hr as (s & v & Hg & _ & _ & _ & Hv & Hl & _). rewrite (rd_some _ _ _ Hg). cbn [mbind outcome_bind]. rewrite (rd_some _ _ _ Hv).
    cbn [mbind outcome_bind]. unfold env_of. by rewrite Hl.
  - by destruct Hr as [-> _].
Qed.

Lemma env_of_length m : scopes_inv m -> Z.of_nat (length (env_of m)) = scope_depth m + 1.
Proof. intros (Hl & Hd & _). unfold env_of, env_upto, zlen in *. rewrite length_fmap, length_reverse, length_take. lia. Qed.

Lemma enter_scope_env m : scopes_inv m -> completes (enter_scope m) (fun m' => scopes_inv m' /\ env_of m' = env_enter (env_of m)).
Proof.
  intros H. pose proof H as (Hl & Hd & Hf). unfold enter_scope, env_enter. rewrite env_of_length by done.
  destruct (Z.ltb_spec (scope_depth m) (METAL_ENV_DEPTH - 1)); [|apply completes_Ret; by rewrite (proj2 (Z.ltb_ge _ _)) by lia].
  rewrite (proj2 (Z.ltb_lt _ _)) by lia. destruct (inv_scope_at m (scope_depth m + 1) H ltac:(lia)) as (s & -> & Hg & Hs). cbn [mbind outcome_bind].
  rewrite (wr_some _ _ _ _ Hg). apply completes_Ret. set (s0 := mk_scope _ _ _ 0).
  assert (scope_inv s0) as Hs0 by (destruct Hs as [(H1 & H2 & H3 & _) _]; split; [by split_and!|by apply NoDup_nil_2]).
  destruct (scopes_inv_zset m (scope_depth m + 1) s0 H Hs0) as (K1 & _ & K3).
  match goal with |- scopes_inv ?x /\ _ => assert (scopes_inv x) as H' by (split_and!; [done|cbn; lia..|done]) end. split; [done|].
  rewrite (env_of_top _ s0 H'); [|cbn; apply zget_zset_eq; lia]. f_equal.
  unfold env_of. cbn [scope_depth with_depth]. exact (env_upto_zset (Z.to_nat (scope_depth m + 1)) m (scope_depth m + 1) s0 ltac:(lia)).
Qed.

Lemma leave_scope_env m : scopes_inv m -> scopes_inv (leave_scope m) /\ env_of (leave_scope m) = env_leave (env_of m).
Proof.
  intros H. pose proof H as (Hl & Hd & Hf). unfold leave_scope, env_leave. rewrite env_of_length by done.
  destruct (Z.ltb_spec 0 (scope_depth m)); [|by rewrite (proj2 (Z.ltb_ge _ _)) by lia]. rewrite (proj2 (Z.ltb_lt _ _)) by lia.
  split; [split_and!; [done|cbn; lia..|done]|]. destruct (inv_scope_at m (scope_depth m) H Hd) as (s & _ & Hg & _).
  rewrite (env_of_top m s H Hg). cbn [tail]. unfold env_of. cbn [scope_depth with_depth]. by replace (scope_depth m - 1 + 1) with (scope_depth m) by lia.
Qed.

(** C25: the scopes of the byte-code machine are a stack of finite maps from hashes
    of names to values. Looking a name up searches from the innermost scope out;
    defining binds in the innermost scope, unless it is full; assigning changes the
    innermost scope that has the name and defines it when none has; a new scope
    starts empty, up to 32 of them; leaving drops the innermost, but not the last. *)
Theorem scopes_refine_env m h n v :
  scopes_inv m ->
  scope_lookup h m = Ret (env_lookup (s32 h) (env_of m)) /\
  completes (scope_define h n v m) (fun m' => scopes_inv m' /\ env_of m' = env_define (s32 h) v (env_of m)) /\
  completes (scope_assign h v m) (fun m' => scopes_inv m' /\ env_of m' = env_assign (s32 h) v (env_of m)) /\
  completes (enter_scope m) (fun m' => scopes_inv m' /\ env_of m' = env_enter (env_of m)) /\
  scopes_inv (leave_scope m) /\ env_of (leave_scope m) = env_leave (env_of m).
Proof.
  intros H. pose proof (leave_scope_env m H) as [H1 H2].
  split_and!; [by apply scope_lookup_env|by apply scope_define_env|by apply scope_assign_env|by apply enter_scope_env|done..].
Qed.

(** The initial machine, and a definition in it. *)
Lemma init_scopes_inv (w : W) : scopes_inv (metal_vm_init w).
Proof.
  destruct (init_scopes_ok w) as (H1 & H2 & _). split_and!; [done..|]. apply Forall_replicate. split; [exact scope_zero_ok|by apply NoDup_nil_2].
Qed.

End world.

Lemma scopes_refine_env_witness :
  scopes_inv (metal_vm_init tt) /\
  completes (scope_define 7 0 (mv_num 5) (metal_vm_init tt)) (fun m' => env_lookup 7 (env_of m') = Some (mv_num 5)).
Proof.
  split; [exact (init_scopes_inv tt)|]. destruct (scopes_refine_env (metal_vm_init tt) 7 0 (mv_num 5) (init_scopes_inv tt)) as (_ & H & _).
  eapply completes_mono; [exact H|]. intros m' [_ ->]. vm_compute. reflexivity.
Defined.
End VmEnv.
