(* ===== verification/VmLoad.v ===== *)
(** * Program files of the byte-code machine

    The format of a program file, and that [metal_vm_load_binary]
    (kernel/core/sagelang/metal_vm.c) loads every well-formed file as the program
    it encodes. *)

From stdpp Require Import base tactics numbers option strings list.
From S2P Require Import Prelude Digits CMem Float64 Vm VmGc VmStr VmSafe.

Module VmLoad.
Import Vm VmGc VmStr VmSafe.

Section world.
Context {W : Type}.
Abbreviation vm := (Vm.vm W).
Implicit Types m : vm.

(** ** Programs and their encoding *)

Inductive pconst := PNum (bits : Z) | PStr (s : list Z) | PNil.
Record pfun := mk_pfun { pf_params : list Z; pf_consts : list pconst; pf_code : list Z }.
Record program := mk_program { pr_consts : list pconst; pr_code : list Z; pr_funs : list pfun }.

(** [n] bytes of [v], least significant first. *)
Fixpoint le (n : nat) (v : Z) : list Z := match n with O => [] | S k => v mod 256 :: le k (v / 256) end.

Definition enc_const (c : pconst) : list Z :=
  match c with
  | PNum b => 1 :: le 8 b
  | PStr s => 2 :: le 2 (zlen s) ++ s
  | PNil => [0]
  end.
Definition enc_consts (cs : list pconst) : list Z := concat (enc_const <$> cs).
Definition enc_pool (cs : list pconst) : list Z := le 2 (zlen cs) ++ enc_consts cs.
Definition enc_fun (f : pfun) : list Z :=
  le 2 (zlen (pf_params f)) ++ concat (le 4 <$> pf_params f) ++ enc_pool (pf_consts f) ++ le 4 (zlen (pf_code f)) ++ pf_code f.
Definition enc_program (p : program) : list Z :=
  [83; 71; 86; 77; 2] ++ enc_pool (pr_consts p) ++ le 4 (zlen (pr_code p)) ++ pr_code p ++ le 2 (zlen (pr_funs p)) ++ concat (enc_fun <$> pr_funs p).

Definition const_ok (c : pconst) : Prop :=
  match c with PNum b => 0 <= b < 2 ^ 64 | PStr s => nul_free s /\ Forall is_byte s /\ zlen s < 2 ^ 16 | PNil => True end.
Definition pfun_ok (f : pfun) : Prop :=
  zlen (pf_params f) <= 8 /\ Forall (fun h => 0 <= h < 2 ^ 32) (pf_params f) /\ Forall const_ok (pf_consts f) /\ zlen (pf_consts f) < 2 ^ 16 /\
  Forall is_byte (pf_code f).
Definition program_ok (p : program) : Prop :=
  Forall const_ok (pr_consts p) /\ zlen (pr_consts p) <= METAL_CONST_POOL /\ Forall is_byte (pr_code p) /\
  Forall pfun_ok (pr_funs p) /\ zlen (pr_funs p) <= POOL_MAX /\ zlen (enc_program p) < CODE_MAX.

(** ** Bytes in the file *)

(** The bytes [l] are at [pos]. *)
Definition at_ (data : list Z) (pos : Z) (l : list Z) : Prop := exists pre post, data = pre ++ l ++ post /\ zlen pre = pos.

Lemma at_app data pos a b : at_ data pos (a ++ b) <-> at_ data pos a /\ at_ data (pos + zlen a) b.
Proof.
  split.
  - intros (pre & post & -> & <-). split; [exists pre, (b ++ post); by rewrite <- app_assoc|].
    exists (pre ++ a), post. by rewrite zlen_app, <- !app_assoc.
  - intros [(pre & post & -> & <-) (pre' & post' & E & L)]. exists pre, post'. split; [|done]. rewrite app_assoc in E.
    assert (length pre' = length (pre ++ a)) as L' by (rewrite length_app; unfold zlen in L; lia).
    apply app_inj_1 in E as [<- E]; [|by rewrite L']. by rewrite E, <- app_assoc.
Qed.

Lemma at_cons data pos b l : at_ data pos (b :: l) <-> at_ data pos [b] /\ at_ data (pos + 1) l.
Proof. exact (at_app data pos [b] l). Qed.

Lemma at_bound data pos l : at_ data pos l -> 0 <= pos /\ pos + zlen l <= zlen data.
Proof. intros (pre & post & -> & <-). rewrite !zlen_app. pose proof (zlen_nonneg pre). pose proof (zlen_nonneg post). lia. Qed.

Lemma at_rd data pos b : at_ data pos [b] -> rd data pos = Ret b.
Proof.
  intros (pre & post & -> & <-). apply rd_some. rewrite zget_app_r by lia. by rewrite Z.sub_diag.
Qed.

Lemma at_bytes data l : forall pos, at_ data pos l -> rd_bytes (length l) data pos = Ret l.
Proof.
  induction l as [|b l IH]; intros pos H; [done|]. apply at_cons in H as [H1 H2]. cbn [length rd_bytes].
  by rewrite (at_rd _ _ _ H1), (IH _ H2).
Qed.

Lemma at_text data pos l : at_ data pos l -> take (length l) (drop (Z.to_nat pos) data) = l.
Proof.
  intros (pre & post & -> & <-). unfold zlen. rewrite Nat2Z.id, drop_app_length. by rewrite take_app_length.
Qed.

Lemma le_length n v : length (le n v) = n.
Proof. revert v. induction n; intros v; cbn; [done|]. by f_equal. Qed.

Lemma le_zlen n v : zlen (le n v) = Z.of_nat n.
Proof. unfold zlen. by rewrite le_length. Qed.

Lemma le_zget n : forall v i, 0 <= i < Z.of_nat n -> (le n v).[i] = Some ((v / 256 ^ i) mod 256).
Proof.
  induction n as [|n IH]; intros v i Hi; [lia|]. cbn [le]. destruct (decide (i = 0)) as [->|Hne].
  - by rewrite Z.pow_0_r, Z.div_1_r.
  - replace i with (1 + (i - 1)) at 1 by lia. change (v mod 256 :: le n (v / 256)) with ([v mod 256] ++ le n (v / 256)).
    rewrite zget_app_r by (unfold zlen; cbn; lia). unfold zlen at 1. cbn [length]. replace (1 + (i - 1) - Z.of_nat 1) with (i - 1) by lia.
    rewrite IH by lia. rewrite Z.div_div by (try apply Z.pow_pos_nonneg; lia). rewrite <- Z.pow_succ_r by lia.
    by replace (Z.succ (i - 1)) with i by lia.
Qed.

Lemma le_load n v : load_le n (fun i => default 0 ((le n v).[i])) 0 = v mod 256 ^ Z.of_nat n.
Proof. apply load_bytes. intros i Hi. by rewrite Z.add_0_l, le_zget by lia. Qed.

Lemma byte_join a b k : 0 <= k -> 0 <= a < 2 ^ k -> Z.lor a (Z.shiftl b k) = a + b * 2 ^ k.
Proof.
  intros Hk Ha. rewrite Z.shiftl_mul_pow2 by done. rewrite <- Z.add_lor_land. enough (Z.land a (b * 2 ^ k) = 0) by lia.
  apply Z.bits_inj'. intros n Hn. rewrite Z.land_spec, Z.bits_0. destruct (Z.lt_ge_cases n k).
  - by rewrite Z.mul_pow2_bits_low, andb_false_r by lia.
  - rewrite <- (Z.mod_small a (2 ^ k)) by done. by rewrite Z.mod_pow2_bits_high by lia.
Qed.

Lemma at_u16 data pos v : at_ data pos (le 2 v) -> 0 <= v < 2 ^ 16 -> read_u16_le data pos = Ret v.
Proof.
  intros H Hv. cbn [le] in H. apply at_cons in H as [H1 H2]. unfold read_u16_le. rewrite (at_rd _ _ _ H1), (at_rd _ _ _ H2). cbn [mbind outcome_bind].
  f_equal. pose proof (Z.mod_pos_bound v 256). rewrite byte_join by lia. rewrite (Z.mod_small (v / 256)) by (split; [apply Z.div_pos|apply Z.div_lt_upper_bound]; lia).
  rewrite (Z.div_mod v 256) at 3 by lia. lia.
Qed.

Lemma at_u32 data pos v : at_ data pos (le 4 v) -> 0 <= v < 2 ^ 32 -> read_u32_le data pos = Ret (s32 v).
Proof.
  intros H Hv. cbn [le] in H. apply at_cons in H as [H1 H]. apply at_cons in H as [H2 H]. apply at_cons in H as [H3 H4]. unfold read_u32_le.
  replace (pos + 1 + 1) with (pos + 2) in H3 by lia. replace (pos + 1 + 1 + 1) with (pos + 3) in H4 by lia.
  rewrite (at_rd _ _ _ H1), (at_rd _ _ _ H2), (at_rd _ _ _ H3), (at_rd _ _ _ H4). cbn [mbind outcome_bind]. f_equal. f_equal.
  set (b0 := v mod 256). set (b1 := (v / 256) mod 256). set (b2 := (v / 256 / 256) mod 256). set (b3 := (v / 256 / 256 / 256) mod 256).
  change 24 with (8 + 16). change 16 with (8 + 8) at 1. rewrite <- !Z.shiftl_shiftl by lia. change 16 with (8 + 8). rewrite <- !Z.shiftl_shiftl by lia.
  rewrite <- !Z.shiftl_lor. pose proof (Z.mod_pos_bound v 256). pose proof (Z.mod_pos_bound (v / 256) 256). pose proof (Z.mod_pos_bound (v / 256 / 256) 256).
  rewrite !byte_join by lia. change (2 ^ 8) with 256.
  assert (b3 = v / 256 / 256 / 256) as E3 by (apply Z.mod_small; rewrite !Z.div_div by lia; split; [apply Z.div_pos|apply Z.div_lt_upper_bound]; lia).
  rewrite E3. pose proof (Z.div_mod v 256). pose proof (Z.div_mod (v / 256) 256). pose proof (Z.div_mod (v / 256 / 256) 256). unfold b0, b1, b2. lia.
Qed.

(** ** Constants *)

Section load.
Context (junk : Z).

(** [v] is the constant [c] when the string pool holds [l]. *)
Definition holds (l : list (list Z)) (v : mvalue) (c : pconst) : Prop :=
  match c with
  | PNum b => v = mv_num b
  | PStr s => exists i, index_of s 0 l = Some i /\ v = of_int junk MV_STR i
  | PNil => v = mv_nil
  end.

Lemma holds_mono l l' v c : l `prefix_of` l' -> holds l v c -> holds l' v c.
Proof. intros [k ->]. destruct c; try done. intros (i & Hi & ->). exists i. split; [by apply index_of_app_l|done]. Qed.

Lemma as_int_of_int t i : 0 <= i < 2 ^ 31 -> as_int (of_int junk t i) = i.
Proof.
  intros Hi. unfold as_int, of_int. cbn [mv_bits]. unfold s32, u32. rewrite (Z.mod_small i) by lia.
  replace (i + 2 ^ 32 * (junk mod 2 ^ 32) + 2 ^ 31) with (i + 2 ^ 31 + (junk mod 2 ^ 32) * 2 ^ 32) by lia.
  rewrite Z.mod_add, Z.mod_small by lia. lia.
Qed.

(** Space a constant needs in the string pool. *)
Definition csize (c : pconst) : Z := match c with PStr s => zlen s + 1 | _ => 0 end.
Definition csizes (cs : list pconst) : Z := foldr (fun c n => csize c + n) 0 cs.

Lemma csize_nonneg c : 0 <= csize c.
Proof. destruct c as [|s|]; cbn; [lia| |lia]. pose proof (zlen_nonneg s). lia. Qed.
Lemma csizes_nonneg cs : 0 <= csizes cs.
Proof. induction cs as [|c cs IH]; cbn; [lia|]. pose proof (csize_nonneg c). unfold csizes in IH. lia. Qed.

Lemma load_const_spec data pos c m l :
  at_ data pos (enc_const c) -> const_ok c -> pool m l -> size l + csize c <= METAL_STRING_POOL ->
  exists v st n l', load_const junk data pos m = Ret (Some v, pos + zlen (enc_const c), with_strings st n m) /\
    pool (with_strings st n m) l' /\ l `prefix_of` l' /\ size l' <= size l + csize c /\ holds l' v c.
Proof.
  intros Ha Hc Hp Hsz. pose proof (at_bound _ _ _ Ha) as [Hb1 Hb2]. unfold load_const.
  assert (with_strings (strings m) (string_used m) m = m) as Em by (by destruct m).
  destruct c as [b|s|]; cbn [enc_const] in *; rewrite ?zlen_cons, ?zlen_app, ?le_zlen in *.
  - apply at_cons in Ha as [H1 H2]. rewrite (proj2 (Z.leb_gt _ _)), (at_rd _ _ _ H1) by lia. cbn [mbind outcome_bind Z.eqb Pos.eqb].
    rewrite (proj2 (Z.ltb_ge _ _)) by lia. pose proof (at_bytes _ _ _ H2) as E. rewrite le_length in E. rewrite E. cbn [mbind outcome_bind].
    exists (mv_num b), (strings m), (string_used m), l. rewrite Em. cbn [csize] in *. split_and!; try done; try lia.
    rewrite le_load, Z.mod_small by exact Hc. by replace (pos + 1 + 8) with (pos + (Z.of_nat 8 + 1)) by lia.
  - apply at_cons in Ha as [H1 H2]. apply at_app in H2 as [H2 H3]. rewrite le_zlen in H3. destruct Hc as (Hn & _ & Hlen). pose proof (zlen_nonneg s).
    rewrite (proj2 (Z.leb_gt _ _)), (at_rd _ _ _ H1) by lia. cbn [mbind outcome_bind Z.eqb Pos.eqb].
    rewrite (proj2 (Z.ltb_ge _ _)), (at_u16 _ _ _ H2) by lia. cbn [mbind outcome_bind]. rewrite (proj2 (Z.ltb_ge _ _)) by lia.
    replace (Z.to_nat (zlen s)) with (length s) by (unfold zlen; lia). change (pos + 1 + 2) with (pos + 1 + Z.of_nat 2). rewrite (at_bytes _ _ _ H3).
    cbn [mbind outcome_bind csize] in *. destruct (intern_fits m l s Hp Hn ltac:(lia)) as (i & st & n & l' & E & Hp' & Hpre & Hi & Hs').
    unfold mv_str. rewrite E. cbn [mbind outcome_bind]. pose proof (index_of_bound _ _ _ _ Hi). pose proof (pool_limit _ _ Hp'). unfold METAL_STRING_POOL in *.
    rewrite as_int_of_int, (proj2 (Z.ltb_ge _ _)) by lia. eexists _, st, n, l'. split_and!; try done; [|lia|by exists i].
    by replace (pos + 1 + Z.of_nat 2 + zlen s) with (pos + (Z.of_nat 2 + zlen s + 1)) by lia.
  - change (zlen []) with 0 in *. rewrite (proj2 (Z.leb_gt _ _)), (at_rd _ _ _ Ha) by lia. cbn [mbind outcome_bind Z.eqb Pos.eqb].
    exists mv_nil, (strings m), (string_used m), l. rewrite Em. cbn [csize] in *. split_and!; done || lia.
Qed.

(** ** Pools of constants *)

Definition pool_at (p : pool_ptr) (i : Z) (m : vm) : option mvalue :=
  match p with PoolMain => (main_constants m).[i] | PoolHeap b => Some (vheap m (b + i)) end.

(** There is room for [n] constants. *)
Definition room (p : pool_ptr) (n : Z) (m : vm) : Prop := zlen (main_constants m) = METAL_CONST_POOL /\ pool_ok p n.

(** Only constants of pool [p] and strings changed. *)
Definition changed (p : pool_ptr) (m m' : vm) : Prop := exists cs h st n,
  m' = with_main cs (main_const_count m) (with_vheap h (heap_used m) (with_strings st n m)) /\ zlen cs = zlen (main_constants m) /\
  match p with PoolMain => h = vheap m | PoolHeap b => cs = main_constants m /\ forall x, x < b -> h x = vheap m x end.

Lemma changed_trans p m1 m2 m3 : changed p m1 m2 -> changed p m2 m3 -> changed p m1 m3.
Proof.
  intros (cs & h & st & n & -> & Hl & Hp) (cs' & h' & st' & n' & -> & Hl' & Hp'). exists cs', h', st', n'. split; [done|]. cbn in *. split; [congruence|].
  destruct p as [|b]; [congruence|]. destruct Hp as [-> Hp], Hp' as [-> Hp']. split; [done|]. intros x Hx. rewrite Hp' by done. auto.
Qed.

Lemma changed_strings p st n m : changed p m (with_strings st n m).
Proof. exists (main_constants m), (vheap m), st, n. split; [by destruct m|]. by destruct p. Qed.

Lemma pool_same m m' l : strings m' = strings m -> string_used m' = string_used m -> pool m l -> pool m' l.
Proof. intros E1 E2 [H1 H2 H3 H4]. split; rewrite ?E1, ?E2; done. Qed.

Lemma put_const_spec p i v m l : room p (i + 1) m -> 0 <= i -> pool m l ->
  exists m', put_const p i v m = Ret m' /\ changed p m m' /\ pool m' l /\ pool_at p i m' = Some v /\
    forall k, k <> i -> pool_at p k m' = pool_at p k m.
Proof.
  intros [Hm Hr] Hi Hp. destruct p as [|b]; cbn [put_const pool_ok pool_at] in *.
  - rewrite wr_in_range by lia. cbn [mbind outcome_bind]. eexists. split_and!; [done| |by apply (pool_same m)|cbn; apply zget_zset_eq; lia|].
    + eexists _, (vheap m), (strings m), (string_used m). split; [by destruct m|]. by rewrite zlen_zset.
    + intros k Hk. cbn. by apply zget_zset_ne.
  - unfold SIZEOF_VALUE in *. rewrite (proj2 (Z.leb_le _ _)), (proj2 (Z.ltb_lt _ _)) by lia. cbn [andb]. eexists.
    split_and!; [done| |by apply (pool_same m)|cbn; by rewrite Z.eqb_refl|].
    + exists (main_constants m), (fun x => if x =? b + i then v else vheap m x), (strings m), (string_used m). split; [by destruct m|]. split; [done|]. split; [done|].
      intros x Hx. cbn. by rewrite (proj2 (Z.eqb_neq _ _)) by lia.
    + intros k Hk. cbn. by rewrite (proj2 (Z.eqb_neq _ _)) by lia.
Qed.

Lemma pool_at_strings p k st n m : pool_at p k (with_strings st n m) = pool_at p k m.
Proof. by destruct p. Qed.

Lemma load_consts_spec data p max cs : forall i pos m l,
  at_ data pos (enc_consts cs) -> Forall const_ok cs -> pool m l -> size l + csizes cs <= METAL_STRING_POOL ->
  0 <= i -> i + zlen cs <= max -> room p (i + zlen cs) m ->
  exists m' l', load_consts junk (length cs) i data pos p max m = Ret (pos + zlen (enc_consts cs), m') /\
    changed p m m' /\ pool m' l' /\ l `prefix_of` l' /\ size l' <= size l + csizes cs /\
    (forall k c, cs.[k] = Some c -> exists v, pool_at p (i + k) m' = Some v /\ holds l' v c) /\
    (forall k, k < i -> pool_at p k m' = pool_at p k m).
Proof.
  induction cs as [|c cs IH]; intros i pos m l Ha Hc Hp Hs Hi Hmax Hr.
  - exists m, l. cbn [length load_consts]. change (zlen (enc_consts [])) with 0. split_and!; try done; [by rewrite Z.add_0_r| |cbn; lia|by intros k c [_ ?]%zget_lookup].
    pose proof (changed_strings p (strings m) (string_used m) m) as E. by replace (with_strings _ _ m) with m in E by (by destruct m).
  - apply Forall_cons in Hc as [Hc Hcs]. unfold enc_consts in *. cbn [fmap list_fmap concat] in *. apply at_app in Ha as [Ha Hat]. rewrite zlen_cons in *.
    pose proof (csizes_nonneg cs). cbn [csizes foldr] in Hs. fold (csizes cs) in Hs. pose proof (zlen_nonneg cs).
    destruct (load_const_spec data pos c m l Ha Hc Hp ltac:(lia)) as (v & st & n & l1 & E1 & Hp1 & Hpre1 & Hs1 & Hv). cbn [length load_consts]. rewrite E1.
    cbn [mbind outcome_bind]. rewrite (proj2 (Z.ltb_lt i max)) by lia.
    assert (room p (i + 1) (with_strings st n m)) as Hr1 by (destruct Hr as [Hr1 Hr2]; split; [done|]; destruct p; cbn in *; unfold SIZEOF_VALUE in *; lia).
    destruct (put_const_spec p i v _ l1 Hr1 Hi Hp1) as (m2 & -> & C2 & Hp2 & Hat2 & Hot2). cbn [mbind outcome_bind].
    assert (room p (i + 1 + zlen cs) m2) as Hr2.
    { destruct C2 as (cs' & h & st' & n' & -> & Hl & _). destruct Hr as [Hr2 Hr3]. split; [cbn in *; congruence|]. by replace (i + 1 + zlen cs) with (i + (zlen cs + 1)) by lia. }
    destruct (IH (i + 1) _ m2 l1 Hat Hcs Hp2 ltac:(lia) ltac:(lia) ltac:(lia) Hr2) as (m3 & l3 & -> & C3 & Hp3 & Hpre3 & Hs3 & Hall & Hkeep).
    exists m3, l3. split_and!; [by rewrite zlen_app, Z.add_assoc| |done|by etrans|cbn [csizes foldr]; fold (csizes cs); lia| |].
    + eapply changed_trans; [apply changed_strings|]. by eapply changed_trans.
    + intros k c' Hk. pose proof (zget_Some_bound _ _ _ Hk). destruct (decide (k = 0)) as [->|Hne].
      * apply zget_lookup in Hk as [_ [= <-]]. exists v. rewrite Z.add_0_r, Hkeep by lia. split; [done|]. by eapply holds_mono.
      * assert (cs.[k - 1] = Some c') as Hk'.
        { apply zget_lookup in Hk as [_ Hk]. apply zget_lookup. split; [lia|]. replace (Z.to_nat k) with (S (Z.to_nat (k - 1))) in Hk by lia. done. }
        destruct (Hall _ _ Hk') as (w & Hw & Hh). exists w. split; [|done]. by replace (i + k) with (i + 1 + (k - 1)) by lia.
    + intros k Hk. rewrite Hkeep, Hot2, pool_at_strings by lia. done.
Qed.

Lemma load_const_pool_spec data pos p max cs m l :
  at_ data pos (enc_pool cs) -> Forall const_ok cs -> pool m l -> size l + csizes cs <= METAL_STRING_POOL ->
  zlen cs < 2 ^ 16 -> zlen cs <= max -> room p (zlen cs) m ->
  exists m' l', load_const_pool junk data pos p max m = Ret (zlen cs, pos + zlen (enc_pool cs), m') /\
    changed p m m' /\ pool m' l' /\ l `prefix_of` l' /\ size l' <= size l + csizes cs /\
    (forall k c, cs.[k] = Some c -> exists v, pool_at p k m' = Some v /\ holds l' v c).
Proof.
  intros Ha Hc Hp Hs Hn Hmax Hr. pose proof (at_bound _ _ _ Ha) as [_ Hb]. pose proof (zlen_nonneg cs). pose proof (zlen_nonneg (enc_consts cs)).
  unfold enc_pool in *. apply at_app in Ha as [H1 H2]. rewrite zlen_app, le_zlen in *. unfold load_const_pool. rewrite (proj2 (Z.ltb_ge _ _)), (at_u16 _ _ _ H1) by lia.
  cbn [mbind outcome_bind]. replace (Z.to_nat (zlen cs)) with (length cs) by (unfold zlen; lia).
  destruct (load_consts_spec data p max cs 0 _ m l H2 Hc Hp Hs) as (m' & l' & E & C & Hp' & Hpre & Hs' & Hall & _); [lia|lia|done|].
  exists m', l'. change (pos + 2) with (pos + Z.of_nat 2). rewrite E. cbn [mbind outcome_bind]. split_and!; try done.
  replace (if zlen cs <? max then zlen cs else max) with (zlen cs) by (destruct (Z.ltb_spec (zlen cs) max); lia). by rewrite Z.add_assoc.
Qed.

(** ** Well-formedness *)

Lemma laid_last st l : forall a, l <> [] -> laid st a l -> st (a + size l - 1) = 0.
Proof.
  induction l as [|s l IH]; intros a Hne H; [done|]. destruct H as (_ & H1 & H2). cbn [size]. destruct l as [|t l].
  - cbn. rewrite <- H1. f_equal. lia.
  - rewrite <- (IH (a + zlen s + 1) ltac:(done) H2). f_equal. lia.
Qed.

Lemma pool_strings_ok m l : pool m l -> strings_ok m.
Proof.
  intros [Hl Hu Hs _]. pose proof (size_nonneg l). split; [lia|]. intros Hpos. rewrite Hu.
  destruct l as [|s l]; [cbn in Hu; lia|]. by apply (laid_last (strings m) (s :: l) 0).
Qed.

Lemma changed_ok p m m' l : changed p m m' -> pool m' l -> vm_ok m -> vm_ok m'.
Proof.
  intros (cs & h & st & n & -> & Hl & _) Hp H. pose proof (pool_strings_ok _ _ Hp) as Hs. pose proof (ok_main _ H) as Hm.
  assert (zlen cs = METAL_CONST_POOL) by congruence. vm_part.
Qed.

Lemma set_fun_spec i F m x : vm_ok m -> (functions m).[i] = Some x -> fun_ok (F x) ->
  exists m', set_fun i F m = Ret m' /\ m' = with_functions ((functions m).[i <- F x]) (fn_count m) m /\ vm_ok m'.
Proof.
  intros H Hx HF. unfold set_fun. rewrite (rd_some _ _ _ Hx). cbn [mbind outcome_bind]. rewrite (wr_some _ _ _ _ Hx). eexists. split_and!; [done|done|].
  pose proof (ok_funs _ H) as (Hl & Hc & Hf).
  assert (funs_ok (with_functions ((functions m).[i <- F x]) (fn_count m) m)) by (split_and!; [cbn; by rewrite zlen_zset|cbn; lia..|]; by apply Forall_zset).
  vm_part.
Qed.

Lemma ok_with_vheap h n m : vm_ok m -> vm_ok (with_vheap h n m). Proof. intros H. vm_part. Qed.

(** ** Functions *)

Lemma load_hashes_spec data hs : forall p pos old,
  at_ data pos (concat (le 4 <$> hs)) -> Forall (fun h => 0 <= h < 2 ^ 32) hs -> 0 <= p -> p + zlen hs <= zlen old ->
  exists new, load_hashes (length hs) p data pos old = Ret (Some (pos + 4 * zlen hs), new) /\ zlen new = zlen old /\
    (forall k h, hs.[k] = Some h -> new.[p + k] = Some h) /\ (forall k, k < p -> new.[k] = old.[k]).
Proof.
  induction hs as [|h hs IH]; intros p pos old Ha Hh Hp Hn.
  - exists old. cbn [length load_hashes]. change (zlen []) with 0. rewrite Z.mul_0_r, Z.add_0_r. split_and!; try done. by intros k h [_ ?]%zget_lookup.
  - apply Forall_cons in Hh as [Hh Hhs]. cbn [fmap list_fmap concat] in Ha. rewrite zlen_cons in *. pose proof (zlen_nonneg hs).
    apply at_app in Ha as [H1 H2]. pose proof (at_bound _ _ _ H1) as [_ Hb]. rewrite le_zlen in *.
    cbn [length load_hashes]. rewrite (proj2 (Z.ltb_ge _ _)), (at_u32 _ _ _ H1) by lia. cbn [mbind outcome_bind]. rewrite wr_in_range by lia. cbn [mbind outcome_bind].
    assert (u32 (s32 h) = h) as -> by (unfold u32, s32; pose proof (Z.mod_eq (h + 2 ^ 31) (2 ^ 32)); Z.div_mod_to_equations; lia).
    destruct (IH (p + 1) _ (old.[p <- h]) H2 Hhs) as (new & E & Hl & Hk & Ho); [lia|rewrite zlen_zset; lia|].
    exists new. change (pos + 4) with (pos + Z.of_nat 4). rewrite E. split_and!; [f_equal; f_equal; f_equal; lia|by rewrite Hl, zlen_zset| |].
    + intros k h' Hg. pose proof (zget_Some_bound _ _ _ Hg). destruct (decide (k = 0)) as [->|Hne].
      * apply zget_lookup in Hg as [_ [= <-]]. rewrite Z.add_0_r, Ho by lia. apply zget_zset_eq. lia.
      * replace (p + k) with (p + 1 + (k - 1)) by lia. apply Hk. apply zget_lookup in Hg as [_ Hg]. apply zget_lookup. split; [lia|].
        replace (Z.to_nat k) with (S (Z.to_nat (k - 1))) in Hg by lia. done.
    + intros k Hlt. rewrite Ho by lia. apply zget_zset_ne. lia.
Qed.

(** Function [g] of machine [m] is [f] of the file. *)
Record fun_loaded (data : list Z) (l : list (list Z)) (m : vm) (f : pfun) (g : mfun) : Prop := {
  fl_params : param_count g = zlen (pf_params f);
  fl_hashes : forall k h, (pf_params f).[k] = Some h -> (param_name_hashes g).[k] = Some h;
  fl_text : c_data (f_code g) = data /\ at_ data (c_off (f_code g)) (pf_code f) /\ f_code_length g = zlen (pf_code f);
  fl_count : f_const_count g = zlen (pf_consts f);
  fl_consts : forall k c, (pf_consts f).[k] = Some c -> exists v, pool_at (f_constants g) k m = Some v /\ holds l v c;
  fl_heap : exists b, f_constants g = PoolHeap b /\ (b + zlen (pf_consts f)) * SIZEOF_VALUE <= heap_used m }.

(** Loading more leaves it loaded. *)
Lemma fun_loaded_mono data l l' m m' f g : fun_loaded data l m f g -> l `prefix_of` l' ->
  (forall x, x * SIZEOF_VALUE < heap_used m -> vheap m' x = vheap m x) -> heap_used m <= heap_used m' -> fun_loaded data l' m' f g.
Proof.
  intros [H1 H2 H3 H4 H5 (b & Hb & Hle)] Hpre Hh Hu. split; try done; [|exists b; split; [done|lia]].
  intros k c Hk. destruct (H5 k c Hk) as (v & Hv & Hc). exists v. split; [|by eapply holds_mono]. pose proof (zget_Some_bound _ _ _ Hk).
  rewrite Hb in *. cbn [pool_at] in *. rewrite Hh; [done|]. unfold SIZEOF_VALUE in *. lia.
Qed.

(** Only function [i], constants from [b] on and strings changed. *)
Record fun_kept (i b : Z) (m m' : vm) : Prop := {
  fk_cur : cur m' = cur m;
  fk_main : main_constants m' = main_constants m;
  fk_count : fn_count m' = fn_count m;
  fk_funs : forall j, j <> i -> (functions m').[j] = (functions m).[j];
  fk_heap : forall x, x < b -> vheap m' x = vheap m x }.

Lemma heap_room b n m : heap_used m = b * SIZEOF_VALUE -> 0 <= b -> (b + n) * SIZEOF_VALUE <= METAL_HEAP_SIZE -> vm_ok m ->
  heap_used m / SIZEOF_VALUE = b /\ room (PoolHeap b) n m.
Proof. intros -> Hb Hn H. unfold SIZEOF_VALUE in *. split; [by apply Z.div_mul|]. split; [apply H|done]. Qed.

Lemma pool_functions m fs n l : pool m l -> pool (with_functions fs n m) l. Proof. by apply pool_same. Qed.

(** The changes to a function. *)
Definition set_params (pc : Z) (hs : list Z) (x : mfun) : mfun := mk_fun (f_code x) (f_code_length x) (f_constants x) (f_const_count x) pc hs.
Definition set_consts (p : pool_ptr) (n : Z) (x : mfun) : mfun := mk_fun (f_code x) (f_code_length x) p n (param_count x) (param_name_hashes x).
Definition set_text (c : code) (n : Z) (x : mfun) : mfun := mk_fun c n (f_constants x) (f_const_count x) (param_count x) (param_name_hashes x).

Definition enc_body (f : pfun) : list Z := enc_pool (pf_consts f) ++ le 4 (zlen (pf_code f)) ++ pf_code f.

(** After [load_body] function [i] is [g]. *)
Definition body_of (data : list Z) (pos b : Z) (f : pfun) (x : mfun) : mfun :=
  set_text (mk_code data (pos + zlen (enc_pool (pf_consts f)) + 4)) (zlen (pf_code f)) (set_consts (PoolHeap b) (zlen (pf_consts f)) x).

Lemma add_int_ok a b : - 2 ^ 31 <= a + b < 2 ^ 31 -> add_int a b = Ret (a + b).
Proof. intros H. unfold add_int. by rewrite (proj2 (Z.leb_le _ _)), (proj2 (Z.ltb_lt _ _)) by lia. Qed.

Lemma load_body_spec data i pos f b m l x :
  at_ data pos (enc_body f) -> Forall is_byte data -> zlen data < CODE_MAX -> pfun_ok f -> vm_ok m -> pool m l ->
  size l + csizes (pf_consts f) <= METAL_STRING_POOL -> (functions m).[i] = Some x -> heap_used m = b * SIZEOF_VALUE -> 0 <= b ->
  (b + zlen (pf_consts f)) * SIZEOF_VALUE <= METAL_HEAP_SIZE ->
  exists m' l', load_body junk i data pos m = Ret (Some (pos + zlen (enc_body f)), m') /\ vm_ok m' /\ pool m' l' /\ l `prefix_of` l' /\
    size l' <= size l + csizes (pf_consts f) /\ heap_used m' = (b + zlen (pf_consts f)) * SIZEOF_VALUE /\
    (functions m').[i] = Some (body_of data pos b f x) /\ fun_kept i b m m' /\
    (forall k c, (pf_consts f).[k] = Some c -> exists v, pool_at (PoolHeap b) k m' = Some v /\ holds l' v c).
Proof.
  intros Ha Hby Hlen (Hpar & Hhs & Hcs & Hcn & Hco) H Hp Hsz Hx Hu Hb Hroom. unfold enc_body in *. apply at_app in Ha as [A3 Ha]. apply at_app in Ha as [A4 A5].
  assert (at_ data pos (le 2 (zlen (pf_consts f)))) as A3' by (unfold enc_pool in A3; by apply at_app in A3 as [A3 _]).
  pose proof (at_bound _ _ _ A3') as [B0 B3]. pose proof (at_bound _ _ _ A4) as [_ B4]. pose proof (at_bound _ _ _ A5) as [B5' B5]. rewrite !zlen_app, !le_zlen in *.
  pose proof (zlen_nonneg (pf_consts f)). pose proof (zlen_nonneg (pf_code f)). pose proof (zlen_nonneg (enc_pool (pf_consts f))). pose proof (ok_funs _ H) as (Hfl & _ & Hff). pose proof (zget_Some_bound _ _ _ Hx) as Hi.
  pose proof (Forall_zget _ _ _ _ Hff Hx) as (Fc & Fp & Fn & F8).
  unfold load_body. rewrite (proj2 (Z.ltb_ge _ _)), (at_u16 _ _ _ A3') by lia. cbn [mbind outcome_bind].
  destruct (heap_room b (zlen (pf_consts f)) m Hu Hb Hroom H) as [Eb Hr]. rewrite (proj2 (Z.ltb_ge _ _)), Eb by lia.
  destruct (load_const_pool_spec data _ (PoolHeap b) (zlen (pf_consts f)) _ m l A3 Hcs Hp Hsz) as (m2 & l2 & -> & C2 & Hp2 & Hpre & Hs2 & Hall); [lia|lia|done|].
  cbn [mbind outcome_bind]. pose proof (changed_ok _ _ _ _ C2 Hp2 H) as O2. destruct C2 as (cs & h & st & n & Em2 & _ & -> & Hh).
  assert (functions m2 = functions m /\ heap_used m2 = heap_used m) as [Ef2 Eu2] by (by rewrite Em2).
  destruct (set_fun_spec i (set_consts (PoolHeap b) (zlen (pf_consts f))) m2 x O2) as (m3 & E3 & Em3 & O3); [by rewrite Ef2|split_and!; done || (cbn; lia)|].
  unfold set_consts at 1 in E3. rewrite E3. cbn [mbind outcome_bind]. cbv zeta. rewrite (proj2 (Z.ltb_ge _ _)), (at_u32 _ _ _ A4) by (unfold CODE_MAX in *; lia).
  cbn [mbind outcome_bind]. rewrite s32_small, add_int_ok by (unfold CODE_MAX in *; lia). cbn [mbind outcome_bind]. rewrite (proj2 (Z.ltb_ge _ _)) by lia.
  set (m4 := with_vheap _ _ m3). assert (vm_ok m4) as O4 by (by apply ok_with_vheap).
  assert (functions m4 = (functions m).[i <- set_consts (PoolHeap b) (zlen (pf_consts f)) x]) as Ef4 by (unfold m4; rewrite Em3; cbn; by rewrite Ef2).
  destruct (set_fun_spec i (set_text (mk_code data (pos + zlen (enc_pool (pf_consts f)) + 4)) (zlen (pf_code f))) m4 (set_consts (PoolHeap b) (zlen (pf_consts f)) x) O4)
    as (m5 & E5 & Em5 & O5); [by rewrite Ef4, zget_zset_eq by lia|split; [split_and!; [done|cbn [set_text f_code f_code_length c_data c_off]; lia..]|exact (conj (proj2 Hr) (conj Fn F8))]|].
  unfold set_text at 1 in E5. rewrite E5. cbn [mbind outcome_bind].
  exists m5, l2. split_and!; [f_equal; f_equal; f_equal; lia|done| |done|done| | | |].
  - rewrite Em5. apply pool_functions, (pool_same m3); [done|done|]. rewrite Em3. by apply pool_functions.
  - rewrite Em5. cbn. rewrite Em3. cbn. rewrite Eu2, Hu. lia.
  - rewrite Em5. cbn [functions with_functions]. by rewrite Ef4, zget_zset_eq by (rewrite zlen_zset; lia).
  - rewrite Em5. split; unfold m4; rewrite Em3, Em2; try done.
    intros j Hj. cbn. by rewrite !zget_zset_ne by done.
  - intros k c Hk. destruct (Hall k c Hk) as (v & Hv & Hc). exists v. split; [|done]. rewrite <- Hv, Em5. unfold m4. by rewrite Em3.
Qed.

Lemma load_function_spec data i pos f b m l :
  at_ data pos (enc_fun f) -> Forall is_byte data -> zlen data < CODE_MAX -> pfun_ok f -> vm_ok m -> pool m l ->
  size l + csizes (pf_consts f) <= METAL_STRING_POOL -> 0 <= i < POOL_MAX -> heap_used m = b * SIZEOF_VALUE -> 0 <= b ->
  (b + zlen (pf_consts f)) * SIZEOF_VALUE <= METAL_HEAP_SIZE ->
  exists m' l' g, load_function junk i data pos m = Ret (Some (pos + zlen (enc_fun f)), m') /\ vm_ok m' /\ pool m' l' /\ l `prefix_of` l' /\
    size l' <= size l + csizes (pf_consts f) /\ heap_used m' = (b + zlen (pf_consts f)) * SIZEOF_VALUE /\
    (functions m').[i] = Some g /\ fun_loaded data l' m' f g /\ fun_kept i b m m'.
Proof.
  intros Ha Hby Hlen Hfok H Hp Hsz Hi Hu Hb Hroom. pose proof Hfok as (Hpar & Hhs & _). pose proof (zlen_nonneg (pf_params f)).
  assert (zlen (concat (le 4 <$> pf_params f)) = 4 * zlen (pf_params f)) as E4.
  { clear. induction (pf_params f) as [|h hs IH]; [done|]. cbn [fmap list_fmap concat]. rewrite zlen_app, le_zlen, IH, zlen_cons. lia. }
  unfold enc_fun in *. fold (enc_body f) in *. apply at_app in Ha as [A1 Ha]. apply at_app in Ha as [A2 A3]. pose proof (at_bound _ _ _ A1) as [B0 B1].
  rewrite !zlen_app, !le_zlen, E4 in *. unfold load_function. rewrite (proj2 (Z.ltb_ge _ _)), (at_u16 _ _ _ A1) by lia. cbn [mbind outcome_bind].
  rewrite (proj2 (Z.ltb_ge 8 _)) by lia. pose proof (ok_funs _ H) as (Hfl & _ & Hff).
  destruct (rd_in_range (functions m) i ltac:(lia)) as (x & -> & Hx). cbn [mbind outcome_bind]. pose proof (Forall_zget _ _ _ _ Hff Hx) as (Hc & Hpo & Hpc & Hl8).
  replace (Z.to_nat (zlen (pf_params f))) with (length (pf_params f)) by (unfold zlen; lia).
  destruct (load_hashes_spec data (pf_params f) 0 _ (param_name_hashes x) A2 Hhs) as (hs & E & Hl & Hk & _); [lia|lia|].
  change (pos + 2) with (pos + Z.of_nat 2). rewrite E. cbn [mbind outcome_bind].
  destruct (set_fun_spec i (set_params (zlen (pf_params f)) hs) m x H Hx) as (m1 & E1 & Em1 & O1); [split_and!; first [done|cbn; lia]|].
  unfold set_params at 1 in E1. rewrite E1. cbn [mbind outcome_bind].
  assert ((functions m1).[i] = Some (set_params (zlen (pf_params f)) hs x)) as Hx1 by (rewrite Em1; cbn; apply zget_zset_eq; lia).
  assert (heap_used m1 = b * SIZEOF_VALUE) as Hu1 by (by rewrite Em1). assert (pool m1 l) as Hp1 by (rewrite Em1; by apply pool_functions).
  destruct (load_body_spec data i _ f b m1 l _ A3 Hby Hlen Hfok O1 Hp1 Hsz Hx1 Hu1 Hb Hroom) as (m2 & l2 & -> & O2 & Hp2 & Hpre & Hs2 & Hu2 & Hg & [K1 K2 K3 K4 K5] & Hall).
  exists m2, l2. eexists. split_and!; [f_equal; f_equal; f_equal; lia|done|done|done|done|done|exact Hg| |].
  - split; try done.
    + apply at_app in A3 as [_ A3]. apply at_app in A3 as [_ A3]. split_and!; [done|exact A3|done].
    + exists b. split; [done|]. by rewrite Hu2.
  - split; rewrite ?K1, ?K2, ?K3, ?Em1; try done; [|intros z Hz; rewrite K5 by done; by rewrite Em1].
    intros j Hj. rewrite K4 by done. rewrite Em1. cbn. by apply zget_zset_ne.
Qed.

Definition fsizes (fs : list pfun) : Z := foldr (fun f n => csizes (pf_consts f) + n) 0 fs.
Definition fconsts (fs : list pfun) : Z := foldr (fun f n => zlen (pf_consts f) + n) 0 fs.

Lemma fsizes_nonneg fs : 0 <= fsizes fs.
Proof. induction fs as [|f fs IH]; cbn; [lia|]. pose proof (csizes_nonneg (pf_consts f)). unfold fsizes in IH. lia. Qed.
Lemma fconsts_nonneg fs : 0 <= fconsts fs.
Proof. induction fs as [|f fs IH]; cbn; [lia|]. pose proof (zlen_nonneg (pf_consts f)). unfold fconsts in IH. lia. Qed.

(** Functions from [i] on, constants from [b] on and strings changed. *)
Record funs_kept (i b : Z) (m m' : vm) : Prop := {
  fsk_cur : cur m' = cur m;
  fsk_main : main_constants m' = main_constants m;
  fsk_count : fn_count m' = fn_count m;
  fsk_funs : forall j, j < i -> (functions m').[j] = (functions m).[j];
  fsk_heap : forall x, x < b -> vheap m' x = vheap m x }.

Lemma load_functions_spec data fs : Forall is_byte data -> zlen data < CODE_MAX -> forall i pos b m l,
  at_ data pos (concat (enc_fun <$> fs)) -> Forall pfun_ok fs -> vm_ok m -> pool m l -> size l + fsizes fs <= METAL_STRING_POOL ->
  0 <= i -> i + zlen fs <= POOL_MAX -> heap_used m = b * SIZEOF_VALUE -> 0 <= b -> (b + fconsts fs) * SIZEOF_VALUE <= METAL_HEAP_SIZE ->
  exists m' l', load_functions junk (length fs) i data pos m = Ret (true, m') /\ vm_ok m' /\ pool m' l' /\ l `prefix_of` l' /\
    heap_used m <= heap_used m' /\ funs_kept i b m m' /\
    (forall k f, fs.[k] = Some f -> exists g, (functions m').[i + k] = Some g /\ fun_loaded data l' m' f g).
Proof.
  intros Hby Hlen. induction fs as [|f fs IH]; intros i pos b m l Ha Hf H Hp Hs Hi Hn Hu Hb Hroom.
  { exists m, l. split_and!; try done. by intros k f [_ ?]%zget_lookup. }
  apply Forall_cons in Hf as [Hf Hfs]. cbn [fmap list_fmap concat] in Ha. apply at_app in Ha as [A1 A2]. rewrite zlen_cons in Hn.
  cbn [fsizes fconsts foldr] in Hs, Hroom. fold (fsizes fs) in Hs. fold (fconsts fs) in Hroom. pose proof (fsizes_nonneg fs). pose proof (fconsts_nonneg fs).
  pose proof (zlen_nonneg fs). unfold SIZEOF_VALUE in *.
  destruct (load_function_spec data i pos f b m l A1 Hby Hlen Hf H Hp) as (m1 & l1 & g & E1 & O1 & Hp1 & Hpre1 & Hs1 & Hu1 & Hg & Hl1 & [K1 K2 K3 K4 K5]); [pose proof (csizes_nonneg (pf_consts f)); unfold SIZEOF_VALUE in *; lia..|].
  cbn [length load_functions]. rewrite E1. cbn [mbind outcome_bind]. pose proof (zlen_nonneg (pf_consts f)).
  destruct (IH (i + 1) _ (b + zlen (pf_consts f)) m1 l1 A2 Hfs O1 Hp1) as (m2 & l2 & -> & O2 & Hp2 & Hpre2 & Hu2 & [L1 L2 L3 L4 L5] & Hall); [unfold SIZEOF_VALUE in *; lia..|].
  exists m2, l2. unfold SIZEOF_VALUE in *. split_and!; [done|done|done|by etrans|lia| |].
  - split; [congruence..| |].
    + intros j Hj. rewrite L4, K4 by lia. done.
    + intros x Hx. rewrite L5, K5 by lia. done.
  - intros k f' Hk. pose proof (zget_Some_bound _ _ _ Hk). destruct (decide (k = 0)) as [->|Hne].
    + apply zget_lookup in Hk as [_ [= <-]]. exists g. rewrite Z.add_0_r, L4 by lia. split; [done|].
      eapply fun_loaded_mono; [exact Hl1|done| |lia]. intros x Hx. apply L5. unfold SIZEOF_VALUE in *. lia.
    + replace (i + k) with (i + 1 + (k - 1)) by lia. apply Hall. apply zget_lookup in Hk as [_ Hk]. apply zget_lookup. split; [lia|].
      by replace (Z.to_nat k) with (S (Z.to_nat (k - 1))) in Hk by lia.
Qed.

(** ** The whole file *)

Lemma le_bytes n : forall v, Forall is_byte (le n v).
Proof. induction n as [|n IH]; intros v; cbn; constructor; [apply Z.mod_pos_bound; lia|apply IH]. Qed.

Lemma concat_bytes {A} (f : A -> list Z) l : Forall (fun x => Forall is_byte (f x)) l -> Forall is_byte (concat (f <$> l)).
Proof. induction 1; cbn; [constructor|]. by apply Forall_app. Qed.

Lemma enc_pool_bytes cs : Forall const_ok cs -> Forall is_byte (enc_pool cs).
Proof.
  intros H. apply Forall_app. split; [apply le_bytes|]. apply concat_bytes. eapply Forall_impl; [exact H|]. intros [b|s|] Hc; cbn [enc_const].
  - constructor; [done|apply le_bytes].
  - constructor; [done|]. apply Forall_app. split; [apply le_bytes|apply Hc].
  - by repeat constructor.
Qed.

Lemma enc_program_bytes p : program_ok p -> Forall is_byte (enc_program p).
Proof.
  intros (Hcs & _ & Hco & Hfs & _). unfold enc_program. rewrite !Forall_app.
  split_and!; [by repeat constructor|by apply enc_pool_bytes|apply le_bytes|done|apply le_bytes|]. apply concat_bytes.
  eapply Forall_impl; [exact Hfs|]. intros f (_ & _ & Hc & _ & Hcode). unfold enc_fun. rewrite !Forall_app.
  split_and!; [apply le_bytes| |by apply enc_pool_bytes|apply le_bytes|done]. apply concat_bytes, Forall_true. intros h. apply le_bytes.
Qed.

(** Machine [m] holds program [p] of file [data], its strings being [l]. *)
Record program_loaded (data : list Z) (l : list (list Z)) (m : vm) (p : program) : Prop := {
  pl_text : exists off, cur m = mk_regs (mk_code data off) (zlen (pr_code p)) 0 PoolMain (zlen (pr_consts p)) /\ at_ data off (pr_code p);
  pl_consts : forall k c, (pr_consts p).[k] = Some c -> exists v, const_at k m = Ret v /\ holds l v c;
  pl_count : fn_count m = zlen (pr_funs p);
  pl_funs : forall k f, (pr_funs p).[k] = Some f -> exists g, (functions m).[k] = Some g /\ fun_loaded data l m f g }.

Lemma ok_with_main_count n m : vm_ok m -> vm_ok (with_main (main_constants m) n m). Proof. intros H. vm_part. Qed.
Lemma ok_fn_count n m : vm_ok m -> 0 <= n <= POOL_MAX -> vm_ok (with_functions (functions m) n m).
Proof. intros H Hn. pose proof (ok_funs _ H) as (Hl & _ & Hf). vm_part. Qed.

(** Where the parts of a file are. *)
Lemma program_parts p :
  let data := enc_program p in
  let p1 := 5 + zlen (enc_pool (pr_consts p)) in
  let p2 := p1 + 4 + zlen (pr_code p) in
  at_ data 5 (enc_pool (pr_consts p)) /\ at_ data p1 (le 4 (zlen (pr_code p))) /\ at_ data (p1 + 4) (pr_code p) /\
  at_ data p2 (le 2 (zlen (pr_funs p))) /\ at_ data (p2 + 2) (concat (enc_fun <$> pr_funs p)) /\
  (take 4 data = [83; 71; 86; 77] /\ data.[4] = Some 2).
Proof.
  cbv zeta. assert (at_ (enc_program p) 0 (enc_program p)) as Ha by (exists [], []; by rewrite app_nil_r). unfold enc_program at 2 in Ha.
  apply at_app in Ha as [_ Ha]. apply at_app in Ha as [A1 Ha]. apply at_app in Ha as [A2 Ha]. apply at_app in Ha as [A3 Ha]. apply at_app in Ha as [A4 A5].
  rewrite !le_zlen in *. by split_and!.
Qed.

(** Loading, from any machine with room. *)
Lemma load_program p m l b :
  program_ok p -> vm_ok m -> pool m l -> size l + csizes (pr_consts p) + fsizes (pr_funs p) <= METAL_STRING_POOL ->
  heap_used m = b * SIZEOF_VALUE -> 0 <= b -> (b + fconsts (pr_funs p)) * SIZEOF_VALUE <= METAL_HEAP_SIZE ->
  completes (metal_vm_load_binary junk (enc_program p) m) (fun '(ok, m') =>
    ok = true /\ vm_ok m' /\ exists l', pool m' l' /\ l `prefix_of` l' /\ program_loaded (enc_program p) l' m' p).
Proof.
  intros Hok H Hp Hs Hu Hb Hroom. pose proof (enc_program_bytes p Hok) as Hby. destruct Hok as (Hcs & Hcn & Hco & Hfs & Hfn & Hlen). set (data := enc_program p) in *.
  destruct (program_parts p) as (A1 & A2 & A3 & A4 & A5 & Emagic). fold data in A1, A2, A3, A4, A5, Emagic. cbv zeta in *.
  set (p1 := 5 + zlen (enc_pool (pr_consts p))) in *. set (p2 := p1 + 4 + zlen (pr_code p)) in *.
  pose proof (at_bound _ _ _ A1) as [_ B1]. pose proof (at_bound _ _ _ A2) as [_ B2]. pose proof (at_bound _ _ _ A3) as [_ B3]. pose proof (at_bound _ _ _ A4) as [_ B4].
  rewrite !le_zlen in *. pose proof (zlen_nonneg (pr_consts p)). pose proof (zlen_nonneg (pr_code p)). pose proof (zlen_nonneg (pr_funs p)).
  pose proof (fsizes_nonneg (pr_funs p)). pose proof (zlen_nonneg (enc_pool (pr_consts p))). unfold METAL_CONST_POOL, POOL_MAX in *.
  unfold metal_vm_load_binary. rewrite (proj2 (Z.ltb_ge _ _)), (bool_decide_true _ (proj1 Emagic)), (bool_decide_true _ (proj2 Emagic)) by lia. cbn [negb].
  destruct (load_const_pool_spec data 5 PoolMain METAL_CONST_POOL _ m l A1 Hcs Hp) as (m1 & l1 & -> & C1 & Hp1 & Hpre1 & Hs1 & Hall1);
    [lia|lia|done|split; [apply H|done]|]. cbn [mbind outcome_bind]. fold p1. pose proof (changed_ok _ _ _ _ C1 Hp1 H) as O1.
  destruct C1 as (cs & h & st & n & Em1 & _ & ->). assert (heap_used m1 = heap_used m) as Eu1 by (by rewrite Em1).
  cbv zeta. rewrite (proj2 (Z.ltb_ge _ _)), (at_u32 _ _ _ A2) by (unfold CODE_MAX in *; lia). cbn [mbind outcome_bind].
  rewrite s32_small, add_int_ok by (unfold CODE_MAX in *; lia). cbn [mbind outcome_bind]. fold p2.
  rewrite (proj2 (Z.ltb_ge _ p2)), (proj2 (Z.ltb_ge _ (p2 + 2))), (at_u16 _ _ _ A4) by lia. cbn [mbind outcome_bind]. rewrite (proj2 (Z.ltb_ge _ _)) by (unfold POOL_MAX; lia).
  replace (Z.to_nat (zlen (pr_funs p))) with (length (pr_funs p)) by (unfold zlen; lia).
  set (m4 := with_functions _ _ _). assert (vm_ok m4) as O4.
  { apply ok_fn_count; [|unfold POOL_MAX; lia]. apply (ok_with_cur _ (with_main (main_constants m1) (zlen (pr_consts p)) m1)); [by apply ok_with_main_count|].
    split_and!; try done; [split_and!; [done|cbn [r_code c_data c_off code_length]; subst p1 p2; lia..]]. }
  destruct (load_functions_spec data (pr_funs p) Hby Hlen 0 _ b m4 l1 A5 Hfs O4) as (m5 & l5 & -> & O5 & Hp5 & Hpre5 & _ & [K1 K2 K3 _ _] & Hall5);
    [by apply (pool_same m1)|lia|lia|unfold POOL_MAX; lia|cbn; congruence|done|done|].
  apply completes_Ret. split; [done|]. split; [done|]. exists l5. split; [done|]. split; [by etrans|]. split.
  - exists (p1 + 4). split; [by rewrite K1|done].
  - intros k c Hk. destruct (Hall1 k c Hk) as (v & Hv & Hc). exists v. split; [|by eapply holds_mono]. unfold const_at. rewrite K1. cbn [m4 cur with_functions with_cur constants].
    rewrite K2. by apply rd_some.
  - by rewrite K3.
  - intros k f Hk. destruct (Hall5 k f Hk) as (g & Hg & Hl). by exists g.
Qed.
(** C11: loading a program file is the inverse of writing one. On a well-formed
    machine with room for its strings and constants [metal_vm_load_binary] accepts
    the encoding of every well-formed program, and leaves a well-formed machine about
    to run the main code, whose constants and functions (parameters, code and own
    constants) are those of the program; strings are found in the pool. *)
Theorem load_binary_roundtrip p m l b :
  program_ok p -> vm_ok m -> pool m l -> size l + csizes (pr_consts p) + fsizes (pr_funs p) <= METAL_STRING_POOL ->
  heap_used m = b * SIZEOF_VALUE -> 0 <= b -> (b + fconsts (pr_funs p)) * SIZEOF_VALUE <= METAL_HEAP_SIZE ->
  completes (metal_vm_load_binary junk (enc_program p) m) (fun '(ok, m') =>
    ok = true /\ vm_ok m' /\ exists l', pool m' l' /\ l `prefix_of` l' /\ program_loaded (enc_program p) l' m' p).
Proof. apply load_program. Qed.

(** A file without constants whose main code has length [- k]. *)
Definition negative_file (k : Z) : list Z := [83; 71; 86; 77; 2] ++ le 2 0 ++ le 4 (2 ^ 32 - k).

(** A program file whose main code has a negative length is not refused: the
    position after it lies before the start of the file, and the loader reads the
    number of functions there, outside the buffer. *)
Theorem negative_length_accepted k m : 11 < k <= 2 ^ 31 -> metal_vm_load_binary junk (negative_file k) m = Fault.
Proof.
  intros Hk. unfold negative_file. set (data := _ ++ _). assert (at_ data 0 ([83; 71; 86; 77; 2] ++ le 2 0 ++ le 4 (2 ^ 32 - k))) as Ha by (exists [], []; by rewrite app_nil_r).
  apply at_app in Ha as [_ Ha]. apply at_app in Ha as [A1 A2]. pose proof (at_bound _ _ _ A2) as [_ B2]. rewrite !le_zlen in *.
  change (0 + zlen [83; 71; 86; 77; 2]) with 5 in *. change (5 + Z.of_nat 2) with (5 + 2) in *. unfold metal_vm_load_binary. rewrite (proj2 (Z.ltb_ge (zlen data) 9)) by lia.
  rewrite (bool_decide_true (take 4 data = _)), (bool_decide_true (data.[4] = Some 2)) by done. cbn [negb].
  unfold load_const_pool. rewrite (proj2 (Z.ltb_ge _ _)), (at_u16 _ _ _ A1) by lia. cbn [mbind outcome_bind]. change (Z.to_nat 0) with O. cbn [load_consts mbind outcome_bind].
  cbv zeta. rewrite (proj2 (Z.ltb_ge _ (5 + 2 + 4))), (at_u32 _ _ _ A2) by lia. cbn [mbind outcome_bind].
  assert (s32 (2 ^ 32 - k) = - k) as -> by (unfold s32; replace (2 ^ 32 - k + 2 ^ 31) with (2 ^ 31 - k + 1 * 2 ^ 32) by lia; rewrite Z.mod_add, Z.mod_small; lia).
  rewrite add_int_ok by lia. cbn [mbind outcome_bind]. rewrite !(proj2 (Z.ltb_ge _ _)) by lia.
  unfold read_u16_le. by rewrite (rd_negative data (5 + 2 + 4 + - k)) by lia.
Qed.
End load.
End world.

(** ** An example *)

Definition ex_program : program :=
  mk_program [PNum 0x3FF8000000000000; PStr [97; 98]; PNil] [0; 0; 0; 41; 255] [mk_pfun [2166136261] [PStr [97; 98]] [0; 0; 0; 43]].

Lemma ex_program_ok : program_ok ex_program.
Proof.
  assert (Forall is_byte [97; 98] /\ nul_free [97; 98]) as [? ?] by (by repeat constructor).
  split_and!; try done; repeat constructor; done.
Qed.

Lemma init_strings : pool (metal_vm_init tt) [].
Proof. by split. Qed.

Lemma load_binary_roundtrip_witness :
  program_ok ex_program /\
  completes (metal_vm_load_binary 0 (enc_program ex_program) (metal_vm_init tt)) (fun '(ok, m') => ok = true /\ vm_ok m' /\ fn_count m' = 1).
Proof.
  split; [exact ex_program_ok|].
  eapply completes_mono; [apply (load_binary_roundtrip 0 ex_program (metal_vm_init tt) [] 0 ex_program_ok (init_ok tt) init_strings); done|].
  intros [ok m'] (H1 & H2 & l' & _ & _ & [_ _ H3 _]). by split_and!.
Defined.

Lemma negative_length_accepted_witness : 11 < 256 <= 2 ^ 31 /\ metal_vm_load_binary 0 (negative_file 256) (metal_vm_init tt) = Fault.
Proof. split; [lia|]. apply (negative_length_accepted 0 256 (metal_vm_init tt)). lia. Defined.
End VmLoad.
