(* ===== verification/Libc.v ===== *)
(** * The freestanding C library

    core/sagelang/sage_libc_shim.c: the string and memory functions, the
    formatter behind every [printf] of the interpreter, the number parsers and
    the stubs.  Strings are read from and written to byte memory, one byte at a
    time, as the source does: a copy sees what earlier iterations of the same
    loop stored.

    A scan for a terminating NUL has no bound of its own; the loops take [fuel],
    and the theorems of LibcSpec say how much is enough (one unit per byte up to
    and including the NUL).  Arguments after the format are the 64-bit slots
    [__builtin_va_arg] takes one by one: an [int] is the low half of a slot,
    signed, an [unsigned int] the low half, a pointer the whole slot.  Signed
    overflow, and asking for an argument that was not passed, are [Fault]. *)

From Stdlib Require Import String Ascii.
From stdpp Require Import base tactics list numbers.
From S2P Require Import Prelude Digits CMem Alloc Vfs Float64.

Module Libc.
Import Float64.

Definition chr (c : ascii) : Z := Z.of_nat (nat_of_ascii c).
Definition text (s : string) : list Z := map chr (list_ascii_of_string s).

(** ** Strings *)
Section strings.
Context (fuel : nat).

Fixpoint scan (f : nat) (m : mem) (s n : Z) : outcome Z :=
  match f with
  | O => OutOfFuel
  | S k => if m (s + n) =? 0 then Ret n else scan k m s (n + 1)
  end.

Definition sage_strlen (m : mem) (s : Z) : outcome Z := scan fuel m s 0.

Fixpoint strcmp_loop (f : nat) (m : mem) (a b : Z) : outcome Z :=
  match f with
  | O => OutOfFuel
  | S k =>
      if negb (m a =? 0) && (m a =? m b) then strcmp_loop k m (a + 1) (b + 1)
      else Ret (m a - m b)
  end.

Definition sage_strcmp (m : mem) (a b : Z) : outcome Z := strcmp_loop fuel m a b.

Fixpoint strncmp_loop (f : nat) (m : mem) (a b n i : Z) : outcome Z :=
  match f with
  | O => OutOfFuel
  | S k =>
      if i <? n then
        if negb (m (a + i) =? m (b + i)) then Ret (m (a + i) - m (b + i))
        else if m (a + i) =? 0 then Ret 0
        else strncmp_loop k m a b n (i + 1)
      else Ret 0
  end.

Definition sage_strncmp (m : mem) (a b n : Z) : outcome Z := strncmp_loop fuel m a b n 0.

Fixpoint copy_loop (f : nat) (m : mem) (d src : Z) : outcome mem :=
  match f with
  | O => OutOfFuel
  | S k =>
      if negb (m src =? 0) then copy_loop k (store_le 1 m d (m src)) (d + 1) (src + 1)
      else Ret (store_le 1 m d 0)
  end.

(** The functions that return [dest] return it here with the memory. *)
Definition sage_strcpy (m : mem) (dest src : Z) : outcome (Z * mem) :=
  m' ← copy_loop fuel m dest src; Ret (dest, m').

Definition sage_strcat (m : mem) (dest src : Z) : outcome (Z * mem) :=
  n ← scan fuel m dest 0; m' ← copy_loop fuel m (dest + n) src; Ret (dest, m').

Fixpoint strncpy_loop (f : nat) (m : mem) (dest src n i : Z) : outcome mem :=
  match f with
  | O => OutOfFuel
  | S k =>
      if (i <? n) && negb (m (src + i) =? 0)
      then strncpy_loop k (store_le 1 m (dest + i) (m (src + i))) dest src n (i + 1)
      else Ret (memset_loop (Z.to_nat (n - i)) m (dest + i) 0)
  end.

Definition sage_strncpy (m : mem) (dest src n : Z) : outcome (Z * mem) :=
  m' ← strncpy_loop fuel m dest src n 0; Ret (dest, m').

(** A null pointer is 0. *)
Fixpoint strchr_loop (f : nat) (m : mem) (s c : Z) : outcome Z :=
  match f with
  | O => OutOfFuel
  | S k =>
      if negb (m s =? 0) then if m s =? u8 c then Ret s else strchr_loop k m (s + 1) c
      else Ret (if c =? 0 then s else 0)
  end.

Definition sage_strchr (m : mem) (s c : Z) : outcome Z := strchr_loop fuel m s c.

(** The inner loop of [strstr]: where [b] stops matching. *)
Fixpoint match_loop (f : nat) (m : mem) (a b : Z) : outcome Z :=
  match f with
  | O => OutOfFuel
  | S k =>
      if negb (m a =? 0) && negb (m b =? 0) && (m a =? m b)
      then match_loop k m (a + 1) (b + 1)
      else Ret b
  end.

Fixpoint strstr_loop (f : nat) (m : mem) (h n : Z) : outcome Z :=
  match f with
  | O => OutOfFuel
  | S k =>
      if negb (m h =? 0) then
        b ← match_loop fuel m h n;
        if m b =? 0 then Ret h else strstr_loop k m (h + 1) n
      else Ret 0
  end.

Definition sage_strstr (m : mem) (h n : Z) : outcome Z :=
  if m n =? 0 then Ret h else strstr_loop fuel m h n.

End strings.

(** ** Memory *)

Definition sage_memset (m : mem) (s c n : Z) : mem := memset_loop (Z.to_nat n) m s c.
Definition sage_memcpy (m : mem) (dest src n : Z) : mem := memcpy_loop (Z.to_nat n) m dest src.
Definition sage_memmove (m : mem) (d sr n : Z) : mem :=
  if d <? sr then memcpy_loop (Z.to_nat n) m d sr
  else if sr <? d then memcpy_back_loop (Z.to_nat n) m d sr
  else m.

Fixpoint memcmp_loop (n : nat) (m : mem) (a b : Z) : Z :=
  match n with
  | O => 0
  | S k => if negb (m a =? m b) then m a - m b else memcmp_loop k m (a + 1) (b + 1)
  end.

Definition sage_memcmp (m : mem) (s1 s2 n : Z) : Z := memcmp_loop (Z.to_nat n) m s1 s2.

(** ** Characters *)

Definition sage_isdigit (c : Z) : bool := (48 <=? c) && (c <=? 57).
Definition sage_isalpha (c : Z) : bool := ((97 <=? c) && (c <=? 122)) || ((65 <=? c) && (c <=? 90)).
Definition sage_isalnum (c : Z) : bool := sage_isdigit c || sage_isalpha c.
Definition sage_isspace (c : Z) : bool := (c =? 32) || (c =? 9) || (c =? 10) || (c =? 13).

(** ** The formatter *)

(** An [int] or a [long] result that must be in range. *)
Definition in_int (v : Z) : outcome Z := if (- 2 ^ 31 <=? v) && (v <? 2 ^ 31) then Ret v else Fault.
Definition in_long (v : Z) : outcome Z := if (- 2 ^ 63 <=? v) && (v <? 2 ^ 63) then Ret v else Fault.

Definition va_slot (args : list Z) : outcome (Z * list Z) :=
  match args with
  | [] => Fault
  | a :: r => Ret (a, r)
  end.

Definition is_modifier (c : Z) : bool :=
  (c =? 104) || (c =? 108) || (c =? 76) || (c =? 122) || (c =? 106) || (c =? 116).

Definition digit_char (upper : bool) (d : Z) : Z :=
  if d <? 10 then 48 + d else (if upper then 65 else 97) + (d - 10).

(** The digits of [uv], most significant first, 0 as one digit. *)
Definition digits_of (base : Z) (upper : bool) (uv : Z) : outcome (list Z) :=
  ds ← digit_loop digit_fuel base uv;
  Ret (map (digit_char upper) (rev (if uv =? 0 then [0] else ds))).

(** What a numeric conversion writes: the sign before zeroes, after blanks. *)
Definition numeric (zero_pad : bool) (width : Z) (neg : bool) (ds : list Z) : list Z :=
  let total_len := zlen ds + (if neg then 1 else 0) in
  let pad := Z.to_nat (width - total_len) in
  let sign := if neg then [45] else [] in
  if total_len <? width then
    if neg && zero_pad then 45 :: replicate pad 48 ++ ds
    else replicate pad (if zero_pad then 48 else 32) ++ sign ++ ds
  else sign ++ ds.

(** [uv] and [neg] of [v]. *)
Definition magnitude (v : Z) : Z * bool := if v <? 0 then (- v, true) else (v, false).

(** The state of the formatter: memory, [pos], the format pointer and the
    arguments left. *)
Record fmt_state := FmtState { f_mem : mem; f_pos : Z; f_fmt : Z; f_args : list Z }.

Section format.
Context (fuel : nat) (buf n : Z) (null_text : Z).

(** [if (buf && pos + 1 < n) buf[pos] = c; pos++;] *)
Definition out (c : Z) (st : fmt_state) : fmt_state :=
  FmtState (if negb (buf =? 0) && (f_pos st + 1 <? n) then store_le 1 (f_mem st) (buf + f_pos st) c else f_mem st)
    (f_pos st + 1) (f_fmt st) (f_args st).

Fixpoint out_all (cs : list Z) (st : fmt_state) : fmt_state :=
  match cs with
  | [] => st
  | c :: r => out_all r (out c st)
  end.

Definition set_fmt (a : Z) (args : list Z) (st : fmt_state) : fmt_state :=
  FmtState (f_mem st) (f_pos st) a args.

Fixpoint zero_flags (f : nat) (m : mem) (a : Z) (zero_pad : bool) : outcome (bool * Z) :=
  match f with
  | O => OutOfFuel
  | S k => if m a =? 48 then zero_flags k m (a + 1) true else Ret (zero_pad, a)
  end.

Fixpoint number (f : nat) (m : mem) (a w : Z) : outcome (Z * Z) :=
  match f with
  | O => OutOfFuel
  | S k =>
      if sage_isdigit (m a) then
        w' ← in_int (w * 10 + (m a - 48)); number k m (a + 1) w'
      else Ret (w, a)
  end.

Fixpoint modifiers (f : nat) (m : mem) (a : Z) : outcome Z :=
  match f with
  | O => OutOfFuel
  | S k => if is_modifier (m a) then modifiers k m (a + 1) else Ret a
  end.

Definition width_of (m : mem) (a : Z) (args : list Z) : outcome (Z * Z * list Z) :=
  if m a =? 42 then
    va ← va_slot args;
    w ← (if s32 va.1 <? 0 then in_int (- s32 va.1) else Ret (s32 va.1));
    Ret (w, a + 1, va.2)
  else wa ← number fuel m a 0; Ret (wa.1, wa.2, args).

Definition precision_of (m : mem) (a : Z) (args : list Z) : outcome (Z * Z * list Z) :=
  if m a =? 46 then
    if m (a + 1) =? 42 then va ← va_slot args; Ret (s32 va.1, a + 2, va.2)
    else pa ← number fuel m (a + 1) 0; Ret (pa.1, pa.2, args)
  else Ret (-1, a, args).

Fixpoint str_len (f : nat) (m : mem) (s precision len : Z) : outcome Z :=
  match f with
  | O => OutOfFuel
  | S k =>
      if negb (m (s + len) =? 0) && ((precision <? 0) || (len <? precision))
      then l ← in_int (len + 1); str_len k m s precision l
      else Ret len
  end.

(** [for (i = 0; i < len; i++) out(s[i])], [k] iterations left. *)
Fixpoint out_str (k : nat) (s i : Z) (st : fmt_state) : fmt_state :=
  match k with
  | O => st
  | S k' => out_str k' s (i + 1) (out (f_mem st (s + i)) st)
  end.

Definition conv_s (width precision : Z) (st : fmt_state) : outcome fmt_state :=
  va ← va_slot (f_args st);
  let s := if u64 va.1 =? 0 then null_text else u64 va.1 in
  len ← str_len fuel (f_mem st) s precision 0;
  let pad := if len <? width then width - len else 0 in
  let st1 := out_all (replicate (Z.to_nat pad) 32) (set_fmt (f_fmt st) va.2 st) in
  Ret (out_str (Z.to_nat len) s 0 st1).

Definition conv_num (c width : Z) (zero_pad : bool) (st : fmt_state) : outcome fmt_state :=
  va ← va_slot (f_args st);
  let '(uv, neg) := if c =? 100 then magnitude (s32 va.1)
                    else if c =? 112 then (u64 va.1, false) else (u32 va.1, false) in
  let zero_pad := (c =? 112) || zero_pad in
  let width := if c =? 112 then 16 else width in
  let base := if (c =? 120) || (c =? 88) || (c =? 112) then 16 else 10 in
  ds ← digits_of base (c =? 88) uv;
  Ret (out_all (numeric zero_pad width neg ds) (set_fmt (f_fmt st) va.2 st)).

(** The conversion whose character is [c]; one that is not known is dropped. *)
Definition convert (c width precision : Z) (zero_pad : bool) (st : fmt_state) : outcome fmt_state :=
  if c =? 115 then conv_s width precision st
  else if (c =? 100) || (c =? 117) || (c =? 120) || (c =? 88) || (c =? 112) then conv_num c width zero_pad st
  else if c =? 99 then va ← va_slot (f_args st); Ret (out (u8 va.1) (set_fmt (f_fmt st) va.2 st))
  else if c =? 37 then Ret (out 37 st)
  else Ret st.

(** From the character after a percent sign to the end of the conversion. *)
Definition directive (st : fmt_state) : outcome fmt_state :=
  let m := f_mem st in
  za ← zero_flags fuel m (f_fmt st + 1) false;
  wa ← width_of m za.2 (f_args st);
  let '(width, a, args) := wa in
  pa ← precision_of m a args;
  let '(precision, a, args) := pa in
  a ← modifiers fuel m a;
  st1 ← convert (m a) width precision za.1 (set_fmt a args st);
  let a' := if f_mem st1 a =? 0 then a else a + 1 in
  Ret (set_fmt a' (f_args st1) st1).

Fixpoint format_loop (f : nat) (st : fmt_state) : outcome fmt_state :=
  match f with
  | O => OutOfFuel
  | S k =>
      let c := f_mem st (f_fmt st) in
      if c =? 0 then Ret st
      else if negb (c =? 37) then format_loop k (set_fmt (f_fmt st + 1) (f_args st) (out c st))
      else st' ← directive st; format_loop k st'
  end.

Definition terminate (st : fmt_state) : mem :=
  if negb (buf =? 0) && (0 <? n) then
    store_le 1 (f_mem st) (if f_pos st <? n then buf + f_pos st else buf + (n - 1)) 0
  else f_mem st.

Definition sage_vsnprintf (m : mem) (fmt : Z) (ap : list Z) : outcome (Z * mem) :=
  st ← format_loop fuel (FmtState m 0 fmt ap);
  Ret (s32 (f_pos st), terminate st).

End format.

Section callers.
Context (fuel : nat) (null_text : Z).

Definition sage_snprintf (m : mem) (buf n fmt : Z) (ap : list Z) : outcome (Z * mem) :=
  sage_vsnprintf fuel buf n null_text m fmt ap.

Definition sage_sprintf (m : mem) (buf fmt : Z) (ap : list Z) : outcome (Z * mem) :=
  sage_vsnprintf fuel buf 1024 null_text m fmt ap.

(** [console_write] of the string at [s]: the bytes it prints. *)
Fixpoint written (f : nat) (m : mem) (s : Z) : outcome (list Z) :=
  match f with
  | O => OutOfFuel
  | S k => if m s =? 0 then Ret [] else r ← written k m (s + 1); Ret (m s :: r)
  end.

(** [printf] and [vfprintf]: format into a buffer on the stack at [frame], print
    it; the result, what is printed, and memory. *)
Definition print_with (size : Z) (m : mem) (frame fmt : Z) (ap : list Z) : outcome (Z * list Z * mem) :=
  r ← sage_vsnprintf fuel frame size null_text m fmt ap;
  o ← written fuel r.2 frame;
  Ret (r.1, o, r.2).

Definition sage_printf : mem -> Z -> Z -> list Z -> outcome (Z * list Z * mem) := print_with 512.
Definition vfprintf : mem -> Z -> Z -> list Z -> outcome (Z * list Z * mem) := print_with 1024.

End callers.

(** [put_uint]: what it prints. *)
Definition put_uint (v : Z) : outcome (list Z) := digits_of 10 false v.

(** [fputc] and [putchar]: the byte printed and the value returned. *)
Definition fputc (c : Z) : Z * Z := (u8 c, c).
Definition putchar (c : Z) : Z * Z := (u8 c, c).

(** ** Numbers from text *)
Section parse.
Context (fuel : nat).

Fixpoint blanks (f : nat) (m : mem) (s : Z) : outcome Z :=
  match f with
  | O => OutOfFuel
  | S k => if m s =? 32 then blanks k m (s + 1) else Ret s
  end.

(** An optional minus sign. *)
Definition minus (m : mem) (s : Z) : bool * Z := if m s =? 45 then (true, s + 1) else (false, s).

Definition sage_atoi (m : mem) (s : Z) : outcome Z :=
  s ← blanks fuel m s;
  let '(neg, s) := minus m s in
  rs ← number fuel m s 0;
  Ret (rs.1 * (if neg then -1 else 1)).

(** The digits of a fraction: value, scale and where they end. *)
Fixpoint decimals (f : nat) (m : mem) (s res fact : Z) (scaled : bool) : outcome (Z * Z * Z) :=
  match f with
  | O => OutOfFuel
  | S k =>
      if sage_isdigit (m s) then
        res' ← in_long (res * 10 + (m s - 48));
        fact' ← in_long (if scaled then fact * 10 else fact);
        decimals k m (s + 1) res' fact' scaled
      else Ret (res, fact, s)
  end.

(** The double, as its 64 bits, and the end pointer.  The divisor is at least 1,
    so the quotient is a number and the bits chosen for NaN do not matter. *)
Definition sage_strtod (m : mem) (s : Z) : outcome (Z * Z) :=
  s ← blanks fuel m s;
  let '(neg, s) := minus m s in
  rs ← decimals fuel m s 0 1 false;
  let '(res, fact, s) := rs in
  rs ← (if m s =? 46 then decimals fuel m (s + 1) res fact true else Ret (res, fact, s));
  let '(res, fact, s) := rs in
  let d_res := d_div (fun _ _ => 0) (d_of_int res) (d_of_int fact) in
  Ret (if neg then d_neg d_res else d_res, s).

(** The digit a character stands for. *)
Definition digit_value (c : Z) : option Z :=
  if (48 <=? c) && (c <=? 57) then Some (c - 48)
  else if (97 <=? c) && (c <=? 102) then Some (10 + (c - 97))
  else if (65 <=? c) && (c <=? 70) then Some (10 + (c - 65))
  else None.

Fixpoint strtol_loop (f : nat) (m : mem) (s base res : Z) : outcome (Z * Z) :=
  match f with
  | O => OutOfFuel
  | S k =>
      match digit_value (m s) with
      | None => Ret (res, s)
      | Some d =>
          if base <=? d then Ret (res, s)
          else res' ← in_long (res * base + d); strtol_loop k m (s + 1) base res'
      end
  end.

(** The base and the start of the digits. *)
Definition strtol_prefix (m : mem) (s base : Z) : Z * Z :=
  let hex := (m (s + 1) =? 120) || (m (s + 1) =? 88) in
  if base =? 0 then
    if m s =? 48 then
      if hex then (16, s + 2)
      else if (m (s + 1) =? 98) || (m (s + 1) =? 66) then (2, s + 2)
      else (8, s)
    else (10, s)
  else if (base =? 16) && (m s =? 48) && hex then (16, s + 2)
  else (base, s).

Definition sage_strtol (m : mem) (s base : Z) : outcome (Z * Z) :=
  s ← blanks fuel m s;
  let '(neg, s) := minus m s in
  let '(base, s) := strtol_prefix m s base in
  rs ← strtol_loop fuel m s base 0;
  Ret (if neg then - rs.1 else rs.1, rs.2).

End parse.

(** ** Exit, clock and stubs *)

(** [sage_exit_flag] and [sage_exit_code]. *)
Record exit_state := ExitState { sage_exit_flag : Z; sage_exit_code : Z }.
Definition exit_initial : exit_state := ExitState 0 0.
Definition sage_exit (code : Z) (st : exit_state) : exit_state := ExitState 1 code.
Definition exit : Z -> exit_state -> exit_state := sage_exit.
Definition abort : exit_state -> exit_state := sage_exit 1.

(** [tv_sec] and [tv_nsec] of [ticks]; -1 with nothing stored for a null
    pointer. *)
Definition clock_gettime (tp ticks : Z) : Z * option (Z * Z) :=
  if tp =? 0 then (-1, None)
  else (0, Some (s64 (ticks / 100), s64 (u64 (ticks mod 100 * 10000000)))).

Definition readlink (path buf bufsiz : Z) : Z := -1.
Definition close (fd : Z) : Z := -1.
Definition write (fd buf count : Z) : Z := -1.
Definition access (path mode : Z) : Z := -1.
Definition unlink (path : Z) : Z := -1.
Definition mkstemp (template : Z) : Z := -1.
Definition mkstemps (template suffixlen : Z) : Z := -1.
Definition fdopen (fd mode : Z) : Z := 0.

(** The names under which other code reaches the allocator and the filesystem. *)
Definition kernel_malloc := Alloc.sage_malloc.
Definition kernel_realloc := Alloc.sage_realloc.
Definition kernel_calloc := Alloc.sage_calloc.
Definition kernel_free := Alloc.sage_free.
Definition kernel_strdup := Alloc.sage_strdup.
Definition sage_arena_reset_shim := Alloc.sage_arena_reset.
Definition sage_arena_used_shim := Alloc.sage_arena_used.
Definition mkdir {W} (br : Vfs.bridge W) (path : list Z) (mode : Z) (s : Vfs.vstate W) :
  outcome (Z * Vfs.vstate W) := Vfs.vfs_mkdir br path s.

(** On the bits of doubles. *)
Definition sage_fmod (x y : Z) : Z := 0.
Definition sage_fabs (x : Z) : Z := Z.land x 0x7FFFFFFFFFFFFFFF.
Definition sage_floor (x : Z) : Z := x.
Definition sage_ceil (x : Z) : Z := x.
Definition sage_pow (b e : Z) : Z := 0.
Definition sage_sqrt (x : Z) : Z := 0.

End Libc.
