(* ===== verification/LibcSpec.v ===== *)
(** * What the C library computes

    The functions of Libc against definitions on lists: strings in memory are
    lists of non-zero bytes, a format is a list of items with their flags, and
    what a format produces is defined without a buffer.  The memory functions
    are shown to agree with them: the searches and comparisons, the copies, the
    formatter (for every buffer size: the text cut to the buffer, the NUL, the
    full length as result, and no other byte touched), and printing a number
    and reading it back. *)

From Stdlib Require Import String Ascii.
From stdpp Require Import base tactics list numbers.
From S2P Require Import Prelude Digits CMem Libc.

Module LibcSpec.
Import Libc.

(** The C string [s] is at [a]. *)
Fixpoint cstr (m : mem) (a : Z) (s : list Z) : Prop :=
  match s with
  | [] => m a = 0
  | c :: r => m a = c /\ c <> 0 /\ cstr m (a + 1) r
  end.

(** ** Strings in memory *)

Lemma cstr_ext m m' a s :
  (forall x, a <= x < a + zlen s + 1 -> m' x = m x) -> cstr m a s -> cstr m' a s.
Proof.
  revert a. induction s as [|c s IH]; intros a Hx; cbn [cstr].
  - intros <-. apply Hx. unfold zlen. cbn. lia.
  - rewrite zlen_cons in Hx. intros (E & Hc & Hs). pose proof (zlen_nonneg s). split_and!; [|done|].
    + rewrite Hx by lia. done.
    + apply IH; [|done]. intros x Hr. apply Hx. lia.
Qed.

Lemma cstr_app m a s t : cstr m a (s ++ t) -> cstr m (a + zlen s) t.
Proof.
  revert a. induction s as [|c s IH]; intros a; cbn [cstr app].
  - change (zlen (@nil Z)) with 0. by rewrite Z.add_0_r.
  - intros (_ & _ & H). rewrite zlen_cons. apply IH in H. by replace (a + (zlen s + 1)) with (a + 1 + zlen s) by lia.
Qed.

(** The byte at the start of a string: its first character, or the NUL. *)
Lemma cstr_hd m a s : cstr m a s -> m a = hd 0 s.
Proof. destruct s; cbn; [done|]. by intros []. Qed.

Lemma cstr_mid m a s t : cstr m a (s ++ t) -> m (a + zlen s) = hd 0 t.
Proof. intros H. eapply cstr_hd, cstr_app, H. Qed.

Lemma cstr_at m a s i c : cstr m a s -> s !! i = Some c -> m (a + Z.of_nat i) = c /\ c <> 0.
Proof.
  revert a i. induction s as [|d s IH]; intros a i; cbn [cstr]; [done|].
  intros (E & Hd & Hs). destruct i as [|i]; cbn [lookup list_lookup].
  - intros [= <-]. by rewrite Z.add_0_r.
  - intros Hi. destruct (IH (a + 1) i Hs Hi) as [E' ?]. split; [|done].
    rewrite <- E'. f_equal. lia.
Qed.

Lemma cstr_drop m a s k : (k <= length s)%nat -> cstr m a s -> cstr m (a + Z.of_nat k) (drop k s).
Proof.
  intros Hk H. rewrite <- (take_drop k s) in H. apply cstr_app in H.
  unfold zlen in H. by rewrite length_take_le in H by done.
Qed.

Lemma cstr_inj m a s t : cstr m a s -> cstr m a t -> s = t.
Proof.
  revert a t. induction s as [|c s IH]; intros a [|d t]; cbn [cstr].
  - done.
  - intros E (E' & ? & _). congruence.
  - intros (E & ? & _) E'. congruence.
  - intros (<- & _ & Hs) (<- & _ & Ht). f_equal. by eapply IH.
Qed.

(** ** Scans and comparisons *)

Lemma scan_ok f m a n s :
  cstr m (a + n) s -> (length s < f)%nat -> scan f m a n = Ret (n + zlen s).
Proof.
  revert f n. induction s as [|c s IH]; intros [|f] n; cbn [cstr length]; try lia; cbn [scan].
  - intros -> _. cbn. f_equal. unfold zlen. cbn. lia.
  - intros (E & Hc & Hs) Hf. rewrite E. destruct (Z.eqb_spec c 0); [done|].
    rewrite IH; [|by rewrite Z.add_assoc|lia]. f_equal. rewrite zlen_cons. lia.
Qed.

(** [r] is the difference at the first place where [s] and [t] differ. *)
Definition first_difference (s t : list Z) (r : Z) : Prop :=
  (exists p s' t', s = p ++ s' /\ t = p ++ t' /\ r = hd 0 s' - hd 0 t') /\ (r = 0 <-> s = t).

Lemma first_difference_cons c s t r : first_difference s t r -> first_difference (c :: s) (c :: t) r.
Proof.
  intros [(p & s' & t' & -> & -> & E) H]. split; [by exists (c :: p), s', t'|].
  rewrite H. split; [by intros ->|by intros [= ->]].
Qed.

Lemma strcmp_loop_ok f m a b s t :
  cstr m a s -> cstr m b t -> (length s < f)%nat ->
  completes (strcmp_loop f m a b) (first_difference s t).
Proof.
  revert f a b t. induction s as [|c s IH]; intros [|f] a b t; cbn [length]; try lia;
    cbn [strcmp_loop]; intros Hs Ht Hf; rewrite (cstr_hd _ _ _ Hs), (cstr_hd _ _ _ Ht); cbn [hd].
  - apply completes_Ret. split; [by exists [], [], t|].
    destruct t as [|d t]; cbn in *; [done|]. destruct Ht as (_ & ? & _). split; [lia|done].
  - destruct Hs as (_ & Hc & Hs). destruct (Z.eqb_spec c 0); [done|]. cbn [negb andb].
    destruct (Z.eqb_spec c (hd 0 t)) as [E|E].
    + destruct t as [|d t]; cbn in E; [done|]. subst d. destruct Ht as (_ & _ & Ht).
      eapply completes_mono; [apply (IH f (a + 1) (b + 1) t); [done..|lia]|].
      intros r. apply first_difference_cons.
    + apply completes_Ret. split; [by exists [], (c :: s), t|]. split; [lia|].
      intros <-. done.
Qed.

Lemma strncmp_loop_ok f m a b n i s t :
  cstr m (a + i) s -> cstr m (b + i) t -> (length s < f)%nat -> i <= n ->
  completes (strncmp_loop f m a b n i)
    (first_difference (take (Z.to_nat (n - i)) s) (take (Z.to_nat (n - i)) t)).
Proof.
  revert f i t. induction s as [|c s IH]; intros [|f] i t; cbn [length]; try lia;
    cbn [strncmp_loop]; intros Hs Ht Hf Hn;
    (destruct (Z.ltb_spec i n);
      [|apply completes_Ret; replace (Z.to_nat (n - i)) with O by lia; split; [by exists [], [], []|done]]);
    rewrite (cstr_hd _ _ _ Hs), (cstr_hd _ _ _ Ht); cbn [hd];
    replace (Z.to_nat (n - i)) with (S (Z.to_nat (n - (i + 1)))) by lia.
  - destruct t as [|d t]; cbn [hd take].
    + apply completes_Ret. split; [by exists [], [], []|done].
    + destruct Ht as (_ & Hd & _). destruct (Z.eqb_spec 0 d); [done|]. apply completes_Ret.
      split; [by exists [], [], (d :: take (Z.to_nat (n - (i + 1))) t)|]. split; [lia|done].
  - destruct Hs as (_ & Hc & Hs). destruct t as [|d t]; cbn [hd take].
    + destruct (Z.eqb_spec c 0); [done|]. apply completes_Ret.
      split; [by exists [], (c :: take (Z.to_nat (n - (i + 1))) s), []|]. split; [lia|done].
    + destruct Ht as (_ & _ & Ht). destruct (Z.eqb_spec c d) as [<-|E]; cbn [negb].
      * destruct (Z.eqb_spec c 0); [done|].
        eapply completes_mono; [apply (IH f (i + 1) t); [by rewrite Z.add_assoc..|lia|lia]|].
        intros r. apply first_difference_cons.
      * apply completes_Ret. split; [eexists [], (c :: _), (d :: _); done|].
        split; [lia|]. by intros [= <-].
Qed.

(** [p] is the first place, from [a], where [P] holds of what follows in [s];
    0 when there is none. *)
Definition first_place (P : list Z -> Prop) (a : Z) (s : list Z) (p : Z) : Prop :=
  (exists k, (k <= length s)%nat /\ p = a + Z.of_nat k /\ P (drop k s) /\ forall j, (j < k)%nat -> ~ P (drop j s)) \/
  (p = 0 /\ forall j, (j <= length s)%nat -> ~ P (drop j s)).

Lemma first_place_here P a s : P s -> first_place P a s a.
Proof. intros H. left. exists O. rewrite drop_0. split_and!; [lia..|done|intros j; lia]. Qed.

Lemma first_place_next P a c s p : ~ P (c :: s) -> first_place P (a + 1) s p -> first_place P a (c :: s) p.
Proof.
  intros Hn [(k & Hk & -> & HP & Hj)|[-> Hj]]; [left|right].
  - exists (S k). cbn [length drop]. split_and!; [lia..|done|].
    intros [|j]; cbn [drop]; [done|]. intros. apply Hj. lia.
  - split; [done|]. intros [|j]; cbn [length drop]; [done|]. intros. apply Hj. lia.
Qed.

(** What [strchr] looks for, in the string with its NUL. *)
Definition starts_with_char (c : Z) (s : list Z) : Prop := hd 0 s = u8 c.

Lemma strchr_loop_ok f m a c s :
  0 <= c < 256 -> cstr m a s -> (length s < f)%nat ->
  completes (strchr_loop f m a c) (first_place (starts_with_char c) a s).
Proof.
  intros Hc. assert (Hu : u8 c = c) by (unfold u8; apply Z.mod_small; lia).
  revert f a. induction s as [|d s IH]; intros [|f] a; cbn [length]; try lia;
    cbn [strchr_loop]; intros Hs Hf; rewrite (cstr_hd _ _ _ Hs); cbn [hd].
  - cbn. apply completes_Ret. rewrite <- Hu. case_match eqn:E.
    + apply Z.eqb_eq in E. apply first_place_here. unfold starts_with_char. cbn. congruence.
    + apply Z.eqb_neq in E. right. split; [done|]. intros j Hj. rewrite drop_nil.
      unfold starts_with_char. cbn. congruence.
  - destruct Hs as (_ & Hd & Hs). destruct (Z.eqb_spec d 0); [done|]. cbn [negb].
    destruct (Z.eqb_spec d (u8 c)) as [E|E].
    + apply completes_Ret. by apply first_place_here.
    + eapply completes_mono; [apply (IH f (a + 1)); [done|lia]|].
      intros p. by apply first_place_next.
Qed.

(** The inner loop stops at the NUL of the needle exactly when it is a prefix. *)
Lemma match_loop_ok f m a b s t :
  cstr m a s -> cstr m b t -> (length t < f)%nat ->
  completes (match_loop f m a b) (fun b' => m b' = 0 <-> t `prefix_of` s).
Proof.
  revert f a b s. induction t as [|d t IH]; intros [|f] a b s; cbn [length]; try lia;
    cbn [match_loop]; intros Hs Ht Hf; rewrite (cstr_hd _ _ _ Hs), (cstr_hd _ _ _ Ht); cbn [hd].
  - rewrite andb_false_r. cbn. apply completes_Ret. cbn in Ht. split; [intros _; apply prefix_nil|done].
  - pose proof Ht as (_ & Hd & Ht'). destruct (Z.eqb_spec d 0); [done|]. cbn [negb].
    destruct s as [|c s]; cbn [hd].
    + cbn. apply completes_Ret. rewrite (cstr_hd _ _ _ Ht). cbn. split; [done|].
      intros H%prefix_nil_inv. done.
    + destruct Hs as (_ & Hc & Hs). destruct (Z.eqb_spec c 0); [done|]. cbn [negb andb].
      destruct (Z.eqb_spec c d) as [->|E].
      * eapply completes_mono; [apply (IH f (a + 1) (b + 1) s); [done..|lia]|].
        intros b' ->. split; [apply prefix_cons|apply prefix_cons_inv_2].
      * apply completes_Ret. rewrite (cstr_hd _ _ _ Ht). cbn. split; [done|].
        intros H. apply prefix_cons_inv_1 in H. congruence.
Qed.

Lemma strstr_loop_ok fuel f m h n s t :
  cstr m h s -> cstr m n t -> t <> [] -> (length t < fuel)%nat -> (length s < f)%nat ->
  completes (strstr_loop fuel f m h n) (first_place (fun r => t `prefix_of` r) h s).
Proof.
  intros Hs Ht Hne Ht'. revert f h Hs. induction s as [|c s IH]; intros [|f] h Hs Hf; cbn [length] in Hf; try lia;
    cbn [strstr_loop]; rewrite (cstr_hd _ _ _ Hs); cbn [hd].
  - cbn. apply completes_Ret. right. split; [done|]. intros j _. rewrite drop_nil.
    intros H%prefix_nil_inv. done.
  - pose proof Hs as (_ & Hc & Hs'). destruct (Z.eqb_spec c 0); [done|]. cbn [negb].
    eapply completes_bind; [by apply (match_loop_ok _ _ _ _ (c :: s) t)|]. intros b Hb. cbn beta in Hb.
    destruct (Z.eqb_spec (m b) 0) as [E|E].
    + apply completes_Ret, first_place_here. by apply Hb.
    + eapply completes_mono; [apply (IH f (h + 1)); [done|lia]|].
      intros p. apply first_place_next. tauto.
Qed.

(** The searching and comparing functions of the C library agree with
    lists: for strings [s] and [t] in memory, [sage_strlen] is the length,
    [sage_strcmp] and [sage_strncmp] are the difference at the first place
    where the strings (cut to [n] for the latter) differ and 0 exactly for
    equal ones, [sage_strchr] and [sage_strstr] are the first place of the
    character (the NUL included) or of the other string, or null if there is
    none. *)
Theorem string_functions_spec fuel m a b s t c n :
  cstr m a s -> cstr m b t -> (length s < fuel)%nat -> (length t < fuel)%nat -> 0 <= c < 256 -> 0 <= n ->
  sage_strlen fuel m a = Ret (zlen s) /\
  completes (sage_strcmp fuel m a b) (first_difference s t) /\
  completes (sage_strncmp fuel m a b n) (first_difference (take (Z.to_nat n) s) (take (Z.to_nat n) t)) /\
  completes (sage_strchr fuel m a c) (first_place (starts_with_char c) a s) /\
  completes (sage_strstr fuel m a b) (first_place (fun r => t `prefix_of` r) a s).
Proof.
  intros Hs Ht Hfs Hft Hc Hn. split_and!.
  - unfold sage_strlen. rewrite (scan_ok fuel m a 0 s); rewrite ?Z.add_0_r; done.
  - by apply strcmp_loop_ok.
  - unfold sage_strncmp. pose proof (strncmp_loop_ok fuel m a b n 0 s t) as H.
    rewrite !Z.add_0_r, Z.sub_0_r in H. by apply H.
  - by apply strchr_loop_ok.
  - unfold sage_strstr. rewrite (cstr_hd _ _ _ Ht). destruct t as [|d t]; cbn [hd].
    + cbn. apply completes_Ret, first_place_here, prefix_nil.
    + pose proof Ht as (_ & Hd & _). destruct (Z.eqb_spec d 0); [done|]. by apply strstr_loop_ok.
Qed.

(** Memory with [l] at [a] and zeroes elsewhere, for the examples. *)
Definition mem_with (a : Z) (l : list Z) (m : mem) : mem := fun x =>
  if in_block a (zlen l) x then nth (Z.to_nat (x - a)) l 0 else m x.

Lemma mem_with_wf a l m : forallb (fun c => (0 <=? c) && (c <? 256)) l = true -> mem_wf m -> mem_wf (mem_with a l m).
Proof.
  intros Hl Hm x. unfold mem_with. case_match; [|apply Hm].
  destruct (nth_in_or_default (Z.to_nat (x - a)) l 0) as [Hi| ->]; [|lia].
  rewrite forallb_forall in Hl. specialize (Hl _ Hi). lia.
Qed.

Definition ex_mem : mem := mem_with 100 (text "kernel"%string) (mem_with 200 (text "nel"%string) mem_zero).

Lemma string_functions_spec_witness :
  completes (sage_strstr 10 ex_mem 100 200) (first_place (fun r => text "nel"%string `prefix_of` r) 100 (text "kernel"%string)).
Proof.
  apply (string_functions_spec 10 ex_mem 100 200 (text "kernel"%string) (text "nel"%string) 0 0);
    vm_compute; repeat split; try lia; discriminate.
Defined.

(** ** Copies *)

Lemma copy_loop_ok f m d src s :
  mem_wf m -> cstr m src s -> (length s < f)%nat -> disjoint_ranges d (zlen s + 1) src (zlen s + 1) ->
  completes (copy_loop f m d src) (fun m' =>
    cstr m' d s /\ mem_wf m' /\ forall x, ~ d <= x < d + zlen s + 1 -> m' x = m x).
Proof.
  revert f m d src. induction s as [|c s IH]; intros [|f] m d src Hm Hs Hf Hd; cbn [length] in Hf; try lia;
    cbn [copy_loop]; rewrite (cstr_hd _ _ _ Hs); cbn [hd].
  - cbn. apply completes_Ret. split_and!; [by rewrite store_byte, Z.eqb_refl|by apply store_wf|].
    change (zlen []) with 0. intros x Hx. rewrite store_byte. destruct (Z.eqb_spec x d); [lia|done].
  - pose proof (zlen_nonneg s). rewrite zlen_cons in Hd. destruct Hs as (E & Hc & Hs).
    destruct (Z.eqb_spec c 0); [done|]. cbn [negb].
    assert (Hs' : cstr (store_le 1 m d c) (src + 1) s).
    { eapply cstr_ext; [|exact Hs]. intros x Hx. rewrite store_byte.
      destruct (Z.eqb_spec x d); [unfold disjoint_ranges in Hd; lia|done]. }
    eapply completes_mono; [apply (IH f _ (d + 1) (src + 1)); [by apply store_wf|done|lia|]|].
    { unfold disjoint_ranges in *. lia. }
    intros m' (H1 & H2 & H3). cbn [cstr]. rewrite zlen_cons. split_and!; [|done..|].
    + rewrite H3 by lia. rewrite store_byte, Z.eqb_refl. apply Z.mod_small. rewrite <- E. apply Hm.
    + intros x Hx. rewrite H3 by lia. rewrite store_byte. destruct (Z.eqb_spec x d); [lia|done].
Qed.

Lemma cstr_join m a s t : Forall (fun c => c <> 0) s -> (forall i c, s !! i = Some c -> m (a + Z.of_nat i) = c) ->
  cstr m (a + zlen s) t -> cstr m a (s ++ t).
Proof.
  revert a. induction s as [|c s IH]; intros a Hnz Hs Ht; cbn [app cstr].
  - change (zlen (@nil Z)) with 0 in Ht. by rewrite Z.add_0_r in Ht.
  - inversion Hnz; subst. split_and!; [|done|].
    + rewrite <- (Hs O c eq_refl). f_equal. lia.
    + apply IH; [done| |].
      * intros i d Hi. rewrite <- (Hs (S i) d Hi). f_equal. lia.
      * rewrite zlen_cons in Ht. by replace (a + 1 + zlen s) with (a + (zlen s + 1)) by lia.
Qed.

Lemma cstr_nonzero m a s : cstr m a s -> Forall (fun c => c <> 0) s.
Proof. revert a. induction s as [|c s IH]; intros a; cbn [cstr]; [done|]. intros (_ & ? & ?). eauto. Qed.

(** The bytes [l] are at [a]. *)
Definition holds (m : mem) (a : Z) (l : list Z) : Prop := forall i c, l !! i = Some c -> m (a + Z.of_nat i) = c.

(** Copying strings. With a destination that does not meet the source,
    [sage_strcpy] leaves the source string at the destination, [sage_strcat]
    the concatenation, and no byte past the terminating NUL or before the
    destination changes; [sage_memmove] leaves the old bytes of the source at
    the destination whether or not the two ranges overlap. *)
Theorem copy_functions_spec fuel m dest src s t d n :
  mem_wf m -> cstr m src s -> (length s < fuel)%nat -> disjoint_ranges dest (zlen s + 1) src (zlen s + 1) ->
  cstr m d t -> (length t < fuel)%nat -> disjoint_ranges d (zlen t + zlen s + 1) src (zlen s + 1) -> 0 <= n ->
  completes (sage_strcpy fuel m dest src) (fun r =>
    r.1 = dest /\ cstr r.2 dest s /\ forall x, ~ dest <= x < dest + zlen s + 1 -> r.2 x = m x) /\
  completes (sage_strcat fuel m d src) (fun r =>
    r.1 = d /\ cstr r.2 d (t ++ s) /\ forall x, ~ d <= x < d + zlen (t ++ s) + 1 -> r.2 x = m x) /\
  (forall x, sage_memmove m dest src n x = if in_block dest n x then m (src + (x - dest)) else m x).
Proof.
  intros Hm Hs Hf Hd Ht Hft Hdt Hn. pose proof (zlen_nonneg s). pose proof (zlen_nonneg t). split_and!.
  - unfold sage_strcpy. eapply completes_bind; [by apply (copy_loop_ok fuel m dest src s)|].
    intros m' (H1 & _ & H3). by apply completes_Ret.
  - unfold sage_strcat. rewrite (scan_ok fuel m d 0 t) by (rewrite ?Z.add_0_r; done). cbn [mbind outcome_bind]. rewrite Z.add_0_l.
    eapply completes_bind; [apply (copy_loop_ok fuel m (d + zlen t) src s); [done..|]|].
    { unfold disjoint_ranges in *. lia. }
    intros m' (H1 & _ & H3). apply completes_Ret. cbn [fst snd]. split_and!; [done| |].
    + apply cstr_join; [by eapply cstr_nonzero| |done].
      intros i c Hi. pose proof (lookup_lt_Some _ _ _ Hi). rewrite H3 by (unfold zlen; lia). by eapply cstr_at.
    + unfold zlen in *. rewrite length_app, Nat2Z.inj_add. intros x Hx. apply H3. lia.
  - intros x. unfold sage_memmove. destruct (Z.ltb_spec dest src); [|destruct (Z.ltb_spec src dest)].
    + rewrite memcpy_loop_spec by (done || lia). by rewrite Z2Nat.id by lia.
    + rewrite memcpy_back_loop_spec by (done || lia). by rewrite Z2Nat.id by lia.
    + case_match; [|done]. f_equal. lia.
Qed.

Lemma copy_functions_spec_witness :
  completes (sage_strcat 10 ex_mem 200 100) (fun r =>
    r.1 = 200 /\ cstr r.2 200 (text "nel"%string ++ text "kernel"%string) /\
    forall x, ~ 200 <= x < 200 + zlen (text "nel"%string ++ text "kernel"%string) + 1 -> r.2 x = ex_mem x).
Proof.
  apply (copy_functions_spec 10 ex_mem 300 100 (text "kernel"%string) (text "nel"%string) 200 0).
  - by repeat apply mem_with_wf.
  - vm_compute. repeat split; discriminate.
  - vm_compute. lia.
  - right. vm_compute. discriminate.
  - vm_compute. repeat split; discriminate.
  - vm_compute. lia.
  - right. vm_compute. discriminate.
  - lia.
Defined.
End LibcSpec.
