(* ===== verification/LibcFormat.v ===== *)
(** * What the formatter produces

    A format as a list of items (plain characters and conversions with their
    zero flag, width, precision, length modifiers and conversion character), the
    text it stands for, defined without a buffer, and the theorem that
    [sage_vsnprintf] of Libc puts that text, cut to the buffer, into memory.
    From it: a number printed with [sage_snprintf] is read back by [sage_atoi]
    and [sage_strtol]. *)

From Stdlib Require Import String Ascii.
From stdpp Require Import base tactics list numbers.
From S2P Require Import Prelude Digits CMem Libc LibcSpec.

Module LibcFormat.
Import Libc LibcSpec.

(** ** Formats and their text *)

(** A width or a precision: none, its decimal digits, or the next argument. *)
Inductive size := Omitted | Given (ds : list Z) | Star.

Inductive conv := Cs | Cd | Cu | Cx | CX | Cp | Cc | Cpercent.

Inductive item :=
| Plain (c : Z)
| Conv (zeros : nat) (width prec : size) (mods : list Z) (k : conv).

(** An argument: a slot read as a number, or a string pointer (null for
    [None]). *)
Inductive arg := Num (slot : Z) | Str (s : option (list Z)).

Definition conv_char (k : conv) : Z :=
  match k with
  | Cs => 115 | Cd => 100 | Cu => 117 | Cx => 120 | CX => 88 | Cp => 112 | Cc => 99 | Cpercent => 37
  end.

Definition ascii_digits (ds : list Z) : list Z := map (Z.add 48) ds.

Definition print_width (w : size) : list Z :=
  match w with Omitted => [] | Given ds => ascii_digits ds | Star => [42] end.

Definition print_prec (p : size) : list Z :=
  match p with Omitted => [] | Given ds => 46 :: ascii_digits ds | Star => [46; 42] end.

Definition print_item (i : item) : list Z :=
  match i with
  | Plain c => [c]
  | Conv zeros w p mods k => 37 :: replicate zeros 48 ++ print_width w ++ print_prec p ++ mods ++ [conv_char k]
  end.

Definition print_items (l : list item) : list Z := concat (map print_item l).

(** The number whose digits follow those of [w]. *)
Definition value_from (w : Z) (ds : list Z) : Z := fold_left (fun w d => w * 10 + d) ds w.

Definition digits_ok (ds : list Z) : Prop := Forall (fun d => 0 <= d < 10) ds /\ value_from 0 ds < 2 ^ 31.

(** A width does not start with 0 (that is the flag). *)
Definition item_ok (i : item) : Prop :=
  match i with
  | Plain c => c <> 37
  | Conv _ w p mods _ =>
      match w with Given ds => digits_ok ds /\ hd 0 ds <> 0 | _ => True end /\
      match p with Given ds => digits_ok ds | _ => True end /\
      Forall (fun c => is_modifier c = true) mods
  end.

Definition take_width (w : size) (args : list arg) : option (Z * list arg) :=
  match w, args with
  | Omitted, _ => Some (0, args)
  | Given ds, _ => Some (value_from 0 ds, args)
  | Star, Num a :: r => if s32 a =? - 2 ^ 31 then None else Some (Z.abs (s32 a), r)
  | Star, _ => None
  end.

(** [None]: no precision, the string is not cut. *)
Definition take_prec (p : size) (args : list arg) : option (option Z * list arg) :=
  match p, args with
  | Omitted, _ => Some (None, args)
  | Given ds, _ => Some (Some (value_from 0 ds), args)
  | Star, Num a :: r => Some (if s32 a <? 0 then None else Some (s32 a), r)
  | Star, _ => None
  end.

Definition pad_left (c w : Z) (l : list Z) : list Z := replicate (Z.to_nat (w - zlen l)) c ++ l.

(** The numeral of [v]: what the digit loop leaves, for a 64-bit value. *)
Definition numeral (base : Z) (upper : bool) (v : Z) : list Z :=
  match digits_of base upper v with Ret l => l | _ => [] end.

(** A sign stands before padding zeroes and after padding blanks. *)
Definition justify (zero : bool) (w : Z) (sign l : list Z) : list Z :=
  if zero then sign ++ pad_left 48 (w - zlen sign) l else pad_left 32 w (sign ++ l).

Definition cut (p : option Z) (s : list Z) : list Z :=
  match p with None => s | Some k => take (Z.to_nat k) s end.

Definition null_string : list Z := text "(null)"%string.

Definition render_conv (k : conv) (zero : bool) (w : Z) (p : option Z) (args : list arg) : option (list Z * list arg) :=
  match k, args with
  | Cpercent, _ => Some ([37], args)
  | Cs, Str o :: r => Some (pad_left 32 w (cut p (default null_string o)), r)
  | Cd, Num a :: r =>
      Some (justify zero w (if s32 a <? 0 then [45] else []) (numeral 10 false (Z.abs (s32 a))), r)
  | Cu, Num a :: r => Some (justify zero w [] (numeral 10 false (u32 a)), r)
  | Cx, Num a :: r => Some (justify zero w [] (numeral 16 false (u32 a)), r)
  | CX, Num a :: r => Some (justify zero w [] (numeral 16 true (u32 a)), r)
  | Cp, Num a :: r => Some (justify true 16 [] (numeral 16 false (u64 a)), r)
  | Cc, Num a :: r => Some ([u8 a], r)
  | _, _ => None
  end.

Definition render_item (i : item) (args : list arg) : option (list Z * list arg) :=
  match i with
  | Plain c => Some ([c], args)
  | Conv zeros w p _ k =>
      wa ← take_width w args;
      pa ← take_prec p wa.2;
      render_conv k (negb (Nat.eqb zeros 0)) wa.1 pa.1 pa.2
  end.

(** The whole text; [None] when the arguments do not fit the format. *)
Fixpoint render (l : list item) (args : list arg) : option (list Z) :=
  match l with
  | [] => Some []
  | i :: r => ta ← render_item i args; t ← render r ta.2; Some (ta.1 ++ t)
  end.

(** ** Reading the format *)

Lemma zlen_map {A B} (f : A -> B) l : zlen (map f l) = zlen l.
Proof. unfold zlen. by rewrite length_map. Qed.

Lemma value_from_le ds w : Forall (fun d => 0 <= d < 10) ds -> 0 <= w -> w <= value_from w ds.
Proof.
  intros H. revert w. induction H as [|d ds Hd _ IH]; intros w Hw; unfold value_from; cbn [fold_left]; [lia|].
  specialize (IH (w * 10 + d)). unfold value_from in IH. lia.
Qed.

Lemma zero_flags_ok f m a k r z :
  cstr m a (replicate k 48 ++ r) -> hd 0 r <> 48 -> (k < f)%nat ->
  zero_flags f m a z = Ret (z || negb (Nat.eqb k 0), a + Z.of_nat k).
Proof.
  revert f a z. induction k as [|k IH]; intros [|f] a z H Hr Hf; try lia; cbn [zero_flags replicate app] in *.
  - rewrite (cstr_hd _ _ _ H). destruct (Z.eqb_spec (hd 0 r) 48); [done|].
    cbn. rewrite orb_false_r. do 2 f_equal. lia.
  - destruct H as (-> & _ & H). rewrite (IH f (a + 1) true) by (done || lia).
    cbn. rewrite orb_true_r. do 2 f_equal. lia.
Qed.

Lemma number_ok f m a ds r w :
  cstr m a (ascii_digits ds ++ r) -> sage_isdigit (hd 0 r) = false -> (length ds < f)%nat ->
  Forall (fun d => 0 <= d < 10) ds -> 0 <= w -> value_from w ds < 2 ^ 31 ->
  number f m a w = Ret (value_from w ds, a + zlen ds).
Proof.
  intros H Hr Hf Hds. revert f a w H Hf. induction Hds as [|d ds Hd Hds IH]; intros [|f] a w H Hf Hw Hv;
    cbn [length] in Hf; try lia; cbn [number ascii_digits map app] in *.
  - rewrite (cstr_hd _ _ _ H), Hr. unfold zlen. cbn. do 2 f_equal. lia.
  - destruct H as (-> & _ & H).
    replace (sage_isdigit (48 + d)) with true by (unfold sage_isdigit; symmetry; apply andb_true_iff; lia).
    change (value_from w (d :: ds)) with (value_from (w * 10 + d) ds) in *.
    pose proof (value_from_le ds (w * 10 + d) Hds).
    replace (48 + d - 48) with d by lia. unfold in_int.
    rewrite (proj2 (Z.leb_le _ _)), (proj2 (Z.ltb_lt _ _)) by lia. cbn [andb mbind outcome_bind].
    rewrite IH by (done || lia). rewrite zlen_cons. do 2 f_equal. lia.
Qed.

Lemma modifiers_ok f m a l r :
  cstr m a (l ++ r) -> is_modifier (hd 0 r) = false -> Forall (fun c => is_modifier c = true) l ->
  (length l < f)%nat -> modifiers f m a = Ret (a + zlen l).
Proof.
  intros H Hr Hl. revert f a H. induction Hl as [|c l Hc _ IH]; intros [|f] a H Hf; cbn [length] in Hf; try lia;
    cbn [modifiers app] in *.
  - rewrite (cstr_hd _ _ _ H), Hr. unfold zlen. cbn. f_equal. lia.
  - destruct H as (-> & _ & H). rewrite Hc, IH by (done || lia). rewrite zlen_cons. f_equal. lia.
Qed.

(** What may follow a width or a precision: neither a digit nor a star. *)
Definition plain_next (c : Z) : Prop := sage_isdigit c = false /\ c <> 42.

Lemma tail_next mods k :
  Forall (fun c => is_modifier c = true) mods ->
  plain_next (hd 0 (mods ++ [conv_char k])) /\ hd 0 (mods ++ [conv_char k]) <> 46.
Proof.
  intros [|c l Hc _]; cbn [app hd].
  - destruct k; repeat split; done.
  - unfold is_modifier in Hc. rewrite !orb_true_iff, !Z.eqb_eq in Hc.
    destruct_or!; subst; repeat split; done.
Qed.

Lemma prec_next p mods k :
  Forall (fun c => is_modifier c = true) mods ->
  plain_next (hd 0 (print_prec p ++ mods ++ [conv_char k])).
Proof. intros H. destruct p; [by apply tail_next|repeat split; done..]. Qed.

(** The digits of a width do not start like a flag, nor like a star. *)
Lemma width_next w r :
  match w with Given ds => digits_ok ds /\ hd 0 ds <> 0 | _ => True end -> plain_next (hd 0 r) ->
  hd 0 (print_width w ++ r) <> 48.
Proof.
  destruct w as [|ds|]; cbn [print_width app]; [|intros [[Hd _] Hh] _|done].
  - intros _ [H _] E. rewrite E in H. done.
  - destruct Hd as [|d ds Hd _]; cbn [hd ascii_digits map app] in *; lia.
Qed.

(** ** The buffer *)
Section buffer.
Context (fuel : nat) (buf n null_text : Z) (m0 : mem).
Context (Hm0 : mem_wf m0).

(** The range meets the buffer nowhere. *)
Definition apart (a len : Z) : Prop := buf = 0 \/ disjoint_ranges buf n a len.

(** Memory after [txt] has been put out: as much of it as fits. *)
Definition filled (txt : list Z) : mem := fun x =>
  if negb (buf =? 0) && in_block buf (Z.min (zlen txt) (n - 1)) x then nth (Z.to_nat (x - buf)) txt 0 else m0 x.

Definition byte (c : Z) : Prop := 0 <= c < 256.

Definition agrees (st : fmt_state) (txt : list Z) : Prop :=
  f_pos st = zlen txt /\ forall x, f_mem st x = filled txt x.

Lemma filled_apart txt a len x : apart a len -> a <= x < a + len -> filled txt x = m0 x.
Proof.
  intros [E|H] Hx; unfold filled; [by rewrite E|]. unfold disjoint_ranges in H.
  rewrite in_block_out by lia. by rewrite andb_false_r.
Qed.

Lemma agrees_cstr st txt a s : agrees st txt -> apart a (zlen s + 1) -> cstr m0 a s -> cstr (f_mem st) a s.
Proof.
  intros [_ Hm] Ha. apply cstr_ext. intros x Hx. rewrite Hm. eapply filled_apart; [done|]. lia.
Qed.

Lemma out_agrees st txt c : byte c -> agrees st txt -> agrees (out buf n c st) (txt ++ [c]).
Proof.
  intros Hc [Hp Hm]. split; cbn [out f_pos f_mem]; [rewrite zlen_app, Hp; unfold zlen; cbn; lia|].
  intros x. rewrite Hp. unfold filled in *. pose proof (zlen_nonneg txt).
  rewrite zlen_app. change (zlen [c]) with 1.
  destruct (Z.eqb_spec buf 0); cbn [negb andb] in *; [apply Hm|].
  destruct (Z.ltb_spec (zlen txt + 1) n).
  - rewrite store_byte, Hm. destruct (Z.eqb_spec x (buf + zlen txt)) as [->|Hx].
    + rewrite in_block_in by lia. rewrite Z.mod_small by done.
      rewrite app_nth2; [|unfold zlen in *; lia].
      replace (Z.to_nat _ - length txt)%nat with O by (unfold zlen in *; lia). done.
    + destruct (in_block buf (Z.min (zlen txt) (n - 1)) x) eqn:E.
      * apply in_block_true in E. rewrite in_block_in by lia.
        rewrite app_nth1; [done|]. unfold zlen in *. lia.
      * apply in_block_false in E. rewrite in_block_out by lia. done.
  - rewrite Hm. destruct (in_block buf (Z.min (zlen txt) (n - 1)) x) eqn:E.
    + apply in_block_true in E. rewrite in_block_in by lia. rewrite app_nth1; [done|]. unfold zlen in *. lia.
    + apply in_block_false in E. rewrite in_block_out by lia. done.
Qed.

Lemma out_all_agrees cs st txt : Forall byte cs -> agrees st txt -> agrees (out_all buf n cs st) (txt ++ cs).
Proof.
  intros H. revert st txt. induction H as [|c cs Hc _ IH]; intros st txt Hst; cbn [out_all].
  - by rewrite app_nil_r.
  - rewrite cons_middle, app_assoc. by apply IH, out_agrees.
Qed.

Lemma out_all_fmt cs st : f_fmt (out_all buf n cs st) = f_fmt st /\ f_args (out_all buf n cs st) = f_args st.
Proof. revert st. induction cs as [|c cs IH]; intros st; cbn [out_all]; [done|]. exact (IH (out buf n c st)). Qed.

Lemma agrees_set a args st txt : agrees st txt -> agrees (set_fmt a args st) txt.
Proof. done. Qed.

(** Copying a string that the buffer does not meet. *)
Lemma out_str_agrees k s i r st txt :
  cstr m0 (s + i) r -> apart (s + i) (zlen r + 1) -> (k <= length r)%nat -> agrees st txt ->
  agrees (out_str buf n k s i st) (txt ++ take k r).
Proof.
  revert i r st txt. induction k as [|k IH]; intros i [|c r] st txt Hs Ha Hk Hst; cbn [length] in Hk; try lia;
    cbn [out_str take]; rewrite ?app_nil_r; try done.
  pose proof (agrees_cstr _ _ _ _ Hst Ha Hs) as (E & _). rewrite E.
  destruct Hs as (E0 & _ & Hs). rewrite cons_middle, app_assoc. apply IH.
  - by replace (s + (i + 1)) with (s + i + 1) by lia.
  - rewrite zlen_cons in Ha. pose proof (zlen_nonneg r).
    destruct Ha as [Eb|Ha]; [by left|right; unfold disjoint_ranges in *; lia].
  - lia.
  - apply out_agrees; [|done]. unfold byte. rewrite <- E0. apply Hm0.
Qed.

Lemma out_str_fmt k s i st :
  f_fmt (out_str buf n k s i st) = f_fmt st /\ f_args (out_str buf n k s i st) = f_args st.
Proof. revert i st. induction k as [|k IH]; intros i st; cbn [out_str]; [done|].
  exact (IH (i + 1) (out buf n (f_mem st (s + i)) st)). Qed.

(** ** Arguments *)

(** The slot that passes an argument. *)
Inductive passes : arg -> Z -> Prop :=
| passes_num a : passes (Num a) a
| passes_null a : u64 a = 0 -> passes (Str None) a
| passes_str a s :
    u64 a <> 0 -> cstr m0 (u64 a) s -> apart (u64 a) (zlen s + 1) ->
    (length s < fuel)%nat -> zlen s < 2 ^ 31 -> passes (Str (Some s)) a.

Lemma s32_bound a : - 2 ^ 31 <= s32 a < 2 ^ 31.
Proof. unfold s32. pose proof (Z.mod_pos_bound (a + 2 ^ 31) (2 ^ 32)). lia. Qed.

Lemma width_of_ok m a w r args slots v args' :
  cstr m a (print_width w ++ r) -> (length (print_width w ++ r) < fuel)%nat ->
  match w with Given ds => digits_ok ds /\ hd 0 ds <> 0 | _ => True end -> plain_next (hd 0 r) ->
  Forall2 passes args slots -> take_width w args = Some (v, args') ->
  completes (width_of fuel m a slots) (fun o =>
    o.1 = (v, a + zlen (print_width w)) /\ Forall2 passes args' o.2).
Proof.
  intros H Hf Hw [Hr Hs] Ha. unfold width_of. rewrite (cstr_hd _ _ _ H). rewrite length_app in Hf.
  destruct w as [|ds|]; cbn [print_width take_width app] in *.
  - intros [= <- <-]. destruct (Z.eqb_spec (hd 0 r) 42); [done|].
    rewrite (number_ok fuel m a [] r 0) by (done || cbn; lia). cbn. apply completes_Ret. done.
  - intros [= <- <-]. destruct Hw as [[Hd Hv] Hh].
    assert (E : hd 0 (ascii_digits ds ++ r) <> 42).
    { destruct Hd as [|d ds Hd _]; cbn in *; lia. }
    destruct (Z.eqb_spec (hd 0 (ascii_digits ds ++ r)) 42); [done|].
    unfold ascii_digits in Hf. rewrite length_map in Hf.
    rewrite (number_ok fuel m a ds r 0) by (done || lia). cbn. apply completes_Ret.
    unfold ascii_digits. by rewrite zlen_map.
  - destruct Ha as [|[b|o] sl args slots Hp Ha]; [done| |done].
    intros E. destruct (Z.eqb_spec (s32 b) (- 2 ^ 31)); [done|]. injection E as <- <-.
    inversion Hp; subst. cbn [hd]. rewrite Z.eqb_refl. cbn [va_slot mbind outcome_bind fst snd].
    pose proof (s32_bound sl). eapply (completes_bind _ _ (fun w => w = Z.abs (s32 sl))).
    + destruct (Z.ltb_spec (s32 sl) 0); [|apply completes_Ret; lia].
      unfold in_int. rewrite (proj2 (Z.leb_le _ _)), (proj2 (Z.ltb_lt _ _)) by lia.
      apply completes_Ret. lia.
    + intros w ->. apply completes_Ret. done.
Qed.

(** A negative precision is none. *)
Definition prec_of (p : Z) : option Z := if p <? 0 then None else Some p.

Lemma precision_of_ok m a p r args slots v args' :
  cstr m a (print_prec p ++ r) -> (length (print_prec p ++ r) < fuel)%nat ->
  match p with Given ds => digits_ok ds | _ => True end -> plain_next (hd 0 r) -> hd 0 r <> 46 ->
  Forall2 passes args slots -> take_prec p args = Some (v, args') ->
  completes (precision_of fuel m a slots) (fun o =>
    prec_of o.1.1 = v /\ o.1.2 = a + zlen (print_prec p) /\ Forall2 passes args' o.2).
Proof.
  intros H Hf Hp [Hr Hs] Hdot Ha. unfold precision_of. rewrite (cstr_hd _ _ _ H). rewrite length_app in Hf.
  destruct p as [|ds|]; cbn [print_prec take_prec app hd] in *.
  - intros [= <- <-]. destruct (Z.eqb_spec (hd 0 r) 46); [done|]. apply completes_Ret. cbn.
    split_and!; [done|unfold zlen; cbn; lia|done].
  - intros [= <- <-]. rewrite Z.eqb_refl. destruct Hp as [Hd Hv]. destruct H as (_ & _ & H).
    rewrite (cstr_hd _ _ _ H).
    assert (E : hd 0 (ascii_digits ds ++ r) <> 42).
    { destruct Hd as [|d ds Hd _]; cbn in *; lia. }
    destruct (Z.eqb_spec (hd 0 (ascii_digits ds ++ r)) 42); [done|].
    unfold ascii_digits in Hf. cbn [length] in Hf. rewrite length_map in Hf.
    pose proof (value_from_le ds 0 Hd).
    rewrite (number_ok fuel m (a + 1) ds r 0) by (done || lia). cbn [mbind outcome_bind fst snd].
    apply completes_Ret. cbn [fst snd]. unfold prec_of. rewrite (proj2 (Z.ltb_ge _ _)) by lia.
    split_and!; [done| |done]. rewrite zlen_cons. unfold ascii_digits. rewrite zlen_map. lia.
  - destruct Ha as [|[b|o] sl args slots Hpa Ha]; [done| |done].
    intros [= <- <-]. inversion Hpa; subst. rewrite Z.eqb_refl.
    destruct H as (_ & _ & H & _). rewrite H. rewrite Z.eqb_refl. cbn [va_slot mbind outcome_bind].
    apply completes_Ret. done.
Qed.

(** ** Conversions *)

Lemma str_len_ok f m s p len r :
  cstr m (s + len) r -> (length r < f)%nat -> 0 <= len -> len + zlen r < 2 ^ 31 -> (p < 0 \/ len <= p) ->
  str_len f m s p len = Ret (len + zlen (if p <? 0 then r else take (Z.to_nat (p - len)) r)).
Proof.
  revert f len. induction r as [|c r IH]; intros [|f] len Hs Hf Hl Hb Hp; cbn [length] in Hf; try lia;
    cbn [str_len]; rewrite (cstr_hd _ _ _ Hs); cbn [hd].
  - cbn [Z.eqb negb andb]. rewrite take_nil. f_equal. case_match; unfold zlen; cbn; lia.
  - destruct Hs as (_ & Hc & Hs). destruct (Z.eqb_spec c 0); [done|]. cbn [negb andb].
    rewrite zlen_cons in Hb. pose proof (zlen_nonneg r).
    destruct (Z.ltb_spec p 0); cbn [orb].
    2: destruct (Z.ltb_spec len p).
    3: { replace (Z.to_nat (p - len)) with O by lia. unfold zlen. cbn. f_equal. lia. }
    all: unfold in_int; rewrite (proj2 (Z.leb_le _ _)), (proj2 (Z.ltb_lt _ _)) by lia;
      cbn [andb mbind outcome_bind]; rewrite IH by (rewrite ?Z.add_assoc; done || lia).
    + rewrite zlen_cons. f_equal. lia.
    + replace (Z.to_nat (p - len)) with (S (Z.to_nat (p - (len + 1)))) by lia.
      cbn [take]. rewrite zlen_cons. f_equal. lia.
Qed.

Lemma numeral_ok base upper v :
  2 <= base <= 16 -> 0 <= v < 2 ^ 64 ->
  digits_of base upper v = Ret (numeral base upper v) /\ Forall byte (numeral base upper v).
Proof.
  intros Hb Hv. unfold numeral.
  assert (C : completes (digits_of base upper v) (Forall byte)).
  { unfold digits_of. eapply completes_bind; [apply digit_loop_64; lia|]. intros ds (_ & Hd & _).
    apply completes_Ret, Forall_map, Forall_rev.
    assert (Forall (fun d => 0 <= d < base) (if v =? 0 then [0] else ds)) as Hall.
    { case_match; [|done]. constructor; [lia|constructor]. }
    eapply Forall_impl; [|exact Hall]. intros d Hd'. cbn beta in Hd'. unfold byte, digit_char. repeat case_match; lia. }
  destruct C as (l & -> & Hl). done.
Qed.

Lemma numeric_justify zero w (neg : bool) ds :
  numeric zero w neg ds = justify zero w (if neg then [45] else []) ds.
Proof.
  unfold numeric, justify, pad_left. rewrite zlen_app.
  destruct neg, zero; cbn [andb]; try change (zlen [45]) with 1; try change (zlen (@nil Z)) with 0;
    match goal with |- context [?a <? ?b] => destruct (Z.ltb_spec a b) end; cbn [app];
    repeat match goal with |- context [replicate (Z.to_nat ?k)] =>
      first [ replace (Z.to_nat k) with O by lia; cbn [replicate app]
            | progress replace k with (w - zlen ds) by lia
            | progress replace k with (w - (zlen ds + 1)) by lia ] end; done.
Qed.

Lemma justify_bytes zero w (neg : bool) ds : Forall byte ds -> Forall byte (justify zero w (if neg then [45] else []) ds).
Proof.
  intros H. assert (R : forall k c, byte c -> Forall byte (replicate k c)) by (intros; by apply Forall_replicate).
  unfold justify, pad_left. destruct zero, neg; cbn [app]; repeat first [apply Forall_app; split | constructor];
    try done; try apply R; unfold byte; lia.
Qed.

Context (Hnull : cstr m0 null_text null_string) (Hapart : apart null_text 7) (Hfuel : (6 < fuel)%nat).

(** A string argument: where it is, and what it holds. *)
Lemma string_arg o a (s := if u64 a =? 0 then null_text else u64 a) (r := default null_string o) :
  passes (Str o) a -> cstr m0 s r /\ apart s (zlen r + 1) /\ (length r < fuel)%nat /\ zlen r < 2 ^ 31.
Proof.
  subst s r. intros H. inversion H as [|? E|? s0 E Hs Ha Hf Hl]; subst.
  - rewrite E. cbn [Z.eqb default]. by split_and!.
  - destruct (Z.eqb_spec (u64 a) 0); [done|]. by split_and!.
Qed.

Lemma conv_s_ok w p o slot rest st txt :
  f_args st = slot :: rest -> passes (Str o) slot -> agrees st txt ->
  completes (conv_s fuel buf n null_text w p st) (fun st' =>
    agrees st' (txt ++ pad_left 32 w (cut (prec_of p) (default null_string o))) /\
    f_fmt st' = f_fmt st /\ f_args st' = rest).
Proof.
  intros Ea Hp Hst. apply string_arg in Hp as (Hs & Ha & Hf & Hl).
  unfold conv_s. rewrite Ea. cbn [va_slot mbind outcome_bind fst snd].
  set (s := if u64 slot =? 0 then null_text else u64 slot) in *. set (r := default null_string o) in *.
  pose proof (agrees_cstr _ _ _ _ Hst Ha Hs) as Hs'. pose proof (zlen_nonneg r).
  rewrite (str_len_ok fuel (f_mem st) s p 0 r) by (rewrite ?Z.add_0_r; done || lia).
  cbn [mbind outcome_bind]. rewrite Z.add_0_l, Z.sub_0_r.
  replace (if p <? 0 then r else take (Z.to_nat p) r) with (cut (prec_of p) r)
    by (unfold prec_of; destruct (p <? 0); done).
  set (t := cut (prec_of p) r).
  assert (Ht : t = take (length t) r /\ (length t <= length r)%nat).
  { unfold t, cut. destruct (prec_of p); [|by rewrite firstn_all].
    rewrite length_take. split; [|lia]. rewrite <- (firstn_all r) at 1. rewrite take_take.
    f_equal; lia. }
  destruct Ht as [Et Hlt]. apply completes_Ret.
  set (pad := replicate (Z.to_nat (if zlen t <? w then w - zlen t else 0)) 32).
  assert (Epad : replicate (Z.to_nat (w - zlen t)) 32 = pad)
    by (unfold pad; f_equal; destruct (Z.ltb_spec (zlen t) w); lia).
  set (st1 := out_all buf n pad (set_fmt (f_fmt st) rest st)).
  destruct (out_str_fmt (Z.to_nat (zlen t)) s 0 st1) as [-> ->].
  destruct (out_all_fmt pad (set_fmt (f_fmt st) rest st)) as [E1 E2]. split_and!; [|done..].
  assert (G : agrees (out_str buf n (length t) s 0 st1) ((txt ++ pad) ++ take (length t) r)).
  { apply out_str_agrees; rewrite ?Z.add_0_r; [done..|].
    apply out_all_agrees; [|done]. apply Forall_replicate. unfold byte. lia. }
  rewrite <- Et, <- app_assoc in G. unfold pad_left. rewrite Epad. unfold zlen at 1. by rewrite Nat2Z.id.
Qed.

(** The value a numeric conversion prints, and its sign. *)
Definition operand (k : conv) (a : Z) : Z * bool :=
  match k with Cd => (Z.abs (s32 a), s32 a <? 0) | Cp => (u64 a, false) | _ => (u32 a, false) end.

Definition base_of (k : conv) : Z := match k with Cx | CX | Cp => 16 | _ => 10 end.

Lemma conv_num_ok k w (zero : bool) a rest st txt :
  k = Cd \/ k = Cu \/ k = Cx \/ k = CX \/ k = Cp ->
  f_args st = a :: rest -> agrees st txt ->
  completes (conv_num buf n (conv_char k) w zero st) (fun st' =>
    agrees st' (txt ++ justify (match k with Cp => true | _ => zero end) (match k with Cp => 16 | _ => w end)
      (if (operand k a).2 then [45] else []) (numeral (base_of k) (match k with CX => true | _ => false end) (operand k a).1)) /\
    f_fmt st' = f_fmt st /\ f_args st' = rest).
Proof.
  intros Hk Ea Hst. unfold conv_num. rewrite Ea. cbn [va_slot mbind outcome_bind fst snd].
  assert (Hs : forall zz ww neg ds, Forall byte ds -> completes
    (Ret (out_all buf n (numeric zz ww neg ds) (set_fmt (f_fmt st) rest st))) (fun st' =>
      agrees st' (txt ++ justify zz ww (if neg then [45] else []) ds) /\ f_fmt st' = f_fmt st /\ f_args st' = rest)).
  { intros zz ww neg ds Hd. apply completes_Ret. rewrite numeric_justify.
    destruct (out_all_fmt (justify zz ww (if neg then [45] else []) ds) (set_fmt (f_fmt st) rest st)) as [-> ->].
    split; [|done]. apply out_all_agrees; [by apply justify_bytes|done]. }
  assert (B32 : 0 <= u32 a < 2 ^ 64) by (unfold u32; pose proof (Z.mod_pos_bound a (2 ^ 32)); lia).
  assert (B64 : 0 <= u64 a < 2 ^ 64) by (unfold u64; pose proof (Z.mod_pos_bound a (2 ^ 64)); lia).
  pose proof (s32_bound a) as Bs.
  destruct_or! Hk; subst k; cbn [conv_char base_of operand fst snd].
  - replace (if 100 =? 100 then magnitude (s32 a) else if 100 =? 112 then (u64 a, false) else (u32 a, false))
      with (Z.abs (s32 a), s32 a <? 0).
    2: { unfold magnitude. cbn. destruct (Z.ltb_spec (s32 a) 0); f_equal; lia. }
    destruct (numeral_ok 10 false (Z.abs (s32 a))) as [E Hb]; [lia..|].
    cbn -[numeric out_all digits_of numeral Z.abs s32 Z.ltb]. rewrite E. by apply Hs.
  - destruct (numeral_ok 10 false (u32 a)) as [E Hb]; [lia..|]. cbn -[numeric out_all digits_of numeral]. rewrite E. by apply (Hs zero w false).
  - destruct (numeral_ok 16 false (u32 a)) as [E Hb]; [lia..|]. cbn -[numeric out_all digits_of numeral]. rewrite E. by apply (Hs zero w false).
  - destruct (numeral_ok 16 true (u32 a)) as [E Hb]; [lia..|]. cbn -[numeric out_all digits_of numeral]. rewrite E. by apply (Hs zero w false).
  - destruct (numeral_ok 16 false (u64 a)) as [E Hb]; [lia..|]. cbn -[numeric out_all digits_of numeral]. rewrite E. by apply (Hs true 16 false).
Qed.

Lemma passes_num_inv a r slots :
  Forall2 passes (Num a :: r) slots -> exists rest, slots = a :: rest /\ Forall2 passes r rest.
Proof. intros H. inversion H as [|? sl ? rest Hp Hr]; subst. inversion Hp; subst. eauto. Qed.

Lemma convert_ok k zero w p args st txt t args' :
  Forall2 passes args (f_args st) -> agrees st txt -> render_conv k zero w (prec_of p) args = Some (t, args') ->
  completes (convert fuel buf n null_text (conv_char k) w p zero st) (fun st' =>
    agrees st' (txt ++ t) /\ f_fmt st' = f_fmt st /\ Forall2 passes args' (f_args st')).
Proof.
  intros Ha Hst Hr.
  assert (Hnum : forall a rest, f_args st = a :: rest -> Forall2 passes args' rest ->
    k = Cd \/ k = Cu \/ k = Cx \/ k = CX \/ k = Cp ->
    t = justify (match k with Cp => true | _ => zero end) (match k with Cp => 16 | _ => w end)
      (if (operand k a).2 then [45] else []) (numeral (base_of k) (match k with CX => true | _ => false end) (operand k a).1) ->
    completes (conv_num buf n (conv_char k) w zero st) (fun st' =>
      agrees st' (txt ++ t) /\ f_fmt st' = f_fmt st /\ Forall2 passes args' (f_args st'))).
  { intros a rest E Hrest Hk ->. eapply completes_mono; [by apply conv_num_ok|]. by intros st' (? & ? & ->). }
  unfold convert. destruct k; cbn [render_conv conv_char] in *; cbn [Z.eqb Pos.eqb orb].
  8: { injection Hr as <- <-. apply completes_Ret. split; [|done]. apply out_agrees; [|done]. unfold byte. lia. }
  all: destruct args as [|[a|o] r]; try discriminate; injection Hr as <- <-.
  1: { remember (f_args st) as sl eqn:E. inversion Ha as [|? slot ? rest Hp Hrest]; subst.
       eapply completes_mono; [by apply (conv_s_ok w p o slot rest)|]. by intros st' (? & ? & ->). }
  all: apply passes_num_inv in Ha as (rest & E & Hrest).
  6: { rewrite E. cbn [va_slot mbind outcome_bind fst snd]. apply completes_Ret. split; [|done].
       apply out_agrees; [|done]. apply (u8_bound a). }
  all: by apply (Hnum a rest E Hrest); [tauto|].
Qed.

(** ** Directives and the whole format *)

Lemma apart_app a (l r : list Z) : apart a (zlen (l ++ r) + 1) -> apart (a + zlen l) (zlen r + 1).
Proof.
  rewrite zlen_app. pose proof (zlen_nonneg l). intros [E|Hd]; [by left|right].
  unfold disjoint_ranges in *. lia.
Qed.

Lemma directive_ok i r args st txt t args' zeros w p mods k :
  i = Conv zeros w p mods k -> item_ok i -> cstr m0 (f_fmt st) (print_item i ++ r) ->
  apart (f_fmt st) (zlen (print_item i ++ r) + 1) -> (length (print_item i ++ r) < fuel)%nat ->
  Forall2 passes args (f_args st) -> agrees st txt -> render_item i args = Some (t, args') ->
  completes (directive fuel buf n null_text st) (fun st' =>
    agrees st' (txt ++ t) /\ f_fmt st' = f_fmt st + zlen (print_item i) /\ Forall2 passes args' (f_args st')).
Proof.
  intros -> (Hw & Hp & Hmods) Hs Hap Hf Ha Hst. cbn [print_item render_item] in *. intros Hr.
  apply bind_Some in Hr as ([wv args1] & Ew & Hr). apply bind_Some in Hr as ([pv args2] & Ep & Hr).
  cbn [fst snd] in *. pose proof (agrees_cstr _ _ _ _ Hst Hap Hs) as Hc.
  unfold directive. cbn [app] in Hc, Hf. destruct Hc as (_ & _ & Hc). cbn [length] in Hf.
  rewrite <- !app_assoc in Hc, Hf. pose proof (prec_next p mods k Hmods) as Hn1.
  pose proof (tail_next mods k Hmods) as [Hn2 Hdot].
  assert (hd_app : forall l x l', hd 0 ((l ++ [x]) ++ l') = hd 0 (l ++ [x])) by (by intros []).
  assert (Hd1 : hd 0 (mods ++ [conv_char k] ++ r) = hd 0 (mods ++ [conv_char k])) by (by rewrite app_assoc, hd_app).
  assert (Hd2 : hd 0 (print_prec p ++ mods ++ [conv_char k] ++ r) = hd 0 (print_prec p ++ mods ++ [conv_char k])).
  { rewrite !(app_assoc _ mods), app_assoc. apply hd_app. }
  rewrite (zero_flags_ok fuel _ _ zeros _ false Hc); [|apply width_next; [done|by rewrite Hd2]|rewrite length_app, length_replicate in Hf; lia].
  apply cstr_app in Hc. rewrite zlen_replicate in Hc. rewrite length_app in Hf.
  cbn [mbind outcome_bind fst snd orb].
  eapply completes_bind; [eapply (width_of_ok _ _ w); [exact Hc|lia|done|by rewrite Hd2|exact Ha|exact Ew]|].
  intros [[wv' a1] slots1] [[= -> ->] Ha1]. apply cstr_app in Hc. rewrite length_app in Hf. cbn [snd] in Ha1.
  eapply completes_bind; [eapply (precision_of_ok _ _ p); [exact Hc|lia|done|by rewrite Hd1|by rewrite Hd1|exact Ha1|exact Ep]|].
  intros [[pz a2] slots2] (Hpz & Ea2 & Ha2). cbn [fst snd] in *. subst a2. apply cstr_app in Hc. rewrite length_app in Hf.
  rewrite (modifiers_ok fuel _ _ mods _ Hc); [|by destruct k|done|rewrite length_app in Hf; lia].
  cbn [mbind outcome_bind]. rewrite (cstr_mid _ _ _ _ Hc). cbn [app hd]. subst pv.
  eapply completes_bind; [eapply (convert_ok k _ wv pz args2 (set_fmt _ slots2 st) txt t args'); [exact Ha2|done|exact Hr]|].
  intros st' (Hst' & _ & Ha'). apply completes_Ret. cbn [set_fmt f_fmt f_args].
  split_and!; [done| |done].
  pose proof (agrees_cstr _ _ _ _ Hst' Hap Hs) as Hc'. cbn [app] in Hc'. destruct Hc' as (_ & _ & Hc').
  rewrite <- !app_assoc in Hc'. do 4 apply cstr_app in Hc'. rewrite zlen_replicate in Hc'.
  rewrite (cstr_hd _ _ _ Hc'). cbn [app hd].
  rewrite (proj2 (Z.eqb_neq (conv_char k) 0)) by (by destruct k).
  rewrite zlen_cons, !zlen_app, zlen_replicate. change (zlen [conv_char k]) with 1. lia.
Qed.

Lemma print_item_length i : (1 <= length (print_item i))%nat.
Proof. destruct i; cbn; lia. Qed.

Lemma format_loop_ok f items args st txt t :
  Forall item_ok items -> cstr m0 (f_fmt st) (print_items items) ->
  apart (f_fmt st) (zlen (print_items items) + 1) -> (length (print_items items) < fuel)%nat ->
  (length (print_items items) < f)%nat ->
  Forall2 passes args (f_args st) -> agrees st txt -> render items args = Some t ->
  completes (format_loop fuel buf n null_text f st) (fun st' => agrees st' (txt ++ t)).
Proof.
  intros Hok. revert f args st txt t.
  induction Hok as [|i items Hi _ IH]; intros [|f] args st txt t Hs Hap Hfu Hf Ha Hst Hr; try lia; cbn [format_loop];
    pose proof (agrees_cstr _ _ _ _ Hst Hap Hs) as Hc; rewrite (cstr_hd _ _ _ Hc).
  - cbn in Hr. injection Hr as <-. rewrite app_nil_r. by apply completes_Ret.
  - change (print_items (i :: items)) with (print_item i ++ print_items items) in *.
    cbn [render] in Hr. apply bind_Some in Hr as ([t1 args1] & E1 & Hr). apply bind_Some in Hr as (t2 & E2 & [= <-]).
    cbn [fst snd] in *. rewrite app_assoc. pose proof (print_item_length i) as Hl. rewrite length_app in Hf.
    assert (next : forall st', agrees st' (txt ++ t1) -> f_fmt st' = f_fmt st + zlen (print_item i) ->
      Forall2 passes args1 (f_args st') ->
      completes (format_loop fuel buf n null_text f st') (fun st' => agrees st' ((txt ++ t1) ++ t2))).
    { intros st' H1 H2 H3. rewrite length_app in Hfu. apply (IH f args1); [..|done|done|done]; try lia.
      - rewrite H2. by apply cstr_app.
      - rewrite H2. by apply apart_app. }
    destruct i as [c|zeros w p mods k].
    + cbn [print_item app hd] in *. cbn [item_ok] in Hi. destruct Hs as (E & Hc0 & Hs).
      rewrite (proj2 (Z.eqb_neq c 0)), (proj2 (Z.eqb_neq c 37)) by done. cbn [negb].
      injection E1 as <- <-. apply next; [|done..].
      apply (agrees_set _ _ (out buf n c st)), out_agrees; [|done]. unfold byte. rewrite <- E. apply Hm0.
    + cbn [print_item app hd Z.eqb Pos.eqb negb]. eapply completes_bind; [by eapply directive_ok|].
      intros st' (H1 & H2 & H3). by apply next.
Qed.
End buffer.

(** The formatter when it returns: as much of the text as fits, and a NUL. *)
Lemma terminate_ok buf n m st t x :
  0 <= n -> (forall y, f_mem st y = filled buf n m t y) -> f_pos st = zlen t ->
  terminate buf n st x =
    if negb (buf =? 0) && in_block buf (Z.min (zlen t + 1) n) x
    then (if x - buf <? Z.min (zlen t) (n - 1) then nth (Z.to_nat (x - buf)) t 0 else 0) else m x.
Proof.
  intros Hn Hm Hp. unfold terminate. rewrite Hp. unfold filled in Hm. pose proof (zlen_nonneg t).
  destruct (Z.eqb_spec buf 0); cbn [negb andb] in *; [apply Hm|].
  destruct (Z.ltb_spec 0 n).
  2: { rewrite Hm. rewrite !in_block_out by lia. done. }
  rewrite store_byte, Hm.
  replace (if zlen t <? n then buf + zlen t else buf + (n - 1)) with (buf + Z.min (zlen t) (n - 1))
    by (destruct (Z.ltb_spec (zlen t) n); lia).
  destruct (Z.eqb_spec x (buf + Z.min (zlen t) (n - 1))) as [->|Hx].
  - rewrite in_block_in by lia. rewrite (proj2 (Z.ltb_ge _ _)) by lia. done.
  - destruct (in_block buf (Z.min (zlen t) (n - 1)) x) eqn:E.
    + apply in_block_true in E. rewrite in_block_in, (proj2 (Z.ltb_lt _ _)) by lia. done.
    + apply in_block_false in E. rewrite in_block_out by lia. done.
Qed.

Lemma vsnprintf_ok fuel buf n null_text m fmt items args slots t :
  mem_wf m -> 0 <= n -> cstr m null_text null_string -> apart buf n null_text 7 -> (6 < fuel)%nat ->
  Forall item_ok items -> cstr m fmt (print_items items) -> apart buf n fmt (zlen (print_items items) + 1) ->
  (length (print_items items) < fuel)%nat -> Forall2 (passes fuel buf n m) args slots ->
  render items args = Some t -> zlen t < 2 ^ 31 ->
  completes (sage_vsnprintf fuel buf n null_text m fmt slots) (fun r =>
    r.1 = zlen t /\
    (buf <> 0 -> 0 < n -> holds r.2 buf (take (Z.to_nat (n - 1)) t ++ [0])) /\
    (forall x, buf = 0 \/ ~ buf <= x < buf + Z.min (zlen t + 1) n -> r.2 x = m x)).
Proof.
  intros Hm Hn Hnull Hna Hfu Hok Hs Hap Hl Ha Hr Ht. unfold sage_vsnprintf.
  assert (Hst : agrees buf n m (FmtState m 0 fmt slots) []).
  { split; [done|]. intros x. unfold filled. change (zlen (@nil Z)) with 0. rewrite in_block_out by lia. by rewrite andb_false_r. }
  eapply completes_bind.
  { eapply (format_loop_ok fuel buf n null_text m Hm Hnull Hna Hfu fuel items args _ [] t); done. }
  intros st [Hp Hmem]. rewrite app_nil_l in *. apply completes_Ret. cbn [fst snd]. pose proof (zlen_nonneg t). split_and!.
  - rewrite Hp. apply s32_small. lia.
  - intros Hb Hn0 i c Hi. rewrite (terminate_ok buf n m st t) by done.
    rewrite (proj2 (Z.eqb_neq buf 0)) by done. pose proof (lookup_lt_Some _ _ _ Hi) as Hlt.
    rewrite length_app, length_take in Hlt. cbn [length] in Hlt. unfold zlen in *.
    rewrite in_block_in by lia. cbn [negb andb]. replace (buf + Z.of_nat i - buf) with (Z.of_nat i) by lia.
    rewrite Nat2Z.id. apply lookup_app_Some in Hi as [Hi|[Hge Hi]].
    + apply lookup_take_Some in Hi as [Hi Hik]. pose proof (lookup_lt_Some _ _ _ Hi).
      rewrite (proj2 (Z.ltb_lt _ _)) by lia. by apply nth_lookup_Some.
    + rewrite length_take in *. rewrite (proj2 (Z.ltb_ge _ _)) by lia.
      apply list_lookup_singleton_Some in Hi as [_ <-]. done.
  - intros x Hx. rewrite (terminate_ok buf n m st t) by done. destruct (Z.eqb_spec buf 0); [done|].
    rewrite in_block_out by lia. done.
Qed.

(** C12: the formatter. For every format made of plain characters and the
    conversions it knows, with flags, widths, precisions and length modifiers,
    and arguments that fit it, [sage_vsnprintf] returns the length of the whole
    text; a buffer of [n] bytes that meets neither the format nor a string
    argument then holds the first [n - 1] bytes of the text and a NUL; no other
    byte of memory changes, and none does for a null buffer. *)
Theorem vsnprintf_spec fuel buf n null_text m fmt items args slots t :
  mem_wf m -> 0 <= n -> cstr m null_text null_string -> apart buf n null_text 7 -> (6 < fuel)%nat ->
  Forall item_ok items -> cstr m fmt (print_items items) -> apart buf n fmt (zlen (print_items items) + 1) ->
  (length (print_items items) < fuel)%nat -> Forall2 (passes fuel buf n m) args slots ->
  render items args = Some t -> zlen t < 2 ^ 31 ->
  completes (sage_vsnprintf fuel buf n null_text m fmt slots) (fun r =>
    r.1 = zlen t /\
    (buf <> 0 -> 0 < n -> holds r.2 buf (take (Z.to_nat (n - 1)) t ++ [0])) /\
    (forall x, buf = 0 \/ ~ buf <= x < buf + Z.min (zlen t + 1) n -> r.2 x = m x)).
Proof. apply vsnprintf_ok. Qed.

(** "n=%05d %s" with -42 and "kernel" into 12 bytes: "n=-0042 ker". *)
Definition ex_items : list item :=
  [Plain 110; Plain 61; Conv 1 (Given [5]) Omitted [] Cd; Plain 32; Conv 0 Omitted Omitted [] Cs].

Definition ex_memory : mem :=
  mem_with 100 (print_items ex_items) (mem_with 200 (text "kernel"%string) (mem_with 300 null_string mem_zero)).

Lemma vsnprintf_spec_witness :
  completes (sage_vsnprintf 20 400 12 300 ex_memory 100 [-42; 200]) (fun r =>
    r.1 = 14 /\
    (400 <> 0 -> 0 < 12 -> holds r.2 400 (text "n=-0042 ker"%string ++ [0])) /\
    (forall x, 400 = 0 \/ ~ 400 <= x < 400 + Z.min 15 12 -> r.2 x = ex_memory x)).
Proof.
  apply (vsnprintf_spec 20 400 12 300 ex_memory 100 ex_items [Num (-42); Str (Some (text "kernel"%string))]
    [-42; 200] (text "n=-0042 kernel"%string)).
  - by repeat apply mem_with_wf.
  - lia.
  - vm_compute. repeat split; discriminate.
  - right. right. lia.
  - lia.
  - unfold ex_items. repeat constructor; vm_compute; congruence.
  - vm_compute. repeat split; discriminate.
  - right. right. vm_compute. discriminate.
  - vm_compute. lia.
  - constructor; [constructor|constructor; [|constructor]]. constructor.
    + vm_compute. discriminate.
    + vm_compute. repeat split; discriminate.
    + right. right. vm_compute. discriminate.
    + vm_compute. lia.
    + vm_compute. reflexivity.
  - vm_compute. reflexivity.
  - vm_compute. reflexivity.
Defined.

(** ** Printing a number and reading it back *)

Definition value_in (base w : Z) (ds : list Z) : Z := fold_left (fun w d => w * base + d) ds w.

Lemma value_in_rev base ds : value_in base 0 (rev ds) = digits_value base ds.
Proof.
  unfold value_in. rewrite <- fold_left_rev_right, rev_involutive.
  induction ds as [|d ds IH]; cbn [fold_right digits_value]; lia.
Qed.

Lemma value_in_le base ds w : 1 <= base -> Forall (fun d => 0 <= d < base) ds -> 0 <= w -> w <= value_in base w ds.
Proof.
  intros Hb H. revert w. induction H as [|d ds Hd _ IH]; intros w Hw; unfold value_in; cbn [fold_left]; [lia|].
  specialize (IH (w * base + d)). unfold value_in in IH. nia.
Qed.

(** The digits behind a numeral. *)
Lemma numeral_digits base upper v :
  10 <= base <= 16 -> 0 <= v < 2 ^ 32 -> exists ds,
    numeral base upper v = map (digit_char upper) ds /\ Forall (fun d => 0 <= d < base) ds /\
    value_in base 0 ds = v /\ (1 <= length ds <= 10)%nat.
Proof.
  intros Hb Hv. unfold numeral, digits_of.
  destruct (digit_loop_64 base v) as (ds & E & Hval & Hd & _ & Hne); [lia..|].
  rewrite E. cbn [mbind outcome_bind]. exists (rev (if v =? 0 then [0] else ds)). split; [done|].
  rewrite value_in_rev, length_rev. destruct (Z.eqb_spec v 0) as [->|Hv0].
  - split_and!; [constructor; [lia|constructor]|cbn; lia|cbn; lia..].
  - split_and!; [by apply Forall_rev|done| |].
    + destruct ds; [by destruct Hne; [lia|]|cbn; lia].
    + eapply (digit_loop_length _ base v); [lia|done|].
      apply Z.lt_le_trans with (10 ^ 10); [lia|]. apply Z.pow_le_mono_l. lia.
Qed.

Lemma digit_char_range upper d : 0 <= d < 16 ->
  48 <= digit_char upper d <= 57 \/ 65 <= digit_char upper d <= 70 \/ 97 <= digit_char upper d <= 102.
Proof. intros. unfold digit_char. repeat case_match; lia. Qed.

Lemma digit_value_char upper d : 0 <= d < 16 -> digit_value (digit_char upper d) = Some d.
Proof.
  intros H. unfold digit_value, digit_char. destruct (Z.ltb_spec d 10), upper;
    repeat first [rewrite (proj2 (Z.leb_le _ _)) by lia | rewrite (proj2 (Z.leb_gt _ _)) by lia];
    cbn [andb]; f_equal; lia.
Qed.

Lemma strtol_loop_ok f m a base upper ds w :
  cstr m a (map (digit_char upper) ds) -> 2 <= base <= 16 -> Forall (fun d => 0 <= d < base) ds ->
  (length ds < f)%nat -> 0 <= w -> value_in base w ds < 2 ^ 63 ->
  strtol_loop f m a base w = Ret (value_in base w ds, a + zlen ds).
Proof.
  intros Hs Hb Hd. revert f a w Hs. induction Hd as [|d ds Hd Hds IH]; intros [|f] a w Hs Hf Hw Hv;
    cbn [length] in Hf; try lia; cbn [strtol_loop map] in *.
  - rewrite (cstr_hd _ _ _ Hs). cbn. do 2 f_equal. unfold zlen. cbn. lia.
  - destruct Hs as (-> & _ & Hs). rewrite digit_value_char by lia. rewrite (proj2 (Z.leb_gt _ _)) by lia.
    change (value_in base w (d :: ds)) with (value_in base (w * base + d) ds) in *.
    pose proof (value_in_le base ds (w * base + d) ltac:(lia) Hds).
    unfold in_long. rewrite (proj2 (Z.leb_le _ _)), (proj2 (Z.ltb_lt _ _)) by nia.
    cbn [andb mbind outcome_bind]. rewrite IH by (done || nia). rewrite zlen_cons. do 2 f_equal. lia.
Qed.

Lemma blanks_none f m a : m a <> 32 -> blanks (S f) m a = Ret a.
Proof. intros H. cbn. by destruct (Z.eqb_spec (m a) 32). Qed.

(** Reading a numeral with an optional sign. *)
Lemma strtol_numeral f m a base upper (neg : bool) v :
  base = 10 \/ base = 16 -> 0 <= v < 2 ^ 32 -> (12 <= f)%nat ->
  cstr m a ((if neg then [45] else []) ++ numeral base upper v) ->
  sage_strtol f m a base =
    Ret (if neg then - v else v, a + zlen ((if neg then [45] else []) ++ numeral base upper v)).
Proof.
  intros Hb Hv Hf Hs. destruct (numeral_digits base upper v) as (ds & En & Hd & Hval & Hlen); [lia..|].
  rewrite En in *. rewrite zlen_app, zlen_map.
  destruct ds as [|d ds]; [cbn in Hlen; lia|]. inversion Hd as [|? ? Hd0 Hds]; subst.
  pose proof (digit_char_range upper d ltac:(lia)) as Hr. unfold sage_strtol. destruct f as [|f]; [lia|].
  assert (Hpre : forall s, cstr m s (map (digit_char upper) (d :: ds)) -> strtol_prefix m s base = (base, s)).
  { intros s Hc. unfold strtol_prefix. rewrite (proj2 (Z.eqb_neq base 0)) by lia.
    cbn [map cstr] in Hc. destruct Hc as (_ & _ & Hc). rewrite (cstr_hd _ _ _ Hc).
    assert (hd 0 (map (digit_char upper) ds) <> 120 /\ hd 0 (map (digit_char upper) ds) <> 88) as [N1 N2].
    { destruct Hds as [|d2 ds2 Hd2 _]; cbn [map hd]; [lia|].
      pose proof (digit_char_range upper d2 ltac:(lia)). lia. }
    rewrite (proj2 (Z.eqb_neq _ 120)), (proj2 (Z.eqb_neq _ 88)) by done. cbn [orb]. by rewrite andb_false_r. }
  rewrite blanks_none by (rewrite (cstr_hd _ _ _ Hs); destruct neg; cbn [hd app map]; lia).
  cbn [mbind outcome_bind]. unfold minus. rewrite (cstr_hd _ _ _ Hs).
  destruct neg; cbn [hd app map] in *.
  - rewrite Z.eqb_refl. destruct Hs as (_ & _ & Hs). rewrite (Hpre _ Hs).
    rewrite (strtol_loop_ok (S f) m (a + 1) base upper (d :: ds)) by (done || lia || (cbn; lia)).
    cbn [mbind outcome_bind fst snd]. do 2 f_equal. change (zlen [45]) with 1. lia.
  - rewrite (proj2 (Z.eqb_neq _ 45)) by lia. rewrite (Hpre _ Hs).
    rewrite (strtol_loop_ok (S f) m a base upper (d :: ds)) by (done || lia || (cbn; lia)).
    cbn [mbind outcome_bind fst snd]. change (zlen (@nil Z)) with 0. do 2 f_equal.
Qed.

Lemma atoi_numeral f m a (neg : bool) v :
  0 <= v < 2 ^ 31 -> (12 <= f)%nat -> cstr m a ((if neg then [45] else []) ++ numeral 10 false v) ->
  sage_atoi f m a = Ret (if neg then - v else v).
Proof.
  intros Hv Hf Hs. destruct (numeral_digits 10 false v) as (ds & En & Hd & Hval & Hlen); [lia..|].
  rewrite En in *.
  assert (Ed : map (digit_char false) ds = ascii_digits ds).
  { apply map_ext_in. intros d Hin. rewrite List.Forall_forall in Hd. apply Hd in Hin.
    unfold digit_char. by rewrite (proj2 (Z.ltb_lt _ _)) by lia. }
  rewrite Ed in *. destruct f as [|f]; [lia|].
  assert (Hn : forall s, cstr m s (ascii_digits ds) -> number (S f) m s 0 = Ret (v, s + zlen ds)).
  { intros s Hc. rewrite <- (app_nil_r (ascii_digits ds)) in Hc.
    rewrite (number_ok (S f) m s ds [] 0 Hc); try done; try lia; [|change (value_from 0 ds) with (value_in 10 0 ds); lia].
    change (value_from 0 ds) with (value_in 10 0 ds). by rewrite Hval. }
  assert (Hh : 48 <= hd 0 (ascii_digits ds)).
  { destruct Hd as [|d ds Hd0 _]; cbn in *; lia. }
  unfold sage_atoi, minus.
  rewrite blanks_none by (rewrite (cstr_hd _ _ _ Hs); destruct neg; cbn [hd app]; lia).
  cbn [mbind outcome_bind]. rewrite (cstr_hd _ _ _ Hs). destruct neg; cbn [hd app] in *.
  - rewrite Z.eqb_refl. destruct Hs as (_ & _ & Hs). rewrite (Hn _ Hs).
    cbn [mbind outcome_bind fst]. f_equal. lia.
  - rewrite (proj2 (Z.eqb_neq _ 45)) by lia. rewrite (Hn _ Hs). cbn [mbind outcome_bind fst]. f_equal. lia.
Qed.

(** The number a conversion stands for. *)
Definition operand_value (k : conv) (a : Z) : Z := let '(v, neg) := operand k a in if neg then - v else v.

Definition just (k : conv) : list item := [Conv 0 Omitted Omitted [] k].

(** A text in the buffer, without a NUL of its own, is a string there. *)
Lemma holds_cstr m a t : Forall (fun c => c <> 0) t -> holds m a (t ++ [0]) -> cstr m a t.
Proof.
  intros Hnz H. rewrite <- (app_nil_r t). apply cstr_join; [done| |].
  - intros i c Hi. apply H. by apply lookup_app_l_Some.
  - cbn. apply (H (length t) 0). by rewrite lookup_app_r, Nat.sub_diag.
Qed.

Lemma numeral_nonzero base upper v :
  10 <= base <= 16 -> 0 <= v < 2 ^ 32 ->
  Forall (fun c => c <> 0) (numeral base upper v) /\ zlen (numeral base upper v) <= 10.
Proof.
  intros Hb Hv. destruct (numeral_digits base upper v Hb Hv) as (ds & -> & Hd & _ & Hl).
  rewrite zlen_map. split; [|unfold zlen; lia]. apply Forall_map. eapply Forall_impl; [|exact Hd].
  intros d Hd0. cbn beta in Hd0. pose proof (digit_char_range upper d ltac:(lia)). lia.
Qed.

(** C22: a number printed with [sage_snprintf] ("%d", "%u", "%x" or "%X") into a
    buffer of at least 12 bytes is read back: [sage_strtol] with the base of the
    conversion returns it and stops at the end of the text, and for "%d"
    [sage_atoi] returns it too, the most negative [int] excepted (its digits
    overflow the accumulator). *)
Theorem number_roundtrip fuel buf n null_text m fmt k a :
  mem_wf m -> 12 <= n -> buf <> 0 -> cstr m null_text null_string -> apart buf n null_text 7 -> (12 <= fuel)%nat ->
  k = Cd \/ k = Cu \/ k = Cx \/ k = CX ->
  cstr m fmt (print_items (just k)) -> apart buf n fmt 3 ->
  completes (sage_snprintf fuel null_text m buf n fmt [a]) (fun r =>
    sage_strtol fuel r.2 buf (base_of k) = Ret (operand_value k a, buf + r.1) /\
    (k = Cd -> s32 a <> - 2 ^ 31 -> sage_atoi fuel r.2 buf = Ret (s32 a))).
Proof.
  intros Hm Hn Hb Hnull Hna Hfu Hk Hs Hap.
  set (up := match k with CX => true | _ => false end). pose proof (s32_bound a) as Bs.
  assert (B32 : 0 <= u32 a < 2 ^ 32) by (unfold u32; apply Z.mod_pos_bound; lia).
  assert (Hv : 0 <= (operand k a).1 < 2 ^ 32) by (destruct_or! Hk; subst k; cbn [operand fst]; lia).
  assert (Hbase : base_of k = 10 \/ base_of k = 16) by (destruct_or! Hk; subst k; cbn; lia).
  set (t := (if (operand k a).2 then [45] else []) ++ numeral (base_of k) up (operand k a).1).
  destruct (numeral_nonzero (base_of k) up (operand k a).1) as [Hnz Hlen]; [lia..|].
  assert (Ht : Forall (fun c => c <> 0) t) by (unfold t; destruct (operand k a).2; [by constructor|done]).
  assert (Htl : zlen t <= 11).
  { unfold t. rewrite zlen_app. destruct (operand k a).2; unfold zlen in *; cbn; lia. }
  assert (Hr : render (just k) [Num a] = Some t).
  { destruct_or! Hk; subst k; unfold t, up, operand, just; cbn -[numeral Z.abs s32 u32 Z.ltb zlen Z.sub];
      unfold justify, pad_left; rewrite app_nil_r;
      match goal with |- context [replicate (Z.to_nat (0 - zlen ?l)) 32] => pose proof (zlen_nonneg l) end;
      match goal with |- context [replicate ?x 32] => replace x with O by lia end; done. }
  eapply completes_mono.
  { apply (vsnprintf_ok fuel buf n null_text m fmt (just k) [Num a] [a] t); try done; try lia.
    - unfold just. repeat constructor.
    - unfold just. cbn. lia.
    - repeat constructor. }
  intros [r m'] (E & Hh & _). cbn [fst snd] in *. specialize (Hh Hb ltac:(lia)).
  rewrite take_ge in Hh by (unfold zlen in Htl; lia).
  pose proof (holds_cstr _ _ _ Ht Hh) as Hc. subst r. split.
  - rewrite (strtol_numeral fuel m' buf (base_of k) up (operand k a).2 (operand k a).1) by (done || lia).
    unfold operand_value. by destruct (operand k a).
  - intros -> Hmin. unfold t, up in Hc. cbn [operand base_of fst snd] in Hc.
    rewrite (atoi_numeral fuel m' buf (s32 a <? 0) (Z.abs (s32 a))) by (done || lia).
    f_equal. destruct (Z.ltb_spec (s32 a) 0); lia.
Qed.

Lemma number_roundtrip_witness :
  completes (sage_snprintf 12 300 (mem_with 100 (print_items (just Cd)) (mem_with 300 null_string mem_zero)) 400 12 100 [-1234567])
    (fun r => sage_strtol 12 r.2 400 10 = Ret (-1234567, 400 + r.1) /\
      (Cd = Cd -> s32 (-1234567) <> - 2 ^ 31 -> sage_atoi 12 r.2 400 = Ret (-1234567))).
Proof.
  apply (number_roundtrip 12 400 12 300 _ 100 Cd (-1234567)).
  - by repeat apply mem_with_wf.
  - lia.
  - lia.
  - vm_compute. repeat split; discriminate.
  - right. right. lia.
  - lia.
  - by left.
  - vm_compute. repeat split; discriminate.
  - right. right. lia.
Defined.

(** [sage_atoi] of the text of the most negative [int] overflows; a 64-bit value
    printed with "%ld" loses its upper half; [sage_strtol] knows no digit past
    [f], whatever the base. *)
Lemma atoi_int_min :
  sage_atoi 20 (mem_with 100 (text "-2147483648"%string) mem_zero) 100 = Fault.
Proof. vm_compute. reflexivity. Qed.

Lemma long_truncated :
  render [Conv 0 Omitted Omitted [108] Cd] [Num (2 ^ 32 + 7)] = Some (text "7"%string).
Proof. vm_compute. reflexivity. Qed.

Lemma strtol_base36 :
  sage_strtol 20 (mem_with 100 (text "zz"%string) mem_zero) 100 36 = Ret (0, 100).
Proof. vm_compute. reflexivity. Qed.

End LibcFormat.
