(* ===== verification/Console.v ===== *)
(** * Console and keyboard

    core/virt_console.c: what each function sends to the serial port, as the
    list of bytes; core/virt_keyboard.c: the decoder of terminal escape
    sequences, a state machine fed with the bytes that arrive; and the key codes
    of shell/sage_shell_entry.c.

    [serial_getc] polls until a byte is there.  The decoder is a function of the
    bytes that have arrived: it either returns with the rest, or is still inside
    [serial_getc] with all of them consumed, and goes on when more arrive. *)

From Stdlib Require Import String Ascii.
From stdpp Require Import base tactics list numbers.
From S2P Require Import Prelude Digits CMem Libc.

Module Console.

(** ** Output *)

Definition console_putc (c : Z) : list Z := if c =? 10 then [13; c] else [c].
Definition console_write (s : list Z) : list Z := concat (map console_putc s).
Definition console_write_n (s : list Z) (n : Z) : outcome (list Z) :=
  if n <=? zlen s then Ret (concat (map console_putc (take (Z.to_nat n) s))) else Fault.

(** The bytes of a text that holds the escape character [~] stands for. *)
Definition esc (s : string) : list Z := map (fun c => if c =? 126 then 27 else c) (Libc.text s).

Definition console_clear : list Z := console_write (esc "~[2J~[H"%string).

(** The digit buffer has [size] bytes. *)
Definition console_decimal (size v : Z) : outcome (list Z) :=
  if v =? 0 then Ret [48]
  else
    ds ← digit_loop digit_fuel 10 v;
    if zlen ds <=? size then Ret (map (Z.add 48) (rev ds)) else Fault.

Definition console_u32 (v : Z) : outcome (list Z) := console_decimal 10 v.
Definition console_u64 (v : Z) : outcome (list Z) := console_decimal 20 v.

Definition console_hex64 (v : Z) : list Z :=
  console_write [48; 120] ++
  map (fun i => Libc.digit_char true (Z.land (Z.shiftr v ((15 - Z.of_nat i) * 4)) 15)) (seq 0 16).

Definition console_serial_redraw_line (line : list Z) (pos : Z) : list Z := [13; 62; 32] ++ console_write line.

(** There is no screen: colours and the cursor are not kept. *)
Definition console_get_fg : Z := 0xFFFFFF.
Definition console_get_bg : Z := 0.
Definition console_get_cursor : Z * Z := (0, 0).
Definition console_has_fb : bool := false.
Definition console_cols : Z := 80.
Definition console_rows : Z := 24.

(** The one piece of state, initially 1. *)
Record console := MkConsole { serial_echo : Z }.
Definition console_initial : console := MkConsole 1.
Definition console_set_serial_echo (enabled : Z) (c : console) : console := MkConsole enabled.
Definition console_get_serial_echo (c : console) : Z := serial_echo c.

(** ** Keyboard *)

Record key_event := KeyEvent { scancode : Z; pressed : Z; extended : Z; ascii : Z }.

Definition set_scancode (v : Z) (e : key_event) : key_event := KeyEvent v (pressed e) (extended e) (ascii e).

(** [pressed], [extended] and [ascii] as assigned, the scan code as it was. *)
Definition set_event (ext c : Z) (e : key_event) : key_event := KeyEvent (scancode e) 1 ext c.

Record keyboard := MkKeyboard { g_esc_state : Z; ev : key_event }.

(** The scan code of the last byte of a three-byte sequence. *)
Definition arrow (c : Z) : option Z :=
  if c =? 65 then Some 0x48 else if c =? 66 then Some 0x50 else if c =? 67 then Some 0x4D
  else if c =? 68 then Some 0x4B else if c =? 72 then Some 0x47 else if c =? 70 then Some 0x4F else None.

(** One byte: whether an event is complete, and the new state. *)
Definition on_char (c : Z) (k : keyboard) : bool * keyboard :=
  let e := ev k in
  if g_esc_state k =? 0 then
    if c =? 27 then (false, MkKeyboard 1 e)
    else (true, MkKeyboard 0 (set_event 0 c (set_scancode 0 e)))
  else if g_esc_state k =? 1 then
    if c =? 91 then (false, MkKeyboard 2 e) else (true, MkKeyboard 0 (set_event 0 c e))
  else if g_esc_state k =? 2 then
    let e' := set_event 1 0 e in
    match arrow c with
    | Some sc => (true, MkKeyboard 0 (set_scancode sc e'))
    | None =>
        if c =? 51 then (false, MkKeyboard 3 e')
        else (true, MkKeyboard 0 (set_event 0 c e'))
    end
  else if g_esc_state k =? 3 then
    if c =? 126 then (true, MkKeyboard 0 (set_scancode 0x53 (set_event 1 0 e)))
    else (true, MkKeyboard 0 (set_event 0 c e))
  else (false, k).

(** The call returned a value, with the bytes not yet read, or is waiting. *)
Inductive waiting := Returned (r : Z) (rest : list Z) | Waiting.

Fixpoint wait_loop (input : list Z) (k : keyboard) : waiting * keyboard :=
  match input with
  | [] => (Waiting, k)
  | c :: rest =>
      let '(complete, k') := on_char c k in
      if complete then (Returned 1 rest, k') else wait_loop rest k'
  end.

(** [null]: the event pointer is null. *)
Definition keyboard_wait_event (null : bool) (input : list Z) (k : keyboard) : waiting * keyboard :=
  if null then (Returned 0 input, k) else wait_loop input k.

Definition serial_avail (input : list Z) : bool := match input with [] => false | _ => true end.

Definition keyboard_poll_any_event (null : bool) (input : list Z) (k : keyboard) : waiting * keyboard :=
  if null then (Returned 0 input, k)
  else if serial_avail input || (0 <? g_esc_state k) then keyboard_wait_event null input k
  else (Returned 0 input, k).

Definition keyboard_backend : list Z := Libc.text "Virt Serial Keyboard"%string.

(** ** Key codes of the shell *)

Definition SAGE_KEY_UP : Z := 1001.
Definition SAGE_KEY_DOWN : Z := 1002.
Definition SAGE_KEY_RIGHT : Z := 1003.
Definition SAGE_KEY_LEFT : Z := 1004.
Definition SAGE_KEY_HOME : Z := 1005.
Definition SAGE_KEY_END : Z := 1006.
Definition SAGE_KEY_DELETE : Z := 1008.

Definition key_event_code (e : key_event) : Z :=
  if pressed e =? 0 then -1
  else if negb (extended e =? 0) then
    if scancode e =? 0x48 then SAGE_KEY_UP
    else if scancode e =? 0x50 then SAGE_KEY_DOWN
    else if scancode e =? 0x4D then SAGE_KEY_RIGHT
    else if scancode e =? 0x4B then SAGE_KEY_LEFT
    else if scancode e =? 0x47 then SAGE_KEY_HOME
    else if scancode e =? 0x4F then SAGE_KEY_END
    else if scancode e =? 0x53 then SAGE_KEY_DELETE
    else -1
  else if negb (ascii e =? 0) then u8 (ascii e) else -1.

(** [bridge_read_char]: wait for events until one has a code.  [fuel] bounds the
    events; one per byte is enough. *)
Fixpoint read_char_loop (fuel : nat) (input : list Z) (k : keyboard) : outcome (option (Z * list Z) * keyboard) :=
  match fuel with
  | O => OutOfFuel
  | S f =>
      match keyboard_wait_event false input k with
      | (Waiting, k') => Ret (None, k')
      | (Returned r rest, k') =>
          if r =? 0 then Ret (Some (-1, rest), k')
          else
            let code := key_event_code (ev k') in
            if 0 <=? code then Ret (Some (code, rest), k') else read_char_loop f rest k'
      end
  end.

Definition bridge_read_char (input : list Z) (k : keyboard) : outcome (option (Z * list Z) * keyboard) :=
  read_char_loop (S (length input)) input k.

(** ** Numbers on the console *)

(** The console prints the decimal digits of any 32- or 64-bit value; its
    buffers of 10 and 20 bytes are large enough. *)
Lemma console_decimal_ok size v :
  (size = 10 /\ 0 <= v < 2 ^ 32) \/ (size = 20 /\ 0 <= v < 2 ^ 64) ->
  console_decimal size v = Libc.digits_of 10 false v.
Proof.
  intros H. unfold console_decimal, Libc.digits_of.
  destruct (digit_loop_64 10 v) as (ds & E & Hval & Hd & _ & Hne); [lia..|].
  rewrite E. cbn [mbind outcome_bind]. destruct (Z.eqb_spec v 0) as [->|Hv]; [done|].
  assert (Hl : zlen ds <= size).
  { unfold zlen. destruct H as [[-> Hb]|[-> Hb]].
    - pose proof (digit_loop_length digit_fuel 10 v ds 10 ltac:(lia) E ltac:(lia)). lia.
    - pose proof (digit_loop_length digit_fuel 10 v ds 20 ltac:(lia) E ltac:(lia)). lia. }
  rewrite (proj2 (Z.leb_le _ _)) by done. f_equal. apply map_ext_in. intros d Hin.
  apply in_rev in Hin. rewrite List.Forall_forall in Hd. apply Hd in Hin.
  unfold Libc.digit_char. by rewrite (proj2 (Z.ltb_lt _ _)) by lia.
Qed.

(** ** Decoding keys *)

Inductive key := Char (c : Z) | Up | Down | Right | Left | Home | End | Delete.

(** What a terminal sends for a key. *)
Definition sequence (k : key) : list Z :=
  match k with
  | Char c => [c]
  | Up => [27; 91; 65] | Down => [27; 91; 66] | Right => [27; 91; 67] | Left => [27; 91; 68]
  | Home => [27; 91; 72] | End => [27; 91; 70] | Delete => [27; 91; 51; 126]
  end.

Definition key_scancode (k : key) : Z :=
  match k with
  | Char _ => 0 | Up => 0x48 | Down => 0x50 | Right => 0x4D | Left => 0x4B
  | Home => 0x47 | End => 0x4F | Delete => 0x53
  end.

Definition event_of (k : key) : key_event :=
  match k with
  | Char c => KeyEvent 0 1 0 c
  | _ => KeyEvent (key_scancode k) 1 1 0
  end.

Definition code_of (k : key) : Z :=
  match k with
  | Char c => c
  | Up => 1001 | Down => 1002 | Right => 1003 | Left => 1004 | Home => 1005 | End => 1006 | Delete => 1008
  end.

Definition key_ok (k : key) : Prop := match k with Char c => 0 < c < 256 /\ c <> 27 | _ => True end.

Lemma wait_key k rest s :
  key_ok k -> g_esc_state s = 0 ->
  wait_loop (sequence k ++ rest) s = (Returned 1 rest, MkKeyboard 0 (event_of k)).
Proof.
  destruct s as [es e]. cbn [g_esc_state]. intros Hk ->. destruct k as [c| | | | | | |]; try reflexivity.
  destruct Hk as [_ Hc]. cbn. by rewrite (proj2 (Z.eqb_neq c 27) Hc).
Qed.

Lemma key_code k : key_ok k -> key_event_code (event_of k) = code_of k /\ 0 <= code_of k.
Proof.
  destruct k as [c| | | | | | |]; intros Hk; try (split; [reflexivity|cbn; lia]).
  destruct Hk as [Hc _]. unfold key_event_code. cbn. rewrite (proj2 (Z.eqb_neq c 0)) by lia. cbn.
  unfold u8. rewrite Z.mod_small by lia. lia.
Qed.

(** The codes of all keys whose bytes have arrived, by repeated calls; the
    decoder then waits. *)
Fixpoint read_keys (fuel : nat) (input : list Z) (k : keyboard) : outcome (list Z * keyboard) :=
  match fuel with
  | O => OutOfFuel
  | S f =>
      r ← bridge_read_char input k;
      match r with
      | (None, k') => Ret ([], k')
      | (Some (code, rest), k') => t ← read_keys f rest k'; Ret (code :: t.1, t.2)
      end
  end.

(** Keys survive the serial line: reading the byte sequences that a terminal
    sends for any list of keys (characters other than escape and NUL, arrows,
    Home, End, Delete) yields exactly their codes in order, whatever event was
    decoded before, consumes every byte, and leaves the decoder in its initial
    state. *)
Theorem keys_roundtrip ks s :
  Forall key_ok ks -> g_esc_state s = 0 ->
  completes (read_keys (S (length ks)) (concat (map sequence ks)) s) (fun r =>
    r.1 = map code_of ks /\ g_esc_state r.2 = 0).
Proof.
  intros H. revert s. induction H as [|k ks Hk _ IH]; intros s Hs.
  - cbn. apply completes_Ret. done.
  - cbn [length map concat]. destruct (key_code k Hk) as [Hc Hp].
    unfold read_keys; fold read_keys. unfold bridge_read_char. cbn [read_char_loop keyboard_wait_event].
    rewrite (wait_key k (concat (map sequence ks)) s Hk Hs). cbn [Z.eqb ev mbind outcome_bind].
    rewrite Hc, (proj2 (Z.leb_le _ _)) by done. cbn [mbind outcome_bind].
    eapply completes_bind; [by apply (IH (MkKeyboard 0 (event_of k)))|].
    intros t [E1 E2]. apply completes_Ret. cbn [fst snd]. by rewrite E1.
Qed.

Lemma keys_roundtrip_witness :
  completes (read_keys 5 (concat (map sequence [Char 108; Up; Delete; Char 13])) (MkKeyboard 0 (KeyEvent 9 0 1 7)))
    (fun r => r.1 = [108; 1001; 1008; 13] /\ g_esc_state r.2 = 0).
Proof.
  apply (keys_roundtrip [Char 108; Up; Delete; Char 13] (MkKeyboard 0 (KeyEvent 9 0 1 7))); [|reflexivity].
  repeat constructor; cbn; lia.
Defined.

(** A lone escape is not delivered: the call that read it goes on waiting, and
    so does [keyboard_poll_any_event], which is meant not to block, while no
    byte is there. *)
Lemma poll_blocks_after_escape e :
  keyboard_wait_event false [27] (MkKeyboard 0 e) = (Waiting, MkKeyboard 1 e) /\
  keyboard_poll_any_event false [] (MkKeyboard 1 e) = (Waiting, MkKeyboard 1 e).
Proof. done. Qed.

End Console.
