(* ===== verification/TextBuf.v ===== *)
(** * Text in a character array

    The line editor of the shell and the nano editor keep a text in a character
    array, with a NUL after it, and edit it in place with [memmove] and single
    stores.  This file has those accesses with their bounds and what they do to
    the text. *)

From stdpp Require Import base tactics list numbers.
From S2P Require Import Prelude.

Module TextBuf.

(** [memmove(l + dst, l + src, n)] inside one array. *)
Definition move (l : list Z) (dst src n : Z) : outcome (list Z) :=
  if (0 <=? n) && (0 <=? dst) && (dst + n <=? zlen l) && (0 <=? src) && (src + n <=? zlen l)
  then Ret (take (Z.to_nat dst) l ++ take (Z.to_nat n) (drop (Z.to_nat src) l) ++ drop (Z.to_nat (dst + n)) l)
  else Fault.

(** [for (k = 0; k < |cs|; k++) l[i + k] = cs[k]] *)
Fixpoint put_all (l : list Z) (i : Z) (cs : list Z) : outcome (list Z) :=
  match cs with
  | [] => Ret l
  | c :: r => l' ← wr l i c; put_all l' (i + 1) r
  end.

(** [memcpy] out of one array: [n] bytes from [src]. *)
Definition copy_out (l : list Z) (src n : Z) : outcome (list Z) :=
  if (0 <=? n) && (0 <=? src) && (src + n <=? zlen l) then Ret (take (Z.to_nat n) (drop (Z.to_nat src) l)) else Fault.

(** The C string in an array. *)
Fixpoint c_string (l : list Z) : outcome (list Z) :=
  match l with
  | [] => Fault
  | c :: r => if c =? 0 then Ret [] else s ← c_string r; Ret (c :: s)
  end.

(** The array holds the text [t] and a NUL. *)
Definition text_in (l t : list Z) : Prop := exists junk, l = t ++ 0 :: junk.

Lemma text_in_length l t : text_in l t -> zlen t < zlen l.
Proof. intros [junk ->]. rewrite zlen_app, zlen_cons. pose proof (zlen_nonneg junk). lia. Qed.

Lemma c_string_ok l t : text_in l t -> Forall (fun c => c <> 0) t -> c_string l = Ret t.
Proof.
  intros [junk ->] H. induction H as [|c t Hc _ IH]; [done|]. cbn [app c_string].
  rewrite (proj2 (Z.eqb_neq c 0)) by done. by rewrite IH.
Qed.

Lemma nat_zlen {A} (l : list A) : Z.to_nat (zlen l) = length l.
Proof. unfold zlen. lia. Qed.

Lemma wr_app (a : list Z) x b c : wr (a ++ x :: b) (zlen a) c = Ret (a ++ c :: b).
Proof.
  unfold wr. pose proof (zlen_nonneg a). pose proof (zlen_nonneg b).
  rewrite zlen_app, zlen_cons. rewrite (proj2 (Z.leb_le _ _)), (proj2 (Z.ltb_lt _ _)) by lia.
  cbn [andb]. unfold zset. rewrite (proj2 (Z.leb_le _ _)), nat_zlen by lia.
  rewrite insert_app_r_alt by lia. by rewrite Nat.sub_diag.
Qed.

Lemma rd_app (a : list Z) x b : rd (a ++ x :: b) (zlen a) = Ret x.
Proof.
  unfold rd, zget. pose proof (zlen_nonneg a). rewrite (proj2 (Z.leb_le _ _)), nat_zlen by lia.
  by rewrite lookup_app_r, Nat.sub_diag by lia.
Qed.

Lemma put_all_app a old cs b :
  length old = length cs -> put_all (a ++ old ++ b) (zlen a) cs = Ret (a ++ cs ++ b).
Proof.
  revert a old. induction cs as [|c cs IH]; intros a [|o old] H; cbn [length] in H; try lia; [done|].
  cbn [put_all app]. rewrite wr_app. cbn [mbind outcome_bind].
  replace (zlen a + 1) with (zlen (a ++ [c])) by (rewrite zlen_app; unfold zlen; cbn; lia).
  rewrite cons_middle, app_assoc, IH by lia. by rewrite <- app_assoc.
Qed.

(** The accesses on a text. *)
Lemma move_app a (m : list Z) b (src n : Z) x y z :
  a ++ m ++ b = x ++ y ++ z -> length m = length y -> zlen x = src -> zlen y = n ->
  move (a ++ m ++ b) (zlen a) src n = Ret (a ++ y ++ b).
Proof.
  intros E Hl <- <-. unfold move. pose proof (zlen_nonneg a). pose proof (zlen_nonneg b).
  pose proof (zlen_nonneg x). pose proof (zlen_nonneg y). pose proof (zlen_nonneg z).
  assert (Hm : zlen m = zlen y) by (unfold zlen; lia).
  assert (L1 : zlen (a ++ m ++ b) = zlen a + zlen y + zlen b) by (rewrite !zlen_app; lia).
  assert (L2 : zlen (a ++ m ++ b) = zlen x + zlen y + zlen z) by (rewrite E, !zlen_app; lia).
  rewrite (proj2 (Z.leb_le 0 (zlen y))), (proj2 (Z.leb_le 0 (zlen a))), (proj2 (Z.leb_le (zlen a + _) _)),
    (proj2 (Z.leb_le 0 (zlen x))), (proj2 (Z.leb_le (zlen x + _) _)) by lia.
  cbn [andb]. f_equal. rewrite !nat_zlen. f_equal; [by rewrite take_app_length|]. f_equal.
  - rewrite E. rewrite drop_app_length. by rewrite take_app_length.
  - replace (Z.to_nat (zlen a + zlen y)) with (length (a ++ m)) by (rewrite length_app; unfold zlen; lia).
    by rewrite app_assoc, drop_app_length.
Qed.

(** Making room for [k] characters before [b]: what is there is overwritten
    next. *)
Lemma move_right l a b k :
  text_in l (a ++ b) -> 0 <= k -> zlen (a ++ b) + k < zlen l ->
  exists gap junk, zlen gap = k /\ zlen (a ++ gap ++ b ++ 0 :: junk) = zlen l /\
    move l (zlen a + k) (zlen a) (zlen b + 1) = Ret (a ++ gap ++ b ++ 0 :: junk).
Proof.
  intros [junk ->] Hk Hl. set (w := b ++ 0 :: junk).
  assert (Hw : (Z.to_nat k + length b + 1 <= length w)%nat).
  { unfold w. rewrite length_app. cbn [length]. unfold zlen in Hl. rewrite !length_app in Hl. cbn [length] in Hl. lia. }
  exists (take (Z.to_nat k) w), (drop (Z.to_nat k + length b + 1) w).
  assert (Hg : zlen (take (Z.to_nat k) w) = k) by (unfold zlen; rewrite length_take; lia).
  assert (E1 : (a ++ b) ++ 0 :: junk = (a ++ take (Z.to_nat k) w) ++ take (length b + 1) (drop (Z.to_nat k) w) ++ drop (Z.to_nat k + length b + 1) w).
  { rewrite <- !app_assoc. f_equal. unfold w. rewrite <- (Nat.add_assoc _ (length b)), <- drop_drop, take_drop, take_drop. done. }
  split_and!; [done| |].
  - rewrite !zlen_app, zlen_cons, Hg. unfold zlen. rewrite length_drop. unfold w. rewrite !length_app. cbn [length].
    unfold w in Hw. rewrite length_app in Hw. cbn [length] in Hw. lia.
  - rewrite E1. replace (zlen a + k) with (zlen (a ++ take (Z.to_nat k) w)) by (rewrite zlen_app; lia).
    rewrite (move_app _ _ _ (zlen a) (zlen b + 1) a (b ++ [0]) junk).
    + f_equal. rewrite <- !app_assoc. done.
    + rewrite <- E1, <- !app_assoc. done.
    + rewrite length_take, length_drop, length_app. cbn [length]. lia.
    + done.
    + rewrite zlen_app. done.
Qed.

(** Closing the gap that [d] leaves. *)
Lemma move_left l a d b :
  text_in l (a ++ d ++ b) ->
  exists l', move l (zlen a) (zlen a + zlen d) (zlen b + 1) = Ret l' /\ text_in l' (a ++ b) /\ zlen l' = zlen l.
Proof.
  intros [junk ->]. set (w := d ++ b ++ 0 :: junk).
  assert (Hw : (length b + 1 <= length w)%nat) by (unfold w; rewrite !length_app; cbn; lia).
  assert (E : (a ++ d ++ b) ++ 0 :: junk = a ++ take (length b + 1) w ++ drop (length b + 1) w).
  { rewrite take_drop. unfold w. by rewrite <- !app_assoc. }
  exists (a ++ (b ++ [0]) ++ drop (length b + 1) w). split_and!.
  - rewrite E. apply (move_app _ _ _ _ _ (a ++ d) (b ++ [0]) junk).
    + rewrite <- E, <- !app_assoc. done.
    + rewrite length_take, length_app. cbn [length]. lia.
    + by rewrite zlen_app.
    + by rewrite zlen_app.
  - exists (drop (length b + 1) w). by rewrite <- !app_assoc.
  - rewrite E, !zlen_app. change (zlen [0]) with 1. unfold zlen. rewrite length_take. lia.
Qed.

(** Insertion: make room, then store. *)
Lemma insert_text l a b cs :
  text_in l (a ++ b) -> zlen (a ++ b) + zlen cs < zlen l ->
  completes (l1 ← move l (zlen a + zlen cs) (zlen a) (zlen b + 1); put_all l1 (zlen a) cs) (fun l' =>
    text_in l' (a ++ cs ++ b) /\ zlen l' = zlen l).
Proof.
  intros Ht Hl. destruct (move_right l a b (zlen cs) Ht) as (gap & junk & Hg & Hlen & ->); [apply zlen_nonneg|done|].
  cbn [mbind outcome_bind]. rewrite put_all_app by (unfold zlen in Hg; lia). apply completes_Ret. split.
  - exists junk. by rewrite <- !app_assoc.
  - rewrite <- Hlen, !zlen_app. lia.
Qed.

(** A NUL in the middle ends the text there. *)
Lemma cut_text l a b : text_in l (a ++ b) -> completes (wr l (zlen a) 0) (fun l' => text_in l' a /\ zlen l' = zlen l).
Proof.
  intros [junk ->]. rewrite <- app_assoc. destruct (b ++ 0 :: junk) as [|x r] eqn:E; [by destruct b|].
  rewrite wr_app. apply completes_Ret. split; [by exists r|]. by rewrite !zlen_app, !zlen_cons.
Qed.

(** Storing a whole text at the start. *)
Lemma put_text l t : zlen t < zlen l -> completes (put_all l 0 (t ++ [0])) (fun l' => text_in l' t /\ zlen l' = zlen l).
Proof.
  intros H. unfold zlen in H.
  pose proof (put_all_app [] (take (length (t ++ [0])) l) (t ++ [0]) (drop (length (t ++ [0])) l)) as E.
  cbn [app] in E. rewrite take_drop in E. change (zlen (@nil Z)) with 0 in E.
  rewrite E by (rewrite length_take, length_app; cbn; lia). apply completes_Ret. split; [exists (drop (length (t ++ [0])) l); by rewrite <- app_assoc|].
  rewrite zlen_app. unfold zlen. rewrite length_drop, length_app. cbn [length]. lia.
Qed.

Lemma rd_text l a c b : text_in l (a ++ c :: b) -> rd l (zlen a) = Ret c.
Proof. intros [junk ->]. rewrite <- app_assoc. apply rd_app. Qed.

Lemma copy_out_text l a d b : text_in l (a ++ d ++ b) -> copy_out l (zlen a) (zlen d) = Ret d.
Proof.
  intros [junk ->]. unfold copy_out. pose proof (zlen_nonneg a). pose proof (zlen_nonneg d).
  pose proof (zlen_nonneg b). pose proof (zlen_nonneg junk).
  rewrite <- !app_assoc, !zlen_app, zlen_cons.
  rewrite (proj2 (Z.leb_le 0 (zlen d))), (proj2 (Z.leb_le 0 (zlen a))) by lia.
  rewrite (proj2 (Z.leb_le (zlen a + zlen d) (zlen a + (zlen d + (zlen b + (zlen junk + 1)))))) by lia.
  cbn [andb]. rewrite !nat_zlen. by rewrite drop_app_length, take_app_length.
Qed.

End TextBuf.
