(* ===== verification/LineEdit.v ===== *)
(** * The line editor of the shell

    shell/shell.c: command history, completion and the key handler of
    [shell_run].  The line is a character array of 160 bytes edited in place
    with a cursor; history is a ring of 16 such arrays.  Every access is checked
    against its array.

    What the handler prints is kept in [e_out].  The console of this kernel has
    no screen: the cursor is always reported at row 0, column 0, and setting it
    does nothing (Console).  Executing a line is a parameter of the handler;
    Shell has the command interpreter. *)

From Stdlib Require Import String Ascii.
From stdpp Require Import base tactics list numbers.
From S2P Require Import Prelude Digits CMem Libc Console TextBuf.

Module LineEdit.
Import TextBuf Console.

Definition SHELL_LINE_MAX : Z := 160.
Definition SHELL_HISTORY_SIZE : Z := 16.

Definition txt : string -> list Z := Libc.text.

Definition shell_commands : list (list Z) := map txt
  ["about"; "acpi"; "acpi battery"; "acpi fadt"; "acpi lid"; "acpi madt";
   "acpi tables"; "battery"; "bmesg"; "btop"; "cat"; "clear"; "color"; "cp"; "curl"; "dmesg"; "echo";
   "execelf"; "exit"; "fb"; "halt"; "help"; "hexdump"; "history"; "input"; "install"; "ipconfig";
   "keydebug"; "ls"; "mkdir"; "nano"; "neofetch"; "net"; "net selftest";
   "pci"; "poweroff"; "pwd"; "q"; "reboot"; "rm"; "sage"; "sagepkg";
   "sched"; "sageshell"; "sdhci"; "sh"; "shutdown"; "smp"; "smp start"; "source"; "stat";
   "status"; "stop"; "suspend"; "swap"; "sysinfo"; "timer"; "touch"; "uname"; "version";
   "wifi"; "write"]%string.

(** Strings without their NUL. *)
Fixpoint streq (a b : list Z) : bool :=
  match a, b with
  | [], [] => true
  | x :: a', y :: b' => (x =? y) && streq a' b'
  | _, _ => false
  end.

Fixpoint starts_with (text prefix : list Z) : bool :=
  match prefix, text with
  | [], _ => true
  | _ :: _, [] => false
  | p :: prefix', t :: text' => (t =? p) && starts_with text' prefix'
  end.

(** ** Completion *)

Definition shell_completion_count (prefix : list Z) : Z :=
  zlen (filter (fun c => starts_with c prefix = true) shell_commands).

Fixpoint completion_at (cmds : list (list Z)) (prefix : list Z) (index : Z) : list Z :=
  match cmds with
  | [] => []
  | c :: r =>
      if starts_with c prefix then (if index =? 0 then c else completion_at r prefix (index - 1))
      else completion_at r prefix index
  end.

Definition shell_completion_at : list Z -> Z -> list Z := completion_at shell_commands.

(** [while (j < len && a[j] && b[j] == a[j]) j++]: the part of [a] that [b]
    starts with. *)
Fixpoint common_part (a b : list Z) : list Z :=
  match a, b with
  | x :: a', y :: b' => if y =? x then x :: common_part a' b' else []
  | _, _ => []
  end.

Definition shell_completion_common_prefix (prefix : list Z) : list Z :=
  match shell_completion_at prefix 0 with
  | [] => []
  | first =>
      fold_left (fun common cand => if starts_with cand prefix then common_part common cand else common)
        shell_commands (take (Z.to_nat (SHELL_LINE_MAX - 1)) first)
  end.

Definition shell_suggestion (line : list Z) : list Z :=
  match line with
  | [] => []
  | _ =>
      if shell_completion_count line <=? 0 then []
      else let m := shell_completion_at line 0 in if streq m line then [] else m
  end.

Definition list_matches (prefix : list Z) : list Z :=
  concat (map (fun c => if starts_with c prefix then console_write c ++ [32; 32] else []) shell_commands).

Definition shell_print_completions (prefix : list Z) : list Z :=
  console_write [10] ++ list_matches prefix ++
  (if shell_completion_count prefix =? 0 then txt "(no completions)"%string else []).

(** ** History *)

Record history := History {
  h_rows : list (list Z); h_count : Z; h_head : Z; h_nav : Z }.

Definition history_initial : history := History (replicate 16 (replicate 160 0)) 0 0 (-1).

Definition set_nav (n : Z) (h : history) : history := History (h_rows h) (h_count h) (h_head h) n.

Definition history_physical_index (h : history) (logical : Z) : Z :=
  Z.rem (h_head h - 1 - logical + SHELL_HISTORY_SIZE * 2) SHELL_HISTORY_SIZE.

(** [while (i <= len && i < 160) { if (row[i] != line[i]) break; i++; }], over
    the [len + 1] bytes of the line that are left. *)
Fixpoint same_prefix (row line : list Z) (i : Z) : outcome Z :=
  match line with
  | [] => Ret i
  | c :: r =>
      if i <? SHELL_LINE_MAX then
        x ← rd row i;
        if x =? c then same_prefix row r (i + 1) else Ret i
      else Ret i
  end.

(** The line already is the newest entry, as far as the test goes. *)
Definition is_newest (h : history) (line : list Z) : outcome bool :=
  if 0 <? h_count h then
    row ← rd (h_rows h) (history_physical_index h 0);
    i ← same_prefix row (line ++ [0]) 0;
    if zlen line <? i then x ← rd row i; Ret (x =? 0) else Ret false
  else Ret false.

Definition shell_save_history (line : list Z) (h : history) : outcome history :=
  match line with
  | [] => Ret h
  | _ =>
      dup ← is_newest h line;
      if (dup : bool) then Ret (set_nav (-1) h)
      else
        row ← rd (h_rows h) (h_head h);
        row' ← put_all row 0 (take (Z.to_nat SHELL_LINE_MAX) (line ++ [0]));
        rows ← wr (h_rows h) (h_head h) row';
        Ret (History rows (if h_count h <? SHELL_HISTORY_SIZE then h_count h + 1 else h_count h)
               (Z.rem (h_head h + 1) SHELL_HISTORY_SIZE) (-1))
  end.

(** [while (len + 1 < 160 && row[len]) len++] *)
Fixpoint row_text (fuel : nat) (row : list Z) (len : Z) : outcome (list Z) :=
  match fuel with
  | O => OutOfFuel
  | S f =>
      if len + 1 <? SHELL_LINE_MAX then
        c ← rd row len;
        if c =? 0 then Ret [] else r ← row_text f row (len + 1); Ret (c :: r)
      else Ret []
  end.

(** The new line array and its length. *)
Definition shell_load_history (h : history) (nav : Z) (line : list Z) : outcome (list Z * Z) :=
  if (nav <? 0) || (h_count h <=? nav) then line' ← wr line 0 0; Ret (line', 0)
  else
    row ← rd (h_rows h) (history_physical_index h nav);
    t ← row_text 160 row 0;
    line' ← put_all line 0 (t ++ [0]);
    Ret (line', zlen t).

(** [cmd_history]: what it prints. *)
Fixpoint history_lines (n : nat) (h : history) : outcome (list Z) :=
  match n with
  | O => Ret []
  | S i =>
      row ← rd (h_rows h) (history_physical_index h (Z.of_nat i));
      t ← c_string row;
      num ← console_u32 (h_count h - Z.of_nat i);
      r ← history_lines i h;
      Ret (console_write (10 :: txt "  "%string) ++ num ++ txt "  "%string ++ console_write t ++ r)
  end.

Definition cmd_history (h : history) : outcome (list Z) :=
  if h_count h =? 0 then Ret (console_write (10 :: txt "(no history)"%string))
  else history_lines (Z.to_nat (h_count h)) h.

(** ** The editor *)

Record editor := Editor {
  e_line : list Z; e_len : Z; e_pos : Z; e_displayed : Z; e_max : Z; e_hist : history; e_out : list Z }.

Definition say (o : list Z) (e : editor) : editor :=
  Editor (e_line e) (e_len e) (e_pos e) (e_displayed e) (e_max e) (e_hist e) (e_out e ++ o).
Definition set_line (l : list Z) (len pos : Z) (e : editor) : editor :=
  Editor l len pos (e_displayed e) (e_max e) (e_hist e) (e_out e).
Definition set_pos (pos : Z) (e : editor) : editor := set_line (e_line e) (e_len e) pos e.
Definition set_displayed (d : Z) (e : editor) : editor :=
  Editor (e_line e) (e_len e) (e_pos e) d (e_max e) (e_hist e) (e_out e).
Definition set_hist (h : history) (e : editor) : editor :=
  Editor (e_line e) (e_len e) (e_pos e) (e_displayed e) (e_max e) h (e_out e).
Definition set_max (x : Z) (e : editor) : editor :=
  Editor (e_line e) (e_len e) (e_pos e) (e_displayed e) x (e_hist e) (e_out e).

Definition start_col : Z := console_get_cursor.2.

(** [console_has_fb()] is 0: only the characters are printed. *)
Definition shell_redraw_line (line : list Z) (erase_len : Z) : outcome (list Z) :=
  let max_chars := if start_col <? console_cols then console_cols - start_col else 0 in
  if max_chars =? 0 then Ret []
  else
    s ← c_string line;
    let new_len := Z.min (zlen s) max_chars in
    let erase := Z.min erase_len max_chars in
    Ret (concat (map console_putc (take (Z.to_nat new_len) s)) ++
         (if new_len <? erase then replicate (Z.to_nat (erase - new_len)) 32 else [])).

Definition redraw (erase : Z) (e : editor) : outcome editor :=
  o ← shell_redraw_line (e_line e) erase; Ret (say o e).

(** Redraw with what was displayed, and remember the new length. *)
Definition redraw_all (e : editor) : outcome editor :=
  e' ← redraw (e_displayed e) e; Ret (set_displayed (e_len e') e').

(** [suffix = match + typed_len; while ( *suffix) ...]: from inside the string. *)
Definition shell_draw_hint (mtch : list Z) (typed_len : Z) : outcome (list Z) :=
  if (0 <=? typed_len) && (typed_len <=? zlen mtch) then
    Ret (concat (map console_putc (drop (Z.to_nat typed_len) mtch)))
  else Fault.

(** Blank or tab. *)
Definition is_blank (c : Z) : bool := (c =? 32) || (c =? 9).

Fixpoint token_start_loop (start : nat) (line : list Z) : outcome Z :=
  match start with
  | O => Ret 0
  | S k => c ← rd line (Z.of_nat k); if is_blank c then Ret (Z.of_nat start) else token_start_loop k line
  end.

Definition shell_token_start (line : list Z) (pos : Z) : outcome Z := token_start_loop (Z.to_nat pos) line.

Definition prompt : list Z := console_write (10 :: txt "root@sageos:/# "%string).

(** Insert [fill] at the cursor, as the two places of the completion do. *)
Definition fill_in (fill : list Z) (e : editor) : outcome editor :=
  l1 ← move (e_line e) (e_pos e + zlen fill) (e_pos e) (e_len e - e_pos e + 1);
  l2 ← put_all l1 (e_pos e) fill;
  Ret (set_line l2 (e_len e + zlen fill) (e_pos e + zlen fill) e).

(** [if (len + fill_len >= MAX - 1) fill_len = MAX - 1 - len] *)
Definition room (e : editor) (fill : list Z) : list Z :=
  if SHELL_LINE_MAX - 1 <=? e_len e + zlen fill
  then take (Z.to_nat (SHELL_LINE_MAX - 1 - e_len e)) fill else fill.

Definition lcp_of (token first : list Z) : list Z :=
  fold_left (fun p cand =>
      if negb (starts_with cand token) || streq cand first then p else common_part p cand)
    shell_commands first.

Definition tab_single (first token : list Z) (token_start : Z) (e : editor) : outcome editor :=
  let fill := drop (length token) (take (Z.to_nat (SHELL_LINE_MAX - 1)) first) in
  if 0 <? zlen fill then
    hint ← shell_draw_hint first (token_start + zlen token);
    let fill := room e fill in
    e1 ← fill_in fill (say hint e);
    redraw (e_displayed e + zlen fill + 2) e1
  else Ret e.

Definition tab_many (first token : list Z) (e : editor) : outcome editor :=
  let lcp := lcp_of token first in
  e1 ← (if zlen token <? zlen lcp then
          let fill := room e (drop (length token) lcp) in
          if 0 <? zlen fill then fill_in fill e else Ret e
        else Ret e);
  s ← c_string (e_line e1);
  Ret (say (console_write [10] ++ list_matches token ++ prompt ++ console_write s) e1).

Definition shell_tab_complete (e : editor) : outcome editor :=
  token_start ← shell_token_start (e_line e) (e_pos e);
  token ← copy_out (e_line e) token_start (e_pos e - token_start);
  match filter (fun c => starts_with c token = true) shell_commands with
  | [] => Ret e
  | [first] => tab_single first token token_start e
  | first :: _ => tab_many first token e
  end.

(** The limit on typed characters, from the columns left after the prompt. *)
Definition line_limit (old : Z) : Z :=
  let m := if start_col + 2 <? console_cols then console_cols - start_col - 2 else old in
  if SHELL_LINE_MAX <=? m then SHELL_LINE_MAX - 1 else m.

(** An empty line. *)
Definition clear_line (e : editor) : outcome editor :=
  l ← wr (e_line e) 0 0; Ret (set_line l 0 0 e).

(** A line from history, cut to the limit. *)
Definition recall (e : editor) : outcome editor :=
  r ← shell_load_history (e_hist e) (h_nav (e_hist e)) (e_line e);
  if e_max e <? r.2 then l ← wr r.1 (e_max e) 0; Ret (set_line l (e_max e) (e_max e) e)
  else Ret (set_line r.1 r.2 r.2 e).

Definition key_up (e : editor) : outcome editor :=
  let h := e_hist e in
  if h_count h =? 0 then Ret e
  else
    let nav := if h_nav h <? 0 then 0 else if h_nav h <? h_count h - 1 then h_nav h + 1 else h_nav h in
    e1 ← recall (set_hist (set_nav nav h) e); redraw_all e1.

Definition key_down (e : editor) : outcome editor :=
  let h := e_hist e in
  if h_nav h <? 0 then Ret e
  else
    e1 ← (if 0 <? h_nav h then recall (set_hist (set_nav (h_nav h - 1) h) e)
          else clear_line (set_hist (set_nav (-1) h) e));
    redraw_all e1.

Definition key_delete (e : editor) : outcome editor :=
  if e_pos e <? e_len e then
    l1 ← move (e_line e) (e_pos e) (e_pos e + 1) (e_len e - e_pos e);
    l2 ← wr l1 (e_len e - 1) 0;
    redraw_all (set_line l2 (e_len e - 1) (e_pos e) e)
  else Ret e.

Definition on_extended (sc : Z) (e : editor) : outcome editor :=
  if sc =? 0x48 then key_up e
  else if sc =? 0x50 then key_down e
  else if sc =? 0x4B then Ret (if 0 <? e_pos e then set_pos (e_pos e - 1) e else e)
  else if sc =? 0x4D then Ret (if e_pos e <? e_len e then set_pos (e_pos e + 1) e else e)
  else if sc =? 0x47 then redraw_all (set_pos 0 e)
  else if sc =? 0x4F then redraw_all (set_pos (e_len e) e)
  else if sc =? 0x53 then key_delete e
  else Ret e.

(** [while (new_pos > 0 && P(line[new_pos - 1])) new_pos--] *)
Fixpoint back_while (P : Z -> bool) (n : nat) (line : list Z) : outcome Z :=
  match n with
  | O => Ret 0
  | S k => c ← rd line (Z.of_nat k); if P c then back_while P k line else Ret (Z.of_nat n)
  end.

Definition kill_word (e : editor) : outcome editor :=
  if 0 <? e_pos e then
    p1 ← back_while (fun c => c =? 32) (Z.to_nat (e_pos e)) (e_line e);
    new_pos ← back_while (fun c => negb (c =? 32)) (Z.to_nat p1) (e_line e);
    let deleted := e_pos e - new_pos in
    l ← move (e_line e) new_pos (e_pos e) (e_len e - e_pos e + 1);
    redraw_all (set_line l (e_len e - deleted) new_pos e)
  else Ret e.

Definition backspace (e : editor) : outcome editor :=
  if 0 <? e_pos e then
    let erase := if e_len e <? e_displayed e then e_displayed e else e_len e in
    l ← move (e_line e) (e_pos e - 1) (e_pos e) (e_len e - e_pos e + 1);
    e' ← redraw erase (set_line l (e_len e - 1) (e_pos e - 1) e);
    Ret (set_displayed (e_len e') e')
  else Ret e.

Definition insert_char (c : Z) (e : editor) : outcome editor :=
  let append_at_end := (e_pos e =? e_len e) && (e_displayed e =? e_len e) in
  l1 ← move (e_line e) (e_pos e + 1) (e_pos e) (e_len e - e_pos e + 1);
  l2 ← wr l1 (e_pos e) c;
  l3 ← wr l2 (e_len e + 1) 0;
  let e1 := set_line l3 (e_len e + 1) (e_pos e + 1) e in
  if append_at_end then Ret (set_displayed (e_len e1) (say (console_putc c) e1)) else redraw_all e1.

Section world.
(** Executing a line: what it prints and its effect on the rest of the system.
    The history can be read by the command. *)
Context {W : Type} (shell_exec_command : history -> list Z -> W -> outcome (list Z * W)).

Definition enter (e : editor) (w : W) : outcome (editor * W) :=
  l ← wr (e_line e) (e_len e) 0;
  s ← c_string l;
  h ← (if 0 <? e_len e then shell_save_history s (e_hist e) else Ret (e_hist e));
  r ← shell_exec_command h s w;
  e1 ← clear_line (set_hist (set_nav (-1) h) (say (console_write [10] ++ r.1) (set_line l (e_len e) (e_pos e) e)));
  Ret (set_max (line_limit (e_max e)) (say prompt (set_displayed 0 e1)), r.2).

Definition on_ascii (c : Z) (e : editor) (w : W) : outcome (editor * W) :=
  if (c =? 13) || (c =? 10) then enter e w
  else
    e' ←
      (if c =? 3 then
         e1 ← clear_line (say (console_write (94 :: 67 :: [10])) e);
         Ret (say prompt (set_hist (set_nav (-1) (e_hist e1)) (set_displayed 0 e1)))
       else if c =? 1 then redraw_all (set_pos 0 e)
       else if c =? 5 then redraw_all (set_pos (e_len e) e)
       else if c =? 11 then
         l ← wr (e_line e) (e_pos e) 0;
         e1 ← redraw (e_displayed e) (set_line l (e_len e) (e_pos e) e);
         Ret (set_line l (e_pos e) (e_pos e) (set_displayed (e_pos e) e1))
       else if c =? 21 then
         e1 ← clear_line e; e2 ← redraw (e_displayed e) e1; Ret (set_displayed 0 e2)
       else if c =? 23 then kill_word e
       else if c =? 9 then e1 ← shell_tab_complete e; Ret (set_displayed (e_len e1) e1)
       else if (c =? 8) || (c =? 127) then backspace e
       else if (32 <=? c) && (c <=? 126) && (e_len e <? e_max e) then insert_char c e
       else Ret e);
    Ret (e', w).

(** One turn of the loop of [shell_run]. *)
Definition on_event (ev : key_event) (e : editor) (w : W) : outcome (editor * W) :=
  if pressed ev =? 0 then Ret (e, w)
  else if negb (extended ev =? 0) then e' ← on_extended (scancode ev) e; Ret (e', w)
  else on_ascii (ascii ev) e w.

(** [shell_run] on a list of events, after the first prompt. *)
Fixpoint shell_loop (evs : list key_event) (e : editor) (w : W) : outcome (editor * W) :=
  match evs with
  | [] => Ret (e, w)
  | ev :: r => s ← on_event ev e w; shell_loop r s.1 s.2
  end.

(** The line is 160 uninitialised bytes, [line[0] = 0]. *)
Definition shell_start (garbage : list Z) : outcome editor :=
  l ← wr garbage 0 0;
  Ret (Editor l 0 0 0 (line_limit (SHELL_LINE_MAX - 1)) history_initial prompt).

End world.
End LineEdit.
