(* ===== verification/LineEditSpec.v ===== *)
(** * What the line editor does

    The editor of LineEdit against a document without arrays: the text before
    and after the cursor, the remembered lines newest first, and the position in
    them.  Every key handler is shown to stay inside its arrays and to do to the
    document what the key means; completion to extend the word before the cursor
    by the longest common continuation of the commands it starts. *)

From Stdlib Require Import String Ascii.
From stdpp Require Import base tactics list numbers.
From S2P Require Import Prelude Digits CMem Libc Console TextBuf LineEdit.

Module LineEditSpec.
Import TextBuf Console LineEdit.

(** ** Documents *)

Record doc := Doc { before : list Z; after : list Z; past : list (list Z); nav : Z }.

Definition content (d : doc) : list Z := before d ++ after d.

Fixpoint drop_while (P : Z -> bool) (l : list Z) : list Z :=
  match l with
  | [] => []
  | c :: r => if P c then drop_while P r else l
  end.

(** Without the longest end on which [P] holds. *)
Definition trim (P : Z -> bool) (l : list Z) : list Z := rev (drop_while P (rev l)).

(** Lines typed are at most this long. *)
Definition limit : nat := 78.

Definition recalled (n : Z) (d : doc) : doc :=
  match past d !! Z.to_nat n with
  | Some s => Doc (take limit s) [] (past d) n
  | None => d
  end.

Definition doc_extended (sc : Z) (d : doc) : doc :=
  let '(Doc b a p n) := d in
  if sc =? 0x48 then
    if zlen p =? 0 then d else recalled (if n <? 0 then 0 else if n <? zlen p - 1 then n + 1 else n) d
  else if sc =? 0x50 then
    if n <? 0 then d else if 0 <? n then recalled (n - 1) d else Doc [] [] p (-1)
  else if sc =? 0x4B then
    match rev b with [] => d | c :: r => Doc (rev r) (c :: a) p n end
  else if sc =? 0x4D then
    match a with [] => d | c :: r => Doc (b ++ [c]) r p n end
  else if sc =? 0x47 then Doc [] (b ++ a) p n
  else if sc =? 0x4F then Doc (b ++ a) [] p n
  else if sc =? 0x53 then Doc b (drop 1 a) p n
  else d.

(** The longest common start of the commands that start with [token]. *)
Definition matches (token : list Z) : list (list Z) := filter (fun c => starts_with c token = true) shell_commands.

Definition common_start (token : list Z) : list Z :=
  match matches token with
  | [] => []
  | first :: r => fold_left common_part r first
  end.

(** The word before the cursor, and what completion adds to it. *)
Definition word (b : list Z) : list Z := drop (length (trim (fun c => negb (is_blank c)) b)) b.

Definition completion (d : doc) : list Z :=
  take (159 - length (content d)) (drop (length (word (before d))) (common_start (word (before d)))).

(** Keys other than Enter. *)
Definition doc_ascii (c : Z) (d : doc) : doc :=
  let '(Doc b a p n) := d in
  if c =? 3 then Doc [] [] p (-1)
  else if c =? 1 then Doc [] (b ++ a) p n
  else if c =? 5 then Doc (b ++ a) [] p n
  else if c =? 11 then Doc b [] p n
  else if c =? 21 then Doc [] [] p n
  else if c =? 23 then Doc (trim (fun c => negb (c =? 32)) (trim (fun c => c =? 32) b)) a p n
  else if c =? 9 then Doc (b ++ completion d) a p n
  else if (c =? 8) || (c =? 127) then Doc (removelast b) a p n
  else if (32 <=? c) && (c <=? 126) && (length (b ++ a) <? limit)%nat then Doc (b ++ [c]) a p n
  else d.

(** A line joins the past as its newest entry, unless it is that already. *)
Definition remember (s : list Z) (p p' : list (list Z)) : Prop :=
  p' = take 16 (s :: p) \/ (head p = Some s /\ p' = p).

Definition is_enter (ev : key_event) : bool :=
  negb (pressed ev =? 0) && (extended ev =? 0) && ((ascii ev =? 13) || (ascii ev =? 10)).

Definition doc_step (ev : key_event) (d d' : doc) : Prop :=
  if is_enter ev then
    before d' = [] /\ after d' = [] /\ nav d' = -1 /\
    (if zlen (content d) =? 0 then past d' = past d else remember (content d) (past d) (past d'))
  else if pressed ev =? 0 then d' = d
  else if negb (extended ev =? 0) then d' = doc_extended (scancode ev) d
  else d' = doc_ascii (ascii ev) d.

(** ** The document an editor shows *)

Definition nonzero (l : list Z) : Prop := Forall (fun c => c <> 0) l.

Record ring_ok (h : history) (p : list (list Z)) (n : Z) : Prop := {
  ring_rows : zlen (h_rows h) = 16;
  ring_row : Forall (fun r => zlen r = 160) (h_rows h);
  ring_count : h_count h = zlen p;
  ring_size : zlen p <= 16;
  ring_head : 0 <= h_head h < 16;
  ring_nav : h_nav h = n;
  ring_range : -1 <= n < zlen p \/ n = -1;
  ring_past : forall i s, p !! i = Some s -> exists r,
    h_rows h !! Z.to_nat (history_physical_index h (Z.of_nat i)) = Some r /\ text_in r s;
  ring_text : Forall nonzero p }.

Record shows (e : editor) (d : doc) : Prop := {
  sh_text : text_in (e_line e) (content d);
  sh_size : zlen (e_line e) = 160;
  sh_len : e_len e = zlen (content d);
  sh_pos : e_pos e = zlen (before d);
  sh_chars : nonzero (content d);
  sh_max : e_max e = 78;
  sh_hist : ring_ok (e_hist e) (past d) (nav d) }.

(** ** Printing does not change the document *)

Lemma shows_say o e d : shows e d -> shows (say o e) d.
Proof. by intros []. Qed.

Lemma shows_displayed n e d : shows e d -> shows (set_displayed n e) d.
Proof. by intros []. Qed.

Lemma redraw_ok er e d : shows e d -> completes (redraw er e) (fun e' => shows e' d /\ e_len e' = e_len e /\ e_line e' = e_line e /\ e_pos e' = e_pos e).
Proof.
  intros H. unfold redraw, shell_redraw_line, start_col, console_cols, console_get_cursor. cbn [snd].
  change ((if 0 <? 80 then 80 - 0 else 0) =? 0) with false. cbv iota.
  rewrite (c_string_ok _ _ (sh_text _ _ H) (sh_chars _ _ H)). cbn [mbind outcome_bind].
  apply completes_Ret. split; [by apply shows_say|done].
Qed.

Lemma redraw_all_ok e d : shows e d -> completes (redraw_all e) (fun e' => shows e' d).
Proof.
  intros H. unfold redraw_all. eapply completes_bind; [by apply redraw_ok|].
  intros e' (H' & _). apply completes_Ret. by apply shows_displayed.
Qed.

(** A new text with a cursor in it, from a new array. *)
Lemma shows_set l b a e d p n :
  shows e d -> text_in l (b ++ a) -> zlen l = 160 -> nonzero (b ++ a) -> p = past d -> n = nav d ->
  shows (set_line l (zlen (b ++ a)) (zlen b) e) (Doc b a p n).
Proof. intros [] ? ? ? -> ->. by split. Qed.

Lemma nonzero_app a b : nonzero (a ++ b) <-> nonzero a /\ nonzero b.
Proof. apply Forall_app. Qed.

Lemma zlen_snoc (b : list Z) c : zlen (b ++ [c]) = zlen b + 1.
Proof. by rewrite zlen_app. Qed.

(** ** Scanning back *)

Lemma trim_nil P : trim P [] = [].
Proof. done. Qed.

Lemma trim_snoc P l c : trim P (l ++ [c]) = if P c then trim P l else l ++ [c].
Proof.
  unfold trim. rewrite rev_app_distr. cbn [rev app drop_while]. destruct (P c); [done|].
  cbn [rev]. by rewrite rev_involutive.
Qed.

(** What is left is a start, and what was trimmed satisfies the test. *)
Lemma trim_split P l : exists t, l = trim P l ++ t /\ Forall (fun c => P c = true) t.
Proof.
  induction l as [|c l IH] using rev_ind; [by exists []|]. rewrite trim_snoc.
  destruct (P c) eqn:E; [|exists []; by rewrite app_nil_r].
  destruct IH as (t & Hl & Ht). exists (t ++ [c]). rewrite app_assoc, <- Hl.
  split; [done|]. apply Forall_app. by repeat constructor.
Qed.

Lemma back_while_ok P b r l : text_in l (b ++ r) -> back_while P (length b) l = Ret (zlen (trim P b)).
Proof.
  revert r. induction b as [|c b IH] using rev_ind; intros r H; [done|].
  rewrite length_app. cbn [length]. rewrite Nat.add_1_r. cbn [back_while].
  rewrite <- app_assoc in H. cbn [app] in H. change (Z.of_nat (length b)) with (zlen b).
  rewrite (rd_text _ _ _ _ H). cbn [mbind outcome_bind]. rewrite trim_snoc.
  destruct (P c); [by eapply IH|]. f_equal. rewrite zlen_snoc. unfold zlen. lia.
Qed.

Lemma token_start_ok b r l :
  text_in l (b ++ r) -> token_start_loop (length b) l = Ret (zlen (trim (fun c => negb (is_blank c)) b)).
Proof.
  revert r. induction b as [|c b IH] using rev_ind; intros r H; [done|].
  rewrite length_app. cbn [length]. rewrite Nat.add_1_r. cbn [token_start_loop].
  rewrite <- app_assoc in H. cbn [app] in H. change (Z.of_nat (length b)) with (zlen b).
  rewrite (rd_text _ _ _ _ H). cbn [mbind outcome_bind]. rewrite trim_snoc.
  destruct (is_blank c); cbn [negb]; [|by eapply IH]. f_equal. rewrite zlen_snoc. unfold zlen. lia.
Qed.

(** ** Keys that move and delete *)

Lemma clear_line_ok e d : shows e d -> completes (clear_line e) (fun e' => shows e' (Doc [] [] (past d) (nav d))).
Proof.
  intros H. unfold clear_line. pose proof (sh_text _ _ H) as Ht.
  change (content d) with ([] ++ content d) in Ht.
  eapply completes_bind; [exact (cut_text _ [] _ Ht)|]. intros l [H1 H2]. apply completes_Ret.
  apply (shows_set l [] [] e d); try done; [|constructor]. by rewrite H2, (sh_size _ _ H).
Qed.

Lemma set_pos_ok e d b a : shows e d -> b ++ a = content d -> shows (set_pos (zlen b) e) (Doc b a (past d) (nav d)).
Proof.
  intros H E. unfold set_pos. rewrite (sh_len _ _ H), <- E. apply (shows_set _ b a e d); try done.
  - rewrite E. apply H.
  - apply H.
  - rewrite E. apply H.
Qed.

(** Removing [x] between [b] and [a]. *)
Lemma remove_ok e d b x a :
  shows e d -> content d = b ++ x ++ a ->
  completes (move (e_line e) (zlen b) (zlen b + zlen x) (zlen a + 1)) (fun l =>
    shows (set_line l (e_len e - zlen x) (zlen b) e) (Doc b a (past d) (nav d)) /\ text_in l (b ++ a) /\ zlen l = 160).
Proof.
  intros H E. pose proof (sh_text _ _ H) as Ht. rewrite E in Ht.
  destruct (move_left _ _ _ _ Ht) as (l & -> & H1 & H2). apply completes_Ret.
  pose proof (sh_chars _ _ H) as Hc. rewrite E, !nonzero_app in Hc.
  replace (e_len e - zlen x) with (zlen (b ++ a)) by (rewrite (sh_len _ _ H), E, !zlen_app; lia).
  rewrite (sh_size _ _ H) in H2. split; [|done].
  apply (shows_set l b a e d); try done. rewrite nonzero_app. tauto.
Qed.

Lemma key_delete_ok e d :
  shows e d -> completes (key_delete e) (fun e' => shows e' (Doc (before d) (drop 1 (after d)) (past d) (nav d))).
Proof.
  intros H. unfold key_delete. pose proof (sh_len _ _ H) as El. pose proof (sh_pos _ _ H) as Ep.
  destruct d as [b a p n]. unfold content in *. cbn [before after past nav] in *. rewrite zlen_app in El.
  destruct a as [|c a].
  - rewrite (proj2 (Z.ltb_ge _ _)) by (change (zlen (@nil Z)) with 0 in El; lia). by apply completes_Ret.
  - rewrite zlen_cons in El. pose proof (zlen_nonneg a). rewrite (proj2 (Z.ltb_lt _ _)) by lia.
    destruct (remove_ok e _ b [c] a H eq_refl) as (l & E & Hsh & Ht & Hl).
    replace (e_len e - e_pos e) with (zlen a + 1) by lia. rewrite Ep. change (zlen [c]) with 1 in *.
    rewrite E. cbn [mbind outcome_bind drop].
    replace (e_len e - 1) with (zlen (b ++ a)) by (rewrite zlen_app; lia).
    rewrite <- (app_nil_r (b ++ a)) in Ht. eapply completes_bind; [exact (cut_text _ _ _ Ht)|].
    intros l2 [Ht2 Hl2]. apply redraw_all_ok. apply (shows_set l2 b a e _ p n H); try done; [by rewrite Hl2|].
    apply (sh_chars _ _ Hsh).
Qed.

Lemma backspace_ok e d :
  shows e d -> completes (backspace e) (fun e' => shows e' (Doc (removelast (before d)) (after d) (past d) (nav d))).
Proof.
  intros H. unfold backspace. pose proof (sh_len _ _ H) as El. pose proof (sh_pos _ _ H) as Ep.
  destruct d as [b a p n]. unfold content in *. cbn [before after past nav] in *.
  destruct b as [|c b _] using rev_ind.
  - rewrite (proj2 (Z.ltb_ge _ _)) by (change (zlen (@nil Z)) with 0 in Ep; lia). by apply completes_Ret.
  - rewrite zlen_snoc in Ep. pose proof (zlen_nonneg b). rewrite (proj2 (Z.ltb_lt _ _)) by lia.
    rewrite removelast_last. rewrite zlen_app, zlen_snoc in El.
    destruct (remove_ok e _ b [c] a H) as (l & E & Hsh & _); [by rewrite (app_assoc b)|].
    change (zlen [c]) with 1 in *. replace (e_pos e - 1) with (zlen b) by lia. rewrite Ep.
    replace (e_len e - (zlen b + 1) + 1) with (zlen a + 1) by lia. rewrite E. cbn [mbind outcome_bind].
    eapply completes_bind; [by apply redraw_ok|]. intros e' (He & _). apply completes_Ret. by apply shows_displayed.
Qed.

Lemma kill_word_ok e d :
  shows e d -> completes (kill_word e) (fun e' =>
    shows e' (Doc (trim (fun c => negb (c =? 32)) (trim (fun c => c =? 32) (before d))) (after d) (past d) (nav d))).
Proof.
  intros H. unfold kill_word. pose proof (sh_len _ _ H) as El. pose proof (sh_pos _ _ H) as Ep.
  pose proof (sh_text _ _ H) as Ht. destruct d as [b a p n]. unfold content in *. cbn [before after past nav] in *.
  rewrite Ep, nat_zlen. destruct (Z.ltb_spec 0 (zlen b)).
  2: { destruct b; [|rewrite zlen_cons in *; pose proof (zlen_nonneg b); lia]. by apply completes_Ret. }
  rewrite (back_while_ok _ b a) by done. cbn [mbind outcome_bind]. rewrite nat_zlen.
  set (b1 := trim (fun c => c =? 32) b). destruct (trim_split (fun c => c =? 32) b) as (t1 & E1 & _). fold b1 in E1.
  set (b2 := trim (fun c => negb (c =? 32)) b1).
  destruct (trim_split (fun c => negb (c =? 32)) b1) as (t2 & E2 & _). fold b2 in E2.
  rewrite (back_while_ok _ b1 (t1 ++ a)) by (rewrite app_assoc, <- E1; done). cbn [mbind outcome_bind]. fold b2.
  assert (Eb : b = b2 ++ (t2 ++ t1)) by (rewrite app_assoc, <- E2; done).
  destruct (remove_ok e _ b2 (t2 ++ t1) a H) as (l & E & Hsh & _).
  { unfold content. cbn [before after]. rewrite Eb at 1. by rewrite <- !app_assoc. }
  assert (Hb : zlen b = zlen b2 + zlen (t2 ++ t1)) by (rewrite Eb at 1; by rewrite zlen_app).
  rewrite zlen_app in El. replace (e_len e - zlen b + 1) with (zlen a + 1) by lia.
  rewrite Hb. rewrite E. cbn [mbind outcome_bind].
  replace (zlen b2 + zlen (t2 ++ t1) - zlen b2) with (zlen (t2 ++ t1)) by lia. by apply redraw_all_ok.
Qed.

(** ** Inserting *)

Lemma fill_in_ok e d cs :
  shows e d -> nonzero cs -> zlen (content d) + zlen cs < 160 ->
  completes (fill_in cs e) (fun e' => shows e' (Doc (before d ++ cs) (after d) (past d) (nav d))).
Proof.
  intros H Hc Hl. unfold fill_in. pose proof (sh_len _ _ H) as El. pose proof (sh_pos _ _ H) as Ep.
  pose proof (sh_text _ _ H) as Ht. pose proof (sh_chars _ _ H) as Hn.
  destruct d as [b a p n]. unfold content in *. cbn [before after past nav] in *.
  replace (e_len e - e_pos e + 1) with (zlen a + 1) by (rewrite El, zlen_app; lia). rewrite Ep.
  destruct (insert_text (e_line e) b a cs Ht) as (l & E & Ht' & Hl'); [rewrite (sh_size _ _ H); lia|].
  destruct (move (e_line e) (zlen b + zlen cs) (zlen b) (zlen a + 1)) as [l1| |] eqn:E1; cbn in E; try discriminate.
  cbn [mbind outcome_bind]. rewrite E. cbn [mbind outcome_bind]. apply completes_Ret.
  replace (e_len e + zlen cs) with (zlen ((b ++ cs) ++ a)) by (rewrite El, !zlen_app; lia).
  replace (zlen b + zlen cs) with (zlen (b ++ cs)) by apply zlen_app.
  apply (shows_set l (b ++ cs) a e _ p n H); try done.
  - by rewrite <- app_assoc.
  - by rewrite Hl', (sh_size _ _ H).
  - rewrite !nonzero_app in *. tauto.
Qed.

Lemma insert_char_ok e d c :
  shows e d -> c <> 0 -> zlen (content d) < 158 ->
  completes (insert_char c e) (fun e' => shows e' (Doc (before d ++ [c]) (after d) (past d) (nav d))).
Proof.
  intros H Hc Hl. unfold insert_char. pose proof (sh_len _ _ H) as El. pose proof (sh_pos _ _ H) as Ep.
  pose proof (sh_text _ _ H) as Ht. pose proof (sh_chars _ _ H) as Hn.
  destruct d as [b a p n]. unfold content in *. cbn [before after past nav] in *.
  set (at_end := (e_pos e =? e_len e) && (e_displayed e =? e_len e)).
  replace (e_len e - e_pos e + 1) with (zlen a + 1) by (rewrite El, zlen_app; lia). rewrite Ep.
  destruct (insert_text (e_line e) b a [c] Ht) as (l & E & Ht' & Hl'); [rewrite (sh_size _ _ H); change (zlen [c]) with 1; lia|].
  change (zlen [c]) with 1 in E.
  destruct (move (e_line e) (zlen b + 1) (zlen b) (zlen a + 1)) as [l1| |] eqn:E1; cbn in E; try discriminate.
  cbn [mbind outcome_bind]. destruct (wr l1 (zlen b) c) as [l2| |]; try discriminate. cbn in E. injection E as ->.
  cbn [mbind outcome_bind]. rewrite <- (app_nil_r (b ++ [c] ++ a)) in Ht'.
  replace (e_len e + 1) with (zlen (b ++ [c] ++ a)) by (rewrite El, !zlen_app; change (zlen [c]) with 1; lia).
  eapply completes_bind; [exact (cut_text _ _ _ Ht')|]. intros l3 [Ht3 Hl3].
  replace (zlen b + 1) with (zlen (b ++ [c])) by apply zlen_snoc. rewrite app_assoc.
  assert (S : shows (set_line l3 (zlen ((b ++ [c]) ++ a)) (zlen (b ++ [c])) e) (Doc (b ++ [c]) a p n)).
  { apply (shows_set l3 (b ++ [c]) a e _ p n H); try done; [by rewrite <- app_assoc| |].
    - by rewrite Hl3, Hl', (sh_size _ _ H).
    - rewrite !nonzero_app in *. repeat split; [tauto| |tauto]. by repeat constructor. }
  destruct at_end; [|by apply redraw_all_ok]. apply completes_Ret. by apply shows_displayed, shows_say.
Qed.

(** ** History *)

Lemma text_in_inj l s t : text_in l s -> text_in l t -> nonzero s -> nonzero t -> s = t.
Proof.
  intros Hs Ht Ns Nt. pose proof (c_string_ok _ _ Hs Ns). pose proof (c_string_ok _ _ Ht Nt). congruence.
Qed.

Lemma phys_eq h i : 0 <= h_head h < 16 -> 0 <= i < 16 -> history_physical_index h i = (h_head h - 1 - i) mod 16.
Proof.
  intros. unfold history_physical_index, SHELL_HISTORY_SIZE. rewrite Z.rem_mod_nonneg by lia.
  replace (h_head h - 1 - i + 16 * 2) with (h_head h - 1 - i + 2 * 16) by lia. by rewrite Z.mod_add.
Qed.

Lemma rd_lookup {A} (l : list A) i x : 0 <= i -> l !! Z.to_nat i = Some x -> rd l i = Ret x.
Proof. intros Hi H. unfold rd, zget. by rewrite (proj2 (Z.leb_le _ _)), H by lia. Qed.

(** The row of an entry. *)
Lemma ring_lookup h p n i s :
  ring_ok h p n -> 0 <= i -> p !! Z.to_nat i = Some s ->
  exists r, rd (h_rows h) (history_physical_index h i) = Ret r /\ text_in r s /\ zlen r = 160 /\ nonzero s.
Proof.
  intros H Hi Hs. destruct (ring_past _ _ _ H _ _ Hs) as (r & Hr & Ht). rewrite Z2Nat.id in Hr by done.
  pose proof (lookup_lt_Some _ _ _ Hs). pose proof (ring_size _ _ _ H) as Hsz. unfold zlen in Hsz.
  exists r. split_and!; [|done| |].
  - apply rd_lookup; [|done]. rewrite phys_eq by (apply H || lia). apply Z.mod_pos_bound. lia.
  - pose proof (ring_row _ _ _ H) as Hrow. rewrite Forall_lookup in Hrow. by eapply Hrow.
  - pose proof (ring_text _ _ _ H) as Htx. rewrite Forall_lookup in Htx. by eapply Htx.
Qed.

Lemma row_text_ok f row a r junk :
  row = a ++ r ++ 0 :: junk -> nonzero r -> zlen row = 160 -> (length r < f)%nat ->
  row_text f row (zlen a) = Ret r.
Proof.
  revert f a. induction r as [|c r IH]; intros [|f] a E Hn Hl Hf; cbn [length] in Hf; try lia; cbn [row_text].
  - destruct (zlen a + 1 <? SHELL_LINE_MAX); [|done]. rewrite E. cbn [app]. rewrite rd_app. done.
  - assert (La : zlen a + zlen (c :: r) + 1 <= 160).
    { rewrite <- Hl, E, !zlen_app, (zlen_cons 0). pose proof (zlen_nonneg junk). lia. }
    rewrite zlen_cons in La. pose proof (zlen_nonneg r).
    rewrite (proj2 (Z.ltb_lt _ _)) by (unfold SHELL_LINE_MAX; lia).
    pose proof (Forall_inv Hn) as Hc. pose proof (Forall_inv_tail Hn) as Hnr. cbn beta in Hc.
    assert (Hrd : rd row (zlen a) = Ret c) by (rewrite E; apply rd_app). rewrite Hrd. cbn [mbind outcome_bind].
    rewrite (proj2 (Z.eqb_neq c 0)) by done. rewrite <- zlen_snoc with (c := c).
    rewrite (IH f (a ++ [c])); [done|by rewrite <- app_assoc|done|done|lia].
Qed.

Lemma recall_ok e d :
  shows e d -> 0 <= nav d < zlen (past d) -> completes (recall e) (fun e' => shows e' (recalled (nav d) d)).
Proof.
  intros H Hn. unfold recall, recalled. pose proof (sh_hist _ _ H) as Hr.
  destruct (lookup_lt_is_Some_2 (past d) (Z.to_nat (nav d))) as [s Hs]; [unfold zlen in Hn; lia|].
  rewrite Hs. rewrite (ring_nav _ _ _ Hr). unfold shell_load_history.
  rewrite (proj2 (Z.ltb_ge _ _)), (proj2 (Z.leb_gt _ _)) by (rewrite ?(ring_count _ _ _ Hr); lia). cbn [orb].
  destruct (ring_lookup _ _ _ (nav d) s Hr ltac:(lia) Hs) as (row & -> & Ht & Hrow & Hnz). cbn [mbind outcome_bind].
  pose proof (text_in_length _ _ Ht) as Hlen. destruct Ht as [junk Ej].
  assert (Er : row_text 160 row 0 = Ret s)
    by (apply (row_text_ok 160 row [] s junk); done || (unfold zlen in *; lia)).
  rewrite Er. cbn [mbind outcome_bind].
  pose proof (sh_size _ _ H) as Hsz.
  destruct (put_text (e_line e) s) as (l & -> & Hl & Hll); [lia|]. cbn [mbind outcome_bind fst snd].
  rewrite (sh_max _ _ H). destruct (Z.ltb_spec 78 (zlen s)).
  - assert (E : s = take limit s ++ drop limit s) by (by rewrite take_drop).
    assert (L78 : zlen (take limit s) = 78) by (unfold zlen, limit in *; rewrite length_take; lia).
    rewrite E in Hl. pose proof (cut_text _ _ _ Hl) as Hc. rewrite L78 in Hc.
    eapply completes_bind; [exact Hc|]. intros l2 [Hl2 Hll2]. apply completes_Ret.
    pose proof (shows_set l2 (take limit s) [] e d (past d) (nav d) H) as S. rewrite !app_nil_r, L78 in S.
    apply S; [done|lia| |done..]. unfold nonzero in *. rewrite E in Hnz. apply Forall_app in Hnz. tauto.
  - apply completes_Ret. assert (E : take limit s = s) by (apply take_ge; unfold zlen, limit in *; lia). rewrite E.
    pose proof (shows_set l s [] e d (past d) (nav d) H) as S. rewrite !app_nil_r in S. apply S; (done || lia).
Qed.

(** Moving in the history keeps the ring. *)
Lemma shows_nav e d n :
  shows e d -> -1 <= n < zlen (past d) \/ n = -1 ->
  shows (set_hist (set_nav n (e_hist e)) e) (Doc (before d) (after d) (past d) n).
Proof. intros [? ? ? ? ? ? []] Hn. split; try done; by split. Qed.

Lemma key_up_ok e d : shows e d -> completes (key_up e) (fun e' => shows e' (doc_extended 0x48 d)).
Proof.
  intros H. unfold key_up. pose proof (sh_hist _ _ H) as Hr. rewrite (ring_count _ _ _ Hr), (ring_nav _ _ _ Hr).
  destruct d as [b a p n]. cbn [past nav] in *. change (doc_extended 0x48 (Doc b a p n)) with
    (if zlen p =? 0 then Doc b a p n else recalled (if n <? 0 then 0 else if n <? zlen p - 1 then n + 1 else n) (Doc b a p n)).
  destruct (Z.eqb_spec (zlen p) 0); [by apply completes_Ret|]. pose proof (zlen_nonneg p).
  set (n' := if n <? 0 then 0 else if n <? zlen p - 1 then n + 1 else n).
  assert (Hn' : 0 <= n' < zlen p).
  { pose proof (ring_range _ _ _ Hr). unfold n'. destruct (Z.ltb_spec n 0); [lia|].
    destruct (Z.ltb_spec n (zlen p - 1)); lia. }
  eapply completes_bind; [apply (recall_ok _ (Doc b a p n')); [apply (shows_nav e _ n' H); cbn; lia|done]|].
  intros e' He. replace (recalled n' (Doc b a p n)) with (recalled n' (Doc b a p n')); [by apply redraw_all_ok|].
  unfold recalled. cbn [past]. destruct (lookup_lt_is_Some_2 p (Z.to_nat n')) as [s ->]; [unfold zlen in *; lia|done].
Qed.

Lemma key_down_ok e d : shows e d -> completes (key_down e) (fun e' => shows e' (doc_extended 0x50 d)).
Proof.
  intros H. unfold key_down. pose proof (sh_hist _ _ H) as Hr. rewrite (ring_nav _ _ _ Hr).
  destruct d as [b a p n]. cbn [past nav] in *. change (doc_extended 0x50 (Doc b a p n)) with
    (if n <? 0 then Doc b a p n else if 0 <? n then recalled (n - 1) (Doc b a p n) else Doc [] [] p (-1)).
  pose proof (ring_range _ _ _ Hr). destruct (Z.ltb_spec n 0); [by apply completes_Ret|].
  destruct (Z.ltb_spec 0 n).
  - eapply completes_bind; [apply (recall_ok _ (Doc b a p (n - 1))); [apply (shows_nav e _ (n - 1) H); cbn; lia|cbn; lia]|].
    intros e' He. replace (recalled (n - 1) (Doc b a p n)) with (recalled (n - 1) (Doc b a p (n - 1))); [by apply redraw_all_ok|].
    unfold recalled. cbn [past]. destruct (lookup_lt_is_Some_2 p (Z.to_nat (n - 1))) as [s ->]; [unfold zlen in *; lia|done].
  - eapply completes_bind; [apply (clear_line_ok _ (Doc b a p (-1))), (shows_nav e _ (-1) H); cbn; lia|].
    intros e' He. by apply redraw_all_ok.
Qed.

Lemma same_prefix_ok row l i :
  zlen row = 160 -> 0 <= i -> i + zlen l <= 160 ->
  completes (same_prefix row l i) (fun j =>
    i <= j <= i + zlen l /\ (j = i + zlen l -> take (length l) (drop (Z.to_nat i) row) = l)).
Proof.
  revert i. induction l as [|c l IH]; intros i Hr Hi Hl; cbn [same_prefix].
  - apply completes_Ret. change (zlen (@nil Z)) with 0. split; [lia|done].
  - rewrite zlen_cons in *. pose proof (zlen_nonneg l). rewrite (proj2 (Z.ltb_lt _ _)) by (unfold SHELL_LINE_MAX; lia).
    destruct (lookup_lt_is_Some_2 row (Z.to_nat i)) as [x Hx]; [unfold zlen in *; lia|].
    rewrite (rd_lookup _ _ _ Hi Hx). cbn [mbind outcome_bind]. destruct (Z.eqb_spec x c) as [->|Hne].
    + eapply completes_mono; [apply (IH (i + 1)); lia|]. intros j [Hj Ht]. split; [lia|]. intros ->.
      rewrite (drop_S _ _ _ Hx). cbn [length take]. f_equal. rewrite <- (Ht ltac:(lia)) at 2.
      do 2 f_equal. lia.
    + apply completes_Ret. split; [lia|]. lia.
Qed.

Lemma is_newest_ok h p n s :
  ring_ok h p n -> nonzero s -> zlen s <= 158 ->
  completes (is_newest h s) (fun dup => dup = true -> head p = Some s).
Proof.
  intros H Hn Hs. unfold is_newest. rewrite (ring_count _ _ _ H). destruct p as [|s0 p]; [by apply completes_Ret|].
  rewrite zlen_cons. pose proof (zlen_nonneg p). rewrite (proj2 (Z.ltb_lt _ _)) by lia.
  destruct (ring_lookup _ _ _ 0 s0 H ltac:(lia) eq_refl) as (row & -> & Ht & Hrow & Hnz). cbn [mbind outcome_bind].
  pose proof (zlen_nonneg s). assert (L1 : zlen (s ++ [0]) = zlen s + 1) by apply zlen_snoc.
  eapply completes_bind; [apply (same_prefix_ok row (s ++ [0]) 0); lia|]. rewrite L1, !Z.add_0_l.
  intros j [Hj Heq]. destruct (Z.ltb_spec (zlen s) j); [|by apply completes_Ret].
  destruct (lookup_lt_is_Some_2 row (Z.to_nat j)) as [x Hx]; [unfold zlen in *; lia|].
  rewrite (rd_lookup row j x ltac:(lia) Hx). cbn [mbind outcome_bind]. apply completes_Ret. intros _.
  cbn [head]. f_equal. eapply text_in_inj; [exact Ht| |done|done].
  exists (drop (length (s ++ [0])) row). rewrite cons_middle, app_assoc.
  specialize (Heq ltac:(lia)). rewrite drop_0 in Heq. rewrite <- Heq at 1. by rewrite take_drop.
Qed.

(** A text stored in the row at the head becomes the newest entry. *)
Lemma ring_push h p n s row' :
  ring_ok h p n -> nonzero s -> text_in row' s -> zlen row' = 160 ->
  ring_ok (History (zset (h_rows h) (h_head h) row')
             (if h_count h <? SHELL_HISTORY_SIZE then h_count h + 1 else h_count h)
             (Z.rem (h_head h + 1) SHELL_HISTORY_SIZE) (-1)) (take 16 (s :: p)) (-1).
Proof.
  intros H Hn Ht' Hl'. pose proof (ring_head _ _ _ H) as Hh. pose proof (ring_rows _ _ _ H) as Hrows.
  pose proof (ring_size _ _ _ H) as Hsz. pose proof (zlen_nonneg p).
  assert (Hset : zset (h_rows h) (h_head h) row' = <[Z.to_nat (h_head h) := row']> (h_rows h)).
  { unfold zset. by rewrite (proj2 (Z.leb_le _ _)) by lia. }
  assert (Hlen : zlen (take 16 (s :: p)) = if zlen p <? 16 then zlen p + 1 else zlen p).
  { unfold zlen in *. rewrite length_take. cbn [length]. destruct (Z.ltb_spec (Z.of_nat (length p)) 16); lia. }
  assert (Hmod : Z.rem (h_head h + 1) SHELL_HISTORY_SIZE = (h_head h + 1) mod 16).
  { unfold SHELL_HISTORY_SIZE. apply Z.rem_mod_nonneg; lia. }
  split; cbn [h_rows h_count h_head h_nav]; rewrite ?Hset, ?Hmod; [| | | |apply Z.mod_pos_bound; lia|done|by right| |].
  - unfold zlen in *. by rewrite length_insert.
  - apply Forall_insert; [apply H|]. by rewrite Hl'.
  - rewrite (ring_count _ _ _ H), Hlen. done.
  - rewrite Hlen. destruct (Z.ltb_spec (zlen p) 16); lia.
  - intros i t Hi. apply lookup_take_Some in Hi as [Hi Hi16]. rewrite phys_eq by (cbn [h_head]; lia || (apply Z.mod_pos_bound; lia)).
    cbn [h_head]. rewrite <- (Z.sub_add_distr ((h_head h + 1) mod 16)), Zminus_mod_idemp_l.
    destruct i as [|i]; cbn [lookup list_lookup] in Hi.
    + injection Hi as <-. exists row'. split; [|done].
      replace (h_head h + 1 - (1 + Z.of_nat 0)) with (h_head h) by lia. rewrite Z.mod_small by lia.
      apply list_lookup_insert_eq. unfold zlen in *. lia.
    + destruct (ring_past _ _ _ H _ _ Hi) as (r & Hr & Htr). pose proof (lookup_lt_Some _ _ _ Hi).
      exists r. split; [|done]. rewrite phys_eq in Hr by (lia || apply H).
      replace (h_head h + 1 - (1 + Z.of_nat (S i))) with (h_head h - 1 - Z.of_nat i) by lia.
      rewrite list_lookup_insert_ne; [done|]. intros E.
      pose proof (Z.mod_pos_bound (h_head h - 1 - Z.of_nat i) 16 ltac:(lia)).
      assert (Em : (h_head h - 1 - Z.of_nat i) mod 16 = h_head h) by lia.
      pose proof (Z.div_mod (h_head h - 1 - Z.of_nat i) 16). lia.
  - apply Forall_take. constructor; [done|apply H].
Qed.

Lemma save_history_ok h p n s :
  ring_ok h p n -> nonzero s -> s <> [] -> zlen s <= 158 ->
  completes (shell_save_history s h) (fun h' => exists p', ring_ok h' p' (-1) /\ remember s p p').
Proof.
  intros H Hn Hne Hs. unfold shell_save_history. destruct s as [|c0 s0] eqn:Es; [done|]. rewrite <- Es in *. clear Hne.
  eapply completes_bind; [by apply (is_newest_ok h p n s)|]. intros [] Hdup.
  - apply completes_Ret. exists p. split; [|right; auto]. destruct H. split; try done. by right.
  - pose proof (ring_head _ _ _ H) as Hh. pose proof (ring_rows _ _ _ H) as Hrows.
    destruct (lookup_lt_is_Some_2 (h_rows h) (Z.to_nat (h_head h))) as [row Hrow]; [unfold zlen in *; lia|].
    rewrite (rd_lookup (h_rows h) (h_head h) row ltac:(lia) Hrow). cbn [mbind outcome_bind].
    pose proof (ring_row _ _ _ H) as Hall. rewrite Forall_lookup in Hall. pose proof (Hall _ _ Hrow) as Hr160. cbn beta in Hr160.
    assert (Hfit : (length (s ++ [0%Z]) <= Z.to_nat SHELL_LINE_MAX)%nat).
    { rewrite length_app. change (Z.to_nat SHELL_LINE_MAX) with 160%nat. unfold zlen in Hs. cbn [length]. lia. }
    rewrite (take_ge (s ++ [0])) by done.
    destruct (put_text row s) as (row' & -> & Ht' & Hl'); [lia|]. cbn [mbind outcome_bind].
    unfold wr. rewrite (proj2 (Z.leb_le _ _)), (proj2 (Z.ltb_lt (h_head h) (zlen (h_rows h)))) by lia.
    cbn [andb mbind outcome_bind]. apply completes_Ret. exists (take 16 (s :: p)).
    split; [|by left]. apply (ring_push h p n s row' H Hn Ht'). by rewrite Hl'.
Qed.

(** ** Completion *)

Lemma streq_true a b : streq a b = true -> a = b.
Proof.
  revert b. induction a as [|x a IH]; intros [|y b]; cbn; try done.
  intros [E%Z.eqb_eq H]%andb_true_iff. f_equal; [done|by apply IH].
Qed.

Lemma common_part_prefix a b : common_part a b `prefix_of` a.
Proof.
  revert b. induction a as [|x a IH]; intros [|y b]; cbn [common_part]; try apply prefix_nil.
  destruct (y =? x); [by apply prefix_cons|apply prefix_nil].
Qed.

Lemma common_part_self a b : a `prefix_of` b -> common_part a b = a.
Proof.
  intros [k ->]. induction a as [|x a IH]; [by destruct k|]. cbn [common_part app]. by rewrite Z.eqb_refl, IH.
Qed.

Lemma lcp_fold token first cmds p :
  p `prefix_of` first ->
  fold_left (fun p cand => if negb (starts_with cand token) || streq cand first then p else common_part p cand) cmds p =
  fold_left common_part (filter (fun c => starts_with c token = true) cmds) p.
Proof.
  revert p. induction cmds as [|c cmds IH]; intros p Hp; [done|]. cbn [fold_left]. rewrite filter_cons.
  destruct (starts_with c token); cbn [negb orb].
  - rewrite decide_True by done. cbn [fold_left]. destruct (streq c first) eqn:E.
    + apply streq_true in E as ->. rewrite common_part_self by done. by apply IH.
    + apply IH. etrans; [apply common_part_prefix|done].
  - rewrite decide_False by done. by apply IH.
Qed.

Lemma lcp_common token first r : matches token = first :: r -> lcp_of token first = common_start token.
Proof.
  intros E. unfold lcp_of, common_start. rewrite E, lcp_fold by done.
  change (filter (fun c => starts_with c token = true) shell_commands) with (matches token). rewrite E.
  cbn [fold_left]. by rewrite common_part_self.
Qed.

Lemma fold_common_prefix l p : fold_left common_part l p `prefix_of` p.
Proof.
  revert p. induction l as [|c l IH]; intros p; [done|]. cbn [fold_left]. etrans; [apply IH|apply common_part_prefix].
Qed.

(** The commands are short and hold no NUL. *)
Lemma commands_ok : Forall (fun c => nonzero c /\ (length c <= 20)%nat) shell_commands.
Proof.
  assert (B : forallb (fun c => forallb (fun x => negb (x =? 0)) c && (length c <=? 20)%nat) shell_commands = true)
    by (vm_compute; reflexivity).
  rewrite forallb_forall in B. apply List.Forall_forall. intros c Hc. apply B in Hc.
  apply andb_true_iff in Hc as [H1 H2%Nat.leb_le]. split; [|done]. apply List.Forall_forall. intros x Hx.
  rewrite forallb_forall in H1. apply H1, negb_true_iff, Z.eqb_neq in Hx. done.
Qed.

Lemma matches_ok token : Forall (fun c => nonzero c /\ (length c <= 20)%nat) (matches token).
Proof.
  pose proof commands_ok as H. rewrite !Forall_forall in *. intros c Hc. apply H.
  unfold matches in Hc. rewrite <- list_elem_of_In in *. by apply list_elem_of_filter in Hc as [_ Hc].
Qed.

Lemma common_start_nonzero token : nonzero (common_start token).
Proof.
  unfold common_start. pose proof (matches_ok token) as H. destruct (matches token) as [|m r]; [constructor|].
  apply Forall_inv in H as [H _]. destruct (fold_common_prefix r m) as [k E]. unfold nonzero in *.
  rewrite E in H. by apply Forall_app in H as [H _].
Qed.

(** The hint of a single match is printed from inside the command. *)
Definition hint_ok (d : doc) : Prop :=
  match matches (word (before d)) with
  | [m] => (length (word (before d)) < length m)%nat -> (length (before d) <= length m)%nat
  | _ => True
  end.

Lemma content_159 e d : shows e d -> zlen (content d) <= 159.
Proof. intros H. pose proof (text_in_length _ _ (sh_text _ _ H)). rewrite (sh_size _ _ H) in *. lia. Qed.

Lemma room_eq e d fill : shows e d -> room e fill = take (159 - length (content d)) fill.
Proof.
  intros H. unfold room. rewrite (sh_len _ _ H). pose proof (content_159 _ _ H). unfold SHELL_LINE_MAX, zlen in *.
  destruct (Z.leb_spec (160 - 1) (Z.of_nat (length (content d)) + Z.of_nat (length fill))).
  - f_equal. lia.
  - rewrite take_ge; [done|lia].
Qed.

(** Filling in the completion, however it was found. *)
Lemma fill_completion_ok e d fill :
  shows e d -> fill = drop (length (word (before d))) (common_start (word (before d))) ->
  completes (fill_in (room e fill) e) (fun e' => shows e' (Doc (before d ++ completion d) (after d) (past d) (nav d))).
Proof.
  intros H ->. rewrite (room_eq e d _ H). fold (completion d). pose proof (content_159 _ _ H).
  apply fill_in_ok; [done| |].
  - unfold completion. apply Forall_take, Forall_drop, common_start_nonzero.
  - unfold completion, zlen in *. rewrite length_take. lia.
Qed.

Lemma doc_same d : Doc (before d ++ []) (after d) (past d) (nav d) = d.
Proof. destruct d. cbn. by rewrite app_nil_r. Qed.

Lemma tab_single_ok e d m :
  shows e d -> matches (word (before d)) = [m] -> hint_ok d ->
  completes (tab_single m (word (before d)) (zlen (before d) - zlen (word (before d))) e) (fun e' =>
    shows e' (Doc (before d ++ completion d) (after d) (past d) (nav d))).
Proof.
  intros H Em Hh. unfold tab_single. unfold hint_ok in Hh. rewrite Em in Hh.
  pose proof (matches_ok (word (before d))) as Hm. rewrite Em in Hm. apply Forall_inv in Hm as [_ Hm].
  rewrite (take_ge m) by (change (Z.to_nat (SHELL_LINE_MAX - 1)) with 159%nat; lia).
  assert (Ec : common_start (word (before d)) = m) by (unfold common_start; by rewrite Em).
  destruct (Z.ltb_spec 0 (zlen (drop (length (word (before d))) m))) as [Hf|Hf].
  - unfold zlen in Hf. rewrite length_drop in Hf. unfold shell_draw_hint.
    replace (zlen (before d) - zlen (word (before d)) + zlen (word (before d))) with (zlen (before d)) by lia.
    rewrite (proj2 (Z.leb_le 0 _)), (proj2 (Z.leb_le (zlen (before d)) _)) by (unfold zlen; lia). cbn [andb mbind outcome_bind].
    match goal with |- context [say ?o e] => pose proof (shows_say o e d H) as Hs; set (e1 := say o e) in * end.
    change (room e (drop (length (word (before d))) m)) with (room e1 (drop (length (word (before d))) m)).
    eapply completes_bind; [apply (fill_completion_ok e1 d _ Hs); by rewrite Ec|].
    intros e2 He2. eapply completes_mono; [apply redraw_ok; exact He2|]. by intros ? [? _].
  - apply completes_Ret. unfold completion. rewrite Ec.
    rewrite (nil_length_inv (drop (length (word (before d))) m)) by (unfold zlen in Hf; lia).
    by rewrite take_nil, doc_same.
Qed.

Lemma tab_many_ok e d m r :
  shows e d -> matches (word (before d)) = m :: r ->
  completes (tab_many m (word (before d)) e) (fun e' =>
    shows e' (Doc (before d ++ completion d) (after d) (past d) (nav d))).
Proof.
  intros H Em. unfold tab_many. rewrite (lcp_common _ _ _ Em).
  set (lcp := common_start (word (before d))). set (fill := drop (length (word (before d))) lcp).
  eapply (completes_bind _ _ (fun e1 => shows e1 (Doc (before d ++ completion d) (after d) (past d) (nav d)))).
  - assert (Hnil : room e fill = [] -> completes (Ret e) (fun e1 => shows e1 (Doc (before d ++ completion d) (after d) (past d) (nav d)))).
    { intros E. apply completes_Ret. rewrite (room_eq _ _ _ H) in E. unfold completion. fold lcp fill. by rewrite E, doc_same. }
    destruct (Z.ltb_spec (zlen (word (before d))) (zlen lcp)).
    + destruct (Z.ltb_spec 0 (zlen (room e fill))); [by apply fill_completion_ok|].
      apply Hnil, nil_length_inv. unfold zlen in *. lia.
    + apply Hnil. rewrite (room_eq _ _ _ H). apply nil_length_inv. unfold fill, zlen in *.
      rewrite length_take, length_drop. lia.
  - intros e1 H1. rewrite (c_string_ok _ _ (sh_text _ _ H1) (sh_chars _ _ H1)). cbn [mbind outcome_bind].
    apply completes_Ret. by apply shows_say.
Qed.

Lemma tab_ok e d :
  shows e d -> hint_ok d ->
  completes (shell_tab_complete e) (fun e' => shows e' (Doc (before d ++ completion d) (after d) (past d) (nav d))).
Proof.
  intros H Hh. unfold shell_tab_complete, shell_token_start. pose proof (sh_text _ _ H) as Ht. unfold content in Ht.
  rewrite (sh_pos _ _ H), nat_zlen, (token_start_ok _ _ _ Ht). cbn [mbind outcome_bind].
  set (t := trim (fun c => negb (is_blank c)) (before d)).
  destruct (trim_split (fun c => negb (is_blank c)) (before d)) as (w & Ew & _). fold t in Ew.
  assert (Hw : word (before d) = w) by (unfold word; fold t; rewrite Ew at 1; by rewrite drop_app_length).
  replace (zlen (before d) - zlen t) with (zlen w) by (rewrite Ew at 1; rewrite zlen_app; lia).
  rewrite (copy_out_text _ t w (after d)) by (rewrite app_assoc, <- Ew; done). cbn [mbind outcome_bind].
  rewrite <- Hw. change (filter (fun c => starts_with c (word (before d)) = true) shell_commands) with (matches (word (before d))).
  destruct (matches (word (before d))) as [|m [|m2 r]] eqn:Em.
  - apply completes_Ret. unfold completion, common_start. rewrite Em. by rewrite drop_nil, take_nil, doc_same.
  - replace (zlen t) with (zlen (before d) - zlen (word (before d))) by (rewrite Hw, Ew at 1; rewrite zlen_app; lia).
    by apply tab_single_ok.
  - by eapply tab_many_ok.
Qed.

(** ** All keys *)
Section world.
Context {W : Type} (exec : history -> list Z -> W -> outcome (list Z * W)).
Context (Hexec : forall h s w, completes (exec h s w) (fun _ => True)).

Lemma line_limit_78 x : line_limit x = 78.
Proof. reflexivity. Qed.

(** The line [s] has been executed: the command got it, and the history with the lines
    [p]. *)
Definition executed (s : list Z) (p : list (list Z)) (w w' : W) : Prop :=
  exists h out, ring_ok (set_nav (-1) h) p (-1) /\ exec h s w = Ret (out, w').

Lemma enter_ok e d w :
  shows e d -> zlen (content d) <= 158 ->
  completes (enter exec e w) (fun s => exists d', shows s.1 d' /\ executed (content d) (past d') w s.2 /\
    before d' = [] /\ after d' = [] /\ nav d' = -1 /\
    (if zlen (content d) =? 0 then past d' = past d else remember (content d) (past d) (past d'))).
Proof.
  intros H Hl. unfold enter. pose proof (sh_text _ _ H) as Ht. rewrite <- (app_nil_r (content d)) in Ht.
  rewrite (sh_len _ _ H). eapply completes_bind; [exact (cut_text _ _ _ Ht)|]. intros l [Hl1 Hl2].
  rewrite (c_string_ok _ _ Hl1 (sh_chars _ _ H)). cbn [mbind outcome_bind].
  eapply (completes_bind _ _ (fun h => exists p', ring_ok (set_nav (-1) h) p' (-1) /\
    (if zlen (content d) =? 0 then p' = past d else remember (content d) (past d) p'))).
  { pose proof (zlen_nonneg (content d)). destruct (Z.ltb_spec 0 (zlen (content d))).
    - rewrite (proj2 (Z.eqb_neq _ 0)) by lia. eapply completes_mono.
      + apply (save_history_ok _ _ _ _ (sh_hist _ _ H) (sh_chars _ _ H)); [|done]. intros E. rewrite E in *. done.
      + intros h' (p' & [] & Hp). exists p'. split; [by split|done].
    - rewrite (proj2 (Z.eqb_eq _ 0)) by lia. apply completes_Ret. exists (past d). split; [|done].
      destruct (sh_hist _ _ H). split; try done. by right. }
  intros h (p' & Hr & Hp). destruct (Hexec h (content d) w) as ([o w'] & Ex & _). rewrite Ex. cbn [mbind outcome_bind fst snd].
  eapply completes_bind.
  { apply (clear_line_ok _ (Doc (before d) (after d) p' (-1))). destruct H as [? ? ? ? ? ? ?].
    split; try done. cbn [set_hist say set_line e_line]. by rewrite Hl2. }
  intros e1 H1. apply completes_Ret. cbn [fst]. exists (Doc [] [] p' (-1)). split; [rewrite line_limit_78; by destruct H1|].
  split; [|done]. by exists h, o.
Qed.

Lemma on_extended_ok sc e d : shows e d -> completes (on_extended sc e) (fun e' => shows e' (doc_extended sc d)).
Proof.
  intros H. unfold on_extended. destruct (Z.eqb_spec sc 0x48) as [->|N1]; [by apply key_up_ok|].
  destruct (Z.eqb_spec sc 0x50) as [->|N2]; [by apply key_down_ok|].
  pose proof (sh_len _ _ H) as El. pose proof (sh_pos _ _ H) as Ep.
  destruct d as [b a p n]. unfold doc_extended, content in *. cbn [before after past nav] in *.
  rewrite (proj2 (Z.eqb_neq sc 0x48)), (proj2 (Z.eqb_neq sc 0x50)) by done.
  destruct (sc =? 0x4B); [|destruct (sc =? 0x4D); [|destruct (sc =? 0x47); [|destruct (sc =? 0x4F); [|destruct (sc =? 0x53)]]]].
  - apply completes_Ret. destruct b as [|c b _] using rev_ind.
    + rewrite (proj2 (Z.ltb_ge _ _)) by (change (zlen (@nil Z)) with 0 in Ep; lia). done.
    + rewrite rev_app_distr. cbn [rev app]. rewrite rev_involutive. rewrite zlen_snoc in Ep. pose proof (zlen_nonneg b).
      rewrite (proj2 (Z.ltb_lt _ _)) by lia. replace (e_pos e - 1) with (zlen b) by lia.
      apply (set_pos_ok e _ b (c :: a) H). unfold content. cbn. by rewrite <- app_assoc.
  - apply completes_Ret. rewrite zlen_app in El. destruct a as [|c a].
    + rewrite (proj2 (Z.ltb_ge _ _)) by (change (zlen (@nil Z)) with 0 in El; lia). done.
    + rewrite zlen_cons in El. pose proof (zlen_nonneg a). rewrite (proj2 (Z.ltb_lt _ _)) by lia.
      rewrite Ep, <- zlen_snoc with (c := c). apply (set_pos_ok e _ (b ++ [c]) a H). unfold content. cbn. by rewrite <- app_assoc.
  - apply redraw_all_ok, (set_pos_ok e _ [] (b ++ a) H eq_refl).
  - apply redraw_all_ok. rewrite El. apply (set_pos_ok e _ (b ++ a) [] H). apply app_nil_r.
  - exact (key_delete_ok e _ H).
  - by apply completes_Ret.
Qed.

(** Where the handler has no way out of its arrays: a line of 159 characters is
    not entered, and a hint is printed from inside the command. *)
Definition allowed (ev : key_event) (d : doc) : Prop :=
  (is_enter ev = true -> zlen (content d) <= 158) /\ (ascii ev = 9 -> hint_ok d).

Lemma on_ascii_ok c e d w :
  shows e d -> (c =? 13) || (c =? 10) = false -> (c = 9 -> hint_ok d) ->
  completes (on_ascii exec c e w) (fun s => shows s.1 (doc_ascii c d) /\ s.2 = w).
Proof.
  intros H Hc Hh. unfold on_ascii. rewrite Hc. cbv iota.
  eapply (completes_bind _ _ (fun e' => shows e' (doc_ascii c d))); [|intros e' He; by apply completes_Ret].
  pose proof (sh_len _ _ H) as El. pose proof (sh_pos _ _ H) as Ep. pose proof (sh_text _ _ H) as Ht.
  destruct d as [b a p n]. unfold doc_ascii, content in *. cbn [before after past nav] in *.
  repeat match goal with |- context [if ?x =? ?y then _ else _] => destruct (Z.eqb_spec x y) end.
  - eapply completes_bind; [by apply (clear_line_ok _ (Doc b a p n)), shows_say|].
    intros e1 H1. apply completes_Ret. apply shows_say. apply (shows_nav (set_displayed 0 e1) (Doc [] [] p n) (-1)); [|by right].
    by apply shows_displayed.
  - apply redraw_all_ok, (set_pos_ok e _ [] (b ++ a) H eq_refl).
  - apply redraw_all_ok. rewrite El. apply (set_pos_ok e _ (b ++ a) [] H). apply app_nil_r.
  - rewrite Ep. eapply completes_bind; [exact (cut_text _ _ _ Ht)|]. intros l [Hl1 Hl2].
    assert (S : shows (set_line l (zlen b) (zlen b) e) (Doc b [] p n)).
    { pose proof (shows_set l b [] e _ p n H) as S. rewrite !app_nil_r in S. apply S; try done.
      - by rewrite Hl2, (sh_size _ _ H).
      - pose proof (sh_chars _ _ H) as Hn. unfold content in Hn. cbn in Hn. rewrite nonzero_app in Hn. tauto. }
    unfold redraw, shell_redraw_line, start_col, console_cols, console_get_cursor. cbn [snd set_line e_line].
    change ((if 0 <? 80 then 80 - 0 else 0) =? 0) with false. cbv iota.
    rewrite (c_string_ok l b Hl1); [|pose proof (sh_chars _ _ S) as Hn; unfold content in Hn; cbn in Hn; by rewrite app_nil_r in Hn].
    cbn [mbind outcome_bind]. apply completes_Ret. by destruct S.
  - eapply completes_bind; [by apply (clear_line_ok _ (Doc b a p n))|]. intros e1 H1.
    eapply completes_bind; [apply redraw_ok; exact H1|]. intros e2 (H2 & _). apply completes_Ret. by apply shows_displayed.
  - exact (kill_word_ok e _ H).
  - eapply completes_bind; [apply (tab_ok e (Doc b a p n) H); by apply Hh|]. intros e1 H1.
    apply completes_Ret. by apply shows_displayed.
  - destruct ((c =? 8) || (c =? 127)); [exact (backspace_ok e _ H)|]. rewrite El, (sh_max _ _ H).
    replace (zlen (b ++ a) <? 78) with (length (b ++ a) <? limit)%nat.
    2: { unfold zlen, limit. destruct (Nat.ltb_spec (length (b ++ a)) 78), (Z.ltb_spec (Z.of_nat (length (b ++ a))) 78); lia || done. }
    destruct ((32 <=? c) && (c <=? 126) && (length (b ++ a) <? limit)%nat) eqn:Ei; [|by apply completes_Ret].
    apply andb_true_iff in Ei as [[Hc1%Z.leb_le _]%andb_true_iff Hlim%Nat.ltb_lt]. unfold limit in Hlim.
    apply (insert_char_ok e (Doc b a p n) c H); [lia|]. unfold content, zlen. cbn [before after]. lia.
Qed.

(** What a key does to the document and to the rest of the system: Enter executes the
    line, other keys leave the system alone. *)
Definition key_step (ev : key_event) (d : doc) (w : W) (d' : doc) (w' : W) : Prop :=
  doc_step ev d d' /\ if is_enter ev then executed (content d) (past d') w w' else w' = w.

(** One event. *)
Lemma on_event_ok ev e d w :
  shows e d -> allowed ev d ->
  completes (on_event exec ev e w) (fun s => exists d', key_step ev d w d' s.2 /\ shows s.1 d').
Proof.
  intros H [Hen Htab]. unfold on_event, key_step, doc_step, is_enter in *.
  destruct (Z.eqb_spec (pressed ev) 0) as [E|E]; cbn [negb andb] in *.
  { apply completes_Ret. by exists d. }
  destruct (Z.eqb_spec (extended ev) 0) as [E'|E']; cbn [negb andb] in *.
  - destruct ((ascii ev =? 13) || (ascii ev =? 10)) eqn:En.
    + eapply completes_mono; [unfold on_ascii; rewrite En; apply (enter_ok e d w H); auto|].
      intros s (d' & Hs & ? & ? & ? & ? & ?). by exists d'.
    + eapply completes_mono; [by apply (on_ascii_ok _ e d w H)|]. intros s [Hs Hw]. by eexists.
  - eapply completes_bind; [by apply on_extended_ok|]. intros e' He. apply completes_Ret. by eexists.
Qed.

(** A sequence of events on a document and the system. *)
Fixpoint doc_run (evs : list key_event) (d : doc) (w : W) (d' : doc) (w' : W) : Prop :=
  match evs with
  | [] => d' = d /\ w' = w
  | ev :: r => exists d1 w1, key_step ev d w d1 w1 /\ doc_run r d1 w1 d' w'
  end.

Definition short (d : doc) : Prop := (length (content d) <= limit)%nat.

Lemma trim_length P l : (length (trim P l) <= length l)%nat.
Proof. destruct (trim_split P l) as (t & E & _). rewrite E at 2. rewrite length_app. lia. Qed.

Lemma recalled_short n d : short d -> short (recalled n d).
Proof.
  unfold recalled, short, content. case_match; [|done]. cbn [before after]. intros _.
  rewrite app_nil_r, length_take. lia.
Qed.

(** Without completion a line stays within the limit. *)
Lemma doc_step_short ev d d' : short d -> ascii ev <> 9 -> doc_step ev d d' -> short d'.
Proof.
  intros Hs Ht. unfold doc_step. destruct (is_enter ev).
  { intros (E1 & E2 & _). unfold short, content. rewrite E1, E2. cbn. lia. }
  destruct d as [b a p n]. assert (Hs' : (length (b ++ a) <= limit)%nat) by exact Hs. rewrite length_app in Hs'.
  destruct (pressed ev =? 0); [by intros ->|]. destruct (negb (extended ev =? 0)); intros ->; unfold doc_extended, doc_ascii.
  - repeat case_match; subst; try (by apply recalled_short); try done; unfold short, content; cbn [before after];
      rewrite ?length_app, ?length_rev, ?length_drop; cbn [length] in Hs' |- *; try lia.
    match goal with E : rev b = _ |- _ => apply (f_equal length) in E; rewrite length_rev in E; cbn in E end. lia.
  - rewrite (proj2 (Z.eqb_neq (ascii ev) 9)) by done.
    destruct ((32 <=? ascii ev) && (ascii ev <=? 126) && (length (b ++ a) <? limit)%nat) eqn:Ei;
      [apply andb_true_iff in Ei as [_ Hlim%Nat.ltb_lt]; rewrite length_app in Hlim|];
      repeat case_match; try done; unfold short, content; cbn [before after];
      rewrite ?length_app; cbn [length]; try lia;
      try (pose proof (trim_length (fun c => c =? 32) b);
           pose proof (trim_length (fun c => negb (c =? 32)) (trim (fun c => c =? 32) b)); lia);
      rewrite removelast_firstn_len, length_take; lia.
Qed.

Lemma shell_loop_ok evs e d w :
  shows e d -> short d -> Forall (fun ev => ascii ev <> 9) evs ->
  completes (shell_loop exec evs e w) (fun s => exists d', doc_run evs d w d' s.2 /\ shows s.1 d').
Proof.
  intros H Hs Hev. revert e d w H Hs. induction Hev as [|ev evs Hev _ IH]; intros e d w H Hs; cbn [shell_loop doc_run].
  - apply completes_Ret. by exists d.
  - eapply completes_bind.
    { apply (on_event_ok ev e d w H). split; [|done]. intros _. unfold short, limit in Hs. unfold zlen. lia. }
    intros s (d1 & Hd & H1). eapply completes_mono; [apply (IH s.1 d1 s.2 H1); eapply doc_step_short; [done|done|apply Hd]|].
    intros s' (d' & Hr & H'). exists d'. split; [by exists d1, s.2|done].
Qed.

End world.

Lemma ring_initial : ring_ok history_initial [] (-1).
Proof. split; try done; try (by right); cbn; repeat constructor; done. Qed.

Lemma shell_start_ok garbage :
  zlen garbage = 160 -> completes (shell_start garbage) (fun e => shows e (Doc [] [] [] (-1))).
Proof.
  intros Hg. unfold shell_start. destruct garbage as [|x g]; [done|]. cbn. apply completes_Ret.
  split; try done.
  - by exists g.
  - unfold nonzero. constructor.
  - apply ring_initial.
Qed.

(** C20: the line editor is a document with a cursor and a memory of past lines.
    Whatever sequence of key events arrives after the shell starts, Tab
    excepted, and whatever the commands entered do as long as they return, the editor
    never leaves its
    line array, its history ring or the rows of the ring, and the line, the
    cursor and the history it holds are those of the document: typed characters
    go before the cursor up to 78 of them, the cursor and editing keys do what
    they say, and Enter executes exactly the text of the line, with the history in
    which it is the newest of at most 16 remembered lines, and empties the line; no
    other key affects the rest of the system. *)
Theorem editor_refines {W} (exec : history -> list Z -> W -> outcome (list Z * W)) garbage evs w :
  (forall h s w, completes (exec h s w) (fun _ => True)) -> zlen garbage = 160 ->
  Forall (fun ev => ascii ev <> 9) evs ->
  completes (e ← shell_start garbage; shell_loop exec evs e w) (fun s =>
    exists d, doc_run exec evs (Doc [] [] [] (-1)) w d s.2 /\ shows s.1 d).
Proof.
  intros Hx Hg Hev. eapply completes_bind; [by apply shell_start_ok|]. intros e He.
  apply (shell_loop_ok exec Hx evs e _ w He); [cbn; unfold short; cbn; lia|done].
Qed.

Definition type_in (s : string) : list key_event := map (KeyEvent 0 1 0) (txt s).

(** The commands that were executed. *)
Definition ex_exec (_ : history) (s : list Z) (w : list (list Z)) : outcome (list Z * list (list Z)) := Ret ([], w ++ [s]).

(** "ls", cursor left, "c", Enter. *)
Definition ex_keys : list key_event := type_in "ls"%string ++ [KeyEvent 0x4B 1 1 0] ++ type_in "c"%string ++ [KeyEvent 0 1 0 13].

Lemma editor_refines_witness :
  completes (e ← shell_start (replicate 160 7); shell_loop ex_exec ex_keys e [])
    (fun s => exists d, doc_run ex_exec ex_keys (Doc [] [] [] (-1)) [] d s.2 /\ shows s.1 d).
Proof.
  apply (editor_refines ex_exec (replicate 160 7) ex_keys []).
  - intros h s w. apply completes_Ret. exact I.
  - vm_compute. reflexivity.
  - vm_compute. repeat constructor; discriminate.
Defined.

(** Completion. Tab replaces the word before the cursor by the longest
    common start of the commands that the word starts, as far as the line has
    room, and leaves the rest of the line, the cursor after the new text; with
    one candidate this holds while the text before the cursor is no longer than
    the candidate. *)
Theorem tab_completes e d :
  shows e d -> hint_ok d ->
  completes (shell_tab_complete e) (fun e' => shows e' (Doc (before d ++ completion d) (after d) (past d) (nav d))).
Proof. apply tab_ok. Qed.

(** "ac" becomes "acpi", the common start of seven commands. *)
Definition ex_doc : doc := Doc (txt "ac"%string) [] [] (-1).

Definition ex_editor : editor :=
  Editor (txt "ac"%string ++ replicate 158 0) 2 2 2 78 history_initial [].

Lemma ex_shows : shows ex_editor ex_doc.
Proof.
  split; try reflexivity.
  - exists (replicate 157 0). reflexivity.
  - unfold nonzero. vm_compute. repeat constructor; discriminate.
  - apply ring_initial.
Qed.

Lemma tab_completes_witness :
  completes (shell_tab_complete ex_editor) (fun e' => shows e' (Doc (txt "acpi"%string) [] [] (-1))).
Proof.
  apply (tab_completes ex_editor ex_doc ex_shows). vm_compute. exact I.
Defined.

(** Completing a unique command after other words on the line leaves the
    command's text: for "echo abo" and Tab the hint is printed from offset 8 of
    the five characters "about" (the offset is that of the cursor in the line,
    not in the word). *)
Theorem hint_past_command :
  (e ← shell_start (replicate 160 0);
   shell_loop (fun _ _ w => Ret ([], w)) (type_in "echo abo"%string ++ [KeyEvent 0 1 0 9]) e tt) = Fault /\
  matches (txt "abo"%string) = [txt "about"%string].
Proof. split; vm_compute; reflexivity. Qed.

(** The test for a repeated line looks at the byte after the NUL: after a longer
    line in the same row, the repetition is not recognised. *)
Lemma repeated_line_kept :
  let rows := (txt "ls"%string ++ [0; 97] ++ replicate 156 0) :: replicate 15 (replicate 160 0) in
  is_newest (History rows 1 1 (-1)) (txt "ls"%string) = Ret false.
Proof. vm_compute. reflexivity. Qed.

End LineEditSpec.
