(* ===== verification/Stubs.v ===== *)
(** * Functions for absent hardware

    core/kernel_stubs.c: what each function prints or returns.  The memory
    figures are those of the frame allocator, in bytes. *)

From Stdlib Require Import String Ascii.
From stdpp Require Import base tactics list numbers.
From S2P Require Import Prelude CMem Libc Console Pmm.

Module Stubs.

(** A newline, then the text. *)
Definition line (s : string) : list Z := Console.console_write (10 :: Libc.text s).

Definition kernel_get_boot_info : Z := 0.
Definition net_device_count : Z := 0.
Definition net_get_device (i : Z) : Z := 0.
Definition net_format_hwaddr : list Z := [].
Definition power_qemu_exit : list Z := [].
Definition power_halt : list Z := [].
Definition power_suspend : list Z := [].
Definition sysinfo_is_qemu : Z := 1.
Definition sysinfo_cmd : list Z :=
  line "System Info:" ++ line "  Platform: Virtual Bare-metal (rv64/virt)" ++ line "  RAM: 128 MB" ++ Console.console_write [10].

Definition acpi_cmd_battery : list Z := line "ACPI: Not supported.".
Definition acpi_cmd_lid : list Z := line "ACPI: Not supported.".
Definition acpi_cmd_madt : list Z := line "ACPI: Not supported.".
Definition acpi_cmd_fadt : list Z := line "ACPI: Not supported.".
Definition acpi_cmd_tables : list Z := line "ACPI: Not supported.".
Definition acpi_cmd_summary : list Z :=
  line "ACPI: Initializing ACPI subsystem..." ++ line "ACPI: Subsystem ready (placeholder).".

Definition sdhci_cmd_info : list Z := line "SDHCI: Not supported.".
Definition pci_cmd_info : list Z := line "PCI: Not supported.".
Definition battery_cmd_info : list Z := line "Battery: Not supported.".
Definition smp_boot_aps : list Z := [].
Definition smp_cmd_info : list Z := line "SMP: Not supported.".
Definition smp_cpu_count : Z := 1.

Definition PAGE_SIZE : Z := 4096.
Definition ram_total_bytes (p : Pmm.pmm) : Z := u64 (Pmm.pmm_total_frames p * PAGE_SIZE).
Definition ram_used_bytes (p : Pmm.pmm) : outcome Z := n ← Pmm.pmm_count_used_frames p; Ret (u64 (n * PAGE_SIZE)).

Definition battery_percent : Z := -1.
Definition sdhci_is_available : Z := 0.
Definition status_refresh : list Z := [].
Definition status_print : list Z := line "[System Status: Normal]".

Definition qca6174_cmd_connect : list Z := line "WiFi: Not supported on this platform.".
Definition qca6174_cmd_info : list Z := line "WiFi: Not supported on this platform.".
Definition qca6174_cmd_scan : list Z := line "WiFi: Not supported on this platform.".
Definition qca6174_cmd_init_rings : list Z := [].
Definition qca6174_cmd_upload : list Z := [].
Definition qca6174_cmd_reset : list Z := [].
Definition net_cmd_info : list Z := line "Network: Not supported on this platform.".
Definition net_cmd_selftest : list Z := line "Network: Not supported on this platform.".

End Stubs.
