(* ===== verification/Shell.v ===== *)
(** * The command interpreter of the shell

    shell/shell.c: [shell_exec_command] with its built-in commands, and from
    shell/extra_cmds.c the scripts of [cmd_source], [cmd_bmesg] and
    [cmd_diskdump].  A command is a computation over the state of the system
    that prints: [sh S A].

    The commands reach files through an interface, [FileSystem], which Vfs
    implements ([vfs_files]); what they start elsewhere in the kernel (the
    language runtime, the ELF loader, power control, nano, the installer) is a
    [call] handed to the parameter [kernel].  Loops that read a file to its end take [fuel], one unit per read; sourcing a
    script from a script takes one more. *)

From Stdlib Require Import String Ascii.
From stdpp Require Import base tactics list numbers.
From S2P Require Import Prelude Digits CMem Telemetry Sched Vfs Libc Console TextBuf LineEdit Stubs.

Module Shell.
Import LineEdit Console.
Local Open Scope string_scope.
Local Open Scope list_scope.
Local Open Scope Z_scope.

(** ** Computations that print *)

Definition sh (S A : Type) : Type := S -> outcome (A * list Z * S).

Definition sh_ret {S A} (a : A) : sh S A := fun s => Ret (a, [], s).
Definition sh_bind {S A B} (m : sh S A) (f : A -> sh S B) : sh S B := fun s =>
  r ← m s;
  let '(a, o, s1) := r in
  r2 ← f a s1;
  let '(b, o2, s2) := r2 in
  Ret (b, o ++ o2, s2).

#[export] Instance sh_mret S : MRet (sh S) := fun A a => sh_ret a.
#[export] Instance sh_mbind S : MBind (sh S) := fun A B f m => sh_bind m f.

(** Code that prints nothing. *)
Definition quiet {S A} (m : S -> outcome (A * S)) : sh S A := fun s =>
  r ← m s; Ret (r.1, [], r.2).

Definition emit {S} (o : list Z) : sh S unit := fun s => Ret (tt, o, s).
Definition fault {S A} : sh S A := fun _ => Fault.

(** [console_write] of a string, of a literal after a newline, of a number. *)
Definition wrote {S} (s : list Z) : sh S unit := emit (console_write s).
Definition say {S} (t : string) : sh S unit := wrote (txt t).
Definition say_line {S} (t : string) : sh S unit := emit (Stubs.line t).
Definition say_u32 {S} (v : Z) : sh S unit := fun s => o ← console_u32 v; Ret (tt, o, s).

(** ** Files *)

Class FileSystem (S : Type) := {
  fs_read : list Z -> Z -> Z -> S -> outcome (Z * list Z * S);
  fs_write : list Z -> Z -> list Z -> S -> outcome (Z * S);
  fs_create : list Z -> S -> outcome (Z * S);
  fs_mkdir : list Z -> S -> outcome (Z * S);
  fs_unlink : list Z -> S -> outcome (Z * S);
  fs_rm_rf : list Z -> S -> outcome (Z * S);
  fs_stat : list Z -> S -> outcome (Z * Vfs.vfs_stat_t * S);
  fs_ls : list Z -> S -> outcome (list Z * S);
  fs_readdir : list Z -> S -> outcome (Z * list Vfs.dir_entry * S);
  fs_embedded : list Z -> option (list Z) }.

(** The virtual filesystem.  Its listing is printed item by item. *)
Definition print_item (i : Vfs.ls_item) : outcome (list Z) :=
  match i with
  | Vfs.LsText t => Ret (console_write (txt t))
  | Vfs.LsName n => Ret (console_write n)
  | Vfs.LsU32 v => console_u32 v
  end.

Fixpoint print_items (l : list Vfs.ls_item) : outcome (list Z) :=
  match l with
  | [] => Ret []
  | i :: r => o ← print_item i; o2 ← print_items r; Ret (o ++ o2)
  end.

Definition vfs_files {W} (br : Vfs.bridge W) (stack_bottom : Z) (st0 : Vfs.vfs_stat_t) (es0 : list Vfs.dir_entry)
  (files : list (list Z * list Z)) (depth : nat) : FileSystem (Vfs.vstate W) := {|
  fs_read := Vfs.vfs_read br stack_bottom;
  fs_write := Vfs.vfs_write br stack_bottom;
  fs_create := Vfs.vfs_create br;
  fs_mkdir := Vfs.vfs_mkdir br;
  fs_unlink := Vfs.vfs_unlink br;
  fs_rm_rf := Vfs.vfs_rm_rf br st0 es0 depth;
  fs_stat path := Vfs.vfs_stat br path st0;
  fs_ls path s := '(items, s1) ← Vfs.vfs_ls br es0 path s; o ← print_items items; Ret (o, s1);
  fs_readdir path := Vfs.vfs_readdir br path es0;
  fs_embedded path := (Vfs.vfs_get_embedded_data files path).1 |}.

(** ** Calls into the rest of the kernel *)

Inductive call :=
| CInstall | CCurl (args : list Z) | CSwapInfo | CTrace (args : list Z)
| CDmesgSave | CShutdown | CReboot
| CNano (path : list Z) | CRunFile (path : list Z) | CSageExecute (name : list Z) | CSageReset | CSageShell
| CElfExec (data : list Z) | CExecve (path : list Z) (argv : list (list Z))
| CDiskdump (lba : Z).

(** ** Words *)

Definition is_space (c : Z) : bool := (c =? 32) || (c =? 9).

Fixpoint skip_spaces (s : list Z) : list Z :=
  match s with
  | c :: r => if is_space c then skip_spaces r else s
  | [] => []
  end.

Fixpoint starts_word (line word : list Z) : bool :=
  match word, line with
  | [], [] => true
  | [], c :: _ => is_space c
  | _ :: _, [] => false
  | w :: word', c :: line' => (c =? w) && starts_word line' word'
  end.

(** [while ( *cmd && *line == *cmd)]: past the common start, then the blanks. *)
Fixpoint past_common (line cmd : list Z) : list Z :=
  match cmd, line with
  | d :: cmd', c :: line' => if c =? d then past_common line' cmd' else line
  | _, _ => line
  end.

Definition arg_after (line cmd : list Z) : list Z := skip_spaces (past_common line cmd).

(** The characters before the first one that [P] accepts, and the rest. *)
Fixpoint span (P : Z -> bool) (s : list Z) : list Z * list Z :=
  match s with
  | c :: r => if P c then ([], s) else let '(a, b) := span P r in (c :: a, b)
  | [] => ([], [])
  end.

(** What [help] prints, line by line. *)
Definition help_lines : list string :=
  [ "Commands:";
    "  help              show this help";
    "  clear             clear console";
    "  neofetch          system information fetch";
    "  btop              resource monitor";
    "  version           show version";
    "  uname             show system id";
    "  about             project summary";
    "  sysinfo           CPU frequency, RAM, and storage usage";
    "  exit              exit QEMU (no-op on real hardware)";
    EmptyString;
    "Filesystem:";
    "  pwd               print working directory";
    "  ls [path]         list directory (default: /)";
    "  cat <path>        print file contents";
    "  cp <src> <dst>    copy file";
    "  mkdir <path>      create a directory";
    "  touch <path>      create an empty file";
    "  rm <path>         remove a file or empty directory";
    "  stat <path>       show file/directory info";
    "  write <path> <s>  write text to a file";
    "  hexdump <path>    hex dump file (first 4KB)";
    "  nano <path>       edit a text file";
    "  sh <path>         run a shell script";
    "  source <path>     run a shell script";
    "  execelf <path>    execute ELF binary";
    EmptyString;
    "Shell editing:";
    "  Up/Down           history navigation (newest first)";
    "  Left/Right        cursor move";
    "  Home/End          jump to start/end of line";
    "  Tab               autocomplete / show completions";
    "  Ctrl-A / Ctrl-E   jump to start / end of line";
    "  Ctrl-K            kill to end of line";
    "  Ctrl-U            clear entire line";
    "  Ctrl-W            delete word backwards";
    "  Ctrl-C            cancel current line";
    EmptyString;
    "History:";
    "  history           show command history list";
    EmptyString;
    "Display:";
    "  echo <text>       print text";
    "  color <name>      white green amber blue red cyan purple reset";
    "  dmesg             early kernel log";
    "  bmesg             boot log from /fat32/BOOTLOG.TXT";
    "  fb                framebuffer info";
    "  input             input backend info";
    EmptyString;
    "Hardware & Platform:";
    "  status            show top-bar metrics";
    "  timer             show PIT timer info";
    "  sched             show scheduler queues and threads";
    "  smp               show CPU/APIC discovery";
    "  acpi              show ACPI summary";
    "  acpi tables       list ACPI tables";
    "  acpi fadt         show FADT power fields";
    "  acpi madt         show MADT/APIC fields";
    "  battery           show battery/EC detector";
    "  keydebug          raw keyboard scancode monitor";
    "  pci               list PCI devices";
    "  net               network stack and interface status";
    "  net selftest      build sample ARP and DHCP frames";
    "  wifi              QCA6174A Wi-Fi probe details";
    "  sdhci             eMMC/SD controller info";
    "  install           install to local drive";
    EmptyString;
    "SageLang:";
    "  sage              interactive SageLang REPL";
    "  sage run <path>   execute .sage or .sgvm file";
    "  sage reset        reset SageLang VM and heap";
    "  sagepkg           SageOS package manager";
    "  sageshell         launch SageShell";
    EmptyString;
    "Power:";
    "  shutdown          ACPI S5 shutdown";
    "  poweroff          alias for shutdown";
    "  suspend           ACPI S3 suspend";
    "  halt              halt CPU";
    "  reboot            reboot via i8042" ].

Definition help_text : list Z := concat (map (fun l => 10 :: txt l) help_lines).

(** The command token, at most 63 characters. *)
Definition command_token (cmdline : list Z) : list Z := take 63 (span is_space cmdline).1.

Section shell.
Context {S : Type} `{FileSystem S} (kernel : call -> S -> outcome (list Z * S)) (hist : history).
Context (fuel : nat).

Definition call_kernel (c : call) : sh S unit := fun s => r ← kernel c s; Ret (tt, r.1, r.2).

Definition strerror (e : Z) : list Z := txt (Vfs.vfs_strerror e).

(** [cmd: path: error] *)
Definition complain (cmd path : list Z) (e : Z) : sh S unit :=
  wrote (10 :: cmd);; say ": ";; wrote path;; say ": ";; wrote (strerror e).

Definition complain_short (cmd : list Z) (e : Z) : sh S unit :=
  wrote (10 :: cmd);; say ": ";; wrote (strerror e).

(** ** Embedded scripts and programs *)

Definition prefixes : list (list Z) := map txt ["/etc/commands/"; "/bin/"; "/etc/"]%string.
Definition suffixes : list (list Z) := map txt [".sgvm"; ".sage"; EmptyString]%string.

(** All candidate paths, in the order they are tried, cut to 127 characters. *)
Definition script_paths (cmd : list Z) : list (list Z) :=
  concat (map (fun p => map (fun s => take 127 (p ++ cmd ++ s)) suffixes) prefixes).

Fixpoint first_embedded (paths : list (list Z)) : option (list Z) :=
  match paths with
  | [] => None
  | p :: r => match fs_embedded p with Some _ => Some p | None => first_embedded r end
  end.

Definition try_run_embedded_sage (cmdline : list Z) : sh S bool :=
  match command_token cmdline with
  | [] => sh_ret false
  | cmd =>
      match first_embedded (script_paths cmd) with
      | Some p => call_kernel (CRunFile p);; sh_ret true
      | None => sh_ret false
      end
  end.

(** The arguments, at most 15; the fifteenth is not ended at a blank. *)
Fixpoint split_args (n : nat) (f : nat) (p : list Z) : list (list Z) :=
  match f, n with
  | Datatypes.S f', Datatypes.S n' =>
      match skip_spaces p with
      | [] => []
      | q => match n' with
             | O => [q]
             | _ => let '(a, r) := span is_space q in a :: split_args n' f' r
             end
      end
  | _, _ => []
  end.

Definition elf_prefixes : list (list Z) := map txt [EmptyString; "/bin/"; "/usr/bin/"]%string.

Fixpoint try_elf_paths (paths : list (list Z)) (argv : list (list Z)) : sh S bool :=
  match paths with
  | [] => sh_ret false
  | p :: r =>
      x ← quiet (fun s => '(res, st, s1) ← fs_stat p s; Ret (res, st, s1));
      if (x.1 =? Vfs.VFS_OK) && (Vfs.st_type x.2 =? Vfs.VFS_FILE) then call_kernel (CExecve p argv);; sh_ret true
      else try_elf_paths r argv
  end.

(** [arg_buf] has 160 bytes. *)
Definition try_run_elf (cmdline : list Z) : sh S bool :=
  match command_token cmdline with
  | [] => sh_ret false
  | cmd =>
      if SHELL_LINE_MAX <? zlen cmdline + 1 then fault
      else try_elf_paths (map (fun p => take 127 (p ++ cmd)) elf_prefixes) (split_args 15 (Datatypes.S (length cmdline)) cmdline)
  end.

(** ** Commands on files *)

(** [while (1) { n = vfs_read(...); ... }] of [cat]; the buffer is printed as a
    string, to its first NUL. *)
Fixpoint cat_loop (f : nat) (path : list Z) (off : Z) (first : bool) : sh S unit :=
  match f with
  | O => fun _ => OutOfFuel
  | Datatypes.S f' =>
      x ← quiet (fun s => '(n, d, s1) ← fs_read path off 512 s; Ret (n, d, s1));
      let '(n, d) := x in
      if n <? 0 then (if first then complain (txt "cat") path n else sh_ret tt)
      else if n =? 0 then sh_ret tt
      else
        (if first then say_line EmptyString else sh_ret tt);;
        wrote (span (fun c => c =? 0) d).1;;
        cat_loop f' path (off + n) false
  end.

Definition cmd_cat (path : list Z) : sh S unit := cat_loop fuel path 0 true.

Fixpoint cp_loop (f : nat) (src dst : list Z) (off : Z) (first : bool) : sh S unit :=
  match f with
  | O => fun _ => OutOfFuel
  | Datatypes.S f' =>
      x ← quiet (fun s => '(n, d, s1) ← fs_read src off 512 s; Ret (n, d, s1));
      let '(n, d) := x in
      if n <=? 0 then (if (n <? 0) && first then complain (txt "cp") src n else sh_ret tt)
      else
        r ← quiet (fs_write dst off d);
        if r <? 0 then say_line "cp: write error: ";; wrote (strerror r)
        else cp_loop f' src dst (off + n) false
  end.

Definition cmd_cp (args : list Z) : sh S unit :=
  let '(a, rest) := span (fun c => c =? 32) args in
  match rest with
  | [] => say_line "usage: cp <src> <dst>"
  | _ =>
      let src := take (Z.to_nat (Vfs.VFS_MAX_PATH - 1)) a in
      match skip_spaces rest with
      | [] => say_line "usage: cp <src> <dst>"
      | dst => quiet (fs_create dst);; cp_loop fuel src dst 0 true
      end
  end.

Definition hex_digit (d : Z) : Z := Libc.digit_char false d.

Definition hex_byte (b : Z) : list Z := [hex_digit (Z.shiftr b 4); hex_digit (Z.land b 15)].

(** The eight digits of the offset. *)
Definition hex_offset (off : Z) : list Z :=
  map (fun i => hex_digit (Z.land (Z.shiftr off (4 * (7 - Z.of_nat i))) 15)) (seq 0 8).

Definition hexdump_bytes (d : list Z) : list Z :=
  concat (map (fun i => (match d !! i with Some b => hex_byte b ++ [32] | None => [32; 32; 32] end) ++
                        (if Nat.eqb i 7 then [32] else [])) (seq 0 16)).

Definition printable (c : Z) : Z := if (32 <=? c) && (c <? 127) then c else 46.

Fixpoint hexdump_loop (f : nat) (path : list Z) (off : Z) (first : bool) : sh S unit :=
  match f with
  | O => fun _ => OutOfFuel
  | Datatypes.S f' =>
      x ← quiet (fun s => '(n, d, s1) ← fs_read path off 16 s; Ret (n, d, s1));
      let '(n, d) := x in
      if n <=? 0 then (if (n <? 0) && first then complain (txt "hexdump") path n else sh_ret tt)
      else
        wrote (10 :: hex_offset off);; say "  ";;
        emit (hexdump_bytes d);; say " |";;
        emit (map printable d);; emit [124];;
        if 4096 <=? off + n then say_line "(output truncated at 4KB)"
        else hexdump_loop f' path (off + n) false
  end.

Definition cmd_hexdump (path : list Z) : sh S unit :=
  match path with
  | [] => say_line "usage: hexdump <path>"
  | _ => hexdump_loop fuel path 0 true
  end.

Definition cmd_mkdir (path : list Z) : sh S unit :=
  match path with
  | [] => say_line "usage: mkdir <path>"
  | _ => r ← quiet (fs_mkdir path); if r <? 0 then complain_short (txt "mkdir") r else sh_ret tt
  end.

Definition cmd_touch (path : list Z) : sh S unit :=
  match path with
  | [] => say_line "usage: touch <path>"
  | _ =>
      r ← quiet (fs_create path);
      if (r <? 0) && negb (r =? Vfs.VFS_EEXIST) then complain_short (txt "touch") r else sh_ret tt
  end.

Definition cmd_rm (arg : list Z) : sh S unit :=
  let '(path, recursive) :=
    if starts_word arg (txt "-rf") then (arg_after arg (txt "-rf"), true)
    else if starts_word arg (txt "-r") then (arg_after arg (txt "-r"), true)
    else if starts_word arg (txt "-f") then (arg_after arg (txt "-f"), false)
    else (arg, false) in
  match path with
  | [] => say_line "usage: rm <path>"
  | _ =>
      r ← quiet (if (recursive : bool) then fs_rm_rf path else fs_unlink path);
      if r <? 0 then complain_short (txt "rm") r else sh_ret tt
  end.

Definition type_name (t : Z) : string :=
  if t =? Vfs.VFS_DIRECTORY then "directory"%string else if t =? Vfs.VFS_SYMLINK then "symlink"%string else "file"%string.

Definition cmd_stat (path : list Z) : sh S unit :=
  match path with
  | [] => say_line "usage: stat <path>"
  | _ =>
      x ← quiet (fun s => '(r, st, s1) ← fs_stat path s; Ret (r, st, s1));
      let '(r, st) := x in
      if r <? 0 then complain (txt "stat") path r
      else
        say_line "  File: ";; wrote (Vfs.st_name st);;
        say_line "  Type: ";; say (type_name (Vfs.st_type st));;
        say_line "  Size: ";; say_u32 (u32 (Vfs.st_size st));; say " B"
  end.

Definition cmd_write (rest : list Z) : sh S unit :=
  match rest with
  | [] => say_line "usage: write <path> <content>"
  | _ =>
      let '(a, p) := span (fun c => c =? 32) rest in
      let wpath := take (Z.to_nat (Vfs.VFS_MAX_PATH - 1)) a in
      let content := match p with [] => [] | _ :: c => c end in
      quiet (fs_create wpath);;
      r ← quiet (fs_write wpath 0 content);
      if r <? 0 then complain_short (txt "write") r else sh_ret tt
  end.

Definition cmd_ls (path : list Z) : sh S unit := fun s =>
  r ← fs_ls (match path with [] => txt "/" | _ => path end) s; Ret (tt, r.1, r.2).

Definition cmd_execelf (path : list Z) : sh S unit :=
  match path with
  | [] => say_line "usage: execelf <path>"
  | _ =>
      match fs_embedded path with
      | None => say_line "execelf: no such file: ";; wrote path
      | Some data => call_kernel (CElfExec data)
      end
  end.

(** [len > 5] and the last five characters. *)
Definition has_suffix (path suffix : list Z) : bool :=
  (5 <? zlen path) && bool_decide (drop (length path - 5) path = suffix).

Definition cmd_sage (name : list Z) : sh S unit :=
  if starts_word name (txt "run") then
    match arg_after name (txt "run") with
    | [] => say_line "usage: sage run <path>"
    | path => call_kernel (CRunFile path)
    end
  else if starts_word name (txt "reset") then
    call_kernel CSageReset;; say_line "SageLang VM and heap reset."
  else
    match skip_spaces name with
    | [] => call_kernel (CSageExecute name)
    | path =>
        let is_file_path := has_suffix path (txt ".sage") || has_suffix path (txt ".sgvm") || existsb (Z.eqb 47) path in
        x ← quiet (fun s => '(r, st, s1) ← fs_stat path s; Ret (r, st, s1));
        let '(r, st) := x in
        if r =? 0 then
          if Vfs.st_type st =? Vfs.VFS_DIRECTORY then
            say_line "sage: ";; wrote path;; say ": Is a directory"
          else if Vfs.st_type st =? Vfs.VFS_FILE then call_kernel (CRunFile path)
          else call_kernel (CSageExecute name)
        else if is_file_path then say_line "sage: ";; wrote path;; say ": No such file"
        else call_kernel (CSageExecute name)
    end.

(** The colour is not kept by this console; only the reply shows. *)
Definition cmd_color (name : list Z) : sh S unit :=
  if existsb (streq name) (map txt ["green"; "white"; "amber"; "blue"; "red"; "cyan"; "purple"]%string) then
    say_line "color set to ";; wrote name
  else if streq name (txt "reset") then say_line "color reset"
  else say_line "usage: color <white|green|amber|blue|red|cyan|purple|reset>".

(** [console_has_fb()] is 0. *)
Definition cmd_fb : sh S unit := say_line "Framebuffer:";; say "not available".

Fixpoint bmesg_loop (f : nat) (off : Z) : sh S Z :=
  match f with
  | O => fun _ => OutOfFuel
  | Datatypes.S f' =>
      x ← quiet (fun s => '(n, d, s1) ← fs_read (txt "/fat32/BOOTLOG.TXT") off 511 s; Ret (n, d, s1));
      let '(n, d) := x in
      if 0 <? n then
        emit (concat (map console_putc (filter (fun c => c <> 13) d)));;
        if n <? 511 then sh_ret (off + n) else bmesg_loop f' (off + n)
      else sh_ret off
  end.

(** The text in parentheses holds a dash of three bytes. *)
Definition no_boot_log : list Z :=
  txt "(no boot log found " ++ [226; 128; 148] ++ txt " FAT32 not mounted or log empty)" ++ [10].

Definition cmd_bmesg : sh S unit :=
  say_line "--- Boot Log (/fat32/BOOTLOG.TXT) ---";; wrote [10];;
  off ← bmesg_loop fuel 0;
  if off =? 0 then wrote no_boot_log else say_line "--- End of boot log ---";; wrote [10].

Definition cmd_wifi (sub : list Z) : sh S unit :=
  if starts_word sub (txt "reset") then emit Stubs.qca6174_cmd_reset
  else if starts_word sub (txt "upload") then emit Stubs.qca6174_cmd_upload
  else if starts_word sub (txt "init-rings") then emit Stubs.qca6174_cmd_init_rings
  else if starts_word sub (txt "scan") then emit Stubs.qca6174_cmd_scan
  else if starts_word sub (txt "connect") then emit Stubs.qca6174_cmd_connect
  else emit Stubs.qca6174_cmd_info.

(** The number before the first other character, modulo 2^32. *)
Fixpoint parse_lba (arg : list Z) (lba : Z) : Z :=
  match arg with
  | c :: r => if Libc.sage_isdigit c then parse_lba r (u32 (lba * 10 + (c - 48))) else lba
  | [] => lba
  end.

Definition cmd_diskdump (arg : list Z) : sh S unit :=
  match arg with
  | [] => say_line "Usage: diskdump <lba>"
  | _ => call_kernel (CDiskdump (parse_lba arg 0))
  end.

(** ** Dispatch *)

(** A chain of [if (...) { ...; return; }]. *)
Fixpoint first_of (l : list (bool * sh S unit)) (otherwise : sh S unit) : sh S unit :=
  match l with
  | [] => otherwise
  | (b, m) :: r => if (b : bool) then m else first_of r otherwise
  end.

Definition builtins (source : list Z -> sh S unit) (cmd : list Z) : list (bool * sh S unit) :=
  let word (w : string) (m : sh S unit) := (starts_word cmd (txt w), m) in
  let arg (w : string) := arg_after cmd (txt w) in
  let need (w : string) (k : list Z -> sh S unit) := match arg w with [] => wrote (10 :: txt "usage: " ++ txt w ++ txt " <path>") | p => k p end in
  [ (streq cmd [], sh_ret tt);
    word "pwd" (say_line "/");
    word "history" (fun s => o ← cmd_history hist; Ret (tt, o, s));
    word "help" (wrote help_text);
    word "clear" (emit console_clear);
    word "install" (call_kernel CInstall);
    word "fb" cmd_fb;
    word "about" (say_line "SageOS is a small POSIX-inspired OS target.";;
                  say_line "Current phase: modular kernel and hardware diagnostics.");
    word "input" (say_line "Input backend: ";; wrote keyboard_backend;; say_line "Use keydebug to inspect raw scancodes.");
    word "timer" (sh_ret tt);
    word "sched" (say_line "Scheduler: Multitasking Enabled");
    word "smp start" (emit Stubs.smp_boot_aps);
    word "smp" (emit Stubs.smp_cmd_info);
    word "battery" (emit Stubs.battery_cmd_info);
    word "acpi tables" (emit Stubs.acpi_cmd_tables);
    word "acpi fadt" (emit Stubs.acpi_cmd_fadt);
    word "acpi madt" (emit Stubs.acpi_cmd_madt);
    word "acpi lid" (emit Stubs.acpi_cmd_lid);
    word "acpi battery" (emit Stubs.acpi_cmd_battery);
    word "acpi" (emit Stubs.acpi_cmd_summary);
    word "swap" (say_line "[DEPRECATED] Please use the pure-Sage 'swap' command instead.");
    word "keydebug" (sh_ret tt);
    word "pci" (emit Stubs.pci_cmd_info);
    word "ipconfig" (say_line "SageOS IP Configuration";; wrote [10];; say_line "No network adapters found.";; wrote [10]);
    word "net selftest" (emit Stubs.net_cmd_selftest);
    word "net" (emit Stubs.net_cmd_info);
    word "wifi" (cmd_wifi (arg "wifi"));
    word "sdhci" (emit Stubs.sdhci_cmd_info);
    (starts_word cmd (txt "exit") || streq cmd (txt "q"), emit Stubs.power_qemu_exit);
    word "ls" (cmd_ls (arg "ls"));
    word "curl" (call_kernel (CCurl (arg "curl")));
    word "cat" (need "cat" cmd_cat);
    word "mkdir" (cmd_mkdir (arg "mkdir"));
    word "touch" (cmd_touch (arg "touch"));
    word "rm" (cmd_rm (arg "rm"));
    word "swapinfo" (call_kernel CSwapInfo);
    word "stat" (cmd_stat (arg "stat"));
    word "write" (cmd_write (arg "write"));
    word "execelf" (cmd_execelf (arg "execelf"));
    word "nano" (need "nano" (fun p => call_kernel (CNano p)));
    word "source" (need "source" source);
    word "sh" (need "sh" source);
    word "sagepkg" (call_kernel (CRunFile (txt "/bin/sagepkg.sage")));
    word "sageshell" (call_kernel CSageShell);
    word "sage" (cmd_sage (arg "sage"));
    (starts_with cmd (txt "echo"), wrote [10];; wrote (arg "echo"));
    word "color" (cmd_color (arg "color"));
    (starts_with cmd (txt "cp"), cmd_cp (arg "cp"));
    (starts_with cmd (txt "hexdump"), cmd_hexdump (arg "hexdump"));
    word "bmesg" cmd_bmesg;
    word "diskdump" (cmd_diskdump (arg "diskdump"));
    word "dmesg" (say_line "[DEPRECATED] Please use the pure-Sage 'dmesg' command instead.");
    word "trace" (call_kernel (CTrace (arg "trace")));
    word "dmesgsync" (call_kernel CDmesgSave;; say_line "Kernel log saved to persistent storage.");
    (starts_word cmd (txt "shutdown") || starts_word cmd (txt "poweroff"), call_kernel CShutdown);
    word "suspend" (emit Stubs.power_suspend);
    word "halt" (emit Stubs.power_halt);
    word "reboot" (say_line "Rebooting.";; call_kernel CReboot) ].

Definition exec_with (source : list Z -> sh S unit) (line : list Z) : sh S unit :=
  let cmd := skip_spaces line in
  done ← try_run_embedded_sage cmd;
  if (done : bool) then sh_ret tt
  else
    first_of (builtins source cmd)
      (ran ← try_run_elf cmd;
       if (ran : bool) then sh_ret tt else say_line "Unknown command: ";; wrote cmd).

(** ** Scripts *)

Definition is_eol (c : Z) : bool := (c =? 10) || (c =? 13).

(** [while (pos < n && eol) pos++] *)
Fixpoint skip_eols (s : list Z) : list Z :=
  match s with
  | c :: r => if is_eol c then skip_eols r else s
  | [] => []
  end.

(** The lines of a script: each cut to 159 characters, empty lines merged into
    the end before them. *)
Fixpoint script_lines (f : nat) (s : list Z) : list (list Z) :=
  match f, s with
  | Datatypes.S f', _ :: _ =>
      let '(l, r) := span is_eol s in take 159 l :: script_lines f' (skip_eols r)
  | _, _ => []
  end.

(** One line: as a C string, blanks skipped, comments ignored. *)
Fixpoint run_lines (exec : list Z -> sh S unit) (lines : list (list Z)) (line_no : Z) : sh S unit :=
  match lines with
  | [] => sh_ret tt
  | l :: r =>
      let cmd := skip_spaces (span (fun c => c =? 0) l).1 in
      (match cmd with
       | [] => sh_ret tt
       | c :: _ =>
           if c =? 35 then sh_ret tt
           else say_line "[sh:";; say_u32 (u32 line_no);; say "] ";; wrote cmd;; exec cmd
       end);;
      run_lines exec r (line_no + 1)
  end.

Definition NANO_MAX_TEXT : Z := 128 * 1024.

Definition source_with (exec : list Z -> sh S unit) (path : list Z) : sh S unit :=
  x ← quiet (fun s => '(n, d, s1) ← fs_read path 0 (NANO_MAX_TEXT - 1) s; Ret (n, d, s1));
  let '(n, d) := x in
  if n <? 0 then complain (txt "source") path n
  else run_lines exec (script_lines (Datatypes.S (length d)) d) 1.

(** Commands and scripts call each other; [depth] bounds the nesting. *)
Fixpoint shell_exec_command (depth : nat) (line : list Z) : sh S unit :=
  match depth with
  | O => fun _ => OutOfFuel
  | Datatypes.S k => exec_with (source_with (shell_exec_command k)) line
  end.

Definition cmd_source (depth : nat) (path : list Z) : sh S unit := source_with (shell_exec_command depth) path.

End shell.
End Shell.
