(* ===== verification/ShellSpec.v ===== *)
(** * What shell commands do to files

    The copying and printing commands of Shell, relative to what they need of the
    one or two files they are given: [reads] and [writes] say this of a set of
    states.  FileStack shows it for files on the FAT32 volume.  A map from paths to
    contents serves the examples. *)

From Stdlib Require Import String Ascii.
From stdpp Require Import base tactics list numbers gmap.
From S2P Require Import Prelude Digits CMem Vfs BlockDev Libc Console TextBuf LineEdit Shell.

Module ShellSpec.
Import LineEdit Console Shell.
Local Open Scope string_scope.
Local Open Scope list_scope.
Local Open Scope Z_scope.

(** [d] put at [off] over [c]. *)
Definition overwrite (c : list Z) (off : Z) (d : list Z) : list Z :=
  take (Z.to_nat off) c ++ d ++ drop (Z.to_nat off + length d) c.

(** ** Files that can be used *)

Section files.
Context {S : Type} `{FileSystem S}.

(** In the states [I], which reading does not leave, reading [p] gives parts of [c]. *)
Definition reads (I : S -> Prop) (p c : list Z) : Prop :=
  forall s off n, I s -> 0 <= off -> 0 <= n ->
    completes (fs_read p off n s) (fun r => let d := take (Z.to_nat n) (drop (Z.to_nat off) c) in r.1 = (zlen d, d) /\ I r.2).

(** In the states [I old], in which [p] has the contents [old], writing inside the
    file replaces bytes. *)
Definition writes (I : list Z -> S -> Prop) (p : list Z) : Prop :=
  forall old s off d, I old s -> 0 <= off -> off + zlen d <= zlen old -> bytes_ok d ->
    completes (fs_write p off d s) (fun r => 0 <= r.1 /\ I (overwrite old off d) r.2).

Definition stats (I : S -> Prop) (p c : list Z) : Prop :=
  forall s, I s -> completes (fs_stat p s) (fun r =>
    r.1.1 = 0 /\ Vfs.st_type r.1.2 = Vfs.VFS_FILE /\ Vfs.st_size r.1.2 = zlen c /\ I r.2).

(** Creating [p] comes back, with whatever result, to the same states. *)
Definition creates (I : S -> Prop) (p : list Z) : Prop := forall s, I s -> completes (fs_create p s) (fun r => I r.2).
End files.

(** ** Printing computations *)

Lemma sh_bind_ok {S A B} (m : sh S A) (f : A -> sh S B) s P Q :
  completes (m s) P -> (forall a o s1, P (a, o, s1) -> completes (f a s1) (fun r => Q (r.1.1, o ++ r.1.2, r.2))) ->
  completes ((x ← m; f x) s) Q.
Proof.
  intros ([[a o] s1] & E & HP) Hf. destruct (Hf a o s1 HP) as ([[b o2] s2] & E2 & HQ).
  exists (b, o ++ o2, s2). split; [|done].
  change ((x ← m; f x) s) with (sh_bind m f s). unfold sh_bind. rewrite E. cbn [mbind outcome_bind]. by rewrite E2.
Qed.

Lemma quiet_ok {S A} (m : S -> outcome (A * S)) s P :
  completes (m s) (fun r => P (r.1, [], r.2)) -> completes (quiet m s) P.
Proof. intros ([a s1] & E & HP). exists (a, [], s1). split; [|done]. unfold quiet. by rewrite E. Qed.

Section commands.
Context {S : Type} `{FileSystem S} (kernel : call -> S -> outcome (list Z * S)) (hist : history).

Lemma read_quiet I p c off n (s : S) :
  reads I p c -> I s -> 0 <= off -> 0 <= n ->
  completes (quiet (fun s => '(n, d, s1) ← fs_read p off n s; Ret (n, d, s1)) s) (fun r =>
    let d := take (Z.to_nat n) (drop (Z.to_nat off) c) in r.1 = (zlen d, d, []) /\ I r.2).
Proof.
  intros Hr Hi Ho Hn. apply quiet_ok. destruct (Hr s off n Hi Ho Hn) as ([[m d] s1] & E & [= -> ->] & H1).
  cbn [fst snd] in *. rewrite E. cbn [mbind outcome_bind]. by apply completes_Ret.
Qed.

Lemma write_quiet I p old off d (s : S) :
  writes I p -> I old s -> 0 <= off -> off + zlen d <= zlen old -> bytes_ok d ->
  completes (quiet (fs_write p off d) s) (fun r => r.1.2 = [] /\ 0 <= r.1.1 /\ I (overwrite old off d) r.2).
Proof. intros Hw Hi Ho Hl Hd. apply quiet_ok. eapply completes_mono; [by apply Hw|]. by intros [n s1]. Qed.

Lemma create_quiet I p (s : S) : creates I p -> I s -> completes (quiet (fs_create p) s) (fun r => r.1.2 = [] /\ I r.2).
Proof. intros Hc Hi. apply quiet_ok. eapply completes_mono; [by apply Hc|]. by intros [n s1]. Qed.

(** What has been copied up to offset [k], over [old]. *)
Lemma overwrite_next c old k n : (k + n <= length c)%nat -> (length c <= length old)%nat ->
  overwrite (take k c ++ drop k old) (Z.of_nat k) (take n (drop k c)) = take (k + n) c ++ drop (k + n) old.
Proof.
  intros Hk Hl. unfold overwrite. rewrite Nat2Z.id. assert (length (take k c) = k) as Ek by (rewrite length_take; lia).
  rewrite take_app_le, take_take, Nat.min_id by lia. rewrite drop_app_ge by lia. rewrite Ek, drop_drop, length_take, length_drop.
  rewrite app_assoc, take_take_drop. do 2 f_equal. lia.
Qed.

(** Copying from offset [k], when the destination has the bytes before it. *)
Lemma cp_loop_ok I f src dst c old k s first :
  (forall x, reads (I x) src c) -> writes I dst -> bytes_ok c -> (length c <= length old)%nat ->
  I (take k c ++ drop k old) s -> (k <= length c)%nat -> (length c - k <= 512 * (f - 1))%nat -> (1 <= f)%nat ->
  completes (cp_loop f src dst (Z.of_nat k) first s) (fun r => r.1.2 = [] /\ I (c ++ drop (length c) old) r.2).
Proof.
  intros Hrd Hwr Hb Hlen. revert k s first. induction f as [|f IH]; intros k s first Hi Hk Hf Hf1; [lia|]. cbn [cp_loop].
  eapply sh_bind_ok; [apply (read_quiet _ src c (Z.of_nat k) 512 s (Hrd _) Hi); lia|].
  intros [n d] o s1 [[= -> -> ->] H1]. cbn [snd] in H1. rewrite Nat2Z.id. change (Z.to_nat 512) with 512%nat. cbn [app].
  set (d := take 512 (drop k c)). assert (Hd : length d = Nat.min 512 (length c - k)) by (unfold d; rewrite length_take, length_drop; lia).
  destruct (Z.leb_spec (zlen d) 0) as [Hz|Hz]; unfold zlen in Hz.
  - assert (k = length c) as -> by lia. rewrite (proj2 (Z.ltb_ge _ _)) by (pose proof (zlen_nonneg d); lia).
    cbn [andb]. exists (tt, [], s1). split; [done|]. cbn [fst snd]. by rewrite firstn_all in H1.
  - assert (d = take (length d) (drop k c)) as Ed.
    { rewrite Hd. unfold d. destruct (Nat.le_gt_cases 512 (length c - k)); [by rewrite Nat.min_l by lia|].
      rewrite Nat.min_r by lia. rewrite !take_ge by (rewrite length_drop; lia). done. }
    eapply sh_bind_ok.
    + apply (write_quiet I dst (take k c ++ drop k old) (Z.of_nat k) d s1 Hwr H1); [lia| |unfold d; by apply Forall_take, Forall_drop].
      unfold zlen. rewrite length_app, length_take, length_drop. lia.
    + intros r o s2 (Eo & Hr & H2). cbn [fst snd] in *. subst o. cbn [app]. rewrite (proj2 (Z.ltb_ge _ _)) by lia.
      rewrite Ed, overwrite_next in H2 by lia.
      replace (Z.of_nat k + zlen d) with (Z.of_nat (k + length d)) by (unfold zlen; lia).
      eapply completes_mono; [apply (IH (k + length d)%nat s2 false H2); lia|]. by intros [[[] o2] s3].
Qed.

Lemma span_all P l r : Forall (fun c => P c = false) l -> P (hd 0 r) = true -> r <> [] -> span P (l ++ r) = (l, r).
Proof.
  intros Hl Hr Hne. induction Hl as [|c l Hc _ IH]; cbn [app span].
  - destruct r as [|x r]; [done|]. cbn [hd] in Hr. cbn [span]. by rewrite Hr.
  - by rewrite Hc, IH.
Qed.

Lemma span_none P l : Forall (fun c => P c = false) l -> span P l = (l, []).
Proof. intros Hl. induction Hl as [|c l Hc _ IH]; cbn [span]; [done|]. by rewrite Hc, IH. Qed.

Lemma skip_nonblank s : is_space (hd 0 s) = false -> skip_spaces s = s.
Proof. destruct s as [|c r]; [done|]. cbn. by intros ->. Qed.

Lemma console_write_app a b : console_write (a ++ b) = console_write a ++ console_write b.
Proof. unfold console_write. by rewrite map_app, concat_app. Qed.

(** Printing from offset [k]. *)
Lemma cat_loop_ok I f path c k s (first : bool) :
  reads I path c -> I s -> Forall (fun x => x <> 0) c -> (k <= length c)%nat ->
  (length c - k <= 512 * (f - 1))%nat -> (1 <= f)%nat ->
  completes (cat_loop f path (Z.of_nat k) first s) (fun r =>
    r.1.2 = (if first && negb (Nat.eqb k (length c)) then [13; 10] else []) ++ console_write (drop k c) /\ I r.2).
Proof.
  intros Hc Hi Hn. revert k s first Hi. induction f as [|f IH]; intros k s first Hi Hk Hf Hf1; [lia|]. cbn [cat_loop].
  eapply sh_bind_ok; [apply (read_quiet I path c (Z.of_nat k) 512 s Hc Hi); lia|].
  intros [n d] o s1 [[= -> -> ->] Hq]. cbn [snd] in Hq. rewrite Nat2Z.id. change (Z.to_nat 512) with 512%nat. cbn [app].
  set (d := take 512 (drop k c)). assert (Hd : zlen d = Z.min 512 (Z.of_nat (length c - k))).
  { unfold d, zlen. rewrite length_take, length_drop. lia. }
  rewrite (proj2 (Z.ltb_ge _ _)) by (pose proof (zlen_nonneg d); lia). destruct (Z.eqb_spec (zlen d) 0) as [E0|E0].
  - assert (k = length c) as -> by lia. exists (tt, [], s1). split; [done|]. cbn [fst snd].
    rewrite Nat.eqb_refl, drop_all. cbn. by rewrite andb_false_r.
  - assert (Hsp : span (fun x => x =? 0) d = (d, [])).
    { apply span_none. unfold d. apply Forall_take, Forall_drop. eapply Forall_impl; [exact Hn|].
      intros x Hx. by apply Z.eqb_neq. }
    rewrite Hsp. cbn [fst].
    eapply (sh_bind_ok _ _ s1 (fun r => r.1.2 = (if first then [13; 10] else []) /\ r.2 = s1)).
    { destruct first; [exists (tt, [13; 10], s1)|exists (tt, [], s1)]; done. }
    intros [] o1 s2 [E1 E2]. cbn [fst snd] in E1, E2. subst o1 s2.
    eapply (sh_bind_ok _ _ s1 (fun r => r.1.2 = console_write d /\ r.2 = s1)); [by exists (tt, console_write d, s1)|].
    intros [] o2 s3 [E1 E2]. cbn [fst snd] in E1, E2. subst o2 s3.
    unfold zlen in Hd, E0. replace (Z.of_nat k + zlen d) with (Z.of_nat (k + length d)) by (unfold zlen; lia).
    eapply completes_mono; [apply (IH (k + length d)%nat s1 false Hq); lia|].
    intros [[[] o3] s4] [Ho Hq4]. cbn [fst snd] in *. split; [|done].
    subst o3. cbn [andb app]. rewrite <- console_write_app.
    replace (negb (Nat.eqb k (length c))) with true by (symmetry; apply negb_true_iff, Nat.eqb_neq; lia).
    rewrite andb_true_r. do 2 f_equal. rewrite <- (take_drop 512 (drop k c)). fold d. f_equal.
    rewrite drop_drop. unfold d. rewrite length_take, length_drop.
    destruct (Nat.le_gt_cases 512 (length c - k)); [by rewrite Nat.min_l by lia|].
    rewrite Nat.min_r by lia. rewrite !drop_ge by lia. done.
Qed.

(** No script stands for the command. *)
Definition no_script (cmd : list Z) : Prop := first_embedded (script_paths cmd) = None.

(** A command that is not a script goes to the chain of built-ins. *)
Lemma exec_builtin fuel source cmd rest (m : sh S unit) s P :
  cmd <> [] -> no_script cmd -> (length cmd <= 63)%nat -> Forall (fun c => is_space c = false) cmd ->
  is_space (hd 0 rest) = true -> rest <> [] ->
  first_of (builtins kernel hist fuel source (cmd ++ rest))
    (ran ← try_run_elf kernel (cmd ++ rest); if (ran : bool) then sh_ret tt else say_line "Unknown command: ";; wrote (cmd ++ rest)) = m ->
  completes (m s) P -> completes (exec_with kernel hist fuel source (cmd ++ rest) s) P.
Proof.
  intros Hne Hns Hl Hc Hr Hrn <- HP. unfold exec_with.
  assert (Hsk : skip_spaces (cmd ++ rest) = cmd ++ rest).
  { apply skip_nonblank. destruct Hc as [|c cmd Hc _]; [done|]. done. }
  rewrite Hsk. eapply (sh_bind_ok _ _ s (fun r => r = (false, [], s))).
  - unfold try_run_embedded_sage, command_token. rewrite (span_all _ _ _ Hc Hr Hrn). cbn [fst].
    rewrite take_ge by lia. destruct cmd as [|c0 cmd']; [done|]. rewrite Hns. by eexists.
  - intros b o s1 [= -> -> ->]. eapply completes_mono; [exact HP|]. by intros [[[] o] s2].
Qed.

End commands.

(** The line "cp <src> <dst>", if no script replaces the command: afterwards the
    destination begins with the contents of the source, and has what it had after
    them. *)
Lemma cp_line {S} `{FileSystem S} kernel hist fuel depth src dst c old I (s : S) :
  (forall x, reads (I x) src c) -> writes I dst -> (forall x, creates (I x) dst) -> I old s -> bytes_ok c ->
  (length c <= length old)%nat -> (length c <= 512 * (fuel - 1))%nat -> (1 <= fuel)%nat ->
  src <> [] -> Forall (fun x => is_space x = false) src -> (length src <= 255)%nat ->
  dst <> [] -> is_space (hd 0 dst) = false -> no_script (txt "cp") ->
  completes (shell_exec_command kernel hist fuel (Datatypes.S depth) (txt "cp" ++ 32 :: src ++ 32 :: dst) s) (fun r =>
    r.1.2 = [] /\ I (c ++ drop (length c) old) r.2).
Proof.
  intros Hrd Hwr Hcr Hi Hb Hlen Hf Hf1 Hs0 Hsrc Hs255 Hd0 Hdst Hns. cbn [shell_exec_command].
  eapply (exec_builtin kernel hist fuel _ (txt "cp") (32 :: src ++ 32 :: dst)
    (cmd_cp fuel (arg_after (txt "cp" ++ 32 :: src ++ 32 :: dst) (txt "cp"))));
    [done|done|cbn; lia|repeat (constructor; [done|]); constructor|done|done|reflexivity|].
  replace (arg_after (txt "cp" ++ 32 :: src ++ 32 :: dst) (txt "cp")) with (src ++ 32 :: dst).
  2: { unfold arg_after. change (past_common (txt "cp" ++ 32 :: src ++ 32 :: dst) (txt "cp")) with (32 :: src ++ 32 :: dst).
       cbn [skip_spaces is_space Z.eqb Pos.eqb orb]. symmetry. apply skip_nonblank.
       destruct Hsrc as [|x src Hx _]; [done|]. done. }
  unfold cmd_cp. rewrite span_all; [|eapply Forall_impl; [exact Hsrc|]; unfold is_space; intros x Hx; by apply orb_false_iff in Hx as [? _]|done|done].
  rewrite take_ge by (change (Z.to_nat (Vfs.VFS_MAX_PATH - 1)) with 255%nat; lia).
  cbn [skip_spaces is_space Z.eqb Pos.eqb orb]. rewrite skip_nonblank by done. destruct dst as [|d0 dst]; [done|].
  eapply sh_bind_ok; [by apply (create_quiet (I old))|]. intros e o s1 (Eo & H1). cbn [fst snd] in *. subst o.
  eapply completes_mono; [apply (cp_loop_ok I fuel src (d0 :: dst) c old 0 s1 true); try done; lia|].
  by intros [[[] o] s2].
Qed.

(** The line "cat <path>" prints the text of a file that holds no NUL, after a
    newline, with every newline as carriage return and newline; nothing for an empty
    file. *)
Lemma cat_line {S} `{FileSystem S} kernel hist fuel depth path c I (s : S) :
  reads I path c -> I s -> Forall (fun x => x <> 0) c -> (length c <= 512 * (fuel - 1))%nat -> (1 <= fuel)%nat ->
  path <> [] -> is_space (hd 0 path) = false -> no_script (txt "cat") ->
  completes (shell_exec_command kernel hist fuel (Datatypes.S depth) (txt "cat" ++ 32 :: path) s) (fun r =>
    r.1.2 = (match c with [] => [] | _ => [13; 10] end) ++ console_write c /\ I r.2).
Proof.
  intros Hrd Hi Hn Hf Hf1 Hp0 Hp Hns. cbn [shell_exec_command].
  assert (Ea : arg_after (txt "cat" ++ 32 :: path) (txt "cat") = path).
  { unfold arg_after. change (past_common (txt "cat" ++ 32 :: path) (txt "cat")) with (32 :: path).
    cbn [skip_spaces is_space Z.eqb Pos.eqb orb]. by apply skip_nonblank. }
  eapply (exec_builtin kernel hist fuel _ (txt "cat") (32 :: path)
    (match arg_after (txt "cat" ++ 32 :: path) (txt "cat") with [] => wrote (10 :: txt "usage: " ++ txt "cat" ++ txt " <path>") | p => cmd_cat fuel p end));
    [done|done|cbn; lia|repeat (constructor; [done|]); constructor|done|done|reflexivity|].
  rewrite Ea. destruct path as [|p0 path]; [done|]. unfold cmd_cat.
  eapply completes_mono; [apply (cat_loop_ok I fuel (p0 :: path) c 0 s true Hrd Hi Hn); lia|].
  intros r [Ho Hq]. split; [|done]. rewrite Ho, drop_0. f_equal. by destruct c.
Qed.

(** ** Files in memory *)

Definition store : Type := gmap (list Z) (list Z).

#[export] Instance store_files : FileSystem store := {|
  fs_read p off size s := Ret (match s !! p with
    | Some c => let d := take (Z.to_nat size) (drop (Z.to_nat off) c) in (zlen d, d, s)
    | None => (Vfs.VFS_ENOENT, [], s) end);
  fs_write p off d s := Ret (match s !! p with
    | Some c => (zlen d, <[p := overwrite c off d]> s)
    | None => (Vfs.VFS_ENOENT, s) end);
  fs_create p s := Ret (match s !! p with Some _ => (Vfs.VFS_EEXIST, s) | None => (0, <[p := []]> s) end);
  fs_mkdir p s := Ret (Vfs.VFS_EROFS, s);
  fs_unlink p s := Ret (0, delete p s);
  fs_rm_rf p s := Ret (0, delete p s);
  fs_stat p s := Ret (match s !! p with
    | Some c => (0, Vfs.mk_stat p Vfs.VFS_FILE (zlen c) 0, s)
    | None => (Vfs.VFS_ENOENT, Vfs.mk_stat [] 0 0 0, s) end);
  fs_ls p s := Ret ([], s);
  fs_readdir p s := Ret (0, [], s);
  fs_embedded p := None |}.

Definition ex_store : store := {[ txt "/a" := txt "hello" ]}.

(** Three commands are recognised by a prefix only: "cpu" copies. *)
Lemma prefix_commands :
  shell_exec_command (fun _ s => Ret ([], s)) history_initial 2 1 (txt "cpu /a") ex_store =
  shell_exec_command (fun _ s => Ret ([], s)) history_initial 2 1 (txt "cp u /a") ex_store.
Proof. vm_compute. reflexivity. Qed.

(** [write] does not shorten a file. *)
Lemma write_keeps_tail :
  completes (shell_exec_command (fun _ s => Ret ([], s)) history_initial 2 1 (txt "write /a HE") ex_store) (fun r =>
    r.2 !! txt "/a" = Some (txt "HEllo")).
Proof. eexists. split; [vm_compute; reflexivity|]. vm_compute. reflexivity. Qed.

(** A line of 160 characters that is no command overruns the argument buffer of
    the program starter. *)
Lemma long_line_faults :
  shell_exec_command (fun _ s => Ret ([], s)) history_initial 2 1 (replicate 160 120) ex_store = Fault.
Proof. vm_compute. reflexivity. Qed.

End ShellSpec.
