(* ===== verification/Nano.v ===== *)
(** * The text editor

    shell/extra_cmds.c: the nano editor.  The text is in a buffer of 128 KiB
    that is edited in place; a second buffer holds the last cut line.  The two
    prompts of the editor (save before leaving, search) read keys in loops of
    their own; here they are modes of one key handler.  Files are reached through
    the interface of Shell.

    What is drawn is not modelled; [nano_update_scroll], which keeps the cursor
    on the screen, is.  The buffer loops end at the text; they take the length of
    the text as their bound. *)

From Stdlib Require Import String Ascii.
From stdpp Require Import base tactics list numbers.
From S2P Require Import Prelude Digits CMem Vfs Libc Console TextBuf LineEdit Shell.

Module Nano.
Import TextBuf Console Shell.
Local Open Scope string_scope.
Local Open Scope list_scope.
Local Open Scope Z_scope.

Definition txt : string -> list Z := Libc.text.

Inductive mode := Editing | AskSave | Searching (term : list Z).

Record nano := MkNano {
  n_buf : list Z; n_kill : list Z; n_len : Z; n_kill_len : Z; n_pos : Z; n_scroll : Z;
  n_modified : bool; n_running : bool; n_status : list Z; n_mode : mode; n_path : list Z; n_edit_rows : Z }.

Definition set_pos (p : Z) (c : nano) : nano :=
  MkNano (n_buf c) (n_kill c) (n_len c) (n_kill_len c) p (n_scroll c) (n_modified c) (n_running c) (n_status c) (n_mode c) (n_path c) (n_edit_rows c).
Definition set_scroll (p : Z) (c : nano) : nano :=
  MkNano (n_buf c) (n_kill c) (n_len c) (n_kill_len c) (n_pos c) p (n_modified c) (n_running c) (n_status c) (n_mode c) (n_path c) (n_edit_rows c).
(** A new text; it is modified. *)
Definition set_text (b : list Z) (len pos : Z) (c : nano) : nano :=
  MkNano b (n_kill c) len (n_kill_len c) pos (n_scroll c) true (n_running c) (n_status c) (n_mode c) (n_path c) (n_edit_rows c).
Definition set_kill (k : list Z) (len : Z) (c : nano) : nano :=
  MkNano (n_buf c) k (n_len c) len (n_pos c) (n_scroll c) (n_modified c) (n_running c) (n_status c) (n_mode c) (n_path c) (n_edit_rows c).
Definition set_status (s : list Z) (c : nano) : nano :=
  MkNano (n_buf c) (n_kill c) (n_len c) (n_kill_len c) (n_pos c) (n_scroll c) (n_modified c) (n_running c) (take 127 s) (n_mode c) (n_path c) (n_edit_rows c).
Definition set_mode (m : mode) (c : nano) : nano :=
  MkNano (n_buf c) (n_kill c) (n_len c) (n_kill_len c) (n_pos c) (n_scroll c) (n_modified c) (n_running c) (n_status c) m (n_path c) (n_edit_rows c).
Definition set_modified (x : bool) (c : nano) : nano :=
  MkNano (n_buf c) (n_kill c) (n_len c) (n_kill_len c) (n_pos c) (n_scroll c) x (n_running c) (n_status c) (n_mode c) (n_path c) (n_edit_rows c).
Definition stop (c : nano) : nano :=
  MkNano (n_buf c) (n_kill c) (n_len c) (n_kill_len c) (n_pos c) (n_scroll c) (n_modified c) false (n_status c) (n_mode c) (n_path c) (n_edit_rows c).

(** ** Lines *)

(** [while (pos > 0 && buf[pos - 1] != '\n') pos--] *)
Fixpoint line_start_loop (pos : nat) (buf : list Z) : outcome Z :=
  match pos with
  | O => Ret 0
  | S k => c ← rd buf (Z.of_nat k); if c =? 10 then Ret (Z.of_nat pos) else line_start_loop k buf
  end.

Definition nano_line_start (buf : list Z) (pos : Z) : outcome Z := line_start_loop (Z.to_nat pos) buf.

(** [while (pos < len && buf[pos] != '\n') pos++], [n] characters left. *)
Fixpoint line_end_loop (n : nat) (buf : list Z) (pos : Z) : outcome Z :=
  match n with
  | O => Ret pos
  | S k => c ← rd buf pos; if c =? 10 then Ret pos else line_end_loop k buf (pos + 1)
  end.

Definition nano_line_end (buf : list Z) (len pos : Z) : outcome Z := line_end_loop (Z.to_nat (len - pos)) buf pos.

Definition nano_move_vertical (buf : list Z) (len pos delta : Z) : outcome Z :=
  cur_start ← nano_line_start buf pos;
  let col := pos - cur_start in
  let clamp target_start :=
    target_end ← nano_line_end buf len target_start;
    Ret (if target_end <? target_start + col then target_end else target_start + col) in
  if delta <? 0 then
    if cur_start =? 0 then Ret 0 else (t ← nano_line_start buf (cur_start - 1); clamp t)
  else
    cur_end ← nano_line_end buf len pos;
    if len <=? cur_end then Ret len else clamp (cur_end + 1).

(** The loop over the lines of the screen; whether the cursor is on one. *)
Fixpoint visible_loop (rows : nat) (c : nano) (current : Z) : outcome bool :=
  match rows with
  | O => Ret false
  | S k =>
      e ← nano_line_end (n_buf c) (n_len c) current;
      if (current <=? n_pos c) && (n_pos c <=? e) then Ret true
      else if n_len c <=? e then Ret false
      else visible_loop k c (e + 1)
  end.

Definition nano_update_scroll (c : nano) : outcome nano :=
  if n_pos c <? n_scroll c then p ← nano_line_start (n_buf c) (n_pos c); Ret (set_scroll p c)
  else
    v ← visible_loop (Z.to_nat (n_edit_rows c)) c (n_scroll c);
    if (v : bool) then Ret c
    else p ← nano_move_vertical (n_buf c) (n_len c) (n_scroll c) 1; Ret (set_scroll p c).

(** ** Keys *)

(** A number in a status line. *)
Definition dec (v : Z) : list Z := match Libc.digits_of 10 false v with Ret l => l | _ => [] end.

Section files.
Context {S : Type} `{FileSystem S}.

Definition nano_save (c : nano) (s : S) : outcome (Z * nano * S) :=
  '(r, s1) ← fs_create (n_path c) s;
  if (r <? 0) && negb (r =? Vfs.VFS_EEXIST) then Ret (r, c, s1)
  else
    text ← copy_out (n_buf c) 0 (n_len c);
    '(r2, s2) ← fs_write (n_path c) 0 text s1;
    if 0 <=? r2 then
      Ret (r2, set_status (txt "[ Wrote " ++ dec (n_len c) ++ txt " bytes ]") (set_modified false c), s2)
    else
      Ret (r2, set_status (txt "[ Error writing file: " ++ txt (Vfs.vfs_strerror r2) ++ txt " ]") c, s2).

Fixpoint page (n : nat) (delta : Z) (c : nano) : outcome nano :=
  match n with
  | O => Ret c
  | Datatypes.S k => p ← nano_move_vertical (n_buf c) (n_len c) (n_pos c) delta; page k delta (set_pos p c)
  end.

Definition on_extended (sc : Z) (c : nano) : outcome nano :=
  if (sc =? 0x4B) && (0 <? n_pos c) then Ret (set_pos (n_pos c - 1) c)
  else if (sc =? 0x4D) && (n_pos c <? n_len c) then Ret (set_pos (n_pos c + 1) c)
  else if sc =? 0x48 then p ← nano_move_vertical (n_buf c) (n_len c) (n_pos c) (-1); Ret (set_pos p c)
  else if sc =? 0x50 then p ← nano_move_vertical (n_buf c) (n_len c) (n_pos c) 1; Ret (set_pos p c)
  else if sc =? 0x47 then p ← nano_line_start (n_buf c) (n_pos c); Ret (set_pos p c)
  else if sc =? 0x4F then p ← nano_line_end (n_buf c) (n_len c) (n_pos c); Ret (set_pos p c)
  else if sc =? 0x49 then page (Z.to_nat (n_edit_rows c)) (-1) c
  else if sc =? 0x51 then page (Z.to_nat (n_edit_rows c)) 1 c
  else if (sc =? 0x53) && (n_pos c <? n_len c) then
    b ← move (n_buf c) (n_pos c) (n_pos c + 1) (n_len c - n_pos c);
    Ret (set_text b (n_len c - 1) (n_pos c) c)
  else Ret c.

Definition cut_line (c : nano) : outcome nano :=
  start ← nano_line_start (n_buf c) (n_pos c);
  e0 ← nano_line_end (n_buf c) (n_len c) (n_pos c);
  let e := if e0 <? n_len c then e0 + 1 else e0 in
  let cut_len := e - start in
  text ← copy_out (n_buf c) start cut_len;
  k ← put_all (n_kill c) 0 text;
  b ← move (n_buf c) start e (n_len c - e + 1);
  Ret (set_status (txt "[ Cut " ++ dec cut_len ++ txt " characters ]")
         (set_text b (n_len c - cut_len) start (set_kill k cut_len c))).

Definition uncut (c : nano) : outcome nano :=
  if (0 <? n_kill_len c) && (n_len c + n_kill_len c <? NANO_MAX_TEXT) then
    b ← move (n_buf c) (n_pos c + n_kill_len c) (n_pos c) (n_len c - n_pos c + 1);
    k ← copy_out (n_kill c) 0 (n_kill_len c);
    b2 ← put_all b (n_pos c) k;
    Ret (set_status (txt "[ Uncut " ++ dec (n_kill_len c) ++ txt " characters ]")
           (set_text b2 (n_len c + n_kill_len c) (n_pos c + n_kill_len c) c))
  else Ret c.

Definition count_newlines (l : list Z) : Z := zlen (filter (fun x => x = 10) l).

Definition show_position (c : nano) : outcome nano :=
  before ← copy_out (n_buf c) 0 (n_pos c);
  all ← copy_out (n_buf c) 0 (n_len c);
  start ← nano_line_start (n_buf c) (n_pos c);
  Ret (set_status (txt "line " ++ dec (1 + count_newlines before) ++ txt "/" ++ dec (1 + count_newlines all) ++
    txt ", col " ++ dec (n_pos c - start + 1) ++ txt ", char " ++ dec (n_pos c) ++ txt "/" ++ dec (n_len c)) c).

Definition backspace (c : nano) : outcome nano :=
  if 0 <? n_pos c then
    b ← move (n_buf c) (n_pos c - 1) (n_pos c) (n_len c - n_pos c + 1);
    Ret (set_text b (n_len c - 1) (n_pos c - 1) c)
  else Ret c.

Definition insert_char (x : Z) (c : nano) : outcome nano :=
  if n_len c + 1 <? NANO_MAX_TEXT then
    b ← move (n_buf c) (n_pos c + 1) (n_pos c) (n_len c - n_pos c + 1);
    b2 ← wr b (n_pos c) x;
    Ret (set_text b2 (n_len c + 1) (n_pos c + 1) c)
  else Ret c.

(** [strstr] in the buffer from [from]: the first place where [term] is, before
    the first NUL. *)
Fixpoint find_from (s term : list Z) (i : Z) : option Z :=
  if LineEdit.starts_with s term then Some i
  else match s with [] => None | _ :: r => find_from r term (i + 1) end.

Definition strstr_at (buf : list Z) (from : Z) (term : list Z) : outcome (option Z) :=
  if (0 <=? from) && (from <=? zlen buf) then
    s ← c_string (drop (Z.to_nat from) buf); Ret (find_from s term from)
  else Fault.

Definition search (term : list Z) (c : nano) : outcome nano :=
  match term with
  | [] => Ret c
  | _ =>
      f1 ← strstr_at (n_buf c) (n_pos c + 1) term;
      f ← (match f1 with Some p => Ret (Some p) | None => strstr_at (n_buf c) 0 term end);
      Ret (match f with
           | Some p => set_status [] (set_pos p c)
           | None => set_status (txt "[ '" ++ term ++ txt "' not found ]") c
           end)
  end.

Definition on_ascii (x : Z) (c : nano) (s : S) : outcome (nano * S) :=
  if x =? 24 then
    if n_modified c then Ret (set_mode AskSave c, s) else Ret (set_status [] (stop c), s)
  else if x =? 15 then '(_, c1, s1) ← nano_save c s; Ret (c1, s1)
  else if x =? 23 then Ret (set_mode (Searching []) c, s)
  else
    c' ←
      (if x =? 11 then cut_line c
       else if x =? 21 then uncut c
       else if x =? 3 then show_position c
       else if (x =? 8) || (x =? 127) then backspace c
       else if (x =? 13) || (x =? 10) then insert_char 10 c
       else if (32 <=? x) && (x <=? 126) then insert_char x c
       else Ret c);
    Ret (c', s).

(** The prompts. *)
Definition on_ask (x : Z) (c : nano) (s : S) : outcome (nano * S) :=
  if (x =? 121) || (x =? 89) then
    '(_, c1, s1) ← nano_save c s; Ret (set_status [] (stop (set_mode Editing c1)), s1)
  else if (x =? 110) || (x =? 78) then Ret (set_status [] (stop (set_mode Editing c)), s)
  else if x =? 3 then Ret (set_status [] (set_mode Editing c), s)
  else Ret (c, s).

Definition on_search (x : Z) (term : list Z) (c : nano) : outcome nano :=
  if (x =? 13) || (x =? 10) then search term (set_mode Editing c)
  else if x =? 3 then Ret (set_mode Editing c)
  else if ((x =? 8) || (x =? 127)) && (0 <? zlen term) then Ret (set_mode (Searching (removelast term)) c)
  else if (32 <=? x) && (x <? 128) && (zlen term <? 63) then Ret (set_mode (Searching (term ++ [x])) c)
  else Ret c.

(** One key: after the screen was brought up to date in the main loop. *)
Definition on_event (ev : key_event) (c : nano) (s : S) : outcome (nano * S) :=
  if pressed ev =? 0 then Ret (c, s)
  else
    match n_mode c with
    | AskSave => on_ask (ascii ev) c s
    | Searching term => c' ← on_search (ascii ev) term c; Ret (c', s)
    | Editing =>
        if negb (extended ev =? 0) then c' ← on_extended (scancode ev) c; Ret (c', s)
        else on_ascii (ascii ev) c s
    end.

Fixpoint nano_loop (evs : list key_event) (c : nano) (s : S) : outcome (nano * S) :=
  if n_running c then
    c1 ← (match n_mode c with Editing => nano_update_scroll c | _ => Ret c end);
    match evs with
    | [] => Ret (c1, s)
    | ev :: r => '(c2, s2) ← on_event ev c1 s; nano_loop r c2 s2
    end
  else Ret (c, s).

(** The start of [cmd_nano] with the two buffers from the heap. *)
Definition nano_open (buf kill path : list Z) (s : S) : outcome (nano * S) :=
  '(n, d, s1) ← fs_read path 0 (NANO_MAX_TEXT - 1) s;
  b ← put_all buf 0 (if 0 <? n then d else []);
  let len := if 0 <? n then n else 0 in
  b2 ← wr b len 0;
  Ret (MkNano b2 kill len 0 0 0 false true [] Editing (take 255 path) (console_rows - 4), s1).

Definition cmd_nano (buf kill path : list Z) (evs : list key_event) (s : S) : outcome (nano * S) :=
  '(c, s1) ← nano_open buf kill path s; nano_loop evs c s1.

End files.
End Nano.
