(* ===== verification/NanoSpec.v ===== *)
(** * What the text editor does

    The editor of Nano against a document: the text before and after the cursor
    and the last line cut.  Every key stays inside the buffers and does to the
    document what it means. *)

From Stdlib Require Import String Ascii.
From stdpp Require Import base tactics list numbers gmap.
From S2P Require Import Prelude Digits CMem Vfs Libc Console TextBuf LineEdit LineEditSpec Shell ShellSpec Nano.

Module NanoSpec.
Import TextBuf Console Shell Nano.

(** ** Documents *)

Record doc := Doc { before : list Z; after : list Z; killed : list Z }.

Definition content (d : doc) : list Z := before d ++ after d.

Definition not_eol (c : Z) : bool := negb (c =? 10).

(** Without the part of the last line; that part; the rest of a line, and what
    follows it. *)
Definition upto_line (b : list Z) : list Z := LineEditSpec.trim not_eol b.
Definition column (b : list Z) : list Z := drop (length (upto_line b)) b.
Definition rest_of_line (a : list Z) : list Z := (span (fun c => c =? 10) a).1.

(** The cursor at [n]. *)
Definition at_place (n : nat) (d : doc) : doc := Doc (take n (content d)) (drop n (content d)) (killed d).

(** [col] characters into the line that starts at [n], or its end. *)
Definition in_line (t : list Z) (n col : nat) : nat := n + Nat.min col (length (rest_of_line (drop n t))).

Definition line_up (d : doc) : doc :=
  match upto_line (before d) with
  | [] => at_place 0 d
  | u => at_place (in_line (content d) (length (upto_line (removelast u))) (length (column (before d)))) d
  end.

Definition line_down (d : doc) : doc :=
  let n := (length (before d) + length (rest_of_line (after d)))%nat in
  if (length (content d) <=? n)%nat then at_place (length (content d)) d
  else at_place (in_line (content d) (n + 1) (length (column (before d)))) d.

Definition doc_extended (sc : Z) (rows : nat) (d : doc) : doc :=
  let '(Doc b a k) := d in
  if sc =? 0x4B then match rev b with [] => d | c :: r => Doc (rev r) (c :: a) k end
  else if sc =? 0x4D then match a with [] => d | c :: r => Doc (b ++ [c]) r k end
  else if sc =? 0x48 then line_up d
  else if sc =? 0x50 then line_down d
  else if sc =? 0x47 then Doc (upto_line b) (column b ++ a) k
  else if sc =? 0x4F then Doc (b ++ rest_of_line a) (drop (length (rest_of_line a)) a) k
  else if sc =? 0x49 then Nat.iter rows line_up d
  else if sc =? 0x51 then Nat.iter rows line_down d
  else if sc =? 0x53 then Doc b (drop 1 a) k
  else d.

(** Cutting takes the whole line with its newline. *)
Definition line_tail (a : list Z) : list Z := take (length (rest_of_line a) + 1) a.

Definition insert (cs : list Z) (d : doc) : doc :=
  if zlen (content d) + zlen cs <? NANO_MAX_TEXT then Doc (before d ++ cs) (after d) (killed d) else d.

Definition doc_ascii (x : Z) (d : doc) : doc :=
  let '(Doc b a k) := d in
  if x =? 11 then Doc (upto_line b) (drop (length (line_tail a)) a) (column b ++ line_tail a)
  else if x =? 21 then insert k d
  else if (x =? 8) || (x =? 127) then Doc (removelast b) a k
  else if (x =? 13) || (x =? 10) then insert [10] d
  else if (32 <=? x) && (x <=? 126) then insert [x] d
  else d.

(** ** The document an editor holds *)

Record holds_doc (c : nano) (d : doc) : Prop := {
  hd_text : text_in (n_buf c) (content d);
  hd_size : zlen (n_buf c) = NANO_MAX_TEXT;
  hd_len : n_len c = zlen (content d);
  hd_pos : n_pos c = zlen (before d);
  hd_kill : exists rest, n_kill c = killed d ++ rest;
  hd_kill_size : zlen (n_kill c) = NANO_MAX_TEXT;
  hd_kill_len : n_kill_len c = zlen (killed d) }.

(** ** Lines *)

Lemma line_start_ok b r l : text_in l (b ++ r) -> nano_line_start l (zlen b) = Ret (zlen (upto_line b)).
Proof.
  unfold nano_line_start. rewrite nat_zlen. revert r. induction b as [|c b IH] using rev_ind; intros r H; [done|].
  rewrite length_app. cbn [length]. rewrite Nat.add_1_r. cbn [line_start_loop].
  rewrite <- app_assoc in H. cbn [app] in H. change (Z.of_nat (length b)) with (zlen b).
  rewrite (rd_text _ _ _ _ H). cbn [mbind outcome_bind]. unfold upto_line. rewrite LineEditSpec.trim_snoc. unfold not_eol.
  destruct (c =? 10); cbn [negb]; [|by eapply IH]. f_equal. rewrite LineEditSpec.zlen_snoc. unfold zlen. lia.
Qed.

Lemma line_end_loop_ok b a l :
  text_in l (b ++ a) -> line_end_loop (length a) l (zlen b) = Ret (zlen b + zlen (rest_of_line a)).
Proof.
  revert b. induction a as [|c a IH]; intros b H; cbn [length line_end_loop].
  - f_equal. change (zlen (rest_of_line [])) with 0. lia.
  - rewrite (rd_text _ _ _ _ H). cbn [mbind outcome_bind]. unfold rest_of_line. cbn [span].
    destruct (c =? 10); cbn [fst]; [f_equal; change (zlen (@nil Z)) with 0; lia|].
    rewrite <- LineEditSpec.zlen_snoc with (c := c). rewrite IH by (by rewrite <- app_assoc).
    unfold rest_of_line. destruct (span (fun c => c =? 10) a) as [x y]. cbn [fst]. f_equal.
    rewrite LineEditSpec.zlen_snoc, zlen_cons. lia.
Qed.

Lemma line_end_ok b a l :
  text_in l (b ++ a) -> nano_line_end l (zlen (b ++ a)) (zlen b) = Ret (zlen b + zlen (rest_of_line a)).
Proof.
  intros H. unfold nano_line_end. rewrite zlen_app.
  replace (Z.to_nat (zlen b + zlen a - zlen b)) with (length a) by (unfold zlen; lia). by apply line_end_loop_ok.
Qed.

(** A line ends inside the text. *)
Lemma rest_of_line_app a : a = rest_of_line a ++ drop (length (rest_of_line a)) a.
Proof.
  induction a as [|c a IH]; [done|]. unfold rest_of_line in *. cbn [span].
  destruct (c =? 10); [done|]. destruct (span (fun c => c =? 10) a) as [x y]. cbn [fst length app drop] in *. by rewrite <- IH.
Qed.

Lemma rest_of_line_le a : (length (rest_of_line a) <= length a)%nat.
Proof. rewrite (rest_of_line_app a) at 2. rewrite length_app. lia. Qed.

Lemma upto_column b : b = upto_line b ++ column b.
Proof.
  unfold column. destruct (LineEditSpec.trim_split not_eol b) as (t & E & _). fold (upto_line b) in E.
  set (u := upto_line b) in *. clearbody u. subst b. by rewrite drop_app_length.
Qed.

Lemma upto_line_le b : (length (upto_line b) <= length b)%nat.
Proof. rewrite (upto_column b) at 2. rewrite length_app. lia. Qed.

(** Clamping a column to the line that starts at [n]. *)
Lemma line_end_at t n l :
  text_in l t -> (n <= length t)%nat ->
  nano_line_end l (zlen t) (Z.of_nat n) = Ret (Z.of_nat (n + length (rest_of_line (drop n t)))).
Proof.
  intros H Hn. rewrite <- (take_drop n t) in H. pose proof (line_end_ok _ _ _ H) as E. rewrite take_drop in E.
  unfold zlen in E. rewrite length_take_le in E by done. unfold zlen. rewrite E. f_equal. lia.
Qed.

Lemma line_start_at t n l :
  text_in l t -> (n <= length t)%nat -> nano_line_start l (Z.of_nat n) = Ret (zlen (upto_line (take n t))).
Proof.
  intros H Hn. rewrite <- (take_drop n t) in H. pose proof (line_start_ok _ _ _ H) as E.
  unfold zlen in E at 1. by rewrite length_take_le in E by done.
Qed.

Definition place (d : doc) : nat := length (before d).

Lemma clamp_ok t n col l :
  text_in l t -> (n <= length t)%nat ->
  (e ← nano_line_end l (zlen t) (Z.of_nat n); Ret (if e <? Z.of_nat n + Z.of_nat col then e else Z.of_nat n + Z.of_nat col))
  = Ret (Z.of_nat (in_line t n col)).
Proof.
  intros H Hn. rewrite (line_end_at t n l H Hn). cbn [mbind outcome_bind]. f_equal. unfold in_line.
  match goal with |- (if ?x <? ?y then _ else _) = _ => destruct (Z.ltb_spec x y) end; lia.
Qed.

Lemma in_line_le t n col : (n <= length t)%nat -> (in_line t n col <= length t)%nat.
Proof. intros H. unfold in_line. pose proof (rest_of_line_le (drop n t)) as E. rewrite length_drop in E. lia. Qed.

Lemma at_place_content n d : content (at_place n d) = content d.
Proof. unfold at_place, content. cbn. apply take_drop. Qed.

Lemma at_place_place n d : (n <= length (content d))%nat -> place (at_place n d) = n.
Proof. intros H. unfold place, at_place. cbn [before]. by rewrite length_take_le. Qed.

(** A document with the same text and another cursor. *)
Lemma holds_at c d n :
  holds_doc c d -> (n <= length (content d))%nat -> holds_doc (set_pos (Z.of_nat n) c) (at_place n d).
Proof.
  intros [H1 H2 H3 H4 H5 H6 H7] Hn. split; try done; try (by rewrite at_place_content).
  cbn [set_pos n_pos]. change (zlen (before (at_place n d))) with (Z.of_nat (place (at_place n d))).
  by rewrite at_place_place.
Qed.

Lemma holds_split c d b a :
  holds_doc c d -> content d = b ++ a -> holds_doc (set_pos (zlen b) c) (Doc b a (killed d)).
Proof.
  intros H E. assert (Ec : content (Doc b a (killed d)) = content d) by (unfold content at 1; by rewrite E).
  destruct H. split; rewrite ?Ec; done.
Qed.

Lemma line_up_ok c d :
  holds_doc c d ->
  completes (p ← nano_move_vertical (n_buf c) (n_len c) (n_pos c) (-1); Ret (set_pos p c)) (fun c' => holds_doc c' (line_up d)).
Proof.
  intros H. pose proof (hd_text _ _ H) as Ht. unfold nano_move_vertical.
  rewrite (hd_pos _ _ H), (hd_len _ _ H), (line_start_ok _ _ _ Ht). cbn [mbind outcome_bind]. change (-1 <? 0) with true. cbv iota.
  unfold line_up. pose proof (upto_column (before d)) as Eb. set (u := upto_line (before d)) in *.
  set (col := column (before d)) in *.
  destruct u as [|x u' _] using rev_ind.
  - change (zlen [] =? 0) with true. cbv iota. cbn [mbind outcome_bind]. apply completes_Ret. apply (holds_at c d 0 H). lia.
  - rewrite LineEditSpec.zlen_snoc. pose proof (zlen_nonneg u'). rewrite (proj2 (Z.eqb_neq _ 0)) by lia.
    rewrite Z.add_simpl_r. assert (Ec : content d = u' ++ [x] ++ col ++ after d) by (unfold content; rewrite Eb, <- !app_assoc; done).
    rewrite Ec in Ht. rewrite (line_start_ok _ _ _ Ht). rewrite <- Ec in Ht. cbn [mbind outcome_bind].
    assert (Hn : (length (upto_line u') <= length (content d))%nat).
    { pose proof (upto_line_le u'). rewrite Ec, length_app. lia. }
    replace (zlen (before d) - (zlen u' + 1)) with (Z.of_nat (length col)).
    2: { rewrite Eb, !zlen_app. change (zlen [x]) with 1. unfold zlen. lia. }
    change (zlen (upto_line u')) with (Z.of_nat (length (upto_line u'))). rewrite clamp_ok by done.
    cbn [mbind outcome_bind]. apply completes_Ret.
    destruct (u' ++ [x]) as [|z r] eqn:Eu; [by destruct u'|]. rewrite <- Eu, removelast_last.
    apply holds_at; [done|]. by apply in_line_le.
Qed.

Lemma line_down_ok c d :
  holds_doc c d ->
  completes (p ← nano_move_vertical (n_buf c) (n_len c) (n_pos c) 1; Ret (set_pos p c)) (fun c' => holds_doc c' (line_down d)).
Proof.
  intros H. pose proof (hd_text _ _ H) as Ht. unfold nano_move_vertical.
  rewrite (hd_pos _ _ H), (hd_len _ _ H), (line_start_ok _ _ _ Ht). cbn [mbind outcome_bind]. change (1 <? 0) with false. cbv iota.
  pose proof (line_end_ok _ _ _ Ht) as Ee. fold (content d) in Ee. rewrite Ee. cbn [mbind outcome_bind]. unfold line_down.
  set (n := (length (before d) + length (rest_of_line (after d)))%nat).
  replace (zlen (before d) + zlen (rest_of_line (after d))) with (Z.of_nat n) by (unfold n, zlen; lia).
  fold (content d). unfold zlen at 1. destruct (Nat.leb_spec (length (content d)) n).
  - rewrite (proj2 (Z.leb_le _ _)) by lia. cbn [mbind outcome_bind]. apply completes_Ret. by apply holds_at.
  - rewrite (proj2 (Z.leb_gt _ _)) by lia.
    replace (Z.of_nat n + 1) with (Z.of_nat (n + 1)) by lia.
    replace (zlen (before d) - zlen (upto_line (before d))) with (Z.of_nat (length (column (before d)))).
    2: { rewrite (upto_column (before d)) at 2. rewrite zlen_app. unfold zlen. lia. }
    rewrite clamp_ok by (done || lia). cbn [mbind outcome_bind]. apply completes_Ret.
    apply holds_at; [done|]. apply in_line_le. lia.
Qed.

Lemma page_ok n (up : bool) c d :
  holds_doc c d ->
  completes (page n (if up then -1 else 1) c) (fun c' => holds_doc c' (Nat.iter n (if up then line_up else line_down) d)).
Proof.
  revert c d. induction n as [|n IH]; intros c d H; cbn [page]; [by apply completes_Ret|].
  rewrite Nat.iter_succ_r.
  assert (E : completes (p ← nano_move_vertical (n_buf c) (n_len c) (n_pos c) (if up then -1 else 1); Ret (set_pos p c))
    (fun c' => holds_doc c' ((if up then line_up else line_down) d))) by (destruct up; [by apply line_up_ok|by apply line_down_ok]).
  destruct (nano_move_vertical _ _ _ _) as [p| |]; destruct E as (c1 & E & H1); cbn in E; try discriminate.
  injection E as <-. cbn [mbind outcome_bind]. by apply IH.
Qed.

(** ** Edits *)

Lemma holds_text c d l b a :
  holds_doc c d -> text_in l (b ++ a) -> zlen l = NANO_MAX_TEXT ->
  holds_doc (set_text l (zlen (b ++ a)) (zlen b) c) (Doc b a (killed d)).
Proof. intros [] ? ?. by split. Qed.

(** Removing [x]. *)
Lemma nano_remove_ok c d b x a :
  holds_doc c d -> content d = b ++ x ++ a ->
  completes (move (n_buf c) (zlen b) (zlen b + zlen x) (zlen a + 1)) (fun l =>
    holds_doc (set_text l (n_len c - zlen x) (zlen b) c) (Doc b a (killed d)) /\ text_in l (b ++ a) /\ zlen l = NANO_MAX_TEXT).
Proof.
  intros H E. pose proof (hd_text _ _ H) as Ht. rewrite E in Ht.
  destruct (move_left _ _ _ _ Ht) as (l & -> & H1 & H2). apply completes_Ret. rewrite (hd_size _ _ H) in H2.
  replace (n_len c - zlen x) with (zlen (b ++ a)) by (rewrite (hd_len _ _ H), E, !zlen_app; lia).
  split; [|done]. by apply holds_text.
Qed.

Lemma insert_ok c d cs :
  holds_doc c d -> zlen (content d) + zlen cs < NANO_MAX_TEXT ->
  completes (b ← move (n_buf c) (n_pos c + zlen cs) (n_pos c) (n_len c - n_pos c + 1); b2 ← put_all b (n_pos c) cs;
             Ret (set_text b2 (n_len c + zlen cs) (n_pos c + zlen cs) c)) (fun c' =>
    holds_doc c' (Doc (before d ++ cs) (after d) (killed d))).
Proof.
  intros H Hl. pose proof (hd_text _ _ H) as Ht. rewrite (hd_pos _ _ H), (hd_len _ _ H).
  replace (zlen (content d) - zlen (before d) + 1) with (zlen (after d) + 1) by (unfold content; rewrite zlen_app; lia).
  destruct (insert_text (n_buf c) (before d) (after d) cs Ht) as (l & E & Ht' & Hl'); [rewrite (hd_size _ _ H); exact Hl|].
  destruct (move (n_buf c) (zlen (before d) + zlen cs) (zlen (before d)) (zlen (after d) + 1)) as [l1| |] eqn:E1; cbn in E; try discriminate.
  cbn [mbind outcome_bind]. rewrite E. cbn [mbind outcome_bind]. apply completes_Ret.
  replace (zlen (content d) + zlen cs) with (zlen ((before d ++ cs) ++ after d)) by (unfold content; rewrite !zlen_app; lia).
  replace (zlen (before d) + zlen cs) with (zlen (before d ++ cs)) by apply zlen_app.
  apply (holds_text c d l (before d ++ cs) (after d) H); [by rewrite <- app_assoc|by rewrite Hl', (hd_size _ _ H)].
Qed.

Lemma nano_insert_char_ok x c d : holds_doc c d -> completes (insert_char x c) (fun c' => holds_doc c' (insert [x] d)).
Proof.
  intros H. unfold insert_char, insert. rewrite (hd_len _ _ H). change (zlen [x]) with 1.
  destruct (Z.ltb_spec (zlen (content d) + 1) NANO_MAX_TEXT); [|by apply completes_Ret].
  destruct (insert_ok c d [x] H ltac:(done)) as (c' & E & Hc). change (zlen [x]) with 1 in E.
  exists c'. split; [|done]. rewrite <- (hd_len _ _ H).
  destruct (move (n_buf c) (n_pos c + 1) (n_pos c) (n_len c - n_pos c + 1)) as [l1| |]; [|discriminate..].
  cbn [mbind outcome_bind put_all] in *. by destruct (wr l1 (n_pos c) x).
Qed.

Lemma nano_backspace_ok c d :
  holds_doc c d -> completes (backspace c) (fun c' => holds_doc c' (Doc (removelast (before d)) (after d) (killed d))).
Proof.
  intros H. unfold backspace. pose proof (hd_pos _ _ H) as Ep. pose proof (hd_len _ _ H) as El.
  destruct d as [b a k]. unfold content in *. cbn [before after killed] in *.
  destruct b as [|x b _] using rev_ind.
  - rewrite (proj2 (Z.ltb_ge _ _)) by (change (zlen (@nil Z)) with 0 in Ep; lia). by apply completes_Ret.
  - rewrite removelast_last. rewrite LineEditSpec.zlen_snoc in Ep. pose proof (zlen_nonneg b).
    rewrite (proj2 (Z.ltb_lt _ _)) by lia. rewrite zlen_app, LineEditSpec.zlen_snoc in El.
    destruct (nano_remove_ok c _ b [x] a H) as (l & E & Hl & _); [unfold content; cbn; by rewrite <- app_assoc|].
    change (zlen [x]) with 1 in *. replace (n_pos c - 1) with (zlen b) by lia. rewrite Ep.
    replace (n_len c - (zlen b + 1) + 1) with (zlen a + 1) by lia. rewrite E. cbn [mbind outcome_bind]. by apply completes_Ret.
Qed.

Lemma delete_ok c d :
  holds_doc c d -> n_pos c < n_len c ->
  completes (b ← move (n_buf c) (n_pos c) (n_pos c + 1) (n_len c - n_pos c); Ret (set_text b (n_len c - 1) (n_pos c) c))
    (fun c' => holds_doc c' (Doc (before d) (drop 1 (after d)) (killed d))).
Proof.
  intros H Hlt. pose proof (hd_pos _ _ H) as Ep. pose proof (hd_len _ _ H) as El.
  destruct d as [b a k]. unfold content in *. cbn [before after killed] in *. rewrite zlen_app in El.
  destruct a as [|x a]; [change (zlen (@nil Z)) with 0 in El; lia|]. rewrite zlen_cons in El.
  destruct (nano_remove_ok c _ b [x] a H eq_refl) as (l & E & Hl & _). change (zlen [x]) with 1 in *.
  rewrite Ep. replace (n_len c - zlen b) with (zlen a + 1) by lia. rewrite E. cbn [mbind outcome_bind drop]. by apply completes_Ret.
Qed.

Lemma put_all_prefix l cs : (length cs <= length l)%nat -> put_all l 0 cs = Ret (cs ++ drop (length cs) l).
Proof.
  intros H. pose proof (put_all_app [] (take (length cs) l) cs (drop (length cs) l)) as E.
  cbn [app] in E. rewrite take_drop in E. apply E. rewrite length_take. lia.
Qed.

Lemma line_tail_app a : a = line_tail a ++ drop (length (line_tail a)) a.
Proof.
  unfold line_tail. set (k := (length (rest_of_line a) + 1)%nat). rewrite length_take.
  destruct (Nat.le_gt_cases k (length a)); [by rewrite Nat.min_l, take_drop|].
  rewrite Nat.min_r by lia. rewrite take_ge, drop_all by lia. by rewrite app_nil_r.
Qed.

Lemma cut_line_ok c d :
  holds_doc c d -> completes (cut_line c) (fun c' => holds_doc c' (doc_ascii 11 d)).
Proof.
  intros H. pose proof (hd_text _ _ H) as Ht. pose proof (text_in_length _ _ Ht) as Hlt. rewrite (hd_size _ _ H) in Hlt.
  unfold cut_line. rewrite (hd_pos _ _ H), (hd_len _ _ H), (line_start_ok _ _ _ Ht). cbn [mbind outcome_bind].
  pose proof (line_end_ok _ _ _ Ht) as Ee. fold (content d) in Ee. rewrite Ee. cbn [mbind outcome_bind].
  destruct d as [b a k]. unfold content in *. cbn [before after killed] in *.
  pose proof (upto_column b) as Eb. pose proof (line_tail_app a) as Ea.
  set (x := column b ++ line_tail a). set (a' := drop (length (line_tail a)) a) in *.
  assert (Hend : (if zlen b + zlen (rest_of_line a) <? zlen (b ++ a) then zlen b + zlen (rest_of_line a) + 1 else zlen b + zlen (rest_of_line a))
    = zlen (upto_line b) + zlen x).
  { pose proof (rest_of_line_le a). unfold x. rewrite !zlen_app. unfold line_tail.
    assert (Lb : zlen b = zlen (upto_line b) + zlen (column b)) by (rewrite Eb at 1; apply zlen_app).
    unfold zlen in *. rewrite length_take.
    match goal with |- (if ?u <? ?v then _ else _) = _ => destruct (Z.ltb_spec u v) end; lia. }
  rewrite Hend. replace (zlen (upto_line b) + zlen x - zlen (upto_line b)) with (zlen x) by lia.
  assert (Ec : b ++ a = upto_line b ++ x ++ a').
  { unfold x. rewrite Eb at 1. rewrite Ea at 1. by rewrite <- !app_assoc. }
  assert (Htx : text_in (n_buf c) (upto_line b ++ x ++ a')) by (by rewrite <- Ec).
  rewrite (copy_out_text _ _ _ _ Htx). cbn [mbind outcome_bind].
  pose proof (hd_kill_size _ _ H) as Hks. rewrite Ec, !zlen_app in Hlt. pose proof (zlen_nonneg (upto_line b)). pose proof (zlen_nonneg a').
  rewrite put_all_prefix by (unfold zlen in *; lia). cbn [mbind outcome_bind].
  destruct (nano_remove_ok c (Doc b a k) (upto_line b) x a' H Ec) as (l & E & Hl & _).
  replace (zlen (b ++ a) - (zlen (upto_line b) + zlen x) + 1) with (zlen a' + 1) by (rewrite Ec, !zlen_app; lia).
  rewrite E. cbn [mbind outcome_bind]. apply completes_Ret.
  unfold doc_ascii. cbn [Z.eqb Pos.eqb]. fold a' x. rewrite (hd_len _ _ H) in Hl. unfold content in Hl. cbn [before after] in Hl.
  destruct Hl as [G1 G2 G3 G4 _ _ _]. split; try done.
  - exists (drop (length x) (n_kill c)). done.
  - cbn [set_status set_text set_kill n_kill]. rewrite zlen_app. unfold zlen in *. rewrite length_drop. lia.
Qed.

Lemma uncut_ok c d : holds_doc c d -> completes (uncut c) (fun c' => holds_doc c' (insert (killed d) d)).
Proof.
  intros H. unfold uncut, insert. pose proof (zlen_nonneg (killed d)). rewrite (hd_kill_len _ _ H), (hd_len _ _ H).
  destruct (Z.ltb_spec 0 (zlen (killed d))) as [Hk|Hk]; cbn [andb].
  2: { apply completes_Ret. assert (E : killed d = []) by (destruct (killed d) as [|y l]; [done|rewrite zlen_cons in *; pose proof (zlen_nonneg l); lia]).
       destruct d as [b a k]. cbn [killed before after] in *. subst k. rewrite app_nil_r. by destruct (_ <? _). }
  destruct (Z.ltb_spec (zlen (content d) + zlen (killed d)) NANO_MAX_TEXT); [|by apply completes_Ret].
  destruct (hd_kill _ _ H) as [rest Ek]. pose proof (hd_kill_size _ _ H) as Hks.
  assert (Hout : copy_out (n_kill c) 0 (zlen (killed d)) = Ret (killed d)).
  { unfold copy_out. rewrite (proj2 (Z.leb_le 0 (zlen (killed d)))), (proj2 (Z.leb_le 0 0)) by lia.
    rewrite (proj2 (Z.leb_le (0 + zlen (killed d)) _)).
    - cbn [andb]. rewrite nat_zlen, drop_0, Ek. by rewrite take_app_length.
    - rewrite Ek, zlen_app. pose proof (zlen_nonneg rest). lia. }
  destruct (insert_ok c d (killed d) H ltac:(done)) as (c' & E & Hc). rewrite (hd_len _ _ H) in E.
  destruct (move _ _ _ _) as [l1| |] in E |- *; [|discriminate..]. cbn [mbind outcome_bind] in *. rewrite Hout. cbn [mbind outcome_bind].
  destruct (put_all l1 (n_pos c) (killed d)) as [l2| |]; [|discriminate..]. cbn [mbind outcome_bind] in *. injection E as <-.
  apply completes_Ret. by destruct Hc.
Qed.

Lemma show_position_ok c d : holds_doc c d -> completes (show_position c) (fun c' => holds_doc c' d).
Proof.
  intros H. pose proof (hd_text _ _ H) as Ht. unfold show_position. rewrite (hd_pos _ _ H), (hd_len _ _ H).
  pose proof (copy_out_text (n_buf c) [] (before d) (after d) Ht) as E1. change (zlen []) with 0 in E1. rewrite E1. cbn [mbind outcome_bind].
  pose proof Ht as Ht2. rewrite <- (app_nil_r (content d)) in Ht2.
  pose proof (copy_out_text (n_buf c) [] (content d) [] Ht2) as E2. change (zlen []) with 0 in E2. rewrite E2. cbn [mbind outcome_bind].
  rewrite (line_start_ok _ _ _ Ht). cbn [mbind outcome_bind]. apply completes_Ret. by destruct H.
Qed.

Lemma nano_on_extended_ok sc c d :
  holds_doc c d -> completes (on_extended sc c) (fun c' => holds_doc c' (doc_extended sc (Z.to_nat (n_edit_rows c)) d)).
Proof.
  intros H. unfold on_extended. pose proof (hd_pos _ _ H) as Ep. pose proof (hd_len _ _ H) as El. pose proof (hd_text _ _ H) as Ht.
  destruct d as [b a k]. unfold doc_extended, content in *. cbn [before after killed] in *.
  pose proof (fun x y => holds_split c (Doc b a k) x y H) as Hat. unfold content in Hat. cbn [before after killed] in Hat.
  destruct (Z.eqb_spec sc 0x4B) as [->|N1]; [|cbn [andb]; destruct (Z.eqb_spec sc 0x4D) as [->|N2]; [|cbn [andb]]].
  - cbn [andb Z.eqb Pos.eqb]. destruct b as [|x b _] using rev_ind.
    + rewrite (proj2 (Z.ltb_ge _ _)) by (change (zlen (@nil Z)) with 0 in Ep; lia). cbn. by apply completes_Ret.
    + rewrite LineEditSpec.zlen_snoc in Ep. pose proof (zlen_nonneg b). rewrite (proj2 (Z.ltb_lt _ _)) by lia.
      rewrite rev_app_distr. cbn [rev app]. rewrite rev_involutive. apply completes_Ret.
      replace (n_pos c - 1) with (zlen b) by lia. apply Hat. by rewrite <- app_assoc.
  - cbn [andb Z.eqb Pos.eqb]. rewrite zlen_app in El. destruct a as [|x a].
    + rewrite (proj2 (Z.ltb_ge _ _)) by (change (zlen (@nil Z)) with 0 in El; lia). by apply completes_Ret.
    + rewrite zlen_cons in El. pose proof (zlen_nonneg a). rewrite (proj2 (Z.ltb_lt _ _)) by lia. apply completes_Ret.
      rewrite Ep, <- LineEditSpec.zlen_snoc with (c := x). apply Hat. by rewrite <- app_assoc.
  - destruct (sc =? 0x48); [by apply line_up_ok|]. destruct (sc =? 0x50); [by apply line_down_ok|].
    destruct (sc =? 0x47).
    { rewrite Ep, (line_start_ok _ _ _ Ht). cbn [mbind outcome_bind]. apply completes_Ret.
      apply Hat. by rewrite app_assoc, <- upto_column. }
    destruct (sc =? 0x4F).
    { rewrite Ep, El, (line_end_ok _ _ _ Ht). cbn [mbind outcome_bind]. apply completes_Ret.
      rewrite <- zlen_app. apply Hat. by rewrite <- app_assoc, <- rest_of_line_app. }
    destruct (sc =? 0x49); [by apply (page_ok _ true)|]. destruct (sc =? 0x51); [by apply (page_ok _ false)|].
    destruct (sc =? 0x53); cbn [andb]; [|by apply completes_Ret].
    destruct (Z.ltb_spec (n_pos c) (n_len c)); [exact (delete_ok c _ H ltac:(done))|].
    apply completes_Ret. rewrite zlen_app in El. destruct a as [|x a]; [done|]. rewrite zlen_cons in El. pose proof (zlen_nonneg a). lia.
Qed.

(** ** Searching *)

(** From the place after the cursor, or else from the start. *)
Definition doc_search (term : list Z) (d : doc) : doc :=
  match term with
  | [] => d
  | _ =>
      let from := zlen (before d) + 1 in
      match find_from (drop (Z.to_nat from) (content d)) term from with
      | Some p => at_place (Z.to_nat p) d
      | None => match find_from (content d) term 0 with Some p => at_place (Z.to_nat p) d | None => d end
      end
  end.

Lemma starts_with_prefix t p : LineEdit.starts_with t p = true <-> p `prefix_of` t.
Proof.
  revert t. induction p as [|x p IH]; intros t.
  - split; [intros _; apply prefix_nil|by destruct t].
  - destruct t as [|y t]; cbn [LineEdit.starts_with]; [split; [done|by intros ?%prefix_nil_inv]|].
    rewrite andb_true_iff, Z.eqb_eq, IH. split.
    + intros [-> H]. by apply prefix_cons.
    + intros H. split; [symmetry; by eapply prefix_cons_inv_1|by eapply prefix_cons_inv_2].
Qed.

(** The first occurrence. *)
Lemma find_from_spec s term i p :
  find_from s term i = Some p ->
  i <= p <= i + zlen s /\ term `prefix_of` drop (Z.to_nat (p - i)) s /\
  forall j, (j < Z.to_nat (p - i))%nat -> ~ term `prefix_of` drop j s.
Proof.
  revert i. induction s as [|c s IH]; intros i; cbn [find_from].
  - destruct (LineEdit.starts_with [] term) eqn:E; [|done]. intros [= <-]. rewrite Z.sub_diag. cbn [Z.to_nat drop].
    split_and!; [unfold zlen; cbn; lia..|by apply starts_with_prefix|lia].
  - destruct (LineEdit.starts_with (c :: s) term) eqn:E.
    + intros [= <-]. rewrite Z.sub_diag. cbn [Z.to_nat drop]. pose proof (zlen_nonneg (c :: s)).
      split_and!; [lia..|by apply starts_with_prefix|lia].
    + intros H. apply IH in H as (H1 & H2 & H3). rewrite zlen_cons.
      replace (Z.to_nat (p - i)) with (S (Z.to_nat (p - (i + 1)))) by lia. cbn [drop]. split_and!; [lia..|done|].
      intros [|j] Hj; cbn [drop]; [|apply H3; lia]. rewrite <- starts_with_prefix. congruence.
Qed.

Lemma strstr_at_ok buf t n term :
  text_in buf t -> LineEditSpec.nonzero t -> (n <= length t)%nat ->
  strstr_at buf (Z.of_nat n) term = Ret (find_from (drop n t) term (Z.of_nat n)).
Proof.
  intros [junk ->] Hn Hl. unfold strstr_at. rewrite zlen_app, zlen_cons. pose proof (zlen_nonneg junk).
  rewrite (proj2 (Z.leb_le 0 _)), (proj2 (Z.leb_le (Z.of_nat n) _)) by (unfold zlen; lia). cbn [andb].
  rewrite Nat2Z.id, drop_app_le by done.
  rewrite (c_string_ok (drop n t ++ 0 :: junk) (drop n t)); [done|by exists junk|by apply Forall_drop].
Qed.

Lemma nano_search_ok term c d :
  holds_doc c d -> LineEditSpec.nonzero (content d) -> after d <> [] ->
  completes (search term c) (fun c' => holds_doc c' (doc_search term d)).
Proof.
  intros H Hn Ha. unfold search, doc_search. destruct term as [|x term0] eqn:Et; [by apply completes_Ret|]. rewrite <- Et. clear Et x term0.
  pose proof (hd_text _ _ H) as Ht. rewrite (hd_pos _ _ H).
  assert (Hlen : (length (before d) + 1 <= length (content d))%nat).
  { unfold content. rewrite length_app. destruct (after d); [done|cbn; lia]. }
  replace (zlen (before d) + 1) with (Z.of_nat (length (before d) + 1)) by (unfold zlen; lia).
  rewrite (strstr_at_ok _ _ _ _ Ht Hn Hlen), Nat2Z.id. cbn [mbind outcome_bind].
  assert (Hat : forall p i s, find_from s term i = Some p -> 0 <= i -> i + zlen s <= zlen (content d) ->
    holds_doc (set_status [] (set_pos p c)) (at_place (Z.to_nat p) d)).
  { intros p i s E Hi Hs. apply find_from_spec in E as [E _].
    pose proof (holds_at c d (Z.to_nat p) H ltac:(unfold zlen in *; lia)) as G. rewrite Z2Nat.id in G by lia. by destruct G. }
  destruct (find_from (drop (length (before d) + 1) (content d)) term (Z.of_nat (length (before d) + 1))) as [p|] eqn:E1; cbn [mbind outcome_bind].
  - apply completes_Ret. eapply Hat; [exact E1|lia|]. unfold zlen. rewrite length_drop. lia.
  - change 0 with (Z.of_nat 0) at 1. rewrite (strstr_at_ok _ _ 0 _ Ht Hn) by lia. rewrite drop_0. cbn [mbind outcome_bind].
    change (Z.of_nat 0) with 0. apply completes_Ret. destruct (find_from (content d) term 0) as [p|] eqn:E2.
    + eapply Hat; [exact E2|lia|lia].
    + by destruct H.
Qed.

(** ** All keys *)

Definition doc_event (m : mode) (rows : nat) (ev : key_event) (d : doc) : doc :=
  if pressed ev =? 0 then d
  else
    match m with
    | AskSave => d
    | Searching term => if (ascii ev =? 13) || (ascii ev =? 10) then doc_search term d else d
    | Editing => if negb (extended ev =? 0) then doc_extended (scancode ev) rows d else doc_ascii (ascii ev) d
    end.

(** A search starts inside the text, which holds no NUL. *)
Definition searchable (m : mode) (ev : key_event) (d : doc) : Prop :=
  match m with
  | Searching (_ :: _) => (ascii ev = 13 \/ ascii ev = 10) -> LineEditSpec.nonzero (content d) /\ after d <> []
  | _ => True
  end.

Section files.
Context {S : Type} `{FileSystem S}.
Context (Hcreate : forall p s, completes (fs_create p s) (fun _ => True)).
Context (Hwrite : forall p o d s, completes (fs_write p o d s) (fun _ => True)).

Lemma save_ok c d s : holds_doc c d -> completes (nano_save c s) (fun r => holds_doc r.1.2 d).
Proof.
  intros Hd. unfold nano_save. eapply completes_bind; [apply Hcreate|]. intros [r s1] _.
  destruct ((r <? 0) && negb (r =? Vfs.VFS_EEXIST)); [by apply completes_Ret|].
  pose proof (hd_text _ _ Hd) as Ht. rewrite <- (app_nil_r (content d)) in Ht.
  pose proof (copy_out_text (n_buf c) [] (content d) [] Ht) as E. change (zlen []) with 0 in E.
  rewrite (hd_len _ _ Hd), E. cbn [mbind outcome_bind]. eapply completes_bind; [apply Hwrite|]. intros [r2 s2] _.
  destruct (0 <=? r2); apply completes_Ret; by destruct Hd.
Qed.

Lemma nano_on_ascii_ok x c d s : holds_doc c d -> completes (on_ascii x c s) (fun r => holds_doc r.1 (doc_ascii x d)).
Proof.
  intros Hd. unfold on_ascii.
  assert (Same : forall y, y = 24 \/ y = 15 \/ y = 23 -> doc_ascii y d = d) by (by intros y [->|[->| ->]]; destruct d).
  destruct (Z.eqb_spec x 24) as [->|N1].
  { rewrite Same by auto. destruct (n_modified c); apply completes_Ret; by destruct Hd. }
  destruct (Z.eqb_spec x 15) as [->|N2].
  { rewrite Same by auto. eapply completes_bind; [by apply (save_ok c d s)|]. intros [[r c1] s1] H1. by apply completes_Ret. }
  destruct (Z.eqb_spec x 23) as [->|N3]; [rewrite Same by auto; apply completes_Ret; by destruct Hd|].
  eapply (completes_bind _ _ (fun c' => holds_doc c' (doc_ascii x d))); [|intros c' Hc; by apply completes_Ret].
  destruct (Z.eqb_spec x 11) as [->|N4]; [by apply cut_line_ok|].
  unfold doc_ascii. rewrite (proj2 (Z.eqb_neq x 11)) by done. destruct d as [b a k].
  destruct (Z.eqb_spec x 21) as [->|N5]; [exact (uncut_ok c _ Hd)|].
  destruct (Z.eqb_spec x 3) as [->|N6]; [cbn; by apply show_position_ok|].
  destruct ((x =? 8) || (x =? 127)); [exact (nano_backspace_ok c _ Hd)|].
  destruct ((x =? 13) || (x =? 10)); [by apply nano_insert_char_ok|].
  destruct ((32 <=? x) && (x <=? 126)); [by apply nano_insert_char_ok|by apply completes_Ret].
Qed.

(** One key in any mode. *)
Lemma nano_on_event_ok ev c d s :
  holds_doc c d -> searchable (n_mode c) ev d ->
  completes (on_event ev c s) (fun r => holds_doc r.1 (doc_event (n_mode c) (Z.to_nat (n_edit_rows c)) ev d)).
Proof.
  intros Hd Hs. unfold on_event, doc_event. destruct (pressed ev =? 0); [by apply completes_Ret|].
  destruct (n_mode c) as [| |term] eqn:Em.
  - destruct (negb (extended ev =? 0)); [|by apply nano_on_ascii_ok].
    eapply completes_bind; [by apply nano_on_extended_ok|]. intros c' Hc. by apply completes_Ret.
  - unfold on_ask. repeat case_match; try (apply completes_Ret; by destruct Hd).
    eapply completes_bind; [by apply (save_ok c d s)|]. intros [[r c1] s1] H1. apply completes_Ret. by destruct H1.
  - eapply (completes_bind _ _ (fun c' => holds_doc c' (if (ascii ev =? 13) || (ascii ev =? 10) then doc_search term d else d)));
      [|intros c' Hc; by apply completes_Ret].
    unfold on_search. destruct ((ascii ev =? 13) || (ascii ev =? 10)) eqn:En.
    + assert (Hd' : holds_doc (set_mode Editing c) d) by (by destruct Hd). destruct term as [|t0 term].
      { cbn. by apply completes_Ret. }
      apply orb_true_iff in En. rewrite !Z.eqb_eq in En. destruct (Hs En) as [Hn Ha]. by apply nano_search_ok.
    + repeat case_match; apply completes_Ret; by destruct Hd.
Qed.
End files.

(** ** The main loop *)

Definition keeps (c c' : nano) : Prop := n_scroll c' = n_scroll c /\ n_mode c' = n_mode c.

Ltac ret_inv :=
  repeat match goal with
  | E : mbind _ _ = Ret _ |- _ => apply bind_Ret_inv in E as (? & ? & ?)
  | E : (let '(_, _) := ?x in _) = Ret _ |- _ => destruct x
  | E : (if ?b then _ else _) = Ret _ |- _ => destruct b
  | E : Ret _ = Ret _ |- _ => injection E as <-
  end.

Lemma page_keeps n delta c c' : page n delta c = Ret c' -> keeps c c'.
Proof.
  revert c. induction n as [|n IH]; intros c E; cbn [page] in E; ret_inv; [done|].
  match goal with E : page _ _ _ = _ |- _ => by destruct (IH _ E) end.
Qed.

Lemma on_extended_keeps sc c c' : on_extended sc c = Ret c' -> keeps c c'.
Proof. unfold on_extended. intros E. ret_inv; try done; eauto using page_keeps. Qed.

Lemma save_keeps {S} `{FileSystem S} c (s : S) r c' s' : nano_save c s = Ret (r, c', s') -> keeps c c'.
Proof.
  unfold nano_save. intros E. apply bind_Ret_inv in E as ([x s1] & _ & E). destruct (_ && _); [by simplify_eq|].
  apply bind_Ret_inv in E as (b & _ & E). apply bind_Ret_inv in E as ([x2 s2] & _ & E). destruct (0 <=? x2); by simplify_eq.
Qed.

Definition editing (c : nano) : Prop := 0 <= n_scroll c /\ (n_mode c = Editing \/ n_mode c = AskSave).

Lemma on_event_editing {S} `{FileSystem S} ev c (s : S) r :
  on_event ev c s = Ret r -> ascii ev <> 23 -> editing c -> editing r.1.
Proof.
  intros E Hx [Hs Hm]. unfold on_event in E. destruct (pressed ev =? 0); [ret_inv; by split|].
  assert (Keep : forall c', keeps c c' -> editing c') by (intros c' [E1 E2]; split; [by rewrite E1|by rewrite E2]).
  destruct Hm as [Hm|Hm]; rewrite Hm in E.
  - destruct (negb (extended ev =? 0)).
    { ret_inv. eauto using on_extended_keeps. }
    unfold on_ascii in E. rewrite (proj2 (Z.eqb_neq _ _) Hx) in E.
    destruct (ascii ev =? 24); [destruct (n_modified c); ret_inv; split; auto|].
    destruct (ascii ev =? 15).
    { apply bind_Ret_inv in E as ([[r1 c1] s1] & E1 & E2). injection E2 as <-. eauto using save_keeps. }
    apply bind_Ret_inv in E as (c1 & E1 & E2). injection E2 as <-. apply Keep. cbn [fst].
    unfold cut_line, uncut, show_position, backspace, insert_char in E1. cbv zeta in E1. ret_inv; done.
  - unfold on_ask in E. destruct ((ascii ev =? 121) || (ascii ev =? 89)).
    { apply bind_Ret_inv in E as ([[r1 c1] s1] & E1 & E2). injection E2 as <-. apply save_keeps in E1 as [E3 _].
      split; [cbn; by rewrite E3|by left]. }
    ret_inv; split; cbn; auto.
Qed.

Lemma visible_ok c d rows n :
  holds_doc c d -> (n <= length (content d))%nat -> completes (visible_loop rows c (Z.of_nat n)) (fun _ => True).
Proof.
  intros Hd. revert n. induction rows as [|rows IH]; intros n Hn; cbn [visible_loop]; [by apply completes_Ret|].
  pose proof (holds_at c d n Hd Hn) as Ha. pose proof (line_end_ok _ _ _ (hd_text _ _ Ha)) as E.
  pose proof (hd_len _ _ Ha) as El. pose proof (hd_pos _ _ Ha) as Ep. cbn [n_buf n_len n_pos set_pos] in *.
  fold (content (at_place n d)) in E. rewrite <- El, <- Ep in E. rewrite E. cbn [mbind outcome_bind].
  destruct (_ && _); [by apply completes_Ret|]. rewrite (hd_len _ _ Hd).
  destruct (Z.leb_spec (zlen (content d)) (Z.of_nat n + zlen (rest_of_line (after (at_place n d))))); [by apply completes_Ret|].
  replace (Z.of_nat n + zlen _ + 1) with (Z.of_nat (n + length (rest_of_line (after (at_place n d))) + 1)) by (unfold zlen; lia).
  apply IH. unfold zlen in *. lia.
Qed.

Lemma update_scroll_ok c d :
  holds_doc c d -> 0 <= n_scroll c ->
  completes (nano_update_scroll c) (fun c' => holds_doc c' d /\ 0 <= n_scroll c' /\ n_mode c' = n_mode c).
Proof.
  intros Hd Hs. unfold nano_update_scroll. assert (Hset : forall p, holds_doc (set_scroll p c) d) by (by destruct Hd).
  destruct (Z.ltb_spec (n_pos c) (n_scroll c)) as [Hp|Hp].
  { rewrite (hd_pos _ _ Hd), (line_start_ok _ _ _ (hd_text _ _ Hd)). cbn [mbind outcome_bind]. apply completes_Ret.
    split_and!; [done|apply zlen_nonneg|done]. }
  assert (Hn : (Z.to_nat (n_scroll c) <= length (content d))%nat).
  { rewrite (hd_pos _ _ Hd) in Hp. unfold content. rewrite length_app. unfold zlen in Hp. lia. }
  pose proof (visible_ok c d (Z.to_nat (n_edit_rows c)) _ Hd Hn) as (v & E & _). rewrite Z2Nat.id in E by done.
  rewrite E. cbn [mbind outcome_bind]. destruct v; [by apply completes_Ret|].
  pose proof (holds_at c d _ Hd Hn) as Ha. rewrite Z2Nat.id in Ha by done.
  apply line_down_ok in Ha as (c1 & E1 & H1). cbn [n_buf n_len n_pos set_pos] in E1.
  destruct (nano_move_vertical _ _ _ _) as [p| |]; try discriminate. cbn [mbind outcome_bind] in *. injection E1 as <-.
  apply completes_Ret. pose proof (hd_pos _ _ H1) as E2. cbn in E2. split_and!; [done|cbn; rewrite E2; apply zlen_nonneg|done].
Qed.

(** No keys without a search make the editor leave its buffers. *)
Lemma loop_ok {S} `{FileSystem S} evs c d (s : S) :
  (forall p (s : S), completes (fs_create p s) (fun _ => True)) ->
  (forall p o b (s : S), completes (fs_write p o b s) (fun _ => True)) ->
  holds_doc c d -> editing c -> Forall (fun ev => ascii ev <> 23) evs ->
  completes (nano_loop evs c s) (fun r => exists d', holds_doc r.1 d').
Proof.
  intros Hc Hw. revert c d s. induction evs as [|ev evs IH]; intros c d s Hd He Hevs; cbn [nano_loop].
  all: destruct (n_running c); [|apply completes_Ret; eauto].
  all: eapply (completes_bind _ _ (fun c1 => holds_doc c1 d /\ editing c1));
    [destruct He as [Hs [Hm|Hm]]; rewrite Hm; [eapply completes_mono; [by apply update_scroll_ok|]|apply completes_Ret];
       [intros c1 (? & ? & Hm1); rewrite Hm in Hm1; unfold editing; auto|unfold editing; auto]|].
  - intros c1 [H1 _]. apply completes_Ret. eauto.
  - intros c1 [H1 He1]. apply Forall_cons in Hevs as [Hx Hevs].
    destruct (nano_on_event_ok Hc Hw ev c1 d s H1) as ([c2 s2] & E & H2).
    { destruct He1 as [_ [Hm|Hm]]; by rewrite Hm. }
    rewrite E. cbn [mbind outcome_bind]. apply (on_event_editing ev c1 s (c2, s2)) in E; [|done..]. by eapply IH.
Qed.


#[local] Existing Instance ShellSpec.store_files.

(** Two lines, the cursor on the second; cut it. *)
Definition ex_text : list Z := txt "one"%string ++ [10] ++ txt "two"%string.

Definition ex_doc : doc := Doc (txt "one"%string ++ [10; 116]) (txt "wo"%string) [].

Definition ex_nano (kill : list Z) (junk : list Z) : nano :=
  MkNano (ex_text ++ 0 :: junk) kill 7 0 5 0 false true [] Editing (txt "/a"%string) 20.

Definition zeros (n : Z) : list Z := replicate (Z.to_nat n) 0.

Lemma zlen_zeros n : 0 <= n -> zlen (zeros n) = n.
Proof. intros H. unfold zlen, zeros. rewrite length_replicate. lia. Qed.

Lemma ex_nano_holds kill junk :
  zlen kill = NANO_MAX_TEXT -> zlen junk = NANO_MAX_TEXT - 8 -> holds_doc (ex_nano kill junk) ex_doc.
Proof.
  intros H1 H2. assert (H3 : zlen ex_text = 7) by done.
  split; cbn [n_buf n_len n_pos n_kill n_kill_len ex_nano].
  - by exists junk.
  - rewrite zlen_app, zlen_cons, H2, H3. lia.
  - reflexivity.
  - reflexivity.
  - by exists kill.
  - exact H1.
  - reflexivity.
Qed.


(** At the end of the text the search starts behind the NUL, in what earlier
    texts left there: "b" is found although the text is "a". *)
Lemma search_past_end :
  search [98] (MkNano ([97; 0; 98; 0]) [] 1 0 1 0 false true [] Editing [] 20) =
  Ret (set_status [] (set_pos 2 (MkNano ([97; 0; 98; 0]) [] 1 0 1 0 false true [] Editing [] 20))).
Proof. reflexivity. Qed.

End NanoSpec.
