(* ===== verification/Boot.v ===== *)
(** * Boot log, boot stages and swap

    core/bootlog.c: text appended to a file, through the interface to files of
    Shell; the offset at which the loader stopped writing comes with the boot
    information.  core/boot.c: the stage of the boot, with the line logged and the
    event traced for every change.  fs/swap.c: the swap partition that is
    registered behind the two file systems. *)

From Stdlib Require Import String Ascii.
From stdpp Require Import base tactics list numbers.
From S2P Require Import Prelude Digits CMem Telemetry Dmesg Libc Console LineEdit Shell ShellSpec.

Module BootLog.
Import LineEdit Console Shell.
Local Open Scope string_scope.
Local Open Scope list_scope.
Local Open Scope Z_scope.

Record bootlog_state := MkLog { g_log_offset : Z; g_enabled : Z }.

Definition bootlog_path : list Z := txt "/fat32/BOOTLOG.TXT".

(** [info] is the member [log_offset] of the boot information, if there is one. *)
Definition bootlog_init (info : option Z) : bootlog_state := MkLog (default 0 info) 1.

Section log.
Context {S : Type} `{FileSystem S}.

Definition bl_write_raw (buf : list Z) (b : bootlog_state) (s : S) : outcome (bootlog_state * S) :=
  if g_enabled b =? 0 then Ret (b, s)
  else
    '(written, s1) ← fs_write bootlog_path (g_log_offset b) buf s;
    Ret (if 0 <? written then MkLog (u64 (g_log_offset b + written)) (g_enabled b) else b, s1).

(** [None] is a null pointer. *)
Definition bootlog (msg : option (list Z)) (b : bootlog_state) (s : S) : outcome (bootlog_state * S) :=
  match msg with None => Ret (b, s) | Some t => bl_write_raw t b s end.

Definition hex_chars (v : Z) : list Z := map (fun i => Shell.hex_digit (Z.land (Z.shiftr v ((15 - i) * 4)) 15)) (seqZ 0 16).

(** Upper-case digits. *)
Definition upper_hex (v : Z) : list Z := map (fun c => if 97 <=? c then c - 32 else c) (hex_chars v).

Definition bootlog_hex (label : option (list Z)) (value : Z) (b : bootlog_state) (s : S) : outcome (bootlog_state * S) :=
  '(b1, s1) ← bootlog label b s;
  '(b2, s2) ← bl_write_raw (txt "0x" ++ upper_hex value) b1 s1;
  bl_write_raw [13; 10] b2 s2.

Definition bootlog_close (b : bootlog_state) : bootlog_state := MkLog (g_log_offset b) 0.
End log.

End BootLog.

(** ** Stages *)
Module BootStage.
Import LineEdit.
Local Open Scope Z_scope.

Definition STAGE_HALT : Z := 8.

Definition stage_names : list string :=
  ["STAGE 0: Firmware"; "STAGE 1: Early Memory Management"; "STAGE 2: IRQ & System Init";
   "STAGE 3: Device Discovery & IPC"; "STAGE 4: Storage & VFS Mounting"; "STAGE 5: Runtime Bring-up";
   "STAGE 6: Service Activation"; "STAGE 7: Userspace Session"; "System Halt"]%string.

Record boot_state := MkBoot { g_current_stage : Z; b_log : Dmesg.dmesg; b_trace : Telemetry.telemetry }.

(** [clock] are the readings of the timer for the log, [now] and [cur] those of
    the trace.  The enumeration is unsigned. *)
Definition sageos_set_boot_stage (clock : nat -> Z) (now : Z) (cur : option Z) (stage : Z) (b : boot_state) : outcome boot_state :=
  log ← (if stage <=? STAGE_HALT then
           name ← rd stage_names stage;
           Dmesg.dmesg_log clock (Some (txt "BOOT: Transitioning to "%string ++ txt name)) (b_log b)
         else Ret (b_log b));
  Ret (MkBoot stage log (Telemetry.trace_log now cur Telemetry.TRACE_BOOT_STAGE stage 0 (b_trace b))).

Definition sageos_get_boot_stage (b : boot_state) : Z := g_current_stage b.
End BootStage.

(** ** Swap *)
Module Swap.
Import LineEdit Console.
Local Open Scope string_scope.
Local Open Scope list_scope.
Local Open Scope Z_scope.

Record swap_device := MkSwap { partition_lba : Z; size_bytes : Z; swap_active : Z }.

Definition MiB_TO_SECTORS (mib : Z) : Z := mib * 1024 * 1024 / 512.
Definition FAT32_START_LBA : Z := 2048.
Definition FAT32_SECTORS : Z := MiB_TO_SECTORS 64.
Definition BTRFS_START_LBA : Z := FAT32_START_LBA + FAT32_SECTORS.
Definition BTRFS_SECTORS : Z := MiB_TO_SECTORS 128.
Definition SWAP_START_LBA : Z := BTRFS_START_LBA + BTRFS_SECTORS.
Definition SWAP_SIZE_BYTES : Z := 125 * 1024 * 1024.

Section swap.
(** Whether a block device was found, and its name. *)
Context (available : bool) (blkdev_name : list Z).

Definition swap_registered : list Z := txt "SWAP: Registered swap on partition 3 (125MB) via " ++ blkdev_name.

(** The result, the device, the text on the console and the line for the log. *)
Definition swap_init (d : swap_device) : Z * swap_device * list Z * option (list Z) :=
  if available then (1, MkSwap (u32 SWAP_START_LBA) SWAP_SIZE_BYTES 1, console_write (10 :: swap_registered), Some swap_registered)
  else (0, MkSwap (partition_lba d) (size_bytes d) 0, [], None).

Definition swap_is_available (d : swap_device) : Z := swap_active d.
Definition swap_total_bytes (d : swap_device) : Z := if swap_active d =? 0 then 0 else size_bytes d.
Definition swap_used_bytes (d : swap_device) : Z := 0.

Definition swap_info (d : swap_device) : outcome (list Z) :=
  if swap_active d =? 0 then
    Ret (console_write (10 :: txt "  [--] No swap device active (" ++ blkdev_name ++ txt " not detected)"))
  else
    lba ← console_u64 (partition_lba d);
    mb ← console_u32 (u32 (size_bytes d / 1024 / 1024));
    Ret (console_write (10 :: txt "  [OK] Swap device active (" ++ blkdev_name ++ txt "):") ++
         console_write (10 :: txt "       Partition start LBA: ") ++ lba ++
         console_write (10 :: txt "       Size: ") ++ mb ++ console_write (txt " MB")).
End swap.

(** The partition starts behind the two others, its number fits in 32 bits, and
    the report shows its figures. *)
Lemma swap_registered_ok name d :
  swap_init true name d = (1, MkSwap 395264 131072000 1, console_write (10 :: swap_registered name), Some (swap_registered name)) /\
  completes (swap_info name (MkSwap 395264 131072000 1)) (fun o =>
    exists before, o = before ++ console_write (10 :: txt "       Partition start LBA: ") ++ txt "395264" ++
      console_write (10 :: txt "       Size: ") ++ txt "125" ++ console_write (txt " MB")).
Proof.
  split; [reflexivity|]. eexists. split; [reflexivity|].
  exists (console_write (10 :: txt "  [OK] Swap device active (" ++ name ++ txt "):")). reflexivity.
Qed.
End Swap.
