(* ===== verification/Natives.v ===== *)
(** * The native functions of the language

    shell/sage_shell_entry.c: the functions of the kernel that programs of the
    byte-code machine call by name, their registration, and the two entry points
    that run a program, [sage_shell_run] and [sage_run_file].

    A native function is a computation over the machine that prints ([sh] of
    Shell).  The rest of the system is the world inside the machine: files, bytes
    typed, console, page allocator, kernel log, threads, swap partition.  What a
    native function starts elsewhere in the kernel is a call handed to the
    parameter [kernel].

    A function that waits for a key when no more bytes arrive does not return:
    [OutOfFuel].  Loops over files take [fuel], as in Shell. *)

From Stdlib Require Import String Ascii.
From stdpp Require Import base tactics list numbers.
From S2P Require Import Prelude Digits CMem Pmm Telemetry Dmesg Timer Sched Vfs Float64 Vm Libc Console LineEdit Stubs Shell Boot.

Module Natives.
Import Float64 Vm Console LineEdit Shell.
Local Open Scope string_scope.
Local Open Scope list_scope.
Local Open Scope Z_scope.

Record world (S : Type) := MkWorld {
  w_fs : S;
  w_input : list Z; w_keys : keyboard; w_con : console; w_hist : history;
  w_pmm : Pmm.pmm; w_log : Dmesg.dmesg; w_k : Sched.kstate; w_swap : Swap.swap_device;
  w_seed : Z; w_seed_at : Z; w_exec_active : Z; w_input_start : Z * Z; w_out : list Z }.
Arguments MkWorld {S}. Arguments w_fs {S}. Arguments w_input {S}. Arguments w_keys {S}. Arguments w_con {S}.
Arguments w_hist {S}. Arguments w_pmm {S}. Arguments w_log {S}. Arguments w_k {S}. Arguments w_swap {S}.
Arguments w_seed {S}. Arguments w_seed_at {S}. Arguments w_exec_active {S}. Arguments w_input_start {S}. Arguments w_out {S}.

Definition set_fs {S} (x : S) (w : world S) : world S :=
  MkWorld x (w_input w) (w_keys w) (w_con w) (w_hist w) (w_pmm w) (w_log w) (w_k w) (w_swap w) (w_seed w) (w_seed_at w) (w_exec_active w) (w_input_start w) (w_out w).
Definition set_keys {S} (i : list Z) (k : keyboard) (w : world S) : world S :=
  MkWorld (w_fs w) i k (w_con w) (w_hist w) (w_pmm w) (w_log w) (w_k w) (w_swap w) (w_seed w) (w_seed_at w) (w_exec_active w) (w_input_start w) (w_out w).
Definition set_con {S} (c : console) (w : world S) : world S :=
  MkWorld (w_fs w) (w_input w) (w_keys w) c (w_hist w) (w_pmm w) (w_log w) (w_k w) (w_swap w) (w_seed w) (w_seed_at w) (w_exec_active w) (w_input_start w) (w_out w).
Definition set_log {S} (d : Dmesg.dmesg) (w : world S) : world S :=
  MkWorld (w_fs w) (w_input w) (w_keys w) (w_con w) (w_hist w) (w_pmm w) d (w_k w) (w_swap w) (w_seed w) (w_seed_at w) (w_exec_active w) (w_input_start w) (w_out w).
Definition set_seeds {S} (a b : Z) (w : world S) : world S :=
  MkWorld (w_fs w) (w_input w) (w_keys w) (w_con w) (w_hist w) (w_pmm w) (w_log w) (w_k w) (w_swap w) a b (w_exec_active w) (w_input_start w) (w_out w).
Definition set_exec {S} (x : Z) (w : world S) : world S :=
  MkWorld (w_fs w) (w_input w) (w_keys w) (w_con w) (w_hist w) (w_pmm w) (w_log w) (w_k w) (w_swap w) (w_seed w) (w_seed_at w) x (w_input_start w) (w_out w).
Definition set_start {S} (p : Z * Z) (w : world S) : world S :=
  MkWorld (w_fs w) (w_input w) (w_keys w) (w_con w) (w_hist w) (w_pmm w) (w_log w) (w_k w) (w_swap w) (w_seed w) (w_seed_at w) (w_exec_active w) p (w_out w).
Definition add_out {S} (o : list Z) (w : world S) : world S :=
  MkWorld (w_fs w) (w_input w) (w_keys w) (w_con w) (w_hist w) (w_pmm w) (w_log w) (w_k w) (w_swap w) (w_seed w) (w_seed_at w) (w_exec_active w) (w_input_start w) (w_out w ++ o).

(** An operation on files, in the world. *)
Definition in_fs {S A} (f : S -> outcome (A * S)) (w : world S) : outcome (A * world S) :=
  r ← f (w_fs w); Ret (r.1, set_fs r.2 w).

#[export] Instance world_files {S} `{FileSystem S} : FileSystem (world S) := {|
  fs_read p off n := in_fs (fs_read p off n);
  fs_write p off d := in_fs (fs_write p off d);
  fs_create p := in_fs (fs_create p);
  fs_mkdir p := in_fs (fs_mkdir p);
  fs_unlink p := in_fs (fs_unlink p);
  fs_rm_rf p := in_fs (fs_rm_rf p);
  fs_stat p := in_fs (fs_stat p);
  fs_ls p := in_fs (fs_ls p);
  fs_readdir p := in_fs (fs_readdir p);
  fs_embedded p := fs_embedded p |}.

Inductive ncall := KShell (c : call) | KTimerPoll | KDelay (ms : Z).

Definition SCHED_MAX_THREADS : Z := 64.
Definition SAGEOS_VERSION : list Z := txt "0.7.9".
Definition SAGE_PROMPT : list Z := txt "root@sageos:/# ".

Definition state_code (t : Sched.thread_state) : Z :=
  match t with
  | Sched.THREAD_STATE_UNUSED => 0 | Sched.THREAD_STATE_READY => 1 | Sched.THREAD_STATE_RUNNING => 2
  | Sched.THREAD_STATE_SLEEPING => 3 | Sched.THREAD_STATE_BLOCKED => 4 | Sched.THREAD_STATE_TERMINATED => 5
  end.

Section natives.
Context {S : Type} `{FileSystem S}.
Abbreviation vm := (Vm.vm (world S)).
Context (kernel : ncall -> world S -> outcome (list Z * world S)).
(** Of the processor; the unset half of a word; conversion of doubles. *)
Context (arch : Timer.timer_arch) (junk : Z) (long_of : Z -> Z).
(** Whether the key of a dictionary entry is evaluated before its value. *)
Context (key_first : bool).
(** Time stamps of the log; the name of the block device. *)
Context (clock : nat -> Z) (blkdev_name : list Z).
(** Reads of a file, and nesting of scripts. *)
Context (fuel depth : nat).

Definition prog (A : Type) : Type := sh vm A.

Definition machine {A} (f : vm -> outcome (A * vm)) : prog A := quiet f.
Definition change (f : vm -> outcome vm) : prog unit := fun m => m1 ← f m; Ret (tt, [], m1).
Definition on_world {A} (f : sh (world S) A) : prog A := fun m =>
  r ← f (v_world m);
  let '(a, o, w) := r in
  Ret (a, o, with_world w m).
Definition ask {A} (f : world S -> A) : prog A := fun m => Ret (f (v_world m), [], m).
Definition update (f : world S -> world S) : prog unit := fun m => Ret (tt, [], with_world (f (v_world m)) m).
Definition look {A} (f : vm -> outcome A) : prog A := fun m => a ← f m; Ret (a, [], m).
Definition blocked {A} : prog A := fun _ => OutOfFuel.
Definition lift {A} (x : outcome A) : prog A := fun m => a ← x; Ret (a, [], m).
Definition tell (o : list Z) : prog mvalue := emit o;; sh_ret mv_nil.
Definition call_k (c : ncall) : prog unit := on_world (fun w => r ← kernel c w; Ret (tt, r.1, r.2)).
Definition shell_kernel (c : call) : world S -> outcome (list Z * world S) := kernel (KShell c).

(** ** Arguments and results *)

Section call.
Context (args : list mvalue).

Definition arg_str (i : Z) : prog (list Z) := fun m =>
  match args.[i] with
  | Some v => if bool_decide (mv_type v = MV_STR) then s ← metal_string_get (as_int v) m; Ret (s, [], m) else Ret ([], [], m)
  | None => Ret ([], [], m)
  end.

Definition arg_num (i : Z) : Z :=
  match args.[i] with
  | Some v => if bool_decide (mv_type v = MV_NUM) then d_long long_of (mv_bits v) else 0
  | None => 0
  end.

Definition mv_str_lit (s : list Z) : prog mvalue := machine (mv_str junk s).
Definition mv_dbl (n : Z) : mvalue := mv_num (d_of_int n).
Definition give (n : Z) : prog mvalue := sh_ret (mv_dbl n).
Definition str_at (i : Z) : mvalue := of_int junk MV_STR i.
Definition give_num_str (n : Z) : prog mvalue := i ← machine (metal_num_to_str n); sh_ret (str_at i).

(** ** Output and input *)

Definition n_write_char : prog mvalue := tell (console_putc (u8 (arg_num 0))).
Definition n_write_str : prog mvalue := s ← arg_str 0; tell (console_write s).

Definition n_read_char : prog mvalue := fun m =>
  '(r, k) ← bridge_read_char (w_input (v_world m)) (w_keys (v_world m));
  match r with
  | Some (code, rest) => Ret (mv_dbl code, [], with_world (set_keys rest k (v_world m)) m)
  | None => OutOfFuel
  end.

(** The same loop. *)
Definition n_read_key : prog mvalue := n_read_char.

(** The event that a poll returns, if it returns one. *)
Definition poll_event : prog (option key_event) := fun m =>
  match keyboard_poll_any_event false (w_input (v_world m)) (w_keys (v_world m)) with
  | (Returned r rest, k) =>
      Ret (if r =? 0 then None else Some (ev k), [], with_world (set_keys rest k (v_world m)) m)
  | (Waiting, _) => OutOfFuel
  end.

Definition n_poll_char : prog mvalue :=
  e ← poll_event;
  match e with
  | Some e => if negb (pressed e =? 0) && negb (ascii e =? 0) then give (u8 (ascii e)) else give (-1)
  | None => give (-1)
  end.

Definition n_poll_key : prog mvalue :=
  e ← poll_event;
  match e with Some e => give (key_event_code e) | None => give (-1) end.

(** ** Colour and cursor: nothing on this console *)

Definition n_set_color_hex : prog mvalue := sh_ret mv_nil.
Definition n_get_color : prog mvalue := give console_get_fg.
Definition n_set_color : prog mvalue := sh_ret mv_nil.
Definition n_console_clear : prog mvalue := tell console_clear.
Definition n_cursor_home : prog mvalue := sh_ret mv_nil.
Definition n_move_cursor : prog mvalue := sh_ret mv_nil.

Definition serial_raw (s : list Z) : list Z := s.
Definition serial_dec (v : Z) : outcome (list Z) := console_u32 v.

Definition hint_shown (line hint : list Z) : bool :=
  match hint with [] => false | _ => LineEdit.starts_with hint line end.

Definition serial_prompt_line (line : list Z) (pos : Z) (hint : list Z) : outcome (list Z) :=
  col ← serial_dec (u32 (zlen SAGE_PROMPT + pos + 1));
  Ret ([13] ++ esc "[0K" ++ SAGE_PROMPT ++ line ++
       (if hint_shown line hint then esc "[90m" ++ drop (length line) hint ++ esc "[0m" else []) ++
       [13] ++ esc "[" ++ col ++ [71]).

Definition n_input_begin : prog mvalue := update (set_start console_get_cursor);; sh_ret mv_nil.

(** The console echoes on the serial line whatever [serial_echo] says, so that the
    text is sent twice. *)
Definition n_line_redraw : prog mvalue :=
  line ← arg_str 0;
  let pos := s32 (arg_num 1) in
  let erase_len := s32 (arg_num 2) in
  hint ← arg_str 3;
  let line_len := zlen line in
  let hint_len := if hint_shown line hint then zlen hint else 0 in
  let visible_len := Z.max hint_len line_len in
  let pos := Z.min (Z.max pos 0) line_len in
  saved ← ask (fun w => console_get_serial_echo (w_con w));
  update (fun w => set_con (console_set_serial_echo 0 (w_con w)) w);;
  wrote line;;
  (if line_len <? hint_len then wrote (drop (length line) hint) else sh_ret tt);;
  wrote (replicate (Z.to_nat (erase_len - visible_len)) 32);;
  update (fun w => set_con (console_set_serial_echo saved (w_con w)) w);;
  o ← lift (serial_prompt_line line pos hint);
  tell o.

(** ** Strings, arrays, dictionaries *)

Definition n_strlen : prog mvalue := s ← arg_str 0; give (zlen s).
Definition n_streq : prog mvalue := x ← arg_str 0; y ← arg_str 1; sh_ret (mv_bool junk (streq x y)).

Definition n_char_at : prog mvalue :=
  s ← arg_str 0;
  let idx := s32 (arg_num 1) in
  if (idx <? 0) || (zlen s <=? idx) then give (-1) else c ← lift (rd s idx); give c.

Definition n_substr : prog mvalue :=
  s ← arg_str 0;
  let from := Z.max (s32 (arg_num 1)) 0 in
  let to := Z.min (s32 (arg_num 2)) (zlen s) in
  if to <=? from then mv_str_lit [] else mv_str_lit (take (Z.to_nat (to - from)) (drop (Z.to_nat from) s)).

Definition n_str_chop : prog mvalue := s ← arg_str 0; mv_str_lit (take (length s - 1) s).
Definition n_chr : prog mvalue := mv_str_lit [u8 (arg_num 0)].
Definition n_num_to_str : prog mvalue := give_num_str (arg_num 0).

Definition n_array_push : prog mvalue :=
  match args with
  | a :: v :: _ => if bool_decide (mv_type a = MV_ARR) then change (metal_array_push (as_int a) v);; sh_ret mv_nil else sh_ret mv_nil
  | _ => sh_ret mv_nil
  end.

Definition n_len : prog mvalue :=
  match args with
  | [] => give 0
  | a :: _ =>
      match mv_type a with
      | MV_STR => n_strlen
      | MV_ARR => n ← look (metal_array_len (as_int a)); give n
      | MV_DICT =>
          if (0 <=? as_int a) && (as_int a <? POOL_MAX)
          then n ← look (fun m => d ← rd (dicts m) (as_int a); Ret (d_count d)); give n
          else give 0
      | _ => give 0
      end
  end.

(** The loop re-reads the dictionary through its pointer. *)
Fixpoint push_keys (n : nat) (i d arr : Z) : prog unit :=
  match n with
  | O => sh_ret tt
  | Datatypes.S k =>
      x ← look (fun m => x ← rd (dicts m) d; rd (key_str_idx x) i);
      change (metal_array_push arr (str_at x));; push_keys k (i + 1) d arr
  end.

Definition n_dict_keys : prog mvalue :=
  match args with
  | [] => sh_ret mv_nil
  | a :: _ =>
      if bool_decide (mv_type a = MV_DICT) && (0 <=? as_int a) && (as_int a <? POOL_MAX) then
        arr ← machine metal_array_new;
        if arr <? 0 then sh_ret mv_nil
        else
          n ← look (fun m => d ← rd (dicts m) (as_int a); Ret (d_count d));
          push_keys (Z.to_nat n) 0 (as_int a) arr;;
          sh_ret (of_int junk MV_ARR arr)
      else sh_ret mv_nil
  end.

(** ** The system *)

Definition n_version_string : prog mvalue := mv_str_lit SAGEOS_VERSION.
Definition n_arch : prog mvalue :=
  mv_str_lit (txt match arch with Timer.TIMER_ARCH_X86 => "x86_64" | Timer.TIMER_ARCH_ARM64 => "aarch64" | Timer.TIMER_ARCH_RV64 => "riscv64" end%string).
Definition n_host : prog mvalue :=
  mv_str_lit (txt match arch with
    | Timer.TIMER_ARCH_X86 => "QEMU Standard PC (Q35)" | Timer.TIMER_ARCH_ARM64 => "QEMU Virtual Machine (virt)"
    | Timer.TIMER_ARCH_RV64 => "QEMU RISC-V Virt Machine" end%string).
Definition n_cpu_name : prog mvalue :=
  mv_str_lit (txt match arch with
    | Timer.TIMER_ARCH_X86 => "x86_64 Virtual CPU" | Timer.TIMER_ARCH_ARM64 => "Cortex-A57 Virtual CPU"
    | Timer.TIMER_ARCH_RV64 => "rv64gc Virtual CPU" end%string).
Definition n_input_backend : prog mvalue := mv_str_lit keyboard_backend.

(** [console_has_fb()] is 0 and [console_boot_info()] null. *)
Definition n_fb_available : prog mvalue := give 0.
Definition n_fb_base_str : prog mvalue := mv_str_lit (txt "0x0").
Definition n_fb_width_str : prog mvalue := give_num_str 0.
Definition n_fb_height_str : prog mvalue := give_num_str 0.
Definition n_fb_pps_str : prog mvalue := give_num_str 0.

Definition ram_used : prog Z := look (fun m => Stubs.ram_used_bytes (w_pmm (v_world m))).
Definition ram_total : prog Z := ask (fun w => Stubs.ram_total_bytes (w_pmm w)).
Definition n_ram_used_mb : prog mvalue := n ← ram_used; give (n / 1024 / 1024).
Definition n_ram_total_mb : prog mvalue := n ← ram_total; give (n / 1024 / 1024).

(** The number, and " MB" after it. *)
Definition mb_str (n : Z) : prog mvalue :=
  i ← machine (metal_num_to_str (n / 1024 / 1024));
  j ← machine (metal_string_intern (txt " MB"));
  k ← machine (metal_string_concat i j);
  sh_ret (str_at k).
Definition n_ram_used_str : prog mvalue := n ← ram_used; mb_str n.
Definition n_ram_total_str : prog mvalue := n ← ram_total; mb_str n.

Definition n_cpu_percent : prog mvalue := fun m =>
  let '(p, s) := Timer.timer_cpu_percent (w_seed (v_world m)) in
  Ret (mv_dbl p, [], with_world (set_seeds s (w_seed_at (v_world m)) (v_world m)) m).
Definition n_timer_poll : prog mvalue := call_k KTimerPoll;; sh_ret mv_nil.
Definition n_timer_cpu_percent_at : prog mvalue := fun m =>
  let '(p, s) := Timer.timer_cpu_percent_at (u32 (s32 (arg_num 0))) (w_seed_at (v_world m)) in
  Ret (mv_dbl p, [], with_world (set_seeds (w_seed (v_world m)) s (v_world m)) m).
Definition n_battery_percent : prog mvalue := give Stubs.battery_percent.
Definition n_smp_cpu_count : prog mvalue := give Stubs.smp_cpu_count.

(** A number as text, by way of the string pool. *)
Definition pooled (n : Z) : prog (list Z) :=
  i ← machine (metal_num_to_str n); look (metal_string_get i).

(** [char buf[32]] *)
Definition n_uptime_str : prog mvalue :=
  secs ← ask (fun w => Timer.timer_seconds (Sched.k_timer (w_k w)));
  h ← (if secs / 3600 =? 0 then sh_ret [] else s ← pooled (secs / 3600); sh_ret (s ++ [104; 32]));
  mi ← (if (secs / 60) mod 60 =? 0 then sh_ret [] else s ← pooled ((secs / 60) mod 60); sh_ret (s ++ [109; 32]));
  s ← pooled (secs mod 60);
  let buf := h ++ mi ++ s ++ [115] in
  if 31 <? zlen buf then fault else mv_str_lit buf.

(** The products of [long long]s that overflow, and the one quotient that does,
    are not defined. *)
Definition n_draw_bar : prog mvalue :=
  let val := arg_num 0 in
  let maxv := if arg_num 1 =? 0 then 1 else arg_num 1 in
  let width := arg_num 2 in
  let p := val * width in
  if (p <? - 2 ^ 63) || (2 ^ 63 <=? p) || ((p =? - 2 ^ 63) && (maxv =? -1)) then fault
  else
    let filled := Z.max 0 (Z.min (Z.quot p maxv) width) in
    tell (replicate (Z.to_nat filled) 35 ++ replicate (Z.to_nat (width - filled)) 32).

Definition n_delay_ms : prog mvalue := call_k (KDelay (u32 (arg_num 0)));; sh_ret mv_nil.

(** ** Files and commands *)

(** A command of the shell. *)
Definition command (c : sh (world S) unit) : prog mvalue := on_world c;; sh_ret mv_nil.

Definition n_path_exists : prog mvalue :=
  p ← arg_str 0;
  r ← on_world (quiet (fun s => '(r, st, s1) ← fs_stat p s; Ret (r, s1)));
  sh_ret (mv_bool junk (r =? 0)).
Definition n_ls : prog mvalue := p ← arg_str 0; command (cmd_ls p).
Definition n_cat : prog mvalue :=
  p ← arg_str 0;
  match p with [] => tell (Stubs.line "usage: cat <path>") | _ => command (cmd_cat fuel p) end.
Definition n_mkdir : prog mvalue := p ← arg_str 0; command (cmd_mkdir p).
Definition n_touch : prog mvalue := p ← arg_str 0; command (cmd_touch p).

Definition remove (p : list Z) (recursive : bool) : sh (world S) unit :=
  r ← quiet (if recursive then fs_rm_rf p else fs_unlink p);
  if r <? 0 then complain_short (txt "rm") r else sh_ret tt.
Definition n_rm : prog mvalue :=
  p ← arg_str 0;
  match p with [] => tell (Stubs.line "usage: rm <path>") | _ => command (remove p false) end.
Definition n_rm_recursive : prog mvalue :=
  p ← arg_str 0;
  match p with
  | [] => tell (Stubs.line "usage: rm [-rf] <path>")
  | _ => command (remove p (negb (s32 (arg_num 1) =? 0)))
  end.

Definition n_stat : prog mvalue := p ← arg_str 0; command (cmd_stat p).

Definition n_write : prog mvalue :=
  p ← arg_str 0;
  content ← arg_str 1;
  match p with
  | [] => tell (Stubs.line "usage: write <path> <content>")
  | _ =>
      command (quiet (fs_create p);;
               r ← quiet (fs_write p 0 content);
               if r <? 0 then complain_short (txt "write") r else sh_ret tt)
  end.

Definition n_execelf : prog mvalue :=
  p ← arg_str 0;
  match fs_embedded p with
  | None => tell (Stubs.line "execelf: no such file: " ++ console_write p)
  | Some data => call_k (KShell (CElfExec data));; sh_ret mv_nil
  end.

Definition n_shell_exec : prog mvalue :=
  active ← ask w_exec_active;
  if negb (active =? 0) then tell (console_write (10 :: txt "[debug] shell_exec reentrancy detected!" ++ [10]))
  else
    line ← arg_str 0;
    hist ← ask w_hist;
    update (set_exec 1);;
    on_world (shell_exec_command shell_kernel hist fuel depth line);;
    update (set_exec 0);;
    sh_ret mv_nil.

Definition n_shell_completion_count : prog mvalue := s ← arg_str 0; give (shell_completion_count s).
Definition n_shell_completion_at : prog mvalue := s ← arg_str 0; mv_str_lit (shell_completion_at s (s32 (arg_num 1))).
Definition n_shell_completion_common : prog mvalue := s ← arg_str 0; mv_str_lit (shell_completion_common_prefix s).
Definition n_shell_suggestion : prog mvalue := s ← arg_str 0; mv_str_lit (shell_suggestion s).
Definition n_shell_print_completions : prog mvalue := s ← arg_str 0; tell (shell_print_completions s).
Definition n_keydebug : prog mvalue := sh_ret mv_nil.

Definition n_dmesg_dump : prog mvalue :=
  o ← look (fun m => Dmesg.dmesg_dump (w_log (v_world m))); tell (console_write o).
Definition n_dmesg_get_total : prog mvalue := n ← ask (fun w => Dmesg.dmesg_get_total (w_log w)); give n.
Definition n_dmesg_get_head : prog mvalue := n ← ask (fun w => Dmesg.dmesg_get_head (w_log w)); give n.
Definition n_dmesg_get_size : prog mvalue := give Dmesg.dmesg_get_size.
Definition n_dmesg_get_char : prog mvalue :=
  c ← look (fun m => Dmesg.dmesg_get_char (u32 (arg_num 0)) (w_log (v_world m))); give (u8 c).
Definition n_dmesg_log : prog mvalue :=
  s ← arg_str 0;
  d ← look (fun m => Dmesg.dmesg_log clock (Some s) (w_log (v_world m)));
  update (set_log d);; sh_ret mv_nil.

Definition n_status_print : prog mvalue := tell Stubs.status_print.
Definition n_status_refresh : prog mvalue := tell Stubs.status_refresh.
Definition n_sysinfo : prog mvalue := tell Stubs.sysinfo_cmd.
Definition n_timer_info : prog mvalue := sh_ret mv_nil.
Definition n_smp_info : prog mvalue := tell Stubs.smp_cmd_info.
Definition n_smp_boot_aps : prog mvalue := tell Stubs.smp_boot_aps.
Definition n_battery_info : prog mvalue := tell Stubs.battery_cmd_info.
Definition n_pci_info : prog mvalue := tell Stubs.pci_cmd_info.
Definition n_sdhci_info : prog mvalue := tell Stubs.sdhci_cmd_info.
Definition n_acpi_summary : prog mvalue := tell Stubs.acpi_cmd_summary.
Definition n_acpi_tables : prog mvalue := tell Stubs.acpi_cmd_tables.
Definition n_acpi_fadt : prog mvalue := tell Stubs.acpi_cmd_fadt.
Definition n_acpi_madt : prog mvalue := tell Stubs.acpi_cmd_madt.
Definition n_acpi_lid : prog mvalue := tell Stubs.acpi_cmd_lid.
Definition n_acpi_battery : prog mvalue := tell Stubs.acpi_cmd_battery.
Definition n_shutdown : prog mvalue := call_k (KShell CShutdown);; sh_ret mv_nil.
Definition n_suspend : prog mvalue := tell Stubs.power_suspend.
Definition n_halt : prog mvalue := tell Stubs.power_halt.
Definition n_reboot : prog mvalue := call_k (KShell CReboot);; sh_ret mv_nil.
Definition n_qemu_exit : prog mvalue := tell Stubs.power_qemu_exit.

Definition n_swap_info : prog mvalue :=
  o ← look (fun m => Swap.swap_info blkdev_name (w_swap (v_world m))); tell o.
Definition n_swap_available : prog mvalue := n ← ask (fun w => Swap.swap_is_available (w_swap w)); give n.
Definition n_os_swap_total_mb : prog mvalue := n ← ask (fun w => Swap.swap_total_bytes (w_swap w)); give (n / 1024 / 1024).
Definition n_os_swap_used_mb : prog mvalue := n ← ask (fun w => Swap.swap_used_bytes (w_swap w)); give (n / 1024 / 1024).
Definition n_is_qemu : prog mvalue := give Stubs.sysinfo_is_qemu.
Definition n_sage_exec : prog mvalue := p ← arg_str 0; call_k (KShell (CRunFile p));; sh_ret mv_nil.
Definition n_os_get_c0 : prog mvalue := sh_ret mv_nil.

Definition n_sched_info : prog mvalue := tell (Stubs.line "Scheduler: Multitasking Enabled").
(** The statistics are a constant structure of zeroes. *)
Definition n_sched_thread_count : prog mvalue := give 0.
Definition n_sched_cpu_count : prog mvalue := give 0.
Definition n_sched_context_switches : prog mvalue := give 0.
Definition n_sched_migrations : prog mvalue := give 0.

(** ** Records for programs *)

(** [metal_dict_set(vm, d, metal_string_intern(vm, key), value)] *)
Definition put (d : Z) (key : string) (value : prog mvalue) : prog unit :=
  let intern := machine (metal_string_intern (txt key)) in
  if key_first then (k ← intern; v ← value; change (metal_dict_set d k v))
  else (v ← value; k ← intern; change (metal_dict_set d k v)).

(** The name is copied into 32 bytes of which the last is never set. *)
Definition thread_name (nm : list Z) : prog mvalue := if zlen nm <? 31 then mv_str_lit nm else fault.

Fixpoint push_tasks (n : nat) (i arr : Z) : prog unit :=
  match n with
  | O => sh_ret tt
  | Datatypes.S k =>
      x ← look (fun m => Sched.sched_get_thread_info i (w_k (v_world m)));
      (match x with
       | Some (nm, st, cpu) =>
           d ← machine metal_dict_new;
           put d "id" (give i);; put d "name" (thread_name nm);; put d "state" (give (state_code st));; put d "cpu" (give cpu);;
           change (metal_array_push arr (of_int junk MV_DICT d))
       | None => sh_ret tt
       end);;
      push_tasks k (i + 1) arr
  end.

Definition n_os_get_tasks : prog mvalue :=
  arr ← machine metal_array_new;
  push_tasks (Z.to_nat SCHED_MAX_THREADS) 0 arr;;
  sh_ret (of_int junk MV_ARR arr).

(** One key of [n_read_line]: the text so far, and whether it is complete. *)
Definition line_key (code : Z) (buf : list Z) : list Z * list Z * bool :=
  if (code =? 10) || (code =? 13) then (buf, console_putc 10, true)
  else if (code =? 8) || (code =? 127) then
    if 0 <? zlen buf then (removelast buf, console_write [8; 32; 8], false) else (buf, [], false)
  else if (32 <=? code) && (code <=? 126) && (zlen buf <? 255) then (buf ++ [code], console_putc code, false)
  else (buf, [], false).

(** [f] bounds the events; one per byte typed is enough. *)
Fixpoint read_line_loop (f : nat) (buf : list Z) : prog (list Z) :=
  match f with
  | O => blocked
  | Datatypes.S f' => fun m =>
      match keyboard_wait_event false (w_input (v_world m)) (w_keys (v_world m)) with
      | (Waiting, _) => OutOfFuel
      | (Returned r rest, k) =>
          let m1 := with_world (set_keys rest k (v_world m)) m in
          let code := key_event_code (ev k) in
          if (r =? 0) || (pressed (ev k) =? 0) || (code <? 0) then read_line_loop f' buf m1
          else
            let '(buf1, o, complete) := line_key code buf in
            if (complete : bool) then Ret (buf1, o, m1)
            else
              res ← read_line_loop f' buf1 m1;
              let '(l, o2, m2) := res in
              Ret (l, o ++ o2, m2)
      end
  end.

Definition n_read_line : prog mvalue := fun m =>
  (buf ← read_line_loop (Datatypes.S (length (w_input (v_world m)))) []; mv_str_lit buf) m.

Definition n_os_get_mem_stats : prog mvalue :=
  d ← machine metal_dict_new;
  put d "used" (n ← ram_used; give n);; put d "total" (n ← ram_total; give n);;
  sh_ret (of_int junk MV_DICT d).

Fixpoint log_chars (n : nat) (i : Z) (d : Dmesg.dmesg) : outcome (list Z) :=
  match n with
  | O => Ret []
  | Datatypes.S k => c ← Dmesg.dmesg_get_char i d; r ← log_chars k (i + 1) d; Ret (u8 c :: r)
  end.

(** The free part of the heap serves as buffer. *)
Definition n_os_get_dmesg : prog mvalue :=
  d ← ask w_log;
  used ← look (fun m => Ret (heap_used m));
  let total := Z.min (Dmesg.dmesg_get_total d) Dmesg.dmesg_get_size in
  if METAL_HEAP_SIZE <? used + total + 1 then sh_ret mv_nil
  else text ← lift (log_chars (Z.to_nat total) 0 d); mv_str_lit text.

Definition n_os_vfs_stat : prog mvalue :=
  p ← arg_str 0;
  x ← on_world (quiet (fun s => '(r, st, s1) ← fs_stat p s; Ret (r, st, s1)));
  let '(r, st) := x in
  if r =? Vfs.VFS_OK then
    d ← machine metal_dict_new;
    put d "name" (mv_str_lit (Vfs.st_name st));; put d "type" (give (Vfs.st_type st));; put d "size" (give (Vfs.st_size st));;
    sh_ret (of_int junk MV_DICT d)
  else sh_ret mv_nil.

Fixpoint push_entries (n : nat) (i : Z) (es : list Vfs.dir_entry) (arr : Z) : prog unit :=
  match n with
  | O => sh_ret tt
  | Datatypes.S k =>
      e ← lift (rd es i);
      d ← machine metal_dict_new;
      put d "name" (mv_str_lit (Vfs.de_name e));; put d "type" (give (Vfs.de_type e));; put d "size" (give (Vfs.de_size e));;
      change (metal_array_push arr (of_int junk MV_DICT d));;
      push_entries k (i + 1) es arr
  end.

Definition n_os_vfs_readdir : prog mvalue :=
  p ← arg_str 0;
  x ← on_world (quiet (fun s => '(n, es, s1) ← fs_readdir p s; Ret (n, es, s1)));
  let '(n, es) := x in
  if 0 <=? n then
    arr ← machine metal_array_new;
    push_entries (Z.to_nat n) 0 es arr;;
    sh_ret (of_int junk MV_ARR arr)
  else sh_ret mv_nil.

Definition n_os_get_terminal_size : prog mvalue :=
  d ← machine metal_dict_new;
  put d "cols" (give console_cols);; put d "rows" (give console_rows);;
  sh_ret (of_int junk MV_DICT d).
End call.

(** ** Registration *)

(** In the order of [register_natives]; the place in the list stands for the address. *)
Definition native_table : list (string * (list mvalue -> prog mvalue)) :=
  [ ("os_write_char", n_write_char); ("os_write_str", n_write_str); ("os_read_char", fun _ => n_read_char);
    ("os_read_key", fun _ => n_read_key); ("os_poll_char", fun _ => n_poll_char);
    ("os_poll_key", fun _ => n_poll_key); ("os_set_color_hex", fun _ => n_set_color_hex);
    ("os_set_color", fun _ => n_set_color); ("os_get_color", fun _ => n_get_color);
    ("os_console_clear", fun _ => n_console_clear); ("os_cursor_home", fun _ => n_cursor_home);
    ("os_move_cursor", fun _ => n_move_cursor); ("os_input_begin", fun _ => n_input_begin);
    ("os_line_redraw", n_line_redraw); ("os_terminal_size", fun _ => n_os_get_terminal_size); ("len", n_len);
    ("dict_keys", n_dict_keys); ("os_strlen", n_strlen); ("os_streq", n_streq); ("os_char_at", n_char_at);
    ("os_substr", n_substr); ("os_str_chop", n_str_chop); ("os_chr", n_chr); ("os_num_to_str", n_num_to_str);
    ("os_array_push", n_array_push); ("os_version_string", fun _ => n_version_string); ("os_arch", fun _ => n_arch);
    ("os_host", fun _ => n_host); ("os_cpu_name", fun _ => n_cpu_name);
    ("os_input_backend", fun _ => n_input_backend); ("os_fb_available", fun _ => n_fb_available);
    ("os_fb_base_str", fun _ => n_fb_base_str); ("os_fb_width_str", fun _ => n_fb_width_str);
    ("os_fb_height_str", fun _ => n_fb_height_str); ("os_fb_pps_str", fun _ => n_fb_pps_str);
    ("os_ram_used_mb", fun _ => n_ram_used_mb); ("os_ram_total_mb", fun _ => n_ram_total_mb);
    ("os_ram_used_str", fun _ => n_ram_used_str); ("os_ram_total_str", fun _ => n_ram_total_str);
    ("os_cpu_percent", fun _ => n_cpu_percent); ("os_timer_poll", fun _ => n_timer_poll);
    ("os_timer_cpu_percent_at", n_timer_cpu_percent_at); ("os_battery_percent", fun _ => n_battery_percent);
    ("os_smp_cpu_count", fun _ => n_smp_cpu_count); ("os_uptime_str", fun _ => n_uptime_str);
    ("os_get_tasks", fun _ => n_os_get_tasks); ("os_get_mem_stats", fun _ => n_os_get_mem_stats);
    ("os_draw_bar", n_draw_bar); ("os_delay_ms", n_delay_ms); ("os_path_exists", n_path_exists); ("os_ls", n_ls);
    ("os_cat", n_cat); ("os_mkdir", n_mkdir); ("os_touch", n_touch); ("os_rm", n_rm);
    ("os_rm_recursive", n_rm_recursive); ("os_stat", n_stat); ("os_write", n_write); ("os_execelf", n_execelf);
    ("os_shell_exec", n_shell_exec); ("os_shell_completion_count", n_shell_completion_count);
    ("os_shell_completion_at", n_shell_completion_at); ("os_shell_completion_common", n_shell_completion_common);
    ("os_shell_suggestion", n_shell_suggestion); ("os_shell_print_completions", n_shell_print_completions);
    ("os_keydebug", fun _ => n_keydebug); ("os_dmesg_dump", fun _ => n_dmesg_dump); ("os_dmesg_log", n_dmesg_log);
    ("dmesg_log", n_dmesg_log); ("os_dmesg_get_total", fun _ => n_dmesg_get_total);
    ("os_dmesg_get_head", fun _ => n_dmesg_get_head); ("os_dmesg_get_size", fun _ => n_dmesg_get_size);
    ("os_dmesg_get_char", n_dmesg_get_char); ("os_sched_info", fun _ => n_sched_info);
    ("os_sched_thread_count", fun _ => n_sched_thread_count); ("os_sched_cpu_count", fun _ => n_sched_cpu_count);
    ("os_sched_context_switches", fun _ => n_sched_context_switches);
    ("os_sched_migrations", fun _ => n_sched_migrations); ("os_status_print", fun _ => n_status_print);
    ("os_status_refresh", fun _ => n_status_refresh); ("os_sysinfo", fun _ => n_sysinfo);
    ("os_timer_info", fun _ => n_timer_info); ("os_smp_info", fun _ => n_smp_info);
    ("os_smp_boot_aps", fun _ => n_smp_boot_aps); ("os_battery_info", fun _ => n_battery_info);
    ("os_pci_info", fun _ => n_pci_info); ("os_sdhci_info", fun _ => n_sdhci_info);
    ("os_acpi_summary", fun _ => n_acpi_summary); ("os_acpi_tables", fun _ => n_acpi_tables);
    ("os_acpi_fadt", fun _ => n_acpi_fadt); ("os_acpi_madt", fun _ => n_acpi_madt);
    ("os_acpi_lid", fun _ => n_acpi_lid); ("os_acpi_battery", fun _ => n_acpi_battery);
    ("os_shutdown", fun _ => n_shutdown); ("os_suspend", fun _ => n_suspend); ("os_halt", fun _ => n_halt);
    ("os_reboot", fun _ => n_reboot); ("os_swap_info", fun _ => n_swap_info);
    ("os_swap_available", fun _ => n_swap_available); ("os_swap_total_mb", fun _ => n_os_swap_total_mb);
    ("os_swap_used_mb", fun _ => n_os_swap_used_mb); ("os_is_qemu", fun _ => n_is_qemu);
    ("os_qemu_exit", fun _ => n_qemu_exit); ("os_sage_exec", n_sage_exec); ("os_get_c0", fun _ => n_os_get_c0);
    ("os_get_tasks", fun _ => n_os_get_tasks); ("read_line", fun _ => n_read_line);
    ("os_get_mem_stats", fun _ => n_os_get_mem_stats); ("os_get_dmesg", fun _ => n_os_get_dmesg);
    ("os_vfs_stat", n_os_vfs_stat); ("os_vfs_readdir", n_os_vfs_readdir) ].

Fixpoint register_all (i : Z) (t : list string) (m : vm) : outcome vm :=
  match t with
  | [] => Ret m
  | nm :: r => '(_, m1) ← metal_vm_register_native junk (txt nm) i m; register_all (i + 1) r m1
  end.

Definition register_natives (m : vm) : outcome vm := register_all 0 native_table.*1 m.

(** A call by address. *)
Definition native (fn : Z) (args : list mvalue) (m : vm) : outcome (mvalue * vm) :=
  match native_table.[fn] with
  | Some (_, f) => r ← f args m; let '(v, o, m1) := r in Ret (v, with_world (add_out o (v_world m1)) m1)
  | None => Fault
  end.

(** ** Running programs *)

Section run.
(** The parameters of the machine. *)
Context (nan_of : Z -> Z -> Z) (int_of : Z -> Z) (sage_import_module : list Z -> vm -> outcome vm) (ip_first : bool) (print_depth : nat).
Abbreviation metal_vm_run := (Vm.metal_vm_run junk nan_of int_of long_of native sage_import_module ip_first print_depth).

Record runner := MkRunner { g_sage_shell_vm : vm; g_sage_shell_init : Z; g_sage_shell_running : Z }.

(** A machine with the natives and the world [w]. *)
Definition fresh_vm (w : world S) : outcome vm := register_natives (with_writer (metal_vm_init w)).

(** What a second run resets. *)
Definition restart (m : vm) : vm :=
  with_vheap (vheap m) 0 (with_error 0 EmptyString (with_halted 0 (with_depth 0 (with_sp 0 m)))).

(** [bytecode] is generated when the kernel is built. *)
Definition sage_shell_run (bytecode : list Z) (r : runner) (w : world S) : outcome (runner * list Z * world S) :=
  if negb (g_sage_shell_running r =? 0) then Ret (r, console_write (10 :: txt "SageShell is already active."), w)
  else
    m ← (if g_sage_shell_init r =? 0 then fresh_vm w else Ret (restart (with_world w (g_sage_shell_vm r))));
    '(ok, m1) ← metal_vm_load_binary junk bytecode m;
    if (ok : bool) then
      '(result, m2) ← metal_vm_run m1;
      let o := if result <? 0
               then console_write (10 :: txt "sageshell: runtime error: ") ++ console_write (match error_msg m2 with EmptyString => txt "unknown" | e => txt e end) ++ console_write [10]
               else [] in
      Ret (MkRunner m2 1 0, o, v_world m2)
    else Ret (MkRunner m1 1 0, console_write (10 :: txt "sageshell: error loading bytecode artifact" ++ [10]), v_world m1).

Definition is_sgvm (data : list Z) : bool := bool_decide (take 4 data = [83; 71; 86; 77]).

(** The machine is static; it is initialised by every call. *)
Definition sage_run_file (path : list Z) (w : world S) : outcome (list Z * world S) :=
  match fs_embedded path with
  | None => Ret (console_write (10 :: txt "File not found." ++ [10]), w)
  | Some data =>
      if is_sgvm data then
        m ← fresh_vm w;
        '(ok, m1) ← metal_vm_load_binary junk data m;
        if (ok : bool) then '(_, m2) ← metal_vm_run m1; Ret ([], v_world m2)
        else Ret (console_write (10 :: txt "sage: error loading bytecode artifact" ++ [10]), v_world m1)
      else Ret (console_write (10 :: txt "sage: Source execution not supported on virt. Please compile to .sgvm" ++ [10]), w)
  end.

(** The result of [vfs_stat] goes to a null pointer. *)
Definition sage_init_run (w : world S) : outcome (list Z * world S) :=
  '(r, st, w1) ← fs_stat (txt "/etc/init.sage") w;
  if r =? 0 then Fault
  else Ret (console_write (10 :: txt "WARN: /etc/init.sage not found, skipping init system." ++ [10]), w1).
End run.
End natives.
End Natives.
