(* ===== verification/NativesSpec.v ===== *)
(** * Native functions and the machine

    Every native function that returns leaves a well-formed machine, which is what
    VmStep asks of them; registration makes each of them known under its name; and
    so a well-formed program file runs safely from [sage_run_file] down to the
    kernel services, as long as the operands that the interpreter does not check
    are in range and the functions it calls return. *)

From Stdlib Require Import String Ascii.
From stdpp Require Import base tactics list numbers.
From S2P Require Import Prelude Digits CMem Pmm Telemetry Dmesg Timer Sched Vfs Float64 Vm VmGc VmStr VmSafe VmStep VmLoad.
From S2P Require Import Libc Console LineEdit Stubs Shell ShellSpec Boot Natives.

Module NativesSpec.
Import Float64 Vm VmGc VmStr VmSafe VmStep VmLoad Console Shell Natives.
Local Open Scope Z_scope.

Section safe.
Context {S : Type} `{FileSystem S}.
Abbreviation vm := (Vm.vm (world S)).
Implicit Types m : vm.

(** ** Computations that keep machines well formed *)

Definition stays {A} (p : sh vm A) : Prop := forall m a o m', vm_ok m -> p m = Ret (a, o, m') -> vm_ok m'.

Lemma stays_ret {A} (a : A) : stays (sh_ret a).
Proof. by intros m b o m' Hm [= <- <- <-]. Qed.

Lemma stays_bind {A B} (p : sh vm A) (f : A -> sh vm B) : stays p -> (forall a, stays (f a)) -> stays (p ≫= f).
Proof.
  intros Hp Hf m b o m' Hm E. change ((p ≫= f) m) with (sh_bind p f m) in E. unfold sh_bind in E.
  apply bind_Ret_inv in E as ([[a o1] m1] & E1 & E). apply bind_Ret_inv in E as ([[b' o2] m2] & E2 & E).
  injection E as <- <- <-. eapply Hf, E2. by eapply Hp, E1.
Qed.

Lemma stays_emit o : stays (emit o). Proof. by intros m a o' m' Hm [= <- <- <-]. Qed.
Lemma stays_tell o : stays (tell o). Proof. apply stays_bind; [apply stays_emit|]. intros _. apply stays_ret. Qed.
Lemma stays_fault {A} : stays (@fault vm A). Proof. by intros m a o m' Hm [=]. Qed.
Lemma stays_blocked {A} : stays (@blocked S A). Proof. by intros m a o m' Hm [=]. Qed.
Lemma stays_ask {A} (f : world S -> A) : stays (ask f). Proof. by intros m a o m' Hm [= <- <- <-]. Qed.

Lemma stays_lift {A} (x : outcome A) : stays (lift x).
Proof. intros m a o m' Hm E. apply bind_Ret_inv in E as (b & _ & E). by injection E as <- <- <-. Qed.
Lemma stays_look {A} (f : vm -> outcome A) : stays (look f).
Proof. intros m a o m' Hm E. apply bind_Ret_inv in E as (b & _ & E). by injection E as <- <- <-. Qed.

Lemma ok_with_world (w : world S) m : vm_ok m -> vm_ok (with_world w m). Proof. intros Hm. vm_part. Qed.

Lemma stays_update f : stays (@update S f).
Proof. intros m a o m' Hm [= <- <- <-]. by apply ok_with_world. Qed.
Lemma stays_world {A} (f : sh (world S) A) : stays (on_world f).
Proof. intros m a o m' Hm E. apply bind_Ret_inv in E as ([[b o1] w] & _ & E). injection E as <- <- <-. by apply ok_with_world. Qed.

(** Operations of the machine. *)
Lemma stays_machine {A} (f : vm -> outcome (A * vm)) : (forall m, vm_ok m -> completes (f m) (fun r => vm_ok r.2)) -> stays (machine f).
Proof.
  intros Hf m a o m' Hm E. apply bind_Ret_inv in E as ([b m1] & E1 & E). injection E as <- <- <-.
  destruct (Hf m Hm) as (r & E2 & Hr). rewrite E1 in E2. by injection E2 as <-.
Qed.
Lemma stays_change (f : vm -> outcome vm) : (forall m, vm_ok m -> completes (f m) vm_ok) -> stays (change f).
Proof.
  intros Hf m a o m' Hm E. apply bind_Ret_inv in E as (m1 & E1 & E). injection E as <- <- <-.
  destruct (Hf m Hm) as (r & E2 & Hr). rewrite E1 in E2. by injection E2 as <-.
Qed.

Lemma keeps_good {A} (f : vm -> outcome (A * vm)) m : completes (f m) (fun r => keeps m r.2) -> completes (f m) (fun r => vm_ok r.2).
Proof. intros Hf. eapply completes_mono; [exact Hf|]. by intros r [? _]. Qed.

Lemma intern_stays s : stays (machine (metal_string_intern s)).
Proof. apply stays_machine. intros m Hm. by apply keeps_good, intern_ok. Qed.
Lemma str_stays junk s : stays (mv_str_lit junk s).
Proof. apply stays_machine. intros m Hm. by apply keeps_good, mv_str_ok. Qed.
Lemma concat_stays a b : stays (machine (metal_string_concat a b)).
Proof. apply stays_machine. intros m Hm. by apply keeps_good, concat_ok. Qed.
Lemma array_new_stays : stays (machine metal_array_new).
Proof. apply stays_machine. intros m Hm. eapply completes_mono; [by apply array_new_ok|]. by intros r [[? _] _]. Qed.
Lemma dict_new_stays : stays (machine metal_dict_new).
Proof. apply stays_machine. intros m Hm. eapply completes_mono; [by apply dict_new_ok|]. by intros r [[? _] _]. Qed.
Lemma array_push_stays i v : stays (change (metal_array_push i v)).
Proof. apply stays_change. intros m Hm. eapply completes_mono; [by apply array_push_ok|]. by intros r [? _]. Qed.
Lemma dict_set_stays i k v : stays (change (metal_dict_set i k v)).
Proof. apply stays_change. intros m Hm. eapply completes_mono; [by apply dict_set_ok|]. by intros r [? _]. Qed.

Lemma num_to_str_stays n : stays (machine (metal_num_to_str n)).
Proof.
  intros m a o m' Hm E. unfold machine, quiet, metal_num_to_str in E. apply bind_Ret_inv in E as ([i m1] & E1 & E). injection E as <- <- <-.
  apply bind_Ret_inv in E1 as (s & _ & E1). eapply (intern_stays s m i []); [done|].
  unfold machine, quiet. rewrite E1. reflexivity.
Qed.

Lemma arg_str_stays args i : stays (arg_str args i).
Proof.
  intros m a o m' Hm E. unfold arg_str in E. destruct (args.[i]) as [v|]; [|by injection E as <- <- <-].
  case_bool_decide; [|by injection E as <- <- <-]. apply bind_Ret_inv in E as (s & _ & E). by injection E as <- <- <-.
Qed.
End safe.

Create HintDb natives discriminated.
#[export] Hint Resolve stays_ret stays_emit stays_tell stays_fault stays_blocked stays_ask stays_lift stays_look stays_update stays_world
  intern_stays str_stays concat_stays array_new_stays dict_new_stays array_push_stays dict_set_stays num_to_str_stays arg_str_stays : natives.

(** Through the binds, matches and tests of a body. *)
Ltac stays_body :=
  repeat first
    [ solve [auto with natives]
    | match goal with |- stays (mbind _ _) => apply stays_bind; [|intros ?] end
    | match goal with |- stays (match ?x with _ => _ end) => destruct x end
    | match goal with |- stays (if ?x then _ else _) => destruct x end ].

Ltac head_of t := match t with ?f _ => head_of f | _ => t end.
Ltac unfold_native := match goal with |- stays ?p => let h := head_of p in unfold h end.

Section table.
Context {S : Type} `{FileSystem S}.
Abbreviation vm := (Vm.vm (world S)).
Implicit Types m : vm.
Context (kernel : ncall -> world S -> outcome (list Z * world S)).
Context (arch : Timer.timer_arch) (junk : Z) (long_of : Z -> Z) (key_first : bool) (clock : nat -> Z) (blkdev_name : list Z) (fuel depth : nat).

(** ** Functions that look at the world themselves, and loops *)

Lemma read_char_stays : stays (S := S) n_read_char.
Proof.
  intros m a o m' Hm E. apply bind_Ret_inv in E as ([[[code rest]|] k] & _ & E); [|done]. injection E as <- <- <-. by apply ok_with_world.
Qed.
Lemma poll_event_stays : stays (S := S) poll_event.
Proof.
  intros m a o m' Hm E. unfold poll_event in E. destruct (keyboard_poll_any_event _ _ _) as [[r rest|] k]; [|done].
  injection E as <- <- <-. by apply ok_with_world.
Qed.
Lemma cpu_percent_stays : stays (S := S) n_cpu_percent.
Proof. intros m a o m' Hm E. unfold n_cpu_percent in E. destruct (Timer.timer_cpu_percent _). injection E as <- <- <-. by apply ok_with_world. Qed.
Lemma cpu_percent_at_stays args : stays (S := S) (n_timer_cpu_percent_at long_of args).
Proof. intros m a o m' Hm E. unfold n_timer_cpu_percent_at in E. destruct (Timer.timer_cpu_percent_at _ _). injection E as <- <- <-. by apply ok_with_world. Qed.
Lemma push_keys_stays d arr : forall n i, stays (S := S) (push_keys junk n i d arr).
Proof. induction n as [|n IH]; intros i; cbn [push_keys]; stays_body. Qed.
Lemma give_stays n : stays (S := S) (give n). Proof. unfold give. stays_body. Qed.
Lemma thread_name_stays nm : stays (S := S) (thread_name junk nm).
Proof. unfold thread_name. stays_body. Qed.
Lemma put_stays d key v : stays v -> stays (S := S) (put key_first d key v).
Proof. intros Hv. unfold put. stays_body; done. Qed.

#[local] Hint Resolve read_char_stays poll_event_stays cpu_percent_stays cpu_percent_at_stays push_keys_stays give_stays thread_name_stays : natives.

Ltac stays_native := repeat first [progress stays_body | apply put_stays | done | unfold_native].

Lemma push_tasks_stays arr : forall n i, stays (S := S) (push_tasks junk key_first n i arr).
Proof. induction n as [|n IH]; intros i; cbn [push_tasks]; stays_native. Qed.
Lemma push_entries_stays es arr : forall n i, stays (S := S) (push_entries junk key_first n i es arr).
Proof. induction n as [|n IH]; intros i; cbn [push_entries]; stays_native. Qed.

Lemma read_line_stays : forall f buf, stays (S := S) (read_line_loop f buf).
Proof.
  induction f as [|f IH]; intros buf m a o m' Hm E; cbn [read_line_loop] in E; [done|].
  destruct (keyboard_wait_event _ _ _) as [[r rest|] k]; [|done]. cbv zeta in E.
  pose proof (ok_with_world (set_keys rest k (v_world m)) m Hm) as Hm1. destruct (_ || _); [by eapply IH|].
  destruct (line_key _ _) as [[buf1 o1] c]. destruct c; [by injection E as <- <- <-|].
  apply bind_Ret_inv in E as ([[l o2] m2] & E1 & E). injection E as <- <- <-. by eapply IH.
Qed.
Lemma n_read_line_stays : stays (S := S) (n_read_line junk).
Proof. intros m a o m' Hm. apply stays_bind; [apply read_line_stays|intros l; apply str_stays|done]. Qed.

#[local] Hint Resolve push_tasks_stays push_entries_stays n_read_line_stays : natives.

(** ** All of them *)

Lemma table_stays : Forall (fun e : string * (list mvalue -> sh vm mvalue) => forall args, stays (e.2 args))
  (native_table kernel arch junk long_of key_first clock blkdev_name fuel depth).
Proof. unfold native_table. repeat apply Forall_cons_2; [intros args; cbn [snd]; stays_native..|apply Forall_nil_2]. Qed.

Abbreviation native := (native kernel arch junk long_of key_first clock blkdev_name fuel depth).

(** What the machine assumes. *)
Lemma natives_are_safe : natives_safe native.
Proof.
  intros fn args m [v m'] Hm E. unfold Natives.native in E. destruct (_ .[fn]) as [[nm f]|] eqn:Ef; [|done].
  apply bind_Ret_inv in E as ([[v1 o] m1] & E1 & E). injection E as <- <-.
  pose proof (Forall_zget _ _ _ _ table_stays Ef args m v1 o m1 Hm E1) as H1. unfold good. cbn [snd]. by apply ok_with_world.
Qed.

(** ** Registration *)

(** What defining a variable leaves alone. *)
Definition apart (m m' : vm) : Prop :=
  strings m' = strings m /\ string_used m' = string_used m /\ natives m' = natives m /\ native_count m' = native_count m /\
  heap_used m' = heap_used m /\ v_world m' = v_world m.

Lemma set_var_apart d i v m m' : set_var d i v m = Ret m' -> apart m m'.
Proof.
  unfold set_var. intros E. apply bind_Ret_inv in E as (s & _ & E). apply bind_Ret_inv in E as (vs & _ & E).
  apply bind_Ret_inv in E as (ss & _ & E). by injection E as <-.
Qed.

Lemma scope_define_apart h n v m m' : scope_define h n v m = Ret m' -> apart m m'.
Proof.
  unfold scope_define. intros E. apply bind_Ret_inv in E as (s & _ & E). apply bind_Ret_inv in E as ([i|] & _ & E); [by eapply set_var_apart|].
  destruct (METAL_VARS_PER_SCOPE <=? s_count s); [by injection E as <-|]. apply bind_Ret_inv in E as (hs & _ & E).
  apply bind_Ret_inv in E as (ns & _ & E). apply bind_Ret_inv in E as (vs & _ & E). apply bind_Ret_inv in E as (ss & _ & E). by injection E as <-.
Qed.

(** The first [native_count] entries are [names], each with its place. *)
Record known (names : list string) (m : vm) : Prop := {
  kn_ok : vm_ok m;
  kn_heap : heap_used m = 0;
  kn_count : native_count m = zlen names;
  kn_entry : forall i nm, names.[i] = Some nm -> (natives m).[i] = Some (metal_fnv1a (LineEdit.txt nm), i) }.

Definition name_size (names : list string) : Z := size (map LineEdit.txt names).

Lemma register_one nm names m l :
  known names m -> pool m l -> nul_free (LineEdit.txt nm) -> zlen names < METAL_NATIVE_MAX ->
  size l + zlen (LineEdit.txt nm) + 1 <= METAL_STRING_POOL ->
  completes (metal_vm_register_native junk (LineEdit.txt nm) (zlen names) m) (fun r =>
    known (names ++ [nm]) r.2 /\ v_world r.2 = v_world m /\
    exists l', pool r.2 l' /\ size l' <= size l + zlen (LineEdit.txt nm) + 1).
Proof.
  intros [Hok Hh Hc He] Hp Hn Hlt Hs. unfold metal_vm_register_native. rewrite Hc, (proj2 (Z.leb_gt _ _)) by lia.
  pose proof (ok_natives _ Hok) as [Hl Hnc]. pose proof (zlen_nonneg names).
  rewrite wr_in_range by lia. cbn [mbind outcome_bind]. set (m1 := with_natives _ _ m).
  assert (Hp1 : pool m1 l) by (by destruct Hp). unfold mv_str.
  assert (H1 : vm_ok m1) by (assert (natives_ok m1) by (split; [cbn; by rewrite zlen_zset|cbn; lia]); unfold m1 in *; vm_part).
  destruct (intern_fits m1 l (LineEdit.txt nm) Hp1 Hn Hs) as (i & st & u & l' & E & Hp2 & _ & _ & Hs2).
  destruct (intern_ok (LineEdit.txt nm) m1 H1) as (r & E' & [H2 _]). rewrite E in E'. injection E' as <-. cbn [snd] in H2.
  rewrite E. cbn [mbind outcome_bind]. set (m2 := with_strings st u m1) in *.
  destruct (scope_define_ok (metal_fnv1a (LineEdit.txt nm)) (-1) (of_int junk MV_STR i) m2 H2) as (m3 & E3 & [H3 _]).
  rewrite E3. cbn [mbind outcome_bind]. apply completes_Ret. cbn [snd]. apply scope_define_apart in E3 as (A1 & A2 & A3 & A4 & A5 & A6).
  split_and!; [split| |].
  - done.
  - rewrite A5. exact Hh.
  - rewrite A4, zlen_app. change (zlen [nm]) with 1. done.
  - intros j x Hj. rewrite A3. cbn [m2 m1 with_strings with_natives natives]. pose proof (zget_Some_bound _ _ _ Hj) as Hb. rewrite zlen_app in Hb.
    change (zlen [nm]) with 1 in Hb. destruct (decide (j = zlen names)) as [->|Hne].
    + rewrite zget_zset_eq by lia. rewrite zget_app_r in Hj by lia. rewrite Z.sub_diag in Hj. by injection Hj as <-.
    + rewrite zget_zset_ne by lia. rewrite zget_app_l in Hj by lia. by apply He.
  - by rewrite A6.
  - exists l'. split; [|done]. destruct Hp2 as [P1 P2 P3 P4]. split; [by rewrite A1|by rewrite A2|done|done].
Qed.

Lemma register_all_ok : forall rest names m l,
  known names m -> pool m l -> Forall (fun nm => nul_free (LineEdit.txt nm)) rest -> zlen names + zlen rest <= METAL_NATIVE_MAX ->
  size l + name_size rest <= METAL_STRING_POOL ->
  completes (register_all junk (zlen names) rest m) (fun m' =>
    known (names ++ rest) m' /\ v_world m' = v_world m /\ exists l', pool m' l' /\ size l' <= size l + name_size rest).
Proof.
  induction rest as [|nm rest IH]; intros names m l Hk Hp Hn Hc Hs; cbn [register_all].
  - apply completes_Ret. rewrite app_nil_r. split_and!; [done|done|]. exists l. unfold name_size. cbn. split; [done|lia].
  - apply Forall_cons_1 in Hn as [Hn1 Hn]. rewrite zlen_cons in Hc. pose proof (zlen_nonneg rest).
    unfold name_size in Hs. cbn [map size] in Hs. fold (name_size rest) in Hs.
    assert (0 <= name_size rest) by (pose proof (size_nonneg (map LineEdit.txt rest)); unfold name_size; lia).
    eapply completes_bind; [apply (register_one nm names m l); done || lia|]. intros [b m1] (Hk1 & Hw & l1 & Hp1 & Hs1). cbn [snd] in *.
    replace (zlen names + 1) with (zlen (names ++ [nm])) by (rewrite zlen_app; done).
    eapply completes_mono; [apply (IH (names ++ [nm]) m1 l1); [done|done|done|rewrite zlen_app; change (zlen [nm]) with 1; lia|lia]|].
    intros m' (R1 & R2 & l' & R3 & R4). rewrite <- app_assoc in R1. split_and!; [done|by rewrite R2|].
    exists l'. split; [done|]. unfold name_size at 1. cbn [map size]. fold (name_size rest). lia.
Qed.

(** The place of the first name with the hash. *)
Lemma find_known names m nm : known names m -> nm ∈ names -> exists j x,
  metal_vm_find_native (metal_fnv1a (LineEdit.txt nm)) m = Ret (Some j) /\ names.[j] = Some x /\
  metal_fnv1a (LineEdit.txt x) = metal_fnv1a (LineEdit.txt nm).
Proof.
  intros Hk Hin. unfold metal_vm_find_native. rewrite (kn_count _ _ Hk).
  replace (Z.to_nat (zlen names)) with (length names) by (unfold zlen; lia).
  cut (forall n i, 0 <= i -> i + Z.of_nat n = zlen names -> nm ∈ drop (Z.to_nat i) names ->
    exists j x, find_native_from n i (metal_fnv1a (LineEdit.txt nm)) m = Ret (Some j) /\ names.[j] = Some x /\
      metal_fnv1a (LineEdit.txt x) = metal_fnv1a (LineEdit.txt nm)).
  { intros C. apply (C (length names) 0); [lia|done|done]. }
  induction n as [|n IH]; intros i Hi Hn Hd.
  { rewrite drop_ge in Hd by (unfold zlen in Hn; lia). by apply not_elem_of_nil in Hd. }
  cbn [find_native_from]. destruct (zget_in_range names i ltac:(lia)) as [x Ex].
  rewrite (rd_some _ _ _ (kn_entry _ _ Hk i x Ex)). cbn [mbind outcome_bind].
  destruct (Z.eqb_spec (metal_fnv1a (LineEdit.txt x)) (metal_fnv1a (LineEdit.txt nm))) as [Eh|Hne]; [by exists i, x|].
  apply IH; [lia|lia|]. apply zget_lookup in Ex as [_ Ex]. rewrite (drop_S names x (Z.to_nat i) Ex) in Hd.
  apply elem_of_cons in Hd as [->|Hd]; [done|]. by replace (Z.to_nat (i + 1)) with (Datatypes.S (Z.to_nat i)) by lia.
Qed.

(** ** The machine a program starts on *)

Abbreviation fresh_vm := (Natives.fresh_vm kernel arch junk long_of key_first clock blkdev_name fuel depth).
Abbreviation native_table := (Natives.native_table kernel arch junk long_of key_first clock blkdev_name fuel depth).

Definition native_names : list string := Eval cbv in native_table.*1.
Lemma native_names_eq : native_table.*1 = native_names. Proof. reflexivity. Qed.

Lemma native_names_nul_free : Forall (fun nm => nul_free (LineEdit.txt nm)) native_names.
Proof. unfold native_names. repeat constructor; done. Qed.

Lemma ok_with_writer m : vm_ok m -> vm_ok (with_writer m). Proof. intros Hm. vm_part. Qed.

Lemma fresh_known w : completes (fresh_vm w) (fun m =>
  known native_names m /\ v_world m = w /\ exists l, pool m l /\ size l <= name_size native_names).
Proof.
  unfold Natives.fresh_vm, register_natives. rewrite native_names_eq. set (m := with_writer _).
  assert (known [] m) as Hk by (split; [apply ok_with_writer, init_ok|done|done|intros i nm Hi; apply zget_Some_bound in Hi; change (zlen (@nil string)) with 0 in Hi; lia]).
  assert (pool m []) as Hp by (by split; [| | |constructor]).
  eapply completes_mono; [apply (register_all_ok native_names [] m [] Hk Hp native_names_nul_free); by vm_compute|].
  by intros m' (H1 & H2 & H3).
Qed.

(** The pairs of places with the same element. *)
Definition clashes (l : list Z) : list (nat * nat) :=
  i ← seq 0 (length l); j ← seq 0 (length l);
  if (i <? j)%nat && (default (-1) (l !! i) =? default (-1) (l !! j)) then [(i, j)] else [].

Lemma clash l i j x : l !! i = Some x -> l !! j = Some x -> (i < j)%nat -> (i, j) ∈ clashes l.
Proof.
  intros Hi Hj Hlt. pose proof (lookup_lt_Some _ _ _ Hi). pose proof (lookup_lt_Some _ _ _ Hj). unfold clashes.
  apply list_elem_of_bind. exists i. split; [|apply elem_of_seq; lia]. apply list_elem_of_bind. exists j. split; [|apply elem_of_seq; lia].
  rewrite Hi, Hj. cbn [default id]. rewrite Z.eqb_refl, (proj2 (Nat.ltb_lt _ _) Hlt). cbn. by left.
Qed.

(** Two names are registered twice; no other names have the same hash. *)
Definition repeats : list (nat * nat) := [(45, 105); (46, 107)]%nat.
Lemma hash_clashes : clashes ((fun nm => metal_fnv1a (LineEdit.txt nm)) <$> native_names) = repeats.
Proof. vm_compute. reflexivity. Qed.

(** Names with one hash are names of one function. *)
Lemma same_hash_same_entry i j a b : native_names.[i] = Some a -> native_names.[j] = Some b ->
  metal_fnv1a (LineEdit.txt a) = metal_fnv1a (LineEdit.txt b) -> native_table.[i] = native_table.[j].
Proof.
  intros Ha Hb E. apply zget_lookup in Ha as [Hi Ha], Hb as [Hj Hb].
  assert (forall k n, (k, n) ∈ repeats -> native_table !! k = native_table !! n) as R.
  { intros k n Hkn. repeat (apply elem_of_cons in Hkn as [[= -> ->]|Hkn]; [reflexivity|]). by apply not_elem_of_nil in Hkn. }
  unfold zget. rewrite (proj2 (Z.leb_le _ _) Hi), (proj2 (Z.leb_le _ _) Hj).
  destruct (lt_eq_lt_dec (Z.to_nat i) (Z.to_nat j)) as [[Hlt|He]|Hlt]; [|by rewrite He|symmetry];
    apply R; rewrite <- hash_clashes; eapply clash; rewrite ?list_lookup_fmap, ?Ha, ?Hb; cbn; by rewrite ?E.
Qed.

(** Registration makes every native function of the language known under its
    name. [metal_vm_init] followed by [register_natives] succeeds from any state of
    the kernel, fills 111 of the 256 entries and leaves a well-formed machine, on
    which looking up the name of any entry finds the function registered with it:
    the hashes of the names, which are all that is compared, do not collide. *)
Theorem natives_registered w : completes (fresh_vm w) (fun m =>
  vm_ok m /\ v_world m = w /\ native_count m = 111 /\
  forall i nm f, native_table.[i] = Some (nm, f) ->
    exists j, metal_vm_find_native (metal_fnv1a (LineEdit.txt nm)) m = Ret (Some j) /\ native_table.[j] = Some (nm, f)).
Proof.
  eapply completes_mono; [apply fresh_known|]. intros m (Hk & Hw & _).
  split_and!; [apply Hk|done|by rewrite (kn_count _ _ Hk)|]. intros i nm f Hi.
  assert (native_names.[i] = Some nm) as Hin.
  { rewrite <- native_names_eq. apply zget_lookup in Hi as [Hi E]. apply zget_lookup. split; [done|]. by rewrite list_lookup_fmap, E. }
  assert (nm ∈ native_names) as Hel by (apply zget_lookup in Hin as [_ Hl]; by eapply list_elem_of_lookup_2).
  destruct (find_known _ m nm Hk Hel) as (j & x & Hj & Hx & E). exists j. split; [done|]. by rewrite (same_hash_same_entry j i x nm).
Qed.

(** ** Running a program file *)

Section run.
Context (nan_of : Z -> Z -> Z) (int_of : Z -> Z) (sage_import_module : list Z -> vm -> outcome vm) (ip_first : bool) (print_depth : nat).
Abbreviation run_file := (Natives.sage_run_file kernel arch junk long_of key_first clock blkdev_name fuel depth nan_of int_of sage_import_module ip_first print_depth).
Abbreviation reached := (VmStep.reached junk nan_of int_of long_of native sage_import_module ip_first print_depth).
Abbreviation step_guarded := (VmStep.step_guarded int_of long_of native ip_first print_depth).

(** The machine that [sage_run_file] runs on file [data]. *)
Definition loaded_vm (data : list Z) (w : world S) : outcome (bool * vm) := m ← fresh_vm w; metal_vm_load_binary junk data m.

Lemma loaded_from w m data : fresh_vm w = Ret m -> loaded_vm data w = metal_vm_load_binary junk data m.
Proof. unfold loaded_vm. by intros ->. Qed.

(** C3: a program file runs safely from the shell down to the kernel. When the
    embedded file at the path is the encoding of a well-formed program that fits
    the pool of strings and the heap beside the names of the native functions,
    [sage_run_file] sets up a machine,
    registers the functions, loads the file, runs it and returns, printing no error
    of its own, and every access of the machine is in bounds.  It is assumed that in
    the states the run goes through the operands the machine does not check are in
    range and the native functions that are called return, and that the loader of
    modules returns a well-formed machine. *)
Theorem run_file_safe path p w :
  fs_embedded path = Some (enc_program p) -> program_ok p ->
  name_size native_names + csizes (pr_consts p) + fsizes (pr_funs p) <= METAL_STRING_POOL ->
  fconsts (pr_funs p) * SIZEOF_VALUE <= METAL_HEAP_SIZE ->
  long_range long_of -> imports_safe sage_import_module ->
  (forall m m', loaded_vm (enc_program p) w = Ret (true, m) -> reached m m' -> step_guarded m' = true) ->
  completes (run_file path w) (fun r => r.1 = []).
Proof.
  intros Hf Hp Hs Hh Hl Hi Hg. unfold sage_run_file. rewrite Hf.
  destruct (program_parts p) as (_ & _ & _ & _ & _ & Em & _). assert (is_sgvm (enc_program p) = true) as -> by (by apply bool_decide_true).
  destruct (fresh_known w) as (m & E & Hk & _ & l & Hpl & Hsl). rewrite E. cbn [mbind outcome_bind].
  destruct (load_program junk p m l 0 Hp (kn_ok _ _ Hk) Hpl) as ([ok m1] & E1 & -> & H1 & _); [lia|apply Hk|done|done|].
  rewrite E1. cbn [mbind outcome_bind]. assert (loaded_vm (enc_program p) w = Ret (true, m1)) as El by (by rewrite (loaded_from w m)).
  eapply completes_bind; [apply (run_ok _ _ _ _ _ _ _ _ m1 Hl natives_are_safe Hi H1); intros m' R; by apply (Hg m1)|].
  intros [r m2] _. by apply completes_Ret.
Qed.

(** A program that halts at once. *)
Lemma halt_guarded m data off n : vm_ok m -> cur m = mk_regs (mk_code data off) 1 0 PoolMain n -> at_ data off [255] ->
  forall m', reached m m' -> step_guarded m' = true.
Proof.
  intros Hm Ec Ha. assert (next8 m = 255) as E8 by (unfold next8, ipof; rewrite Ec; cbn; rewrite Z.add_0_r; pose proof (at_rd _ _ _ Ha) as Hr; apply rd_Ret in Hr; by rewrite Hr).
  intros m' R. destruct R as [m|m m1 m' E R]; [by unfold VmStep.step_guarded; rewrite E8|]. exfalso.
  destruct (decide (halted m = 0 /\ error m = 0)) as [[Hh He]|Hno].
  - rewrite step_fetch, E8 in E by (done || (unfold ipof; rewrite Ec; cbn; lia)). done.
  - unfold Vm.metal_vm_step in E. rewrite (proj2 (orb_true_iff _ _)) in E; [done|].
    destruct (Z.eqb_spec (halted m) 0), (Z.eqb_spec (error m) 0); cbn; tauto.
Qed.

Lemma halt_file_guarded p w m m' : program_ok p -> pr_code p = [255] ->
  name_size native_names + csizes (pr_consts p) + fsizes (pr_funs p) <= METAL_STRING_POOL ->
  fconsts (pr_funs p) * SIZEOF_VALUE <= METAL_HEAP_SIZE ->
  loaded_vm (enc_program p) w = Ret (true, m) -> reached m m' -> step_guarded m' = true.
Proof.
  intros Hp Hc Hs Hh E. destruct (fresh_known w) as (m0 & E0 & Hk & _ & l & Hl & Hsl).
  rewrite (loaded_from w m0) in E by done.
  destruct (load_program junk p m0 l 0 Hp (kn_ok _ _ Hk) Hl) as ([ok m1] & E2 & -> & Hm & l' & _ & _ & [(off & Ec & Ha) _ _ _]); [lia|apply Hk|done|done|].
  rewrite E in E2. injection E2 as <-. rewrite Hc in Ec, Ha. by eapply halt_guarded.
Qed.
End run.
End table.

(** ** An example: a file with one constant whose program halts *)

Definition hello : program := mk_program [PStr (LineEdit.txt "hello")] [255] [].

Definition hello_path : list Z := LineEdit.txt "/hello.sgvm".
#[local] Existing Instance ShellSpec.store_files | 5.
Definition hello_files : FileSystem ShellSpec.store := {|
  fs_read := fs_read; fs_write := fs_write; fs_create := fs_create; fs_mkdir := fs_mkdir; fs_unlink := fs_unlink; fs_rm_rf := fs_rm_rf;
  fs_stat := fs_stat; fs_ls := fs_ls; fs_readdir := fs_readdir;
  fs_embedded p := if bool_decide (p = hello_path) then Some (enc_program hello) else None |}.
#[local] Existing Instance hello_files | 0.

Definition hello_world : world ShellSpec.store :=
  MkWorld ∅ [] (MkKeyboard 0 (KeyEvent 0 0 0 0)) console_initial LineEdit.history_initial (Pmm.mk_pmm [] 0 0) Dmesg.dmesg_static Sched.kstate_static
    (Swap.MkSwap 0 0 0) 0 0 0 (0, 0) [].

Definition quiet_kernel (c : ncall) (w : world ShellSpec.store) : outcome (list Z * world ShellSpec.store) := Ret ([], w).
Definition no_import (nm : list Z) (m : Vm.vm (world ShellSpec.store)) : outcome (Vm.vm (world ShellSpec.store)) := Ret m.
Abbreviation hello_long := (fun _ : Z => - 2 ^ 63).
Abbreviation hello_run :=
  (sage_run_file quiet_kernel Timer.TIMER_ARCH_RV64 0 hello_long true (fun _ => 0) [] 0 0 (fun _ _ => 0) (fun _ => 0) no_import true 4).

Lemma hello_ok : program_ok hello.
Proof. split_and!; try done; repeat constructor; done. Qed.

Lemma run_file_safe_witness : fs_embedded hello_path = Some (enc_program hello) /\ completes (hello_run hello_path hello_world) (fun r => r.1 = []).
Proof.
  split; [done|].
  apply (run_file_safe quiet_kernel Timer.TIMER_ARCH_RV64 0 hello_long true (fun _ => 0) [] 0 0 (fun _ _ => 0) (fun _ => 0) no_import true 4 hello_path hello hello_world).
  - done.
  - exact hello_ok.
  - vm_compute. discriminate.
  - vm_compute. discriminate.
  - by intros b.
  - intros nm m H. by apply completes_Ret.
  - intros m m'. apply (halt_file_guarded _ _ _ _ _ _ _ _ _ _ _ _ _ _ hello); [exact hello_ok|done|vm_compute; discriminate|vm_compute; discriminate].
Defined.
End NativesSpec.
