(* ===== verification/SageEnv.v ===== *)
(** * Environments of the interpreter (sage_lang/core/src/c/env.c)

    Scopes are linked lists of names and values, chained to enclosing scopes, in a
    registry for the collector.  A pointer to a scope is its place in the heap; a
    pointer to a freed scope faults.  Names are passed as a pointer and a length, so
    the bytes at [name] may go on after the name.

    The refinement: every scope is a finite map; definition changes one map, lookup
    and assignment use the nearest scope that has the name, and sweeping removes
    scopes without changing what lookups from the others find.

    Values are of any type.  Not modelled: reference counts and write barriers of
    the collector, failure of [SAGE_ALLOC] (which ends the program), and the mutex.
    Whether there is memory for the copy of a name is an argument. *)

From stdpp Require Import base tactics list numbers option gmap.
From S2P Require Import Prelude.

Module SageEnv.
Local Open Scope Z_scope.

Section env.
Context {V : Type}.

(** ** Model *)

(** The name may be NULL, [None]. *)
Record env_node := mk_node { name : option (list Z); name_length : Z; owns_name : bool; value : V }.
Record env := mk_env { head : list env_node; parent : option Z; id : Z; marked : bool }.

(** The live scopes by pointer, the registry from its newest scope, the next id. *)
Record envs := mk_envs { heap : gmap Z env; allocated_envs : list Z; next_env_id : Z }.

Definition envs_static : envs := mk_envs ∅ [] 1.

Definition deref (e : Z) (s : envs) : outcome env := match heap s !! e with Some x => Ret x | None => Fault end.
Definition put (e : Z) (x : env) (s : envs) : envs := mk_envs (<[e := x]> (heap s)) (allocated_envs s) (next_env_id s).
Definition set_head (l : list env_node) (x : env) : env := mk_env l (parent x) (id x) (marked x).
Definition set_marked (b : bool) (x : env) : env := mk_env (head x) (parent x) (id x) b.
Definition set_value (v : V) (x : env_node) : env_node := mk_node (name x) (name_length x) (owns_name x) v.

(** The characters up to [n] or the terminator, [None] for NULL when [malloc] has no
    memory; [n] is converted to [size_t]. *)
Definition my_strndup (mem : bool) (s : list Z) (n : Z) : option (list Z) := if mem then Some (take (Z.to_nat (u64 n)) s) else None.

(** Whether [memcmp] of [n] bytes of two strings, which end with a NUL, returns 0. *)
Definition memcmp_eq (a b : list Z) (n : Z) : outcome bool :=
  if (u64 n <=? zlen a + 1) && (u64 n <=? zlen b + 1)
  then Ret (bool_decide (take (Z.to_nat (u64 n)) (a ++ [0]) = take (Z.to_nat (u64 n)) (b ++ [0]))) else Fault.

(** [p] is the memory [SAGE_ALLOC] returns. *)
Definition env_create (p : Z) (par : option Z) (s : envs) : envs :=
  mk_envs (<[p := mk_env [] par (next_env_id s) false]> (heap s)) (p :: allocated_envs s) (u64 (next_env_id s + 1)).

(** The loop over a scope that all operations share: the place of the first node for
    the name. *)
Fixpoint find_node (l : list env_node) (nm : list Z) (length : Z) : outcome (option nat) :=
  match l with
  | [] => Ret None
  | x :: r =>
      hit ← (if name_length x =? length then match name x with Some a => memcmp_eq a nm length | None => Fault end else Ret false);
      if (hit : bool) then Ret (Some O)
      else i ← find_node r nm length; Ret (match i with Some i => Some (S i) | None => None end)
  end.

Definition env_define (mem : bool) (e : Z) (nm : list Z) (length : Z) (v : V) (s : envs) : outcome envs :=
  x ← deref e s;
  r ← find_node (head x) nm length;
  match r with
  | Some i => Ret (put e (set_head (alter (set_value v) i (head x)) x) s)
  | None => Ret (put e (set_head (mk_node (my_strndup mem nm length) length true v :: head x) x) s)
  end.

(** Here the name is not copied. *)
Definition env_define_const (e : Z) (nm : list Z) (length : Z) (v : V) (s : envs) : outcome envs :=
  x ← deref e s;
  r ← find_node (head x) nm length;
  match r with
  | Some i => Ret (put e (set_head (alter (set_value v) i (head x)) x) s)
  | None => Ret (put e (set_head (mk_node (Some nm) length false v :: head x) x) s)
  end.

(** The scope and the place of a name, from [e] outwards; [n] bounds the scopes. *)
Fixpoint env_get_node (n : nat) (e : option Z) (nm : list Z) (length : Z) (s : envs) : outcome (option (Z * nat)) :=
  match e, n with
  | None, _ => Ret None
  | Some p, O => OutOfFuel
  | Some p, S k =>
      x ← deref p s;
      r ← find_node (head x) nm length;
      match r with Some i => Ret (Some (p, i)) | None => env_get_node k (parent x) nm length s end
  end.

Fixpoint env_get (n : nat) (e : option Z) (nm : list Z) (length : Z) (s : envs) : outcome (option V) :=
  match e, n with
  | None, _ => Ret None
  | Some p, O => OutOfFuel
  | Some p, S k =>
      x ← deref p s;
      r ← find_node (head x) nm length;
      match r with Some i => Ret (value <$> head x !! i) | None => env_get k (parent x) nm length s end
  end.

Fixpoint env_assign (n : nat) (e : option Z) (nm : list Z) (length : Z) (v : V) (s : envs) : outcome (bool * envs) :=
  match e, n with
  | None, _ => Ret (false, s)
  | Some p, O => OutOfFuel
  | Some p, S k =>
      x ← deref p s;
      r ← find_node (head x) nm length;
      match r with
      | Some i => Ret (true, put p (set_head (alter (set_value v) i (head x)) x) s)
      | None => env_assign k (parent x) nm length v s
      end
  end.

(** Freeing a scope twice, or reading a freed one, faults. *)
Fixpoint cleanup (l : list Z) (h : gmap Z env) : outcome (gmap Z env) :=
  match l with
  | [] => Ret h
  | e :: r => match h !! e with None => Fault | Some _ => cleanup r (delete e h) end
  end.

Definition env_cleanup_all (s : envs) : outcome envs :=
  h ← cleanup (allocated_envs s) (heap s); Ret (mk_envs h [] (next_env_id s)).

Fixpoint sweep (l : list Z) (h : gmap Z env) : outcome (list Z * gmap Z env) :=
  match l with
  | [] => Ret ([], h)
  | e :: r =>
      match h !! e with
      | None => Fault
      | Some x =>
          if marked x then '(l', h') ← sweep r (<[e := set_marked false x]> h); Ret (e :: l', h')
          else sweep r (delete e h)
      end
  end.

Definition env_sweep_unmarked (s : envs) : outcome envs :=
  '(l, h) ← sweep (allocated_envs s) (heap s); Ret (mk_envs h l (next_env_id s)).

Fixpoint clear_marks (l : list Z) (h : gmap Z env) : outcome (gmap Z env) :=
  match l with
  | [] => Ret h
  | e :: r => match h !! e with None => Fault | Some x => clear_marks r (<[e := set_marked false x]> h) end
  end.

Definition env_clear_marks (s : envs) : outcome envs :=
  h ← clear_marks (allocated_envs s) (heap s); Ret (mk_envs h (allocated_envs s) (next_env_id s)).

(** ** Specification: scopes as finite maps *)

(** A scope: what it binds, and the enclosing scope. *)
Local Abbreviation scope := (gmap (list Z) V * option Z)%type.

Definition key_of (x : env_node) : list Z := take (Z.to_nat (name_length x)) (default [] (name x)).
Definition bindings (l : list env_node) : gmap (list Z) V := list_to_map ((fun x => (key_of x, value x)) <$> l).
Definition abs_env (x : env) : scope := (bindings (head x), parent x).
Definition abs (s : envs) : gmap Z scope := abs_env <$> heap s.

(** The nearest scope that binds [k], with the value; [n] bounds the scopes. *)
Fixpoint nearest (n : nat) (a : gmap Z scope) (e : option Z) (k : list Z) : option (Z * V) :=
  match e, n with
  | Some p, S n' =>
      match a !! p with
      | Some (m, par) => match m !! k with Some v => Some (p, v) | None => nearest n' a par k end
      | None => None
      end
  | _, _ => None
  end.
Definition lookup_in (a : gmap Z scope) (e : option Z) (k : list Z) : option (Z * V) := nearest (size a) a e k.
Definition bind_in (k : list Z) (v : V) (x : scope) : scope := (<[k := v]> x.1, x.2).

(** The scopes from [e] outwards. *)
Inductive chain (a : gmap Z scope) : option Z -> list Z -> Prop :=
  | chain_top : chain a None []
  | chain_up p m par l : a !! p = Some (m, par) -> chain a par l -> chain a (Some p) (p :: l).

Definition node_ok (x : env_node) : Prop := is_Some (name x) /\ 0 <= name_length x <= zlen (default [] (name x)) /\ name_length x < 2 ^ 31.
Definition scope_ok (x : env) : Prop := Forall node_ok (head x) /\ NoDup (key_of <$> head x).

(** The registry has every scope once, scopes have well-formed nodes with different
    names, and every chain of scopes ends. *)
Record wf (s : envs) : Prop := {
  wf_registry : NoDup (allocated_envs s) /\ forall e, e ∈ allocated_envs s <-> is_Some (heap s !! e);
  wf_scopes e x : heap s !! e = Some x -> scope_ok x;
  wf_chains e : is_Some (heap s !! e) -> exists l, chain (abs s) (Some e) l
}.

Definition name_ok (nm : list Z) (length : Z) : Prop := 0 <= length <= zlen nm /\ length < 2 ^ 31.
Definition key (nm : list Z) (length : Z) : list Z := take (Z.to_nat length) nm.

(** ** One scope *)

Lemma memcmp_eq_ok a b n : 0 <= n < 2 ^ 31 -> n <= zlen a -> n <= zlen b ->
  memcmp_eq a b n = Ret (bool_decide (take (Z.to_nat n) a = take (Z.to_nat n) b)).
Proof.
  intros Hn Ha Hb. unfold memcmp_eq. assert (u64 n = n) as -> by (unfold u64; apply Z.mod_small; lia).
  rewrite !(proj2 (Z.leb_le _ _)) by lia. cbn [andb]. unfold zlen in *. by rewrite !take_app_le by lia.
Qed.

Lemma key_of_length x : node_ok x -> Z.of_nat (length (key_of x)) = name_length x.
Proof. intros (_ & H1 & _). unfold key_of, zlen in *. rewrite length_take. lia. Qed.

Lemma key_length nm n : name_ok nm n -> Z.of_nat (length (key nm n)) = n.
Proof. intros [H1 _]. unfold key, zlen in *. rewrite length_take. lia. Qed.

(** [find_node] finds the first node whose name is the key. *)
Lemma find_node_ok l nm n : Forall node_ok l -> name_ok nm n ->
  find_node l nm n = Ret (fst <$> list_find (fun x => key_of x = key nm n) l).
Proof.
  intros Hl Hn. induction Hl as [|x l Hx Hl IH]; [done|]. cbn [find_node list_find].
  assert ((if name_length x =? n then match name x with Some a => memcmp_eq a nm n | None => Fault end else Ret false) = Ret (bool_decide (key_of x = key nm n))) as ->.
  { pose proof (key_of_length x Hx). pose proof (key_length nm n Hn). destruct Hx as ([a Ha] & ? & ?), Hn. destruct (Z.eqb_spec (name_length x) n) as [<-|Hne].
    - unfold key_of. rewrite Ha in *. apply memcmp_eq_ok; cbn in *; lia.
    - rewrite bool_decide_false; [done|]. intros E. rewrite E in *. lia. }
  cbn [mbind outcome_bind]. case_bool_decide as E.
  - by rewrite decide_True.
  - rewrite decide_False, IH by done. cbn [mbind outcome_bind]. by destruct (list_find _ l) as [[i y]|].
Qed.

Lemma bindings_cons x l : bindings (x :: l) = <[key_of x := value x]> (bindings l).
Proof. done. Qed.

Lemma bindings_find l k : value <$> (snd <$> list_find (fun x => key_of x = k) l) = bindings l !! k.
Proof.
  induction l as [|x l IH]; [done|]. rewrite bindings_cons. cbn [list_find]. destruct (decide (key_of x = k)) as [<-|Hne].
  - by rewrite lookup_insert_eq.
  - rewrite lookup_insert_ne, <- IH by done. by destruct (list_find _ l) as [[i y]|].
Qed.

Lemma key_of_alter v (i : nat) (l : list env_node) : key_of <$> alter (set_value v) i l = key_of <$> l.
Proof. revert i; induction l as [|x l IH]; intros [|i]; cbn; f_equal; auto. Qed.

Lemma nodes_ok_alter v (i : nat) (l : list env_node) : Forall node_ok l -> Forall node_ok (alter (set_value v) i l).
Proof. intros H. apply Forall_alter; [done|]. by intros x _ ?. Qed.

Lemma bindings_alter v (i : nat) x (l : list env_node) k : NoDup (key_of <$> l) -> list_find (fun x => key_of x = k) l = Some (i, x) ->
  bindings (alter (set_value v) i l) = <[k := v]> (bindings l).
Proof.
  revert i; induction l as [|y l IH]; intros i Hd Hf; [done|]. cbn [fmap list_fmap] in Hd. apply NoDup_cons in Hd as [Hy Hd].
  cbn [list_find] in Hf. destruct (decide (key_of y = k)) as [<-|Hne].
  - injection Hf as <- <-. cbn [alter list_alter]. rewrite !bindings_cons. change (key_of (set_value v y)) with (key_of y).
    by rewrite insert_insert_eq.
  - destruct (list_find (fun x => key_of x = k) l) as [[j z]|] eqn:E; [|done]. cbn in Hf. injection Hf as <- <-.
    cbn [alter list_alter]. rewrite !bindings_cons, (IH j) by done. by rewrite insert_insert_ne.
Qed.

Lemma bindings_none l k : list_find (fun x => key_of x = k) l = None -> k ∉ key_of <$> l.
Proof.
  intros E%list_find_None. rewrite list_elem_of_fmap. intros (x & -> & Hx). rewrite Forall_forall in E. by apply (E x).
Qed.

(** ** Chains of scopes *)

Lemma chain_det a e l1 l2 : chain a e l1 -> chain a e l2 -> l1 = l2.
Proof.
  intros H1; revert l2; induction H1 as [|p m par l Hp H1 IH]; intros l2 H2; inversion H2; subst; [done|].
  simplify_eq. f_equal. by apply IH.
Qed.

Lemma chain_suffix a e l p : chain a e l -> p ∈ l -> exists l', chain a (Some p) l' /\ (length l' <= length l)%nat.
Proof.
  induction 1 as [|q m par l Hq H IH]; intros Hp; [by apply not_elem_of_nil in Hp|].
  apply elem_of_cons in Hp as [->|Hp].
  - exists (q :: l). split; [by eapply chain_up|done].
  - destruct (IH Hp) as (l' & ? & ?). exists l'. cbn; split; [done|lia].
Qed.

Lemma chain_NoDup a e l : chain a e l -> NoDup l.
Proof.
  induction 1 as [|p m par l Hp H IH]; constructor; [|done]. intros Hin.
  destruct (chain_suffix _ _ _ _ H Hin) as (l' & H' & Hl). assert (l' = p :: l) as -> by (eapply chain_det; [done|by eapply chain_up]).
  cbn in Hl; lia.
Qed.

Lemma chain_dom a e l p : chain a e l -> p ∈ l -> p ∈ dom a.
Proof.
  induction 1 as [|q m par l Hq H IH]; intros Hp; [by apply not_elem_of_nil in Hp|].
  apply elem_of_cons in Hp as [->|Hp]; [|by apply IH]. apply elem_of_dom. by eexists.
Qed.

Lemma chain_size a e l : chain a e l -> (length l <= size a)%nat.
Proof.
  intros H. rewrite <- (size_dom (D := gset Z)), <- (size_list_to_set (C := gset Z)) by by eapply chain_NoDup.
  apply subseteq_size. intros p Hp%elem_of_list_to_set. by eapply chain_dom.
Qed.

Lemma nearest_fuel a e l k n : chain a e l -> (length l <= n)%nat -> nearest n a e k = nearest (length l) a e k.
Proof.
  intros H; revert n; induction H as [|p m par l Hp H IH]; intros n Hn; [by destruct n|].
  destruct n as [|n]; [cbn in Hn; lia|]. cbn [nearest length]. rewrite Hp. destruct (m !! k); [done|]. apply IH. cbn in Hn; lia.
Qed.

Lemma lookup_in_chain a e l k n : chain a e l -> (length l <= n)%nat -> nearest n a e k = lookup_in a e k.
Proof. intros H Hn. unfold lookup_in. rewrite (nearest_fuel _ _ _ _ n H Hn). symmetry. apply nearest_fuel; [done|by eapply chain_size]. Qed.

(** Chains see only parents. *)
Lemma chain_mono a a' e l : (forall p m par, p ∈ l -> a !! p = Some (m, par) -> exists m', a' !! p = Some (m', par)) ->
  chain a e l -> chain a' e l.
Proof.
  intros Ha. induction 1 as [|p m par l Hp H IH]; [constructor|].
  destruct (Ha p m par) as (m' & Hm'); [left|done|]. eapply chain_up; [done|]. apply IH. intros q ????. eapply Ha; [by right|done].
Qed.

Lemma chain_of s e : wf s -> (forall p, e = Some p -> is_Some (heap s !! p)) -> exists l, chain (abs s) e l.
Proof. intros Hs He. destruct e as [p|]; [by apply (wf_chains s Hs), He|]. exists []. constructor. Qed.

Lemma abs_lookup s e x : heap s !! e = Some x -> abs s !! e = Some (bindings (head x), parent x).
Proof. intros He. unfold abs. by rewrite lookup_fmap, He. Qed.

Lemma abs_put e x s : abs (put e x s) = <[e := abs_env x]> (abs s).
Proof. unfold abs, put; cbn [heap]. by rewrite fmap_insert. Qed.

(** Replacing the nodes of a scope. *)
Lemma put_head_wf s e x l : wf s -> heap s !! e = Some x -> Forall node_ok l -> NoDup (key_of <$> l) -> wf (put e (set_head l x) s).
Proof.
  intros Hs He Hl Hd. assert (forall p, is_Some (heap (put e (set_head l x) s) !! p) <-> is_Some (heap s !! p)) as Hdom.
  { intros p. cbn [put heap]. destruct (decide (e = p)) as [<-|Hne]; [rewrite lookup_insert_eq, He; split; by eexists|by rewrite lookup_insert_ne]. }
  constructor.
  - destruct (wf_registry s Hs) as [H1 H2]. split; [done|]. intros p. rewrite Hdom. apply H2.
  - intros p y. cbn [put heap]. destruct (decide (e = p)) as [<-|Hne]; [|rewrite lookup_insert_ne by done; apply (wf_scopes s Hs)].
    rewrite lookup_insert_eq. by intros [= <-].
  - intros p Hp%Hdom. destruct (wf_chains s Hs p Hp) as (c & Hc). exists c. eapply chain_mono, Hc. intros q m par _ Hq.
    rewrite abs_put. destruct (decide (e = q)) as [<-|Hne]; [|rewrite lookup_insert_ne by done; by eexists].
    rewrite lookup_insert_eq. rewrite (abs_lookup _ _ _ He) in Hq. injection Hq as _ <-. by eexists.
Qed.

Lemma alter_as_insert {A} (f : A -> A) (e : Z) (m : gmap Z A) (y : A) : m !! e = Some y -> alter f e m = <[e := f y]> m.
Proof.
  intros He. apply map_eq. intros p. destruct (decide (e = p)) as [<-|Hne].
  - by rewrite lookup_insert_eq, lookup_alter_eq, He.
  - by rewrite lookup_insert_ne, lookup_alter_ne.
Qed.

(** Binding a name that the scope has. *)
Lemma put_value_spec s e x nm n v i y : wf s -> heap s !! e = Some x ->
  list_find (fun x => key_of x = key nm n) (head x) = Some (i, y) ->
  wf (put e (set_head (alter (set_value v) i (head x)) x) s) /\
  abs (put e (set_head (alter (set_value v) i (head x)) x) s) = alter (bind_in (key nm n) v) e (abs s).
Proof.
  intros Hs He Hf. destruct (wf_scopes s Hs e x He) as [Hl Hd]. split.
  - apply put_head_wf; [done..|by apply nodes_ok_alter|by rewrite key_of_alter].
  - rewrite abs_put, (alter_as_insert _ _ _ _ (abs_lookup _ _ _ He)). unfold abs_env, bind_in; cbn [head set_head parent fst snd].
    by erewrite bindings_alter.
Qed.

(** Binding a name that the scope does not have. *)
Lemma put_node_spec s e x nm n v nd : wf s -> heap s !! e = Some x -> node_ok nd -> key_of nd = key nm n -> value nd = v ->
  list_find (fun x => key_of x = key nm n) (head x) = None ->
  wf (put e (set_head (nd :: head x) x) s) /\ abs (put e (set_head (nd :: head x) x) s) = alter (bind_in (key nm n) v) e (abs s).
Proof.
  intros Hs He Hnd Hk Hv Hf. destruct (wf_scopes s Hs e x He) as [Hl Hd]. split.
  - apply put_head_wf; [done..|by constructor|]. cbn [fmap list_fmap]. constructor; [rewrite Hk; by apply bindings_none|done].
  - rewrite abs_put, (alter_as_insert _ _ _ _ (abs_lookup _ _ _ He)). unfold abs_env, bind_in; cbn [head set_head parent fst snd].
    by rewrite bindings_cons, Hk, Hv.
Qed.

(** ** Operations *)

Lemma u64_length nm n : name_ok nm n -> u64 n = n.
Proof. intros [H1 H2]. unfold u64. apply Z.mod_small. lia. Qed.

Lemma create_spec p par s : wf s -> heap s !! p = None -> (forall q, par = Some q -> is_Some (heap s !! q)) ->
  wf (env_create p par s) /\ abs (env_create p par s) = <[p := (∅, par)]> (abs s).
Proof.
  intros Hs Hp Hpar. assert (abs (env_create p par s) = <[p := (∅, par)]> (abs s)) as Ha.
  { unfold abs, env_create; cbn [heap]. by rewrite fmap_insert. }
  assert (abs s !! p = None) as Hpa by (unfold abs; by rewrite lookup_fmap, Hp).
  assert (forall e l, chain (abs s) e l -> chain (<[p := (∅, par)]> (abs s)) e l) as Hext.
  { intros e l Hc. eapply chain_mono, Hc. intros q m pr _ Hq. exists m. destruct (decide (p = q)) as [<-|]; [by rewrite Hpa in Hq|by rewrite lookup_insert_ne]. }
  split; [constructor|done].
  - destruct (wf_registry s Hs) as [H1 H2]. split; [constructor; [rewrite H2, Hp; by intros []|done]|]. intros e.
    cbn [env_create allocated_envs heap]. rewrite elem_of_cons, H2. destruct (decide (p = e)) as [<-|Hne].
    + rewrite lookup_insert_eq. split; [by eexists|by left].
    + rewrite lookup_insert_ne by done. split; [by intros [->|]|by right].
  - intros e x. cbn [env_create heap]. destruct (decide (p = e)) as [<-|Hne]; [|rewrite lookup_insert_ne by done; apply (wf_scopes s Hs)].
    rewrite lookup_insert_eq. intros [= <-]. split; [constructor|cbn; constructor].
  - intros e. rewrite Ha. cbn [env_create heap]. destruct (decide (p = e)) as [<-|Hne].
    + intros _. destruct (chain_of s par Hs Hpar) as (l & Hl). exists (p :: l). eapply chain_up; [apply lookup_insert_eq|by apply Hext].
    + rewrite lookup_insert_ne by done. intros (l & Hl)%(wf_chains s Hs). exists l. by apply Hext.
Qed.

Lemma define_spec e nm n v s : wf s -> is_Some (heap s !! e) -> name_ok nm n ->
  completes (env_define true e nm n v s) (fun s' => wf s' /\ abs s' = alter (bind_in (key nm n) v) e (abs s)).
Proof.
  intros Hs [x He] Hn. unfold env_define, deref. rewrite He. cbn [mbind outcome_bind]. destruct (wf_scopes s Hs e x He) as [Hl Hd].
  rewrite find_node_ok by done. cbn [mbind outcome_bind]. destruct (list_find _ (head x)) as [[i y]|] eqn:E; cbn [fmap option_fmap option_map fst].
  - apply completes_Ret. by eapply put_value_spec.
  - pose proof Hn as [H1 H2]. apply completes_Ret, put_node_spec; try done.
    + split; [by eexists|]. split; [|done]. cbn [name name_length].
      change (default [] (my_strndup true nm n)) with (take (Z.to_nat (u64 n)) nm). unfold zlen in *. rewrite (u64_length nm n), length_take by done. lia.
    + unfold key_of, key; cbn [name name_length]. change (default [] (my_strndup true nm n)) with (take (Z.to_nat (u64 n)) nm). rewrite (u64_length nm n), take_take by done. f_equal; lia.
Qed.

Lemma define_const_spec e nm n v s : wf s -> is_Some (heap s !! e) -> name_ok nm n ->
  completes (env_define_const e nm n v s) (fun s' => wf s' /\ abs s' = alter (bind_in (key nm n) v) e (abs s)).
Proof.
  intros Hs [x He] Hn. unfold env_define_const, deref. rewrite He. cbn [mbind outcome_bind]. destruct (wf_scopes s Hs e x He) as [Hl Hd].
  rewrite find_node_ok by done. cbn [mbind outcome_bind]. destruct (list_find _ (head x)) as [[i y]|] eqn:E; cbn [fmap option_fmap option_map fst].
  - apply completes_Ret. by eapply put_value_spec.
  - apply completes_Ret, put_node_spec; try done.
Qed.

(** The scope of a step along a chain. *)
Lemma abs_inv s p m par : abs s !! p = Some (m, par) -> exists x, heap s !! p = Some x /\ m = bindings (head x) /\ par = parent x.
Proof. unfold abs. rewrite lookup_fmap. destruct (heap s !! p) as [x|]; [|done]. cbn. intros [= <- <-]. by exists x. Qed.

Lemma find_lookup (l : list env_node) k i x : list_find (fun x => key_of x = k) l = Some (i, x) -> l !! i = Some x /\ bindings l !! k = Some (value x).
Proof. intros E. rewrite <- bindings_find, E. split; [|done]. by apply list_find_Some in E as [? _]. Qed.

Lemma find_absent (l : list env_node) k : list_find (fun x => key_of x = k) l = None -> bindings l !! k = None.
Proof. intros E. by rewrite <- bindings_find, E. Qed.

Lemma get_chain s e l nm n fuel : wf s -> name_ok nm n -> chain (abs s) e l -> (length l <= fuel)%nat ->
  env_get fuel e nm n s = Ret (snd <$> nearest fuel (abs s) e (key nm n)).
Proof.
  intros Hs Hn Hc; revert fuel; induction Hc as [|p m par l Hp Hc IH]; intros fuel Hf; [by destruct fuel|].
  destruct fuel as [|fuel]; [cbn in Hf; lia|]. destruct (abs_inv _ _ _ _ Hp) as (x & Hx & -> & ->). destruct (wf_scopes s Hs p x Hx) as [Hl _].
  cbn [env_get nearest]. unfold deref. rewrite Hx, Hp. cbn [mbind outcome_bind]. rewrite find_node_ok by done. cbn [mbind outcome_bind].
  destruct (list_find _ (head x)) as [[i y]|] eqn:E; cbn [fmap option_fmap option_map fst].
  - apply find_lookup in E as [E1 E2]. by rewrite E1, E2.
  - apply find_absent in E. rewrite E. apply IH. cbn in Hf; lia.
Qed.

Lemma get_node_chain s e l nm n fuel : wf s -> name_ok nm n -> chain (abs s) e l -> (length l <= fuel)%nat ->
  completes (env_get_node fuel e nm n s) (fun r =>
    match r with
    | Some (p, i) => exists x y, heap s !! p = Some x /\ head x !! i = Some y /\ key_of y = key nm n /\ nearest fuel (abs s) e (key nm n) = Some (p, value y)
    | None => nearest fuel (abs s) e (key nm n) = None
    end).
Proof.
  intros Hs Hn Hc; revert fuel; induction Hc as [|p m par l Hp Hc IH]; intros fuel Hf; [by destruct fuel; apply completes_Ret|].
  destruct fuel as [|fuel]; [cbn in Hf; lia|]. destruct (abs_inv _ _ _ _ Hp) as (x & Hx & -> & ->). destruct (wf_scopes s Hs p x Hx) as [Hl _].
  cbn [env_get_node nearest]. unfold deref. rewrite Hx, Hp. cbn [mbind outcome_bind]. rewrite find_node_ok by done. cbn [mbind outcome_bind].
  destruct (list_find _ (head x)) as [[i y]|] eqn:E; cbn [fmap option_fmap option_map fst].
  - apply completes_Ret. exists x, y. pose proof (find_lookup _ _ _ _ E) as [E1 E2]. apply list_find_Some in E as (_ & E3 & _). by rewrite E2.
  - apply find_absent in E. rewrite E. apply IH. cbn in Hf; lia.
Qed.

Lemma assign_chain s e l nm n v fuel : wf s -> name_ok nm n -> chain (abs s) e l -> (length l <= fuel)%nat ->
  completes (env_assign fuel e nm n v s) (fun '(b, s') =>
    wf s' /\
    match nearest fuel (abs s) e (key nm n) with
    | Some (p, _) => b = true /\ abs s' = alter (bind_in (key nm n) v) p (abs s)
    | None => b = false /\ s' = s
    end).
Proof.
  intros Hs Hn Hc; revert fuel; induction Hc as [|p m par l Hp Hc IH]; intros fuel Hf; [by destruct fuel; apply completes_Ret|].
  destruct fuel as [|fuel]; [cbn in Hf; lia|]. destruct (abs_inv _ _ _ _ Hp) as (x & Hx & -> & ->). destruct (wf_scopes s Hs p x Hx) as [Hl _].
  cbn [env_assign nearest]. unfold deref. rewrite Hx, Hp. cbn [mbind outcome_bind]. rewrite find_node_ok by done. cbn [mbind outcome_bind].
  destruct (list_find _ (head x)) as [[i y]|] eqn:E; cbn [fmap option_fmap option_map fst].
  - apply completes_Ret. pose proof (find_lookup _ _ _ _ E) as [_ E2]. rewrite E2. by destruct (put_value_spec s p x nm n v i y Hs Hx E) as [H1 H2].
  - apply find_absent in E. rewrite E. apply IH. cbn in Hf; lia.
Qed.

(** ** Collection *)

Definition marked_in (h : gmap Z env) (e : Z) : bool := match h !! e with Some x => marked x | None => false end.

(** What the collector establishes before it sweeps: whoever can reach a scope can
    reach the enclosing one. *)
Definition marks_closed (s : envs) : Prop :=
  forall e x p, heap s !! e = Some x -> marked x = true -> parent x = Some p -> marked_in (heap s) p = true.

(** [f] says which of the scopes are marked. *)
Lemma sweep_spec (f : Z -> bool) l h : NoDup l -> (forall e, e ∈ l -> exists x, h !! e = Some x /\ marked x = f e) ->
  exists l' h', sweep l h = Ret (l', h') /\ NoDup l' /\ (forall e, e ∈ l' <-> e ∈ l /\ f e = true) /\
    forall e, h' !! e = if decide (e ∈ l) then (if f e then set_marked false <$> h !! e else None) else h !! e.
Proof.
  intros Hd; revert h; induction Hd as [|e l He Hd IH]; intros h Hin.
  { exists [], h. split_and!; [done|constructor| |done]. intros e. split; [intros H|intros [H _]]; by apply not_elem_of_nil in H. }
  destruct (Hin e) as (x & Hx & Em); [left|]. cbn [sweep]. rewrite Hx, Em.
  assert (forall h1 : gmap Z env, (forall p, p <> e -> h1 !! p = h !! p) -> forall p, p ∈ l -> exists x, h1 !! p = Some x /\ marked x = f p) as Hin1.
  { intros h1 H1 p Hp. rewrite H1 by congruence. apply Hin. by right. }
  destruct (f e) eqn:Ef.
  - destruct (IH (<[e := set_marked false x]> h)) as (l' & h' & E & Hd' & Hl' & Hh').
    { apply Hin1. intros p ?. by rewrite lookup_insert_ne. }
    exists (e :: l'), h'. rewrite E. split_and!; [done|constructor; [|done]; rewrite Hl'; tauto| |].
    + intros p. rewrite !elem_of_cons, Hl'. split; [intros [->|[]]; auto|intros [[->|] ?]; auto].
    + intros p. rewrite Hh'. destruct (decide (p = e)) as [->|Hne].
      * rewrite decide_False, decide_True, lookup_insert_eq, Ef, Hx by (done || left). done.
      * rewrite lookup_insert_ne by done. by rewrite (decide_ext (p ∈ e :: l) (p ∈ l)) by (rewrite elem_of_cons; tauto).
  - destruct (IH (delete e h)) as (l' & h' & E & Hd' & Hl' & Hh').
    { apply Hin1. intros p ?. by rewrite lookup_delete_ne. }
    exists l', h'. split_and!; [done|done| |].
    + intros p. rewrite elem_of_cons, Hl'. split; [intros []; auto|intros [[->|] ?]; [congruence|auto]].
    + intros p. rewrite Hh'. destruct (decide (p = e)) as [->|Hne].
      * rewrite decide_False, decide_True, lookup_delete_eq, Ef by (done || left). done.
      * rewrite lookup_delete_ne by done. by rewrite (decide_ext (p ∈ e :: l) (p ∈ l)) by (rewrite elem_of_cons; tauto).
Qed.

Lemma clear_marks_spec l h : (forall e, e ∈ l -> is_Some (h !! e)) ->
  exists h', clear_marks l h = Ret h' /\ forall e, h' !! e = if decide (e ∈ l) then set_marked false <$> h !! e else h !! e.
Proof.
  revert h; induction l as [|e l IH]; intros h Hin; [by exists h|]. destruct (Hin e) as [x Hx]; [left|]. cbn [clear_marks]. rewrite Hx.
  destruct (IH (<[e := set_marked false x]> h)) as (h' & E & Hh').
  { intros p Hp. destruct (decide (e = p)) as [<-|Hne]; [rewrite lookup_insert_eq; by eexists|]. rewrite lookup_insert_ne by done. apply Hin. by right. }
  exists h'. split; [done|]. intros p. rewrite Hh'. destruct (decide (p = e)) as [->|Hne].
  - rewrite (decide_True (P := e ∈ e :: l)), lookup_insert_eq, Hx by left. by case_decide.
  - rewrite lookup_insert_ne by done. apply decide_ext. rewrite elem_of_cons. tauto.
Qed.

Lemma cleanup_spec l h : NoDup l -> (forall e, e ∈ l -> is_Some (h !! e)) ->
  exists h', cleanup l h = Ret h' /\ forall e, h' !! e = if decide (e ∈ l) then None else h !! e.
Proof.
  intros Hd; revert h; induction Hd as [|e l He Hd IH]; intros h Hin; [by exists h|]. destruct (Hin e) as [x Hx]; [left|].
  cbn [cleanup]. rewrite Hx. destruct (IH (delete e h)) as (h' & E & Hh').
  { intros p Hp. rewrite lookup_delete_ne by congruence. apply Hin. by right. }
  exists h'. split; [done|]. intros p. rewrite Hh'. destruct (decide (p = e)) as [->|Hne].
  - rewrite (decide_True (P := e ∈ e :: l)), lookup_delete_eq by left. by case_decide.
  - rewrite lookup_delete_ne by done. apply decide_ext. rewrite elem_of_cons. tauto.
Qed.

(** Scopes that agree along a chain give the same lookups. *)
Lemma nearest_agree a a' e l k n : chain a e l -> (forall p, p ∈ l -> a' !! p = a !! p) -> nearest n a' e k = nearest n a e k.
Proof.
  intros H; revert n; induction H as [|p m par l Hp H IH]; intros n Ha; [by destruct n|]. destruct n as [|n]; [done|].
  cbn [nearest]. rewrite Ha, Hp by left. destruct (m !! k); [done|]. apply IH. intros q ?. apply Ha. by right.
Qed.

Lemma marked_chain s e l : marks_closed s -> chain (abs s) e l -> (forall p, e = Some p -> marked_in (heap s) p = true) ->
  forall p, p ∈ l -> marked_in (heap s) p = true.
Proof.
  intros Hm. induction 1 as [|q m par l Hq H IH]; intros He p Hp; [by apply not_elem_of_nil in Hp|].
  apply elem_of_cons in Hp as [->|Hp]; [by apply He|]. apply IH; [|done]. intros r ->.
  destruct (abs_inv _ _ _ _ Hq) as (x & Hx & _ & Er). apply (Hm q x r); [done| |done]. pose proof (He q eq_refl) as Hmq.
  unfold marked_in in Hmq. by rewrite Hx in Hmq.
Qed.

(** Sweeping removes the scopes that are not marked; lookups from the others find
    what they found. *)
Lemma env_sweep_spec s : wf s -> marks_closed s ->
  exists s', env_sweep_unmarked s = Ret s' /\ wf s' /\
    (forall e, abs s' !! e = if marked_in (heap s) e then abs s !! e else None) /\
    (forall e k, marked_in (heap s) e = true -> lookup_in (abs s') (Some e) k = lookup_in (abs s) (Some e) k).
Proof.
  intros Hs Hm. destruct (wf_registry s Hs) as [Hd Hr]. destruct (sweep_spec (marked_in (heap s)) (allocated_envs s) (heap s)) as (l' & h' & E & Hd' & Hl' & Hh'); [done| |].
  { intros e [x Hx]%Hr. exists x. unfold marked_in. by rewrite Hx. }
  assert (forall e, h' !! e = if marked_in (heap s) e then set_marked false <$> heap s !! e else None) as Hh.
  { intros e. rewrite Hh'. case_decide as Hin; [done|]. unfold marked_in. destruct (heap s !! e) eqn:He; [|done]. destruct Hin. apply Hr. by rewrite He. }
  set (s' := mk_envs h' l' (next_env_id s)).
  assert (forall e, abs s' !! e = if marked_in (heap s) e then abs s !! e else None) as Ha.
  { intros e. unfold abs, s'; cbn [heap]. rewrite !lookup_fmap, Hh. destruct (marked_in (heap s) e); [|done]. by destruct (heap s !! e). }
  assert (forall e l, marked_in (heap s) e = true -> chain (abs s) (Some e) l -> chain (abs s') (Some e) l /\ forall p, p ∈ l -> abs s' !! p = abs s !! p) as Hc.
  { intros e l He Hc. assert (forall p, p ∈ l -> abs s' !! p = abs s !! p) as Hp.
    { intros p Hp. rewrite Ha, (marked_chain s (Some e) l) by (done || by intros ? [= <-]). done. }
    split; [|done]. eapply chain_mono, Hc. intros p m par Hin Hq. exists m. by rewrite Hp. }
  exists s'. unfold env_sweep_unmarked. rewrite E. split_and!; [done| |done|].
  - constructor.
    + split; [done|]. intros e. unfold s'; cbn [allocated_envs heap]. rewrite Hl', Hr, Hh. unfold marked_in. destruct (heap s !! e) as [x|]; [|by split; [intros []|intros []]].
      destruct (marked x); (split; [intros [_ ?]; try done; by eexists|intros [? ?]; split; [by eexists|done]]).
    + intros e x. unfold s'; cbn [heap]. rewrite Hh. destruct (marked_in (heap s) e); [|done]. destruct (heap s !! e) as [y|] eqn:He; [|done].
      cbn. intros [= <-]. by apply (wf_scopes s Hs e y).
    + intros e. unfold s' at 1; cbn [heap]. rewrite Hh. destruct (marked_in (heap s) e) eqn:He; [|by intros []]. intros Hx%fmap_is_Some.
      destruct (wf_chains s Hs e Hx) as (l & Hl). exists l. by apply Hc.
  - intros e k He. destruct (heap s !! e) as [x|] eqn:Hx; [|unfold marked_in in He; by rewrite Hx in He].
    destruct (wf_chains s Hs e) as (l & Hl); [by eexists|]. destruct (Hc e l He Hl) as [Hl2 Hp].
    rewrite <- !(lookup_in_chain _ _ l _ (length l)) by done. by eapply nearest_agree.
Qed.

Lemma env_clear_spec s : wf s -> exists s', env_clear_marks s = Ret s' /\ wf s' /\ abs s' = abs s /\ (forall e, marked_in (heap s') e = false).
Proof.
  intros Hs. destruct (wf_registry s Hs) as [Hd Hr]. destruct (clear_marks_spec (allocated_envs s) (heap s)) as (h' & E & Hh'); [intros e; apply Hr|].
  assert (forall e, h' !! e = set_marked false <$> heap s !! e) as Hh.
  { intros e. rewrite Hh'. case_decide as Hin; [done|]. destruct (heap s !! e) eqn:He; [|done]. destruct Hin. apply Hr. by rewrite He. }
  set (s' := mk_envs h' (allocated_envs s) (next_env_id s)).
  assert (abs s' = abs s) as Ha by (apply map_eq; intros e; unfold abs, s'; cbn [heap]; rewrite !lookup_fmap, Hh; by destruct (heap s !! e)).
  exists s'. unfold env_clear_marks. rewrite E. split_and!; [done| |done|].
  - constructor.
    + split; [done|]. intros e. unfold s'; cbn [allocated_envs heap]. by rewrite Hr, Hh, fmap_is_Some.
    + intros e x. unfold s'; cbn [heap]. rewrite Hh. destruct (heap s !! e) as [y|] eqn:He; [|done]. cbn. intros [= <-]. by apply (wf_scopes s Hs e y).
    + intros e. rewrite Ha. unfold s'; cbn [heap]. rewrite Hh, fmap_is_Some. apply (wf_chains s Hs).
  - intros e. unfold marked_in, s'; cbn [heap]. rewrite Hh. by destruct (heap s !! e).
Qed.

Lemma env_cleanup_spec s : wf s -> env_cleanup_all s = Ret (mk_envs ∅ [] (next_env_id s)).
Proof.
  intros Hs. destruct (wf_registry s Hs) as [Hd Hr]. destruct (cleanup_spec (allocated_envs s) (heap s)) as (h' & E & Hh'); [done|intros e; apply Hr|].
  unfold env_cleanup_all. rewrite E. cbn [mbind outcome_bind]. do 2 f_equal. apply map_empty. intros e. rewrite Hh'. case_decide as Hin; [done|].
  destruct (heap s !! e) eqn:He; [|done]. destruct Hin. apply Hr. by rewrite He.
Qed.

Lemma wf_static : wf envs_static.
Proof.
  constructor; cbn.
  - split; [constructor|]. intros e. rewrite lookup_empty. split; [by intros ?%not_elem_of_nil|by intros []].
  - intros e x. by rewrite lookup_empty.
  - intros e. rewrite lookup_empty. by intros [].
Qed.

(** Enough fuel for a lookup: one for every scope. *)
Lemma chain_fuel s e fuel : wf s -> (forall p, e = Some p -> is_Some (heap s !! p)) -> (size (heap s) <= fuel)%nat ->
  exists l, chain (abs s) e l /\ (length l <= fuel)%nat /\ forall k, nearest fuel (abs s) e k = lookup_in (abs s) e k.
Proof.
  intros Hs He Hf. destruct (chain_of s e Hs He) as (l & Hl). pose proof (chain_size _ _ _ Hl) as Hsz.
  assert (size (abs s) = size (heap s)) as Hz by apply map_size_fmap. exists l. split_and!; [done|lia|]. intros k. apply (lookup_in_chain _ _ l); [done|lia].
Qed.

(** Lookups of one name need only agree on that name. *)
Lemma nearest_agree_key a a' e l k n : chain a e l ->
  (forall p m par, p ∈ l -> a !! p = Some (m, par) -> exists m', a' !! p = Some (m', par) /\ m' !! k = m !! k) -> nearest n a' e k = nearest n a e k.
Proof.
  intros H; revert n; induction H as [|p m par l Hp H IH]; intros n Ha; [by destruct n|]. destruct n as [|n]; [done|].
  destruct (Ha p m par) as (m' & Hp' & Hk); [left|done|]. cbn [nearest]. rewrite Hp', Hp, Hk. destruct (m !! k); [done|].
  apply IH. intros q m0 par0 ??. apply Ha; [by right|done].
Qed.

Lemma get_spec s e nm n fuel : wf s -> (forall p, e = Some p -> is_Some (heap s !! p)) -> name_ok nm n -> (size (heap s) <= fuel)%nat ->
  env_get fuel e nm n s = Ret (snd <$> lookup_in (abs s) e (key nm n)).
Proof.
  intros Hs He Hn Hf. destruct (chain_fuel s e fuel Hs He Hf) as (l & Hl & Hlf & Hk). rewrite <- Hk. by eapply get_chain.
Qed.

(** A name that the scope itself binds. *)
Lemma get_here s p m par nm n fuel v : wf s -> abs s !! p = Some (m, par) -> m !! key nm n = Some v -> name_ok nm n -> (size (heap s) <= fuel)%nat ->
  env_get fuel (Some p) nm n s = Ret (Some v).
Proof.
  intros Hs Hp Hv Hn Hf. destruct (abs_inv _ _ _ _ Hp) as (x & Hx & _). rewrite get_spec by (done || intros ? [= <-]; by eexists).
  destruct (chain_fuel s (Some p) (S fuel) Hs) as (l & _ & _ & Hk); [intros ? [= <-]; by eexists|lia|].
  rewrite <- Hk. cbn [nearest]. by rewrite Hp, Hv.
Qed.

(** A name that only an enclosing scope can bind. *)
Lemma get_outer s p m par nm n fuel : wf s -> abs s !! p = Some (m, par) -> m !! key nm n = None ->
  (forall q, par = Some q -> is_Some (heap s !! q)) -> name_ok nm n -> (size (heap s) <= fuel)%nat ->
  env_get fuel (Some p) nm n s = env_get fuel par nm n s.
Proof.
  intros Hs Hp Hv Hpar Hn Hf. destruct (abs_inv _ _ _ _ Hp) as (x & Hx & _). rewrite !get_spec by (done || intros ? [= <-]; by eexists).
  destruct (chain_fuel s (Some p) (S fuel) Hs) as (l & _ & _ & Hk); [intros ? [= <-]; by eexists|lia|].
  destruct (chain_fuel s par fuel Hs Hpar Hf) as (l2 & _ & _ & Hk2). rewrite <- Hk, <- Hk2. cbn [nearest]. by rewrite Hp, Hv.
Qed.

(** C15: the environments of the interpreter are chains of finite maps.  Creating a
    scope adds an empty map; defining a name, with a copy of it (for which there is
    memory) or not, changes the
    map of that scope only; lookup finds the nearest scope that binds the name, and
    assignment changes exactly that binding or reports that there is none.  One step
    per scope is enough.  Sweeping removes exactly the scopes that are not marked
    and leaves every lookup from the others; clearing marks changes no binding;
    cleaning up frees every scope once.  All keep the structure well formed. *)
Theorem env_refines s : wf s ->
  (forall p par, heap s !! p = None -> (forall q, par = Some q -> is_Some (heap s !! q)) ->
    wf (env_create p par s) /\ abs (env_create p par s) = <[p := (∅, par)]> (abs s)) /\
  (forall e nm n v, is_Some (heap s !! e) -> name_ok nm n ->
    completes (env_define true e nm n v s) (fun s' => wf s' /\ abs s' = alter (bind_in (key nm n) v) e (abs s)) /\
    completes (env_define_const e nm n v s) (fun s' => wf s' /\ abs s' = alter (bind_in (key nm n) v) e (abs s))) /\
  (forall fuel e nm n v, (forall p, e = Some p -> is_Some (heap s !! p)) -> name_ok nm n -> (size (heap s) <= fuel)%nat ->
    env_get fuel e nm n s = Ret (snd <$> lookup_in (abs s) e (key nm n)) /\
    completes (env_assign fuel e nm n v s) (fun '(b, s') => wf s' /\
      match lookup_in (abs s) e (key nm n) with
      | Some (p, _) => b = true /\ abs s' = alter (bind_in (key nm n) v) p (abs s)
      | None => b = false /\ s' = s
      end)) /\
  (marks_closed s -> exists s', env_sweep_unmarked s = Ret s' /\ wf s' /\
    (forall e, abs s' !! e = if marked_in (heap s) e then abs s !! e else None) /\
    (forall e k, marked_in (heap s) e = true -> lookup_in (abs s') (Some e) k = lookup_in (abs s) (Some e) k)) /\
  (exists s', env_clear_marks s = Ret s' /\ wf s' /\ abs s' = abs s /\ (forall e, marked_in (heap s') e = false)) /\
  env_cleanup_all s = Ret (mk_envs ∅ [] (next_env_id s)).
Proof.
  intros Hs. split_and!.
  - intros p par. by apply create_spec.
  - intros e nm n v He Hn. split; [by apply define_spec|by apply define_const_spec].
  - intros fuel e nm n v He Hn Hf. destruct (chain_fuel s e fuel Hs He Hf) as (l & Hl & Hlf & Hk). rewrite <- Hk.
    split; [by eapply get_chain|by eapply assign_chain].
  - by apply env_sweep_spec.
  - by apply env_clear_spec.
  - by apply env_cleanup_spec.
Qed.
End env.
Arguments env_node : clear implicits. Arguments env : clear implicits. Arguments envs : clear implicits.

(** ** Example *)

(** An outer scope at 100 and an inner one at 200. *)
Definition two_scopes : envs Z := env_create 200 (Some 100) (env_create 100 None envs_static).

Lemma two_scopes_wf : wf two_scopes.
Proof.
  destruct (create_spec 100 None (V := Z) envs_static) as [H _]; [apply wf_static|done|done|].
  apply create_spec; [done|done|]. intros q [= <-]. by eexists.
Qed.

Lemma env_refines_witness :
  completes (env_define true 100 [120; 121] 1 7 two_scopes) (fun s' => wf s' /\ abs s' = alter (bind_in [120] 7) 100 (abs two_scopes)) /\
  env_get 2 (Some 200) [120] 1 two_scopes = Ret None.
Proof.
  destruct (env_refines two_scopes two_scopes_wf) as (_ & Hd & Hg & _). split.
  - apply (Hd 100 [120; 121] 1 7); [by eexists|]. unfold name_ok, zlen; cbn. lia.
  - destruct (Hg 2%nat (Some 200) [120] 1 0) as [E _]; [intros p [= <-]; by eexists|unfold name_ok, zlen; cbn; lia|done|].
    rewrite E. vm_compute. reflexivity.
Defined.

(** The inner scope sees the outer binding until it has its own; assignment changes
    the inner one. *)
Example shadowing :
  (s1 ← env_define true 100 [120] 1 7 two_scopes; a ← env_get 2 (Some 200) [120] 1 s1;
   s2 ← env_define true 200 [120] 1 8 s1; '(b, s3) ← env_assign 2 (Some 200) [120] 1 9 s2;
   c ← env_get 2 (Some 200) [120] 1 s3; d ← env_get 2 (Some 100) [120] 1 s3; Ret (a, b, c, d)) = Ret (Some 7, true, Some 9, Some 7).
Proof. vm_compute. reflexivity. Qed.

(** A name registered with a length that is too small cannot be found under its
    whole name. *)
Example short_length :
  (s1 ← env_define true 100 [120; 121] 1 7 two_scopes; a ← env_get 2 (Some 100) [120; 121] 2 s1; Ret a) = Ret None.
Proof. vm_compute. reflexivity. Qed.
(** Without memory for the copy a node without a name is left: the next use of a name of
    the same length dereferences NULL. *)
Example name_not_copied :
  (s1 ← env_define false 100 [120] 1 7 two_scopes; env_get 2 (Some 100) [122] 1 s1) = Fault.
Proof. vm_compute. reflexivity. Qed.
End SageEnv.
