(* ===== verification/Stdio.v ===== *)
(** * Files of the interpreter (core/sagelang/libsage_port.c)

    The part of the C library that the interpreter of the language uses to read
    files: streams over the virtual file system, positions, and [read_file] of
    sage_lang/core/src/c/module.c, which loads a script through them.  A stream is
    the structure [SageFile]; the memory for it comes from the kernel heap, and
    [mem] says whether there was any.

    A stream is the contents of its file with a position, and [read_file] returns the
    text of the script, as far as the file can be read ([reads], [stats]); FileStack
    shows this for files on the FAT32 volume. *)

From Stdlib Require Import String Ascii.
From stdpp Require Import base tactics list numbers gmap.
From S2P Require Import Prelude CMem Vfs Libc Console LineEdit Shell ShellSpec.

Module Stdio.
Import Shell ShellSpec LineEdit Console.
Local Open Scope string_scope.
Local Open Scope list_scope.
Local Open Scope Z_scope.

(** ** Model *)

Record stat_buf := mk_stat_buf { st_mode : Z; st_size : Z }.
Record sage_file := mk_file { path : list Z; offset : Z; size : Z }.

Definition SEEK_SET : Z := 0.
Definition SEEK_CUR : Z := 1.
Definition SEEK_END : Z := 2.

(** The place of the last [c], the NUL included. *)
Fixpoint strrchr_loop (s : list Z) (i : Z) (c : Z) (last : option Z) : option Z :=
  match s with
  | [] => if 0 =? c then Some i else last
  | x :: r => strrchr_loop r (i + 1) c (if x =? c then Some i else last)
  end.
Definition strrchr (s : list Z) (c : Z) : option Z := strrchr_loop s 0 (u8 c) None.

(** The string in a buffer of 256 bytes after [strncpy] of 255 and a final NUL. *)
Definition copy_255 (p : list Z) : list Z := take 255 p.
Definition realpath (p : list Z) : list Z := copy_255 p.

Section streams.
Context {S : Type} `{FileSystem S}.

Definition stat (p : list Z) (s : S) : outcome (Z * option stat_buf * S) :=
  '(r, st, s1) ← fs_stat p s;
  if r =? 0 then Ret (0, Some (mk_stat_buf (if Vfs.st_type st =? Vfs.VFS_DIRECTORY then 16384 else 32768) (Vfs.st_size st)), s1)
  else Ret (-1, None, s1).

Definition fopen (mem : bool) (p : list Z) (s : S) : outcome (option sage_file * S) :=
  '(r, st, s1) ← stat p s;
  match st with
  | Some b => if r =? 0 then if mem then Ret (Some (mk_file (copy_255 p) 0 (st_size b)), s1) else Fault else Ret (None, s1)
  | None => Ret (None, s1)
  end.

(** What is stored at the pointer, and the result. *)
Definition fread (sz n : Z) (f : option sage_file) (s : S) : outcome (Z * list Z * option sage_file * S) :=
  match f with
  | None => Ret (0, [], f, s)
  | Some x =>
      let to_read := u64 (sz * n) in
      let to_read := if size x <? u64 (offset x + to_read) then u64 (size x - offset x) else to_read in
      '(res, d, s1) ← fs_read (path x) (offset x) to_read s;
      if 0 <? res then
        if sz =? 0 then Fault else Ret (res / sz, d, Some (mk_file (path x) (u64 (offset x + res)) (size x)), s1)
      else Ret (0, d, f, s1)
  end.

Definition fwrite (sz n : Z) (f : option sage_file) : Z := 0.

Definition fseek (o w : Z) (f : option sage_file) : Z * option sage_file :=
  match f with
  | None => (-1, f)
  | Some x =>
      let off := if w =? SEEK_SET then u64 o else if w =? SEEK_CUR then u64 (offset x + o)
                 else if w =? SEEK_END then u64 (size x + o) else offset x in
      (0, Some (mk_file (path x) (if size x <? off then size x else off) (size x)))
  end.

Definition ftell (f : option sage_file) : Z := match f with None => -1 | Some x => s64 (offset x) end.
Definition rewind (f : option sage_file) : option sage_file :=
  match f with None => None | Some x => Some (mk_file (path x) 0 (size x)) end.

(** The script, up to the NUL that ends it; [enough] says whether [SAGE_ALLOC] found
    memory. *)
Definition read_file (mem enough : bool) (p : list Z) (s : S) : outcome (option (list Z) * S) :=
  '(f, s1) ← fopen mem p s;
  match f with
  | None => Ret (None, s1)
  | Some _ =>
      let f1 := (fseek 0 SEEK_END f).2 in
      let length := ftell f1 in
      if length <? 0 then Ret (None, s1)
      else
        let f2 := (fseek 0 SEEK_SET f1).2 in
        if negb enough then Ret (None, s1)
        else
          '(n, d, _, s2) ← fread 1 length f2 s1;
          if length <? n then Fault else Ret (Some (take (Z.to_nat n) d), s2)
  end.
End streams.

(** ** Specification *)

(** Sizes are results of type [int]. *)
Definition fits (c : list Z) : Prop := zlen c < 2 ^ 31.

(** A stream on a file: the contents and a position in them. *)
Record stream (f : option sage_file) (p c : list Z) (pos : Z) : Prop := {
  stream_file : f = Some (mk_file p pos (zlen c));
  stream_pos : 0 <= pos <= zlen c
}.

(** Where a seek goes; before the start it goes to the end. *)
Definition seek_to (o w pos len : Z) : Z :=
  let t := if w =? SEEK_SET then o else if w =? SEEK_CUR then pos + o else if w =? SEEK_END then len + o else pos in
  if (0 <=? t) && (t <=? len) then t else len.

Section spec.
Context {S : Type} `{FileSystem S}.
(** The states in which the path [p] has the contents [c]. *)
Context (I : S -> Prop) (p c : list Z) (Hreads : reads I p c) (Hstats : stats I p c) (Hfit : fits c).

Lemma fopen_ok (s : S) : I s -> zlen p <= 255 -> completes (fopen true p s) (fun r => stream r.1 p c 0 /\ I r.2).
Proof.
  intros Hi Hp. unfold fopen, stat. destruct (Hstats s Hi) as ([[r st] s1] & E & Hr & _ & Hz & Hq). cbn [fst snd] in *. subst r.
  rewrite E. cbn [mbind outcome_bind]. rewrite Hz. change (0 =? 0) with true. apply completes_Ret. cbn [fst snd st_size]. split; [|done]. split.
  - unfold copy_255, zlen in *. by rewrite take_ge by lia.
  - pose proof (zlen_nonneg c). lia.
Qed.

(** The result of [kernel_malloc] is not tested. *)
Lemma fopen_no_memory (s : S) : I s -> fopen false p s = Fault.
Proof.
  intros Hi. unfold fopen, stat. destruct (Hstats s Hi) as ([[r st] s1] & E & Hr & _). cbn [fst snd] in *. subst r. by rewrite E.
Qed.

Lemma fread_ok sz n f pos (s : S) : stream f p c pos -> I s -> 0 < sz -> 0 <= n -> sz * n < 2 ^ 63 ->
  let d := take (Z.to_nat (sz * n)) (drop (Z.to_nat pos) c) in
  completes (fread sz n f s) (fun '(r, x, f', s') => r = zlen d / sz /\ x = d /\ stream f' p c (pos + zlen d) /\ I s').
Proof.
  intros [-> Hpos] Hi Hsz Hn Hm d. unfold fits in Hfit. pose proof (zlen_nonneg c). unfold fread. cbn [size offset path].
  assert (0 <= sz * n) by nia.
  assert (u64 (sz * n) = sz * n) as -> by (unfold u64; apply Z.mod_small; lia).
  assert (u64 (pos + sz * n) = pos + sz * n) as -> by (unfold u64; apply Z.mod_small; lia).
  assert (u64 (zlen c - pos) = zlen c - pos) as -> by (unfold u64; apply Z.mod_small; lia).
  assert (zlen d = Z.min (sz * n) (zlen c - pos)) as Hd by (unfold d, zlen in *; rewrite length_take, length_drop; lia).
  set (k := if zlen c <? pos + sz * n then zlen c - pos else sz * n).
  assert (k = zlen d) as Hk by (unfold k; destruct (Z.ltb_spec (zlen c) (pos + sz * n)); lia).
  assert (take (Z.to_nat k) (drop (Z.to_nat pos) c) = d) as Ed.
  { rewrite Hk. unfold d at 1, zlen. rewrite Nat2Z.id, length_take, length_drop. unfold zlen in Hpos. unfold d.
    destruct (decide (Z.to_nat (sz * n) <= length c - Z.to_nat pos)%nat).
    - by rewrite Nat.min_l by lia.
    - rewrite Nat.min_r by lia. rewrite !take_ge by (rewrite length_drop; lia). done. }
  pose proof (zlen_nonneg d). destruct (Hreads s pos k Hi) as ([[r x] s1] & E & Hr & Hq); [lia|lia|]. cbn [fst snd] in *.
  rewrite Ed in Hr. injection Hr as -> ->. rewrite E. cbn [mbind outcome_bind]. destruct (Z.ltb_spec 0 (zlen d)).
  - rewrite (proj2 (Z.eqb_neq sz 0)) by lia. apply completes_Ret. split_and!; [done|done| |done].
    split; [|lia]. unfold u64. by rewrite Z.mod_small by lia.
  - assert (zlen d = 0) as Hz by lia. apply completes_Ret. rewrite Hz, Z.div_0_l, Z.add_0_r by lia. by split_and!.
Qed.

Lemma fseek_ok o w f pos : stream f p c pos -> - 2 ^ 62 < o < 2 ^ 62 ->
  (fseek o w f).1 = 0 /\ stream (fseek o w f).2 p c (seek_to o w pos (zlen c)).
Proof.
  intros [-> Hpos] Ho. unfold fits in Hfit. split; [done|]. cbn [fseek snd offset size path].
  unfold seek_to. set (t := if w =? SEEK_SET then o else _).
  assert (Ht : - 2 ^ 63 < t < 2 ^ 63) by (unfold t; repeat case_match; lia).
  assert ((if w =? SEEK_SET then u64 o else if w =? SEEK_CUR then u64 (pos + o) else if w =? SEEK_END then u64 (zlen c + o) else pos) = u64 t) as ->.
  { unfold t. repeat case_match; try done. unfold u64. rewrite Z.mod_small; lia. }
  split.
  - f_equal. f_equal. unfold u64. destruct (Z.leb_spec 0 t); cbn [andb].
    + rewrite Z.mod_small by lia. destruct (Z.ltb_spec (zlen c) t), (Z.leb_spec t (zlen c)); lia.
    + rewrite <- (Z.mod_add _ 1), Z.mod_small by lia. rewrite (proj2 (Z.ltb_lt _ _)) by lia. done.
  - destruct (Z.leb_spec 0 t), (Z.leb_spec t (zlen c)); cbn [andb]; lia.
Qed.

Lemma ftell_ok f pos : stream f p c pos -> ftell f = pos.
Proof. intros [-> Hpos]. unfold fits in Hfit. cbn [ftell offset]. unfold s64. rewrite Z.mod_small; lia. Qed.

Lemma rewind_ok f pos : stream f p c pos -> stream (rewind f) p c 0.
Proof. intros [-> Hpos]. split; [done|lia]. Qed.

Lemma fseek_place w f pos : stream f p c pos ->
  (w = SEEK_SET -> stream (fseek 0 w f).2 p c 0) /\ (w = SEEK_END -> stream (fseek 0 w f).2 p c (zlen c)).
Proof.
  intros Hf. pose proof (zlen_nonneg c). destruct (fseek_ok 0 w f pos Hf) as [_ Hs]; [lia|].
  split; intros ->; unfold seek_to in Hs; cbn [SEEK_SET SEEK_CUR SEEK_END Z.eqb Pos.eqb] in Hs.
  - change (0 <=? 0) with true in Hs. by rewrite (proj2 (Z.leb_le 0 (zlen c))) in Hs by lia.
  - rewrite Z.add_0_r in Hs. by destruct (0 <=? zlen c), (zlen c <=? zlen c).
Qed.

(** [read_file]: without memory for the text there is none. *)
Lemma read_file_ok enough (s : S) : I s -> zlen p <= 255 ->
  completes (read_file true enough p s) (fun r => r.1 = (if enough then Some c else None) /\ I r.2).
Proof.
  intros Hi Hp. unfold read_file. destruct (fopen_ok s Hi Hp) as ([f s1] & E & Hf & Hq). cbn [fst snd] in *.
  rewrite E. cbn [mbind outcome_bind]. destruct f as [x|]; [|by destruct Hf]. pose proof (zlen_nonneg c).
  pose proof (proj2 (fseek_place SEEK_END _ _ Hf) eq_refl) as Hf1. rewrite (ftell_ok _ _ Hf1).
  rewrite (proj2 (Z.ltb_ge _ _)) by lia. destruct enough; cbn [negb]; [|by apply completes_Ret].
  pose proof (proj1 (fseek_place SEEK_SET _ _ Hf1) eq_refl) as Hf2.
  unfold fits in Hfit. destruct (fread_ok 1 (zlen c) _ 0 s1 Hf2 Hq) as ([[[n d] f'] s2] & E2 & Hn & Hd & _ & Hq2); [lia..|].
  rewrite E2. cbn [mbind outcome_bind]. assert (take (Z.to_nat (1 * zlen c)) (drop (Z.to_nat 0) c) = c) as Ec.
  { rewrite drop_0, take_ge; [done|unfold zlen; lia]. }
  rewrite Ec, Z.div_1_r in Hn. rewrite Ec in Hd. subst n d. rewrite Z.ltb_irrefl. apply completes_Ret. cbn [fst snd]. split; [|done].
  unfold zlen. by rewrite Nat2Z.id, firstn_all.
Qed.
End spec.

(** ** Example *)

(** Seeking back by more than the position goes to the end of the file. *)
Example seek_before_start :
  let f := Some (mk_file (txt "/a") 1 5) in fseek (-2) SEEK_CUR f = (0, Some (mk_file (txt "/a") 5 5)).
Proof. vm_compute. reflexivity. Qed.
End Stdio.
