(* ===== verification/Bridge.v ===== *)
(** * The interpreter in the kernel (core/sagelang/sageos_bridge.c)

    What connects the interpreter of the language to the kernel: the functions it
    offers to scripts and their registration in the environments of SageEnv, the
    lock that lets one thread interpret at a time, the way a script is run from a
    file or a string, line input, and tasks that scripts start.

    Parameters: the parser and evaluator, which end normally or jump to the error
    handler; where the heap puts a new scope; what uninitialised memory holds. *)

From Stdlib Require Import String Ascii.
From stdpp Require Import base tactics list numbers option gmap.
From S2P Require Import Prelude Digits CMem Proc Timer Alloc Caps Sched Ipc Vfs Libc Console LineEdit Shell ShellSpec SageEnv.

Module Bridge.
Import Console LineEdit.
Local Open Scope string_scope.
Local Open Scope list_scope.
Local Open Scope Z_scope.

(** ** Registration *)

(** The functions offered to scripts. *)
Module Fn.
Inductive native :=
  | n_os_write_char | n_os_write_str | n_os_gc_collect | n_os_arena_reset | n_os_num_to_str
  | n_os_read_char | n_os_read_key | n_os_poll_char | n_os_poll_key | n_os_set_color_hex
  | n_os_get_color | n_os_input_begin | n_os_line_redraw | n_os_strlen | n_os_char_at
  | n_os_substr | n_os_chr | n_os_array_push | n_os_shell_suggestion
  | n_os_shell_completion_common | n_os_shell_print_completions | n_os_console_clear
  | n_os_dmesg_log | n_os_version | n_os_spawn_task | n_os_set_color | n_os_status_refresh
  | n_os_get_tasks | n_read_line | n_os_battery_percent | n_os_cpu_percent | n_os_ram_used_mb
  | n_os_ram_total_mb | n_ipc_endpoint_create | n_ipc_service_register | n_ipc_service_lookup.

#[export] Instance native_eq_dec : EqDecision native.
Proof. solve_decision. Defined.
End Fn.
Import Fn.

(** Name, length given for the name, function. *)
Definition entry : Type := string * Z * native.

Definition global_natives : list entry :=
  [("os_write_char", 13, n_os_write_char); ("os_write_str", 12, n_os_write_str);
   ("os_gc_collect", 13, n_os_gc_collect); ("os_arena_reset", 14, n_os_arena_reset);
   ("os_num_to_str", 13, n_os_num_to_str); ("os_read_char", 12, n_os_read_char);
   ("os_read_key", 11, n_os_read_key); ("os_poll_char", 12, n_os_poll_char);
   ("os_poll_key", 11, n_os_poll_key); ("os_set_color_hex", 16, n_os_set_color_hex);
   ("os_get_color", 12, n_os_get_color); ("os_input_begin", 14, n_os_input_begin);
   ("os_line_redraw", 14, n_os_line_redraw); ("os_strlen", 9, n_os_strlen);
   ("os_char_at", 10, n_os_char_at); ("os_substr", 9, n_os_substr); ("os_chr", 6, n_os_chr);
   ("os_array_push", 13, n_os_array_push); ("os_shell_suggestion", 18, n_os_shell_suggestion);
   ("os_shell_completion_common", 25, n_os_shell_completion_common);
   ("os_shell_print_completions", 25, n_os_shell_print_completions);
   ("os_console_clear", 16, n_os_console_clear); ("os_dmesg_log", 12, n_os_dmesg_log);
   ("dmesg_log", 9, n_os_dmesg_log); ("os_version_string", 17, n_os_version);
   ("os_spawn_task", 13, n_os_spawn_task); ("os_set_color", 12, n_os_set_color);
   ("status_refresh", 14, n_os_status_refresh); ("os_status_refresh", 17, n_os_status_refresh);
   ("os_get_tasks", 12, n_os_get_tasks); ("read_line", 9, n_read_line);
   ("os_battery_percent", 18, n_os_battery_percent); ("os_cpu_percent", 14, n_os_cpu_percent);
   ("os_ram_used_mb", 14, n_os_ram_used_mb); ("os_ram_total_mb", 15, n_os_ram_total_mb)].

Definition os_natives : list entry :=
  [("write_str", 9, n_os_write_str); ("gc_collect", 10, n_os_gc_collect);
   ("num_to_str", 10, n_os_num_to_str); ("dmesg_log", 9, n_os_dmesg_log);
   ("spawn_task", 10, n_os_spawn_task)].

Definition ipc_natives : list entry :=
  [("endpoint_create", 15, n_ipc_endpoint_create); ("service_register", 16, n_ipc_service_register);
   ("service_lookup", 14, n_ipc_service_lookup)].

(** A module of the cache; its path, source and syntax tree are NULL. *)
Record native_module := mk_module { m_name : list Z; m_env : Z }.

Section registration.
Context {V : Type} (val_native : native -> V).
(** The address [SAGE_ALLOC] returns for a scope. *)
Context (alloc : SageEnv.envs V -> Z).

Definition create_native_module (g_global_env : option Z) (nm : list Z) (cache : list native_module) (s : SageEnv.envs V) :
  Z * list native_module * SageEnv.envs V :=
  let p := alloc s in (p, mk_module nm p :: cache, SageEnv.env_create p g_global_env s).

(** There is memory for the names. *)
Fixpoint define_natives (e : Z) (l : list entry) (s : SageEnv.envs V) : outcome (SageEnv.envs V) :=
  match l with
  | [] => Ret s
  | (nm, len, f) :: r => s1 ← SageEnv.env_define true e (txt nm) len (val_native f) s; define_natives e r s1
  end.

Definition register_sageos_natives (g_global_env : option Z) (cache : list native_module) (s : SageEnv.envs V) :
  outcome (list native_module * SageEnv.envs V) :=
  match g_global_env with
  | None => Fault
  | Some g =>
      s1 ← define_natives g global_natives s;
      let '(os, cache1, s2) := create_native_module (Some g) (txt "os") cache s1 in
      s3 ← define_natives os os_natives s2;
      let '(ipc, cache2, s4) := create_native_module (Some g) (txt "ipc") cache1 s3 in
      s5 ← define_natives ipc ipc_natives s4;
      Ret (cache2, s5)
  end.
End registration.

(** What a table binds a name to. *)
Fixpoint bound (k : list Z) (l : list entry) : option native :=
  match l with
  | [] => None
  | (nm, len, f) :: r =>
      match bound k r with
      | Some g => Some g
      | None => if bool_decide (SageEnv.key (txt nm) len = k) then Some f else None
      end
  end.

(** Names that are given with their own length. *)
Definition whole (x : entry) : bool := x.1.2 =? zlen (txt x.1.1).

Definition table_ok (l : list entry) : bool :=
  forallb (fun x => (0 <=? x.1.2) && (x.1.2 <=? zlen (txt x.1.1)) && (x.1.2 <? 2 ^ 31) &&
    (if whole x then bool_decide (bound (txt x.1.1) l = Some x.2) else bool_decide (bound (txt x.1.1) l = None))) l.

Lemma tables_ok : table_ok global_natives && table_ok os_natives && table_ok ipc_natives = true.
Proof. vm_compute. reflexivity. Qed.

(** The names as registered are different. *)
Lemma keys_bound : forallb (fun x : entry => bool_decide (bound (SageEnv.key (txt x.1.1) x.1.2) global_natives = Some x.2)) global_natives = true.
Proof. vm_compute. reflexivity. Qed.

Lemma modules_whole : forallb whole os_natives = true /\ forallb whole ipc_natives = true.
Proof. split; vm_compute; reflexivity. Qed.

Lemma not_whole : (fun x : entry => x.1.1) <$> filter (fun x => whole x = false) (global_natives ++ os_natives ++ ipc_natives) =
  ["os_shell_suggestion"; "os_shell_completion_common"; "os_shell_print_completions"].
Proof. vm_compute. reflexivity. Qed.

Lemma names_fit : forallb (fun x => zlen (txt x.1.1) <? 2 ^ 31) global_natives = true.
Proof. vm_compute. reflexivity. Qed.

Lemma strlen_listed : ("os_strlen", 9, n_os_strlen) ∈ global_natives.
Proof. do 13 right. left. Qed.

#[local] Opaque global_natives os_natives ipc_natives.

Section found.
Context {V : Type} (val_native : native -> V) (alloc : SageEnv.envs V -> Z).
Import SageEnv.

(** The map of a scope after the definitions of a table. *)
Definition bind_table (l : list entry) (x : gmap (list Z) V * option Z) : gmap (list Z) V * option Z :=
  foldl (fun x e => bind_in (key (txt e.1.1) e.1.2) (val_native e.2) x) x l.

Lemma bind_table_parent l x : (bind_table l x).2 = x.2.
Proof. revert x; induction l as [|e l IH]; intros x; [done|]. unfold bind_table in *. cbn [foldl]. by rewrite IH. Qed.

Lemma bind_table_lookup l x k : (bind_table l x).1 !! k = match bound k l with Some f => Some (val_native f) | None => x.1 !! k end.
Proof.
  revert x; induction l as [|[[nm len] f] l IH]; intros x; [done|]. cbn [bound].
  change (bind_table ((nm, len, f) :: l) x) with (bind_table l (bind_in (key (txt nm) len) (val_native f) x)). rewrite IH. destruct (bound k l); [done|]. cbn [bind_in fst]. case_bool_decide as E.
  - by rewrite E, lookup_insert_eq.
  - by rewrite lookup_insert_ne.
Qed.

Lemma define_natives_spec e l s : wf s -> is_Some (heap s !! e) -> Forall (fun x : entry => name_ok (txt x.1.1) x.1.2) l ->
  completes (define_natives val_native e l s) (fun s' => wf s' /\ abs s' = alter (bind_table l) e (abs s)).
Proof.
  intros Hs He Hl. revert s Hs He. induction Hl as [|[[nm len] f] l Hx Hl IH]; intros s Hs He.
  - apply completes_Ret. split; [done|]. apply map_eq. intros p. destruct (decide (e = p)) as [<-|Hne]; [|by rewrite lookup_alter_ne].
    rewrite lookup_alter_eq. by destruct (abs s !! e).
  - cbn [define_natives]. eapply completes_bind; [by apply define_spec|]. intros s1 [Hs1 Ha]. eapply completes_mono.
    + apply IH; [done|]. assert (is_Some (abs s1 !! e)) as Hx1; [|unfold abs in Hx1; by rewrite lookup_fmap, fmap_is_Some in Hx1].
      rewrite Ha, lookup_alter_eq. destruct He as [x He]. rewrite (abs_lookup _ _ _ He). by eexists.
    + intros s2 [Hs2 Ha2]. split; [done|]. rewrite Ha2, Ha. apply map_eq. intros p. destruct (decide (e = p)) as [<-|Hne].
      * rewrite !lookup_alter_eq. by destruct (abs s !! e).
      * by rewrite !lookup_alter_ne.
Qed.

Lemma table_entry l x : table_ok l = true -> x ∈ l ->
  name_ok (txt x.1.1) x.1.2 /\ (whole x = true -> bound (txt x.1.1) l = Some x.2) /\ (whole x = false -> bound (txt x.1.1) l = None).
Proof.
  unfold table_ok. rewrite forallb_forall. intros H Hx%list_elem_of_In. specialize (H x Hx). apply andb_prop in H as [H Hb].
  apply andb_prop in H as [H H3]. apply andb_prop in H as [H1 H2]. apply Z.leb_le in H1. apply Z.leb_le in H2. apply Z.ltb_lt in H3.
  split; [unfold name_ok; lia|]. destruct (whole x); case_bool_decide; done.
Qed.

Lemma table_names l : table_ok l = true -> Forall (fun x : entry => name_ok (txt x.1.1) x.1.2) l.
Proof. intros H. apply Forall_forall. intros x Hx. by apply (table_entry l x H). Qed.

Lemma key_whole nm : key nm (zlen nm) = nm.
Proof. unfold key, zlen. by rewrite Nat2Z.id, firstn_all. Qed.

Lemma whole_ok nm n : name_ok nm n -> zlen nm < 2 ^ 31 -> name_ok nm (zlen nm).
Proof. intros [? ?] ?. unfold name_ok. pose proof (zlen_nonneg nm). lia. Qed.

(** After the definitions of a table in a scope, its names find their functions. *)
Lemma table_found l p m par fuel s x : table_ok l = true -> x ∈ l -> whole x = true -> wf s -> abs s !! p = Some (bind_table l (m, par)) ->
  (size (heap s) <= fuel)%nat -> env_get fuel (Some p) (txt x.1.1) (zlen (txt x.1.1)) s = Ret (Some (val_native x.2)).
Proof.
  intros Hl Hx Hw Hs Hp Hf. destruct (table_entry l x Hl Hx) as (Hn & Hb & _). specialize (Hb Hw). unfold whole in Hw. apply Z.eqb_eq in Hw.
  rewrite <- Hw at 1. rewrite (surjective_pairing (bind_table l (m, par))) in Hp. eapply get_here; [done|exact Hp| |done|done].
  rewrite Hw, key_whole, bind_table_lookup. by rewrite Hb.
Qed.

Lemma key_ok nm n : name_ok nm n -> name_ok (key nm n) n /\ key (key nm n) n = key nm n.
Proof.
  intros Hn. pose proof (key_length nm n Hn) as Hl. destruct Hn as [H1 H2]. split; [unfold name_ok, zlen; lia|].
  unfold key. by rewrite take_take, Nat.min_id.
Qed.

(** The registered beginnings of the names find their functions. *)
Lemma keys_found p m par fuel s x : x ∈ global_natives -> wf s -> abs s !! p = Some (bind_table global_natives (m, par)) ->
  (size (heap s) <= fuel)%nat -> env_get fuel (Some p) (key (txt x.1.1) x.1.2) x.1.2 s = Ret (Some (val_native x.2)).
Proof.
  intros Hx Hs Hp Hf. pose proof tables_ok as Ht. apply andb_prop in Ht as [Ht _]. apply andb_prop in Ht as [Htg _].
  destruct (table_entry _ x Htg Hx) as [Hn _]. destruct (key_ok _ _ Hn) as [Hn' Hk].
  pose proof keys_bound as Hb. rewrite forallb_forall in Hb. apply list_elem_of_In in Hx. specialize (Hb x Hx). apply bool_decide_eq_true in Hb.
  rewrite (surjective_pairing (bind_table _ _)) in Hp. eapply get_here; [done|exact Hp| |done|done].
  rewrite Hk, bind_table_lookup. by rewrite Hb.
Qed.

(** The scopes after registration. *)
Record registered (g os ipc : Z) (s s' : envs V) : Prop := {
  reg_wf : wf s';
  reg_new : abs s !! os = None /\ abs s !! ipc = None;
  reg_global m par : abs s !! g = Some (m, par) -> abs s' !! g = Some (bind_table global_natives (m, par));
  reg_os : abs s' !! os = Some (bind_table os_natives (∅, Some g));
  reg_ipc : abs s' !! ipc = Some (bind_table ipc_natives (∅, Some g));
  reg_rest p : p <> g -> p <> os -> p <> ipc -> abs s' !! p = abs s !! p
}.

Lemma heap_abs (s : envs V) p : is_Some (heap s !! p) <-> is_Some (abs s !! p).
Proof. unfold abs. by rewrite lookup_fmap, fmap_is_Some. Qed.

Lemma heap_abs_none (s : envs V) p : heap s !! p = None <-> abs s !! p = None.
Proof. unfold abs. rewrite lookup_fmap. by destruct (heap s !! p). Qed.

Lemma alter_present (f : gmap (list Z) V * option Z -> gmap (list Z) V * option Z) (e p : Z) (a : gmap Z (gmap (list Z) V * option Z)) :
  alter f e a !! p = if decide (e = p) then f <$> a !! p else a !! p.
Proof. case_decide as E; [subst; by rewrite lookup_alter_eq|by rewrite lookup_alter_ne]. Qed.

Lemma register_spec g cache s : wf s -> is_Some (heap s !! g) -> (forall s, heap s !! alloc s = None) ->
  completes (register_sageos_natives val_native alloc (Some g) cache s) (fun '(cache', s') =>
    exists os ipc, cache' = mk_module (txt "ipc") ipc :: mk_module (txt "os") os :: cache /\ registered g os ipc s s').
Proof.
  intros Hs Hg Ha. pose proof tables_ok as Ht. apply andb_prop in Ht as [Ht Hti]. apply andb_prop in Ht as [Htg Hto].
  unfold register_sageos_natives. eapply completes_bind; [apply define_natives_spec; [done|done|by apply table_names]|].
  intros s1 [Hs1 E1]. cbn [create_native_module]. set (os := alloc s1). pose proof (Ha s1) as Hos. fold os in Hos.
  assert (is_Some (heap s1 !! g)) as Hg1 by (apply heap_abs; rewrite E1, lookup_alter_eq; apply fmap_is_Some, heap_abs; done).
  destruct (create_spec os (Some g) s1 Hs1 Hos) as [Hs2 E2]; [by intros q [= <-]|]. set (s2 := env_create os (Some g) s1) in *.
  eapply completes_bind; [apply (define_natives_spec os); [done|apply heap_abs; rewrite E2, lookup_insert_eq; by eexists|by apply table_names]|].
  intros s3 [Hs3 E3]. set (ipc := alloc s3). pose proof (Ha s3) as Hipc. fold ipc in Hipc.
  assert (is_Some (heap s3 !! g)) as Hg3.
  { apply heap_abs. rewrite E3, E2, alter_present. case_decide as E; [rewrite E, lookup_insert_eq; by eexists|].
    rewrite lookup_insert_ne by done. by apply heap_abs. }
  destruct (create_spec ipc (Some g) s3 Hs3 Hipc) as [Hs4 E4]; [by intros q [= <-]|]. set (s4 := env_create ipc (Some g) s3) in *.
  eapply completes_bind; [apply (define_natives_spec ipc); [done|apply heap_abs; rewrite E4, lookup_insert_eq; by eexists|by apply table_names]|].
  intros s5 [Hs5 E5]. apply completes_Ret. exists os, ipc. split; [done|].
  assert (os <> g) as Hog by (intros ->; rewrite Hos in Hg1; by destruct Hg1).
  assert (ipc <> g) as Hig by (intros E; rewrite E in Hipc; rewrite Hipc in Hg3; by destruct Hg3).
  apply heap_abs_none in Hipc. rewrite E3, E2, alter_present in Hipc.
  assert (ipc <> os) as Hio. { intros E. by rewrite decide_True, <- E, lookup_insert_eq in Hipc by done. }
  rewrite decide_False, lookup_insert_ne, E1, lookup_alter_ne in Hipc by congruence.
  apply heap_abs_none in Hos. rewrite E1, lookup_alter_ne in Hos by done.
  assert (forall p, abs s5 !! p = alter (bind_table ipc_natives) ipc (<[ipc := (∅, Some g)]> (alter (bind_table os_natives) os (<[os := (∅, Some g)]> (alter (bind_table global_natives) g (abs s))))) !! p) as E.
  { intros p. by rewrite E5, E4, E3, E2, E1. }
  split; [exact Hs5|exact (conj Hos Hipc)|..].
  - intros m par Hm. rewrite E, lookup_alter_ne, lookup_insert_ne, lookup_alter_ne, lookup_insert_ne, lookup_alter_eq, Hm by done. done.
  - rewrite E, lookup_alter_ne, lookup_insert_ne, lookup_alter_eq, lookup_insert_eq by done. done.
  - rewrite E, lookup_alter_eq, lookup_insert_eq. done.
  - intros p ???. rewrite E. by rewrite lookup_alter_ne, lookup_insert_ne, lookup_alter_ne, lookup_insert_ne, lookup_alter_ne by done.
Qed.

Lemma whole_name l x : table_ok l = true -> x ∈ l -> whole x = false -> zlen (txt x.1.1) < 2 ^ 31 ->
  name_ok (txt x.1.1) (zlen (txt x.1.1)) /\ bound (txt x.1.1) l = None.
Proof. intros Hl Hx Hw Hz. destruct (table_entry l x Hl Hx) as (Hn & _ & Hb). split; [by eapply whole_ok|by apply Hb]. Qed.

Lemma short_names x : x ∈ global_natives -> zlen (txt x.1.1) < 2 ^ 31.
Proof.
  intros Hx%list_elem_of_In. pose proof names_fit as H. rewrite forallb_forall in H. specialize (H x Hx). lia.
Qed.

(** A name that the table does not bind is found where it was before. *)
Lemma unbound_same g os ipc s s' nm fuel : wf s -> is_Some (heap s !! g) -> registered g os ipc s s' -> bound nm global_natives = None ->
  name_ok nm (zlen nm) -> (size (heap s) <= fuel)%nat -> (size (heap s') <= fuel)%nat ->
  env_get fuel (Some g) nm (zlen nm) s' = env_get fuel (Some g) nm (zlen nm) s.
Proof.
  intros Hs Hg [Hs' [Hos Hipc] Hrg _ _ Hrr] Hb Hn Hf Hf'. assert (is_Some (heap s' !! g)) as Hg'.
  { apply heap_abs. apply heap_abs in Hg as [[m par] Hm]. rewrite (Hrg m par Hm). by eexists. }
  rewrite !get_spec by (done || by intros ? [= <-]). do 2 f_equal. rewrite key_whole.
  destruct (chain_fuel s (Some g) fuel Hs) as (l & Hl & _ & Hk); [by intros ? [= <-]|done|].
  destruct (chain_fuel s' (Some g) fuel Hs') as (l' & _ & _ & Hk'); [by intros ? [= <-]|done|].
  rewrite <- Hk, <- Hk'. eapply nearest_agree_key; [done|]. intros p m par Hp Hm. destruct (decide (p = g)) as [->|Hne].
  - rewrite (Hrg m par Hm). exists (bind_table global_natives (m, par)).1. split; [|by rewrite bind_table_lookup, Hb].
    by rewrite (surjective_pairing (bind_table _ _)) at 1; rewrite bind_table_parent.
  - exists m. rewrite Hrr; [done|done|congruence|congruence].
Qed.

Lemma all_whole l x : forallb whole l = true -> x ∈ l -> whole x = true.
Proof. rewrite forallb_forall. intros H Hx%list_elem_of_In. by apply H. Qed.

(** C27: scripts find the functions of the kernel.  Registration in a well-formed
    environment, with new scopes from the heap, succeeds and adds the modules os and
    ipc to the cache.  Every name of the three tables is then bound to its function
    in its scope, and the modules see the global names they do not hide, with three
    exceptions: os_shell_suggestion, os_shell_completion_common and
    os_shell_print_completions are registered with a length that is too small,
    so that their functions are found under the beginning of the name of that length,
    and looking up the whole name finds what it found before registration. *)
Theorem sageos_natives_found g cache s : wf s -> is_Some (heap s !! g) -> (forall s, heap s !! alloc s = None) ->
  (fun x : entry => x.1.1) <$> filter (fun x => whole x = false) (global_natives ++ os_natives ++ ipc_natives) =
    ["os_shell_suggestion"; "os_shell_completion_common"; "os_shell_print_completions"] /\
  completes (register_sageos_natives val_native alloc (Some g) cache s) (fun '(cache', s') =>
    exists os ipc, wf s' /\ cache' = mk_module (txt "ipc") ipc :: mk_module (txt "os") os :: cache /\
    forall fuel, (size (heap s) <= fuel)%nat -> (size (heap s') <= fuel)%nat ->
      let get e (x : entry) s := env_get fuel (Some e) (txt x.1.1) (zlen (txt x.1.1)) s in
      (forall x, x ∈ global_natives -> get g x s' = if whole x then Ret (Some (val_native x.2)) else get g x s) /\
      (forall x, x ∈ global_natives -> env_get fuel (Some g) (key (txt x.1.1) x.1.2) x.1.2 s' = Ret (Some (val_native x.2))) /\
      (forall x, x ∈ os_natives -> get os x s' = Ret (Some (val_native x.2))) /\
      (forall x, x ∈ ipc_natives -> get ipc x s' = Ret (Some (val_native x.2))) /\
      (forall x, x ∈ global_natives -> bound (txt x.1.1) os_natives = None -> get os x s' = get g x s')).
Proof.
  intros Hs Hg Ha. pose proof tables_ok as Ht. apply andb_prop in Ht as [Ht Hti]. apply andb_prop in Ht as [Htg Hto].
  split; [exact not_whole|]. eapply completes_mono; [exact (register_spec g cache s Hs Hg Ha)|]. intros [cache' s'] (os & ipc & -> & Hr). exists os, ipc.
  pose proof Hr as [Hs' _ Hrg Hro Hri _]. split_and!; [done|done|]. intros fuel Hf Hf' get. pose proof (proj1 (heap_abs s g) Hg) as [[m par] Hm].
  split_and!.
  - intros x Hx. destruct (whole x) eqn:Hw; [exact (table_found global_natives g m par fuel s' x Htg Hx Hw Hs' (Hrg m par Hm) Hf')|].
    destruct (whole_name _ _ Htg Hx Hw (short_names x Hx)). eapply unbound_same; [exact Hs|exact Hg|exact Hr|done..].
  - intros x Hx. exact (keys_found g m par fuel s' x Hx Hs' (Hrg m par Hm) Hf').
  - intros x Hx. exact (table_found os_natives os ∅ (Some g) fuel s' x Hto Hx (all_whole _ _ (proj1 modules_whole) Hx) Hs' Hro Hf').
  - intros x Hx. exact (table_found ipc_natives ipc ∅ (Some g) fuel s' x Hti Hx (all_whole _ _ (proj2 modules_whole) Hx) Hs' Hri Hf').
  - intros x Hx Hb. unfold get. rewrite (surjective_pairing (bind_table _ _)), bind_table_parent in Hro. cbn [snd] in Hro.
    eapply get_outer; [done|exact Hro| | | |done].
    + by rewrite key_whole, bind_table_lookup, Hb.
    + intros q [= <-]. apply heap_abs. rewrite (Hrg m par Hm). by eexists.
    + destruct (table_entry _ x Htg Hx) as [Hn _]. eapply whole_ok, short_names; done.
Qed.
End found.

(** A global scope at address 1, and new scopes at any free address. *)
Definition one_scope : SageEnv.envs native := SageEnv.env_create 1 None SageEnv.envs_static.
Definition fresh_scope (s : SageEnv.envs native) : Z := fresh (dom (SageEnv.heap s) : gset Z).

Lemma fresh_scope_free s : SageEnv.heap s !! fresh_scope s = None.
Proof. apply not_elem_of_dom. exact (is_fresh (dom (SageEnv.heap s) : gset Z)). Qed.

Lemma sageos_natives_found_witness :
  completes (register_sageos_natives id fresh_scope (Some 1) [] one_scope) (fun '(cache', s') =>
    forall fuel, (1 <= fuel)%nat -> (size (SageEnv.heap s') <= fuel)%nat ->
      SageEnv.env_get fuel (Some 1) (txt "os_strlen") 9 s' = Ret (Some n_os_strlen)).
Proof.
  destruct (sageos_natives_found id fresh_scope 1 [] one_scope) as [_ H].
  - apply SageEnv.create_spec; [apply SageEnv.wf_static|done|done].
  - by eexists.
  - apply fresh_scope_free.
  - eapply completes_mono; [exact H|]. intros [cache' s'] (os & ipc & _ & _ & Hx) fuel Hf Hf'.
    destruct (Hx fuel) as [Hg _]; [exact Hf|exact Hf'|]. apply (Hg ("os_strlen", 9, n_os_strlen)). exact strlen_listed.
Defined.
End Bridge.
