(* ===== verification/BridgeRun.v ===== *)
(** * Running scripts in the kernel (core/sagelang/sageos_bridge.c)

    The runtime: initialisation of the interpreter, the lock that lets one thread
    interpret at a time, and scripts run from a file or a string.  Every routine
    here may give up the processor and is a [proc] over the state [rt]: scheduler,
    owner of the lock, files, environments, and what else the interpreter has.

    Parameters: the parser and the evaluator, which return or jump to the error
    handler; the standard library of the language; where the heap puts a new scope;
    whether it has room for a script, and what that room holds.  The lines these
    functions print are left out. *)

From Stdlib Require Import String Ascii.
From stdpp Require Import base tactics list numbers option gmap.
From S2P Require Import Prelude Digits CMem Proc Timer Alloc Caps Sched SchedSpec Vfs Libc Console LineEdit Shell ShellSpec Stdio SageEnv Bridge.

Module BridgeRun.
Import Timer Sched Console LineEdit Shell ShellSpec Bridge.
Local Open Scope string_scope.
Local Open Scope list_scope.
Local Open Scope Z_scope.

Record rt (V S I : Type) := mk_rt {
  r_k : kstate; g_gil_owner : option Z; r_fs : S;
  g_sage_env : option Z; g_sage_cache : list native_module; r_envs : SageEnv.envs V; r_interp : I }.
Arguments mk_rt {V S I}. Arguments r_k {V S I}. Arguments g_gil_owner {V S I}. Arguments r_fs {V S I}.
Arguments g_sage_env {V S I}. Arguments g_sage_cache {V S I}. Arguments r_envs {V S I}. Arguments r_interp {V S I}.

Section runtime.
Context {V S I stmt : Type} `{FileSystem S}.
Abbreviation st := (rt V S I).
Context (arch : timer_arch) (hw : nat -> hw_regs) (stack_bottom : Z).
Context (val_native : Fn.native -> V) (val_number : Z -> V) (alloc : SageEnv.envs V -> Z).
(** [init_stdlib] and [register_stdlib_modules]. *)
Context (stdlib : Z -> list native_module -> SageEnv.envs V -> outcome (list native_module * SageEnv.envs V)).
Context (init_lexer : list Z -> list Z -> I -> I) (parser_init : I -> I).
(** One program, a list of statements; [None] at the end of the text; [inl] when the
    error handler is reached. *)
Context (parse : I -> I + option (list stmt) * I) (interpret : list stmt -> st -> proc st bool).
(** Bounds: yields for the lock, steps of the scheduler, programs of a text. *)
Context (spins fuel programs : nat).

Definition set_k (k : kstate) (s : st) : st := mk_rt k (g_gil_owner s) (r_fs s) (g_sage_env s) (g_sage_cache s) (r_envs s) (r_interp s).
Definition set_owner (o : option Z) (s : st) : st := mk_rt (r_k s) o (r_fs s) (g_sage_env s) (g_sage_cache s) (r_envs s) (r_interp s).
Definition set_fs (f : S) (s : st) : st := mk_rt (r_k s) (g_gil_owner s) f (g_sage_env s) (g_sage_cache s) (r_envs s) (r_interp s).
Definition set_envs (e : option Z) (c : list native_module) (x : SageEnv.envs V) (s : st) : st :=
  mk_rt (r_k s) (g_gil_owner s) (r_fs s) e c x (r_interp s).
Definition set_interp (i : I) (s : st) : st := mk_rt (r_k s) (g_gil_owner s) (r_fs s) (g_sage_env s) (g_sage_cache s) (r_envs s) i.

(** ** The lock *)

Definition current (s : st) : proc st (option Z) :=
  plift ('(cur, k) ← sched_current_thread stack_bottom (r_k s); Ret (cur, set_k k s)).

Definition take_lock (s : st) : proc st unit := pbind (current s) (fun cur s1 => PDone tt (set_owner cur s1)).

Fixpoint acquire (n : nat) (s : st) : proc st unit :=
  match g_gil_owner s with
  | None => take_lock s
  | Some o =>
      pbind (current s) (fun cur s1 =>
        if bool_decide (cur = Some o) then take_lock s1
        else
          match n with
          | O => PFuel
          | Datatypes.S k => pbind (pzoom r_k set_k (sched_yield arch hw stack_bottom fuel (r_k s1)) s1) (fun _ s2 => acquire k s2)
          end)
  end.

Definition sage_gil_acquire : st -> proc st unit := acquire spins.

Definition sage_gil_release (s : st) : proc st unit :=
  pbind (current s) (fun cur s1 => PDone tt (if bool_decide (g_gil_owner s1 = cur) then set_owner None s1 else s1)).

(** [nanosleep] of libsage_port.c gives the lock away while it sleeps. *)
Definition nanosleep (sys_nanosleep : st -> proc st Z) (s : st) : proc st Z :=
  pbind (sage_gil_release s) (fun _ s1 => pbind (sys_nanosleep s1) (fun r s2 => pbind (sage_gil_acquire s2) (fun _ s3 => PDone r s3))).

(** ** Initialisation *)

Definition SAGE_ABI_MAJOR : Z := 0.
Definition SAGE_ABI_MINOR : Z := 4.

(** The environment of a new interpreter: global scope, standard library, functions
    of the kernel, versions. *)
Definition build_env (s : SageEnv.envs V) : outcome (Z * list native_module * SageEnv.envs V) :=
  let g := alloc s in
  let s1 := SageEnv.env_create g None s in
  '(cache, s2) ← stdlib g [] s1;
  '(cache1, s3) ← register_sageos_natives val_native alloc (Some g) cache s2;
  s4 ← SageEnv.env_define_const g (txt "SAGE_ABI_MAJOR") 14 (val_number SAGE_ABI_MAJOR) s3;
  s5 ← SageEnv.env_define_const g (txt "SAGE_ABI_MINOR") 14 (val_number SAGE_ABI_MINOR) s4;
  Ret (g, cache1, s5).

Definition sage_repl_init (s : st) : proc st unit :=
  pbind (sage_gil_acquire s) (fun _ s1 =>
    pbind (match g_sage_env s1 with
           | Some _ => PDone tt s1
           | None => plift ('(g, c, x) ← build_env (r_envs s1); Ret (tt, set_envs (Some g) c x s1))
           end) (fun _ s2 => sage_gil_release s2)).

Definition sage_runtime_init : st -> proc st unit := sage_repl_init.
Definition sage_import_module (name : list Z) : st -> proc st unit := sage_repl_init.

(** ** Scripts *)

(** The programs of a text, one after the other.  The result is whether the end was
    reached, and the statements that are freed. *)
Fixpoint run_programs (n : nat) (chain : list stmt) (s : st) : proc st (bool * list stmt) :=
  match parse (r_interp s) with
  | inl i => PDone (false, []) (set_interp i s)
  | inr (None, i) => PDone (true, chain) (set_interp i s)
  | inr (Some p, i) =>
      pbind (interpret p (set_interp i s)) (fun jumped s1 =>
        if (jumped : bool) then PDone (false, []) s1
        else match n with O => PFuel | Datatypes.S k => run_programs k (chain ++ p) s1 end)
  end.

Definition sage_execute_source (source : option (list Z)) (name : list Z) (s : st) : proc st unit :=
  match source with
  | None => PDone tt s
  | Some text =>
      pbind (sage_gil_acquire s) (fun _ s1 =>
        pbind (run_programs programs [] (set_interp (parser_init (init_lexer text name (r_interp s1))) s1)) (fun _ s2 =>
          sage_gil_release s2))
  end.

(** The string in [size + 1] bytes that held [junk], after [d] is stored at their
    start and a NUL at their end. *)
Fixpoint until_nul (l : list Z) : list Z := match l with [] => [] | c :: r => if c =? 0 then [] else c :: until_nul r end.
Definition script_text (junk d : list Z) (size : Z) : list Z := until_nul (take (Z.to_nat size) (d ++ drop (length d) junk)).

Definition sage_execute_file (mem : bool) (junk : list Z) (path : list Z) (s : st) : proc st Z :=
  pbind (plift ('(r, x, f) ← fs_stat path (r_fs s); Ret (r, x, set_fs f s))) (fun '(r, x) s1 =>
    if negb (r =? 0) then PDone (-1) s1
    else if negb (Vfs.st_type x =? Vfs.VFS_FILE) then PDone (-1) s1
    else if negb mem then PDone (-1) s1
    else
      pbind (plift ('(n, d, f) ← fs_read path 0 (Vfs.st_size x) (r_fs s1); Ret (n, d, set_fs f s1))) (fun '(n, d) s2 =>
        pbind (sage_execute_source (Some (script_text junk d (Vfs.st_size x))) path s2) (fun _ s3 => PDone 0 s3))).

(** [strstr(mod, needle) != NULL]. *)
Fixpoint has_sub (needle s : list Z) : bool :=
  bool_decide (take (length needle) s = needle) || match s with [] => false | _ :: r => has_sub needle r end.

Definition is_path (mod_ : list Z) : bool :=
  match mod_ with
  | [] => false
  | c :: _ => (c =? 47) || (c =? 46) || has_sub (txt ".sage") mod_
  end.

Definition sage_execute (mem : bool) (junk : list Z) (mod_ : list Z) (s : st) : proc st unit :=
  pbind (sage_repl_init s) (fun _ s1 =>
    match mod_ with
    | [] => PDone tt s1
    | _ =>
        if is_path mod_ then pbind (sage_execute_file mem junk mod_ s1) (fun _ s2 => PDone tt s2)
        else sage_execute_source (Some mod_) (txt "direct_code") s1
    end).

(** ** Mutual exclusion *)

(** A thread in [sage_gil_acquire]: at its start, or resumed after a yield. *)
Inductive in_acquire : st -> proc st unit -> Prop :=
  | acquire_starts n s : in_acquire s (acquire n s)
  | acquire_resumes s from to s1 k s' : in_acquire s (PSwitch from to s1 k) -> in_acquire s' (k s').

(** What a segment of [sage_gil_acquire] may do when the owner was [o]: give up the
    processor with the lock as it was, or end as the owner of a lock that was free or
    its own. *)
Fixpoint acquires (o : option Z) (m : proc st unit) : Prop :=
  match m with
  | PDone _ s => g_gil_owner s = g_current_task (r_k s) /\ (o = None \/ o = g_current_task (r_k s))
  | PSwitch _ _ s k => g_gil_owner s = o /\ forall s', acquires (g_gil_owner s') (k s')
  | PHalt _ | PFault | PFuel => True
  end.

Lemma current_inv s cur s1 : current s = PDone cur s1 -> cur = g_current_task (r_k s1) /\ g_gil_owner s1 = g_gil_owner s.
Proof.
  unfold current. intros E. destruct (sched_current_thread stack_bottom (r_k s)) as [[c k]| |] eqn:Ec; cbn in E; [|done..].
  injection E as <- <-. unfold sched_current_thread in Ec. apply bind_Ret_inv in Ec as (k' & _ & Ec). by injection Ec as <- <-.
Qed.

Lemma current_cases s : (exists cur s1, current s = PDone cur s1) \/ current s = PFault \/ current s = PFuel.
Proof. unfold current. destruct (_ ← _; _) as [[c s1]| |]; cbn; eauto. Qed.

Lemma take_lock_ok o s : (forall cur s1, current s = PDone cur s1 -> o = None \/ o = cur) -> acquires o (take_lock s).
Proof.
  intros Ho. unfold take_lock. destruct (current_cases s) as [(cur & s1 & E)|[E|E]]; rewrite E; cbn; [|done..].
  destruct (current_inv _ _ _ E) as [-> _]. split; [done|]. by apply (Ho _ s1).
Qed.

(** Yielding leaves the lock alone. *)
Lemma zoom_acquires (m : proc kstate unit) s f : (forall s2, g_gil_owner s2 = g_gil_owner s -> acquires (g_gil_owner s) (f tt s2)) ->
  (forall s2, acquires (g_gil_owner s2) (f tt s2)) -> acquires (g_gil_owner s) (pbind (pzoom r_k set_k m s) f).
Proof.
  revert s. induction m as [[] k|from to k resume IH|k| |]; intros s Hf Hg; cbn; [by apply Hf| |done..].
  split; [done|]. intros s'. apply IH; [|done]. intros s2 E. rewrite <- E. apply Hg.
Qed.

Lemma current_again s cur s1 : current s = PDone cur s1 -> current s1 = PDone cur s1.
Proof.
  unfold current. intros E. destruct (sched_current_thread stack_bottom (r_k s)) as [[c k]| |] eqn:Ec; cbn in E; [|done..].
  injection E as <- <-. unfold sched_current_thread in Ec. apply bind_Ret_inv in Ec as (k' & Ek & Ec). injection Ec as <- <-.
  assert (g_sched_inited k' <> 0) as Hi.
  { destruct (Z.eqb_spec (g_sched_inited (r_k s)) 0); [|congruence]. unfold sched_init in Ek. apply bind_Ret_inv in Ek as (x & _ & Ek). by injection Ek as <-. }
  unfold sched_current_thread. cbn [r_k set_k]. rewrite (proj2 (Z.eqb_neq _ _) Hi). done.
Qed.

Lemma acquire_acquires n s : acquires (g_gil_owner s) (acquire n s).
Proof.
  revert s. induction n as [|n IH]; intros s; cbn [acquire]; destruct (g_gil_owner s) as [o|] eqn:Eo; try (by apply take_lock_ok; left).
  all: destruct (current_cases s) as [(cur & s1 & E)|[E|E]]; rewrite E; cbn [pbind]; [|done..].
  all: case_bool_decide as Ec; [apply take_lock_ok; rewrite (current_again _ _ _ E); intros ?? [= <- <-]; by right|].
  { done. }
  destruct (current_inv _ _ _ E) as [_ Eo1]. rewrite <- Eo, <- Eo1. apply zoom_acquires; [|intros; apply IH].
  intros s2 <-. apply IH.
Qed.

Lemma in_acquire_acquires s m : in_acquire s m -> acquires (g_gil_owner s) m.
Proof. induction 1 as [n s|s from to s1 k s' _ IH]; [apply acquire_acquires|]. by destruct IH as [_ IH]. Qed.

(** Threads and the lock: the state, and the threads that have completed
    [sage_gil_acquire] since their last [sage_gil_release].  A thread may acquire the
    lock again while it has it, and release it while it has not. *)
Inductive lock_step : st * gset Z -> st * gset Z -> Prop :=
  | step_acquire s s1 t inside : in_acquire s (PDone tt s1) -> g_current_task (r_k s1) = Some t ->
      lock_step (s, inside) (s1, {[t]} ∪ inside)
  | step_wait s from to s1 k inside : in_acquire s (PSwitch from to s1 k) -> lock_step (s, inside) (s1, inside)
  | step_release s s1 t inside : sage_gil_release s = PDone tt s1 -> g_current_task (r_k s1) = Some t ->
      lock_step (s, inside) (s1, inside ∖ {[t]})
  | step_other s s1 inside : g_gil_owner s1 = g_gil_owner s -> lock_step (s, inside) (s1, inside).

Lemma release_inv s s1 : sage_gil_release s = PDone tt s1 ->
  g_gil_owner s1 = if bool_decide (g_gil_owner s = g_current_task (r_k s1)) then None else g_gil_owner s.
Proof.
  unfold sage_gil_release. destruct (current_cases s) as [(cur & s2 & E)|[E|E]]; rewrite E; cbn [pbind]; [|done..].
  destruct (current_inv _ _ _ E) as [-> Eo]. rewrite Eo.
  case_bool_decide as Hb; intros [= <-]; cbn [r_k set_owner g_gil_owner]; by rewrite ?bool_decide_true, ?bool_decide_false by done.
Qed.

Definition holders_own (c : st * gset Z) : Prop := forall t, t ∈ c.2 -> g_gil_owner c.1 = Some t.

Lemma lock_step_inv c c' : lock_step c c' -> holders_own c -> holders_own c'.
Proof.
  unfold holders_own. intros [s s1 t inside Ha Ht|s from to s1 k inside Ha|s s1 t inside Hr Ht|s s1 inside Ho] Hc u; cbn [fst snd] in *.
  - apply in_acquire_acquires in Ha. cbn in Ha. destruct Ha as [E1 E2]. rewrite E1, Ht in *. rewrite elem_of_union, elem_of_singleton.
    intros [->|Hu]; [done|]. specialize (Hc u Hu). destruct E2; congruence.
  - apply in_acquire_acquires in Ha as [-> _]. apply Hc.
  - rewrite elem_of_difference, elem_of_singleton. intros [Hu Hne]. pose proof (Hc u Hu) as Eu. apply release_inv in Hr.
    rewrite Hr, Ht, Eu, bool_decide_false by congruence. done.
  - rewrite Ho. apply Hc.
Qed.

(** C19: at most one thread has the lock.  Whatever threads do besides, in whatever
    order they acquire it, wait for it, acquire it again and release it, in every state
    they reach at most one thread has completed
    [sage_gil_acquire] since its last [sage_gil_release], and it is the recorded owner.
    The first release frees the lock, however often its owner has acquired it
    ([nested_release]). *)
Theorem gil_exclusion s c : rtc lock_step (s, ∅) c -> (forall t, t ∈ c.2 -> g_gil_owner c.1 = Some t) /\ forall t u, t ∈ c.2 -> u ∈ c.2 -> t = u.
Proof.
  intros Hr. assert (holders_own c) as Hc.
  { assert (holders_own (s, ∅)) as H0 by (intros t Ht; cbn in Ht; set_solver). revert H0. induction Hr as [|c1 c2 c3 H12 _ IH]; [done|].
    intros H1. by eapply IH, lock_step_inv. }
  split; [done|]. intros t u Ht Hu. apply Hc in Ht, Hu. congruence.
Qed.

(** ** The environment of scripts *)

(** What is relied on: the heap gives new addresses, and the standard library keeps
    the environments well formed and the global scope in place. *)
Hypothesis alloc_fresh : forall s, SageEnv.heap s !! alloc s = None.
Hypothesis stdlib_ok : forall g c s, SageEnv.wf s -> is_Some (SageEnv.heap s !! g) ->
  completes (stdlib g c s) (fun '(_, s') => SageEnv.wf s' /\ is_Some (SageEnv.heap s' !! g)).

(** Initialisation succeeds; scripts then find the two version numbers. *)
Lemma build_env_ok s : SageEnv.wf s ->
  completes (build_env s) (fun '(g, _, s') => SageEnv.wf s' /\ is_Some (SageEnv.heap s' !! g) /\
    forall n, (size (SageEnv.heap s') <= n)%nat ->
      SageEnv.env_get n (Some g) (txt "SAGE_ABI_MAJOR") 14 s' = Ret (Some (val_number SAGE_ABI_MAJOR)) /\
      SageEnv.env_get n (Some g) (txt "SAGE_ABI_MINOR") 14 s' = Ret (Some (val_number SAGE_ABI_MINOR))).
Proof.
  intros Hs. unfold build_env. set (g := alloc s). destruct (SageEnv.create_spec g None s Hs (alloc_fresh s)) as [Hs1 E1]; [done|].
  eapply completes_bind; [apply stdlib_ok; [done|apply heap_abs; rewrite E1, lookup_insert_eq; by eexists]|]. intros [c s2] [Hs2 Hg2].
  eapply completes_bind; [by apply register_spec|]. intros [c1 s3] (os & ipc & _ & Hr).
  assert (exists m par, SageEnv.abs s3 !! g = Some (m, par)) as (m & par & Hg3).
  { apply heap_abs in Hg2 as [[m par] Hm]. eexists _, _. rewrite (reg_global _ _ _ _ _ _ Hr m par Hm). apply f_equal, surjective_pairing. }
  assert (forall nm, nm = txt "SAGE_ABI_MAJOR" \/ nm = txt "SAGE_ABI_MINOR" -> SageEnv.name_ok nm 14) as Hn.
  { intros nm [->| ->]; unfold SageEnv.name_ok, zlen; cbn; lia. }
  eapply completes_bind; [apply SageEnv.define_const_spec; [apply Hr|apply heap_abs; rewrite Hg3; by eexists|auto]|]. intros s4 [Hs4 E4].
  assert (SageEnv.abs s4 !! g = Some (SageEnv.bind_in (SageEnv.key (txt "SAGE_ABI_MAJOR") 14) (val_number SAGE_ABI_MAJOR) (m, par))) as Hg4.
  { by rewrite E4, lookup_alter_eq, Hg3. }
  eapply completes_bind; [apply SageEnv.define_const_spec; [done|apply heap_abs; rewrite Hg4; by eexists|auto]|]. intros s5 [Hs5 E5].
  apply completes_Ret. assert (SageEnv.abs s5 !! g = Some (<[SageEnv.key (txt "SAGE_ABI_MINOR") 14 := val_number SAGE_ABI_MINOR]>
    (<[SageEnv.key (txt "SAGE_ABI_MAJOR") 14 := val_number SAGE_ABI_MAJOR]> m), par)) as Hg5 by (by rewrite E5, lookup_alter_eq, Hg4).
  split_and!; [done|apply heap_abs; rewrite Hg5; by eexists|]. intros n Hf.
  split; (eapply SageEnv.get_here; [done|exact Hg5| |by auto|done]).
  - rewrite lookup_insert_ne by (intros E; vm_compute in E; discriminate). apply lookup_insert_eq.
  - apply lookup_insert_eq.
Qed.

(** With the scheduler running, asking for the current thread changes nothing. *)
Lemma current_inited s : g_sched_inited (r_k s) <> 0 -> current s = PDone (g_current_task (r_k s)) s.
Proof. intros Hi. unfold current, sched_current_thread. rewrite (proj2 (Z.eqb_neq _ _) Hi). by destruct s. Qed.

Lemma acquire_free n s : g_gil_owner s = None -> g_sched_inited (r_k s) <> 0 -> acquire n s = PDone tt (set_owner (g_current_task (r_k s)) s).
Proof. intros Ho Hi. destruct n; cbn [acquire]; rewrite Ho; unfold take_lock; by rewrite current_inited. Qed.

Lemma release_own s : g_gil_owner s = g_current_task (r_k s) -> g_sched_inited (r_k s) <> 0 -> sage_gil_release s = PDone tt (set_owner None s).
Proof. intros Ho Hi. unfold sage_gil_release. rewrite current_inited by done. cbn [pbind]. by rewrite bool_decide_true. Qed.

Lemma acquire_own n s t : g_gil_owner s = Some t -> g_current_task (r_k s) = Some t -> g_sched_inited (r_k s) <> 0 -> acquire n s = PDone tt (set_owner (Some t) s).
Proof.
  intros Ho Ht Hi. destruct n; cbn [acquire]; rewrite Ho, current_inited by done; cbn [pbind]; rewrite bool_decide_true by done;
    unfold take_lock; rewrite current_inited by done; cbn [pbind]; by rewrite Ht.
Qed.

(** Acquisitions are not counted: when the owner acquires the lock once more and
    releases it, nobody has it. *)
Lemma nested_release s t : g_gil_owner s = Some t -> g_current_task (r_k s) = Some t -> g_sched_inited (r_k s) <> 0 ->
  pbind (sage_gil_acquire s) (fun _ s1 => sage_gil_release s1) = PDone tt (set_owner None (set_owner (Some t) s)).
Proof. intros Ho Ht Hi. unfold sage_gil_acquire. rewrite (acquire_own _ _ _ Ho Ht Hi). cbn [pbind]. by apply release_own. Qed.

(** A second initialisation changes nothing. *)
Lemma build_once s e : g_sage_env s = Some e -> g_gil_owner s = None -> g_sched_inited (r_k s) <> 0 ->
  sage_repl_init s = PDone tt s.
Proof.
  intros He Ho Hi. unfold sage_repl_init, sage_gil_acquire. rewrite acquire_free by done. cbn [pbind set_owner g_sage_env]. rewrite He. cbn [pbind].
  rewrite release_own by done. destruct s; cbn in *; by subst.
Qed.

(** ** Scripts from files *)

Lemma until_nul_id l : Forall (fun c => c <> 0) l -> until_nul l = l.
Proof. induction 1 as [|c l Hc _ IH]; [done|]. cbn. by rewrite (proj2 (Z.eqb_neq c 0) Hc), IH. Qed.

End runtime.

(** Running a file is running its text: with a file of this size and no NUL in it,
    [sage_execute_file] executes exactly its contents under its name and returns 0,
    whatever the memory held before. *)
Lemma execute_file_runs {V S I stmt : Type} `{FileSystem S} arch hw stack_bottom (init_lexer : list Z -> list Z -> I -> I) parser_init
    (parse : I -> I + option (list stmt) * I) interpret spins fuel programs junk p c (J : S -> Prop) (s : rt V S I) :
  reads J p c -> stats J p c -> J (r_fs s) -> Forall (fun x => x <> 0) c ->
  exists f, J f /\
    sage_execute_file arch hw stack_bottom init_lexer parser_init parse interpret spins fuel programs true junk p s =
    pbind (sage_execute_source arch hw stack_bottom init_lexer parser_init parse interpret spins fuel programs (Some c) p (set_fs f s)) (fun _ s' => PDone 0 s').
Proof.
  intros Hrd Hst Hj Hn. destruct (Hst (r_fs s) Hj) as ([[r x] f1] & E & Hr & Hty & Hz & H1). cbn [fst snd] in *. subst r.
  destruct (Hrd f1 0 (zlen c) H1) as ([[n d] f2] & E2 & Hd & H2); [lia|apply zlen_nonneg|]. cbn [fst snd] in *.
  exists f2. split; [done|]. unfold sage_execute_file. rewrite E. cbn [mbind outcome_bind plift pbind fst snd].
  change (0 =? 0) with true. cbn [negb]. rewrite Hty, Z.eqb_refl, Hz. cbn [negb r_fs set_fs]. rewrite E2. cbn [mbind outcome_bind plift pbind].
  assert (take (Z.to_nat (zlen c)) (drop (Z.to_nat 0) c) = c) as Ec by (rewrite drop_0, take_ge; [done|unfold zlen; lia]).
  rewrite Ec in Hd. injection Hd as -> ->.
  assert (script_text junk c (zlen c) = c) as ->; [|done]. unfold script_text, zlen. rewrite Nat2Z.id, take_app_length. by apply until_nul_id.
Qed.

(** ** Example *)

(** Two threads, the first running, and the lock free.  The first acquires the lock
    twice. *)
Definition two_rt : rt Fn.native store unit := mk_rt SchedSpec.two_threads None ∅ None [] SageEnv.envs_static tt.

Lemma gil_exclusion_witness :
  let c := (set_owner (Some 0) (set_owner (Some 0) two_rt), {[0]} ∪ ({[0]} ∪ ∅) : gset Z) in
  (forall t, t ∈ c.2 -> g_gil_owner c.1 = Some t) /\ forall t u, t ∈ c.2 -> u ∈ c.2 -> t = u.
Proof.
  apply (gil_exclusion TIMER_ARCH_RV64 (fun _ => mk_hw 0 0 0) 0 1 two_rt).
  apply (rtc_l _ _ (set_owner (Some 0) two_rt, {[0]} ∪ ∅)); [|eapply rtc_l; [|apply rtc_refl]].
  - apply step_acquire; [|reflexivity].
    pose proof (acquire_starts TIMER_ARCH_RV64 (fun _ => mk_hw 0 0 0) 0 1 1 two_rt) as H. rewrite acquire_free in H by done. exact H.
  - apply step_acquire; [|reflexivity].
    pose proof (acquire_starts TIMER_ARCH_RV64 (fun _ => mk_hw 0 0 0) 0 1 1 (set_owner (Some 0) two_rt)) as H. rewrite (acquire_own _ _ _ _ _ _ 0) in H by done. exact H.
Defined.
End BridgeRun.
