(* ===== verification/BridgeTasks.v ===== *)
(** * Functions for scripts (core/sagelang/sageos_bridge.c)

    The functions of the bridge that do more than pass a call on: line input, the
    string functions, and [os_spawn_task], which starts a thread that runs another
    script with the capabilities of its parent.

    The number of a value is a double; conversions of doubles that are out of range
    are the parameter [int_of] of Float64.  [as_number] of a value that is not a
    number reads whatever bytes the value has there. *)

From Stdlib Require Import String Ascii.
From stdpp Require Import base tactics list numbers option gmap.
From S2P Require Import Prelude Digits CMem Proc Telemetry Timer Alloc Caps Sched SchedSpec Ipc Float64 Vfs Libc Console LineEdit Syscall.

Module BridgeTasks.
Import Float64 Timer Alloc Caps Sched SchedSpec Ipc Console LineEdit.
Local Open Scope string_scope.
Local Open Scope list_scope.
Local Open Scope Z_scope.

Inductive value := VNil | VNumber (bits : Z) | VString (s : list Z) | VOther (raw : Z).

Definition val_number (n : Z) : value := VNumber (d_of_int n).
Definition is_string (v : value) : bool := match v with VString _ => true | _ => false end.

Section strings.
Context (int_of : Z -> Z) (nil_bits : Z) (raw : list Z -> Z).

Definition as_number (v : value) : Z := match v with VNumber b => b | VString s => raw s | VOther r => r | VNil => nil_bits end.
Definition as_int (v : value) : Z := d_int int_of (as_number v).

Definition n_os_strlen (args : list value) : value :=
  match args with VString s :: _ => val_number (zlen s) | _ => val_number 0 end.

Definition n_os_char_at (args : list value) : outcome value :=
  match args with
  | VString s :: v :: _ =>
      let idx := as_int v in
      if (idx <? 0) || (zlen s <=? idx) then Ret (val_number (-1)) else c ← rd s idx; Ret (val_number (u8 c))
  | _ => Ret (val_number (-1))
  end.

Definition n_os_substr (args : list value) : value :=
  match args with
  | VString s :: a :: b :: _ =>
      let from := Z.max (as_int a) 0 in
      let to := Z.min (as_int b) (zlen s) in
      if to <=? from then VString [] else VString (take (Z.to_nat (to - from)) (drop (Z.to_nat from) s))
  | _ => VString []
  end.

(** The C string of one character: empty for the character 0. *)
Definition n_os_chr (args : list value) : value :=
  match args with
  | [] => VString []
  | v :: _ => let c := u8 (as_int v) in VString (if c =? 0 then [] else [c])
  end.
End strings.

(** ** Line input *)

(** One key: the line so far, and whether it is complete. *)
Definition read_line_key (code : Z) (line : list Z) : list Z * list Z * bool :=
  if (code =? 10) || (code =? 13) then (line, console_putc 10, true)
  else if (code =? 8) || (code =? 127) then
    match line with [] => (line, [], false) | _ => (removelast line, console_write [8; 32; 8], false) end
  else if (32 <=? code) && (code <=? 126) && (zlen line <? 255) then (line ++ [code], console_putc code, false)
  else (line, [], false).

(** The buffer has 256 bytes and a NUL is stored after the line.  The results are
    the line, what is printed, and the input left; [None] while it waits. *)
Fixpoint read_line_loop (n : nat) (input : list Z) (k : keyboard) (line out : list Z) :
  outcome (option (list Z * list Z * list Z) * keyboard) :=
  match n with
  | O => OutOfFuel
  | S m =>
      match keyboard_wait_event false input k with
      | (Waiting, k1) => Ret (None, k1)
      | (Returned r rest, k1) =>
          if r =? 0 then read_line_loop m rest k1 line out
          else if pressed (ev k1) =? 0 then read_line_loop m rest k1 line out
          else
            let code := key_event_code (ev k1) in
            if code <? 0 then read_line_loop m rest k1 line out
            else
              let '(line1, o, complete) := read_line_key code line in
              if complete then (if zlen line1 <? 256 then Ret (Some (line1, out ++ o, rest), k1) else Fault)
              else read_line_loop m rest k1 line1 (out ++ o)
      end
  end.

Definition n_read_line (input : list Z) (k : keyboard) : outcome (option (list Z * list Z * list Z) * keyboard) :=
  read_line_loop (S (length input)) input k [] [].

(** What the keys typed before Enter leave: printable characters, up to 255 of them,
    with Backspace and DEL taking the last one away. *)
Definition edit (line : list Z) (k : key) : list Z :=
  match k with
  | Char c =>
      if (c =? 8) || (c =? 127) then removelast line
      else if (32 <=? c) && (c <=? 126) && (zlen line <? 255) then line ++ [c] else line
  | _ => line
  end.

Definition is_enter (k : key) : Prop := k = Char 10 \/ k = Char 13.

Lemma removelast_zlen (l : list Z) : zlen (removelast l) <= zlen l.
Proof. rewrite removelast_firstn_len. unfold zlen. rewrite length_take. lia. Qed.

Lemma edit_short line k : zlen line <= 255 -> zlen (edit line k) <= 255.
Proof.
  intros Hl. destruct k; cbn; try done. pose proof (removelast_zlen line). repeat case_match; try lia.
  rewrite zlen_app. unfold zlen in *. cbn. lia.
Qed.

Lemma read_line_key_edit k line : key_ok k -> ~ is_enter k ->
  exists o, read_line_key (code_of k) line = (edit line k, o, false).
Proof.
  intros Hk He. unfold read_line_key. destruct k as [c| | | | | | |]; try (eexists; reflexivity). cbn [code_of edit].
  destruct (Z.eqb_spec c 10) as [->|]; [by destruct He; left|]. destruct (Z.eqb_spec c 13) as [->|]; [by destruct He; right|]. cbn [orb].
  destruct ((c =? 8) || (c =? 127)); [destruct line; by eexists|]. destruct (_ && _ && _); by eexists.
Qed.

(** One key of the loop. *)
Lemma read_line_step n k rest s line out : key_ok k -> g_esc_state s = 0 ->
  read_line_loop (S n) (sequence k ++ rest) s line out =
  let '(line1, o, complete) := read_line_key (code_of k) line in
  if complete then (if zlen line1 <? 256 then Ret (Some (line1, out ++ o, rest), MkKeyboard 0 (event_of k)) else Fault)
  else read_line_loop n rest (MkKeyboard 0 (event_of k)) line1 (out ++ o).
Proof.
  intros Hk Hs. cbn [read_line_loop keyboard_wait_event]. rewrite (wait_key k rest s Hk Hs). destruct (key_code k Hk) as [Ec Hc].
  cbn [Z.eqb ev]. assert (pressed (event_of k) = 1) as -> by (by destruct k). cbn [Z.eqb Pos.eqb].
  by rewrite Ec, (proj2 (Z.ltb_ge _ _)) by done.
Qed.

(** [read_line] returns what was typed: after any keys other than Enter, and Enter,
    the line they leave, without reading further. *)
Lemma read_line_spec ks enter rest s : Forall (fun k => key_ok k /\ ~ is_enter k) ks -> is_enter enter -> g_esc_state s = 0 ->
  completes (n_read_line (concat (map sequence ks) ++ sequence enter ++ rest) s) (fun r =>
    exists out, r.1 = Some (foldl edit [] ks, out, rest) /\ zlen (foldl edit [] ks) <= 255 /\ g_esc_state r.2 = 0).
Proof.
  intros Hks He Hs. unfold n_read_line. set (n := S (length _)).
  assert (length ks < n)%nat as Hn.
  { unfold n. rewrite !length_app. assert (length ks <= length (concat (map sequence ks)))%nat; [|lia]. clear. induction ks as [|k ks IH]; [done|].
    cbn [map concat length]. rewrite length_app. assert (1 <= length (sequence k))%nat by (destruct k; cbn; lia). lia. }
  clearbody n. assert (forall line out, zlen line <= 255 -> completes (read_line_loop n (concat (map sequence ks) ++ sequence enter ++ rest) s line out)
    (fun r => exists out, r.1 = Some (foldl edit line ks, out, rest) /\ zlen (foldl edit line ks) <= 255 /\ g_esc_state r.2 = 0)) as H; [|by apply H].
  revert s Hs n Hn. induction Hks as [|k ks [Hk Hne] Hks IH]; intros s Hs n Hn line out Hl; (destruct n as [|n]; [cbn in Hn; lia|]).
  - cbn [map concat app foldl]. assert (key_ok enter) as Hok by (destruct He as [->| ->]; cbn; lia). rewrite (read_line_step n enter rest s line out Hok Hs).
    destruct He as [->| ->]; cbn [code_of read_line_key Z.eqb Pos.eqb orb]; rewrite (proj2 (Z.ltb_lt _ _)) by lia; apply completes_Ret; by eexists.
  - cbn [map concat foldl]. rewrite <- app_assoc, (read_line_step n k _ s line out Hk Hs). destruct (read_line_key_edit k line Hk Hne) as (o & ->).
    apply IH; [done|cbn in Hn; lia|by apply edit_short].
Qed.

(** ** Tasks *)

Lemma find_state_fields n i st ts j : find_state n i st ts = Ret (Some j) -> exists t, ts.[j] = Some t /\ state t = st.
Proof.
  revert i. induction n as [|n IH]; intros i E; [discriminate|]. cbn in E. apply bind_Ret_inv in E as (t & Et & E).
  case_bool_decide as Hs; [|by apply IH in E]. injection E as <-. exists t. split; [|done]. unfold rd in Et. destruct (ts.[i]); [by injection Et as ->|discriminate].
Qed.

Section tasks.
Context (arch : timer_arch) (hw : nat -> hw_regs) (heap_base stack_bottom sched_trampoline sage_task_entry : Z).

Definition with_permissions (x : Z) (t : thread) : thread :=
  mk_thread (id t) (state t) (priority t) (acct t) (stack_base t) (stack_top t) (rsp t) (next t) (prev t) (entry t) (arg t) (name t)
    (fd_table t) (heap_end t) (heap_start t) (heap_limit t) (parent t) (cwd t) (elf_base t) (elf_size t) (saved_elf_data t)
    (exit_code t) x (language_state t).

Definition store_string (a : Z) (l : list Z) (h : heap) : outcome heap :=
  if mapped heap_base a (zlen l + 1) then Ret (with_mem (Syscall.store_bytes (h_mem h) a (l ++ [0])) h) else Fault.

Definition on_heap (f : heap -> outcome heap) (s : istate) : outcome istate :=
  h ← f (k_heap (i_k s)); Ret (with_i_k (with_k_heap h (i_k s)) s).

Definition n_os_spawn_task (args : list value) (s : istate) : outcome (value * istate) :=
  match args with
  | VString nm :: VString script_path :: _ =>
      '(path_copy, k0) ← k_malloc heap_base stack_bottom (zlen script_path + 1) (i_k s);
      let s1 := with_i_k k0 s in
      if path_copy =? 0 then Ret (val_number (-2), s1)
      else
        s2 ← on_heap (store_string path_copy script_path) s1;
        '(t, k) ← sched_create_thread arch heap_base stack_bottom sched_trampoline nm sage_task_entry path_copy THREAD_PRIORITY_NORMAL (i_k s2);
        let s3 := with_i_k k s2 in
        match t with
        | None =>
            e1 ← k_env (i_k s3);
            s4 ← on_heap (sage_free heap_base e1 path_copy) s3; Ret (val_number (-3), s4)
        | Some i =>
            th ← rd (g_tasks (i_k s3)) i;
            let th1 := with_permissions (Z.lor (permissions th) Syscall.PERM_VFS_CAP_ONLY) th in
            ts ← wr (g_tasks (i_k s3)) i th1;
            let s4 := with_i_k (with_g_tasks ts (i_k s3)) s3 in
            '(parent, s5) ← current_task stack_bottom s4;
            s6 ← match parent with None => Ret s5 | Some p => inherit_caps i p s5 end;
            Ret (val_number (id th1), s6)
        end
  | _ => Ret (val_number (-1), s)
  end.

(** What a successful creation leaves. *)
Lemma create_thread_fields nm ent a prio k k' i : g_sched_inited k <> 0 ->
  sched_create_thread arch heap_base stack_bottom sched_trampoline nm ent a prio k = Ret (Some i, k') ->
  exists th, (g_tasks k').[i] = Some th /\ id th = g_next_pid k /\ state th = THREAD_STATE_READY /\ permissions th = 0 /\
    (forall j, j <> i -> (g_tasks k').[j] = (g_tasks k).[j]) /\ g_current_task k' = g_current_task k /\ g_sched_inited k' = g_sched_inited k /\
    sched_ipc_init_thread (g_next_pid k) (g_thread_ipc_ext k) = Ret (g_thread_ipc_ext k') /\ zlen (g_tasks k') = zlen (g_tasks k) /\
    exists t0, (g_tasks k).[i] = Some t0 /\ state t0 = THREAD_STATE_UNUSED.
Proof.
  intros Hi E. apply create_thread_inv in E as (t0 & exts & base & h & Ht & Hu & Hx & ->); [|done].
  eexists. cbn. split; [by apply zget_zset_eq; eapply zget_Some_bound|].
  split_and!; try done; [by intros ??; apply zget_zset_ne|by rewrite zlen_zset|by exists t0].
Qed.

(** Preparing the copy of the path touches only the heap. *)
Lemma on_heap_inv f (s s' : istate) : on_heap f s = Ret s' -> exists h, s' = with_i_k (with_k_heap h (i_k s)) s.
Proof. unfold on_heap. intros E. apply bind_Ret_inv in E as (h & _ & E). injection E as <-. by exists h. Qed.

(** The copied table. *)
Lemma inherit_inv i c s s' t p tab : exts_ok (g_thread_ipc_ext (i_k s)) -> (g_tasks (i_k s)).[i] = Some t -> (g_tasks (i_k s)).[c] = Some p ->
  task_ipc_cap_table (id p) (g_thread_ipc_ext (i_k s)) = Ret tab -> inherit_caps i c s = Ret s' ->
  g_tasks (i_k s') = g_tasks (i_k s) /\ task_ipc_cap_table (id t) (g_thread_ipc_ext (i_k s')) = Ret tab /\
  task_ipc_cap_table (id p) (g_thread_ipc_ext (i_k s')) = Ret tab.
Proof.
  intros Hx Ht Hp Htab E. unfold inherit_caps, get_cap_table, put_cap_table, task_id in E. rewrite (rd_some _ _ _ Hp), (rd_some _ _ _ Ht) in E.
  cbn [mbind outcome_bind] in E. rewrite Htab in E. cbn [mbind outcome_bind] in E.
  assert (table_ok tab) as Hok. { destruct (task_ipc_cap_table_ok (id p) _ Hx) as (tab' & E' & H'). rewrite Htab in E'. by injection E' as <-. }
  destruct (set_cap_table_ok (id t) tab _ Hx Hok) as (exts & E' & _ & H1 & H2). rewrite E' in E. cbn [mbind outcome_bind] in E. injection E as <-.
  cbn [i_k with_i_k with_g_thread_ipc_ext g_tasks g_thread_ipc_ext]. split_and!; [done|done|].
  destruct (decide (ext_index (id p) = ext_index (id t))) as [Ei|Hne]; [|by rewrite H2]. unfold task_ipc_cap_table in *. by rewrite Ei.
Qed.

(** The new entry is not the one of another id. *)
Lemma init_other pid id' exts exts' : exts_ok exts -> sched_ipc_init_thread pid exts = Ret exts' ->
  exts_ok exts' /\ (ext_index id' <> ext_index pid -> task_ipc_cap_table id' exts' = task_ipc_cap_table id' exts).
Proof.
  intros Hx E. destruct (sched_ipc_init_thread_ok pid exts Hx) as (x & E' & Hx' & _). rewrite E in E'. injection E' as <-. split; [done|].
  intros Hne. unfold sched_ipc_init_thread in E. pose proof (ext_index_range pid). destruct Hx as [Hl _].
  rewrite wr_in_range in E by lia. injection E as <-. unfold task_ipc_cap_table, rd. by rewrite zget_zset_ne.
Qed.

(** A started task is confined: whenever [os_spawn_task] creates a thread, the new
    thread can use files only through capabilities, and it has exactly those of its
    parent, who keeps them; no other thread changes.  The ids of parent and child
    must not share an entry of the table of 64. *)
Lemma spawn_confined nm script_path s c p tab v s' :
  sched_ok (i_k s) c -> (g_tasks (i_k s)).[c] = Some p -> state p = THREAD_STATE_RUNNING ->
  task_ipc_cap_table (id p) (g_thread_ipc_ext (i_k s)) = Ret tab -> ext_index (id p) <> ext_index (g_next_pid (i_k s)) ->
  n_os_spawn_task [VString nm; VString script_path] s = Ret (v, s') ->
  g_tasks (i_k s') = g_tasks (i_k s) \/
  exists i t, v = val_number (id t) /\ (g_tasks (i_k s')).[i] = Some t /\ Syscall.has_flag (permissions t) Syscall.PERM_VFS_CAP_ONLY = true /\
    task_ipc_cap_table (id t) (g_thread_ipc_ext (i_k s')) = Ret tab /\ task_ipc_cap_table (id p) (g_thread_ipc_ext (i_k s')) = Ret tab /\
    forall j, j <> i -> (g_tasks (i_k s')).[j] = (g_tasks (i_k s)).[j].
Proof.
  intros Hok Hp Hrun Htab Hidx E. assert (g_sched_inited (i_k s) <> 0) as Hin by (by rewrite (ok_inited _ _ Hok)).
  unfold n_os_spawn_task in E. apply bind_Ret_inv in E as ([a k0] & E0 & E). apply k_malloc_inv in E0 as (e & h & _ & ->); [|done].
  destruct (a =? 0); [injection E as <- <-; by left|]. apply bind_Ret_inv in E as (s2 & E2 & E). apply on_heap_inv in E2 as (h2 & ->).
  apply bind_Ret_inv in E as ([[i|] k] & Ec & E).
  2:{ apply create_thread_none in Ec as ->. apply bind_Ret_inv in E as (e1 & _ & E). apply bind_Ret_inv in E as (s4 & E4 & E). injection E as <- <-.
      apply on_heap_inv in E4 as (h4 & ->). by left. }
  right. apply create_thread_fields in Ec as (th & Hth & Hid & _ & Hperm & Hrest & Hcur & Hini & Hx & _ & t0 & Ht0 & Hu); [|done].
  cbn [i_k with_i_k with_k_heap g_tasks g_next_pid g_thread_ipc_ext g_current_task g_sched_inited] in *. rewrite (rd_some _ _ _ Hth) in E. cbn [mbind outcome_bind] in E.
  assert (i <> c) as Hic by (intros ->; congruence). destruct Hok as [_ Hcur0 _ Hin0 _ Hexts]. destruct (init_other _ (id p) _ _ Hexts Hx) as [Hx' Hother].
  rewrite wr_in_range in E by (by eapply zget_Some_bound). cbn [mbind outcome_bind] in E. set (th1 := with_permissions _ th) in E.
  apply bind_Ret_inv in E as ([par s5] & E5 & E). unfold current_task, on_k, sched_current_thread in E5.
  cbn [i_k with_i_k with_g_tasks g_sched_inited g_current_task] in E5. rewrite Hini, Hin0 in E5. cbn in E5. injection E5 as <- <-. rewrite Hcur, Hcur0 in E.
  apply bind_Ret_inv in E as (s6 & E6 & E). injection E as <- <-. exists i, th1.
  apply (inherit_inv i c _ _ th1 p tab) in E6 as (Et & H1 & H2); cbn [i_k with_i_k with_g_tasks g_tasks g_thread_ipc_ext].
  - split_and!; [done|rewrite Et; by apply zget_zset_eq; eapply zget_Some_bound| |done|done|].
    + cbn. by rewrite Hperm.
    + intros j Hj. rewrite Et. cbn. rewrite zget_zset_ne by done. by apply Hrest.
  - done.
  - by apply zget_zset_eq; eapply zget_Some_bound.
  - rewrite zget_zset_ne by done. by rewrite Hrest.
  - by rewrite Hother.
Qed.
End tasks.
End BridgeTasks.
