(* ===== verification/IpcUser.v ===== *)
(** * The IPC library of programs (core/ipc_user.c)

    Wrappers that put their arguments into registers and make a system call.  They
    are modelled over any kernel entry [syscall6]; the lemmas take the dispatcher of
    Ipc for it and say which kernel operation each wrapper performs. *)

From stdpp Require Import base tactics list numbers gmap.
From S2P Require Import Prelude CMem Proc Timer Alloc Caps Sched Ipc.

Module IpcUser.
Import Timer Alloc Caps Sched Ipc.
Local Open Scope Z_scope.

(** [ipc_message_t]: pointers are addresses. *)
Record ipc_message := mk_message { m_type : Z; m_flags : Z; m_data : Z; m_len : Z; m_caps : Z; m_cap_count : Z }.

Section library.
Context {S O : Type} (syscall6 : Z -> Z -> Z -> Z -> Z -> Z -> Z -> S -> proc S (Z * O)).

Definition sys_ipc (num a1 a2 a3 a4 a5 : Z) (s : S) : proc S (Z * O) := syscall6 num a1 a2 a3 a4 a5 0 s.

(** [return (int)r]. *)
Definition as_int (m : proc S (Z * O)) : proc S (Z * O) := pbind m (fun '(r, o) s => PDone (s32 r, o) s).

Definition ipc_channel_create (local peer : Z) (s : S) := as_int (sys_ipc 210 local peer 0 0 0 s).
Definition ipc_channel_destroy (handle : Z) (s : S) := as_int (sys_ipc 214 handle 0 0 0 0 s).

(** The header that is filled in is not passed on. *)
Definition ipc_send (handle : Z) (msg : ipc_message) (s : S) :=
  as_int (sys_ipc 220 handle (m_data msg) (m_len msg) (m_flags msg) 0 s).
Definition ipc_recv (handle msg max_len : Z) (s : S) := as_int (sys_ipc 221 handle msg 0 0 0 s).
Definition ipc_call (handle req resp max_resp_len timeout_ms : Z) (s : S) := as_int (sys_ipc 222 handle req resp timeout_ms 0 s).

Definition ipc_port_open (port backlog : Z) (s : S) := as_int (sys_ipc 212 backlog port 0 0 0 s).
Definition ipc_port_accept (port channel flags : Z) (s : S) := as_int (sys_ipc 224 port channel flags 0 0 s).
Definition ipc_connect (service_name channel flags : Z) (s : S) := as_int (sys_ipc 225 service_name channel flags 0 0 s).

Definition ipc_service_register (name handle : Z) (s : S) := as_int (sys_ipc 230 name handle 0 0 0 s).
Definition ipc_service_lookup (name handle : Z) (s : S) := as_int (sys_ipc 231 name handle 0 0 0 s).
Definition ipc_service_unregister (name : Z) (s : S) := as_int (sys_ipc 232 name 0 0 0 0 s).

Definition ipc_shm_create (size flags handle : Z) (s : S) := as_int (sys_ipc 213 size flags handle 0 0 s).
Definition ipc_shm_map (handle vaddr prot : Z) (s : S) := as_int (sys_ipc 226 handle vaddr prot 0 0 s).
Definition ipc_shm_unmap (handle : Z) (s : S) := as_int (sys_ipc 227 handle 0 0 0 0 s).
Definition ipc_shm_grant (handle target_task rights derived : Z) (s : S) := as_int (sys_ipc 228 handle target_task rights derived 0 s).

Definition ipc_cap_dup (handle rights new_handle : Z) (s : S) := as_int (sys_ipc 203 handle rights new_handle 0 0 s).
Definition ipc_cap_narrow (handle new_rights : Z) (s : S) := as_int (sys_ipc 201 handle new_rights 0 0 0 s).
Definition ipc_cap_revoke (handle : Z) (s : S) := as_int (sys_ipc 202 handle 0 0 0 0 s).

Definition ipc_pause (handle : Z) (s : S) := as_int (sys_ipc 240 handle 0 0 0 0 s).
Definition ipc_resume (handle : Z) (s : S) := as_int (sys_ipc 241 handle 0 0 0 0 s).
Definition ipc_drain (handle timeout_ms : Z) (s : S) := as_int (sys_ipc 242 handle timeout_ms 0 0 0 s).

Definition ipc_info (handle buf buf_len : Z) (s : S) := as_int (sys_ipc 243 handle buf buf_len 0 0 s).
Definition ipc_stats (handle stats count : Z) (s : S) := as_int (sys_ipc 244 handle stats count 0 0 s).
End library.

Section kernel.
Context (arch : timer_arch) (hw : nat -> hw_regs) (heap_base stack_bottom : Z) (n fuel : nat) (msg_at : Z -> ipc_msg) (str_at : Z -> list Z).

(** The kernel entry for IPC calls. *)
Definition kernel6 (num a1 a2 a3 a4 a5 a6 : Z) : istate -> proc istate (Z * ipc_out) :=
  ipc_syscall_dispatch arch hw heap_base stack_bottom n fuel msg_at str_at num a1 a2 a3.

(** Handles are 32 bits wide. *)
Lemma wrappers_reach h r s : 0 <= h < 2 ^ 32 -> 0 <= r < 2 ^ 32 ->
  ipc_cap_narrow kernel6 h r s = as_int (ret_only (sys_ipc_cap_narrow stack_bottom h r s)) /\
  ipc_cap_revoke kernel6 h s = as_int (ret_only (sys_ipc_cap_revoke heap_base stack_bottom h s)) /\
  ipc_channel_destroy kernel6 h s = as_int (ret_only (sys_ipc_object_destroy heap_base stack_bottom h s)) /\
  (forall name, ipc_service_register kernel6 name h s = as_int (ret_only (sys_ipc_ns_register stack_bottom (str_at name) h s))) /\
  (forall name out, ipc_service_lookup kernel6 name out s = as_int (ret_handle (sys_ipc_ns_lookup stack_bottom (str_at name) s))) /\
  (forall port, ipc_port_open kernel6 port r s = as_int (ret_handle (sys_ipc_port_create stack_bottom r s))).
Proof.
  intros Hh Hr. unfold ipc_cap_narrow, ipc_cap_revoke, ipc_channel_destroy, ipc_service_register, ipc_service_lookup, ipc_port_open, sys_ipc, kernel6, ipc_syscall_dispatch.
  cbn [Z.eqb Pos.eqb]. assert (u32 h = h) as -> by (apply Z.mod_small; lia). assert (u32 r = r) as -> by (apply Z.mod_small; lia). done.
Qed.

(** A message that [ipc_send] sends is whatever lies at its data: the type, the flags
    and the capabilities it was given have no effect, and the length arrives as
    flags. *)
Lemma send_drops_header h t f d l c k s : 0 <= h < 2 ^ 32 -> 0 <= l < 2 ^ 32 ->
  ipc_send kernel6 h (mk_message t f d l c k) s = as_int (ret_only (sys_ipc_send stack_bottom h (msg_at d) l s)).
Proof.
  intros Hh Hl. unfold ipc_send, sys_ipc, kernel6, ipc_syscall_dispatch. cbn [Z.eqb Pos.eqb m_data m_len].
  assert (u32 h = h) as -> by (apply Z.mod_small; lia). assert (u32 l = l) as -> by (apply Z.mod_small; lia). done.
Qed.

(** Eight of the calls do not exist in the kernel. *)
Lemma missing_calls s : exists m, m = PDone (-1, OutNone) s /\
  (forall a b c, ipc_connect kernel6 a b c s = m) /\ (forall a, ipc_service_unregister kernel6 a s = m) /\
  (forall a b c, ipc_shm_create kernel6 a b c s = m) /\ (forall a b c, ipc_shm_map kernel6 a b c s = m) /\ (forall a, ipc_shm_unmap kernel6 a s = m) /\
  (forall a b c d, ipc_shm_grant kernel6 a b c d s = m) /\ (forall a b c, ipc_info kernel6 a b c s = m) /\ (forall a b c, ipc_stats kernel6 a b c s = m).
Proof. eexists. split; [done|]. repeat split. Qed.
End kernel.
End IpcUser.
