(* ===== verification/Kmain.v ===== *)
(** * Starting the kernel (core/virt_main.c)

    [kmain] initialises the parts of the kernel one after the other and enters the
    idle loop.  The model composes the components of the other files over one state,
    [machine]: threads, IPC and files ([sstate] of Syscall), page frames, boot stage,
    swap, boot log, and the interpreter.  FAT32 and Btrfs share the block device.

    Parameters: the block device and its initialisation, the byte code behind the
    file system bridge, the firmware, addresses, and the unspecified contents of
    local variables.  Left out: descriptor tables and interrupt vectors of the
    processor, the serial line, and what is printed. *)

From Stdlib Require Import String Ascii.
From stdpp Require Import base tactics list numbers option gmap.
From S2P Require Import Prelude Digits CMem Proc Pmm Telemetry Dmesg Timer Alloc AllocSpec Caps Sched SchedSpec Ipc IpcQueue IpcSpec Vfs VfsSpec BlockDev Fat32 Btrfs Syscall SyscallSpec Libc Console LineEdit Shell ShellSpec Boot SageEnv Bridge BridgeRun.

Module Kmain.
Import Timer Alloc AllocSpec Caps Sched SchedSpec Ipc LineEdit.
Local Open Scope string_scope.
Local Open Scope list_scope.
Local Open Scope Z_scope.

(** ** File systems on one device *)

Record storage (D : Type) := mk_storage { st_fat : Fat32.fat; st_btrfs_available : Z; st_super : list Z; st_nodes : list (list Z); st_dev : D }.
Arguments mk_storage {D}. Arguments st_fat {D}. Arguments st_btrfs_available {D}. Arguments st_super {D}. Arguments st_nodes {D}. Arguments st_dev {D}.

Definition get_fat {D} (w : storage D) : Fat32.fstate := Fat32.mk_fs (st_fat w) (st_dev w).
Definition put_fat {D} (f : Fat32.fstate) (w : storage D) : storage D :=
  mk_storage (Fat32.fs f) (st_btrfs_available w) (st_super w) (st_nodes w) (Fat32.dev f).
Definition get_btrfs {D} (w : storage D) : Btrfs.btrfs := Btrfs.mk_btrfs (st_btrfs_available w) (st_super w) (st_nodes w) (st_dev w).
Definition put_btrfs {D} (b : Btrfs.btrfs) (w : storage D) : storage D :=
  mk_storage (st_fat w) (Btrfs.btrfs_available b) (Btrfs.g_super b) (Btrfs.nodes b) (Btrfs.dev b).

(** An operation on a part, on the whole. *)
Definition on_part {T W A} (get : W -> T) (put : T -> W -> W) (f : T -> outcome (A * T)) (w : W) : outcome (A * W) :=
  '(a, t) ← f (get w); Ret (a, put t w).

Definition lift_backend {T W} (get : W -> T) (put : T -> W -> W) (be : Vfs.backend T) : Vfs.backend W :=
  Vfs.mk_backend (Vfs.be_name be)
    ((fun f p x => on_part get put (f p x)) <$> Vfs.be_stat be)
    ((fun f p x => on_part get put (f p x)) <$> Vfs.be_readdir be)
    ((fun f p o n => on_part get put (f p o n)) <$> Vfs.be_read be)
    ((fun f p o d => on_part get put (f p o d)) <$> Vfs.be_write be)
    ((fun f p => on_part get put (f p)) <$> Vfs.be_mkdir be)
    ((fun f p => on_part get put (f p)) <$> Vfs.be_create be)
    ((fun f p => on_part get put (f p)) <$> Vfs.be_unlink be).

(** ** The machine *)

Section kmain.
Context {D V FH : Type} `{BlockDevice D} (ata_init : D -> D).
Abbreviation W := (storage D).
Context (br : Vfs.bridge W) (fw : Fat32.efi (D := D) FH).
Context (arch : timer_arch) (hw : nat -> hw_regs) (heap_base stack_bottom sched_trampoline : Z).
(** Contents of local variables; addresses of strings, backends and entry points. *)
Context (sector0 lfn0 junk temp : list Z) (ename255 : Z) (str_addr : string -> Z) (fat_addr btrfs_addr supervisor_entry : Z).
Context (val_native : Bridge.Fn.native -> V) (val_number : Z -> V) (alloc : SageEnv.envs V -> Z)
  (stdlib : Z -> list Bridge.native_module -> SageEnv.envs V -> outcome (list Bridge.native_module * SageEnv.envs V)).
(** Rounds of loops over files and in the scheduler. *)
Context (fuel : nat).

Record machine := mk_machine {
  m_s : Syscall.sstate (W := W);
  m_pmm : Pmm.pmm;
  m_stage : Z;
  m_swap : Swap.swap_device;
  m_bootlog : BootLog.bootlog_state;
  m_gil : option Z; m_env : option Z; m_cache : list Bridge.native_module; m_envs : SageEnv.envs V
}.
Implicit Types m : machine.

Definition m_k m : kstate := Syscall.s_k (m_s m).
Definition with_m_s (x : Syscall.sstate) m : machine :=
  mk_machine x (m_pmm m) (m_stage m) (m_swap m) (m_bootlog m) (m_gil m) (m_env m) (m_cache m) (m_envs m).
Definition with_m_k (x : kstate) m : machine := with_m_s (Syscall.with_s_k x (m_s m)) m.
Definition with_m_pmm (x : Pmm.pmm) m : machine :=
  mk_machine (m_s m) x (m_stage m) (m_swap m) (m_bootlog m) (m_gil m) (m_env m) (m_cache m) (m_envs m).
Definition with_m_stage (x : Z) m : machine :=
  mk_machine (m_s m) (m_pmm m) x (m_swap m) (m_bootlog m) (m_gil m) (m_env m) (m_cache m) (m_envs m).
Definition with_m_swap (x : Swap.swap_device) m : machine :=
  mk_machine (m_s m) (m_pmm m) (m_stage m) x (m_bootlog m) (m_gil m) (m_env m) (m_cache m) (m_envs m).
Definition with_m_bootlog (x : BootLog.bootlog_state) m : machine :=
  mk_machine (m_s m) (m_pmm m) (m_stage m) (m_swap m) x (m_gil m) (m_env m) (m_cache m) (m_envs m).

Definition log_text (t : list Z) m : outcome machine := s ← Syscall.log arch hw t (m_s m); Ret (with_m_s s m).
Definition log (t : string) m : outcome machine := log_text (txt t) m.

(** [%d] of [dmesg_printf]. *)
Definition decimal (v : Z) : outcome (list Z) := ds ← Libc.digits_of 10 false (Z.abs (s32 v)); Ret (Libc.numeric false 0 (s32 v <? 0) ds).

(** The line at the end of [phys_init]; [dmesg_printf] has room for 255 characters. *)
Definition pmm_line (info : Pmm.boot_info) : outcome (list Z) :=
  total ← decimal (Pmm.memory_total info / 1024 / 1024);
  usable ← decimal (Pmm.memory_usable info / 1024 / 1024);
  Ret (take 255 (txt "PMM: Bitmap-backed allocator initialized. Total: " ++ total ++ txt " MB, Usable: " ++ usable ++ txt " MB")).

(** The stage, its line in the log and its entry in the trace. *)
Definition set_stage (stage : Z) m : outcome machine :=
  '(cs, t) ← timer_elapsed_centiseconds arch hw (k_timer (m_k m));
  let m1 := with_m_k (with_k_timer t (m_k m)) m in
  e ← k_env (m_k m1);
  let h := k_heap (m_k m1) in
  b ← BootStage.sageos_set_boot_stage (fun _ => cs) (e_now e) (e_cur e) stage
        (BootStage.MkBoot (m_stage m1) (Syscall.s_log (m_s m1)) (h_trace h));
  let m2 := with_m_k (with_k_heap (with_trace (BootStage.b_trace b) h) (m_k m1)) m1 in
  Ret (with_m_stage (BootStage.g_current_stage b) (with_m_s (Syscall.with_s_log (BootStage.b_log b) (m_s m2)) m2)).

Definition on_world (f : W -> W) m : machine :=
  with_m_s (Syscall.with_s_v (Vfs.with_world (f (Vfs.world (Syscall.s_v (m_s m)))) (Syscall.s_v (m_s m))) (m_s m)) m.

Definition mount (path : string) (addr : Z) (be : Vfs.backend W) m : outcome machine :=
  '(_, s) ← Syscall.run_vfs (Vfs.vfs_mount br stack_bottom (str_addr path) (txt path) addr be) (m_s m);
  Ret (with_m_s s m).

Definition fat32_backend : Vfs.backend W := lift_backend get_fat put_fat (Fat32.g_fat32_backend sector0 lfn0 ename255 fw fuel).
Definition btrfs_backend : Vfs.backend W := lift_backend get_btrfs put_btrfs (Btrfs.g_btrfs_backend fuel temp).

(** *** The stages *)

Definition pmm_arch : Pmm.arch :=
  match arch with TIMER_ARCH_X86 => Pmm.x86_64 | TIMER_ARCH_ARM64 => Pmm.aarch64 | TIMER_ARCH_RV64 => Pmm.riscv64 end.

(** [None]: no boot information, or none with the right magic number. *)
Definition boot_info (info : option Pmm.boot_info) : Pmm.boot_info := default (Pmm.kmain_dummy_info pmm_arch) info.

(** Early memory management. *)
Definition boot_memory (info : Pmm.boot_info) m : outcome machine :=
  k ← sched_init stack_bottom (m_k m);
  m1 ← set_stage 1 (with_m_k k m);
  let h := k_heap (m_k m1) in
  let m2 := with_m_k (with_k_heap (with_trace (Telemetry.telemetry_init (h_trace h)) h) (m_k m1)) m1 in
  p ← Pmm.phys_init info (m_pmm m2);
  t ← pmm_line info;
  m3 ← log_text t (with_m_pmm p m2);
  log "VMM: Identity paging established (Stub)" m3.

(** Devices and IPC. *)
Definition boot_devices m : outcome machine :=
  m1 ← set_stage 2 m;
  m2 ← set_stage 3 m1;
  let m3 := with_m_s (Syscall.with_s_i (ipc_subsystem_init (Syscall.s_i (m_s m2))) (m_s m2)) m2 in
  let m4 := with_m_k (with_k_timer (timer_init arch hw (k_timer (m_k m3))) (m_k m3)) m3 in
  Ret (on_world (fun w => mk_storage (st_fat w) (st_btrfs_available w) (st_super w) (st_nodes w) (ata_init (st_dev w))) m4).

Definition boot_fat m : outcome machine :=
  let w := Vfs.world (Syscall.s_v (m_s m)) in
  let '(ok, f) := Fat32.fat32_init sector0 (get_fat w) in
  let m1 := on_world (put_fat f) m in
  if ok then
    m2 ← mount "/" fat_addr fat32_backend m1;
    m3 ← mount "/mnt/fat32" fat_addr fat32_backend m2;
    m4 ← mount "/usr" fat_addr fat32_backend m3;
    log "VFS: Mounted FAT32 at / (root), /mnt/fat32 and /usr" m4
  else log "VFS: FAT32 initialization FAILED" m1.

Definition boot_btrfs m : outcome machine :=
  '(ok, b) ← Btrfs.btrfs_init junk (get_btrfs (Vfs.world (Syscall.s_v (m_s m))));
  let m1 := on_world (put_btrfs b) m in
  if (ok : bool) then
    m2 ← mount "/mnt/btrfs" btrfs_addr btrfs_backend m1;
    log "VFS: Mounted BTRFS at /mnt/btrfs" m2
  else log "VFS: BTRFS initialization FAILED" m1.

Definition boot_swap (blkdev_name : list Z) m : outcome machine :=
  let '(_, d, _, line) := Swap.swap_init (ata_is_available (st_dev (Vfs.world (Syscall.s_v (m_s m))))) blkdev_name (m_swap m) in
  let m1 := with_m_swap d m in
  match line with
  | Some t => s ← Syscall.log arch hw t (m_s m1); Ret (with_m_s s m1)
  | None => Ret m1
  end.

Definition boot_storage (blkdev_name : list Z) (log_offset : Z) m : outcome machine :=
  m1 ← set_stage 4 m;
  m2 ← boot_fat (with_m_s (Syscall.with_s_v (Vfs.vfs_init br (Syscall.s_v (m_s m1))) (m_s m1)) m1);
  m3 ← boot_btrfs m2;
  m4 ← boot_swap blkdev_name m3;
  Ret (with_m_bootlog (BootLog.bootlog_init (Some log_offset)) m4).

(** The interpreter; no other thread exists that could have its lock. *)
Definition boot_runtime m : outcome machine :=
  m1 ← set_stage 5 m;
  m2 ← log "RUNTIME: Initializing SGVM Core..." m1;
  let r := BridgeRun.mk_rt (m_k m2) (m_gil m2) tt (m_env m2) (m_cache m2) (m_envs m2) tt in
  '(_, r1) ← run 0 (fun s => s) (BridgeRun.sage_runtime_init arch hw stack_bottom val_native val_number alloc stdlib 0 fuel r);
  let m3 := mk_machine (Syscall.with_s_k (BridgeRun.r_k r1) (m_s m2)) (m_pmm m2) (m_stage m2) (m_swap m2) (m_bootlog m2)
    (BridgeRun.g_gil_owner r1) (BridgeRun.g_sage_env r1) (BridgeRun.g_sage_cache r1) (BridgeRun.r_envs r1) in
  m4 ← log "RUNTIME: SGVM Runtime Bring-up complete." m3;
  log "SageOS Virt Kernel initialization complete." m4.

Definition sage_execute_init m : outcome machine :=
  '(t, k) ← sched_create_thread arch heap_base stack_bottom sched_trampoline (txt "supervisor") supervisor_entry 0 THREAD_PRIORITY_NORMAL (m_k m);
  match t with
  | Some _ => log "RUNTIME: Successfully spawned System Supervisor (PID 1) in background." (with_m_k k m)
  | None => log "RUNTIME: FAILED to spawn System Supervisor!" (with_m_k k m)
  end.

(** [kmain] up to the idle loop. *)
Definition kmain (info : option Pmm.boot_info) (log_offset : Z) (blkdev_name : list Z) m : outcome machine :=
  m1 ← boot_memory (boot_info info) m;
  m2 ← boot_devices m1;
  m3 ← boot_storage blkdev_name log_offset m2;
  m4 ← boot_runtime m3;
  m5 ← set_stage 6 m4;
  sage_execute_init m5.

(** One turn of the idle loop. *)
Definition idle_turn (k : kstate) : proc kstate unit :=
  pbind (timer_idle_poll arch hw stack_bottom fuel (sched_watchdog_update k)) (fun _ k1 => sched_schedule arch hw stack_bottom fuel k1).
End kmain.
End Kmain.
