(* ===== verification/KmainSpec.v ===== *)
(** * What the boot sequence establishes

    [kmain] of Kmain runs to the idle loop and leaves every component in the state
    its own theorems start from: the scheduler with one running thread and the
    supervisor ready, a well-formed heap, the confinement invariant of IPC, a mount
    table that lists the file systems found, the page frames, and an interpreter
    whose environment is complete. *)

From Stdlib Require Import String Ascii.
From stdpp Require Import base tactics list numbers option gmap.
From S2P Require Import Prelude Digits CMem Proc Pmm Telemetry Dmesg Timer Alloc AllocSpec Caps Sched SchedSpec Ipc IpcQueue IpcSpec Vfs VfsSpec BlockDev Fat32 Btrfs BtrfsSpec Syscall SyscallSpec Libc LibcFormat Console LineEdit Shell ShellSpec Boot SageEnv Bridge BridgeRun Kmain.

Module KmainSpec.
Import Dmesg Timer Alloc AllocSpec Caps Sched SchedSpec Ipc LineEdit Kmain.
Local Open Scope string_scope.
Local Open Scope list_scope.
Local Open Scope Z_scope.

(** ** Steps that only log and trace *)

(** The kernel state but for the timer and the trace. *)
Definition quiet (k k' : kstate) : Prop := exists t tr, k' = with_k_timer t (with_k_heap (with_trace tr (k_heap k)) k).

Lemma quiet_refl k : quiet k k.
Proof. exists (k_timer k), (h_trace (k_heap k)). by destruct k as [????????? ? []]. Qed.

Lemma quiet_trans k1 k2 k3 : quiet k1 k2 -> quiet k2 k3 -> quiet k1 k3.
Proof. intros (t1 & tr1 & ->) (t2 & tr2 & ->). exists t2, tr2. by destruct k1 as [????????? ? []]. Qed.

Lemma quiet_timer k t : quiet k (with_k_timer t k).
Proof. exists t, (h_trace (k_heap k)). by destruct k as [????????? ? []]. Qed.

Lemma quiet_trace k tr : quiet k (with_k_heap (with_trace tr (k_heap k)) k).
Proof. exists (k_timer k), tr. by destruct k as [????????? ? []]. Qed.

(** The scheduler after [sched_init] and before the first thread is created. *)
Record idle_only (hb : Z) (k : kstate) : Prop := {
  io_sched : sched_ok k 0;
  io_idle : exists t, (g_tasks k).[0] = Some t /\ state t = THREAD_STATE_RUNNING;
  io_rest i t : 0 < i -> (g_tasks k).[i] = Some t -> state t = THREAD_STATE_UNUSED;
  io_pid : g_next_pid k = 1;
  io_heap : heap_inv hb (k_heap k) [] /\ sage_bump (k_heap k) = 0
}.

Lemma heap_inv_trace hb h bl tr : heap_inv hb h bl -> heap_inv hb (with_trace tr h) bl.
Proof. intros [[] ?]. split; [split|]; done. Qed.

Lemma idle_quiet hb k k' : quiet k k' -> idle_only hb k -> idle_only hb k'.
Proof.
  intros (t & tr & ->) [[] Hi Hr Hp [Hh Hb]]. split; try done. split; [by apply heap_inv_trace|done].
Qed.

Section boot.
Context {D V FH : Type} `{BlockDeviceLaws D} (ata_init : D -> D).
Abbreviation W := (storage D).
Context (br : Vfs.bridge W) (fw : Fat32.efi (D := D) FH).
Context (arch : timer_arch) (hw : nat -> hw_regs) (heap_base stack_bottom sched_trampoline : Z).
Context (sector0 lfn0 junk temp : list Z) (ename255 : Z) (str_addr : string -> Z) (fat_addr btrfs_addr supervisor_entry : Z).
Context (val_native : Bridge.Fn.native -> V) (val_number : Z -> V) (alloc : SageEnv.envs V -> Z)
  (stdlib : Z -> list Bridge.native_module -> SageEnv.envs V -> outcome (list Bridge.native_module * SageEnv.envs V)).
Context (fuel : nat).
Abbreviation machine := (machine (D := D) (V := V)).
Implicit Types m : machine.

Definition vfs m : Vfs.vstate W := Syscall.s_v (m_s m).
Definition the_log m : dmesg := Syscall.s_log (m_s m).

(** Everything but the kernel state, the log and the stage is the same. *)
Record same_but_log m m' : Prop := {
  sb_k : quiet (m_k m) (m_k m');
  sb_i : Syscall.s_i (m_s m') = with_i_k (m_k m') (Syscall.s_i (m_s m));
  sb_v : vfs m' = vfs m;
  sb_pmm : m_pmm m' = m_pmm m;
  sb_run : m_gil m' = m_gil m /\ m_env m' = m_env m /\ m_cache m' = m_cache m /\ m_envs m' = m_envs m
}.

Definition log_ok m : Prop := wf (the_log m) /\ dmesg_at_bol (the_log m) = 1.

Lemma syscall_log_ok t (s : Syscall.sstate (W := W)) : t <> [] -> wf (Syscall.s_log s) -> dmesg_at_bol (Syscall.s_log s) = 1 ->
  completes (Syscall.log arch hw t s) (fun s' => exists tm, s' = Syscall.with_s_log (Syscall.s_log s') (Syscall.with_s_k (with_k_timer tm (Syscall.s_k s)) s) /\
    wf (Syscall.s_log s') /\ dmesg_at_bol (Syscall.s_log s') = 1).
Proof.
  intros Ht Hw Hb. unfold Syscall.log. destruct (SyscallSpec.elapsed_total arch hw (k_timer (Syscall.s_k s))) as (cs & tm & ->). cbn [mbind outcome_bind].
  destruct (SyscallSpec.dmesg_log_grows (fun _ => cs) t _ Hw Hb Ht) as (d & -> & Hd1 & Hd2 & _). cbn [mbind outcome_bind]. apply completes_Ret. by exists tm.
Qed.

Lemma log_machine t m s' : completes (Syscall.log arch hw t (m_s m)) (fun s => s = s' /\ exists tm, s = Syscall.with_s_log (Syscall.s_log s) (Syscall.with_s_k (with_k_timer tm (Syscall.s_k (m_s m))) (m_s m))) ->
  same_but_log m (with_m_s s' m).
Proof.
  intros (s & _ & -> & tm & E). rewrite E. split; try done. apply quiet_timer.
Qed.

Lemma log_text_keeps t m : t <> [] -> log_ok m -> completes (log_text arch hw t m) (fun m' => same_but_log m m' /\ log_ok m' /\ m_stage m' = m_stage m).
Proof.
  intros Ht [Hw Hb]. unfold log_text. destruct (syscall_log_ok t (m_s m) Ht Hw Hb) as (s & E & tm & Es & Hs). rewrite E. cbn [mbind outcome_bind].
  apply completes_Ret. split; [|done]. eapply log_machine. exists s. split; [exact E|]. split; [done|by exists tm].
Qed.

Lemma log_keeps t m : txt t <> [] -> log_ok m -> completes (log arch hw t m) (fun m' => same_but_log m m' /\ log_ok m' /\ m_stage m' = m_stage m).
Proof. apply log_text_keeps. Qed.

Lemma decimal_text_ok v : completes (decimal v) (fun _ => True).
Proof.
  assert (0 <= Z.abs (s32 v) < 2 ^ 64) as Hb by (pose proof (LibcFormat.s32_bound v); lia).
  unfold decimal. destruct (LibcFormat.numeral_ok 10 false (Z.abs (s32 v)) ltac:(lia) Hb) as [-> _]. by apply completes_Ret.
Qed.

Lemma pmm_line_ok info : completes (pmm_line info) (fun t => t <> []).
Proof.
  unfold pmm_line. eapply completes_bind; [apply decimal_text_ok|]. intros a _. eapply completes_bind; [apply decimal_text_ok|]. intros b _.
  by apply completes_Ret.
Qed.

Lemma set_stage_keeps st m : 0 <= st <= 8 -> log_ok m -> sched_ok (m_k m) 0 ->
  completes (set_stage arch hw st m) (fun m' => same_but_log m m' /\ log_ok m' /\ m_stage m' = st).
Proof.
  intros Hst [Hw Hb] Hok. unfold set_stage. destruct (SyscallSpec.elapsed_total arch hw (k_timer (m_k m))) as (cs & tm & ->). cbn [mbind outcome_bind].
  destruct (k_env_ok (with_k_timer tm (m_k m)) 0) as (e & Ee); [by destruct Hok|]. change (m_k (with_m_k (with_k_timer tm (m_k m)) m)) with (with_k_timer tm (m_k m)).
  rewrite Ee. cbn [mbind outcome_bind]. unfold BootStage.sageos_set_boot_stage. rewrite (proj2 (Z.leb_le st BootStage.STAGE_HALT)) by (unfold BootStage.STAGE_HALT; lia).
  destruct (rd_in_range BootStage.stage_names st) as (nm & -> & _); [change (zlen BootStage.stage_names) with 9; lia|]. cbn [mbind outcome_bind].
  destruct (SyscallSpec.dmesg_log_grows (fun _ => cs) (txt "BOOT: Transitioning to " ++ txt nm) (the_log m) Hw Hb) as (d & E & Hd1 & Hd2 & _); [done|].
  cbn [BootStage.b_log BootStage.b_trace]. change (Syscall.s_log (m_s (with_m_k (with_k_timer tm (m_k m)) m))) with (the_log m). rewrite E. cbn [mbind outcome_bind]. apply completes_Ret. split; [|split; [by split|done]].
  split; try done. eexists tm, _. reflexivity.
Qed.

(** ** Mounting *)

(** The bridge has no part in the disks; addresses are not zero. *)
Hypothesis bridge_quiet : forall p w, Vfs.br_mount br p w = Ret w.
Hypothesis addresses : (forall x, str_addr x <> 0) /\ fat_addr <> 0 /\ btrfs_addr <> 0.

Definition mount_paths m : list (list Z) := Vfs.m_path <$> take (Z.to_nat (Vfs.g_mount_count (vfs m))) (Vfs.g_mounts (vfs m)).

(** The mount table changes as [f] says, the rest only by logging and tracing. *)
Record mounted_more (paths : list string) m m' : Prop := {
  mm_k : quiet (m_k m) (m_k m');
  mm_i : Syscall.s_i (m_s m') = with_i_k (m_k m') (Syscall.s_i (m_s m));
  mm_world : Vfs.world (vfs m') = Vfs.world (vfs m);
  mm_count : Vfs.g_mount_count (vfs m') = Vfs.g_mount_count (vfs m) + zlen paths;
  mm_paths : mount_paths m' = mount_paths m ++ (txt <$> paths);
  mm_ok : VfsSpec.mounts_ok (vfs m');
  mm_log : log_ok m';
  mm_pmm : m_pmm m' = m_pmm m;
  mm_stage : m_stage m' = m_stage m;
  mm_run : m_gil m' = m_gil m /\ m_env m' = m_env m /\ m_cache m' = m_cache m /\ m_envs m' = m_envs m
}.

Lemma vfs_mount_ok path addr be (v : Vfs.vstate W) : sched_ok (Vfs.v_k v) 0 -> VfsSpec.mounts_ok v -> Vfs.g_mount_count v < Vfs.VFS_MAX_MOUNTS -> addr <> 0 ->
  exists tr, Vfs.vfs_mount br stack_bottom (str_addr path) (txt path) addr be v = Ret (Vfs.VFS_OK,
    Vfs.mk_vfs ((Vfs.g_mounts v).[Vfs.g_mount_count v <- Vfs.mk_mount (txt path) (zlen (txt path)) be true]) (Vfs.g_mount_count v + 1)
      (Vfs.g_vfs_vm_inited v) (Vfs.g_in_vfs_vm v) (with_k_heap (with_trace tr (k_heap (Vfs.v_k v))) (Vfs.v_k v)) (Vfs.world v)).
Proof.
  intros [Hlen Hcur Hran Hini _ _] [Hl Hc _] Hroom Ha. unfold Vfs.vfs_mount, Vfs.v_trace. rewrite (proj2 (Z.leb_gt _ _)) by done.
  rewrite (proj2 (Z.eqb_neq _ _) (proj1 addresses path)), (proj2 (Z.eqb_neq _ _) Ha). cbn [orb]. rewrite wr_in_range by (rewrite Hl; lia).
  cbn [mbind outcome_bind Vfs.v_k Vfs.with_g_mounts].
  destruct (k_trace_log_ok stack_bottom Telemetry.TRACE_VFS_MOUNT (str_addr path) addr (Vfs.v_k v) 0 Hlen Hcur Hran Hini) as (tr & ->).
  exists tr. cbn [mbind outcome_bind Vfs.with_v_k Vfs.g_vfs_vm_inited Vfs.with_g_mounts]. rewrite bridge_quiet. by destruct v as [?? [] ???].
Qed.

Lemma take_zset {A} (l : list A) (i : Z) x : 0 <= i < zlen l -> take (Z.to_nat (i + 1)) (l.[i <- x]) = take (Z.to_nat i) l ++ [x].
Proof.
  intros Hi. unfold zset. rewrite (proj2 (Z.leb_le _ _)) by lia. rewrite Z2Nat.inj_add by lia. rewrite Nat.add_1_r. unfold zlen in Hi.
  rewrite (take_S_r _ _ x) by (apply list_lookup_insert_eq; lia). by rewrite take_insert_ge by lia.
Qed.

Lemma mount_keeps path addr be m : log_ok m -> sched_ok (m_k m) 0 -> VfsSpec.mounts_ok (vfs m) -> Vfs.g_mount_count (vfs m) < Vfs.VFS_MAX_MOUNTS -> addr <> 0 ->
  completes (mount br stack_bottom str_addr path addr be m) (mounted_more [path] m).
Proof.
  intros Hlog Hok Hmo Hroom Ha. unfold mount, Syscall.run_vfs. change (Syscall.s_v (m_s m)) with (vfs m). change (Syscall.s_k (m_s m)) with (m_k m).
  destruct (vfs_mount_ok path addr be (Vfs.with_v_k (m_k m) (vfs m))) as (tr & E); [done|by destruct Hmo|done|done|]. rewrite E. cbn [mbind outcome_bind].
  apply completes_Ret. destruct Hmo as [Hl Hc Hp]. split; try done.
  - apply quiet_trace.
  - unfold mount_paths. cbn [vfs m_s with_m_s Syscall.with_s_k Syscall.with_s_i Syscall.s_v Syscall.with_s_v Vfs.g_mount_count Vfs.g_mounts Vfs.with_v_k].
    rewrite take_zset by lia. by rewrite fmap_app.
  - split; cbn; [by rewrite zlen_zset|lia|]. intros i y Hi. rewrite zget_zset. destruct (Z.eqb_spec (Vfs.g_mount_count (vfs m)) i); cbn [andb].
    + case_if; [by intros [= <-]|]. intros Hy. apply (Hp i); [|done]. exfalso. apply zget_Some_bound in Hy. lia.
    + intros Hy. apply (Hp i); [lia|done].
Qed.

Lemma mounted_trans p q m1 m2 m3 : mounted_more p m1 m2 -> mounted_more q m2 m3 -> mounted_more (p ++ q) m1 m3.
Proof.
  intros [K1 I1 W1 C1 P1 _ _ M1 S1 R1] [K2 I2 W2 C2 P2 O2 L2 M2 S2 R2]. split; try done; try congruence.
  - by eapply quiet_trans.
  - by rewrite I2, I1.
  - rewrite C2, C1, zlen_app. lia.
  - by rewrite P2, P1, fmap_app, app_assoc.
  - destruct R1 as (? & ? & ? & ?), R2 as (? & ? & ? & ?). split_and!; congruence.
Qed.

Lemma logged_mounted m m' : same_but_log m m' -> log_ok m' -> m_stage m' = m_stage m -> VfsSpec.mounts_ok (vfs m) -> mounted_more [] m m'.
Proof.
  intros [K I V' M R] L S O. split; try done; try (by rewrite V').
  - rewrite V'. unfold zlen. cbn. lia.
  - unfold mount_paths. rewrite V'. by rewrite app_nil_r.
Qed.

Lemma sched_quiet k k' c : quiet k k' -> sched_ok k c -> sched_ok k' c.
Proof. intros (t & tr & ->) []. by split. Qed.

(** Further mounts. *)
Lemma mount_next path addr be p m m1 : mounted_more p m m1 -> sched_ok (m_k m) 0 -> Vfs.g_mount_count (vfs m) + zlen p < Vfs.VFS_MAX_MOUNTS -> addr <> 0 ->
  completes (mount br stack_bottom str_addr path addr be m1) (mounted_more (p ++ [path]) m).
Proof.
  intros Hm Hok Hroom Ha. pose proof Hm as [K I _ C _ O L _ _ _]. eapply completes_mono; [apply mount_keeps; try done|].
  - by eapply sched_quiet.
  - lia.
  - intros m2 Hm2. by eapply mounted_trans.
Qed.

Lemma log_next t p m m1 : txt t <> [] -> mounted_more p m m1 -> completes (log arch hw t m1) (mounted_more p m).
Proof.
  intros Ht Hm. pose proof Hm as [_ _ _ _ _ O L _ _ _]. eapply completes_mono; [by apply log_keeps|]. intros m2 (Hs & L2 & S2).
  rewrite <- (app_nil_r p). eapply mounted_trans; [done|]. by apply logged_mounted.
Qed.

(** *** The two file systems *)

Hypothesis disk_size : Btrfs.BTRFS_PARTITION_START_LBA + 134 <= bd_limit.
Hypothesis junk_size : zlen junk = Btrfs.sizeof_btrfs_super_block.

(** No device was found, or it works. *)
Definition dev_ok (d : D) : Prop := ata_is_available d = false \/ bd_ready d.

Lemma fat32_init_ok (s : Fat32.fstate (D := D)) : dev_ok (Fat32.dev s) ->
  Fat32.fat32_available (Fat32.fs (Fat32.fat32_init sector0 s).2) = (Fat32.fat32_init sector0 s).1 /\ dev_ok (Fat32.dev (Fat32.fat32_init sector0 s).2).
Proof.
  intros Hd. unfold Fat32.fat32_init. destruct (ata_is_available (Fat32.dev s)) eqn:Ea; cbn [negb]; [|split; [done|by left]].
  destruct Hd as [Hd|Hd]; [congruence|]. unfold Fat32.fat32_find_partition, Fat32.fat32_read_sector.
  destruct (ata_read_sector 0 sector0 (Fat32.dev s)) as [[ok1 mbr] d1] eqn:E1. destruct (bd_read_any _ _ _ _ _ _ Hd E1) as [Hd1 _].
  set (part := if negb ok1 then _ else _). destruct (ata_read_sector part sector0 d1) as [[ok2 b] d2] eqn:E2. destruct (bd_read_any _ _ _ _ _ _ Hd1 E2) as [Hd2 _].
  destruct ok2; cbn [negb]; [|split; [done|by right]]. destruct (Fat32.bpb_valid b); cbn [negb]; (split; [done|by right]).
Qed.

Definition fat_paths (ok : bool) : list string := if ok then ["/"; "/mnt/fat32"; "/usr"] else [].
Definition btrfs_paths (ok : bool) : list string := if ok then ["/mnt/btrfs"] else [].

(** The machine with other disks. *)
Lemma on_world_log f m : log_ok m -> log_ok (on_world f m).
Proof. done. Qed.

Lemma start_mounts f m : log_ok m -> VfsSpec.mounts_ok (vfs m) -> mounted_more [] (on_world f m) (on_world f m).
Proof.
  intros L O. apply logged_mounted; [|done|done|by destruct O]. split; try done; [apply quiet_refl|].
  unfold m_k, Syscall.s_k. cbn. by destruct (Syscall.s_i (m_s m)).
Qed.

Lemma boot_fat_ok m : log_ok m -> sched_ok (m_k m) 0 -> VfsSpec.mounts_ok (vfs m) -> Vfs.g_mount_count (vfs m) = 0 -> dev_ok (st_dev (Vfs.world (vfs m))) ->
  completes (boot_fat br fw arch hw stack_bottom sector0 lfn0 ename255 str_addr fat_addr fuel m) (fun m' =>
    exists f, dev_ok (Fat32.dev f) /\ mounted_more (fat_paths (Fat32.fat32_available (Fat32.fs f))) (on_world (put_fat f) m) m').
Proof.
  intros L Hok O C Hd. unfold boot_fat. change (Syscall.s_v (m_s m)) with (vfs m).
  destruct (fat32_init_ok (get_fat (Vfs.world (vfs m))) Hd) as [Ha Hd']. destruct (Fat32.fat32_init sector0 (get_fat (Vfs.world (vfs m)))) as [ok f]. cbn [fst snd] in *.
  pose proof (start_mounts (put_fat f) m L O) as Hm0. set (m1 := on_world (put_fat f) m) in *. assert (Vfs.g_mount_count (vfs m1) = 0) as C1 by done.
  assert (sched_ok (m_k m1) 0) as Hok1 by done. destruct addresses as (_ & Hfa & _).
  eapply completes_mono; [|intros m' Hm'; exists f; split; [done|rewrite Ha; exact Hm']]. destruct ok; cbn [fat_paths].
  - eapply completes_bind; [apply (mount_next "/" _ _ [] m1 m1); [done..|rewrite C1; done|done]|]. intros m2 H2.
    eapply completes_bind; [apply (mount_next "/mnt/fat32" _ _ ["/"] m1 m2); [done..|rewrite C1; done|done]|]. intros m3 H3.
    eapply completes_bind; [apply (mount_next "/usr" _ _ ["/"; "/mnt/fat32"] m1 m3); [done..|rewrite C1; done|done]|]. intros m4 H4. by apply log_next.
  - by apply log_next.
Qed.

(** The superblock lies on the disk. *)
Lemma btrfs_init_ok (s : Btrfs.btrfs (D := D)) : dev_ok (Btrfs.dev s) ->
  completes (Btrfs.btrfs_init junk s) (fun '(ok, s') => Btrfs.btrfs_available s' = (if ok then 1 else 0) /\ dev_ok (Btrfs.dev s')).
Proof.
  intros Hd. unfold Btrfs.btrfs_init. destruct (ata_is_available (Btrfs.dev s)) eqn:Ea; cbn [negb]; [|apply completes_Ret; split; [done|by left]].
  destruct Hd as [Hd|Hd]; [congruence|]. set (lba := Btrfs.BTRFS_PARTITION_START_LBA + Btrfs.BTRFS_SUPER_INFO_OFFSET / 512).
  assert (0 <= lba /\ lba + 6 = Btrfs.BTRFS_PARTITION_START_LBA + 134) as [Hl0 Hl] by (unfold lba; by vm_compute).
  pose proof junk_size as Hj. unfold Btrfs.sizeof_btrfs_super_block, zlen in Hj.
  assert (zlen (take 3072 junk) = 512 * Z.of_nat 6) as Ht by (unfold zlen; rewrite length_take; lia).
  destruct (BtrfsSpec.read_sectors_ok 6 0 lba [] (take 3072 junk) (drop 3072 junk) (Btrfs.dev s) Hd) as (d & E & Hd' & Hs); [lia|done|lia|done|done|].
  cbn [app] in E. rewrite take_drop in E. change (Z.to_nat (Btrfs.sizeof_btrfs_super_block / 512)) with 6%nat. rewrite E. cbn [mbind outcome_bind negb].
  rewrite BtrfsSpec.field_in; [|lia|rewrite zlen_app, BtrfsSpec.zlen_sectors by (done || lia); pose proof (zlen_nonneg (drop 3072 junk)); lia].
  cbn [mbind outcome_bind]. case_match; apply completes_Ret; (split; [done|by right]).
Qed.

Lemma boot_btrfs_ok m : log_ok m -> sched_ok (m_k m) 0 -> VfsSpec.mounts_ok (vfs m) -> Vfs.g_mount_count (vfs m) < Vfs.VFS_MAX_MOUNTS -> dev_ok (st_dev (Vfs.world (vfs m))) ->
  completes (boot_btrfs br arch hw stack_bottom junk temp str_addr btrfs_addr fuel m) (fun m' =>
    exists b (ok : bool), Btrfs.btrfs_available b = (if ok then 1 else 0) /\ mounted_more (btrfs_paths ok) (on_world (put_btrfs b) m) m').
Proof.
  intros L Hok O C Hd. unfold boot_btrfs. change (Syscall.s_v (m_s m)) with (vfs m).
  eapply completes_bind; [apply (btrfs_init_ok (get_btrfs (Vfs.world (vfs m))) Hd)|]. intros [ok b] [Ha Hd'].
  pose proof (start_mounts (put_btrfs b) m L O) as Hm0. set (m1 := on_world (put_btrfs b) m) in *.
  assert (sched_ok (m_k m1) 0) as Hok1 by done. destruct addresses as (_ & _ & Hba).
  eapply completes_mono; [|intros m' Hm'; exists b, ok; split; [done|exact Hm']]. destruct ok; cbn [btrfs_paths].
  - eapply completes_bind; [apply (mount_next "/mnt/btrfs" _ _ [] m1 m1); [done..| |done]|].
    { change (Vfs.g_mount_count (vfs m1)) with (Vfs.g_mount_count (vfs m)). change (zlen []) with 0. lia. }
    intros m2 H2. by apply log_next.
  - by apply log_next.
Qed.

(** ** The stages *)

(** Probing finds no device, or one that works. *)
Hypothesis ata_init_ok : forall d, dev_ok (ata_init d).
Hypothesis alloc_fresh : forall s, SageEnv.heap s !! alloc s = None.
Hypothesis stdlib_ok : forall g c s, SageEnv.wf s -> is_Some (SageEnv.heap s !! g) ->
  completes (stdlib g c s) (fun '(_, s') => SageEnv.wf s' /\ is_Some (SageEnv.heap s' !! g)).
Context (info : Pmm.boot_info).

(** The zeroed memory of the kernel image. *)
Record powered_on m : Prop := {
  po_exts : IpcSpec.exts_conf (g_thread_ipc_ext (m_k m));
  po_ports : forall j p, (g_ports (Syscall.s_i (m_s m))).[j] = Some p -> pending_count p = 0;
  po_sched : in_sched (m_k m) = 0 /\ g_next_pid (m_k m) = 1;
  po_heap : heap_inv heap_base (k_heap (m_k m)) [] /\ sage_bump (k_heap (m_k m)) = 0;
  po_log : log_ok m;
  po_mounts : zlen (Vfs.g_mounts (vfs m)) = Vfs.VFS_MAX_MOUNTS;
  po_frames : Pmm.pmm_used_frames (m_pmm m) = 0;
  po_run : m_gil m = None /\ m_env m = None /\ SageEnv.wf (m_envs m)
}.

(** Frames are free outside the reserved areas. *)
Definition frames_ok (p : Pmm.pmm) : Prop :=
  Pmm.wf p /\ Pmm.pmm_total_frames p = Pmm.init_total info /\ Pmm.pmm_used_frames p = 0 /\
  forall f, 0 <= f < Pmm.init_total info -> Pmm.frame_set p f = Pmm.init_reserved info f.

(** The interpreter: not yet there, or with the names scripts look up first. *)
Definition interp_ok (ready : bool) m : Prop :=
  m_gil m = None /\ SageEnv.wf (m_envs m) /\
  if ready then exists g, m_env m = Some g /\ forall n, (size (SageEnv.heap (m_envs m)) <= n)%nat ->
      SageEnv.env_get n (Some g) (txt "SAGE_ABI_MAJOR") 14 (m_envs m) = Ret (Some (val_number BridgeRun.SAGE_ABI_MAJOR)) /\
      SageEnv.env_get n (Some g) (txt "SAGE_ABI_MINOR") 14 (m_envs m) = Ret (Some (val_number BridgeRun.SAGE_ABI_MINOR))
  else m_env m = None.

(** Between two stages. *)
Record booting (ready : bool) m : Prop := {
  bt_k : idle_only heap_base (m_k m);
  bt_ipc : IpcSpec.iinv (Syscall.s_i (m_s m));
  bt_log : log_ok m;
  bt_mounts : zlen (Vfs.g_mounts (vfs m)) = Vfs.VFS_MAX_MOUNTS;
  bt_frames : frames_ok (m_pmm m);
  bt_run : interp_ok ready m
}.

Lemma iinv_quiet s k' : quiet (i_k s) k' -> IpcSpec.iinv s -> IpcSpec.iinv (with_i_k k' s).
Proof. intros (t & tr & ->) [[] ?]. split; [by split|done]. Qed.

Lemma booting_log r m m' : same_but_log m m' -> log_ok m' -> booting r m -> booting r m' /\ vfs m' = vfs m.
Proof.
  intros [K I V' M R] L [Hk Hi _ Hm Hf Hr]. split; [|done]. split; [by eapply idle_quiet| |done|by rewrite V'|by rewrite M|].
  - rewrite I. by apply iinv_quiet.
  - destruct R as (E1 & E2 & E3 & E4). unfold interp_ok. by rewrite E1, E2, E4.
Qed.

Lemma booting_mounted r p m m' : mounted_more p m m' -> booting r m -> booting r m'.
Proof.
  intros [K I _ _ _ O L M _ R] [Hk Hi _ _ Hf Hr]. split; [by eapply idle_quiet| |done|by destruct O|by rewrite M|].
  - rewrite I. by apply iinv_quiet.
  - destruct R as (E1 & E2 & E3 & E4). unfold interp_ok. by rewrite E1, E2, E4.
Qed.

Lemma booting_stage r st m : 0 <= st <= 8 -> booting r m ->
  completes (set_stage arch hw st m) (fun m' => booting r m' /\ vfs m' = vfs m /\ m_stage m' = st).
Proof.
  intros Hst Hb. eapply completes_mono; [apply set_stage_keeps; [done|by destruct Hb|by destruct Hb as [[]]]|]. intros m' (Hs & L & E).
  by destruct (booting_log r m m' Hs L Hb).
Qed.

Lemma booting_text r t m : t <> [] -> booting r m ->
  completes (log_text arch hw t m) (fun m' => booting r m' /\ vfs m' = vfs m /\ m_stage m' = m_stage m).
Proof.
  intros Ht Hb. eapply completes_mono; [apply log_text_keeps; [done|by destruct Hb]|]. intros m' (Hs & L & E). by destruct (booting_log r m m' Hs L Hb).
Qed.

Lemma booting_line r t m : txt t <> [] -> booting r m ->
  completes (log arch hw t m) (fun m' => booting r m' /\ vfs m' = vfs m /\ m_stage m' = m_stage m).
Proof. apply booting_text. Qed.

Hypothesis info_ok : 0 <= Pmm.memory_total info <= 2 ^ 64 - Pmm.PAGE_SIZE /\ 0 <= Pmm.kernel_base info /\ 0 <= Pmm.kernel_size info /\
  Pmm.kernel_base info + Pmm.kernel_size info <= Pmm.MAX_RAM.

Lemma exts_conf_ok exts : IpcSpec.exts_conf exts -> exts_ok exts.
Proof. intros [Hl He]. split; [done|]. intros i e Hi. by destruct (He i e Hi). Qed.

Lemma sched_init_ok m : powered_on m -> exists k, sched_init stack_bottom (m_k m) = Ret k /\ idle_only heap_base k /\ IpcSpec.kinv IpcSpec.exts_conf k.
Proof.
  intros [Hx _ [Hin Hpid] Hh _ _ _ _]. unfold sched_init. destruct (sched_ipc_init_thread_ok 0 _ (exts_conf_ok _ Hx)) as (exts & E & Hx' & _).
  pose proof (IpcSpec.init_thread_conf _ _ _ Hx E) as Hc. rewrite E. cbn [mbind outcome_bind]. eexists. split; [reflexivity|]. split.
  - split; [by split|by eexists| |done|done]. intros i t Hi.
    change ((replicate (Z.to_nat MAX_TASKS) thread_zero).[0 <- idle_thread stack_bottom].[i] = Some t -> state t = THREAD_STATE_UNUSED).
    rewrite zget_zset_ne by lia. by intros ->%zget_replicate_inv.
  - split; cbn; [done|by exists 0|done|done].
Qed.

Lemma boot_memory_ok m : powered_on m -> completes (boot_memory arch hw stack_bottom info m) (booting false).
Proof.
  intros Hp. unfold boot_memory. destruct (sched_init_ok m Hp) as (k & -> & Hk & Hc). cbn [mbind outcome_bind].
  destruct Hp as [_ Hports _ _ Hlog Hm Hu (G & E & W')]. set (m0 := with_m_k k m).
  eapply completes_bind; [apply (set_stage_keeps 1 m0); [lia|done|by destruct Hk]|]. intros m1 ([K I V' M R] & L & _).
  set (m2 := with_m_k _ m1). destruct info_ok as (? & ? & ? & ?).
  assert (m_pmm m2 = m_pmm m) as -> by (change (m_pmm m1 = m_pmm m0); done).
  eapply completes_bind; [apply Pmm.phys_init_spec; [done..|]; rewrite Hu; lia|]. intros p (Hw & Ht & Hus & Hf).
  assert (quiet (m_k m0) (m_k m2)) as Kq by (eapply quiet_trans; [exact K|apply quiet_trace]).
  eapply completes_bind; [apply pmm_line_ok|]. intros t Hne.
  eapply completes_bind; [apply (booting_text false t); [done|]|intros m3 (Hb3 & _); eapply completes_mono; [by apply (booting_line false)|by intros m' (? & _)]].
  split; cbn [m_s m_pmm with_m_pmm].
  - change (m_k (with_m_pmm p m2)) with (m_k m2). by apply (idle_quiet heap_base k).
  - change (IpcSpec.iinv (with_i_k (m_k m2) (Syscall.s_i (m_s m1)))). rewrite I.
    change (IpcSpec.iinv (with_i_k (m_k m2) (with_i_k k (Syscall.s_i (m_s m))))). apply iinv_quiet; [done|]. by split.
  - done.
  - change (zlen (Vfs.g_mounts (vfs m1)) = Vfs.VFS_MAX_MOUNTS). by rewrite V'.
  - by rewrite Hu in Hus.
  - destruct R as (E1 & E2 & E3 & E4). unfold interp_ok. cbn. rewrite E1, E2, E4. done.
Qed.

Lemma ipc_init_inv s : IpcSpec.kinv IpcSpec.exts_conf (i_k s) -> IpcSpec.iinv (ipc_subsystem_init s).
Proof.
  intros [Hl Hc Hi _]. split.
  - split; [done..|]. split; [done|]. intros j e Hj.
    change ((replicate (Z.to_nat SCHED_MAX_THREADS) ext_zero).[j] = Some e) in Hj. apply zget_replicate_inv in Hj as ->. apply IpcSpec.table_zero_conf.
  - intros j p Hj. unfold ipc_subsystem_init in Hj. cbn [g_ports] in Hj. unfold zget in Hj. case_match; [|done].
    apply list_lookup_fmap_Some in Hj as (x & -> & _). done.
Qed.

Lemma exts_zero_ok : exts_ok (replicate (Z.to_nat SCHED_MAX_THREADS) ext_zero).
Proof. apply exts_conf_ok. split; [done|]. intros j e ->%zget_replicate_inv. apply IpcSpec.table_zero_conf. Qed.

Lemma boot_devices_ok m : booting false m ->
  completes (boot_devices ata_init arch hw m) (fun m' => booting false m' /\ dev_ok (st_dev (Vfs.world (vfs m')))).
Proof.
  intros Hb. unfold boot_devices. eapply completes_bind; [apply (booting_stage false 2); [lia|done]|]. intros m1 (Hb1 & _ & _).
  eapply completes_bind; [apply (booting_stage false 3); [lia|done]|]. intros m2 ([Hk Hi L M F R] & _ & _). apply completes_Ret.
  split; [|apply ata_init_ok]. set (i := ipc_subsystem_init (Syscall.s_i (m_s m2))). set (t := timer_init _ _ _).
  split; [| |done|done|done|done].
  - change (idle_only heap_base (with_k_timer t (i_k i))). apply (idle_quiet _ (i_k i)); [apply quiet_timer|].
    destruct Hk as [[] ? ? ? ?]. split; try done. split; try done. apply exts_zero_ok.
  - change (IpcSpec.iinv (with_i_k (with_k_timer t (i_k i)) i)). apply iinv_quiet; [apply quiet_timer|]. apply ipc_init_inv, Hi.
Qed.

(** What is mounted, and that the file systems say so themselves. *)
Definition mounts_of (fat btrfs : bool) m : Prop :=
  VfsSpec.mounts_ok (vfs m) /\ mount_paths m = txt <$> (fat_paths fat ++ btrfs_paths btrfs) /\
  Fat32.fat32_available (st_fat (Vfs.world (vfs m))) = fat /\ st_btrfs_available (Vfs.world (vfs m)) = (if btrfs then 1 else 0).

Lemma booting_world r f m : booting r m -> booting r (on_world f m).
Proof. by intros []. Qed.

Lemma vfs_init_ok r m (m1 := with_m_s (Syscall.with_s_v (Vfs.vfs_init br (vfs m)) (m_s m)) m) : booting r m ->
  booting r m1 /\ VfsSpec.mounts_ok (vfs m1) /\ Vfs.g_mount_count (vfs m1) = 0 /\ Vfs.world (vfs m1) = Vfs.world (vfs m).
Proof.
  intros [Hk Hi L M F R]. change (vfs m1) with (Vfs.vfs_init br (vfs m)).
  assert (Vfs.g_mounts (Vfs.vfs_init br (vfs m)) = Vfs.set_active false <$> Vfs.g_mounts (vfs m)) as Eg by (unfold Vfs.vfs_init; by case_match).
  assert (Vfs.g_mount_count (Vfs.vfs_init br (vfs m)) = 0) as E0 by (unfold Vfs.vfs_init; by case_match).
  assert (zlen (Vfs.g_mounts (Vfs.vfs_init br (vfs m))) = Vfs.VFS_MAX_MOUNTS) as El by (unfold zlen; by rewrite Eg, length_fmap).
  split; [by split|]. split; [|split; [done|unfold Vfs.vfs_init; by case_match]]. split; [done|rewrite E0; done|]. rewrite E0. intros i x Hx. lia.
Qed.

Lemma boot_swap_ok r name m : booting r m ->
  completes (boot_swap arch hw name m) (fun m' => booting r m' /\ vfs m' = vfs m).
Proof.
  intros Hb. unfold boot_swap, Swap.swap_init. destruct (ata_is_available (st_dev (Vfs.world (Syscall.s_v (m_s m))))).
  - set (m1 := with_m_swap _ m). assert (booting r m1) as Hb1 by (by destruct Hb). destruct (bt_log r m1 Hb1) as [Hw Hbol].
    destruct (syscall_log_ok (Swap.swap_registered name) (m_s m1)) as (s & E & tm & Es & Hs); [done..|]. rewrite E. cbn [mbind outcome_bind]. apply completes_Ret.
    apply (booting_log r m1); [|done|done]. eapply log_machine. exists s. split; [exact E|]. split; [done|by exists tm].
  - apply completes_Ret. by destruct Hb.
Qed.

Lemma boot_storage_ok name offset m : booting false m -> dev_ok (st_dev (Vfs.world (vfs m))) ->
  completes (boot_storage br fw arch hw stack_bottom sector0 lfn0 junk temp ename255 str_addr fat_addr btrfs_addr fuel name offset m)
    (fun m' => booting false m' /\ exists fat btrfs, mounts_of fat btrfs m').
Proof.
  intros Hb Hd. unfold boot_storage. eapply completes_bind; [apply (booting_stage false 4); [lia|done]|]. intros m1 (Hb1 & Ev & _).
  destruct (vfs_init_ok false m1 Hb1) as (Hb2 & O2 & C2 & W2). change (Syscall.s_v (m_s m1)) with (vfs m1). set (m2 := with_m_s _ m1) in *.
  assert (mount_paths m2 = []) as P2 by (unfold mount_paths; by rewrite C2).
  eapply completes_bind; [apply boot_fat_ok; [apply Hb2|apply Hb2|done|done|rewrite W2, Ev; done]|]. intros m3 (f & Hf & M3).
  pose proof (booting_mounted false _ _ _ M3 (booting_world _ (put_fat f) _ Hb2)) as Hb3. destruct M3 as [_ _ W3 C3 P3 O3 _ _ _ _].
  change (Vfs.g_mount_count (vfs (on_world (put_fat f) m2))) with (Vfs.g_mount_count (vfs m2)) in C3. change (mount_paths (on_world (put_fat f) m2)) with (mount_paths m2) in P3.
  eapply completes_bind; [apply boot_btrfs_ok; [apply Hb3|apply Hb3|done| |rewrite W3; done]|].
  { rewrite C3, C2. by destruct (Fat32.fat32_available _). }
  intros m4 (b & ok & Hav & M4). pose proof (booting_mounted false _ _ _ M4 (booting_world _ (put_btrfs b) _ Hb3)) as Hb4. destruct M4 as [_ _ W4 _ P4 O4 _ _ _ _].
  eapply completes_bind; [by apply boot_swap_ok|]. intros m5 (Hb5 & V5). apply completes_Ret. split; [by destruct Hb5|].
  exists (Fat32.fat32_available (Fat32.fs f)), ok. unfold mounts_of, mount_paths in *. change (vfs (with_m_bootlog _ m5)) with (vfs m5). rewrite V5. split; [done|]. split; [|].
  - rewrite P4. change (vfs (on_world (put_btrfs b) m3)) with (Vfs.with_world (put_btrfs b (Vfs.world (vfs m3))) (vfs m3)). cbn [Vfs.with_world Vfs.g_mount_count Vfs.g_mounts].
    rewrite P3, P2, fmap_app. done.
  - rewrite W4. change (Vfs.world (vfs (on_world (put_btrfs b) m3))) with (put_btrfs b (Vfs.world (vfs m3))). rewrite W3. done.
Qed.

Lemma runtime_init_ok (r : BridgeRun.rt V unit unit) : BridgeRun.g_gil_owner r = None -> BridgeRun.g_sage_env r = None -> SageEnv.wf (BridgeRun.r_envs r) ->
  g_sched_inited (BridgeRun.r_k r) = 1 ->
  completes (run 0 (fun s => s) (BridgeRun.sage_runtime_init arch hw stack_bottom val_native val_number alloc stdlib 0 fuel r)) (fun '(_, r') =>
    BridgeRun.r_k r' = BridgeRun.r_k r /\ BridgeRun.g_gil_owner r' = None /\ SageEnv.wf (BridgeRun.r_envs r') /\
    exists g, BridgeRun.g_sage_env r' = Some g /\ forall n, (size (SageEnv.heap (BridgeRun.r_envs r')) <= n)%nat ->
      SageEnv.env_get n (Some g) (txt "SAGE_ABI_MAJOR") 14 (BridgeRun.r_envs r') = Ret (Some (val_number BridgeRun.SAGE_ABI_MAJOR)) /\
      SageEnv.env_get n (Some g) (txt "SAGE_ABI_MINOR") 14 (BridgeRun.r_envs r') = Ret (Some (val_number BridgeRun.SAGE_ABI_MINOR))).
Proof.
  intros Hg He Hw Hi. unfold BridgeRun.sage_runtime_init, BridgeRun.sage_repl_init, BridgeRun.sage_gil_acquire.
  assert (g_sched_inited (BridgeRun.r_k r) <> 0) as Hi' by lia. rewrite BridgeRun.acquire_free by done.
  cbn [pbind BridgeRun.set_owner BridgeRun.g_sage_env BridgeRun.r_envs]. rewrite He.
  destruct (BridgeRun.build_env_ok val_native val_number alloc stdlib alloc_fresh stdlib_ok _ Hw) as ([[g c] x] & -> & Hx & _ & Hn).
  cbn [mbind outcome_bind plift pbind]. rewrite BridgeRun.release_own by done. cbn [run]. apply completes_Ret. cbn. split_and!; [done..|]. by exists g.
Qed.

Lemma boot_runtime_ok m : booting false m ->
  completes (boot_runtime arch hw stack_bottom val_native val_number alloc stdlib fuel m) (fun m' => booting true m' /\ vfs m' = vfs m).
Proof.
  intros Hb. unfold boot_runtime. eapply completes_bind; [apply (booting_stage false 5); [lia|done]|]. intros m1 (Hb1 & V1 & _).
  eapply completes_bind; [by apply (booting_line false)|]. intros m2 ([Hk Hi L M F (G & W' & E)] & V2 & _).
  set (r := BridgeRun.mk_rt _ _ _ _ _ _ _). eapply completes_bind; [apply (runtime_init_ok r); [done..|by destruct Hk as [[]]]|].
  intros [[] r1] (Ek & Eg & Hw & Hn). set (m3 := mk_machine _ _ _ _ _ _ _ _ _).
  assert (booting true m3) as Hb3.
  { split; [|  |done|done|done|done].
    - change (idle_only heap_base (BridgeRun.r_k r1)). by rewrite Ek.
    - change (IpcSpec.iinv (with_i_k (BridgeRun.r_k r1) (Syscall.s_i (m_s m2)))). rewrite Ek. apply iinv_quiet; [apply quiet_refl|done]. }
  eapply completes_bind; [by apply (booting_line true)|]. intros m4 (Hb4 & V4 & _).
  eapply completes_mono; [by apply (booting_line true)|]. intros m5 (Hb5 & V5 & _). split; [done|]. rewrite V5, V4. change (vfs m3) with (vfs m2). by rewrite V2.
Qed.

(** *** The supervisor *)

Hypothesis heap_fits : arena_ok heap_base /\ SCHED_STACK_SIZE <= heap_base.

(** The idle thread runs, the supervisor has a stack and is ready. *)
Record two_tasks (k : kstate) : Prop := {
  tt_sched : sched_ok k 0;
  tt_running : one_running k 0;
  tt_supervisor : exists t, (g_tasks k).[1] = Some t /\ created heap_base 1 t (k_heap k);
  tt_rest i t : 1 < i -> (g_tasks k).[i] = Some t -> state t = THREAD_STATE_UNUSED;
  tt_pid : g_next_pid k = 2
}.

Lemma two_tasks_quiet k k' : quiet k k' -> two_tasks k -> two_tasks k'.
Proof.
  intros (tm & tr & ->) [[] Ho (t & Ht & Hid & Hst & Hcwd & bl & n & Hh & Hrest) Hr Hp]. split; [by split|done| |done|done].
  exists t. split; [done|]. split_and!; [done..|]. exists bl, n. split; [by apply heap_inv_trace|done].
Qed.

Lemma idle_running k : idle_only heap_base k -> one_running k 0.
Proof.
  intros [_ (t0 & Ht0 & Hr) Hrest _ _] i t Ht. split; [|intros ->; congruence]. intros Hs. pose proof (zget_Some_bound _ _ _ Ht).
  destruct (decide (i = 0)) as [|Hne]; [done|]. rewrite (Hrest i t) in Hs by (done || lia). discriminate.
Qed.

Lemma second_free k : idle_only heap_base k -> find_state (Z.to_nat MAX_TASKS) 0 THREAD_STATE_UNUSED (g_tasks k) = Ret (Some 1).
Proof.
  intros [[Hl _ _ _ _ _] (t0 & Ht0 & Hr) Hrest _ _]. change (Z.to_nat MAX_TASKS) with (S (S 126)). cbn [find_state].
  destruct (rd_in_range (g_tasks k) 0) as (x & -> & Hx); [rewrite Hl; done|]. cbn [mbind outcome_bind]. rewrite bool_decide_false by congruence. destruct (rd_in_range (g_tasks k) (0 + 1)) as (t1 & -> & Ht1); [rewrite Hl; done|]. cbn [mbind outcome_bind].
  by rewrite bool_decide_true by (apply (Hrest 1); [lia|done]).
Qed.

Lemma create_supervisor k : idle_only heap_base k -> exists k',
  sched_create_thread arch heap_base stack_bottom sched_trampoline (txt "supervisor") supervisor_entry 0 THREAD_PRIORITY_NORMAL k = Ret (Some 1, k') /\ two_tasks k'.
Proof.
  intros Hk. pose proof Hk as [Hok (t0 & Ht0 & Hr0) Hrest Hpid [Hh Hbump]]. destruct heap_fits as [Ha Hs].
  pose proof (create_thread_spec arch heap_base stack_bottom sched_trampoline (txt "supervisor") supervisor_entry 0 THREAD_PRIORITY_NORMAL k 0 [] Ha Hs Hok Hh) as Hc.
  destruct (sched_create_thread _ _ _ _ _ _ _ _ k) as [[[i|] k']| |] eqn:E; [| | |done].
  - pose proof E as E'. unfold sched_create_thread in E'. rewrite (second_free k Hk) in E'. cbn [mbind outcome_bind] in E'.
    assert (i = 1) as -> by (repeat (apply bind_Ret_inv in E' as ([] & _ & E') || apply bind_Ret_inv in E' as (? & _ & E')); by injection E').
    destruct Hc as (_ & (t & Ht & Hcr) & Hsame & Hnp). destruct (create_inv arch heap_base stack_bottom sched_trampoline _ _ _ _ _ _ _ (ex_intro _ 0 (conj Hok (idle_running k Hk))) E) as (c & Hok' & Ho').
    assert (0 = c) as <- by (apply (Ho' 0 t0); [by rewrite Hsame|done]). exists k'. split; [done|]. split; [done|done| | |].
    + exists t. split; [done|]. by rewrite Hpid in Hcr.
    + intros i u Hi. rewrite Hsame by lia. apply Hrest. lia.
    + by rewrite Hnp, Hpid.
  - destruct Hc as [_ Hn]. exfalso. destruct (rd_in_range (g_tasks k) 1) as (t1 & _ & Ht1); [destruct Hok as [-> _ _ _ _ _]; done|].
    apply (Hn 1). exists t1. split; [done|]. by apply (Hrest 1).
  - destruct Hc as [_ Hc]. rewrite Hbump in Hc. by vm_compute in Hc.
Qed.

(** The system at the idle loop. *)
Record booted m : Prop := {
  bd_stage : m_stage m = 6;
  bd_tasks : two_tasks (m_k m);
  bd_ipc : IpcSpec.iinv (Syscall.s_i (m_s m));
  bd_log : log_ok m;
  bd_frames : frames_ok (m_pmm m);
  bd_mounts : exists fat btrfs, mounts_of fat btrfs m;
  bd_interp : interp_ok true m
}.

Lemma execute_init_ok m : booting true m -> (exists fat btrfs, mounts_of fat btrfs m) -> m_stage m = 6 ->
  completes (sage_execute_init arch hw heap_base stack_bottom sched_trampoline supervisor_entry m) booted.
Proof.
  intros [Hk Hi L _ F R] Hm St. unfold sage_execute_init. destruct (create_supervisor (m_k m) Hk) as (k & E & Hk'). rewrite E. cbn [mbind outcome_bind].
  eapply completes_mono; [by apply log_keeps|]. intros m' ([K I V' M (E1 & E2 & E3 & E4)] & L' & S'). split; [by rewrite S'|by eapply two_tasks_quiet| |done|by rewrite M| |].
  - rewrite I. change (IpcSpec.iinv (with_i_k (m_k m') (with_i_k k (Syscall.s_i (m_s m))))). apply iinv_quiet; [done|]. destruct Hi as [Hi Hp].
    split; [|done]. by eapply IpcSpec.create_thread_kinv.
  - unfold mounts_of, mount_paths. by rewrite V'.
  - unfold interp_ok. by rewrite E1, E2, E4.
Qed.


Lemma made_up_above p : arch <> TIMER_ARCH_X86 -> Pmm.pmm_used_frames p = 0 -> Pmm.phys_init (boot_info arch None) p = Fault.
Proof.
  intros Ha Hu. apply Pmm.phys_init_kernel_above_bitmap; [..|rewrite Hu; lia]; (destruct arch; [by destruct Ha|..]); by cbv.
Qed.

(** C39: without boot information the ports to aarch64 and riscv64 do not get beyond
    memory initialisation: the made-up kernel image lies above the memory that the
    bitmap of page frames covers, and reserving its frames stores out of range. *)
Theorem kmain_without_info_faults log_offset name m : arch <> TIMER_ARCH_X86 -> powered_on m ->
  kmain ata_init br fw arch hw heap_base stack_bottom sched_trampoline sector0 lfn0 junk temp ename255 str_addr fat_addr btrfs_addr supervisor_entry
    val_native val_number alloc stdlib fuel None log_offset name m = Fault.
Proof.
  intros Ha Hp. unfold kmain. assert (boot_memory arch hw stack_bottom (boot_info arch None) m = Fault) as ->; [|reflexivity].
  unfold boot_memory. destruct (sched_init_ok m Hp) as (k & -> & Hk & Hc). cbn [mbind outcome_bind]. destruct Hp as [_ _ _ _ Hlog _ Hu _].
  eapply bind_fault; [apply (set_stage_keeps 1 (with_m_k k m)); [lia|done|by destruct Hk]|]. intros m1 ([_ _ _ M _] & _).
  assert (Pmm.phys_init (boot_info arch None) (m_pmm m) = Fault) as E by (by apply made_up_above).
  change (m_pmm (with_m_k k m)) with (m_pmm m) in M. rewrite <- M in E. set (m2 := with_m_k _ m1). change (m_pmm m2) with (m_pmm m1). rewrite E. reflexivity.
Qed.
End boot.

#[local] Existing Instances BtrfsSpec.fun_device BtrfsSpec.fun_laws.

(** A machine with 2 MiB of memory, the kernel at 1 MiB, and the disk of the Btrfs examples. *)
Definition ex_info : Pmm.boot_info := Pmm.mk_boot_info 2097152 2097152 1048576 65536.
Definition ex_bridge : Vfs.bridge (storage BtrfsSpec.fundisk) :=
  Vfs.mk_bridge false (fun _ w => Ret w) (fun _ w => Ret (None, w)) (fun _ w => Ret (None, w)) (fun _ _ _ w => Ret (None, w))
    (fun _ _ _ w => Ret (None, w)) (fun _ w => Ret (None, w)) (fun _ w => Ret (None, w)) (fun _ w => Ret (None, w)).
Definition ex_firmware : Fat32.efi (D := BtrfsSpec.fundisk) unit :=
  Fat32.mk_efi _ (fun _ => false) (fun _ _ d => (1, tt, d)) None None (fun _ _ d => (1, [], d)) (fun _ _ d => (1, 0, d)) None (fun _ d => d).
Definition ex_backend : Vfs.backend (storage BtrfsSpec.fundisk) := Vfs.mk_backend [] None None None None None None None.
Definition ex_storage : storage BtrfsSpec.fundisk := mk_storage Fat32.fat_static 0 [] [] BtrfsSpec.ex_disk.
Definition ex_machine : machine (D := BtrfsSpec.fundisk) (V := Z) :=
  mk_machine (Syscall.mk_s (ipc_subsystem_init (mk_i kstate_static [] [] [] [] None 0 ∅))
      (Vfs.mk_vfs (replicate (Z.to_nat Vfs.VFS_MAX_MOUNTS) (Vfs.mk_mount [] 0 ex_backend false)) 0 false false kstate_static ex_storage) dmesg_static [])
    (Pmm.mk_pmm [] 0 0) 0 (Swap.MkSwap 0 0 0) (BootLog.bootlog_init None) None None [] SageEnv.envs_static.

Lemma ex_exts : IpcSpec.exts_conf (replicate (Z.to_nat SCHED_MAX_THREADS) ext_zero).
Proof. split; [done|]. intros j e ->%zget_replicate_inv. apply IpcSpec.table_zero_conf. Qed.

Lemma ex_powered_on : powered_on 65536 ex_machine.
Proof.
  split.
  - exact ex_exts.
  - intros j p Hj. unfold zget in Hj. case_match; [|discriminate]. apply list_lookup_fmap_Some in Hj as (x & -> & _). reflexivity.
  - split; reflexivity.
  - split; [|reflexivity]. apply (empty_inv 65536); [apply arena_65536|apply mem_zero_wf|reflexivity].
  - split; [apply dmesg_wf_static|reflexivity].
  - reflexivity.
  - reflexivity.
  - split_and!; [reflexivity..|apply SageEnv.wf_static].
Qed.


Lemma kmain_without_info_faults_witness :
  kmain (fun _ => BtrfsSpec.ex_disk) ex_bridge ex_firmware TIMER_ARCH_RV64 (fun _ => mk_hw 0 0 0) 65536 4096 4096 [] [] [] [] 0
    (fun _ => 1) 1 2 4096 (fun _ => 0) (fun x => x) (fun s => fresh (dom (SageEnv.heap s))) (fun _ c s => Ret (c, s)) 1 None 0 [118] ex_machine = Fault.
Proof. apply kmain_without_info_faults; [discriminate|apply ex_powered_on]. Defined.
End KmainSpec.
