(* ===== verification/FileStack.v ===== *)
(** * Files from the disk to the shell and the interpreter

    The layers of Shell, Stdio, Vfs, Fat32 and the block device put together: for
    files on a FAT32 volume that is mounted as the kernel mounts it, [vfs_read],
    [vfs_write] and [vfs_stat] are reads, writes inside the file and sizes; so the
    streams of the interpreter are files with a position, and [cp] copies over an
    existing file.  (The volume cannot create files, and a write past the end of a
    file does not lengthen it; see Fat32Limits.)

    Conditions: the firmware's file protocol is not in use, and what the bytecode
    behind the bridge does when it is asked to create a file changes nothing. *)

From Stdlib Require Import String Ascii.
From stdpp Require Import base tactics list numbers option sets.
From S2P Require Import Prelude Digits CMem Telemetry Timer Alloc Sched SchedSpec Vfs VfsSpec BlockDev Fat32 Fat32Spec Fat32Write Libc Console LineEdit Shell ShellSpec Stdio Kmain.

Module FileStack.
Import Vfs Fat32 Fat32Spec Fat32Write LineEdit Shell Kmain.
Local Open Scope string_scope.
Local Open Scope list_scope.
Local Open Scope Z_scope.

Section stack.
Context {D FH : Type} `{HD : BlockDevice D, HL : !BlockDeviceLaws D}.
Context (br : bridge (storage D)) (fw : efi (D := D) FH) (stack_bottom : Z).
(** Contents of local variables, the rounds of loops, the files in the image. *)
Context (sector0 lfn0 : list Z) (ename255 : Z) (fuel : nat) (st0 : vfs_stat_t) (es0 : list dir_entry)
  (files : list (list Z * list Z)) (depth : nat).
Hypothesis Hsector0 : zlen sector0 = SECTOR.
Hypothesis Hfw : forall d, efi_active FH fw d = false.
Implicit Types s : vstate (storage D).

#[local] Instance kernel_files : FileSystem (vstate (storage D)) := vfs_files br stack_bottom st0 es0 files depth.
Abbreviation fat32_be := (fat32_backend fw sector0 lfn0 ename255 fuel).

Definition vol s : fstate := get_fat (world s).

(** A running thread, and a mounted volume on a working device. *)
Record well s : Prop := {
  w_thread : exists c, zlen (Sched.g_tasks (v_k s)) = Sched.MAX_TASKS /\ Sched.g_current_task (v_k s) = Some c /\ 0 <= c < Sched.MAX_TASKS /\
    Sched.g_sched_inited (v_k s) = 1;
  w_ready : bd_ready (dev (vol s));
  w_available : fat32_available (fs (vol s)) = true;
  w_vol : vol_ok (fs (vol s))
}.

(** [p] leads to the volume, and there through the directories in the clusters [T] to
    the entry [e] of a file, whose clusters [cs] hold [c]. *)
Record file_on (p : list Z) (e : dirent) (T cs c : list Z) s : Prop := {
  fo_path : exists q m rel, normalize p = Ret q /\ resolve_mount q s = Ret (Some (m, rel)) /\ m_backend m = fat32_be /\
    reaches sector0 lfn0 ename255 (fs (vol s)) (dev (vol s)) fuel (skip_slashes rel) (fat32_root_cluster (fs (vol s))) e T;
  fo_dirs : Forall (in_area (fs (vol s))) T;
  fo_file : file_at (fs (vol s)) (dev (vol s)) fuel e cs c;
  fo_size : 0 <= d_file_size e < 2 ^ 31
}.

(** Steps that change the trace and the disk only. *)
Record moved s s' : Prop := {
  mv_mounts : g_mounts s' = g_mounts s /\ g_mount_count s' = g_mount_count s;
  mv_fs : fs (vol s') = fs (vol s);
  mv_well : well s'
}.

(** Every file is as before. *)
Definition kept s s' : Prop := moved s s' /\ forall x, disk (dev (vol s')) x = disk (dev (vol s)) x.

Lemma same_files_refl s : well s -> kept s s.
Proof. intros Hw. split; [by split|done]. Qed.

Lemma moved_trans s1 s2 s3 : moved s1 s2 -> moved s2 s3 -> moved s1 s3.
Proof. intros [[A1 A2] A3 A4] [[B1 B2] B3 B4]. split; [split; congruence|congruence|done]. Qed.

Lemma same_files_trans s1 s2 s3 : kept s1 s2 -> kept s2 s3 -> kept s1 s3.
Proof. intros [A1 A2] [B1 B2]. split; [by eapply moved_trans|]. intros x. by rewrite B2. Qed.

Lemma file_size p e T cs c s : file_on p e T cs c s -> zlen c = d_file_size e.
Proof. intros [_ _ [_ _ _ _ _ [_ Hl] ->] Hs]. unfold zlen in *. rewrite length_take. lia. Qed.

(** A file whose clusters and directories are as before. *)
Lemma file_frame p e T cs c s s' :
  moved s s' -> agrees (fs (vol s)) T (dev (vol s)) (dev (vol s')) -> agrees (fs (vol s)) cs (dev (vol s)) (dev (vol s')) ->
  file_on p e T cs c s -> file_on p e T cs c s'.
Proof.
  intros [[M1 M2] M3 _] HT Hcs [(q & m & rel & Hq & Hm & Hb & Hr) Hd Hf Hs]. split; rewrite ?M3; try done.
  - exists q, m, rel. split_and!; [done| |done|]; [unfold resolve_mount in *; by rewrite M1, M2|by eapply reaches_frame].
  - by eapply file_at_frame.
Qed.

Lemma kept_file p e T cs c s s' : kept s s' -> file_on p e T cs c s -> file_on p e T cs c s'.
Proof. intros [Hm Hd]. by apply file_frame. Qed.

Lemma trace_kept ev a b s : well s -> exists s1, v_trace stack_bottom ev a b s = Ret s1 /\ kept s s1 /\ world s1 = world s.
Proof.
  intros [(c & H1 & H2 & H3 & H4) Hr Ha Hv]. unfold v_trace.
  destruct (SchedSpec.k_trace_log_ok stack_bottom ev a b (v_k s) c H1 H2 H3 H4) as (tr & ->). cbn [mbind outcome_bind].
  eexists. split; [done|]. split; [|done]. split; [|done]. split; [done|done|]. split; [|done..]. by exists c.
Qed.

(** The state after an operation of the volume. *)
Lemma put_moved s (x : fstate) : well s -> fs x = fs (vol s) -> bd_ready (dev x) ->
  let s' := with_world (put_fat x (world s)) s in moved s s' /\ vol s' = x.
Proof.
  intros [W1 W2 W3 W4] Hf Hd. destruct x as [f d]. cbn in Hf, Hd. subst f. split; [|done]. split; [done|done|]. by split.
Qed.

Lemma find_entry s e rel T : well s ->
  reaches sector0 lfn0 ename255 (fs (vol s)) (dev (vol s)) fuel (skip_slashes rel) (fat32_root_cluster (fs (vol s))) e T ->
  exists d1, fat32_find_root_entry sector0 lfn0 ename255 fuel (fs (vol s)) rel (dev (vol s)) = Ret (Some e, d1) /\ same (dev (vol s)) d1.
Proof. intros Hw Hr. apply (find_root_ok sector0 lfn0 ename255 Hsector0 fuel _ _ rel e T _ Hr), same_refl, Hw. Qed.

(** ** The operations of the virtual file system *)

Lemma vfs_read_file p e T cs c off n s :
  well s -> file_on p e T cs c s -> 0 <= off -> 0 <= n ->
  completes (vfs_read br stack_bottom p off n s) (fun r =>
    let d := take (Z.to_nat n) (drop (Z.to_nat off) c) in r.1 = (zlen d, d) /\ kept s r.2).
Proof.
  intros Hw0 Hf0 Ho Hn. destruct (trace_kept Telemetry.TRACE_VFS_READ off n s Hw0) as (s1 & Et & Hk & _). unfold vfs_read. rewrite Et. cbn [mbind outcome_bind].
  pose proof (mv_well _ _ (proj1 Hk)) as Hw. pose proof (kept_file _ _ _ _ _ _ _ Hk Hf0) as Hf. pose proof (file_size _ _ _ _ _ _ Hf) as Hz.
  destruct Hf as [(q & m & rel & -> & Hm & Hb & Hr) _ Hfa Hs]. cbn [mbind outcome_bind]. rewrite Hm. cbn [mbind outcome_bind bound]. rewrite Hb.
  destruct (find_entry s1 e rel T Hw Hr) as (d1 & Ef & _). pose proof Hw as [_ Wr Wa Wv].
  destruct (fat32_read_ok sector0 lfn0 ename255 Hsector0 fuel rel off n (vol s1) e d1 c) as ([[r b] x] & Er & Hbytes & Hlen & Hfs & Hsame); try done;
    [by destruct Wv|by destruct Hfa|by eapply file_at_stored|].
  change (be_read fat32_be) with (Some (fun p o n => on_part (W := storage D) get_fat put_fat (fat32_be_read sector0 lfn0 ename255 fw fuel p o n))).
  cbn iota beta. unfold on_part, fat32_be_read. fold (vol s1). rewrite Hfw, Er. cbn [mbind outcome_bind].
  assert (zlen b <= zlen c) as Hbl by (rewrite Hbytes; unfold zlen; rewrite length_take, length_drop; lia).
  pose proof (zlen_nonneg b). rewrite Hlen, s32_small by lia. rewrite (proj2 (Z.leb_le 0 (zlen b))) by done.
  apply completes_Ret. cbn [fst snd]. rewrite <- Hbytes. split; [done|].
  destruct (put_moved s1 x Hw Hfs (same_ready _ _ Hsame)) as [Hmv Hv]. eapply same_files_trans; [exact Hk|]. split; [exact Hmv|].
  intros y. rewrite Hv. by apply same_disk.
Qed.

Lemma vfs_stat_file p e T cs c s :
  well s -> file_on p e T cs c s ->
  completes (vfs_stat br p st0 s) (fun r => r.1.1 = 0 /\ st_type r.1.2 = VFS_FILE /\ st_size r.1.2 = zlen c /\ kept s r.2).
Proof.
  intros Hw Hf. pose proof (file_size _ _ _ _ _ _ Hf) as Hz. destruct Hf as [(q & m & rel & Hq & Hm & Hb & Hr) _ Hfa _].
  unfold vfs_stat. rewrite Hq. cbn [mbind outcome_bind]. rewrite Hm. cbn [mbind outcome_bind bound]. rewrite Hb.
  destruct (find_entry s e rel T Hw Hr) as (d1 & Ef & Hsame). pose proof Hw as [_ _ Wa _].
  change (be_stat fat32_be) with (Some (fun p o => on_part (W := storage D) get_fat put_fat (fat32_be_stat sector0 lfn0 ename255 fw fuel p o))).
  cbn iota beta. unfold on_part, fat32_be_stat. fold (vol s). rewrite Hfw. unfold fat32_stat. rewrite Wa. cbn [negb].
  rewrite bool_decide_eq_false_2 by (intros ->; cbn in Hr; inversion Hr; subst; cbn in *; simplify_eq).
  rewrite Ef. cbn [mbind outcome_bind]. change (VFS_OK =? VFS_OK) with true. apply completes_Ret. cbn [fst snd st_type st_size].
  rewrite (fa_file _ _ _ _ _ _ Hfa). split_and!; [done|done|done|].
  destruct (put_moved s (Fat32.with_dev d1 (vol s)) Hw eq_refl (same_ready _ _ Hsame)) as [Hmv Hv]. split; [exact Hmv|].
  intros y. rewrite Hv. by apply same_disk.
Qed.

Lemma overwrite_eq l i x : 0 <= i -> ShellSpec.overwrite l i x = overwrite l i x.
Proof. intros Hi. unfold ShellSpec.overwrite, overwrite, zlen. do 3 f_equal. lia. Qed.

(** A file after a write inside it. *)
Lemma file_written e cs c off data (f : fat) (d d' : D) :
  bd_ready d -> bd_ready d' -> vol_ok f -> file_at f d fuel e cs c -> 0 <= off -> off + zlen data <= d_file_size e ->
  (forall y, y ∉ chain_sectors f cs -> disk d' y = disk d y) -> chain_data f d' cs = overwrite (chain_data f d cs) off data ->
  file_at f d' fuel e cs (overwrite c off data).
Proof.
  intros Hd Hd' Hv [Hdir Hc Hn Harea Hnd [Hs Hl] Hct] Ho Hend Hout Hnew.
  assert (zlen (chain_data f d' cs) = zlen (chain_data f d cs)) as Hz by (pose proof (chain_usable _ _ _ _ Hc); by rewrite !zlen_chain_data).
  split; [done| |done|done|done|by rewrite Hz|].
  - eapply chain_frame; [|done]. intros x Hx. apply Hout. rewrite Forall_forall in Harea. apply fat_not_data; [done|by apply Harea|]. by apply Forall_forall.
  - rewrite Hnew, Hct. pose proof (zlen_nonneg data). symmetry. apply take_overwrite; lia.
Qed.

(** After a write to the clusters [cs]: files elsewhere are as before. *)
Definition others (cs : list Z) s s' : Prop :=
  moved s s' /\ forall p' e' T' cs' c', file_on p' e' T' cs' c' s -> cs ## T' -> cs ## cs' -> file_on p' e' T' cs' c' s'.

Lemma kept_others cs s s' : kept s s' -> others cs s s'.
Proof. intros Hk. split; [apply Hk|]. intros p' e' T' cs' c' Hf _ _. by eapply kept_file. Qed.

Lemma others_trans cs s1 s2 s3 : others cs s1 s2 -> others cs s2 s3 -> others cs s1 s3.
Proof. intros [A1 A2] [B1 B2]. split; [by eapply moved_trans|]. intros p' e' T' cs' c' Hf H1 H2. by apply B2; [apply A2|..]. Qed.

Lemma vfs_write_file p e T cs c off data s :
  well s -> file_on p e T cs c s -> cs ## T -> 0 <= off -> off + zlen data <= zlen c -> bytes_ok data ->
  completes (vfs_write br stack_bottom p off data s) (fun r =>
    r.1 = zlen data /\ file_on p e T cs (ShellSpec.overwrite c off data) r.2 /\ others cs s r.2).
Proof.
  intros Hw0 Hf0 Hdis Ho Hend Hdata. destruct (trace_kept Telemetry.TRACE_VFS_WRITE off (zlen data) s Hw0) as (s1 & Et & Hk & _). unfold vfs_write.
  rewrite Et. cbn [mbind outcome_bind]. pose proof (mv_well _ _ (proj1 Hk)) as Hw. pose proof (kept_file _ _ _ _ _ _ _ Hk Hf0) as Hf.
  pose proof (file_size _ _ _ _ _ _ Hf) as Hz. pose proof Hf as [(q & m & rel & Hq & Hm & Hb & Hr) HT Hfa Hs].
  rewrite Hq. cbn [mbind outcome_bind]. rewrite Hm. cbn [mbind outcome_bind bound]. rewrite Hb.
  destruct (find_entry s1 e rel T Hw Hr) as (d1 & Ef & _). pose proof Hw as [_ Wr Wa Wv].
  destruct (fat32_write_ok sector0 lfn0 ename255 Hsector0 fuel rel off data (vol s1) e d1 cs c) as ([r x] & Ew & Hres & Hfs & Hd & Hout & Hnew); try done; [lia|].
  change (be_write fat32_be) with (Some (fun p o d => on_part (W := storage D) get_fat put_fat (fat32_be_write sector0 lfn0 ename255 fw fuel p o d))).
  cbn iota beta. unfold on_part, fat32_be_write. fold (vol s1). rewrite Hfw, Ew. cbn [mbind outcome_bind].
  pose proof (zlen_nonneg data). rewrite Hres, s32_small by lia. rewrite (proj2 (Z.leb_le 0 (zlen data))) by done.
  apply completes_Ret. cbn [fst snd]. destruct (put_moved s1 x Hw Hfs Hd) as [Hmv Hv]. set (s2 := with_world _ s1) in *.
  assert (forall T', Forall (in_area (fs (vol s1))) T' -> cs ## T' -> agrees (fs (vol s1)) T' (dev (vol s1)) (dev (vol s2))) as Hag
    by (intros T' HT' Hd'; rewrite Hv; by apply (agrees_other _ _ _ cs); [|by destruct Hfa|..]).
  split; [done|]. split.
  - split; rewrite ?(mv_fs _ _ Hmv); try done.
    + exists q, m, rel. split_and!; [done|exact Hm|done|]. eapply reaches_frame; [done|exact Hr|by apply Hag].
    + rewrite Hv, overwrite_eq by done. apply (file_written e cs c off data (fs (vol s1)) (dev (vol s1))); (done || lia).
  - eapply others_trans; [by apply kept_others|]. split; [exact Hmv|]. intros p' e' T' cs' c' Hf' HdT HdC.
    eapply file_frame; [done|apply Hag; [apply Hf'|done]|apply Hag; [apply (fa_area _ _ _ _ _ _ (fo_file _ _ _ _ _ _ Hf'))|done]|done].
Qed.

(** The volume has no operation that creates a file; the bridge is asked. *)
Lemma vfs_create_file p e T cs c s :
  (forall w, exists r, br_create br p w = Ret (r, w)) -> well s -> file_on p e T cs c s ->
  completes (vfs_create br p s) (fun r => kept s r.2).
Proof.
  intros Hbr Hw [(q & m & rel & Hq & Hm & Hb & _) _ _ _]. unfold vfs_create, simple_op. rewrite Hq. cbn [mbind outcome_bind]. rewrite Hm. cbn [mbind outcome_bind bound]. rewrite Hb.
  change (be_create fat32_be) with (@None (list Z -> storage D -> outcome (Z * storage D))). cbn [mbind outcome_bind].
  assert (kept s (with_world (world s) s)) as Hk by (destruct s; by apply same_files_refl).
  destruct (bridge_ready s); [|by apply completes_Ret, same_files_refl].
  destruct (Hbr (world s)) as (r & ->). cbn [mbind outcome_bind]. destruct r as [v|]; [destruct (v =? VFS_OK)|]; by apply completes_Ret.
Qed.

(** [p] leads to the volume, which has no such file. *)
Definition no_file (p : list Z) s : Prop :=
  exists q m rel, normalize p = Ret q /\ resolve_mount q s = Ret (Some (m, rel)) /\ m_backend m = fat32_be /\ rel <> [SLASH] /\
    misses sector0 lfn0 ename255 (fs (vol s)) (dev (vol s)) fuel (skip_slashes rel) (fat32_root_cluster (fs (vol s))).

Lemma misses_same f d d' p c : same d d' -> misses sector0 lfn0 ename255 f d fuel p c -> misses sector0 lfn0 ename255 f d' fuel p c.
Proof.
  intros Hs. assert (forall cs, disk d' <$> chain_sectors f cs = disk d <$> chain_sectors f cs) as E
    by (intros cs; apply list_fmap_ext; intros; by apply same_disk).
  induction 1 as [path seg rest c cs Ht Hne Hc Hn He|path seg rest c cs e' Ht Hne Hrest Hc Hn He Hdir Hcl _ IH].
  - eapply misses_here; [done|done|by eapply same_chain|done|]. unfold not_in_dir in *. by rewrite E.
  - eapply misses_down; [done|done|done|by eapply same_chain|done| |done|done|done]. unfold in_dir in *. by rewrite E.
Qed.

(** The backend's answer for a missing file, and the state after it. *)
Lemma be_stat_none rel o s : well s -> rel <> [SLASH] ->
  misses sector0 lfn0 ename255 (fs (vol s)) (dev (vol s)) fuel (skip_slashes rel) (fat32_root_cluster (fs (vol s))) ->
  exists x, fat32_be_stat sector0 lfn0 ename255 fw fuel rel o (vol s) = Ret (VFS_ENOENT, o, x) /\ fs x = fs (vol s) /\ same (dev (vol s)) (dev x).
Proof.
  intros [_ Wr Wa _] Hne Hm. unfold fat32_be_stat. rewrite Hfw. unfold fat32_stat. rewrite Wa. cbn [negb]. rewrite bool_decide_eq_false_2 by done.
  destruct (find_root_none sector0 lfn0 ename255 Hsector0 fuel _ _ rel _ Hm (same_refl _ Wr)) as (d1 & -> & Hs). cbn [mbind outcome_bind]. by eexists.
Qed.

(** If the bridge does not know the file either. *)
Lemma vfs_stat_missing p s :
  (forall w, br_stat br p w = Ret (None, w)) -> well s -> no_file p s ->
  completes (vfs_stat br p st0 s) (fun r => r.1.1 = VFS_ENOENT /\ kept s r.2).
Proof.
  intros Hbr Hw (q & m & rel & Hq & Hm & Hb & Hne & Hmi). unfold vfs_stat. rewrite Hq. cbn [mbind outcome_bind]. rewrite Hm. cbn [mbind outcome_bind bound]. rewrite Hb.
  change (be_stat fat32_be) with (Some (fun p o => on_part (W := storage D) get_fat put_fat (fat32_be_stat sector0 lfn0 ename255 fw fuel p o))).
  cbn iota beta. unfold on_part. fold (vol s). destruct (be_stat_none rel st0 s Hw Hne Hmi) as (x & -> & Hfs & Hs). cbn [mbind outcome_bind].
  change (VFS_ENOENT =? VFS_OK) with false. cbn [mbind outcome_bind].
  destruct (put_moved s x Hw Hfs (same_ready _ _ Hs)) as [Hmv Hv]. set (s1 := with_world _ s) in *.
  assert (kept s s1) as Hk by (split; [done|]; intros y; rewrite Hv; by apply same_disk).
  assert (exists s2, (if bridge_ready s1 then '(rep, w) ← br_stat br p (world s1); let '(b, o) := store_stat rep st0 in Ret (b, o, with_world w s1)
    else Ret (false, st0, s1)) = Ret (false, st0, s2) /\ kept s s2 /\ vol s2 = vol s1) as (s2 & -> & Hk2 & Ev).
  { destruct (bridge_ready s1); [|by exists s1]. rewrite Hbr. cbn [mbind outcome_bind store_stat]. eexists. split; [done|]. split; [|done].
    by replace (with_world (world s1) s1) with s1 by (by destruct s1). }
  cbn [mbind outcome_bind]. fold (vol s2). pose proof (mv_well _ _ (proj1 Hk2)) as Hw2.
  destruct (be_stat_none rel st0 s2 Hw2 Hne) as (x2 & -> & Hfs2 & Hs2).
  { rewrite Ev, Hv, Hfs. by eapply misses_same. }
  cbn [mbind outcome_bind]. apply completes_Ret. cbn [fst snd]. split; [done|]. eapply same_files_trans; [exact Hk2|].
  destruct (put_moved s2 x2 Hw2 Hfs2 (same_ready _ _ Hs2)) as [Hmv2 Hv2]. split; [exact Hmv2|]. intros y. rewrite Hv2. by apply same_disk.
Qed.

(** ** Streams and commands *)

Lemma file_reads p e T cs c s : well s -> file_on p e T cs c s -> ShellSpec.reads (kept s) p c.
Proof.
  intros Hw Hf s1 off n Hk Ho Hn. eapply completes_mono.
  - eapply (vfs_read_file p e T cs c off n s1); [apply Hk|by eapply kept_file|done|done].
  - intros r [Hr Hk1]. split; [done|by eapply same_files_trans].
Qed.

Lemma file_stats p e T cs c s : well s -> file_on p e T cs c s -> ShellSpec.stats (kept s) p c.
Proof.
  intros Hw Hf s1 Hk. eapply completes_mono; [eapply (vfs_stat_file p e T cs c s1); [apply Hk|by eapply kept_file]|].
  intros r (H1 & H2 & H3 & Hk1). split_and!; [done|done|done|by eapply same_files_trans].
Qed.

Lemma file_fits p e T cs c s : file_on p e T cs c s -> Stdio.fits c.
Proof. intros Hf. pose proof (file_size _ _ _ _ _ _ Hf). pose proof (fo_size _ _ _ _ _ _ Hf). unfold Stdio.fits. lia. Qed.

Lemma file_bytes p e T cs c s : well s -> file_on p e T cs c s -> bytes_ok c.
Proof.
  intros [_ Hr _ _] [_ _ [_ Hc _ _ _ _ ->] _]. apply Forall_take. unfold chain_data, bytes_ok. apply List.Forall_concat, Forall_fmap.
  eapply Forall_impl; [apply (chain_sectors_range (fs (vol s)) cs), (chain_usable _ _ _ _ Hc)|]. intros x Hx. by destruct (disk_sector _ x Hr Hx).
Qed.

Lemma read_file_missing p s : (forall w, br_stat br p w = Ret (None, w)) -> well s -> no_file p s ->
  completes (Stdio.read_file true true p s) (fun r => r.1 = None /\ kept s r.2).
Proof.
  intros Hbr Hw Hn. unfold Stdio.read_file, Stdio.fopen, Stdio.stat. destruct (vfs_stat_missing p s Hbr Hw Hn) as ([[r st] s1] & E & Hr & Hk).
  cbn [fst snd] in *. cbn [fs_stat kernel_files vfs_files]. rewrite E. subst r. cbn [mbind outcome_bind]. by apply completes_Ret.
Qed.

(** C26: the streams of the interpreter are files with a position.  For a file on the
    mounted FAT32 volume, with a path of at most 255 characters and fewer than 2^31
    bytes: opening it gives its contents at position 0 if there is memory for the
    stream, and faults if there is none.  [fread] returns the bytes from the position,
    as many as asked for or the rest, and moves past them; [fseek] and [ftell] set and
    tell the position, with a seek outside the file ending at its end; nothing changes
    the disk.  So [read_file] returns the contents of a script if there is memory for
    it, and reports a file that neither the volume nor the bridge has. *)
Theorem stdio_refines p e T cs c s : well s -> file_on p e T cs c s -> zlen p <= 255 ->
  completes (Stdio.fopen true p s) (fun r => Stdio.stream r.1 p c 0 /\ kept s r.2) /\ Stdio.fopen false p s = Fault /\
  (forall f pos sz n s1, kept s s1 -> Stdio.stream f p c pos -> 0 < sz -> 0 <= n -> sz * n < 2 ^ 63 ->
    let d := take (Z.to_nat (sz * n)) (drop (Z.to_nat pos) c) in
    completes (Stdio.fread sz n f s1) (fun '(r, x, f', s2) => r = zlen d / sz /\ x = d /\ Stdio.stream f' p c (pos + zlen d) /\ kept s s2)) /\
  (forall f pos o w, Stdio.stream f p c pos -> - 2 ^ 62 < o < 2 ^ 62 ->
    (Stdio.fseek o w f).1 = 0 /\ Stdio.stream (Stdio.fseek o w f).2 p c (Stdio.seek_to o w pos (zlen c)) /\
    Stdio.ftell f = pos /\ Stdio.stream (Stdio.rewind f) p c 0) /\
  (forall enough : bool, completes (Stdio.read_file true enough p s) (fun r => r.1 = (if enough then Some c else None) /\ kept s r.2)) /\
  (forall q, (forall w, br_stat br q w = Ret (None, w)) -> no_file q s ->
    completes (Stdio.read_file true true q s) (fun r => r.1 = None /\ kept s r.2)).
Proof.
  intros Hw Hf Hp. pose proof (file_reads _ _ _ _ _ _ Hw Hf) as Hr. pose proof (file_stats _ _ _ _ _ _ Hw Hf) as Hst.
  pose proof (file_fits _ _ _ _ _ _ Hf) as Hfit. pose proof (same_files_refl s Hw) as Hk. split_and!.
  - by apply Stdio.fopen_ok.
  - by eapply Stdio.fopen_no_memory.
  - intros f pos sz n s1 Hk1 Hs ???. by apply Stdio.fread_ok.
  - intros f pos o w Hs Ho. destruct (Stdio.fseek_ok p c Hfit o w f pos Hs Ho).
    split_and!; [done|done|by eapply Stdio.ftell_ok|by eapply Stdio.rewind_ok].
  - intros enough. by apply Stdio.read_file_ok.
  - intros q Hq Hn. by apply read_file_missing.
Qed.


(** [cat] prints a file without NUL, after a newline, and changes nothing on the disk. *)
Lemma cat_prints kernel hist rounds d p e T cs c s :
  well s -> file_on p e T cs c s -> Forall (fun x => x <> 0) c -> (length c <= 512 * (rounds - 1))%nat -> (1 <= rounds)%nat ->
  p <> [] -> is_space (hd 0 p) = false -> ShellSpec.no_script (S := vstate (storage D)) (txt "cat") ->
  completes (shell_exec_command kernel hist rounds (S d) (txt "cat" ++ 32 :: p) s) (fun r =>
    r.1.2 = (match c with [] => [] | _ => [13; 10] end) ++ Console.console_write c /\ kept s r.2).
Proof. intros Hw Hf Hn Hl H1 Hp Hsp Hns. apply ShellSpec.cat_line; try done. by eapply file_reads. Qed.
End stack.

(** ** Example: the volume of Fat32Spec, mounted at the root *)

#[local] Existing Instance ex_laws.

Definition ex_bridge : bridge (storage ramdisk) :=
  mk_bridge true (fun _ w => Ret w) (fun _ w => Ret (None, w)) (fun _ w => Ret (None, w)) (fun _ _ _ w => Ret (None, w))
    (fun _ _ _ w => Ret (None, w)) (fun _ w => Ret (None, w)) (fun _ w => Ret (None, w)) (fun _ w => Ret (None, w)).
Definition ex_firmware : efi (D := ramdisk) unit :=
  mk_efi unit (fun _ => false) (fun _ _ d => (1, tt, d)) None None (fun _ _ d => (1, [], d)) (fun _ _ d => (1, 0, d)) None (fun _ d => d).
Definition ex_backend : backend (storage ramdisk) := fat32_backend ex_firmware blank ex_lfn 0 10.
Definition ex_vfs : vstate (storage ramdisk) :=
  mk_vfs [mk_mount [SLASH] 1 ex_backend true] 1 true false SchedSpec.two_threads (mk_storage ex_fat 0 [] [] ex_disk).
Definition ex_none : vfs_stat_t := mk_stat [] 0 0 0.

Abbreviation ex_file_on := (file_on ex_firmware blank ex_lfn 0 10).
Definition content_a : list Z := replicate 512 1 ++ replicate 88 2.

Lemma ex_well : well ex_vfs.
Proof. split; [by exists 0|exact ex_ready|done|exact ex_vol]. Qed.

Lemma ex_on_a : ex_file_on (txt "/A.TXT") ex_a [2] [3; 4] content_a ex_vfs.
Proof.
  split; [|apply ex_area; repeat constructor; lia|exact ex_file_a|cbn; lia].
  exists (txt "/A.TXT"), (mk_mount [SLASH] 1 ex_backend true), (txt "/A.TXT"). split; [reflexivity|]. split; [reflexivity|]. split; [reflexivity|exact ex_reaches_a].
Qed.

Lemma ex_on_b : ex_file_on (txt "/B.TXT") ex_b [2] [5] (replicate 10 3) ex_vfs.
Proof.
  split; [|apply ex_area; repeat constructor; lia| |cbn; lia].
  - exists (txt "/B.TXT"), (mk_mount [SLASH] 1 ex_backend true), (txt "/B.TXT"). split; [reflexivity|]. split; [reflexivity|]. split; [reflexivity|].
    eapply (reaches_last (HL := ex_laws) blank ex_lfn 0 ex_fat ex_disk 10 [66; 46; 84; 88; 84] [66; 46; 84; 88; 84]);
      [done|done|exact ex_chain_root|cbn; lia|vm_compute; reflexivity].
  - split; [done| |cbn; lia| | |split; [done|vm_compute; congruence]|vm_compute; reflexivity].
    + constructor; [done|by apply ex_usable|]. constructor. vm_compute. reflexivity.
    + apply ex_area. repeat constructor; lia.
    + by apply (bool_decide_unpack (NoDup [5])).
Qed.

Lemma ex_no_c : no_file ex_firmware blank ex_lfn 0 10 (txt "/C.TXT") ex_vfs.
Proof.
  exists (txt "/C.TXT"), (mk_mount [SLASH] 1 ex_backend true), (txt "/C.TXT"). split; [reflexivity|]. split; [reflexivity|]. split; [reflexivity|]. split; [done|].
  eapply (misses_here (HL := ex_laws) blank ex_lfn 0 ex_fat ex_disk 10 [67; 46; 84; 88; 84] [67; 46; 84; 88; 84] []);
    [done|done|exact ex_chain_root|cbn; lia|]. eexists. split; [vm_compute; reflexivity|done].
Qed.

#[local] Instance ex_kernel : FileSystem (vstate (storage ramdisk)) := kernel_files ex_bridge 0 ex_none [] [] 1.

Lemma stdio_refines_witness :
  completes (Stdio.read_file true true (txt "/A.TXT") ex_vfs) (fun r => r.1 = Some content_a /\ kept ex_vfs r.2) /\
  completes (Stdio.read_file true true (txt "/C.TXT") ex_vfs) (fun r => r.1 = None /\ kept ex_vfs r.2).
Proof.
  destruct (stdio_refines ex_bridge ex_firmware 0 blank ex_lfn 0 10 ex_none [] [] 1 eq_refl (fun _ => eq_refl)
    (txt "/A.TXT") ex_a [2] [3; 4] content_a ex_vfs ex_well ex_on_a) as (_ & _ & _ & _ & H1 & H2); [vm_compute; discriminate|].
  split; [exact (H1 true)|]. apply H2; [done|exact ex_no_c].
Defined.

End FileStack.
