(* ===== verification/Lexer.v ===== *)
(** * The lexer of the language (sage_lang/core/src/c/lexer.c)

    [scan_token] turns the text of a script into tokens, one per call; indentation
    becomes INDENT and DEDENT tokens.  The static variables are the record [lexer];
    pointers into the text are offsets.  The text is a list of bytes without NUL, and
    reading at its end gives the NUL; further reads fault.  Bytes from 128 on are
    negative as [char] and in no class of characters, like here. *)

From Stdlib Require Import String Ascii.
From stdpp Require Import base tactics list numbers option.
From S2P Require Import Prelude Libc LineEdit.

Module Lexer.
Import Libc LineEdit.
Local Open Scope string_scope.
Local Open Scope list_scope.
Local Open Scope Z_scope.

Inductive token_type :=
  | TOKEN_LET | TOKEN_VAR | TOKEN_PROC | TOKEN_IF | TOKEN_ELSE | TOKEN_WHILE | TOKEN_FOR
  | TOKEN_RETURN | TOKEN_PRINT | TOKEN_AND | TOKEN_OR | TOKEN_NOT | TOKEN_IN | TOKEN_BREAK
  | TOKEN_CONTINUE | TOKEN_CLASS | TOKEN_SELF | TOKEN_INIT | TOKEN_SUPER | TOKEN_MATCH | TOKEN_CASE
  | TOKEN_DEFAULT | TOKEN_TRY | TOKEN_CATCH | TOKEN_FINALLY | TOKEN_RAISE | TOKEN_DEFER
  | TOKEN_YIELD | TOKEN_ASYNC | TOKEN_AWAIT | TOKEN_STRUCT | TOKEN_ENUM | TOKEN_TRAIT
  | TOKEN_UNSAFE | TOKEN_END | TOKEN_IMPORT | TOKEN_FROM | TOKEN_AS | TOKEN_COMPTIME | TOKEN_MACRO
  | TOKEN_QUOTE | TOKEN_UNQUOTE | TOKEN_AT | TOKEN_LPAREN | TOKEN_RPAREN | TOKEN_PLUS | TOKEN_MINUS
  | TOKEN_STAR | TOKEN_SLASH | TOKEN_PERCENT | TOKEN_ASSIGN | TOKEN_EQ | TOKEN_NEQ | TOKEN_LT
  | TOKEN_GT | TOKEN_LTE | TOKEN_GTE | TOKEN_COLON | TOKEN_COMMA | TOKEN_LBRACKET | TOKEN_RBRACKET
  | TOKEN_LBRACE | TOKEN_RBRACE | TOKEN_DOT | TOKEN_ARROW | TOKEN_AMP | TOKEN_PIPE | TOKEN_CARET
  | TOKEN_TILDE | TOKEN_LSHIFT | TOKEN_RSHIFT | TOKEN_IDENTIFIER | TOKEN_NUMBER | TOKEN_STRING
  | TOKEN_TRUE | TOKEN_FALSE | TOKEN_NIL | TOKEN_INDENT | TOKEN_DEDENT | TOKEN_NEWLINE
  | TOKEN_DOC_COMMENT | TOKEN_EOF | TOKEN_ERROR.

#[global] Instance token_type_eq_dec : EqDecision token_type.
Proof. solve_decision. Defined.

(** A pointer into the text, or to a message. *)
Inductive place := Source (offset : Z) | Message (text : string).

Record token := mk_token { type : token_type; t_start : place; length : Z; t_line : Z; column : Z; t_line_start : Z; filename : list Z }.

Definition MAX_INDENT_LEVELS : Z := 100.
Definition MAX_IDENTIFIER_LENGTH : Z := 1024.
Definition MAX_STRING_LENGTH : Z := 4096.

Record lexer := mk_lexer {
  start : Z; current : Z;
  line : Z; token_line : Z;
  at_beginning_of_line : bool;
  line_start : Z; token_line_start : Z;
  current_filename : list Z;
  indent_stack : list Z; indent_stack_top : Z;
  pending_dedents : Z;
  bracket_depth : Z
}.
Implicit Types s : lexer.

Definition set_current (x : Z) s : lexer :=
  mk_lexer (start s) x (line s) (token_line s) (at_beginning_of_line s) (line_start s) (token_line_start s) (current_filename s)
    (indent_stack s) (indent_stack_top s) (pending_dedents s) (bracket_depth s).
Definition set_bol (x : bool) s : lexer :=
  mk_lexer (start s) (current s) (line s) (token_line s) x (line_start s) (token_line_start s) (current_filename s)
    (indent_stack s) (indent_stack_top s) (pending_dedents s) (bracket_depth s).
Definition set_line_start (x : Z) s : lexer :=
  mk_lexer (start s) (current s) (line s) (token_line s) (at_beginning_of_line s) x (token_line_start s) (current_filename s)
    (indent_stack s) (indent_stack_top s) (pending_dedents s) (bracket_depth s).
Definition set_line (x : Z) s : lexer :=
  mk_lexer (start s) (current s) x (token_line s) (at_beginning_of_line s) (line_start s) (token_line_start s) (current_filename s)
    (indent_stack s) (indent_stack_top s) (pending_dedents s) (bracket_depth s).
Definition set_indent (stack : list Z) (top pending : Z) s : lexer :=
  mk_lexer (start s) (current s) (line s) (token_line s) (at_beginning_of_line s) (line_start s) (token_line_start s) (current_filename s)
    stack top pending (bracket_depth s).
Definition set_depth (x : Z) s : lexer :=
  mk_lexer (start s) (current s) (line s) (token_line s) (at_beginning_of_line s) (line_start s) (token_line_start s) (current_filename s)
    (indent_stack s) (indent_stack_top s) (pending_dedents s) x.

(** A token begins here. *)
Definition begin_token s : lexer :=
  mk_lexer (current s) (current s) (line s) (line s) (at_beginning_of_line s) (line_start s) (line_start s) (current_filename s)
    (indent_stack s) (indent_stack_top s) (pending_dedents s) (bracket_depth s).

(** The stack keeps what it held before, but for its first entry. *)
Definition init_lexer (stack : list Z) (file : list Z) : outcome lexer :=
  st ← wr stack 0 0; Ret (mk_lexer 0 0 1 1 true 0 0 file st 0 0 0).

(** Every variable is saved and restored. *)
Definition lexer_get_state s : lexer := s.
Definition lexer_set_state (saved : lexer) s : lexer := saved.

Section text.
Context (text : list Z).

(** The byte at an offset, with the NUL at the end. *)
Definition byte (i : Z) : outcome Z := rd (text ++ [0]) i.
Definition peek s : outcome Z := byte (current s).
Definition is_at_end s : outcome bool := c ← peek s; Ret (c =? 0).
Definition advance s : lexer := set_current (current s + 1) s.
(** [current[-1]]. *)
Definition last_byte s : outcome Z := byte (current s - 1).
Definition peek_next s : outcome Z := e ← is_at_end s; if (e : bool) then Ret 0 else byte (current s + 1).

Definition make_token (ty : token_type) s : token :=
  mk_token ty (Source (start s)) (s32 (current s - start s)) (token_line s) (s32 (start s - token_line_start s)) (token_line_start s) (current_filename s).
Definition error_token (m : string) s : token :=
  mk_token TOKEN_ERROR (Message m) (zlen (txt m)) (token_line s) (s32 (start s - token_line_start s)) (token_line_start s) (current_filename s).

(** [while (p(peek())) advance();] *)
Fixpoint advance_while (n : nat) (p : Z -> bool) s : outcome lexer :=
  c ← peek s;
  if p c then match n with O => OutOfFuel | S k => advance_while k p (advance s) end else Ret s.

Definition fuel : nat := S (List.length text).

(** *** Keywords *)

(** The word is the text from [start] to [current]. *)
Definition check_keyword (w : list Z) (start_index length : Z) (rest : string) (ty : token_type) : token_type :=
  if (zlen w =? start_index + length) && bool_decide (take (Z.to_nat length) (drop (Z.to_nat start_index) w) = txt rest) then ty
  else TOKEN_IDENTIFIER.

(** [current - start > i && start[i] == c] *)
Definition nth_is (w : list Z) (i : Z) (c : ascii) : bool := bool_decide (w.[i] = Some (Z.of_nat (nat_of_ascii c))).

Definition identifier_type (w : list Z) : token_type :=
  let at0 := nth_is w 0 in let at1 := nth_is w 1 in let at2 := nth_is w 2 in let at3 := nth_is w 3 in
  let kw := check_keyword w in
  if at0 "a"%char then
    if at1 "n"%char then kw 2 1 "d" TOKEN_AND
    else if at1 "s"%char then
      if at2 "y"%char then kw 3 2 "nc" TOKEN_ASYNC else kw 2 0 EmptyString TOKEN_AS
    else if at1 "w"%char then kw 2 3 "ait" TOKEN_AWAIT
    else TOKEN_IDENTIFIER
  else if at0 "b"%char then kw 1 4 "reak" TOKEN_BREAK
  else if at0 "c"%char then
    if at1 "a"%char then
      if at2 "s"%char then kw 3 1 "e" TOKEN_CASE else if at2 "t"%char then kw 3 2 "ch" TOKEN_CATCH else TOKEN_IDENTIFIER
    else if at1 "l"%char then kw 2 3 "ass" TOKEN_CLASS
    else if at1 "o"%char then
      if at2 "n"%char then kw 2 6 "ntinue" TOKEN_CONTINUE else if at2 "m"%char then kw 2 6 "mptime" TOKEN_COMPTIME else TOKEN_IDENTIFIER
    else TOKEN_IDENTIFIER
  else if at0 "d"%char then
    if at1 "e"%char then
      if at2 "f"%char then
        if at3 "a"%char then kw 4 3 "ult" TOKEN_DEFAULT else if at3 "e"%char then kw 4 1 "r" TOKEN_DEFER else TOKEN_IDENTIFIER
      else TOKEN_IDENTIFIER
    else TOKEN_IDENTIFIER
  else if at0 "e"%char then
    if at1 "l"%char then
      if at2 "s"%char then kw 3 1 "e" TOKEN_ELSE else if at2 "i"%char then kw 3 1 "f" TOKEN_IF else TOKEN_IDENTIFIER
    else if at1 "n"%char then
      if at2 "u"%char then kw 3 1 "m" TOKEN_ENUM else if at2 "d"%char then kw 3 0 EmptyString TOKEN_END else TOKEN_IDENTIFIER
    else TOKEN_IDENTIFIER
  else if at0 "f"%char then
    if at1 "a"%char then kw 2 3 "lse" TOKEN_FALSE
    else if at1 "i"%char then kw 2 5 "nally" TOKEN_FINALLY
    else if at1 "o"%char then kw 2 1 "r" TOKEN_FOR
    else if at1 "r"%char then kw 2 2 "om" TOKEN_FROM
    else TOKEN_IDENTIFIER
  else if at0 "i"%char then
    if at1 "f"%char then kw 2 0 EmptyString TOKEN_IF
    else if at1 "m"%char then kw 2 4 "port" TOKEN_IMPORT
    else if at1 "n"%char then
      if zlen w =? 2 then kw 2 0 EmptyString TOKEN_IN else if zlen w =? 4 then kw 2 2 "it" TOKEN_INIT else TOKEN_IDENTIFIER
    else TOKEN_IDENTIFIER
  else if at0 "l"%char then kw 1 2 "et" TOKEN_LET
  else if at0 "m"%char then
    if at1 "a"%char then
      if at2 "t"%char then kw 2 3 "tch" TOKEN_MATCH else if at2 "c"%char then kw 2 3 "cro" TOKEN_MACRO else TOKEN_IDENTIFIER
    else TOKEN_IDENTIFIER
  else if at0 "n"%char then
    if at1 "i"%char then kw 2 1 "l" TOKEN_NIL else if at1 "o"%char then kw 2 1 "t" TOKEN_NOT else TOKEN_IDENTIFIER
  else if at0 "o"%char then kw 1 1 "r" TOKEN_OR
  else if at0 "p"%char then
    if at1 "r"%char then
      if at2 "i"%char then kw 3 2 "nt" TOKEN_PRINT else if at2 "o"%char then kw 3 1 "c" TOKEN_PROC else TOKEN_IDENTIFIER
    else TOKEN_IDENTIFIER
  else if at0 "q"%char then kw 1 4 "uote" TOKEN_QUOTE
  else if at0 "r"%char then
    if at1 "a"%char then kw 2 3 "ise" TOKEN_RAISE else if at1 "e"%char then kw 2 4 "turn" TOKEN_RETURN else TOKEN_IDENTIFIER
  else if at0 "s"%char then
    if at1 "e"%char then kw 2 2 "lf" TOKEN_SELF
    else if at1 "u"%char then kw 2 3 "per" TOKEN_SUPER
    else if at1 "t"%char then kw 2 4 "ruct" TOKEN_STRUCT
    else TOKEN_IDENTIFIER
  else if at0 "t"%char then
    if at1 "r"%char then
      if at2 "u"%char then kw 3 1 "e" TOKEN_TRUE
      else if at2 "y"%char then kw 3 0 EmptyString TOKEN_TRY
      else if at2 "a"%char then kw 3 2 "it" TOKEN_TRAIT
      else TOKEN_IDENTIFIER
    else TOKEN_IDENTIFIER
  else if at0 "u"%char then
    if at1 "n"%char then
      if at2 "s"%char then kw 2 4 "safe" TOKEN_UNSAFE else if at2 "q"%char then kw 2 5 "quote" TOKEN_UNQUOTE else TOKEN_IDENTIFIER
    else TOKEN_IDENTIFIER
  else if at0 "v"%char then kw 1 2 "ar" TOKEN_VAR
  else if at0 "w"%char then kw 1 4 "hile" TOKEN_WHILE
  else if at0 "y"%char then kw 1 4 "ield" TOKEN_YIELD
  else TOKEN_IDENTIFIER.

(** *** Words, numbers, strings *)

Definition word_byte (c : Z) : bool := sage_isalnum c || (c =? 95).
Definition word s : list Z := take (Z.to_nat (current s - start s)) (drop (Z.to_nat (start s)) text).

(** The result says whether the word is short enough. *)
Fixpoint identifier_loop (n : nat) s : outcome (bool * lexer) :=
  c ← peek s;
  if word_byte c then
    if MAX_IDENTIFIER_LENGTH <? current s - start s then Ret (false, s)
    else match n with O => OutOfFuel | S k => identifier_loop k (advance s) end
  else Ret (true, s).

Definition identifier s : outcome (token * lexer) :=
  '(ok, s1) ← identifier_loop fuel s;
  Ret (if (ok : bool) then make_token (identifier_type (word s1)) s1 else error_token "Identifier exceeds maximum length (1024)." s1, s1).

Definition is_binary_digit (c : Z) : bool := (c =? 48) || (c =? 49).
Definition is_hex_digit (c : Z) : bool := (48 <=? c) && (c <=? 57) || (97 <=? c) && (c <=? 102) || (65 <=? c) && (c <=? 70).
Definition is_octal_digit (c : Z) : bool := (48 <=? c) && (c <=? 55).

(** After the prefix of a binary, hexadecimal or octal literal. *)
Definition radix_literal (digit : Z -> bool) (none other : string) s : outcome (token * lexer) :=
  let s1 := advance s in
  c ← peek s1;
  if negb (digit c) then Ret (error_token none s1, s1)
  else
    s2 ← advance_while fuel digit s1;
    d ← peek s2;
    if word_byte d then Ret (error_token other s2, s2) else Ret (make_token TOKEN_NUMBER s2, s2).

Definition exponent s : outcome (token * lexer) :=
  let s1 := advance s in
  c ← peek s1;
  let s2 := if (c =? 43) || (c =? 45) then advance s1 else s1 in
  d ← peek s2;
  if negb (sage_isdigit d) then Ret (error_token "Invalid float literal: expected digit after exponent." s2, s2)
  else s3 ← advance_while fuel sage_isdigit s2; Ret (make_token TOKEN_NUMBER s3, s3).

Definition decimal_literal s : outcome (token * lexer) :=
  s1 ← advance_while fuel sage_isdigit s;
  c ← peek s1;
  d ← (if c =? 46 then peek_next s1 else Ret 0);
  s2 ← (if sage_isdigit d then advance_while fuel sage_isdigit (advance s1) else Ret s1);
  e ← peek s2;
  if (e =? 101) || (e =? 69) then exponent s2 else Ret (make_token TOKEN_NUMBER s2, s2).

Definition number s : outcome (token * lexer) :=
  z ← byte (start s);
  c ← peek s;
  if (z =? 48) && ((c =? 98) || (c =? 66)) then
    radix_literal is_binary_digit "Invalid binary literal: expected at least one binary digit after '0b'."
      "Invalid binary literal: use only 0 or 1 after '0b'." s
  else if (z =? 48) && ((c =? 120) || (c =? 88)) then
    radix_literal is_hex_digit "Invalid hex literal: expected at least one hex digit after '0x'."
      "Invalid hex literal: use only 0-9, a-f after '0x'." s
  else if (z =? 48) && ((c =? 111) || (c =? 79)) then
    radix_literal is_octal_digit "Invalid octal literal: expected at least one octal digit after '0o'."
      "Invalid octal literal: use only 0-7 after '0o'." s
  else decimal_literal s.

(** One round of the loop over the characters of a string. *)
Definition string_char (c : Z) s : outcome lexer :=
  let s1 := if c =? 10 then set_line (line s + 1) s else s in
  s2 ← (if c =? 92 then
          let a := advance s1 in
          e ← is_at_end a;
          let b := if (e : bool) then a else advance a in
          l ← last_byte b;
          Ret (if l =? 10 then set_line_start (current b) (set_line (line b + 1) b) else b)
        else Ret (advance s1));
  l ← last_byte s2;
  Ret (if l =? 10 then set_line_start (current s2) s2 else s2).

(** The result says whether the string is short enough. *)
Fixpoint string_loop (n : nat) (string_start : Z) s : outcome (bool * lexer) :=
  c ← peek s;
  if (c =? 34) || (c =? 0) then Ret (true, s)
  else
    s1 ← string_char c s;
    if MAX_STRING_LENGTH <? current s1 - string_start then Ret (false, s1)
    else match n with O => OutOfFuel | S k => string_loop k string_start s1 end.

Definition string_ s : outcome (token * lexer) :=
  '(ok, s1) ← string_loop fuel (current s) s;
  if negb ok then Ret (error_token "String literal exceeds maximum length (4096)." s1, s1)
  else
    e ← is_at_end s1;
    if (e : bool) then Ret (error_token "Unterminated string." s1, s1)
    else Ret (make_token TOKEN_STRING (advance s1), advance s1).

(** *** Indentation *)

Fixpoint pop_indent (n : nat) (spaces : Z) s : outcome lexer :=
  if indent_stack_top s <=? 0 then Ret s
  else
    i ← rd (indent_stack s) (indent_stack_top s);
    if spaces <? i then
      match n with
      | O => OutOfFuel
      | S k => pop_indent k spaces (set_indent (indent_stack s) (indent_stack_top s - 1) (pending_dedents s + 1) s)
      end
    else Ret s.

(** The token at the start of a line that is not blank, if there is one. *)
Definition indentation (spaces : Z) s : outcome (option token * lexer) :=
  if 0 <? bracket_depth s then Ret (None, s)
  else
    current_indent ← rd (indent_stack s) (indent_stack_top s);
    if current_indent <? spaces then
      if MAX_INDENT_LEVELS - 1 <=? indent_stack_top s then Ret (Some (error_token "Too much nesting." s), s)
      else
        st ← wr (indent_stack s) (indent_stack_top s + 1) spaces;
        Ret (Some (make_token TOKEN_INDENT s), set_indent st (indent_stack_top s + 1) (pending_dedents s) s)
    else if spaces <? current_indent then
      s1 ← pop_indent (Z.to_nat MAX_INDENT_LEVELS) spaces s;
      i ← rd (indent_stack s1) (indent_stack_top s1);
      if negb (i =? spaces) then Ret (Some (error_token "Indentation error." s1), s1)
      else Ret (Some (make_token TOKEN_DEDENT s1), set_indent (indent_stack s1) (indent_stack_top s1) (pending_dedents s1 - 1) s1)
    else Ret (None, s).

(** *** Other tokens *)

Definition match_char (expected : Z) s : outcome (bool * lexer) :=
  c ← peek s; if (c =? 0) || negb (c =? expected) then Ret (false, s) else Ret (true, advance s).

Definition doc_comment s : outcome (token * lexer) :=
  s1 ← advance_while fuel (fun c => c =? 32) (advance s);
  s2 ← advance_while fuel (fun c => negb (c =? 10) && negb (c =? 0)) s1;
  Ret (mk_token TOKEN_DOC_COMMENT (Source (current s1)) (s32 (current s2 - current s1)) (line s2) (s32 (current s1 - line_start s2)) (line_start s2)
         (current_filename s2), s2).

Definition opening (ty : token_type) s : token * lexer := let s1 := set_depth (bracket_depth s + 1) s in (make_token ty s1, s1).
Definition closing (ty : token_type) s : token * lexer :=
  let s1 := if 0 <? bracket_depth s then set_depth (bracket_depth s - 1) s else s in (make_token ty s1, s1).
(** One character, or two if the second is [c]. *)
Definition either (c : Z) (two one : token_type) s : outcome (token * lexer) :=
  '(hit, s1) ← match_char c s; Ret (make_token (if (hit : bool) then two else one) s1, s1).
Definition shift_or (c : Z) (shift le lt : token_type) s : outcome (token * lexer) :=
  '(hit, s1) ← match_char c s;
  if (hit : bool) then Ret (make_token shift s1, s1) else either 61 le lt s1.

Definition operator (c : ascii) s : outcome (token * lexer) :=
  let one ty := Ret (make_token ty s, s) in
  match c with
  | "("%char => Ret (opening TOKEN_LPAREN s) | ")"%char => Ret (closing TOKEN_RPAREN s)
  | "["%char => Ret (opening TOKEN_LBRACKET s) | "]"%char => Ret (closing TOKEN_RBRACKET s)
  | "{"%char => Ret (opening TOKEN_LBRACE s) | "}"%char => Ret (closing TOKEN_RBRACE s)
  | "+"%char => one TOKEN_PLUS | "-"%char => either 62 TOKEN_ARROW TOKEN_MINUS s
  | "*"%char => one TOKEN_STAR | "/"%char => one TOKEN_SLASH | "%"%char => one TOKEN_PERCENT
  | ","%char => one TOKEN_COMMA | ":"%char => one TOKEN_COLON | "."%char => one TOKEN_DOT
  | "!"%char =>
      '(hit, s1) ← match_char 61 s;
      Ret (if (hit : bool) then make_token TOKEN_NEQ s1 else error_token "Unexpected '!' (use 'not' for logical negation)." s1, s1)
  | "="%char => either 61 TOKEN_EQ TOKEN_ASSIGN s
  | "<"%char => shift_or 60 TOKEN_LSHIFT TOKEN_LTE TOKEN_LT s
  | ">"%char => shift_or 62 TOKEN_RSHIFT TOKEN_GTE TOKEN_GT s
  | "&"%char => one TOKEN_AMP | "|"%char => one TOKEN_PIPE | "^"%char => one TOKEN_CARET
  | "~"%char => one TOKEN_TILDE | "@"%char => one TOKEN_AT
  | _ => Ret (error_token "Unexpected character." s, s)
  end.

(** After the blanks; no token means that the scan goes on. *)
Definition scan_rest s : outcome (option token * lexer) :=
  let some m := '(t, x) ← m; Ret (Some t, x) in
  c0 ← peek s;
  if c0 =? 0 then
    if 0 <? indent_stack_top s then
      let s1 := set_indent (indent_stack s) (indent_stack_top s - 1) (pending_dedents s) s in Ret (Some (make_token TOKEN_DEDENT s1), s1)
    else Ret (Some (make_token TOKEN_EOF s), s)
  else
    let s1 := advance s in
    if c0 =? 10 then
      let s2 := set_bol true (set_line_start (current s1) (set_line (line s1 + 1) s1)) in
      if 0 <? bracket_depth s2 then Ret (None, s2) else Ret (Some (make_token TOKEN_NEWLINE s2), s2)
    else if c0 =? 35 then
      c1 ← peek s1;
      if c1 =? 35 then some (doc_comment s1)
      else s2 ← advance_while fuel (fun c => negb (c =? 10) && negb (c =? 0)) s1; Ret (None, s2)
    else if c0 =? 34 then some (string_ s1)
    else if sage_isalpha c0 || (c0 =? 95) then some (identifier s1)
    else if sage_isdigit c0 then some (number s1)
    else some (operator (ascii_of_nat (Z.to_nat c0)) s1).

Definition blank (c : Z) : bool := (c =? 32) || (c =? 13) || (c =? 9).

(** At the start of a line: a blank line is skipped ([inl]). *)
Definition line_begin s : outcome (lexer + (option token * lexer)) :=
  let s1 := begin_token (set_bol false s) in
  s2 ← advance_while fuel (fun c => c =? 32) s1;
  let spaces := current s2 - current s1 in
  c ← peek s2;
  if c =? 10 then
    let s3 := advance (begin_token s2) in
    Ret (inl (set_bol true (set_line_start (current s3) (set_line (line s3 + 1) s3))))
  else r ← indentation spaces s2; Ret (inr r).

Fixpoint scan (n : nat) s : outcome (token * lexer) :=
  let again x := match n with O => OutOfFuel | S k => scan k x end in
  if (0 <? pending_dedents s) && (bracket_depth s =? 0) then
    let s1 := set_indent (indent_stack s) (indent_stack_top s) (pending_dedents s - 1) (begin_token s) in
    Ret (make_token TOKEN_DEDENT s1, s1)
  else
    b ← (if at_beginning_of_line s then line_begin s else Ret (inr (None, s)));
    match b with
    | inl s1 => again s1
    | inr (Some t, s1) => Ret (t, s1)
    | inr (None, s1) =>
        s2 ← advance_while fuel blank s1;
        '(t, s3) ← scan_rest (begin_token s2);
        match t with Some t => Ret (t, s3) | None => again s3 end
    end.

Definition scan_token s : outcome (token * lexer) := scan fuel s.

(** The tokens up to the end, as the parser asks for them. *)
Fixpoint scan_all (n : nat) s : outcome (list token) :=
  '(t, s1) ← scan_token s;
  if bool_decide (type t = TOKEN_EOF) then Ret [t]
  else match n with O => OutOfFuel | S k => ts ← scan_all k s1; Ret (t :: ts) end.
End text.
End Lexer.
