(* ===== verification/LexerSpec.v ===== *)
(** * What the lexer does

    The decision tree for keywords is a table.  Every text is turned into a finite
    list of tokens that lie inside it, with balanced indentation.  Lines printed from
    lexemes are read back, with the block structure of their indentation. *)

From Stdlib Require Import String Ascii.
From stdpp Require Import base tactics list numbers option.
From S2P Require Import Prelude Libc LineEdit Lexer.

Module LexerSpec.
Import Libc LineEdit Lexer.
Local Open Scope string_scope.
Local Open Scope list_scope.
Local Open Scope Z_scope.

(** ** Keywords *)

Definition keywords : list (string * token_type) :=
  [("and", TOKEN_AND); ("as", TOKEN_AS); ("async", TOKEN_ASYNC); ("await", TOKEN_AWAIT); ("break", TOKEN_BREAK); ("case", TOKEN_CASE);
   ("catch", TOKEN_CATCH); ("class", TOKEN_CLASS); ("comptime", TOKEN_COMPTIME); ("continue", TOKEN_CONTINUE); ("default", TOKEN_DEFAULT);
   ("defer", TOKEN_DEFER); ("elif", TOKEN_IF); ("else", TOKEN_ELSE); ("end", TOKEN_END); ("enum", TOKEN_ENUM); ("false", TOKEN_FALSE);
   ("finally", TOKEN_FINALLY); ("for", TOKEN_FOR); ("from", TOKEN_FROM); ("if", TOKEN_IF); ("import", TOKEN_IMPORT); ("in", TOKEN_IN);
   ("init", TOKEN_INIT); ("let", TOKEN_LET); ("macro", TOKEN_MACRO); ("match", TOKEN_MATCH); ("nil", TOKEN_NIL); ("not", TOKEN_NOT);
   ("or", TOKEN_OR); ("print", TOKEN_PRINT); ("proc", TOKEN_PROC); ("quote", TOKEN_QUOTE); ("raise", TOKEN_RAISE); ("return", TOKEN_RETURN);
   ("self", TOKEN_SELF); ("struct", TOKEN_STRUCT); ("super", TOKEN_SUPER); ("trait", TOKEN_TRAIT); ("true", TOKEN_TRUE); ("try", TOKEN_TRY);
   ("unquote", TOKEN_UNQUOTE); ("unsafe", TOKEN_UNSAFE); ("var", TOKEN_VAR); ("while", TOKEN_WHILE); ("yield", TOKEN_YIELD)].

Definition keyword_of (w : list Z) : token_type :=
  match List.find (fun k => bool_decide (txt k.1 = w)) keywords with Some k => k.2 | None => TOKEN_IDENTIFIER end.

Definition known (w : list Z) (ty : token_type) : Prop := ty = TOKEN_IDENTIFIER \/ exists k, In (k, ty) keywords /\ txt k = w.

Lemma find_keyword w k ty : In (k, ty) keywords -> txt k = w -> keyword_of w = ty.
Proof.
  intros Hin <-. revert k ty Hin.
  assert (Forall (fun x => keyword_of (txt x.1) = x.2) keywords) as H by (repeat (constructor; [by vm_compute|]); constructor).
  intros k ty Hin. rewrite List.Forall_forall in H. exact (H (k, ty) Hin).
Qed.

Lemma keyword_known w : identifier_type w = TOKEN_IDENTIFIER -> keyword_of w = TOKEN_IDENTIFIER.
Proof.
  unfold keyword_of. destruct (List.find _ keywords) as [[k ty]|] eqn:E; [|done]. apply List.find_some in E as [Hin Hk]. apply bool_decide_eq_true in Hk. cbn [fst] in Hk.
  subst w. assert (Forall (fun x => identifier_type (txt x.1) = x.2) keywords) as H by (repeat (constructor; [by vm_compute|]); constructor).
  rewrite List.Forall_forall in H. intros Hid. specialize (H (k, ty) Hin). cbn [fst snd] in *. congruence.
Qed.

Definition code (c : ascii) : Z := Z.of_nat (nat_of_ascii c).

(** The leaf of the decision tree under a known beginning. *)
Lemma check_known w (pre : list Z) rest ty : take (List.length pre) w = pre ->
  List.existsb (fun k => bool_decide (txt k.1 = pre ++ txt rest /\ k.2 = ty)) keywords = true ->
  known w (check_keyword w (zlen pre) (zlen (txt rest)) rest ty).
Proof.
  intros Hp Hk. unfold check_keyword. destruct (Z.eqb_spec (zlen w) (zlen pre + zlen (txt rest))) as [El|]; [|by left]. cbn [andb].
  case_bool_decide as Er; [|by left]. right. apply List.existsb_exists in Hk as ([k ty'] & Hin & Hk). apply bool_decide_eq_true in Hk as [Hk Hty]. cbn [fst snd] in Hk, Hty.
  subst ty'. exists k. split; [done|]. rewrite Hk, <- (take_drop (List.length pre) w), Hp. unfold zlen in *. rewrite !Nat2Z.id in Er.
  rewrite <- Er. rewrite take_ge; [done|]. rewrite length_drop. lia.
Qed.

Lemma nth_is_lookup w i c : nth_is w i c = true -> w.[i] = Some (code c).
Proof. unfold nth_is. by intros ?%bool_decide_eq_true. Qed.

Lemma take_known w (pre : list Z) : (forall i c, pre !! i = Some c -> w.[Z.of_nat i] = Some c) -> take (List.length pre) w = pre.
Proof.
  intros H. apply list_eq. intros i. destruct (decide (i < List.length pre)%nat) as [Hi|Hi].
  - rewrite lookup_take_lt by done. destruct (lookup_lt_is_Some_2 pre i Hi) as [c Hc]. rewrite Hc. specialize (H i c Hc). by rewrite zget_nat in H.
  - rewrite lookup_take_ge, lookup_ge_None_2 by lia. done.
Qed.

Ltac known_prefix pre :=
  match goal with |- known ?w (check_keyword ?w _ _ ?rest ?ty) => apply (check_known w pre rest ty) end;
  [apply take_known; let E := fresh in intros [|[|[|[|?]]]] ? E; first [discriminate E|rewrite <- E; assumption]|reflexivity].
Ltac known_leaf :=
  repeat match goal with H : nth_is _ _ _ = false |- _ => clear H | H : nth_is _ _ _ = true |- _ => apply nth_is_lookup in H end;
  match goal with
  | H0 : ?w.[0] = Some ?a, H1 : ?w.[1] = Some ?b, H2 : ?w.[2] = Some ?c, H3 : ?w.[3] = Some ?d |- known ?w (check_keyword ?w 4 _ _ _) =>
      known_prefix [a; b; c; d]
  | H0 : ?w.[0] = Some ?a, H1 : ?w.[1] = Some ?b, H2 : ?w.[2] = Some ?c |- known ?w (check_keyword ?w 3 _ _ _) => known_prefix [a; b; c]
  | H0 : ?w.[0] = Some ?a, H1 : ?w.[1] = Some ?b |- known ?w (check_keyword ?w 2 _ _ _) => known_prefix [a; b]
  | H0 : ?w.[0] = Some ?a |- known ?w (check_keyword ?w 1 _ _ _) => known_prefix [a]
  end.

Lemma identifier_known w : known w (identifier_type w).
Proof.
  unfold identifier_type. cbv zeta.
  repeat match goal with
  | |- known _ TOKEN_IDENTIFIER => by left
  | |- known _ (if nth_is ?x ?i ?c then _ else _) => destruct (nth_is x i c) eqn:?
  | |- known _ (if ?a =? ?b then _ else _) => destruct (a =? b)
  end; known_leaf.
Qed.

Lemma keyword_tree w : identifier_type w = keyword_of w.
Proof.
  destruct (identifier_known w) as [E|(k & Hin & Hk)]; [by rewrite E, keyword_known|]. symmetry. by eapply find_keyword.
Qed.


(** ** Every text is read to its end *)

Section total.
Context (text : list Z).
Hypothesis text_size : zlen text < 2 ^ 31.
Implicit Types s : lexer.

Definition in_text s : Prop := 0 <= start s <= current s /\ current s <= zlen text.

Lemma byte_ok i : 0 <= i <= zlen text -> exists c, byte text i = Ret c /\ (c <> 0 -> i < zlen text).
Proof.
  intros Hi. unfold byte. destruct (decide (i = zlen text)) as [->|Hne].
  - exists 0. split; [|done]. apply rd_some. rewrite zget_app_r by lia. by rewrite Z.sub_diag.
  - destruct (rd_in_range (text ++ [0]) i) as (c & E & _); [rewrite zlen_app; change (zlen [0]) with 1; lia|]. exists c. split; [done|]. intros _. lia.
Qed.

Lemma peek_ok s : 0 <= current s <= zlen text -> exists c, peek text s = Ret c /\ (c <> 0 -> current s < zlen text).
Proof. apply byte_ok. Qed.

Lemma advance_while_from p n : p 0 = false -> forall s, 0 <= current s <= zlen text -> zlen text - current s < Z.of_nat n ->
  completes (advance_while text n p s) (fun s' => exists x, s' = set_current x s /\ current s <= x <= zlen text).
Proof.
  intros Hp. induction n as [|n IH]; intros s Hs Hn; [lia|]. cbn [advance_while]. destruct (peek_ok s Hs) as (c & -> & Hc). cbn [mbind outcome_bind].
  destruct (p c) eqn:Ec.
  - assert (current s < zlen text) by (apply Hc; intros ->; congruence). destruct (IH (advance s)) as (s' & E & x & -> & Hx); [cbn; lia|cbn; lia|].
    rewrite E. apply completes_Ret. exists x. split; [done|]. cbn in Hx. lia.
  - apply completes_Ret. exists (current s). split; [by destruct s|lia].
Qed.

Lemma advance_while_ok p s : p 0 = false -> 0 <= current s <= zlen text ->
  completes (advance_while text (fuel text) p s) (fun s' => exists x, s' = set_current x s /\ current s <= x <= zlen text).
Proof. intros Hp Hs. apply advance_while_from; [done|done|]. unfold fuel, zlen in *. lia. Qed.

(** Reading on inside a token. *)
Record read_on s s' : Prop := {
  ro_start : start s' = start s;
  ro_current : current s <= current s' <= zlen text;
  ro_indent : indent_stack s' = indent_stack s /\ indent_stack_top s' = indent_stack_top s /\ pending_dedents s' = pending_dedents s;
  ro_depth : 0 <= bracket_depth s -> 0 <= bracket_depth s';
  ro_lines : token_line_start s' = token_line_start s /\ (0 <= line_start s <= current s -> 0 <= line_start s' <= current s')
}.

Lemma read_on_current x s : current s <= x <= zlen text -> read_on s (set_current x s).
Proof. intros Hx. split; cbn; try done. split; [done|lia]. Qed.

Lemma read_on_refl s : current s <= zlen text -> read_on s s.
Proof. intros Hs. split; try done; lia. Qed.

Lemma read_on_trans s1 s2 s3 : read_on s1 s2 -> read_on s2 s3 -> read_on s1 s3.
Proof.
  intros [A1 B1 (C1 & C2 & C3) D1 [E1 F1]] [A2 B2 (C4 & C5 & C6) D2 [E2 F2]]. split; [congruence|lia|split_and!; congruence|auto|split; [congruence|auto]].
Qed.

Lemma read_on_in s s' : in_text s -> read_on s s' -> in_text s'.
Proof. intros [H1 H2] [E ? ? ? ?]. unfold in_text. rewrite E. lia. Qed.

(** Tokens are parts of the text, or errors. *)
Definition token_in (t : token) (limit : Z) : Prop :=
  match t_start t with
  | Source o => 0 <= o /\ 0 <= length t /\ o + length t <= limit
  | Message m => type t = TOKEN_ERROR /\ length t = zlen (txt m)
  end.
Definition plain (ty : token_type) : bool := negb (bool_decide (ty = TOKEN_INDENT \/ ty = TOKEN_DEDENT \/ ty = TOKEN_EOF)).
Definition lexed s (r : token * lexer) : Prop := read_on s r.2 /\ token_in r.1 (current r.2) /\ plain (type r.1) = true.

Lemma make_token_in ty s : in_text s -> token_in (make_token ty s) (current s).
Proof. intros [H1 H2]. unfold token_in. cbn. rewrite s32_small by lia. lia. Qed.

Lemma make_lexed ty s s' : in_text s -> read_on s s' -> plain ty = true -> lexed s (make_token ty s', s').
Proof. intros Hi Hr Hp. split; [done|]. split; [|done]. by eapply make_token_in, read_on_in. Qed.

Lemma error_lexed m s s' : read_on s s' -> lexed s (error_token m s', s').
Proof. intros Hr. split; [done|]. by split. Qed.

Lemma advance_on s : current s < zlen text -> read_on s (advance s).
Proof. intros Hs. apply read_on_current. lia. Qed.

Lemma in_text_current s : in_text s -> 0 <= current s <= zlen text.
Proof. unfold in_text. lia. Qed.

Lemma while_on p s : p 0 = false -> in_text s -> completes (advance_while text (fuel text) p s) (read_on s).
Proof.
  intros Hp Hs. eapply completes_mono; [apply advance_while_ok; [done|by apply in_text_current]|]. intros s' (x & -> & Hx). by apply read_on_current.
Qed.

Lemma peek_in s : in_text s -> exists c, peek text s = Ret c /\ (c <> 0 -> current s < zlen text).
Proof. intros Hs. by apply peek_ok, in_text_current. Qed.

Lemma read_here s : in_text s -> read_on s s.
Proof. intros [_ Hs]. by apply read_on_refl. Qed.

(** *** Words *)

Lemma plain_keyword w : plain (identifier_type w) = true.
Proof.
  destruct (identifier_known w) as [->|(k & Hin & _)]; [done|].
  assert (Forall (fun x => plain x.2 = true) keywords) as H by (repeat (constructor; [by vm_compute|]); constructor).
  rewrite List.Forall_forall in H. exact (H _ Hin).
Qed.

Lemma identifier_loop_ok n : forall s, in_text s -> zlen text - current s < Z.of_nat n ->
  completes (identifier_loop text n s) (fun r => read_on s r.2).
Proof.
  induction n as [|n IH]; intros s Hs Hn; [unfold in_text in Hs; lia|]. cbn [identifier_loop]. destruct (peek_in s Hs) as (c & -> & Hc). cbn [mbind outcome_bind].
  destruct (word_byte c) eqn:Ec; [|by apply completes_Ret, read_here]. case_match; [by apply completes_Ret, read_here|].
  assert (current s < zlen text) as Hlt by (apply Hc; intros ->; discriminate). pose proof (advance_on s Hlt) as Ha.
  eapply completes_mono; [apply IH; [by eapply read_on_in|cbn; lia]|]. intros r Hr. by eapply read_on_trans.
Qed.

Lemma identifier_ok s : in_text s -> completes (identifier text s) (lexed s).
Proof.
  intros Hs. unfold identifier. eapply completes_bind; [apply identifier_loop_ok; [done|unfold fuel, in_text, zlen in *; lia]|]. intros [ok s1] Hr. cbn in Hr.
  apply completes_Ret. destruct ok; [|by apply error_lexed]. apply make_lexed; [done|done|apply plain_keyword].
Qed.

(** *** Numbers *)

Lemma radix_ok digit m1 m2 s : digit 0 = false -> in_text s -> current s < zlen text -> completes (radix_literal text digit m1 m2 s) (lexed s).
Proof.
  intros Hd Hs Hlt. unfold radix_literal. pose proof (advance_on s Hlt) as Ha. pose proof (read_on_in _ _ Hs Ha) as Hs1. set (s1 := advance s) in *.
  destruct (peek_in s1 Hs1) as (c & -> & _). cbn [mbind outcome_bind]. destruct (digit c); cbn [negb]; [|apply completes_Ret; by apply error_lexed].
  eapply completes_bind; [by apply while_on|]. intros s2 H2. pose proof (read_on_trans _ _ _ Ha H2) as H02. pose proof (read_on_in _ _ Hs H02) as Hs2.
  destruct (peek_in s2 Hs2) as (d & -> & _). cbn [mbind outcome_bind]. destruct (word_byte d); apply completes_Ret; [by apply error_lexed|by apply make_lexed].
Qed.

Lemma exponent_ok s : in_text s -> current s < zlen text -> completes (exponent text s) (lexed s).
Proof.
  intros Hs Hlt. unfold exponent. pose proof (advance_on s Hlt) as Ha. pose proof (read_on_in _ _ Hs Ha) as Hs1. set (s1 := advance s) in *.
  destruct (peek_in s1 Hs1) as (c & -> & Hc). cbn [mbind outcome_bind].
  set (s2 := if (c =? 43) || (c =? 45) then advance s1 else s1).
  assert (read_on s s2) as H2.
  { subst s2. destruct ((c =? 43) || (c =? 45)) eqn:E; [|done]. eapply read_on_trans; [exact Ha|]. apply advance_on, Hc. intros ->. discriminate. }
  pose proof (read_on_in _ _ Hs H2) as Hs2. destruct (peek_in s2 Hs2) as (d & -> & _). cbn [mbind outcome_bind].
  destruct (sage_isdigit d); cbn [negb]; [|apply completes_Ret; by apply error_lexed].
  eapply completes_bind; [by apply while_on|]. intros s3 H3. apply completes_Ret. apply make_lexed; [done|by eapply read_on_trans|done].
Qed.

Lemma peek_next_ok s : in_text s -> exists c, peek_next text s = Ret c.
Proof.
  intros Hs. unfold peek_next, is_at_end. destruct (peek_in s Hs) as (c & -> & Hc). cbn [mbind outcome_bind]. destruct (Z.eqb_spec c 0); [by eexists|].
  destruct (byte_ok (current s + 1)) as (d & E & _); [unfold in_text in Hs; specialize (Hc n); lia|]. by exists d.
Qed.

Lemma decimal_ok s : in_text s -> completes (decimal_literal text s) (lexed s).
Proof.
  intros Hs. unfold decimal_literal. eapply completes_bind; [by apply while_on|]. intros s1 H1. pose proof (read_on_in _ _ Hs H1) as Hs1.
  destruct (peek_in s1 Hs1) as (c & -> & Hc). cbn [mbind outcome_bind].
  eapply (completes_bind _ _ (fun d => sage_isdigit d = true -> c = 46)).
  { destruct (Z.eqb_spec c 46); [|by apply completes_Ret]. destruct (peek_next_ok s1 Hs1) as (d & ->). by apply completes_Ret. }
  intros d Hd. eapply (completes_bind _ _ (read_on s)).
  { destruct (sage_isdigit d); [|by apply completes_Ret]. assert (read_on s (advance s1)) as Ha by (eapply read_on_trans; [exact H1|apply advance_on, Hc; by rewrite Hd]).
    eapply completes_mono; [apply while_on; [done|by apply (read_on_in s)]|]. intros s2 H2. by eapply read_on_trans. }
  intros s2 H2. pose proof (read_on_in _ _ Hs H2) as Hs2. destruct (peek_in s2 Hs2) as (e & -> & He). cbn [mbind outcome_bind].
  destruct ((e =? 101) || (e =? 69)) eqn:Ee; [|apply completes_Ret; by apply make_lexed].
  eapply completes_mono; [apply exponent_ok; [done|apply He; intros ->; discriminate]|]. intros r (Hr & ? & ?). split; [by eapply read_on_trans|done].
Qed.

Lemma lex_number_ok s : in_text s -> completes (number text s) (lexed s).
Proof.
  intros Hs. unfold number. destruct (byte_ok (start s)) as (z & -> & _); [unfold in_text in Hs; lia|]. cbn [mbind outcome_bind].
  destruct (peek_in s Hs) as (c & -> & Hc). cbn [mbind outcome_bind].
  assert (forall b, (z =? 48) && b = true -> (b = true -> c <> 0) -> current s < zlen text) as Hb by (intros b [_ Hx]%andb_true_iff Hy; auto).
  repeat (case_match eqn:E; [apply radix_ok; [done|done|]; eapply Hb; [exact E|intros Hx ->; discriminate]|clear E]). by apply decimal_ok.
Qed.

(** *** Strings *)

Lemma read_on_line x s : in_text s -> read_on s (set_line x s).
Proof. intros [_ Hs]. split; cbn; try done; lia. Qed.

Lemma read_on_line_start s : in_text s -> read_on s (set_line_start (current s) s).
Proof. intros [? Hs]. split; cbn; try done; lia. Qed.

Lemma last_byte_ok s : in_text s -> 0 < current s -> exists c, last_byte text s = Ret c.
Proof. intros [? ?] Hc. destruct (byte_ok (current s - 1)) as (c & E & _); [lia|]. by exists c. Qed.

Lemma escape_ok s : in_text s -> current s < zlen text ->
  completes (let a := advance s in
    e ← is_at_end text a; let b := if (e : bool) then a else advance a in
    l ← last_byte text b; Ret (if l =? 10 then set_line_start (current b) (set_line (line b + 1) b) else b))
    (fun s' => read_on s s' /\ current s < current s').
Proof.
  intros Hs Hlt. pose proof (advance_on s Hlt) as Ha. pose proof (read_on_in _ _ Hs Ha) as Hs1. cbv zeta. set (a := advance s) in *.
  unfold is_at_end. destruct (peek_in a Hs1) as (e & -> & He). cbn [mbind outcome_bind]. set (b := if e =? 0 then a else advance a).
  assert (read_on s b) as Hb. { subst b. destruct (Z.eqb_spec e 0); [done|]. eapply read_on_trans; [exact Ha|]. by apply advance_on, He. }
  assert (current s < current b) as Hcb by (subst b a; destruct (e =? 0); cbn; lia). pose proof (read_on_in _ _ Hs Hb) as Hs2.
  destruct (last_byte_ok b Hs2) as (l & ->); [unfold in_text in Hs; lia|]. cbn [mbind outcome_bind]. apply completes_Ret.
  destruct (l =? 10); [|done]. split; [|done]. eapply read_on_trans; [exact Hb|]. eapply read_on_trans; [by apply (read_on_line (line b + 1))|].
  apply (read_on_line_start (set_line (line b + 1) b)). done.
Qed.

Lemma string_char_ok c s : in_text s -> current s < zlen text -> completes (string_char text c s) (fun s' => read_on s s' /\ current s < current s').
Proof.
  intros Hs Hlt. unfold string_char. set (s1 := if c =? 10 then set_line (line s + 1) s else s).
  assert (read_on s s1 /\ current s1 = current s) as [H1 E1] by (subst s1; destruct (c =? 10); (split; [|done]); [by apply read_on_line|by apply read_here]).
  pose proof (read_on_in _ _ Hs H1) as Hs1. eapply (completes_bind _ _ (fun s' => read_on s s' /\ current s < current s')).
  { destruct (c =? 92).
    - eapply completes_mono; [apply escape_ok; [done|lia]|]. intros s2 [H2 ?]. split; [by eapply read_on_trans|lia].
    - apply completes_Ret. split; [eapply read_on_trans; [exact H1|apply advance_on; lia]|cbn; lia]. }
  intros s2 [H2 Hc2]. pose proof (read_on_in _ _ Hs H2) as Hs2. destruct (last_byte_ok s2 Hs2) as (l & ->); [unfold in_text in Hs; lia|].
  cbn [mbind outcome_bind]. apply completes_Ret. destruct (l =? 10); [|done]. split; [|done]. eapply read_on_trans; [exact H2|by apply read_on_line_start].
Qed.

Lemma string_loop_ok n from : forall s, in_text s -> zlen text - current s < Z.of_nat n -> completes (string_loop text n from s) (fun r => read_on s r.2).
Proof.
  induction n as [|n IH]; intros s Hs Hn; [unfold in_text in Hs; lia|]. cbn [string_loop]. destruct (peek_in s Hs) as (c & -> & Hc). cbn [mbind outcome_bind].
  destruct ((c =? 34) || (c =? 0)) eqn:Ec; [by apply completes_Ret, read_here|]. apply orb_false_iff in Ec as [_ Ec%Z.eqb_neq].
  eapply completes_bind; [apply string_char_ok; auto|]. intros s1 [H1 Hlt]. pose proof (read_on_in _ _ Hs H1) as Hs1. case_match; [by apply completes_Ret|].
  eapply completes_mono; [apply IH; [done|lia]|]. intros r Hr. by eapply read_on_trans.
Qed.

Lemma string_ok s : in_text s -> completes (string_ text s) (lexed s).
Proof.
  intros Hs. unfold string_. eapply completes_bind; [apply string_loop_ok; [done|unfold fuel, in_text, zlen in *; lia]|]. intros [ok s1] Hr. cbn in Hr.
  destruct ok; cbn [negb]; [|apply completes_Ret; by apply error_lexed]. unfold is_at_end. pose proof (read_on_in _ _ Hs Hr) as Hs1.
  destruct (peek_in s1 Hs1) as (c & -> & Hc). cbn [mbind outcome_bind]. destruct (Z.eqb_spec c 0); apply completes_Ret; [by apply error_lexed|].
  apply make_lexed; [done| |done]. eapply read_on_trans; [exact Hr|]. by apply advance_on, Hc.
Qed.

(** *** Operators and comments *)

Lemma match_char_ok x s : x <> 0 -> in_text s -> completes (match_char text x s) (fun r => read_on s r.2).
Proof.
  intros Hx Hs. unfold match_char. destruct (peek_in s Hs) as (c & -> & Hc). cbn [mbind outcome_bind]. case_match eqn:E; apply completes_Ret; [by apply read_here|].
  apply orb_false_iff in E as [E%Z.eqb_neq _]. by apply advance_on, Hc.
Qed.

Lemma either_ok x two one s : x <> 0 -> plain two = true -> plain one = true -> in_text s -> completes (either text x two one s) (lexed s).
Proof.
  intros Hx H1 H2 Hs. unfold either. eapply completes_bind; [by apply match_char_ok|]. intros [hit s1] Hr. apply completes_Ret. apply make_lexed; [done|done|by destruct hit].
Qed.

Lemma shift_ok x a b c s : x <> 0 -> plain a = true -> plain b = true -> plain c = true -> in_text s -> completes (shift_or text x a b c s) (lexed s).
Proof.
  intros Hx Ha Hb Hc Hs. unfold shift_or. eapply completes_bind; [by apply match_char_ok|]. intros [hit s1] Hr. cbn in Hr.
  destruct hit; [apply completes_Ret; by apply make_lexed|]. eapply completes_mono; [apply either_ok; [done..|by eapply read_on_in]|].
  intros r (H1 & H2). split; [by eapply read_on_trans|done].
Qed.

Lemma read_on_depth x s : in_text s -> 0 <= x -> read_on s (set_depth x s).
Proof. intros [_ Hs] Hx. split; cbn; try done; lia. Qed.

Lemma operator_ok c s : 0 <= bracket_depth s -> in_text s -> completes (operator text c s) (lexed s).
Proof.
  intros Hd Hs.
  assert (forall ty, plain ty = true -> completes (Ret (make_token ty s, s)) (lexed s)) as H1 by (intros ty Hp; apply completes_Ret; apply make_lexed; [done|by apply read_here|done]).
  assert (forall ty, plain ty = true -> completes (Ret (opening ty s)) (lexed s)) as H2.
  { intros ty Hp. apply completes_Ret. apply make_lexed; [done|apply read_on_depth; [done|lia]|done]. }
  assert (forall ty, plain ty = true -> completes (Ret (closing ty s)) (lexed s)) as H3.
  { intros ty Hp. apply completes_Ret. apply make_lexed; [done| |done]. destruct (Z.ltb_spec 0 (bracket_depth s)); [apply read_on_depth; [done|lia]|by apply read_here]. }
  assert (completes (Ret (error_token "Unexpected character." s, s)) (lexed s)) as H4 by (apply completes_Ret; apply error_lexed; by apply read_here).
  destruct c as [[|] [|] [|] [|] [|] [|] [|] [|]]; cbn [operator];
    first [exact H4|apply H1; done|apply H2; done|apply H3; done|apply either_ok; done|apply shift_ok; done|idtac].
  eapply completes_bind; [by apply match_char_ok|]. intros [hit s1] Hr. cbn in Hr. apply completes_Ret. destruct hit; [by apply make_lexed|by apply error_lexed].
Qed.

Lemma doc_comment_ok s : in_text s -> current s < zlen text -> completes (doc_comment text s) (lexed s).
Proof.
  intros Hs Hlt. unfold doc_comment. pose proof (advance_on s Hlt) as Ha. eapply completes_bind; [apply while_on; [done|by eapply read_on_in]|]. intros s1 H1.
  assert (read_on s s1) as H01 by (by eapply read_on_trans). pose proof (read_on_in _ _ Hs H01) as Hs1. eapply completes_bind; [by apply while_on|]. intros s2 H2.
  apply completes_Ret. split; [by eapply read_on_trans|]. split; [|done]. destruct H2 as [_ Hc _ _ _]. unfold token_in, in_text in *. cbn. rewrite s32_small by lia. lia.
Qed.

(** *** Indentation *)

Record stack_ok (st : list Z) (top : Z) : Prop := {
  so_len : zlen st = MAX_INDENT_LEVELS;
  so_top : 0 <= top < MAX_INDENT_LEVELS;
  so_first : st.[0] = Some 0;
  so_sorted i j a b : 0 <= i < j -> j <= top -> st.[i] = Some a -> st.[j] = Some b -> a < b
}.

Record wf s : Prop := {
  wf_in : in_text s;
  wf_lines : 0 <= line_start s <= current s;
  wf_stack : stack_ok (indent_stack s) (indent_stack_top s);
  wf_pending : 0 <= pending_dedents s /\ 0 <= bracket_depth s /\ (pending_dedents s = 0 \/ bracket_depth s = 0)
}.

(** Blocks that are open, with those whose end is still to be reported. *)
Definition level s : Z := indent_stack_top s + pending_dedents s.
Definition delta (ty : token_type) : Z := match ty with TOKEN_INDENT => 1 | TOKEN_DEDENT => -1 | _ => 0 end.
Definition measure s : Z := 3 * (zlen text - current s) + level s.

Record step s (r : token * lexer) : Prop := {
  st_wf : wf r.2;
  st_in : token_in r.1 (current r.2);
  st_level : level r.2 = level s + delta (type r.1);
  st_end : type r.1 = TOKEN_EOF /\ level r.2 = 0 \/ type r.1 <> TOKEN_EOF /\ measure r.2 < measure s
}.

Lemma stack_get st top i : stack_ok st top -> 0 <= i <= top -> exists x, rd st i = Ret x /\ st.[i] = Some x /\ 0 <= x.
Proof.
  intros [Hl Ht H0 Hs] Hi. destruct (rd_in_range st i) as (x & E & Hx); [lia|]. exists x. split; [done|]. split; [done|].
  destruct (decide (i = 0)) as [->|]; [rewrite H0 in Hx; injection Hx; lia|]. assert (0 < x); [|lia]. eapply (Hs 0 i); [lia|lia|done|done].
Qed.

Lemma stack_pop st top k : stack_ok st top -> 0 <= k <= top -> stack_ok st (top - k).
Proof. intros [Hl Ht H0 Hs] Hk. split; [done|lia|done|]. intros i j a b Hi Hj. apply Hs; lia. Qed.

Lemma stack_push st top x y : stack_ok st top -> top < MAX_INDENT_LEVELS - 1 -> st.[top] = Some y -> y < x -> stack_ok (st.[top + 1 <- x]) (top + 1).
Proof.
  intros [Hl Ht H0 Hs] Htop Hy Hx. split; [by rewrite zlen_zset|lia|by rewrite zget_zset_ne by lia|]. intros i j a b Hi Hj.
  rewrite (zget_zset_ne _ _ i) by lia. intros Ha. destruct (decide (j = top + 1)) as [->|].
  - rewrite zget_zset_eq by lia. intros [= <-]. destruct (decide (i = top)) as [->|]; [congruence|]. assert (a < y); [|lia]. eapply (Hs i top); [lia|lia|done|done].
  - rewrite zget_zset_ne by lia. eapply (Hs i j); [lia|lia|done].
Qed.

Lemma pop_indent_ok n spaces : forall s, stack_ok (indent_stack s) (indent_stack_top s) -> indent_stack_top s <= Z.of_nat n ->
  completes (pop_indent n spaces s) (fun s' => exists k, 0 <= k <= indent_stack_top s /\
    s' = set_indent (indent_stack s) (indent_stack_top s - k) (pending_dedents s + k) s /\
    (indent_stack_top s - k = 0 \/ exists x, (indent_stack s).[indent_stack_top s - k] = Some x /\ x <= spaces)).
Proof.
  induction n as [|n IH]; intros s Hs Hn; cbn [pop_indent]; (destruct (Z.leb_spec (indent_stack_top s) 0) as [Hle|Hgt];
    [apply completes_Ret; exists 0; destruct Hs; rewrite Z.sub_0_r, Z.add_0_r; split; [lia|]; split; [by destruct s|left; lia]|]); [lia|].
  destruct (stack_get _ _ (indent_stack_top s) Hs) as (x & -> & Hx & _); [lia|]. cbn [mbind outcome_bind]. destruct (Z.ltb_spec spaces x) as [Hlt|Hge].
  - set (s1 := set_indent _ _ _ s). destruct (IH s1) as (s' & E & k & Hk & -> & Hend); [apply (stack_pop _ _ 1); [done|lia]|cbn; lia|]. rewrite E. apply completes_Ret.
    cbn in Hk, Hend. exists (k + 1). split; [lia|]. split; [unfold set_indent; cbn; f_equal; lia|].
    replace (indent_stack_top s - (k + 1)) with (indent_stack_top s - 1 - k) by lia. done.
  - apply completes_Ret. exists 0. rewrite Z.sub_0_r, Z.add_0_r. split; [lia|]. split; [by destruct s|]. right. by exists x.
Qed.

(** The tokens at the start of a line. *)
Record indented (spaces : Z) s (t : token) s' : Prop := {
  id_current : current s' = current s;
  id_wf : wf s';
  id_in : token_in t (current s');
  id_level : level s' = level s + delta (type t);
  id_kind : type t = TOKEN_INDENT /\ 0 < spaces \/ type t = TOKEN_DEDENT \/ type t = TOKEN_ERROR /\ 0 < spaces
}.

Lemma wf_set_indent st top p s : wf s -> stack_ok st top -> 0 <= p -> p = 0 \/ bracket_depth s = 0 -> wf (set_indent st top p s).
Proof. intros [? ? ? ?] Hs Hp Hd. split; [done|done|done|]. cbn. lia. Qed.

Lemma indentation_ok spaces s : wf s -> pending_dedents s = 0 -> 0 <= spaces ->
  completes (indentation spaces s) (fun '(o, s') => match o with None => s' = s | Some t => indented spaces s t s' end).
Proof.
  intros Hwf Hp Hsp. pose proof Hwf as [Hin Hl Hst (_ & Hd & _)]. unfold indentation. destruct (Z.ltb_spec 0 (bracket_depth s)) as [|Hd0]; [by apply completes_Ret|].
  pose proof (so_top _ _ Hst) as Ht. destruct (stack_get _ _ (indent_stack_top s) Hst) as (cur & -> & Hcur & Hc0); [lia|]. cbn [mbind outcome_bind].
  destruct (Z.ltb_spec cur spaces) as [Hlt|Hge].
  - destruct (Z.leb_spec (MAX_INDENT_LEVELS - 1) (indent_stack_top s)) as [Hfull|Hroom]; [apply completes_Ret; split; try done; [cbn; lia|right; right; split; [done|lia]]|].
    rewrite wr_in_range by (rewrite (so_len _ _ Hst); lia). cbn [mbind outcome_bind]. apply completes_Ret.
    split; [done| |exact (make_token_in TOKEN_INDENT s Hin)|unfold level; cbn; lia|left; split; [done|lia]].
    apply wf_set_indent; [done| |lia|lia]. by eapply stack_push.
  - destruct (Z.ltb_spec spaces cur) as [Hlt|]; [|by apply completes_Ret]. eapply completes_bind; [apply pop_indent_ok; [done|unfold MAX_INDENT_LEVELS in *; lia]|].
    intros s1 (k & Hk & -> & Hend). cbn [indent_stack indent_stack_top pending_dedents set_indent].
    pose proof (stack_pop _ _ k Hst Hk) as Hst'. destruct (stack_get _ _ (indent_stack_top s - k) Hst') as (x & -> & Hx & Hx0); [lia|]. cbn [mbind outcome_bind].
    assert (0 < k) as Hk0 by (destruct (decide (k = 0)) as [->|]; [|lia]; rewrite Z.sub_0_r, Hcur in Hend; destruct Hend as [E|(y & [= <-] & ?)]; [|lia];
      rewrite E, (so_first _ _ Hst) in Hcur; injection Hcur; lia).
    destruct (Z.eqb_spec x spaces) as [->|Hne]; cbn [negb]; apply completes_Ret.
    + split; [done|apply wf_set_indent; [by apply wf_set_indent; [|done|lia|right; lia]|done|lia|right; cbn; lia]|exact (make_token_in TOKEN_DEDENT s Hin)|unfold level; cbn; lia|by right; left].
    + split; [done|apply wf_set_indent; [done|done|lia|right; lia]|done|unfold level; cbn; lia|]. right. right. split; [done|].
      destruct Hend as [E|(y & Hy & ?)]; [rewrite E, (so_first _ _ Hst) in Hx; injection Hx; lia|]. rewrite Hx in Hy. injection Hy as ->. lia.
Qed.

(** *** Tokens *)

Lemma wf_read_on s s' : wf s -> pending_dedents s = 0 -> read_on s s' -> wf s' /\ level s' = level s.
Proof.
  intros [Hin Hl Hst (_ & Hd & _)] Hp Hr. pose proof (read_on_in _ _ Hin Hr) as Hin'. destruct Hr as [_ _ (E1 & E2 & E3) Hd' [_ Hl']].
  split; [|unfold level; by rewrite E2, E3]. split; [done|auto|by rewrite E1, E2|]. rewrite E3, Hp. split; [done|]. split; [auto|by left].
Qed.

Lemma plain_delta ty : plain ty = true -> delta ty = 0 /\ ty <> TOKEN_EOF.
Proof. by destruct ty. Qed.

Lemma lexed_step s r : wf s -> pending_dedents s = 0 -> current s < zlen text -> lexed (advance s) r -> step s r.
Proof.
  intros Hwf Hp Hlt (Hr & Ht & Hpl). assert (read_on s r.2) as Hr' by (eapply read_on_trans; [by apply advance_on|done]).
  destruct (wf_read_on s r.2 Hwf Hp Hr') as [Hwf' Hlev]. destruct (plain_delta _ Hpl) as [Hd Hne]. split; [done|done|lia|right; split; [done|]].
  destruct Hr as [_ Hc _ _ _]. cbn in Hc. unfold measure. lia.
Qed.

Lemma bol_read_on s : in_text s -> read_on s (set_bol true s).
Proof. intros [_ Hs]. split; cbn; try done; lia. Qed.

(** The newline is behind. *)
Lemma next_line_on s : in_text s -> current s < zlen text ->
  read_on s (set_bol true (set_line_start (current (advance s)) (set_line (line (advance s) + 1) (advance s)))).
Proof.
  intros Hs Hlt. pose proof (advance_on s Hlt) as Ha. pose proof (read_on_in _ _ Hs Ha) as Hs1. eapply read_on_trans; [exact Ha|].
  eapply read_on_trans; [by apply (read_on_line (line (advance s) + 1))|]. eapply read_on_trans; [by apply (read_on_line_start (set_line _ (advance s)))|]. by apply bol_read_on.
Qed.

Lemma make_step s ty s' : wf s -> pending_dedents s = 0 -> current s < current s' -> read_on s s' -> plain ty = true -> step s (make_token ty s', s').
Proof.
  intros Hwf Hp Hlt Hr Hpl. destruct (wf_read_on s s' Hwf Hp Hr) as [Hwf' Hlev]. destruct (plain_delta _ Hpl) as [Hd Hne].
  split; [done|apply make_token_in, Hwf'|cbn; lia|right; split; [done|]]. unfold measure. cbn. lia.
Qed.

(** A step, or progress to a state to scan on from. *)
Definition progress s (o : option token) s' : Prop :=
  match o with Some t => step s (t, s') | None => wf s' /\ level s' = level s /\ current s < current s' end.

Lemma some_step s m : wf s -> pending_dedents s = 0 -> current s < zlen text -> completes m (lexed (advance s)) ->
  completes ('(t, x) ← m; Ret (Some t, x)) (fun '(o, s') => progress s o s').
Proof. intros Hwf Hp Hlt Hm. eapply completes_bind; [exact Hm|]. intros [t x] Hx. apply completes_Ret. by apply lexed_step. Qed.

Lemma scan_rest_ok s : wf s -> pending_dedents s = 0 -> completes (scan_rest text s) (fun '(o, s') => progress s o s').
Proof.
  intros Hwf Hp. pose proof Hwf as [Hin Hl Hst (_ & Hd & _)]. unfold scan_rest. destruct (peek_in s Hin) as (c0 & -> & Hc). cbn [mbind outcome_bind].
  destruct (Z.eqb_spec c0 0) as [->|Hne].
  - pose proof (so_top _ _ Hst). destruct (Z.ltb_spec 0 (indent_stack_top s)); apply completes_Ret.
    + split; [apply wf_set_indent; [done|apply (stack_pop _ _ 1); [done|lia]|lia|by left]|exact (make_token_in TOKEN_DEDENT s Hin)|unfold level; cbn; lia|].
      right. split; [done|]. unfold measure, level. cbn. lia.
    + split; [done|by apply make_token_in|cbn; lia|left; split; [done|unfold level; cbn; lia]].
  - specialize (Hc Hne). pose proof (advance_on s Hc) as Ha. pose proof (read_on_in _ _ Hin Ha) as Hs1. cbv zeta. destruct (Z.eqb_spec c0 10) as [->|_].
    { pose proof (next_line_on s Hin Hc) as Hn. destruct (0 <? _); apply completes_Ret; [|apply make_step; try done; cbn; lia].
      destruct (wf_read_on _ _ Hwf Hp Hn). split; [done|]. split; [done|cbn; lia]. }
    destruct (Z.eqb_spec c0 35) as [->|_].
    { destruct (peek_in _ Hs1) as (c1 & -> & Hc1). cbn [mbind outcome_bind]. destruct (Z.eqb_spec c1 35) as [->|_].
      - apply some_step; [done..|]. apply doc_comment_ok; [done|by apply Hc1].
      - eapply completes_bind; [by apply while_on|]. intros s2 H2. apply completes_Ret. pose proof (read_on_trans _ _ _ Ha H2) as Hr.
        destruct (wf_read_on _ _ Hwf Hp Hr). split; [done|]. split; [done|]. destruct H2 as [_ Hx _ _ _]. cbn in Hx. lia. }
    destruct (c0 =? 34); [by apply some_step; [..|apply string_ok]|]. destruct (sage_isalpha c0 || _); [by apply some_step; [..|apply identifier_ok]|].
    destruct (sage_isdigit c0); [by apply some_step; [..|apply lex_number_ok]|]. by apply some_step; [..|apply operator_ok].
Qed.

Lemma wf_begin s : wf s -> wf (begin_token s).
Proof. intros [[? ?] Hl ? ?]. split; [|done|done|done]. unfold in_text. cbn. lia. Qed.

Lemma wf_bol b s : wf s -> wf (set_bol b s).
Proof. by intros []. Qed.

Lemma line_begin_ok s : wf s -> pending_dedents s = 0 -> completes (line_begin text s) (fun b =>
  match b with
  | inl s1 => progress s None s1
  | inr (Some t, s1) => step s (t, s1)
  | inr (None, s1) => wf s1 /\ level s1 = level s /\ pending_dedents s1 = 0 /\ current s <= current s1
  end).
Proof.
  intros Hwf Hp. unfold line_begin. pose proof (wf_begin _ (wf_bol false _ Hwf)) as Hwf1. set (s1 := begin_token (set_bol false s)) in *.
  assert (level s1 = level s /\ current s1 = current s /\ pending_dedents s1 = 0) as (El & Ec & Ep) by done.
  eapply completes_bind; [apply while_on; [done|apply Hwf1]|]. intros s2 H2. destruct (wf_read_on _ _ Hwf1 Ep H2) as [Hwf2 El2].
  pose proof H2 as [_ Hc2 (_ & _ & Ep2) _ _]. cbv zeta. destruct (peek_in s2 (wf_in _ Hwf2)) as (c & -> & Hc). cbn [mbind outcome_bind].
  destruct (Z.eqb_spec c 10) as [->|_].
  - apply completes_Ret. pose proof (wf_begin _ Hwf2) as Hwf3. assert (current (begin_token s2) < zlen text) as Hlt by (by apply Hc).
    pose proof (next_line_on _ (wf_in _ Hwf3) Hlt) as Hn. destruct (wf_read_on _ _ Hwf3 (eq_trans Ep2 Ep) Hn) as [Hw El3]. split; [done|]. split.
    + rewrite El3. change (level (begin_token s2)) with (level s2). lia.
    + cbn. lia.
  - eapply completes_bind; [apply (indentation_ok (current s2 - current s1) s2); [done|lia|lia]|]. intros [[t|] s3] Hi; apply completes_Ret.
    + destruct Hi as [E3 Hw Ht Hlev Hk]. split; [done|done|cbn; lia|]. right. unfold measure. cbn [fst snd]. rewrite E3.
      destruct Hk as [[Ek ?]|[Ek|[Ek ?]]]; rewrite Ek in Hlev |- *; cbn [delta] in Hlev; (split; [done|lia]).
    + subst s3. split; [done|]. split; [lia|]. split; [lia|lia].
Qed.

Lemma step_later s s1 r : level s1 = level s -> current s <= current s1 -> step s1 r -> step s r.
Proof. intros El Hc [? ? ? He]. split; [done|done|lia|]. destruct He as [?|[? ?]]; [by left|right; split; [done|unfold measure in *; lia]]. Qed.

Lemma lex_scan_ok n : forall s, wf s -> zlen text - current s < Z.of_nat n -> completes (scan text n s) (step s).
Proof.
  induction n as [|n IH]; intros s Hwf Hn; [destruct Hwf as [[? ?] _ _ _]; lia|]. cbn [scan]. pose proof Hwf as [Hin _ _ (Hp0 & _ & Hpd)].
  destruct ((0 <? pending_dedents s) && (bracket_depth s =? 0)) eqn:Ep.
  { apply andb_true_iff in Ep as [Ep%Z.ltb_lt Ed%Z.eqb_eq]. apply completes_Ret. pose proof (wf_begin _ Hwf) as Hwb.
    split; [apply wf_set_indent; [done|apply Hwf|lia|by right]|exact (make_token_in TOKEN_DEDENT _ (wf_in _ Hwb))|unfold level; cbn; lia|].
    right. split; [done|]. unfold measure, level. cbn. lia. }
  assert (pending_dedents s = 0) as Hp by (destruct Hpd as [|Hd]; [done|]; rewrite Hd, andb_true_r in Ep; apply Z.ltb_ge in Ep; lia).
  assert (forall s1, progress s None s1 -> completes (scan text n s1) (step s)) as Hagain.
  { intros s1 (H1 & H2 & H3). eapply completes_mono; [apply IH; [done|lia]|]. intros r. apply step_later; [done|lia]. }
  eapply (completes_bind _ _ (fun b => match b with inl s1 => progress s None s1 | inr (Some t, s1) => step s (t, s1)
    | inr (None, s1) => wf s1 /\ level s1 = level s /\ pending_dedents s1 = 0 /\ current s <= current s1 end)).
  { destruct (at_beginning_of_line s); [by apply line_begin_ok|]. apply completes_Ret. split; [done|]. split; [done|]. split; [done|lia]. }
  intros [s1|[[t|] s1]] Hb; [by apply Hagain|by apply completes_Ret|]. destruct Hb as (Hw1 & El1 & Ep1 & Hc1).
  eapply completes_bind; [apply while_on; [done|apply Hw1]|]. intros s2 H2. destruct (wf_read_on _ _ Hw1 Ep1 H2) as [Hw2 El2]. destruct H2 as [_ Hc2 (_ & _ & Ep2) _ _].
  eapply completes_bind; [apply scan_rest_ok; [by apply wf_begin|cbn; lia]|]. intros [[t|] s3] H3.
  - apply completes_Ret. eapply step_later; [| |exact H3]; [cbn; change (level (begin_token s2)) with (level s2); lia|cbn; lia].
  - apply Hagain. destruct H3 as (H3 & H4 & H5). split; [done|]. change (level (begin_token s2)) with (level s2) in H4. cbn in H5. split; lia.
Qed.

Lemma scan_token_ok s : wf s -> completes (scan_token text s) (step s).
Proof. intros Hwf. apply lex_scan_ok; [done|]. destruct Hwf as [[? ?] _ _ _]. unfold fuel, zlen in *. lia. Qed.

(** Blocks open after each token. *)
Fixpoint levels (l : Z) (ts : list token) : list Z := match ts with [] => [] | t :: r => let l' := l + delta (type t) in l' :: levels l' r end.

Lemma scan_all_ok n : forall s, wf s -> measure s <= Z.of_nat n -> completes (scan_all text n s) (fun ts =>
  exists body e, ts = body ++ [e] /\ Forall (fun t => type t <> TOKEN_EOF) body /\ type e = TOKEN_EOF /\
    Forall (fun t => token_in t (zlen text)) ts /\ Forall (fun l => 0 <= l) (levels (level s) ts) /\ List.last (levels (level s) ts) 0 = 0 /\
    zlen body <= measure s).
Proof.
  induction n as [n IH] using lt_wf_ind. intros s Hwf Hn. assert (0 <= measure s /\ 0 <= level s) as [Hm0 _].
  { destruct Hwf as [[? ?] _ [] (? & _)]. unfold measure, level. lia. }
  destruct (scan_token_ok s Hwf) as ([t s1] & E & Hst). destruct Hst as [Hw Ht Hl He]. cbn [fst snd] in *.
  assert (token_in t (zlen text) /\ 0 <= level s1 /\ 0 <= measure s1) as (Ht' & Hl0 & Hm1).
  { destruct Hw as [[? ?] _ [] (? & _)]. split; [|unfold measure, level; lia]. unfold token_in in *. destruct (t_start t); [lia|done]. }
  destruct n as [|n]; cbn [scan_all]; rewrite E; cbn [mbind outcome_bind]; destruct He as [[Et El]|[Et Hm]].
  1,3: rewrite bool_decide_true by done; apply completes_Ret; exists [], t; cbn [levels app List.last]; rewrite <- Hl, El; (split; [done|]);
    (split; [constructor|]); (split; [done|]); (split; [by constructor|]); (split; [by constructor|]); (split; [done|]); by change (zlen (A:=token) []) with 0.
  - lia.
  - rewrite bool_decide_false by done. destruct (IH n ltac:(lia) s1 Hw ltac:(lia)) as (ts & -> & body & e & -> & Hb & He & Hin & Hlev & Hlast & Hlen).
    cbn [mbind outcome_bind]. apply completes_Ret. exists (t :: body), e. split; [done|]. split; [by constructor|]. split; [done|]. split; [by constructor|].
    cbn [levels app]. rewrite <- Hl. split; [by constructor|]. split; [|rewrite zlen_cons; lia].
    destruct (levels (level s1) (body ++ [e])) eqn:El; [by destruct body|done].
Qed.
End total.

Lemma wf_init text stack file s : zlen stack = MAX_INDENT_LEVELS -> init_lexer stack file = Ret s -> wf text s /\ measure text s = 3 * zlen text /\ level s = 0.
Proof.
  intros Hl E. unfold init_lexer in E. rewrite wr_in_range in E by (rewrite Hl; done). cbn [mbind outcome_bind] in E. injection E as <-.
  pose proof (zlen_nonneg text). split; [|by unfold measure, level; cbn; lia]. split; [unfold in_text; cbn; lia|cbn; lia| |cbn; lia].
  split; cbn [indent_stack indent_stack_top]; [by rewrite zlen_zset|done|apply zget_zset_eq; rewrite Hl; done|lia].
Qed.

(** C17: the lexer reads every text to its end: at most [3 * length] tokens, then the
    end of the file, with no access outside the text or the stack of indentations.
    Every token but an error is a part of the text.  INDENT and DEDENT are balanced:
    the number of open blocks is never negative and is zero at the end, whatever the
    text, also after errors. *)
Theorem lexer_total text stack file : zlen text < 2 ^ 31 -> zlen stack = MAX_INDENT_LEVELS ->
  completes (s ← init_lexer stack file; scan_all text (3 * List.length text) s) (fun ts =>
    exists body e, ts = body ++ [e] /\ Forall (fun t => type t <> TOKEN_EOF) body /\ type e = TOKEN_EOF /\
      Forall (fun t => token_in t (zlen text)) ts /\ Forall (fun l => 0 <= l) (levels 0 ts) /\ List.last (levels 0 ts) 0 = 0 /\
      zlen body <= 3 * zlen text).
Proof.
  intros Ht Hs. destruct (init_lexer stack file) as [s| |] eqn:E; [|unfold init_lexer in E; rewrite wr_in_range in E by (rewrite Hs; done); discriminate..].
  destruct (wf_init text stack file s Hs E) as (Hwf & Hm & Hl). cbn [mbind outcome_bind].
  pose proof (scan_all_ok text Ht (3 * List.length text) s Hwf) as H. rewrite Hl, Hm in H. apply H. unfold zlen. lia.
Qed.

(** A block that is left open, and an error in a line. *)
Definition ex_text : list Z := txt "if x" ++ [10; 32; 32] ++ txt "y = $".

Lemma lexer_total_witness :
  completes (s ← init_lexer (replicate 100 7) []; scan_all ex_text (3 * List.length ex_text) s) (fun ts =>
    exists body e, ts = body ++ [e] /\ Forall (fun t => type t <> TOKEN_EOF) body /\ type e = TOKEN_EOF /\
      Forall (fun t => token_in t (zlen ex_text)) ts /\ Forall (fun l => 0 <= l) (levels 0 ts) /\ List.last (levels 0 ts) 0 = 0 /\
      zlen body <= 3 * zlen ex_text).
Proof. apply (lexer_total ex_text (replicate 100 7) []); vm_compute; reflexivity. Defined.

Definition types_of (text : list Z) (n : nat) : outcome (list (token_type * Z)) :=
  s ← init_lexer (replicate 100 0) []; ts ← scan_all text n s; Ret (List.map (fun t => (type t, length t)) ts).

Example ex_tokens : types_of ex_text 20 =
  Ret [(TOKEN_IF, 2); (TOKEN_IDENTIFIER, 1); (TOKEN_NEWLINE, 1); (TOKEN_INDENT, 2); (TOKEN_IDENTIFIER, 1); (TOKEN_ASSIGN, 1); (TOKEN_ERROR, 21);
       (TOKEN_DEDENT, 0); (TOKEN_EOF, 0)].
Proof. vm_compute. reflexivity. Qed.

(** The length of a word is checked before a character is read, so the limit is 1025. *)
Example long_word : types_of (replicate 1025 97) 2 = Ret [(TOKEN_IDENTIFIER, 1025); (TOKEN_EOF, 0)].
Proof. vm_compute. reflexivity. Qed.

(** A line with nothing but a comment opens and closes blocks. *)
Example comment_indents : types_of (txt "a" ++ [10; 32; 32; 35; 10] ++ txt "b") 20 =
  Ret [(TOKEN_IDENTIFIER, 1); (TOKEN_NEWLINE, 1); (TOKEN_INDENT, 2); (TOKEN_NEWLINE, 1); (TOKEN_DEDENT, 0); (TOKEN_IDENTIFIER, 1); (TOKEN_EOF, 0)].
Proof. vm_compute. reflexivity. Qed.
End LexerSpec.
