(* ===== verification/LexerLayout.v ===== *)
(** * Reading printed programs back

    A program is a list of lines, each with an indentation and lexemes.  The lexer
    gives the lexemes of its text, each with its spelling, and the block structure
    that the reference definition [layout] computes from the indentations. *)

From Stdlib Require Import String Ascii.
From stdpp Require Import base tactics list numbers option.
From S2P Require Import Prelude Libc LineEdit Lexer LexerSpec.

Module LexerLayout.
Import Libc LineEdit Lexer LexerSpec.
Local Open Scope string_scope.
Local Open Scope list_scope.
Local Open Scope Z_scope.

(** ** Programs *)

Definition operators : list (string * token_type) :=
  [("(", TOKEN_LPAREN); (")", TOKEN_RPAREN); ("[", TOKEN_LBRACKET); ("]", TOKEN_RBRACKET); ("{", TOKEN_LBRACE); ("}", TOKEN_RBRACE);
   ("+", TOKEN_PLUS); ("-", TOKEN_MINUS); ("->", TOKEN_ARROW); ("*", TOKEN_STAR); ("/", TOKEN_SLASH); ("%", TOKEN_PERCENT); (",", TOKEN_COMMA);
   (":", TOKEN_COLON); (".", TOKEN_DOT); ("!=", TOKEN_NEQ); ("=", TOKEN_ASSIGN); ("==", TOKEN_EQ); ("<", TOKEN_LT); ("<=", TOKEN_LTE);
   ("<<", TOKEN_LSHIFT); (">", TOKEN_GT); (">=", TOKEN_GTE); (">>", TOKEN_RSHIFT); ("&", TOKEN_AMP); ("|", TOKEN_PIPE); ("^", TOKEN_CARET);
   ("~", TOKEN_TILDE); ("@", TOKEN_AT)].

(** Words and keywords, numbers with an optional fraction, strings, operators. *)
Inductive lexeme :=
  | Word (w : list Z)
  | Num (ds frac : list Z)
  | Str (cs : list Z)
  | Op (o : string) (ty : token_type).

Definition spell (l : lexeme) : list Z :=
  match l with
  | Word w => w
  | Num ds frac => ds ++ (match frac with [] => [] | _ => 46 :: frac end)
  | Str cs => 34 :: cs ++ [34]
  | Op o _ => txt o
  end.

Definition kind (l : lexeme) : token_type :=
  match l with Word w => keyword_of w | Num _ _ => TOKEN_NUMBER | Str _ => TOKEN_STRING | Op _ ty => ty end.

Definition string_byte (c : Z) : bool := negb (c =? 34) && negb (c =? 92) && negb (c =? 10) && negb (c =? 0).
Definition digit (c : Z) : Prop := sage_isdigit c = true.

Definition lexeme_ok (l : lexeme) : Prop :=
  match l with
  | Word w => exists c r, w = c :: r /\ (sage_isalpha c || (c =? 95)) = true /\ Forall (fun x => word_byte x = true) r /\ zlen w <= MAX_IDENTIFIER_LENGTH
  | Num ds frac => ds <> [] /\ Forall digit ds /\ Forall digit frac
  | Str cs => Forall (fun x => string_byte x = true) cs /\ zlen cs <= MAX_STRING_LENGTH
  | Op o ty => In (o, ty) operators
  end.

(** Brackets that are open after a lexeme. *)
Definition depth_step (l : lexeme) (d : Z) : Z :=
  match l with
  | Op _ (TOKEN_LPAREN | TOKEN_LBRACKET | TOKEN_LBRACE) => d + 1
  | Op _ (TOKEN_RPAREN | TOKEN_RBRACKET | TOKEN_RBRACE) => if 0 <? d then d - 1 else d
  | _ => d
  end.

Definition line_tail (ls : list lexeme) : list Z := List.concat (List.map (fun l => 32 :: spell l) ls).
Definition line_text (ls : list lexeme) : list Z := match ls with [] => [] | l :: r => spell l ++ line_tail r end.

Definition program : Type := list (nat * list lexeme).
Fixpoint print (p : program) : list Z :=
  match p with [] => [] | (n, ls) :: r => replicate n 32 ++ line_text ls ++ 10 :: print r end.

(** The brackets of a line are balanced. *)
Definition line_ok (x : nat * list lexeme) : Prop :=
  x.2 <> [] /\ Forall lexeme_ok x.2 /\ List.fold_left (fun d l => depth_step l d) x.2 0 = 0.

(** *** Block structure *)

Fixpoint pops (n : Z) (stk : list Z) : nat * list Z :=
  match stk with
  | x :: r => if n <? x then let '(k, st) := pops n r in (S k, st) else (O, stk)
  | [] => (O, [])
  end.

(** The tokens before a line with indentation [n] when the blocks [stk] are open, the
    innermost first, and the blocks that are open then. *)
Definition layout_line (n : Z) (stk : list Z) : option (list token_type * list Z) :=
  if hd 0 stk <? n then (if MAX_INDENT_LEVELS - 1 <=? zlen stk then None else Some ([TOKEN_INDENT], n :: stk))
  else
    let '(k, st) := pops n stk in
    if hd 0 st =? n then Some (replicate k TOKEN_DEDENT, st) else None.

Definition structure (ty : token_type) : token_type * list Z := (ty, []).

Fixpoint layout (stk : list Z) (p : program) : option (list (token_type * list Z)) :=
  match p with
  | [] => Some (replicate (List.length stk) (structure TOKEN_DEDENT) ++ [structure TOKEN_EOF])
  | (n, ls) :: r =>
      '(ind, st) ← layout_line (Z.of_nat n) stk;
      out ← layout st r;
      Some (List.map structure ind ++ List.map (fun l => (kind l, spell l)) ls ++ structure TOKEN_NEWLINE :: out)
  end.

(** ** Reading at a place *)

Section text.
Context (text : list Z).
Implicit Types s : lexer.

(** A token with its spelling; the tokens of the block structure have none. *)
Definition shown (t : token) : token_type * list Z :=
  (type t,
   match type t, t_start t with
   | (TOKEN_INDENT | TOKEN_DEDENT | TOKEN_NEWLINE | TOKEN_EOF), _ => []
   | _, Source o => take (Z.to_nat (length t)) (drop (Z.to_nat o) text)
   | _, Message m => txt m
   end).

Lemma byte_at pre post : text = pre ++ post -> byte text (zlen pre) = Ret (hd 0 post).
Proof.
  intros E. unfold byte. apply rd_some. rewrite E, <- app_assoc, zget_app_r, Z.sub_diag by lia. by destruct post.
Qed.

Lemma peek_at pre post s : text = pre ++ post -> current s = zlen pre -> peek text s = Ret (hd 0 post).
Proof. intros E Hc. unfold peek. rewrite Hc. by apply byte_at. Qed.

Lemma zlen_append1 {A} (l : list A) x : zlen (l ++ [x]) = zlen l + 1.
Proof. by rewrite zlen_app. Qed.

Lemma while_from p b : forall a n pre s, text = pre ++ a ++ b -> current s = zlen pre -> Forall (fun c => p c = true) a -> p (hd 0 b) = false ->
  (List.length a < n)%nat -> advance_while text n p s = Ret (set_current (zlen (pre ++ a)) s).
Proof.
  induction a as [|c a IH]; intros n pre s E Hc Ha Hb Hn; (destruct n as [|n]; [cbn in Hn; lia|]); cbn [advance_while].
  - rewrite (peek_at pre b s E Hc). cbn [mbind outcome_bind]. rewrite Hb, app_nil_r. f_equal. destruct s; cbn in *. by subst.
  - rewrite (peek_at pre _ s E Hc). cbn [mbind outcome_bind app hd]. pose proof (List.Forall_inv Ha) as Hpc. pose proof (List.Forall_inv_tail Ha) as Ha'. rewrite Hpc.
    rewrite (IH n (pre ++ [c]) (advance s)); [|by rewrite <- app_assoc|cbn; rewrite Hc, zlen_append1; lia|done|done|cbn in Hn; lia].
    by rewrite <- app_assoc.
Qed.

Lemma while_at p a b pre s : text = pre ++ a ++ b -> current s = zlen pre -> Forall (fun c => p c = true) a -> p (hd 0 b) = false ->
  advance_while text (fuel text) p s = Ret (set_current (zlen (pre ++ a)) s).
Proof. intros E Hc Ha Hb. eapply while_from; [exact E|done|done|done|]. unfold fuel. rewrite E, !length_app. lia. Qed.

(** ** Lexemes *)

(** A lexeme is followed by a blank or the end of the line. *)
Definition sep (post : list Z) : Prop := hd 0 post = 32 \/ hd 0 post = 10.

(** The state behind a lexeme. *)
Definition after (l : lexeme) (x : Z) s : lexer := set_depth (depth_step l (bracket_depth s)) (set_current x s).

Lemma after_plain l x s : depth_step l (bracket_depth s) = bracket_depth s -> after l x s = set_current x s.
Proof. intros E. unfold after. rewrite E. by destruct s. Qed.

(** *** Words *)

Lemma identifier_loop_at b : word_byte (hd 0 b) = false -> forall a n pre s, text = pre ++ a ++ b -> current s = zlen pre ->
  Forall (fun c => word_byte c = true) a -> current s - start s + zlen a <= MAX_IDENTIFIER_LENGTH + 1 -> (List.length a < n)%nat ->
  identifier_loop text n s = Ret (true, set_current (zlen (pre ++ a)) s).
Proof.
  intros Hb. induction a as [|c a IH]; intros n pre s E Hc Ha Hl Hn; (destruct n as [|n]; [cbn in Hn; lia|]); cbn [identifier_loop].
  - rewrite (peek_at pre b s E Hc). cbn [mbind outcome_bind]. rewrite Hb, app_nil_r. do 2 f_equal. destruct s; cbn in *. by subst.
  - rewrite (peek_at pre _ s E Hc). cbn [mbind outcome_bind app hd]. pose proof (List.Forall_inv Ha) as Hpc. pose proof (List.Forall_inv_tail Ha) as Ha'. rewrite Hpc. rewrite zlen_cons in Hl.
    pose proof (zlen_nonneg a). rewrite (proj2 (Z.ltb_ge _ _)) by lia.
    rewrite (IH n (pre ++ [c]) (advance s)); [|by rewrite <- app_assoc|cbn; rewrite Hc, zlen_append1; lia|done|cbn; lia|cbn in Hn; lia].
    by rewrite <- app_assoc.
Qed.

Lemma sep_word post : sep post -> word_byte (hd 0 post) = false.
Proof. by intros [-> | ->]. Qed.

Lemma slice_at pre mid post (o n : Z) : text = pre ++ mid ++ post -> o = zlen pre -> n = zlen mid -> take (Z.to_nat n) (drop (Z.to_nat o) text) = mid.
Proof. intros -> -> ->. unfold zlen. rewrite !Nat2Z.id, drop_app_length, take_app_length. done. Qed.

Lemma word_scan w pre post s : lexeme_ok (Word w) -> text = pre ++ w ++ post -> sep post -> start s = zlen pre -> current s = zlen pre ->
  identifier text (advance s) = Ret (make_token (keyword_of w) (set_current (zlen (pre ++ w)) s), set_current (zlen (pre ++ w)) s).
Proof.
  intros (c & r & -> & Hc & Hr & Hl) E Hsep Hs Hcur. unfold identifier.
  rewrite (identifier_loop_at post (sep_word _ Hsep) r (fuel text) (pre ++ [c]) (advance s)); cycle 1.
  - by rewrite <- app_assoc.
  - cbn. rewrite Hcur, zlen_append1. done.
  - done.
  - rewrite zlen_cons in Hl. cbn. lia.
  - unfold fuel. rewrite E, !length_app. cbn. lia.
  - cbn [mbind outcome_bind]. rewrite <- app_assoc. cbn [app]. set (s1 := set_current _ _). assert (s1 = set_current (zlen (pre ++ c :: r)) s) as -> by done.
    assert (word text (set_current (zlen (pre ++ c :: r)) s) = c :: r) as ->; [|by rewrite keyword_tree].
    apply (slice_at pre (c :: r) post); [done|done|]. cbn. rewrite Hs, zlen_app. lia.
Qed.

(** *** Numbers *)

Lemma digit_bytes c : digit c -> 48 <= c <= 57.
Proof. unfold digit, sage_isdigit. intros H%andb_true_iff. bool_to_prop. lia. Qed.

Lemma sep_digit post : sep post -> sage_isdigit (hd 0 post) = false /\ hd 0 post <> 46 /\ hd 0 post <> 101 /\ hd 0 post <> 69.
Proof. by intros [-> | ->]. Qed.

Lemma decimal_scan r frac pre post s : Forall digit r -> Forall digit frac -> sep post ->
  text = pre ++ (r ++ match frac with [] => [] | _ => 46 :: frac end) ++ post -> current s = zlen pre ->
  let s1 := set_current (zlen (pre ++ r ++ match frac with [] => [] | _ => 46 :: frac end)) s in
  decimal_literal text s = Ret (make_token TOKEN_NUMBER s1, s1).
Proof.
  intros Hr Hf Hsep E Hcur s1. destruct (sep_digit _ Hsep) as (Hd & Hdot & He1 & He2). unfold decimal_literal. destruct frac as [|f frac].
  - rewrite app_nil_r in E. rewrite (while_at sage_isdigit r post pre s) by done. cbn [mbind outcome_bind].
    rewrite (peek_at (pre ++ r) post) by (by rewrite <- ?app_assoc). cbn [mbind outcome_bind]. rewrite (proj2 (Z.eqb_neq _ _) Hdot). cbn [mbind outcome_bind].
    change (sage_isdigit 0) with false. cbn [mbind outcome_bind]. rewrite (peek_at (pre ++ r) post) by (by rewrite <- ?app_assoc). cbn [mbind outcome_bind].
    rewrite (proj2 (Z.eqb_neq _ _) He1), (proj2 (Z.eqb_neq _ _) He2). cbn [orb]. subst s1. by rewrite app_nil_r.
  - rewrite (while_at sage_isdigit r (46 :: (f :: frac) ++ post) pre s) by (by rewrite ?E, <- ?app_assoc). cbn [mbind outcome_bind].
    assert (text = (pre ++ r) ++ 46 :: (f :: frac) ++ post) as E1 by (by rewrite E, <- !app_assoc).
    assert (text = ((pre ++ r) ++ [46]) ++ (f :: frac) ++ post) as E2 by (by rewrite E1, <- !app_assoc).
    rewrite (peek_at (pre ++ r) (46 :: (f :: frac) ++ post)) by done. cbn [mbind outcome_bind hd]. rewrite Z.eqb_refl.
    unfold peek_next, is_at_end. rewrite (peek_at (pre ++ r) (46 :: (f :: frac) ++ post)) by done. cbn [mbind outcome_bind hd Z.eqb].
    cbn [current set_current]. rewrite <- (zlen_append1 (pre ++ r) 46), (byte_at ((pre ++ r) ++ [46]) _ E2). cbn [mbind outcome_bind hd app].
    pose proof (List.Forall_inv Hf) as Hf1. rewrite Hf1.
    rewrite (while_at sage_isdigit (f :: frac) post ((pre ++ r) ++ [46])); [|done|cbn; by rewrite zlen_append1|done|done]. cbn [mbind outcome_bind].
    rewrite (peek_at (((pre ++ r) ++ [46]) ++ f :: frac) post) by (by rewrite ?E, <- ?app_assoc). cbn [mbind outcome_bind].
    rewrite (proj2 (Z.eqb_neq _ _) He1), (proj2 (Z.eqb_neq _ _) He2). cbn [orb]. subst s1. by rewrite <- !app_assoc.
Qed.

Lemma number_scan ds frac pre post s : lexeme_ok (Num ds frac) -> text = pre ++ spell (Num ds frac) ++ post -> sep post -> start s = zlen pre -> current s = zlen pre ->
  let s1 := set_current (zlen (pre ++ spell (Num ds frac))) s in
  number text (advance s) = Ret (make_token TOKEN_NUMBER s1, s1).
Proof.
  intros (Hne & Hd & Hf) E Hsep Hs Hcur s1. destruct ds as [|d r]; [done|]. pose proof (List.Forall_inv_tail Hd) as Hr. unfold number.
  change (start (advance s)) with (start s). rewrite Hs, (byte_at pre _ E). cbn [mbind outcome_bind spell app hd].
  set (x := r ++ match frac with [] => [] | _ => 46 :: frac end) in *. assert (text = (pre ++ [d]) ++ x ++ post) as E1 by (by rewrite E, <- app_assoc).
  assert (current (advance s) = zlen (pre ++ [d])) as Hc1 by (cbn; by rewrite zlen_append1, Hcur).
  rewrite (peek_at (pre ++ [d]) (x ++ post)) by done. cbn [mbind outcome_bind]. set (c := hd 0 (x ++ post)).
  assert (c <= 57) as Hc.
  { subst c x. destruct r as [|y r]; [destruct frac as [|f frac]; cbn; [destruct Hsep as [-> | ->]; lia|lia]|]. cbn. apply List.Forall_inv, digit_bytes in Hr. lia. }
  rewrite !(proj2 (Z.eqb_neq c _)) by lia. rewrite !andb_false_r.
  assert (s1 = set_current (zlen ((pre ++ [d]) ++ x)) (advance s)) as -> by (subst s1 x; cbn [spell]; by rewrite <- app_assoc).
  apply (decimal_scan r frac (pre ++ [d]) post (advance s)); done.
Qed.

(** *** Strings *)

Lemma string_char_at c post pre s : text = pre ++ c :: post -> current s = zlen pre -> c <> 10 -> c <> 92 -> string_char text c s = Ret (advance s).
Proof.
  intros E Hc H1 H2. unfold string_char. rewrite (proj2 (Z.eqb_neq _ _) H1), (proj2 (Z.eqb_neq _ _) H2). cbn [mbind outcome_bind].
  unfold last_byte. replace (current (advance s) - 1) with (zlen pre) by (cbn; lia). rewrite (byte_at pre _ E). cbn [mbind outcome_bind hd].
  by rewrite (proj2 (Z.eqb_neq _ _) H1).
Qed.

Lemma string_loop_at from post : forall a n pre s, text = pre ++ a ++ 34 :: post -> current s = zlen pre -> Forall (fun c => string_byte c = true) a ->
  current s - from + zlen a <= MAX_STRING_LENGTH -> (List.length a < n)%nat -> string_loop text n from s = Ret (true, set_current (zlen (pre ++ a)) s).
Proof.
  induction a as [|c a IH]; intros n pre s E Hc Ha Hl Hn; (destruct n as [|n]; [cbn in Hn; lia|]); cbn [string_loop].
  - rewrite (peek_at pre _ s E Hc). cbn [mbind outcome_bind hd app Z.eqb Pos.eqb orb]. rewrite app_nil_r. do 2 f_equal. destruct s; cbn in *. by subst.
  - rewrite (peek_at pre _ s E Hc). cbn [mbind outcome_bind app hd]. pose proof (List.Forall_inv Ha) as Hpc. pose proof (List.Forall_inv_tail Ha) as Ha'.
    unfold string_byte in Hpc. rewrite !andb_true_iff, !negb_true_iff in Hpc. destruct Hpc as [[[H34 H92%Z.eqb_neq] H10%Z.eqb_neq] H0]. rewrite H34, H0. cbn [orb].
    rewrite (string_char_at c _ pre s E Hc H10 H92). cbn [mbind outcome_bind]. rewrite zlen_cons in Hl. pose proof (zlen_nonneg a).
    change (current (advance s)) with (current s + 1). rewrite (proj2 (Z.ltb_ge _ _)) by lia.
    rewrite (IH n (pre ++ [c]) (advance s)); [|by rewrite <- app_assoc|cbn; rewrite Hc, zlen_append1; lia|done|cbn; lia|cbn in Hn; lia].
    by rewrite <- app_assoc.
Qed.

Lemma string_scan cs pre post s : lexeme_ok (Str cs) -> text = pre ++ spell (Str cs) ++ post -> current s = zlen pre ->
  let s1 := set_current (zlen (pre ++ spell (Str cs))) s in
  string_ text (advance s) = Ret (make_token TOKEN_STRING s1, s1).
Proof.
  intros (Hcs & Hl) E Hcur s1. cbn [spell app] in E. rewrite <- app_assoc in E. cbn [app] in E. unfold string_.
  assert (text = (pre ++ [34]) ++ cs ++ 34 :: post) as E1 by (by rewrite E, <- app_assoc).
  assert (current (advance s) = zlen (pre ++ [34])) as Hc1 by (cbn; by rewrite zlen_append1, Hcur).
  rewrite (string_loop_at _ post cs (fuel text) (pre ++ [34])); [|done|done|done|lia|unfold fuel; rewrite E, !length_app; cbn; rewrite length_app; lia].
  cbn [mbind outcome_bind negb]. unfold is_at_end.
  rewrite (peek_at ((pre ++ [34]) ++ cs) (34 :: post)); [|by rewrite E1, <- !app_assoc|done]. cbn [mbind outcome_bind hd Z.eqb].
  assert (advance (set_current (zlen ((pre ++ [34]) ++ cs)) (advance s)) = s1) as ->; [|done].
  subst s1. unfold advance, set_current. cbn. f_equal. rewrite !zlen_app. change (zlen [34]) with 1. rewrite zlen_cons, zlen_app. change (zlen [34]) with 1. lia.
Qed.

(** *** Operators *)

Lemma match_hit x pre post s : text = pre ++ x :: post -> current s = zlen pre -> x <> 0 -> match_char text x s = Ret (true, advance s).
Proof. intros E Hc Hx. unfold match_char. rewrite (peek_at pre _ s E Hc). cbn [mbind outcome_bind hd]. by rewrite (proj2 (Z.eqb_neq _ _) Hx), Z.eqb_refl. Qed.

Lemma match_miss x pre post s : text = pre ++ post -> current s = zlen pre -> hd 0 post <> x -> match_char text x s = Ret (false, s).
Proof.
  intros E Hc Hx. unfold match_char. rewrite (peek_at pre _ s E Hc). cbn [mbind outcome_bind]. by rewrite (proj2 (Z.eqb_neq _ _) Hx), orb_true_r.
Qed.

Lemma sep_not x post : sep post -> x <> 32 -> x <> 10 -> hd 0 post <> x.
Proof. intros [-> | ->]; lia. Qed.

Definition op_char (o : string) : ascii := match o with String c _ => c | EmptyString => "000"%char end.

Lemma one_at c pre post s : text = pre ++ c :: post -> current s = zlen pre -> text = (pre ++ [c]) ++ post /\ current (advance s) = zlen (pre ++ [c]).
Proof. intros E Hc. split; [by rewrite E, <- app_assoc|cbn; by rewrite zlen_append1, Hc]. Qed.

Ltac op_match :=
  first
    [erewrite match_hit; [|eassumption|assumption|discriminate]
    |erewrite match_miss; [|eassumption|assumption|first [apply sep_not; [assumption|discriminate|discriminate]|discriminate]]]; cbn [mbind outcome_bind].

Lemma op_scan o ty pre post s : In (o, ty) operators -> text = pre ++ txt o ++ post -> sep post -> current s = zlen pre ->
  let s1 := after (Op o ty) (zlen (pre ++ txt o)) s in operator text (op_char o) (advance s) = Ret (make_token ty s1, s1).
Proof.
  intros Hin E Hsep Hcur s1.
  assert (forall x, x = s1 -> Ret (make_token ty x, x) = Ret (make_token ty s1, s1)) as Hdone by (by intros x ->).
  repeat (destruct Hin as [[= <- <-]|Hin]; [cbn [op_char];
    match type of E with text = _ ++ txt ?w ++ _ => let v := eval vm_compute in (txt w) in change (txt w) with v in E, s1 end; cbn [app] in E;
    destruct (one_at _ _ _ s E Hcur) as [E1 Hc1]; clear E|]); [..|done].
  all: cbn [operator]; unfold opening, closing, shift_or, either; repeat op_match; apply Hdone; subst s1; clear Hdone E1 Hsep; destruct s; cbn in *; subst;
    unfold after, advance, set_current, set_depth; cbn [depth_step bracket_depth start current line token_line at_beginning_of_line line_start token_line_start
      current_filename indent_stack indent_stack_top pending_dedents]; repeat case_match; f_equal; rewrite zlen_app; unfold zlen; cbn; lia.
Qed.

(** *** Any lexeme *)

Definition op_start (c : Z) : bool :=
  negb ((c =? 0) || (c =? 9) || (c =? 10) || (c =? 13) || (c =? 32) || (c =? 35) || (c =? 34) || (sage_isalpha c || (c =? 95)) || sage_isdigit c).

Lemma op_first o ty : In (o, ty) operators -> exists r, txt o = code (op_char o) :: r /\ op_start (code (op_char o)) = true /\
  ascii_of_nat (Z.to_nat (code (op_char o))) = op_char o.
Proof. intros H. repeat (destruct H as [[= <- <-]|H]; [eexists; split_and!; vm_compute; reflexivity|]). done. Qed.

Lemma first_char l : lexeme_ok l -> exists c r, spell l = c :: r /\ c <> 0 /\ c <> 10 /\ blank c = false.
Proof.
  destruct l as [w|ds frac|cs|o ty]; intros H.
  - destruct H as (c & r & -> & Hc & _). exists c, r. split; [done|]. unfold blank, sage_isalpha in *. split_and!; [intros ->; discriminate..|].
    rewrite !orb_false_iff. split_and!; apply Z.eqb_neq; intros ->; discriminate.
  - destruct H as (Hne & Hd & _). destruct ds as [|d r]; [done|]. apply List.Forall_inv, digit_bytes in Hd. eexists d, _. split; [reflexivity|]. unfold blank.
    split_and!; [lia|lia|]. rewrite !orb_false_iff, !Z.eqb_neq. lia.
  - eexists 34, _. split; [reflexivity|done].
  - destruct (op_first o ty H) as (r & Ho & Hs & _). eexists _, r. split; [exact Ho|]. unfold op_start in Hs. apply negb_true_iff in Hs.
    rewrite !orb_false_iff in Hs. unfold blank. rewrite !orb_false_iff, !Z.eqb_neq in *. tauto.
Qed.

Lemma lexeme_scan l pre post s : lexeme_ok l -> text = pre ++ spell l ++ post -> sep post -> start s = zlen pre -> current s = zlen pre ->
  let s1 := after l (zlen (pre ++ spell l)) s in scan_rest text s = Ret (Some (make_token (kind l) s1), s1).
Proof.
  intros Hl E Hsep Hs Hcur s1. unfold scan_rest. rewrite (peek_at _ _ s E Hcur). cbn [mbind outcome_bind]. destruct l as [w|ds frac|cs|o ty].
  - pose proof Hl as (c & r & Ew & Hc & Hr). subst w. cbn [spell app hd] in *. assert (65 <= c) by (unfold sage_isalpha in Hc; bool_to_prop; lia).
    rewrite (proj2 (Z.eqb_neq c 0)), (proj2 (Z.eqb_neq c 10)), (proj2 (Z.eqb_neq c 35)), (proj2 (Z.eqb_neq c 34)), Hc by lia.
    rewrite (word_scan (c :: r) pre post s Hl E Hsep Hs Hcur). cbn [mbind outcome_bind kind]. subst s1. by rewrite after_plain.
  - pose proof Hl as (Hne & Hd & _). pose proof (number_scan ds frac pre post s Hl E Hsep Hs Hcur) as Hn. destruct ds as [|d r]; [done|].
    pose proof (List.Forall_inv Hd) as Hdig. pose proof (digit_bytes d Hdig). cbn [spell app hd] in *.
    rewrite (proj2 (Z.eqb_neq d 0)), (proj2 (Z.eqb_neq d 10)), (proj2 (Z.eqb_neq d 35)), (proj2 (Z.eqb_neq d 34)) by lia.
    assert (sage_isalpha d || (d =? 95) = false) as -> by (unfold sage_isalpha; rewrite !orb_false_iff, !andb_false_iff, Z.eqb_neq, !Z.leb_gt; lia).
    rewrite Hdig, Hn. cbn [mbind outcome_bind kind]. subst s1. by rewrite after_plain.
  - cbn [spell app hd]. rewrite (string_scan cs pre post s Hl E Hcur). cbn [mbind outcome_bind kind Z.eqb Pos.eqb]. subst s1. by rewrite after_plain.
  - cbn [spell] in *. destruct (op_first o ty Hl) as (r & Ho & Hst & Hasc). pose proof (op_scan o ty pre post s Hl E Hsep Hcur) as Hop.
    rewrite Ho. cbn [app hd]. set (c := code (op_char o)) in *. unfold op_start in Hst. apply negb_true_iff in Hst.
    rewrite !orb_false_iff in Hst. destruct Hst as ((((((((-> & _) & ->) & _) & _) & ->) & ->) & Ha1 & Ha2) & ->). rewrite Ha1, Ha2. cbn [orb].
    rewrite Hasc, Hop. done.
Qed.

(** ** Lines *)

(** Tokens from one state to another, with the same future. *)
Inductive goes : lexer -> list token -> lexer -> Prop :=
  | goes_here s s' : scan_token text s = scan_token text s' -> goes s [] s'
  | goes_on s t s1 ts s' : scan_token text s = Ret (t, s1) -> type t <> TOKEN_EOF -> goes s1 ts s' -> goes s (t :: ts) s'.

Lemma goes_trans s1 ts s2 us s3 : goes s1 ts s2 -> goes s2 us s3 -> goes s1 (ts ++ us) s3.
Proof.
  intros H1. revert us s3. induction H1 as [s s' E|s t s1 ts s' E Ht _ IH]; intros us s3 H2.
  - destruct H2 as [s' s3 E2|s' t s2 us s3 E2 Ht H3]; [apply goes_here; congruence|]. eapply goes_on; [by rewrite E|done|done].
  - cbn [app]. eapply goes_on; [done|done|auto].
Qed.

Lemma goes_all s ts s' e s2 : goes s ts s' -> scan_token text s' = Ret (e, s2) -> type e = TOKEN_EOF -> forall n, (List.length ts <= n)%nat ->
  scan_all text n s = Ret (ts ++ [e]).
Proof.
  intros H E He. induction H as [s s' Es|s t s1 ts s' Es Ht _ IH]; intros n Hn.
  - destruct n; cbn [scan_all]; rewrite Es, E; cbn [mbind outcome_bind]; by rewrite bool_decide_true.
  - destruct n as [|n]; [cbn in Hn; lia|]. cbn [scan_all]. rewrite Es. cbn [mbind outcome_bind]. rewrite bool_decide_false by done.
    rewrite IH by (done || cbn in Hn; lia). done.
Qed.

Hypothesis text_size : zlen text < 2 ^ 31.

(** The open blocks are on the stack, above the outermost one. *)
Record reps s (stk : list Z) : Prop := {
  rp_stack : exists junk, indent_stack s = 0 :: List.rev stk ++ junk;
  rp_len : zlen (indent_stack s) = MAX_INDENT_LEVELS;
  rp_top : indent_stack_top s = zlen stk
}.

(** Inside a line, and at the start of one. *)
Record mid s (pre : list Z) (d : Z) (stk : list Z) : Prop := {
  mi_current : current s = zlen pre;
  mi_bol : at_beginning_of_line s = false;
  mi_pending : pending_dedents s = 0;
  mi_depth : bracket_depth s = d;
  mi_stack : reps s stk
}.
Record bol s (pre : list Z) (stk : list Z) : Prop := {
  bo_current : current s = zlen pre;
  bo_bol : at_beginning_of_line s = true;
  bo_pending : pending_dedents s = 0;
  bo_depth : bracket_depth s = 0;
  bo_stack : reps s stk
}.

Definition solid (ty : token_type) : bool :=
  negb (bool_decide (ty = TOKEN_INDENT \/ ty = TOKEN_DEDENT \/ ty = TOKEN_NEWLINE \/ ty = TOKEN_EOF)).

Lemma kind_solid l : lexeme_ok l -> solid (kind l) = true.
Proof.
  destruct l as [w|ds frac|cs|o ty]; intros H; [|done|done|].
  - cbn [kind]. unfold keyword_of. destruct (List.find _ keywords) as [k|] eqn:E; [|done]. apply List.find_some in E as [Hin _].
    assert (Forall (fun x => solid x.2 = true) keywords) as Hk by (repeat (constructor; [by vm_compute|]); constructor). rewrite List.Forall_forall in Hk. by apply Hk.
  - assert (Forall (fun x => solid x.2 = true) operators) as Hk by (repeat (constructor; [by vm_compute|]); constructor). rewrite List.Forall_forall in Hk. exact (Hk _ H).
Qed.

Lemma shown_solid ty s pre m post : solid ty = true -> text = pre ++ m ++ post -> start s = zlen pre -> current s = zlen (pre ++ m) -> shown (make_token ty s) = (ty, m).
Proof.
  intros Hs E Hst Hc. assert (length (make_token ty s) = zlen m) as El.
  { cbn. rewrite Hst, Hc, zlen_app. pose proof (zlen_nonneg pre). pose proof (zlen_nonneg m). pose proof (zlen_nonneg post).
    assert (zlen text = zlen pre + (zlen m + zlen post)) by (by rewrite E, !zlen_app). rewrite s32_small; lia. }
  unfold shown. change (type (make_token ty s)) with ty. change (t_start (make_token ty s)) with (Source (start s)). rewrite Hst, El. f_equal.
  rewrite (slice_at pre m post) by done. by destruct ty.
Qed.

Lemma scan_inside s pre d stk bl post n : mid s pre d stk -> text = pre ++ bl ++ post -> Forall (fun c => blank c = true) bl -> blank (hd 0 post) = false ->
  scan text n s = ('(t, s3) ← scan_rest text (begin_token (set_current (zlen (pre ++ bl)) s));
    match t with Some t => Ret (t, s3) | None => match n with O => OutOfFuel | S k => scan text k s3 end end).
Proof.
  intros [Hc Hb Hp Hd _] E Hbl Hh. destruct n; cbn [scan]; rewrite Hp, Hb; cbn [Z.ltb andb mbind outcome_bind]; by rewrite (while_at blank bl post pre s E Hc Hbl Hh).
Qed.

Lemma scan_mid s pre d stk bl l post : mid s pre d stk -> text = pre ++ bl ++ spell l ++ post -> Forall (fun c => blank c = true) bl -> lexeme_ok l -> sep post ->
  exists t s', goes s [t] s' /\ shown t = (kind l, spell l) /\ mid s' (pre ++ bl ++ spell l) (depth_step l d) stk.
Proof.
  intros Hm E Hbl Hl Hsep. destruct (first_char l Hl) as (c & r & Ec & _ & _ & Hblank). pose proof Hm as [Hc Hb Hp Hd [Hj Hlen Htop]].
  set (s1 := begin_token (set_current (zlen (pre ++ bl)) s)). assert (text = (pre ++ bl) ++ spell l ++ post) as E1 by (by rewrite E, app_assoc).
  pose proof (lexeme_scan l (pre ++ bl) post s1 Hl E1 Hsep eq_refl eq_refl) as Hscan. cbv zeta in Hscan. set (s2 := after l _ s1) in *.
  exists (make_token (kind l) s2), s2. assert (shown (make_token (kind l) s2) = (kind l, spell l)) as Hsh by (by apply (shown_solid _ _ (pre ++ bl) _ post); [apply kind_solid|..]).
  split; [|split; [done|]].
  - eapply goes_on; [|intros Heof|by apply goes_here].
    + unfold scan_token. rewrite (scan_inside s pre d stk bl (spell l ++ post)); [|done|done|done|by rewrite Ec]. fold s1. rewrite Hscan. done.
    + pose proof (kind_solid l Hl) as Hk. change (kind l = TOKEN_EOF) in Heof. rewrite Heof in Hk. done.
  - rewrite app_assoc. split; [done|done|done|cbn; by rewrite Hd|by split].
Qed.

Lemma scan_newline s pre stk post : mid s pre 0 stk -> text = pre ++ 10 :: post ->
  exists t s', goes s [t] s' /\ shown t = structure TOKEN_NEWLINE /\ bol s' (pre ++ [10]) stk.
Proof.
  intros Hm E. pose proof Hm as [Hc Hb Hp Hd [Hj Hlen Htop]]. set (s1 := begin_token (set_current (zlen (pre ++ [])) s)).
  set (s2 := set_bol true (set_line_start (current (advance s1)) (set_line (line (advance s1) + 1) (advance s1)))).
  exists (make_token TOKEN_NEWLINE s2), s2. split; [|split; [done|]].
  - eapply goes_on; [|done|by apply goes_here]. unfold scan_token. rewrite (scan_inside s pre 0 stk [] (10 :: post)) by done. fold s1. unfold scan_rest.
    rewrite (peek_at pre (10 :: post) s1 E) by (cbn; by rewrite app_nil_r). cbn [mbind outcome_bind hd Z.eqb Pos.eqb]. fold s2.
    replace (bracket_depth s2) with 0 by (cbn; done). done.
  - split; [cbn; by rewrite app_nil_r, zlen_append1|done|done|done|by split].
Qed.

Lemma line_tail_sep ls post : sep (line_tail ls ++ 10 :: post).
Proof. destruct ls; [by right|by left]. Qed.

(** The rest of a line. *)
Lemma scan_tail stk post : forall ls s pre d, mid s pre d stk -> text = pre ++ line_tail ls ++ 10 :: post -> Forall lexeme_ok ls ->
  List.fold_left (fun d l => depth_step l d) ls d = 0 ->
  exists ts s', goes s ts s' /\ List.map shown ts = List.map (fun l => (kind l, spell l)) ls ++ [structure TOKEN_NEWLINE] /\
    bol s' (pre ++ line_tail ls ++ [10]) stk.
Proof.
  induction ls as [|l ls IH]; intros s pre d Hm E Hok Hd.
  - cbn in Hd. subst d. destruct (scan_newline s pre stk post Hm E) as (t & s' & Hg & Ht & Hb). exists [t], s'. split; [done|]. split; [by cbn; rewrite Ht|done].
  - change (line_tail (l :: ls)) with ((32 :: spell l) ++ line_tail ls) in *. rewrite <- app_assoc in E. pose proof (List.Forall_inv Hok) as Hl. pose proof (List.Forall_inv_tail Hok) as Hls.
    destruct (scan_mid s pre d stk [32] l (line_tail ls ++ 10 :: post) Hm E) as (t & s1 & Hg & Ht & Hm1); [by repeat constructor|done|apply line_tail_sep|].
    destruct (IH s1 _ _ Hm1) as (ts & s' & Hg' & Hts & Hb); [by rewrite E, <- !app_assoc|done|done|]. exists (t :: ts), s'. split; [by apply (goes_trans _ [t] s1)|].
    split; [cbn; by rewrite Ht, Hts|]. by rewrite <- !app_assoc in *.
Qed.

(** *** Indentation *)

Lemma reps_get s stk : reps s stk -> rd (indent_stack s) (indent_stack_top s) = Ret (hd 0 stk).
Proof.
  intros [[junk Ej] Hl Ht]. rewrite Ht, Ej. apply rd_some. destruct stk as [|x r]; [done|]. cbn [List.rev hd]. rewrite <- app_assoc.
  change (0 :: List.rev r ++ [x] ++ junk) with ((0 :: List.rev r) ++ x :: junk). assert (zlen (0 :: List.rev r) = zlen (x :: r)) as E by (unfold zlen; cbn; by rewrite length_rev).
  rewrite zget_app_r, E, Z.sub_diag by lia. done.
Qed.

Lemma reps_pop s x r p : reps s (x :: r) -> reps (set_indent (indent_stack s) (indent_stack_top s - 1) p s) r.
Proof.
  intros [[junk Ej] Hl Ht]. split; cbn [indent_stack indent_stack_top set_indent]; [|done|rewrite Ht, zlen_cons; lia].
  exists (x :: junk). rewrite Ej. cbn [List.rev]. by rewrite <- app_assoc.
Qed.

Lemma reps_push s x stk : reps s stk -> zlen stk < MAX_INDENT_LEVELS - 1 -> exists st, wr (indent_stack s) (indent_stack_top s + 1) x = Ret st /\
  reps (set_indent st (indent_stack_top s + 1) (pending_dedents s) s) (x :: stk).
Proof.
  intros [[junk Ej] Hl Ht] Hroom. pose proof (zlen_nonneg stk). rewrite wr_in_range by (rewrite Ht, Hl; lia). eexists. split; [done|].
  split; cbn [indent_stack indent_stack_top set_indent]; [|by rewrite zlen_zset|rewrite Ht, zlen_cons; lia].
  rewrite Ej, Ht in *. assert (zlen (0 :: List.rev stk) = zlen stk + 1) as Er by (rewrite zlen_cons; unfold zlen; by rewrite length_rev).
  change (0 :: List.rev stk ++ junk) with ((0 :: List.rev stk) ++ junk) in *. destruct junk as [|y junk]; [rewrite app_nil_r in Hl; lia|]. exists junk.
  cbn [List.rev]. rewrite <- app_assoc. change (0 :: List.rev stk ++ [x] ++ junk) with ((0 :: List.rev stk) ++ x :: junk).
  rewrite <- Er. unfold zset, zlen. rewrite (proj2 (Z.leb_le _ _)) by lia. by rewrite Nat2Z.id, insert_app_r_alt, Nat.sub_diag by lia.
Qed.

Lemma pop_at n : forall stk N s k st, reps s stk -> pops n stk = (k, st) -> (List.length stk <= N)%nat ->
  exists s1, pop_indent N n s = Ret s1 /\ s1 = set_indent (indent_stack s) (indent_stack_top s1) (pending_dedents s + Z.of_nat k) s /\ reps s1 st.
Proof.
  induction stk as [|x r IH]; intros N s k st Hr Hp HN; cbn [pops] in Hp.
  - injection Hp as <- <-. exists s. split; [|split; [by rewrite Z.add_0_r; destruct s|done]]. destruct Hr as [_ _ Ht]. change (zlen (A:=Z) []) with 0 in Ht.
    destruct N; cbn [pop_indent]; by rewrite Ht.
  - pose proof (reps_get s (x :: r) Hr) as Hg. cbn [hd] in Hg. pose proof (rp_top _ _ Hr) as Ht. rewrite zlen_cons in Ht. pose proof (zlen_nonneg r).
    destruct N as [|N]; [cbn in HN; lia|]. cbn [pop_indent]. rewrite (proj2 (Z.leb_gt _ _)) by lia. rewrite Hg. cbn [mbind outcome_bind].
    destruct (n <? x); [|injection Hp as <- <-; exists s; split; [done|split; [by rewrite Z.add_0_r; destruct s|done]]].
    destruct (pops n r) as [k' st'] eqn:Ep. injection Hp as <- <-. set (s0 := set_indent _ _ _ s).
    destruct (IH N s0 k' st') as (s1 & E & Es & Hr1); [by eapply reps_pop|done|cbn in HN; lia|]. exists s1. split; [done|]. split; [|done].
    rewrite Es. unfold s0, set_indent. cbn. f_equal. lia.
Qed.

(** The ends of blocks that are still to be reported. *)
Lemma scan_pending stk pre : forall k s, current s = zlen pre -> at_beginning_of_line s = false -> pending_dedents s = Z.of_nat k -> bracket_depth s = 0 -> reps s stk ->
  exists ts s', goes s ts s' /\ List.map shown ts = List.map structure (replicate k TOKEN_DEDENT) /\ mid s' pre 0 stk.
Proof.
  induction k as [|k IH]; intros s Hc Hb Hp Hd Hr; [exists [], s; by split; [apply goes_here|]|].
  set (s1 := set_indent (indent_stack s) (indent_stack_top s) (pending_dedents s - 1) (begin_token s)).
  destruct (IH s1) as (ts & s' & Hg & Hts & Hm); [done|done|cbn; lia|done|by destruct Hr|]. exists (make_token TOKEN_DEDENT s1 :: ts), s'. split; [|split; [cbn; by rewrite Hts|done]].
  eapply goes_on; [|done|exact Hg]. unfold scan_token, fuel. cbn [scan]. rewrite Hd, (proj2 (Z.ltb_lt _ _)) by lia. done.
Qed.

(** The start of a line behind its blanks. *)
Definition indented s (pre : list Z) (n : nat) : lexer := set_current (zlen (pre ++ replicate n 32)) (begin_token (set_bol false s)).

Lemma indented_mid s pre n stk : bol s pre stk -> mid (indented s pre n) (pre ++ replicate n 32) 0 stk.
Proof. intros [Hc Hb Hp Hd [Hj Hl Ht]]. by repeat split. Qed.

Lemma line_begin_at s pre n stk post : bol s pre stk -> text = pre ++ replicate n 32 ++ post -> hd 0 post <> 32 -> hd 0 post <> 10 ->
  line_begin text s = (r ← indentation (Z.of_nat n) (indented s pre n); Ret (inr r)).
Proof.
  intros [Hc Hb Hp Hd _] E H32 H10. unfold line_begin. cbv zeta. set (s1 := begin_token (set_bol false s)).
  rewrite (while_at (fun c => c =? 32) (replicate n 32) post pre s1); [|done|done|by apply Forall_replicate|by apply Z.eqb_neq].
  cbn [mbind outcome_bind]. rewrite (peek_at (pre ++ replicate n 32) post) by (by rewrite <- ?app_assoc). cbn [mbind outcome_bind].
  rewrite (proj2 (Z.eqb_neq _ _) H10). change (set_current (zlen (pre ++ replicate n 32)) s1) with (indented s pre n).
  assert (current (indented s pre n) - current s1 = Z.of_nat n) as ->; [|reflexivity].
  unfold indented, s1. cbn [current set_current begin_token set_bol]. rewrite Hc, zlen_app, zlen_replicate. lia.
Qed.

Lemma scan_bol s pre n stk post k : bol s pre stk -> text = pre ++ replicate n 32 ++ post -> hd 0 post <> 32 -> hd 0 post <> 10 ->
  forall o s1, indentation (Z.of_nat n) (indented s pre n) = Ret (o, s1) ->
  scan text k s = match o with Some t => Ret (t, s1) | None => scan text k s1 end \/ (o = None /\ (pending_dedents s1 <> 0 \/ at_beginning_of_line s1 = true)).
Proof.
  intros Hb E H32 H10 o s1 Ei. pose proof (line_begin_at s pre n stk post Hb E H32 H10) as El. rewrite Ei in El. destruct Hb as [Hc Hbol Hp Hd _].
  destruct o as [t|].
  - left. destruct k; cbn [scan]; rewrite Hp, Hbol; cbn [Z.ltb andb]; by rewrite El.
  - destruct (decide (pending_dedents s1 = 0)) as [Hp1|]; [|by right; split; [|left]]. destruct (at_beginning_of_line s1) eqn:Hb1; [by right; split; [|right]|]. left.
    destruct k; cbn [scan]; rewrite Hp, Hbol, Hp1, Hb1; cbn [Z.ltb andb]; by rewrite El.
Qed.

Lemma start_line s pre n stk ind st post : bol s pre stk -> text = pre ++ replicate n 32 ++ post -> hd 0 post <> 32 -> hd 0 post <> 10 ->
  layout_line (Z.of_nat n) stk = Some (ind, st) ->
  exists ts s', goes s ts s' /\ List.map shown ts = List.map structure ind /\ mid s' (pre ++ replicate n 32) 0 st.
Proof.
  intros Hb E H32 H10 Hlay. pose proof (indented_mid s pre n stk Hb) as Hm. set (s2 := indented s pre n) in *. pose proof Hm as [Hc2 Hb2 Hp2 Hd2 Hr2].
  assert (forall o s1, indentation (Z.of_nat n) s2 = Ret (o, s1) -> match o with Some t => type t <> TOKEN_EOF /\ scan_token text s = Ret (t, s1) | None => s1 = s2 -> scan_token text s = scan_token text s2 end) as Hgo.
  { intros o s1 Ei. unfold scan_token. destruct (scan_bol s pre n stk post (fuel text) Hb E H32 H10 o s1 Ei) as [Es|(-> & Hx)].
    - destruct o as [t|]; [|by intros ->]. split; [|done]. unfold indentation in Ei. rewrite Hd2, (reps_get _ _ Hr2) in Ei. cbn [Z.ltb mbind outcome_bind] in Ei.
      repeat case_match; try discriminate; repeat (apply bind_Ret_inv in Ei as (? & _ & Ei)); repeat case_match; injection Ei as <- _; done.
    - intros ->. destruct Hx; [lia|congruence]. }
  unfold layout_line in Hlay. unfold indentation in Hgo. rewrite Hd2, (reps_get _ _ Hr2) in Hgo. cbn [Z.ltb mbind outcome_bind] in Hgo.
  rewrite (rp_top _ _ Hr2) in Hgo. destruct (Z.ltb_spec (hd 0 stk) (Z.of_nat n)) as [Hlt|Hge].
  - destruct (Z.leb_spec (MAX_INDENT_LEVELS - 1) (zlen stk)); [discriminate|]. injection Hlay as <- <-.
    destruct (reps_push s2 (Z.of_nat n) stk Hr2) as (stack & Ew & Hr'); [lia|]. rewrite (rp_top _ _ Hr2) in Ew, Hr'. rewrite Ew in Hgo. cbn [mbind outcome_bind] in Hgo.
    destruct (Hgo _ _ eq_refl) as [Ht Es]. eexists [_], _. split; [eapply goes_on; [exact Es|exact Ht|by apply goes_here]|]. split; [done|]. by split.
  - destruct (pops (Z.of_nat n) stk) as [k st'] eqn:Ep. destruct (Z.eqb_spec (hd 0 st') (Z.of_nat n)) as [Eh|]; [|discriminate]. injection Hlay as <- <-.
    destruct (Z.ltb_spec (Z.of_nat n) (hd 0 stk)) as [Hlt|Heq].
    + assert (List.length stk <= Z.to_nat MAX_INDENT_LEVELS)%nat as HN.
      { destruct Hr2 as [[junk Ej] Hl _]. rewrite Ej in Hl. unfold zlen in Hl. cbn in Hl. rewrite length_app, length_rev in Hl. unfold MAX_INDENT_LEVELS in *. lia. }
      destruct (pop_at (Z.of_nat n) stk (Z.to_nat MAX_INDENT_LEVELS) s2 k st' Hr2 Ep HN) as (s3 & E3 & Es3 & Hr3). rewrite E3 in Hgo. cbn [mbind outcome_bind] in Hgo.
      rewrite (reps_get _ _ Hr3) in Hgo. cbn [mbind outcome_bind] in Hgo. rewrite Eh, Z.eqb_refl in Hgo. cbn [negb] in Hgo. destruct (Hgo _ _ eq_refl) as [Ht Es]. destruct k as [|k].
      { destruct stk as [|x r]; [cbn in Hlt; lia|]. cbn [pops hd] in *. rewrite (proj2 (Z.ltb_lt _ _) Hlt) in Ep. by destruct (pops _ r). }
      set (s4 := set_indent _ _ _ s3) in *. destruct (scan_pending st' (pre ++ replicate n 32) k s4) as (ts & s' & Hg & Hts & Hm'); [by unfold s4; rewrite Es3|by unfold s4; rewrite Es3| | |by destruct Hr3|].
      * unfold s4. rewrite Es3. cbn [pending_dedents set_indent]. lia.
      * unfold s4. by rewrite Es3.
      * eexists (_ :: ts), s'. split; [eapply goes_on; [exact Es|exact Ht|exact Hg]|]. split; [cbn; by rewrite Hts|done].
    + assert (k = O /\ st' = stk) as [-> ->].
      { destruct stk as [|x r]; [by injection Ep|]. cbn [pops hd] in *. rewrite (proj2 (Z.ltb_ge _ _) Heq) in Ep. by injection Ep. }
      specialize (Hgo _ _ eq_refl eq_refl). exists [], s2. split; [by apply goes_here|done].
Qed.

(** ** Programs *)

Lemma pops_suffix n : forall stk k st, pops n stk = (k, st) -> exists l, stk = l ++ st /\ List.length l = k.
Proof.
  induction stk as [|x r IH]; intros k st Hp; cbn [pops] in Hp; [injection Hp as <- <-; by exists []|].
  destruct (n <? x); [|injection Hp as <- <-; by exists []]. destruct (pops n r) as [k' st'] eqn:Ep. injection Hp as <- <-.
  destruct (IH _ _ eq_refl) as (l & -> & <-). by exists (x :: l).
Qed.

Definition positive (stk : list Z) : Prop := Forall (fun x => 0 < x) stk.

Lemma layout_positive n stk ind st : positive stk -> layout_line (Z.of_nat n) stk = Some (ind, st) -> positive st.
Proof.
  intros Hp Hl. unfold layout_line in Hl. destruct (Z.ltb_spec (hd 0 stk) (Z.of_nat n)) as [Hlt|_].
  - destruct (_ <=? _); [discriminate|]. injection Hl as <- <-. constructor; [|done]. destruct stk as [|x r]; [cbn in Hlt; lia|]. apply List.Forall_inv in Hp. cbn in Hlt. lia.
  - destruct (pops _ stk) as [k st'] eqn:Ep. destruct (_ =? _); [|discriminate]. injection Hl as <- <-. destruct (pops_suffix _ _ _ _ Ep) as (l & -> & _).
    by apply Forall_app in Hp as [_ ?].
Qed.

Lemma layout_end stk : positive stk -> layout_line 0 stk = Some (replicate (List.length stk) TOKEN_DEDENT, []).
Proof.
  intros Hp. assert (pops 0 stk = (List.length stk, [])) as Ep.
  { induction stk as [|x r IH]; [done|]. cbn [pops]. pose proof (List.Forall_inv Hp) as Hx. cbv beta in Hx. rewrite (proj2 (Z.ltb_lt _ _) Hx).
    by rewrite IH by (by apply List.Forall_inv_tail in Hp). }
  unfold layout_line. rewrite Ep, (proj2 (Z.ltb_ge _ _)); [done|]. destruct stk as [|x r]; [done|]. apply List.Forall_inv in Hp. cbn. lia.
Qed.

Lemma scan_eof s : mid s text 0 [] -> exists e s', scan_token text s = Ret (e, s') /\ type e = TOKEN_EOF /\ shown e = structure TOKEN_EOF.
Proof.
  intros Hm. pose proof Hm as [Hc Hb Hp Hd [_ _ Ht]]. assert (text = text ++ [] ++ []) as E by (by rewrite !app_nil_r).
  unfold scan_token. rewrite (scan_inside s text 0 [] [] [] _ Hm E) by done. set (s1 := begin_token _). unfold scan_rest.
  rewrite (peek_at text [] s1 (eq_sym (app_nil_r text))) by (unfold s1; cbn [current begin_token set_current]; by rewrite app_nil_r).
  cbn [mbind outcome_bind hd Z.eqb]. change (indent_stack_top s1) with (indent_stack_top s). rewrite Ht. cbn. by eexists _, _.
Qed.

Lemma map_repeat {A B} (f : A -> B) n x : List.map f (replicate n x) = replicate n (f x).
Proof. induction n as [|n IH]; [done|]. cbn. by rewrite IH. Qed.

Lemma line_first ls post : ls <> [] -> Forall lexeme_ok ls -> hd 0 (line_text ls ++ post) <> 32 /\ hd 0 (line_text ls ++ post) <> 10.
Proof.
  intros Hne Hok. destruct ls as [|l r]; [done|]. destruct (first_char l (List.Forall_inv Hok)) as (c & x & Ec & _ & H10 & Hb). cbn [line_text]. rewrite Ec. cbn.
  split; [|done]. intros ->. done.
Qed.

Lemma scan_program : forall p s pre stk out, bol s pre stk -> positive stk -> text = pre ++ print p -> Forall line_ok p -> layout stk p = Some out ->
  exists ts s' e s2, goes s ts s' /\ scan_token text s' = Ret (e, s2) /\ type e = TOKEN_EOF /\ List.map shown (ts ++ [e]) = out.
Proof.
  induction p as [|[n ls] p IH]; intros s pre stk out Hb Hpos E Hok Hl; cbn [layout print] in Hl, E.
  - injection Hl as <-. rewrite app_nil_r in E. subst pre.
    destruct (start_line s text 0 stk _ _ [] Hb (eq_sym (app_nil_r text)) ltac:(done) ltac:(done) (layout_end stk Hpos)) as (ts & s' & Hg & Hts & Hm).
    cbn [replicate] in Hm. rewrite app_nil_r in Hm. destruct (scan_eof s' Hm) as (e & s2 & Ee & He & Hsh). exists ts, s', e, s2. split_and!; [done..|].
    rewrite map_app, Hts, map_repeat. cbn [List.map]. by rewrite Hsh.
  - destruct (List.Forall_inv Hok) as (Hne & Hls & Hdep). cbn [fst snd] in *. pose proof (List.Forall_inv_tail Hok) as Hok'.
    destruct (layout_line (Z.of_nat n) stk) as [[ind st]|] eqn:Ell; [|discriminate]. cbn in Hl. destruct (layout st p) as [out'|] eqn:Elp; [|discriminate]. cbn in Hl. injection Hl as <-.
    destruct (line_first ls (10 :: print p) Hne Hls) as [H32 H10]. destruct (start_line s pre n stk ind st _ Hb E H32 H10 Ell) as (ts1 & s1 & Hg1 & Hts1 & Hm1).
    destruct ls as [|l ls]; [done|]. cbn [line_text] in E. pose proof (List.Forall_inv Hls) as Hl0. pose proof (List.Forall_inv_tail Hls) as Hls'.
    destruct (scan_mid s1 _ 0 st [] l (line_tail ls ++ 10 :: print p) Hm1) as (t & s2 & Hg2 & Ht & Hm2); [by rewrite E, <- !app_assoc|done|done|apply line_tail_sep|].
    destruct (scan_tail st (print p) ls s2 _ _ Hm2) as (ts3 & s3 & Hg3 & Hts3 & Hb3); [by rewrite E, <- !app_assoc|done|done|].
    destruct (IH s3 _ st out' Hb3 (layout_positive _ _ _ _ Hpos Ell)) as (ts4 & s4 & e & s5 & Hg4 & Ee & He & Hout); [by rewrite E, <- !app_assoc|done|done|].
    exists (ts1 ++ (t :: ts3) ++ ts4), s4, e, s5. split; [eapply goes_trans; [exact Hg1|]; eapply goes_trans; [|exact Hg4]; by apply (goes_trans _ [t] s2)|].
    split; [done|]. split; [done|]. rewrite <- !app_assoc. rewrite map_app, Hts1. f_equal. cbn [app List.map]. rewrite Ht, !map_app, Hts3, <- app_assoc. cbn [app]. do 2 f_equal.
    rewrite <- Hout. by rewrite map_app.
Qed.

Lemma scan_all_more n : forall s ts m, scan_all text n s = Ret ts -> (n <= m)%nat -> scan_all text m s = Ret ts.
Proof.
  induction n as [|n IH]; intros s ts m E Hm.
  - cbn [scan_all] in E. destruct m; cbn [scan_all]; [done|]. apply bind_Ret_inv in E as ([t s1] & -> & E). cbn [mbind outcome_bind]. by case_match.
  - destruct m as [|m]; [lia|]. cbn [scan_all] in *. apply bind_Ret_inv in E as ([t s1] & -> & E). cbn [mbind outcome_bind]. case_match; [done|].
    apply bind_Ret_inv in E as (ts' & E1 & E2). by rewrite (IH s1 ts' m E1) by lia.
Qed.
End text.

Lemma bol_init stack file s : zlen stack = MAX_INDENT_LEVELS -> init_lexer stack file = Ret s -> bol s [] [].
Proof.
  intros Hl E. unfold init_lexer in E. rewrite wr_in_range in E by (rewrite Hl; done). cbn [mbind outcome_bind] in E. injection E as <-.
  destruct stack as [|x junk]; [discriminate|]. split; try done. split; [by exists junk|cbn [indent_stack]; by rewrite zlen_zset|done].
Qed.


(** Two nested blocks that end together. *)
Definition ex_program : program :=
  [(0%nat, [Word (txt "while"); Word (txt "x"); Op "<=" TOKEN_LTE; Num [49; 48] [53]; Op ":" TOKEN_COLON]);
   (2%nat, [Word (txt "if"); Op "(" TOKEN_LPAREN; Word (txt "y_1"); Op ")" TOKEN_RPAREN; Op ":" TOKEN_COLON]);
   (6%nat, [Word (txt "print"); Str (txt "a # b")]);
   (0%nat, [Word (txt "x"); Op "=" TOKEN_ASSIGN; Num [48] []])].

Lemma ex_lines_ok : Forall line_ok ex_program.
Proof.
  assert (forall (c : Z) r, (sage_isalpha c || (c =? 95)) && forallb word_byte r && (zlen (c :: r) <=? MAX_IDENTIFIER_LENGTH) = true -> lexeme_ok (Word (c :: r))) as Hw.
  { intros c r [[H1 H2]%andb_true_iff H3%Z.leb_le]%andb_true_iff. exists c, r. split; [done|]. split; [done|]. split; [|done]. apply List.Forall_forall. by apply List.forallb_forall. }
  assert (forall o ty, List.existsb (fun k => bool_decide (k = (o, ty))) operators = true -> lexeme_ok (Op o ty)) as Ho.
  { intros o ty (k & Hin & ->%bool_decide_eq_true)%List.existsb_exists. exact Hin. }
  repeat (apply List.Forall_cons; [split; [discriminate|split; [|reflexivity]]|]); [..|constructor]; cbn [snd];
    repeat (apply List.Forall_cons; [first [apply Hw; reflexivity|apply Ho; reflexivity|split; [discriminate|split; repeat constructor]|split; [repeat constructor|discriminate]]|]); constructor.
Qed.

End LexerLayout.
